(* ===== verification/_CoqProject ===== *)
-Q . S2P
Prelude.v
Ring.v
StateM.v
Bytes.v
Store.v
Feed.v
Timeline.v
Health.v
Compat.v
Tombstone.v
Owner.v
Policy.v
Source.v
Stream.v
Selector.v
Lifecycle.v
Sha256.v
RtmpHandshake.v
RtmpChunk.v
RtmpReader.v
RtmpWriter.v
Amf.v
TsCrc.v
Aac.v
Nal.v
TsIngest.v
TsMux.v
TsDemux.v
TsDemuxSafe.v
TsRoundtrip.v
TsStream.v
TsSession.v
RtmpParam.v
RtmpPublisher.v
RtmpFanout.v
RtmpPrepare.v
SrtStreamId.v
SrtQueue.v
SrtSender.v
HlsPlaylist.v
OwnerDir.v
Ipc.v
IpcLink.v
GraphOp.v
GraphSend.v
Egress.v
