(* ===== verification/Prelude.v ===== *)
(** * nginx-media: a verification development

    nginx-media is an nginx module that takes live media in over several transports,
    chooses one healthy source per stream and hands the result out again.  This
    development models the parts of it that decide: what is stored, what is ordered, what
    is selected, what goes on the wire and what is accepted from it.

    ** The program

    A _stream_ owns several _sources_ (src/core/ngx_media_source.c); a transport publishes
    frames on a source.  The frames of the active source are mapped onto program time
    (ngx_media_timeline.c) and published to the _program feed_ (ngx_media_feed.c), a
    bounded ring that HLS, recording and the outputs read through cursors; the frames of
    the others go to their standby caches, which hold the last group of pictures.  The
    _selector_ (ngx_media_selector.c) judges the sources by their health
    (ngx_media_health.c), their compatibility with the program (ngx_media_compat.c), their
    priority and the operator's choice, and promotes one; the switch happens on a keyframe
    behind a discontinuity (ngx_media_stream.c).  Payloads are reference-counted buffers
    shared by every holder (ngx_media_buffer.c).  At the edges, MPEG-TS is parsed and
    written (src/mpegts), SRT stream ids name the stream a caller wants and a queue feeds
    each SRT receiver (src/srt), RTMP peers shake hands and exchange chunked messages
    (src/rtmp), and every HLS destination gets its own view of the playlist
    (ngx_media_hls_playlist.c).  The workers share a directory of who drives which stream
    (ngx_media_owner_dir.c), and a publisher that reaches a worker that does not own its
    stream hands its frames over in messages (ngx_media_ipc.c).

    ** The files

    - Prelude.v: wrap-around arithmetic, list and option lemmas, tactics and hint
      databases;
    - Ring.v: positions modulo a capacity, and the bit identities of power-of-two rings;
    - StateM.v: the state monad and its weakest-precondition rules;
    - Bytes.v: big-endian fields and byte lists;
    - Store.v: src/core/ngx_media_buffer.c, ngx_media_frame.c, ngx_media_track.c: buffers,
      frames, track sets and the ownership predicate;
    - Feed.v: src/core/ngx_media_feed.c: publishing, eviction, cursors, resynchronisation,
      statistics;
    - Timeline.v: src/core/ngx_media_timeline.c: source time to program time;
    - Health.v: src/core/ngx_media_health.c: evidence, failure and recovery timers;
    - Compat.v: src/core/ngx_media_compat.c: can a candidate continue the program;
    - Tombstone.v: src/core/ngx_media_tombstone.c: remembered deletions;
    - Owner.v: src/core/ngx_media_owner.c: the identity hash and the owning worker;
    - Policy.v: src/core/ngx_media_policy.c: defaults and admission counters;
    - Source.v: src/core/ngx_media_source.c: sources, standby caches, keys, leases;
    - Stream.v: src/core/ngx_media_stream.c: the activation gate, publishing, promotion,
      switching;
    - Selector.v: src/core/ngx_media_selector.c: the selection pass and switchback;
    - Lifecycle.v: whole histories of a stream: every operation as a step, reachability,
      invariants, destruction;
    - Sha256.v: src/rtmp/ngx_media_rtmp_wire.c: SHA-256 and HMAC against their definition;
    - RtmpHandshake.v: src/rtmp/ngx_media_rtmp_wire.c: the handshake as bytes arrive, and
      its digests;
    - RtmpChunk.v: src/rtmp/ngx_media_rtmp_wire.c: the chunk reader, the chunk writer, the
      footprint;
    - RtmpReader.v: the chunk reader's invariant under any bytes;
    - RtmpWriter.v: what the chunk writer emits, and that it is what the footprint
      reserves;
    - Amf.v: src/rtmp/ngx_media_rtmp_wire.c: AMF0 values read and written;
    - TsCrc.v: src/mpegts/ngx_media_ts_crc.c: the section checksum and what it detects;
    - Aac.v: src/codec/ngx_media_aac.c: ADTS headers and AudioSpecificConfig;
    - Nal.v: src/codec/ngx_media_nal.c: Annex B units and their classification;
    - TsIngest.v: src/mpegts/ngx_media_ts_ingest.c: the bounded chunk queue;
    - TsMux.v: src/mpegts/ngx_media_ts_mux.c: bursts, tables, PES packets;
    - TsDemux.v: src/mpegts/ngx_media_ts_demux.c: packets, sections, tracks, access units;
    - TsDemuxSafe.v: the demuxer's invariant under any bytes;
    - TsRoundtrip.v: sections and packets written and read back;
    - TsStream.v: the demuxer on a stream of the muxer's packets;
    - TsSession.v: whole muxed sessions, demuxed;
    - RtmpParam.v: src/rtmp/ngx_media_rtmp_adapter.c: decoder configuration records, NAL
      units behind lengths or start codes;
    - RtmpPublisher.v: src/rtmp/ngx_media_rtmp_adapter.c: a publisher's messages become
      frames and tracks;
    - RtmpFanout.v: src/rtmp/ngx_media_rtmp_adapter.c: the ring every player of a program
      reads;
    - RtmpPrepare.v: src/rtmp/ngx_media_rtmp_adapter.c: program frames become the messages
      of players;
    - SrtStreamId.v: src/srt/ngx_media_srt_streamid.c: the access-control string a caller
      sends;
    - SrtQueue.v: src/srt/ngx_media_srt_output_queue.c: the ring of units before a
      receiver;
    - SrtSender.v: src/srt/ngx_media_srt_output.c: a destination slot, its session and what
      is sent;
    - HlsPlaylist.v: src/core/ngx_media_hls_playlist.c: media playlists trimmed, marked and
      renumbered;
    - OwnerDir.v: src/core/ngx_media_owner_dir.c: the shared table of stream owners, its
      lock and its interleavings;
    - Ipc.v: src/core/ngx_media_ipc.c: datagrams between workers, chunked frames put
      together, video held back after a loss;
    - IpcLink.v: what a publisher on another worker hands over and what its owner makes of
      it, end to end;
    - GraphOp.v: src/core/ngx_media_graph.c: graph operations written into a payload and
      read back;
    - GraphSend.v: src/core/ngx_media_graph.c, ngx_media_route.c: the fan-out to the
      workers and its repair journal;
    - Egress.v: src/core/ngx_media_egress_manager.c: admitted outputs, their statistics,
      the CPU granted, recommended senders.

    ** Conventions

    Machine integers are integers with their wrap-around written out ([u8] to [u64], [s64],
    and the infix operations on 64-bit words).  A structure is a record with the names of
    the C fields behind a short prefix; [r <| p := v |>] is an assignment to a field.  A
    stateful operation runs in the monad [SM S] of StateM.v, in which "no answer" is
    undefined behaviour (a dangling or NULL pointer followed, a read or write outside an
    allocation, an uninitialised byte read) or a loop that ran out of fuel: a theorem that
    gives an answer is a theorem of memory safety and of termination.  Payload buffers live
    in the store of Store.v, which counts references; [owns s L] says that the counts are
    exactly the references listed in [L], so that a leak or a double release breaks it.  The
    allocator is a parameter: it may refuse any request.  Callbacks the program makes (the
    demuxer's sink, the RTMP message callback) are modelled as the list of the calls made.
    Wall-clock readings are arguments.

    Loops with no structural measure take fuel: the callers pass a bound on the bytes or
    the slots a loop can visit (the comments say which), and the theorems show that the
    bound is enough, because they give an answer.

    ** What the theorems show

    - Streams (Lifecycle.v).  Over every sequence of operations: at most one source is
      active and a leased write is never cut off ([gate_safety]); the program feed is in
      decoding order ([program_feed_ordered]); a switch replays the cached group behind a
      discontinuity ([switch_cutover]); the selector picks the best usable source by its
      abstract ranking ([selection_correct], [failover_decides]); standby sources never
      reach the program ([standby_isolated]); removal and destruction give back every
      buffer ([source_removed], [destroy_no_leak]).
    - The feed (Feed.v) refines a log of which a suffix is retained
      ([publish_refines_log]); readers get the batch they are entitled to
      ([read_returns_batch], [resync_keyframe]);
      retention is bounded and nothing leaks ([publish_bounded], [feed_no_leak]).
    - Sources: the standby cache holds a complete group of pictures or nothing
      ([standby_cache_complete_gop], [preroll_push_refines]); leases keep a source alive
      ([lease_keeps_alive]).
    - Time and judgement: [program_time_monotonic]; [evaluate_decides],
      [silent_source_fails];
      [tombstone_window]; [admission_bounded].
    - MPEG-TS: a muxed session demuxes to its frames ([mux_demux_roundtrip]), a frame that
      does not fit leaves the burst alone ([write_frame_packets]), tables survive
      ([tables_roundtrip]), any bytes are parsed safely ([demux_any_bytes]), the queue is a
      bounded FIFO ([ingest_fifo]), the checksum detects corruption ([crc_protects]).
    - Codecs: [nal_roundtrip], [nal_units_clean], [adts_roundtrip], [adts_parse_bounds].
    - RTMP: the handshake does not depend on how bytes arrive and its digests verify
      ([handshake_any_split], [handshake_reply_valid]) and are FIPS 180-4's and RFC 2104's
      ([digest_reference]); the chunk
      reader survives any peer within its budget ([reader_any_bytes]); a written message
      is what was reserved for it ([message_reserved]); AMF0 values are read back as written
      ([amf_roundtrip]), by a reader no message breaks ([amf_read_any_bytes],
      [amf_depth_bounded]) and a writer that stays in its buffer ([amf_writer_bounded]).
    - RTMP adapter: configuration records round-trip ([config_roundtrip]); reframing is
      decided by what the source is and round-trips ([reframing_decides],
      [reframing_roundtrip]); no publisher breaks the adapter,
      and payloads that a receiver kept stay as they are ([publisher_any_messages]); the
      fanout ring delivers while it has room ([fanout_push_delivers]) and is silent once it
      is full by count ([fanout_full_silent]); the preparation for players is safe
      ([prepare_any_frames]), and a publisher fed what a program sent has its frames again
      ([relay_roundtrip]).
    - SRT: a stream id is read as its description says ([streamid_reference]); the queue
      before a receiver keeps the newest units that fit ([srt_push_keeps_newest]) and hands
      them out in order, from a sync boundary after a loss ([srt_consumer_in_order]); over
      every schedule of a destination slot each session receives the bytes of whole bursts,
      behind a gap from a sync boundary on, and no burst leaks ([srt_wire_gapless]).
    - HLS: a playlist is rewritten into its trimmed and marked form ([rewrite_trims]), every
      segment keeps its numbers ([rewrite_keeps_numbers]), no input breaks the rewriting
      ([rewrite_any_bytes]) and the room its caller gives is enough ([rewrite_room]).
    - The owner directory: over every interleaving of its users the table is well formed,
      the lock excludes and every call ends ([dir_interleaved]); it refines a map of the
      owned streams ([dir_refines]), and a fresh record is not put out by other streams
      ([dir_live_record_stays]).
    - Routed publishers: a session whose stream another worker owns delivers there exactly
      the frames that were sent whole ([routed_frames_whole]), no datagram breaks the owner
      ([routed_any_datagrams]), and after a loss no video goes into the gap
      ([routed_resync]).
    - Graph operations: an operation travels unchanged ([graph_op_roundtrip]), no payload
      breaks its reader ([graph_decode_any]), an accepted mutation reaches every worker or is
      still going to, a refused one is posted to nobody ([graph_at_least_once]), and the journal drains ([journal_drains]).
    - The egress manager: its list is a map from tokens to saturating counters
      ([egress_refines]); SRT senders follow the lanes in use ([srt_follows_lanes]), the
      upload pool moves one worker at a time for the reasons it should ([pool_moves]) and
      never grows twice within two seconds ([growth_paced]); the quota files and clocks of
      the host are read within bounds ([quota_reads], [sample_bounded]).

    ** Not modelled

    nginx glue (configuration parsing, events, timers, HTTP request handling, JSON
    rendering: most of ngx_media_runtime.c, ngx_media_core_module.c, ngx_media_http.c,
    ngx_media_api_module.c, ngx_media_rtmp_module.c, ngx_media_srt_module.c), socket and
    thread code (the SRT transport and its libsrt binding, HLS push and pull), the
    shared-memory generations of the routes (ngx_media_route.c), child processes
    (ngx_media_executor.c), file I/O
    (ngx_media_file.c, ngx_media_record.c) and OpenSSL calls (ngx_media_key.c): their
    behaviour is that of an environment that is not in the sources.  Left out although
    they are in the sources: the stream registry and the application of graph operations to
    it (ngx_media_registry.c, ngx_media_graph.c), the RTMP session loops of
    ngx_media_rtmp_module.c and ngx_media_rtmp_destination.c around the wire and adapter
    components, the destinations of the streams (ngx_media_destination.c) and the HLS
    segmenter (src/hls); they drive the components modelled here from event-loop code and
    add their own lists and timers. *)
From Stdlib Require Import Lia.
From coqutil Require Export Z.bitblast.
From stdpp Require Export base gmap strings numbers option list.
#[export] Set Default Goal Selector "!".

Open Scope Z_scope.

(** ** Machine integers

    [ngx_uint_t], [ngx_msec_t], [size_t] and [uint64_t] are all 64-bit unsigned
    on the platforms the code is built for; [int64_t] is two's complement. *)
Definition u8 (x : Z) : Z := x mod 2 ^ 8.
Definition u16 (x : Z) : Z := x mod 2 ^ 16.
Definition u32 (x : Z) : Z := x mod 2 ^ 32.
Definition u64 (x : Z) : Z := x mod 2 ^ 64.
Definition s64 (x : Z) : Z := (x + 2 ^ 63) mod 2 ^ 64 - 2 ^ 63.

Declare Scope media_scope.
Delimit Scope media_scope with media.
Notation "x ⊕ y" := (u64 (x + y)) (at level 50, left associativity) : media_scope.
Notation "x ⊖ y" := (u64 (x - y)) (at level 50, left associativity) : media_scope.
Open Scope media_scope.

Definition is_u64 (x : Z) : Prop := 0 ≤ x < 2 ^ 64.
Definition is_s64 (x : Z) : Prop := - 2 ^ 63 ≤ x < 2 ^ 63.
Definition is_byte (x : Z) : Prop := 0 ≤ x < 256.

#[global] Instance is_u64_dec x : Decision (is_u64 x).
Proof. unfold is_u64. apply _. Defined.
#[global] Instance is_s64_dec x : Decision (is_s64 x).
Proof. unfold is_s64. apply _. Defined.
#[global] Instance is_byte_dec x : Decision (is_byte x).
Proof. unfold is_byte. apply _. Defined.

Lemma u64_small x : 0 ≤ x < 2 ^ 64 → u64 x = x.
Proof. apply Z.mod_small. Qed.
Lemma u64_range x : 0 ≤ u64 x < 2 ^ 64.
Proof. by apply Z.mod_pos_bound. Qed.
Lemma u64_mod a b : a mod 2 ^ 64 = b mod 2 ^ 64 → u64 a = u64 b.
Proof. done. Qed.
Lemma u64_add_l a b : u64 (u64 a + b) = u64 (a + b).
Proof. apply Zplus_mod_idemp_l. Qed.
Lemma u64_add_r a b : u64 (a + u64 b) = u64 (a + b).
Proof. apply Zplus_mod_idemp_r. Qed.
Lemma u64_sub_l a b : u64 (u64 a - b) = u64 (a - b).
Proof. apply Zminus_mod_idemp_l. Qed.
Lemma u64_sub_r a b : u64 (a - u64 b) = u64 (a - b).
Proof. apply Zminus_mod_idemp_r. Qed.
Lemma u8_range x : is_byte (u8 x).
Proof. by apply Z.mod_pos_bound. Qed.
Lemma u8_small x : is_byte x → u8 x = x.
Proof. apply Z.mod_small. Qed.
Lemma s64_small x : is_s64 x → s64 x = x.
Proof. unfold s64, is_s64. intros. rewrite Z.mod_small; lia. Qed.
Lemma s64_range x : is_s64 (s64 x).
Proof.
  unfold s64, is_s64. pose proof (Z.mod_pos_bound (x + 2 ^ 63) (2 ^ 64)). lia.
Qed.

Create HintDb media.
Create Rewrite HintDb media.
#[export] Hint Resolve u64_range u8_range s64_range : media.
#[export] Hint Rewrite u64_add_l u64_add_r u64_sub_l u64_sub_r : media.

(** Return codes of the nginx API the code uses. *)
Inductive rc := NGX_OK | NGX_ERROR | NGX_AGAIN | NGX_DECLINED.
#[global] Instance rc_eq_dec : EqDecision rc.
Proof. solve_decision. Defined.

(** ** Tactics *)
(** [caseb] splits the conditional the goal is stuck on. *)
Ltac caseb :=
  match goal with
  | |- context [if bool_decide ?P then _ else _] => destruct (bool_decide_reflect P)
  | |- context [if decide ?P then _ else _] => destruct (decide P)
  | |- context [if ?a <? ?b then _ else _] => destruct (Z.ltb_spec a b)
  | |- context [if ?a <=? ?b then _ else _] => destruct (Z.leb_spec a b)
  | |- context [if ?a =? ?b then _ else _] => destruct (Z.eqb_spec a b)
  end.
Ltac caseb_bool :=
  match goal with |- context [if ?b then _ else _] => destruct b eqn:? end.
Ltac caseb_in H :=
  match type of H with
  | context [if bool_decide ?P then _ else _] => destruct (bool_decide_reflect P)
  | context [if decide ?P then _ else _] => destruct (decide P)
  | context [if ?a <? ?b then _ else _] => destruct (Z.ltb_spec a b)
  | context [if ?a <=? ?b then _ else _] => destruct (Z.leb_spec a b)
  | context [if ?a =? ?b then _ else _] => destruct (Z.eqb_spec a b)
  end.

(** [sub_app] proves [l ⊆ ... ++ l ++ ...]. *)
Ltac sub_app :=
  first [ done | assumption
        | apply list_subseteq_app_l; sub_app
        | apply list_subseteq_app_r; sub_app ].

(** ** Lists of integers *)
Definition sumZ (l : list Z) : Z := foldr Z.add 0 l.

Lemma sumZ_app l k : sumZ (l ++ k) = sumZ l + sumZ k.
Proof. induction l; simpl; lia. Qed.
Lemma sumZ_nonneg l : Forall (λ x, 0 ≤ x) l → 0 ≤ sumZ l.
Proof. induction 1; simpl; lia. Qed.

(** ** Functional record update

    An [Eta] instance spells a record out as its constructor applied to its
    projections; a [Setter] for a projection is derived from it, and
    [r <| p := v |>] is [r] with the field [p] replaced. *)
Class Eta (R : Type) := eta : R → R.
Class Setter {R E : Type} (proj : R → E) := setf : (E → E) → R → R.
Arguments setf {R E} proj {_} f r /.

Ltac derive_setter :=
  lazymatch goal with
  | |- @Setter ?R ?E ?proj =>
      let i := constr:(ltac:(typeclasses eauto) : Eta R) in
      let i := lazymatch i with ?x => x end in
      let b := eval cbv delta [i] in i in
      lazymatch eval pattern proj in b with
      | ?k _ =>
          let t := constr:(λ (f : E → E) (r : R), k (λ r', f (proj r')) r) in
          let t := eval cbv beta in t in
          exact t
      end
  end.
#[global] Hint Extern 0 (Setter _) => derive_setter : typeclass_instances.

Notation "r <| p := v |>" := (setf p (λ _, v) r)
  (at level 1, left associativity, p at level 2,
   format "r <| p  :=  v |>") : media_scope.
Notation "r <| p ::= f |>" := (setf p f r)
  (at level 1, left associativity, p at level 2,
   format "r <| p  ::=  f |>") : media_scope.
