(* ===== verification/Ring.v ===== *)
(** * Power-of-two rings

    Three components keep a ring of slots addressed by free-running sequence
    numbers masked with [capacity - 1]: the program feed, the standby cache of a
    source and the raw-TS ingest queue.  This file holds what they share: the
    [pow2] sizing loop, the slot index, and the window of slots between two
    sequence numbers with its push and pop laws. *)
From S2P Require Import Prelude.

(** The sizing loop [for (p = 1; p < n; p <<= 1) if (p > (ngx_uint_t) -1 >> 1) return 0]. *)
Fixpoint pow2_loop (fuel : nat) (p n : Z) : option Z :=
  match fuel with
  | O => None
  | S fuel =>
      if p <? n then
        if Z.shiftr (2 ^ 64 - 1) 1 <? p then Some 0
        else pow2_loop fuel (u64 (Z.shiftl p 1)) n
      else Some p
  end.

(** 65 iterations cover every 64-bit [n]: [p] doubles from 1 and the loop leaves
    at [2 ^ 63] at the latest ([pow2_spec]). *)
Definition pow2 (n : Z) : Z := default 0 (pow2_loop 65 1 n).

Definition ring_idx (cap seq : Z) : nat := Z.to_nat (Z.land seq (cap - 1)).

Definition window {A} (slots : list A) (cap tail head : Z) : list A :=
  omap (λ seq, slots !! ring_idx cap seq) (seqZ tail (head - tail)).

Definition is_pow2 (cap : Z) : Prop := ∃ k, 0 ≤ k ∧ cap = 2 ^ k.

(** ** The sizing loop *)

Lemma pow2_loop_spec (fuel : nat) k n :
  0 ≤ k → 64 - k < Z.of_nat fuel → k ≤ 63 → (k = 0 ∨ 2 ^ (k - 1) < n) →
  n < 2 ^ 64 →
  (n ≤ 2 ^ 63 ∧
     ∃ j, k ≤ j ≤ 63 ∧ pow2_loop fuel (2 ^ k) n = Some (2 ^ j) ∧ n ≤ 2 ^ j ∧
          (j = 0 ∨ 2 ^ (j - 1) < n)) ∨
  (2 ^ 63 < n ∧ pow2_loop fuel (2 ^ k) n = Some 0).
Proof.
  revert k. induction fuel as [|fuel IH]; intros k Hk Hf Hk63 Hlow Hn; [lia|].
  cbn [pow2_loop].
  destruct (Z.ltb_spec (2 ^ k) n) as [Hlt|Hge].
  2:{ left. split; [pose proof (Z.pow_le_mono_r 2 k 63); lia|].
      exists k. repeat split; auto; lia. }
  change (Z.shiftr (2 ^ 64 - 1) 1) with (2 ^ 63 - 1).
  destruct (Z.ltb_spec (2 ^ 63 - 1) (2 ^ k)) as [Hbig|Hsmall].
  { right. split; [|done]. lia. }
  assert (k < 63) as Hk'.
  { destruct (decide (k = 63)); [subst; lia|lia]. }
  assert (u64 (Z.shiftl (2 ^ k) 1) = 2 ^ (k + 1)) as ->.
  { rewrite Z.shiftl_mul_pow2, Z.pow_add_r by lia. apply u64_small.
    pose proof (Z.pow_le_mono_r 2 k 62). pose proof (Z.pow_nonneg 2 k). lia. }
  destruct (IH (k + 1)) as [(? & j & Hj & Heq & Hnj & Hjl)|[? Heq]]; try lia.
  { right. by replace (k + 1 - 1) with k by lia. }
  - left. split; [done|]. exists j. repeat split; auto; lia.
  - by right.
Qed.

Lemma pow2_spec n :
  n < 2 ^ 64 →
  (n ≤ 2 ^ 63 ∧ ∃ j, 0 ≤ j ≤ 63 ∧ pow2 n = 2 ^ j ∧ n ≤ 2 ^ j ∧ (j = 0 ∨ 2 ^ (j - 1) < n)) ∨
  (2 ^ 63 < n ∧ pow2 n = 0).
Proof.
  intros Hn. unfold pow2.
  destruct (pow2_loop_spec 65 0 n) as [(? & j & Hj & Heq & ?)|[? Heq]]; try lia.
  - left. split; [done|]. exists j. change (2 ^ 0) with 1 in Heq. rewrite Heq.
    split_and!; simpl; auto; lia.
  - right. change (2 ^ 0) with 1 in Heq. by rewrite Heq.
Qed.

Lemma pow2_nonzero n : n < 2 ^ 64 → pow2 n ≠ 0 → is_pow2 (pow2 n) ∧ n ≤ pow2 n.
Proof.
  intros Hn Hz. destruct (pow2_spec n Hn) as [(_ & j & Hj & -> & ? & _)|[_ ?]]; [|done].
  split; [|done]. exists j. lia.
Qed.

Lemma is_pow2_pos cap : is_pow2 cap → 0 < cap.
Proof. intros (k & ? & ->). apply Z.pow_pos_nonneg; lia. Qed.

(** ** Slot indices *)

Lemma ring_idx_mod cap seq :
  is_pow2 cap → 0 ≤ seq → Z.of_nat (ring_idx cap seq) = seq mod cap.
Proof.
  intros (k & Hk & ->) Hs. unfold ring_idx.
  replace (2 ^ k - 1) with (Z.ones k) by (rewrite Z.ones_equiv; lia).
  rewrite Z.land_ones by lia.
  rewrite Z2Nat.id; [done|]. apply Z.mod_pos_bound. apply Z.pow_pos_nonneg; lia.
Qed.

Lemma ring_idx_lt cap seq :
  is_pow2 cap → 0 ≤ seq → (ring_idx cap seq < Z.to_nat cap)%nat.
Proof.
  intros Hp Hs. pose proof (ring_idx_mod cap seq Hp Hs).
  pose proof (is_pow2_pos cap Hp). pose proof (Z.mod_pos_bound seq cap). lia.
Qed.

Lemma ring_idx_inj cap a b :
  is_pow2 cap → 0 ≤ a → 0 ≤ b → Z.abs (a - b) < cap →
  ring_idx cap a = ring_idx cap b → a = b.
Proof.
  intros Hp Ha Hb Hab Heq. pose proof (is_pow2_pos cap Hp).
  pose proof (ring_idx_mod cap a Hp Ha). pose proof (ring_idx_mod cap b Hp Hb).
  pose proof (Z.div_mod a cap). pose proof (Z.div_mod b cap).
  assert (a mod cap = b mod cap) by congruence.
  assert (a / cap = b / cap); [nia|]. nia.
Qed.

(** ** Windows *)

Section windows.
Context {A : Type} (cap : Z) (Hcap : is_pow2 cap).
Implicit Types (slots : list A) (x : A) (tail head seq : Z).

Lemma window_empty slots tail head : head ≤ tail → window slots cap tail head = [].
Proof. intros. unfold window. by rewrite seqZ_nil by lia. Qed.

Lemma window_cons slots tail head x :
  tail < head → slots !! ring_idx cap tail = Some x →
  window slots cap tail head = x :: window slots cap (tail + 1) head.
Proof.
  intros Hlt Hx. unfold window.
  rewrite seqZ_cons by lia. cbn [omap list_omap]. rewrite Hx.
  by replace (Z.pred (head - tail)) with (head - (tail + 1)) by lia.
Qed.

Lemma window_snoc slots tail head x :
  tail ≤ head → slots !! ring_idx cap head = Some x →
  window slots cap tail (head + 1) = window slots cap tail head ++ [x].
Proof.
  intros Hle Hx. unfold window.
  replace (head + 1 - tail) with ((head - tail) + 1) by lia.
  rewrite seqZ_app, omap_app by lia. f_equal.
  rewrite (seqZ_cons (tail + (head - tail)) 1), seqZ_nil by lia. cbn [omap list_omap].
  replace (tail + (head - tail)) with head by lia. by rewrite Hx.
Qed.

Lemma window_insert_other slots tail head seq x :
  0 ≤ tail → head - tail ≤ cap → 0 ≤ seq →
  (∀ i, tail ≤ i < head → ring_idx cap i ≠ ring_idx cap seq) →
  window (<[ring_idx cap seq := x]> slots) cap tail head = window slots cap tail head.
Proof.
  intros Ht Hlen Hs Hne. unfold window.
  assert (∀ i, i ∈ seqZ tail (head - tail) → ring_idx cap i ≠ ring_idx cap seq) as Hin.
  { intros i Hi%elem_of_seqZ. apply Hne. lia. }
  clear Hne. induction (seqZ tail (head - tail)) as [|i l IH]; [done|].
  cbn [omap list_omap]. rewrite list_lookup_insert_ne by (symmetry; apply Hin; set_solver).
  rewrite IH by set_solver. done.
Qed.

(** Writing the head slot and advancing the head appends. *)
Lemma window_push slots tail head x :
  Z.of_nat (length slots) = cap → 0 ≤ tail ≤ head → head - tail < cap →
  window (<[ring_idx cap head := x]> slots) cap tail (head + 1)
    = window slots cap tail head ++ [x].
Proof.
  intros Hl Ht Hroom.
  rewrite (window_snoc _ _ _ x); [|lia|].
  2:{ apply list_lookup_insert_eq. pose proof (ring_idx_lt cap head Hcap). lia. }
  f_equal. apply window_insert_other; try lia.
  intros i Hi Heq. apply ring_idx_inj in Heq; auto; lia.
Qed.

(** Overwriting the tail slot while advancing the tail only pops. *)
Lemma window_pop_write slots tail head x :
  0 ≤ tail < head → head - tail ≤ cap →
  window (<[ring_idx cap tail := x]> slots) cap (tail + 1) head
    = window slots cap (tail + 1) head.
Proof.
  intros Ht Hroom. apply window_insert_other; try lia.
  intros i Hi Heq. apply ring_idx_inj in Heq; auto; lia.
Qed.

Lemma lookup_slot slots seq :
  Z.of_nat (length slots) = cap → 0 ≤ seq → is_Some (slots !! ring_idx cap seq).
Proof. intros Hl Hs. apply lookup_lt_is_Some. pose proof (ring_idx_lt cap seq Hcap). lia. Qed.

Lemma length_window slots tail head :
  Z.of_nat (length slots) = cap → 0 ≤ tail ≤ head →
  Z.of_nat (length (window slots cap tail head)) = head - tail.
Proof.
  intros Hl Ht. remember (Z.to_nat (head - tail)) as n eqn:Hn.
  revert tail Ht Hn. induction n as [|n IH]; intros tail Ht Hn.
  { rewrite window_empty by lia. simpl. lia. }
  destruct (lookup_slot slots tail Hl) as [x Hx]; [lia|].
  rewrite (window_cons _ _ _ x) by (auto; lia). cbn [length].
  rewrite Nat2Z.inj_succ, IH by lia. lia.
Qed.

Lemma lookup_window slots tail head seq :
  Z.of_nat (length slots) = cap → 0 ≤ tail → tail ≤ seq < head →
  window slots cap tail head !! Z.to_nat (seq - tail) = slots !! ring_idx cap seq.
Proof.
  intros Hl Ht Hseq. remember (Z.to_nat (seq - tail)) as n eqn:Hn.
  revert tail Ht Hseq Hn. induction n as [|n IH]; intros tail Ht Hseq Hn.
  all: destruct (lookup_slot slots tail Hl) as [x Hx]; [lia|].
  all: rewrite (window_cons _ _ _ x) by (auto; lia).
  - replace seq with tail by lia. by rewrite Hx.
  - cbn. apply IH; lia.
Qed.

Lemma window_split slots tail mid head :
  tail ≤ mid ≤ head →
  window slots cap tail head = window slots cap tail mid ++ window slots cap mid head.
Proof.
  intros. unfold window. rewrite <- omap_app.
  replace (seqZ mid (head - mid)) with (seqZ (tail + (mid - tail)) (head - mid)) by (f_equal; lia).
  rewrite <- seqZ_app by lia. do 2 f_equal. lia.
Qed.
End windows.
