(* ===== verification/StateM.v ===== *)
(** * State, failure and weakest preconditions

    The monad the stateful components run in: a computation takes a state and gives a
    result with the next state, or no answer - undefined behaviour, or a loop that ran out
    of fuel.  [wp m Q s] says that [m] started in [s] has an answer and that it satisfies
    [Q]. *)
From S2P Require Import Prelude.

Definition SM (S A : Type) : Type := S → option (A * S).
#[global] Instance SM_ret {S} : MRet (SM S) := λ A a s, Some (a, s).
#[global] Instance SM_bind {S} : MBind (SM S) := λ A B k m s,
  match m s with None => None | Some (a, s') => k a s' end.
Definition ub {S A} : SM S A := λ _, None.
Definition sget {S A} (f : S → A) : SM S A := λ s, Some (f s, s).
Definition smod {S} (f : S → S) : SM S unit := λ s, Some (tt, f s).
(** A partial read: no answer is no answer. *)
Definition sread {S A} (x : option A) : SM S A := λ s, a ← x; Some (a, s).

Definition wp {S A} (m : SM S A) (Q : A → S → Prop) (s : S) : Prop :=
  ∃ a s', m s = Some (a, s') ∧ Q a s'.

Section wp.
Context {S A B : Type}.
Implicit Types (Q : A → S → Prop) (s : S).

Lemma wp_ret (a : A) Q s : Q a s → wp (mret a) Q s.
Proof. intros. by exists a, s. Qed.
Lemma wp_mono (m : SM S A) Q Q' s : wp m Q s → (∀ a s', Q a s' → Q' a s') → wp m Q' s.
Proof. intros (a & s' & ? & ?) HQ. exists a, s'. auto. Qed.
Lemma wp_bind (m : SM S A) (k : A → SM S B) (R : B → S → Prop) s :
  wp m (λ a, wp (k a) R) s → wp (m ≫= k) R s.
Proof.
  intros (a & s' & Hm & b & s'' & Hk & HQ). exists b, s''. split; [|done].
  unfold mbind, SM_bind. by rewrite Hm.
Qed.
Lemma wp_run (m : SM S A) Q s a s' : wp m Q s → m s = Some (a, s') → Q a s'.
Proof. intros (? & ? & ? & ?) ?. naive_solver. Qed.
Lemma wp_get (f : S → A) Q s : Q (f s) s → wp (sget f) Q s.
Proof. intros. by exists (f s), s. Qed.
Lemma wp_mod (f : S → S) (Q : unit → S → Prop) s : Q tt (f s) → wp (smod f) Q s.
Proof. intros. by exists tt, (f s). Qed.
Lemma wp_read (x : option A) Q s a : x = Some a → Q a s → wp (sread x) Q s.
Proof. intros -> ?. by exists a, s. Qed.
Lemma wp_and (m : SM S A) Q Q' s : wp m Q s → wp m Q' s → wp m (λ a s', Q a s' ∧ Q' a s') s.
Proof. intros (a & s' & Hm & HQ) HQ'. exists a, s'. split_and!; [done..|]. by eapply wp_run. Qed.
End wp.

(** Three steps specified together, with more behind them. *)
Lemma wp_bind3 {S A B C E} (a : SM S A) (b : A → SM S B) (c : A → B → SM S C) (r : C → SM S E)
    (R : E → S → Prop) s :
  wp (a ≫= λ x, b x ≫= λ y, c x y) (λ z, wp (r z) R) s →
  wp (a ≫= λ x, b x ≫= λ y, c x y ≫= r) R s.
Proof.
  intros (z & s' & Hm & e & s'' & Hr & HR). exists e, s''. split; [|done].
  unfold mbind, SM_bind in *. destruct (a s) as [[x s1]|]; [|done].
  destruct (b x s1) as [[y s2]|]; [|done]. by rewrite Hm.
Qed.
