(* ===== verification/Bytes.v ===== *)
(** * Bytes

    Byte strings as lists of integers, reads that fail out of range, and the bit-field
    arithmetic the wire formats share. *)
From S2P Require Import Prelude.

Definition bytes (l : list Z) : Prop := Forall is_byte l.
#[global] Instance bytes_dec l : Decision (bytes l).
Proof. unfold bytes. apply _. Defined.

Definition lenZ (l : list Z) : Z := Z.of_nat (length l).

Lemma bytes_lookup l (i : nat) b : bytes l → l !! i = Some b → is_byte b.
Proof. unfold bytes. rewrite Forall_lookup. eauto. Qed.

(** The big-endian representation of a 32-bit value. *)
Definition be32 (v : Z) : list Z :=
  [u8 (Z.shiftr v 24); u8 (Z.shiftr v 16); u8 (Z.shiftr v 8); u8 v].

Lemma be32_bytes v : bytes (be32 v).
Proof. repeat constructor; apply u8_range. Qed.

(** ** Bit fields *)

Lemma lor_shift a b k : 0 ≤ k → 0 ≤ b < 2 ^ k → Z.lor (Z.shiftl a k) b = a * 2 ^ k + b.
Proof.
  intros Hk Hb. rewrite Z.shiftl_mul_pow2 by done. symmetry. apply Z.add_nocarry_lor.
  apply Z.bits_inj'. intros i Hi. rewrite Z.land_spec, Z.bits_0.
  destruct (Z.ltb_spec i k).
  - by rewrite Z.mul_pow2_bits_low by done.
  - replace (Z.testbit b i) with false; [apply andb_false_r|].
    symmetry. rewrite Z.testbit_false by lia. rewrite Z.div_small; [done|].
    pose proof (Z.pow_le_mono_r 2 k i). lia.
Qed.

Lemma land_ones x k : 0 ≤ k → Z.land x (2 ^ k - 1) = x mod 2 ^ k.
Proof. intros. rewrite <- Z.land_ones by done. by rewrite Z.ones_equiv, Z.sub_1_r. Qed.

Lemma shiftr_div x k : 0 ≤ k → Z.shiftr x k = x / 2 ^ k.
Proof. apply Z.shiftr_div_pow2. Qed.

(** Deciding a property of the integers below a bound. *)
Lemma forall_below (P : Z → bool) n :
  forallb P (seqZ 0 n) = true → ∀ x, 0 ≤ x < n → P x = true.
Proof. rewrite forallb_forall. intros H x Hx. apply H, list_elem_of_In, elem_of_seqZ. lia. Qed.

(** A small integer's fields, decided by enumeration. *)
Lemma pair_below (P : Z → Z → bool) n m :
  forallb (λ x, forallb (P x) (seqZ 0 m)) (seqZ 0 n) = true →
  ∀ x y, 0 ≤ x < n → 0 ≤ y < m → P x y = true.
Proof.
  intros H x y Hx Hy. apply (forall_below (P x) m); [|done].
  by apply (forall_below (λ x, forallb (P x) (seqZ 0 m)) n).
Qed.

(** Disjoint bit fields add up. *)
Lemma lor_add a b k : 0 ≤ k → a mod 2 ^ k = 0 → 0 ≤ b < 2 ^ k → Z.lor a b = a + b.
Proof.
  intros Hk Ha Hb. replace a with (Z.shiftl (a / 2 ^ k) k) at 1.
  - rewrite lor_shift by done. rewrite <- (Z.mul_comm (2 ^ k)), <- Z_div_exact_full_2; lia.
  - rewrite Z.shiftl_mul_pow2, Z.mul_comm, <- Z_div_exact_full_2 by lia. done.
Qed.

Lemma shiftl_mul x k : 0 ≤ k → Z.shiftl x k = x * 2 ^ k.
Proof. apply Z.shiftl_mul_pow2. Qed.

Lemma lenZ_app l k : lenZ (l ++ k) = lenZ l + lenZ k.
Proof. unfold lenZ. rewrite length_app. lia. Qed.
Lemma lenZ_nonneg l : 0 ≤ lenZ l.
Proof. unfold lenZ. lia. Qed.
Lemma lenZ_nil l : lenZ l = 0 → l = [].
Proof. destruct l; [done|]. unfold lenZ. cbn. lia. Qed.

(** ** Ranges of a buffer *)

(** [n] bytes read one after the other. *)
Definition bytes_at (d : list Z) (i n : nat) : option (list Z) :=
  if (i + n <=? length d)%nat then Some (take n (drop i d)) else None.
Lemma bytes_at_some d i n : (i + n ≤ length d)%nat → bytes_at d i n = Some (take n (drop i d)).
Proof. intros. unfold bytes_at. by rewrite (proj2 (Nat.leb_le _ _)). Qed.
Lemma bytes_at_length d i n b : bytes_at d i n = Some b → length b = n.
Proof.
  unfold bytes_at. destruct (Nat.leb_spec (i + n) (length d)); [|done]. intros [= <-].
  rewrite length_take, length_drop. lia.
Qed.
Lemma bytes_at_app pre l post : bytes_at (pre ++ l ++ post) (length pre) (length l) = Some l.
Proof.
  rewrite bytes_at_some by (rewrite !length_app; lia). by rewrite drop_app_length, take_app_length.
Qed.
Lemma bytes_at_mid message off pre l post :
  message = pre ++ l ++ post → off = length pre → bytes_at message off (length l) = Some l.
Proof. intros -> ->. apply bytes_at_app. Qed.

(** ** Big-endian fields *)

Lemma lookup_some (d : list Z) i : (i < length d)%nat → is_Some (d !! i).
Proof. apply lookup_lt_is_Some_2. Qed.

Definition u16_at (d : list Z) (i : nat) : option Z :=
  a ← d !! i; b ← d !! S i; Some (Z.lor (Z.shiftl a 8) b).
Lemma u16_at_some d i : (i + 2 ≤ length d)%nat → is_Some (u16_at d i).
Proof.
  intros. unfold u16_at. destruct (lookup_some d i) as [a ->]; [lia|].
  destruct (lookup_some d (S i)) as [b ->]; [lia|]. by eexists.
Qed.
Lemma land_ff v : Z.land v 0xFF = v mod 256.
Proof. apply (land_ones v 8). lia. Qed.

Lemma u16_drop d pos i l : drop pos d = l → u16_at d (pos + i) = u16_at l i.
Proof.
  intros <-. unfold u16_at. rewrite !lookup_drop. by replace (pos + S i)%nat with (S (pos + i)) by lia.
Qed.
Definition be16 (v : Z) : list Z := [u8 (Z.shiftr v 8); u8 v].
Lemma u16_be16 x v y : 0 ≤ v ≤ 0xFFFF → u16_at (x ++ be16 v ++ y) (length x) = Some v.
Proof.
  intros Hv. replace (length x) with (length x + 0)%nat by lia.
  rewrite (u16_drop _ _ _ _ (drop_app_length x _)). unfold u16_at, be16, u8. cbn [app lookup list_lookup]. cbn.
  f_equal. rewrite shiftr_div, shiftl_mul by done. change (2 ^ 8) with 256.
  rewrite (Z.mod_small (v / 256)) by (split; [apply Z.div_pos; lia|apply Z.div_lt_upper_bound; lia]).
  pose proof (Z.mod_pos_bound v 256). pose proof (Z.div_mod v 256).
  rewrite (lor_add _ _ 8); [lia|done|apply Z_mod_mult|lia].
Qed.
