(* ===== verification/Store.v ===== *)
(** * Payload buffers, frames and track sets

    Models core/ngx_media_buffer.[ch], ngx_media_frame.[ch] and
    ngx_media_track.[ch].  Payload buffers live in a store with an explicit
    reference count, so sharing a payload is sharing an identifier.  Operations
    run in the monad [M]: [None] is undefined behaviour (a dangling buffer is
    dereferenced, a write leaves its allocation).  [owns s L] says that the
    store's counts are exactly the references listed in [L]. *)
From S2P Require Import Prelude Bytes.
From S2P Require Export StateM.

(** ** The store *)

(** [b_data] holds the bytes written so far from offset 0; the area behind it is
    allocated and uninitialised.  The count is an unbounded integer: a count is
    the number of pointers held in memory, which cannot reach 2^64. *)
Record buf := mk_buf { b_refs : Z; b_len : Z; b_cap : Z; b_data : list Z }.

(** [st_alloc n size] is the allocator's answer to the [n]-th request. *)
Record store := mk_store {
  st_bufs : gmap N buf;
  st_next : N;
  st_alloc : N → Z → bool;
}.

Notation M := (SM store).

Definition set_bufs (bs : gmap N buf) (s : store) : store :=
  mk_store bs (st_next s) (st_alloc s).
Definition deref (id : N) : M buf := λ s,
  match st_bufs s !! id with Some b => Some (b, s) | None => None end.
Definition put_buf (id : N) (b : buf) : M unit := λ s,
  Some (tt, set_bufs (<[id := b]> (st_bufs s)) s).
Definition free_buf (id : N) : M unit := λ s,
  Some (tt, set_bufs (delete id (st_bufs s)) s).

(** [ngx_alloc]: a fresh address or NULL.  The allocator refuses what exceeds the
    signed address range (PTRDIFF_MAX) and may refuse anything else. *)
Definition ngx_alloc (size : Z) : M (option N) := λ s,
  Some (if (size <? 2 ^ 63) && st_alloc s (st_next s) size then Some (st_next s) else None,
        mk_store (st_bufs s) (N.succ (st_next s)) (st_alloc s)).

(** ** ngx_media_buffer.c *)

(** sizeof(ngx_media_buf_t) *)
Definition buf_header : Z := 32.

Definition buf_alloc (capacity : Z) : M (option N) :=
  if 2 ^ 64 <=? buf_header + capacity then mret None
  else
    p ← ngx_alloc (buf_header + capacity);
    match p with
    | None => mret None
    | Some id => put_buf id (mk_buf 1 0 capacity []) ;; mret (Some id)
    end.

Definition buf_freeze (buf : option N) (len : Z) : M rc :=
  match buf with
  | None => mret NGX_ERROR
  | Some id =>
      b ← deref id;
      if b_cap b <? len then mret NGX_ERROR
      else put_buf id (mk_buf (b_refs b) len (b_cap b) (b_data b)) ;; mret NGX_OK
  end.

Definition buf_ref (buf : option N) : M (option N) :=
  match buf with
  | None => mret None
  | Some id =>
      b ← deref id;
      put_buf id (mk_buf (b_refs b + 1) (b_len b) (b_cap b) (b_data b)) ;; mret (Some id)
  end.

Definition buf_unref (buf : option N) : M unit :=
  match buf with
  | None => mret tt
  | Some id =>
      b ← deref id;
      if b_refs b =? 1 then free_buf id
      else put_buf id (mk_buf (b_refs b - 1) (b_len b) (b_cap b) (b_data b))
  end.

(** [ngx_memcpy(buf->data + off, src, n)]: outside the allocation is undefined. *)
Definition buf_write (id : N) (off : Z) (src : list Z) : M unit :=
  b ← deref id;
  if (0 <=? off) && (off <=? Z.of_nat (length (b_data b)))
     && (off + Z.of_nat (length src) <=? b_cap b)
  then put_buf id (mk_buf (b_refs b) (b_len b) (b_cap b)
         (take (Z.to_nat off) (b_data b) ++ src
          ++ drop (Z.to_nat off + length src) (b_data b)))
  else ub.

(** ngx_media_buf_size: the length of a payload, 0 for none. *)
Definition buf_size (buf : option N) : M Z :=
  match buf with None => mret 0 | Some id => b ← deref id; mret (b_len b) end.

(** [n] bytes read from [ngx_media_buf_data]; bytes nobody wrote are indeterminate. *)
Definition buf_read (id : N) (n : Z) : M (list Z) :=
  b ← deref id;
  if n <=? Z.of_nat (length (b_data b)) then mret (take (Z.to_nat n) (b_data b)) else ub.

(** ** ngx_media_frame.c *)

Record frame := mk_frame {
  media_type : Z; codec : Z; payload_format : Z; track_index : Z;
  pts : Z; dts : Z; keyframe : bool; config : bool; payload : option N }.

Definition frame_init : frame := mk_frame 0 0 0 0 0 0 false false None.

Definition set_payload (p : option N) (f : frame) : frame :=
  mk_frame (media_type f) (codec f) (payload_format f) (track_index f)
    (pts f) (dts f) (keyframe f) (config f) p.
Definition set_times (p d : Z) (f : frame) : frame :=
  mk_frame (media_type f) (codec f) (payload_format f) (track_index f)
    p d (keyframe f) (config f) (payload f).

Definition frame_adopt (f : frame) (p : option N) : M frame :=
  buf_unref (payload f) ;; mret (set_payload p f).

(** Returns the new contents of [*dst]. *)
Definition frame_copy (src : frame) : M frame :=
  buf_ref (payload src) ;; mret src.

Definition frame_release (f : frame) : M frame :=
  buf_unref (payload f) ;; mret frame_init.

(** ** ngx_media_track.c *)

Record track := mk_track {
  tr_media_type : Z; tr_codec : Z; tr_payload_format : Z; tr_profile : Z;
  tr_level : Z; tr_width : Z; tr_height : Z; tr_frame_rate_num : Z;
  tr_frame_rate_den : Z; tr_sample_rate : Z; tr_channels : Z;
  tr_config : option N }.

Definition track_zero : track := mk_track 0 0 0 0 0 0 0 0 0 0 0 None.

(** [ts_tracks = []] is the NULL array. *)
Record trackset := mk_trackset {
  ts_tracks : list track; ts_count : Z; ts_capacity : Z }.
Definition trackset_zero : trackset := mk_trackset [] 0 0.

(** sizeof(ngx_media_track_t) *)
Definition track_size : Z := 96.

Definition trackset_init (capacity : Z) : M (rc * trackset) :=
  if capacity =? 0 then mret (NGX_ERROR, trackset_zero)
  else if (2 ^ 64 - 1) `div` track_size <? capacity then mret (NGX_ERROR, trackset_zero)
  else
    p ← ngx_alloc (capacity * track_size);
    match p with
    | None => mret (NGX_ERROR, trackset_zero)
    | Some _ =>
        mret (NGX_OK, mk_trackset (replicate (Z.to_nat capacity) track_zero) 0 capacity)
    end.

Fixpoint unref_all (l : list (option N)) : M unit :=
  match l with [] => mret tt | p :: l => buf_unref p ;; unref_all l end.

Definition trackset_destroy (set : trackset) : M trackset :=
  match ts_tracks set with
  | [] => mret set
  | _ =>
      unref_all (tr_config <$> take (Z.to_nat (ts_count set)) (ts_tracks set)) ;;
      mret trackset_zero
  end.

(** The index of the added track, or [inl NGX_ERROR]; and the set. *)
Definition trackset_add (set : trackset) (tr : track) : M ((rc + Z) * trackset) :=
  match ts_tracks set with
  | [] => mret (inl NGX_ERROR, set)
  | ts =>
      if ts_capacity set <=? ts_count set then mret (inl NGX_ERROR, set)
      else
        _ ← buf_ref (tr_config tr);
        mret (inr (ts_count set),
              mk_trackset (<[Z.to_nat (ts_count set) := tr]> ts)
                (ts_count set + 1) (ts_capacity set))
  end.

Definition trackset_get (set : trackset) (index : Z) : option track :=
  match ts_tracks set with
  | [] => None
  | ts => if ts_count set <=? index then None else ts !! Z.to_nat index
  end.

(** ** Ownership *)

(** References held by an object. *)
Class Owner (T : Type) := holds : T → list N.
#[global] Instance owner_option : Owner (option N) := option_list.
#[global] Instance owner_frame : Owner frame := λ f, option_list (payload f).
#[global] Instance owner_track : Owner track := λ t, option_list (tr_config t).
#[global] Instance owner_list {T} `{Owner T} : Owner (list T) := λ l, l ≫= holds.
#[global] Instance owner_trackset : Owner trackset := λ ts,
  holds (take (Z.to_nat (ts_count ts)) (ts_tracks ts)).

Definition occ (id : N) (L : list N) : Z := Z.of_nat (count_occ N.eq_dec L id).

(** Live identifiers were handed out; lengths fit. *)
Record store_wf (s : store) : Prop := {
  wf_next id b : st_bufs s !! id = Some b → (id < st_next s)%N;
  wf_buf id b : st_bufs s !! id = Some b →
    0 < b_refs b ∧ 0 ≤ b_len b ≤ b_cap b ∧ b_cap b < 2 ^ 63 ∧
    Z.of_nat (length (b_data b)) ≤ b_cap b;
}.

Record owns (s : store) (L : list N) : Prop := {
  owns_wf : store_wf s;
  owns_live id b : st_bufs s !! id = Some b → b_refs b = occ id L;
  owns_dead id : st_bufs s !! id = None → id ∉ L;
}.

(** The buffers that existed in [s] and still exist in [s'] carry the same
    payload: nothing writes a published buffer. *)
Record evolves (s s' : store) : Prop := {
  ev_next : (st_next s ≤ st_next s')%N;
  ev_alloc : st_alloc s' = st_alloc s;
  ev_same id b' : st_bufs s' !! id = Some b' → (id < st_next s)%N →
    ∃ b, st_bufs s !! id = Some b ∧ b_len b' = b_len b ∧ b_data b' = b_data b;
}.

Definition len_of (s : store) (p : option N) : Z :=
  match p with None => 0 | Some id => default 0 (b_len <$> st_bufs s !! id) end.
Definition bytes_of (s : store) (p : option N) : list Z :=
  match p with
  | None => []
  | Some id => default [] ((λ b, take (Z.to_nat (b_len b)) (b_data b)) <$> st_bufs s !! id)
  end.

#[global] Instance evolves_preorder : PreOrder evolves.
Proof.
  split.
  - intros s. split; [lia|done|]. eauto.
  - intros s1 s2 s3 [Hn1 Ha1 H1] [Hn2 Ha2 H2]. split; [lia|congruence|].
    intros id b3 Hb3 Hlt. destruct (H2 id b3) as (b2 & Hb2 & -> & ->); [done|lia|].
    destruct (H1 id b2) as (b1 & ? & ? & ?); eauto.
Qed.
#[export] Hint Extern 0 (evolves ?s ?s) => reflexivity : media.

Lemma occ_cons id x L : occ id (x :: L) = (if decide (x = id) then 1 else 0) + occ id L.
Proof.
  unfold occ. simpl. destruct (N.eq_dec x id), (decide (x = id)); try done; lia.
Qed.
Lemma occ_pos id L : id ∈ L ↔ 0 < occ id L.
Proof.
  unfold occ. rewrite list_elem_of_In, (count_occ_In N.eq_dec). lia.
Qed.
Lemma occ_nonneg id L : 0 ≤ occ id L.
Proof. unfold occ. lia. Qed.

#[global] Instance owns_proper s : Proper ((≡ₚ) ==> iff) (owns s).
Proof.
  intros L L' HL. pose proof (proj1 (Permutation_count_occ N.eq_dec L L') HL) as Hc.
  assert (∀ id, occ id L = occ id L') as Ho by (intros; unfold occ; by rewrite Hc).
  split; intros [Hw Hl Hd]; split; auto.
  - intros. rewrite <- Ho. eauto.
  - intros id. rewrite <- HL. eauto.
  - intros. rewrite Ho. eauto.
  - intros id. rewrite HL. eauto.
Qed.
#[global] Instance owner_list_proper {T} `{Owner T} :
  Proper ((≡ₚ) ==> (≡ₚ)) (@holds (list T) _).
Proof. intros l l' Hl. unfold holds, owner_list. by rewrite Hl. Qed.

Lemma holds_app {T} `{Owner T} (l k : list T) : holds (l ++ k) = holds l ++ holds k.
Proof. unfold holds, owner_list. by rewrite bind_app. Qed.
Lemma holds_cons {T} `{Owner T} (x : T) l : holds (x :: l) = holds x ++ holds l.
Proof. done. Qed.

Lemma holds_elem {T} `{Owner T} (x : T) l : x ∈ l → holds x ⊆ holds l.
Proof. intros Hx id Hid. apply list_elem_of_bind. eauto. Qed.

Lemma holds_delete {T} `{Owner T} (l : list T) i x :
  l !! i = Some x → holds l ≡ₚ holds x ++ holds (delete i l).
Proof. intros Hx. rewrite (delete_Permutation l i x Hx) at 1. by rewrite holds_cons. Qed.

Lemma list_delete_insert {A} (l : list A) i y : delete i (<[i := y]> l) = delete i l.
Proof. revert i. induction l as [|x l IH]; intros [|i]; cbn; [done..|]. f_equal. apply IH. Qed.

Lemma holds_insert {T} `{Owner T} (l : list T) i x y :
  l !! i = Some x → holds (<[i := y]> l) ≡ₚ holds y ++ holds (delete i l).
Proof.
  intros Hx. rewrite (holds_delete _ i y) by (apply list_lookup_insert_eq; by eapply lookup_lt_Some).
  by rewrite list_delete_insert.
Qed.

Lemma owns_in s L id : owns s L → id ∈ L → ∃ b, st_bufs s !! id = Some b.
Proof.
  intros [_ _ Hd] Hin. destruct (st_bufs s !! id) eqn:E; [eauto|]. by apply Hd in E.
Qed.

(** A held payload keeps its length and bytes. *)
Lemma evolves_held s s' L L' id :
  owns s L → owns s' L' → evolves s s' → id ∈ L → id ∈ L' →
  len_of s' (Some id) = len_of s (Some id) ∧ bytes_of s' (Some id) = bytes_of s (Some id).
Proof.
  intros Ho Ho' [_ _ Hev] Hin Hin'.
  destruct (owns_in _ _ _ Ho Hin) as [b Hb]. destruct (owns_in _ _ _ Ho' Hin') as [b' Hb'].
  destruct (Hev id b') as (b0 & Hb0 & Hl & Hdt); [done|by eapply wf_next, Hb; apply Ho|].
  simpl. rewrite Hb', Hb0. simpl. by rewrite Hl, Hdt.
Qed.

Lemma len_of_range s L p : owns s L → 0 ≤ len_of s p < 2 ^ 63.
Proof.
  intros Ho. destruct p as [id|]; simpl; [|lia].
  destruct (st_bufs s !! id) eqn:E; simpl; [|lia].
  apply (wf_buf _ (owns_wf _ _ Ho)) in E. lia.
Qed.

(** ** Specifications of the buffer operations *)

Lemma wp_ngx_alloc size L s :
  owns s L →
  wp (ngx_alloc size) (λ p s', owns s' L ∧ evolves s s' ∧
    ∀ id, p = Some id → size < 2 ^ 63 ∧ st_bufs s' !! id = None ∧ (st_next s ≤ id < st_next s')%N) s.
Proof.
  intros Ho. eexists _, _. split; [done|]. simpl. split_and!.
  - destruct Ho as [[Hn Hb] Hl Hd]. split; [split|..]; simpl; auto.
    intros id b Hid. apply Hn in Hid. lia.
  - split; simpl; [lia|done|eauto].
  - intros id. destruct (Z.ltb_spec size (2 ^ 63)), (st_alloc s (st_next s) size); try done.
    intros [= <-]. split_and!; [done|simpl|lia|lia].
    + destruct (st_bufs s !! st_next s) eqn:Hs; [|done].
      apply (wf_next _ (owns_wf _ _ Ho)) in Hs. lia.
Qed.

Lemma owns_insert s L id b :
  owns s L → (id < st_next s)%N → st_bufs s !! id = None →
  b_refs b = 1 → 0 ≤ b_len b ≤ b_cap b → b_cap b < 2 ^ 63 →
  Z.of_nat (length (b_data b)) ≤ b_cap b →
  owns (set_bufs (<[id := b]> (st_bufs s)) s) (id :: L).
Proof.
  intros [[Hn Hb] Hl Hd] Hid Hnone Hr Hlen Hcap Hdat.
  split; [split|..]; simpl; auto.
  - intros id' b'. rewrite lookup_insert. case_decide; [intros [= <-]; subst; simpl; auto|]; eauto.
  - intros id' b'. rewrite lookup_insert. case_decide as E; [|by eauto].
    intros [= <-]. lia.
  - intros id' b'. rewrite lookup_insert, occ_cons. case_decide as E.
    + intros [= <-]. subst. pose proof (Hd _ Hnone) as Hnin.
      rewrite occ_pos in Hnin. pose proof (occ_nonneg id' L). lia.
    + intros ->%Hl. lia.
  - intros id'. rewrite lookup_insert. case_decide; [done|]. intros Hx.
    rewrite not_elem_of_cons. split; [done|auto].
Qed.

(** Replacing a live buffer's header under [evolves]. *)
Lemma evolves_update s id b b' :
  st_bufs s !! id = Some b → b_len b' = b_len b → b_data b' = b_data b →
  evolves s (set_bufs (<[id := b']> (st_bufs s)) s).
Proof.
  intros Hb Hl Hd. split; simpl; [lia|done|]. intros i c. rewrite lookup_insert.
  case_decide; [|eauto]. intros [= <-] _. subst. eauto.
Qed.

Lemma wp_buf_ref id L s :
  owns s L → id ∈ L →
  wp (buf_ref (Some id)) (λ r s', r = Some id ∧ owns s' (id :: L) ∧ evolves s s') s.
Proof.
  intros Ho Hin. destruct (owns_in _ _ _ Ho Hin) as [b Hb].
  eexists _, _. split; [unfold buf_ref, deref, mbind, SM_bind; rewrite Hb; done|].
  split_and!; [done| |by eapply evolves_update].
  destruct Ho as [[Hn Hw] Hl Hd]. split; [split|..]; simpl; auto.
  - intros id' b'. rewrite lookup_insert. case_decide; [intros [= <-]; subst; simpl; auto|]; eauto.
  - intros id' b'. rewrite lookup_insert. case_decide; [|by eauto].
    intros [= <-]. apply Hw in Hb. simpl. lia.
  - intros id' b'. rewrite lookup_insert, occ_cons. case_decide; [|intros ->%Hl; lia].
    intros [= <-]. simpl. subst. rewrite (Hl _ _ Hb). lia.
  - intros id'. rewrite lookup_insert. case_decide; [done|].
    intros Hx%Hd. rewrite not_elem_of_cons. auto.
Qed.

Lemma wp_buf_ref_opt p L s :
  owns s L → holds p ⊆ L →
  wp (buf_ref p) (λ r s', r = p ∧ owns s' (holds p ++ L) ∧ evolves s s') s.
Proof.
  intros Ho Hin. destruct p as [id|]; simpl.
  - by apply wp_buf_ref; [|set_solver].
  - apply wp_ret. auto with media.
Qed.

Lemma wp_buf_unref p L s :
  owns s (holds p ++ L) →
  wp (buf_unref p) (λ _ s', owns s' L ∧ evolves s s') s.
Proof.
  destruct p as [id|]; simpl; intros Ho; [|apply wp_ret; auto with media].
  destruct (owns_in _ _ id Ho) as [b Hb]; [set_solver|].
  pose proof (owns_live _ _ Ho _ _ Hb) as Hr. rewrite occ_cons, decide_True in Hr by done.
  destruct Ho as [[Hn Hw] Hl Hd].
  destruct (Z.eqb_spec (b_refs b) 1) as [Hone|Hmany].
  - eexists _, _. split.
    { unfold buf_unref, deref, mbind, SM_bind. rewrite Hb, Hone. done. }
    assert (id ∉ L) as Hnin by (rewrite occ_pos; lia).
    split; [split; [split|..]|split]; simpl; auto; try lia.
    + intros id' b' [_ ?]%lookup_delete_Some. eauto.
    + intros id' b' [_ ?]%lookup_delete_Some. eauto.
    + intros id' b' [Hne Hb']%lookup_delete_Some. rewrite (Hl _ _ Hb'), occ_cons.
      rewrite decide_False by done. lia.
    + intros id' [<-|Hx]%lookup_delete_None; [done|]. by apply Hd, not_elem_of_cons in Hx as [_ ?].
    + intros id' b' [_ ?]%lookup_delete_Some. eauto.
  - eexists _, _. split.
    { unfold buf_unref, deref, mbind, SM_bind. rewrite Hb.
      by rewrite (proj2 (Z.eqb_neq _ _) Hmany). }
    split; [|by eapply evolves_update].
    split; [split|..]; simpl; auto.
    + intros id' b'. rewrite lookup_insert. case_decide; [intros [= <-]; subst; simpl; auto|]; eauto.
    + intros id' b'. rewrite lookup_insert. case_decide; [|by eauto].
      intros [= <-]. apply Hw in Hb. simpl. lia.
    + intros id' b'. rewrite lookup_insert. case_decide.
      * intros [= <-]. simpl. subst. lia.
      * intros Hb'. rewrite (Hl _ _ Hb'), occ_cons, decide_False by done. lia.
    + intros id'. rewrite lookup_insert. case_decide; [done|]. by intros [_ ?]%Hd%not_elem_of_cons.
Qed.

Lemma wp_buf_size p L s :
  owns s L → holds p ⊆ L → wp (buf_size p) (λ n s', n = len_of s p ∧ s' = s) s.
Proof.
  intros Ho Hin. destruct p as [id|]; [|by apply wp_ret].
  destruct (owns_in _ _ id Ho) as [b Hb]; [set_solver|].
  eexists _, _. split; [unfold buf_size, deref, mbind, SM_bind; rewrite Hb; done|].
  simpl. by rewrite Hb.
Qed.

Lemma wp_buf_alloc capacity L s :
  owns s L → 0 ≤ capacity →
  wp (buf_alloc capacity) (λ p s', owns s' (holds p ++ L) ∧ evolves s s' ∧
    ∀ id, p = Some id → (st_next s ≤ id)%N ∧
      st_bufs s' !! id = Some (mk_buf 1 0 capacity [])) s.
Proof.
  intros Ho Hc. unfold buf_alloc. caseb; [by apply wp_ret; auto with media|].
  apply wp_bind. eapply wp_mono; [by apply wp_ngx_alloc|].
  intros [id|] s1 (Ho1 & Hev & Hfresh); [|by apply wp_ret; split_and!].
  destruct (Hfresh id) as (Hsz & Hnone & Hge & Hlt); [done|].
  eexists _, _. split; [done|]. unfold buf_header in Hsz.
  split_and!.
  - apply (owns_insert s1 L id (mk_buf 1 0 capacity [])); simpl; auto; lia.
  - destruct Hev as [Hnx Ha Hsame]. split; simpl; [lia|done|].
    intros i b'. rewrite lookup_insert. case_decide; [lia|eauto].
  - intros i [= <-]. split; [done|]. simpl. by rewrite lookup_insert_eq.
Qed.

(** No request of a sensible size is refused, now or later. *)
Definition no_refusal (s : store) : Prop := ∀ n z, st_alloc s n z = true.
Lemma no_refusal_evolves s s' : evolves s s' → no_refusal s → no_refusal s'.
Proof. intros Hev Hn n z. rewrite (ev_alloc _ _ Hev). apply Hn. Qed.
Lemma wp_ngx_alloc_refused size s : size < 2 ^ 63 → wp (ngx_alloc size) (λ p _, p = None → ¬ no_refusal s) s.
Proof.
  intros Hs. eexists _, _. split; [done|]. rewrite (proj2 (Z.ltb_lt _ _)) by done. cbn [andb].
  destruct (st_alloc s (st_next s) size) eqn:E; [done|]. intros _ Hn. by rewrite Hn in E.
Qed.
Lemma wp_buf_alloc_refused capacity s :
  capacity < 2 ^ 62 → wp (buf_alloc capacity) (λ p _, p = None → ¬ no_refusal s) s.
Proof.
  intros Hc. unfold buf_alloc, buf_header. caseb; [lia|].
  apply wp_bind. eapply wp_mono; [apply wp_ngx_alloc_refused; lia|]. intros [id|] s1 H1; [|by apply wp_ret].
  eexists _, _. by split.
Qed.
(** An allocation of [n] bytes fails for want of memory or because it is enormous. *)
Definition memory_short (s : store) (n : Z) : Prop := no_refusal s → 2 ^ 62 ≤ n.
Lemma wp_buf_alloc_short capacity L s :
  owns s L → 0 ≤ capacity →
  wp (buf_alloc capacity) (λ p s', owns s' (holds p ++ L) ∧ evolves s s' ∧
    (∀ id, p = Some id → (st_next s ≤ id)%N ∧ st_bufs s' !! id = Some (mk_buf 1 0 capacity [])) ∧
    (p = None → memory_short s capacity)) s.
Proof.
  intros Ho Hc. pose proof (wp_buf_alloc capacity L s Ho Hc) as Hwp. destruct (Z.ltb_spec capacity (2 ^ 62)).
  - eapply wp_mono; [exact (wp_and _ _ _ _ Hwp (wp_buf_alloc_refused capacity s ltac:(done)))|].
    intros p s' [(? & ? & ?) Hp]. split_and!; [done..|]. intros Hn Hs. by destruct (Hp Hn).
  - eapply wp_mono; [exact Hwp|]. intros p s' (? & ? & ?). split_and!; [done..|]. by intros _ _.
Qed.

Lemma wp_unref_all ps L s :
  owns s (holds ps ++ L) → wp (unref_all ps) (λ _ s', owns s' L ∧ evolves s s') s.
Proof.
  revert s. induction ps as [|p ps IH]; intros s Ho; [by apply wp_ret; auto with media|].
  rewrite holds_cons, <- app_assoc in Ho. cbn [unref_all].
  apply wp_bind. eapply wp_mono; [by apply wp_buf_unref|].
  intros _ s1 [Ho1 Hev1]. eapply wp_mono; [by apply IH|].
  intros _ s2 [Ho2 Hev2]. split; [done|by etrans].
Qed.

(** ** Frames *)

Lemma wp_frame_copy f L s :
  owns s L → holds f ⊆ L →
  wp (frame_copy f) (λ r s', r = f ∧ owns s' (holds f ++ L) ∧ evolves s s') s.
Proof.
  intros Ho Hin. apply wp_bind. eapply wp_mono; [by apply wp_buf_ref_opt|].
  intros _ s' (_ & ? & ?). by apply wp_ret.
Qed.

Lemma wp_frame_release f L s :
  owns s (holds f ++ L) →
  wp (frame_release f) (λ r s', r = frame_init ∧ owns s' L ∧ evolves s s') s.
Proof.
  intros Ho. apply wp_bind. eapply wp_mono; [by apply wp_buf_unref|].
  intros _ s' (? & ?). by apply wp_ret.
Qed.

Lemma wp_frame_adopt f p L s :
  owns s (holds f ++ holds p ++ L) →
  wp (frame_adopt f p) (λ r s', r = set_payload p f ∧ owns s' (holds r ++ L) ∧ evolves s s') s.
Proof.
  intros Ho. apply wp_bind. eapply wp_mono; [by apply wp_buf_unref|].
  intros _ s' (? & ?). by apply wp_ret.
Qed.

(** ** Track sets *)

(** The tracks in use. *)
Definition ts_used (ts : trackset) : list track := take (Z.to_nat (ts_count ts)) (ts_tracks ts).

Record trackset_inv (ts : trackset) : Prop := {
  ti_len : Z.of_nat (length (ts_tracks ts)) = ts_capacity ts;
  ti_count : 0 ≤ ts_count ts ≤ ts_capacity ts;
}.

Lemma trackset_zero_inv : trackset_inv trackset_zero.
Proof. by split. Qed.

Lemma wp_trackset_init capacity L s :
  owns s L → 0 ≤ capacity < 2 ^ 63 →
  wp (trackset_init capacity) (λ r s', owns s' L ∧ evolves s s' ∧
    trackset_inv r.2 ∧ ts_count r.2 = 0 ∧
    (r.1 = NGX_OK → 0 < capacity ∧ ts_capacity r.2 = capacity) ∧
    (r.1 ≠ NGX_OK → r.2 = trackset_zero)) s.
Proof.
  intros Ho Hc. unfold trackset_init. destruct (Z.eqb_spec capacity 0).
  { apply wp_ret. split_and!; auto using trackset_zero_inv with media; done. }
  caseb. { apply wp_ret. split_and!; auto using trackset_zero_inv with media; done. }
  apply wp_bind. eapply wp_mono; [by apply wp_ngx_alloc|].
  intros [a|] s' (Ho' & Hev & _); apply wp_ret; split_and!; auto using trackset_zero_inv; try done.
  - split; simpl; rewrite ?length_replicate; lia.
  - intros _. simpl. lia.
Qed.

Lemma wp_trackset_add ts tr L s :
  trackset_inv ts → owns s (holds ts ++ L) → holds tr ⊆ L →
  wp (trackset_add ts tr) (λ r s', evolves s s' ∧ owns s' (holds r.2 ++ L) ∧ trackset_inv r.2 ∧
    ts_capacity r.2 = ts_capacity ts ∧
    if ts_count ts <? ts_capacity ts
    then r.1 = inr (ts_count ts) ∧ ts_used r.2 = ts_used ts ++ [tr] ∧ ts_count r.2 = ts_count ts + 1
    else r = (inl NGX_ERROR, ts)) s.
Proof.
  intros Hi Ho Hin. pose proof Hi as [Hl Hc]. unfold trackset_add.
  destruct (ts_tracks ts) as [|t0 tl] eqn:E.
  { simpl in Hl. rewrite (proj2 (Z.ltb_ge _ _)) by lia. apply wp_ret. by split_and!; auto with media. }
  rewrite <- E in *. clear E t0 tl.
  destruct (Z.ltb_spec (ts_count ts) (ts_capacity ts)); [rewrite (proj2 (Z.leb_gt _ _)) by lia|].
  2:{ rewrite (proj2 (Z.leb_le _ _)) by lia. apply wp_ret. by split_and!; auto with media. }
  apply wp_bind. eapply wp_mono; [eapply (wp_buf_ref_opt _ _ _ Ho)|].
  { transitivity L; [exact Hin|sub_app]. }
  intros _ s' (_ & Ho' & Hev). apply wp_ret. cbn [fst snd].
  set (ts' := mk_trackset _ _ _).
  assert (ts_used ts' = ts_used ts ++ [tr]) as Hu.
  { unfold ts_used, ts'. simpl. replace (Z.to_nat (ts_count ts + 1)) with (S (Z.to_nat (ts_count ts))) by lia.
    erewrite take_S_r by (apply list_lookup_insert_eq; lia). by rewrite take_insert_ge by lia. }
  split_and!; try done; [|split; simpl; rewrite ?length_insert; lia].
  eapply owns_proper; [|exact Ho'].
  change (holds ts') with (holds (ts_used ts')). rewrite Hu, holds_app.
  change (holds (ts_used ts)) with (holds ts). unfold holds at 2. simpl. rewrite app_nil_r.
  change (holds tr) with (holds (tr_config tr)). solve_Permutation.
Qed.

Lemma holds_configs (l : list track) : holds (tr_config <$> l) = holds l.
Proof. induction l as [|t l IH]; [done|]. cbn [fmap list_fmap]. by rewrite !holds_cons, IH. Qed.

Lemma wp_trackset_destroy ts L s :
  owns s (holds ts ++ L) →
  wp (trackset_destroy ts) (λ r s', owns s' L ∧ evolves s s') s.
Proof.
  intros Ho. unfold trackset_destroy. destruct (ts_tracks ts) as [|t0 tl] eqn:E.
  - apply wp_ret. unfold holds, owner_trackset in Ho. rewrite E, take_nil in Ho. auto with media.
  - rewrite <- E. apply wp_bind. eapply wp_mono; [apply (wp_unref_all _ L)|].
    + rewrite holds_configs. exact Ho.
    + intros _ s' [? ?]. by apply wp_ret.
Qed.

(** ** Writing a buffer's bytes *)

(** [s] with the bytes of buffer [b] replaced. *)
Definition set_data (b : N) (d : list Z) (s : store) : store :=
  set_bufs (alter (λ bf, mk_buf (b_refs bf) (b_len bf) (b_cap bf) d) b (st_bufs s)) s.

Lemma set_data_twice b d d' s : set_data b d' (set_data b d s) = set_data b d' s.
Proof.
  unfold set_data, set_bufs. cbn. f_equal. apply map_eq. intros id.
  destruct (decide (id = b)) as [->|]; rewrite ?lookup_alter_eq, ?lookup_alter_ne by done.
  - rewrite ?lookup_alter_eq. by destruct (st_bufs s !! b).
  - done.
Qed.
Lemma set_data_same b s bf : st_bufs s !! b = Some bf → set_data b (b_data bf) s = s.
Proof.
  intros Hb. destruct s as [bs n al]. unfold set_data, set_bufs. cbn in *. f_equal.
  apply map_eq. intros id. destruct (decide (id = b)) as [->|].
  - rewrite lookup_alter_eq, Hb. cbn. by destruct bf.
  - by rewrite lookup_alter_ne by done.
Qed.
Lemma set_data_lookup b d s bf :
  st_bufs s !! b = Some bf →
  st_bufs (set_data b d s) !! b = Some (mk_buf (b_refs bf) (b_len bf) (b_cap bf) d).
Proof. intros Hb. cbn. by rewrite lookup_alter_eq, Hb. Qed.
Lemma set_data_other b d s id : id ≠ b → st_bufs (set_data b d s) !! id = st_bufs s !! id.
Proof. intros. cbn. by rewrite lookup_alter_ne by done. Qed.

Lemma owns_set_data b d s L bf :
  owns s L → st_bufs s !! b = Some bf → lenZ d ≤ b_cap bf → owns (set_data b d s) L.
Proof.
  intros [[Hn Hw] Hl Hd] Hb Hlen. unfold lenZ in Hlen.
  split; [split|..]; cbn; intros id; [intros c|intros c|intros c|];
    destruct (decide (id = b)) as [->|Hne];
    rewrite ?lookup_alter_eq, ?lookup_alter_ne by done; rewrite ?Hb; cbn; eauto.
  - intros [= <-]. cbn. specialize (Hw b bf Hb). lia.
  - intros [= <-]. cbn. eauto.
  - done.
Qed.

Lemma wp_buf_write b off src s bf (Q : unit → store → Prop) :
  st_bufs s !! b = Some bf → 0 ≤ off ≤ lenZ (b_data bf) → off + lenZ src ≤ b_cap bf →
  Q tt (set_data b (take (Z.to_nat off) (b_data bf) ++ src
                    ++ drop (Z.to_nat off + length src) (b_data bf)) s) →
  wp (buf_write b off src) Q s.
Proof.
  unfold lenZ. intros Hb Ho Hc HQ. eexists _, _. split; [|exact HQ].
  unfold buf_write, deref, mbind, SM_bind. rewrite Hb.
  rewrite (proj2 (Z.leb_le 0 off)), (proj2 (Z.leb_le off _)), (proj2 (Z.leb_le _ (b_cap bf))) by lia.
  cbn [andb]. unfold put_buf, set_data, set_bufs. do 3 f_equal. apply map_eq. intros id.
  rewrite lookup_insert. case_decide as E; [subst; by rewrite lookup_alter_eq, Hb|].
  by rewrite lookup_alter_ne by done.
Qed.

Lemma wp_buf_freeze id len s bf (Q : rc → store → Prop) :
  st_bufs s !! id = Some bf → len ≤ b_cap bf →
  Q NGX_OK (set_bufs (<[id := mk_buf (b_refs bf) len (b_cap bf) (b_data bf)]> (st_bufs s)) s) →
  wp (buf_freeze (Some id) len) Q s.
Proof.
  intros Hb Hl HQ. eexists _, _. split; [|exact HQ].
  unfold buf_freeze, deref, mbind, SM_bind. rewrite Hb, (proj2 (Z.ltb_ge _ _)) by done. done.
Qed.

(** A header update that keeps the count. *)
Lemma owns_update s L id bf bf' :
  owns s L → st_bufs s !! id = Some bf → b_refs bf' = b_refs bf → b_cap bf' = b_cap bf →
  0 ≤ b_len bf' ≤ b_cap bf → Z.of_nat (length (b_data bf')) ≤ b_cap bf →
  owns (set_bufs (<[id := bf']> (st_bufs s)) s) L.
Proof.
  intros [[Hn Hw] Hl Hd] Hb Hr Hc Hlen Hdat. split; [split|..]; cbn.
  - intros i c. rewrite lookup_insert. case_decide; [intros [= <-]; subst; eauto|eauto].
  - intros i c. rewrite lookup_insert. case_decide; [|eauto]. intros [= <-].
    specialize (Hw id bf Hb). lia.
  - intros i c. rewrite lookup_insert. case_decide; [|eauto]. intros [= <-]. subst.
    rewrite Hr. eauto.
  - intros i. rewrite lookup_insert. case_decide; [done|eauto].
Qed.

(** Payload [p] holds the frozen bytes [data]. *)
Definition carries (s : store) (p : N) (data : list Z) : Prop :=
  ∃ bf, st_bufs s !! p = Some bf ∧ b_len bf = lenZ data ∧ take (length data) (b_data bf) = data.

(** ** A concrete store, for the witnesses: one 100-byte payload held twice. *)
Definition ex_store : store :=
  mk_store {[ 0%N := mk_buf 2 100 100 [] ]} 1 (λ _ _, true).
Definition ex_frame : frame := mk_frame 1 1 1 0 10 10 true false (Some 0%N).

Lemma ex_store_wf : store_wf ex_store.
Proof.
  split; simpl.
  - intros id b [<- _]%lookup_singleton_Some. lia.
  - intros id b [_ <-]%lookup_singleton_Some. simpl. lia.
Qed.
Lemma ex_store_owns : owns ex_store [0%N; 0%N].
Proof.
  split; [apply ex_store_wf|..]; simpl.
  - intros id b [<- <-]%lookup_singleton_Some. done.
  - intros id Hid%lookup_singleton_None. set_solver.
Qed.
