(* ===== verification/Feed.v ===== *)
(** * The bounded program feed

    Models core/ngx_media_feed.[ch]: a single-producer ring of frame descriptors
    with unit, byte and age ceilings, read through cursors.  [retained] is the
    abstract log the ring stands for; the theorems show that publishing refines
    "evict from the front until it fits, then append", that reading returns the
    window behind the cursor, and that payload references balance. *)
From S2P Require Import Prelude Ring Store.

(** ** Data *)

Record cursor := mk_cursor { cur_generation : Z; cur_next_sequence : Z }.
#[global] Instance eta_cursor : Eta cursor := λ r,
  mk_cursor (cur_generation r) (cur_next_sequence r).

Record feed_conf := mk_feed_conf {
  conf_max_units : Z; conf_max_bytes : Z; conf_max_age : Z }.

Record slot := mk_slot { s_frame : frame; s_publish_time : Z }.
Definition slot_zero : slot := mk_slot frame_init 0.

Definition hist_buckets : Z := 16.
Record hist := mk_hist { h_buckets : list Z; h_count : Z; h_max : Z }.
Definition hist_zero : hist := mk_hist (replicate (Z.to_nat hist_buckets) 0) 0 0.

(** [f_slots = []] is the NULL array. *)
Record feed := mk_feed {
  f_slots : list slot; f_capacity : Z; f_max_units : Z; f_max_bytes : Z;
  f_max_age : Z; f_generation : Z; f_head : Z; f_tail : Z;
  f_last_keyframe : Z; f_bytes : Z; f_high_water_units : Z;
  f_high_water_bytes : Z; f_evictions : Z; f_overruns : Z;
  f_generation_mismatches : Z; f_publish_errors : Z; f_has_keyframe : bool;
  f_fanout : hist }.
#[global] Instance eta_feed : Eta feed := λ r,
  mk_feed (f_slots r) (f_capacity r) (f_max_units r) (f_max_bytes r)
    (f_max_age r) (f_generation r) (f_head r) (f_tail r)
    (f_last_keyframe r) (f_bytes r) (f_high_water_units r)
    (f_high_water_bytes r) (f_evictions r) (f_overruns r)
    (f_generation_mismatches r) (f_publish_errors r) (f_has_keyframe r)
    (f_fanout r).

Definition feed_zero : feed :=
  mk_feed [] 0 0 0 0 0 0 0 0 0 0 0 0 0 0 0 false hist_zero.

Inductive feed_status :=
  | FEED_ERROR | FEED_BATCH | FEED_EMPTY | FEED_OVERRUN | FEED_GENERATION_MISMATCH.
#[global] Instance feed_status_eq_dec : EqDecision feed_status.
Proof. solve_decision. Defined.

Inductive resync_mode := RESYNC_LATEST | RESYNC_KEYFRAME | RESYNC_OTHER.

(** ** Operations *)

Definition feed_slot (f : feed) (seq : Z) : slot :=
  default slot_zero (f_slots f !! ring_idx (f_capacity f) seq).
Definition set_slot (f : feed) (seq : Z) (s : slot) : feed :=
  f <| f_slots := <[ring_idx (f_capacity f) seq := s]> (f_slots f) |>.

(** sizeof(ngx_media_feed_slot_t) *)
Definition slot_size : Z := 72.

Definition feed_init (f : feed) (conf : feed_conf) : M (rc * feed) :=
  if conf_max_units conf =? 0 then mret (NGX_ERROR, f)
  else
    let capacity := pow2 (conf_max_units conf) in
    if capacity =? 0 then mret (NGX_ERROR, feed_zero)
    else if (2 ^ 64 - 1) `div` slot_size <? capacity then
      mret (NGX_ERROR, feed_zero <| f_capacity := capacity |>)
    else
      p ← ngx_alloc (capacity * slot_size);
      match p with
      | None => mret (NGX_ERROR, feed_zero)
      | Some _ =>
          mret (NGX_OK,
            feed_zero <| f_slots := replicate (Z.to_nat capacity) slot_zero |>
              <| f_capacity := capacity |>
              <| f_max_units := conf_max_units conf |>
              <| f_max_bytes := conf_max_bytes conf |>
              <| f_max_age := conf_max_age conf |>
              <| f_generation := 1 |>)
      end.

Definition feed_evict (f : feed) : M feed :=
  let sl := feed_slot f (f_tail f) in
  len ← buf_size (payload (s_frame sl));
  fr ← frame_release (s_frame sl);
  mret ((set_slot f (f_tail f) (mk_slot fr 0))
        <| f_bytes := f_bytes f ⊖ len |>
        <| f_tail := f_tail f ⊕ 1 |>
        <| f_evictions := f_evictions f ⊕ 1 |>).

(** Why [feed_prune] evicts the oldest unit, if it does. *)
Definition prune_wants (f : feed) (now incoming : Z) : bool :=
  (f_max_units f <=? f_head f ⊖ f_tail f)
  || (negb (f_max_bytes f =? 0) && (f_max_bytes f <? f_bytes f ⊕ incoming))
  || (negb (f_max_age f =? 0)
      && (f_max_age f <? now ⊖ s_publish_time (feed_slot f (f_tail f)))).

(** The loop of [feed_prune]; every iteration retires one retained unit, so
    [S (head - tail)] is fuel enough ([wp_feed_prune]). *)
Fixpoint feed_prune_loop (fuel : nat) (f : feed) (now incoming : Z) : M feed :=
  match fuel with
  | O => ub
  | S fuel =>
      if f_tail f <? f_head f then
        if prune_wants f now incoming then
          f' ← feed_evict f; feed_prune_loop fuel f' now incoming
        else mret f
      else mret f
  end.
Definition feed_prune (f : feed) (now incoming : Z) : M feed :=
  feed_prune_loop (S (Z.to_nat (f_head f - f_tail f))) f now incoming.

Fixpoint feed_evict_all (fuel : nat) (f : feed) : M feed :=
  match fuel with
  | O => ub
  | S fuel =>
      if f_tail f <? f_head f then f' ← feed_evict f; feed_evict_all fuel f'
      else mret f
  end.

Definition feed_destroy (f : feed) : M feed :=
  match f_slots f with
  | [] => mret f
  | _ =>
      _ ← feed_evict_all (S (Z.to_nat (f_head f - f_tail f))) f;
      mret feed_zero
  end.

(** The accounting of a published unit: slot, bytes, last keyframe, head and the
    two high-water marks. *)
Definition feed_append (f : feed) (fr : frame) (len now : Z) : feed :=
  let f := (set_slot f (f_head f) (mk_slot fr now)) <| f_bytes := f_bytes f ⊕ len |> in
  let f := if keyframe fr
           then f <| f_has_keyframe := true |> <| f_last_keyframe := f_head f |>
           else f in
  let f := f <| f_head := f_head f ⊕ 1 |> in
  let f := if f_high_water_units f <? f_head f ⊖ f_tail f
           then f <| f_high_water_units := f_head f ⊖ f_tail f |> else f in
  if f_high_water_bytes f <? f_bytes f
  then f <| f_high_water_bytes := f_bytes f |> else f.

Definition feed_publish (f : feed) (fr : frame) (now : Z) : M (rc * feed) :=
  match f_slots f with
  | [] => mret (NGX_ERROR, f)
  | _ =>
      len ← buf_size (payload fr);
      f ← feed_prune f now len;
      match payload (s_frame (feed_slot f (f_head f))) with
      | Some _ =>
          mret (NGX_ERROR, f <| f_publish_errors := f_publish_errors f ⊕ 1 |>)
      | None =>
          fr' ← frame_copy fr;
          mret (NGX_OK, feed_append f fr' len now)
      end
  end.

(** [for (bound = 1; bound < delay && bucket < 15; bound <<= 1) bucket++]; 16
    iterations reach the last bucket. *)
Fixpoint hist_bucket (fuel : nat) (bound bucket delay : Z) : Z :=
  match fuel with
  | O => bucket
  | S fuel =>
      if (bound <? delay) && (bucket <? hist_buckets - 1)
      then hist_bucket fuel (u64 (Z.shiftl bound 1)) (bucket + 1) delay
      else bucket
  end.

Definition hist_record (h : hist) (delay : Z) : hist :=
  let delay := if 60000 <? delay then 60000 else delay in
  let bucket := hist_bucket 16 1 0 delay in
  mk_hist (alter (λ n, n ⊕ 1) (Z.to_nat bucket) (h_buckets h))
    (h_count h ⊕ 1) (if h_max h <? delay then delay else h_max h).

(** The copying loop of [feed_read]: descriptors are appended to [out]. *)
Fixpoint read_loop (fuel : nat) (f : feed) (seq count bytes : Z)
    (max_units max_bytes now : Z) (out : list frame) : M (feed * Z * list frame) :=
  match fuel with
  | O => ub
  | S fuel =>
      if (count <? max_units) && (seq <? f_head f) then
        let sl := feed_slot f seq in
        len ← buf_size (payload (s_frame sl));
        if (0 <? count) && negb (max_bytes =? 0) && (max_bytes <? bytes ⊕ len)
        then mret (f, seq, out)
        else
          _ ← buf_ref (payload (s_frame sl));
          let f := if s_publish_time sl <=? now
                   then f <| f_fanout := hist_record (f_fanout f)
                                            (now ⊖ s_publish_time sl) |>
                   else f in
          read_loop fuel f (seq ⊕ 1) (count ⊕ 1) (bytes ⊕ len)
            max_units max_bytes now (out ++ [s_frame sl])
      else mret (f, seq, out)
  end.

(** [(status, feed, cursor, batch)]; the output arguments are written for
    [FEED_BATCH] only. *)
Definition feed_read (f : feed) (cur : cursor) (max_units max_bytes now : Z) :
    M (feed_status * feed * cursor * list frame) :=
  match f_slots f with
  | [] => mret (FEED_ERROR, f, cur, [])
  | _ =>
      if negb (cur_generation cur =? f_generation f) then
        mret (FEED_GENERATION_MISMATCH,
              f <| f_generation_mismatches := f_generation_mismatches f ⊕ 1 |>, cur, [])
      else if cur_next_sequence cur <? f_tail f then
        mret (FEED_OVERRUN, f <| f_overruns := f_overruns f ⊕ 1 |>, cur, [])
      else if f_head f <? cur_next_sequence cur then
        mret (FEED_GENERATION_MISMATCH,
              f <| f_generation_mismatches := f_generation_mismatches f ⊕ 1 |>, cur, [])
      else
        r ← read_loop (S (Z.to_nat (f_head f - cur_next_sequence cur))) f
              (cur_next_sequence cur) 0 0 max_units max_bytes now [];
        let '(f, seq, out) := r in
        match out with
        | [] => mret (FEED_EMPTY, f, cur, [])
        | _ => mret (FEED_BATCH, f, cur <| cur_next_sequence := seq |>, out)
        end
  end.

Fixpoint feed_release (frames : list frame) : M unit :=
  match frames with
  | [] => mret tt
  | fr :: frames => frame_release fr ;; feed_release frames
  end.

Definition feed_discontinuity (f : feed) : feed :=
  f <| f_generation := f_generation f ⊕ 1 |>.

Definition feed_cursor_init (f : feed) : cursor := mk_cursor (f_generation f) (f_head f).

Definition feed_resync (f : feed) (cur : cursor) (mode : resync_mode) : rc * cursor :=
  match f_slots f with
  | [] => (NGX_ERROR, cur)
  | _ =>
      match mode with
      | RESYNC_LATEST => (NGX_OK, mk_cursor (f_generation f) (f_head f))
      | RESYNC_KEYFRAME =>
          let seq := if f_has_keyframe f && (f_tail f <=? f_last_keyframe f)
                        && (f_last_keyframe f <? f_head f)
                     then f_last_keyframe f else f_head f in
          (NGX_OK, mk_cursor (f_generation f) seq)
      | RESYNC_OTHER => (NGX_ERROR, cur)
      end
  end.

Definition feed_units (f : feed) : Z := f_head f ⊖ f_tail f.

(** NGX_MEDIA_FEED_NO_KEYFRAME is [None]. *)
Definition feed_last_keyframe (f : feed) : option Z :=
  if negb (f_has_keyframe f) || (f_last_keyframe f <? f_tail f)
     || (f_head f <=? f_last_keyframe f)
  then None else Some (f_last_keyframe f).

Fixpoint percentile_scan (i seen target : Z) (buckets : list Z) : option Z :=
  match buckets with
  | [] => None
  | n :: buckets =>
      let seen := seen ⊕ n in
      if target <=? seen then Some (Z.shiftl 1 i)
      else percentile_scan (i + 1) seen target buckets
  end.

Definition feed_fanout_percentile (f : feed) (permille : Z) : Z :=
  if (h_count (f_fanout f) =? 0) || (permille =? 0) then 0
  else
    let permille := if 1000 <? permille then 1000 else permille in
    let target := u64 (h_count (f_fanout f) * permille + 999) `div` 1000 in
    default (h_max (f_fanout f)) (percentile_scan 0 0 target (h_buckets (f_fanout f))).

(** ** The abstract log *)

Definition retained (f : feed) : list slot :=
  window (f_slots f) (f_capacity f) (f_tail f) (f_head f).

#[global] Instance owner_slot : Owner slot := λ sl, holds (s_frame sl).
#[global] Instance owner_feed : Owner feed := λ f, holds (retained f).

(** Payload length of a retained unit. *)
Definition slot_len (s : store) (sl : slot) : Z := len_of s (payload (s_frame sl)).
Definition retained_bytes (s : store) (l : list slot) : Z := sumZ (slot_len s <$> l).

(** The three ceilings, over exact integers. *)
Definition log_wants (max_units max_bytes max_age now incoming : Z)
    (s : store) (l : list slot) : bool :=
  match l with
  | [] => false
  | oldest :: _ =>
      (max_units <=? Z.of_nat (length l))
      || (negb (max_bytes =? 0) && (max_bytes <? retained_bytes s l + incoming))
      || (negb (max_age =? 0) && (max_age <? now ⊖ s_publish_time oldest))
  end.

(** Evict from the front until the incoming unit fits. *)
Fixpoint log_prune (max_units max_bytes max_age now incoming : Z)
    (s : store) (l : list slot) : list slot :=
  match l with
  | [] => []
  | _ :: l' =>
      if log_wants max_units max_bytes max_age now incoming s l
      then log_prune max_units max_bytes max_age now incoming s l' else l
  end.

(** ** The invariant *)

Record feed_inv (s : store) (f : feed) : Prop := {
  fi_cap : is_pow2 (f_capacity f);
  fi_slots : Z.of_nat (length (f_slots f)) = f_capacity f;
  fi_units : 0 < f_max_units f ≤ f_capacity f;
  fi_cap63 : f_capacity f ≤ 2 ^ 63;
  fi_seq : 0 ≤ f_tail f ≤ f_head f;
  fi_head : f_head f < 2 ^ 64;
  fi_room : f_head f - f_tail f ≤ f_max_units f;
  (* a slot outside the window holds no payload *)
  fi_free j sl : f_slots f !! j = Some sl →
    (∀ i, f_tail f ≤ i < f_head f → ring_idx (f_capacity f) i ≠ j) →
    payload (s_frame sl) = None;
  fi_bytes : f_bytes f = u64 (retained_bytes s (retained f));
  fi_max_bytes : 0 ≤ f_max_bytes f < 2 ^ 63;
  fi_sum : f_max_bytes f ≠ 0 → retained_bytes s (retained f) < 2 ^ 63;
}.

(** Eviction touches the slots, the tail, the byte count and its counter. *)
Definition only_evicts (f f' : feed) : Prop :=
  f' = f <| f_slots := f_slots f' |> <| f_tail := f_tail f' |>
         <| f_bytes := f_bytes f' |> <| f_evictions := f_evictions f' |>.
#[global] Instance only_evicts_preorder : PreOrder only_evicts.
Proof.
  split.
  - by intros [].
  - unfold only_evicts. intros f g h Hfg Hgh. rewrite Hgh at 1. by rewrite Hfg.
Qed.

(** ** Lemmas on retained units *)

Lemma slot_len_range s L sl : owns s L → 0 ≤ slot_len s sl < 2 ^ 63.
Proof. apply len_of_range. Qed.

Lemma retained_bytes_nonneg s L l : owns s L → 0 ≤ retained_bytes s l.
Proof.
  intros Ho. apply sumZ_nonneg, Forall_fmap, Forall_forall.
  intros sl _. simpl. pose proof (slot_len_range s L sl Ho). lia.
Qed.

Lemma retained_bytes_app s l k :
  retained_bytes s (l ++ k) = retained_bytes s l + retained_bytes s k.
Proof. unfold retained_bytes. by rewrite fmap_app, sumZ_app. Qed.

Lemma slot_len_stable s s' L L' sl :
  owns s L → owns s' L' → evolves s s' → holds sl ⊆ L → holds sl ⊆ L' →
  slot_len s' sl = slot_len s sl.
Proof.
  intros Ho Ho' Hev Hin Hin'. unfold slot_len, holds, owner_slot, holds, owner_frame in *.
  destruct (payload (s_frame sl)) as [id|]; [|done]. simpl in Hin, Hin'.
  by eapply evolves_held; [exact Ho|exact Ho'|done|set_solver..].
Qed.

Lemma retained_bytes_stable s s' L L' (l : list slot) :
  owns s L → owns s' L' → evolves s s' → holds l ⊆ L → holds l ⊆ L' →
  retained_bytes s' l = retained_bytes s l.
Proof.
  intros Ho Ho' Hev. unfold retained_bytes. induction l as [|x l IH]; [done|].
  rewrite holds_cons. intros Hin Hin'. cbn [fmap list_fmap sumZ foldr].
  rewrite (slot_len_stable s s' L L') by (auto; set_solver).
  f_equal. apply IH; set_solver.
Qed.

Lemma feed_slot_lookup s f seq :
  feed_inv s f → 0 ≤ seq →
  f_slots f !! ring_idx (f_capacity f) seq = Some (feed_slot f seq).
Proof.
  intros Hi Hs. unfold feed_slot.
  destruct (lookup_slot (f_capacity f) (fi_cap _ _ Hi) (f_slots f) seq) as [x ->]; [|done|done].
  by apply (fi_slots _ _ Hi).
Qed.

Lemma retained_cons s f :
  feed_inv s f → f_tail f < f_head f →
  retained f = feed_slot f (f_tail f)
    :: window (f_slots f) (f_capacity f) (f_tail f + 1) (f_head f).
Proof.
  intros Hi Hlt. apply window_cons; [done|]. apply (feed_slot_lookup s); [done|].
  apply (fi_seq _ _ Hi).
Qed.

Lemma length_retained s f :
  feed_inv s f → Z.of_nat (length (retained f)) = f_head f - f_tail f.
Proof. intros Hi. apply length_window; apply Hi. Qed.

Lemma feed_units_eq s f : feed_inv s f → f_head f ⊖ f_tail f = f_head f - f_tail f.
Proof. intros []. apply u64_small. lia. Qed.

(** ** Eviction *)

Lemma wp_feed_evict s f L :
  feed_inv s f → owns s (holds f ++ L) → f_tail f < f_head f →
  wp (feed_evict f) (λ f' s', feed_inv s' f' ∧ owns s' (holds f' ++ L) ∧ evolves s s' ∧
    retained f = feed_slot f (f_tail f) :: retained f' ∧
    f_tail f' = f_tail f + 1 ∧ only_evicts f f') s.
Proof.
  intros Hi Ho Hlt.
  pose proof (retained_cons _ _ Hi Hlt) as Hret.
  pose proof (feed_slot_lookup s f (f_tail f) Hi) as Hsl.
  set (sl := feed_slot f (f_tail f)) in *.
  set (rest := window (f_slots f) (f_capacity f) (f_tail f + 1) (f_head f)) in *.
  assert (holds f = holds (s_frame sl) ++ holds rest) as Hh.
  { unfold holds at 1, owner_feed. by rewrite Hret. }
  rewrite Hh, <- app_assoc in Ho.
  unfold feed_evict. fold sl. apply wp_bind.
  eapply wp_mono; [apply (wp_buf_size _ _ _ Ho); set_solver|].
  intros _ _ [-> ->]. apply wp_bind. eapply wp_mono; [by apply wp_frame_release|].
  intros fr s' (-> & Ho' & Hev). apply wp_ret.
  set (f' := _ <| f_evictions := _ |>).
  assert (f_tail f ⊕ 1 = f_tail f + 1) as Ht by (destruct Hi; apply u64_small; lia).
  assert (retained f' = rest) as Hr'.
  { unfold retained, f'. simpl. rewrite Ht. apply window_pop_write; destruct Hi; auto; lia. }
  split_and!; try done.
  2:{ unfold holds, owner_feed. by rewrite Hr'. }
  2:{ by rewrite Hr'. }
  assert (retained_bytes s' rest = retained_bytes s rest) as Hb.
  { eapply retained_bytes_stable; [exact Ho|exact Ho'|done|set_solver..]. }
  assert (retained_bytes s (retained f) = slot_len s sl + retained_bytes s rest) as Hsum.
  { by rewrite Hret. }
  pose proof (slot_len_range _ _ sl Ho).
  split; unfold f'; simpl; try apply Hi.
  - rewrite length_insert. apply Hi.
  - rewrite Ht. destruct Hi. lia.
  - rewrite Ht. destruct Hi. lia.
  - rewrite Ht. intros j x Hj Hout.
    destruct (decide (j = ring_idx (f_capacity f) (f_tail f))) as [->|Hne].
    + rewrite list_lookup_insert_eq in Hj; [by simplify_eq|].
      apply lookup_lt_is_Some. rewrite Hsl; [done|]. apply (fi_seq _ _ Hi).
    + rewrite list_lookup_insert_ne in Hj by done. eapply (fi_free _ _ Hi); [done|].
      intros i Hi'. destruct (decide (i = f_tail f)) as [->|]; [done|]. apply Hout. lia.
  - change (f_bytes f' = u64 (retained_bytes s' (retained f'))).
    rewrite Hr', Hb. unfold f'. simpl. rewrite (fi_bytes _ _ Hi), Hsum. autorewrite with media. f_equal.
    unfold slot_len. lia.
  - change (f_max_bytes f ≠ 0 → retained_bytes s' (retained f') < 2 ^ 63).
    rewrite Hr', Hb. intros Hm. pose proof (fi_sum _ _ Hi Hm). lia.
Qed.

(** ** Pruning *)

Lemma prune_wants_log s f L now incoming :
  feed_inv s f → owns s L → f_tail f < f_head f → 0 ≤ incoming < 2 ^ 63 →
  prune_wants f now incoming =
    log_wants (f_max_units f) (f_max_bytes f) (f_max_age f) now incoming s (retained f).
Proof.
  intros Hi Ho Hlt Hin. unfold prune_wants, log_wants.
  rewrite (feed_units_eq _ _ Hi), <- (length_retained _ _ Hi).
  pose proof (retained_bytes_nonneg s L (retained f) Ho) as Hnn.
  pose proof (fi_sum _ _ Hi) as Hsum. pose proof (fi_bytes _ _ Hi) as Hb.
  rewrite (retained_cons _ _ Hi Hlt) in *.
  destruct (Z.eqb_spec (f_max_bytes f) 0) as [|Hm]; [done|].
  specialize (Hsum Hm). rewrite Hb, u64_add_l, u64_small by lia. done.
Qed.

Lemma log_prune_stable mu mb ma now incoming s s' (l : list slot) :
  Forall (λ sl, slot_len s' sl = slot_len s sl) l →
  log_prune mu mb ma now incoming s' l = log_prune mu mb ma now incoming s l.
Proof.
  induction l as [|x l IH]; intros Hl; [done|]. cbn [log_prune].
  assert (retained_bytes s' (x :: l) = retained_bytes s (x :: l)) as Hb.
  { unfold retained_bytes. f_equal. by apply Forall_fmap_ext_1. }
  unfold log_wants. rewrite Hb. inversion_clear Hl. by rewrite IH.
Qed.

Lemma Forall_slot_len_stable s s' L L' (l : list slot) :
  owns s L → owns s' L' → evolves s s' → holds l ⊆ L → holds l ⊆ L' →
  Forall (λ sl, slot_len s' sl = slot_len s sl) l.
Proof.
  intros Ho Ho' Hev. induction l as [|x l IH]; [constructor|].
  rewrite holds_cons. intros Hin Hin'. constructor.
  - eapply slot_len_stable; [exact Ho|exact Ho'|done|set_solver..].
  - apply IH; set_solver.
Qed.

Lemma log_prune_suffix mu mb ma now incoming s (l : list slot) :
  ∃ k, l = k ++ log_prune mu mb ma now incoming s l.
Proof.
  induction l as [|x l [k IH]]; [by exists []|]. cbn [log_prune]. caseb_bool.
  - exists (x :: k). by rewrite IH at 1.
  - by exists [].
Qed.

Lemma wp_feed_prune_loop fuel s f L now incoming :
  feed_inv s f → owns s (holds f ++ L) → 0 ≤ incoming < 2 ^ 63 →
  f_head f - f_tail f < Z.of_nat fuel →
  wp (feed_prune_loop fuel f now incoming) (λ f' s',
    feed_inv s' f' ∧ owns s' (holds f' ++ L) ∧ evolves s s' ∧ only_evicts f f' ∧
    retained f' = log_prune (f_max_units f) (f_max_bytes f) (f_max_age f) now incoming s
                    (retained f)) s.
Proof.
  revert s f. induction fuel as [|fuel IH]; intros s f Hi Ho Hin Hfuel.
  { pose proof (fi_seq _ _ Hi). lia. }
  cbn [feed_prune_loop]. destruct (Z.ltb_spec (f_tail f) (f_head f)) as [Hlt|Hge].
  2:{ apply wp_ret. split_and!; try done. unfold retained.
      by rewrite window_empty by lia. }
  rewrite (prune_wants_log _ _ _ _ _ Hi Ho Hlt Hin).
  destruct (log_wants _ _ _ _ _ _ (retained f)) eqn:Hw.
  - apply wp_bind. eapply wp_mono; [by apply wp_feed_evict|].
    intros f1 s1 (Hi1 & Ho1 & Hev1 & Hret & Ht & Hsame).
    assert (f_head f1 = f_head f) as Hh by (by rewrite Hsame).
    eapply wp_mono; [apply IH; [done..|lia]|].
    intros f' s' (Hi' & Ho' & Hev' & Hsame' & Hret'). split_and!; auto.
    + by etrans.
    + by etrans.
    + rewrite Hret', Hret. rewrite Hret in Hw. cbn [log_prune]. rewrite Hw.
      assert (f_max_units f1 = f_max_units f ∧ f_max_bytes f1 = f_max_bytes f ∧
        f_max_age f1 = f_max_age f) as (-> & -> & ->) by (by rewrite Hsame).
      apply log_prune_stable.
      eapply Forall_slot_len_stable; [exact Ho|exact Ho1|done| |by apply list_subseteq_app_l].
      apply list_subseteq_app_l. unfold holds at 2, owner_feed. rewrite Hret, holds_cons.
      by apply list_subseteq_app_r.
  - apply wp_ret. split_and!; try done.
    destruct (retained f) eqn:E; [done|]. cbn [log_prune]. by rewrite Hw.
Qed.

Lemma wp_feed_prune s f L now incoming :
  feed_inv s f → owns s (holds f ++ L) → 0 ≤ incoming < 2 ^ 63 →
  wp (feed_prune f now incoming) (λ f' s',
    feed_inv s' f' ∧ owns s' (holds f' ++ L) ∧ evolves s s' ∧ only_evicts f f' ∧
    retained f' = log_prune (f_max_units f) (f_max_bytes f) (f_max_age f) now incoming s
                    (retained f)) s.
Proof. intros. apply wp_feed_prune_loop; auto. lia. Qed.

(** ** Publishing *)

Lemma log_prune_fits mu mb ma now incoming s (l l' : list slot) :
  log_prune mu mb ma now incoming s l = l' →
  l' = [] ∨
  (Z.of_nat (length l') < mu ∧
   (mb ≠ 0 → retained_bytes s l' + incoming ≤ mb) ∧
   (ma ≠ 0 → ∀ x, head l' = Some x → now ⊖ s_publish_time x ≤ ma)).
Proof.
  intros <-. induction l as [|x l IH]; [by left|]. cbn [log_prune].
  destruct (log_wants mu mb ma now incoming s (x :: l)) eqn:Hw; [done|].
  right. unfold log_wants in Hw. apply orb_false_iff in Hw as [[Hu Hb]%orb_false_iff Ha].
  rewrite andb_false_iff in Hb, Ha. split_and!; [lia|lia|].
  intros Hma y [= <-]. lia.
Qed.

(** [feed_append] changes the slots, the counters of the head and the marks. *)
Definition only_appends (f f' : feed) : Prop :=
  f' = f <| f_slots := f_slots f' |> <| f_bytes := f_bytes f' |>
         <| f_has_keyframe := f_has_keyframe f' |>
         <| f_last_keyframe := f_last_keyframe f' |> <| f_head := f_head f' |>
         <| f_high_water_units := f_high_water_units f' |>
         <| f_high_water_bytes := f_high_water_bytes f' |>.

Lemma feed_append_fields f fr len now :
  let f' := feed_append f fr len now in
  only_appends f f' ∧ f_head f' = f_head f ⊕ 1 ∧ f_bytes f' = f_bytes f ⊕ len ∧
  f_slots f' = <[ring_idx (f_capacity f) (f_head f) := mk_slot fr now]> (f_slots f) ∧
  f_has_keyframe f' = f_has_keyframe f || keyframe fr ∧
  f_last_keyframe f' = if keyframe fr then f_head f else f_last_keyframe f.
Proof.
  unfold feed_append, only_appends. destruct (keyframe fr); simpl;
    repeat caseb; simpl; rewrite ?orb_true_r, ?orb_false_r; split_and!; reflexivity.
Qed.

Lemma retained_append s f fr len now :
  feed_inv s f → f_head f - f_tail f < f_max_units f → f_head f + 1 < 2 ^ 64 →
  retained (feed_append f fr len now) = retained f ++ [mk_slot fr now].
Proof.
  intros Hi Hroom Hh.
  destruct (feed_append_fields f fr len now) as (Hs & Hhd & _ & Hsl & _).
  unfold retained. rewrite Hsl, Hhd, Hs. simpl. destruct Hi.
  rewrite u64_small by lia. apply window_push; auto; lia.
Qed.

Lemma feed_append_inv s s' L L' f fr len now :
  feed_inv s f → f_head f - f_tail f < f_max_units f → f_head f + 1 < 2 ^ 64 →
  owns s L → owns s' L' → evolves s s' → holds f ⊆ L → holds f ++ holds fr ⊆ L' →
  len = len_of s' (payload fr) →
  (f_max_bytes f ≠ 0 → retained f = [] ∨ retained_bytes s (retained f) + len ≤ f_max_bytes f) →
  feed_inv s' (feed_append f fr len now).
Proof.
  intros Hi Hroom Hh Ho Ho' Hev Hin Hin' Hlen Hfit.
  pose proof (retained_append _ _ fr len now Hi Hroom Hh) as Hret.
  destruct (feed_append_fields f fr len now) as (Hs & Hhd & Hby & Hsl & _).
  set (f' := feed_append f fr len now) in *.
  assert (retained_bytes s' (retained f') = retained_bytes s (retained f) + len) as Hb.
  { rewrite Hret, retained_bytes_app. rewrite (retained_bytes_stable s s' L L'); auto.
    - unfold retained_bytes. simpl. unfold slot_len. simpl. lia.
    - set_solver. }
  pose proof (len_of_range _ _ (payload fr) Ho') as Hlr.
  rewrite u64_small in Hhd by (destruct Hi; lia).
  assert (f_capacity f' = f_capacity f ∧ f_tail f' = f_tail f ∧
    f_max_units f' = f_max_units f ∧ f_max_bytes f' = f_max_bytes f) as (Hc & Ht & Hmu & Hmb)
    by (by rewrite Hs).
  destruct Hi as [? ? ? ? ? ? ? Hfree Hbytes ? Hsum].
  split; rewrite ?Hc, ?Ht, ?Hmu, ?Hmb, ?Hhd, ?Hb; auto; try lia.
  - by rewrite Hsl, length_insert.
  - intros j sl Hj Hout. rewrite Hsl in Hj.
    assert (ring_idx (f_capacity f) (f_head f) ≠ j) as Hne by (apply Hout; lia).
    rewrite list_lookup_insert_ne in Hj by done. eapply Hfree; [done|].
    intros i ?. apply Hout. lia.
  - rewrite Hby, Hbytes. by autorewrite with media.
  - intros Hm. destruct (Hfit Hm) as [He|]; [|lia].
    rewrite He. unfold retained_bytes. simpl. lia.
Qed.

Lemma free_head_slot s f :
  feed_inv s f → f_head f - f_tail f < f_max_units f →
  payload (s_frame (feed_slot f (f_head f))) = None.
Proof.
  intros Hi Hroom. pose proof (feed_slot_lookup s f (f_head f) Hi) as Hl.
  destruct Hi. eapply fi_free0; [apply Hl; lia|].
  intros i Hin Heq. apply ring_idx_inj in Heq; auto; lia.
Qed.

(** What a successful publish leaves behind. *)
Definition publish_post (f : feed) (fr : frame) (now len : Z) (s : store) (f' : feed) : Prop :=
  retained f' = log_prune (f_max_units f) (f_max_bytes f) (f_max_age f) now len s (retained f)
                  ++ [mk_slot fr now] ∧
  f_head f' = f_head f + 1 ∧ f_generation f' = f_generation f ∧
  f_publish_errors f' = f_publish_errors f ∧
  f_max_units f' = f_max_units f ∧ f_max_bytes f' = f_max_bytes f ∧
  f_has_keyframe f' = f_has_keyframe f || keyframe fr ∧
  f_last_keyframe f' = if keyframe fr then f_head f else f_last_keyframe f.

Lemma feed_slots_nonempty s f : feed_inv s f → f_slots f ≠ [].
Proof.
  intros Hi Hnil. pose proof (fi_slots _ _ Hi) as Hsl. rewrite Hnil in Hsl.
  simpl in Hsl. destruct Hi. lia.
Qed.

Lemma prune_room s f f1 now len s0 :
  feed_inv s f1 → 0 < f_max_units f → f_max_units f1 = f_max_units f →
  retained f1 = log_prune (f_max_units f) (f_max_bytes f) (f_max_age f) now len s0 (retained f) →
  f_head f1 - f_tail f1 < f_max_units f1 ∧
  (f_max_bytes f ≠ 0 → retained f1 = [] ∨ retained_bytes s0 (retained f1) + len ≤ f_max_bytes f).
Proof.
  intros Hi1 Hu Heq Hret. symmetry in Hret. rewrite <- (length_retained _ _ Hi1), Heq.
  destruct (log_prune_fits _ _ _ _ _ _ _ _ Hret) as [Hn|(? & Hb & _)]; [|auto].
  rewrite Hn. simpl. split; [lia|by left].
Qed.

Lemma wp_feed_publish s f fr L now :
  feed_inv s f → owns s (holds f ++ L) → holds fr ⊆ L → f_head f + 1 < 2 ^ 64 →
  wp (feed_publish f fr now) (λ r s',
    r.1 = NGX_OK ∧ feed_inv s' r.2 ∧ owns s' (holds r.2 ++ L) ∧ evolves s s' ∧
    publish_post f fr now (len_of s (payload fr)) s r.2) s.
Proof.
  intros Hi Ho Hfr Hh. unfold feed_publish.
  destruct (f_slots f) eqn:Hnil; [by apply feed_slots_nonempty in Hi|].
  apply wp_bind. eapply wp_mono; [apply (wp_buf_size _ _ _ Ho); by apply list_subseteq_app_r|].
  intros len _ [-> ->]. pose proof (len_of_range _ _ (payload fr) Ho) as Hlr.
  set (len := len_of s (payload fr)) in *.
  apply wp_bind. eapply wp_mono; [by apply wp_feed_prune|].
  intros f1 s1 (Hi1 & Ho1 & Hev1 & Hsame & Hret1).
  assert (f_max_units f1 = f_max_units f ∧ f_head f1 = f_head f ∧ f_max_bytes f1 = f_max_bytes f ∧
    f_generation f1 = f_generation f ∧ f_publish_errors f1 = f_publish_errors f ∧
    f_has_keyframe f1 = f_has_keyframe f ∧ f_last_keyframe f1 = f_last_keyframe f)
    as (Hmu & Hhd & Hmb & Hg & Hpe & Hkf & Hlk) by (by rewrite Hsame).
  destruct (prune_room s1 f f1 now len s) as [Hroom Hfit]; auto; [apply Hi|].
  rewrite (free_head_slot _ _ Hi1 Hroom).
  apply wp_bind. eapply wp_mono; [apply (wp_frame_copy _ _ _ Ho1); by apply list_subseteq_app_r|].
  intros fr' s2 (-> & Ho2 & Hev2). apply wp_ret. cbn [fst snd].
  assert (len = len_of s2 (payload fr)) as Hlen.
  { destruct (payload fr) as [id|] eqn:Hp; [|done]. symmetry.
    assert (id ∈ L) by (apply Hfr; unfold holds, owner_frame; rewrite Hp; set_solver).
    eapply evolves_held; [exact Ho|exact Ho2|by etrans|set_solver..]. }
  assert (evolves s s2) by (by etrans).
  split_and!; [done| | |done|].
  - eapply (feed_append_inv s1 s2 _ _ f1); [done..|lia|exact Ho1|exact Ho2|done| | |done|].
    + by apply list_subseteq_app_l.
    + set_solver.
    + rewrite Hmb. intros Hm. destruct (Hfit Hm) as [?|Hle]; [by left|right].
      rewrite (retained_bytes_stable s s1 (holds f ++ L) (holds f1 ++ L)); auto.
      * destruct (log_prune_suffix (f_max_units f) (f_max_bytes f) (f_max_age f) now len s
          (retained f)) as [k Hk]. rewrite <- Hret1 in Hk.
        apply list_subseteq_app_l. unfold holds at 2, owner_feed. rewrite Hk, holds_app.
        by apply list_subseteq_app_r.
      * by apply list_subseteq_app_l.
  - assert (holds (feed_append f1 fr len now) = holds (retained f1 ++ [mk_slot fr now])) as ->.
    { unfold holds at 1, owner_feed. f_equal. eapply retained_append; [done..|lia]. }
    rewrite holds_app. eapply owns_proper; [|exact Ho2].
    unfold holds at 2. simpl. rewrite app_nil_r. unfold holds at 4, owner_feed, holds at 2, owner_slot.
    solve_Permutation.
  - destruct (feed_append_fields f1 fr len now) as (Hs & Hhd' & _ & _ & Hk & Hl).
    unfold publish_post. rewrite (retained_append s1), Hret1 by (auto; lia).
    split_and!; auto.
    + rewrite Hhd', Hhd. destruct Hi. by apply u64_small; lia.
    + rewrite Hs. simpl. done.
    + rewrite Hs. simpl. done.
    + rewrite Hs. simpl. done.
    + rewrite Hs. simpl. done.
    + by rewrite Hk, Hkf.
    + by rewrite Hl, Hlk, Hhd.
Qed.

(** ** Reading *)

(** The units a read hands out: at most [max_units], and after the first one only
    while they fit in [max_bytes]. *)
Fixpoint batch (max_units max_bytes : Z) (len : slot → Z) (count bytes : Z)
    (l : list slot) : list slot :=
  match l with
  | [] => []
  | x :: l =>
      if (count <? max_units) &&
         ((count =? 0) || (max_bytes =? 0) || (bytes + len x <=? max_bytes))
      then x :: batch max_units max_bytes len (count + 1) (bytes + len x) l
      else []
  end.

Lemma feed_inv_stable s s' L L' f :
  feed_inv s f → owns s L → owns s' L' → evolves s s' → holds f ⊆ L → holds f ⊆ L' →
  feed_inv s' f.
Proof.
  intros Hi Ho Ho' Hev Hin Hin'.
  assert (retained_bytes s' (retained f) = retained_bytes s (retained f)) as Hb
    by (eapply retained_bytes_stable; [exact Ho|exact Ho'|done..]).
  destruct Hi. split; rewrite ?Hb; auto.
Qed.

Lemma feed_inv_fanout s f h : feed_inv s f → feed_inv s (f <| f_fanout := h |>).
Proof. intros []. by split. Qed.

Lemma holds_feed_slot s f seq :
  feed_inv s f → f_tail f ≤ seq < f_head f → holds (feed_slot f seq) ⊆ holds f.
Proof.
  intros Hi Hs. unfold holds at 2, owner_feed, retained.
  rewrite (window_split _ _ (f_tail f) seq (f_head f)) by lia.
  rewrite (window_cons (f_capacity f) _ seq _ (feed_slot f seq)).
  - rewrite holds_app, holds_cons. set_solver.
  - lia.
  - apply (feed_slot_lookup s); [done|]. pose proof (fi_seq _ _ Hi). lia.
Qed.

(** A count or byte total that decides a read never wraps. *)
Definition budget_ok (max_bytes count bytes : Z) : Prop :=
  0 ≤ count ∧ 0 ≤ bytes ∧ (max_bytes ≠ 0 → bytes < 2 ^ 63) ∧ (count = 0 → bytes = 0).

Lemma read_stop_spec max_bytes count bytes bytes' len :
  budget_ok max_bytes count bytes → 0 ≤ max_bytes → 0 ≤ len < 2 ^ 63 →
  (max_bytes ≠ 0 → bytes' = bytes) →
  (0 <? count) && negb (max_bytes =? 0) && (max_bytes <? bytes' ⊕ len)
  = negb ((count =? 0) || (max_bytes =? 0) || (bytes + len <=? max_bytes)).
Proof.
  intros (Hc & Hb & Hbm & _) Hm Hl He.
  destruct (Z.eqb_spec max_bytes 0) as [|Hm0]; [by rewrite !orb_true_r, andb_false_r|].
  rewrite (He Hm0), u64_small by lia.
  destruct (Z.eqb_spec count 0), (Z.ltb_spec 0 count); try lia; simpl; lia.
Qed.

Section reading.
Context (max_units max_bytes now : Z) (Hmu : is_u64 max_units) (Hmb : 0 ≤ max_bytes < 2 ^ 63).
Context (len : slot → Z) (L : list N).

Definition read_post (f : feed) (seq : Z) (out : list frame) (b : list slot)
    (r : feed * Z * list frame) (s' : store) : Prop :=
  let '(f', seq', out') := r in
  out' = out ++ (s_frame <$> b) ∧ seq' = seq + Z.of_nat (length b) ∧
  owns s' (holds f' ++ holds out' ++ L) ∧ feed_inv s' f' ∧
  f' = f <| f_fanout := f_fanout f' |>.

Lemma read_post_stop f seq out s :
  feed_inv s f → owns s (holds f ++ holds out ++ L) →
  read_post f seq out [] (f, seq, out) s.
Proof.
  intros Hi Ho. unfold read_post. simpl. rewrite app_nil_r.
  split_and!; auto; [lia|by destruct f].
Qed.

Lemma read_post_step f f1 h seq out sl b r s' :
  f1 = f <| f_fanout := h |> →
  read_post f1 (seq + 1) (out ++ [s_frame sl]) b r s' → read_post f seq out (sl :: b) r s'.
Proof.
  intros -> . unfold read_post. destruct r as [[f' seq'] out'].
  intros (-> & -> & Ho & Hi & Hf). split_and!; auto.
  - by rewrite <- app_assoc.
  - simpl. lia.
Qed.

Lemma budget_step count bytes n :
  budget_ok max_bytes count bytes → 0 ≤ n < 2 ^ 63 →
  (count =? 0) || (max_bytes =? 0) || (bytes + n <=? max_bytes) = true →
  budget_ok max_bytes (count + 1) (bytes + n).
Proof. unfold budget_ok. intros (? & ? & ? & ?) Hn Hgo. split_and!; lia. Qed.

Lemma wp_read_loop fuel s f seq count bytes bytes' out :
  feed_inv s f → owns s (holds f ++ holds out ++ L) →
  Forall (λ sl, slot_len s sl = len sl) (retained f) →
  f_tail f ≤ seq ≤ f_head f → f_head f - seq < Z.of_nat fuel →
  budget_ok max_bytes count bytes → count ≤ max_units →
  (max_bytes ≠ 0 → bytes' = bytes) →
  wp (read_loop fuel f seq count bytes' max_units max_bytes now out) (λ r s',
    evolves s s' ∧
    read_post f seq out (batch max_units max_bytes len count bytes
      (window (f_slots f) (f_capacity f) seq (f_head f))) r s') s.
Proof.
  revert s f seq count bytes bytes' out.
  induction fuel as [|fuel IH]; intros s f seq count bytes bytes' out Hi Ho Hlen Hs Hf Hbud Hc He;
    [lia|].
  pose proof (fi_seq _ _ Hi) as Hseq. pose proof (fi_head _ _ Hi) as Hhead.
  cbn [read_loop]. destruct (Z.ltb_spec seq (f_head f)) as [Hlt|Hge].
  2:{ rewrite andb_false_r, window_empty by lia. apply wp_ret.
      split; [done|by apply read_post_stop]. }
  pose proof (feed_slot_lookup s f seq Hi ltac:(lia)) as Hsl.
  pose proof (holds_feed_slot s f seq Hi ltac:(lia)) as Hh.
  rewrite (window_cons (f_capacity f) _ seq _ (feed_slot f seq)) by done.
  cbn [batch]. destruct (Z.ltb_spec count max_units) as [Hcu|Hcu]; cbn [andb].
  2:{ apply wp_ret. split; [done|by apply read_post_stop]. }
  set (sl := feed_slot f seq) in *.
  assert (slot_len s sl = len sl) as Hls.
  { apply (proj1 (Forall_forall _ _) Hlen). unfold retained.
    rewrite (window_split _ _ (f_tail f) seq (f_head f)), (window_cons _ _ seq _ sl) by (done || lia).
    rewrite elem_of_app, elem_of_cons. auto. }
  pose proof (slot_len_range _ _ sl Ho) as Hlr.
  apply wp_bind. eapply wp_mono; [apply (wp_buf_size _ _ _ Ho), list_subseteq_app_l; done|].
  intros n _ [-> ->]. fold (slot_len s sl). rewrite Hls in *.
  rewrite (read_stop_spec _ _ bytes) by (auto; lia).
  destruct ((count =? 0) || (max_bytes =? 0) || (bytes + len sl <=? max_bytes)) eqn:Hgo;
    cbn [negb].
  2:{ apply wp_ret. split; [done|by apply read_post_stop]. }
  apply wp_bind. eapply wp_mono; [apply (wp_buf_ref_opt _ _ _ Ho), list_subseteq_app_l; done|].
  intros p s1 (-> & Ho1 & Hev1).
  set (f1 := if s_publish_time sl <=? now then _ else f).
  assert (∃ h, f1 = f <| f_fanout := h |>) as [h Hf1].
  { unfold f1. caseb; [by eexists|exists (f_fanout f); by destruct f]. }
  eapply wp_mono.
  { apply (IH s1 f1 _ _ (bytes + len sl)); rewrite ?Hf1; simpl.
    - apply feed_inv_fanout. eapply feed_inv_stable; [done|exact Ho|exact Ho1|done|sub_app..].
    - eapply owns_proper; [|exact Ho1]. rewrite holds_app.
      change (holds f ++ (holds out ++ holds sl ++ []) ++ L ≡ₚ holds sl ++ holds f ++ holds out ++ L).
      rewrite app_nil_r. solve_Permutation.
    - apply Forall_forall. intros x Hx. rewrite <- (proj1 (Forall_forall _ _) Hlen) by done.
      apply holds_elem in Hx.
      eapply slot_len_stable; [exact Ho|exact Ho1|done|sub_app..].
    - rewrite u64_small; lia.
    - rewrite u64_small; lia.
    - unfold is_u64 in Hmu. rewrite u64_small by (destruct Hbud; lia). by apply budget_step.
    - unfold is_u64 in Hmu. rewrite u64_small by (destruct Hbud; lia). lia.
    - intros Hm. rewrite (He Hm). apply u64_small. destruct Hbud as (?&?&Hb&?).
      specialize (Hb Hm). lia. }
  intros r s' [Hev Hp]. split; [by etrans|].
  rewrite u64_small in Hp by lia. rewrite u64_small in Hp by (unfold is_u64 in *; destruct Hbud; lia).
  eapply read_post_step; [exact Hf1|]. by rewrite Hf1 in Hp |- *.
Qed.
End reading.

Definition feed_window (f : feed) (cur : cursor) : list slot :=
  window (f_slots f) (f_capacity f) (cur_next_sequence cur) (f_head f).

Lemma wp_feed_read s f cur max_units max_bytes now L :
  feed_inv s f → owns s (holds f ++ L) → is_u64 max_units → 0 ≤ max_bytes < 2 ^ 63 →
  cur_generation cur = f_generation f → f_tail f ≤ cur_next_sequence cur ≤ f_head f →
  wp (feed_read f cur max_units max_bytes now) (λ r s',
    let '(st, f', cur', out) := r in
    let b := batch max_units max_bytes (slot_len s) 0 0 (feed_window f cur) in
    out = s_frame <$> b ∧ st = (match b with [] => FEED_EMPTY | _ => FEED_BATCH end) ∧
    cur' = mk_cursor (cur_generation cur) (cur_next_sequence cur + Z.of_nat (length b)) ∧
    evolves s s' ∧ feed_inv s' f' ∧ owns s' (holds f' ++ holds out ++ L) ∧
    f' = f <| f_fanout := f_fanout f' |>) s.
Proof.
  intros Hi Ho Hmu Hmb Hg Hc. unfold feed_read.
  destruct (f_slots f) eqn:Hnil; [by apply feed_slots_nonempty in Hi|].
  rewrite Hg, Z.eqb_refl. cbn [negb].
  rewrite (proj2 (Z.ltb_ge _ _)), (proj2 (Z.ltb_ge _ _)) by lia.
  apply wp_bind. eapply wp_mono.
  { eapply (wp_read_loop max_units max_bytes now Hmu Hmb (slot_len s) L _ s f _ 0 0 0 []);
      auto; try lia.
    - by apply Forall_forall.
    - unfold budget_ok. lia.
    - unfold is_u64 in Hmu. lia. }
  intros [[f' seq'] out'] s' (Hev & Hp & Hseq & Ho' & Hi' & Hf').
  fold (feed_window f cur) in Hp, Hseq.
  destruct (batch _ _ _ _ _ (feed_window f cur)) as [|x b] eqn:Hb; simpl in Hp; subst out'.
  - apply wp_ret. destruct cur. simpl in *. split_and!; auto. f_equal; [done|lia].
  - apply wp_ret. destruct cur. simpl in *. split_and!; auto. by rewrite Hg, <- Hseq.
Qed.

Lemma batch_cons max_units max_bytes len l x :
  0 < max_units → batch max_units max_bytes len 0 0 (x :: l) ≠ [].
Proof. intros Hm. cbn [batch]. destruct (Z.ltb_spec 0 max_units); [done|lia]. Qed.

Lemma batch_prefix max_units max_bytes len l count bytes :
  batch max_units max_bytes len count bytes l `prefix_of` l.
Proof.
  revert count bytes. induction l as [|x l IH]; intros; [done|]. cbn [batch].
  caseb_bool; [by apply prefix_cons|apply prefix_nil].
Qed.

Lemma batch_length max_units max_bytes len l count bytes :
  count ≤ max_units →
  Z.of_nat (length (batch max_units max_bytes len count bytes l)) ≤ max_units - count.
Proof.
  revert count bytes. induction l as [|x l IH]; intros count bytes Hc; cbn [batch length]; [lia|].
  destruct (Z.ltb_spec count max_units); cbn [andb]; [|simpl; lia].
  caseb_bool; cbn [length]; [|lia]. specialize (IH (count + 1) (bytes + len x)). lia.
Qed.

(** ** Initialisation, teardown and releases *)

Lemma window_zero cap tail head (l : list slot) :
  Forall (λ sl, payload (s_frame sl) = None) l →
  Forall (λ sl, payload (s_frame sl) = None) (window l cap tail head).
Proof.
  intros Hl. unfold window. apply Forall_forall. intros x Hx.
  apply list_elem_of_omap in Hx as (i & _ & Hi).
  exact (Forall_lookup_1 _ _ _ _ Hl Hi).
Qed.

Lemma wp_feed_init s f conf L :
  owns s L → 0 < conf_max_units conf < 2 ^ 63 → 0 ≤ conf_max_bytes conf < 2 ^ 63 →
  wp (feed_init f conf) (λ r s', owns s' L ∧ evolves s s' ∧
    (r.1 = NGX_OK → feed_inv s' r.2 ∧ retained r.2 = [] ∧ f_generation r.2 = 1 ∧
                    f_head r.2 = 0 ∧ f_tail r.2 = 0 ∧ f_has_keyframe r.2 = false)) s.
Proof.
  intros Ho Hu Hb. unfold feed_init.
  destruct (Z.eqb_spec (conf_max_units conf) 0); [lia|].
  destruct (Z.eqb_spec (pow2 (conf_max_units conf)) 0) as [|Hp].
  { apply wp_ret. by split_and!. }
  destruct (pow2_spec (conf_max_units conf)) as [(_ & j & Hj & Hpj & Hle & _)|[? _]]; try lia.
  caseb; [apply wp_ret; by split_and!|].
  apply wp_bind. eapply wp_mono; [by apply wp_ngx_alloc|].
  intros [id|] s' (Ho' & Hev & _); apply wp_ret; [|by split_and!].
  split_and!; [done..|]. intros _. simpl.
  assert (is_pow2 (pow2 (conf_max_units conf))) as Hp2 by (exists j; lia).
  pose proof (is_pow2_pos _ Hp2).
  split_and!; try done. split; simpl; auto; try lia.
  - rewrite length_replicate. lia.
  - rewrite Hpj. apply Z.pow_le_mono_r; lia.
  - intros k sl Hk _. by apply lookup_replicate in Hk as [-> _].
  - intros _. unfold retained. simpl. rewrite window_empty by lia. unfold retained_bytes.
    simpl. lia.
Qed.

Lemma wp_feed_evict_all fuel s f L :
  feed_inv s f → owns s (holds f ++ L) → f_head f - f_tail f < Z.of_nat fuel →
  wp (feed_evict_all fuel f) (λ _ s', owns s' L ∧ evolves s s') s.
Proof.
  revert s f. induction fuel as [|fuel IH]; intros s f Hi Ho Hf.
  { pose proof (fi_seq _ _ Hi). lia. }
  cbn [feed_evict_all]. destruct (Z.ltb_spec (f_tail f) (f_head f)) as [Hlt|Hge].
  - apply wp_bind. eapply wp_mono; [by apply wp_feed_evict|].
    intros f1 s1 (Hi1 & Ho1 & Hev1 & _ & Ht & Hs).
    assert (f_head f1 = f_head f) by (by rewrite Hs).
    eapply wp_mono; [apply IH; [done..|lia]|].
    intros _ s' [? ?]. split; [done|by etrans].
  - apply wp_ret. split; [|done]. revert Ho. unfold holds, owner_feed, retained.
    by rewrite window_empty by lia.
Qed.

Lemma wp_feed_destroy s f L :
  feed_inv s f → owns s (holds f ++ L) →
  wp (feed_destroy f) (λ r s', r = feed_zero ∧ owns s' L) s.
Proof.
  intros Hi Ho. unfold feed_destroy. destruct (f_slots f) eqn:E; [by apply feed_slots_nonempty in Hi|].
  apply wp_bind. eapply wp_mono; [apply (wp_feed_evict_all _ _ _ _ Hi Ho); lia|].
  intros _ s1 [? _]. by apply wp_ret.
Qed.

Lemma wp_feed_release frames L s :
  owns s (holds frames ++ L) → wp (feed_release frames) (λ _ s', owns s' L ∧ evolves s s') s.
Proof.
  revert s. induction frames as [|fr frames IH]; intros s Ho; [by apply wp_ret|].
  rewrite holds_cons, <- app_assoc in Ho. cbn [feed_release].
  apply wp_bind. eapply wp_mono; [by apply wp_frame_release|].
  intros _ s1 (_ & Ho1 & Hev1). eapply wp_mono; [by apply IH|].
  intros _ s2 [Ho2 Hev2]. split; [done|by etrans].
Qed.

(** ** The last keyframe *)

(** [f_last_keyframe] names the newest retained keyframe, counted back from the
    head; without one, no retained unit is a keyframe. *)
Definition kf_inv (f : feed) : Prop :=
  let back := reverse (retained f) in
  (f_has_keyframe f = false → Forall (λ sl, keyframe (s_frame sl) = false) back) ∧
  (f_has_keyframe f = true →
    0 ≤ f_last_keyframe f < f_head f ∧
    ∀ j sl, back !! j = Some sl →
      (Z.of_nat j < f_head f - 1 - f_last_keyframe f → keyframe (s_frame sl) = false) ∧
      (Z.of_nat j = f_head f - 1 - f_last_keyframe f → keyframe (s_frame sl) = true)).

Lemma kf_inv_publish f fr now len s f' :
  0 ≤ f_head f → kf_inv f → publish_post f fr now len s f' → kf_inv f'.
Proof.
  intros Hh0 [Hno Hyes] (Hret & Hh & _ & _ & _ & _ & Hk & Hl). unfold kf_inv.
  destruct (log_prune_suffix (f_max_units f) (f_max_bytes f) (f_max_age f) now len s
    (retained f)) as [k Hsuf].
  set (kept := log_prune _ _ _ _ _ _ _) in *. clearbody kept.
  rewrite Hret, reverse_snoc, Hk, Hl, Hh.
  assert (reverse kept `prefix_of` reverse (retained f)) as Hpre.
  { rewrite Hsuf, reverse_app. by eexists. }
  destruct (keyframe fr) eqn:Hkf.
  - rewrite orb_true_r. split; [done|]. intros _. split; [lia|].
    intros [|j] sl Hj; simplify_eq/=; split; intros; (done || lia).
  - rewrite orb_false_r. split.
    + intros Hn. constructor; [done|]. apply Forall_forall. intros x Hx.
      apply (proj1 (Forall_forall _ _) (Hno Hn)).
      destruct Hpre as [r ->]. apply elem_of_app. by left.
    + intros Hy. destruct (Hyes Hy) as [Hlast Hat]. split; [lia|].
      intros [|j] sl Hj; simplify_eq/=.
      * split; intros; [done|lia].
      * apply (prefix_lookup_Some _ _ _ _ Hj) in Hpre. destruct (Hat _ _ Hpre).
        split; intros; [apply H|apply H0]; lia.
Qed.

Lemma lookup_retained s f seq :
  feed_inv s f → f_tail f ≤ seq < f_head f →
  reverse (retained f) !! Z.to_nat (f_head f - 1 - seq) = Some (feed_slot f seq).
Proof.
  intros Hi Hs. pose proof (length_retained _ _ Hi) as Hl. pose proof (fi_seq _ _ Hi).
  rewrite reverse_lookup by lia.
  replace (length (retained f) - S (Z.to_nat (f_head f - 1 - seq)))%nat
    with (Z.to_nat (seq - f_tail f)) by lia.
  unfold retained. rewrite lookup_window by (apply Hi || lia).
  apply (feed_slot_lookup s); [done|lia].
Qed.

(** ** The dispatch histogram *)

Definition bucket_of (delay : Z) : Z :=
  hist_bucket 16 1 0 (if 60000 <? delay then 60000 else delay).

Lemma hist_bucket_spec fuel b delay :
  0 ≤ b ≤ 15 → 15 - b < Z.of_nat fuel → (b = 0 ∨ 2 ^ (b - 1) < delay) →
  let r := hist_bucket fuel (2 ^ b) b delay in
  b ≤ r ≤ 15 ∧ (r = 0 ∨ 2 ^ (r - 1) < delay) ∧ (r < 15 → delay ≤ 2 ^ r).
Proof.
  revert b. induction fuel as [|fuel IH]; intros b Hb Hf Hlow; [simpl in *; lia|].
  cbn [hist_bucket]. change (hist_buckets - 1) with 15.
  destruct (Z.ltb_spec (2 ^ b) delay), (Z.ltb_spec b 15); cbn [andb]; try lia.
  assert (u64 (Z.shiftl (2 ^ b) 1) = 2 ^ (b + 1)) as ->.
  { rewrite Z.shiftl_mul_pow2, Z.pow_add_r by lia. apply u64_small.
    pose proof (Z.pow_le_mono_r 2 b 14). pose proof (Z.pow_nonneg 2 b). lia. }
  destruct (IH (b + 1)) as (? & ? & ?); try lia.
  right. by replace (b + 1 - 1) with b by lia.
Qed.

Lemma bucket_of_spec delay :
  0 ≤ bucket_of delay ≤ 15 ∧ (delay ≤ 32768 → delay ≤ 2 ^ bucket_of delay) ∧
  (0 < bucket_of delay → 2 ^ (bucket_of delay - 1) < delay).
Proof.
  unfold bucket_of. set (d := if 60000 <? delay then 60000 else delay).
  assert (d = delay ∨ d = 60000 ∧ 60000 < delay) as Hd by (unfold d; caseb; lia).
  destruct (hist_bucket_spec 16 0 d) as (Hr & Hlow & Hup); try lia.
  change (2 ^ 0) with 1 in *. set (r := hist_bucket 16 1 0 d) in *.
  split; [lia|]. split; [|lia].
  intros Hle. destruct (decide (r = 15)) as [->|]; lia.
Qed.

Definition hist_of (delays : list Z) : hist := foldl hist_record hist_zero delays.

(** Delays recorded in bucket [i]. *)
Definition in_bucket (i : nat) (delays : list Z) : Z :=
  Z.of_nat (length (filter (λ d, bucket_of d = Z.of_nat i) delays)).

Lemma in_bucket_snoc i delays d :
  in_bucket i (delays ++ [d])
  = in_bucket i delays + (if decide (bucket_of d = Z.of_nat i) then 1 else 0).
Proof.
  unfold in_bucket. rewrite filter_app, length_app, filter_cons, filter_nil.
  case_decide; simpl; lia.
Qed.

Lemma in_bucket_range i delays : 0 ≤ in_bucket i delays ≤ Z.of_nat (length delays).
Proof.
  unfold in_bucket. pose proof (length_filter (λ d, bucket_of d = Z.of_nat i) delays). lia.
Qed.

Lemma hist_of_spec delays :
  Z.of_nat (length delays) < 2 ^ 64 →
  h_buckets (hist_of delays) = (λ i, in_bucket i delays) <$> seq 0 16 ∧
  h_count (hist_of delays) = Z.of_nat (length delays).
Proof.
  induction delays as [|d delays IH] using rev_ind; intros Hlen; [done|].
  rewrite length_app in Hlen. simpl in Hlen. destruct IH as [IHb IHc]; [lia|].
  unfold hist_of in *. rewrite foldl_app, length_app. cbn [foldl length].
  set (h := foldl hist_record hist_zero delays) in *.
  unfold hist_record. cbn [h_buckets h_count]. rewrite IHb, IHc.
  split; [|rewrite u64_small; lia].
  fold (bucket_of d). destruct (bucket_of_spec d) as [Hb _].
  apply list_eq. intros i. rewrite list_lookup_alter.
  destruct (decide (i < 16)%nat) as [Hi|Hi].
  2:{ assert (∀ l, ((λ i, in_bucket i l) <$> seq 0 16) !! i = None) as Hnone.
      { intros l. apply lookup_ge_None. rewrite length_fmap, length_seq. lia. }
      case_decide as He; [rewrite He|]; by rewrite !Hnone. }
  assert (∀ l, ((λ i, in_bucket i l) <$> seq 0 16) !! i = Some (in_bucket i l)) as Hsome.
  { intros l. by rewrite list_lookup_fmap, lookup_seq_lt by lia. }
  pose proof (in_bucket_range i delays).
  case_decide as He; [rewrite He|]; rewrite !Hsome, in_bucket_snoc; case_decide; simpl;
    f_equal; rewrite ?u64_small; lia.
Qed.

(** Recorded delays in the buckets up to [i]. *)
Fixpoint upto (i : nat) (delays : list Z) : Z :=
  match i with
  | O => in_bucket 0 delays
  | S j => upto j delays + in_bucket i delays
  end.

Lemma upto_spec i delays :
  upto i delays = Z.of_nat (length (filter (λ d, bucket_of d ≤ Z.of_nat i) delays)).
Proof.
  induction delays as [|d delays IH] using rev_ind.
  { induction i; simpl; [done|]. rewrite IHi. done. }
  rewrite filter_app, length_app, Nat2Z.inj_add, <- IH. clear IH.
  destruct (bucket_of_spec d) as [Hb _].
  rewrite filter_cons, filter_nil.
  induction i as [|i IH]; cbn [upto]; rewrite in_bucket_snoc.
  - repeat case_decide; simpl; lia.
  - rewrite IH. repeat case_decide; simpl in *; lia.
Qed.

(** The scan stops at the first bucket that reaches the target. *)
Lemma percentile_scan_spec n i delays target seen :
  Z.of_nat (length delays) < 2 ^ 64 →
  seen + in_bucket i delays = upto i delays → 0 ≤ seen →
  target ≤ upto (i + n) delays → (i + n ≤ 15)%nat →
  ∃ j, (i ≤ j ≤ i + n)%nat ∧ target ≤ upto j delays ∧
    percentile_scan (Z.of_nat i) seen target
      ((λ k, in_bucket k delays) <$> seq i (S n)) = Some (2 ^ Z.of_nat j).
Proof.
  intros Hlen. revert i seen. induction n as [|n IH]; intros i seen Hs Hs0 Ht Hin.
  all: assert (upto i delays ≤ Z.of_nat (length delays)) as Hub
    by (rewrite upto_spec; pose proof (length_filter (λ d, bucket_of d ≤ Z.of_nat i) delays); lia).
  all: pose proof (in_bucket_range i delays).
  all: cbn [seq fmap list_fmap percentile_scan]; rewrite Hs, u64_small by lia.
  all: destruct (Z.leb_spec target (upto i delays)) as [Hle|Hgt].
  - exists i. rewrite Z.shiftl_mul_pow2, Z.mul_1_l by lia. split_and!; auto; lia.
  - rewrite Nat.add_0_r in Ht. lia.
  - exists i. rewrite Z.shiftl_mul_pow2, Z.mul_1_l by lia. split_and!; auto; lia.
  - destruct (IH (S i) (upto i delays)) as (j & ? & ? & Hj); try lia.
    + done.
    + by replace (S i + n)%nat with (i + S n)%nat by lia.
    + exists j. rewrite <- Hj. split_and!; [lia..|].
      by replace (Z.of_nat i + 1) with (Z.of_nat (S i)) by lia.
Qed.

Lemma publish_bytes s s' f f' L fr now len kept k :
  owns s (holds f ++ L) → owns s' (holds f' ++ L) → evolves s s' → holds fr ⊆ L →
  retained f = k ++ kept → retained f' = kept ++ [mk_slot fr now] → len = len_of s (payload fr) →
  retained_bytes s' (retained f') = retained_bytes s kept + len.
Proof.
  intros Ho Ho' Hev Hfr Hf Hf' ->.
  rewrite (retained_bytes_stable s s' (holds f ++ L) (holds f' ++ L)); auto.
  - rewrite Hf', retained_bytes_app. unfold retained_bytes, slot_len. simpl. lia.
  - rewrite Hf', holds_app. intros id. rewrite !elem_of_app. intros [Hk|Hn].
    + left. unfold holds at 1, owner_feed. rewrite Hf, holds_app, elem_of_app. by right.
    + right. apply Hfr. revert Hn. unfold holds at 1. simpl. by rewrite app_nil_r.
  - sub_app.
Qed.

(** ** A concrete feed, for the witnesses *)
Definition ex_feed : feed :=
  mk_feed [mk_slot ex_frame 5; slot_zero] 2 2 150 0 1 1 0 0 100 1 100 0 0 0 0 true hist_zero.

Lemma ex_feed_inv : feed_inv ex_store ex_feed.
Proof.
  split; try (vm_compute; (done || (split; done))).
  - exists 1. done.
  - intros [|[|j]] sl Hj Hout; simplify_eq/=; [|done].
    exfalso. by apply (Hout 0).
Qed.
Lemma ex_feed_kf : kf_inv ex_feed.
Proof.
  split; [done|]. intros _. split; [by vm_compute|].
  intros [|j] sl Hj; vm_compute in Hj; simplify_eq/=; split; intros; (done || lia).
Qed.
Lemma ex_feed_owns : owns ex_store (holds ex_feed ++ [0%N]).
Proof. apply ex_store_owns. Qed.

(** ** Properties *)

(** C7: publishing never runs into undefined behaviour nor into the ring
    accounting error: it evicts from the front exactly until the unit, byte and
    age ceilings admit the unit, appends it at the head sequence, keeps the ring
    invariant and the newest-keyframe record, and takes exactly one reference. *)
Theorem publish_refines_log s f fr L now :
  feed_inv s f → kf_inv f → owns s (holds f ++ L) → holds fr ⊆ L → f_head f + 1 < 2 ^ 64 →
  ∃ f' s', feed_publish f fr now s = Some ((NGX_OK, f'), s') ∧
    retained f' =
      log_prune (f_max_units f) (f_max_bytes f) (f_max_age f) now (len_of s (payload fr)) s
        (retained f) ++ [mk_slot fr now] ∧
    f_head f' = f_head f + 1 ∧ f_publish_errors f' = f_publish_errors f ∧
    feed_inv s' f' ∧ kf_inv f' ∧ owns s' (holds f' ++ L).
Proof.
  intros Hi Hk Ho Hfr Hh.
  destruct (wp_feed_publish s f fr L now Hi Ho Hfr Hh)
    as ([r f'] & s' & Hrun & Hr & Hi' & Ho' & Hev & Hp). simpl in *. subst r.
  exists f', s'. pose proof Hp as (? & ? & _ & ? & _). split_and!; auto.
  eapply kf_inv_publish; [|done|exact Hp]. pose proof (fi_seq _ _ Hi). lia.
Qed.
Lemma publish_refines_log_witness :
  ∃ f' s', feed_publish ex_feed ex_frame 7 ex_store = Some ((NGX_OK, f'), s') ∧
    owns s' (holds f' ++ [0%N]).
Proof.
  destruct (publish_refines_log ex_store ex_feed ex_frame [0%N] 7)
    as (f' & s' & ? & _ & _ & _ & _ & _ & ?);
    [apply ex_feed_inv|apply ex_feed_kf|apply ex_feed_owns|done|by vm_compute|].
  eauto.
Defined.

(** C9: after every successful publish the feed retains at most [max_units]
    units and, with a byte ceiling, at most [max_bytes] payload bytes unless the
    new unit is retained alone; the oldest unit kept in front of the new one is
    within [max_age], and [bytes] is exactly the retained payload. *)
Theorem publish_bounded s f fr L now f' s' :
  feed_inv s f → owns s (holds f ++ L) → holds fr ⊆ L → f_head f + 1 < 2 ^ 64 →
  feed_publish f fr now s = Some ((NGX_OK, f'), s') →
  Z.of_nat (length (retained f')) ≤ f_max_units f ∧
  (f_max_bytes f ≠ 0 →
     f_bytes f' = retained_bytes s' (retained f') ∧
     (f_bytes f' ≤ f_max_bytes f ∨ retained f' = [mk_slot fr now])) ∧
  (f_max_age f ≠ 0 → ∀ x, head (retained f') = Some x → x ≠ mk_slot fr now →
     now ⊖ s_publish_time x ≤ f_max_age f).
Proof.
  intros Hi Ho Hfr Hh Hrun.
  pose proof (wp_run _ _ _ _ _ (wp_feed_publish s f fr L now Hi Ho Hfr Hh) Hrun)
    as (_ & Hi' & Ho' & Hev & (Hret & _ & _ & _ & Hmu & Hmb & _)).
  cbn [fst snd] in *.
  pose proof (length_retained _ _ Hi'). pose proof (fi_room _ _ Hi').
  split; [lia|].
  destruct (log_prune_suffix (f_max_units f) (f_max_bytes f) (f_max_age f) now
    (len_of s (payload fr)) s (retained f)) as [k Hk].
  set (kept := log_prune _ _ _ _ _ _ _) in *.
  pose proof (log_prune_fits _ _ _ _ _ _ _ kept eq_refl) as Hfit. clearbody kept.
  pose proof (publish_bytes s s' f f' L fr now _ kept k Ho Ho' Hev Hfr Hk Hret eq_refl) as Hby.
  pose proof (retained_bytes_nonneg _ _ (retained f') Ho').
  pose proof (fi_sum _ _ Hi') as Hsum. rewrite Hmb in Hsum. split.
  - intros Hm. specialize (Hsum Hm).
    assert (f_bytes f' = retained_bytes s' (retained f')) as ->
      by (rewrite (fi_bytes _ _ Hi'); apply u64_small; lia).
    split; [done|]. destruct Hfit as [->|(_ & Hb & _)]; [by right|left].
    rewrite Hby. by apply Hb.
  - intros Hm x Hx Hne. rewrite Hret in Hx.
    destruct Hfit as [->|(_ & _ & Ha)]; [by simplify_eq/=|].
    destruct kept as [|y kept]; simplify_eq/=. by apply (Ha Hm).
Qed.
Lemma publish_bounded_witness :
  ∃ f' s', feed_publish ex_feed ex_frame 7 ex_store = Some ((NGX_OK, f'), s') ∧
    Z.of_nat (length (retained f')) ≤ 2.
Proof.
  eexists _, _. split; [vm_compute; reflexivity|].
  eapply (publish_bounded ex_store ex_feed ex_frame [0%N] 7);
    [apply ex_feed_inv|apply ex_feed_owns|done|by vm_compute|vm_compute; reflexivity].
Defined.

(** C8: a cursor of the current generation inside the window always reads: the
    batch is the longest prefix of the units behind the cursor that fits the unit
    and byte budgets, never empty while a unit is available (even one that alone
    exceeds the byte budget), the cursor moves past exactly those units, and each
    handed-out descriptor owns one reference. *)
Theorem read_returns_batch s f cur max_units max_bytes now L :
  feed_inv s f → owns s (holds f ++ L) → 0 < max_units < 2 ^ 64 → 0 ≤ max_bytes < 2 ^ 63 →
  cur_generation cur = f_generation f → f_tail f ≤ cur_next_sequence cur ≤ f_head f →
  let b := batch max_units max_bytes (slot_len s) 0 0 (feed_window f cur) in
  ∃ f' s', feed_read f cur max_units max_bytes now s =
      Some ((if bool_decide (b = []) then FEED_EMPTY else FEED_BATCH, f',
             mk_cursor (cur_generation cur) (cur_next_sequence cur + Z.of_nat (length b)),
             s_frame <$> b), s') ∧
    b `prefix_of` feed_window f cur ∧ Z.of_nat (length b) ≤ max_units ∧
    (b = [] ↔ cur_next_sequence cur = f_head f) ∧
    feed_inv s' f' ∧ owns s' (holds f' ++ holds (s_frame <$> b) ++ L).
Proof.
  intros Hi Ho Hmu Hmb Hg Hc b.
  destruct (wp_feed_read s f cur max_units max_bytes now L)
    as ([[[st f'] cur'] out] & s' & Hrun & -> & -> & -> & _ & Hi' & Ho' & _);
    [done|done|unfold is_u64; lia|done..|].
  exists f', s'. fold b in Hrun, Ho' |- *. split_and!; auto.
  - rewrite Hrun. by destruct b.
  - apply batch_prefix.
  - unfold b. pose proof (batch_length max_units max_bytes (slot_len s) (feed_window f cur) 0 0).
    lia.
  - unfold b, feed_window. destruct (decide (cur_next_sequence cur = f_head f)) as [He|Hne].
    + by rewrite window_empty by lia.
    + split; [|done]. pose proof (fi_seq _ _ Hi).
      rewrite (window_cons _ _ _ _ (feed_slot f (cur_next_sequence cur))).
      * by intros ?%batch_cons; [|lia].
      * lia.
      * apply (feed_slot_lookup s); [done|lia].
Qed.
Lemma read_returns_batch_witness :
  ∃ f' s', feed_read ex_feed (mk_cursor 1 0) 8 10 9 ex_store =
    Some ((FEED_BATCH, f', mk_cursor 1 1, [ex_frame]), s') ∧
    owns s' (holds f' ++ holds [ex_frame] ++ [0%N]).
Proof.
  destruct (read_returns_batch ex_store ex_feed (mk_cursor 1 0) 8 10 9 [0%N])
    as (f' & s' & Hr & _ & _ & _ & _ & Ho);
    [apply ex_feed_inv|apply ex_feed_owns|lia|lia|done|by vm_compute|].
  exists f', s'. split; [exact Hr|exact Ho].
Defined.

(** The failing outcomes of a read are decided by the cursor alone: another
    generation or a sequence ahead of the head is a generation mismatch, a
    sequence behind the tail an overrun; both leave the cursor, the ring and
    every payload reference untouched and count the event. *)
Theorem read_status f cur max_units max_bytes now s :
  f_slots f ≠ [] →
  (cur_generation cur ≠ f_generation f →
     feed_read f cur max_units max_bytes now s =
       Some ((FEED_GENERATION_MISMATCH,
              f <| f_generation_mismatches := f_generation_mismatches f ⊕ 1 |>, cur, []), s)) ∧
  (cur_generation cur = f_generation f → cur_next_sequence cur < f_tail f →
     feed_read f cur max_units max_bytes now s =
       Some ((FEED_OVERRUN, f <| f_overruns := f_overruns f ⊕ 1 |>, cur, []), s)) ∧
  (cur_generation cur = f_generation f → f_tail f ≤ cur_next_sequence cur →
     f_head f < cur_next_sequence cur →
     feed_read f cur max_units max_bytes now s =
       Some ((FEED_GENERATION_MISMATCH,
              f <| f_generation_mismatches := f_generation_mismatches f ⊕ 1 |>, cur, []), s)).
Proof.
  intros Hn. unfold feed_read. destruct (f_slots f); [done|].
  split_and!; intros.
  - by rewrite (proj2 (Z.eqb_neq _ _)).
  - by rewrite (proj2 (Z.eqb_eq _ _)), (proj2 (Z.ltb_lt _ _)).
  - by rewrite (proj2 (Z.eqb_eq _ _)), (proj2 (Z.ltb_ge _ _)), (proj2 (Z.ltb_lt _ _)).
Qed.
Lemma read_status_witness :
  feed_read ex_feed (mk_cursor 2 0) 8 0 9 ex_store =
    Some ((FEED_GENERATION_MISMATCH, ex_feed <| f_generation_mismatches := 1 |>,
           mk_cursor 2 0, []), ex_store).
Proof.
  destruct (read_status ex_feed (mk_cursor 2 0) 8 0 9 ex_store) as (H & _ & _); [done|].
  by apply H.
Defined.

(** Resynchronising on a keyframe always gives a cursor the next read
    accepts, and it points at the newest retained keyframe when there is one, at
    the head otherwise. *)
Theorem resync_keyframe s f cur :
  feed_inv s f → kf_inv f →
  let '(r, cur') := feed_resync f cur RESYNC_KEYFRAME in
  r = NGX_OK ∧ cur_generation cur' = f_generation f ∧
  f_tail f ≤ cur_next_sequence cur' ≤ f_head f ∧
  (cur_next_sequence cur' < f_head f →
     keyframe (s_frame (feed_slot f (cur_next_sequence cur'))) = true) ∧
  (∀ seq, f_tail f ≤ seq < f_head f → cur_next_sequence cur' < seq ∨
     cur_next_sequence cur' = f_head f → keyframe (s_frame (feed_slot f seq)) = false).
Proof.
  intros Hi [Hno Hyes]. unfold feed_resync.
  destruct (f_slots f) eqn:Hnil; [by apply feed_slots_nonempty in Hi|].
  pose proof (fi_seq _ _ Hi). cbn [cur_generation cur_next_sequence].
  assert (∀ seq, f_tail f ≤ seq < f_head f →
    reverse (retained f) !! Z.to_nat (f_head f - 1 - seq) = Some (feed_slot f seq)) as Hat
    by (intros; by eapply lookup_retained).
  destruct (f_has_keyframe f) eqn:Hk; cbn [andb].
  2:{ split_and!; try done; [lia..|]. intros seq Hseq _.
      apply (proj1 (Forall_forall _ _) (Hno eq_refl)).
      by eapply list_elem_of_lookup_2, Hat. }
  destruct (Hyes eq_refl) as [Hl Hkf].
  destruct (Z.leb_spec (f_tail f) (f_last_keyframe f)); cbn [andb].
  - rewrite (proj2 (Z.ltb_lt _ _)) by lia. split_and!; try done; [lia..| |].
    + intros _. eapply Hkf; [apply Hat|]; lia.
    + intros seq Hseq Hor. eapply Hkf; [by apply Hat|]. lia.
  - split_and!; try done; [lia..|]. intros seq Hseq _.
    eapply Hkf; [by apply Hat|]. lia.
Qed.
Lemma resync_keyframe_witness :
  feed_resync ex_feed (mk_cursor 9 9) RESYNC_KEYFRAME = (NGX_OK, mk_cursor 1 0) ∧
  keyframe (s_frame (feed_slot ex_feed 0)) = true.
Proof.
  split; [reflexivity|].
  pose proof (resync_keyframe ex_store ex_feed (mk_cursor 9 9) ex_feed_inv ex_feed_kf)
    as (_ & _ & _ & Hk & _).
  by apply Hk.
Defined.

(** An explicit discontinuity fences every reader: a cursor that was valid
    before it reads a generation mismatch after it, whatever its position. *)
Theorem discontinuity_fences f cur max_units max_bytes now s :
  f_slots f ≠ [] → 0 ≤ f_generation f < 2 ^ 64 → cur_generation cur = f_generation f →
  let f' := feed_discontinuity f in
  feed_read f' cur max_units max_bytes now s =
    Some ((FEED_GENERATION_MISMATCH,
           f' <| f_generation_mismatches := f_generation_mismatches f ⊕ 1 |>, cur, []), s).
Proof.
  intros Hn Hg Hc f'. unfold feed_read. cbn [f' feed_discontinuity setf f_slots f_generation].
  destruct (f_slots f); [done|].
  rewrite (proj2 (Z.eqb_neq _ _)); [done|].
  rewrite Hc. unfold u64. intros He.
  destruct (decide (f_generation f = 2 ^ 64 - 1)) as [E|]; [rewrite E in He; done|].
  rewrite Z.mod_small in He; lia.
Qed.
Lemma discontinuity_fences_witness :
  feed_read (feed_discontinuity ex_feed) (mk_cursor 1 1) 4 0 0 ex_store =
    Some ((FEED_GENERATION_MISMATCH,
           (feed_discontinuity ex_feed) <| f_generation_mismatches := 1 |>,
           mk_cursor 1 1, []), ex_store).
Proof. apply (discontinuity_fences ex_feed (mk_cursor 1 1) 4 0 0 ex_store); done || lia. Defined.

(** A feed gives back everything it took: destroying it releases exactly the
    references of its retained units, and releasing a batch exactly those of the
    batch. *)
Theorem feed_no_leak s f frames L :
  feed_inv s f → owns s (holds f ++ holds frames ++ L) →
  ∃ s1 s2, feed_destroy f s = Some (feed_zero, s1) ∧ owns s1 (holds frames ++ L) ∧
    feed_release frames s1 = Some (tt, s2) ∧ owns s2 L.
Proof.
  intros Hi Ho. destruct (wp_feed_destroy s f _ Hi Ho) as (r & s1 & Hd & -> & Ho1).
  destruct (wp_feed_release frames L s1 Ho1) as ([] & s2 & Hr & Ho2 & _).
  by exists s1, s2.
Qed.
Lemma feed_no_leak_witness :
  ∃ s1 s2, feed_destroy ex_feed ex_store = Some (feed_zero, s1) ∧
    feed_release [ex_frame] s1 = Some (tt, s2) ∧ owns s2 [].
Proof.
  destruct (feed_no_leak ex_store ex_feed [ex_frame] []) as (s1 & s2 & ? & _ & ? & ?);
    [apply ex_feed_inv|apply ex_store_owns|].
  eauto.
Defined.

(** The reported fanout percentile is conservative for delays up to
    32768 ms: at least the requested share of the recorded delays is no larger
    than the value reported. *)
Theorem percentile_conservative f delays permille :
  f_fanout f = hist_of delays → delays ≠ [] →
  Z.of_nat (length delays) * 1000 + 999 < 2 ^ 64 →
  Forall (λ d, d ≤ 32768) delays → 1 ≤ permille ≤ 1000 →
  Z.of_nat (length delays) * permille
    ≤ 1000 * Z.of_nat (length (filter (λ d, d ≤ feed_fanout_percentile f permille) delays)).
Proof.
  intros Hf Hne Hlen Hd Hp. unfold feed_fanout_percentile.
  destruct (hist_of_spec delays) as [Hb Hc]; [lia|]. rewrite Hf, Hc, Hb.
  assert (0 < Z.of_nat (length delays)) by (destruct delays; [done|simpl; lia]).
  rewrite (proj2 (Z.eqb_neq _ _)), (proj2 (Z.eqb_neq _ _)) by lia. cbn [orb].
  rewrite (proj2 (Z.ltb_ge 1000 permille)), u64_small by nia.
  set (n := Z.of_nat (length delays)) in *.
  set (target := (n * permille + 999) `div` 1000).
  pose proof (Z.div_mod (n * permille + 999) 1000) as Hdm.
  pose proof (Z.mod_pos_bound (n * permille + 999) 1000) as Hmb. fold target in Hdm.
  assert (n * permille ≤ 1000 * target) as Htgt by lia.
  assert (target ≤ n) as Htn by nia.
  assert (upto 15 delays = n) as Hall.
  { rewrite upto_spec. unfold n. f_equal. clear. induction delays as [|d l IH]; [done|].
    rewrite filter_cons_True; [simpl; lia|]. pose proof (bucket_of_spec d). lia. }
  destruct (percentile_scan_spec 15 0 delays target 0) as (j & Hj & Htj & Hscan);
    [lia|simpl; lia|lia|simpl Nat.add; lia|lia|].
  change (Z.of_nat 0) with 0 in Hscan. rewrite Hscan. cbn [default].
  rewrite upto_spec in Htj.
  assert (Z.of_nat (length (filter (λ d, bucket_of d ≤ Z.of_nat j) delays))
    ≤ Z.of_nat (length (filter (λ d, d ≤ 2 ^ Z.of_nat j) delays))); [|simpl; lia].
  clear -Hd. induction Hd as [|d l Hd _ IH]; [done|]. rewrite !filter_cons.
  destruct (bucket_of_spec d) as (Hb & Hup & _). specialize (Hup Hd).
  repeat case_decide; simpl; try lia.
  exfalso. pose proof (Z.pow_le_mono_r 2 (bucket_of d) (Z.of_nat j)). lia.
Qed.
Lemma percentile_conservative_witness :
  3 * 500 ≤ 1000 * Z.of_nat (length (filter
    (λ d, d ≤ feed_fanout_percentile (ex_feed <| f_fanout := hist_of [1; 5; 900] |>) 500)
    [1; 5; 900])).
Proof.
  apply (percentile_conservative (ex_feed <| f_fanout := hist_of [1; 5; 900] |>) [1; 5; 900] 500);
    [done|done|done|repeat constructor; lia|lia].
Defined.

(** Beyond 32768 ms it is not: one dispatch that waited a minute is reported as
    32768 ms at every percentile, although [max] records 60000. *)
Example percentile_underreports :
  let f := ex_feed <| f_fanout := hist_of [60000] |> in
  feed_fanout_percentile f 1000 = 32768 ∧ h_max (f_fanout f) = 60000.
Proof. by vm_compute. Qed.
