(* ===== verification/Timeline.v ===== *)
(** * Timeline normalisation

    Models core/ngx_media_timeline.[ch]: source timestamps are mapped onto program
    time, re-anchored at every source switch and whenever a mapped DTS would not
    advance.  The theorems hold for every interleaving of frames and switches. *)
From S2P Require Import Prelude.

Record timeline := mk_timeline {
  t_offset : Z; t_last_program_dts : Z; t_last_program_pts : Z;
  t_switches : Z; t_resyncs : Z; t_anchored : bool; t_has_program : bool }.
#[global] Instance eta_timeline : Eta timeline := λ r,
  mk_timeline (t_offset r) (t_last_program_dts r) (t_last_program_pts r)
    (t_switches r) (t_resyncs r) (t_anchored r) (t_has_program r).

Definition timeline_init : timeline := mk_timeline 0 0 0 0 0 false false.

Definition timeline_discontinuity (t : timeline) : timeline :=
  t <| t_switches := t_switches t ⊕ 1 |> <| t_anchored := false |>.

(** The anchoring step: the first frame after a switch, or of the program. *)
Definition timeline_anchor (t : timeline) (source_dts : Z) : timeline :=
  if t_anchored t then t
  else
    let t := if t_switches t =? 0
             then t <| t_offset := s64 (- source_dts) |>
             else t <| t_offset := s64 (t_last_program_dts t + 1 - source_dts) |> in
    t <| t_anchored := true |>.

(** [(timeline, program_pts, program_dts)]; the call always answers NGX_OK for
    the non-null arguments it is given. *)
Definition timeline_map (t : timeline) (source_pts source_dts : Z) : timeline * Z * Z :=
  let t := timeline_anchor t source_dts in
  let dts := s64 (source_dts + t_offset t) in
  let pts := s64 (source_pts + t_offset t) in
  let '(t, pts, dts) :=
    if t_has_program t && (dts <=? t_last_program_dts t) then
      let t := t <| t_offset := s64 (t_last_program_dts t + 1 - source_dts) |>
                 <| t_resyncs := t_resyncs t ⊕ 1 |> in
      (t, s64 (source_pts + t_offset t), s64 (source_dts + t_offset t))
    else (t, pts, dts) in
  (t <| t_last_program_dts := dts |> <| t_last_program_pts := pts |>
     <| t_has_program := true |>, pts, dts).

(** ** The invariant

    [B] bounds source timestamps (raw PES timestamps have 33 bits), [b] the program
    time reached so far. *)
Section bounded.
Context (B : Z) (HB : 0 ≤ B).

Definition in_bound (x : Z) : Prop := - B ≤ x ≤ B.

Record tl_inv (b : Z) (t : timeline) : Prop := {
  tl_b : 0 ≤ b;
  tl_last : 0 ≤ t_last_program_dts t ≤ b;
  tl_offset : - B ≤ t_offset t ≤ b + B + 1;
  tl_anchored : t_anchored t = true → t_has_program t = true;
}.

Lemma tl_inv_init : tl_inv 0 timeline_init.
Proof. split; simpl; auto; lia. Qed.

Lemma tl_inv_mono b b' t : tl_inv b t → b ≤ b' → tl_inv b' t.
Proof. intros [] ?. split; auto; lia. Qed.

Lemma tl_inv_discontinuity b t : tl_inv b t → tl_inv b (timeline_discontinuity t).
Proof. intros []. split; simpl; auto. done. Qed.

Lemma timeline_anchor_spec b t d :
  tl_inv b t → in_bound d → b + 3 * B + 1 < 2 ^ 63 →
  let t' := timeline_anchor t d in
  t_anchored t' = true ∧ - B ≤ t_offset t' ≤ b + B + 1 ∧
  t_last_program_dts t' = t_last_program_dts t ∧ t_has_program t' = t_has_program t ∧
  (t_has_program t = false → 0 ≤ d + t_offset t' ≤ b + 1).
Proof.
  unfold in_bound. intros Hi Hd Hb. pose proof (tl_last _ _ Hi). pose proof (tl_offset _ _ Hi).
  pose proof (tl_anchored _ _ Hi) as Hanc. unfold timeline_anchor.
  destruct (t_anchored t) eqn:E; [split_and!; auto; [lia|lia|]; intros Hf; by rewrite (Hanc eq_refl) in Hf|].
  caseb; simpl; rewrite s64_small by (unfold is_s64; lia); split_and!; auto; lia.
Qed.

(** One mapped frame: program time advances and the composition offset stays. *)
Lemma timeline_map_spec b t p d :
  tl_inv b t → in_bound d → in_bound p → b + 4 * B + 2 < 2 ^ 63 →
  let '(t', p', d') := timeline_map t p d in
  tl_inv (b + 2 * B + 1) t' ∧ p' - d' = p - d ∧ 0 ≤ d' ∧
  (t_has_program t = true → t_last_program_dts t < d') ∧
  t_last_program_dts t' = d' ∧ t_has_program t' = true.
Proof.
  intros Hi Hd Hp Hb. pose proof Hi as [? Hlast _ _].
  destruct (timeline_anchor_spec b t d Hi Hd) as (Ha & Ho & Hl & Hh & Hfirst); [lia|].
  unfold in_bound in *. unfold timeline_map.
  set (t1 := timeline_anchor t d) in *. rewrite Hh, Hl.
  rewrite (s64_small (d + t_offset t1)), (s64_small (p + t_offset t1)) by (unfold is_s64; lia).
  destruct (t_has_program t) eqn:E; cbn [andb].
  - destruct (Z.leb_spec (d + t_offset t1) (t_last_program_dts t)).
    + simpl. rewrite (s64_small (_ + 1 - d)), (s64_small (d + _)), (s64_small (p + _))
        by (unfold is_s64; lia).
      split_and!; auto; try lia. split; simpl; auto; lia.
    + split_and!; auto; try lia. split; simpl; auto; lia.
  - specialize (Hfirst eq_refl). split_and!; auto; try lia. split; simpl; auto; lia.
Qed.
End bounded.

(** ** Runs *)

Inductive tl_event := TlFrame (pts dts : Z) | TlSwitch.

Fixpoint timeline_run (t : timeline) (evs : list tl_event) : list (Z * Z) :=
  match evs with
  | [] => []
  | TlSwitch :: evs => timeline_run (timeline_discontinuity t) evs
  | TlFrame p d :: evs =>
      let '(t, p', d') := timeline_map t p d in (p', d') :: timeline_run t evs
  end.

Definition frames_of (evs : list tl_event) : list (Z * Z) :=
  omap (λ e, match e with TlFrame p d => Some (p, d) | TlSwitch => None end) evs.
Definition ev_bound (B : Z) (e : tl_event) : Prop :=
  match e with TlFrame p d => in_bound B p ∧ in_bound B d | TlSwitch => True end.

(** Strictly increasing, and above [lo] when there is a previous program DTS. *)
Fixpoint increasing_from (lo : option Z) (l : list Z) : Prop :=
  match l with
  | [] => True
  | x :: l => match lo with Some y => y < x | None => 0 ≤ x end ∧ increasing_from (Some x) l
  end.

Lemma timeline_run_spec B b t evs :
  0 ≤ B → tl_inv B b t → Forall (ev_bound B) evs →
  b + Z.of_nat (length evs) * (2 * B + 1) + 2 * B + 2 < 2 ^ 63 →
  increasing_from (if t_has_program t then Some (t_last_program_dts t) else None)
    (snd <$> timeline_run t evs) ∧
  Forall2 (λ q s, q.1 - q.2 = s.1 - s.2) (timeline_run t evs) (frames_of evs).
Proof.
  intros HB. revert b t. induction evs as [|[p d|] evs IH]; intros b t Hi Hev Hlen.
  - by split.
  - apply Forall_cons in Hev as [[Hp Hd] Hev]. cbn [length] in Hlen.
    pose proof (timeline_map_spec B HB b t p d Hi Hd Hp) as Hm.
    unfold frames_of in *. cbn [timeline_run omap list_omap].
    destruct (timeline_map t p d) as [[t' p'] d'].
    destruct Hm as (Hi' & Hco & Hpos & Hinc & Hl & Hh); [lia|].
    destruct (IH _ t' Hi' Hev) as [IH1 IH2]; [lia|].
    rewrite Hh, Hl in IH1. cbn [fmap list_fmap increasing_from].
    split; [|by constructor]. split; [|done].
    by destruct (t_has_program t); [apply Hinc|].
  - apply Forall_cons in Hev as [_ Hev]. cbn [length] in Hlen.
    unfold frames_of in *. cbn [timeline_run omap list_omap].
    destruct (IH b (timeline_discontinuity t)) as [IH1 IH2];
      [by apply tl_inv_discontinuity|done|lia|].
    by split.
Qed.

(** ** Properties *)

(** Whatever the source clocks do and wherever the switches fall, program DTS
    is strictly increasing from a non-negative start and every frame keeps its
    composition offset (PTS - DTS); with timestamps bounded by [B] no int64
    operation overflows for (2^63 - 2B - 2) / (2B + 1) frames. *)
Theorem program_time_monotonic B evs :
  0 ≤ B → Forall (ev_bound B) evs →
  Z.of_nat (length evs) * (2 * B + 1) + 2 * B + 2 < 2 ^ 63 →
  increasing_from None (snd <$> timeline_run timeline_init evs) ∧
  Forall2 (λ q s, q.1 - q.2 = s.1 - s.2) (timeline_run timeline_init evs) (frames_of evs).
Proof.
  intros HB Hev Hlen.
  apply (timeline_run_spec B 0 timeline_init evs HB); [by apply tl_inv_init|done|lia].
Qed.
Lemma program_time_monotonic_witness :
  let evs := [TlFrame 1000 900; TlFrame 1100 950; TlSwitch; TlFrame 20 10; TlFrame 15 5] in
  increasing_from None (snd <$> timeline_run timeline_init evs) ∧
  timeline_run timeline_init evs = [(100, 0); (200, 50); (61, 51); (62, 52)].
Proof.
  intros evs. split; [|reflexivity].
  apply (program_time_monotonic (2 ^ 33) evs); [lia| |vm_compute; reflexivity].
  repeat constructor; unfold in_bound; lia.
Defined.

(** The first frame of a program maps to DTS 0, and the first frame after a
    switch lands exactly one tick after the last program DTS. *)
Theorem anchor_points B b t p d :
  0 ≤ B → tl_inv B b t → in_bound B p → in_bound B d → b + 4 * B + 2 < 2 ^ 63 →
  (timeline_map timeline_init p d).2 = 0 ∧
  (0 < t_switches t + 1 < 2 ^ 64 →
   (timeline_map (timeline_discontinuity t) p d).2 = t_last_program_dts t + 1).
Proof.
  unfold in_bound. intros HB Hi Hp Hd Hb. pose proof (tl_b _ _ _ Hi). split.
  - unfold timeline_map, timeline_anchor. simpl. rewrite (s64_small (- d)) by (unfold is_s64; lia).
    rewrite s64_small by (unfold is_s64; lia). lia.
  - intros Hs. pose proof (tl_last _ _ _ Hi).
    unfold timeline_map, timeline_anchor. simpl. rewrite u64_small by lia.
    rewrite (proj2 (Z.eqb_neq _ _)) by lia. simpl.
    rewrite (s64_small (_ - d)) by (unfold is_s64; lia).
    rewrite (s64_small (d + _)) by (unfold is_s64; lia).
    rewrite (proj2 (Z.leb_gt _ _)), andb_false_r by lia. simpl. lia.
Qed.
Lemma anchor_points_witness :
  (timeline_map (timeline_discontinuity (timeline_map timeline_init 7 7).1.1) 500 400).2 = 1.
Proof.
  assert (tl_inv (2 ^ 33) 0 (timeline_map timeline_init 7 7).1.1) as Hi.
  { by split; vm_compute. }
  unshelve refine (proj2 (anchor_points (2 ^ 33) 0 _ 500 400 _ Hi _ _ _) _);
    try (unfold in_bound; lia); by vm_compute.
Defined.
