(* ===== verification/Health.v ===== *)
(** * Layered source health

    Models core/ngx_media_health.[ch]: evidence bits, the timers that clear and
    restore them, and the hysteresis between failing and recovering. *)
From S2P Require Import Prelude.

(** The selection policy of a stream (ngx_media_selector_t). *)
Record selector := mk_selector {
  sel_failure_timeout : Z; sel_recovery_timeout : Z;
  sel_switch_keyframe : Z; sel_switchback : Z }.

Record health := mk_health {
  h_evidence : Z; h_required : Z; h_failure_timeout : Z; h_recovery_timeout : Z;
  h_last_media : Z; h_last_ts_progress : Z; h_last_container_error : Z;
  h_unhealthy_since : Z; h_healthy_since : Z; h_last_dts : Z;
  h_container_errors : Z; h_transitions : Z; h_healthy : bool; h_eligible : bool }.
#[global] Instance eta_health : Eta health := λ r,
  mk_health (h_evidence r) (h_required r) (h_failure_timeout r) (h_recovery_timeout r)
    (h_last_media r) (h_last_ts_progress r) (h_last_container_error r)
    (h_unhealthy_since r) (h_healthy_since r) (h_last_dts r)
    (h_container_errors r) (h_transitions r) (h_healthy r) (h_eligible r).

Definition TRANSPORT_UP : Z := 1.
Definition DATA_FLOWING : Z := 2.
Definition CONTAINER_VALID : Z := 4.
Definition TIMESTAMPS_ADVANCING : Z := 8.
Definition MEDIA_VALID : Z := 16.
Definition TRACKS_COMPATIBLE : Z := 32.
Definition HEALTH_REQUIRED : Z :=
  Z.lor (Z.lor (Z.lor (Z.lor TRANSPORT_UP DATA_FLOWING) CONTAINER_VALID)
    TIMESTAMPS_ADVANCING) MEDIA_VALID.

(** [e & bits], [e |= bits] and [e &= ~bits] on the evidence word. *)
Definition has_bits (e bits : Z) : bool := negb (Z.land e bits =? 0).
Definition set_bits (bits : Z) (h : health) : health :=
  h <| h_evidence := Z.lor (h_evidence h) bits |>.
Definition clear_bits (bits : Z) (h : health) : health :=
  h <| h_evidence := Z.ldiff (h_evidence h) bits |>.

Definition health_init (sel : selector) (now : Z) : health :=
  mk_health CONTAINER_VALID HEALTH_REQUIRED (sel_failure_timeout sel)
    (sel_recovery_timeout sel) now now 0 0 now 0 0 0 true true.

Definition health_transport (h : health) (up : bool) (now : Z) : health :=
  if up then set_bits TRANSPORT_UP h
  else
    let h := h <| h_evidence := 0 |> <| h_healthy_since := 0 |>
               <| h_unhealthy_since := now |> in
    let h := if h_healthy h || h_eligible h
             then h <| h_transitions := h_transitions h ⊕ 1 |> else h in
    h <| h_healthy := false |> <| h_eligible := false |>.

Definition health_media (h : health) (dts now : Z) : health :=
  let h := h <| h_last_media := now |> in
  if h_last_dts h <? dts then
    h <| h_last_dts := dts |> <| h_last_ts_progress := now |>
  else if negb (h_last_dts h =? 0) && (90000 <? s64 (h_last_dts h - dts)) then
    h <| h_last_dts := dts |> <| h_last_ts_progress := now |>
  else h.

Definition health_container (h : health) (errors now : Z) : health :=
  if h_container_errors h <? errors then
    clear_bits CONTAINER_VALID
      (h <| h_container_errors := errors |> <| h_last_container_error := now |>)
  else h.

Definition health_tracks (h : health) (compatible : bool) : health :=
  if compatible then set_bits TRACKS_COMPATIBLE h else clear_bits TRACKS_COMPATIBLE h.

(** The evidence half of [ngx_media_health_evaluate]. *)
Definition health_evidence (h : health) (now : Z) : health :=
  let h := if has_bits (h_evidence h) TRANSPORT_UP
              && (now ⊖ h_last_media h <=? h_failure_timeout h)
           then set_bits (Z.lor DATA_FLOWING MEDIA_VALID) h
           else clear_bits (Z.lor DATA_FLOWING MEDIA_VALID) h in
  let h := if has_bits (h_evidence h) TRANSPORT_UP
              && (now ⊖ h_last_ts_progress h <=? h_failure_timeout h)
           then set_bits TIMESTAMPS_ADVANCING h
           else clear_bits TIMESTAMPS_ADVANCING h in
  if negb (has_bits (h_evidence h) CONTAINER_VALID)
     && (h_recovery_timeout h <=? now ⊖ h_last_container_error h)
  then set_bits CONTAINER_VALID h else h.

Definition required_ok (h : health) : bool :=
  Z.land (h_evidence h) (h_required h) =? h_required h.

(** The transition half. *)
Definition health_transition (h : health) (now : Z) : health :=
  if required_ok h then
    let h := if h_healthy_since h =? 0 then h <| h_healthy_since := now |> else h in
    if negb (h_healthy h) && (h_recovery_timeout h <=? now ⊖ h_healthy_since h) then
      h <| h_healthy := true |> <| h_transitions := h_transitions h ⊕ 1 |>
        <| h_unhealthy_since := 0 |>
    else h
  else if h_healthy h then
    h <| h_healthy := false |> <| h_transitions := h_transitions h ⊕ 1 |>
      <| h_healthy_since := 0 |> <| h_unhealthy_since := now |>
  else h.

Definition health_evaluate (h : health) (now : Z) : health :=
  let h := health_transition (health_evidence h now) now in
  h <| h_eligible := h_healthy h |>.

(** ** Evidence bits *)

Lemma has_bits_pow2 e k : 0 ≤ k → has_bits e (2 ^ k) = Z.testbit e k.
Proof.
  intros Hk. unfold has_bits. destruct (Z.testbit e k) eqn:E.
  - apply negb_true_iff, Z.eqb_neq. intros Hz.
    assert (Z.testbit (Z.land e (2 ^ k)) k = false) as Hf by (rewrite Hz; apply Z.bits_0).
    by rewrite Z.land_spec, E, Z.pow2_bits_true in Hf by lia.
  - apply negb_false_iff, Z.eqb_eq. apply Z.bits_inj'. intros i Hi.
    rewrite Z.land_spec, Z.bits_0, Z.pow2_bits_eqb by lia.
    destruct (Z.eqb_spec k i) as [<-|]; [by rewrite E|by rewrite andb_false_r].
Qed.

(** The five required layers, as booleans. *)
Lemma required_bits e :
  (Z.land e HEALTH_REQUIRED =? HEALTH_REQUIRED) =
  (Z.testbit e 0 && Z.testbit e 1 && Z.testbit e 2 && Z.testbit e 3 && Z.testbit e 4).
Proof.
  change HEALTH_REQUIRED with (Z.ones 5). rewrite Z.land_ones by lia.
  assert (e `mod` 2 ^ 5 = Z.b2z (Z.testbit e 0) + 2 * Z.b2z (Z.testbit e 1)
    + 4 * Z.b2z (Z.testbit e 2) + 8 * Z.b2z (Z.testbit e 3) + 16 * Z.b2z (Z.testbit e 4)) as ->.
  { rewrite !Z.testbit_spec' by lia. cbn [Z.pow Z.pow_pos Pos.iter Z.mul Pos.mul].
    Z.to_euclidean_division_equations. lia. }
  change (Z.ones 5) with 31.
  destruct (Z.testbit e 0), (Z.testbit e 1), (Z.testbit e 2), (Z.testbit e 3), (Z.testbit e 4);
    reflexivity.
Qed.

Lemma testbit_cond (b : bool) e v i :
  0 ≤ i → Z.testbit (if b then Z.lor e v else Z.ldiff e v) i
          = if Z.testbit v i then b else Z.testbit e i.
Proof.
  intros. destruct b; rewrite ?Z.lor_spec, ?Z.ldiff_spec by done;
    by destruct (Z.testbit e i), (Z.testbit v i).
Qed.
Lemma cond_bits_eq (b : bool) v h :
  (if b then set_bits v h else clear_bits v h)
  = h <| h_evidence := if b then Z.lor (h_evidence h) v else Z.ldiff (h_evidence h) v |>.
Proof. by destruct b. Qed.
Lemma cond_set_eq (b : bool) v h :
  (if b then set_bits v h else h)
  = h <| h_evidence := if b then Z.lor (h_evidence h) v else h_evidence h |>.
Proof. by destruct b, h. Qed.

Section evidence.
Context (h : health) (now : Z).
Let up := Z.testbit (h_evidence h) 0.
Let fresh := now ⊖ h_last_media h <=? h_failure_timeout h.
Let advancing := now ⊖ h_last_ts_progress h <=? h_failure_timeout h.
Let valid := Z.testbit (h_evidence h) 2
             || (h_recovery_timeout h <=? now ⊖ h_last_container_error h).

(** [evaluate] recomputes evidence and nothing else before the transition. *)
Lemma health_evidence_bits :
  ∃ e, health_evidence h now = h <| h_evidence := e |> ∧
  Z.testbit e 0 = up ∧ Z.testbit e 1 = (up && fresh) ∧ Z.testbit e 2 = valid ∧
  Z.testbit e 3 = (up && advancing) ∧ Z.testbit e 4 = (up && fresh) ∧
  Z.testbit e 5 = Z.testbit (h_evidence h) 5.
Proof.
  unfold health_evidence, up, fresh, advancing, valid.
  change TRANSPORT_UP with (2 ^ 0). change CONTAINER_VALID with (2 ^ 2).
  change (Z.lor DATA_FLOWING MEDIA_VALID) with 18. change TIMESTAMPS_ADVANCING with 8.
  cbv zeta. rewrite !cond_bits_eq, cond_set_eq. eexists. split; [reflexivity|].
  cbn -[Z.testbit Z.pow]. rewrite !has_bits_pow2, !testbit_cond by lia.
  change (Z.testbit 18 0) with false. change (Z.testbit 8 2) with false.
  change (Z.testbit 18 2) with false. cbn -[Z.testbit Z.pow].
  destruct (Z.testbit (h_evidence h) 2) eqn:E2; cbn [negb andb orb];
    [|destruct (_ <=? now ⊖ h_last_container_error h); cbn [negb andb orb]];
    rewrite ?Z.lor_spec, !testbit_cond by lia; cbn -[Z.testbit Z.pow];
    rewrite ?E2; split_and!; try reflexivity; by rewrite orb_false_r.
Qed.
End evidence.

(** ** Event sequences *)

Inductive hevent :=
  | HTransport (up : bool) (now : Z)
  | HMedia (dts now : Z)
  | HContainer (errors now : Z)
  | HTracks (compatible : bool)
  | HEvaluate (now : Z).

Definition health_step (h : health) (e : hevent) : health :=
  match e with
  | HTransport up now => health_transport h up now
  | HMedia dts now => health_media h dts now
  | HContainer errors now => health_container h errors now
  | HTracks c => health_tracks h c
  | HEvaluate now => health_evaluate h now
  end.
Definition health_run : health → list hevent → health := foldl health_step.

Definition is_up (e : hevent) : bool := match e with HTransport up _ => up | _ => false end.
Definition is_media (e : hevent) : bool := match e with HMedia _ _ => true | _ => false end.
Definition ev_time (e : hevent) : option Z :=
  match e with
  | HTransport _ t | HMedia _ t | HContainer _ t | HEvaluate t => Some t
  | HTracks _ => None
  end.

(** Every layer the policy requires, as [evaluate] sees it at [now]. *)
Definition evidence_good (h : health) (now : Z) : bool :=
  Z.testbit (h_evidence h) 0
  && (now ⊖ h_last_media h <=? h_failure_timeout h)
  && (Z.testbit (h_evidence h) 2 || (h_recovery_timeout h <=? now ⊖ h_last_container_error h))
  && (now ⊖ h_last_ts_progress h <=? h_failure_timeout h).

(** The instant good evidence is counted from. *)
Definition good_since (h : health) (now : Z) : Z :=
  if h_healthy_since h =? 0 then now else h_healthy_since h.

Lemma required_ok_evidence h now :
  h_required h = HEALTH_REQUIRED →
  required_ok (health_evidence h now) = evidence_good h now.
Proof.
  intros Hr. destruct (health_evidence_bits h now) as (e & -> & H0 & H1 & H2 & H3 & H4 & _).
  unfold required_ok, evidence_good. cbn -[Z.land Z.testbit HEALTH_REQUIRED].
  rewrite Hr, required_bits, H0, H1, H2, H3, H4.
  destruct (Z.testbit (h_evidence h) 0), (now ⊖ h_last_media h <=? _),
    (Z.testbit (h_evidence h) 2 || _), (now ⊖ h_last_ts_progress h <=? _); reflexivity.
Qed.

(** What [evaluate] leaves behind, in terms of the state before it. *)
Lemma evaluate_spec h now :
  h_required h = HEALTH_REQUIRED →
  let h' := health_evaluate h now in
  let good := evidence_good h now in
  h_healthy h' = good && (h_healthy h || (h_recovery_timeout h <=? now ⊖ good_since h now)) ∧
  h_eligible h' = h_healthy h' ∧
  h_transitions h' = (if eqb (h_healthy h') (h_healthy h) then h_transitions h
                      else h_transitions h ⊕ 1) ∧
  h_healthy_since h' =
    (if good then good_since h now else if h_healthy h then 0 else h_healthy_since h) ∧
  Z.testbit (h_evidence h') 0 = Z.testbit (h_evidence h) 0 ∧
  h_required h' = h_required h ∧ h_recovery_timeout h' = h_recovery_timeout h ∧
  h_failure_timeout h' = h_failure_timeout h ∧ h_last_media h' = h_last_media h.
Proof.
  intros Hr. cbv zeta. rewrite <- (required_ok_evidence h now Hr).
  unfold health_evaluate, health_transition, good_since.
  destruct (required_ok _) eqn:Hok.
  all: destruct (health_evidence_bits h now) as (e & -> & H0 & _).
  all: destruct h as [ev rq ft rt lm lt lc us hs ld ce tr [] el].
  all: cbn -[Z.testbit] in *; clear Hok Hr; subst.
  all: repeat (first [caseb | caseb_bool]; cbn -[Z.testbit] in *); subst; split_and!; try done; try by destruct (_ <=? _).
Qed.

Lemma step_required h e : h_required (health_step h e) = h_required h ∧
  h_recovery_timeout (health_step h e) = h_recovery_timeout h ∧
  h_failure_timeout (health_step h e) = h_failure_timeout h.
Proof.
  destruct e as [[]| | |[]|]; unfold health_step, health_transport, health_media,
    health_container, health_tracks, set_bits, clear_bits.
  all: try (cbn; repeat (first [caseb|caseb_bool]; cbn); by split_and!).
  unfold health_evaluate, health_transition.
  destruct (health_evidence_bits h now) as (ev & -> & _).
  repeat (first [caseb | caseb_bool]; cbn); by split_and!.
Qed.

Lemma run_required h evs : h_required (health_run h evs) = h_required h ∧
  h_recovery_timeout (health_run h evs) = h_recovery_timeout h ∧
  h_failure_timeout (health_run h evs) = h_failure_timeout h.
Proof.
  revert h. induction evs as [|e evs IH]; intros h; [done|].
  destruct (step_required h e) as (? & ? & ?). destruct (IH (health_step h e)) as (? & ? & ?).
  cbn [health_run foldl]. unfold health_run in *. split_and!; congruence.
Qed.

(** A source without transport stays failed. *)
Definition down (h : health) : Prop :=
  Z.testbit (h_evidence h) 0 = false ∧ h_healthy h = false ∧ h_eligible h = false ∧
  h_required h = HEALTH_REQUIRED.

Lemma down_step h e : down h → is_up e = false → down (health_step h e).
Proof.
  intros (Hb & Hh & He & Hr) Hup.
  destruct e as [[]| | |[]|]; try done; unfold down, health_step.
  - unfold health_transport. caseb_bool; cbn; by split_and!.
  - unfold health_media. repeat (first [caseb | caseb_bool]; cbn -[Z.testbit]); by split_and!.
  - unfold health_container. caseb; [|by split_and!]. cbn -[Z.testbit].
    by rewrite Z.ldiff_spec, Hb by lia.
  - unfold health_tracks, set_bits. cbn -[Z.testbit]. by rewrite Z.lor_spec, Hb.
  - unfold health_tracks, clear_bits. cbn -[Z.testbit]. by rewrite Z.ldiff_spec, Hb by lia.
  - destruct (evaluate_spec h now Hr) as (-> & -> & _ & _ & -> & -> & _).
    unfold evidence_good. by rewrite Hb.
Qed.

Lemma down_run h evs :
  down h → Forall (λ e, is_up e = false) evs → down (health_run h evs).
Proof.
  revert h. induction evs as [|e evs IH]; intros h Hd Hf; [done|].
  apply Forall_cons in Hf as [? ?]. cbn [health_run foldl]. apply IH; auto using down_step.
Qed.

(** The last media time only moves to the time of a media event. *)
Lemma last_media_run h evs :
  Forall (λ e, is_media e = false) evs → h_last_media (health_run h evs) = h_last_media h.
Proof.
  revert h. induction evs as [|e evs IH]; intros h Hf; [done|].
  apply Forall_cons in Hf as [He Hf]. cbn [health_run foldl]. unfold health_run in IH.
  rewrite IH by done.
  destruct e as [[]| | |[]|]; try done; unfold health_step, health_transport,
    health_container, set_bits, clear_bits; try by repeat (first [caseb|caseb_bool]; cbn).
  unfold health_evaluate, health_transition.
  destruct (health_evidence_bits h now) as (ev & -> & _).
  repeat (first [caseb | caseb_bool]; cbn); done.
Qed.

(** The events of a clock that does not run backwards, from [lo] to before [hi]. *)
Fixpoint clocked (lo hi : Z) (evs : list hevent) : Prop :=
  match evs with
  | [] => True
  | e :: evs =>
      match ev_time e with
      | Some t => lo ≤ t < hi ∧ clocked t hi evs
      | None => clocked lo hi evs
      end
  end.

(** Failed, with good evidence counted from [t1] at the earliest. *)
Record recovering (t1 cur : Z) (h : health) : Prop := {
  rec_healthy : h_healthy h = false;
  rec_eligible : h_eligible h = false;
  rec_required : h_required h = HEALTH_REQUIRED;
  rec_since : h_healthy_since h = 0 ∨ t1 ≤ h_healthy_since h ≤ cur;
}.

Lemma recovering_step t1 cur h e :
  0 ≤ t1 ≤ cur → t1 + h_recovery_timeout h < 2 ^ 64 → recovering t1 cur h →
  let t := default cur (ev_time e) in
  cur ≤ t < t1 + h_recovery_timeout h → recovering t1 t (health_step h e).
Proof.
  intros H0 Hw Hi t Ht. pose proof Hi as [Hh He Hr Hs].
  assert (h_healthy_since h = 0 ∨ t1 ≤ h_healthy_since h ≤ t) as Hs' by lia.
  destruct e as [[]| | |[]|]; subst t; cbn [ev_time default from_option id] in *; unfold health_step.
  - by split.
  - unfold health_transport. cbn. caseb_bool; split; cbn; auto.
  - unfold health_media. repeat (first [caseb | caseb_bool]; cbn); by split.
  - unfold health_container. by caseb; split.
  - by split.
  - by split.
  - destruct (evaluate_spec h now Hr) as (Hh' & Hel & _ & Hsince & _ & Hreq & _).
    assert ((h_recovery_timeout h <=? now ⊖ good_since h now) = false) as Hno.
    { apply Z.leb_gt. unfold good_since. caseb; [rewrite Z.sub_diag; change (u64 0) with 0; lia|].
      unfold u64. rewrite Z.mod_small; lia. }
    rewrite Hh, Hno, andb_false_r in Hh'. split; [congruence..|].
    rewrite Hsince. unfold good_since.
    destruct (evidence_good h now); [|by rewrite Hh in *; lia]. caseb; lia.
Qed.

Lemma recovering_run t1 cur h evs :
  0 ≤ t1 ≤ cur → t1 + h_recovery_timeout h < 2 ^ 64 → recovering t1 cur h →
  clocked cur (t1 + h_recovery_timeout h) evs → h_eligible (health_run h evs) = false.
Proof.
  intros H0 Hw. revert cur h H0 Hw.
  induction evs as [|e evs IH]; intros cur h H0 Hw Hi Hc; [apply Hi|].
  cbn [health_run foldl clocked] in *. destruct (step_required h e) as (_ & Hrt & _).
  pose proof (recovering_step t1 cur h e H0 Hw Hi) as Hst.
  destruct (ev_time e) as [t|] eqn:Et; cbn [default from_option id] in Hst.
  - destruct Hc as [Ht Hc]. apply (IH t); rewrite ?Hrt; auto; lia.
  - destruct e as [[]| | |[]|]; try done.
    all: apply (IH cur); rewrite ?Hrt; auto; split; apply Hi.
Qed.

(** ** Properties *)

(** A closed transport fails the source at once and nothing but the transport
    coming back can undo it: whatever media, container and track reports arrive and
    however often the selector evaluates, the source stays failed and ineligible. *)
Theorem transport_down_is_hard sel t0 before t after :
  Forall (λ e, is_up e = false) after →
  let h := health_run (health_init sel t0) (before ++ HTransport false t :: after) in
  h_eligible h = false ∧ h_healthy h = false.
Proof.
  intros Hf. unfold health_run. rewrite foldl_app. cbn [foldl].
  assert (down (health_transport (health_run (health_init sel t0) before) false t)) as Hd.
  { unfold health_transport, down. destruct (run_required (health_init sel t0) before) as [Hr _].
    caseb_bool; cbn; by rewrite Hr. }
  apply (down_run _ after) in Hd as (_ & ? & ? & _); done.
Qed.
Lemma transport_down_is_hard_witness :
  let after := [HMedia 90000 2000; HEvaluate 2000; HTracks true; HEvaluate 30000] in
  h_eligible (health_run (health_init (mk_selector 1500 10000 1 0) 0)
    ([HTransport true 0; HEvaluate 100] ++ HTransport false 1000 :: after)) = false.
Proof.
  intros after.
  assert (Forall (λ e, is_up e = false) after) as Hup by (repeat constructor).
  exact (proj1 (transport_down_is_hard _ 0 [HTransport true 0; HEvaluate 100] 1000 after Hup)).
Defined.

(** What one evaluation decides, on every branch: a source is eligible exactly
    when every required layer shows good evidence and either it was healthy already
    or that evidence has been counted for the recovery timeout; a change of state is
    counted exactly once. *)
Theorem evaluate_decides sel t0 evs now :
  let h := health_run (health_init sel t0) evs in
  let h' := health_evaluate h now in
  h_eligible h' = (evidence_good h now &&
    (h_healthy h || (sel_recovery_timeout sel <=? now ⊖ good_since h now))) ∧
  h_healthy h' = h_eligible h' ∧
  h_transitions h' = (if eqb (h_healthy h') (h_healthy h) then h_transitions h
                      else h_transitions h ⊕ 1).
Proof.
  intros h h'. destruct (run_required (health_init sel t0) evs) as (Hr & Hrt & _).
  destruct (evaluate_spec h now Hr) as (Hh & He & Ht & _). subst h'.
  rewrite He. split_and!; [|done|done]. rewrite Hh. unfold h. by rewrite Hrt.
Qed.

(** C40: a connected but silent source is failed by the first evaluation later than
    the failure timeout after its last media frame, whatever other reports arrived
    in between. *)
Theorem silent_source_fails sel t0 before dts tm silent now :
  Forall (λ e, is_media e = false) silent →
  0 ≤ tm → tm + sel_failure_timeout sel < now < 2 ^ 64 → 0 ≤ sel_failure_timeout sel →
  let h := health_run (health_init sel t0) (before ++ HMedia dts tm :: silent ++ [HEvaluate now]) in
  h_eligible h = false ∧ h_healthy h = false.
Proof.
  intros Hs H0 Hnow Hf. unfold health_run. rewrite foldl_app. cbn [foldl].
  rewrite foldl_app. cbn [foldl].
  set (h1 := health_step _ (HMedia dts tm)).
  assert (h_last_media h1 = tm ∧ h_failure_timeout h1 = sel_failure_timeout sel
    ∧ h_required h1 = HEALTH_REQUIRED) as (Hm & Hft & Hr).
  { unfold h1. destruct (step_required (foldl health_step (health_init sel t0) before) (HMedia dts tm))
      as (-> & _ & ->).
    change (foldl health_step (health_init sel t0) before)
      with (health_run (health_init sel t0) before).
    destruct (run_required (health_init sel t0) before) as (-> & _ & ->).
    split_and!; [|done|done]. unfold health_step, health_media.
    by repeat (first [caseb | caseb_bool]; cbn). }
  pose proof (last_media_run h1 silent Hs) as Hlm.
  destruct (run_required h1 silent) as (Hr' & _ & Hft').
  change (foldl health_step h1 silent) with (health_run h1 silent).
  change (health_step ?x (HEvaluate now)) with (health_evaluate x now).
  destruct (evaluate_spec (health_run h1 silent) now) as (Hh & He & _); [congruence|].
  rewrite He, Hh. unfold evidence_good. rewrite Hlm, Hft', Hft, Hm.
  rewrite u64_small, (proj2 (Z.leb_gt _ _)), andb_false_r by lia. done.
Qed.
Lemma silent_source_fails_witness :
  h_eligible (health_run (health_init (mk_selector 1500 10000 1 0) 0)
    ([HTransport true 0] ++ HMedia 3000 1000 :: [HTracks true; HEvaluate 2000] ++ [HEvaluate 2501]))
  = false.
Proof.
  assert (Forall (λ e, is_media e = false) [HTracks true; HEvaluate 2000]) as Hs by (repeat constructor).
  refine (proj1 (silent_source_fails (mk_selector 1500 10000 1 0) 0 [HTransport true 0] 3000 1000
    [HTracks true; HEvaluate 2000] 2501 Hs _ _ _)); cbn; lia.
Defined.

(** Hysteresis: once an evaluation or a closed transport has failed a source at
    [t1], no sequence of reports and evaluations makes it eligible again before the
    recovery timeout has passed. *)
Theorem recovery_hysteresis sel t0 before t1 after :
  let h := health_run (health_init sel t0) before in
  (∀ e, e = HEvaluate t1 ∧ h_healthy h = true ∧ h_eligible (health_step h e) = false
        ∨ e = HTransport false t1 →
   0 ≤ t1 → t1 + sel_recovery_timeout sel < 2 ^ 64 →
   clocked t1 (t1 + sel_recovery_timeout sel) after →
   h_eligible (health_run (health_step h e) after) = false).
Proof.
  intros h e He H0 Hw Hc.
  destruct (run_required (health_init sel t0) before) as (Hr & Hrt & _).
  destruct (step_required h e) as (Hr2 & Hrt2 & _).
  apply (recovering_run t1 t1); rewrite ?Hrt2; unfold h; rewrite ?Hrt; auto; [lia|].
  fold h. destruct He as [(-> & Hh & Hel)| ->].
  - destruct (evaluate_spec h t1 Hr) as (Hh' & Hel' & _ & Hs & _).
    unfold health_step in *. rewrite Hel in Hel'. cbv zeta in *. split; [congruence|done|by etrans; [exact Hr2|exact Hr]|].
    rewrite Hs, Hh. rewrite <- Hel', Hh in Hh'. cbn [orb] in Hh'. rewrite andb_true_r in Hh'.
    rewrite <- Hh'. auto.
  - unfold health_step, health_transport in *. caseb_bool; split; cbn; auto.
Qed.
Lemma recovery_hysteresis_witness :
  let before := [HTransport true 0; HMedia 3000 1000] in
  let after := [HMedia 3000 3100; HMedia 6000 3200; HEvaluate 3200; HMedia 9000 12900; HEvaluate 12900] in
  h_eligible (health_run (health_step (health_run
    (health_init (mk_selector 1500 10000 1 0) 0) before) (HEvaluate 3000)) after) = false.
Proof.
  intros before after.
  refine (recovery_hysteresis (mk_selector 1500 10000 1 0) 0 before 3000 after (HEvaluate 3000) _ _ _ _);
    [left; split_and!; vm_compute; reflexivity|lia|vm_compute; reflexivity|].
  cbn. lia.
Defined.

(** The timer is not restarted by bad evidence while the source is already failed:
    a source that showed good evidence at 3 s, none at 12 s, and good evidence
    again at 13.5 s is eligible at 13.5 s with a recovery timeout of 10 s. *)
Example recovery_not_continuous :
  let h := health_run (health_init (mk_selector 1500 10000 1 0) 0)
    [HTransport true 0; HMedia 90000 100; HEvaluate 2000;
     HMedia 180000 3000; HEvaluate 3000; HEvaluate 12000] in
  h_eligible (health_run (health_init (mk_selector 1500 10000 1 0) 0)
    [HTransport true 0; HMedia 90000 100; HEvaluate 2000]) = false ∧
  evidence_good h 12000 = false ∧
  h_eligible (health_run h [HMedia 270000 13500; HEvaluate 13500]) = true.
Proof. vm_compute. auto. Qed.
