(* ===== verification/Compat.v ===== *)
(** * Track contract compatibility

    Models core/ngx_media_compat.[ch]: the classification of a candidate source's
    track contract against the program's, and the bounded reverse search. *)
From S2P Require Import Prelude Store.

Definition TYPE_VIDEO : Z := 1.
Definition TYPE_AUDIO : Z := 2.
Definition TYPE_DATA : Z := 3.

Definition READY : Z := 1.
Definition DEGRADED : Z := 2.
Definition INCOMPATIBLE : Z := 3.

Definition compat_name (compat : Z) : string :=
  if compat =? READY then "ready"
  else if compat =? DEGRADED then "degraded"
  else if compat =? INCOMPATIBLE then "incompatible"
  else "unknown".

Definition compat_worst (a b : Z) : Z := if b <? a then a else b.

(** [a != 0 && b != 0 && a != b]: both sides know the parameter and differ. *)
Definition differs (a b : Z) : bool := negb (a =? 0) && negb (b =? 0) && negb (a =? b).

Definition compat_track (program candidate : track) : Z :=
  if negb (tr_codec program =? tr_codec candidate) then INCOMPATIBLE
  else if negb (tr_media_type program =? tr_media_type candidate) then INCOMPATIBLE
  else
    let audio := tr_media_type program =? TYPE_AUDIO in
    let video := tr_media_type program =? TYPE_VIDEO in
    if audio && differs (tr_sample_rate program) (tr_sample_rate candidate) then DEGRADED
    else if audio && differs (tr_channels program) (tr_channels candidate) then DEGRADED
    else if audio && differs (tr_profile program) (tr_profile candidate) then DEGRADED
    else if video && differs (tr_profile program) (tr_profile candidate) then DEGRADED
    else if video && differs (tr_level program) (tr_level candidate) then DEGRADED
    else if video && differs (tr_width program) (tr_width candidate) then DEGRADED
    else if video && differs (tr_height program) (tr_height candidate) then DEGRADED
    else if negb (tr_payload_format program =? tr_payload_format candidate) then DEGRADED
    else READY.

(** The inner loop over the candidate's tracks: [(found, result)]. *)
Fixpoint classify_candidates (p : track) (cands : list track) (found : bool) (result : Z) :
    bool * Z :=
  match cands with
  | [] => (found, result)
  | c :: cands =>
      if negb (tr_media_type c =? tr_media_type p)
      then classify_candidates p cands found result
      else classify_candidates p cands true (compat_worst result (compat_track p c))
  end.

(** The outer loop over the program's tracks; [None] is its early return. *)
Fixpoint classify_programs (progs cands : list track) (result : Z) : option Z :=
  match progs with
  | [] => Some result
  | p :: progs =>
      let '(found, result) := classify_candidates p cands false result in
      if found then classify_programs progs cands result else None
  end.

Definition compat_classify (program candidate : option trackset) : Z :=
  match program, candidate with
  | Some program, Some candidate =>
      if ts_count program =? 0 then READY
      else
        match classify_programs (ts_used program) (ts_used candidate) READY with
        | None => INCOMPATIBLE
        | Some result =>
            if ts_count program <? ts_count candidate
            then compat_worst result DEGRADED else result
        end
  | _, _ => READY
  end.

(** [ngx_media_strrlchr(line, line + n, ch)]: the offset found, or NULL. *)
Fixpoint strrlchr (line : list Z) (n : nat) (ch : Z) : option nat :=
  match n with
  | O => None
  | S n => if default (-1) (line !! n) =? ch then Some n else strrlchr line n ch
  end.

(** ** Lemmas *)

(** A candidate track the program track is compared with. *)
Definition counterpart (p c : track) : Prop := tr_media_type c = tr_media_type p.
#[global] Instance counterpart_dec p c : Decision (counterpart p c).
Proof. unfold counterpart. apply _. Defined.

Definition is_compat (r : Z) : Prop := r = READY ∨ r = DEGRADED ∨ r = INCOMPATIBLE.

Lemma compat_track_range p c : is_compat (compat_track p c).
Proof. unfold compat_track, is_compat. repeat caseb_bool; auto. Qed.

Lemma compat_worst_max a b : compat_worst a b = Z.max a b.
Proof. unfold compat_worst. caseb; lia. Qed.

Lemma is_compat_max a b : is_compat a → is_compat b → is_compat (Z.max a b).
Proof. unfold is_compat, READY, DEGRADED, INCOMPATIBLE. lia. Qed.

(** The verdict of the pairs of one program track. *)
Definition pair_verdicts (p : track) (cands : list track) : list Z :=
  compat_track p <$> filter (counterpart p) cands.

Lemma classify_candidates_spec p cands found result :
  classify_candidates p cands found result =
    (found || bool_decide (filter (counterpart p) cands ≠ []),
     foldl Z.max result (pair_verdicts p cands)).
Proof.
  unfold pair_verdicts. revert found result.
  induction cands as [|c cands IH]; intros found result; cbn [classify_candidates].
  { by rewrite orb_false_r. }
  rewrite filter_cons. destruct (decide (counterpart p c)) as [e|e]; unfold counterpart in e.
  - rewrite (proj2 (Z.eqb_eq _ _) e). cbn [negb]. rewrite IH, compat_worst_max. simpl.
    by rewrite orb_true_r.
  - rewrite (proj2 (Z.eqb_neq _ _) e). cbn [negb]. by rewrite IH.
Qed.

Lemma foldl_max_ge l (r : Z) : r ≤ foldl Z.max r l.
Proof. revert r. induction l as [|x l IH]; intros r; simpl; [lia|]. specialize (IH (Z.max r x)). lia. Qed.

Lemma foldl_max_le l (r b : Z) : foldl Z.max r l ≤ b ↔ r ≤ b ∧ Forall (λ x, x ≤ b) l.
Proof.
  revert r. induction l as [|x l IH]; intros r; simpl; [rewrite Forall_nil; tauto|].
  rewrite IH, Forall_cons, Z.max_lub_iff. tauto.
Qed.

Lemma foldl_max_compat l r : is_compat r → Forall is_compat l → is_compat (foldl Z.max r l).
Proof.
  intros Hr Hl. revert r Hr. induction Hl; intros; simpl; auto using is_compat_max.
Qed.

Lemma pair_verdicts_range p cands : Forall is_compat (pair_verdicts p cands).
Proof. apply Forall_fmap, Forall_forall. intros c _. apply compat_track_range. Qed.

Lemma classify_programs_spec progs cands result :
  is_compat result →
  match classify_programs progs cands result with
  | None => ∃ p, p ∈ progs ∧ filter (counterpart p) cands = []
  | Some r => is_compat r ∧ Forall (λ p, filter (counterpart p) cands ≠ []) progs ∧
      ∀ b, r ≤ b ↔ result ≤ b ∧ Forall (λ p, Forall (λ x, x ≤ b) (pair_verdicts p cands)) progs
  end.
Proof.
  revert result. induction progs as [|p progs IH]; intros result Hr; cbn [classify_programs].
  { split_and!; [done|constructor|]. intros b. rewrite Forall_nil. tauto. }
  rewrite classify_candidates_spec. cbn [orb].
  destruct (bool_decide_reflect (filter (counterpart p) cands ≠ [])) as [Hf|Hf].
  2:{ exists p. split; [set_solver|]. by apply dec_stable. }
  specialize (IH (foldl Z.max result (pair_verdicts p cands))).
  destruct (classify_programs progs cands _) as [r|].
  - destruct IH as (Hc & Hn & Hb); [by apply foldl_max_compat, pair_verdicts_range|].
    split_and!; [done|by constructor|]. intros b. rewrite Hb, foldl_max_le, Forall_cons. tauto.
  - destruct IH as (q & ? & ?); [by apply foldl_max_compat, pair_verdicts_range|].
    exists q. split; [set_solver|done].
Qed.

(** Both sides agree on every parameter both of them know. *)
Definition agree (a b : Z) : Prop := a = 0 ∨ b = 0 ∨ a = b.

Definition same_shape (p c : track) : Prop :=
  tr_payload_format p = tr_payload_format c ∧
  (tr_media_type p = TYPE_AUDIO →
     agree (tr_sample_rate p) (tr_sample_rate c) ∧ agree (tr_channels p) (tr_channels c) ∧
     agree (tr_profile p) (tr_profile c)) ∧
  (tr_media_type p = TYPE_VIDEO →
     agree (tr_profile p) (tr_profile c) ∧ agree (tr_level p) (tr_level c) ∧
     agree (tr_width p) (tr_width c) ∧ agree (tr_height p) (tr_height c)).

Lemma differs_spec a b : differs a b = false ↔ agree a b.
Proof.
  unfold differs, agree. destruct (Z.eqb_spec a 0), (Z.eqb_spec b 0), (Z.eqb_spec a b);
    simpl; split; intros; try done; lia || tauto.
Qed.

Lemma compat_track_spec p c :
  counterpart p c →
  (compat_track p c = INCOMPATIBLE ↔ tr_codec p ≠ tr_codec c) ∧
  (compat_track p c = READY ↔ tr_codec p = tr_codec c ∧ same_shape p c).
Proof.
  unfold counterpart, compat_track, same_shape. intros Ht. rewrite <- !differs_spec, Ht, Z.eqb_refl.
  unfold TYPE_AUDIO, TYPE_VIDEO.
  destruct (Z.eqb_spec (tr_codec p) (tr_codec c)); [|split; [done|]; split; [done|by intros [? _]]]. cbn [negb].
  destruct (Z.eqb_spec (tr_media_type p) 2), (Z.eqb_spec (tr_media_type p) 1); try lia.
  all: cbn [andb]; destruct (Z.eqb_spec (tr_payload_format p) (tr_payload_format c)).
  all: repeat caseb_bool; unfold READY, DEGRADED, INCOMPATIBLE; (split; [done|]); split; intros;
    try done; try lia; split_and!; try done; naive_solver.
Qed.

(** The classification as a bound on the verdicts of all pairs. *)
Lemma compat_classify_le program candidate b :
  0 < ts_count program → READY ≤ b →
  let progs := ts_used program in let cands := ts_used candidate in
  compat_classify (Some program) (Some candidate) ≤ b ↔
    INCOMPATIBLE ≤ b ∨
    ((ts_count program < ts_count candidate → DEGRADED ≤ b) ∧
     ∀ p, p ∈ progs → (∃ c, c ∈ cands ∧ counterpart p c) ∧
       ∀ c, c ∈ cands → counterpart p c → compat_track p c ≤ b).
Proof.
  intros Hn Hb progs cands. unfold compat_classify.
  rewrite (proj2 (Z.eqb_neq _ _)) by lia. fold progs cands.
  pose proof (classify_programs_spec progs cands READY ltac:(by left)) as Hs.
  assert (∀ p, filter (counterpart p) cands ≠ [] ↔ ∃ c, c ∈ cands ∧ counterpart p c) as Hex.
  { intros p. split.
    - intros Hne. destruct (filter (counterpart p) cands) as [|c l] eqn:E; [done|].
      assert (c ∈ filter (counterpart p) cands) as [? ?]%list_elem_of_filter by (rewrite E; set_solver).
      eauto.
    - intros (c & ? & ?) Hnil. assert (c ∈ filter (counterpart p) cands) as Hc
        by (by apply list_elem_of_filter). rewrite Hnil in Hc. set_solver. }
  destruct (classify_programs progs cands READY) as [r|].
  - destruct Hs as (Hr & Hne & Hle).
    assert ((if ts_count program <? ts_count candidate then compat_worst r DEGRADED else r) ≤ b ↔
      r ≤ b ∧ (ts_count program < ts_count candidate → DEGRADED ≤ b)) as ->.
    { caseb; rewrite ?compat_worst_max; lia. }
    assert (∀ p, Forall (λ x, x ≤ b) (pair_verdicts p cands) ↔
      ∀ c, c ∈ cands → counterpart p c → compat_track p c ≤ b) as Hv.
    { intros p. unfold pair_verdicts. rewrite Forall_fmap, Forall_forall.
      setoid_rewrite list_elem_of_filter. naive_solver. }
    rewrite Hle, Forall_forall. setoid_rewrite Hv. rewrite Forall_forall in Hne. split.
    + intros [[_ Hp] Hd]. right. split; [done|]. intros p Hin. split; [by apply Hex, Hne|].
      by apply (Hp p Hin).
    + intros [Hbig|[Hd Hp]].
      * split; [|by unfold INCOMPATIBLE, DEGRADED in *; lia]. split; [done|].
        intros p _ c _ _. pose proof (compat_track_range p c).
        unfold is_compat, READY, DEGRADED, INCOMPATIBLE in *. lia.
      * split; [|done]. split; [done|]. intros p Hin. by apply (Hp p Hin).
  - destruct Hs as (p & Hp & Hnil). split; [by left|]. intros [?|[_ Hall]]; [done|].
    destruct (Hall p Hp) as [Hx _]. by apply Hex in Hx.
Qed.

Lemma compat_classify_range program candidate : is_compat (compat_classify program candidate).
Proof.
  unfold compat_classify, is_compat. destruct program, candidate; auto.
  destruct (Z.eqb_spec (ts_count t) 0); [auto|].
  pose proof (classify_programs_spec (ts_used t) (ts_used t0) READY ltac:(by left)) as Hs.
  destruct (classify_programs _ _ _); [|by auto]. destruct Hs as [Hr _].
  caseb; [|done]. rewrite compat_worst_max. apply is_compat_max; [done|right; by left].
Qed.

(** Some program track without a counterpart, or with one of another codec. *)
Definition clash (cands : list track) (p : track) : Prop :=
  Forall (λ c, ¬ counterpart p c) cands ∨
  Exists (λ c, counterpart p c ∧ tr_codec p ≠ tr_codec c) cands.
#[global] Instance clash_dec cands p : Decision (clash cands p).
Proof. unfold clash. apply _. Defined.

Lemma no_clash cands p :
  ¬ clash cands p ↔
  (∃ c, c ∈ cands ∧ counterpart p c) ∧
  ∀ c, c ∈ cands → counterpart p c → compat_track p c ≤ DEGRADED.
Proof.
  unfold clash. rewrite Forall_forall, Exists_exists. split.
  - intros Hc. split.
    + destruct (decide (Exists (counterpart p) cands)) as [He|He]; [by apply Exists_exists|].
      exfalso. apply Hc. left. intros c Hin Hcp. apply He, Exists_exists. eauto.
    + intros c Hin Hcp. destruct (compat_track_spec p c Hcp) as [Hi _].
      destruct (compat_track_range p c) as [H|[H|H]]; rewrite H; try done.
      exfalso. apply Hc. right. exists c. apply Hi in H. auto.
  - intros [(c & Hin & Hcp) Hall] [Hno|(d & Hd & Hdp & Hne)]; [by eapply Hno|].
    apply (compat_track_spec p d Hdp) in Hne. specialize (Hall d Hd Hdp). by rewrite Hne in Hall.
Qed.

(** ** Properties *)

(** The three verdicts, exactly.  Against a program with tracks a candidate is
    INCOMPATIBLE when some program track has no counterpart of its media type or
    differs in codec from one; READY when every counterpart agrees on payload format
    and on every parameter both sides know, and the candidate brings no extra track;
    DEGRADED otherwise. *)
Theorem classify_verdict program candidate :
  0 < ts_count program →
  let progs := ts_used program in let cands := ts_used candidate in
  let r := compat_classify (Some program) (Some candidate) in
  (r = INCOMPATIBLE ↔
     (∃ p, p ∈ progs ∧ ∀ c, c ∈ cands → ¬ counterpart p c) ∨
     (∃ p c, p ∈ progs ∧ c ∈ cands ∧ counterpart p c ∧ tr_codec p ≠ tr_codec c)) ∧
  (r = READY ↔ ts_count candidate ≤ ts_count program ∧
     ∀ p, p ∈ progs → (∃ c, c ∈ cands ∧ counterpart p c) ∧
       ∀ c, c ∈ cands → counterpart p c → tr_codec p = tr_codec c ∧ same_shape p c) ∧
  (r = READY ∨ r = DEGRADED ∨ r = INCOMPATIBLE).
Proof.
  intros Hn progs cands r. pose proof (compat_classify_range (Some program) (Some candidate)) as Hr.
  fold r in Hr.
  pose proof (compat_classify_le program candidate READY Hn ltac:(done)) as H1.
  pose proof (compat_classify_le program candidate DEGRADED Hn ltac:(done)) as H2.
  fold progs cands r in H1, H2.
  assert (r ≤ DEGRADED ↔ ∀ p, p ∈ progs → ¬ clash cands p) as H2'.
  { rewrite H2. setoid_rewrite no_clash. split; [intros [?|[_ ?]]; done|by right]. }
  clear H2. rename H2' into H2. split_and!; [| |done].
  - transitivity (¬ r ≤ DEGRADED).
    { unfold is_compat, READY, DEGRADED, INCOMPATIBLE in *. lia. }
    rewrite H2. transitivity (Exists (clash cands) progs).
    + rewrite Exists_exists. split.
      * intros Hx. destruct (decide (Exists (clash cands) progs)) as [He|He];
          [by apply Exists_exists|].
        exfalso. apply Hx. intros p Hp Hc. apply He, Exists_exists. eauto.
      * intros (p & Hp & Hc) Hall. by apply (Hall p Hp).
    + assert (∀ p, clash cands p ↔ (∀ c, c ∈ cands → ¬ counterpart p c) ∨
        ∃ c, c ∈ cands ∧ counterpart p c ∧ tr_codec p ≠ tr_codec c) as Hcl.
      { intros p. unfold clash. by rewrite Forall_forall, Exists_exists. }
      rewrite Exists_exists. setoid_rewrite Hcl. naive_solver.
  - transitivity (r ≤ READY); [unfold is_compat, READY, DEGRADED, INCOMPATIBLE in *; lia|].
    rewrite H1. split.
    + intros [?|[Hc Hp]]; [done|]. split; [unfold DEGRADED, READY in *; lia|].
      intros p Hin. destruct (Hp p Hin) as [? Hall]. split; [done|].
      intros c ? Hcp. apply (compat_track_spec p c Hcp). specialize (Hall c).
      destruct (compat_track_range p c) as [?|[Hd|Hd]]; [done|rewrite Hd in Hall..];
        unfold READY, DEGRADED, INCOMPATIBLE in *; exfalso; naive_solver lia.
    + intros [Hc Hp]. right. split; [lia|]. intros p Hin. destruct (Hp p Hin) as [? Hall].
      split; [done|]. intros c ? Hcp. apply Z.eq_le_incl, (compat_track_spec p c Hcp). auto.
Qed.

Definition ex_video : track := mk_track TYPE_VIDEO 1 1 100 40 1920 1080 0 0 0 0 None.
Definition ex_audio : track := mk_track TYPE_AUDIO 3 3 0 0 0 0 0 0 48000 2 None.

Lemma classify_verdict_witness :
  let ts := mk_trackset [ex_video; ex_audio] 2 2 in
  compat_classify (Some ts) (Some (mk_trackset [ex_audio] 1 1)) = INCOMPATIBLE.
Proof.
  intros ts. apply (classify_verdict ts (mk_trackset [ex_audio] 1 1)); [done|].
  left. exists ex_video. split; [set_solver|]. intros c Hc. unfold ts_used in Hc. simpl in Hc.
  apply list_elem_of_singleton in Hc as ->. done.
Defined.

(** The reverse search stays inside the slice and returns the last occurrence
    of the byte, or nothing when the slice holds none. *)
Theorem strrlchr_last line n ch :
  (n ≤ length line)%nat →
  match strrlchr line n ch with
  | Some i => (i < n)%nat ∧ line !! i = Some ch ∧
              ∀ j, (i < j < n)%nat → line !! j ≠ Some ch
  | None => ∀ j, (j < n)%nat → line !! j ≠ Some ch
  end.
Proof.
  induction n as [|n IH]; intros Hl; cbn [strrlchr]; [lia|].
  destruct (lookup_lt_is_Some_2 line n) as [x Hx]; [lia|]. rewrite Hx. cbn [default from_option id].
  destruct (Z.eqb_spec x ch) as [->|Hne]; cbv iota.
  - split; [lia|]. split; [done|lia].
  - specialize (IH ltac:(lia)). destruct (strrlchr line n ch) as [i|].
    + destruct IH as (? & ? & Hlast). split; [lia|]. split; [done|]. intros j Hj.
      destruct (decide (j = n)) as [->|]; [by rewrite Hx; intros [= ->]|apply Hlast; lia].
    + intros j Hj. destruct (decide (j = n)) as [->|]; [by rewrite Hx; intros [= ->]|apply IH; lia].
Qed.
Lemma strrlchr_last_witness : strrlchr [97; 58; 98; 58; 99] 5 58 = Some 3%nat ∧
  ∀ j, (3 < j < 5)%nat → [97; 58; 98; 58; 99] !! j ≠ Some 58.
Proof. split; [done|]. apply (strrlchr_last [97; 58; 98; 58; 99] 5 58). simpl. lia. Defined.

(** A program with two audio tracks of different codecs is INCOMPATIBLE with an
    identical candidate: every same-type pair is compared, not the matching one. *)
Example classify_not_reflexive :
  let ts := mk_trackset [ex_audio; mk_track TYPE_AUDIO 0 4 0 0 0 0 0 0 48000 2 None] 2 2 in
  compat_classify (Some ts) (Some ts) = INCOMPATIBLE.
Proof. reflexivity. Qed.
