(* ===== verification/Tombstone.v ===== *)
(** * Deleted identities

    Models core/ngx_media_tombstone.[ch]: a bounded ring of deletions consulted
    before a replicated operation is applied. *)
From S2P Require Import Prelude.

Definition TOMBSTONES : Z := 256.

Record tombstone := mk_tombstone { tb_hash : Z; tb_revision : Z }.
Record tombstone_ring := mk_tombstone_ring {
  tr_slots : list tombstone; tr_next : Z; tr_count : Z }.

Definition tombstone_init : tombstone_ring :=
  mk_tombstone_ring (replicate (Z.to_nat TOMBSTONES) (mk_tombstone 0 0)) 0 0.

Definition tombstone_add (ring : tombstone_ring) (hash revision : Z) : tombstone_ring :=
  mk_tombstone_ring
    (<[Z.to_nat (tr_next ring) := mk_tombstone hash revision]> (tr_slots ring))
    ((tr_next ring ⊕ 1) mod TOMBSTONES)
    (if tr_count ring <? TOMBSTONES then tr_count ring ⊕ 1 else tr_count ring).

(** The scan over the first [count] slots. *)
Fixpoint tombstone_scan (slots : list tombstone) (hash revision : Z) : bool :=
  match slots with
  | [] => false
  | t :: slots =>
      if negb (tb_hash t =? hash) then tombstone_scan slots hash revision
      else if revision <=? tb_revision t then true
      else tombstone_scan slots hash revision
  end.
Definition tombstone_has (ring : tombstone_ring) (hash revision : Z) : bool :=
  tombstone_scan (take (Z.to_nat (tr_count ring)) (tr_slots ring)) hash revision.

(** ** The ring as a list of deletions *)

Definition tombstones (dels : list tombstone) : tombstone_ring :=
  foldl (λ r t, tombstone_add r (tb_hash t) (tb_revision t)) tombstone_init dels.

(** The last [n] elements. *)
Definition lastn {A} (n : nat) (l : list A) : list A := drop (length l - n) l.

(** The ring read from its oldest entry. *)
Definition in_order (ring : tombstone_ring) : list tombstone :=
  let n := Z.to_nat (tr_next ring) in
  drop n (take (Z.to_nat (tr_count ring)) (tr_slots ring)) ++ take n (tr_slots ring).

Record ring_inv (ring : tombstone_ring) : Prop := {
  ri_len : length (tr_slots ring) = Z.to_nat TOMBSTONES;
  ri_next : 0 ≤ tr_next ring < TOMBSTONES;
  ri_count : tr_next ring ≤ tr_count ring ≤ TOMBSTONES;
  ri_full : tr_count ring = tr_next ring ∨ tr_count ring = TOMBSTONES;
}.

Lemma lastn_snoc {A} (n : nat) (l : list A) x :
  (0 < n)%nat → lastn n (l ++ [x]) = (if decide (length l < n)%nat then l else drop 1 (lastn n l)) ++ [x].
Proof.
  intros Hn. unfold lastn. rewrite length_app. simpl. case_decide.
  - replace (length l + 1 - n)%nat with O by lia. done.
  - rewrite drop_drop, drop_app_le by lia. repeat f_equal. lia.
Qed.

Lemma length_lastn {A} (n : nat) (l : list A) : length (lastn n l) = min n (length l).
Proof. unfold lastn. rewrite length_drop. lia. Qed.

Lemma length_in_order ring : ring_inv ring → Z.of_nat (length (in_order ring)) = tr_count ring.
Proof.
  intros []. unfold in_order. rewrite length_app, length_drop, !length_take.
  unfold TOMBSTONES in *. lia.
Qed.

(** The slots that are not full yet hold the ring in order; a full ring replaces its
    oldest entry. *)
Lemma tombstone_add_spec ring h r :
  ring_inv ring →
  let t := mk_tombstone h r in let ring' := tombstone_add ring h r in
  ring_inv ring' ∧
  in_order ring' =
    (if decide (tr_count ring < TOMBSTONES) then in_order ring else drop 1 (in_order ring)) ++ [t].
Proof.
  intros [Hl Hn Hc Hf] t ring'. unfold tombstone_add in ring'.
  assert (tr_next ring ⊕ 1 = tr_next ring + 1) as Hn1 by (apply u64_small; unfold TOMBSTONES in *; lia).
  assert (tr_count ring < TOMBSTONES → tr_count ring ⊕ 1 = tr_count ring + 1) as Hc1
    by (intros; apply u64_small; unfold TOMBSTONES in *; lia).
  assert (ring_inv ring') as Hinv.
  { unfold ring'. rewrite Hn1. split; simpl; rewrite ?length_insert; auto.
    all: pose proof (Z.mod_pos_bound (tr_next ring + 1) TOMBSTONES ltac:(done)).
    all: destruct (decide (tr_next ring + 1 = TOMBSTONES)) as [He|He];
      [rewrite He, Z_mod_same_full in *|rewrite Z.mod_small in * by lia].
    all: repeat caseb; rewrite ?Hc1 by done; unfold TOMBSTONES in *; lia. }
  split; [done|].
  set (n := Z.to_nat (tr_next ring)).
  assert (n < length (tr_slots ring))%nat as Hlt by (unfold n, TOMBSTONES in *; lia).
  unfold in_order at 1, ring'. simpl. fold n. rewrite Hn1.
  assert (take (S n) (<[n:=t]> (tr_slots ring)) = take n (tr_slots ring) ++ [t]) as Htake.
  { erewrite take_S_r by (by apply list_lookup_insert_eq).
    by rewrite take_insert_ge by lia. }
  case_decide as Hfull.
  - rewrite (proj2 (Z.ltb_lt _ _)) by done. rewrite Hc1 by done.
    assert (tr_count ring = tr_next ring) as Heq by lia.
    assert (in_order ring = take n (tr_slots ring)) as ->.
    { unfold in_order. rewrite Heq. fold n. by rewrite drop_ge by (rewrite length_take; lia). }
    rewrite <- Htake, Heq. destruct (decide (tr_next ring + 1 = TOMBSTONES)) as [He|He].
    + rewrite He, Z_mod_same_full. change (Z.to_nat 0) with O.
      rewrite drop_0, app_nil_r. f_equal. unfold TOMBSTONES in *. lia.
    + rewrite Z.mod_small by lia. replace (Z.to_nat (tr_next ring + 1)) with (S n) by lia.
      by rewrite drop_ge by (rewrite length_take; lia).
  - rewrite (proj2 (Z.ltb_ge _ _)) by lia.
    assert (Z.to_nat (tr_count ring) = length (tr_slots ring)) as Hcl by lia.
    unfold in_order. fold n. rewrite Hcl, !(take_ge _ (length (tr_slots ring)))
      by (rewrite ?length_insert; lia).
    assert (drop 1 (drop n (tr_slots ring) ++ take n (tr_slots ring))
      = drop (S n) (tr_slots ring) ++ take n (tr_slots ring)) as ->.
    { rewrite drop_app_le by (rewrite length_drop; lia). by rewrite drop_drop, Nat.add_1_r. }
    rewrite <- app_assoc, <- Htake.
    destruct (decide (tr_next ring + 1 = TOMBSTONES)) as [He|He].
    + rewrite He, Z_mod_same_full. simpl. rewrite drop_0, app_nil_r.
      assert (S n = length (tr_slots ring)) as Hs by lia.
      rewrite Hs, drop_all, take_ge by (rewrite length_insert; lia). done.
    + rewrite Z.mod_small by lia. replace (Z.to_nat (tr_next ring + 1)) with (S n) by lia.
      by rewrite drop_insert_lt by lia.
Qed.

Lemma tombstones_spec dels :
  ring_inv (tombstones dels) ∧ in_order (tombstones dels) = lastn 256 dels.
Proof.
  induction dels as [|t dels IH] using rev_ind.
  - split; [split; try done; by left|done].
  - destruct IH as [Hi Ho]. unfold tombstones in *. rewrite foldl_app. cbn [foldl].
    destruct (tombstone_add_spec _ (tb_hash t) (tb_revision t) Hi) as [Hi' Ho'].
    split; [done|]. rewrite Ho', Ho, lastn_snoc by lia.
    pose proof (length_in_order _ Hi) as Hc. rewrite Ho, length_lastn in Hc.
    unfold TOMBSTONES in *. destruct t. cbn [tb_hash tb_revision].
    destruct (decide (length dels < 256)%nat).
    + rewrite decide_True by lia. f_equal. unfold lastn.
      by replace (length dels - 256)%nat with O by lia.
    + by rewrite decide_False by lia.
Qed.

Lemma tombstone_scan_spec slots h r :
  tombstone_scan slots h r = true ↔
  ∃ t, t ∈ slots ∧ tb_hash t = h ∧ r ≤ tb_revision t.
Proof.
  induction slots as [|t slots IH]; cbn [tombstone_scan]; [set_solver|].
  setoid_rewrite elem_of_cons.
  destruct (Z.eqb_spec (tb_hash t) h), (Z.leb_spec r (tb_revision t)); cbn [negb];
    rewrite ?IH; naive_solver lia.
Qed.

Lemma tombstone_has_spec ring h r :
  ring_inv ring →
  tombstone_has ring h r = true ↔
  ∃ t, t ∈ in_order ring ∧ tb_hash t = h ∧ r ≤ tb_revision t.
Proof.
  intros [Hl Hn Hc Hf]. unfold tombstone_has. rewrite tombstone_scan_spec.
  set (n := Z.to_nat (tr_next ring)). set (c := Z.to_nat (tr_count ring)).
  assert (in_order ring ≡ₚ take c (tr_slots ring)) as Hp.
  { unfold in_order. fold n c. rewrite Permutation_app_comm.
    rewrite <- (take_drop n (take c (tr_slots ring))) at 2.
    rewrite take_take. by replace (n `min` c)%nat with n by lia. }
  setoid_rewrite Hp. done.
Qed.

(** ** Properties *)

(** The guard refuses exactly the operations one of the last 256 deletions has
    moved past: an operation on an identity at a revision is tombstoned iff some
    deletion among the 256 most recent ones has that identity's hash and a revision
    at least as high - repeated deletions of one identity are all considered. *)
Theorem tombstone_window dels h r :
  tombstone_has (tombstones dels) h r = true ↔
  ∃ t, t ∈ lastn 256 dels ∧ tb_hash t = h ∧ r ≤ tb_revision t.
Proof.
  destruct (tombstones_spec dels) as [Hi Ho]. by rewrite tombstone_has_spec, Ho.
Qed.
