(* ===== verification/Owner.v ===== *)
(** * Deterministic stream ownership

    Models core/ngx_media_owner.c: the FNV-1a hash that names the worker owning a
    stream. *)
From S2P Require Import Prelude.

Definition FNV_BASIS : Z := 14695981039346656037.
Definition FNV_PRIME : Z := 1099511628211.

Definition fnv_step (hash byte : Z) : Z := u64 (Z.lxor hash byte * FNV_PRIME).
Definition fnv (hash : Z) (data : list Z) : Z := foldl fnv_step hash data.

(** A NULL string is [None]; the separator is ['/']. *)
Definition owner_hash (application stream : option (list Z)) : Z :=
  let hash := FNV_BASIS in
  let hash := match application with None => hash | Some data => fnv hash data end in
  match stream with
  | None => hash
  | Some data => fnv (fnv_step hash 47) data
  end.

Definition owner_slot (hash workers : Z) : Z :=
  if workers =? 0 then 0 else hash mod workers.

(** The configured worker count; [None] stands for a missing cycle or core
    configuration. *)
Definition owner_worker_count (worker_processes : option Z) : Z :=
  match worker_processes with
  | None => 1
  | Some n => if n =? 0 then 1 else n
  end.
Definition owner_for (worker_processes : option Z) (hash : Z) : Z :=
  owner_slot hash (owner_worker_count worker_processes).

(** ** Every step permutes the 64-bit words *)

(** The inverse of the odd FNV prime modulo 2^64. *)
Definition FNV_INVERSE : Z := 14886173955864302971.

Lemma lxor_u64 a b : is_u64 a → is_u64 b → is_u64 (Z.lxor a b).
Proof.
  unfold is_u64. intros Ha Hb. split; [apply Z.lxor_nonneg; lia|].
  assert (Z.lxor a b = Z.lxor a b mod 2 ^ 64) as ->; [|apply Z.mod_pos_bound; done].
  apply Z.bits_inj'. intros i Hi. destruct (Z.ltb_spec i 64).
  - by rewrite Z.mod_pow2_bits_low by lia.
  - rewrite Z.mod_pow2_bits_high, Z.lxor_spec by lia.
    rewrite <- (Z.mod_small a (2 ^ 64)), <- (Z.mod_small b (2 ^ 64)) by lia.
    by rewrite !Z.mod_pow2_bits_high by lia.
Qed.

Lemma fnv_mul_inj a b :
  is_u64 a → is_u64 b → u64 (a * FNV_PRIME) = u64 (b * FNV_PRIME) → a = b.
Proof.
  intros Ha Hb H. unfold u64 in H.
  assert (∀ x, is_u64 x → ((x * FNV_PRIME) mod 2 ^ 64 * FNV_INVERSE) mod 2 ^ 64 = x) as Hinv.
  { intros x Hx. rewrite Zmult_mod_idemp_l, <- Z.mul_assoc, Z.mul_mod by lia.
    change (FNV_PRIME * FNV_INVERSE mod 2 ^ 64) with 1.
    rewrite Z.mul_1_r, Zmod_mod. by apply Z.mod_small. }
  rewrite <- (Hinv a Ha), <- (Hinv b Hb). by rewrite H.
Qed.

Lemma fnv_step_u64 h b : is_u64 (fnv_step h b).
Proof. apply u64_range. Qed.
Lemma fnv_u64 h data : is_u64 h → is_u64 (fnv h data).
Proof.
  revert h. induction data as [|b data IH]; intros h Hh; [done|].
  apply IH, fnv_step_u64.
Qed.
Lemma byte_u64 b : is_byte b → is_u64 b.
Proof. unfold is_byte, is_u64. lia. Qed.

Lemma lxor_inj_r a b c : Z.lxor a c = Z.lxor b c → a = b.
Proof.
  intros H. rewrite <- (Z.lxor_0_r a), <- (Z.lxor_0_r b), <- (Z.lxor_nilpotent c).
  by rewrite <- !Z.lxor_assoc, H.
Qed.

Lemma fnv_step_inj_hash g h b :
  is_u64 g → is_u64 h → is_byte b → fnv_step g b = fnv_step h b → g = h.
Proof.
  intros Hg Hh Hb%byte_u64 H. apply fnv_mul_inj in H; auto using lxor_u64.
  by eapply lxor_inj_r.
Qed.
Lemma fnv_step_inj_byte h b c :
  is_u64 h → is_byte b → is_byte c → fnv_step h b = fnv_step h c → b = c.
Proof.
  intros Hh Hb%byte_u64 Hc%byte_u64 H. apply fnv_mul_inj in H; auto using lxor_u64.
  rewrite !(Z.lxor_comm h) in H. by eapply lxor_inj_r.
Qed.
Lemma fnv_inj g h data :
  is_u64 g → is_u64 h → Forall is_byte data → fnv g data = fnv h data → g = h.
Proof.
  intros Hg Hh Hd. revert g h Hg Hh.
  induction Hd as [|b data Hb _ IH]; intros g h Hg Hh H; [done|].
  apply (fnv_step_inj_hash g h b); auto. apply IH; auto using fnv_step_u64.
Qed.

(** The bytes a hash runs over. *)
Definition owner_bytes (application stream : option (list Z)) : list Z :=
  default [] application ++ match stream with None => [] | Some data => 47 :: data end.

Lemma owner_hash_bytes application stream :
  owner_hash application stream = fnv FNV_BASIS (owner_bytes application stream).
Proof.
  unfold owner_hash, owner_bytes, fnv. rewrite foldl_app.
  by destruct application, stream.
Qed.

(** ** Properties *)

(** Two identities of the same length that differ in exactly one byte never
    hash alike, wherever the byte is: each FNV-1a step permutes the 64-bit words. *)
Theorem one_byte_never_collides a s a' s' pre b c post :
  owner_bytes a s = pre ++ b :: post → owner_bytes a' s' = pre ++ c :: post →
  Forall is_byte (b :: c :: post) → b ≠ c →
  owner_hash a s ≠ owner_hash a' s'.
Proof.
  intros H H' [Hb [Hc Hp]%Forall_cons]%Forall_cons Hne Heq.
  rewrite !owner_hash_bytes, H, H' in Heq. unfold fnv in Heq.
  rewrite !foldl_app in Heq. cbn [foldl] in Heq.
  apply fnv_inj in Heq; [|apply fnv_step_u64..|done].
  apply Hne, (fnv_step_inj_byte (fnv FNV_BASIS pre)); auto.
  apply fnv_u64. done.
Qed.
Lemma one_byte_never_collides_witness :
  owner_hash (Some [97]) (Some [98; 99]) ≠ owner_hash (Some [97]) (Some [98; 100]).
Proof.
  apply (one_byte_never_collides _ _ _ _ [97; 47; 98] 99 100 []); [done|done| |done].
  repeat constructor; done.
Defined.

(** Every stream has exactly one owner among the configured workers: the slot
    is a worker index for any positive worker count, and worker 0 without one. *)
Theorem owner_is_a_worker application stream worker_processes :
  (∀ n, worker_processes = Some n → 0 ≤ n) →
  let w := owner_for worker_processes (owner_hash application stream) in
  0 ≤ w < Z.max 1 (default 1 worker_processes).
Proof.
  intros Hn. unfold owner_for, owner_worker_count, owner_slot.
  destruct worker_processes as [n|]; cbn [default from_option id]; [|by rewrite Zmod_1_r].
  specialize (Hn n eq_refl). destruct (Z.eqb_spec n 0) as [->|]; [by rewrite Zmod_1_r|].
  rewrite (proj2 (Z.eqb_neq _ _)) by done.
  pose proof (Z.mod_pos_bound (owner_hash application stream) n). lia.
Qed.
Lemma owner_is_a_worker_witness :
  0 ≤ owner_for (Some 4) (owner_hash (Some [108]) (Some [99])) < 4.
Proof. apply (owner_is_a_worker (Some [108]) (Some [99]) (Some 4)). intros n [= <-]. done. Defined.
