(* ===== verification/Policy.v ===== *)
(** * Selection policy and object admission

    Models core/ngx_media_policy.[ch]: the policy defaults and the counters that
    bound the live streams, sources and destinations of a worker. *)
From S2P Require Import Prelude Health.

(** ngx_media_executor_conf_t, without the executable path. *)
Record executor_conf := mk_executor_conf {
  x_width : Z; x_height : Z; x_video_bitrate : Z; x_audio_bitrate : Z;
  x_sample_rate : Z; x_channels : Z; x_gop_frames : Z; x_max_input_chunks : Z;
  x_max_input_bytes : Z; x_restart_min : Z; x_restart_max : Z }.
Definition executor_conf_default : executor_conf :=
  mk_executor_conf 1280 720 3000000 128000 48000 2 60 8 (8 * 1024 * 1024) 250 5000.

(** NGX_CONF_UNSET of a flag, and of an egress worker count. *)
Definition CONF_UNSET : Z := -1.
Definition EGRESS_WORKERS_UNSET : Z := 2 ^ 64 - 1.

Definition SWITCHBACK_AUTO : Z := 1.
Definition SWITCHBACK_MANUAL : Z := 2.
Definition SWITCHBACK_NEVER : Z := 3.
Definition STREAM_LIMIT_DEFAULT : Z := 256.
Definition SOURCE_LIMIT_DEFAULT : Z := 4096.
Definition DESTINATION_LIMIT_DEFAULT : Z := 4096.

Record policy := mk_policy {
  p_failure_timeout : Z; p_recovery_timeout : Z; p_switch_keyframe : Z;
  p_switchback : Z; p_srt_egress_workers : Z; p_hls_push_egress_workers : Z;
  p_stream_limit : Z; p_source_limit : Z; p_destination_limit : Z;
  p_hls_path : list Z; p_ingest_secret_path : list Z; p_record_program_path : list Z;
  p_record_raw_path : list Z; p_record_iso_path : list Z; p_record_iso_source : list Z;
  p_transform_executor : executor_conf }.
#[global] Instance eta_policy : Eta policy := λ r,
  mk_policy (p_failure_timeout r) (p_recovery_timeout r) (p_switch_keyframe r)
    (p_switchback r) (p_srt_egress_workers r) (p_hls_push_egress_workers r)
    (p_stream_limit r) (p_source_limit r) (p_destination_limit r)
    (p_hls_path r) (p_ingest_secret_path r) (p_record_program_path r)
    (p_record_raw_path r) (p_record_iso_path r) (p_record_iso_source r)
    (p_transform_executor r).

Definition policy_init : policy :=
  mk_policy 1500 10000 CONF_UNSET SWITCHBACK_AUTO EGRESS_WORKERS_UNSET EGRESS_WORKERS_UNSET
    STREAM_LIMIT_DEFAULT SOURCE_LIMIT_DEFAULT DESTINATION_LIMIT_DEFAULT
    [] [] [] [] [] [] executor_conf_default.

(** [policy_get]: the configured policy when the cycle carries one, else the
    worker's, created on first use if the pool has room.  Answers the policy and the
    worker's pointer. *)
Definition policy_get (conf worker : option policy) (pool_ok : bool) :
    option policy * option policy :=
  match conf with
  | Some p => (Some p, worker)
  | None =>
      match worker with
      | Some p => (Some p, worker)
      | None =>
          if negb pool_ok then (None, None)
          else
            let p := policy_init in
            let p := if p_switch_keyframe p =? CONF_UNSET
                     then p <| p_switch_keyframe := 1 |> else p in
            (Some p, Some p)
      end
  end.

(** ** Admission *)

Definition MODEL_STREAM : Z := 0.
Definition MODEL_SOURCE : Z := 1.
Definition MODEL_DESTINATION : Z := 2.

(** ngx_media_model_objects: one atomic word per kind. *)
Definition objects_init : list Z := [0; 0; 0].

(** The limit of a kind; a stream limit above the default is clamped to it. *)
Definition model_limit (p : option policy) (kind : Z) : option Z :=
  if kind =? MODEL_STREAM then
    let limit := match p with Some p => p_stream_limit p | None => STREAM_LIMIT_DEFAULT end in
    Some (if STREAM_LIMIT_DEFAULT <? limit then STREAM_LIMIT_DEFAULT else limit)
  else if kind =? MODEL_SOURCE then
    Some (match p with Some p => p_source_limit p | None => SOURCE_LIMIT_DEFAULT end)
  else if kind =? MODEL_DESTINATION then
    Some (match p with Some p => p_destination_limit p | None => DESTINATION_LIMIT_DEFAULT end)
  else None.

Definition object_count (objs : list Z) (kind : Z) : Z := default 0 (objs !! Z.to_nat kind).
Definition object_add (objs : list Z) (kind n : Z) : list Z :=
  alter (λ c, u64 (c + n)) (Z.to_nat kind) objs.

Definition model_room (p : option policy) (objs : list Z) (kind : Z) : Z :=
  match model_limit p kind with
  | None => 0
  | Some limit =>
      let count := object_count objs kind in
      if count <? limit then limit ⊖ count else 0
  end.
Definition model_available (p : option policy) (objs : list Z) (kind : Z) : bool :=
  negb (model_room p objs kind =? 0).
Definition model_admit (p : option policy) (objs : list Z) (kind : Z) : rc * list Z :=
  if negb (model_available p objs kind) then (NGX_ERROR, objs)
  else (NGX_OK, object_add objs kind 1).
Definition model_release (objs : list Z) (kind : Z) : list Z :=
  if kind <? 3 then object_add objs kind (-1) else objs.
Definition model_count (objs : list Z) (kind : Z) : Z :=
  if kind <? 3 then object_count objs kind else 0.

(** ** Histories *)

Inductive model_op := OpAdmit (kind : Z) | OpRelease (kind : Z).

(** One operation; a release is only issued by the holder of an admitted object. *)
Inductive model_step (p : option policy) : list Z → model_op → rc → list Z → Prop :=
  | step_admit objs kind r objs' :
      0 ≤ kind → model_admit p objs kind = (r, objs') →
      model_step p objs (OpAdmit kind) r objs'
  | step_release objs kind :
      0 ≤ kind < 3 → 0 < object_count objs kind →
      model_step p objs (OpRelease kind) NGX_OK (model_release objs kind).

Inductive model_reach (p : option policy) : list (model_op * rc) → list Z → Prop :=
  | reach_init : model_reach p [] objects_init
  | reach_step h objs op r objs' :
      model_reach p h objs → model_step p objs op r objs' →
      model_reach p (h ++ [(op, r)]) objs'.

(** What the history leaves alive of a kind. *)
Definition alive (kind : Z) (h : list (model_op * rc)) : Z :=
  sumZ ((λ e, match e with
              | (OpAdmit k, NGX_OK) => if k =? kind then 1 else 0
              | (OpRelease k, _) => if k =? kind then -1 else 0
              | _ => 0
              end) <$> h).

Definition policy_wf (p : option policy) : Prop :=
  match p with
  | None => True
  | Some p => 0 ≤ p_stream_limit p < 2 ^ 63 ∧ 0 ≤ p_source_limit p < 2 ^ 63 ∧
              0 ≤ p_destination_limit p < 2 ^ 63
  end.

Lemma model_limit_range p kind limit :
  policy_wf p → model_limit p kind = Some limit → 0 ≤ limit < 2 ^ 63 ∧ 0 ≤ kind < 3.
Proof.
  unfold model_limit, MODEL_STREAM, MODEL_SOURCE, MODEL_DESTINATION, STREAM_LIMIT_DEFAULT,
    SOURCE_LIMIT_DEFAULT, DESTINATION_LIMIT_DEFAULT.
  intros Hp. destruct (Z.eqb_spec kind 0); [|destruct (Z.eqb_spec kind 1);
    [|destruct (Z.eqb_spec kind 2); [|done]]]; intros [= <-];
    destruct p as [p|]; simpl in Hp; try caseb; lia.
Qed.

Lemma object_count_add objs k n kind :
  0 ≤ k → 0 ≤ kind < Z.of_nat (length objs) →
  object_count (object_add objs k n) kind =
    if k =? kind then u64 (object_count objs kind + n) else object_count objs kind.
Proof.
  intros Hk Hkind. unfold object_count, object_add. destruct (Z.eqb_spec k kind) as [->|Hne].
  - rewrite list_lookup_alter_eq. destruct (lookup_lt_is_Some_2 objs (Z.to_nat kind)) as [x ->]; [lia|].
    done.
  - by rewrite list_lookup_alter_ne by lia.
Qed.

(** The counters of a reachable state. *)
Lemma model_reach_inv p h objs :
  policy_wf p → model_reach p h objs →
  length objs = 3%nat ∧
  ∀ kind limit, model_limit p kind = Some limit →
    object_count objs kind = alive kind h ∧ 0 ≤ object_count objs kind ≤ limit.
Proof.
  intros Hp. induction 1 as [|h objs op r objs' Hr [Hlen IH] Hstep].
  { split; [done|]. intros kind limit Hl. pose proof (model_limit_range _ _ _ Hp Hl).
    assert (kind = 0 ∨ kind = 1 ∨ kind = 2) as [->|[->| ->]] by lia; unfold alive, object_count; simpl; lia. }
  assert (length objs' = 3%nat) as Hlen'.
  { inversion Hstep; subst; unfold model_admit, model_release, object_add in *;
      repeat case_match; simplify_eq; rewrite ?length_alter; done. }
  split; [done|]. intros kind limit Hl. pose proof (model_limit_range _ _ _ Hp Hl) as [? ?].
  destruct (IH kind limit Hl) as [Hc Hb].
  unfold alive. rewrite fmap_app, sumZ_app. fold (alive kind h). cbn [fmap list_fmap sumZ foldr].
  inversion Hstep as [? k ? ? ? Hadm|? k ? ?]; subst.
  - unfold model_admit, model_available in Hadm.
    destruct (Z.eqb_spec (model_room p objs k) 0) as [|Hroom]; simplify_eq/=; [lia|].
    rewrite object_count_add by lia. destruct (Z.eqb_spec k kind) as [->|]; [|lia].
    unfold model_room in Hroom. rewrite Hl in Hroom. caseb_in Hroom; [|done].
    rewrite u64_small by lia. lia.
  - unfold model_release. rewrite (proj2 (Z.ltb_lt _ _)) by lia.
    rewrite object_count_add by lia. destruct (Z.eqb_spec k kind) as [->|]; [|lia].
    rewrite u64_small by lia. lia.
Qed.

(** ** Properties *)

(** Admission is exact accounting under a hard limit: after any history of
    admissions and releases by holders, the live count of every kind is the number
    of granted admissions minus the releases and never exceeds the configured limit
    (256 streams at most), and the next admission is granted exactly when the count
    is below it. *)
Theorem admission_bounded p h objs kind limit :
  policy_wf p → model_reach p h objs → model_limit p kind = Some limit →
  model_count objs kind = alive kind h ∧ 0 ≤ model_count objs kind ≤ limit ∧
  (kind = MODEL_STREAM → limit ≤ STREAM_LIMIT_DEFAULT) ∧
  ((model_admit p objs kind).1 = NGX_OK ↔ model_count objs kind < limit).
Proof.
  intros Hp Hr Hl. pose proof (model_limit_range _ _ _ Hp Hl) as [? ?].
  destruct (model_reach_inv p h objs Hp Hr) as [_ Hi]. destruct (Hi kind limit Hl) as [Hc Hb].
  unfold model_count. rewrite (proj2 (Z.ltb_lt _ _)) by lia. split_and!; auto; try lia.
  - intros ->. unfold model_limit in Hl. simpl in Hl. injection Hl as <-. caseb; lia.
  - unfold model_admit, model_available, model_room. rewrite Hl.
    destruct (Z.ltb_spec (object_count objs kind) limit); simpl; [|split; [done|lia]].
    rewrite u64_small by lia. destruct (Z.eqb_spec (limit - object_count objs kind) 0); simpl; [lia|].
    split; [lia|done].
Qed.
Lemma admission_bounded_witness :
  let p := Some (policy_init <| p_source_limit := 1 |>) in
  let objs := object_add objects_init MODEL_SOURCE 1 in
  model_count objs MODEL_SOURCE = 1 ∧ (model_admit p objs MODEL_SOURCE).1 = NGX_ERROR ∧
  model_count objs MODEL_SOURCE ≤ 1.
Proof.
  intros p objs. split_and!; [reflexivity|reflexivity|].
  assert (model_reach p ([] ++ [(OpAdmit MODEL_SOURCE, NGX_OK)]) objs) as Hr.
  { econstructor; [constructor|]. by constructor. }
  assert (policy_wf p) as Hp by (by repeat split).
  exact (proj2 (proj1 (proj2 (admission_bounded p _ objs MODEL_SOURCE 1 Hp Hr eq_refl)))).
Defined.
