(* ===== verification/Source.v ===== *)
(** * Sources: standby cache, leases, keys and lifetime

    Models core/ngx_media_source.[ch].  The standby cache ([preroll]) is a ring of
    frames holding one complete GOP; [cached] is the list it stands for and
    [cache_push] the rule it implements.  Source objects live in a [graph] with
    their reference counts, next to the per-worker object counters and the
    reference counts of the streams they belong to. *)
From Stdlib Require Import Sorted.
From S2P Require Import Prelude Ring Store Health Policy Compat.

(** ** Revisions *)

(** [shared] is the provider's next number, [None] without a provider. *)
Definition revision_next (shared : option Z) (local : Z) : Z :=
  match shared with
  | Some shared => if local <? shared then shared else local ⊕ 1
  | None => local ⊕ 1
  end.

(** ** The standby cache *)

Definition source_pow2 (n : Z) : Z := pow2 n.

(** [pr_units = []] is the NULL array. *)
Record preroll := mk_preroll {
  pr_units : list frame; pr_capacity : Z; pr_max_units : Z; pr_max_bytes : Z;
  pr_head : Z; pr_tail : Z; pr_bytes : Z; pr_overflows : Z; pr_unit_overflows : Z;
  pr_byte_overflows : Z; pr_high_water_units : Z; pr_high_water_bytes : Z;
  pr_have_boundary : bool }.
#[global] Instance eta_preroll : Eta preroll := λ r,
  mk_preroll (pr_units r) (pr_capacity r) (pr_max_units r) (pr_max_bytes r)
    (pr_head r) (pr_tail r) (pr_bytes r) (pr_overflows r) (pr_unit_overflows r)
    (pr_byte_overflows r) (pr_high_water_units r) (pr_high_water_bytes r)
    (pr_have_boundary r).

Definition preroll_zero : preroll := mk_preroll [] 0 0 0 0 0 0 0 0 0 0 0 false.

(** sizeof(ngx_media_frame_t) *)
Definition frame_size : Z := 64.

Definition preroll_init (p : preroll) (max_units max_bytes : Z) : M (rc * preroll) :=
  if (max_units =? 0) || (max_bytes =? 0) then mret (NGX_ERROR, p)
  else
    let capacity := source_pow2 (max_units ⊕ 1) in
    if (capacity =? 0) || ((2 ^ 64 - 1) `div` frame_size <? capacity) then
      mret (NGX_ERROR, preroll_zero <| pr_capacity := capacity |>)
    else
      a ← ngx_alloc (capacity * frame_size);
      match a with
      | None => mret (NGX_ERROR, preroll_zero)
      | Some _ =>
          mret (NGX_OK,
            preroll_zero <| pr_units := replicate (Z.to_nat capacity) frame_init |>
              <| pr_capacity := capacity |> <| pr_max_units := max_units |>
              <| pr_max_bytes := max_bytes |>)
      end.

Definition pr_slot (p : preroll) (seq : Z) : frame :=
  default frame_init (pr_units p !! ring_idx (pr_capacity p) seq).
Definition set_pr_slot (p : preroll) (seq : Z) (f : frame) : preroll :=
  p <| pr_units := <[ring_idx (pr_capacity p) seq := f]> (pr_units p) |>.

(** The releasing loop of [preroll_reset]; it runs [head - tail] times. *)
Fixpoint reset_loop (fuel : nat) (p : preroll) : M preroll :=
  match fuel with
  | O => ub
  | S fuel =>
      if pr_tail p <? pr_head p then
        f ← frame_release (pr_slot p (pr_tail p));
        reset_loop fuel ((set_pr_slot p (pr_tail p) f) <| pr_tail := pr_tail p ⊕ 1 |>)
      else mret p
  end.
Definition preroll_reset (p : preroll) : M preroll :=
  p ← reset_loop (S (Z.to_nat (pr_head p - pr_tail p))) p;
  mret (p <| pr_head := 0 |> <| pr_tail := 0 |> <| pr_bytes := 0 |>
          <| pr_have_boundary := false |>).

Definition preroll_destroy (p : preroll) : M preroll :=
  match pr_units p with
  | [] => mret p
  | _ => _ ← preroll_reset p; mret preroll_zero
  end.

(** The boundary rules in front of the ring: the cache to push into, or [None] when
    the frame is ignored. *)
Definition preroll_gate (has_video : bool) (p : preroll) (f : frame) : M (option preroll) :=
  if media_type f =? TYPE_VIDEO then
    if keyframe f then
      p ← preroll_reset p;
      mret (Some (p <| pr_have_boundary := true |>))
    else if negb (pr_have_boundary p) then mret None
    else mret (Some p)
  else if negb (pr_have_boundary p) then
    if has_video then mret None
    else mret (Some (p <| pr_have_boundary := true |>))
  else mret (Some p).

Definition preroll_units_used (p : preroll) : Z := pr_head p ⊖ pr_tail p.

Definition preroll_append (p : preroll) (f : frame) (len : Z) : preroll :=
  let p := (set_pr_slot p (pr_head p) f) <| pr_head := pr_head p ⊕ 1 |>
           <| pr_bytes := pr_bytes p ⊕ len |> in
  let p := if pr_high_water_units p <? preroll_units_used p
           then p <| pr_high_water_units := preroll_units_used p |> else p in
  if pr_high_water_bytes p <? pr_bytes p
  then p <| pr_high_water_bytes := pr_bytes p |> else p.

Definition preroll_push (has_video : bool) (p : preroll) (f : frame) : M (rc * preroll) :=
  match pr_units p with
  | [] => mret (NGX_ERROR, p)
  | _ =>
      len ← buf_size (payload f);
      gate ← preroll_gate has_video p f;
      match gate with
      | None => mret (NGX_OK, p)
      | Some p =>
          if pr_capacity p <=? preroll_units_used p then
            p ← preroll_reset (p <| pr_overflows := pr_overflows p ⊕ 1 |>
                                 <| pr_unit_overflows := pr_unit_overflows p ⊕ 1 |>);
            mret (NGX_AGAIN, p)
          else
            f' ← frame_copy f;
            let p := preroll_append p f' len in
            let units := pr_max_units p <? preroll_units_used p in
            let bytes := pr_max_bytes p <? pr_bytes p in
            if units || bytes then
              let p := p <| pr_overflows := pr_overflows p ⊕ 1 |> in
              let p := if units then p <| pr_unit_overflows := pr_unit_overflows p ⊕ 1 |> else p in
              let p := if bytes then p <| pr_byte_overflows := pr_byte_overflows p ⊕ 1 |> else p in
              p ← preroll_reset p;
              mret (NGX_AGAIN, p)
            else mret (NGX_OK, p)
      end
  end.

(** [preroll_replay]: the callback runs on every cached frame, oldest first; [n] is
    [head - tail]. *)
Fixpoint replay_loop {A} (cb : A → frame → M A) (p : preroll) (seq : Z) (n : nat) (ctx : A) : M A :=
  match n with
  | O => mret ctx
  | S n => ctx ← cb ctx (pr_slot p seq); replay_loop cb p (seq + 1) n ctx
  end.
Definition preroll_replay {A} (cb : A → frame → M A) (p : preroll) (ctx : A) : M A :=
  replay_loop cb p (pr_tail p) (Z.to_nat (pr_head p - pr_tail p)) ctx.

Definition preroll_units (p : preroll) : Z :=
  match pr_units p with [] => 0 | _ => preroll_units_used p end.
Definition preroll_ready (p : preroll) : bool :=
  match pr_units p with
  | [] => false
  | _ => pr_have_boundary p && (pr_tail p <? pr_head p)
  end.

(** ** The cache as a list *)

Definition cached (p : preroll) : list frame :=
  window (pr_units p) (pr_capacity p) (pr_tail p) (pr_head p).
#[global] Instance owner_preroll : Owner preroll := λ p, holds (cached p).

Definition frame_len (s : store) (f : frame) : Z := len_of s (payload f).
Definition frames_bytes (s : store) (l : list frame) : Z := sumZ (frame_len s <$> l).

Definition is_video (f : frame) : bool := media_type f =? TYPE_VIDEO.
Definition is_boundary (f : frame) : bool := is_video f && keyframe f.

(** The rule: a keyframe replaces the cache, other frames extend an open one, the
    first frame opens the cache of a source without video, and a ceiling clears it. *)
Definition cache_add (max_units max_bytes : Z) (s : store) (l : list frame) :
    rc * (bool * list frame) :=
  if (max_units <? Z.of_nat (length l)) || (max_bytes <? frames_bytes s l)
  then (NGX_AGAIN, (false, [])) else (NGX_OK, (true, l)).
Definition cache_push (has_video : bool) (max_units max_bytes : Z) (s : store)
    (c : bool * list frame) (f : frame) : rc * (bool * list frame) :=
  let '(open, l) := c in
  if is_boundary f then cache_add max_units max_bytes s [f]
  else if open then cache_add max_units max_bytes s (l ++ [f])
  else if is_video f || has_video then (NGX_OK, c)
  else cache_add max_units max_bytes s [f].

(** ** The cache invariant *)

Record preroll_inv (s : store) (p : preroll) : Prop := {
  pi_cap : is_pow2 (pr_capacity p);
  pi_cap63 : pr_capacity p ≤ 2 ^ 63;
  pi_len : Z.of_nat (length (pr_units p)) = pr_capacity p;
  pi_max : 0 < pr_max_units p < pr_capacity p;
  pi_max_bytes : 0 < pr_max_bytes p < 2 ^ 63;
  pi_tail : pr_tail p = 0;
  pi_head : 0 ≤ pr_head p ≤ pr_max_units p;
  pi_bytes : pr_bytes p = frames_bytes s (cached p);
  pi_fits : pr_bytes p ≤ pr_max_bytes p;
  pi_closed : pr_have_boundary p = false → pr_head p = 0;
}.

Lemma frames_bytes_app s l k : frames_bytes s (l ++ k) = frames_bytes s l + frames_bytes s k.
Proof. unfold frames_bytes. by rewrite fmap_app, sumZ_app. Qed.

Lemma frames_bytes_nonneg s L l : owns s L → 0 ≤ frames_bytes s l.
Proof.
  intros Ho. apply sumZ_nonneg, Forall_fmap, Forall_forall. intros f _.
  pose proof (len_of_range s L (payload f) Ho). simpl. unfold frame_len. lia.
Qed.

Lemma frame_len_stable s s' L L' f :
  owns s L → owns s' L' → evolves s s' → holds f ⊆ L → holds f ⊆ L' →
  frame_len s' f = frame_len s f.
Proof.
  intros Ho Ho' Hev Hin Hin'. unfold frame_len, holds, owner_frame in *.
  destruct (payload f) as [id|]; [|done]. simpl in *.
  by eapply evolves_held; [exact Ho|exact Ho'|done|set_solver..].
Qed.

Lemma frames_bytes_stable s s' L L' (l : list frame) :
  owns s L → owns s' L' → evolves s s' → holds l ⊆ L → holds l ⊆ L' →
  frames_bytes s' l = frames_bytes s l.
Proof.
  intros Ho Ho' Hev. unfold frames_bytes. induction l as [|x l IH]; [done|].
  rewrite holds_cons. intros Hin Hin'. cbn [fmap list_fmap sumZ foldr].
  rewrite (frame_len_stable s s' L L') by (auto; set_solver).
  f_equal. apply IH; set_solver.
Qed.

(** What a reset, and every rejected push, leaves behind. *)
Definition cleared (p p' : preroll) : Prop :=
  p' = p <| pr_units := pr_units p' |> <| pr_head := 0 |> <| pr_tail := 0 |>
         <| pr_bytes := 0 |> <| pr_have_boundary := false |> ∧
  length (pr_units p') = length (pr_units p).

(** The geometry a reset relies on. *)
Record ring_ok (p : preroll) : Prop := {
  ro_cap : is_pow2 (pr_capacity p);
  ro_len : Z.of_nat (length (pr_units p)) = pr_capacity p;
  ro_tail : 0 ≤ pr_tail p;
  ro_head : pr_head p < 2 ^ 64;
  ro_room : pr_head p - pr_tail p ≤ pr_capacity p;
}.
Lemma preroll_inv_ring s p : preroll_inv s p → ring_ok p.
Proof. intros []. split; (done || lia). Qed.

Lemma pr_slot_lookup p seq :
  ring_ok p → 0 ≤ seq → pr_units p !! ring_idx (pr_capacity p) seq = Some (pr_slot p seq).
Proof.
  intros [] Hs. unfold pr_slot.
  by destruct (lookup_slot (pr_capacity p) ro_cap0 (pr_units p) seq) as [x ->].
Qed.

Lemma cached_cons p :
  ring_ok p → pr_tail p < pr_head p →
  cached p = pr_slot p (pr_tail p)
    :: window (pr_units p) (pr_capacity p) (pr_tail p + 1) (pr_head p).
Proof.
  intros Hr ?. apply window_cons; [done|]. apply pr_slot_lookup; [done|apply Hr].
Qed.

Lemma wp_reset_loop fuel s p L :
  ring_ok p → (Z.to_nat (pr_head p - pr_tail p) < fuel)%nat → owns s (holds p ++ L) →
  wp (reset_loop fuel p) (λ p' s', owns s' L ∧ evolves s s' ∧
    length (pr_units p') = length (pr_units p) ∧
    p' = p <| pr_units := pr_units p' |> <| pr_tail := pr_tail p' |>) s.
Proof.
  revert s p. induction fuel as [|fuel IH]; intros s p Hr Hf Ho; [lia|]. cbn [reset_loop].
  destruct (Z.ltb_spec (pr_tail p) (pr_head p)) as [Hlt|Hge].
  - apply wp_bind. pose proof (cached_cons _ Hr Hlt) as Hcons.
    set (rest := window _ _ (pr_tail p + 1) _) in Hcons.
    unfold holds, owner_preroll in Ho. rewrite Hcons, holds_cons, <- app_assoc in Ho.
    eapply wp_mono; [by apply wp_frame_release|]. intros f s1 (-> & Ho1 & Hev1).
    assert (pr_tail p ⊕ 1 = pr_tail p + 1) as Ht by (destruct Hr; apply u64_small; lia).
    rewrite Ht. set (p1 := setf pr_tail _ _).
    assert (cached p1 = rest) as Hrest by (destruct Hr; apply window_pop_write; auto; lia).
    assert (ring_ok p1) as Hr1.
    { destruct Hr. split; simpl; rewrite ?length_insert; done || lia. }
    eapply wp_mono; [apply (IH s1 p1 Hr1); [simpl; lia|]|].
    { unfold holds, owner_preroll. by rewrite Hrest. }
    intros p' s' (Ho' & Hev' & Hl' & Heq). split_and!; [done|by etrans| |].
    + rewrite Hl'. apply length_insert.
    + by rewrite Heq.
  - apply wp_ret. unfold holds, owner_preroll, cached in Ho. rewrite window_empty in Ho by lia.
    split_and!; [done|done|done|by destruct p].
Qed.

Lemma wp_preroll_reset s p L :
  ring_ok p → owns s (holds p ++ L) →
  wp (preroll_reset p) (λ p' s', owns s' L ∧ evolves s s' ∧ cleared p p') s.
Proof.
  intros Hr Ho. apply wp_bind.
  eapply wp_mono; [by apply wp_reset_loop; [| |exact Ho]; [done|lia]|].
  intros p' s' (Ho' & Hev & Hl & Heq). apply wp_ret. split_and!; [done|done|].
  split; [|done]. by rewrite Heq.
Qed.

Lemma cached_cleared p p' : cleared p p' → cached p' = [].
Proof. intros [-> _]. by apply window_empty. Qed.

Lemma cleared_inv s s' p p' : preroll_inv s p → cleared p p' → preroll_inv s' p'.
Proof.
  intros [] Hc. pose proof (cached_cleared _ _ Hc) as Hn. destruct Hc as [Heq Hl].
  split; rewrite ?Hn; rewrite Heq; simpl; rewrite ?Hl; done || lia.
Qed.

(** ** Pushing *)

Lemma holds_closed s p : preroll_inv s p → pr_have_boundary p = false → holds p = [].
Proof.
  intros Hi Hc. unfold holds, owner_preroll, cached.
  rewrite window_empty; [done|]. rewrite (pi_tail _ _ Hi), (pi_closed _ _ Hi Hc). done.
Qed.

Lemma preroll_inv_stable s s' L L' p :
  preroll_inv s p → owns s L → owns s' L' → evolves s s' → holds p ⊆ L → holds p ⊆ L' →
  preroll_inv s' p.
Proof.
  intros [] Ho Ho' Hev Hin Hin'. split; try done.
  by rewrite (frames_bytes_stable s s' L L').
Qed.

Lemma preroll_inv_open s p : preroll_inv s p → preroll_inv s (p <| pr_have_boundary := true |>).
Proof. intros []. by split. Qed.

(** A frame that passes the gate meets an open cache: emptied by a keyframe, as it
    was otherwise. *)
Lemma wp_preroll_gate hv s p f L :
  preroll_inv s p → owns s (holds p ++ L) →
  wp (preroll_gate hv p f) (λ r s', evolves s s' ∧
    match r with
    | None => s' = s ∧ is_boundary f = false ∧ pr_have_boundary p = false ∧ is_video f || hv = true
    | Some p' =>
        preroll_inv s' p' ∧ owns s' (holds p' ++ L) ∧ pr_have_boundary p' = true ∧
        cached p' = (if is_boundary f then [] else cached p) ∧
        (is_boundary f = true ∨ pr_have_boundary p = true ∨ is_video f || hv = false) ∧
        pr_max_units p' = pr_max_units p ∧ pr_max_bytes p' = pr_max_bytes p ∧
        pr_overflows p' = pr_overflows p
    end) s.
Proof.
  intros Hi Ho. unfold preroll_gate, is_boundary, is_video.
  destruct (Z.eqb_spec (media_type f) TYPE_VIDEO), (keyframe f); cbn [andb].
  - apply wp_bind. eapply wp_mono; [eapply wp_preroll_reset; [by eapply preroll_inv_ring|done]|].
    intros p' s' (Ho' & Hev & Hc). apply wp_ret. split; [done|].
    pose proof (cached_cleared _ _ Hc) as Hn.
    split_and!; [by eapply preroll_inv_open, cleared_inv| |done|exact Hn|auto|..].
    + unfold holds, owner_preroll. change (cached (setf _ _ p')) with (cached p'). by rewrite Hn.
    + destruct Hc as [-> _]. done.
    + destruct Hc as [-> _]. done.
    + destruct Hc as [-> _]. done.
  - destruct (pr_have_boundary p) eqn:E; apply wp_ret; (split; [done|]); split_and!; auto.
  - destruct (pr_have_boundary p) eqn:E; [apply wp_ret; (split; [done|]); split_and!; auto|].
    destruct hv; apply wp_ret; (split; [done|]); split_and!; auto using preroll_inv_open.
  - destruct (pr_have_boundary p) eqn:E; [apply wp_ret; (split; [done|]); split_and!; auto|].
    destruct hv; apply wp_ret; (split; [done|]); split_and!; auto using preroll_inv_open.
Qed.

Lemma preroll_append_fields p f len :
  let p' := preroll_append p f len in
  p' = p <| pr_units := pr_units p' |> <| pr_head := pr_head p ⊕ 1 |>
         <| pr_bytes := pr_bytes p ⊕ len |>
         <| pr_high_water_units := pr_high_water_units p' |>
         <| pr_high_water_bytes := pr_high_water_bytes p' |> ∧
  pr_units p' = <[ring_idx (pr_capacity p) (pr_head p) := f]> (pr_units p).
Proof. unfold preroll_append. repeat (caseb; cbn); done. Qed.

(** The appended cache; [t] is the store the lengths are read in. *)
Lemma preroll_append_spec s s' L L' p f len :
  preroll_inv s p → owns s L → owns s' L' → evolves s s' →
  holds p ⊆ L → holds p ++ holds f ⊆ L' → len = frame_len s' f →
  let p' := preroll_append p f len in
  cached p' = cached p ++ [f] ∧ ring_ok p' ∧ 
  preroll_units_used p' = Z.of_nat (length (cached p')) ∧
  pr_bytes p' = frames_bytes s' (cached p') ∧
  pr_max_units p' = pr_max_units p ∧ pr_max_bytes p' = pr_max_bytes p ∧
  pr_have_boundary p' = pr_have_boundary p ∧ pr_overflows p' = pr_overflows p ∧
  (pr_have_boundary p = true → preroll_units_used p' ≤ pr_max_units p →
   pr_bytes p' ≤ pr_max_bytes p → preroll_inv s' p').
Proof.
  intros Hi Ho Ho' Hev Hin Hin' Hlen p'.
  destruct (preroll_append_fields p f len) as [Heq Hu]. fold p' in Heq, Hu.
  pose proof (len_of_range _ _ (payload f) Ho') as Hlr. fold (frame_len s' f) in Hlr.
  pose proof (frames_bytes_nonneg s L (cached p) Ho) as Hnn.
  destruct Hi as [Hp Hp63 Hl Hm Hmb Ht Hh Hb Hfit Hc].
  assert (pr_head p ⊕ 1 = pr_head p + 1) as Hh1 by (apply u64_small; lia).
  assert (pr_bytes p ⊕ len = pr_bytes p + len) as Hb1 by (apply u64_small; lia).
  rewrite Hh1, Hb1 in Heq.
  assert (cached p' = cached p ++ [f]) as Hca.
  { unfold cached. rewrite Heq, Hu. simpl. apply window_push; auto; lia. }
  assert (frames_bytes s' (cached p') = frames_bytes s (cached p) + len) as Hby.
  { rewrite Hca, frames_bytes_app, (frames_bytes_stable s s' L L') by (auto; set_solver).
    unfold frames_bytes at 2. simpl. lia. }
  assert (Z.of_nat (length (cached p)) = pr_head p) as Hlc.
  { unfold cached. rewrite length_window by (auto; lia). lia. }
  assert (ring_ok p') as Hr.
  { split; rewrite Heq; simpl; rewrite ?Hu, ?length_insert; done || lia. }
  assert (preroll_units_used p' = pr_head p + 1) as Hus.
  { unfold preroll_units_used. rewrite Heq. simpl. rewrite Ht, Z.sub_0_r. apply u64_small. lia. }
  assert (pr_bytes p' = pr_bytes p + len) as Hbp by (by rewrite Heq).
  assert (pr_head p' = pr_head p + 1) as Hhp by (by rewrite Heq).
  split_and!; [done|done| | |by rewrite Heq..|].
  - rewrite Hus, Hca, length_app. simpl. lia.
  - rewrite Hbp, Hby. lia.
  - intros Hopen Hu' Hb'. split; rewrite ?Hby, ?Hbp, ?Hhp; try (rewrite Heq; simpl); try done; try lia.
    + rewrite Hu, length_insert. done.
    + rewrite Hopen. done.
Qed.

(** Whether the gate lets a frame in, and what it is appended to. *)
Lemma cache_push_append hv mu mb s b l f :
  (is_boundary f = true ∨ b = true ∨ is_video f || hv = false) →
  (b = false → l = []) →
  cache_push hv mu mb s (b, l) f = cache_add mu mb s ((if is_boundary f then [] else l) ++ [f]).
Proof.
  intros Hg Hc. unfold cache_push. destruct (is_boundary f); [done|]. destruct b; [done|].
  destruct Hg as [?|[?| ->]]; [done..|]. by rewrite Hc.
Qed.

Lemma cache_add_stable mu mb s s' l :
  frames_bytes s' l = frames_bytes s l → cache_add mu mb s' l = cache_add mu mb s l.
Proof. intros H. unfold cache_add. by rewrite H. Qed.

Definition push_post (hv : bool) (p : preroll) (f : frame) (s : store) (r : rc * preroll) : Prop :=
  (r.1, (pr_have_boundary r.2, cached r.2)) =
    cache_push hv (pr_max_units p) (pr_max_bytes p) s (pr_have_boundary p, cached p) f ∧
  pr_max_units r.2 = pr_max_units p ∧ pr_max_bytes r.2 = pr_max_bytes p ∧
  pr_overflows r.2 =
    (if decide (r.1 = NGX_AGAIN) then pr_overflows p ⊕ 1 else pr_overflows p).

Lemma wp_preroll_push hv s p f L :
  preroll_inv s p → owns s (holds p ++ L) → holds f ⊆ L →
  wp (preroll_push hv p f) (λ r s', preroll_inv s' r.2 ∧ owns s' (holds r.2 ++ L) ∧
    evolves s s' ∧ push_post hv p f s r) s.
Proof.
  intros Hi Ho Hf. unfold preroll_push.
  destruct (pr_units p) eqn:Hnil.
  { pose proof (pi_len _ _ Hi) as Hl. rewrite Hnil in Hl. pose proof (pi_max _ _ Hi). simpl in Hl. lia. }
  clear Hnil. apply wp_bind.
  eapply wp_mono; [apply (wp_buf_size _ _ _ Ho); by apply list_subseteq_app_r|].
  intros len _ [-> ->]. fold (frame_len s f). apply wp_bind.
  eapply wp_mono; [by apply wp_preroll_gate|]. intros [p1|] s1 (Hev1 & Hg).
  2:{ destruct Hg as (-> & Hb & Hcl & Hv). apply wp_ret. split_and!; [done..|].
      unfold push_post, cache_push. cbn [fst snd]. by rewrite Hb, Hcl, Hv. }
  destruct Hg as (Hi1 & Ho1 & Hopen & Hca & Hwhy & Hmu & Hmb & Hov).
  assert (preroll_units_used p1 < pr_capacity p1) as Hroom.
  { unfold preroll_units_used. destruct Hi1. rewrite u64_small; lia. }
  rewrite (proj2 (Z.leb_gt _ _)) by done.
  apply wp_bind. eapply wp_mono; [apply (wp_frame_copy _ _ _ Ho1); by apply list_subseteq_app_r|].
  intros f' s2 (-> & Ho2 & Hev2).
  assert (frame_len s2 f = frame_len s f) as Hlen.
  { apply (frame_len_stable s s2 (holds p ++ L) (holds f ++ holds p1 ++ L)); auto; [by etrans|..];
      set_solver. }
  destruct (preroll_append_spec s1 s2 (holds p1 ++ L) (holds f ++ holds p1 ++ L) p1 f (frame_len s f))
    as (Hca2 & Hr2 & Hus & Hby & Hmu2 & Hmb2 & Hbd & Hov2 & Hi2); auto; [set_solver..|].
  set (p2 := preroll_append p1 f (frame_len s f)) in *.
  assert (owns s2 (holds p2 ++ L)) as Ho2'.
  { eapply owns_proper; [|exact Ho2]. unfold holds at 1, owner_preroll. rewrite Hca2, holds_app.
    unfold holds at 2, owner_list. simpl. rewrite app_nil_r. fold (holds p1). solve_Permutation. }
  assert (cache_push hv (pr_max_units p) (pr_max_bytes p) s (pr_have_boundary p, cached p) f
    = cache_add (pr_max_units p2) (pr_max_bytes p2) s2 (cached p2)) as Hspec.
  { rewrite cache_push_append; [|done|].
    2:{ intros Hcl. unfold cached. rewrite (pi_tail _ _ Hi), (pi_closed _ _ Hi Hcl). by apply window_empty. }
    rewrite <- Hca, <- Hca2, Hmu2, Hmu, Hmb2, Hmb. symmetry. apply cache_add_stable.
    apply (frames_bytes_stable s s2 (holds p ++ L) (holds p2 ++ L)); auto; [by etrans| |].
    - rewrite Hca2, Hca, holds_app. unfold holds at 2, owner_list. simpl. rewrite app_nil_r.
      destruct (is_boundary f); [sub_app|]. apply list_subseteq_app_iff_l. split; [|sub_app].
      by apply list_subseteq_app_l.
    - by apply list_subseteq_app_l. }
  assert (pr_max_units p2 = pr_max_units p ∧ pr_max_bytes p2 = pr_max_bytes p ∧
    pr_overflows p2 = pr_overflows p) as (Hmu3 & Hmb3 & Hov3) by (by split_and!; congruence).
  unfold push_post. rewrite Hspec. unfold cache_add. rewrite <- Hus, <- Hby.
  destruct ((pr_max_units p2 <? preroll_units_used p2) || (pr_max_bytes p2 <? pr_bytes p2)) eqn:Hover.
  - apply wp_bind. set (p3 := if pr_max_bytes p2 <? pr_bytes p2 then _ else _).
    assert (ring_ok p3 ∧ cached p3 = cached p2 ∧ pr_max_units p3 = pr_max_units p ∧
      pr_max_bytes p3 = pr_max_bytes p ∧ pr_overflows p3 = pr_overflows p ⊕ 1 ∧
      pr_capacity p3 = pr_capacity p1 ∧ length (pr_units p3) = length (pr_units p1))
      as (Hr3 & Hc3 & Hmu4 & Hmb4 & Hov4 & Hcap & Hlu).
    { destruct (preroll_append_fields p1 f (frame_len s f)) as [Heq Hu]. fold p2 in Heq, Hu.
      assert (pr_capacity p2 = pr_capacity p1) as Hc2 by (by rewrite Heq).
      assert (length (pr_units p2) = length (pr_units p1)) as Hl2 by (by rewrite Hu, length_insert).
      rewrite <- Hc2, <- Hl2, <- Hmu3, <- Hmb3, <- Hov3. destruct Hr2.
      unfold p3. repeat caseb; split_and!; try done; by split. }
    eapply wp_mono; [apply (wp_preroll_reset _ _ L Hr3)|].
    { unfold holds at 1, owner_preroll. rewrite Hc3. exact Ho2'. }
    intros p' s' (Ho' & Hev' & Hcl). apply wp_ret. cbn [fst snd].
    pose proof (cached_cleared _ _ Hcl) as Hn. destruct Hcl as [Heq Hlu'].
    assert (preroll_inv s' p') as Hi'.
    { destruct Hi1. split; rewrite ?Hn; rewrite Heq; simpl; try done; try lia; try congruence. }
    split_and!; [done| |by do 2 etrans|by rewrite Hn, Heq|by rewrite Heq|by rewrite Heq|].
    + unfold holds at 1, owner_preroll. by rewrite Hn.
    + rewrite decide_True by done. by rewrite Heq.
  - apply orb_false_iff in Hover as [Hu Hb]. apply wp_ret. cbn [fst snd].
    assert (pr_have_boundary p2 = true) as -> by congruence.
    split_and!; [apply Hi2; congruence || lia|done|by do 2 etrans|done|done|done|].
    by rewrite decide_False.
Qed.

(** ** Initialisation, teardown and replay *)

Lemma window_units cap tail head (l : list frame) :
  Forall (λ f, payload f = None) l → Forall (λ f, payload f = None) (window l cap tail head).
Proof.
  intros Hl. apply Forall_forall. intros x (i & _ & Hx)%list_elem_of_omap.
  exact (Forall_lookup_1 _ _ _ _ Hl Hx).
Qed.

Lemma wp_preroll_init s p max_units max_bytes L :
  owns s L → 0 ≤ max_units < 2 ^ 63 → 0 ≤ max_bytes < 2 ^ 63 →
  wp (preroll_init p max_units max_bytes) (λ r s', owns s' L ∧ evolves s s' ∧
    (r.1 = NGX_OK → preroll_inv s' r.2 ∧ cached r.2 = [] ∧ pr_have_boundary r.2 = false ∧
       pr_max_units r.2 = max_units ∧ pr_max_bytes r.2 = max_bytes) ∧
    (r.1 ≠ NGX_OK → r.2 = p ∨ pr_units r.2 = [] ∧ cached r.2 = [])) s.
Proof.
  intros Ho Hu Hb. unfold preroll_init, source_pow2.
  destruct (Z.eqb_spec max_units 0); [by apply wp_ret; split_and!; [..|auto]|].
  destruct (Z.eqb_spec max_bytes 0); [by apply wp_ret; split_and!; [..|auto]|]. cbn [orb].
  rewrite u64_small by lia.
  destruct (Z.eqb_spec (pow2 (max_units + 1)) 0) as [|Hnz];
    [by apply wp_ret; split_and!; [..|auto]|].
  destruct ((2 ^ 64 - 1) `div` frame_size <? _); [by apply wp_ret; split_and!; [..|auto]|].
  destruct (pow2_nonzero (max_units + 1)) as [Hp Hle]; [lia|done|].
  destruct (pow2_spec (max_units + 1)) as [(_ & j & Hj & Hpj & _)|[? _]]; [lia| |lia].
  apply wp_bind. eapply wp_mono; [by apply wp_ngx_alloc|].
  intros [a|] s1 (Ho1 & Hev & _); apply wp_ret; split_and!; try done; [|auto].
  intros _. cbn [snd]. set (p' := setf pr_max_bytes _ _).
  assert (cached p' = []) as Hn by (by apply window_empty).
  pose proof (Z.pow_le_mono_r 2 j 63). pose proof (is_pow2_pos _ Hp).
  split_and!; try done. split; rewrite ?Hn; simpl; try done; try lia.
  rewrite length_replicate. lia.
Qed.

Lemma wp_preroll_destroy s p L :
  (pr_units p ≠ [] → ring_ok p) → (pr_units p = [] → cached p = []) → owns s (holds p ++ L) →
  wp (preroll_destroy p) (λ p' s', owns s' L ∧ evolves s s' ∧ cached p' = []) s.
Proof.
  intros Hr Hn Ho. unfold preroll_destroy. destruct (pr_units p) eqn:E.
  - apply wp_ret. unfold holds, owner_preroll in Ho. rewrite (Hn eq_refl) in Ho. by split_and!; auto.
  - apply wp_bind. eapply wp_mono; [by apply wp_preroll_reset; [apply Hr|exact Ho]|].
    intros p' s' (? & ? & _). by apply wp_ret.
Qed.

(** A monadic left fold. *)
Fixpoint foldlM {A B} (f : A → B → M A) (a : A) (l : list B) : M A :=
  match l with [] => mret a | x :: l => a ← f a x; foldlM f a l end.

Lemma preroll_replay_cached {A} (cb : A → frame → M A) p ctx s :
  ring_ok p → preroll_replay cb p ctx s = foldlM cb ctx (cached p) s.
Proof.
  intros Hr. unfold preroll_replay, cached. pose proof (ro_tail _ Hr) as Ht.
  remember (Z.to_nat (pr_head p - pr_tail p)) as n eqn:Hn.
  revert Ht Hn ctx s. generalize (pr_tail p).
  induction n as [|n IH]; intros t Ht Hn ctx s; cbn [replay_loop].
  - by rewrite window_empty by lia.
  - rewrite (window_cons _ _ _ _ (pr_slot p t)); [|lia|by apply pr_slot_lookup].
    cbn [foldlM]. unfold mbind, SM_bind. destruct (cb ctx (pr_slot p t) s) as [[a s']|]; [|done].
    apply IH; lia.
Qed.

(** ** Sources *)

(** The fields the core reads or writes; the module-private ones (operations table,
    input context) are left out.  Strings are their bytes. *)
Record source := mk_source {
  so_stream : N; so_id : list Z; so_revision : Z; so_enabled : bool; so_type : Z;
  so_priority : Z; so_path : list Z; so_key_hash : list Z; so_key_print : list Z;
  so_key_set : bool; so_key_nonce : list Z; so_key_nonce_set : bool; so_ca_file : list Z;
  so_state : Z; so_last_media : Z; so_tracks : option trackset; so_preroll : preroll;
  so_health : health; so_compat : Z; so_writers : Z; so_references : Z; so_frames_in : Z;
  so_payload_bytes_in : Z; so_frames_out : Z; so_active : bool; so_has_video : bool;
  so_pending_switch : bool; so_pending_remove : bool }.
#[global] Instance eta_source : Eta source := λ r,
  mk_source (so_stream r) (so_id r) (so_revision r) (so_enabled r) (so_type r)
    (so_priority r) (so_path r) (so_key_hash r) (so_key_print r)
    (so_key_set r) (so_key_nonce r) (so_key_nonce_set r) (so_ca_file r)
    (so_state r) (so_last_media r) (so_tracks r) (so_preroll r)
    (so_health r) (so_compat r) (so_writers r) (so_references r) (so_frames_in r)
    (so_payload_bytes_in r) (so_frames_out r) (so_active r) (so_has_video r)
    (so_pending_switch r) (so_pending_remove r).

Definition STANDBY : Z := 1.
Definition AWAITING_SYNC : Z := 2.
Definition ACTIVE : Z := 3.

Definition KEY_HASH : nat := 32.
Definition KEY_PRINT : nat := 12.
Definition KEY_NONCE : nat := 16.
Definition GRAPH_MAX_NAME : Z := 256.
Definition GRAPH_MAX_PATH : Z := 4096.

Definition health_zero : health := mk_health 0 0 0 0 0 0 0 0 0 0 0 0 false false.
Definition zeros (n : nat) : list Z := replicate n 0.

(** A zeroed source. *)
Definition source_zero : source :=
  mk_source 0 [] 0 false 0 0 [] (zeros KEY_HASH) (zeros KEY_PRINT) false (zeros KEY_NONCE) false []
    0 0 None preroll_zero health_zero 0 0 0 0 0 0 false false false false.

Definition source_touch (shared : option Z) (src : source) : source :=
  src <| so_revision := revision_next shared (so_revision src) |>.

(** The string to store, or NGX_ERROR; [None] is a NULL argument. *)
Definition string_set (dst : list Z) (src : option (list Z)) : M (rc * list Z) :=
  let data := default [] src in
  let len := Z.of_nat (length data) in
  if GRAPH_MAX_PATH <? len then mret (NGX_ERROR, dst)
  else if len =? 0 then mret (NGX_OK, [])
  else
    copy ← ngx_alloc (len + 1);
    match copy with
    | None => mret (NGX_ERROR, dst)
    | Some _ => mret (NGX_OK, data)
    end.

Definition source_key_set (src : source) (hash print : list Z) : source :=
  src <| so_key_hash := take KEY_HASH hash |> <| so_key_print := take KEY_PRINT print |>
      <| so_key_set := true |>.
Definition source_key_nonce (src : source) (nonce : list Z) : source :=
  src <| so_key_nonce := take KEY_NONCE nonce |> <| so_key_nonce_set := true |>.

(** [diff |= a[i] ^ b[i]] over the whole key, without an early exit. *)
Fixpoint key_diff (n : nat) (a b : list Z) (diff : Z) : Z :=
  match n, a, b with
  | S n, x :: a, y :: b => key_diff n a b (Z.lor diff (u8 (Z.lxor x y)))
  | _, _, _ => diff
  end.
Definition source_key_matches (src : source) (hash : list Z) : bool :=
  if negb (so_key_set src) then false
  else key_diff KEY_HASH (so_key_hash src) hash 0 =? 0.

(** ** Track contracts *)

Definition source_tracks_destroy (src : source) : M source :=
  match so_tracks src with
  | None => mret src
  | Some ts => _ ← trackset_destroy ts; mret (src <| so_tracks := None |>)
  end.

(** The copying loop of [tracks_set]: [false] when an add failed. *)
Fixpoint tracks_copy (copy : trackset) (tracks : list track) : M (bool * trackset) :=
  match tracks with
  | [] => mret (true, copy)
  | t :: tracks =>
      r ← trackset_add copy t;
      match r with
      | (inl _, copy) => mret (false, copy)
      | (inr _, copy) => tracks_copy copy tracks
      end
  end.

(** sizeof(ngx_media_trackset_t) *)
Definition trackset_header : Z := 24.

Definition source_tracks_set (src : source) (tracks : trackset) : M (rc * source) :=
  src ← source_tracks_destroy src;
  a ← ngx_alloc trackset_header;
  match a with
  | None => mret (NGX_ERROR, src)
  | Some _ =>
      r ← trackset_init (if ts_count tracks =? 0 then 1 else ts_count tracks);
      let '(r, copy) := r in
      if bool_decide (r = NGX_OK) then
        c ← tracks_copy copy (ts_used tracks);
        match c with
        | (true, copy) => mret (NGX_OK, src <| so_tracks := Some copy |>)
        | (false, copy) => _ ← trackset_destroy copy; mret (NGX_ERROR, src)
        end
      else mret (NGX_ERROR, src)
  end.

(** ** Lifetime *)

(** The worker's sources by address, its object counters, and the reference counts
    of the streams. *)
Record graph := mk_graph {
  g_sources : gmap N source; g_objects : list Z; g_stream_refs : gmap N Z }.
#[global] Instance eta_graph : Eta graph := λ r,
  mk_graph (g_sources r) (g_objects r) (g_stream_refs r).

(** Dereferencing a source that was freed is undefined. *)
Definition get_source (g : graph) (id : N) : M source :=
  match g_sources g !! id with Some src => mret src | None => ub end.
Definition put_source (g : graph) (id : N) (src : source) : graph :=
  g <| g_sources ::= <[id := src]> |>.

Definition stream_retain (g : graph) (st : N) : graph :=
  g <| g_stream_refs ::= alter (λ n, n ⊕ 1) st |>.
Definition stream_release (g : graph) (st : N) : graph :=
  g <| g_stream_refs ::= alter (λ n, n ⊖ 1) st |>.

Definition source_retain (g : graph) (id : N) : M graph :=
  src ← get_source g id;
  mret (put_source g id (src <| so_references := so_references src ⊕ 1 |>)).

Definition source_release (g : graph) (id : N) : M graph :=
  src ← get_source g id;
  if so_references src =? 0 then mret g
  else
    let src := src <| so_references := so_references src ⊖ 1 |> in
    if negb (so_references src =? 0) then mret (put_source g id src)
    else
      _ ← preroll_destroy (so_preroll src);
      _ ← source_tracks_destroy src;
      mret (stream_release
              (g <| g_sources ::= delete id |>
                 <| g_objects := model_release (g_objects g) MODEL_SOURCE |>)
              (so_stream src)).

Definition source_lease_begin (g : graph) (id : N) : M graph :=
  src ← get_source g id;
  source_retain (put_source g id (src <| so_writers := so_writers src ⊕ 1 |>)) id.

Definition source_lease_end (g : graph) (id : N) : M graph :=
  src ← get_source g id;
  if 0 <? so_writers src then
    source_release (put_source g id (src <| so_writers := so_writers src ⊖ 1 |>)) id
  else mret g.

(** ** Ownership of sources *)

#[global] Instance owner_opt_trackset : Owner (option trackset) :=
  λ o, match o with Some ts => holds ts | None => [] end.
#[global] Instance owner_source : Owner source :=
  λ src, holds (so_preroll src) ++ holds (so_tracks src).
#[global] Instance owner_graph : Owner graph :=
  λ g, holds (map_to_list (g_sources g)).*2.

Lemma owner_graph_lookup g id src :
  g_sources g !! id = Some src →
  holds g ≡ₚ holds src ++ holds (map_to_list (delete id (g_sources g))).*2.
Proof.
  intros Hs. unfold holds at 1, owner_graph. rewrite <- holds_cons.
  rewrite <- (insert_delete_id (g_sources g) id src) at 1 by done.
  rewrite map_to_list_insert by apply lookup_delete_eq. done.
Qed.

Lemma owner_graph_put g id src :
  holds (put_source g id src) ≡ₚ holds src ++ holds (map_to_list (delete id (g_sources g))).*2.
Proof.
  rewrite (owner_graph_lookup _ id src) by apply lookup_insert_eq.
  unfold put_source. cbn [setf g_sources]. by rewrite delete_insert_eq.
Qed.

(** ** Track contracts *)

Definition tracks_inv (src : source) : Prop :=
  match so_tracks src with Some ts => trackset_inv ts | None => True end.

Lemma wp_source_tracks_destroy src L s :
  owns s (holds (so_tracks src) ++ L) →
  wp (source_tracks_destroy src) (λ r s', r = src <| so_tracks := None |> ∧
    owns s' L ∧ evolves s s') s.
Proof.
  intros Ho. unfold source_tracks_destroy. destruct (so_tracks src) as [ts|] eqn:E.
  - apply wp_bind. eapply wp_mono; [by apply wp_trackset_destroy|].
    intros _ s' [? ?]. by apply wp_ret.
  - apply wp_ret. split_and!; auto with media. destruct src. simpl in E. by subst.
Qed.

Lemma wp_tracks_copy tracks copy L s :
  trackset_inv copy → owns s (holds copy ++ L) → holds tracks ⊆ L →
  ts_count copy + Z.of_nat (length tracks) ≤ ts_capacity copy →
  wp (tracks_copy copy tracks) (λ r s', evolves s s' ∧ owns s' (holds r.2 ++ L) ∧
    r.1 = true ∧ trackset_inv r.2 ∧ ts_used r.2 = ts_used copy ++ tracks ∧
    ts_count r.2 = ts_count copy + Z.of_nat (length tracks)) s.
Proof.
  revert copy s. induction tracks as [|t tracks IH]; intros copy s Hi Ho Hin Hc; cbn [tracks_copy].
  { apply wp_ret. rewrite app_nil_r. cbn [fst snd length]. split_and!; auto with media. lia. }
  rewrite holds_cons in Hin. cbn [length] in Hc.
  apply wp_bind. eapply wp_mono; [apply (wp_trackset_add _ _ _ _ Hi Ho); set_solver|].
  intros [r c] s1 (Hev & Ho1 & Hi1 & Hcap & Hr). rewrite (proj2 (Z.ltb_lt _ _)) in Hr by lia.
  cbn [fst snd] in *. destruct Hr as (-> & Hu & Hn).
  eapply wp_mono; [apply IH; [done|done|set_solver|lia]|].
  intros r' s2 (Hev2 & Ho2 & Hok & Hi2 & Hu2 & Hn2). split_and!; auto; [by etrans| |].
  - by rewrite Hu2, Hu, <- app_assoc.
  - rewrite Hn2, Hn. cbn [length]. lia.
Qed.

Lemma wp_source_tracks_set src tracks L s :
  owns s (holds src ++ L) → holds tracks ⊆ L → trackset_inv tracks → ts_count tracks < 2 ^ 63 →
  wp (source_tracks_set src tracks) (λ r s', owns s' (holds r.2 ++ L) ∧ evolves s s' ∧
    if decide (r.1 = NGX_OK)
    then ∃ ts, r.2 = src <| so_tracks := Some ts |> ∧ trackset_inv ts ∧
           ts_used ts = ts_used tracks ∧ ts_count ts = ts_count tracks
    else r.2 = src <| so_tracks := None |>) s.
Proof.
  intros Ho Hin Ht Hc63. unfold source_tracks_set.
  set (src0 := src <| so_tracks := None |>).
  assert (∀ s', owns s' (holds (so_preroll src) ++ L) → owns s' (holds src0 ++ L)) as Hsrc0.
  { intros s'. change (holds src0) with (holds (so_preroll src) ++ []). by rewrite app_nil_r. }
  apply wp_bind. eapply wp_mono.
  { apply (wp_source_tracks_destroy src (holds (so_preroll src) ++ L)).
    eapply owns_proper; [|exact Ho].
    change (holds src) with (holds (so_preroll src) ++ holds (so_tracks src)). solve_Permutation. }
  fold src0. intros _ s1 (-> & Ho1 & Hev1).
  apply wp_bind. eapply wp_mono; [by apply wp_ngx_alloc|].
  intros [a|] s2 (Ho2 & Hev2 & _); [|apply wp_ret; cbn [fst snd]; split_and!; [auto|by etrans|done]].
  pose proof Ht as [Htl Htc].
  apply wp_bind. eapply wp_mono; [apply (wp_trackset_init _ _ _ Ho2); caseb; lia|].
  intros [r copy] s3 (Ho3 & Hev3 & Hi3 & Hn3 & Hok3 & Hbad3). cbn [fst snd] in *.
  destruct (bool_decide_reflect (r = NGX_OK)) as [->|Hne].
  2:{ apply wp_ret. cbn [fst snd]. rewrite decide_False by done.
      split_and!; [auto|do 2 (etrans; [done|]); done|done]. }
  destruct (Hok3 eq_refl) as [_ Hcap]. clear Hok3 Hbad3.
  assert (Z.of_nat (length (ts_used tracks)) = ts_count tracks) as Hlen.
  { unfold ts_used. rewrite length_take. lia. }
  assert (ts_used copy = []) as Hu0 by (unfold ts_used; by rewrite Hn3).
  apply wp_bind. eapply wp_mono.
  { apply (wp_tracks_copy (ts_used tracks) copy (holds (so_preroll src) ++ L)); auto.
    - change (holds copy) with (holds (ts_used copy)). by rewrite Hu0.
    - transitivity L; [exact Hin|sub_app].
    - rewrite Hn3, Hlen, Hcap. caseb; lia. }
  intros [ok copy'] s4 (Hev4 & Ho4 & Hok & Hi4 & Hu4 & Hc4). cbn [fst snd] in *. subst ok.
  apply wp_ret. cbn [fst snd]. rewrite decide_True by done. split_and!.
  - eapply owns_proper; [|exact Ho4].
    change (holds (setf _ _ src0)) with (holds (so_preroll src) ++ holds copy').
    solve_Permutation.
  - do 3 (etrans; [done|]). done.
  - exists copy'. split_and!; [done|done|by rewrite Hu4, Hu0|lia].
Qed.

(** ** Lifetime *)

Lemma get_source_wp g id src s Q :
  g_sources g !! id = Some src → Q src s → wp (get_source g id) Q s.
Proof. intros Hs HQ. unfold get_source. rewrite Hs. by apply wp_ret. Qed.

(** What a release needs from a source about to be freed. *)
Definition source_ok (src : source) : Prop :=
  (pr_units (so_preroll src) ≠ [] → ring_ok (so_preroll src)) ∧
  (pr_units (so_preroll src) = [] → cached (so_preroll src) = []).

(** The graph without a source. *)
Definition free_source (g : graph) (id : N) (src : source) : graph :=
  stream_release
    (g <| g_sources ::= delete id |>
       <| g_objects := model_release (g_objects g) MODEL_SOURCE |>) (so_stream src).

Lemma wp_source_release g id src L s :
  g_sources g !! id = Some src → source_ok src → 0 < so_references src < 2 ^ 64 →
  owns s (holds g ++ L) →
  wp (source_release g id) (λ g' s', owns s' (holds g' ++ L) ∧ evolves s s' ∧
    g' = if decide (so_references src = 1) then free_source g id src
         else put_source g id (src <| so_references := so_references src - 1 |>)) s.
Proof.
  intros Hs [Hr Hn] Hrefs Ho. unfold source_release. apply wp_bind, (get_source_wp _ _ src); [done|].
  rewrite (proj2 (Z.eqb_neq _ _)) by lia. rewrite u64_small by lia.
  cbn [setf so_references so_preroll so_stream].
  rewrite (owner_graph_lookup _ _ _ Hs), <- app_assoc in Ho.
  destruct (Z.eqb_spec (so_references src - 1) 0) as [Hz|Hnz]; cbn [negb].
  - rewrite decide_True by lia. change (holds src) with (holds (so_preroll src) ++ holds (so_tracks src)) in Ho.
    rewrite <- app_assoc in Ho. apply wp_bind. eapply wp_mono; [apply (wp_preroll_destroy _ _ _ Hr Hn Ho)|].
    intros _ s1 (Ho1 & Hev1 & _). apply wp_bind.
    eapply wp_mono; [by apply wp_source_tracks_destroy|].
    intros _ s2 (_ & Ho2 & Hev2). apply wp_ret. split_and!; [|by etrans|done]. exact Ho2.
  - rewrite decide_False by lia. apply wp_ret. split_and!; [|done|done].
    rewrite owner_graph_put, <- app_assoc. exact Ho.
Qed.

(** ** Histories of pushes *)

Definition preroll_pushes (hv : bool) (p : preroll) (fs : list frame) : M preroll :=
  foldlM (λ p f, r ← preroll_push hv p f; mret r.2) p fs.

(** The frames pushed since the last video keyframe, that keyframe included. *)
Definition since_keyframe (fs : list frame) : list frame :=
  foldl (λ acc f, if is_boundary f then [f]
                  else match acc with [] => [] | _ => acc ++ [f] end) [] fs.

Lemma since_keyframe_snoc fs f :
  since_keyframe (fs ++ [f]) =
    if is_boundary f then [f]
    else match since_keyframe fs with [] => [] | l => l ++ [f] end.
Proof.
  unfold since_keyframe. rewrite foldl_app. cbn [foldl].
  destruct (is_boundary f); [done|]. by destruct (foldl _ _ fs).
Qed.

(** With a video track the cache is the current GOP or nothing. *)
Definition gop_inv (pre : list frame) (p : preroll) : Prop :=
  if pr_have_boundary p
  then cached p ≠ [] ∧ cached p = since_keyframe pre else cached p = [].

Lemma cache_add_open mu mb s l r b l' :
  cache_add mu mb s l = (r, (b, l')) → if b then l' = l else l' = [].
Proof. unfold cache_add. destruct (_ || _); by intros [= <- <- <-]. Qed.

Lemma gop_inv_push pre p f s r :
  gop_inv pre p → push_post true p f s r → gop_inv (pre ++ [f]) r.2.
Proof.
  intros Hg (Hpush & _). unfold gop_inv in *. rewrite since_keyframe_snoc.
  unfold cache_push in Hpush. rewrite orb_true_r in Hpush.
  destruct (is_boundary f) eqn:Hb.
  - symmetry in Hpush. apply cache_add_open in Hpush.
    destruct (pr_have_boundary r.2); [|done]. by rewrite Hpush.
  - destruct (pr_have_boundary p).
    + destruct Hg as [Hne Heq]. symmetry in Hpush. apply cache_add_open in Hpush.
      destruct (pr_have_boundary r.2); [|done]. rewrite Hpush, <- Heq.
      destruct (cached p); [done|]. split; [done|done].
    + injection Hpush as _ -> ->. done.
Qed.

Lemma wp_preroll_pushes pre fs p s L :
  preroll_inv s p → owns s (holds p ++ L) → holds fs ⊆ L → gop_inv pre p →
  wp (preroll_pushes true p fs) (λ p' s', preroll_inv s' p' ∧ owns s' (holds p' ++ L) ∧
    gop_inv (pre ++ fs) p' ∧ pr_max_units p' = pr_max_units p ∧
    pr_max_bytes p' = pr_max_bytes p) s.
Proof.
  revert pre p s. induction fs as [|f fs IH]; intros pre p s Hi Ho Hin Hg.
  { apply wp_ret. by rewrite app_nil_r. }
  rewrite holds_cons in Hin. unfold preroll_pushes. cbn [foldlM]. apply wp_bind, wp_bind.
  eapply wp_mono; [apply (wp_preroll_push true _ _ f _ Hi Ho); set_solver|].
  intros r s1 (Hi1 & Ho1 & _ & Hp). apply wp_ret.
  pose proof (gop_inv_push _ _ _ _ _ Hg Hp) as Hg1. destruct Hp as (_ & Hmu & Hmb & _).
  eapply wp_mono; [apply (IH (pre ++ [f]) r.2); [done|done|set_solver|done]|].
  intros p' s' (? & ? & Hg' & ? & ?). rewrite <- app_assoc in Hg'. split_and!; auto; congruence.
Qed.

Lemma length_cached s p : preroll_inv s p → Z.of_nat (length (cached p)) = pr_head p.
Proof. intros []. unfold cached. rewrite length_window by (auto; lia). lia. Qed.

(** ** Properties *)

(** The standby cache refines its rule: pushing a frame is total, keeps the
    ring invariant, takes exactly the references of the cached frames, and leaves the
    list [cache_push] prescribes with the answer it prescribes - a keyframe replaces
    the cache, other frames extend an open one, a ceiling clears it whole. *)
Theorem preroll_push_refines hv s p f L :
  preroll_inv s p → owns s (holds p ++ L) → holds f ⊆ L →
  ∃ r p' s', preroll_push hv p f s = Some ((r, p'), s') ∧
    (r, (pr_have_boundary p', cached p')) =
      cache_push hv (pr_max_units p) (pr_max_bytes p) s (pr_have_boundary p, cached p) f ∧
    pr_overflows p' = (if decide (r = NGX_AGAIN) then pr_overflows p ⊕ 1 else pr_overflows p) ∧
    preroll_inv s' p' ∧ owns s' (holds p' ++ L).
Proof.
  intros Hi Ho Hf.
  destruct (wp_preroll_push hv s p f L Hi Ho Hf) as ([r p'] & s' & Hrun & Hi' & Ho' & _ & Hp).
  destruct Hp as (? & _ & _ & ?). exists r, p', s'. by split_and!.
Qed.

(** The standby cache of a source with video never holds a partial GOP: after
    any sequence of frames it is either empty or exactly the frames received since
    the last video keyframe, none missing, and it never exceeds its unit and byte
    ceilings. *)
Theorem standby_cache_complete_gop s p fs L :
  preroll_inv s p → pr_have_boundary p = false → owns s (holds p ++ L) → holds fs ⊆ L →
  ∃ p' s', preroll_pushes true p fs s = Some (p', s') ∧
    (cached p' = [] ∨ cached p' = since_keyframe fs) ∧
    (preroll_ready p' = true → cached p' = since_keyframe fs ∧ cached p' ≠ []) ∧
    Z.of_nat (length (cached p')) ≤ pr_max_units p ∧
    frames_bytes s' (cached p') ≤ pr_max_bytes p ∧
    owns s' (holds p' ++ L).
Proof.
  intros Hi Hc Ho Hin.
  assert (gop_inv [] p) as Hg.
  { unfold gop_inv. rewrite Hc. unfold cached.
    rewrite (pi_tail _ _ Hi), (pi_closed _ _ Hi Hc). by apply window_empty. }
  destruct (wp_preroll_pushes [] fs p s L Hi Ho Hin Hg) as (p' & s' & Hrun & Hi' & Ho' & Hg' & Hmu & Hmb).
  unfold gop_inv in Hg'. cbn [app] in Hg'. exists p', s'. split_and!; auto.
  - destruct (pr_have_boundary p'); [right; apply Hg'|by left].
  - unfold preroll_ready. destruct (pr_units p'); [done|].
    intros [Hb Hlt]%andb_true_iff. rewrite Hb in Hg'. split; apply Hg'.
  - rewrite (length_cached _ _ Hi'), <- Hmu. apply Hi'.
  - rewrite <- (pi_bytes _ _ Hi'), <- Hmb. apply Hi'.
Qed.

Definition ex_preroll : preroll :=
  preroll_zero <| pr_units := replicate 4 frame_init |> <| pr_capacity := 4 |>
    <| pr_max_units := 3 |> <| pr_max_bytes := 250 |>.
Lemma ex_preroll_inv : preroll_inv ex_store ex_preroll.
Proof. split; try done. by exists 2. Qed.
Definition ex_delta : frame := mk_frame 1 1 1 0 11 11 false false (Some 0%N).
Lemma ex_preroll_owns : owns ex_store (holds ex_preroll ++ [0%N; 0%N]).
Proof. exact ex_store_owns. Qed.

Lemma preroll_push_refines_witness :
  ∃ p' s', preroll_push true ex_preroll ex_frame ex_store = Some ((NGX_OK, p'), s') ∧
    cached p' = [ex_frame].
Proof.
  destruct (preroll_push_refines true ex_store ex_preroll ex_frame [0%N; 0%N])
    as (r & p' & s' & Hrun & Hc & _);
    [apply ex_preroll_inv|apply ex_preroll_owns|set_solver|].
  vm_compute in Hc. injection Hc as -> _ Hc. exists p', s'. split; [exact Hrun|exact Hc].
Defined.
Lemma standby_cache_complete_gop_witness :
  ∃ p' s', preroll_pushes true ex_preroll [ex_delta; ex_frame; ex_delta] ex_store = Some (p', s') ∧
    (cached p' = [] ∨ cached p' = [ex_frame; ex_delta]).
Proof.
  destruct (standby_cache_complete_gop ex_store ex_preroll [ex_delta; ex_frame; ex_delta] [0%N; 0%N])
    as (p' & s' & Hrun & Hc & _);
    [apply ex_preroll_inv|done|apply ex_preroll_owns|set_solver|].
  exists p', s'. split; [exact Hrun|exact Hc].
Defined.

(** Replacing a source's track contract never leaks and never shares half: on
    success the source holds exactly the given tracks, each configuration payload
    referenced once more; on failure it holds no contract; the previous contract's
    references are given back either way. *)
Theorem tracks_set_balanced src tracks L s :
  owns s (holds src ++ L) → holds tracks ⊆ L → trackset_inv tracks → ts_count tracks < 2 ^ 63 →
  ∃ r src' s', source_tracks_set src tracks s = Some ((r, src'), s') ∧
    owns s' (holds src' ++ L) ∧
    if decide (r = NGX_OK)
    then ∃ ts, src' = src <| so_tracks := Some ts |> ∧ ts_used ts = ts_used tracks
    else src' = src <| so_tracks := None |>.
Proof.
  intros Ho Hin Ht Hc.
  destruct (wp_source_tracks_set src tracks L s Ho Hin Ht Hc) as ([r src'] & s' & Hrun & Ho' & _ & Hr).
  exists r, src', s'. split_and!; [done|done|]. cbn [fst snd] in Hr.
  destruct (decide (r = NGX_OK)); [|done]. destruct Hr as (ts & ? & _ & ? & _). eauto.
Qed.
Definition ex_tracks : trackset :=
  mk_trackset [ex_video; mk_track TYPE_AUDIO 3 3 0 0 0 0 0 0 48000 2 (Some 0%N)] 2 2.
Lemma tracks_set_balanced_witness :
  ∃ src' s', source_tracks_set source_zero ex_tracks ex_store = Some ((NGX_OK, src'), s') ∧
    owns s' (holds src' ++ [0%N; 0%N]).
Proof.
  destruct (tracks_set_balanced source_zero ex_tracks [0%N; 0%N] ex_store)
    as (r & src' & s' & Hrun & Ho & _);
    [exact ex_store_owns|vm_compute; set_solver|by split|done|].
  assert (∃ p, source_tracks_set source_zero ex_tracks ex_store = Some (NGX_OK, p.1, p.2)) as [[? ?] Hok].
  { eexists (_, _). vm_compute. reflexivity. }
  assert (r = NGX_OK) as -> by congruence. eauto.
Defined.

(** ** Keys *)

Lemma key_diff_spec n a b diff :
  (n ≤ length a)%nat → (n ≤ length b)%nat → Forall is_byte a → Forall is_byte b →
  key_diff n a b diff = 0 ↔ diff = 0 ∧ take n a = take n b.
Proof.
  revert a b diff. induction n as [|n IH]; intros [|x a] [|y b] diff Ha Hb Hxa Hyb;
    simpl in Ha, Hb; cbn [key_diff take]; try lia; try tauto.
  apply Forall_cons in Hxa as [Hx Hxa]. apply Forall_cons in Hyb as [Hy Hyb].
  rewrite IH by (auto; lia). rewrite Z.lor_eq_0_iff.
  assert (u8 (Z.lxor x y) = 0 ↔ x = y) as ->.
  2:{ split; [intros [[-> ->] ->]; done|by intros [-> [= -> ->]]]. }
  rewrite <- (Z.lxor_eq_0_iff x y). unfold is_byte in *.
  assert (0 ≤ Z.lxor x y < 256) as Hr.
  { split; [apply Z.lxor_nonneg; lia|]. destruct (decide (Z.lxor x y = 0)); [lia|].
    assert (0 ≤ Z.lxor x y) by (apply Z.lxor_nonneg; lia).
    apply (Z.log2_lt_pow2 _ 8); [lia|]. eapply Z.le_lt_trans; [apply Z.log2_lxor; lia|].
    apply Z.max_lub_lt; destruct (decide (x = 0)), (decide (y = 0)); subst; try done;
      apply Z.log2_lt_pow2; lia. }
  unfold u8. rewrite Z.mod_small by (simpl; lia). done.
Qed.

(** The key check answers exactly equality of the 32-byte hashes: after a key
    is set a presented hash matches iff it is that key, and nothing matches a source
    without one. *)
Theorem key_matches_exactly src hash print presented :
  (KEY_HASH ≤ length hash)%nat → (KEY_HASH ≤ length presented)%nat →
  Forall is_byte hash → Forall is_byte presented →
  (source_key_matches (source_key_set src hash print) presented = true ↔
     take KEY_HASH presented = take KEY_HASH hash) ∧
  (so_key_set src = false → source_key_matches src presented = false).
Proof.
  intros Hl Hp Hb Hpb. split.
  - unfold source_key_matches, source_key_set. cbn [setf so_key_set so_key_hash negb].
    rewrite Z.eqb_eq, key_diff_spec; [|rewrite length_take; lia|done|by apply Forall_take|done].
    rewrite take_take, Nat.min_id. naive_solver.
  - intros Hs. unfold source_key_matches. by rewrite Hs.
Qed.
Lemma key_matches_exactly_witness :
  source_key_matches (source_key_set source_zero (replicate 32 7) []) (replicate 32 7) = true.
Proof.
  apply (key_matches_exactly source_zero (replicate 32 7) [] (replicate 32 7));
    [simpl; unfold KEY_HASH; lia..|apply Forall_replicate; done|apply Forall_replicate; done|done].
Defined.

(** ** Revisions *)

Fixpoint touch_run (local : Z) (answers : list (option Z)) : list Z :=
  match answers with
  | [] => []
  | a :: answers => let r := revision_next a local in r :: touch_run r answers
  end.

(** The revisions of an object strictly increase whatever the shared provider
    answers - numbers behind the object's own, or no provider at all - and a shared
    number that is ahead is taken as it is. *)
Theorem revisions_increase bound local answers :
  0 ≤ local ≤ bound → Forall (λ a, ∀ n, a = Some n → n ≤ bound) answers →
  bound + Z.of_nat (length answers) < 2 ^ 64 →
  Sorted Z.lt (local :: touch_run local answers) ∧
  (∀ shared, local < shared → revision_next (Some shared) local = shared).
Proof.
  intros Hl Ha Hb. split.
  2:{ intros shared ?. unfold revision_next. by rewrite (proj2 (Z.ltb_lt _ _)). }
  revert bound local Hl Ha Hb.
  induction answers as [|a answers IH]; intros bound local Hl Ha Hb; [by repeat constructor|].
  apply Forall_cons in Ha as [Ha Has]. cbn [length touch_run] in *.
  assert (local < revision_next a local ≤ bound + 1) as Hn.
  { unfold revision_next. destruct a as [n|]; [|rewrite u64_small; lia].
    specialize (Ha n eq_refl). caseb; [lia|]. rewrite u64_small; lia. }
  constructor; [|constructor; lia]. apply (IH (bound + 1)); [lia| |lia].
  eapply Forall_impl; [exact Has|]. intros x Hx n Hn'. specialize (Hx n Hn'). lia.
Qed.
Lemma revisions_increase_witness :
  Sorted Z.lt [7; 8; 20; 21] ∧ touch_run 7 [Some 3; Some 20; None] = [8; 20; 21].
Proof.
  split; [|done].
  refine (proj1 (revisions_increase 20 7 [Some 3; Some 20; None] _ _ _)); [lia| |done].
  repeat constructor; intros n [= <-]; lia.
Defined.

(** ** Leases *)

Lemma put_put g id src src' : put_source (put_source g id src) id src' = put_source g id src'.
Proof. unfold put_source. cbn. by rewrite insert_insert_eq. Qed.
Lemma put_lookup g id src : g_sources (put_source g id src) !! id = Some src.
Proof. apply lookup_insert_eq. Qed.

Lemma owns_put s g id src src' L :
  g_sources g !! id = Some src → holds src' = holds src →
  owns s (holds g ++ L) → owns s (holds (put_source g id src') ++ L).
Proof.
  intros Hs Hh. by rewrite (owner_graph_lookup _ _ _ Hs), owner_graph_put, Hh.
Qed.

Lemma lease_begin_run g id src s :
  g_sources g !! id = Some src → 0 ≤ so_references src < 2 ^ 64 - 1 →
  0 ≤ so_writers src < 2 ^ 64 - 1 →
  source_lease_begin g id s =
    Some (put_source g id (src <| so_writers := so_writers src + 1 |>
                               <| so_references := so_references src + 1 |>), s).
Proof.
  intros Hs Hr Hw. unfold source_lease_begin, source_retain, get_source.
  rewrite Hs. unfold mbind, SM_bind, mret, SM_ret. rewrite put_lookup, put_put.
  cbn [setf so_writers so_references]. by rewrite !u64_small by lia.
Qed.

(** Giving up a reference that is not the last one. *)
Lemma release_run g id src s :
  g_sources g !! id = Some src → 1 < so_references src < 2 ^ 64 →
  source_release g id s =
    Some (put_source g id (src <| so_references := so_references src - 1 |>), s).
Proof.
  intros Hs Hr. unfold source_release, get_source. rewrite Hs. unfold mbind, SM_bind, mret, SM_ret.
  rewrite (proj2 (Z.eqb_neq _ _)) by lia. cbn [setf so_references].
  rewrite u64_small by lia. by rewrite (proj2 (Z.eqb_neq _ _)) by lia.
Qed.

(** The end of a lease is a release with one writer less. *)
Lemma lease_end_run g id src s :
  g_sources g !! id = Some src → 0 < so_writers src < 2 ^ 64 →
  source_lease_end g id s =
    source_release (put_source g id (src <| so_writers := so_writers src - 1 |>)) id s.
Proof.
  intros Hs Hw. unfold source_lease_end, get_source. rewrite Hs. unfold mbind, SM_bind, mret, SM_ret.
  rewrite (proj2 (Z.ltb_lt _ _)) by lia. by rewrite u64_small by lia.
Qed.

(** A write lease keeps a removed source alive: when the list's reference is
    dropped under a lease the source stays allocated, and the end of the lease
    completes the release - the cache, the contract, the object count and the
    stream's reference are given back exactly once. *)
Theorem lease_keeps_alive g id src L s :
  g_sources g !! id = Some src → source_ok src →
  0 < so_references src < 2 ^ 64 - 1 → 0 ≤ so_writers src < 2 ^ 64 - 1 →
  owns s (holds g ++ L) →
  ∃ g1 g2 g3 s3, source_lease_begin g id s = Some (g1, s) ∧
    source_release g1 id s = Some (g2, s) ∧ is_Some (g_sources g2 !! id) ∧
    source_lease_end g2 id s = Some (g3, s3) ∧ owns s3 (holds g3 ++ L) ∧
    (so_references src = 1 →
       g_sources g3 = delete id (g_sources g) ∧
       g_objects g3 = model_release (g_objects g) MODEL_SOURCE ∧
       g_stream_refs g3 = alter (λ n : Z, n ⊖ 1) (so_stream src) (g_stream_refs g)) ∧
    (so_references src ≠ 1 →
       g3 = put_source g id (src <| so_references := so_references src - 1 |>)).
Proof.
  intros Hs Hok Hr Hw Ho.
  set (n := so_references src) in *. set (w := so_writers src) in *.
  set (src1 := src <| so_writers := w + 1 |> <| so_references := n + 1 |>).
  set (src2 := src <| so_writers := w + 1 |>).
  assert (source_lease_begin g id s = Some (put_source g id src1, s)) as Hbegin
    by (apply lease_begin_run; auto; lia).
  assert (source_release (put_source g id src1) id s = Some (put_source g id src2, s)) as Hrel.
  { rewrite (release_run _ _ src1) by (apply put_lookup || (unfold src1; cbn; lia)).
    rewrite put_put. unfold src1, src2. cbn. replace (n + 1 - 1) with n by lia. by destruct src. }
  set (g2' := put_source g id src).
  assert (source_lease_end (put_source g id src2) id s = source_release g2' id s) as Hend.
  { rewrite (lease_end_run _ _ src2) by (apply put_lookup || (unfold src2; cbn; lia)).
    rewrite put_put. unfold src2, g2'. cbn. replace (w + 1 - 1) with w by lia. by destruct src. }
  destruct (wp_source_release g2' id src L s) as (g3 & s3 & Hrun & Ho3 & _ & Hg3);
    [apply put_lookup|done|lia|by eapply owns_put|].
  exists (put_source g id src1), (put_source g id src2), g3, s3.
  split_and!; [done|done|rewrite put_lookup; eauto|congruence|done|..]; intros Hn; rewrite Hg3.
  - rewrite decide_True by done. unfold free_source, stream_release, g2'. cbn.
    by rewrite delete_insert_eq.
  - rewrite decide_False by done. apply put_put.
Qed.

Definition ex_source : source :=
  source_zero <| so_stream := 5%N |> <| so_references := 1 |> <| so_preroll := ex_preroll |>.
Definition ex_graph : graph := mk_graph {[ 9%N := ex_source ]} [0; 1; 0] {[ 5%N := 1 ]}.

Lemma lease_keeps_alive_witness :
  ∃ g1 g2 g3 s3, source_lease_begin ex_graph 9 ex_store = Some (g1, ex_store) ∧
    source_release g1 9 ex_store = Some (g2, ex_store) ∧ is_Some (g_sources g2 !! 9%N) ∧
    source_lease_end g2 9 ex_store = Some (g3, s3) ∧
    g_sources g3 = ∅ ∧ g_objects g3 = [0; 0; 0] ∧ g_stream_refs g3 = {[ 5%N := 0 ]}.
Proof.
  destruct (lease_keeps_alive ex_graph 9 ex_source [0%N; 0%N] ex_store)
    as (g1 & g2 & g3 & s3 & H1 & H2 & H3 & H4 & _ & Hfree & _);
    [reflexivity| |vm_compute; split; reflexivity|vm_compute; (done || split; done)|exact ex_store_owns|].
  { split; [intros _; eapply preroll_inv_ring, ex_preroll_inv|done]. }
  destruct (Hfree eq_refl) as (Hs & Ho & Hr).
  exists g1, g2, g3, s3. rewrite Hs, Ho, Hr. split_and!; try done.
Defined.
