(* ===== verification/Stream.v ===== *)
(** * Logical streams: the activation gate and the program

    Models core/ngx_media_stream.[ch].  A [world] is one stream and the worker's
    source graph; every operation of the file is a definition on it.  The theorems
    are about arbitrary histories of operations: at most one source is active and
    only it reaches the program, a switch never happens under an outstanding write
    lease, generation changes are visible to every reader, and program time is
    strictly increasing. *)
From Stdlib Require Import Sorted.
From S2P Require Import Prelude Ring Store Feed Timeline Health Policy Compat Source.

Record stream := mk_stream {
  st_id : N; st_application : list Z; st_name : list Z; st_sources : list N;
  st_active : option N; st_timeline : timeline; st_selector : selector; st_feed : feed;
  st_generation : Z; st_incarnation : Z; st_revision : Z; st_switches : Z;
  st_emergency_switches : Z; st_program_frames : Z; st_running : bool }.
#[global] Instance eta_stream : Eta stream := λ r,
  mk_stream (st_id r) (st_application r) (st_name r) (st_sources r)
    (st_active r) (st_timeline r) (st_selector r) (st_feed r)
    (st_generation r) (st_incarnation r) (st_revision r) (st_switches r)
    (st_emergency_switches r) (st_program_frames r) (st_running r).

Definition stream_zero (id : N) : stream :=
  mk_stream id [] [] [] None timeline_init (mk_selector 0 0 0 0) feed_zero 0 0 0 0 0 0 false.

Record world := mk_world { w_stream : stream; w_graph : graph }.
#[global] Instance eta_world : Eta world := λ r, mk_world (w_stream r) (w_graph r).

Definition PREROLL_UNITS : Z := 512.
Definition PREROLL_BYTES : Z := 4 * 1024 * 1024.

(** ** Configuration and identity *)

Definition stream_set_policy (st : stream) (p : policy) : stream :=
  st <| st_selector := mk_selector (p_failure_timeout p) (p_recovery_timeout p)
                         (p_switch_keyframe p) (p_switchback p) |>.

Definition stream_touch (shared : option Z) (st : stream) : stream :=
  st <| st_revision := revision_next shared (st_revision st) |>.

(** The next incarnation after [current]; never 0. *)
Definition incarnation_next (shared : option Z) (current : Z) : Z :=
  let n := revision_next shared current in if n =? 0 then 1 else n.

(** [stream_init]: [(rc, stream, incarnation counter)]; pool allocations are asked of
    the allocator. *)
Definition stream_init (st : stream) (application name : option (list Z)) (conf : feed_conf)
    (shared : option Z) (incarnation : Z) : M (rc * stream * Z) :=
  match name with
  | None => mret (NGX_ERROR, st, incarnation)
  | Some name =>
      let app := default [] application in
      if (Z.of_nat (length name) =? 0) || (GRAPH_MAX_NAME <? Z.of_nat (length name))
         || (GRAPH_MAX_NAME <? Z.of_nat (length app))
      then mret (NGX_ERROR, st, incarnation)
      else
        let st := stream_set_policy (stream_zero (st_id st)) policy_init in
        a ← ngx_alloc (Z.of_nat (length name));
        match a with
        | None => mret (NGX_ERROR, st, incarnation)
        | Some _ =>
            let st := st <| st_name := name |> in
            b ← (if 0 <? Z.of_nat (length app) then ngx_alloc (Z.of_nat (length app))
                 else mret (Some 0%N));
            match b with
            | None => mret (NGX_ERROR, st, incarnation)
            | Some _ =>
                let st := st <| st_application := app |> in
                r ← feed_init (st_feed st) conf;
                let '(rc, fd) := r in
                let st := st <| st_feed := fd |> in
                if bool_decide (rc = NGX_OK) then
                  let incarnation := incarnation_next shared incarnation in
                  mret (NGX_OK, st <| st_generation := 1 |>
                                   <| st_incarnation := incarnation |>
                                   <| st_running := true |>, incarnation)
                else mret (NGX_ERROR, st, incarnation)
            end
        end
  end.

(** ** The source registry *)

(** The first source of the queue with this identity. *)
Fixpoint find_loop (g : graph) (queue : list N) (id : list Z) : M (option N) :=
  match queue with
  | [] => mret None
  | q :: queue =>
      src ← get_source g q;
      if bool_decide (so_id src = id) then mret (Some q) else find_loop g queue id
  end.
Definition stream_source_find (w : world) (id : list Z) : M (option N) :=
  find_loop (w_graph w) (st_sources (w_stream w)) id.
Definition stream_source_count (w : world) : Z := Z.of_nat (length (st_sources (w_stream w))).

(** sizeof(ngx_media_source_t) *)
Definition source_size : Z := 744.

Definition stream_source_add (pol : option policy) (w : world) (id : list Z) (type priority : Z) :
    M (option N * world) :=
  let st := w_stream w in
  if negb (st_running st) || (Z.of_nat (length id) =? 0)
     || (GRAPH_MAX_NAME <? Z.of_nat (length id)) || (2 ^ 32 - 1 <? priority)
  then mret (None, w)
  else
    existing ← stream_source_find w id;
    match existing with
    | Some _ => mret (None, w)
    | None =>
        let '(rc, objs) := model_admit pol (g_objects (w_graph w)) MODEL_SOURCE in
        if bool_decide (rc = NGX_ERROR) then mret (None, w)
        else
          let g := (w_graph w) <| g_objects := objs |> in
          let undo := g <| g_objects := model_release objs MODEL_SOURCE |> in
          a ← ngx_alloc source_size;
          match a with
          | None => mret (None, w <| w_graph := undo |>)
          | Some addr =>
              r ← string_set [] (Some id);
              let '(rc, name) := r in
              if bool_decide (rc = NGX_OK) then
                let src := source_zero <| so_id := name |> <| so_stream := st_id st |>
                  <| so_references := 1 |> <| so_type := type |> <| so_priority := priority |>
                  <| so_enabled := true |> <| so_state := STANDBY |> in
                let g := stream_retain g (st_id st) in
                p ← preroll_init (so_preroll src) PREROLL_UNITS PREROLL_BYTES;
                let '(rc, pre) := p in
                let g := put_source g addr (src <| so_preroll := pre |>) in
                if bool_decide (rc = NGX_OK) then
                  mret (Some addr, mk_world (st <| st_sources := st_sources st ++ [addr] |>) g)
                else
                  g ← source_release g addr;
                  mret (None, w <| w_graph := g |>)
              else mret (None, w <| w_graph := undo |>)
          end
    end.

Definition program_discontinuity (st : stream) : stream :=
  st <| st_timeline := timeline_discontinuity (st_timeline st) |>
     <| st_feed := feed_discontinuity (st_feed st) |>
     <| st_generation := st_generation st ⊕ 1 |>.

Definition stream_source_remove (w : world) (id : N) : M world :=
  let st := w_stream w in
  src ← get_source (w_graph w) id;
  if negb (N.eqb (so_stream src) (st_id st)) || so_pending_remove src then mret w
  else
    let src := src <| so_pending_remove := true |> in
    let '(st, src) :=
      if bool_decide (st_active st = Some id) then
        (program_discontinuity (st <| st_active := None |>),
         src <| so_active := false |> <| so_state := STANDBY |>)
      else (st, src) in
    let st := st <| st_sources := filter (λ q, q ≠ id) (st_sources st) |> in
    g ← source_release (put_source (w_graph w) id src) id;
    mret (mk_world st g).

(** ** Leases *)

Definition stream_lease_begin (w : world) (id : N) : M (rc * world) :=
  src ← get_source (w_graph w) id;
  if negb (N.eqb (so_stream src) (st_id (w_stream w))) || negb (st_running (w_stream w))
     || so_pending_remove src
  then mret (NGX_ERROR, w)
  else g ← source_lease_begin (w_graph w) id; mret (NGX_OK, w <| w_graph := g |>).

Definition stream_lease_end (w : world) (id : N) : M world :=
  g ← source_lease_end (w_graph w) id; mret (w <| w_graph := g |>).

(** ** The program *)

Definition stream_write_program (w : world) (id : N) (f : frame) (now : Z) : M (rc * world) :=
  let st := w_stream w in
  let '(t, p, d) := timeline_map (st_timeline st) (pts f) (dts f) in
  let st := st <| st_timeline := t |> in
  r ← feed_publish (st_feed st) (set_times p d f) now;
  let '(rc, fd) := r in
  let st := st <| st_feed := fd |> in
  if bool_decide (rc = NGX_OK) then
    src ← get_source (w_graph w) id;
    mret (NGX_OK,
      mk_world (st <| st_program_frames := st_program_frames st ⊕ 1 |>)
        (put_source (w_graph w) id (src <| so_frames_out := so_frames_out src ⊕ 1 |>)))
  else mret (NGX_ERROR, w <| w_stream := st |>).

(** The demotion of the active source in front of a switch. *)
Definition stream_demote (w : world) (old : N) (src : source) : world :=
  mk_world
    ((program_discontinuity (w_stream w))
       <| st_switches := st_switches (w_stream w) ⊕ 1 |>)
    (put_source (w_graph w) old (src <| so_state := STANDBY |> <| so_active := false |>)).

(** The activation of [id], then the replay and reset of its cache. *)
Definition stream_activate (w : world) (id : N) (now : Z) : M world :=
  src ← get_source (w_graph w) id;
  let w := mk_world ((w_stream w) <| st_active := Some id |>)
             (put_source (w_graph w) id (src <| so_state := ACTIVE |> <| so_active := true |>
                                             <| so_pending_switch := false |>)) in
  w ← preroll_replay (λ w f, r ← stream_write_program w id f now; mret r.2) (so_preroll src) w;
  src ← get_source (w_graph w) id;
  p ← preroll_reset (so_preroll src);
  mret (w <| w_graph := put_source (w_graph w) id (src <| so_preroll := p |>) |>).

Definition stream_switch_now (w : world) (id : N) (now : Z) : M (rc * world) :=
  match st_active (w_stream w) with
  | Some old =>
      if N.eqb old id then
        src ← get_source (w_graph w) id;
        mret (NGX_OK, w <| w_graph := put_source (w_graph w) id
                                        (src <| so_pending_switch := false |>) |>)
      else
        osrc ← get_source (w_graph w) old;
        if 0 <? so_writers osrc then mret (NGX_AGAIN, w)
        else w ← stream_activate (stream_demote w old osrc) id now; mret (NGX_OK, w)
  | None => w ← stream_activate w id now; mret (NGX_OK, w)
  end.

Definition stream_promote (w : world) (id : N) : M (rc * world) :=
  let st := w_stream w in
  src ← get_source (w_graph w) id;
  if negb (N.eqb (so_stream src) (st_id st)) || negb (st_running st) || so_pending_remove src
  then mret (NGX_ERROR, w)
  else if bool_decide (st_active st = Some id) then
    mret (NGX_OK, w <| w_graph := put_source (w_graph w) id
                                    (src <| so_pending_switch := false |>) |>)
  else
    let src := src <| so_pending_switch := true |> <| so_state := AWAITING_SYNC |> in
    let w := w <| w_graph := put_source (w_graph w) id src |> in
    if preroll_ready (so_preroll src) then stream_switch_now w id (so_last_media src)
    else mret (NGX_OK, w).

Definition wants_switch (src : source) : bool :=
  so_pending_switch src && (so_state src =? AWAITING_SYNC) && preroll_ready (so_preroll src).

Fixpoint resolve_loop (w : world) (queue : list N) : M world :=
  match queue with
  | [] => mret w
  | q :: queue =>
      src ← get_source (w_graph w) q;
      if wants_switch src then
        r ← stream_switch_now w q (so_last_media src); resolve_loop r.2 queue
      else resolve_loop w queue
  end.
Definition stream_switch_resolve (w : world) : M world :=
  resolve_loop w (st_sources (w_stream w)).

(** The leased write of the active source. *)
Definition stream_publish_active (w : world) (id : N) (f : frame) (now : Z) : M (rc * world) :=
  l ← stream_lease_begin w id;
  r ← stream_write_program l.2 id f now;
  w ← stream_lease_end r.2 id;
  mret (r.1, w).

Definition stream_publish (w : world) (id : N) (f : frame) (now : Z) : M (rc * world) :=
  let st := w_stream w in
  src ← get_source (w_graph w) id;
  if negb (N.eqb (so_stream src) (st_id st)) || negb (st_running st) || so_pending_remove src
  then mret (NGX_ERROR, w)
  else
    len ← buf_size (payload f);
    let src := src <| so_frames_in := so_frames_in src ⊕ 1 |>
      <| so_payload_bytes_in := so_payload_bytes_in src ⊕ len |> <| so_last_media := now |> in
    let w := w <| w_graph := put_source (w_graph w) id src |> in
    if so_state src =? ACTIVE then
      r ← stream_publish_active w id f now;
      w ← stream_switch_resolve r.2;
      mret (r.1, w)
    else
      r ← preroll_push (so_has_video src) (so_preroll src) f;
      let src := src <| so_preroll := r.2 |> in
      let w := w <| w_graph := put_source (w_graph w) id src |> in
      if (so_state src =? AWAITING_SYNC) && keyframe f then stream_switch_now w id now
      else mret (NGX_OK, w).

(** ** Teardown *)

Fixpoint retire_loop (w : world) (queue : list N) : M world :=
  match queue with
  | [] => mret w
  | q :: queue => w ← stream_source_remove w q; retire_loop w queue
  end.

(** Destinations are another component: their removal is not part of this model. *)
Definition stream_retire (w : world) : M world :=
  let w := w <| w_stream ::= λ st, st <| st_running := false |> |> in
  w ← retire_loop w (st_sources (w_stream w));
  mret (w <| w_stream ::= λ st, st <| st_sources := [] |> <| st_active := None |>
                                   <| st_running := false |> |>).

Definition stream_destroy (w : world) : M world :=
  w ← stream_retire w;
  fd ← feed_destroy (st_feed (w_stream w));
  mret (w <| w_stream ::= λ st, st <| st_feed := fd |> |>).

#[global] Instance owner_world : Owner world :=
  λ w, holds (st_feed (w_stream w)) ++ holds (w_graph w).
Lemma holds_world w : holds w = holds (st_feed (w_stream w)) ++ holds (w_graph w).
Proof. done. Qed.

(** ** Lemmas on the graph *)

Lemma StronglySorted_snoc l x :
  StronglySorted Z.lt l → Forall (λ y, y < x) l → StronglySorted Z.lt (l ++ [x]).
Proof.
  intros Hs Hf. induction Hs as [|y l Hs IH Hy]; [by repeat constructor|].
  apply Forall_cons in Hf as [? ?]. simpl. constructor; [by apply IH|].
  apply Forall_app. split; [done|by constructor].
Qed.

Lemma StronglySorted_app_r l k : StronglySorted Z.lt (l ++ k) → StronglySorted Z.lt k.
Proof. induction l as [|x l IH]; [done|]. intros [? _]%StronglySorted_inv. auto. Qed.

Lemma wp_eq {A} (m : M A) (Q : A → store → Prop) s a s' : m s = Some (a, s') → Q a s' → wp m Q s.
Proof. intros. by exists a, s'. Qed.

Lemma put_source_holds g id src src' :
  g_sources g !! id = Some src → holds src' = holds src →
  holds (put_source g id src') ≡ₚ holds g.
Proof. intros Hs Hh. by rewrite owner_graph_put, (owner_graph_lookup _ _ _ Hs), Hh. Qed.

Lemma put_source_id g id src : g_sources g !! id = Some src → put_source g id src = g.
Proof. intros Hs. unfold put_source. cbn. rewrite insert_id by done. by destruct g. Qed.

Lemma holds_source_in g id src : g_sources g !! id = Some src → holds src ⊆ holds g.
Proof. intros Hs x Hx. rewrite (owner_graph_lookup _ _ _ Hs). set_solver. Qed.

Lemma holds_preroll_in src : holds (so_preroll src) ⊆ holds src.
Proof. intros x Hx. unfold holds, owner_source. set_solver. Qed.

(** The sources other than [id]. *)
Definition others (g : graph) (id : N) : list source := (map_to_list (delete id (g_sources g))).*2.

Lemma holds_others g id i x :
  i ≠ id → g_sources g !! i = Some x → holds x ⊆ holds (others g id).
Proof.
  intros Hne Hx. apply holds_elem. unfold others. apply list_elem_of_fmap.
  exists (i, x). split; [done|]. apply elem_of_map_to_list. by rewrite lookup_delete_ne.
Qed.

Lemma holds_others_in g id src :
  g_sources g !! id = Some src → holds (others g id) ⊆ holds g.
Proof. intros Hs. rewrite (owner_graph_lookup _ _ _ Hs). sub_app. Qed.

Lemma queue_put (queue : list N) (sid : N) g id src src' :
  (∀ q, q ∈ queue → ∃ x, g_sources g !! q = Some x ∧ so_stream x = sid) →
  g_sources g !! id = Some src → so_stream src' = so_stream src →
  ∀ q, q ∈ queue → ∃ x, g_sources (put_source g id src') !! q = Some x ∧ so_stream x = sid.
Proof.
  intros Hq Hs Hst q Hin. destruct (Hq q Hin) as (x & Hx & Hxs).
  unfold put_source. cbn. rewrite lookup_insert. case_decide; [|eauto].
  subst. exists src'. split; [done|]. congruence.
Qed.

(** Source addresses were handed out by the allocator. *)
Definition addresses_below (s : store) (g : graph) : Prop :=
  ∀ id src, g_sources g !! id = Some src → (id < st_next s)%N.

Lemma addresses_put s s' g id src src' :
  addresses_below s g → g_sources g !! id = Some src → evolves s s' →
  addresses_below s' (put_source g id src').
Proof.
  intros Ha Hs Hev i x. unfold put_source. cbn. pose proof (ev_next _ _ Hev).
  rewrite lookup_insert. case_decide; [subst; intros _; specialize (Ha _ _ Hs); lia|].
  intros Hx. specialize (Ha _ _ Hx). lia.
Qed.

Lemma holds_put_world w id src src' :
  g_sources (w_graph w) !! id = Some src → holds src' = holds src →
  holds (w <| w_graph := put_source (w_graph w) id src' |>) ≡ₚ holds w.
Proof. intros Hs Hh. rewrite !holds_world. apply Permutation_app; [done|by apply (put_source_holds _ _ src)]. Qed.

Lemma push_post_Forall (P : frame → Prop) hv p f s r :
  push_post hv p f s r → Forall P (cached p) → P f → Forall P (cached r.2).
Proof.
  intros (Hc & _) Hp Hf. symmetry in Hc. unfold cache_push in Hc.
  assert (∀ l, cache_add (pr_max_units p) (pr_max_bytes p) s l
    = (r.1, (pr_have_boundary r.2, cached r.2)) → Forall P l → Forall P (cached r.2)) as Hadd.
  { intros l Hl Hfl. apply cache_add_open in Hl. destruct (pr_have_boundary r.2); rewrite Hl; auto. }
  destruct (is_boundary f); [by eapply Hadd; [exact Hc|constructor]|].
  destruct (pr_have_boundary p).
  - eapply Hadd; [exact Hc|]. apply Forall_app. by split; [|constructor].
  - destruct (is_video f || hv); [by injection Hc as _ _ <-|].
    by eapply Hadd; [exact Hc|constructor].
Qed.

Lemma stream_lease_begin_run w id src s :
  g_sources (w_graph w) !! id = Some src → so_stream src = st_id (w_stream w) →
  st_running (w_stream w) = true → so_pending_remove src = false →
  0 ≤ so_references src < 2 ^ 64 - 1 → 0 ≤ so_writers src < 2 ^ 64 - 1 →
  stream_lease_begin w id s = Some ((NGX_OK, w <| w_graph := put_source (w_graph w) id
    (src <| so_writers := so_writers src + 1 |> <| so_references := so_references src + 1 |>) |>), s).
Proof.
  intros Hs Hst Hrun Hpr Hr Hw. unfold stream_lease_begin, get_source. rewrite Hs.
  unfold mbind, SM_bind, mret, SM_ret. rewrite Hst, N.eqb_refl, Hrun, Hpr. cbn [negb orb].
  by rewrite (lease_begin_run _ _ _ _ Hs Hr Hw).
Qed.

Lemma stream_lease_end_run w id src s :
  g_sources (w_graph w) !! id = Some src → 0 < so_writers src < 2 ^ 64 →
  1 < so_references src < 2 ^ 64 →
  stream_lease_end w id s = Some (w <| w_graph := put_source (w_graph w) id
    (src <| so_writers := so_writers src - 1 |> <| so_references := so_references src - 1 |>) |>, s).
Proof.
  intros Hs Hw Hr. unfold stream_lease_end. unfold mbind, SM_bind, mret, SM_ret.
  rewrite (lease_end_run _ _ _ _ Hs Hw).
  rewrite (release_run _ _ (src <| so_writers := so_writers src - 1 |>)) by (apply put_lookup || done).
  by rewrite put_put.
Qed.

(** ** The program invariant

    [B] bounds source timestamps; [budget n] says that mapping the next frame after
    [n] program frames cannot overflow an int64. *)
Section invariants.
Context (B : Z) (HB : 0 ≤ B).

Definition frame_bound (f : frame) : Prop := in_bound B (pts f) ∧ in_bound B (dts f).
Definition budget (n : Z) : Prop := n * (2 * B + 1) + 4 * B + 2 < 2 ^ 63.

Definition slot_dts (sl : slot) : Z := dts (s_frame sl).

Record program_inv (s : store) (st : stream) : Prop := {
  pg_feed : feed_inv s (st_feed st);
  pg_kf : kf_inv (st_feed st);
  pg_head : f_head (st_feed st) = st_program_frames st;
  pg_tl : tl_inv B (st_program_frames st * (2 * B + 1)) (st_timeline st);
  pg_gen : f_generation (st_feed st) = st_generation st;
  pg_sorted : StronglySorted Z.lt (slot_dts <$> retained (st_feed st));
  pg_last : Forall (λ sl, t_has_program (st_timeline st) = true ∧
              slot_dts sl ≤ t_last_program_dts (st_timeline st)) (retained (st_feed st));
}.

(** The feed gained [new] at the end and gave up units from the front only. *)
Definition appends (fd fd' : feed) (new : list slot) : Prop :=
  ∃ k, (k ≤ length (retained fd ++ new))%nat ∧ retained fd' = drop k (retained fd ++ new).

Lemma appends_refl fd : appends fd fd [].
Proof. exists O. rewrite app_nil_r, drop_0. split; [lia|done]. Qed.
Lemma appends_trans f1 f2 f3 n1 n2 :
  appends f1 f2 n1 → appends f2 f3 n2 → appends f1 f3 (n1 ++ n2).
Proof.
  intros (k1 & Hk1 & H1) (k2 & Hk2 & H2). exists (k1 + k2)%nat.
  rewrite H2, H1, app_assoc, <- (drop_app_le (retained f1 ++ n1)), drop_drop by done.
  rewrite H1, length_app, length_drop in Hk2. split; [|done].
  rewrite length_app. lia.
Qed.

(** The frames of [new] are those of [fs] with program timestamps. *)
Definition maps_to (f : frame) (sl : slot) : Prop :=
  set_times 0 0 (s_frame sl) = set_times 0 0 f ∧ pts (s_frame sl) - slot_dts sl = pts f - dts f.

(** Everything but the timeline, the feed and the frame count is kept. *)
Definition only_program (st st' : stream) : Prop :=
  st' = st <| st_timeline := st_timeline st' |> <| st_feed := st_feed st' |>
           <| st_program_frames := st_program_frames st' |>.

(** What writing the frames [fs] into the program does to the stream. *)
Definition program_written (st st' : stream) (fs : list frame) : Prop :=
  only_program st st' ∧
  st_program_frames st' = st_program_frames st + Z.of_nat (length fs) ∧
  f_generation (st_feed st') = f_generation (st_feed st) ∧
  f_max_units (st_feed st') = f_max_units (st_feed st) ∧
  ∃ new, appends (st_feed st) (st_feed st') new ∧ Forall2 maps_to fs new.

Lemma program_written_refl st : program_written st st [].
Proof.
  split_and!; auto; [by destruct st|simpl; lia|]. exists []. by split; [apply appends_refl|].
Qed.
Lemma program_written_trans st1 st2 st3 fs1 fs2 :
  program_written st1 st2 fs1 → program_written st2 st3 fs2 →
  program_written st1 st3 (fs1 ++ fs2).
Proof.
  intros (Ho1 & Hn1 & Hg1 & Hm1 & new1 & Ha1 & Hf1) (Ho2 & Hn2 & Hg2 & Hm2 & new2 & Ha2 & Hf2).
  split_and!; try congruence.
  - unfold only_program in *. rewrite Ho2, Ho1. done.
  - rewrite Hn2, Hn1, length_app. lia.
  - exists (new1 ++ new2). split; [by eapply appends_trans|by apply Forall2_app].
Qed.

(** The heart of [write_program]: timeline, then feed. *)
Lemma wp_program_write s st f now L :
  program_inv s st → owns s (holds (st_feed st) ++ L) → holds f ⊆ L →
  frame_bound f → budget (st_program_frames st) →
  let '(t, p, d) := timeline_map (st_timeline st) (pts f) (dts f) in
  wp (feed_publish (st_feed st) (set_times p d f) now) (λ r s',
    let st' := st <| st_timeline := t |> <| st_feed := r.2 |>
                  <| st_program_frames := st_program_frames st + 1 |> in
    r.1 = NGX_OK ∧ evolves s s' ∧ owns s' (holds r.2 ++ L) ∧
    program_inv s' st' ∧ program_written st st' [f]) s.
Proof.
  intros [Hfd Hkf Hhd Htl Hgen Hsort Hlast] Ho Hf [Hp Hd] Hbud. unfold budget in Hbud.
  pose proof (timeline_map_spec B HB _ _ _ _ Htl Hd Hp) as Hmap.
  destruct (timeline_map (st_timeline st) (pts f) (dts f)) as [[t p] d] eqn:Emap.
  destruct Hmap as (Htl' & Hco & Hd0 & Hinc & Hl' & Hh'); [lia|].
  pose proof (fi_seq _ _ Hfd) as Hseq.
  assert (st_program_frames st ≤ st_program_frames st * (2 * B + 1)) as Hn by nia.
  eapply wp_mono; [apply (wp_feed_publish s (st_feed st) (set_times p d f) L now); [done..|lia]|].
  intros [r fd] s' (Hr & Hfd' & Ho' & Hev & Hpost). cbn [fst snd] in *.
  assert (0 ≤ f_head (st_feed st)) as Hh0 by lia.
  pose proof (kf_inv_publish _ _ _ _ _ _ Hh0 Hkf Hpost) as Hkf'.
  destruct Hpost as (Hret & Hhd' & Hgen' & _ & Hmu & _).
  destruct (log_prune_suffix (f_max_units (st_feed st)) (f_max_bytes (st_feed st))
    (f_max_age (st_feed st)) now (len_of s (payload (set_times p d f))) s (retained (st_feed st)))
    as [k Hk].
  set (kept := log_prune _ _ _ _ _ _ _) in *. clearbody kept.
  split_and!; [done|done|done| |].
  - split; cbn [setf st_feed st_timeline st_program_frames st_generation]; auto.
    + congruence.
    + eapply tl_inv_mono; [exact Htl'|]. lia.
    + congruence.
    + rewrite Hret, fmap_app. rewrite Hk, fmap_app in Hsort. apply StronglySorted_snoc.
      * by eapply StronglySorted_app_r.
      * rewrite Hk in Hlast. apply Forall_app in Hlast as [_ Hlast].
        apply Forall_fmap. eapply Forall_impl; [exact Hlast|].
        intros x [Hx Hle]. specialize (Hinc Hx). unfold slot_dts in *. simpl. lia.
    + rewrite Hret. rewrite Hk in Hlast. apply Forall_app in Hlast as [_ Hlast].
      apply Forall_app. split.
      * eapply Forall_impl; [exact Hlast|]. intros x [Hx Hle]. specialize (Hinc Hx).
        split; [done|]. unfold slot_dts in *. lia.
      * constructor; [|done]. split; [done|]. unfold slot_dts. simpl. lia.
  - split_and!; cbn [setf st_feed st_program_frames]; try done; auto.
    exists [mk_slot (set_times p d f) now]. split.
    + exists (length k). rewrite Hret, Hk, <- app_assoc, drop_app_length.
      split; [rewrite length_app; lia|done].
    + constructor; [|done]. split; [done|]. unfold slot_dts. simpl. done.
Qed.

(** ** The gate invariant

    [act] is the active source, [queue] the linked ones, [sid] the stream. *)
Record source_wf (s : store) (act : option N) (queue : list N) (id : N) (src : source) : Prop := {
  sw_preroll : preroll_inv s (so_preroll src);
  sw_units : pr_max_units (so_preroll src) = PREROLL_UNITS;
  sw_frames : Forall frame_bound (cached (so_preroll src));
  sw_tracks : tracks_inv src;
  sw_writers : 0 ≤ so_writers src;
  sw_refs : so_writers src + (if so_pending_remove src then 0 else 1) ≤ so_references src ≤ 2 ^ 63;
  sw_linked : so_pending_remove src = false ↔ id ∈ queue;
  sw_active : so_state src = ACTIVE ↔ act = Some id;
  sw_flag : so_active src = true ↔ act = Some id;
}.

Definition sources_inv (s : store) (act : option N) (queue : list N) (sid : N) (g : graph) : Prop :=
  ∀ id src, g_sources g !! id = Some src → so_stream src = sid → source_wf s act queue id src.

Record gate_inv (s : store) (act : option N) (w : world) : Prop := {
  wi_program : program_inv s (w_stream w);
  wi_sources : sources_inv s act (st_sources (w_stream w)) (st_id (w_stream w)) (w_graph w);
  wi_queue q : q ∈ st_sources (w_stream w) →
    ∃ src, g_sources (w_graph w) !! q = Some src ∧ so_stream src = st_id (w_stream w);
  wi_nodup : NoDup (st_sources (w_stream w));
  wi_active a : act = Some a → a ∈ st_sources (w_stream w);
  wi_fresh : addresses_below s (w_graph w);
}.
Definition world_inv (s : store) (w : world) : Prop := gate_inv s (st_active (w_stream w)) w.

Lemma source_wf_stable s s' L L' act queue id src :
  source_wf s act queue id src → owns s L → owns s' L' → evolves s s' →
  holds src ⊆ L → holds src ⊆ L' → source_wf s' act queue id src.
Proof.
  intros [] Ho Ho' Hev Hin Hin'. split; auto.
  pose proof (holds_preroll_in src).
  eapply preroll_inv_stable; [done|exact Ho|exact Ho'|done|set_solver..].
Qed.

Lemma sources_stable s s' L L' act queue sid g :
  sources_inv s act queue sid g → owns s L → owns s' L' → evolves s s' →
  holds g ⊆ L → holds g ⊆ L' → sources_inv s' act queue sid g.
Proof.
  intros Hi Ho Ho' Hev Hin Hin' id src Hs Hst. pose proof (holds_source_in _ _ _ Hs).
  eapply source_wf_stable; [by apply Hi|exact Ho|exact Ho'|done|set_solver..].
Qed.

Lemma sources_put s act queue sid g id src' :
  sources_inv s act queue sid g →
  (so_stream src' = sid → source_wf s act queue id src') →
  sources_inv s act queue sid (put_source g id src').
Proof.
  intros Hi Hw i x. unfold put_source. cbn. rewrite lookup_insert. case_decide.
  - intros [= <-] ?. subst. auto.
  - apply Hi.
Qed.

Lemma program_stable s s' L L' st :
  program_inv s st → owns s L → owns s' L' → evolves s s' →
  holds (st_feed st) ⊆ L → holds (st_feed st) ⊆ L' → program_inv s' st.
Proof.
  intros [] Ho Ho' Hev Hin Hin'. split; auto.
  eapply feed_inv_stable; [done|exact Ho|exact Ho'|done..].
Qed.

Lemma feed_discontinuity_inv s fd : feed_inv s fd → feed_inv s (feed_discontinuity fd).
Proof. intros []. by split. Qed.
Lemma program_discontinuity_inv s st :
  program_inv s st → program_inv s (program_discontinuity st).
Proof.
  intros []. split; cbn [program_discontinuity setf st_feed st_timeline st_program_frames st_generation]; auto.
  - by apply feed_discontinuity_inv.
  - by apply tl_inv_discontinuity.
  - unfold feed_discontinuity. cbn. congruence.
Qed.

(** Fields the program invariant does not read. *)
Lemma program_inv_ext s st st' :
  program_inv s st → st_feed st' = st_feed st → st_timeline st' = st_timeline st →
  st_program_frames st' = st_program_frames st → st_generation st' = st_generation st →
  program_inv s st'.
Proof. intros [] H1 H2 H3 H4. split; rewrite ?H1, ?H2, ?H3, ?H4; auto. Qed.

(** ** Writing and replaying *)

Lemma wp_write_program s w id src f now L :
  program_inv s (w_stream w) → g_sources (w_graph w) !! id = Some src →
  owns s (holds w ++ L) → holds f ⊆ holds (w_graph w) ++ L → frame_bound f →
  budget (st_program_frames (w_stream w)) →
  wp (stream_write_program w id f now) (λ r s',
    r.1 = NGX_OK ∧ evolves s s' ∧ owns s' (holds r.2 ++ L) ∧
    program_inv s' (w_stream r.2) ∧ program_written (w_stream w) (w_stream r.2) [f] ∧
    ∃ n, w_graph r.2 = put_source (w_graph w) id (src <| so_frames_out := n |>)) s.
Proof.
  intros Hp Hs Ho Hf Hb Hbud. unfold stream_write_program.
  unfold holds, owner_world in Ho. rewrite <- app_assoc in Ho.
  pose proof (wp_program_write s (w_stream w) f now _ Hp Ho Hf Hb Hbud) as Hw.
  destruct (timeline_map _ _ _) as [[t p] d]. apply wp_bind. eapply wp_mono; [exact Hw|].
  intros [r fd] s' (Hr & Hev & Ho' & Hp' & Hpw). cbn [fst snd] in *. subst r.
  rewrite bool_decide_eq_true_2 by done. apply wp_bind, (get_source_wp _ _ src); [done|].
  apply wp_ret. cbn [fst snd].
  assert (st_program_frames (w_stream w) ⊕ 1 = st_program_frames (w_stream w) + 1) as Hn.
  { pose proof (fi_seq _ _ (pg_feed _ _ Hp)). pose proof (fi_head _ _ (pg_feed _ _ Hp')).
    pose proof (pg_head _ _ Hp). pose proof (pg_head _ _ Hp') as Hh'. cbn in *.
    apply u64_small. lia. }
  change (st_program_frames (setf st_feed _ _)) with (st_program_frames (w_stream w)).
  rewrite Hn. split_and!; [done|done| |exact Hp'|exact Hpw|eauto].
  unfold holds at 1, owner_world. cbn [w_graph w_stream].
  rewrite put_source_holds, <- app_assoc by done. exact Ho'.
Qed.

Lemma budget_mono n m : budget n → m ≤ n → budget m.
Proof. unfold budget. nia. Qed.

Lemma wp_replay fs s w id src now L :
  program_inv s (w_stream w) → g_sources (w_graph w) !! id = Some src →
  owns s (holds w ++ L) → holds fs ⊆ holds (w_graph w) ++ L → Forall frame_bound fs →
  budget (st_program_frames (w_stream w) + Z.of_nat (length fs)) →
  wp (foldlM (λ w f, r ← stream_write_program w id f now; mret r.2) w fs) (λ w' s',
    evolves s s' ∧ owns s' (holds w' ++ L) ∧ program_inv s' (w_stream w') ∧
    program_written (w_stream w) (w_stream w') fs ∧
    ∃ n, w_graph w' = put_source (w_graph w) id (src <| so_frames_out := n |>)) s.
Proof.
  revert s w src. induction fs as [|f fs IH]; intros s w src Hp Hs Ho Hf Hb Hbud; cbn [foldlM].
  { apply wp_ret. split_and!; [done|done|done|apply program_written_refl|].
    exists (so_frames_out src).
    replace (src <| so_frames_out := so_frames_out src |>) with src by (by destruct src).
    by rewrite put_source_id. }
  rewrite holds_cons in Hf. apply Forall_cons in Hb as [Hbf Hb]. cbn [length] in Hbud.
  apply wp_bind, wp_bind.
  eapply wp_mono; [apply (wp_write_program s w id src f now L); auto|].
  { set_solver. } { eapply budget_mono; [exact Hbud|lia]. }
  intros [r w1] s1 (_ & Hev1 & Ho1 & Hp1 & Hpw1 & n & Hg1). apply wp_ret. cbn [fst snd] in *.
  assert (holds (w_graph w1) ≡ₚ holds (w_graph w)) as Hh.
  { rewrite Hg1. by apply (put_source_holds _ _ src). }
  eapply wp_mono; [apply (IH s1 w1 (src <| so_frames_out := n |>)); auto|].
  { rewrite Hg1. apply put_lookup. } { rewrite Hh. set_solver. }
  { destruct Hpw1 as (_ & -> & _). simpl. eapply budget_mono; [exact Hbud|lia]. }
  intros w' s' (Hev & Ho' & Hp' & Hpw & m & Hg'). split_and!; [by etrans|done|done| |].
  - change (f :: fs) with ([f] ++ fs). by eapply program_written_trans.
  - exists m. rewrite Hg', Hg1, put_put. by destruct src.
Qed.

(** One source changes or goes, the mark of the active one and the queue may move
    onto or off it: the others are untouched. *)
Lemma sources_others s s' L L' act act' queue queue' sid g g' id :
  sources_inv s act queue sid g → owns s L → owns s' L' → evolves s s' →
  holds g ⊆ L → holds (others g id) ⊆ L' →
  (∀ i, i ≠ id → g_sources g' !! i = g_sources g !! i) →
  (∀ i, i ≠ id → act = Some i ↔ act' = Some i) →
  (∀ i, i ≠ id → i ∈ queue ↔ i ∈ queue') →
  (∀ x, g_sources g' !! id = Some x → so_stream x = sid → source_wf s' act' queue' id x) →
  sources_inv s' act' queue' sid g'.
Proof.
  intros Hi Ho Ho' Hev Hin Hin' Hg Hact Hq Hw i x Hx Hst.
  destruct (decide (i = id)) as [->|Hne]; [by apply Hw|]. rewrite Hg in Hx by done.
  pose proof (Hi i x Hx Hst) as Hwf.
  pose proof (holds_others g id i x Hne Hx). pose proof (holds_source_in _ _ _ Hx).
  apply (source_wf_stable s s' L L') in Hwf; [|done|done|done|set_solver|set_solver].
  destruct Hwf. split; auto.
  - by rewrite sw_linked0, Hq.
  - by rewrite sw_active0, Hact.
  - by rewrite sw_flag0, Hact.
Qed.

Lemma sources_update s s' L L' act act' queue queue' sid g id src' :
  sources_inv s act queue sid g → owns s L → owns s' L' → evolves s s' →
  holds g ⊆ L → holds (others g id) ⊆ L' →
  (∀ i, i ≠ id → act = Some i ↔ act' = Some i) →
  (∀ i, i ≠ id → i ∈ queue ↔ i ∈ queue') →
  (so_stream src' = sid → source_wf s' act' queue' id src') →
  sources_inv s' act' queue' sid (put_source g id src').
Proof.
  intros Hi Ho Ho' Hev Hin Hin' Hact Hq Hw.
  apply (sources_others s s' L L' act act' queue queue' sid g _ id); auto.
  - intros i Hne. unfold put_source. cbn. by rewrite lookup_insert_ne.
  - intros x. rewrite put_lookup. intros [= <-]. done.
Qed.

(** Replacing the frames of a source by its empty cache. *)
Definition quiet (src : source) (p : preroll) (now_active : bool) : source :=
  src <| so_preroll := p |> <| so_state := ACTIVE |> <| so_active := now_active |>
      <| so_pending_switch := false |>.

Lemma wp_stream_activate s w id src now L :
  gate_inv s None w → g_sources (w_graph w) !! id = Some src →
  so_stream src = st_id (w_stream w) → so_pending_remove src = false →
  owns s (holds w ++ L) → budget (st_program_frames (w_stream w) + PREROLL_UNITS) →
  wp (stream_activate w id now) (λ w' s',
    evolves s s' ∧ owns s' (holds w' ++ L) ∧ gate_inv s' (Some id) w' ∧
    st_active (w_stream w') = Some id ∧
    program_written ((w_stream w) <| st_active := Some id |>) (w_stream w')
      (cached (so_preroll src)) ∧
    ∃ p n, cached p = [] ∧ w_graph w' = put_source (w_graph w) id
      ((quiet src p true) <| so_frames_out := n |>)) s.
Proof.
  intros Hi Hs Hst Hpr Ho Hbud. pose proof Hi as [Hp Hsrc Hq Hnd _ Hfr].
  pose proof (Hsrc id src Hs Hst) as Hwf.
  unfold stream_activate. apply wp_bind, (get_source_wp _ _ src); [done|].
  set (src1 := setf so_pending_switch _ _).
  set (w1 := mk_world _ _).
  assert (holds w1 ≡ₚ holds w) as Hh1.
  { unfold holds, owner_world. cbn [w1 w_stream w_graph].
    change (st_feed (setf _ _ _)) with (st_feed (w_stream w)).
    f_equiv. by apply (put_source_holds _ _ src). }
  assert (ring_ok (so_preroll src)) as Hr by (eapply preroll_inv_ring, Hwf).
  assert (Z.of_nat (length (cached (so_preroll src))) ≤ PREROLL_UNITS) as Hlen.
  { pose proof (sw_preroll _ _ _ _ _ Hwf) as Hpi. rewrite (length_cached _ _ Hpi).
    rewrite <- (sw_units _ _ _ _ _ Hwf). apply Hpi. }
  apply wp_bind. unfold wp at 1. rewrite (preroll_replay_cached _ _ _ _ Hr).
  eapply (wp_mono _ _ _ _ (wp_replay (cached (so_preroll src)) s w1 id src1 now L _ _ _ _ _ _)).
  Unshelve.
  2:{ eapply program_inv_ext; [exact Hp|done..]. }
  2:{ apply put_lookup. }
  2:{ by rewrite Hh1. }
  2:{ intros x Hx. apply elem_of_app. left.
      assert (holds (w_graph w1) ≡ₚ holds (w_graph w)) as -> by (by apply (put_source_holds _ _ src)).
      apply (holds_source_in _ id src Hs). by apply holds_preroll_in. }
  2:{ apply Hwf. }
  2:{ eapply budget_mono; [exact Hbud|]. cbn. lia. }
  intros w2 s2 (Hev2 & Ho2 & Hp2 & Hpw & n & Hg2).
  apply wp_bind, (get_source_wp _ _ (src1 <| so_frames_out := n |>)).
  { rewrite Hg2. apply put_lookup. }
  change (so_preroll (setf _ _ _)) with (so_preroll src).
  apply wp_bind.
  set (src2 := src1 <| so_frames_out := n |>) in *.
  set (rest := holds (so_tracks src) ++ holds (others (w_graph w) id)).
  assert (holds (w_graph w2) ≡ₚ holds (so_preroll src) ++ rest) as Hh2.
  { rewrite Hg2. cbn [w1 w_graph]. rewrite put_put, owner_graph_put. unfold rest. by rewrite app_assoc. }
  eapply wp_mono; [apply (wp_preroll_reset s2 _ (holds (st_feed (w_stream w2)) ++ rest ++ L) Hr)|].
  { eapply owns_proper; [|exact Ho2]. rewrite holds_world, Hh2. solve_Permutation. }
  intros p s3 (Ho3 & Hev3 & Hcl). pose proof (cached_cleared _ _ Hcl) as Hn.
  apply wp_ret. set (w3 := setf w_graph _ w2).
  assert (w_graph w3 = put_source (w_graph w) id ((quiet src p true) <| so_frames_out := n |>)) as Hg3.
  { cbn [w3 w_graph setf]. rewrite Hg2. cbn [w1 w_graph]. by rewrite !put_put. }
  assert (owns s3 (holds w3 ++ L)) as Ho3'.
  { eapply owns_proper; [|exact Ho3]. rewrite holds_world, Hg3, owner_graph_put.
    change (holds (setf so_frames_out _ (quiet src p true))) with (holds (cached p) ++ holds (so_tracks src)).
    rewrite Hn. unfold rest, others. change (w_stream w3) with (w_stream w2). solve_Permutation. }
  assert (evolves s s3) as Hev by (by etrans).
  split_and!; [done|done| | |done|by exists p, n].
  2:{ change (w_stream w3) with (w_stream w2). by destruct Hpw as (-> & _). }
  assert (st_sources (w_stream w3) = st_sources (w_stream w) ∧ st_id (w_stream w3) = st_id (w_stream w))
    as [Hqs Hid] by (change (w_stream w3) with (w_stream w2); by destruct Hpw as (-> & _)).
  split; rewrite ?Hg3, ?Hqs, ?Hid.
  - change (w_stream w3) with (w_stream w2). eapply (program_stable s2 s3); [exact Hp2|exact Ho2|exact Ho3'|done|sub_app|].
    rewrite holds_world; sub_app.
  - apply (sources_update s s3 (holds w ++ L) (holds w3 ++ L) None (Some id) _ _ _ _ id _ Hsrc Ho Ho3' Hev).
    + rewrite holds_world; sub_app.
    + transitivity (holds (w_graph w3)); [|rewrite holds_world; sub_app].
      rewrite Hg3, owner_graph_put. sub_app.
    + intros i Hne. split; [done|congruence].
    + done.
    + intros _. destruct Hwf. split; cbn; auto; try tauto.
      * by eapply cleared_inv.
      * destruct Hcl as [-> _]. done.
      * rewrite Hn. done.
  - by apply (queue_put _ _ _ _ src).
  - done.
  - intros a [= <-]. by apply (sw_linked _ _ _ _ _ Hwf).
  - by apply (addresses_put s _ _ _ src).
Qed.

(** ** Switching *)

Lemma world_inv_put s w id src src' :
  world_inv s w → g_sources (w_graph w) !! id = Some src → so_stream src' = so_stream src →
  (source_wf s (st_active (w_stream w)) (st_sources (w_stream w)) id src →
   source_wf s (st_active (w_stream w)) (st_sources (w_stream w)) id src') →
  world_inv s (w <| w_graph := put_source (w_graph w) id src' |>).
Proof.
  intros [Hp Hsrc Hq Hnd Ha Hfr] Hs Hst Hwf. split; cbn [setf w_stream w_graph]; auto.
  - apply sources_put; [done|]. intros E. apply Hwf, (Hsrc id src); [done|congruence].
  - by apply (queue_put _ _ _ _ src).
  - by apply (addresses_put s _ _ _ src).
Qed.

Lemma demote_gate s w old osrc L :
  world_inv s w → owns s (holds w ++ L) → st_active (w_stream w) = Some old →
  g_sources (w_graph w) !! old = Some osrc →
  gate_inv s None (stream_demote w old osrc) ∧ owns s (holds (stream_demote w old osrc) ++ L).
Proof.
  intros [Hp Hsrc Hq Hnd Ha Hfr] Ho Hact Hs.
  assert (holds (stream_demote w old osrc) ≡ₚ holds w) as Hh.
  { unfold stream_demote. rewrite !holds_world. cbn [w_stream w_graph].
    apply Permutation_app; [done|by apply (put_source_holds _ _ osrc)]. }
  split; [|by rewrite Hh]. rewrite Hact in Hsrc.
  split; unfold stream_demote; cbn [w_stream w_graph program_discontinuity setf st_sources st_id]; try done.
  - eapply program_inv_ext; [by apply program_discontinuity_inv, Hp|done..].
  - apply (sources_update s s (holds w ++ L) (holds w ++ L) (Some old) None (st_sources (w_stream w)) _ _ _ old);
      auto; try reflexivity.
    + rewrite holds_world. sub_app.
    + transitivity (holds (w_graph w)); [by apply (holds_others_in _ _ osrc)|].
      rewrite holds_world. sub_app.
    + intros i Hne. split; [congruence|done].
    + intros Hst. destruct (Hsrc old osrc Hs Hst). split; cbn; auto; by split.
  - by apply (queue_put _ _ _ _ osrc).
  - by apply (addresses_put s _ _ _ osrc).
Qed.

(** The stream a switch starts writing into. *)
Definition switched (w : world) (id : N) : stream :=
  match st_active (w_stream w) with
  | Some _ => (program_discontinuity (w_stream w))
                <| st_switches := st_switches (w_stream w) ⊕ 1 |> <| st_active := Some id |>
  | None => (w_stream w) <| st_active := Some id |>
  end.

Definition old_writers (w : world) : Z :=
  match st_active (w_stream w) with
  | Some old => default 0 (so_writers <$> g_sources (w_graph w) !! old)
  | None => 0
  end.

(** The three outcomes of a switch attempt. *)
Definition switch_post (w : world) (id : N) (src : source) (r : rc * world) : Prop :=
  if decide (st_active (w_stream w) = Some id) then
    r = (NGX_OK, w <| w_graph := put_source (w_graph w) id (src <| so_pending_switch := false |>) |>)
  else if 0 <? old_writers w then r = (NGX_AGAIN, w)
  else
    r.1 = NGX_OK ∧ program_written (switched w id) (w_stream r.2) (cached (so_preroll src)).

Lemma switch_post_stream w id src r :
  0 ≤ PREROLL_UNITS → Z.of_nat (length (cached (so_preroll src))) ≤ PREROLL_UNITS →
  switch_post w id src r →
  st_id (w_stream r.2) = st_id (w_stream w) ∧ st_sources (w_stream r.2) = st_sources (w_stream w) ∧
  st_running (w_stream r.2) = st_running (w_stream w) ∧
  st_program_frames (w_stream r.2) ≤ st_program_frames (w_stream w) + PREROLL_UNITS.
Proof.
  intros H0 Hlen. unfold switch_post. case_decide.
  { intros ->. cbn. split_and!; auto. lia. }
  caseb; [intros ->; cbn; split_and!; auto; lia|].
  intros (_ & Hop & Hn & _). unfold only_program in Hop. rewrite Hn, Hop.
  unfold switched. destruct (st_active (w_stream w)); cbn; split_and!; auto; lia.
Qed.

Lemma length_cached_units s act queue id src :
  source_wf s act queue id src → Z.of_nat (length (cached (so_preroll src))) ≤ PREROLL_UNITS.
Proof.
  intros []. rewrite (length_cached _ _ sw_preroll0), <- sw_units0. apply sw_preroll0.
Qed.

Lemma wp_switch_now s w id src now L :
  world_inv s w → g_sources (w_graph w) !! id = Some src →
  so_stream src = st_id (w_stream w) → so_pending_remove src = false →
  owns s (holds w ++ L) → budget (st_program_frames (w_stream w) + PREROLL_UNITS) →
  wp (stream_switch_now w id now) (λ r s',
    evolves s s' ∧ owns s' (holds r.2 ++ L) ∧ world_inv s' r.2 ∧ switch_post w id src r) s.
Proof.
  intros Hi Hs Hst Hpr Ho Hbud. unfold stream_switch_now, switch_post, old_writers, switched.
  destruct (st_active (w_stream w)) as [old|] eqn:Hact.
  - destruct (N.eqb_spec old id) as [->|Hne].
    + apply wp_bind, (get_source_wp _ _ src); [done|]. apply wp_ret.
      rewrite decide_True by done. split_and!; [done| | |done]; cbn [snd].
      * by rewrite (holds_put_world _ _ src).
      * apply (world_inv_put _ _ _ src); auto. intros []. by split.
    + destruct (wi_queue _ _ _ Hi old) as (osrc & Hos & Host); [by apply Hi|].
      apply wp_bind, (get_source_wp _ _ osrc); [done|]. rewrite Hos.
      change (default 0 (so_writers <$> Some osrc)) with (so_writers osrc).
      destruct (Z.ltb_spec 0 (so_writers osrc)).
      { apply wp_ret. by rewrite decide_False by congruence. }
      destruct (demote_gate s w old osrc L Hi Ho Hact Hos) as [Hg Hog].
      apply wp_bind. eapply wp_mono; [apply (wp_stream_activate s _ id src now L Hg); auto|].
      { unfold stream_demote, put_source. cbn. by rewrite lookup_insert_ne. }
      intros w' s' (Hev & Ho' & Hg' & Ha' & Hpw & _). apply wp_ret. cbn [fst snd].
      rewrite decide_False by congruence.
      split_and!; [done|done| |done|exact Hpw]. unfold world_inv. by rewrite Ha'.
  - apply wp_bind. unfold world_inv in Hi. rewrite Hact in Hi.
    eapply wp_mono; [apply (wp_stream_activate s _ id src now L Hi); auto|].
    intros w' s' (Hev & Ho' & Hg' & Ha' & Hpw & _). apply wp_ret. cbn [fst snd].
    rewrite decide_False by done. change (0 <? 0) with false. cbv iota.
    split_and!; [done|done| |done|exact Hpw]. unfold world_inv. by rewrite Ha'.
Qed.

Lemma queue_source s w q :
  world_inv s w → q ∈ st_sources (w_stream w) →
  ∃ src, g_sources (w_graph w) !! q = Some src ∧ so_stream src = st_id (w_stream w) ∧
    so_pending_remove src = false ∧
    source_wf s (st_active (w_stream w)) (st_sources (w_stream w)) q src.
Proof.
  intros Hi Hq. destruct (wi_queue _ _ _ Hi q Hq) as (src & Hs & Hst).
  pose proof (wi_sources _ _ _ Hi q src Hs Hst) as Hwf.
  exists src. split_and!; auto. by apply (sw_linked _ _ _ _ _ Hwf).
Qed.

(** What resolving and publishing keep of a stream. *)
Definition same_stream (st st' : stream) : Prop :=
  st_id st' = st_id st ∧ st_sources st' = st_sources st ∧ st_running st' = st_running st.

Lemma wp_resolve_loop queue s w L :
  world_inv s w → queue ⊆ st_sources (w_stream w) → owns s (holds w ++ L) →
  budget (st_program_frames (w_stream w) + Z.of_nat (length queue) * PREROLL_UNITS) →
  wp (resolve_loop w queue) (λ w' s', evolves s s' ∧ owns s' (holds w' ++ L) ∧
    world_inv s' w' ∧ same_stream (w_stream w) (w_stream w')) s.
Proof.
  revert s w. induction queue as [|q queue IH]; intros s w Hi Hq Ho Hbud; cbn [resolve_loop].
  { apply wp_ret. by split_and!. }
  cbn [length] in Hbud. assert (0 ≤ PREROLL_UNITS) as HU by done.
  destruct (queue_source s w q Hi) as (src & Hs & Hst & Hpr & Hwf); [set_solver|].
  apply wp_bind, (get_source_wp _ _ src); [done|]. destruct (wants_switch src).
  - apply wp_bind. eapply wp_mono; [apply (wp_switch_now s w q src); eauto|].
    { eapply budget_mono; [exact Hbud|]. nia. }
    intros r s1 (Hev1 & Ho1 & Hi1 & Hsw).
    destruct (switch_post_stream _ _ _ _ HU (length_cached_units _ _ _ _ _ Hwf) Hsw)
      as (Hid & Hqs & Hrun & Hfr).
    eapply wp_mono; [apply (IH s1 r.2); auto|].
    { rewrite Hqs. set_solver. } { eapply budget_mono; [exact Hbud|]. lia. }
    intros w' s' (Hev & Ho' & Hi' & Hid' & Hqs' & Hrun').
    split_and!; [by etrans|done|done|split_and!; congruence].
  - apply IH; auto; [set_solver|]. eapply budget_mono; [exact Hbud|]. lia.
Qed.

(** Frames an operation may write at most: its own and one cache per source. *)
Definition room (w : world) : Prop :=
  budget (st_program_frames (w_stream w) + 1
          + Z.of_nat (length (st_sources (w_stream w))) * PREROLL_UNITS + PREROLL_UNITS).

(** Whether the gate refuses an operation of a source. *)
Definition refused (w : world) (src : source) : bool :=
  negb (N.eqb (so_stream src) (st_id (w_stream w))) || negb (st_running (w_stream w))
  || so_pending_remove src.

Lemma refused_false w src :
  refused w src = false →
  so_stream src = st_id (w_stream w) ∧ st_running (w_stream w) = true ∧
  so_pending_remove src = false.
Proof.
  unfold refused. intros [[H1 H2]%orb_false_iff H3]%orb_false_iff.
  apply negb_false_iff in H1, H2. by apply N.eqb_eq in H1.
Qed.

(** The world once a promotion is pending. *)
Definition pending (w : world) (id : N) (src : source) : world :=
  w <| w_graph := put_source (w_graph w) id
         (src <| so_pending_switch := true |> <| so_state := AWAITING_SYNC |>) |>.

(** What a promotion reports and does to the stream. *)
Definition promote_post (w : world) (id : N) (src : source) (r : rc * world) : Prop :=
  if refused w src then r = (NGX_ERROR, w)
  else if decide (st_active (w_stream w) = Some id) then
    r.1 = NGX_OK ∧ w_stream r.2 = w_stream w
  else if preroll_ready (so_preroll src) then
    switch_post (pending w id src) id
      (src <| so_pending_switch := true |> <| so_state := AWAITING_SYNC |>) r
  else r.1 = NGX_OK ∧ w_stream r.2 = w_stream w.

Lemma wp_stream_promote s w id src L :
  world_inv s w → g_sources (w_graph w) !! id = Some src → owns s (holds w ++ L) → room w →
  wp (stream_promote w id) (λ r s',
    evolves s s' ∧ owns s' (holds r.2 ++ L) ∧ world_inv s' r.2 ∧
    same_stream (w_stream w) (w_stream r.2) ∧ promote_post w id src r) s.
Proof.
  intros Hi Hs Ho Hroom. unfold stream_promote, promote_post.
  apply wp_bind, (get_source_wp _ _ src); [done|]. fold (refused w src).
  destruct (refused w src) eqn:Hrf; [by apply wp_ret|].
  destruct (refused_false _ _ Hrf) as (Hst & Hrun & Hpr).
  destruct (decide (st_active (w_stream w) = Some id)) as [Ha|Hna];
    [rewrite (bool_decide_true _ Ha)|rewrite (bool_decide_false _ Hna)].
  { apply wp_ret. cbn [snd]. split_and!; try done.
    - by rewrite (holds_put_world _ _ src).
    - apply (world_inv_put _ _ _ src); auto. intros []. by split. }
  fold (pending w id src). set (src1 := setf so_state _ _).
  set (w1 := pending w id src).
  assert (world_inv s w1) as Hi1.
  { apply (world_inv_put _ _ _ src); auto. intros []. split; auto. cbn. by split. }
  assert (owns s (holds w1 ++ L)) as Ho1 by (by unfold w1, pending; rewrite (holds_put_world _ _ src)).
  pose proof (wi_sources _ _ _ Hi1 id src1 (put_lookup _ _ _) Hst) as Hwf.
  change (so_preroll src1) with (so_preroll src). destruct (preroll_ready (so_preroll src)).
  - eapply wp_mono; [apply (wp_switch_now s w1 id src1 _ L Hi1 (put_lookup _ _ _) Hst Hpr Ho1)|].
    { eapply budget_mono; [exact Hroom|]. cbn. unfold PREROLL_UNITS. lia. }
    intros r s1 (Hev1 & Ho1' & Hi1' & Hsw).
    destruct (switch_post_stream _ _ _ _ ltac:(done) (length_cached_units _ _ _ _ _ Hwf) Hsw)
      as (Hid & Hqs & Hrun' & _). by split_and!.
  - apply wp_ret. by split_and!.
Qed.

(** ** Publishing *)

(** The active source's half of a publish, before pending switches are resolved. *)
Lemma wp_publish_active s w id src f now L :
  world_inv s w → g_sources (w_graph w) !! id = Some src →
  so_stream src = st_id (w_stream w) → st_running (w_stream w) = true →
  so_pending_remove src = false → owns s (holds w ++ L) → holds f ⊆ L → frame_bound f →
  budget (st_program_frames (w_stream w)) →
  wp (stream_publish_active w id f now) (λ r s',
    r.1 = NGX_OK ∧ evolves s s' ∧ owns s' (holds r.2 ++ L) ∧ world_inv s' r.2 ∧
    program_written (w_stream w) (w_stream r.2) [f]) s.
Proof.
  intros Hi Hs Hst Hrun Hpr Ho Hf Hb Hbud. pose proof Hi as [Hp Hsrc Hq Hnd Ha Hfr].
  pose proof (Hsrc id src Hs Hst) as Hwf.
  pose proof (sw_refs _ _ _ _ _ Hwf) as Hrefs. rewrite Hpr in Hrefs.
  pose proof (sw_writers _ _ _ _ _ Hwf) as Hwr.
  apply wp_bind. eapply wp_eq; [apply (stream_lease_begin_run _ _ src); auto; lia|].
  set (src2 := setf so_references _ _). set (w2 := setf w_graph _ w). cbn [snd].
  assert (holds w2 ≡ₚ holds w) as Hh2 by by apply (holds_put_world _ _ src).
  apply wp_bind. eapply wp_mono; [apply (wp_write_program s w2 id src2 f now L); auto|].
  { apply put_lookup. } { by rewrite Hh2. } { set_solver. }
  intros [rc w3] s3 (Hrc & Hev & Ho3 & Hp3 & Hpw & n & Hg3). cbn [fst snd] in *. subst rc.
  change (w_graph w2) with (put_source (w_graph w) id src2) in Hg3. rewrite put_put in Hg3.
  set (src3 := src2 <| so_frames_out := n |>) in *.
  assert (g_sources (w_graph w3) !! id = Some src3) as Hs3 by (rewrite Hg3; apply put_lookup).
  apply wp_bind. eapply wp_eq; [apply (stream_lease_end_run _ _ src3 _ Hs3); cbn; lia|].
  apply wp_ret. set (src4 := setf so_references _ _). set (w4 := setf w_graph _ w3). cbn [fst snd].
  assert (owns s3 (holds w4 ++ L)) as Ho4 by (unfold w4; by rewrite (holds_put_world _ _ src3)).
  assert (w_graph w4 = put_source (w_graph w) id src4) as Hg4.
  { cbn [w4 w_graph setf]. rewrite Hg3. apply put_put. }
  assert (st_sources (w_stream w4) = st_sources (w_stream w) ∧ st_id (w_stream w4) = st_id (w_stream w)
    ∧ st_active (w_stream w4) = st_active (w_stream w)) as (Hqs & Hid & Hact).
  { change (w_stream w4) with (w_stream w3). by destruct Hpw as (-> & _). }
  split_and!; [done|done|done| |exact Hpw].
  unfold world_inv. rewrite Hact. split; rewrite ?Hqs, ?Hid, ?Hg4; auto.
  - apply (sources_update s s3 (holds w ++ L) (holds w4 ++ L) (st_active (w_stream w)) _
      (st_sources (w_stream w)) _ _ _ id _ Hsrc Ho Ho4 Hev); try done.
    + rewrite holds_world. sub_app.
    + rewrite holds_world, Hg4, owner_graph_put. sub_app.
    + intros _. assert (source_wf s3 (st_active (w_stream w)) (st_sources (w_stream w)) id src) as Hwf'.
      { pose proof (holds_source_in _ _ _ Hs).
        apply (source_wf_stable s s3 (holds w ++ L) (holds w4 ++ L) _ _ _ _ Hwf Ho Ho4 Hev);
          rewrite holds_world; [set_solver|]. rewrite Hg4, owner_graph_put. sub_app. }
      destruct Hwf'. split; auto; cbn; rewrite ?Hpr; lia.
  - by apply (queue_put _ _ _ _ src).
  - by apply (addresses_put s _ _ _ src).
Qed.

Lemma world_update s s' w id src src' L :
  world_inv s w → g_sources (w_graph w) !! id = Some src → so_stream src' = so_stream src →
  let w' := w <| w_graph := put_source (w_graph w) id src' |> in
  owns s (holds w ++ L) → owns s' (holds w' ++ L) → evolves s s' →
  (source_wf s (st_active (w_stream w)) (st_sources (w_stream w)) id src →
   source_wf s' (st_active (w_stream w)) (st_sources (w_stream w)) id src') →
  world_inv s' w'.
Proof.
  intros [Hp Hsrc Hq Hnd Ha Hfr] Hs Hst w' Ho Ho' Hev Hwf. split; auto.
  - eapply (program_stable s s'); [exact Hp|exact Ho|exact Ho'|done|rewrite holds_world; sub_app..].
  - apply (sources_update s s' (holds w ++ L) (holds w' ++ L) (st_active (w_stream w)) _
      (st_sources (w_stream w)) _ _ _ id _ Hsrc Ho Ho' Hev); try done.
    + rewrite holds_world. sub_app.
    + rewrite holds_world. cbn [w' setf w_graph]. rewrite owner_graph_put. sub_app.
    + intros E. apply Hwf, (Hsrc id src Hs). change (st_id (w_stream w')) with (st_id (w_stream w)) in E.
      congruence.
  - by apply (queue_put _ _ _ _ src).
  - by apply (addresses_put s _ _ _ src).
Qed.

(** What a publish reports and does to the stream. *)
Definition publish_post (w : world) (src : source) (f : frame) (r : rc * world) : Prop :=
  if refused w src then r = (NGX_ERROR, w)
  else if so_state src =? ACTIVE then
    r.1 = NGX_OK ∧ ∃ w1, program_written (w_stream w) w1 [f] ∧ same_stream w1 (w_stream r.2)
  else if (so_state src =? AWAITING_SYNC) && keyframe f then
    r.1 = NGX_OK ∨ (r.1 = NGX_AGAIN ∧ w_stream r.2 = w_stream w)
  else r.1 = NGX_OK ∧ w_stream r.2 = w_stream w.

Lemma wp_stream_publish s w id src f now L :
  world_inv s w → g_sources (w_graph w) !! id = Some src → owns s (holds w ++ L) →
  holds f ⊆ L → frame_bound f → room w →
  wp (stream_publish w id f now) (λ r s',
    evolves s s' ∧ owns s' (holds r.2 ++ L) ∧ world_inv s' r.2 ∧
    same_stream (w_stream w) (w_stream r.2) ∧ publish_post w src f r) s.
Proof.
  intros Hi Hs Ho Hf Hb Hroom. unfold stream_publish, publish_post.
  apply wp_bind, (get_source_wp _ _ src); [done|]. fold (refused w src).
  destruct (refused w src) eqn:Hrf; [by apply wp_ret|].
  destruct (refused_false _ _ Hrf) as (Hst & Hrun & Hpr).
  apply wp_bind. eapply wp_mono; [apply (wp_buf_size _ _ _ Ho)|].
  { transitivity L; [exact Hf|sub_app]. }
  intros len _ [-> ->]. set (src1 := setf so_last_media _ _). set (w1 := setf w_graph _ w).
  assert (world_inv s w1) as Hi1.
  { apply (world_inv_put _ _ _ src); auto. intros []. by split. }
  assert (owns s (holds w1 ++ L)) as Ho1 by (by unfold w1; rewrite (holds_put_world _ _ src)).
  change (so_state src1) with (so_state src).
  destruct (Z.eqb_spec (so_state src) ACTIVE) as [Hact|Hact].
  - apply wp_bind.
    eapply wp_mono; [apply (wp_publish_active s w1 id src1 f now L Hi1 (put_lookup _ _ _) Hst Hrun Hpr Ho1 Hf Hb)|].
    { eapply budget_mono; [exact Hroom|]. cbn. unfold PREROLL_UNITS. lia. }
    intros [rc w2] s2 (Hrc & Hev2 & Ho2 & Hi2 & Hpw). cbn [fst snd] in *. subst rc.
    assert (same_stream (w_stream w) (w_stream w2) ∧
      st_program_frames (w_stream w2) = st_program_frames (w_stream w) + 1) as [Hss Hfr].
    { destruct Hpw as (Hop & -> & _). split; [|done]. unfold only_program in Hop.
      rewrite Hop. by split_and!. }
    apply wp_bind. unfold stream_switch_resolve.
    eapply wp_mono; [apply (wp_resolve_loop _ s2 w2 L Hi2 ltac:(done) Ho2)|].
    { eapply budget_mono; [exact Hroom|]. destruct Hss as (_ & -> & _).
      unfold PREROLL_UNITS. lia. }
    intros w3 s3 (Hev3 & Ho3 & Hi3 & Hss3). apply wp_ret. cbn [fst snd].
    split_and!; [by etrans|done|done| |done|by exists (w_stream w2)].
    unfold same_stream in *. intuition congruence.
  - apply wp_bind. pose proof (wi_sources _ _ _ Hi1 id src1 (put_lookup _ _ _) Hst) as Hwf.
    eapply wp_mono.
    { apply (wp_preroll_push (so_has_video src) s (so_preroll src) f
        (holds (st_feed (w_stream w)) ++ holds (so_tracks src) ++ holds (others (w_graph w) id) ++ L)).
      - apply Hwf.
      - eapply owns_proper; [|exact Ho]. rewrite holds_world, (owner_graph_lookup _ _ _ Hs).
        change (holds src) with (holds (so_preroll src) ++ holds (so_tracks src)).
        unfold others. solve_Permutation.
      - transitivity L; [exact Hf|sub_app]. }
    intros [rc p] s2 (Hpi & Ho2 & Hev2 & Hpp). cbn [fst snd] in *.
    set (src2 := src1 <| so_preroll := p |>).
    change (setf w_graph _ w1) with (w1 <| w_graph := put_source (w_graph w1) id src2 |>).
    set (w2 := setf w_graph _ w1).
    assert (owns s2 (holds w2 ++ L)) as Ho2'.
    { eapply owns_proper; [|exact Ho2]. rewrite holds_world. change (w_stream w2) with (w_stream w).
      assert (w_graph w2 = put_source (w_graph w) id src2) as -> by apply put_put.
      rewrite owner_graph_put. change (holds src2) with (holds p ++ holds (so_tracks src)).
      unfold others. solve_Permutation. }
    assert (world_inv s2 w2) as Hi2.
    { apply (world_update s s2 w1 id src1 src2 L Hi1 (put_lookup _ _ _)); auto.
      intros []. split; auto.
      - destruct Hpp as (_ & Hmu & _). etrans; [exact Hmu|done].
      - by apply (push_post_Forall _ _ _ _ _ _ Hpp). }
    change (so_state src2) with (so_state src).
    destruct ((so_state src =? AWAITING_SYNC) && keyframe f) eqn:Haw; [|by apply wp_ret; split_and!].
    pose proof (wi_sources _ _ _ Hi2 id src2 (put_lookup _ _ _) Hst) as Hwf2.
    eapply wp_mono; [apply (wp_switch_now s2 w2 id src2 now L Hi2 (put_lookup _ _ _) Hst Hpr Ho2')|].
    { eapply budget_mono; [exact Hroom|]. cbn. unfold PREROLL_UNITS. lia. }
    intros r s3 (Hev3 & Ho3 & Hi3 & Hsw).
    destruct (switch_post_stream _ _ _ _ ltac:(done) (length_cached_units _ _ _ _ _ Hwf2) Hsw)
      as (Hid & Hqs & Hrn & _).
    split_and!; [by etrans|done|done|by split_and!|].
    unfold switch_post in Hsw. case_decide; [subst; by left|].
    caseb_in Hsw; [subst; by right|left; apply Hsw].
Qed.
End invariants.
