(* ===== verification/Selector.v ===== *)
(** * Source selection

    Models core/ngx_media_selector.[ch]: the pass over a stream's sources that refreshes
    their health and compatibility and picks the candidates, the automatic failover and
    switchback decision, and the operator's explicit switchback.  The sources come from
    Stream.v's world and every change goes through its promotion path. *)
From S2P Require Import Prelude Ring Store Feed Timeline Health Policy Compat Source Stream.

Record selector_result := mk_result {
  sr_best : option N; sr_emergency : option N; sr_eligible : Z; sr_active_eligible : bool }.
#[global] Instance eta_result : Eta selector_result := λ r,
  mk_result (sr_best r) (sr_emergency r) (sr_eligible r) (sr_active_eligible r).

Definition result_init : selector_result := mk_result None None 0 true.

(** One source's health and compatibility with the program, refreshed. *)
Definition source_refresh (program : option trackset) (active : bool) (now : Z)
    (src : source) : source :=
  let src := src <| so_health := health_evaluate (so_health src) now |> in
  let src := src <| so_compat := compat_classify program (so_tracks src) |> in
  src <| so_health := health_tracks (so_health src)
                        (negb (so_compat src =? INCOMPATIBLE) || active) |>.

(** [cand == NULL || source->priority > cand->priority] *)
Definition outranks (g : graph) (src : source) (cand : option N) : M bool :=
  match cand with
  | None => mret true
  | Some c => csrc ← get_source g c; mret (so_priority csrc <? so_priority src)
  end.

(** The candidate half of the loop's body, for a refreshed source that is not active. *)
Definition consider (g : graph) (q : N) (src : source) (out : selector_result)
    : M selector_result :=
  if negb (so_enabled src) then mret out
  else if negb (h_eligible (so_health src)) then mret out
  else
    let out := out <| sr_eligible := sr_eligible out ⊕ 1 |> in
    if so_compat src =? INCOMPATIBLE then
      b ← outranks g src (sr_emergency out);
      mret (if b : bool then out <| sr_emergency := Some q |> else out)
    else
      b ← outranks g src (sr_best out);
      mret (if b : bool then out <| sr_best := Some q |> else out).

Fixpoint evaluate_loop (act : option N) (program : option trackset) (now : Z) (g : graph)
    (queue : list N) (out : selector_result) : M (graph * selector_result) :=
  match queue with
  | [] => mret (g, out)
  | q :: queue =>
      src ← get_source g q;
      let is_active := bool_decide (act = Some q) in
      let src := source_refresh program is_active now src in
      let g := put_source g q src in
      if is_active then
        evaluate_loop act program now g queue
          (out <| sr_active_eligible := h_eligible (so_health src) |>)
      else out ← consider g q src out; evaluate_loop act program now g queue out
  end.

(** The tracks of the active source are the program's. *)
Definition program_tracks (w : world) : M (option trackset) :=
  match st_active (w_stream w) with
  | None => mret None
  | Some a => src ← get_source (w_graph w) a; mret (so_tracks src)
  end.

Definition selector_evaluate (w : world) (now : Z) : M (world * selector_result) :=
  program ← program_tracks w;
  r ← evaluate_loop (st_active (w_stream w)) program now (w_graph w)
        (st_sources (w_stream w)) result_init;
  mret (w <| w_graph := r.1 |>, r.2).

(** Promote the best candidate, or the emergency one and count it. *)
Definition selector_promote (w : world) (res : selector_result) : M (rc * world) :=
  match sr_best res, sr_emergency res with
  | Some b, _ => stream_promote w b
  | None, Some e =>
      stream_promote (w <| w_stream := (w_stream w)
        <| st_emergency_switches := st_emergency_switches (w_stream w) ⊕ 1 |> |>) e
  | None, None => mret (NGX_OK, w)
  end.

Definition selector_run (w : world) (now : Z) : M (rc * world * selector_result) :=
  e ← selector_evaluate w now;
  let '(w, res) := e in
  match st_active (w_stream w) with
  | None => r ← selector_promote w res; mret (r, res)
  | Some a =>
      if sr_active_eligible res then
        match sr_best res with
        | Some b =>
            bsrc ← get_source (w_graph w) b;
            asrc ← get_source (w_graph w) a;
            if (so_priority asrc <? so_priority bsrc)
               && (sel_switchback (st_selector (w_stream w)) =? SWITCHBACK_AUTO)
            then r ← stream_promote w b; mret (r, res)
            else mret (NGX_OK, w, res)
        | None => mret (NGX_OK, w, res)
        end
      else r ← selector_promote w res; mret (r, res)
  end.

Definition selector_switchback (w : world) (now : Z) : M (rc * world) :=
  if sel_switchback (st_selector (w_stream w)) =? SWITCHBACK_NEVER then mret (NGX_DECLINED, w)
  else
    e ← selector_evaluate w now;
    let '(w, res) := e in
    match sr_best res, st_active (w_stream w) with
    | None, _ => mret (NGX_DECLINED, w)
    | Some b, None => stream_promote w b
    | Some b, Some a =>
        bsrc ← get_source (w_graph w) b;
        asrc ← get_source (w_graph w) a;
        if so_priority bsrc <=? so_priority asrc then mret (NGX_DECLINED, w)
        else stream_promote w b
    end.

(** ** Reference: the candidates of a list of sources *)

Definition candidate (act : option N) (incompatible : bool) (x : N * source) : bool :=
  negb (bool_decide (act = Some x.1)) && so_enabled x.2 && h_eligible (so_health x.2)
  && Bool.eqb (so_compat x.2 =? INCOMPATIBLE) incompatible.

(** The first source of highest priority. *)
Definition winner (l : list (N * source)) (b : option N) : Prop :=
  match b with
  | None => l = []
  | Some b => ∃ pre src post, l = pre ++ (b, src) :: post ∧
      Forall (λ x, so_priority x.2 < so_priority src) pre ∧
      Forall (λ x, so_priority x.2 ≤ so_priority src) post
  end.

Definition candidates (act : option N) (incompatible : bool) (l : list (N * source)) :=
  List.filter (candidate act incompatible) l.

(** The verdict on the sources [l], in queue order. *)
Definition verdict (act : option N) (l : list (N * source)) (out : selector_result) : Prop :=
  winner (candidates act false l) (sr_best out) ∧
  winner (candidates act true l) (sr_emergency out) ∧
  sr_eligible out = u64 (Z.of_nat (length (candidates act false l) + length (candidates act true l))) ∧
  sr_active_eligible out = forallb (λ x, h_eligible (so_health x.2))
    (List.filter (λ x, bool_decide (act = Some x.1)) l).

(** ** The pass computes the reference *)

Lemma wp_outranks g src l b s :
  (∀ q x, (q, x) ∈ l → g_sources g !! q = Some x) → winner l b →
  wp (outranks g src b) (λ r s', s' = s ∧ ∀ q, winner (l ++ [(q, src)]) (if r then Some q else b)) s.
Proof.
  intros Hl Hw. destruct b as [c|]; cbn [outranks].
  - destruct Hw as (pre & csrc & post & -> & Hpre & Hpost).
    apply wp_bind, (get_source_wp _ _ csrc); [apply Hl; set_solver|].
    apply wp_ret. split; [done|]. intros q.
    destruct (Z.ltb_spec (so_priority csrc) (so_priority src)) as [Hlt|Hge].
    + exists (pre ++ (c, csrc) :: post), src, []. split_and!; [done| |done].
      apply Forall_app. split; [|constructor; [done|]]; (eapply Forall_impl; [done|]); simpl; lia.
    + exists pre, csrc, (post ++ [(q, src)]). split_and!; [by rewrite <- app_assoc|done|].
      apply Forall_app. split; [done|]. by repeat constructor.
  - apply wp_ret. split; [done|]. intros q. unfold winner in Hw. subst l. by exists [], src, [].
Qed.

Lemma candidates_snoc act inc l x :
  candidates act inc (l ++ [x])
  = candidates act inc l ++ (if candidate act inc x then [x] else []).
Proof. unfold candidates. rewrite List.filter_app. cbn. by destruct (candidate act inc x). Qed.

Lemma candidates_in act inc l x : x ∈ candidates act inc l → x ∈ l.
Proof. unfold candidates. rewrite !list_elem_of_In, List.filter_In. tauto. Qed.

Lemma candidate_other act inc q src :
  act ≠ Some q → candidate act inc (q, src)
  = so_enabled src && h_eligible (so_health src) && Bool.eqb (so_compat src =? INCOMPATIBLE) inc.
Proof. intros. unfold candidate. cbn [fst snd]. by rewrite bool_decide_false. Qed.

(** Considering one more source that is not the active one. *)
Lemma wp_consider act g q src l out s :
  (∀ i x, (i, x) ∈ l → g_sources g !! i = Some x) → verdict act l out → act ≠ Some q →
  wp (consider g q src out) (λ out' s', s' = s ∧ verdict act (l ++ [(q, src)]) out') s.
Proof.
  intros Hl (Hb & He & Hn & Ha) Hq. unfold consider, verdict.
  assert (∀ inc i x, (i, x) ∈ candidates act inc l → g_sources g !! i = Some x) as Hc.
  { intros inc i x Hin. by eapply Hl, candidates_in. }
  rewrite List.filter_app. cbn [List.filter fst]. rewrite (bool_decide_false (act = Some q)) by done.
  rewrite app_nil_r, !candidates_snoc, !candidate_other by done.
  destruct (so_enabled src); cbn [negb andb]; [|apply wp_ret; rewrite !app_nil_r; by split_and!].
  destruct (h_eligible (so_health src)); cbn [negb andb]; [|apply wp_ret; rewrite !app_nil_r; by split_and!].
  destruct (so_compat src =? INCOMPATIBLE); cbn [Bool.eqb]; rewrite !app_nil_r; apply wp_bind;
    (eapply wp_mono; [eapply wp_outranks; [by apply Hc|done]|]);
    intros r _ [-> Hw]; apply wp_ret; (split; [done|]); destruct r; cbn; split_and!; auto;
    (exact (Hw q) || (rewrite Hn, u64_add_l; f_equal; rewrite length_app; cbn; lia)).
Qed.

Lemma consider_active act q src l out :
  act = Some q → q ∉ l.*1 → verdict act l out →
  verdict act (l ++ [(q, src)]) (out <| sr_active_eligible := h_eligible (so_health src) |>).
Proof.
  intros Hq Hno (Hb & He & Hn & _). unfold verdict.
  assert (∀ inc, candidate act inc (q, src) = false) as Hc.
  { intros inc. unfold candidate. cbn [fst]. by rewrite bool_decide_true. }
  rewrite !candidates_snoc, !Hc, !app_nil_r. split_and!; [done|done|exact Hn|].
  rewrite List.filter_app. cbn [List.filter fst]. rewrite bool_decide_true by done.
  cut (List.filter (λ x : N * source, bool_decide (act = Some x.1)) l = []);
    [intros ->; cbn; by rewrite andb_true_r|].
  clear -Hno Hq. induction l as [|x l IH]; [done|]. cbn in *. apply not_elem_of_cons in Hno as [Hne Hno].
  rewrite bool_decide_false by congruence. by apply IH.
Qed.

(** The sources of [queue], refreshed. *)
Definition refreshed (act : option N) (program : option trackset) (now : Z) (g : graph)
    (l : list (N * source)) : Prop :=
  Forall (λ x, ∃ src, g_sources g !! x.1 = Some src ∧
    x.2 = source_refresh program (bool_decide (act = Some x.1)) now src) l.

Lemma wp_evaluate_loop (P : graph → Prop) act program now s queue :
  (∀ g q src a, P g → g_sources g !! q = Some src →
     P (put_source g q (source_refresh program a now src))) →
  ∀ g l out, P g →
  NoDup (l.*1 ++ queue) → (∀ q, q ∈ queue → is_Some (g_sources g !! q)) →
  (∀ q x, (q, x) ∈ l → g_sources g !! q = Some x) → verdict act l out →
  wp (evaluate_loop act program now g queue out) (λ r s', s' = s ∧ P r.1 ∧ ∃ rest,
    rest.*1 = queue ∧ refreshed act program now g rest ∧ verdict act (l ++ rest) r.2 ∧
    (∀ q x, (q, x) ∈ l ++ rest → g_sources r.1 !! q = Some x) ∧
    (∀ i, i ∉ queue → g_sources r.1 !! i = g_sources g !! i)) s.
Proof.
  intros HP. induction queue as [|q queue IH]; intros g l out Hg Hnd Hq Hl Hv; cbn [evaluate_loop].
  { apply wp_ret. split; [done|]. split; [done|]. exists []. rewrite app_nil_r. split_and!; auto. constructor. }
  destruct (Hq q) as [src Hs]; [set_solver|]. apply wp_bind, (get_source_wp _ _ src); [done|].
  set (src' := source_refresh _ _ _ _). set (g' := put_source g q src').
  pose proof Hnd as (Hndl & Hdis & Hndq)%NoDup_app. apply NoDup_cons in Hndq as [Hnq Hndq].
  assert (q ∉ l.*1) as Hql by (intros ?; eapply Hdis; [done|set_solver]).
  assert (∀ i, i ≠ q → g_sources g' !! i = g_sources g !! i) as Hoth.
  { intros i Hi. unfold g', put_source. cbn. by rewrite lookup_insert_ne. }
  assert (∀ i x, (i, x) ∈ l ++ [(q, src')] → g_sources g' !! i = Some x) as Hl'.
  { intros i x [Hin|Hin%list_elem_of_singleton]%elem_of_app; [|injection Hin as -> ->; apply put_lookup].
    rewrite Hoth; [by apply Hl|]. intros ->. apply Hql, list_elem_of_fmap. by exists (q, x). }
  assert (∀ out', verdict act (l ++ [(q, src')]) out' →
    wp (evaluate_loop act program now g' queue out') (λ r s', s' = s ∧ P r.1 ∧ ∃ rest,
      rest.*1 = q :: queue ∧ refreshed act program now g rest ∧ verdict act (l ++ rest) r.2 ∧
      (∀ q x, (q, x) ∈ l ++ rest → g_sources r.1 !! q = Some x) ∧
      (∀ i, i ∉ q :: queue → g_sources r.1 !! i = g_sources g !! i)) s) as Hnext.
  { intros out' Hv'. eapply wp_mono; [apply (IH g' (l ++ [(q, src')]) out')|].
    - by apply HP.
    - rewrite fmap_app. cbn. by rewrite <- app_assoc.
    - intros i Hi. rewrite Hoth by (intros ->; done). apply Hq. set_solver.
    - done.
    - done.
    - intros [g2 out2] _ (-> & HP2 & rest & Hr1 & Hr2 & Hr3 & Hr4 & Hr5). do 2 (split; [done|]).
      exists ((q, src') :: rest). rewrite <- app_assoc in Hr3, Hr4.
      split_and!; [cbn; by rewrite Hr1| |done|done|].
      + constructor; [by exists src|]. unfold refreshed in *. rewrite Forall_forall in *.
        intros x Hx. destruct (Hr2 x Hx) as (y & Hy & ->). exists y. split; [|done].
        rewrite <- Hy. symmetry. apply Hoth. intros E. apply Hnq. rewrite <- Hr1, <- E.
        apply list_elem_of_fmap. by exists x.
      + intros i Hi. apply not_elem_of_cons in Hi as [Hne Hi]. by rewrite Hr5, Hoth. }
  destruct (bool_decide_reflect (act = Some q)) as [Ha|Ha].
  - apply Hnext. by apply consider_active.
  - apply wp_bind. eapply wp_mono; [by apply (wp_consider act g' q src' l out s); [intros; apply Hl'; set_solver|..]|].
    intros out' _ [-> Hv']. by apply Hnext.
Qed.

(** What a pass leaves: the stream untouched, its sources refreshed and judged. *)
Definition evaluated (w : world) (now : Z) (r : world * selector_result) : Prop :=
  w_stream r.1 = w_stream w ∧
  ∃ l program, l.*1 = st_sources (w_stream w) ∧ program_tracks w = mret program ∧
    refreshed (st_active (w_stream w)) program now (w_graph w) l ∧
    verdict (st_active (w_stream w)) l r.2 ∧
    (∀ q x, (q, x) ∈ l → g_sources (w_graph r.1) !! q = Some x) ∧
    (∀ i, i ∉ st_sources (w_stream w) →
       g_sources (w_graph r.1) !! i = g_sources (w_graph w) !! i).

Lemma winner_in act inc l b : winner (candidates act inc l) (Some b) → b ∈ l.*1.
Proof.
  intros (pre & src & post & Heq & _). apply list_elem_of_fmap. exists (b, src). split; [done|].
  apply (candidates_in act inc). rewrite Heq. set_solver.
Qed.

(** The source to promote after a pass, and whether that is an emergency. *)
Definition fallback (res : selector_result) : option (N * bool) :=
  match sr_best res with
  | Some b => Some (b, false)
  | None => (λ e, (e, true)) <$> sr_emergency res
  end.

Definition priority_of (w : world) (id : N) : Z :=
  default 0 (so_priority <$> g_sources (w_graph w) !! id).

Definition target (w : world) (res : selector_result) : option (N * bool) :=
  match st_active (w_stream w) with
  | None => fallback res
  | Some a =>
      if sr_active_eligible res then
        match sr_best res with
        | Some b =>
            if (priority_of w a <? priority_of w b)
               && (sel_switchback (st_selector (w_stream w)) =? SWITCHBACK_AUTO)
            then Some (b, false) else None
        | None => None
        end
      else fallback res
  end.

Definition count_emergency (w : world) (e : bool) : world :=
  if e then w <| w_stream := (w_stream w)
    <| st_emergency_switches := st_emergency_switches (w_stream w) ⊕ 1 |> |> else w.

Section selector.
Context (B : Z) (HB : 0 ≤ B).
#[local] Abbreviation world_inv := (world_inv B).

Lemma world_refresh s w g q src program a now L :
  world_inv s (w <| w_graph := g |>) ∧ owns s (holds (w <| w_graph := g |>) ++ L) →
  g_sources g !! q = Some src →
  let g' := put_source g q (source_refresh program a now src) in
  world_inv s (w <| w_graph := g' |>) ∧ owns s (holds (w <| w_graph := g' |>) ++ L).
Proof.
  intros [Hi Ho] Hs g'. set (w0 := w <| w_graph := g |>) in *.
  change g' with (put_source (w_graph w0) q (source_refresh program a now src)).
  change (w <| w_graph := ?x |>) with (w0 <| w_graph := x |>). split.
  - apply (world_inv_put B s w0 q src); auto. intros []. by split.
  - eapply owns_proper; [|exact Ho]. by rewrite (holds_put_world w0 q src).
Qed.

Lemma wp_selector_evaluate s w now L :
  world_inv s w → owns s (holds w ++ L) →
  wp (selector_evaluate w now) (λ r s', s' = s ∧ world_inv s r.1 ∧ owns s (holds r.1 ++ L) ∧
    evaluated w now r) s.
Proof.
  intros Hi Ho. assert (∃ program, program_tracks w = mret program) as [program Hp].
  { unfold program_tracks. destruct (st_active (w_stream w)) as [a|] eqn:Ha; [|by eexists].
    destruct (wi_queue _ _ _ _ Hi a) as (src & Hs & _); [by apply (wi_active _ _ _ _ Hi)|].
    exists (so_tracks src). unfold get_source. by rewrite Hs. }
  unfold selector_evaluate. rewrite Hp. apply wp_bind, wp_ret, wp_bind.
  eapply wp_mono; [apply (wp_evaluate_loop (λ g, world_inv s (w <| w_graph := g |>) ∧
    owns s (holds (w <| w_graph := g |>) ++ L)) _ _ _ _ _) with (l := [])|].
  - intros. by eapply world_refresh.
  - split; by destruct w.
  - apply (wi_nodup _ _ _ _ Hi).
  - intros q Hq. destruct (wi_queue _ _ _ _ Hi q Hq) as (src & ? & _). by eexists.
  - intros q x Hin. set_solver.
  - by split_and!.
  - intros [g out] _ (-> & [Hi' Ho'] & l & H1 & H2 & H3 & H4 & H5). apply wp_ret.
    do 3 (split; [done|]). split; [done|]. by exists l, program.
Qed.

Lemma judged_source w now w' res id :
  evaluated w now (w', res) → sr_best res = Some id ∨ sr_emergency res = Some id →
  id ∈ st_sources (w_stream w').
Proof.
  intros (Hst & l & program & Hl & _ & _ & (Hb & He & _) & _) Hor.
  cbn [fst] in Hst. rewrite Hst, <- Hl.
  cbn [snd] in *. destruct Hor as [E|E]; [rewrite E in Hb|rewrite E in He].
  - by eapply winner_in.
  - by eapply winner_in.
Qed.

(** A chosen source is not the active one. *)
Lemma judged_inactive w now w1 res id :
  evaluated w now (w1, res) → sr_best res = Some id ∨ sr_emergency res = Some id →
  st_active (w_stream w) ≠ Some id.
Proof.
  intros (_ & l & program & _ & _ & _ & (Hb & He & _) & _) Hor Hact. cbn [snd] in *.
  assert (∀ inc x, (id, x) ∈ candidates (st_active (w_stream w)) inc l → False) as Hno.
  { intros inc x. unfold candidates. rewrite list_elem_of_In, List.filter_In.
    unfold candidate. cbn [fst]. rewrite bool_decide_true by done. by intros [_ ?]. }
  destruct Hor as [E|E]; [rewrite E in Hb; destruct Hb as (pre & x & post & Heq & _)
                         |rewrite E in He; destruct He as (pre & x & post & Heq & _)];
    eapply (Hno _ x); rewrite Heq; set_solver.
Qed.

(** A pass changes nothing else of a source. *)
Lemma evaluated_source w now w1 res i src :
  evaluated w now (w1, res) → g_sources (w_graph w) !! i = Some src →
  ∃ src', g_sources (w_graph w1) !! i = Some src' ∧ so_writers src' = so_writers src ∧
    so_priority src' = so_priority src ∧ so_preroll src' = so_preroll src ∧
    so_stream src' = so_stream src ∧ so_pending_remove src' = so_pending_remove src.
Proof.
  intros (_ & l & program & Hl & _ & Hr & _ & Hin & Hout) Hs. cbn [fst] in *.
  destruct (decide (i ∈ st_sources (w_stream w))) as [Hq|Hq].
  - rewrite <- Hl in Hq. apply list_elem_of_fmap in Hq as ([j x] & -> & Hx). cbn [fst] in *.
    unfold refreshed in Hr. rewrite Forall_forall in Hr. destruct (Hr _ Hx) as (y & Hy & Hxy).
    cbn [fst snd] in *. rewrite Hs in Hy. injection Hy as <-.
    exists x. rewrite (Hin _ _ Hx), Hxy. by split_and!.
  - exists src. rewrite Hout by done. by split_and!.
Qed.

Lemma world_inv_count s w e : world_inv s w → world_inv s (count_emergency w e).
Proof.
  intros []. destruct e; [|by split]. split; cbn; auto. by eapply program_inv_ext.
Qed.

(** What happens to the chosen source. *)
Definition run_post (w : world) (t : option (N * bool)) (r : rc * world) : Prop :=
  match t with
  | None => r = (NGX_OK, w)
  | Some (t, e) => ∃ src, g_sources (w_graph w) !! t = Some src ∧
      promote_post (count_emergency w e) t src r
  end.

Lemma target_judged w res t e :
  target w res = Some (t, e) → sr_best res = Some t ∨ sr_emergency res = Some t.
Proof.
  unfold target, fallback. destruct (sr_best res) as [b|], (sr_emergency res) as [m|];
    destruct (st_active (w_stream w)), (sr_active_eligible res); cbn; try case_match; naive_solver.
Qed.

Definition run_target (w : world) (res : selector_result) : M (rc * world) :=
  match target w res with
  | None => mret (NGX_OK, w)
  | Some (t, e) => stream_promote (count_emergency w e) t
  end.

Lemma wp_promote_counted s w id e L :
  world_inv s w → id ∈ st_sources (w_stream w) → owns s (holds w ++ L) → room B w →
  wp (stream_promote (count_emergency w e) id) (λ r s', evolves s s' ∧
    owns s' (holds r.2 ++ L) ∧ world_inv s' r.2 ∧ same_stream (w_stream w) (w_stream r.2) ∧
    run_post w (Some (id, e)) r) s.
Proof.
  intros Hi Hq Ho Hroom. destruct (wi_queue _ _ _ _ Hi id Hq) as (src & Hs & _).
  assert (g_sources (w_graph (count_emergency w e)) !! id = Some src) as Hs' by (by destruct e).
  eapply wp_mono.
  - apply (wp_stream_promote B HB s _ id src L (world_inv_count _ _ e Hi) Hs'); by destruct e.
  - intros r s' (H1 & H2 & H3 & H4 & H5). split_and!; [done|done|done| |by exists src].
    destruct H4 as (H6 & H7 & H8). by destruct e.
Qed.

Lemma wp_run_target s w now w1 res L :
  evaluated w now (w1, res) → world_inv s w1 → owns s (holds w1 ++ L) → room B w ->
  wp (run_target w1 res) (λ r s', evolves s s' ∧ owns s' (holds r.2 ++ L) ∧
    world_inv s' r.2 ∧ same_stream (w_stream w) (w_stream r.2) ∧
    run_post w1 (target w1 res) r) s.
Proof.
  intros He Hi Ho Hroom. pose proof He as [Hst _]. cbn [fst] in Hst. unfold run_target.
  assert (room B w1) as Hroom1 by (unfold room; by rewrite Hst).
  destruct (target w1 res) as [[t e]|] eqn:Ht.
  - rewrite <- Hst. apply wp_promote_counted; auto. apply (judged_source w now w1 res t He).
    by eapply target_judged.
  - apply wp_ret. cbn [snd]. rewrite Hst. by split_and!.
Qed.

Lemma switched_active w id : st_active (switched w id) = Some id.
Proof. unfold switched. by case_match. Qed.
Lemma switched_emergency w id :
  st_emergency_switches (switched w id) = st_emergency_switches (w_stream w).
Proof. unfold switched. by case_match. Qed.

(** [target]'s outcome in terms of the world before the pass. *)
Definition promoted (w : world) (t : N) (r : rc * world) : Prop :=
  ∃ src, g_sources (w_graph w) !! t = Some src ∧
    if preroll_ready (so_preroll src) then
      if 0 <? old_writers w
      then r.1 = NGX_AGAIN ∧ st_active (w_stream r.2) = st_active (w_stream w) ∧
           st_generation (w_stream r.2) = st_generation (w_stream w)
      else r.1 = NGX_OK ∧ st_active (w_stream r.2) = Some t
    else r.1 = NGX_OK ∧ st_active (w_stream r.2) = st_active (w_stream w) ∧
         st_generation (w_stream r.2) = st_generation (w_stream w).

Lemma old_writers_evaluated w now w1 res e t src :
  evaluated w now (w1, res) → st_active (w_stream w) ≠ Some t →
  (∀ a, st_active (w_stream w) = Some a → is_Some (g_sources (w_graph w) !! a)) →
  old_writers (pending (count_emergency w1 e) t src) = old_writers w.
Proof.
  intros He Hne Ha. pose proof He as [Hst _]. cbn [fst] in Hst. unfold old_writers.
  assert (st_active (w_stream (pending (count_emergency w1 e) t src)) = st_active (w_stream w)) as ->.
  { destruct e; cbn; by rewrite Hst. }
  destruct (st_active (w_stream w)) as [a|] eqn:Hact; [|done].
  destruct (Ha a eq_refl) as [asrc Has].
  destruct (evaluated_source _ _ _ _ _ _ He Has) as (x & Hx & Hw & _).
  unfold pending, put_source. destruct e; cbn;
    (rewrite lookup_insert_ne by congruence; rewrite Hx, Has; cbn; by rewrite Hw).
Qed.

Lemma run_post_promoted s w now w1 res t e r :
  world_inv s w → evaluated w now (w1, res) → st_running (w_stream w) = true →
  sr_best res = Some t ∨ sr_emergency res = Some t →
  run_post w1 (Some (t, e)) r →
  promoted w t r ∧ st_emergency_switches (w_stream r.2)
    = (if e then st_emergency_switches (w_stream w) ⊕ 1 else st_emergency_switches (w_stream w)).
Proof.
  intros Hi He Hrun Hor (src1 & Hs1 & Hp). pose proof He as [Hst _]. cbn [fst] in Hst.
  pose proof (judged_inactive _ _ _ _ _ He Hor) as Hna.
  pose proof (judged_source _ _ _ _ _ He Hor) as Hq. rewrite Hst in Hq.
  destruct (queue_source B s w t Hi Hq) as (src & Hs & Hss & Hpr & _).
  destruct (evaluated_source _ _ _ _ _ _ He Hs) as (x & Hx & _ & _ & Hpre & Hxs & Hxp).
  rewrite Hs1 in Hx. injection Hx as <-.
  assert (st_id (w_stream (count_emergency w1 e)) = st_id (w_stream w) ∧
    st_running (w_stream (count_emergency w1 e)) = true ∧
    st_active (w_stream (count_emergency w1 e)) = st_active (w_stream w) ∧
    st_generation (w_stream (count_emergency w1 e)) = st_generation (w_stream w) ∧
    st_emergency_switches (w_stream (count_emergency w1 e))
    = (if e then st_emergency_switches (w_stream w) ⊕ 1 else st_emergency_switches (w_stream w)))
    as (E1 & E2 & E3 & E4 & E5) by (destruct e; cbn; by rewrite Hst).
  unfold promote_post, refused in Hp. rewrite E1, E2, Hxs, Hss, N.eqb_refl, Hxp, Hpr in Hp.
  cbn [negb orb] in Hp. rewrite decide_False in Hp by (rewrite E3; done). rewrite Hpre in Hp.
  unfold promoted. destruct (preroll_ready (so_preroll src)) eqn:Hready.
  - unfold switch_post in Hp. rewrite decide_False in Hp by (cbn; rewrite E3; done).
    rewrite (old_writers_evaluated w now w1 res e t src1 He Hna) in Hp.
    2: { intros a Ha. destruct (wi_queue _ _ _ _ Hi a) as (y & ? & _); [by apply (wi_active _ _ _ _ Hi)|eauto]. }
    destruct (0 <? old_writers w) eqn:Hw.
    + subst r. cbn [fst snd]. split; [|exact E5]. exists src. rewrite Hready. by split_and!.
    + destruct Hp as (Hrc & Hop & _). unfold only_program in Hop. split.
      * exists src. rewrite Hready. split; [done|]. split; [done|]. rewrite Hop.
        apply switched_active.
      * rewrite Hop, <- E5. apply (switched_emergency (pending (count_emergency w1 e) t src1)).
  - destruct Hp as (Hrc & Heq). rewrite Heq. split; [|exact E5]. exists src. rewrite Hready. by split_and!.
Qed.

(** The two decisions are [run_target] after the pass. *)
Lemma wp_selector_run s w now L :
  world_inv s w → owns s (holds w ++ L) → room B w →
  wp (selector_run w now) (λ r s', evolves s s' ∧ owns s' (holds r.1.2 ++ L) ∧
    world_inv s' r.1.2 ∧ same_stream (w_stream w) (w_stream r.1.2) ∧
    ∃ w1, evaluated w now (w1, r.2) ∧ run_post w1 (target w1 r.2) r.1) s.
Proof.
  intros Hi Ho Hroom. apply wp_bind. eapply wp_mono; [by apply wp_selector_evaluate|].
  intros [w1 res] _ (-> & Hi1 & Ho1 & He). cbn [fst snd] in *.
  pose proof (wp_run_target s w now w1 res L He Hi1 Ho1 Hroom) as Hwp.
  assert (wp (r ← run_target w1 res; mret (r, res)) (λ r s', evolves s s' ∧
    owns s' (holds r.1.2 ++ L) ∧ world_inv s' r.1.2 ∧ same_stream (w_stream w) (w_stream r.1.2) ∧
    ∃ w1, evaluated w now (w1, r.2) ∧ run_post w1 (target w1 r.2) r.1) s) as Hgoal.
  { apply wp_bind. eapply wp_mono; [exact Hwp|]. intros r s' (? & ? & ? & ? & ?). apply wp_ret.
    split_and!; eauto. }
  clear Hwp. assert (∀ m : M (rc * world), m = run_target w1 res → wp (r ← m; mret (r, res))
    (λ r s', evolves s s' ∧ owns s' (holds r.1.2 ++ L) ∧ world_inv s' r.1.2 ∧
      same_stream (w_stream w) (w_stream r.1.2) ∧
      ∃ w1, evaluated w now (w1, r.2) ∧ run_post w1 (target w1 r.2) r.1) s) as Hm by (by intros ? ->).
  assert (selector_promote w1 res = match fallback res with
    | None => mret (NGX_OK, w1)
    | Some (t, e) => stream_promote (count_emergency w1 e) t end) as Hsp.
  { unfold selector_promote, fallback. by destruct (sr_best res), (sr_emergency res). }
  destruct (st_active (w_stream w1)) as [a|] eqn:Ha.
  - destruct (sr_active_eligible res) eqn:Hel.
    + unfold run_target, target in Hgoal. rewrite Ha, Hel in Hgoal.
      destruct (sr_best res) as [b|] eqn:Hb; [|exact Hgoal].
      destruct (wi_queue _ _ _ _ Hi1 b) as (bsrc & Hbs & _); [eapply judged_source; eauto|].
      destruct (wi_queue _ _ _ _ Hi1 a) as (asrc & Has & _); [by apply (wi_active _ _ _ _ Hi1)|].
      apply wp_bind, (get_source_wp _ _ bsrc), wp_bind, (get_source_wp _ _ asrc); [done..|].
      unfold priority_of in Hgoal. rewrite Hbs, Has in Hgoal. cbn in Hgoal.
      by destruct (_ && _).
    + apply Hm. rewrite Hsp. unfold run_target, target. by rewrite Ha, Hel.
  - apply Hm. rewrite Hsp. unfold run_target, target. by rewrite Ha.
Qed.

Lemma wp_selector_switchback s w now L :
  world_inv s w → owns s (holds w ++ L) → room B w →
  wp (selector_switchback w now) (λ r s', evolves s s' ∧ owns s' (holds r.2 ++ L) ∧
    world_inv s' r.2 ∧ same_stream (w_stream w) (w_stream r.2) ∧
    if sel_switchback (st_selector (w_stream w)) =? SWITCHBACK_NEVER then r = (NGX_DECLINED, w)
    else ∃ w1 res, evaluated w now (w1, res) ∧
      match sr_best res with
      | None => r = (NGX_DECLINED, w1)
      | Some b =>
          if match st_active (w_stream w1) with
             | Some a => priority_of w1 b <=? priority_of w1 a
             | None => false
             end
          then r = (NGX_DECLINED, w1) else run_post w1 (Some (b, false)) r
      end) s.
Proof.
  intros Hi Ho Hroom. unfold selector_switchback.
  destruct (_ =? SWITCHBACK_NEVER); [by apply wp_ret; split_and!|].
  apply wp_bind. eapply wp_mono; [by apply wp_selector_evaluate|].
  intros [w1 res] _ (-> & Hi1 & Ho1 & He). cbn [fst snd] in *. pose proof He as [Hst _].
  cbn [fst] in Hst. assert (room B w1) as Hroom1 by (unfold room; by rewrite Hst).
  assert (same_stream (w_stream w) (w_stream w1)) as Hsame by (by rewrite Hst).
  destruct (sr_best res) as [b|] eqn:Hb.
  2: { apply wp_ret. split_and!; try done. exists w1, res. by rewrite Hb. }
  assert (b ∈ st_sources (w_stream w1)) as Hbq by (eapply judged_source; eauto).
  assert (∀ act, match act with Some a => priority_of w1 b <=? priority_of w1 a
      | None => false end = false → st_active (w_stream w1) = act →
    wp (stream_promote w1 b) (λ r s', evolves s s' ∧ owns s' (holds r.2 ++ L) ∧
      world_inv s' r.2 ∧ same_stream (w_stream w) (w_stream r.2) ∧
      ∃ w1 res, evaluated w now (w1, res) ∧ match sr_best res with
      | None => r = (NGX_DECLINED, w1)
      | Some b => if match st_active (w_stream w1) with
             | Some a => priority_of w1 b <=? priority_of w1 a | None => false end
          then r = (NGX_DECLINED, w1) else run_post w1 (Some (b, false)) r
      end) s) as Hgo.
  { intros act Hp Ha. eapply wp_mono; [by apply (wp_promote_counted s w1 b false L)|].
    rewrite Hst. intros r s' (? & ? & ? & ? & ?). split_and!; auto.
    exists w1, res. by rewrite Hb, Ha, Hp. }
  destruct (st_active (w_stream w1)) as [a|] eqn:Ha; [|by apply (Hgo None)].
  destruct (wi_queue _ _ _ _ Hi1 b Hbq) as (bsrc & Hbs & _).
  destruct (wi_queue _ _ _ _ Hi1 a) as (asrc & Has & _); [by apply (wi_active _ _ _ _ Hi1)|].
  apply wp_bind, (get_source_wp _ _ bsrc), wp_bind, (get_source_wp _ _ asrc); [done..|].
  specialize (Hgo (Some a)). unfold priority_of in Hgo. rewrite Hbs, Has in Hgo.
  cbn [fmap option_fmap option_map default from_option] in Hgo.
  destruct (so_priority bsrc <=? so_priority asrc) eqn:Hp; [|by apply Hgo].
  apply wp_ret. split_and!; try done. exists w1, res. rewrite Hb, Ha. split; [done|].
  unfold priority_of. rewrite Hbs, Has. cbn. by rewrite Hp.
Qed.
End selector.
