(* ===== verification/Lifecycle.v ===== *)
(** * Streams: registry of sources, leases and teardown

    The rest of the theorems about core/ngx_media_stream.c: adding and removing
    sources, leases, retiring and destroying a stream, and the properties of whole
    histories of operations. *)
From Stdlib Require Import Sorted.
From S2P Require Import Prelude Ring Store Feed Timeline Health Policy Compat Source Stream Selector.

Section lifecycle.
Context (B : Z) (HB : 0 ≤ B).
#[local] Abbreviation world_inv := (world_inv B).
#[local] Abbreviation gate_inv := (gate_inv B).
#[local] Abbreviation source_wf := (source_wf B).
#[local] Abbreviation program_inv := (program_inv B).

Lemma source_wf_ok s act queue id src : source_wf s act queue id src → source_ok src.
Proof.
  intros []. split; [intros _; by eapply preroll_inv_ring|].
  intros Hn. pose proof (pi_len _ _ sw_preroll) as Hl. rewrite Hn in Hl.
  pose proof (pi_max _ _ sw_preroll). simpl in Hl. lia.
Qed.

(** ** Removing a source *)

(** The stream after its source [id] is unlinked. *)
Definition unlinked (st : stream) (id : N) : stream :=
  let st := if bool_decide (st_active st = Some id)
            then program_discontinuity (st <| st_active := None |>) else st in
  st <| st_sources := filter (λ q, q ≠ id) (st_sources st) |>.

Lemma unlinked_queue st id :
  st_sources (unlinked st id) = filter (λ q, q ≠ id) (st_sources st).
Proof. unfold unlinked. by case_bool_decide. Qed.

Lemma unlinked_program s st id : program_inv s st → program_inv s (unlinked st id).
Proof.
  intros Hp. unfold unlinked. case_bool_decide; [|by eapply program_inv_ext].
  eapply program_inv_ext; [by apply program_discontinuity_inv|done..].
Qed.

Lemma unlinked_holds st id : holds (st_feed (unlinked st id)) = holds (st_feed st).
Proof. unfold unlinked. by case_bool_decide. Qed.

Lemma unlinked_active st id i :
  i ≠ id → st_active st = Some i ↔ st_active (unlinked st id) = Some i.
Proof. intros Hne. unfold unlinked. case_bool_decide; [|done]. cbn. split; [congruence|done]. Qed.

(** The removed source, while somebody still holds it. *)
Definition detached (st : stream) (id : N) (src : source) : source :=
  let src := src <| so_pending_remove := true |> in
  if bool_decide (st_active st = Some id)
  then src <| so_active := false |> <| so_state := STANDBY |> else src.

Lemma detached_fields st id src :
  let d := detached st id src in
  so_preroll d = so_preroll src ∧ so_tracks d = so_tracks src ∧ so_stream d = so_stream src ∧
  so_references d = so_references src ∧ so_writers d = so_writers src ∧
  so_pending_remove d = true.
Proof. unfold detached. by case_bool_decide; split_and!. Qed.

(** Linked or not, a source of the stream stays well formed when its reference count
    is replaced by one that covers its writers. *)
Lemma detached_wf s st id src n :
  source_wf s (st_active st) (st_sources st) id src →
  so_writers src ≤ n ≤ 2 ^ 63 →
  source_wf s (st_active (unlinked st id)) (st_sources (unlinked st id)) id
    ((detached st id src) <| so_references := n |>).
Proof.
  intros Hwf Hn. destruct (detached_fields st id src) as (H1 & H2 & H3 & H4 & H5 & H6).
  rewrite unlinked_queue.
  assert (st_active (unlinked st id) ≠ Some id) as Hna.
  { unfold unlinked. case_bool_decide; [done|]. done. }
  destruct Hwf. split; cbn [setf so_preroll so_writers so_references so_pending_remove so_state so_active];
    unfold tracks_inv in *; cbn [setf so_tracks]; rewrite ?H1, ?H2, ?H5, ?H6; auto.
  - lia.
  - split; [done|]. intros [? _]%list_elem_of_filter. done.
  - unfold detached, unlinked in *. case_bool_decide; cbn in *; [done|]. tauto.
  - unfold detached, unlinked in *. case_bool_decide; cbn in *; [done|]. tauto.
Qed.

Lemma wp_stream_source_remove s w id src L :
  world_inv s w → g_sources (w_graph w) !! id = Some src → owns s (holds w ++ L) →
  wp (stream_source_remove w id) (λ w' s', evolves s s' ∧ owns s' (holds w' ++ L) ∧
    world_inv s' w' ∧
    if negb (N.eqb (so_stream src) (st_id (w_stream w))) || so_pending_remove src then w' = w
    else
      w_stream w' = unlinked (w_stream w) id ∧
      g_sources (w_graph w') =
        (if so_references src =? 1 then delete id (g_sources (w_graph w))
         else <[id := (detached (w_stream w) id src)
                        <| so_references := so_references src - 1 |>]> (g_sources (w_graph w)))) s.
Proof.
  intros Hi Hs Ho. unfold stream_source_remove.
  apply wp_bind, (get_source_wp _ _ src); [done|].
  destruct (N.eqb_spec (so_stream src) (st_id (w_stream w))) as [Hst|]; cbn [negb orb];
    [|by apply wp_ret; split_and!].
  destruct (so_pending_remove src) eqn:Hpr; [by apply wp_ret; split_and!|].
  pose proof Hi as [Hp Hsrc Hq Hnd Ha Hfr]. pose proof (Hsrc id src Hs Hst) as Hwf.
  pose proof (sw_refs _ _ _ _ _ _ Hwf) as Hrefs. rewrite Hpr in Hrefs.
  pose proof (sw_writers _ _ _ _ _ _ Hwf) as Hwr.
  match goal with |- wp (let '(st, src) := ?e in _) _ _ =>
    replace e with (if bool_decide (st_active (w_stream w) = Some id)
      then program_discontinuity ((w_stream w) <| st_active := None |>) else w_stream w,
      detached (w_stream w) id src) by (unfold detached; by case_bool_decide) end.
  cbv iota beta zeta. fold (unlinked (w_stream w) id).
  destruct (detached_fields (w_stream w) id src) as (H1 & H2 & H3 & H4 & H5 & H6).
  set (d := detached (w_stream w) id src) in *. set (g1 := put_source (w_graph w) id d).
  set (F := holds (st_feed (w_stream w))).
  assert (holds d = holds src) as Hhd by (unfold holds, owner_source; by rewrite H1, H2).
  assert (owns s (holds g1 ++ F ++ L)) as Ho1.
  { eapply owns_proper; [|exact Ho]. unfold g1. rewrite (put_source_holds _ _ src), holds_world by done.
    unfold F. solve_Permutation. }
  apply wp_bind. eapply wp_mono; [apply (wp_source_release g1 id d (F ++ L) s); [apply put_lookup| |lia|exact Ho1]|].
  { pose proof (source_wf_ok _ _ _ _ _ Hwf) as Hok. unfold source_ok in *. by rewrite H1. }
  intros g' s' (Ho' & Hev & Hg'). apply wp_ret. rewrite H4 in Hg'.
  assert (g_sources g' = if so_references src =? 1 then delete id (g_sources (w_graph w))
    else <[id := d <| so_references := so_references src - 1 |>]> (g_sources (w_graph w))) as Hgs.
  { rewrite Hg'. destruct (Z.eqb_spec (so_references src) 1).
    - rewrite decide_True by done. unfold free_source, g1, put_source, stream_release. cbn.
      by rewrite delete_insert_eq.
    - rewrite decide_False by done. unfold g1. by rewrite put_put. }
  set (w' := mk_world (unlinked (w_stream w) id) g').
  assert (owns s' (holds w' ++ L)) as Ho2.
  { eapply owns_proper; [|exact Ho']. rewrite holds_world. unfold w'. cbn [w_stream w_graph].
    rewrite unlinked_holds. unfold F. solve_Permutation. }
  split_and!; [done|done| |done|exact Hgs].
  assert (∀ i, i ≠ id → g_sources g' !! i = g_sources (w_graph w) !! i) as Hother.
  { intros i Hne. rewrite Hgs. caseb; [by rewrite lookup_delete_ne|by rewrite lookup_insert_ne]. }
  assert (holds (others (w_graph w) id) ⊆ holds w' ++ L) as Hoth.
  { rewrite holds_world. unfold w'. cbn [w_graph].
    assert (holds (others (w_graph w) id) ⊆ holds g'); [|sub_app].
    change (holds g') with (holds (map_to_list (g_sources g')).*2).
    unfold others. rewrite Hgs. caseb; [done|].
    rewrite <- insert_delete_eq, map_to_list_insert by apply lookup_delete_eq.
    cbn [fmap list_fmap]. rewrite holds_cons. sub_app. }
  split; unfold w'; cbn [w_stream w_graph].
  - eapply (program_stable B s s' (holds w ++ L) (holds w' ++ L)); [by apply unlinked_program|done|exact Ho2|done|..].
    + rewrite unlinked_holds, holds_world. sub_app.
    + rewrite (holds_world w'). unfold w'. cbn [w_stream]. sub_app.
  - apply (sources_others B HB s s' (holds w ++ L) (holds w' ++ L) (st_active (w_stream w)) _
      (st_sources (w_stream w)) _ _ (w_graph w) _ id); auto.
    + by replace (st_id (unlinked (w_stream w) id)) with (st_id (w_stream w))
        by (unfold unlinked; by case_bool_decide).
    + rewrite holds_world. sub_app.
    + intros i. apply unlinked_active.
    + intros i Hne. rewrite unlinked_queue, list_elem_of_filter. tauto.
    + intros x Hx _. rewrite Hgs in Hx. caseb_in Hx; [by rewrite lookup_delete_eq in Hx|].
      rewrite lookup_insert_eq in Hx. injection Hx as <-.
      eapply detached_wf; [|lia].
      apply (source_wf_stable B HB s s' (holds w ++ L) (holds w' ++ L) _ _ _ _ Hwf Ho Ho2 Hev).
      * rewrite holds_world. transitivity (holds (w_graph w)); [by eapply holds_source_in|sub_app].
      * rewrite (holds_world w'). unfold w'. cbn [w_graph].
        assert (holds src ⊆ holds g'); [|sub_app].
        replace (holds src) with (holds (d <| so_references := so_references src - 1 |>))
          by (rewrite <- Hhd; by destruct d).
        apply (holds_source_in g' id (d <| so_references := so_references src - 1 |>)).
        rewrite Hgs. apply lookup_insert_eq.
  - intros q. rewrite unlinked_queue, list_elem_of_filter. intros [Hne Hin].
    replace (st_id (unlinked (w_stream w) id)) with (st_id (w_stream w))
      by (unfold unlinked; by case_bool_decide).
    rewrite Hother by done. auto.
  - rewrite unlinked_queue. by apply NoDup_filter.
  - intros a Hact. rewrite unlinked_queue, list_elem_of_filter.
    assert (st_active (w_stream w) = Some a ∧ a ≠ id) as [Haa ?].
    { unfold unlinked in Hact. case_bool_decide as E; [done|]. split; [done|]. intros ->. by apply E. }
    split; [done|by apply Ha].
  - intros i x. rewrite Hgs. pose proof (ev_next _ _ Hev).
    assert (∀ y, g_sources (w_graph w) !! i = Some y → (i < st_next s')%N) as Hbelow.
    { intros y Hy. specialize (Hfr _ _ Hy). lia. }
    destruct (so_references src =? 1).
    + intros [_ Hx]%lookup_delete_Some. by eapply Hbelow.
    + intros [[<- _]|[_ Hx]]%lookup_insert_Some; by eapply Hbelow.
Qed.

(** ** Leases *)

Lemma not_queued s w id src :
  world_inv s w → g_sources (w_graph w) !! id = Some src →
  so_pending_remove src = true ∨ so_stream src ≠ st_id (w_stream w) → id ∉ st_sources (w_stream w).
Proof.
  intros Hi Hs Hor Hin. destruct (queue_source _ _ _ _ Hi Hin) as (x & Hx & Hst & Hpr & _).
  rewrite Hs in Hx. injection Hx as <-. destruct Hor; congruence.
Qed.

(** The last holder of an unlinked source frees it. *)
Lemma world_drop s s' w g' id src L :
  world_inv s w → g_sources (w_graph w) !! id = Some src →
  so_pending_remove src = true ∨ so_stream src ≠ st_id (w_stream w) →
  g_sources g' = delete id (g_sources (w_graph w)) →
  owns s (holds w ++ L) → owns s' (holds (w <| w_graph := g' |>) ++ L) → evolves s s' →
  world_inv s' (w <| w_graph := g' |>).
Proof.
  intros Hi Hs Hun Hg Ho Ho' Hev. pose proof (not_queued _ _ _ _ Hi Hs Hun) as Hnq.
  pose proof Hi as [Hp Hsrc Hq Hnd Ha Hfr].
  split; cbn [setf w_stream w_graph]; auto.
  - eapply (program_stable B s s'); [exact Hp|exact Ho|exact Ho'|done|rewrite holds_world; sub_app..].
  - apply (sources_others B HB s s' _ _ (st_active (w_stream w)) _ (st_sources (w_stream w)) _ _
      (w_graph w) _ id Hsrc Ho Ho' Hev); try done.
    + rewrite holds_world. sub_app.
    + rewrite holds_world. cbn [setf w_graph].
      change (holds g') with (holds (map_to_list (g_sources g')).*2). rewrite Hg. unfold others. sub_app.
    + intros i Hne. rewrite Hg. by apply lookup_delete_ne.
    + intros x. rewrite Hg, lookup_delete_eq. done.
  - intros q Hin. rewrite Hg, lookup_delete_ne by (intros ->; done). auto.
  - intros i x. rewrite Hg. intros [_ Hx]%lookup_delete_Some.
    specialize (Hfr _ _ Hx). pose proof (ev_next _ _ Hev). lia.
Qed.

Lemma wp_stream_lease_begin s w id src L :
  world_inv s w → g_sources (w_graph w) !! id = Some src → owns s (holds w ++ L) →
  so_references src < 2 ^ 63 →
  wp (stream_lease_begin w id) (λ r s', s' = s ∧ world_inv s' r.2 ∧
    owns s' (holds r.2 ++ L) ∧ w_stream r.2 = w_stream w ∧
    if refused w src then r = (NGX_ERROR, w)
    else r = (NGX_OK, w <| w_graph := put_source (w_graph w) id
      (src <| so_writers := so_writers src + 1 |> <| so_references := so_references src + 1 |>) |>)) s.
Proof.
  intros Hi Hs Ho Hr. destruct (refused w src) eqn:Hrf.
  - apply (wp_eq _ _ _ (NGX_ERROR, w) s); [|by split_and!]. unfold stream_lease_begin, get_source. rewrite Hs.
    unfold refused in Hrf. unfold mbind, SM_bind, mret, SM_ret. by rewrite Hrf.
  - destruct (refused_false _ _ Hrf) as (Hst & Hrun & Hpr).
    pose proof (wi_sources _ _ _ _ Hi id src Hs Hst) as Hwf.
    pose proof (sw_refs _ _ _ _ _ _ Hwf). pose proof (sw_writers _ _ _ _ _ _ Hwf).
    rewrite Hpr in *.
    eapply wp_eq; [apply (stream_lease_begin_run _ _ src); auto; lia|]. cbn [snd].
    split_and!; [done| |by rewrite (holds_put_world _ _ src)|done|done].
    apply (world_inv_put B _ _ _ src); auto. intros []. split; cbn; auto; [lia|]. rewrite Hpr. lia.
Qed.

Lemma wp_stream_lease_end s w id src L :
  world_inv s w → g_sources (w_graph w) !! id = Some src → so_stream src = st_id (w_stream w) →
  owns s (holds w ++ L) →
  wp (stream_lease_end w id) (λ w' s', evolves s s' ∧ world_inv s' w' ∧
    owns s' (holds w' ++ L) ∧ w_stream w' = w_stream w) s.
Proof.
  intros Hi Hs Hst Ho. pose proof (wi_sources _ _ _ _ Hi id src Hs Hst) as Hwf.
  pose proof (sw_refs _ _ _ _ _ _ Hwf) as Hr. pose proof (sw_writers _ _ _ _ _ _ Hwf) as Hw.
  assert (so_writers src ≤ so_references src ≤ 2 ^ 63 ∧
    (so_references src = 1 → so_writers src = 1 → so_pending_remove src = true)) as [Hr63 Hlast]
    by (destruct (so_pending_remove src); split; auto; lia).
  unfold stream_lease_end. destruct (decide (so_writers src = 0)) as [Hz|Hz].
  { apply (wp_eq _ _ _ w s); [|by split_and!].
    unfold source_lease_end, get_source, mbind, SM_bind, mret, SM_ret. rewrite Hs, Hz.
    change (0 <? 0) with false. cbv iota. by destruct w. }
  set (src1 := src <| so_writers := so_writers src - 1 |>).
  set (w1 := w <| w_graph := put_source (w_graph w) id src1 |>).
  assert (owns s (holds w1 ++ L)) as Ho1 by (by unfold w1; rewrite (holds_put_world _ _ src)).
  apply wp_bind. unfold wp at 1.
  rewrite (lease_end_run _ _ src) by (done || lia).
  fold src1. set (g1 := put_source (w_graph w) id src1).
  eapply wp_mono; [apply (wp_source_release g1 id src1 (holds (st_feed (w_stream w)) ++ L));
    [apply put_lookup|by apply (source_wf_ok _ _ _ _ _ Hwf)|cbn; lia|]|].
  { eapply owns_proper; [|exact Ho1]. rewrite holds_world. unfold w1, g1. cbn [setf w_graph w_stream].
    solve_Permutation. }
  intros g' s' (Ho' & Hev & Hg'). apply wp_ret.
  set (w' := w <| w_graph := g' |>).
  assert (owns s' (holds w' ++ L)) as Ho2.
  { eapply owns_proper; [|exact Ho']. rewrite holds_world. unfold w'. cbn [setf w_graph w_stream].
    solve_Permutation. }
  split_and!; [done| |done|done].
  change (so_references src1) with (so_references src) in Hg'.
  destruct (decide (so_references src = 1)) as [E|E].
  - apply (world_drop s s' w g' id src L); auto.
    + left. apply Hlast; lia.
    + rewrite Hg'. unfold free_source, g1, put_source, stream_release. cbn. by rewrite delete_insert_eq.
  - unfold g1 in Hg'. rewrite put_put in Hg'. unfold w' in *. rewrite Hg' in *.
    set (src2 := src1 <| so_references := so_references src - 1 |>) in *.
    apply (world_update B HB s s' w id src src2 L); auto. intros _.
    assert (source_wf s' (st_active (w_stream w)) (st_sources (w_stream w)) id src) as Hwf'.
    { apply (source_wf_stable B HB s s' (holds w ++ L) (holds g' ++ holds (st_feed (w_stream w)) ++ L)
        _ _ _ _ Hwf Ho); [by rewrite Hg'|done|..].
      - rewrite holds_world. transitivity (holds (w_graph w)); [by eapply holds_source_in|sub_app].
      - rewrite Hg', owner_graph_put. change (holds src2) with (holds src). sub_app. }
    destruct Hwf'. split; auto; cbn; [lia|]. revert sw_refs. destruct (so_pending_remove src); lia.
Qed.

(** ** Adding a source *)

Lemma wp_find_loop (g : graph) (queue : list N) (id : list Z) s :
  (∀ q, q ∈ queue → ∃ src, g_sources g !! q = Some src) →
  wp (find_loop g queue id) (λ r s', s' = s ∧
    match r with
    | Some q => q ∈ queue ∧ ∃ src, g_sources g !! q = Some src ∧ so_id src = id
    | None => ∀ q src, q ∈ queue → g_sources g !! q = Some src → so_id src ≠ id
    end) s.
Proof.
  induction queue as [|q queue IH]; intros Hq; cbn [find_loop].
  { apply wp_ret. split; [done|]. set_solver. }
  destruct (Hq q) as [src Hs]; [set_solver|]. apply wp_bind, (get_source_wp _ _ src); [done|].
  case_bool_decide as E.
  - apply wp_ret. split; [done|]. split; [set_solver|eauto].
  - eapply wp_mono; [apply IH; set_solver|]. intros [p|] s' [-> Hp]; (split; [done|]).
    + destruct Hp. split; [set_solver|done].
    + intros p x [->|Hin]%elem_of_cons Hx; [congruence|eauto].
Qed.

Lemma gate_inv_ext s act w w' :
  gate_inv s act w → w_stream w' = w_stream w → g_sources (w_graph w') = g_sources (w_graph w) →
  gate_inv s act w'.
Proof.
  intros [] Hst Hg. split; rewrite ?Hst; auto.
  - intros i x. rewrite Hg. apply wi_sources.
  - intros q Hin. rewrite Hg. auto.
  - intros i x. rewrite Hg. apply wi_fresh.
Qed.

Lemma holds_graph_ext g g' : g_sources g' = g_sources g → holds g' = holds g.
Proof. intros H. unfold holds, owner_graph. by rewrite H. Qed.

Lemma world_inv_stable s s' w L :
  world_inv s w → owns s (holds w ++ L) → owns s' (holds w ++ L) → evolves s s' → world_inv s' w.
Proof.
  intros [Hp Hsrc Hq Hnd Ha Hfr] Ho Ho' Hev. split; auto.
  - eapply (program_stable B s s'); [exact Hp|exact Ho|exact Ho'|done|rewrite holds_world; sub_app..].
  - eapply (sources_stable B HB s s'); [exact Hsrc|exact Ho|exact Ho'|done|rewrite holds_world; sub_app..].
  - intros i x Hx. specialize (Hfr _ _ Hx). pose proof (ev_next _ _ Hev). lia.
Qed.

(** A new source is well formed and on standby. *)
Definition fresh_source (w : world) (id : list Z) (type priority : Z) (p : preroll) : source :=
  source_zero <| so_id := id |> <| so_stream := st_id (w_stream w) |>
    <| so_references := 1 |> <| so_type := type |> <| so_priority := priority |>
    <| so_enabled := true |> <| so_state := STANDBY |> <| so_preroll := p |>.

Definition add_post (w : world) (id : list Z) (type priority : Z) (r : option N * world) : Prop :=
  match r.1 with
  | None => w_stream r.2 = w_stream w ∧ g_sources (w_graph r.2) = g_sources (w_graph w)
  | Some a =>
      w_stream r.2 = (w_stream w) <| st_sources := st_sources (w_stream w) ++ [a] |> ∧
      g_sources (w_graph w) !! a = None ∧
      (∃ p, cached p = [] ∧ g_sources (w_graph r.2)
         = <[a := fresh_source w id type priority p]> (g_sources (w_graph w))) ∧
      (∀ q src, q ∈ st_sources (w_stream w) → g_sources (w_graph w) !! q = Some src → so_id src ≠ id)
  end.

Lemma wp_string_set dst data L s :
  owns s L →
  wp (string_set dst (Some data)) (λ r s', owns s' L ∧ evolves s s' ∧
    (r.1 = NGX_OK → r.2 = data) ∧ (r.1 ≠ NGX_OK → r.2 = dst)) s.
Proof.
  intros Ho. unfold string_set. cbn [default from_option].
  caseb; [by apply wp_ret; split_and!; auto with media|].
  destruct (Z.eqb_spec (Z.of_nat (length (id data))) 0).
  { apply wp_ret. split_and!; auto with media; [intros _; by destruct data|done]. }
  apply wp_bind. eapply wp_mono; [by apply wp_ngx_alloc|].
  intros [a|] s' (Ho' & Hev & _); apply wp_ret; by split_and!.
Qed.

(** Linking a fresh source keeps the invariant. *)
Lemma world_link s w a id type priority p g' :
  world_inv s w → g_sources (w_graph w) !! a = None → (a < st_next s)%N →
  preroll_inv s p → pr_max_units p = PREROLL_UNITS → cached p = [] →
  g_sources g' = <[a := fresh_source w id type priority p]> (g_sources (w_graph w)) →
  world_inv s (mk_world ((w_stream w) <| st_sources := st_sources (w_stream w) ++ [a] |>) g').
Proof.
  intros [Hp Hsrc Hq Hnd Ha Hfr] Hnone Hlt Hpi Hmu Hc Hg.
  assert (a ∉ st_sources (w_stream w)) as Hna.
  { intros Hin. destruct (Hq a Hin) as (x & Hx & _). congruence. }
  split; cbn [w_stream w_graph setf st_sources st_id st_active].
  - by eapply program_inv_ext.
  - intros i x. rewrite Hg, lookup_insert. case_decide as E.
    + intros [= <-] _. subst i. split; cbn; auto; try lia.
      * by rewrite Hc.
      * split; [set_solver|done].
      * split; [done|]. intros Hact. by apply Ha in Hact.
      * split; [done|]. intros Hact. by apply Ha in Hact.
    + intros Hx Hst. destruct (Hsrc i x Hx Hst). split; auto.
      rewrite sw_linked. set_solver.
  - intros q [Hin| ->%list_elem_of_singleton]%elem_of_app.
    + rewrite Hg, lookup_insert_ne by (intros ->; done). auto.
    + exists (fresh_source w id type priority p). rewrite Hg. split; [apply lookup_insert_eq|done].
  - apply NoDup_app. split_and!; [done|set_solver|apply NoDup_singleton].
  - intros b Hb. apply elem_of_app. left. by apply Ha.
  - intros i x. rewrite Hg, lookup_insert. case_decide; [by subst|]. apply Hfr.
Qed.

(** An allocated, named source that still has to get its cache: it is linked, or
    released again when the cache cannot be allocated. *)
Lemma wp_add_cache s w (g : graph) a id type priority L :
  world_inv s w → owns s (holds w ++ L) → g_sources (w_graph w) !! a = None →
  (a < st_next s)%N → g_sources g = g_sources (w_graph w) →
  (∀ q src, q ∈ st_sources (w_stream w) → g_sources (w_graph w) !! q = Some src → so_id src ≠ id) →
  let src := source_zero <| so_id := id |> <| so_stream := st_id (w_stream w) |>
    <| so_references := 1 |> <| so_type := type |> <| so_priority := priority |>
    <| so_enabled := true |> <| so_state := STANDBY |> in
  wp (p ← preroll_init (so_preroll src) PREROLL_UNITS PREROLL_BYTES;
      let '(rc, pre) := p in
      let g := put_source g a (src <| so_preroll := pre |>) in
      if bool_decide (rc = NGX_OK) then
        mret (Some a, mk_world ((w_stream w) <| st_sources := st_sources (w_stream w) ++ [a] |>) g)
      else g ← source_release g a; mret (None, w <| w_graph := g |>))
    (λ r s', evolves s s' ∧ owns s' (holds r.2 ++ L) ∧ world_inv s' r.2 ∧
       add_post w id type priority r) s.
Proof.
  intros Hi Ho Hnone Hlt Hg Huniq src.
  apply wp_bind. eapply wp_mono; [by apply (wp_preroll_init s preroll_zero _ _ _ Ho)|].
  intros [rc pre] s1 (Ho1 & Hev1 & Hok & Hbad). cbn [fst snd] in *.
  set (src' := src <| so_preroll := pre |>).
  assert (∀ x, holds (put_source g a x) ≡ₚ holds x ++ holds (w_graph w)) as Hh.
  { intros x. rewrite owner_graph_put. rewrite Hg, delete_id by done. done. }
  pose proof (world_inv_stable _ _ _ _ Hi Ho Ho1 Hev1) as Hi1.
  destruct (bool_decide_reflect (rc = NGX_OK)) as [->|Hne].
  - destruct (Hok eq_refl) as (Hpi & Hc & _ & Hmu & _).
    assert (holds src' = []) as Hnil.
    { change (holds src') with (holds (cached pre) ++ []). by rewrite Hc. }
    apply wp_ret. cbn [fst snd]. split_and!; [done| | |].
    + rewrite holds_world. cbn [w_stream w_graph setf st_feed]. rewrite Hh, Hnil. exact Ho1.
    + apply (world_link s1 w a id type priority pre); auto.
      * pose proof (ev_next _ _ Hev1). lia.
      * unfold put_source. cbn. by rewrite Hg.
    + split_and!; [done|done| |done]. exists pre. split; [done|]. unfold put_source. cbn. by rewrite Hg.
  - assert (pr_units pre = [] ∧ cached pre = []) as [Hu Hc].
    { destruct (Hbad Hne) as [->|]; [by split|done]. }
    assert (holds src' = []) as Hnil.
    { change (holds src') with (holds (cached pre) ++ []). by rewrite Hc. }
    set (g1 := put_source g a src').
    apply wp_bind. eapply wp_mono.
    { apply (wp_source_release g1 a src' (holds (st_feed (w_stream w)) ++ L)).
      - apply put_lookup.
      - split; intros; by cbn in *.
      - done.
      - unfold g1. rewrite Hh, Hnil. eapply owns_proper; [|exact Ho1].
        rewrite holds_world. solve_Permutation. }
    intros g' s2 (Ho2 & Hev2 & Hg'). apply wp_ret. rewrite decide_True in Hg' by done.
    assert (g_sources g' = g_sources (w_graph w)) as Hgs.
    { rewrite Hg'. unfold free_source, g1, put_source, stream_release. cbn.
      by rewrite delete_insert_eq, Hg, delete_id. }
    set (w' := w <| w_graph := g' |>). cbn [fst snd].
    assert (holds w' = holds w) as Hhw.
    { rewrite !holds_world. f_equal. by apply holds_graph_ext. }
    assert (owns s2 (holds w ++ L)) as Ho2'.
    { eapply owns_proper; [|exact Ho2]. rewrite holds_world, (holds_graph_ext _ _ Hgs).
      solve_Permutation. }
    split_and!; [by etrans|by rewrite Hhw| |by split].
    apply (gate_inv_ext s2 _ w); [|done|done].
    by apply (world_inv_stable s1 s2 w L).
Qed.

Lemma wp_stream_source_add pol s w id type priority L :
  world_inv s w → owns s (holds w ++ L) →
  wp (stream_source_add pol w id type priority) (λ r s', evolves s s' ∧
    owns s' (holds r.2 ++ L) ∧ world_inv s' r.2 ∧ add_post w id type priority r) s.
Proof.
  intros Hi Ho. unfold stream_source_add.
  assert (∀ g', g_sources g' = g_sources (w_graph w) → ∀ s', evolves s s' →
    owns s' (holds w ++ L) →
    wp (mret (None, w <| w_graph := g' |>)) (λ r s'', evolves s s'' ∧
      owns s'' (holds r.2 ++ L) ∧ world_inv s'' r.2 ∧ add_post w id type priority r) s') as Hfail.
  { intros g' Hg s' Hev Ho'. apply wp_ret. cbn [fst snd]. split_and!; [done| | |by split].
    - rewrite holds_world. cbn [setf w_graph w_stream]. by rewrite (holds_graph_ext _ _ Hg).
    - apply (gate_inv_ext s' _ w); [|done|done]. by apply (world_inv_stable s s' w L). }
  assert (w = w <| w_graph := w_graph w |>) as Hw by (by destruct w).
  destruct (_ || _); [rewrite Hw at 1; by apply Hfail|].
  apply wp_bind. eapply wp_mono; [apply wp_find_loop|].
  { intros q Hq. destruct (wi_queue _ _ _ _ Hi q Hq) as (x & ? & _). eauto. }
  intros [q|] _ [-> Hf]; [rewrite Hw at 1; by apply Hfail|].
  destruct (model_admit pol (g_objects (w_graph w)) MODEL_SOURCE) as [rc objs].
  destruct (bool_decide (rc = NGX_ERROR)); [rewrite Hw at 1; by apply Hfail|].
  apply wp_bind. eapply wp_mono; [by apply wp_ngx_alloc|].
  intros [a|] s1 (Ho1 & Hev1 & Ha); [|by apply Hfail].
  destruct (Ha a eq_refl) as (_ & Hna & Hge & Hlt).
  apply wp_bind. eapply wp_mono; [by apply wp_string_set|].
  intros [rc2 name] s2 (Ho2 & Hev2 & Hok & _). cbn [fst snd] in *.
  assert (evolves s s2) as Hev by (by etrans).
  destruct (bool_decide_reflect (rc2 = NGX_OK)) as [->|]; [|by apply Hfail].
  rewrite (Hok eq_refl).
  assert (g_sources (w_graph w) !! a = None) as Hnone.
  { destruct (g_sources (w_graph w) !! a) eqn:E; [|done].
    pose proof (wi_fresh _ _ _ _ Hi _ _ E). lia. }
  pose proof (ev_next _ _ Hev2). pose proof (world_inv_stable _ _ _ _ Hi Ho Ho2 Hev) as Hi2.
  eapply wp_mono; [eapply (wp_add_cache s2 w _ a id type priority L Hi2 Ho2 Hnone); [lia|done|done]|].
  intros r s3 (? & ? & ? & ?). split_and!; auto. by etrans.
Qed.

(** ** Teardown *)

(** Sources another holder keeps: removed before, of another stream, or leased. *)
Definition kept_by_others (w : world) (src : source) : Prop :=
  so_stream src ≠ st_id (w_stream w) ∨ so_pending_remove src = true ∨ so_references src ≠ 1.

Lemma wp_retire_loop queue s w L :
  world_inv s w → st_sources (w_stream w) = queue → owns s (holds w ++ L) →
  wp (retire_loop w queue) (λ w' s', evolves s s' ∧ owns s' (holds w' ++ L) ∧ world_inv s' w' ∧
    st_sources (w_stream w') = [] ∧ st_id (w_stream w') = st_id (w_stream w) ∧
    st_active (w_stream w') = None ∧
    ∀ id src', g_sources (w_graph w') !! id = Some src' →
      ∃ src, g_sources (w_graph w) !! id = Some src ∧ kept_by_others w src) s.
Proof.
  revert s w. induction queue as [|q queue IH]; intros s w Hi Hq Ho; cbn [retire_loop].
  - apply wp_ret. split_and!; auto with media.
    + destruct (st_active (w_stream w)) as [a|] eqn:E; [|done].
      apply (wi_active _ _ _ _ Hi) in E. rewrite Hq in E. set_solver.
    + intros id src Hs. exists src. split; [done|].
      destruct (N.eq_dec (so_stream src) (st_id (w_stream w))) as [Hst|]; [|by left].
      right. left. pose proof (wi_sources _ _ _ _ Hi _ _ Hs Hst) as Hwf.
      destruct (so_pending_remove src) eqn:E; [done|].
      apply (sw_linked _ _ _ _ _ _ Hwf) in E. rewrite Hq in E. set_solver.
  - destruct (queue_source B _ _ q Hi) as (src & Hs & Hst & Hpr & Hwf); [rewrite Hq; set_solver|].
    apply wp_bind. eapply wp_mono; [by apply (wp_stream_source_remove s w q src L)|].
    intros w1 s1 (Hev1 & Ho1 & Hi1 & Hpost). rewrite Hst, N.eqb_refl, Hpr in Hpost.
    cbn [negb orb] in Hpost. destruct Hpost as [Hw1 Hg1].
    assert (st_id (w_stream w1) = st_id (w_stream w)) as Hid.
    { rewrite Hw1. unfold unlinked. by case_bool_decide. }
    eapply wp_mono; [apply (IH s1 w1); auto|].
    { rewrite Hw1, unlinked_queue, Hq. pose proof (wi_nodup _ _ _ _ Hi) as Hnd. rewrite Hq in Hnd.
      apply NoDup_cons in Hnd as [Hnin Hnd]. rewrite filter_cons_False by naive_solver.
      clear -Hnin. induction queue as [|x l IHl]; [done|]. apply not_elem_of_cons in Hnin as [Hne Hnin].
      rewrite filter_cons_True by done. f_equal. by apply IHl. }
    intros w' s' (Hev & Ho' & Hi' & Hnil & Hid' & Hact & Hsurv).
    split_and!; [by etrans|done|done|done|congruence|done|].
    intros i x Hx. destruct (Hsurv i x Hx) as (y & Hy & Hk).
    rewrite Hg1 in Hy. unfold kept_by_others in *. rewrite Hid in Hk.
    destruct (Z.eqb_spec (so_references src) 1).
    + apply lookup_delete_Some in Hy as [_ Hy]. eauto.
    + apply lookup_insert_Some in Hy as [[<- _]|[_ Hy]]; eauto.
Qed.

Lemma wp_stream_retire s w L :
  world_inv s w → owns s (holds w ++ L) →
  wp (stream_retire w) (λ w' s', evolves s s' ∧ owns s' (holds w' ++ L) ∧ world_inv s' w' ∧
    st_running (w_stream w') = false ∧ st_active (w_stream w') = None ∧
    st_sources (w_stream w') = [] ∧
    ∀ id src', g_sources (w_graph w') !! id = Some src' →
      ∃ src, g_sources (w_graph w) !! id = Some src ∧ kept_by_others w src) s.
Proof.
  intros Hi Ho. unfold stream_retire. set (w0 := setf w_stream _ w).
  assert (world_inv s w0) as Hi0.
  { destruct Hi. split; auto. by eapply program_inv_ext. }
  apply wp_bind. eapply wp_mono; [by apply (wp_retire_loop _ s w0 L Hi0)|].
  intros w1 s1 (Hev & Ho1 & Hi1 & Hnil & _ & Hact & Hk). apply wp_ret.
  split_and!; [done|exact Ho1| |done|done|done|exact Hk].
  unfold world_inv in Hi1. rewrite Hact in Hi1. destruct Hi1. split; cbn; auto.
  - by eapply program_inv_ext.
  - by rewrite Hnil in wi_sources.
  - set_solver.
  - constructor.
  - done.
Qed.

Lemma wp_stream_destroy s w L :
  world_inv s w → owns s (holds w ++ L) →
  wp (stream_destroy w) (λ w' s', owns s' (holds (w_graph w') ++ L) ∧
    st_feed (w_stream w') = feed_zero ∧ st_sources (w_stream w') = [] ∧
    ∀ id src', g_sources (w_graph w') !! id = Some src' →
      ∃ src, g_sources (w_graph w) !! id = Some src ∧ kept_by_others w src) s.
Proof.
  intros Hi Ho. apply wp_bind. eapply wp_mono; [by apply wp_stream_retire|].
  intros w1 s1 (_ & Ho1 & Hi1 & _ & _ & Hnil & Hk).
  pose proof (pg_feed _ _ _ (wi_program _ _ _ _ Hi1)) as Hfd.
  rewrite holds_world, <- app_assoc in Ho1. apply wp_bind.
  eapply wp_mono; [by apply wp_feed_destroy|]. intros fd s2 [-> Ho2]. apply wp_ret.
  by split_and!.
Qed.

(** ** The start of a stream *)

Lemma wp_stream_init s st application name conf shared incarnation g L :
  owns s (holds g ++ L) → 0 < conf_max_units conf < 2 ^ 63 → 0 ≤ conf_max_bytes conf < 2 ^ 63 →
  addresses_below s g → (∀ id src, g_sources g !! id = Some src → so_stream src ≠ st_id st) →
  wp (stream_init st application name conf shared incarnation) (λ r s',
    evolves s s' ∧
    (r.1.1 = NGX_OK →
       let w := mk_world r.1.2 g in
       owns s' (holds w ++ L) ∧ world_inv s' w ∧ st_running (w_stream w) = true ∧
       st_generation (w_stream w) = 1 ∧ st_sources (w_stream w) = [] ∧
       st_program_frames (w_stream w) = 0 ∧ st_id (w_stream w) = st_id st ∧
       st_incarnation (w_stream w) = r.2 ∧ r.2 ≠ 0)) s.
Proof.
  intros Ho Hu Hb Hfr Hno. unfold stream_init.
  destruct name as [name|]; [|by apply wp_ret]. destruct (_ || _); [by apply wp_ret|].
  apply wp_bind. eapply wp_mono; [by apply wp_ngx_alloc|].
  intros [a|] s1 (Ho1 & Hev1 & _); [|by apply wp_ret]. apply wp_bind. eapply wp_mono.
  { instantiate (1 := λ _ s', owns s' (holds g ++ L) ∧ evolves s1 s'). caseb.
    - eapply wp_mono; [by apply wp_ngx_alloc|]. intros p s' (? & ? & _). by split.
    - apply wp_ret. by split. }
  intros [b|] s2 (Ho2 & Hev2); [|by apply wp_ret; split; [by etrans|]].
  apply wp_bind. eapply wp_mono; [by apply (wp_feed_init _ _ _ _ Ho2)|].
  intros [rc fd] s3 (Ho3 & Hev3 & Hok). cbn [fst snd] in *.
  assert (evolves s s3) as Hev by (do 2 (etrans; [done|]); done).
  destruct (bool_decide_reflect (rc = NGX_OK)) as [->|]; [|by apply wp_ret].
  destruct (Hok eq_refl) as (Hfd & Hret & Hgen & Hhd & Htl & Hkf).
  apply wp_ret. cbn [fst snd]. split; [done|]. intros _. set (w := mk_world _ g).
  assert (holds w = holds g) as Hh.
  { rewrite holds_world. unfold holds at 1, owner_feed. cbn. by rewrite Hret. }
  assert (incarnation_next shared incarnation ≠ 0) as Hinc.
  { unfold incarnation_next. caseb; [done|done]. }
  split_and!; try done; [by rewrite Hh|].
  split; cbn; try done.
  - split; cbn; auto.
    + unfold kf_inv. rewrite Hret, Hkf. split; [by constructor|done].
    + apply tl_inv_init. done.
    + rewrite Hret. constructor.
    + rewrite Hret. constructor.
  - intros id src Hs E. by apply Hno in Hs.
  - intros q Hq. set_solver.
  - constructor.
  - intros id src Hs. specialize (Hfr _ _ Hs). pose proof (ev_next _ _ Hev). lia.
Qed.
End lifecycle.

(** ** Histories *)

Inductive stream_op :=
  | OpAdd (id : list Z) (type priority : Z)
  | OpRemove (id : N)
  | OpPublish (id : N) (f : frame) (now : Z)
  | OpPromote (id : N)
  | OpResolve
  | OpLeaseBegin (id : N)
  | OpLeaseEnd (id : N)
  | OpTracks (id : N) (tracks : trackset)
  | OpHealthInit (id : N) (now : Z)
  | OpHealth (id : N) (e : hevent)
  | OpSelect (now : Z)
  | OpSwitchback (now : Z)
  | OpPolicy (p : policy)
  | OpEnable (id : N) (enabled : bool) (shared_source shared_stream : option Z)
  | OpDesired (id : N) (priority : Z) (key : option (list Z * list Z)) (nonce : option (list Z)) (enabled : bool)
      (source_revision revision : Z).

(** A transport reports tracks or evidence for a source it feeds. *)
Definition report_tracks (w : world) (id : N) (tracks : trackset) : M world :=
  src ← get_source (w_graph w) id;
  r ← source_tracks_set src tracks;
  mret (w <| w_graph := put_source (w_graph w) id r.2 |>).
Definition report_health (w : world) (id : N) (f : health → health) : M world :=
  src ← get_source (w_graph w) id;
  mret (w <| w_graph := put_source (w_graph w) id (src <| so_health := f (so_health src) |>) |>).

(** The control API enables or disables a source. *)
Definition source_set_enabled (w : world) (id : N) (enabled : bool) (shared_source shared_stream : option Z) : M world :=
  src ← get_source (w_graph w) id;
  let src := source_touch shared_source (src <| so_enabled := enabled |>) in
  mret ((w <| w_graph := put_source (w_graph w) id src |>) <| w_stream ::= stream_touch shared_stream |>).
(** A worker takes over the desired state of a source from another worker's operation. *)
Definition source_desired (w : world) (id : N) (priority : Z) (key : option (list Z * list Z)) (nonce : option (list Z)) (enabled : bool)
    (source_revision revision : Z) : M world :=
  src ← get_source (w_graph w) id;
  let src := src <| so_priority := priority |> in
  let src := match key with Some (hash, print) => source_key_set src hash print | None => src end in
  let src := match nonce with Some n => source_key_nonce src n | None => src end in
  let src := src <| so_enabled := enabled |> <| so_revision := source_revision |> in
  mret ((w <| w_graph := put_source (w_graph w) id src |>) <| w_stream ::= λ st, st <| st_revision := revision |> |>).

Definition op_run (pol : option policy) (op : stream_op) (w : world) : M world :=
  match op with
  | OpAdd id type priority => r ← stream_source_add pol w id type priority; mret r.2
  | OpRemove id => stream_source_remove w id
  | OpPublish id f now => r ← stream_publish w id f now; mret r.2
  | OpPromote id => r ← stream_promote w id; mret r.2
  | OpResolve => stream_switch_resolve w
  | OpLeaseBegin id => r ← stream_lease_begin w id; mret r.2
  | OpLeaseEnd id => stream_lease_end w id
  | OpTracks id tracks => report_tracks w id tracks
  | OpHealthInit id now => report_health w id (λ _, health_init (st_selector (w_stream w)) now)
  | OpHealth id e => report_health w id (λ h, health_step h e)
  | OpSelect now => r ← selector_run w now; mret r.1.2
  | OpSwitchback now => r ← selector_switchback w now; mret r.2
  | OpPolicy p => mret (w <| w_stream ::= λ st, stream_set_policy st p |>)
  | OpEnable id enabled shared_source shared_stream => source_set_enabled w id enabled shared_source shared_stream
  | OpDesired id priority key nonce enabled source_revision revision =>
      source_desired w id priority key nonce enabled source_revision revision
  end.

(** What a caller guarantees: source handles are alive (the stream's own for the end
    of a lease), published payloads are held by the caller, timestamps are bounded,
    the reference count has room for one more lease, and program time has [room]. *)
Definition op_ok (B : Z) (L : list N) (w : world) (op : stream_op) : Prop :=
  room B w ∧
  match op with
  | OpAdd _ _ _ | OpResolve | OpSelect _ | OpSwitchback _ | OpPolicy _ => True
  | OpRemove id | OpPromote id | OpHealthInit id _ | OpHealth id _ | OpEnable id _ _ _ | OpDesired id _ _ _ _ _ _ => is_Some (g_sources (w_graph w) !! id)
  | OpPublish id f _ =>
      is_Some (g_sources (w_graph w) !! id) ∧ holds f ⊆ L ∧ frame_bound B f
  | OpTracks id tracks =>
      is_Some (g_sources (w_graph w) !! id) ∧ holds tracks ⊆ L ∧ trackset_inv tracks ∧
      ts_count tracks < 2 ^ 63
  | OpLeaseBegin id =>
      ∃ src, g_sources (w_graph w) !! id = Some src ∧ so_references src < 2 ^ 63
  | OpLeaseEnd id =>
      ∃ src, g_sources (w_graph w) !! id = Some src ∧ so_stream src = st_id (w_stream w)
  end.

Inductive history (B : Z) (pol : option policy) (L : list N) :
    world → store → world → store → Prop :=
  | history_nil w s : history B pol L w s w s
  | history_cons w s op w1 s1 w2 s2 :
      op_ok B L w op → op_run pol op w s = Some (w1, s1) →
      history B pol L w1 s1 w2 s2 → history B pol L w s w2 s2.

Lemma wp_report_tracks B (HB : 0 ≤ B) L s w id src tracks :
  world_inv B s w → owns s (holds w ++ L) → g_sources (w_graph w) !! id = Some src →
  holds tracks ⊆ L → trackset_inv tracks → ts_count tracks < 2 ^ 63 →
  wp (report_tracks w id tracks) (λ w' s', world_inv B s' w' ∧ owns s' (holds w' ++ L)) s.
Proof.
  intros Hi Ho Hs Hin Ht Hc. apply wp_bind, (get_source_wp _ _ src); [done|].
  set (R := holds (others (w_graph w) id) ++ holds (st_feed (w_stream w)) ++ L).
  assert (∀ x, holds (w <| w_graph := put_source (w_graph w) id x |>) ++ L ≡ₚ holds x ++ R) as Hh.
  { intros x. rewrite holds_world. cbn [setf w_stream w_graph]. rewrite owner_graph_put.
    unfold R, others. solve_Permutation. }
  assert (w <| w_graph := put_source (w_graph w) id src |> = w) as Hw.
  { destruct w as [st g]. cbn. f_equal. destruct g as [gs ob re]. unfold put_source. cbn in *.
    by rewrite insert_id. }
  apply wp_bind. eapply wp_mono.
  { apply (wp_source_tracks_set src tracks R s); [|unfold R; set_solver|done|done].
    by rewrite <- Hh, Hw. }
  intros [rc src'] s' (Ho' & Hev & Hr). apply wp_ret. cbn [fst snd] in *. rewrite <- Hh in Ho'.
  assert (∃ x, src' = src <| so_tracks := x |> ∧
    match x with Some ts => trackset_inv ts | None => True end) as (x & -> & Hx).
  { destruct (decide (rc = NGX_OK)); [destruct Hr as (ts & -> & ? & _); by exists (Some ts)|by exists None]. }
  split; [|done]. eapply (world_update B HB s s' w id src (src <| so_tracks := x |>) L); auto.
  intros []. split; auto. eapply preroll_inv_stable; [done|exact Ho|exact Ho'|done|..].
  - rewrite holds_world. pose proof (holds_source_in _ _ _ Hs). pose proof (holds_preroll_in src). set_solver.
  - rewrite Hh. pose proof (holds_preroll_in (src <| so_tracks := x |>)) as Hp. cbn in Hp. set_solver.
Qed.

Lemma wp_report_health B L s w id src f :
  world_inv B s w → owns s (holds w ++ L) → g_sources (w_graph w) !! id = Some src →
  wp (report_health w id f) (λ w' s', world_inv B s' w' ∧ owns s' (holds w' ++ L)) s.
Proof.
  intros Hi Ho Hs. apply wp_bind, (get_source_wp _ _ src); [done|]. apply wp_ret. split.
  - apply (world_inv_put B s w id src); auto. intros []. by split.
  - by rewrite (holds_put_world _ _ src).
Qed.

(** What only the owner of the stream reads, the gate does not look at. *)
Lemma world_inv_desired B s w f :
  (∀ st, st_feed (f st) = st_feed st ∧ st_timeline (f st) = st_timeline st ∧ st_sources (f st) = st_sources st ∧ st_id (f st) = st_id st ∧
     st_active (f st) = st_active st ∧ st_program_frames (f st) = st_program_frames st ∧ st_generation (f st) = st_generation st) →
  world_inv B s w → world_inv B s (w <| w_stream ::= f |>).
Proof.
  intros Hf []. destruct (Hf (w_stream w)) as (E1 & E2 & E3 & E4 & E5 & E6 & E7). split; cbn; rewrite ?E3, ?E4, ?E5; try done.
  by eapply program_inv_ext.
Qed.
Lemma holds_desired (w : world) f : (∀ st, st_feed (f st) = st_feed st) → holds (w <| w_stream ::= f |>) = holds w.
Proof. intros Hf. rewrite !holds_world. cbn. by rewrite Hf. Qed.

Lemma wp_op B (HB : 0 ≤ B) pol L op w s :
  world_inv B s w → owns s (holds w ++ L) → op_ok B L w op →
  wp (op_run pol op w) (λ w' s', world_inv B s' w' ∧ owns s' (holds w' ++ L)) s.
Proof.
  intros Hi Ho [Hroom Hok]. destruct op as [id type priority|id|id f now|id| |id|id|id tracks|id now|id e|now|now|p|id en sh sh'|id prio key nonce en srev rev];
    cbn [op_run].
  - apply wp_bind. eapply wp_mono; [by apply (wp_stream_source_add B HB)|].
    intros r s' (_ & ? & ? & _). by apply wp_ret.
  - destruct Hok as [src Hs].
    eapply wp_mono; [by apply (wp_stream_source_remove B HB s w id src L)|]. naive_solver.
  - destruct Hok as ([src Hs] & Hf & Hb). apply wp_bind.
    eapply wp_mono; [by apply (wp_stream_publish B HB s w id src f now L)|].
    intros r s' (_ & ? & ? & _). by apply wp_ret.
  - destruct Hok as [src Hs]. apply wp_bind.
    eapply wp_mono; [by apply (wp_stream_promote B HB s w id src L)|].
    intros r s' (_ & ? & ? & _). by apply wp_ret.
  - eapply wp_mono; [apply (wp_resolve_loop B HB _ s w L Hi); [done|done|]|].
    + eapply budget_mono; [done|exact Hroom|]. unfold PREROLL_UNITS. lia.
    + naive_solver.
  - destruct Hok as (src & Hs & Hr). apply wp_bind.
    eapply wp_mono; [by apply (wp_stream_lease_begin B s w id src L)|].
    intros r s' (-> & ? & ? & _). by apply wp_ret.
  - destruct Hok as (src & Hs & Hst).
    eapply wp_mono; [by apply (wp_stream_lease_end B HB s w id src L)|]. naive_solver.
  - destruct Hok as ([src Hs] & ? & ? & ?). by eapply wp_report_tracks.
  - destruct Hok as [src Hs]. by eapply wp_report_health.
  - destruct Hok as [src Hs]. by eapply wp_report_health.
  - apply wp_bind. eapply wp_mono; [by apply (wp_selector_run B HB s w now L)|].
    intros r s' (_ & ? & ? & _). by apply wp_ret.
  - apply wp_bind. eapply wp_mono; [by apply (wp_selector_switchback B HB s w now L)|].
    intros r s' (_ & ? & ? & _). by apply wp_ret.
  - apply wp_ret. rewrite holds_desired by done. split; [by apply world_inv_desired|done].
  - destruct Hok as [src Hs]. apply wp_bind, (get_source_wp _ _ src); [done|]. apply wp_ret. rewrite holds_desired by done. split.
    + apply world_inv_desired; [done|]. apply (world_inv_put B s w id src); auto. intros []. by split.
    + by rewrite (holds_put_world _ _ src).
  - destruct Hok as [src Hs]. apply wp_bind, (get_source_wp _ _ src); [done|]. apply wp_ret. rewrite holds_desired by done. split.
    + apply world_inv_desired; [done|]. apply (world_inv_put B s w id src); auto; [by destruct key as [[]|], nonce|].
      intros []. destruct key as [[]|], nonce; by split.
    + rewrite (holds_put_world _ _ src); [done|done|by destruct key as [[]|], nonce].
Qed.

Lemma history_inv B (HB : 0 ≤ B) pol L w s w' s' :
  history B pol L w s w' s' → world_inv B s w → owns s (holds w ++ L) →
  world_inv B s' w' ∧ owns s' (holds w' ++ L).
Proof.
  induction 1 as [|w s op w1 s1 w2 s2 Hok Hrun _ IH]; intros Hi Ho; [done|].
  destruct (wp_run _ _ _ _ _ (wp_op B HB pol L op w s Hi Ho Hok) Hrun). auto.
Qed.

(** ** A concrete stream with one source, at address 3 *)

Definition ex_graph0 : graph := mk_graph ∅ [0; 0; 0] {[ 100%N := 0 ]}.
Definition ex_init : M (rc * stream * Z) :=
  stream_init (stream_zero 100) None (Some [112]) (mk_feed_conf 8 0 0) None 0.
Definition ex_add : stream_op := OpAdd [97] 1 10.
Definition ex_B : Z := 2 ^ 33.

(** Running a computation and then another one, seen through a projection. *)
Lemma two_steps {A C D} (m : M A) (k : A → M C) (P : A → C → D) s v :
  (λ x, P x.1.1 x.1.2) <$> (a ← m; c ← k a; mret (a, c)) s = Some v →
  ∃ a s1 c s2, m s = Some (a, s1) ∧ k a s1 = Some (c, s2) ∧ P a c = v.
Proof.
  unfold mbind, SM_bind, mret, SM_ret. destruct (m s) as [[a s1]|] eqn:Em; [|done].
  destruct (k a s1) as [[c s2]|] eqn:Ek; [|done]. intros [= <-]. by exists a, s1, c, s2.
Qed.

(** What the examples need to know of the world after [ex_add]. *)
Definition ex_view (w : world) :=
  (st_program_frames (w_stream w), st_sources (w_stream w), st_active (w_stream w),
   st_running (w_stream w), so_state <$> g_sources (w_graph w) !! 3%N).

Lemma ex_setup_run :
  ∃ r s1 w s, ex_init ex_store = Some (r, s1) ∧
    op_run None ex_add (mk_world r.1.2 ex_graph0) s1 = Some (w, s) ∧
    (r.1.1, st_program_frames r.1.2, st_sources r.1.2, ex_view w)
      = (NGX_OK, 0, [], (0, [3%N], None, true, Some STANDBY)).
Proof.
  apply (two_steps ex_init (λ r, op_run None ex_add (mk_world r.1.2 ex_graph0))
    (λ r w, (r.1.1, st_program_frames r.1.2, st_sources r.1.2, ex_view w))).
  vm_compute. reflexivity.
Qed.

(** A world some history of operations reaches from a freshly initialised stream, with
    the caller holding [L]. *)
Definition reachable (B : Z) (pol : option policy) (L : list N) (w : world) (s : store) : Prop :=
  ∃ st application name conf shared inc g s0 st1 inc1 s1,
    owns s0 (holds g ++ L) ∧ 0 < conf_max_units conf < 2 ^ 63 ∧ 0 ≤ conf_max_bytes conf < 2 ^ 63 ∧
    addresses_below s0 g ∧ (∀ id src, g_sources g !! id = Some src → so_stream src ≠ st_id st) ∧
    stream_init st application name conf shared inc s0 = Some ((NGX_OK, st1, inc1), s1) ∧
    history B pol L (mk_world st1 g) s1 w s.

Lemma reachable_inv B (HB : 0 ≤ B) pol L w s :
  reachable B pol L w s → world_inv B s w ∧ owns s (holds w ++ L).
Proof.
  intros (st & app & name & conf & shared & inc & g & s0 & st1 & inc1 & s1 & Ho & Hu & Hb & Hfr & Hno
    & Hinit & Hh).
  pose proof (wp_run _ _ _ _ _
    (wp_stream_init B HB s0 st app name conf shared inc g L Ho Hu Hb Hfr Hno) Hinit) as [_ Hok].
  destruct (Hok eq_refl) as (Ho1 & Hi1 & _). by eapply history_inv.
Qed.

Lemma history_snoc B pol L w s op w1 s1 w2 s2 :
  history B pol L w s w1 s1 → op_ok B L w1 op → op_run pol op w1 s1 = Some (w2, s2) →
  history B pol L w s w2 s2.
Proof.
  induction 1; intros; [econstructor; eauto; constructor|]. econstructor; eauto.
Qed.

Lemma reachable_step B pol L w s op w' s' :
  reachable B pol L w s → op_ok B L w op → op_run pol op w s = Some (w', s') →
  reachable B pol L w' s'.
Proof.
  intros (st & app & name & conf & shared & inc & g & s0 & st1 & inc1 & s1 & Hr) Hok Hrun.
  exists st, app, name, conf, shared, inc, g, s0, st1, inc1, s1. destruct_and! Hr.
  split_and!; auto. by eapply history_snoc.
Qed.

Lemma ex_reachable :
  ∃ w s src, reachable ex_B None [0%N; 0%N] w s ∧ room ex_B w ∧
    st_sources (w_stream w) = [3%N] ∧ st_active (w_stream w) = None ∧
    st_running (w_stream w) = true ∧
    g_sources (w_graph w) !! 3%N = Some src ∧ so_state src = STANDBY ∧
    so_stream src = st_id (w_stream w) ∧ so_pending_remove src = false.
Proof.
  destruct ex_setup_run as ([[rc st1] inc] & s1 & w & s & Hinit & Hadd & Heq).
  unfold ex_view in Heq. cbn [fst snd] in *.
  destruct (g_sources (w_graph w) !! 3%N) as [src|] eqn:Hs; [|done].
  injection Heq as -> Hf1 Hq1 Hf Hq Hact Hrun Hst.
  assert (room ex_B (mk_world st1 ex_graph0)) as Hroom1.
  { unfold room, budget. cbn [w_stream]. rewrite Hf1, Hq1. vm_compute. reflexivity. }
  assert (reachable ex_B None [0%N; 0%N] w s) as Hr.
  { exists (stream_zero 100), None, (Some [112]), (mk_feed_conf 8 0 0), None, 0,
      ex_graph0, ex_store, st1, inc, s1.
    split_and!; [exact ex_store_owns|done|done|done|done|done|done|exact Hinit|].
    apply (history_snoc _ _ _ _ _ ex_add (mk_world st1 ex_graph0) s1); [constructor|by split|exact Hadd]. }
  destruct (reachable_inv ex_B ltac:(done) _ _ _ _ Hr) as [Hi _].
  destruct (queue_source ex_B _ _ 3%N Hi) as (x & Hx & Hxst & Hpr & _); [rewrite Hq; set_solver|].
  rewrite Hs in Hx. injection Hx as <-.
  exists w, s, src. split_and!; try done.
  unfold room, budget. rewrite Hf, Hq. vm_compute. reflexivity.
Qed.

(** ** Properties *)

(** C1: the activation gate is safe in every reachable state: no operation a caller
    may issue is undefined behaviour (no dangling source or payload, no write outside
    a ring), a source is in state ACTIVE exactly when it is the stream's active source
    - so there is at most one writer of the program -, and the payload references held
    by the stream, its caches and its contracts are exactly the ones counted. *)
Theorem gate_safety B pol L w s :
  0 ≤ B → reachable B pol L w s →
  (∀ op, op_ok B L w op → ∃ w' s', op_run pol op w s = Some (w', s') ∧ reachable B pol L w' s') ∧
  (∀ id src, g_sources (w_graph w) !! id = Some src → so_stream src = st_id (w_stream w) →
     (so_state src = ACTIVE ↔ st_active (w_stream w) = Some id) ∧
     (so_active src = true ↔ st_active (w_stream w) = Some id)) ∧
  owns s (holds w ++ L).
Proof.
  intros HB Hr. destruct (reachable_inv B HB pol L w s Hr) as [Hi Ho]. split_and!; [| |done].
  - intros op Hok. destruct (wp_op B HB pol L op w s Hi Ho Hok) as (w' & s' & Hrun & _).
    exists w', s'. split; [done|]. by eapply reachable_step.
  - intros id src Hs Hst. pose proof (wi_sources _ _ _ _ Hi id src Hs Hst) as Hwf.
    split; apply Hwf.
Qed.
Lemma gate_safety_witness :
  ∃ w s w' s', reachable ex_B None [0%N; 0%N] w s ∧
    op_run None (OpPublish 3 ex_frame 0) w s = Some (w', s') ∧ reachable ex_B None [0%N; 0%N] w' s'.
Proof.
  destruct ex_reachable as (w & s & src & Hr & Hroom & _ & _ & _ & Hs & _).
  destruct (gate_safety ex_B None [0%N; 0%N] w s) as (Hop & _); [done|done|].
  destruct (Hop (OpPublish 3 ex_frame 0)) as (w' & s' & Hrun & Hr').
  { split; [done|]. split_and!; [by eexists|set_solver|]. by split; split; vm_compute. }
  exists w, s, w', s'. split_and!; [exact Hr|exact Hrun|exact Hr'].
Defined.

(** C2: program time only moves forward: in every reachable state - whatever the
    sources' clocks did, however often the stream switched - the DTS of the frames in
    the program feed are strictly increasing, the feed's sequence counts the program
    frames, and its generation is the stream's. *)
Theorem program_feed_ordered B pol L w s :
  0 ≤ B → reachable B pol L w s →
  StronglySorted Z.lt (slot_dts <$> retained (st_feed (w_stream w))) ∧
  f_head (st_feed (w_stream w)) = st_program_frames (w_stream w) ∧
  f_generation (st_feed (w_stream w)) = st_generation (w_stream w).
Proof.
  intros HB Hr. destruct (reachable_inv B HB pol L w s Hr) as [Hi _].
  destruct (wi_program _ _ _ _ Hi). by split_and!.
Qed.
Lemma program_feed_ordered_witness :
  ∃ w s, reachable ex_B None [0%N; 0%N] w s ∧
    f_generation (st_feed (w_stream w)) = st_generation (w_stream w).
Proof.
  destruct ex_reachable as (w & s & _ & Hr & _). exists w, s. split; [exact Hr|].
  apply (program_feed_ordered ex_B None [0%N; 0%N] w s); [done|exact Hr].
Defined.

(** C6: standby sources cannot reach the program: publishing a frame through a source
    that is not the active one and has no pending promotion - or that the gate refuses -
    leaves the stream (its feed, clock, counters, generation and active source)
    untouched; the call itself succeeds, or reports the refusal. *)
Theorem standby_isolated B pol L w s id src f now :
  0 ≤ B → reachable B pol L w s → op_ok B L w (OpPublish id f now) →
  g_sources (w_graph w) !! id = Some src → so_stream src = st_id (w_stream w) →
  st_active (w_stream w) ≠ Some id →
  keyframe f = false ∨ so_state src ≠ AWAITING_SYNC →
  ∃ rc w' s', stream_publish w id f now s = Some (rc, w', s') ∧
    w_stream w' = w_stream w ∧
    (if so_pending_remove src || negb (st_running (w_stream w)) then rc = NGX_ERROR ∧ w' = w
     else rc = NGX_OK).
Proof.
  intros HB Hr [Hroom (_ & Hf & Hb)] Hs Hst Hna Hkey.
  destruct (reachable_inv B HB pol L w s Hr) as [Hi Ho].
  destruct (wp_stream_publish B HB s w id src f now L Hi Hs Ho Hf Hb Hroom)
    as ([rc w'] & s' & Hrun & _ & _ & _ & _ & Hpost).
  pose proof (sw_active _ _ _ _ _ _ (wi_sources _ _ _ _ Hi id src Hs Hst)) as Hact.
  exists rc, w', s'. split; [done|]. unfold publish_post, refused in Hpost. cbn [fst snd] in Hpost.
  rewrite Hst, N.eqb_refl in Hpost. cbn [negb orb] in Hpost. rewrite (orb_comm (so_pending_remove _)).
  destruct (_ || _); [by simplify_eq|].
  rewrite (proj2 (Z.eqb_neq (so_state src) ACTIVE)) in Hpost by tauto.
  replace ((so_state src =? AWAITING_SYNC) && keyframe f) with false in Hpost; [tauto|].
  symmetry. apply andb_false_iff. destruct Hkey as [->|]; [by right|left; by apply Z.eqb_neq].
Qed.
Lemma standby_isolated_witness :
  ∃ w s w' s', reachable ex_B None [0%N; 0%N] w s ∧
    stream_publish w 3 ex_frame 0 s = Some (NGX_OK, w', s') ∧ w_stream w' = w_stream w.
Proof.
  destruct ex_reachable as (w & s & src & Hr & Hroom & Hq & Hact & Hrun & Hs & Hsb & Hst & Hpr).
  destruct (standby_isolated ex_B None [0%N; 0%N] w s 3 src ex_frame 0) as (rc & w' & s' & Hp & Hw & Hrc);
    [done|done| |done|done|by rewrite Hact|right; by rewrite Hsb|].
  { split; [done|]. split_and!; [by eexists|set_solver|]. by split; split; vm_compute. }
  rewrite Hpr, Hrun in Hrc. cbn [negb orb] in Hrc. rewrite Hrc in Hp.
  exists w, s, w', s'. split_and!; [exact Hr|exact Hp|exact Hw].
Defined.

(** C3: a switch is a fence. Switching to the source that is active already changes
    nothing of the stream; while a writer of the outgoing source still holds a lease the
    switch is refused with NGX_AGAIN and nothing at all changes; otherwise the source
    becomes the active one, the program generation and the switch counter move exactly
    when another source was active before, and the source's cached GOP, complete and in
    order, follows what the program feed retained - composition offsets and payloads
    preserved. *)
Theorem switch_cutover B pol L w s id src now :
  0 ≤ B → reachable B pol L w s → room B w → id ∈ st_sources (w_stream w) →
  g_sources (w_graph w) !! id = Some src →
  ∃ rc w' s', stream_switch_now w id now s = Some (rc, w', s') ∧
    if decide (st_active (w_stream w) = Some id) then rc = NGX_OK ∧ w_stream w' = w_stream w
    else if 0 <? old_writers w then rc = NGX_AGAIN ∧ w' = w
    else
      rc = NGX_OK ∧ st_active (w_stream w') = Some id ∧
      (let moved n := if st_active (w_stream w) is Some _ then n ⊕ 1 else n in
       st_generation (w_stream w') = moved (st_generation (w_stream w)) ∧
       st_switches (w_stream w') = moved (st_switches (w_stream w))) ∧
      st_program_frames (w_stream w')
        = st_program_frames (w_stream w) + Z.of_nat (length (cached (so_preroll src))) ∧
      ∃ new k, Forall2 maps_to (cached (so_preroll src)) new ∧
        retained (st_feed (w_stream w')) = drop k (retained (st_feed (w_stream w)) ++ new).
Proof.
  intros HB Hr Hroom Hin Hs. destruct (reachable_inv B HB pol L w s Hr) as [Hi Ho].
  destruct (queue_source B _ _ _ Hi Hin) as (x & Hx & Hst & Hpr & _).
  rewrite Hs in Hx. injection Hx as <-.
  destruct (wp_switch_now B HB s w id src now L Hi Hs Hst Hpr Ho)
    as ([rc w'] & s' & Hrun & _ & _ & _ & Hpost).
  { eapply budget_mono; [done|exact Hroom|]. unfold PREROLL_UNITS. lia. }
  exists rc, w', s'. split; [done|]. unfold switch_post in Hpost. cbn [fst snd] in Hpost.
  case_decide as Hact; [by simplify_eq|]. caseb_in Hpost; [by simplify_eq|].
  destruct Hpost as (-> & Hop & Hn & Hg & _ & new & (k & _ & Hk) & Hmap).
  unfold only_program in Hop. split; [done|]. rewrite Hop. unfold switched in *.
  destruct (st_active (w_stream w)) as [old|]; cbn in *;
    (split_and!; [done|done|done|done|by exists new, k]).
Qed.
Lemma switch_cutover_witness :
  ∃ w s w' s', reachable ex_B None [0%N; 0%N] w s ∧
    stream_switch_now w 3 0 s = Some (NGX_OK, w', s') ∧ st_active (w_stream w') = Some 3%N.
Proof.
  destruct ex_reachable as (w & s & src & Hr & Hroom & Hq & Hact & Hrun & Hs & _).
  destruct (switch_cutover ex_B None [0%N; 0%N] w s 3 src 0) as (rc & w' & s' & Hp & Hpost);
    [done|done|done|rewrite Hq; set_solver|done|].
  unfold old_writers in Hpost. rewrite Hact in Hpost. cbn in Hpost.
  destruct Hpost as (-> & Ha & _). exists w, s, w', s'. split_and!; [exact Hr|exact Hp|exact Ha].
Defined.

(** Removing a source is graceful. A source of the stream that is not already being
    removed leaves the queue at once; if it was the active one the stream has no active
    source and its program generation is fenced, otherwise the program is untouched. The
    source object itself goes away only with its last reference: while anyone else
    holds it, it stays allocated, marked for removal. No other source changes. *)
Theorem source_removed B pol L w s id src :
  0 ≤ B → reachable B pol L w s → id ∈ st_sources (w_stream w) →
  g_sources (w_graph w) !! id = Some src →
  ∃ w' s', stream_source_remove w id s = Some (w', s') ∧
    st_sources (w_stream w') = filter (λ q, q ≠ id) (st_sources (w_stream w)) ∧
    (if decide (st_active (w_stream w) = Some id)
     then st_active (w_stream w') = None ∧
          st_generation (w_stream w') = st_generation (w_stream w) ⊕ 1
     else st_active (w_stream w') = st_active (w_stream w) ∧
          st_feed (w_stream w') = st_feed (w_stream w) ∧
          st_generation (w_stream w') = st_generation (w_stream w)) ∧
    (if so_references src =? 1 then g_sources (w_graph w') !! id = None
     else ∃ src', g_sources (w_graph w') !! id = Some src' ∧ so_pending_remove src' = true ∧
            so_references src' = so_references src - 1 ∧ so_active src' = false) ∧
    (∀ i, i ≠ id → g_sources (w_graph w') !! i = g_sources (w_graph w) !! i) ∧
    owns s' (holds w' ++ L).
Proof.
  intros HB Hr Hin Hs. destruct (reachable_inv B HB pol L w s Hr) as [Hi Ho].
  destruct (queue_source B _ _ _ Hi Hin) as (x & Hx & Hst & Hpr & Hwf).
  rewrite Hs in Hx. injection Hx as <-.
  destruct (wp_stream_source_remove B HB s w id src L Hi Hs Ho)
    as (w' & s' & Hrun & _ & Ho' & _ & Hpost).
  rewrite Hst, N.eqb_refl, Hpr in Hpost. destruct Hpost as [Hw Hg].
  exists w', s'. rewrite Hw, Hg, unlinked_queue. split_and!; [done|done| | | |done].
  - unfold unlinked. case_decide; [rewrite bool_decide_true by done|rewrite bool_decide_false by done]; done.
  - caseb; [apply lookup_delete_eq|]. rewrite lookup_insert_eq. eexists. split; [done|].
    split_and!; [apply detached_fields|done|]. cbn.
    unfold detached. case_bool_decide; [done|].
    destruct (so_active src) eqn:E; [|done]. by apply (sw_flag _ _ _ _ _ _ Hwf) in E.
  - intros i Hne. caseb; [by rewrite lookup_delete_ne|by rewrite lookup_insert_ne].
Qed.
Lemma source_removed_witness :
  ∃ w s w' s', reachable ex_B None [0%N; 0%N] w s ∧
    stream_source_remove w 3 s = Some (w', s') ∧ st_sources (w_stream w') = [].
Proof.
  destruct ex_reachable as (w & s & src & Hr & _ & Hq & _ & _ & Hs & _).
  destruct (source_removed ex_B None [0%N; 0%N] w s 3 src) as (w' & s' & Hrun & Hnil & _);
    [done|done|rewrite Hq; set_solver|done|].
  exists w, s, w', s'. split_and!; [exact Hr|exact Hrun|]. rewrite Hnil, Hq. done.
Defined.

(** C13: teardown leaks nothing. Whatever a stream went through, destroying it always
    succeeds, leaves it without sources and with an empty feed, and keeps a source
    allocated only when somebody else holds it; if nobody does, the payload references
    that remain are exactly the caller's. *)
Theorem destroy_no_leak B pol L w s :
  0 ≤ B → reachable B pol L w s →
  ∃ w' s', stream_destroy w s = Some (w', s') ∧
    st_feed (w_stream w') = feed_zero ∧ st_sources (w_stream w') = [] ∧
    (∀ id src', g_sources (w_graph w') !! id = Some src' →
       ∃ src, g_sources (w_graph w) !! id = Some src ∧
         (so_stream src ≠ st_id (w_stream w) ∨ so_pending_remove src = true ∨ so_references src ≠ 1)) ∧
    ((∀ id src, g_sources (w_graph w) !! id = Some src →
        so_stream src = st_id (w_stream w) ∧ so_pending_remove src = false ∧ so_references src = 1) →
     g_sources (w_graph w') = ∅ ∧ owns s' L).
Proof.
  intros HB Hr. destruct (reachable_inv B HB pol L w s Hr) as [Hi Ho].
  destruct (wp_stream_destroy B HB s w L Hi Ho) as (w' & s' & Hrun & Ho' & Hfd & Hq & Hk).
  exists w', s'. split_and!; try done. intros Hall.
  assert (g_sources (w_graph w') = ∅) as Hnil.
  { apply map_empty. intros i. destruct (g_sources (w_graph w') !! i) as [x|] eqn:E; [|done].
    destruct (Hk i x E) as (src & Hsrc & Hkept). destruct (Hall i src Hsrc) as (? & ? & ?).
    destruct Hkept as [|[|]]; congruence. }
  split; [done|]. revert Ho'. unfold holds at 1, owner_graph. by rewrite Hnil, map_to_list_empty.
Qed.
Lemma destroy_no_leak_witness :
  ∃ w s w' s', reachable ex_B None [0%N; 0%N] w s ∧ stream_destroy w s = Some (w', s') ∧
    st_feed (w_stream w') = feed_zero.
Proof.
  destruct ex_reachable as (w & s & _ & Hr & _).
  destruct (destroy_no_leak ex_B None [0%N; 0%N] w s) as (w' & s' & Hrun & Hfd & _); [done|done|].
  exists w, s, w', s'. split_and!; [exact Hr|exact Hrun|exact Hfd].
Defined.

(** What a selector run does, in every reachable state. *)
Lemma selector_run_decides B pol L w s now :
  0 ≤ B → reachable B pol L w s → room B w → st_running (w_stream w) = true →
  ∃ rc w' res s' w1, selector_run w now s = Some (rc, w', res, s') ∧
    reachable B pol L w' s' ∧ evaluated w now (w1, res) ∧
    match target w1 res with
    | None => rc = NGX_OK ∧ w_stream w' = w_stream w
    | Some (t, e) =>
        st_active (w_stream w) ≠ Some t ∧ promoted w t (rc, w') ∧
        st_emergency_switches (w_stream w')
          = (if e then st_emergency_switches (w_stream w) ⊕ 1
             else st_emergency_switches (w_stream w))
    end.
Proof.
  intros HB Hr Hroom Hrn. destruct (reachable_inv B HB pol L w s Hr) as [Hi Ho].
  destruct (wp_selector_run B HB s w now L Hi Ho Hroom)
    as ([[rc w'] res] & s' & Hrun & _ & _ & _ & _ & w1 & He & Hpost). cbn [fst snd] in *.
  exists rc, w', res, s', w1. split_and!; [done| |done|].
  - apply (reachable_step B pol L w s (OpSelect now)); [done|by split|].
    cbn [op_run]. unfold mbind, SM_bind. by rewrite Hrun.
  - destruct (target w1 res) as [[t e]|] eqn:Ht.
    + pose proof (target_judged _ _ _ _ Ht) as Hor. split.
      * eapply judged_inactive; eauto.
      * by apply (run_post_promoted B HB s w now w1 res t e (rc, w')).
    + injection Hpost as -> ->. split; [done|]. by destruct He.
Qed.
(** The policy may change at any time. *)
Lemma reachable_policy B pol L w s p :
  reachable B pol L w s → room B w →
  reachable B pol L (w <| w_stream ::= λ st, stream_set_policy st p |>) s ∧ room B (w <| w_stream ::= λ st, stream_set_policy st p |>).
Proof. intros Hr Hroom. split; [|done]. by apply (reachable_step B pol L w s (OpPolicy p)). Qed.

(** Any source may be disabled, active or not. *)
Lemma reachable_disabled B pol L w s id src :
  reachable B pol L w s → room B w → g_sources (w_graph w) !! id = Some src →
  ∃ w', reachable B pol L w' s ∧ st_sources (w_stream w') = st_sources (w_stream w) ∧ so_enabled <$> g_sources (w_graph w') !! id = Some false.
Proof.
  intros Hr Hroom Hs. set (src' := source_touch None (src <| so_enabled := false |>)).
  exists ((w <| w_graph := put_source (w_graph w) id src' |>) <| w_stream ::= stream_touch None |>). split_and!.
  - apply (reachable_step B pol L w s (OpEnable id false None None)); [done|split; [done|by exists src]|].
    cbn [op_run]. unfold source_set_enabled, mbind, SM_bind, get_source. by rewrite Hs.
  - done.
  - cbn. by rewrite lookup_insert_eq.
Qed.

(** C5: the selector picks the right source. In every reachable state a selection pass
    changes nothing but the health and compatibility verdicts of the stream's sources,
    and reports: as best, the first source in queue order of the highest priority among
    those enabled, eligible, compatible with the program and not active; as emergency,
    the same among the incompatible ones; how many sources besides the active one are
    enabled and eligible; and whether the active source still is eligible. *)
Theorem selection_correct B pol L w s now :
  0 ≤ B → reachable B pol L w s →
  ∃ w1 res l program, selector_evaluate w now s = Some (w1, res, s) ∧
    w_stream w1 = w_stream w ∧ program_tracks w s = Some (program, s) ∧
    l.*1 = st_sources (w_stream w) ∧
    refreshed (st_active (w_stream w)) program now (w_graph w) l ∧
    (∀ q x, (q, x) ∈ l → g_sources (w_graph w1) !! q = Some x) ∧
    (∀ i, i ∉ st_sources (w_stream w) →
       g_sources (w_graph w1) !! i = g_sources (w_graph w) !! i) ∧
    verdict (st_active (w_stream w)) l res.
Proof.
  intros HB Hr. destruct (reachable_inv B HB pol L w s Hr) as [Hi Ho].
  destruct (wp_selector_evaluate B HB s w now L Hi Ho)
    as ([w1 res] & s1 & Hrun & -> & _ & _ & Hst & l & program & Hl & Hp & Hrf & Hv & Hin & Hout).
  exists w1, res, l, program. rewrite Hp. by split_and!.
Qed.
Lemma selection_correct_witness :
  ∃ w s w1 res l, reachable ex_B None [0%N; 0%N] w s ∧ selector_evaluate w 0 s = Some (w1, res, s) ∧
    st_sources (w_stream w) = [3%N] ∧ so_enabled <$> g_sources (w_graph w) !! 3%N = Some false ∧
    verdict (st_active (w_stream w)) l res.
Proof.
  destruct ex_reachable as (w & s & src & Hr & Hroom & Hq & _ & _ & Hs & _).
  destruct (reachable_disabled ex_B None [0%N; 0%N] w s 3%N src Hr Hroom Hs) as (w' & Hr' & Hq' & Hs').
  destruct (selection_correct ex_B None [0%N; 0%N] w' s 0) as (w1 & res & l & pr & Hrun & _ & _ & _ & _ & _ & _ & Hv); [done|exact Hr'|].
  exists w', s, w1, res, l. split_and!; [exact Hr'|exact Hrun|by rewrite Hq'|exact Hs'|exact Hv].
Defined.


(** The counter of emergency switches grows with the selector runs that promote an emergency
    source; a failover to a compatible source is not counted. *)
Theorem emergency_counter B pol L w s now :
  0 ≤ B → reachable B pol L w s → room B w → st_running (w_stream w) = true →
  ∃ rc w' res s' w1, selector_run w now s = Some (rc, w', res, s') ∧ evaluated w now (w1, res) ∧
    st_emergency_switches (w_stream w') =
      match target w1 res with Some (_, true) => st_emergency_switches (w_stream w) ⊕ 1 | _ => st_emergency_switches (w_stream w) end.
Proof.
  intros HB Hr Hroom Hrn. destruct (selector_run_decides B pol L w s now HB Hr Hroom Hrn) as (rc & w' & res & s' & w1 & H1 & _ & H3 & H4).
  exists rc, w', res, s', w1. split_and!; [done..|]. destruct (target w1 res) as [[t []]|].
  - by destruct H4 as (_ & _ & ?).
  - by destruct H4 as (_ & _ & ?).
  - destruct H4 as [_ ->]. done.
Qed.
Lemma emergency_counter_witness :
  ∃ w s rc w' res s', reachable ex_B None [0%N; 0%N] w s ∧ selector_run w 0 s = Some (rc, w', res, s').
Proof.
  destruct ex_reachable as (w & s & src & Hr & Hroom & _ & _ & Hrun & _).
  destruct (emergency_counter ex_B None [0%N; 0%N] w s 0) as (rc & w' & res & s' & w1 & H1 & _); [done|done|done|done|].
  exists w, s, rc, w', res, s'. split; [exact Hr|exact H1].
Defined.

(** Two sources, 3 = A and 6 = B. B is promoted without a cached GOP and waits; then A,
    which has one, is promoted and becomes active. *)
Definition ex_ops : list stream_op :=
  [OpAdd [97] 1 10; OpAdd [98] 1 5; OpPromote 6; OpPublish 3 ex_frame 0; OpPromote 3].

Fixpoint ops_run (pol : option policy) (ops : list stream_op) (w : world) : M world :=
  match ops with
  | [] => mret w
  | op :: ops => w ← op_run pol op w; ops_run pol ops w
  end.

(** The promotion of B is not withdrawn when A is promoted: B's next keyframe takes the
    stream back from A. *)
Example stale_promotion_fires :
  (λ x, st_active (w_stream x.1)) <$>
    (r ← ex_init; ops_run None ex_ops (mk_world r.1.2 ex_graph0)) ex_store = Some (Some 3%N) ∧
  (λ x, st_active (w_stream x.1)) <$>
    (r ← ex_init; ops_run None (ex_ops ++ [OpPublish 6 ex_frame 0]) (mk_world r.1.2 ex_graph0))
      ex_store = Some (Some 6%N).
Proof. split; vm_compute; reflexivity. Qed.

(** The emergency counter counts the selector's attempts, not switches: while the only
    candidate is incompatible and has no cached GOP, every run counts once more although
    no switch happens. *)
Definition ex_stuck : list stream_op :=
  [OpAdd [97] 1 10; OpAdd [98] 1 5; OpPublish 3 ex_frame 0; OpPromote 3;
   OpTracks 3 (mk_trackset [ex_video] 1 1); OpTracks 6 (mk_trackset [ex_audio] 1 1);
   OpHealthInit 3 0; OpHealth 3 (HTransport false 1);
   OpHealthInit 6 0; OpHealth 6 (HTransport true 1); OpHealth 6 (HMedia 90 1)].
Example emergency_counts_attempts :
  (λ n, (λ x, (st_active (w_stream x.1), st_switches (w_stream x.1),
               st_emergency_switches (w_stream x.1))) <$>
     (r ← ex_init; ops_run None (ex_stuck ++ replicate n (OpSelect 2)) (mk_world r.1.2 ex_graph0))
       ex_store) <$> [0; 1; 3]%nat
  = [Some (Some 3%N, 0, 0); Some (Some 3%N, 0, 1); Some (Some 3%N, 0, 3)].
Proof. vm_compute. reflexivity. Qed.
