(* ===== verification/Sha256.v ===== *)
(** * SHA-256 and HMAC

    Models the digest of rtmp/ngx_media_rtmp_wire.c: the block function, the streaming
    context and HMAC.  The theorems show that the streaming interface computes the digest
    of the concatenated input, whatever the pieces, and that the digest is the one of
    FIPS 180-4, written down a second time from the standard: constants that are
    computed from the primes, rotations, schedule and rounds as arithmetic. *)
From S2P Require Import Prelude Bytes.

(** ** The block function *)

(** [n] 32-bit words, the first in the high bits. *)
Fixpoint words_of (n : nat) (row : Z) : list Z :=
  match n with
  | O => []
  | S n => u32 (Z.shiftr row (32 * Z.of_nat n)) :: words_of n row
  end.

(** The table of constants, a literal per row of the source. *)
Definition sha256_k : list Z :=
  words_of 6 0x428a2f9871374491b5c0fbcfe9b5dba53956c25b59f111f1
  ++ words_of 6 0x923f82a4ab1c5ed5d807aa9812835b01243185be550c7dc3
  ++ words_of 6 0x72be5d7480deb1fe9bdc06a7c19bf174e49b69c1efbe4786
  ++ words_of 6 0x0fc19dc6240ca1cc2de92c6f4a7484aa5cb0a9dc76f988da
  ++ words_of 6 0x983e5152a831c66db00327c8bf597fc7c6e00bf3d5a79147
  ++ words_of 6 0x06ca63511429296727b70a852e1b21384d2c6dfc53380d13
  ++ words_of 6 0x650a7354766a0abb81c2c92e92722c85a2bfe8a1a81a664b
  ++ words_of 6 0xc24b8b70c76c51a3d192e819d6990624f40e3585106aa070
  ++ words_of 6 0x19a4c1161e376c082748774c34b0bcb5391c0cb34ed8aa4a
  ++ words_of 6 0x5b9cca4f682e6ff3748f82ee78a5636f84c878148cc70208
  ++ words_of 4 0x90befffaa4506cebbef9a3f7c67178f2.

Definition rotr (x n : Z) : Z := Z.lor (Z.shiftr x n) (u32 (Z.shiftl x (32 - n))).

(** The [i]-th word of the block, big-endian. *)
Definition block_word (p : list Z) (i : nat) : Z :=
  Z.lor (Z.lor (Z.lor (Z.shiftl (nth (4 * i) p 0) 24) (Z.shiftl (nth (4 * i + 1) p 0) 16))
               (Z.shiftl (nth (4 * i + 2) p 0) 8)) (nth (4 * i + 3) p 0).

(** One word of the message schedule, from the [i] before it. *)
Definition schedule_word (w : list Z) : Z :=
  let i := length w in
  let w15 := nth (i - 15) w 0 in
  let w2 := nth (i - 2) w 0 in
  let s0 := Z.lxor (Z.lxor (rotr w15 7) (rotr w15 18)) (Z.shiftr w15 3) in
  let s1 := Z.lxor (Z.lxor (rotr w2 17) (rotr w2 19)) (Z.shiftr w2 10) in
  u32 (nth (i - 16) w 0 + s0 + nth (i - 7) w 0 + s1).
Fixpoint schedule (n : nat) (w : list Z) : list Z :=
  match n with O => w | S n => schedule n (w ++ [schedule_word w]) end.

Record sha_words := mk_words { wa : Z; wb : Z; wc : Z; wd : Z; we : Z; wf : Z; wg : Z; wh : Z }.

Definition sha_round (v : sha_words) (kw : Z * Z) : sha_words :=
  let '(mk_words a b c d e f g h) := v in
  let s1 := Z.lxor (Z.lxor (rotr e 6) (rotr e 11)) (rotr e 25) in
  let ch := Z.lxor (Z.land e f) (Z.land (u32 (Z.lnot e)) g) in
  let s0 := Z.lxor (Z.lxor (rotr a 2) (rotr a 13)) (rotr a 22) in
  let maj := Z.lxor (Z.lxor (Z.land a b) (Z.land a c)) (Z.land b c) in
  let t1 := u32 (h + s1 + ch + kw.1 + kw.2) in
  let t2 := u32 (s0 + maj) in
  mk_words (u32 (t1 + t2)) a b c (u32 (d + t1)) e f g.

Definition words_add (v w : sha_words) : sha_words :=
  mk_words (u32 (wa v + wa w)) (u32 (wb v + wb w)) (u32 (wc v + wc w)) (u32 (wd v + wd w))
    (u32 (we v + we w)) (u32 (wf v + wf w)) (u32 (wg v + wg w)) (u32 (wh v + wh w)).

Definition sha256_block (state : sha_words) (p : list Z) : sha_words :=
  let w := schedule 48 (block_word p <$> seq 0 16) in
  words_add state (foldl sha_round state (zip sha256_k w)).

(** ** The streaming context *)

(** [sh_block] holds the [have] bytes that wait for a full block. *)
Record sha256 := mk_sha256 { sh_state : sha_words; sh_bits : Z; sh_block : list Z }.

Definition sha256_iv : sha_words :=
  mk_words 0x6a09e667 0xbb67ae85 0x3c6ef372 0xa54ff53a
    0x510e527f 0x9b05688c 0x1f83d9ab 0x5be0cd19.
Definition sha256_init : sha256 := mk_sha256 sha256_iv 0 [].

(** [while (len >= 64)]: the state and the bytes left. *)
Fixpoint sha256_blocks (fuel : nat) (state : sha_words) (p : list Z) : sha_words * list Z :=
  match fuel with
  | O => (state, p)
  | S fuel =>
      if 64 <=? lenZ p then sha256_blocks fuel (sha256_block state (take 64 p)) (drop 64 p)
      else (state, p)
  end.

(** The number of bytes is fuel enough: an iteration eats 64 ([blocks_spec]). *)
Definition sha256_consume (ctx : sha256) (p : list Z) : sha256 :=
  let '(ctx, p) :=
    if negb (length (sh_block ctx) =? 0)%nat then
      let t := Nat.min (64 - length (sh_block ctx)) (length p) in
      let block := sh_block ctx ++ take t p in
      if (length block =? 64)%nat
      then (mk_sha256 (sha256_block (sh_state ctx) block) (sh_bits ctx) [], drop t p)
      else (mk_sha256 (sh_state ctx) (sh_bits ctx) block, drop t p)
    else (ctx, p) in
  let '(state, p) := sha256_blocks (length p) (sh_state ctx) p in
  match p with
  | [] => mk_sha256 state (sh_bits ctx) (sh_block ctx)
  | _ => mk_sha256 state (sh_bits ctx) p
  end.

Definition sha256_update (ctx : sha256) (data : list Z) : sha256 :=
  sha256_consume (mk_sha256 (sh_state ctx) (sh_bits ctx ⊕ lenZ data * 8) (sh_block ctx)) data.

Definition be64 (v : Z) : list Z :=
  (λ i, Z.land (Z.shiftr v ((7 - i) * 8)) 0xFF) <$> seqZ 0 8.

Definition words_bytes (v : sha_words) : list Z :=
  be32 (wa v) ++ be32 (wb v) ++ be32 (wc v) ++ be32 (wd v)
  ++ be32 (we v) ++ be32 (wf v) ++ be32 (wg v) ++ be32 (wh v).

Definition sha256_final (ctx : sha256) : list Z :=
  let have := length (sh_block ctx) in
  let pad_len := if (have <? 56)%nat then (56 - have)%nat else (120 - have)%nat in
  let pad := 0x80 :: replicate (pad_len - 1) 0 ++ be64 (sh_bits ctx) in
  words_bytes (sh_state (sha256_consume ctx pad)).

(** ** HMAC *)

Definition hmac_key (key : list Z) : list Z :=
  let k := if 64 <? lenZ key then sha256_final (sha256_update sha256_init key) else key in
  k ++ replicate (64 - length k) 0.

Definition hmac_sha256 (key data : list Z) : list Z :=
  let k := (λ x, Z.lxor x 0x36) <$> hmac_key key in
  let ctx := sha256_update sha256_init k in
  let inner := sha256_final (sha256_update ctx data) in
  let k := (λ x, Z.lxor x (Z.lxor 0x36 0x5C)) <$> k in
  let ctx := sha256_update sha256_init k in
  sha256_final (sha256_update ctx inner).

(** ** The digest of a whole message

    The code's block function over the message, 0x80, the fewest zeros that leave eight
    bytes of the last block, and the length in bits. *)
Definition sha_padding (n : Z) : list Z :=
  0x80 :: replicate (Z.to_nat ((55 - n) mod 64)) 0 ++ be64 (u64 (n * 8)).

Fixpoint fold_blocks (n : nat) (state : sha_words) (p : list Z) : sha_words :=
  match n with
  | O => state
  | S n => fold_blocks n (sha256_block state (take 64 p)) (drop 64 p)
  end.

Definition sha256_whole (m : list Z) : list Z :=
  let p := m ++ sha_padding (lenZ m) in
  words_bytes (fold_blocks (length p / 64) sha256_iv p).

Definition hmac_whole (key data : list Z) : list Z :=
  let k := if 64 <? lenZ key then sha256_whole key else key in
  let k := k ++ replicate (64 - length k) 0 in
  sha256_whole (((λ x, Z.lxor x 0x5C) <$> k)
              ++ sha256_whole (((λ x, Z.lxor x 0x36) <$> k) ++ data)).

Example sha256_abc :
  sha256_final (sha256_update sha256_init [97; 98; 99]) =
  [0xba; 0x78; 0x16; 0xbf; 0x8f; 0x01; 0xcf; 0xea; 0x41; 0x41; 0x40; 0xde; 0x5d; 0xae; 0x22; 0x23;
   0xb0; 0x03; 0x61; 0xa3; 0x96; 0x17; 0x7a; 0x9c; 0xb4; 0x10; 0xff; 0x61; 0xf2; 0x00; 0x15; 0xad].
Proof. vm_compute. reflexivity. Qed.

(** ** Blocks *)

Lemma fold_blocks_plus n m st p :
  fold_blocks (n + m) st p = fold_blocks m (fold_blocks n st p) (drop (64 * n) p).
Proof.
  revert st p. induction n as [|n IH]; intros st p; [done|]. cbn [Nat.add fold_blocks].
  rewrite IH, drop_drop. do 2 f_equal. lia.
Qed.

Lemma fold_blocks_app n st p q :
  (64 * n ≤ length p)%nat → fold_blocks n st (p ++ q) = fold_blocks n st p.
Proof.
  revert st p. induction n as [|n IH]; intros st p Hn; [done|]. cbn [fold_blocks].
  rewrite take_app_le, drop_app_le by lia. apply IH. rewrite length_drop. lia.
Qed.

Lemma blocks_spec fuel st p :
  (length p ≤ 64 * fuel + 63)%nat →
  sha256_blocks fuel st p =
    (fold_blocks (length p / 64) st p, drop (64 * (length p / 64)) p).
Proof.
  revert st p. induction fuel as [|fuel IH]; intros st p Hl.
  - rewrite Nat.div_small by lia. done.
  - cbn [sha256_blocks]. destruct (Z.leb_spec 64 (lenZ p)) as [Hle|Hlt]; unfold lenZ in *.
    + rewrite IH by (rewrite length_drop; lia). rewrite length_drop.
      replace (length p / 64)%nat with (S ((length p - 64) / 64)).
      2:{ replace (length p) with (1 * 64 + (length p - 64))%nat at 2 by lia.
          rewrite Nat.div_add_l by lia. done. }
      cbn [fold_blocks]. rewrite drop_drop. do 2 f_equal. lia.
    + rewrite Nat.div_small by lia. done.
Qed.

(** What waits is always less than a block, so consuming is appending and folding the
    blocks that are complete. *)
Lemma consume_spec st bits blk p :
  (length blk < 64)%nat →
  sha256_consume (mk_sha256 st bits blk) p =
    mk_sha256 (fold_blocks (length (blk ++ p) / 64) st (blk ++ p)) bits
      (drop (64 * (length (blk ++ p) / 64)) (blk ++ p)).
Proof.
  intros Hb. unfold sha256_consume. cbn [sh_block sh_state sh_bits].
  destruct (Nat.eqb_spec (length blk) 0) as [H0|H0]; cbn [negb].
  { apply nil_length_inv in H0 as ->. rewrite blocks_spec by lia. cbn [sh_state app].
    destruct (drop _ p) eqn:E; done. }
  set (t := Nat.min (64 - length blk) (length p)).
  assert (length (blk ++ take t p) = (length blk + t)%nat) as Ht.
  { rewrite length_app, length_take. lia. }
  rewrite Ht. destruct (Nat.eqb_spec (length blk + t) 64) as [Hf|Hf].
  - rewrite blocks_spec by lia. cbn [sh_state sh_bits sh_block]. rewrite length_drop.
    assert (length (blk ++ p) / 64 = S ((length p - t) / 64))%nat as ->.
    { rewrite length_app. replace (length blk + length p)%nat with (1 * 64 + (length p - t))%nat by lia.
      rewrite Nat.div_add_l by lia. done. }
    cbn [fold_blocks].
    assert (take 64 (blk ++ p) = blk ++ take t p) as ->.
    { rewrite take_app, (take_ge blk) by lia. do 2 f_equal. lia. }
    assert (drop 64 (blk ++ p) = drop t p) as Hd.
    { rewrite drop_app_ge by lia. f_equal. lia. }
    rewrite Hd. set (n := ((length p - t) / 64)%nat).
    replace (drop (64 * S n) (blk ++ p)) with (drop (64 * n) (drop t p)).
    2:{ rewrite <- Hd, drop_drop. f_equal. lia. }
    destruct (drop (64 * n) (drop t p)); done.
  - assert (t = length p) as Et by lia. rewrite Et, drop_all, take_ge by lia.
    cbn [length sha256_blocks sh_state sh_bits sh_block].
    rewrite (Nat.div_small (length (blk ++ p))), drop_0 by (rewrite length_app; lia). done.
Qed.

(** ** The streaming interface *)

(** The context that has absorbed the message [m]. *)
Definition ctx_of (m : list Z) : sha256 :=
  mk_sha256 (fold_blocks (length m / 64) sha256_iv m) (u64 (lenZ m * 8))
    (drop (64 * (length m / 64)) m).

Lemma ctx_of_block m : (length (sh_block (ctx_of m)) < 64)%nat.
Proof.
  cbn [sh_block ctx_of]. rewrite length_drop.
  pose proof (Nat.div_mod_eq (length m) 64). pose proof (Nat.mod_upper_bound (length m) 64). lia.
Qed.

Lemma ctx_of_nil : ctx_of [] = sha256_init.
Proof. done. Qed.

(** Absorbing more bytes into a prefix's blocks. *)
Lemma absorb m d bits :
  sha256_consume (mk_sha256 (sh_state (ctx_of m)) bits (sh_block (ctx_of m))) d =
    mk_sha256 (fold_blocks (length (m ++ d) / 64) sha256_iv (m ++ d)) bits
      (drop (64 * (length (m ++ d) / 64)) (m ++ d)).
Proof.
  rewrite consume_spec by apply ctx_of_block. cbn [sh_state sh_block ctx_of].
  set (n := (length m / 64)%nat).
  assert (64 * n ≤ length m)%nat as Hn by (unfold n; pose proof (Nat.div_mod_eq (length m) 64); lia).
  set (r := drop (64 * n) m).
  assert (length (m ++ d) / 64 = n + length (r ++ d) / 64)%nat as Hk.
  { unfold r. rewrite !length_app, length_drop.
    replace (length m + length d)%nat with (n * 64 + (length m - 64 * n + length d))%nat by lia.
    rewrite Nat.div_add_l by lia. lia. }
  assert (drop (64 * n) (m ++ d) = r ++ d) as Hd by (rewrite drop_app_le by lia; done).
  rewrite Hk, fold_blocks_plus, (fold_blocks_app n _ m d), Hd by done. f_equal.
  rewrite Nat.mul_add_distr_l, <- drop_drop, Hd. done.
Qed.

Lemma update_ctx_of m d : sha256_update (ctx_of m) d = ctx_of (m ++ d).
Proof.
  unfold sha256_update. rewrite absorb. unfold ctx_of. cbn [sh_bits]. f_equal.
  rewrite lenZ_app. rewrite u64_add_l. f_equal. lia.
Qed.

Lemma update_init d : sha256_update sha256_init d = ctx_of d.
Proof. by rewrite <- ctx_of_nil, update_ctx_of. Qed.

Lemma padding_length (m : list Z) :
  let have := length (drop (64 * (length m / 64)) m) in
  Z.to_nat ((55 - lenZ m) mod 64)
    = ((if (have <? 56)%nat then 56 - have else 120 - have) - 1)%nat.
Proof.
  cbn zeta. rewrite length_drop. unfold lenZ.
  pose proof (Nat.div_mod_eq (length m) 64) as Hdm.
  pose proof (Nat.mod_upper_bound (length m) 64) as Hr.
  set (r := (length m mod 64)%nat) in *. set (n := (length m / 64)%nat) in *.
  replace (length m - 64 * n)%nat with r by lia.
  destruct (Nat.ltb_spec r 56).
  - rewrite <- (Z.mod_unique (55 - Z.of_nat (length m)) 64 (- Z.of_nat n) (55 - Z.of_nat r)) by lia. lia.
  - rewrite <- (Z.mod_unique (55 - Z.of_nat (length m)) 64 (- Z.of_nat n - 1) (119 - Z.of_nat r)) by lia. lia.
Qed.

Lemma final_ctx_of m : sha256_final (ctx_of m) = sha256_whole m.
Proof.
  unfold sha256_final, sha256_whole. f_equal. unfold sha_padding.
  rewrite (padding_length m). cbn [sh_bits sh_block ctx_of].
  match goal with |- context [sha256_consume ?c ?p] => set (pad := p) end.
  change (ctx_of m) with
    (mk_sha256 (sh_state (ctx_of m)) (u64 (lenZ m * 8)) (sh_block (ctx_of m))).
  rewrite absorb. done.
Qed.

Lemma sha256_pieces ps : sha256_final (foldl sha256_update sha256_init ps) = sha256_whole (concat ps).
Proof.
  assert (∀ m, foldl sha256_update (ctx_of m) ps = ctx_of (m ++ concat ps)) as H.
  { induction ps as [|p ps IH]; intros m; cbn; [by rewrite app_nil_r|].
    by rewrite update_ctx_of, IH, <- app_assoc. }
  rewrite <- ctx_of_nil, H. apply final_ctx_of.
Qed.

Lemma hmac_key_whole key :
  hmac_key key = (let k := if 64 <? lenZ key then sha256_whole key else key in
                  k ++ replicate (64 - length k) 0).
Proof. unfold hmac_key. by rewrite update_init, final_ctx_of. Qed.

(** The two passes of HMAC around any way of absorbing the data. *)
Lemma hmac_passes key data ctx :
  ctx = ctx_of (((λ x, Z.lxor x 0x36) <$> hmac_key key) ++ data) →
  sha256_final (sha256_update (sha256_update sha256_init
    ((λ x, Z.lxor x (Z.lxor 0x36 0x5C)) <$> ((λ x, Z.lxor x 0x36) <$> hmac_key key)))
    (sha256_final ctx)) = hmac_whole key data.
Proof.
  intros ->. rewrite final_ctx_of, update_init, update_ctx_of, final_ctx_of.
  unfold hmac_whole. rewrite <- hmac_key_whole. f_equal. f_equal.
  rewrite <- list_fmap_compose. apply list_fmap_ext. intros _ x _. cbn.
  rewrite Z.lxor_assoc. f_equal.
Qed.

Lemma hmac_is_whole key data : hmac_sha256 key data = hmac_whole key data.
Proof.
  unfold hmac_sha256. apply hmac_passes. by rewrite update_init, update_ctx_of.
Qed.

(** Digests are 32 bytes. *)
Lemma words_bytes_length v : length (words_bytes v) = 32%nat.
Proof. done. Qed.
Lemma words_bytes_bytes v : bytes (words_bytes v).
Proof. unfold words_bytes, bytes. rewrite !Forall_app. split_and!; apply be32_bytes. Qed.
Lemma sha256_whole_length m : length (sha256_whole m) = 32%nat.
Proof. apply words_bytes_length. Qed.
Lemma hmac_whole_length key data : length (hmac_whole key data) = 32%nat.
Proof. apply sha256_whole_length. Qed.

(** ** FIPS 180-4 and RFC 2104

    The standards' own definitions, which share nothing with the code's functions: a
    word is a number below 2^32, a block its big-endian numbers, and the constants are
    the first 32 bits of the fractional parts of square and cube roots of primes. *)
Module Fips.

Definition word (x : Z) : Z := x mod 4294967296.
Definition ROTR (n x : Z) : Z := x / 2 ^ n + (x mod 2 ^ n) * 2 ^ (32 - n).
Definition Ch (x y z : Z) : Z := Z.lxor (Z.land x y) (Z.land (4294967295 - x) z).
Definition Maj (x y z : Z) : Z := Z.lxor (Z.lxor (Z.land x y) (Z.land x z)) (Z.land y z).
Definition xor3 (x y z : Z) : Z := Z.lxor (Z.lxor x y) z.
Definition Sigma0 (x : Z) : Z := xor3 (ROTR 2 x) (ROTR 13 x) (ROTR 22 x).
Definition Sigma1 (x : Z) : Z := xor3 (ROTR 6 x) (ROTR 11 x) (ROTR 25 x).
Definition sigma0 (x : Z) : Z := xor3 (ROTR 7 x) (ROTR 18 x) (x / 2 ^ 3).
Definition sigma1 (x : Z) : Z := xor3 (ROTR 17 x) (ROTR 19 x) (x / 2 ^ 10).

Definition primes (below : Z) : list Z :=
  filter (λ p, forallb (λ d, negb (p mod d =? 0)) (seqZ 2 (Z.sqrt p - 1)) = true) (seqZ 2 (below - 2)).
(** The cube root of [v], from the highest of [n] bits down. *)
Fixpoint cbrt (n : nat) (r v : Z) : Z :=
  match n with
  | O => r
  | S n => let r' := r + 2 ^ Z.of_nat n in cbrt n (if r' * r' * r' <=? v then r' else r) v
  end.
(** 311 is the 64th prime, 19 the eighth. *)
Definition K : list Z := (λ p, word (cbrt 35 0 (p * 2 ^ 96))) <$> primes 312.
Definition H0 : list Z := (λ p, word (Z.sqrt (p * 2 ^ 64))) <$> primes 20.

(** A big-endian number, and the [n] bytes of one. *)
Definition number (l : list Z) : Z := foldl (λ v b, v * 256 + b) 0 l.
Fixpoint octets (n : nat) (v : Z) : list Z :=
  match n with O => [] | S n => (v / 256 ^ Z.of_nat n) mod 256 :: octets n v end.

(** The first [t] words of the message schedule of a block. *)
Fixpoint W (block : list Z) (t : nat) : list Z :=
  match t with
  | O => []
  | S t =>
      let w := W block t in
      let back i := nth (t - i) w 0 in
      w ++ [if (t <? 16)%nat then number (take 4 (drop (4 * t) block))
            else word (sigma1 (back 2%nat) + back 7%nat + sigma0 (back 15%nat) + back 16%nat)]
  end.

Definition compress (v : list Z) (kw : Z * Z) : list Z :=
  match v with
  | [a; b; c; d; e; f; g; h] =>
      let T1 := h + Sigma1 e + Ch e f g + kw.1 + kw.2 in
      let T2 := Sigma0 a + Maj a b c in
      [word (T1 + T2); a; b; c; word (d + T1); e; f; g]
  | _ => []
  end.
Definition hash_block (H block : list Z) : list Z :=
  zip_with (λ x y, word (x + y)) H (foldl compress H (zip K (W block 64))).

Definition pad (m : list Z) : list Z :=
  let zeros := Z.to_nat ((448 - (8 * lenZ m + 8)) mod 512 / 8) in
  m ++ [128] ++ replicate zeros 0 ++ octets 8 (8 * lenZ m).
Fixpoint hash_blocks (n : nat) (H p : list Z) : list Z :=
  match n with O => H | S n => hash_blocks n (hash_block H (take 64 p)) (drop 64 p) end.
Definition SHA256 (m : list Z) : list Z :=
  let p := pad m in concat (octets 4 <$> hash_blocks (length p / 64) H0 p).

(** RFC 2104 with blocks of 64 bytes. *)
Definition HMAC (key data : list Z) : list Z :=
  let k := if (64 <? length key)%nat then SHA256 key else key in
  let k := k ++ replicate (64 - length k) 0 in
  SHA256 ((Z.lxor 92 <$> k) ++ SHA256 ((Z.lxor 54 <$> k) ++ data)).

End Fips.

(** *** The code's words are the standard's *)

Definition is_word (x : Z) : Prop := 0 ≤ x < 2 ^ 32.
Definition words_of_state (v : sha_words) : list Z := [wa v; wb v; wc v; wd v; we v; wf v; wg v; wh v].

Lemma u32_word x : is_word (u32 x).
Proof. by apply Z.mod_pos_bound. Qed.

Lemma rotr_ROTR x n : is_word x → 0 < n < 32 → rotr x n = Fips.ROTR n x.
Proof.
  unfold is_word, rotr, Fips.ROTR, u32. intros Hx Hn. rewrite shiftr_div, shiftl_mul by lia.
  assert (2 ^ 32 = 2 ^ n * 2 ^ (32 - n)) as E by (rewrite <- Z.pow_add_r by lia; f_equal; lia).
  rewrite E, Z.mul_mod_distr_r by (apply Z.pow_nonzero; lia).
  rewrite Z.lor_comm, (lor_add _ _ (32 - n)); [lia|lia|apply Z.mod_mul, Z.pow_nonzero; lia|].
  split; [apply Z.div_pos; lia|]. apply Z.div_lt_upper_bound; lia.
Qed.

Lemma not_word x : is_word x → u32 (Z.lnot x) = 4294967295 - x.
Proof.
  unfold is_word, u32. intros Hx. rewrite <- (Z.mod_unique _ (2 ^ 32) (-1) (4294967295 - x)); unfold Z.lnot; lia.
Qed.

(** One round, on words in range. *)
Lemma round_compress v kw :
  Forall is_word (words_of_state v) →
  words_of_state (sha_round v kw) = Fips.compress (words_of_state v) kw ∧
  Forall is_word (words_of_state (sha_round v kw)).
Proof.
  destruct v as [a b c d e f g h]. unfold words_of_state, sha_round. cbn [wa wb wc wd we wf wg wh].
  intros Hw. repeat (apply Forall_cons in Hw as [? Hw]). split.
  - unfold Fips.compress, Fips.Sigma0, Fips.Sigma1, Fips.Ch, Fips.Maj, Fips.xor3.
    rewrite !rotr_ROTR, not_word by (done || lia). change Fips.word with u32. f_equal; [|do 4 f_equal].
    + unfold u32. rewrite <- Zplus_mod. f_equal.
    + unfold u32. rewrite Zplus_mod_idemp_r. f_equal.
  - repeat (apply Forall_cons; split; [first [done|apply u32_word]|]). by apply Forall_nil.
Qed.

Lemma rounds_compress l v :
  Forall is_word (words_of_state v) →
  words_of_state (foldl sha_round v l) = foldl Fips.compress (words_of_state v) l ∧
  Forall is_word (words_of_state (foldl sha_round v l)).
Proof.
  revert v. induction l as [|kw l IH]; intros v Hv; [done|]. cbn [foldl].
  destruct (round_compress v kw Hv) as [<- Hr]. by apply IH.
Qed.

(** The message schedule. *)
Lemma block_word_number p i :
  bytes p → (4 * i + 4 ≤ length p)%nat →
  block_word p i = Fips.number (take 4 (drop (4 * i) p)) ∧ is_word (block_word p i).
Proof.
  intros Hb Hl. unfold block_word.
  assert (∃ a b c d, take 4 (drop (4 * i) p) = [a; b; c; d]) as (a & b & c & d & E).
  { destruct (drop (4 * i) p) as [|a [|b [|c [|d l]]]] eqn:E; apply (f_equal length) in E;
      rewrite length_drop in E; cbn in E; try lia. by eexists _, _, _, _. }
  assert (∀ j x, [a; b; c; d] !! j = Some x → nth (4 * i + j) p 0 = x ∧ is_byte x) as Hn.
  { intros j x Hj. rewrite <- E in Hj. apply lookup_take_Some in Hj as [Hj _]. rewrite lookup_drop in Hj.
    split; [|by eapply bytes_lookup]. by apply nth_lookup_Some. }
  destruct (Hn 0%nat a eq_refl) as [E0 ?], (Hn 1%nat b eq_refl) as [-> ?],
    (Hn 2%nat c eq_refl) as [-> ?], (Hn 3%nat d eq_refl) as [-> ?].
  rewrite Nat.add_0_r in E0. rewrite E0, E. unfold is_byte, Fips.number, is_word in *. cbn [foldl].
  rewrite !shiftl_mul by lia.
  rewrite (lor_add (a * 2 ^ 24) _ 24) by (try lia; apply Z.mod_mul; lia).
  rewrite (lor_add (a * 2 ^ 24 + _) _ 16) by (try lia; replace (a * 2 ^ 24 + b * 2 ^ 16) with ((a * 256 + b) * 2 ^ 16) by lia; apply Z.mod_mul; lia).
  rewrite (lor_add _ d 8) by (try lia; replace (a * 2 ^ 24 + b * 2 ^ 16 + c * 2 ^ 8) with ((a * 65536 + b * 256 + c) * 2 ^ 8) by lia; apply Z.mod_mul; lia).
  lia.
Qed.

Lemma W_length block t : length (Fips.W block t) = t.
Proof. induction t as [|t IH]; [done|]. cbn [Fips.W]. rewrite length_app, IH. cbn. lia. Qed.

Lemma W_first block t :
  bytes block → length block = 64%nat → (t ≤ 16)%nat →
  Fips.W block t = block_word block <$> seq 0 t ∧ Forall is_word (Fips.W block t).
Proof.
  intros Hb Hl. induction t as [|t IH]; intros Ht; [by split|]. destruct IH as [IH Hw]; [lia|].
  destruct (block_word_number block t) as [E Hr]; [done|lia|].
  cbn [Fips.W]. rewrite (proj2 (Nat.ltb_lt t 16)) by lia. rewrite <- E. split.
  - rewrite seq_S, fmap_app, IH. done.
  - apply Forall_app. split; [done|]. by apply Forall_singleton.
Qed.

Lemma is_word_nth l i : Forall is_word l → is_word (nth i l 0).
Proof.
  intros Hl. destruct (Nat.lt_ge_cases i (length l)) as [Hi|Hi].
  - eapply Forall_nth in Hi; done.
  - rewrite nth_overflow by done. done.
Qed.

Lemma schedule_W block n t :
  (16 ≤ t)%nat → Forall is_word (Fips.W block t) → schedule n (Fips.W block t) = Fips.W block (n + t).
Proof.
  revert t. induction n as [|n IH]; intros t Ht Hw; [done|].
  assert (Fips.W block t ++ [schedule_word (Fips.W block t)] = Fips.W block (S t)) as E.
  { cbn [Fips.W]. rewrite (proj2 (Nat.ltb_ge t 16)) by lia. do 2 f_equal. unfold schedule_word.
    rewrite W_length, !rotr_ROTR by (by apply is_word_nth || lia). rewrite !shiftr_div by lia.
    change Fips.word with u32. unfold Fips.sigma0, Fips.sigma1, Fips.xor3. f_equal. lia. }
  cbn [schedule]. rewrite E, IH.
  - f_equal. lia.
  - lia.
  - rewrite <- E. apply Forall_app. split; [done|]. constructor; [apply u32_word|constructor].
Qed.

Lemma constants : sha256_k = Fips.K ∧ words_of_state sha256_iv = Fips.H0.
Proof. by vm_compute. Qed.

(** The block function is the standard's. *)
Lemma block_hash st block :
  bytes block → length block = 64%nat → Forall is_word (words_of_state st) →
  words_of_state (sha256_block st block) = Fips.hash_block (words_of_state st) block ∧
  Forall is_word (words_of_state (sha256_block st block)).
Proof.
  intros Hb Hl Hst. unfold sha256_block, Fips.hash_block.
  destruct (W_first block 16) as [E Hw]; [done..|]. rewrite <- E, schedule_W by done.
  rewrite <- (proj1 constants). cbn [Nat.add].
  destruct (rounds_compress (zip sha256_k (Fips.W block 64)) st Hst) as [<- Hr]. split; [done|].
  repeat (apply Forall_cons; split; [apply u32_word|]). by apply Forall_nil.
Qed.

Lemma blocks_hash n p st :
  bytes p → (64 * n ≤ length p)%nat → Forall is_word (words_of_state st) →
  words_of_state (fold_blocks n st p) = Fips.hash_blocks n (words_of_state st) p.
Proof.
  revert p st. induction n as [|n IH]; intros p st Hb Hl Hst; [done|]. cbn [fold_blocks Fips.hash_blocks].
  destruct (block_hash st (take 64 p)) as [<- Hr]; [by apply Forall_take|rewrite length_take; lia|done|].
  apply IH; [by apply Forall_drop|rewrite length_drop; lia|done].
Qed.

Lemma octets_be32 v : Fips.octets 4 v = be32 v.
Proof. unfold be32, u8. cbn [Fips.octets]. rewrite !shiftr_div by lia. by rewrite Z.div_1_r. Qed.
Lemma octets_be64 v : Fips.octets 8 v = be64 (u64 v).
Proof.
  unfold be64. change (seqZ 0 8) with [0; 1; 2; 3; 4; 5; 6; 7]. cbn [Fips.octets fmap list_fmap].
  assert (∀ k, 0 ≤ k ≤ 56 → k mod 8 = 0 → Z.land (Z.shiftr (u64 v) k) 0xFF = v / 2 ^ k mod 256) as E.
  { intros k Hk _. rewrite land_ff, shiftr_div by lia. unfold u64.
    replace (2 ^ 64) with (2 ^ k * 2 ^ (64 - k)) by (rewrite <- Z.pow_add_r by lia; f_equal; lia).
    rewrite Z.rem_mul_r by (apply Z.pow_nonzero || apply Z.pow_pos_nonneg; lia).
    rewrite Z.mul_comm, Z.div_add, Z.div_small, Z.add_0_l
      by (apply Z.pow_nonzero || apply Z.mod_pos_bound, Z.pow_pos_nonneg; lia).
    replace (2 ^ (64 - k)) with (256 * 2 ^ (56 - k)) by (change 256 with (2 ^ 8); rewrite <- Z.pow_add_r by lia; f_equal; lia).
    rewrite Z.rem_mul_r by (try apply Z.pow_pos_nonneg; lia).
    rewrite Z.mul_comm, Z.mod_add, Zmod_mod by lia. done. }
  by rewrite !E by done.
Qed.

Lemma padding_pad m : m ++ sha_padding (lenZ m) = Fips.pad m.
Proof.
  unfold sha_padding, Fips.pad. rewrite octets_be64, (Z.mul_comm 8). f_equal. cbn [app]. do 3 f_equal.
  replace (448 - (lenZ m * 8 + 8)) with ((55 - lenZ m) * 8) by lia.
  change 512 with (64 * 8). by rewrite Z.mul_mod_distr_r, Z.div_mul by lia.
Qed.

Lemma octets_bytes n v : bytes (Fips.octets n v).
Proof. induction n; constructor; [by apply Z.mod_pos_bound|done]. Qed.
Lemma pad_bytes m : bytes m → bytes (Fips.pad m).
Proof.
  intros. unfold Fips.pad, bytes. rewrite !Forall_app. split_and!; [done|by repeat constructor| |apply octets_bytes].
  by apply Forall_replicate.
Qed.

Lemma whole_fips m : bytes m → sha256_whole m = Fips.SHA256 m.
Proof.
  intros Hm. unfold sha256_whole, Fips.SHA256. rewrite padding_pad. rewrite <- (proj2 constants).
  rewrite <- blocks_hash.
  - unfold words_bytes, words_of_state. cbn [fmap list_fmap concat]. by rewrite !octets_be32, app_nil_r.
  - by apply pad_bytes.
  - pose proof (Nat.div_mod_eq (length (Fips.pad m)) 64). lia.
  - by repeat constructor.
Qed.

Lemma fips_bytes m : bytes (Fips.SHA256 m).
Proof.
  unfold Fips.SHA256, bytes. apply Forall_concat, Forall_fmap, Forall_true. intros x. apply octets_bytes.
Qed.

Lemma lxor_byte a b : is_byte a → is_byte b → is_byte (Z.lxor a b).
Proof.
  unfold is_byte. intros Ha Hb. split; [apply Z.lxor_nonneg; lia|].
  apply (Z.log2_lt_cancel _ 256). apply (Z.le_lt_trans _ _ _ (Z.log2_lxor a b ltac:(lia) ltac:(lia))).
  assert (∀ x, 0 ≤ x < 256 → Z.log2 x < 8) as H.
  { intros x Hx. destruct (Z.eqb_spec x 0) as [->|]; [done|]. apply Z.log2_lt_pow2; lia. }
  change (Z.log2 256) with 8. apply Z.max_lub_lt; by apply H.
Qed.

Lemma hmac_fips key data : bytes key → bytes data → hmac_whole key data = Fips.HMAC key data.
Proof.
  intros Hk Hd. unfold hmac_whole, Fips.HMAC.
  replace (64 <? lenZ key) with (64 <? length key)%nat
    by (unfold lenZ; destruct (Nat.ltb_spec 64 (length key)), (Z.ltb_spec 64 (Z.of_nat (length key))); lia || done).
  rewrite (whole_fips key) by done.
  set (k := if (64 <? length key)%nat then Fips.SHA256 key else key).
  assert (bytes k) as Hk' by (unfold k; destruct (64 <? length key)%nat; [apply fips_bytes|done]).
  set (k' := k ++ replicate (64 - length k) 0).
  assert (∀ c, is_byte c → (λ x, Z.lxor x c) <$> k' = Z.lxor c <$> k' ∧ bytes (Z.lxor c <$> k')) as Hx.
  { intros c Hc. split; [apply list_fmap_ext; intros; apply Z.lxor_comm|].
    apply Forall_fmap. assert (bytes k') as Hb by (apply Forall_app; split; [done|by apply Forall_replicate]).
    eapply Forall_impl; [exact Hb|]. intros x Hbx. cbn. by apply lxor_byte. }
  destruct (Hx 92) as [-> ?]; [done|]. destruct (Hx 54) as [-> ?]; [done|].
  rewrite (whole_fips ((Z.lxor 54 <$> k') ++ data)) by (by apply Forall_app).
  apply whole_fips. apply Forall_app. split; [done|apply fips_bytes].
Qed.

(** C39: the streaming digest and HMAC are the standards' own. However a message of bytes
    is cut into updates - empty pieces and pieces that straddle a block included - the
    digest is FIPS 180-4's SHA-256 of the whole message, written down from the standard
    and sharing no function and no constant with the code; only the length field is
    modulo 2^64 bits, where the standard stops. The keyed digest, for a key of any
    length, is RFC 2104's over it. *)
Theorem digest_reference :
  (∀ ps, bytes (concat ps) → sha256_final (foldl sha256_update sha256_init ps) = Fips.SHA256 (concat ps)) ∧
  ∀ key data, bytes key → bytes data → hmac_sha256 key data = Fips.HMAC key data.
Proof.
  split; intros.
  - rewrite sha256_pieces. by apply whole_fips.
  - rewrite hmac_is_whole. by apply hmac_fips.
Qed.

(** "abc" in three uneven pieces, and the first bytes of the first test case of RFC 4231. *)
Lemma digest_reference_witness :
  sha256_final (foldl sha256_update sha256_init [[97]; []; [98; 99]]) = Fips.SHA256 [97; 98; 99] ∧
  Fips.SHA256 [97; 98; 99] =
    [0xba; 0x78; 0x16; 0xbf; 0x8f; 0x01; 0xcf; 0xea; 0x41; 0x41; 0x40; 0xde; 0x5d; 0xae; 0x22; 0x23;
     0xb0; 0x03; 0x61; 0xa3; 0x96; 0x17; 0x7a; 0x9c; 0xb4; 0x10; 0xff; 0x61; 0xf2; 0x00; 0x15; 0xad] ∧
  hmac_sha256 (replicate 20 11) [72; 105; 32; 84; 104; 101; 114; 101] =
    Fips.HMAC (replicate 20 11) [72; 105; 32; 84; 104; 101; 114; 101] ∧
  take 4 (Fips.HMAC (replicate 20 11) [72; 105; 32; 84; 104; 101; 114; 101]) = [0xb0; 0x34; 0x4c; 0x61].
Proof.
  split_and!.
  - apply (proj1 digest_reference [[97]; []; [98; 99]]). by repeat constructor.
  - by vm_compute.
  - apply (proj2 digest_reference); by repeat constructor.
  - by vm_compute.
Defined.
