(* ===== verification/RtmpHandshake.v ===== *)
(** * The RTMP handshake

    Models the handshake of rtmp/ngx_media_rtmp_wire.c: the C0/C1/C2 state machine, the
    search for the client's digest and the signed reply.  [None] is a read outside the
    1536-byte packets. *)
From S2P Require Import Prelude Bytes Sha256.

Definition RTMP_VERSION : Z := 3.
Definition HANDSHAKE_SIZE : nat := 1536.
Definition SERVER_KEY_LEN : nat := 36.
Definition PLAYER_KEY_LEN : nat := 30.

Definition key_tail : list Z := [
  0xF0; 0xEE; 0xC2; 0x4A; 0x80; 0x68; 0xBE; 0xE8; 0x2E; 0x00; 0xD0; 0xD1; 0x02; 0x9E; 0x7E;
  0x57; 0x6E; 0xEC; 0x5D; 0x2D; 0x29; 0x80; 0x6F; 0xAB; 0x93; 0xB8; 0xE6; 0x36; 0xCF; 0xEB;
  0x31; 0xAE ].
(** "Genuine Adobe Flash Media Server 001" and the binary tail. *)
Definition fms_key : list Z := [
  71; 101; 110; 117; 105; 110; 101; 32; 65; 100; 111; 98; 101; 32; 70; 108; 97; 115; 104; 32;
  77; 101; 100; 105; 97; 32; 83; 101; 114; 118; 101; 114; 32; 48; 48; 49 ] ++ key_tail.
(** "Genuine Adobe Flash Player 001" and the binary tail, in an array of 68 bytes. *)
Definition player_key : list Z := ([
  71; 101; 110; 117; 105; 110; 101; 32; 65; 100; 111; 98; 101; 32; 70; 108; 97; 115; 104; 32;
  80; 108; 97; 121; 101; 114; 32; 48; 48; 49 ] ++ key_tail) ++ replicate 6 0.

(** [n] bytes at [off]. *)
Definition slice (l : list Z) (off n : nat) : option (list Z) :=
  if (off + n <=? length l)%nat then Some (take n (drop off l)) else None.

(** ** Reply *)

Fixpoint rtmp_random_loop (n : nat) (x : Z) : list Z :=
  match n with
  | O => []
  | S n =>
      let x := Z.lxor x (u64 (Z.shiftl x 13)) in
      let x := Z.lxor x (Z.shiftr x 7) in
      let x := Z.lxor x (u64 (Z.shiftl x 17)) in
      u8 (Z.shiftr x 24) :: rtmp_random_loop n x
  end.
Definition rtmp_random (n : nat) (seed : Z) : list Z :=
  rtmp_random_loop n (if seed =? 0 then 0x9E3779B97F4A7C15 else seed).

(** HMAC over the packet with its 32-byte digest field left out; the key is padded as
    HMAC's is. *)
Definition handshake_digest (packet : list Z) (offset : nat) (key : list Z) : option (list Z) :=
  let k := (λ x, Z.lxor x 0x36) <$> hmac_key key in
  before ← slice packet 0 offset;
  after ← slice packet (offset + 32) (HANDSHAKE_SIZE - offset - 32);
  let ctx := sha256_update sha256_init k in
  let inner := sha256_final (sha256_update (sha256_update ctx before) after) in
  let k := (λ x, Z.lxor x (Z.lxor 0x36 0x5C)) <$> k in
  let ctx := sha256_update sha256_init k in
  Some (sha256_final (sha256_update ctx inner)).

(** The offset of the digest field that the four bytes at [base] name. *)
Definition digest_offset (p : list Z) (base : nat) : option nat :=
  b0 ← p !! base; b1 ← p !! (base + 1)%nat; b2 ← p !! (base + 2)%nat; b3 ← p !! (base + 3)%nat;
  Some (base + 4 + Z.to_nat ((b0 + b1 + b2 + b3) mod 728))%nat.

(** The loop over the two bases; 0 when neither verifies. *)
Fixpoint client_digest_loop (c1 : list Z) (bases : list nat) : option nat :=
  match bases with
  | [] => Some O
  | base :: bases =>
      offset ← digest_offset c1 base;
      digest ← handshake_digest c1 offset (take PLAYER_KEY_LEN player_key);
      field ← slice c1 offset 32;
      if bool_decide (digest = field) then Some offset else client_digest_loop c1 bases
  end.
Definition client_digest (c1 : list Z) : option nat := client_digest_loop c1 [8; 772]%nat.

(** [memcpy(packet + offset, digest, 32)] *)
Definition put_digest (packet : list Z) (offset : nat) (digest : list Z) : list Z :=
  take offset packet ++ digest ++ drop (offset + 32) packet.

Fixpoint reply_seed (n : nat) (i : nat) (c1 : list Z) (seed : Z) : option Z :=
  match n with
  | O => Some seed
  | S n =>
      a ← c1 !! i;
      b ← c1 !! (HANDSHAKE_SIZE - 1 - i)%nat;
      let seed := u64 (seed * 251) ⊕ a in
      reply_seed n (S i) c1 (u64 (seed * 251) ⊕ b)
  end.

(** [now] is [time(NULL)]; the answer is the [out] buffer. *)
Definition handshake_reply (c1 : list Z) (complex : bool) (now : Z) : option (list Z) :=
  seed ← reply_seed 4 0 c1 (u64 (u64 now * 1000003));
  let s1 := [0; 0; 0; 0] ++ (if complex then [4; 5; 0; 1] else [0; 0; 0; 0])
            ++ rtmp_random (HANDSHAKE_SIZE - 8) seed in
  client ← client_digest c1;
  if complex && negb (client =? 0)%nat then
    offset ← digest_offset s1 8;
    digest ← handshake_digest s1 offset (take SERVER_KEY_LEN fms_key);
    let s1 := put_digest s1 offset digest in
    body ← slice c1 0 (HANDSHAKE_SIZE - 32);
    field ← slice c1 client 32;
    let key := hmac_sha256 fms_key field in
    Some (RTMP_VERSION :: s1 ++ body ++ hmac_sha256 key body)
  else
    s2 ← slice c1 0 HANDSHAKE_SIZE;
    Some (RTMP_VERSION :: s1 ++ s2).

(** ** The state machine *)

(** [hs_c1] and [hs_c2] hold what was received of the two packets. *)
Record handshake := mk_handshake {
  hs_state : Z; hs_complex : bool; hs_have : nat; hs_c1 : list Z; hs_c2 : list Z;
  hs_out : list Z }.
#[global] Instance eta_handshake : Eta handshake := λ r,
  mk_handshake (hs_state r) (hs_complex r) (hs_have r) (hs_c1 r) (hs_c2 r) (hs_out r).
Definition handshake_init : handshake := mk_handshake 0 false 0 [] [] [].

(** C1 asks for the digest handshake when its version bytes are not all zero. *)
Definition c1_complex (c1 : list Z) : option bool :=
  v ← slice c1 4 4; Some (existsb (λ b, negb (b =? 0)) v).

(** C2: the answer, the bytes taken and the state. *)
Definition feed_c2 (hs : handshake) (data : list Z) : rc * nat * handshake :=
  let take_n := Nat.min (HANDSHAKE_SIZE - hs_have hs) (length data) in
  let hs := hs <| hs_c2 := take (hs_have hs) (hs_c2 hs) ++ take take_n data |>
               <| hs_have := (hs_have hs + take_n)%nat |> in
  if (hs_have hs <? HANDSHAKE_SIZE)%nat then (NGX_AGAIN, take_n, hs)
  else (NGX_OK, take_n, hs <| hs_state := 3 |>).

Definition feed_c1 (hs : handshake) (data : list Z) (now : Z) : option (rc * nat * handshake) :=
  let take_n := Nat.min (HANDSHAKE_SIZE - hs_have hs) (length data) in
  let hs := hs <| hs_c1 := take (hs_have hs) (hs_c1 hs) ++ take take_n data |>
               <| hs_have := (hs_have hs + take_n)%nat |> in
  if (hs_have hs <? HANDSHAKE_SIZE)%nat then Some (NGX_AGAIN, take_n, hs)
  else
    complex ← c1_complex (hs_c1 hs);
    out ← handshake_reply (hs_c1 hs) complex now;
    let hs := hs <| hs_complex := complex |> <| hs_out := out |>
                 <| hs_state := 2 |> <| hs_have := O |> in
    let '(r, n, hs) := feed_c2 hs (drop take_n data) in
    Some (r, (take_n + n)%nat, hs).

Definition handshake_feed (hs : handshake) (data : list Z) (now : Z)
    : option (rc * nat * handshake) :=
  if hs_state hs =? 0 then
    match data with
    | [] => Some (NGX_AGAIN, O, hs)
    | version :: data =>
        if negb (version =? RTMP_VERSION) then Some (NGX_ERROR, O, hs)
        else
          '(r, n, hs) ← feed_c1 (hs <| hs_state := 1 |> <| hs_have := O |>) data now;
          Some (r, S n, hs)
    end
  else if hs_state hs =? 1 then feed_c1 hs data now
  else if hs_state hs =? 2 then Some (feed_c2 hs data)
  else Some (NGX_OK, O, hs).

(** A connection's reads, each at its time, until the handshake is over or failed. *)
Fixpoint handshake_run (hs : handshake) (reads : list (Z * list Z))
    : option (rc * nat * handshake) :=
  match reads with
  | [] => Some (NGX_AGAIN, O, hs)
  | (now, data) :: reads =>
      '(r, n, hs) ← handshake_feed hs data now;
      if bool_decide (r = NGX_AGAIN) then
        '(r', m, hs) ← handshake_run hs reads; Some (r', (n + m)%nat, hs)
      else Some (r, n, hs)
  end.

(** ** Digests *)

Lemma slice_some l off n : (off + n ≤ length l)%nat → slice l off n = Some (take n (drop off l)).
Proof. intros. unfold slice. by rewrite (proj2 (Nat.leb_le _ _)). Qed.

(** A client's way to check a packet: the field named by the bytes at [base] is the HMAC
    of the rest under [key]. *)
Definition signed_at (p : list Z) (off : nat) (key : list Z) : Prop :=
  slice p off 32 = Some (hmac_whole key (take off p ++ drop (off + 32) p)).
Definition signed (p : list Z) (base : nat) (key : list Z) : Prop :=
  ∃ off, digest_offset p base = Some off ∧ signed_at p off key.

Lemma digest_offset_some p base :
  (base + 4 ≤ length p)%nat →
  ∃ off, digest_offset p base = Some off ∧ (base + 4 ≤ off < base + 4 + 728)%nat.
Proof.
  intros Hl. unfold digest_offset.
  do 4 (edestruct (lookup_lt_is_Some_2 p) as [? ->]; [|cbn [mbind option_bind]]; [lia|]).
  eexists. split; [done|].
  match goal with |- context [Z.to_nat (?x mod 728)] => pose proof (Z.mod_pos_bound x 728) end. lia.
Qed.

Lemma handshake_digest_whole p off key :
  length p = HANDSHAKE_SIZE → (off + 32 ≤ HANDSHAKE_SIZE)%nat →
  handshake_digest p off key = Some (hmac_whole key (take off p ++ drop (off + 32) p)).
Proof.
  intros Hp Ho. unfold handshake_digest. rewrite !slice_some by lia. cbn [mbind option_bind].
  rewrite (hmac_passes key (take off p ++ drop (off + 32) p)); [done|].
  rewrite update_init, !update_ctx_of, drop_0, <- app_assoc. do 3 f_equal.
  rewrite take_ge; [done|]. rewrite length_drop. lia.
Qed.

(** The loop finds the first base that verifies. *)
Lemma client_digest_step p base bases :
  length p = HANDSHAKE_SIZE → (base ≤ 772)%nat →
  ∃ off, digest_offset p base = Some off ∧ (0 < off)%nat ∧ (off + 32 ≤ HANDSHAKE_SIZE)%nat ∧
    (signed_at p off (take PLAYER_KEY_LEN player_key) ∧ client_digest_loop p (base :: bases) = Some off ∨
     ¬ signed_at p off (take PLAYER_KEY_LEN player_key) ∧
       client_digest_loop p (base :: bases) = client_digest_loop p bases).
Proof.
  intros Hp Hb. destruct (digest_offset_some p base) as (off & Ho & Hr).
  { rewrite Hp. unfold HANDSHAKE_SIZE. lia. }
  assert (off + 32 ≤ HANDSHAKE_SIZE)%nat as Hfit by (unfold HANDSHAKE_SIZE; lia).
  exists off. split_and!; [done|lia|done|]. cbn [client_digest_loop]. rewrite Ho. cbn [mbind option_bind].
  rewrite handshake_digest_whole by done. unfold signed_at. rewrite slice_some by lia. cbn [mbind option_bind].
  case_bool_decide as E; [left; by rewrite E|right]. split; [congruence|done].
Qed.

Lemma client_digest_spec p :
  length p = HANDSHAKE_SIZE →
  ∃ off, client_digest p = Some off ∧ (off + 32 ≤ HANDSHAKE_SIZE)%nat ∧
    (off ≠ 0%nat ↔ signed p 8 (take PLAYER_KEY_LEN player_key) ∨
                   signed p 772 (take PLAYER_KEY_LEN player_key)) ∧
    (off ≠ 0%nat → signed_at p off (take PLAYER_KEY_LEN player_key)).
Proof.
  intros Hp. unfold client_digest, signed.
  destruct (client_digest_step p 8 [772%nat] Hp) as (o1 & Ho1 & Hp1 & Hf1 & H1); [lia|].
  destruct (client_digest_step p 772 [] Hp) as (o2 & Ho2 & Hp2 & Hf2 & H2); [lia|].
  destruct H1 as [[Hs1 ->]|[Hn1 ->]].
  - exists o1. split_and!; [done|done| |done]. split; [intros _; left; exists o1; split; assumption|intros _ E; clear -Hp1 E; lia].
  - destruct H2 as [[Hs2 ->]|[Hn2 ->]].
    + exists o2. split_and!; [done|done| |done]. split; [intros _; right; exists o2; split; assumption|intros _ E; clear -Hp2 E; lia].
    + exists 0%nat. split_and!; [done|unfold HANDSHAKE_SIZE; lia| |done].
      split; [done|]. intros [(o & Eo & Hs)|(o & Eo & Hs)]; exfalso.
      * rewrite Ho1 in Eo. injection Eo as <-. exact (Hn1 Hs).
      * rewrite Ho2 in Eo. injection Eo as <-. exact (Hn2 Hs).
Qed.

(** Writing the digest does not move it. *)
Lemma put_digest_signed p off key :
  length p = HANDSHAKE_SIZE → digest_offset p 8 = Some off → (12 ≤ off)%nat →
  (off + 32 ≤ HANDSHAKE_SIZE)%nat →
  let q := put_digest p off (hmac_whole key (take off p ++ drop (off + 32) p)) in
  length q = HANDSHAKE_SIZE ∧ signed q 8 key.
Proof.
  intros Hp Ho Hlo Hhi q. set (d := hmac_whole _ _) in q.
  assert (length d = 32%nat) as Hd by apply hmac_whole_length.
  assert (length (take off p) = off) as Ht by (rewrite length_take; lia).
  assert (take off q = take off p) as Hq1.
  { unfold q, put_digest. rewrite take_app_le, take_ge by lia. done. }
  assert (drop off q = d ++ drop (off + 32) p) as Hq2.
  { unfold q, put_digest. rewrite drop_app_ge, Ht, Nat.sub_diag by lia. done. }
  assert (length q = HANDSHAKE_SIZE) as Hql.
  { unfold q, put_digest. rewrite !length_app, length_drop, Ht, Hd. lia. }
  split; [done|]. exists off. split.
  - rewrite <- Ho. unfold digest_offset. cbn [Nat.add].
    assert (∀ i, (i < 12)%nat → q !! i = p !! i) as Hi; [|rewrite !Hi by lia; done].
    intros i Hi. rewrite <- (lookup_take_lt q off i), <- (lookup_take_lt p off i) by lia. by rewrite Hq1.
  - unfold signed_at. rewrite slice_some, Hq1, Hq2 by lia. f_equal.
    rewrite take_app_le, take_ge by lia. unfold d. do 2 f_equal.
    rewrite <- (drop_drop q), Hq2, drop_app_ge, Hd, Nat.sub_diag by lia. done.
Qed.

Lemma length_random n x : length (rtmp_random_loop n x) = n.
Proof. revert x. induction n as [|n IH]; intros x; [done|]. cbn [rtmp_random_loop length]. by rewrite IH. Qed.

Lemma reply_seed_some n i c1 seed :
  length c1 = HANDSHAKE_SIZE → (i + n ≤ HANDSHAKE_SIZE)%nat → is_Some (reply_seed n i c1 seed).
Proof.
  intros Hc. revert i seed. induction n as [|n IH]; intros i seed Hi; [by eexists|].
  cbn [reply_seed].
  edestruct (lookup_lt_is_Some_2 c1) as [? ->]; [|cbn [mbind option_bind]]; [lia|].
  edestruct (lookup_lt_is_Some_2 c1) as [? ->]; [|cbn [mbind option_bind]]; [lia|].
  apply IH. lia.
Qed.

(** What the reply to [c1] must be. *)
Definition reply_ok (c1 : list Z) (complex : bool) (out : list Z) : Prop :=
  ∃ off s1 s2, out = RTMP_VERSION :: s1 ++ s2 ∧
    length s1 = HANDSHAKE_SIZE ∧ length s2 = HANDSHAKE_SIZE ∧
    client_digest c1 = Some off ∧
    (off ≠ 0%nat ↔ signed c1 8 (take PLAYER_KEY_LEN player_key) ∨
                   signed c1 772 (take PLAYER_KEY_LEN player_key)) ∧
    if complex && negb (off =? 0)%nat
    then signed s1 8 (take SERVER_KEY_LEN fms_key) ∧
         take (HANDSHAKE_SIZE - 32) s2 = take (HANDSHAKE_SIZE - 32) c1 ∧
         drop (HANDSHAKE_SIZE - 32) s2
           = hmac_whole (hmac_whole fms_key (take 32 (drop off c1))) (take (HANDSHAKE_SIZE - 32) s2)
    else s2 = c1 ∧ take 4 s1 = [0; 0; 0; 0].

Lemma reply_spec c1 complex now :
  length c1 = HANDSHAKE_SIZE → ∃ out, handshake_reply c1 complex now = Some out ∧ reply_ok c1 complex out.
Proof.
  intros Hc. unfold handshake_reply, reply_ok.
  destruct (reply_seed_some 4 0 c1 (u64 (u64 now * 1000003)) Hc) as [seed ->]; [unfold HANDSHAKE_SIZE; lia|].
  cbn [mbind option_bind].
  set (s1 := [0; 0; 0; 0] ++ _).
  assert (length s1 = HANDSHAKE_SIZE) as Hs1.
  { unfold s1, rtmp_random. rewrite !length_app, length_random. by destruct complex. }
  assert (take 4 s1 = [0; 0; 0; 0]) as Hz by done. clearbody s1.
  destruct (client_digest_spec c1 Hc) as (off & Hcd & Hfit & Hiff & Hsig). rewrite Hcd. cbn [mbind option_bind].
  destruct (complex && negb (off =? 0)%nat) eqn:E.
  - destruct (digest_offset_some s1 8) as (o & Ho & Hor); [rewrite Hs1; unfold HANDSHAKE_SIZE; lia|].
    rewrite Ho. cbn [mbind option_bind].
    assert (o + 32 ≤ HANDSHAKE_SIZE)%nat as Hof by (unfold HANDSHAKE_SIZE; lia).
    rewrite handshake_digest_whole by done. cbn [mbind option_bind].
    destruct (put_digest_signed s1 o (take SERVER_KEY_LEN fms_key)) as [Hl Hsg]; [done..|lia|done|].
    rewrite !slice_some by (unfold HANDSHAKE_SIZE in *; lia). cbn [mbind option_bind].
    rewrite !hmac_is_whole, drop_0. set (body := take (HANDSHAKE_SIZE - 32) c1).
    assert (length body = (HANDSHAKE_SIZE - 32)%nat) as Hb.
    { unfold body. rewrite length_take. lia. }
    eexists. split; [done|]. exists off. eexists _, _. rewrite E. split; [done|]. split_and!; [exact Hl| |reflexivity|exact Hiff|exact Hsg|..].
    + rewrite length_app, Hb, hmac_whole_length. unfold HANDSHAKE_SIZE. lia.
    + rewrite take_app_le, take_ge by lia. done.
    + rewrite drop_app_ge, Hb, Nat.sub_diag, take_app_le, (take_ge body) by lia. done.
  - rewrite slice_some by lia. cbn [mbind option_bind]. rewrite drop_0, take_ge by lia.
    eexists. split; [done|]. exists off, s1, c1. rewrite E. by split_and!.
Qed.

(** The server's reply is one a validating client accepts. For any 1536-byte C1 the
    reply is defined (every digest field lies inside its packet) and is the version byte
    and two 1536-byte packets. The client's digest is found exactly when C1 is signed with
    the player key at one of the two places; then, if C1 asked for the digest handshake,
    S1 carries at its own place the HMAC of the rest of S1 under the media-server key, and
    S2 repeats C1's body followed by its HMAC under the key derived from the client's
    digest. Otherwise S2 is C1. *)
Theorem handshake_reply_valid c1 complex now :
  length c1 = HANDSHAKE_SIZE →
  ∃ out, handshake_reply c1 complex now = Some out ∧ reply_ok c1 complex out.
Proof. apply reply_spec. Qed.
Lemma handshake_reply_valid_witness :
  length (replicate 1536 7) = HANDSHAKE_SIZE ∧
  ∃ out, handshake_reply (replicate 1536 7) true 5 = Some out ∧ reply_ok (replicate 1536 7) true out.
Proof. split; [reflexivity|]. apply (handshake_reply_valid (replicate 1536 7) true 5). reflexivity. Defined.

(** ** The bytes absorbed so far *)

(** The state after the client's first bytes [m] ([m] never outgrows C0, C1 and C2), when
    the reply of a complete C1 is [out]. *)
Record absorbed (m : list Z) (hs : handshake) : Prop := {
  ab_len : (length m ≤ 1 + 2 * HANDSHAKE_SIZE)%nat;
  ab_version : m = [] ∨ head m = Some RTMP_VERSION;
  ab_state : hs_state hs =
    if (length m =? 0)%nat then 0 else if (length m <=? HANDSHAKE_SIZE)%nat then 1
    else if (length m <=? 2 * HANDSHAKE_SIZE)%nat then 2 else 3;
  ab_c1 : (HANDSHAKE_SIZE < length m)%nat → hs_c1 hs = take HANDSHAKE_SIZE (drop 1 m);
  ab_have1 : (0 < length m ≤ HANDSHAKE_SIZE)%nat →
    hs_have hs = (length m - 1)%nat ∧ take (hs_have hs) (hs_c1 hs) = drop 1 m;
  ab_have2 : (HANDSHAKE_SIZE < length m)%nat →
    hs_have hs = (length m - 1 - HANDSHAKE_SIZE)%nat ∧
    take (hs_have hs) (hs_c2 hs) = drop (1 + HANDSHAKE_SIZE) m;
  ab_out : (HANDSHAKE_SIZE < length m)%nat → ∃ now,
    c1_complex (hs_c1 hs) = Some (hs_complex hs) ∧
    handshake_reply (hs_c1 hs) (hs_complex hs) now = Some (hs_out hs);
}.

Lemma absorbed_init : absorbed [] handshake_init.
Proof. split; cbn; try done; try lia; auto. Qed.

Definition hs_left (m : list Z) : nat := 1 + 2 * HANDSHAKE_SIZE - length m.

(** The verdict on [m] followed by [data]. *)
Definition hs_verdict (m data : list Z) : rc :=
  if (length data <? hs_left m)%nat then NGX_AGAIN else NGX_OK.

Ltac hs_nat := unfold hs_left, HANDSHAKE_SIZE in *; lia.

Lemma feed_c2_spec m hs data :
  absorbed m hs → (HANDSHAKE_SIZE < length m)%nat → hs_state hs = 2 →
  ∃ hs', feed_c2 hs data = (hs_verdict m data, Nat.min (length data) (hs_left m), hs') ∧
    absorbed (m ++ take (hs_left m) data) hs'.
Proof.
  intros [Hl Hv Hs H1 Hh1 Hh2 Ho] Hm Hst. destruct (Hh2 Hm) as [Hh Hc2]. unfold feed_c2.
  rewrite Hh in Hc2. rewrite Hh. set (t := Nat.min _ (length data)).
  assert (t = Nat.min (length data) (hs_left m)) as Et by (unfold t; hs_nat).
  assert (take t data = take (hs_left m) data) as Etk.
  { rewrite Et. destruct (Nat.min_spec (length data) (hs_left m)) as [[? ->]|[? ->]]; [|done].
    rewrite !take_ge by lia. done. }
  assert (length (take (hs_left m) data) = t) as Elen by (rewrite length_take; lia).
  assert (m ≠ []) as Hne by (intros ->; cbn in Hm; lia).
  assert (take (length m - 1 - HANDSHAKE_SIZE) (hs_c2 hs) ++ take t data
          = drop (1 + HANDSHAKE_SIZE) (m ++ take (hs_left m) data)) as Hc.
  { rewrite Hc2, Etk, drop_app_le by hs_nat. done. }
  assert (take HANDSHAKE_SIZE (drop 1 (m ++ take (hs_left m) data)) = take HANDSHAKE_SIZE (drop 1 m)) as Hc1.
  { rewrite drop_app_le, take_app_le by (rewrite ?length_drop; hs_nat). done. }
  assert (hs_left m ≠ 0)%nat as Hnz.
  { intros E. rewrite Hst in Hs. destruct (Nat.eqb_spec (length m) 0); [done|].
    destruct (Nat.leb_spec (length m) HANDSHAKE_SIZE); [done|].
    destruct (Nat.leb_spec (length m) (2 * HANDSHAKE_SIZE)); [hs_nat|done]. }
  unfold hs_verdict. cbn [setf hs_have].
  assert (length (m ++ take (hs_left m) data) = length m + t)%nat as Hlen by (rewrite length_app; lia).
  rewrite Hh.
  destruct (Nat.ltb_spec (length m - 1 - HANDSHAKE_SIZE + t) HANDSHAKE_SIZE) as [Hlt|Hge];
    destruct (Nat.ltb_spec (length data) (hs_left m)); try hs_nat; rewrite Et.
  all: eexists; (split; [reflexivity|]).
  all: split; cbn [setf hs_state hs_complex hs_have hs_c1 hs_c2 hs_out]; rewrite ?Hlen.
  all: try (intros; hs_nat).
  all: try (intros _; rewrite Hc1; by apply H1).
  all: try (intros _; split; [hs_nat|rewrite <- Et, take_ge; [exact Hc|rewrite Hc, length_drop; hs_nat]]).
  all: try (intros _; destruct (Ho Hm) as (now & ? & ?); by exists now).
  all: try (right; destruct Hv as [->|Hv]; [done|by destruct m]).
  all: rewrite (proj2 (Nat.eqb_neq _ _)), (proj2 (Nat.leb_gt _ HANDSHAKE_SIZE)) by hs_nat.
  - rewrite (proj2 (Nat.leb_le _ _)) by hs_nat. done.
  - rewrite (proj2 (Nat.leb_gt _ _)) by hs_nat. done.
Qed.

(** C1 read to its end leaves the state that has absorbed the version and C1. *)
Lemma feed_c1_spec m hs data now :
  absorbed m hs → (0 < length m ≤ HANDSHAKE_SIZE)%nat →
  ∃ hs', feed_c1 hs data now
      = Some (hs_verdict m data, Nat.min (length data) (hs_left m), hs') ∧
    absorbed (m ++ take (hs_left m) data) hs'.
Proof.
  intros [Hl Hv Hs H1 Hh Hh2 Ho] Hm. destruct (Hh Hm) as [Hh1 Hr1]. unfold feed_c1.
  rewrite Hh1 in Hr1. rewrite Hh1. set (t := Nat.min _ (length data)).
  assert (m ≠ []) as Hne by (intros ->; cbn in Hm; lia).
  assert (head m = Some RTMP_VERSION) as Hhd by (by destruct Hv).
  assert (take (length m - 1) (hs_c1 hs) ++ take t data
          = take HANDSHAKE_SIZE (drop 1 (m ++ take t data))) as Hc.
  { rewrite Hr1, drop_app_le by hs_nat.
    rewrite (take_ge (drop 1 m ++ _)); [done|]. rewrite length_app, length_drop, length_take. hs_nat. }
  assert (∀ d, head (m ++ d) = Some RTMP_VERSION) as Hhd' by (intros d; by destruct m).
  assert (length (m ++ take t data) = length m + t)%nat as Hlen by (rewrite length_app, length_take; lia).
  cbn [setf hs_have hs_c1]. rewrite Hh1.
  destruct (Nat.ltb_spec (length m - 1 + t) HANDSHAKE_SIZE) as [Hlt|Hge].
  - assert (length data < HANDSHAKE_SIZE + 1 - length m)%nat as Hd by hs_nat.
    unfold hs_verdict. rewrite (proj2 (Nat.ltb_lt _ _)) by hs_nat.
    assert (t = length data) as Et by hs_nat.
    replace (Nat.min (length data) (hs_left m)) with t by hs_nat.
    assert (take (hs_left m) data = take t data) as Etk by (rewrite !take_ge by hs_nat; done).
    rewrite Etk. eexists. split; [reflexivity|].
    split; cbn [setf hs_state hs_complex hs_have hs_c1 hs_c2 hs_out]; rewrite ?Hlen.
    all: try (intros; hs_nat).
    + right. apply Hhd'.
    + rewrite Hs, !(proj2 (Nat.eqb_neq _ 0)), !(proj2 (Nat.leb_le _ HANDSHAKE_SIZE)) by hs_nat. done.
    + intros _. split; [hs_nat|].
      assert (length (drop 1 (m ++ take t data)) = length m - 1 + t)%nat as Hdl by (rewrite length_drop; hs_nat).
      rewrite Hc, take_take, take_ge by (rewrite Hdl; hs_nat). done.
  - assert (length m - 1 + t = HANDSHAKE_SIZE)%nat as Ht by hs_nat.
    set (c1 := take HANDSHAKE_SIZE (drop 1 (m ++ take t data))) in *. rewrite Hc.
    assert (length c1 = HANDSHAKE_SIZE) as Hc1.
    { unfold c1. rewrite length_take, length_drop, Hlen. hs_nat. }
    unfold c1_complex. rewrite slice_some by hs_nat. cbn [mbind option_bind].
    set (complex := existsb _ _).
    destruct (reply_spec c1 complex now Hc1) as (out & Hout & _). rewrite Hout. cbn [mbind option_bind].
    match goal with |- context [feed_c2 ?h _] => set (hs2 := h) end.
    assert (absorbed (m ++ take t data) hs2) as Hab.
    { split; unfold hs2; cbn [setf hs_state hs_complex hs_have hs_c1 hs_c2 hs_out]; rewrite ?Hlen.
      all: try (intros; hs_nat).
      - right. apply Hhd'.
      - rewrite (proj2 (Nat.eqb_neq _ 0)), (proj2 (Nat.leb_gt _ HANDSHAKE_SIZE)),
          (proj2 (Nat.leb_le _ (2 * HANDSHAKE_SIZE))) by hs_nat. done.
      - intros _. reflexivity.
      - intros _. split; [hs_nat|]. rewrite drop_ge by (rewrite Hlen; hs_nat). done.
      - intros _. exists now. split; [|exact Hout].
        unfold c1_complex. rewrite slice_some by hs_nat. reflexivity. }
    destruct (feed_c2_spec _ hs2 (drop t data) Hab) as (hs3 & Hf & Hab3); [hs_nat|done|].
    rewrite Hf. exists hs3.
    assert (hs_left (m ++ take t data) = hs_left m - t)%nat as Hleft by (unfold hs_left; rewrite Hlen; lia).
    assert (t ≤ hs_left m)%nat as Htl by hs_nat. assert (t ≤ length data)%nat by lia.
    split.
    + unfold hs_verdict. rewrite Hleft, length_drop. do 3 f_equal; [|hs_nat].
      destruct (Nat.ltb_spec (length data - t) (hs_left m - t)), (Nat.ltb_spec (length data) (hs_left m));
        done || hs_nat.
    + rewrite Hleft, <- app_assoc in Hab3. replace (take (hs_left m) data)
        with (take t data ++ take (hs_left m - t) (drop t data)); [done|].
      rewrite take_take_drop; f_equal; lia.
Qed.

(** One call of [feed] on a state that has absorbed [m]. *)
Lemma feed_spec m hs data now :
  absorbed m hs → m = [] ∧ (∃ b d, data = b :: d ∧ b ≠ RTMP_VERSION ∧
                            handshake_feed hs data now = Some (NGX_ERROR, O, hs)) ∨
  (m = [] → head data = Some RTMP_VERSION ∨ data = []) ∧
  ∃ hs', handshake_feed hs data now
      = Some (hs_verdict m data, Nat.min (length data) (hs_left m), hs') ∧
    absorbed (m ++ take (hs_left m) data) hs'.
Proof.
  intros Hab. pose proof Hab as [Hl Hv Hs H1 Hh1 Hh2 Ho]. unfold handshake_feed.
  destruct m as [|v m].
  - cbn in Hs. rewrite Hs. cbn [Z.eqb]. destruct data as [|b d].
    + right. split; [auto|]. exists hs. unfold hs_verdict. split; [done|]. by rewrite take_nil.
    + destruct (Z.eqb_spec b RTMP_VERSION) as [->|Hb]; cbn [negb].
      2:{ left. split; [done|]. exists b, d. done. }
      right. split; [auto|].
      destruct (feed_c1_spec [RTMP_VERSION] (hs <| hs_state := 1 |> <| hs_have := O |>) d now)
        as (hs' & Hf & Hab').
      { split; cbn [length setf hs_state hs_complex hs_have hs_c1 hs_c2 hs_out];
          try (intros; hs_nat); auto. }
      { cbn [length]. hs_nat. }
      rewrite Hf. cbn [mbind option_bind]. exists hs'. split; [|exact Hab'].
      reflexivity.
  - right. split; [done|]. rewrite Hs.
    assert (length (v :: m) ≠ 0)%nat as Hz by (cbn; lia). set (k := length (v :: m)) in *.
    rewrite (proj2 (Nat.eqb_neq _ 0)) by done.
    destruct (Nat.leb_spec k HANDSHAKE_SIZE); [|destruct (Nat.leb_spec k (2 * HANDSHAKE_SIZE))]; cbn [Z.eqb Pos.eqb].
    + apply feed_c1_spec; [done|]. unfold k in *. lia.
    + destruct (feed_c2_spec _ _ data Hab) as (hs' & Hf & Hab'); [unfold k in *; hs_nat| |].
      { rewrite Hs, (proj2 (Nat.eqb_neq _ 0)) by done. done. }
      exists hs'. by rewrite Hf.
    + assert (hs_left (v :: m) = 0%nat) as Hleft by (fold k in Hl; unfold hs_left; fold k; hs_nat).
      exists hs. unfold hs_verdict. rewrite Hleft, Nat.min_0_r. split; [done|]. by rewrite take_0, app_nil_r.
Qed.

(** ** Whole connections *)

Definition received (reads : list (Z * list Z)) : list Z := concat (reads.*2).

(** How a connection that has sent [bs] stands. *)
Definition run_ok (bs : list Z) (r : rc) (hs : handshake) : Prop :=
  match bs with
  | v :: _ =>
      if negb (v =? RTMP_VERSION) then r = NGX_ERROR
      else if (length bs <? 1 + 2 * HANDSHAKE_SIZE)%nat then r = NGX_AGAIN
      else r = NGX_OK ∧ hs_state hs = 3 ∧
        hs_c1 hs = take HANDSHAKE_SIZE (drop 1 bs) ∧
        c1_complex (hs_c1 hs) = Some (hs_complex hs) ∧
        (∃ now, handshake_reply (hs_c1 hs) (hs_complex hs) now = Some (hs_out hs)) ∧
        reply_ok (hs_c1 hs) (hs_complex hs) (hs_out hs)
  | [] => r = NGX_AGAIN
  end.
Definition run_taken (bs : list Z) (r : rc) : nat :=
  if bool_decide (r = NGX_ERROR) then O else Nat.min (length bs) (1 + 2 * HANDSHAKE_SIZE).

Lemma run_taken_ok bs r : r ≠ NGX_ERROR → run_taken bs r = Nat.min (length bs) (1 + 2 * HANDSHAKE_SIZE).
Proof. intros. unfold run_taken. by rewrite bool_decide_false. Qed.

(** A complete handshake, whatever the client sends behind it. *)
Lemma absorbed_done m hs rest :
  absorbed m hs → length m = (1 + 2 * HANDSHAKE_SIZE)%nat → run_ok (m ++ rest) NGX_OK hs.
Proof.
  intros [Hl Hv Hs H1 _ _ Ho] Hm. unfold run_ok. destruct m as [|v m]; [done|].
  destruct Hv as [|[= ->]]; [done|]. cbn [app]. rewrite Z.eqb_refl. cbn [negb].
  change (RTMP_VERSION :: m ++ rest) with ((RTMP_VERSION :: m) ++ rest).
  set (b := RTMP_VERSION :: m) in *.
  rewrite (proj2 (Nat.ltb_ge _ _)) by (rewrite length_app; lia).
  rewrite (proj2 (Nat.eqb_neq _ 0)), (proj2 (Nat.leb_gt _ HANDSHAKE_SIZE)),
    (proj2 (Nat.leb_gt _ (2 * HANDSHAKE_SIZE))) in Hs by hs_nat.
  specialize (H1 ltac:(hs_nat)). destruct (Ho ltac:(hs_nat)) as (now & Hx & Hr).
  assert (hs_c1 hs = take HANDSHAKE_SIZE (drop 1 (b ++ rest))) as Hc.
  { rewrite H1, drop_app_le, take_app_le by (rewrite ?length_drop; hs_nat). done. }
  split_and!; [done|done|exact Hc|exact Hx|by exists now|].
  destruct (reply_spec (hs_c1 hs) (hs_complex hs) now) as (out & Hout & Hok).
  { rewrite H1, length_take, length_drop. hs_nat. }
  rewrite Hr in Hout. injection Hout as ->. exact Hok.
Qed.

Lemma handshake_run_spec reads : ∀ m hs,
  absorbed m hs → (length m < 1 + 2 * HANDSHAKE_SIZE)%nat →
  ∃ r n hs', handshake_run hs reads = Some (r, n, hs') ∧
    run_ok (m ++ received reads) r hs' ∧ (length m + n = run_taken (m ++ received reads) r
                                          ∨ m = [] ∧ r = NGX_ERROR ∧ n = O)%nat.
Proof.
  induction reads as [|[now data] reads IH]; intros m hs Hab Hm.
  - unfold received. cbn [handshake_run fmap list_fmap concat]. rewrite app_nil_r.
    eexists _, _, _. split; [done|]. split.
    + destruct (ab_version _ _ Hab) as [->|Hv]; [done|]. destruct m as [|v m]; [done|]. injection Hv as ->.
      unfold run_ok. rewrite Z.eqb_refl, (proj2 (Nat.ltb_lt _ _)) by done. done.
    + left. rewrite run_taken_ok by done. lia.
  - change (received ((now, data) :: reads)) with (data ++ received reads). cbn [handshake_run].
    destruct (feed_spec m hs data now Hab)
      as [(-> & b & d & -> & Hb & Hf)|(Hv & hs' & Hf & Hab')]; rewrite Hf; cbn [mbind option_bind].
    { eexists _, _, _. split; [done|]. cbn [app run_ok]. rewrite (proj2 (Z.eqb_neq _ _)) by done.
      split; [done|]. by right. }
    unfold hs_verdict. destruct (Nat.ltb_spec (length data) (hs_left m)) as [Hlt|Hge].
    + rewrite take_ge in Hab' by lia. cbn [mbind option_bind].
      destruct (IH (m ++ data) hs' Hab') as (r & n & hs'' & Hr & Hok & Hn).
      { rewrite length_app. hs_nat. }
      rewrite bool_decide_true, Hr by done. cbn [mbind option_bind].
      eexists _, _, _. split; [done|]. rewrite app_assoc. split; [exact Hok|].
      rewrite length_app in Hn. replace (Nat.min (length data) (hs_left m)) with (length data) by lia.
      destruct Hn as [Hn|(Hn & -> & ->)]; [left; lia|right].
      apply app_eq_nil in Hn as [-> ->]. done.
    + rewrite bool_decide_false by done. eexists _, _, _. split; [done|].
      assert (m ++ data ++ received reads
              = (m ++ take (hs_left m) data) ++ drop (hs_left m) data ++ received reads) as Heq.
      { rewrite <- !app_assoc, (app_assoc (take _ _)), take_drop. done. }
      rewrite Heq. split; [apply absorbed_done; [done|]|left; rewrite run_taken_ok by done];
        rewrite !length_app, length_take; hs_nat.
Qed.

(** C15: the handshake does not depend on how the client's bytes arrive. However C0, C1
    and C2 (and what follows them) are cut into reads, empty reads included, no read
    leaves its buffer and the connection stands as its bytes say: it fails without taking
    a byte exactly when the first byte is not version 3, it waits for more - having taken
    everything - while fewer than 3073 bytes have come, and otherwise it is complete, has
    taken exactly 3073 bytes, C1 is the 1536 bytes behind the version, and the reply sent
    is one a validating client accepts. *)
Theorem handshake_any_split reads :
  ∃ r n hs, handshake_run handshake_init reads = Some (r, n, hs) ∧
    run_ok (received reads) r hs ∧ n = run_taken (received reads) r.
Proof.
  destruct (handshake_run_spec reads [] handshake_init absorbed_init) as (r & n & hs & Hr & Hok & Hn); [cbn; lia|].
  exists r, n, hs. split; [done|]. split; [exact Hok|].
  destruct Hn as [Hn|(_ & -> & ->)]; [exact Hn|done].
Qed.
