(* ===== verification/RtmpChunk.v ===== *)
(** * RTMP chunk streams

    Models the chunk reader, the chunk writer and the footprint of
    rtmp/ngx_media_rtmp_wire.[ch].  The reader runs in the monad [R]: its state, the payload
    store and the calls made to the message callback so far; an answer means that no read
    left its buffer, no write left its allocation and the loop ended. *)
From S2P Require Import Prelude Bytes Store.

Definition RTMP_DEFAULT_CHUNK : Z := 128.
Definition RTMP_MAX_CHUNK : Z := 65536.
Definition RTMP_MAX_MESSAGE : Z := 16 * 1024 * 1024.
Definition RTMP_MAX_BUFFERED : Z := 2 * RTMP_MAX_MESSAGE.
Definition RTMP_MAX_CSID : nat := 64.
Definition RTMP_MAX_OUT_PARTS : Z := 512.
Definition RTMP_MAX_OUT_CSID : nat := 8.
Definition MSG_CHUNK_SIZE : Z := 1.
Definition MSG_ABORT : Z := 2.

(** ** The reader *)

(** A chunk stream; the [fmt] member of the structure is never used. *)
Record cstream := mk_cs {
  cs_csid : Z; cs_type : Z; cs_stream_id : Z; cs_timestamp : Z; cs_delta : Z;
  cs_length : Z; cs_received : Z; cs_allocated : Z; cs_payload : option N;
  cs_used : bool; cs_extended : bool }.
#[global] Instance eta_cstream : Eta cstream := λ r,
  mk_cs (cs_csid r) (cs_type r) (cs_stream_id r) (cs_timestamp r) (cs_delta r)
    (cs_length r) (cs_received r) (cs_allocated r) (cs_payload r) (cs_used r) (cs_extended r).
Definition cs_zero : cstream := mk_cs 0 0 0 0 0 0 0 0 None false false.

Record reader := mk_reader {
  rd_chunk_size : Z; rd_max_message : Z; rd_max_buffered : Z; rd_buffered : Z;
  rd_bytes_in : Z; rd_chunks : list cstream; rd_pending_csid : Z;
  rd_pending_remaining : Z; rd_messages : Z; rd_errors : Z }.
#[global] Instance eta_reader : Eta reader := λ r,
  mk_reader (rd_chunk_size r) (rd_max_message r) (rd_max_buffered r) (rd_buffered r)
    (rd_bytes_in r) (rd_chunks r) (rd_pending_csid r) (rd_pending_remaining r)
    (rd_messages r) (rd_errors r).

(** A message as the callback sees it. *)
Record rtmp_msg := mk_msg { mg_type : Z; mg_stream_id : Z; mg_timestamp : Z; mg_data : list Z }.

Record rstate := mk_rstate { rs_rd : reader; rs_calls : list rtmp_msg; rs_store : store }.
#[global] Instance eta_rstate : Eta rstate := λ r, mk_rstate (rs_rd r) (rs_calls r) (rs_store r).
Notation R := (SM rstate).

Definition rd_mod (f : reader → reader) : R unit := smod (λ s, s <| rs_rd ::= f |>).
Definition rd_get {A} (f : reader → A) : R A := sget (λ s, f (rs_rd s)).
Definition on_rstore {A} (m : M A) : R A := λ s,
  match m (rs_store s) with
  | Some (a, st) => Some (a, s <| rs_store := st |>)
  | None => None
  end.
(** The chunk stream a pointer into the table designates. *)
Definition cs_at (i : nat) : R cstream := chunks ← rd_get rd_chunks; sread (chunks !! i).
Definition cs_mod (i : nat) (f : cstream → cstream) : R unit :=
  cs ← cs_at i; rd_mod (λ r, r <| rd_chunks ::= <[i := f cs]> |>).
Definition rd_error : R unit := rd_mod (λ r, r <| rd_errors ::= λ n, n ⊕ 1 |>).

Definition reader_init : reader :=
  mk_reader RTMP_DEFAULT_CHUNK RTMP_MAX_MESSAGE RTMP_MAX_BUFFERED 0 0
    (replicate RTMP_MAX_CSID cs_zero) 0 0 0 0.

Definition reader_reset : R unit :=
  chunks ← rd_get rd_chunks;
  _ ← on_rstore (unref_all (cs_payload <$> chunks));
  rd_mod (λ _, reader_init).

(** The scan of [cs_get]: the slot in use for [csid], or else the first free one. *)
Fixpoint cs_scan (i : nat) (l : list cstream) (csid : Z) (slot : option nat) : nat + option nat :=
  match l with
  | [] => inr slot
  | cs :: l =>
      if cs_used cs && (cs_csid cs =? csid) then inl i
      else cs_scan (S i) l csid
             (match slot with None => if cs_used cs then None else Some i | Some _ => slot end)
  end.
Definition cs_get (csid : Z) (create : bool) : R (option nat) :=
  chunks ← rd_get rd_chunks;
  match cs_scan 0 chunks csid None with
  | inl i => mret (Some i)
  | inr slot =>
      match slot with
      | Some i =>
          if create then
            _ ← cs_mod i (λ _, cs_zero <| cs_used := true |> <| cs_csid := csid |>); mret (Some i)
          else mret None
      | None => mret None
      end
  end.

Definition cs_release (i : nat) : R unit :=
  cs ← cs_at i;
  _ ← on_rstore (buf_unref (cs_payload cs));
  _ ← rd_mod (λ r, r <| rd_buffered ::= λ b, b ⊖ cs_allocated cs |>);
  cs_mod i (λ cs, cs <| cs_payload := None |> <| cs_allocated := 0 |>).

(** Big-endian fields. *)
Definition u24_at (p : list Z) (i : nat) : option Z :=
  a ← p !! i; b ← p !! (i + 1)%nat; c ← p !! (i + 2)%nat;
  Some (Z.lor (Z.lor (Z.shiftl a 16) (Z.shiftl b 8)) c).
Definition u32_at (p : list Z) (i : nat) : option Z :=
  a ← p !! i; b ← p !! (i + 1)%nat; c ← p !! (i + 2)%nat; d ← p !! (i + 3)%nat;
  Some (Z.lor (Z.lor (Z.lor (Z.shiftl a 24) (Z.shiftl b 16)) (Z.shiftl c 8)) d).

(** [cs] is the chunk stream of the message, [payload] its detached buffer. *)
Definition reader_control (cs : cstream) (payload : N) : R rc :=
  if negb (cs_type cs =? MSG_CHUNK_SIZE) && negb (cs_type cs =? MSG_ABORT) then mret NGX_OK
  else
    size ← on_rstore (buf_size (Some payload));
    if negb (size =? 4) then _ ← rd_error; mret NGX_ERROR
    else if negb (cs_length cs =? 4) then _ ← rd_error; mret NGX_ERROR
    else
      p ← on_rstore (buf_read payload 4);
      v ← sread (u32_at p 0);
      if cs_type cs =? MSG_CHUNK_SIZE then
        if (v =? 0) || (RTMP_MAX_CHUNK <? v) then _ ← rd_error; mret NGX_ERROR
        else _ ← rd_mod (λ r, r <| rd_chunk_size := v |>); mret NGX_OK
      else
        target ← cs_get v false;
        match target with
        | None => mret NGX_OK
        | Some t =>
            tcs ← cs_at t;
            match cs_payload tcs with
            | None => mret NGX_OK
            | Some _ =>
                _ ← cs_release t;
                _ ← cs_mod t (λ cs, cs <| cs_received := 0 |> <| cs_length := 0 |>);
                mret NGX_OK
            end
        end.

(** [cb] is the answer the callback gives to a message; [None] is the NULL callback. *)
Definition call_message (cb : option (rtmp_msg → rc)) (m : rtmp_msg) : R rc :=
  match cb with
  | None => mret NGX_OK
  | Some cb => _ ← smod (λ s, s <| rs_calls ::= λ l, l ++ [m] |>); mret (cb m)
  end.

Definition reader_complete (i : nat) (cb : option (rtmp_msg → rc)) : R rc :=
  cs ← cs_at i;
  _ ← rd_mod (λ r, r <| rd_buffered ::= λ b, b ⊖ cs_allocated cs |>);
  _ ← cs_mod i (λ cs, cs <| cs_payload := None |> <| cs_allocated := 0 |>);
  match cs_payload cs with
  | None => mret NGX_OK
  | Some payload =>
      _ ← on_rstore (buf_freeze (Some payload) (cs_length cs));
      r ← reader_control cs payload;
      r ← (if bool_decide (r = NGX_OK) then
             n ← on_rstore (buf_size (Some payload));
             data ← on_rstore (buf_read payload n);
             call_message cb (mk_msg (cs_type cs) (cs_stream_id cs) (cs_timestamp cs) data)
           else mret r);
      _ ← on_rstore (buf_unref (Some payload));
      if bool_decide (r = NGX_OK)
      then _ ← rd_mod (λ r, r <| rd_messages ::= λ n, n ⊕ 1 |>); mret NGX_OK
      else mret NGX_ERROR
  end.

(** The basic header: [Some None] is a header that has not arrived whole. *)
Definition basic_header (p : list Z) : option (option (Z * Z * nat)) :=
  b0 ← p !! 0%nat;
  let fmt := Z.shiftr b0 6 in
  let csid := Z.land b0 0x3F in
  if csid =? 0 then
    if lenZ p <? 2 then Some None
    else b1 ← p !! 1%nat; Some (Some (fmt, 64 + b1, 2%nat))
  else if csid =? 1 then
    if lenZ p <? 3 then Some None
    else b1 ← p !! 1%nat; b2 ← p !! 2%nat; Some (Some (fmt, 64 + b1 + b2 * 256, 3%nat))
  else Some (Some (fmt, csid, 1%nat)).

(** The timestamp field and the extended one behind it. *)
Definition header_time (i : nat) (fmt : Z) (p : list Z) (ts_field : Z) (h : nat)
    : R (option nat) :=
  _ ← cs_mod i (λ cs, cs <| cs_extended := ts_field =? 0xFFFFFF |> <| cs_received := 0 |>);
  let set (ts : Z) : R unit :=
    cs_mod i (λ cs, cs <| cs_timestamp := if fmt =? 0 then ts else u32 (cs_timestamp cs + ts) |>
                       <| cs_delta := ts |>) in
  if ts_field =? 0xFFFFFF then
    if lenZ p <? Z.of_nat h + 4 then mret None
    else ts ← sread (u32_at p h); _ ← set ts; mret (Some (h + 4)%nat)
  else _ ← set ts_field; mret (Some h).

(** A message header of format 0, 1 or 2; [None] is a header that has not arrived whole. *)
Definition message_header (i : nat) (fmt : Z) (p : list Z) (h : nat) : R (option nat) :=
  let mh := if fmt =? 0 then 11 else if fmt =? 1 then 7 else 3 in
  if lenZ p <? Z.of_nat h + mh then mret None
  else
    ts_field ← sread (u24_at p h);
    let h := (h + 3)%nat in
    h ← (if negb (fmt =? 2) then
           len ← sread (u24_at p h);
           type ← sread (p !! (h + 3)%nat);
           _ ← cs_mod i (λ cs, cs <| cs_length := len |> <| cs_type := type |>);
           let h := (h + 4)%nat in
           if fmt =? 0 then
             id ← sread (u32_at p h);
             _ ← cs_mod i (λ cs, cs <| cs_stream_id := id |>); mret (h + 4)%nat
           else mret h
         else mret h);
    cs ← cs_at i;
    _ ← (if negb (fmt =? 2) && bool_decide (cs_payload cs ≠ None) then cs_release i else mret tt);
    header_time i fmt p ts_field h.

(** Format 3: continues a message, or repeats the last header for a new one. *)
Definition repeat_header (i : nat) (p : list Z) (h : nat) : R (option nat) :=
  cs ← cs_at i;
  _ ← (if (cs_length cs <=? cs_received cs) || bool_decide (cs_payload cs = None)
       then cs_mod i (λ cs, cs <| cs_received := 0 |>
                               <| cs_timestamp := u32 (cs_timestamp cs + cs_delta cs) |>)
       else mret tt);
  if cs_extended cs then
    if lenZ p <? Z.of_nat h + 4 then mret None else mret (Some (h + 4)%nat)
  else mret (Some h).

(** What the start of a chunk gives: the slot and the length of its headers. *)
Inductive header := HShort | HFail | HChunk (i : nat) (len : nat).

(** The payload buffer of the message the chunk belongs to. *)
Definition reserve_payload (i : nat) : R bool :=
  cs ← cs_at i;
  max ← rd_get (λ r, rd_max_buffered r ⊖ rd_buffered r);
  if bool_decide (cs_payload cs = None) && (0 <? cs_length cs) then
    if max <? cs_length cs then mret false
    else
      buf ← on_rstore (buf_alloc (cs_length cs));
      match buf with
      | None => _ ← cs_mod i (λ cs, cs <| cs_payload := None |>); mret false
      | Some id =>
          _ ← cs_mod i (λ cs, cs <| cs_payload := Some id |> <| cs_allocated := cs_length cs |>);
          _ ← rd_mod (λ r, r <| rd_buffered ::= λ b, b ⊕ cs_length cs |>);
          mret true
      end
  else mret true.

Definition chunk_header (p : list Z) : R header :=
  bh ← sread (basic_header p);
  match bh with
  | None => mret HShort
  | Some (fmt, csid, h) =>
      slot ← cs_get csid (negb (fmt =? 3));
      match slot with
      | None => _ ← rd_error; mret HFail
      | Some i =>
          oh ← (if fmt =? 3 then repeat_header i p h else message_header i fmt p h);
          match oh with
          | None => mret HShort
          | Some h =>
              cs ← cs_at i;
              max ← rd_get rd_max_message;
              if max <? cs_length cs then _ ← rd_error; mret HFail
              else
                ok ← reserve_payload i;
                if negb ok then _ ← rd_error; mret HFail
                else
                  cs ← cs_at i;
                  let want := cs_length cs ⊖ cs_received cs in
                  _ ← rd_mod (λ r, r <| rd_pending_csid := csid |>
                       <| rd_pending_remaining :=
                            if want <? rd_chunk_size r then want else rd_chunk_size r |>);
                  mret (HChunk i h)
          end
      end
  end.

(** The payload bytes of the chunk in [p]: how many were taken, and the verdict. *)
Definition chunk_payload (i : nat) (p : list Z) (cb : option (rtmp_msg → rc)) : R (rc * nat) :=
  cs ← cs_at i;
  pending ← rd_get rd_pending_remaining;
  let want := cs_length cs ⊖ cs_received cs in
  let t := Z.to_nat (Z.min (Z.min want pending) (lenZ p)) in
  _ ← (match cs_payload cs with
       | Some buf => if (0 <? t)%nat then on_rstore (buf_write buf (cs_received cs) (take t p))
                     else mret tt
       | None => mret tt
       end);
  _ ← cs_mod i (λ cs, cs <| cs_received ::= λ n, n ⊕ Z.of_nat t |>);
  _ ← rd_mod (λ r, r <| rd_pending_remaining ::= λ n, n ⊖ Z.of_nat t |>);
  cs ← cs_at i;
  if cs_length cs <=? cs_received cs then
    _ ← rd_mod (λ r, r <| rd_pending_remaining := 0 |> <| rd_pending_csid := 0 |>);
    r ← reader_complete i cb;
    mret (r, t)
  else mret (NGX_OK, t).

(** Where the next chunk's payload goes: a chunk whose header an earlier read parsed, or
    the one whose header starts [p]. *)
Definition chunk_start (p : list Z) : R header :=
  '(pending, csid) ← rd_get (λ r, (rd_pending_remaining r, rd_pending_csid r));
  if 0 <? pending then
    slot ← cs_get csid false;
    match slot with
    | None => _ ← rd_error; mret HFail
    | Some i => mret (HChunk i 0)
    end
  else chunk_header p.

(** [while (left > 0)] on the bytes left: the verdict and the bytes consumed.  Every turn
    takes a byte, so the number of bytes is fuel enough. *)
Fixpoint read_chunks (fuel : nat) (p : list Z) (cb : option (rtmp_msg → rc)) : R (rc * nat) :=
  match p with
  | [] => mret (NGX_OK, O)
  | _ =>
      match fuel with
      | O => ub
      | S fuel =>
          start ← chunk_start p;
          match start with
          | HShort => mret (NGX_OK, O)
          | HFail => mret (NGX_ERROR, O)
          | HChunk i h =>
              '(r, t) ← chunk_payload i (drop h p) cb;
              if bool_decide (r = NGX_OK) then
                '(r, n) ← read_chunks fuel (drop (h + t) p) cb;
                mret (r, (h + t + n)%nat)
              else mret (r, (h + t)%nat)
          end
      end
  end.

Definition reader_feed (data : list Z) (cb : option (rtmp_msg → rc)) : R (rc * nat) :=
  '(r, consumed) ← read_chunks (length data) data cb;
  _ ← (if bool_decide (r = NGX_OK)
       then rd_mod (λ rd, rd <| rd_bytes_in ::= λ n, n ⊕ Z.of_nat consumed |>) else mret tt);
  mret (r, consumed).

(** A connection: each read is appended to the bytes the last feed left, until a feed
    fails.  The answer is the last verdict and the bytes left. *)
Fixpoint reader_reads (tail : list Z) (reads : list (list Z)) (cb : option (rtmp_msg → rc))
    : R (rc * list Z) :=
  match reads with
  | [] => mret (NGX_OK, tail)
  | data :: reads =>
      '(r, n) ← reader_feed (tail ++ data) cb;
      let tail := drop n (tail ++ data) in
      if bool_decide (r = NGX_OK) then reader_reads tail reads cb else mret (r, tail)
  end.

(** ** The writer *)

Record writer := mk_writer {
  wr_chunk_size : Z; wr_max_message : Z;
  wr_timestamp : list Z; wr_stream_id : list Z; wr_used : list bool }.
#[global] Instance eta_writer : Eta writer := λ r,
  mk_writer (wr_chunk_size r) (wr_max_message r) (wr_timestamp r) (wr_stream_id r) (wr_used r).

Definition writer_init (chunk_size max_message : Z) : writer :=
  mk_writer
    (if (0 <? chunk_size) && (chunk_size <=? RTMP_MAX_CHUNK) then chunk_size else RTMP_DEFAULT_CHUNK)
    (if max_message =? 0 then RTMP_MAX_MESSAGE else max_message)
    (replicate RTMP_MAX_OUT_CSID 0) (replicate RTMP_MAX_OUT_CSID 0)
    (replicate RTMP_MAX_OUT_CSID false).

(** A part points into the packet's own header bytes or into the payload. *)
Inductive part := PHead (off len : nat) | PData (off len : Z).
Definition part_len (p : part) : Z := match p with PHead _ n => Z.of_nat n | PData _ n => n end.

(** [pk_head] are the bytes of the header allocation; [None] is NULL. *)
Record rtmp_packet := mk_packet {
  pk_parts : list part; pk_head : option (list Z); pk_payload : option N }.
Definition packet_init : rtmp_packet := mk_packet [] None None.

Definition packet_destroy (pkt : rtmp_packet) : M rtmp_packet :=
  _ ← buf_unref (pk_payload pkt); mret packet_init.

Definition be24 (v : Z) : list Z := [u8 (Z.shiftr v 16); u8 (Z.shiftr v 8); u8 v].

(** The header of one chunk. *)
Definition chunk_head (fmt csid type stream_id len ts_field : Z) (extended : bool) : list Z :=
  u8 (Z.lor (Z.shiftl fmt 6) (Z.land csid 0x3F)) ::
  (if negb (fmt =? 3) then
     be24 (if extended then 0xFFFFFF else ts_field)
     ++ (if fmt =? 0 then be24 len ++ [u8 type] ++ be32 stream_id else be24 len ++ [u8 type])
   else [])
  ++ (if extended then be32 ts_field else []).

(** The loop over the [n] chunks left: the header bytes and the parts, given those so far. *)
Fixpoint message_chunks (n : nat) (fmt csid type stream_id len ts_field : Z) (extended : bool)
    (chunk_size offset pos remain : Z) (head : list Z) (parts : list part)
    : list Z * list part :=
  match n with
  | O => (head, parts)
  | S n =>
      let h := chunk_head fmt csid type stream_id len ts_field extended in
      let parts := parts ++ [PHead (length head) (length h)] in
      let t := if remain <? chunk_size then remain else chunk_size in
      let parts := parts ++ (if 0 <? t then [PData (offset + pos) t] else []) in
      message_chunks n 3 csid type stream_id len ts_field extended chunk_size offset
        (pos + t) (remain - t) (head ++ h) parts
  end.

(** The format, and the value of the timestamp field. *)
Definition writer_format (w : writer) (csid : nat) (stream_id timestamp : Z)
    : option (Z * Z) :=
  used ← wr_used w !! csid;
  last ← wr_timestamp w !! csid;
  last_id ← wr_stream_id w !! csid;
  Some (if negb used then (0, timestamp)
        else if (last <=? timestamp) && (u32 (timestamp - last) <? 0xFFFFFF)
                && (last_id =? stream_id)
        then (1, u32 (timestamp - last)) else (0, timestamp)).

(** [(len + chunk_size - 1) / chunk_size] *)
Definition chunk_count (len chunk_size : Z) : Z := (len ⊕ chunk_size ⊖ 1) `div` chunk_size.

Definition writer_message (w : writer) (csid : nat) (type stream_id timestamp : Z)
    (payload : option N) (offset len : Z) (pkt : rtmp_packet) : M (rc * writer * rtmp_packet) :=
  if (RTMP_MAX_OUT_CSID <=? csid)%nat || (wr_max_message w <? len) then mret (NGX_ERROR, w, pkt)
  else if (0 <? len) && bool_decide (payload = None) then mret (NGX_ERROR, w, pkt)
  else
    size ← (if 0 <? len then buf_size payload else mret 0);
    if (0 <? len) && (size <? offset ⊕ len) then mret (NGX_ERROR, w, pkt)
    else
      '(fmt, ts_field) ← sread (writer_format w csid stream_id timestamp);
      let extended := 0xFFFFFF <=? ts_field in
      let chunks := if chunk_count len (wr_chunk_size w) =? 0 then 1
                    else chunk_count len (wr_chunk_size w) in
      if RTMP_MAX_OUT_PARTS <? chunks * 2 then mret (NGX_ERROR, w, pkt)
      else
        let head_size := chunks * (1 + (if extended then 4 else 0))
                         + (if fmt =? 0 then 11 else if fmt =? 1 then 7 else 0) in
        p ← ngx_alloc head_size;
        match p with
        | None => mret (NGX_ERROR, w, pkt)
        | Some _ =>
            let '(head, parts) := message_chunks (Z.to_nat chunks) fmt (Z.of_nat csid) type
              stream_id len ts_field extended (wr_chunk_size w) offset 0 len [] [] in
            (* the headers fill their allocation, the parts their array *)
            if (head_size <? lenZ head) || (RTMP_MAX_OUT_PARTS <? Z.of_nat (length parts)) then ub
            else
              r ← (match payload with None => mret (pk_payload pkt) | Some _ => buf_ref payload end);
              mret (NGX_OK,
                w <| wr_used ::= <[csid := true]> |> <| wr_stream_id ::= <[csid := stream_id]> |>
                  <| wr_timestamp ::= <[csid := timestamp]> |>,
                mk_packet parts (Some head) r)
        end.

(** What a queue reserves: the verdict, the parts and the references. *)
Definition message_footprint (w : writer) (len : Z) : rc * Z * Z :=
  if (wr_chunk_size w =? 0) || (wr_max_message w <? len) then (NGX_AGAIN, 0, 0)
  else if len =? 0 then (NGX_OK, 1, 0)
  else
    let chunks := chunk_count len (wr_chunk_size w) in
    if RTMP_MAX_OUT_PARTS <? chunks * 2 then (NGX_AGAIN, 1, 0)
    else (NGX_OK, chunks * 2, chunks).
