(* ===== verification/RtmpReader.v ===== *)
(** * The chunk reader's invariant

    The state invariant of the reader of RtmpChunk.v and the proof that every operation
    keeps it and never misbehaves, whatever bytes arrive: payloads stay inside their
    buffers, the bytes held for partial messages inside their budget, references balance
    and every loop ends. *)
From S2P Require Import Prelude Bytes Store RtmpChunk.

(** ** Rules for the primitives *)

Lemma wp_on_rstore {A} (m : M A) (Q : A → rstate → Prop) s :
  wp m (λ a st, Q a (s <| rs_store := st |>)) (rs_store s) → wp (on_rstore m) Q s.
Proof.
  intros (a & st & Hm & HQ). exists a, (s <| rs_store := st |>). split; [|done].
  unfold on_rstore. by rewrite Hm.
Qed.
Lemma wp_on_rstore_read {A} (m : M A) (Q : A → rstate → Prop) s :
  wp m (λ a st, st = rs_store s ∧ Q a s) (rs_store s) → wp (on_rstore m) Q s.
Proof.
  intros H. apply wp_on_rstore. eapply wp_mono; [exact H|]. intros a st [-> HQ]. by destruct s.
Qed.
Lemma wp_rd_get {A} (f : reader → A) Q s : Q (f (rs_rd s)) s → wp (rd_get f) Q s.
Proof. intros. by apply (wp_get (λ s, f (rs_rd s))). Qed.
Lemma wp_rd_mod f (Q : unit → rstate → Prop) s :
  Q tt (s <| rs_rd := f (rs_rd s) |>) → wp (rd_mod f) Q s.
Proof. intros. by apply (wp_mod (λ s, s <| rs_rd ::= f |>)). Qed.
Lemma wp_cs_at i cs Q s : rd_chunks (rs_rd s) !! i = Some cs → Q cs s → wp (cs_at i) Q s.
Proof. intros. apply wp_bind, wp_rd_get. by eapply wp_read. Qed.

(** The state with the chunk stream in slot [i] replaced. *)
Definition put_cs (i : nat) (cs : cstream) (s : rstate) : rstate :=
  s <| rs_rd := (rs_rd s) <| rd_chunks := <[i := cs]> (rd_chunks (rs_rd s)) |> |>.

Lemma wp_cs_mod i f cs (Q : unit → rstate → Prop) s :
  rd_chunks (rs_rd s) !! i = Some cs → Q tt (put_cs i (f cs) s) → wp (cs_mod i f) Q s.
Proof. intros. apply wp_bind. eapply wp_cs_at; [done|]. by apply wp_rd_mod. Qed.

Lemma put_cs_twice i a b s : put_cs i a (put_cs i b s) = put_cs i a s.
Proof. unfold put_cs. cbn. by rewrite list_insert_insert_eq. Qed.
Lemma put_cs_lookup i cs cs' s :
  rd_chunks (rs_rd s) !! i = Some cs → rd_chunks (rs_rd (put_cs i cs' s)) !! i = Some cs'.
Proof. intros H. cbn. apply list_lookup_insert_eq. by eapply lookup_lt_Some. Qed.
Lemma put_cs_same i cs s : rd_chunks (rs_rd s) !! i = Some cs → put_cs i cs s = s.
Proof. intros H. unfold put_cs. rewrite list_insert_id by done. by destruct s as [[] ? ?]. Qed.

(** ** The table *)

Lemma cs_scan_found k l csid slot i :
  cs_scan k l csid slot = inl i → ∃ j cs, i = (k + j)%nat ∧ l !! j = Some cs ∧
    cs_used cs = true ∧ cs_csid cs = csid.
Proof.
  revert k slot. induction l as [|c l IH]; intros k slot; cbn [cs_scan]; [done|].
  destruct (cs_used c && (cs_csid c =? csid)) eqn:E.
  - intros [= <-]. apply andb_prop in E as [? ?%Z.eqb_eq]. exists O, c. split_and!; [lia|done..].
  - intros (j & cs & -> & ? & ? & ?)%IH. exists (S j), cs. split_and!; [lia|done..].
Qed.

Lemma cs_scan_free k l csid slot i :
  cs_scan k l csid slot = inr (Some i) → slot = Some i ∨
  ∃ j cs, i = (k + j)%nat ∧ l !! j = Some cs ∧ cs_used cs = false.
Proof.
  revert k slot. induction l as [|c l IH]; intros k slot; cbn [cs_scan]; [intros [= ->]; auto|].
  destruct (cs_used c && _) eqn:E; [done|].
  intros [H|(j & cs & -> & ? & ?)]%IH.
  - destruct slot; [auto|]. destruct (cs_used c) eqn:U; [done|]. injection H as <-.
    right. exists O, c. split_and!; [lia|done..].
  - right. exists (S j), cs. split_and!; [lia|done..].
Qed.

(** The scan depends on what is used for what only. *)
Definition cs_key (cs : cstream) : bool * Z := (cs_used cs, cs_csid cs).

Lemma cs_scan_keys k l l' csid slot :
  cs_key <$> l = cs_key <$> l' → cs_scan k l csid slot = cs_scan k l' csid slot.
Proof.
  revert k l' slot. induction l as [|c l IH]; intros k [|c' l'] slot H; try done.
  cbn in H. injection H as Hu Hc Hl. cbn [cs_scan]. rewrite Hu, Hc.
  destruct (_ && _); [done|]. by apply IH.
Qed.

Lemma cs_keys_insert i cs cs' (l : list cstream) :
  l !! i = Some cs → cs_key cs' = cs_key cs → cs_key <$> <[i := cs']> l = cs_key <$> l.
Proof.
  intros Hi Hk. rewrite list_fmap_insert, Hk. apply list_insert_id. by rewrite list_lookup_fmap, Hi.
Qed.

(** A free slot taken for a chunk stream is where the next scan finds it. *)
Lemma cs_scan_take k l csid j cs cs' :
  (∀ i, cs_scan k l csid None ≠ inl i) → l !! j = Some cs → cs_used cs = false →
  cs_key cs' = (true, csid) → ∀ slot, cs_scan k (<[j := cs']> l) csid slot = inl (k + j)%nat.
Proof.
  intros Hn Hj Hu [= Hu' Hc'].
  assert (∀ l k slot slot', (∃ i, cs_scan k l csid slot = inl i) → ∃ i, cs_scan k l csid slot' = inl i) as Hslot.
  { clear. induction l as [|c l IH]; intros k slot slot' [i Hi]; cbn [cs_scan] in *; [done|].
    destruct (_ && _); [by exists k|]. eapply IH. exists i. exact Hi. }
  revert k j Hn Hj. induction l as [|c l IH]; intros k j Hn Hj slot; [done|].
  destruct j as [|j]; cbn [insert list_insert cs_scan].
  - rewrite Hu', Hc', Z.eqb_refl. cbn. f_equal. lia.
  - cbn [cs_scan] in Hn. destruct (cs_used c && (cs_csid c =? csid)) eqn:E.
    { exfalso. by apply (Hn k). }
    assert (∀ i, cs_scan (S k) l csid None ≠ inl i) as Hn'.
    { intros i Hi. destruct (Hslot l (S k) None (if cs_used c then None else Some k)) as [i' Hi'];
        [by exists i|]. by apply (Hn i'). }
    rewrite (IH (S k) j Hn' Hj). f_equal. lia.
Qed.

(** ** The invariant *)

#[global] Instance owner_cstream : Owner cstream := λ cs, option_list (cs_payload cs).

(** The payload buffer of a partial message is as long as the message and holds what was
    received; nobody else refers to it. *)
Record cs_ok (st : store) (cs : cstream) : Prop := {
  co_length : 0 ≤ cs_length cs < 2 ^ 24;
  co_received : 0 ≤ cs_received cs ≤ cs_length cs;
  co_none : cs_payload cs = None → cs_allocated cs = 0;
  co_some id : cs_payload cs = Some id → cs_used cs = true ∧ 0 < cs_length cs ∧
    cs_allocated cs = cs_length cs ∧ ∃ bf, st_bufs st !! id = Some bf ∧
      b_cap bf = cs_length cs ∧ b_refs bf = 1 ∧ cs_received cs ≤ lenZ (b_data bf) ∧
      bytes (b_data bf) }.

Definition msg_ok (m : rtmp_msg) : Prop := 0 < lenZ (mg_data m) < 2 ^ 24.

Record rinv (L : list N) (s : rstate) : Prop := {
  ri_slots : length (rd_chunks (rs_rd s)) = RTMP_MAX_CSID;
  ri_chunk : 0 < rd_chunk_size (rs_rd s) ≤ RTMP_MAX_CHUNK;
  ri_conf : rd_max_message (rs_rd s) = RTMP_MAX_MESSAGE ∧
            rd_max_buffered (rs_rd s) = RTMP_MAX_BUFFERED;
  ri_owns : owns (rs_store s) (holds (rd_chunks (rs_rd s)) ++ L);
  ri_cs i cs : rd_chunks (rs_rd s) !! i = Some cs → cs_ok (rs_store s) cs;
  ri_sum : rd_buffered (rs_rd s) = sumZ (cs_allocated <$> rd_chunks (rs_rd s));
  ri_max : rd_buffered (rs_rd s) ≤ rd_max_buffered (rs_rd s);
  ri_calls : Forall msg_ok (rs_calls s) }.

(** The buffers of [L] are left alone. *)
Definition keeps (L : list N) (st st' : store) : Prop :=
  ∀ id, id ∈ L → st_bufs st' !! id = st_bufs st !! id.

Definition step_ok (L : list N) (s s' : rstate) : Prop :=
  rinv L s' ∧ keeps L (rs_store s) (rs_store s').

Lemma keeps_refl L st : keeps L st st.
Proof. by intros id. Qed.
Lemma keeps_trans L a b c : keeps L a b → keeps L b c → keeps L a c.
Proof. intros H1 H2 id Hid. by rewrite H2, H1. Qed.
Lemma keeps_sub L L' st st' : L ⊆ L' → keeps L' st st' → keeps L st st'.
Proof. intros Hs H id Hid. apply H. by apply Hs. Qed.

Lemma cs_ok_keeps L st st' cs : holds cs ⊆ L → keeps L st st' → cs_ok st cs → cs_ok st' cs.
Proof.
  intros Hsub Hk [Hl Hr Hn Hs]. split; try done. intros id Hid.
  destruct (Hs id Hid) as (? & ? & ? & bf & Hb & ?). split_and!; try done. exists bf.
  rewrite Hk; [done|]. apply Hsub. unfold holds, owner_cstream. rewrite Hid. set_solver.
Qed.

Lemma sumZ_insert {A} (f : A → Z) (l : list A) i x y :
  l !! i = Some x → sumZ (f <$> <[i := y]> l) = sumZ (f <$> l) - f x + f y.
Proof.
  revert i. induction l as [|a l IH]; intros [|i] Hi; try done.
  - injection Hi as ->. cbn. lia.
  - specialize (IH i Hi). change (f a + sumZ (f <$> <[i := y]> l) = f a + sumZ (f <$> l) - f x + f y). lia.
Qed.

Lemma alloc_nonneg L s i cs :
  rinv L s → rd_chunks (rs_rd s) !! i = Some cs → 0 ≤ cs_allocated cs ≤ rd_buffered (rs_rd s).
Proof.
  intros [_ _ _ _ Hcs Hsum _ _] Hi.
  assert (∀ c, c ∈ rd_chunks (rs_rd s) → 0 ≤ cs_allocated c) as Hnn.
  { intros c [j Hj]%list_elem_of_lookup_1. destruct (Hcs j c Hj) as [Hl _ Hn Hs].
    destruct (cs_payload c) as [id|]; [destruct (Hs id) as (_ & _ & -> & _); [done|lia]|].
    rewrite Hn by done. lia. }
  split; [apply Hnn; by eapply list_elem_of_lookup_2|]. rewrite Hsum. clear Hsum Hcs.
  revert i Hi Hnn. induction (rd_chunks (rs_rd s)) as [|c l IH]; intros [|i] Hi Hnn; try done.
  all: change (cs_allocated cs ≤ cs_allocated c + sumZ (cs_allocated <$> l)).
  - injection Hi as ->. assert (0 ≤ sumZ (cs_allocated <$> l)); [|lia].
    apply sumZ_nonneg, Forall_fmap, Forall_forall. intros x Hx. apply Hnn. set_solver.
  - pose proof (Hnn c ltac:(set_solver)). specialize (IH i Hi ltac:(set_solver)). lia.
Qed.

(** The rest of the reader's references, and its buffers when a slot changes. *)
Definition rest_of (i : nat) (L : list N) (s : rstate) : list N :=
  holds (delete i (rd_chunks (rs_rd s))) ++ L.

Lemma owns_rest L s i cs :
  rinv L s → rd_chunks (rs_rd s) !! i = Some cs →
  owns (rs_store s) (holds cs ++ rest_of i L s).
Proof.
  intros Hi Hcs. eapply owns_proper; [|exact (ri_owns _ _ Hi)]. unfold rest_of.
  rewrite app_assoc. by rewrite <- holds_delete.
Qed.

Lemma holds_payload cs id : cs_payload cs = Some id → holds cs = [id].
Proof. unfold holds, owner_cstream. by intros ->. Qed.
Lemma holds_no_payload cs : cs_payload cs = None → holds cs = [].
Proof. unfold holds, owner_cstream. by intros ->. Qed.

(** A payload is referred to once. *)
Lemma payload_sole L s i cs id :
  rinv L s → rd_chunks (rs_rd s) !! i = Some cs → cs_payload cs = Some id →
  id ∉ rest_of i L s.
Proof.
  intros Hi Hcs Hid Hin. pose proof (owns_rest _ _ _ _ Hi Hcs) as Ho.
  destruct (co_some _ _ (ri_cs _ _ Hi _ _ Hcs) id Hid) as (_ & _ & _ & bf & Hb & _ & Hr & _).
  pose proof (owns_live _ _ Ho _ _ Hb) as Ho1. rewrite (holds_payload cs id Hid) in Ho1.
  cbn [app] in Ho1. rewrite occ_cons, decide_True in Ho1 by done.
  apply occ_pos in Hin. lia.
Qed.

(** Slot [i] changes, with its payload; what the other slots and [L] refer to does not. *)
Lemma rinv_slot L s s' i cs cs' :
  rinv L s → rd_chunks (rs_rd s) !! i = Some cs →
  rd_chunks (rs_rd s') = <[i := cs']> (rd_chunks (rs_rd s)) →
  0 < rd_chunk_size (rs_rd s') ≤ RTMP_MAX_CHUNK →
  rd_max_message (rs_rd s') = rd_max_message (rs_rd s) →
  rd_max_buffered (rs_rd s') = rd_max_buffered (rs_rd s) →
  rd_buffered (rs_rd s') = rd_buffered (rs_rd s) - cs_allocated cs + cs_allocated cs' →
  rd_buffered (rs_rd s') ≤ rd_max_buffered (rs_rd s) →
  owns (rs_store s') (holds cs' ++ rest_of i L s) → cs_ok (rs_store s') cs' →
  keeps (rest_of i L s) (rs_store s) (rs_store s') → rs_calls s' = rs_calls s →
  step_ok L s s'.
Proof.
  intros [Hn Hc [Hm1 Hm2] Ho Hcs Hsum Hmax Hcalls] Hi Hch Hcz E1 E2 Hb Hle Ho' Hok Hk Hca.
  split; [|eapply keeps_sub; [|exact Hk]; unfold rest_of; set_solver].
  split.
  - by rewrite Hch, length_insert.
  - done.
  - by rewrite E1, E2.
  - rewrite Hch. eapply owns_proper; [|exact Ho']. unfold rest_of.
    rewrite (holds_insert _ i cs cs') by done. by rewrite <- app_assoc.
  - intros j c. rewrite Hch. intros [(-> & <- & _)|[Hne Hj]]%list_lookup_insert_Some; [done|].
    eapply cs_ok_keeps; [|exact Hk|by eapply Hcs].
    unfold rest_of. assert (c ∈ delete i (rd_chunks (rs_rd s))) as Hin.
    { destruct (decide (j < i)%nat).
      - apply (list_elem_of_lookup_2 _ j). by rewrite list_lookup_delete_lt.
      - apply (list_elem_of_lookup_2 _ (j - 1)). rewrite list_lookup_delete_ge by lia.
        by replace (S (j - 1)) with j by lia. }
    pose proof (holds_elem _ _ Hin). set_solver.
  - rewrite Hb, Hch, (sumZ_insert _ _ _ cs) by done. lia.
  - by rewrite E2.
  - by rewrite Hca.
Qed.

(** ** Buffers with one owner *)

Definition drop_buf (id : N) (st : store) : store := set_bufs (delete id (st_bufs st)) st.

Lemma keeps_drop id K st : id ∉ K → keeps K st (drop_buf id st).
Proof. intros Hn x Hx. cbn. apply lookup_delete_ne. by intros ->. Qed.

Lemma wp_unref_sole id K st :
  owns st (id :: K) → id ∉ K →
  wp (buf_unref (Some id)) (λ _ st', st' = drop_buf id st ∧ owns st' K) st.
Proof.
  intros Ho Hn. destruct (owns_in _ _ id Ho) as [bf Hb]; [set_solver|].
  pose proof (owns_live _ _ Ho _ _ Hb) as Hr. rewrite occ_cons, decide_True in Hr by done.
  assert (occ id K = 0) as Hz by (rewrite occ_pos in Hn; pose proof (occ_nonneg id K); lia).
  eapply wp_mono; [apply wp_and; [by apply (wp_buf_unref (Some id) K)|]|].
  { instantiate (1 := λ _ st', st' = drop_buf id st). eexists _, _. split; [|done].
    unfold buf_unref, deref, mbind, SM_bind. rewrite Hb, Hr, Hz. done. }
  by intros _ st' [[? _] ?].
Qed.

Lemma wp_alloc_sole len K st :
  owns st K → 0 ≤ len →
  wp (buf_alloc len) (λ p st', owns st' (holds p ++ K) ∧ keeps K st st' ∧
    st_alloc st' = st_alloc st ∧
    (∀ id, p = Some id → (id ∉ K) ∧ st_bufs st' !! id = Some (mk_buf 1 0 len [])) ∧
    ((∀ n z, st_alloc st n z = true) → len < 2 ^ 62 → p ≠ None)) st.
Proof.
  intros Ho Hl. eapply wp_mono; [apply wp_and; [by apply (wp_buf_alloc len K)|]|].
  { instantiate (1 := λ p st', (∀ id, (id < st_next st)%N → st_bufs st' !! id = st_bufs st !! id) ∧
      ((∀ n z, st_alloc st n z = true) → len < 2 ^ 62 → p ≠ None)).
    unfold buf_alloc, buf_header. caseb; [apply wp_ret; split; [done|lia]|]. apply wp_bind.
    eexists _, _. split; [done|]. destruct (_ && _) eqn:E.
    - eexists _, _. split; [done|]. split; [|done]. intros id Hid. cbn. by rewrite lookup_insert_ne by lia.
    - apply wp_ret. split; [done|]. intros Ha Hlt. rewrite Ha, andb_true_r in E.
      apply Z.ltb_ge in E. lia. }
  intros p st' [(Ho' & Hev & Hf) [Hk Hg]]. split_and!; [done| |apply Hev| |done].
  - intros id Hid. destruct (owns_in _ _ _ Ho Hid) as [b Hb]. apply Hk. by eapply wf_next; [apply Ho|].
  - intros id ->. destruct (Hf id eq_refl) as [Hge Hb]. split; [|done]. intros Hin.
    destruct (owns_in _ _ _ Ho Hin) as [b Hb']. apply (wf_next _ (owns_wf _ _ Ho)) in Hb'. lia.
Qed.

Lemma keeps_set_data id d K st : id ∉ K → keeps K st (set_data id d st).
Proof. intros Hn x Hx. apply set_data_other. by intros ->. Qed.

(** ** Operations on a slot *)

Definition pend_same (s s' : rstate) : Prop :=
  rd_pending_remaining (rs_rd s') = rd_pending_remaining (rs_rd s) ∧
  rd_pending_csid (rs_rd s') = rd_pending_csid (rs_rd s).

Definition released (cs : cstream) : cstream := cs <| cs_payload := None |> <| cs_allocated := 0 |>.

Lemma released_ok st st' cs : cs_ok st cs → cs_ok st' (released cs).
Proof. intros [Hl Hr _ _]. by split. Qed.

(** The payload of a slot detached: what [release] drops and [complete] hands over. *)
Definition uncounted (cs : cstream) (s : rstate) : rstate :=
  s <| rs_rd ::= λ r, r <| rd_buffered ::= λ b, (b ⊖ cs_allocated cs) |> |>.
Definition detached (i : nat) (cs : cstream) (s : rstate) : rstate :=
  put_cs i (released cs) (uncounted cs s).

Lemma buffered_fits L s : rinv L s → 0 ≤ rd_buffered (rs_rd s) ≤ RTMP_MAX_BUFFERED.
Proof.
  intros Hi. split; [|rewrite <- (proj2 (ri_conf _ _ Hi)); apply Hi].
  destruct (lookup_lt_is_Some_2 (rd_chunks (rs_rd s)) 0) as [cs Hcs].
  { rewrite (ri_slots _ _ Hi). unfold RTMP_MAX_CSID. lia. }
  pose proof (alloc_nonneg _ _ _ _ Hi Hcs). lia.
Qed.

Lemma buffered_minus L s i cs :
  rinv L s → rd_chunks (rs_rd s) !! i = Some cs →
  rd_buffered (rs_rd s) ⊖ cs_allocated cs = rd_buffered (rs_rd s) - cs_allocated cs.
Proof.
  intros Hi Hcs. pose proof (alloc_nonneg _ _ _ _ Hi Hcs).
  pose proof (buffered_fits _ _ Hi) as Hb. unfold RTMP_MAX_BUFFERED, RTMP_MAX_MESSAGE in Hb.
  apply u64_small. lia.
Qed.

(** Detaching hands the payload's reference to whoever holds [holds cs]. *)
Lemma detached_inv L s i cs :
  rinv L s → rd_chunks (rs_rd s) !! i = Some cs → rinv (holds cs ++ L) (detached i cs s).
Proof.
  intros Hi Hcs. pose proof (buffered_minus _ _ _ _ Hi Hcs) as Hb.
  pose proof (alloc_nonneg _ _ _ _ Hi Hcs) as Ha. pose proof Hi as [Hn Hc Hm Ho Hok Hsum Hmax Hcalls].
  split; try done.
  - cbn. by rewrite length_insert.
  - eapply owns_proper; [|exact (owns_rest _ _ _ _ Hi Hcs)]. unfold rest_of.
    change (rd_chunks (rs_rd (detached i cs s))) with (<[i := released cs]> (rd_chunks (rs_rd s))).
    rewrite (holds_insert _ i cs (released cs)) by done.
    change (holds (released cs)) with (@nil N). cbn [app]. rewrite !app_assoc.
    apply Permutation_app; [|done]. apply Permutation_app_comm.
  - cbn. intros j c. intros [(-> & <- & _)|[Hne Hj]]%list_lookup_insert_Some; [|eauto].
    eapply released_ok; eauto.
  - cbn. rewrite Hb, (sumZ_insert _ _ _ cs) by done. cbn. lia.
  - cbn. lia.
Qed.

Lemma step_trans L a b c : step_ok L a b → step_ok L b c → step_ok L a c.
Proof. intros [_ Hk1] [Hi Hk2]. split; [done|by eapply keeps_trans]. Qed.

(** [release] on a slot whose header fields are being replaced: what is left is a slot
    without a payload. *)
Lemma wp_cs_release L s i cs c :
  rinv L s → rd_chunks (rs_rd s) !! i = Some cs →
  cs_payload c = cs_payload cs → cs_allocated c = cs_allocated cs →
  wp (cs_release i) (λ _ s', ∃ st,
    s' = put_cs i (released c) ((uncounted cs s) <| rs_store := st |>) ∧
    (cs_payload cs = None → st = rs_store s) ∧
    ∀ c', cs_payload c' = None → cs_ok st c' →
      step_ok L s (put_cs i c' ((uncounted cs s) <| rs_store := st |>))) (put_cs i c s).
Proof.
  intros Hi Hcs Hp Ha. pose proof (owns_rest _ _ _ _ Hi Hcs) as Ho.
  assert (∀ st', owns st' (rest_of i L s) → keeps (rest_of i L s) (rs_store s) st' →
    ∀ c', cs_payload c' = None → cs_ok st' c' →
      step_ok L s (put_cs i c' ((uncounted cs s) <| rs_store := st' |>))) as Hstep.
  { intros st' Ho' Hk c' Hn Hok. apply (rinv_slot L s _ i cs c'); try done; try apply Hi.
    - cbn. rewrite (buffered_minus L s i cs), (co_none _ _ Hok Hn) by done. lia.
    - cbn. rewrite (buffered_minus L s i cs) by done.
      pose proof (alloc_nonneg _ _ _ _ Hi Hcs). pose proof (ri_max _ _ Hi). lia.
    - cbn. rewrite (holds_no_payload _ Hn). exact Ho'. }
  assert (wp (buf_unref (cs_payload c)) (λ _ st', owns st' (rest_of i L s) ∧
    (cs_payload cs = None → st' = rs_store s) ∧
    keeps (rest_of i L s) (rs_store s) st') (rs_store s)) as Hu.
  { rewrite Hp. destruct (cs_payload cs) as [id|] eqn:E.
    - pose proof (payload_sole _ _ _ _ _ Hi Hcs E) as Hn. rewrite (holds_payload _ _ E) in Ho.
      eapply wp_mono; [by apply (wp_unref_sole id (rest_of i L s))|].
      intros [] st' [-> Ho']. split; [done|]. split; [done|by apply keeps_drop].
    - apply wp_ret. rewrite (holds_no_payload _ E) in Ho. split; [done|]. split; [done|apply keeps_refl]. }
  apply wp_bind. eapply wp_cs_at; [by eapply put_cs_lookup|]. apply wp_bind, wp_on_rstore.
  eapply wp_mono; [exact Hu|]. intros [] st' (Ho' & Hsame & Hk). apply wp_bind, wp_rd_mod.
  eapply wp_cs_mod; [cbn; by eapply list_lookup_insert_eq, lookup_lt_Some|].
  exists st'. split; [|split; [exact Hsame|by apply Hstep]].
  rewrite Ha. unfold put_cs, uncounted. cbn. by rewrite list_insert_insert_eq.
Qed.

(** A slot changes in what is neither its payload nor its use. *)
Lemma rinv_put L s i cs cs' :
  rinv L s → rd_chunks (rs_rd s) !! i = Some cs →
  cs_payload cs' = cs_payload cs → cs_allocated cs' = cs_allocated cs →
  cs_ok (rs_store s) cs' → rinv L (put_cs i cs' s).
Proof.
  intros Hi Hcs Hp Ha Hok. refine (proj1 (rinv_slot L s (put_cs i cs' s) i cs cs' _ _ _ _ _ _ _ _ _ _ _ _)); try done; try apply Hi.
  - cbn. lia.
  - unfold holds, owner_cstream. rewrite Hp. exact (owns_rest _ _ _ _ Hi Hcs).
Qed.

(** The reader's other fields. *)
Lemma rinv_fields L s r' :
  rinv L s → rd_chunks r' = rd_chunks (rs_rd s) → rd_chunk_size r' = rd_chunk_size (rs_rd s) →
  rd_max_message r' = rd_max_message (rs_rd s) → rd_max_buffered r' = rd_max_buffered (rs_rd s) →
  rd_buffered r' = rd_buffered (rs_rd s) → rinv L (s <| rs_rd := r' |>).
Proof. intros [] E1 E2 E3 E4 E5. split; cbn; rewrite ?E1, ?E2, ?E3, ?E4, ?E5; done. Qed.

Lemma wp_cs_get L s csid create :
  rinv L s →
  wp (cs_get csid create) (λ o s', step_ok L s s' ∧ pend_same s s' ∧ (create = false → s' = s) ∧
    match o with
    | Some i => cs_scan 0 (rd_chunks (rs_rd s')) csid None = inl i ∧
                is_Some (rd_chunks (rs_rd s') !! i)
    | None => s' = s ∧ ∀ i, cs_scan 0 (rd_chunks (rs_rd s)) csid None ≠ inl i
    end) s.
Proof.
  intros Hi. assert (step_ok L s s) as Hs by (split; [done|apply keeps_refl]).
  apply wp_bind, wp_rd_get. destruct (cs_scan 0 _ csid None) as [i|[i|]] eqn:E.
  - apply wp_ret. destruct (cs_scan_found _ _ _ _ _ E) as (j & cs & -> & Hj & _). by split_and!.
  - destruct (cs_scan_free _ _ _ _ _ E) as [|(j & cs & -> & Hj & Hu)]; [done|].
    destruct create; [|apply wp_ret; split_and!; try done; try (intros i; congruence)]. cbn [Nat.add].
    pose proof (ri_cs _ _ Hi _ _ Hj) as Hok.
    assert (cs_payload cs = None) as Hn.
    { destruct (cs_payload cs) as [id|] eqn:Ep; [|done].
      destruct (co_some _ _ Hok id Ep) as (? & _). congruence. }
    apply wp_bind. eapply wp_cs_mod; [exact Hj|]. apply wp_ret.
    split; [|split; [by split|split; [done|split]]].
    + split; [|apply keeps_refl]. apply (rinv_put L s j cs); try done.
      by rewrite (co_none _ _ Hok).
    + cbn. apply (cs_scan_take 0 _ csid j cs); try done.
      intros i Hx. unfold rs_rd in *. congruence.
    + eexists. by eapply put_cs_lookup.
  - apply wp_ret. split_and!; try done; try (intros i; congruence).
Qed.

Lemma u24_at_some p i : bytes p → (i + 3 ≤ length p)%nat →
  ∃ v, u24_at p i = Some v ∧ 0 ≤ v < 2 ^ 24.
Proof.
  intros Hb Hl. unfold u24_at.
  destruct (lookup_lt_is_Some_2 p i) as [a Ha]; [lia|]. pose proof (bytes_lookup _ _ _ Hb Ha) as Ra.
  destruct (lookup_lt_is_Some_2 p (i + 1)) as [b Hb']; [lia|]. pose proof (bytes_lookup _ _ _ Hb Hb') as Rb.
  destruct (lookup_lt_is_Some_2 p (i + 2)) as [c Hc]; [lia|]. pose proof (bytes_lookup _ _ _ Hb Hc) as Rc.
  rewrite Ha, Hb', Hc. eexists. split; [done|]. unfold is_byte in *.
  rewrite (shiftl_mul a), (shiftl_mul b) by done.
  rewrite (lor_add (a * 2 ^ 16) (b * 2 ^ 8) 16), (lor_add _ c 8); try lia.
  - replace (a * 2 ^ 16 + b * 2 ^ 8) with ((a * 2 ^ 8 + b) * 2 ^ 8) by lia. apply Z_mod_mult.
  - apply Z_mod_mult.
Qed.
Lemma u32_at_some p i : (i + 4 ≤ length p)%nat → is_Some (u32_at p i).
Proof.
  intros Hl. unfold u32_at.
  do 4 (edestruct (lookup_lt_is_Some_2 p) as [? ->]; [|cbn [mbind option_bind]]; [lia|]). by eexists.
Qed.
Lemma u32_at_nonneg p i v : bytes p → u32_at p i = Some v → 0 ≤ v.
Proof.
  intros Hb. unfold u32_at.
  destruct (p !! i) as [a|] eqn:Ea, (p !! (i + 1)%nat) as [b|] eqn:Eb, (p !! (i + 2)%nat) as [c|] eqn:Ec,
    (p !! (i + 3)%nat) as [d|] eqn:Ed; try done. intros [= <-].
  apply (bytes_lookup _ _ _ Hb) in Ea, Eb, Ec, Ed. unfold is_byte in *.
  rewrite !Z.lor_nonneg, !Z.shiftl_nonneg. lia.
Qed.

(** ** Headers *)

(** A slot whose header was replaced: its payload and its use did not change. *)
Record hdr_like (c c' : cstream) : Prop := {
  hl_payload : cs_payload c' = cs_payload c;
  hl_allocated : cs_allocated c' = cs_allocated c;
  hl_length : cs_length c' = cs_length c;
  hl_key : cs_key c' = cs_key c;
  hl_received : cs_received c' = 0 }.

Definition hdr_post (L : list N) (s : rstate) (i : nat) (cs : cstream) (p : list Z) (h : nat)
    (o : option nat) (s' : rstate) : Prop :=
  step_ok L s s' ∧ pend_same s s' ∧ rd_chunk_size (rs_rd s') = rd_chunk_size (rs_rd s) ∧
  (∃ cs', rd_chunks (rs_rd s') = <[i := cs']> (rd_chunks (rs_rd s)) ∧ cs_key cs' = cs_key cs ∧
    (is_Some o → cs_payload cs' = None → cs_received cs' = 0)) ∧
  match o with Some h' => (h ≤ h' ≤ length p)%nat | None => lenZ p < Z.of_nat h + 15 end.

Lemma wp_header_time L s s1 i cs c fmt p ts h h0 :
  rd_chunks (rs_rd s) !! i = Some cs → rd_chunks (rs_rd s1) = rd_chunks (rs_rd s) →
  rd_chunk_size (rs_rd s1) = rd_chunk_size (rs_rd s) → pend_same s s1 → cs_key c = cs_key cs →
  (∀ c', hdr_like c c' → step_ok L s (put_cs i c' s1)) →
  (h0 ≤ h ≤ length p)%nat → (h ≤ h0 + 11)%nat →
  wp (header_time i fmt p ts h) (hdr_post L s i cs p h0) (put_cs i c s1).
Proof.
  intros Hi Hch Hcz Hp Hkey Hstep Hh Hh0. unfold header_time.
  assert (∀ c', rd_chunks (rs_rd (put_cs i c' s1)) = <[i := c']> (rd_chunks (rs_rd s))) as Hput
    by (intros c'; cbn; by rewrite Hch).
  assert (∀ c', rd_chunks (rs_rd (put_cs i c' s1)) !! i = Some c') as Hget.
  { intros c'. rewrite Hput. apply list_lookup_insert_eq. by eapply lookup_lt_Some. }
  assert (∀ c' o, hdr_like c c' →
    match o with Some h' => (h0 ≤ h' ≤ length p)%nat | None => lenZ p < Z.of_nat h0 + 15 end →
    hdr_post L s i cs p h0 o (put_cs i c' s1)) as Hfin.
  { intros c' o Hl Ho. split_and!; [by apply Hstep|exact Hp|exact Hcz| |exact Ho].
    exists c'. split_and!; [apply Hput|by rewrite (hl_key _ _ Hl)|]. intros _ _. apply Hl. }
  apply wp_bind. eapply wp_cs_mod; [apply Hget|]. rewrite put_cs_twice.
  set (c1 := (c <| cs_extended := _ |>) <| cs_received := 0 |>).
  destruct (ts =? 0xFFFFFF).
  - destruct (Z.ltb_spec (lenZ p) (Z.of_nat h + 4)); [apply wp_ret; apply Hfin; [by split|unfold lenZ in *; lia]|].
    destruct (u32_at_some p h) as [t Ht]; [unfold lenZ in *; lia|].
    apply wp_bind. eapply wp_read; [exact Ht|]. apply wp_bind.
    eapply wp_cs_mod; [apply Hget|]. rewrite put_cs_twice. apply wp_ret. apply Hfin; [by split|].
    unfold lenZ in *; lia.
  - apply wp_bind. eapply wp_cs_mod; [apply Hget|]. rewrite put_cs_twice. apply wp_ret.
    apply Hfin; [by split|lia].
Qed.

Lemma wp_message_header L s i cs fmt p h :
  rinv L s → rd_chunks (rs_rd s) !! i = Some cs → bytes p → 0 ≤ fmt ≤ 2 →
  wp (message_header i fmt p h) (hdr_post L s i cs p h) s.
Proof.
  intros Hinv Hi Hb Hf. unfold message_header. cbn zeta. set (mh := if fmt =? 0 then _ else _).
  assert (3 ≤ mh ≤ 11 ∧ (fmt = 1 → mh = 7) ∧ (fmt = 0 → mh = 11)) as Hmh.
  { unfold mh. repeat caseb; lia. }
  assert (step_ok L s s) as Hs by (split; [done|apply keeps_refl]).
  destruct (Z.ltb_spec (lenZ p) (Z.of_nat h + mh)) as [Hlt|Hge].
  { apply wp_ret. split_and!; [exact Hs|by split|done| |lia]. exists cs. rewrite list_insert_id by done.
    split_and!; [done..|]. by intros [? ?]. }
  unfold lenZ in Hge.
  destruct (u24_at_some p h Hb) as (ts & Hts & _); [lia|]. apply wp_bind. eapply wp_read; [exact Hts|].
  pose proof (ri_cs _ _ Hinv _ _ Hi) as Hok.
  destruct (Z.eqb_spec fmt 2) as [->|Hf2]; cbn [negb].
  - apply wp_bind, wp_ret. apply wp_bind. eapply wp_cs_at; [exact Hi|].
    cbn [negb andb Z.eqb Pos.eqb]. apply wp_bind, wp_ret. 
    match goal with |- wp ?m ?Q s => enough (wp m Q (put_cs i cs s)) as Hx; [by rewrite (put_cs_same i cs s Hi) in Hx|] end.
    apply (wp_header_time L s s i cs cs); try done; [|lia..].
    + intros c' [Ep Ea El Ek Er]. split; [|apply keeps_refl].
      apply (rinv_put L s i cs c'); try done. injection Ek as Eu _. destruct Hok as [Hl Hr Hn Hsm].
      split; rewrite ?El, ?Er, ?Ea, ?Ep, ?Eu; [lia..|done|]. intros id Hid.
      destruct (Hsm id Hid) as (? & ? & ? & bf & ? & ? & ? & ? & ?). split_and!; try done.
      exists bf. split_and!; try done. apply lenZ_nonneg.
  - destruct (u24_at_some p (h + 3) Hb) as (len & Hlen & Hlr); [lia|].
    destruct (lookup_lt_is_Some_2 p (h + 3 + 3)) as [type Hty]; [lia|].
    assert (∀ c h', cs_key c = cs_key cs → cs_payload c = cs_payload cs →
      cs_allocated c = cs_allocated cs → cs_length c = len → (h ≤ h' ≤ length p)%nat →
      (h' ≤ h + 11)%nat →
      wp (cs0 ← cs_at i;
          _ ← (if true && bool_decide (cs_payload cs0 ≠ None) then cs_release i else mret tt);
          header_time i fmt p ts h') (hdr_post L s i cs p h) (put_cs i c s)) as Hend.
    { intros c h' Hk Hp Ha Hl Hh Hh2.
      assert (∀ c' st, cs_payload c' = None → cs_allocated c' = 0 → cs_length c' = len →
        cs_received c' = 0 → cs_ok st c') as Hfresh.
      { intros c' st Hp' Ha' Hl' Hr'. split; rewrite ?Hl', ?Hr', ?Hp'; [lia..|done|done]. }
      apply wp_bind. eapply wp_cs_at; [by eapply put_cs_lookup|]. rewrite Hp. cbn [andb].
      case_bool_decide as Hpl.
      - apply wp_bind. eapply wp_mono; [by apply (wp_cs_release L s i cs c)|].
        intros [] s' (st & -> & _ & Hst).
        apply (wp_header_time L s _ i cs (released c)); try done.
        + intros c' [Ep Ea El Ek Er]. apply Hst; [done|]. apply Hfresh; [done..| |done]. by rewrite El.
      - apply wp_bind, wp_ret.
        apply (wp_header_time L s s i cs c); try done.
        + intros c' [Ep Ea El Ek Er]. split; [|apply keeps_refl].
          apply (rinv_put L s i cs c'); [done|done|congruence|congruence|].
          apply Hfresh; [congruence|rewrite Ea, Ha; by apply (co_none _ _ Hok)|congruence|done]. }
    apply wp_bind. apply wp_bind. eapply wp_read; [exact Hlen|]. apply wp_bind.
    eapply wp_read; [exact Hty|]. apply wp_bind. eapply wp_cs_mod; [exact Hi|].
    destruct (Z.eqb_spec fmt 0) as [->|Hf0].
    + destruct (u32_at_some p (h + 3 + 4)) as [id Hid]; [lia|].
      apply wp_bind. eapply wp_read; [exact Hid|]. apply wp_bind.
      eapply wp_cs_mod; [by eapply put_cs_lookup|]. rewrite put_cs_twice. apply wp_ret.
      apply Hend; try done; lia.
    + apply wp_ret. apply Hend; try done; lia.
Qed.

Lemma wp_repeat_header L s i cs p h :
  rinv L s → rd_chunks (rs_rd s) !! i = Some cs → (h ≤ length p)%nat →
  wp (repeat_header i p h) (hdr_post L s i cs p h) s.
Proof.
  intros Hinv Hi Hh. pose proof (ri_cs _ _ Hinv _ _ Hi) as [Hl Hr Hn Hsm].
  assert (∀ c o, (c = cs ∧ cs_payload cs ≠ None ∨ cs_received c = 0) →
    cs_payload c = cs_payload cs → cs_allocated c = cs_allocated cs →
    cs_length c = cs_length cs → cs_key c = cs_key cs →
    match o with Some h' => (h ≤ h' ≤ length p)%nat | None => lenZ p < Z.of_nat h + 15 end →
    hdr_post L s i cs p h o (put_cs i c s)) as Hfin.
  { intros c o Hrec Ep Ea El Ek Ho. split; [|split; [by split|split; [done|split; [|exact Ho]]]].
    - split; [|apply keeps_refl]. apply (rinv_put L s i cs c); try done. injection Ek as Eu _.
      split; rewrite ?El, ?Ea, ?Ep, ?Eu; [lia|destruct Hrec as [[-> _]|Hz]; lia|done|].
      intros id Hid. destruct (Hsm id Hid) as (? & ? & ? & bf & ? & ? & ? & ? & ?). split_and!; try done.
      exists bf. split_and!; try done. destruct Hrec as [[-> _]|Hz]; [done|rewrite Hz; apply lenZ_nonneg].
    - exists c. split_and!; [done..|]. intros _ Hx. destruct Hrec as [[-> ?]|?]; [done|done]. }
  unfold repeat_header. apply wp_bind. eapply wp_cs_at; [exact Hi|].
  assert (∀ c, (c = cs ∧ cs_payload cs ≠ None ∨ cs_received c = 0) →
    cs_payload c = cs_payload cs → cs_allocated c = cs_allocated cs →
    cs_length c = cs_length cs → cs_key c = cs_key cs →
    wp (if cs_extended cs
        then if lenZ p <? Z.of_nat h + 4 then mret None else mret (Some (h + 4)%nat)
        else mret (Some h)) (hdr_post L s i cs p h) (put_cs i c s)) as Hend.
  { intros c H1 H2 H3 H4 H5. unfold lenZ in *. destruct (cs_extended cs); [caseb|]; apply wp_ret;
      apply Hfin; try done; unfold lenZ in *; lia. }
  apply wp_bind. destruct (_ || _) eqn:E.
  - eapply wp_cs_mod; [exact Hi|]. apply Hend; try done. by right.
  - apply wp_ret. apply orb_false_elim in E as [_ E]. apply bool_decide_eq_false in E.
    specialize (Hend cs). rewrite (put_cs_same i cs s Hi) in Hend. apply Hend; try done. by left.
Qed.

(** ** Starting a chunk *)

(** Slot [i] waits for the payload bytes of a chunk. *)
Definition ready (i : nat) (s : rstate) : Prop :=
  ∃ cs, cs_scan 0 (rd_chunks (rs_rd s)) (rd_pending_csid (rs_rd s)) None = inl i ∧
    rd_chunks (rs_rd s) !! i = Some cs ∧
    0 ≤ rd_pending_remaining (rs_rd s) ≤ cs_length cs - cs_received cs ∧
    (cs_payload cs = None → cs_length cs = 0).

(** Between chunks nothing is pending; inside one the table knows its slot. *)
Definition pend_ok (s : rstate) : Prop :=
  rd_pending_remaining (rs_rd s) = 0 ∨ 0 < rd_pending_remaining (rs_rd s) ∧ ∃ i, ready i s.

Lemma wp_reserve_payload L s i cs :
  rinv L s → rd_chunks (rs_rd s) !! i = Some cs → cs_used cs = true →
  (cs_payload cs = None → cs_received cs = 0) →
  wp (reserve_payload i) (λ ok s', step_ok L s s' ∧ pend_same s s' ∧
    rd_chunk_size (rs_rd s') = rd_chunk_size (rs_rd s) ∧
    ∃ cs', rd_chunks (rs_rd s') = <[i := cs']> (rd_chunks (rs_rd s)) ∧ cs_key cs' = cs_key cs ∧
      (ok = true → cs_payload cs' = None → cs_length cs' = 0)) s.
Proof.
  intros Hinv Hi Hu Hrec. pose proof (ri_cs _ _ Hinv _ _ Hi) as Hok.
  assert (step_ok L s s) as Hs by (split; [done|apply keeps_refl]).
  assert (rd_chunks (rs_rd s) = <[i := cs]> (rd_chunks (rs_rd s))) as Hsame by by rewrite list_insert_id.
  unfold reserve_payload. apply wp_bind. eapply wp_cs_at; [exact Hi|]. apply wp_bind, wp_rd_get.
  case_bool_decide as Hn; cbn [andb].
  2:{ apply wp_ret. split_and!; [done|by split|done|]. exists cs. by split_and!. }
  destruct (Z.ltb_spec 0 (cs_length cs)) as [Hl|Hl].
  2:{ apply wp_ret. split_and!; [done|by split|done|]. exists cs. split_and!; [done..|].
      intros _ _. pose proof (co_length _ _ Hok). lia. }
  pose proof (co_length _ _ Hok) as Hlen. pose proof (buffered_fits _ _ Hinv) as Hbf.
  pose proof (proj2 (ri_conf _ _ Hinv)) as Hmb.
  rewrite Hmb. rewrite u64_small by (unfold RTMP_MAX_BUFFERED, RTMP_MAX_MESSAGE in *; lia).
  destruct (Z.ltb_spec (RTMP_MAX_BUFFERED - rd_buffered (rs_rd s)) (cs_length cs)) as [Hbig|Hfit].
  { apply wp_ret. split_and!; [done|by split|done|]. exists cs. by split_and!. }
  pose proof (owns_rest _ _ _ _ Hinv Hi) as Ho. rewrite (holds_no_payload _ Hn) in Ho. cbn [app] in Ho.
  apply wp_bind, wp_on_rstore.
  eapply wp_mono; [apply (wp_alloc_sole (cs_length cs) (rest_of i L s)); [done|lia]|].
  intros [id|] st (Ho' & Hk & _ & Hid & _).
  - destruct (Hid id eq_refl) as [Hnin Hb]. apply wp_bind. eapply wp_cs_mod; [exact Hi|].
    apply wp_bind, wp_rd_mod, wp_ret.
    assert (rd_buffered (rs_rd s) ⊕ cs_length cs = rd_buffered (rs_rd s) + cs_length cs) as Hadd.
    { apply u64_small. unfold RTMP_MAX_BUFFERED, RTMP_MAX_MESSAGE in *. lia. }
    split_and!; [|by split|done|].
    + eapply (rinv_slot L s _ i cs); try done; try apply Hinv; cbn.
      * rewrite Hadd, (co_none _ _ Hok Hn). lia.
      * rewrite Hadd, Hmb. lia.
      * split; cbn; [lia|rewrite Hrec by done; lia|done|]. intros id' [= <-].
        split_and!; [done|lia|done|]. eexists. split; [exact Hb|]. cbn. rewrite Hrec by done. split_and!; [done..|constructor].
    + eexists. split_and!; [done|done|]. done.
  - apply wp_bind. eapply wp_cs_mod; [exact Hi|]. apply wp_ret.
    assert (cs <| cs_payload := None |> = cs) as Ecs by (destruct cs; cbn in *; by subst).
    rewrite Ecs. split_and!; [|by split|done|].
    + eapply (rinv_slot L s _ i cs cs); try done; try apply Hinv; cbn.
      * lia.
      * by rewrite (holds_no_payload _ Hn).
      * apply (cs_ok_keeps (rest_of i L s) (rs_store s)); [|done..].
        rewrite (holds_no_payload _ Hn). apply list_subseteq_nil.
    + by exists cs.
Qed.

Lemma basic_header_some p :
  bytes p → p ≠ [] → ∃ r, basic_header p = Some r ∧
    match r with
    | Some (fmt, csid, h) => 0 ≤ fmt ≤ 3 ∧ (1 ≤ h ≤ 3)%nat ∧ (h ≤ length p)%nat
    | None => lenZ p < 3
    end.
Proof.
  intros Hb Hp. unfold basic_header, lenZ. destruct p as [|b0 p]; [done|]. cbn [lookup list_lookup].
  assert (is_byte b0) as Hb0 by (by apply Forall_cons in Hb as [? _]).
  assert (0 ≤ Z.shiftr b0 6 ≤ 3) as Hf.
  { unfold is_byte in Hb0. rewrite shiftr_div by done.
    split; [apply Z.div_pos; lia|]. assert (b0 / 2 ^ 6 < 4); [apply Z.div_lt_upper_bound|]; lia. }
  cbn [mbind option_bind]. destruct (Z.land b0 0x3F =? 0).
  - caseb; [eexists; split; [done|]; cbv beta iota; lia|]. destruct p as [|b1 p]; [cbn in *; lia|].
    eexists. split; [done|]. cbv beta iota. cbn [length]. lia.
  - destruct (Z.land b0 0x3F =? 1).
    + caseb; [eexists; split; [done|]; cbv beta iota; lia|]. destruct p as [|b1 [|b2 p]]; [cbn in *; lia..|].
      eexists. split; [done|]. cbv beta iota. cbn [length]. lia.
    + eexists. split; [done|]. cbv beta iota. cbn [length]. lia.
Qed.

Definition start_post (L : list N) (s : rstate) (p : list Z) (hd : header) (s' : rstate) : Prop :=
  step_ok L s s' ∧
  match hd with
  | HShort => pend_same s s' ∧ lenZ p < 18
  | HFail => pend_same s s'
  | HChunk i h => ready i s' ∧ (h ≤ length p)%nat ∧
      ((1 ≤ h)%nat ∨ h = O ∧ 0 < rd_pending_remaining (rs_rd s'))
  end.

Lemma pend_trans a b c : pend_same a b → pend_same b c → pend_same a c.
Proof. intros [? ?] [? ?]. split; congruence. Qed.

Lemma wp_rd_error L s (Q : unit → rstate → Prop) :
  rinv L s → (∀ s', step_ok L s s' → pend_same s s' → Q tt s') → wp rd_error Q s.
Proof.
  intros Hi HQ. apply wp_rd_mod, HQ; [|by split]. split; [|apply keeps_refl]. by apply rinv_fields.
Qed.

Lemma wp_chunk_header L s p :
  rinv L s → bytes p → p ≠ [] → wp (chunk_header p) (start_post L s p) s.
Proof.
  intros Hinv Hb Hp. destruct (basic_header_some p Hb Hp) as (r & Hr & Hrp).
  unfold chunk_header. apply wp_bind. eapply wp_read; [exact Hr|].
  assert (step_ok L s s) as Hs by (split; [done|apply keeps_refl]).
  destruct r as [[[fmt csid] h]|]; [|apply wp_ret; split; [done|split; [done|lia]]].
  destruct Hrp as (Hf & Hh & Hhl). apply wp_bind.
  eapply wp_mono; [by apply (wp_cs_get L)|]. intros [i|] s1 (Hs1 & Hp1 & _ & Hi).
  2:{ destruct Hi as [-> _]. apply wp_bind. apply (wp_rd_error L); [done|]. intros s' ? ?. by apply wp_ret. }
  destruct Hi as [Hscan [cs Hcs]]. pose proof Hs1 as [Hinv1 Hk1].
  destruct (cs_scan_found _ _ _ _ _ Hscan) as (j & cs0 & -> & Hcs0 & Hu0 & Hid0).
  cbn [Nat.add] in *. rewrite Hcs in Hcs0. injection Hcs0 as <-. rename j into i.
  apply wp_bind. eapply (wp_mono _ (hdr_post L s1 i cs p h)).
  { destruct (Z.eqb_spec fmt 3); [by apply wp_repeat_header|]. apply wp_message_header; try done. lia. }
  intros [h'|] s2 (Hs2 & Hp2 & Hcz2 & (cs2 & Hch2 & Hkey2 & Hrec2) & Hh2).
  2:{ apply wp_ret. split; [by eapply step_trans|]. split; [by eapply pend_trans|]. lia. }
  assert (rd_chunks (rs_rd s2) !! i = Some cs2) as Hcs2.
  { rewrite Hch2. apply list_lookup_insert_eq. by eapply lookup_lt_Some. }
  assert (step_ok L s s2) as Hs02 by by eapply step_trans.
  assert (pend_same s s2) as Hp02 by by eapply pend_trans.
  apply wp_bind. eapply wp_cs_at; [exact Hcs2|]. apply wp_bind, wp_rd_get.
  pose proof Hs2 as [Hinv2 Hk2].
  caseb. { apply wp_bind. apply (wp_rd_error L); [done|]. intros s' ? ?. apply wp_ret.
           split; [by eapply step_trans|by eapply pend_trans]. }
  injection Hkey2 as Hu2 Hid2.
  apply wp_bind. eapply wp_mono; [apply (wp_reserve_payload L s2 i cs2); [done..|congruence|]|].
  { intros Hn. apply Hrec2; eauto. }
  intros ok s3 (Hs3 & Hp3 & Hcz3 & cs3 & Hch3 & Hkey3 & Hpay3).
  assert (step_ok L s s3) as Hs03 by by eapply step_trans.
  pose proof Hs3 as [Hinv3 Hk3].
  destruct ok; cbn [negb].
  2:{ apply wp_bind. apply (wp_rd_error L); [done|]. intros s' ? ?. apply wp_ret.
      split; [by eapply step_trans|]. eapply pend_trans; [by eapply pend_trans|done]. }
  assert (rd_chunks (rs_rd s3) !! i = Some cs3) as Hcs3.
  { rewrite Hch3. apply list_lookup_insert_eq. by eapply lookup_lt_Some. }
  apply wp_bind. eapply wp_cs_at; [exact Hcs3|]. apply wp_bind, wp_rd_mod, wp_ret.
  pose proof (ri_cs _ _ Hinv3 _ _ Hcs3) as [Hl3 Hr3 _ _].
  assert (cs_length cs3 ⊖ cs_received cs3 = cs_length cs3 - cs_received cs3) as Hw by (apply u64_small; lia).
  pose proof (ri_chunk _ _ Hinv3) as Hcz.
  split; [split; [by apply rinv_fields|apply Hs03]|]. split; [|lia].
  exists cs3. cbn. rewrite Hw. split_and!; [|done|caseb; lia..|by apply Hpay3].
  rewrite Hch3, Hch2. rewrite <- Hscan. apply cs_scan_keys.
  injection Hkey3 as Hu3 Hid3.
  rewrite (cs_keys_insert i cs2) by (rewrite <- ?Hch2; unfold cs_key; congruence).
  apply (cs_keys_insert i cs); [done|]. unfold cs_key. congruence.
Qed.

Lemma wp_chunk_start L s p :
  rinv L s → pend_ok s → bytes p → p ≠ [] →
  wp (chunk_start p) (λ hd s', start_post L s p hd s' ∧
    match hd with HChunk _ _ => True | _ => pend_ok s' end) s.
Proof.
  intros Hinv Hpend Hb Hp. unfold chunk_start. apply wp_bind, wp_rd_get.
  destruct (Z.ltb_spec 0 (rd_pending_remaining (rs_rd s))) as [Hpos|Hz].
  - destruct Hpend as [|(_ & i & cs & Hscan & Hcs & Hrem & Hn)]; [lia|].
    apply wp_bind. eapply wp_mono; [by apply (wp_cs_get L)|].
    intros o s' (_ & _ & Heq & Ho). rewrite (Heq eq_refl) in *.
    destruct o as [i'|].
    + apply wp_ret. destruct Ho as [Hs' _]. rewrite Hscan in Hs'. injection Hs' as <-.
      split; [|done]. split; [split; [done|apply keeps_refl]|]. split; [by exists cs|].
      split; [lia|]. right. split; [done|]. lia.
    + destruct Ho as [_ Hno]. by destruct (Hno i).
  - eapply wp_mono; [by apply wp_chunk_header|]. intros hd s' Hpost. split; [done|].
    destruct Hpost as [_ Hm]. destruct Hpend as [Hpend|[? _]]; [|lia].
    destruct hd; [left; destruct Hm as [[Hm _] _]; congruence|left; destruct Hm as [Hm _]; congruence|done].
Qed.

(** ** Completing a message *)

Lemma sole_refs id K st bf :
  owns st (id :: K) → st_bufs st !! id = Some bf → b_refs bf = 1 → id ∉ K.
Proof.
  intros Ho Hb Hr Hin. pose proof (owns_live _ _ Ho _ _ Hb) as Ho1.
  rewrite occ_cons, decide_True in Ho1 by done. apply occ_pos in Hin. lia.
Qed.

(** The store changes, but not in the payloads of the table. *)
Lemma rinv_store L L' s st :
  rinv L s → owns st (holds (rd_chunks (rs_rd s)) ++ L') →
  keeps (holds (rd_chunks (rs_rd s))) (rs_store s) st → rinv L' (s <| rs_store := st |>).
Proof.
  intros [] Ho Hk. split; try done. intros i cs Hi. cbn in *.
  eapply cs_ok_keeps; [|exact Hk|by eapply ri_cs0]. apply holds_elem. by eapply list_elem_of_lookup_2.
Qed.

(** A frozen payload of [n] bytes with one owner. *)
Definition frozen (st : store) (id : N) (n : Z) : Prop :=
  ∃ bf, st_bufs st !! id = Some bf ∧ b_refs bf = 1 ∧ b_len bf = n ∧ n ≤ lenZ (b_data bf) ∧
    bytes (b_data bf).

Lemma wp_frozen_size st id n (Q : Z → store → Prop) :
  frozen st id n → Q n st → wp (buf_size (Some id)) Q st.
Proof.
  intros (bf & Hb & _ & <- & _) HQ. eexists _, _. split; [|exact HQ].
  unfold buf_size, deref, mbind, SM_bind. by rewrite Hb.
Qed.
Lemma wp_frozen_read st id n k (Q : list Z → store → Prop) :
  frozen st id n → k ≤ n → (∀ d, length d = Z.to_nat k → bytes d → Q d st) → wp (buf_read id k) Q st.
Proof.
  intros (bf & Hb & _ & <- & Hd & Hby) Hk HQ. unfold lenZ in Hd. eexists _, _. split; [|apply HQ].
  - unfold buf_read, deref, mbind, SM_bind. rewrite Hb, (proj2 (Z.leb_le _ _)) by lia. done.
  - rewrite length_take. lia.
  - by apply Forall_take.
Qed.
Lemma frozen_keeps L st st' id n : id ∈ L → keeps L st st' → frozen st id n → frozen st' id n.
Proof. intros Hin Hk (bf & Hb & ?). exists bf. by rewrite Hk. Qed.

Lemma wp_reader_control L s cs id :
  rinv L s → frozen (rs_store s) id (cs_length cs) →
  wp (reader_control cs id) (λ _ s', step_ok L s s' ∧ pend_same s s') s.
Proof.
  intros Hinv Hfr. unfold reader_control.
  assert (step_ok L s s ∧ pend_same s s) as Hs by (split; [split; [done|apply keeps_refl]|by split]).
  assert (∀ r : rc, wp (_ ← rd_error; mret r) (λ _ s', step_ok L s s' ∧ pend_same s s') s) as Herr.
  { intros r. apply wp_bind. apply (wp_rd_error L); [done|]. intros s' ? ?. by apply wp_ret. }
  destruct (negb _ && _); [by apply wp_ret|].
  apply wp_bind, wp_on_rstore_read. eapply wp_frozen_size; [exact Hfr|]. split; [done|].
  destruct (Z.eqb_spec (cs_length cs) 4) as [E|]; cbn [negb]; [|apply Herr].
  apply wp_bind, wp_on_rstore_read. eapply wp_frozen_read; [exact Hfr|lia|]. intros d Hd Hdb.
  split; [done|].
  destruct (u32_at_some d 0) as [v Hv]; [lia|]. apply wp_bind. eapply wp_read; [exact Hv|].
  destruct (cs_type cs =? MSG_CHUNK_SIZE).
  - destruct (_ || _) eqn:E2; [apply Herr|]. apply orb_false_elim in E2 as [E2 E3].
    apply Z.eqb_neq in E2. apply Z.ltb_ge in E3. apply wp_bind, wp_rd_mod, wp_ret.
    pose proof (u32_at_nonneg _ _ _ Hdb Hv).
    split; [|by split]. split; [|apply keeps_refl]. destruct Hinv. split; try done. cbn. lia.
  - apply wp_bind. eapply wp_mono; [by apply (wp_cs_get L)|].
    intros o s1 (_ & _ & Heq & Ho). rewrite (Heq eq_refl) in *.
    destruct o as [t|]; [|by apply wp_ret]. destruct Ho as [_ [tcs Ht]].
    apply wp_bind. eapply wp_cs_at; [exact Ht|]. destruct (cs_payload tcs); [|by apply wp_ret].
    apply wp_bind. pose proof (wp_cs_release L s t tcs tcs Hinv Ht eq_refl eq_refl) as Hrel.
    rewrite (put_cs_same t tcs s Ht) in Hrel. eapply wp_mono; [exact Hrel|].
    intros [] s2 (st & -> & _ & Hst). apply wp_bind. eapply wp_cs_mod; [by eapply put_cs_lookup|].
    rewrite put_cs_twice. apply wp_ret. split; [|by split]. apply Hst; [done|].
    split; cbn; [lia|lia|done|done].
Qed.

Lemma lenZ_length (d : list Z) n : 0 ≤ n → length d = Z.to_nat n → lenZ d = n.
Proof. unfold lenZ. lia. Qed.

Lemma wp_reader_complete L s i cs cb :
  rinv L s → rd_chunks (rs_rd s) !! i = Some cs → cs_received cs = cs_length cs →
  wp (reader_complete i cb) (λ _ s', step_ok L s s' ∧ pend_same s s') s.
Proof.
  intros Hinv Hi Hrec. unfold reader_complete.
  apply wp_bind. eapply wp_cs_at; [exact Hi|]. apply wp_bind, wp_rd_mod, wp_bind.
  eapply wp_cs_mod; [exact Hi|]. pose proof (detached_inv _ _ _ _ Hinv Hi) as Hd.
  match goal with |- wp _ _ ?x => change x with (detached i cs s) end. set (s1 := detached i cs s) in *.
  assert (pend_same s s1) as Hp1 by by split.
  destruct (cs_payload cs) as [id|] eqn:Ep.
  2:{ apply wp_ret. rewrite (holds_no_payload _ Ep) in Hd. split; [|done]. split; [done|apply keeps_refl]. }
  rewrite (holds_payload _ _ Ep) in Hd. cbn [app] in Hd.
  destruct (co_some _ _ (ri_cs _ _ Hinv _ _ Hi) id Ep) as (_ & Hl & _ & bf & Hb & Hcap & Hrf & Hrd & Hby).
  pose proof (co_length _ _ (ri_cs _ _ Hinv _ _ Hi)) as Hlen.
  assert (owns (rs_store s1) (id :: holds (rd_chunks (rs_rd s1)) ++ L)) as Ho1.
  { eapply owns_proper; [|exact (ri_owns _ _ Hd)]. by rewrite <- Permutation_middle. }
  assert (id ∉ holds (rd_chunks (rs_rd s1)) ++ L) as Hnin by by eapply sole_refs.
  set (bf' := mk_buf (b_refs bf) (cs_length cs) (b_cap bf) (b_data bf)).
  set (st2 := set_bufs (<[id := bf']> (st_bufs (rs_store s1))) (rs_store s1)).
  assert (keeps (holds (rd_chunks (rs_rd s1)) ++ L) (rs_store s1) st2) as Hk2.
  { intros x Hx. cbn. rewrite lookup_insert_ne; [done|]. by intros <-. }
  assert (rinv (id :: L) (s1 <| rs_store := st2 |>)) as Hinv2.
  { eapply rinv_store; [exact Hd| |].
    - eapply owns_update; [exact (ri_owns _ _ Hd)|exact Hb|done|done|cbn; lia|cbn].
      pose proof (wf_buf _ (owns_wf _ _ (ri_owns _ _ Hinv)) _ _ Hb). lia.
    - eapply keeps_sub; [|exact Hk2]. set_solver. }
  assert (frozen st2 id (cs_length cs)) as Hfr.
  { exists bf'. split_and!; [cbn; apply lookup_insert_eq|done|done|cbn; lia|done]. }
  apply wp_bind, wp_on_rstore. eapply wp_buf_freeze; [exact Hb|lia|].
  cbv beta. match goal with |- wp _ _ ?x => change x with (s1 <| rs_store := st2 |>) end.
  set (s2 := s1 <| rs_store := st2 |>) in *. apply wp_bind.
  eapply wp_mono; [apply (wp_reader_control (id :: L) s2 cs id Hinv2 Hfr)|].
  intros r s3 [[Hinv3 Hk3] Hp3]. apply wp_bind.
  assert (keeps L (rs_store s) (rs_store s2)) as HkL by (eapply keeps_sub; [|exact Hk2]; set_solver).
  assert (frozen (rs_store s3) id (cs_length cs)) as Hfr3.
  { eapply (frozen_keeps (id :: L)); [set_solver|exact Hk3|exact Hfr]. }
  eapply (wp_mono _ (λ _ s4, rinv (id :: L) s4 ∧ rs_store s4 = rs_store s3 ∧ pend_same s3 s4)).
  { case_bool_decide; [|by apply wp_ret].
    apply wp_bind, wp_on_rstore_read. eapply wp_frozen_size; [exact Hfr3|]. split; [done|].
    apply wp_bind, wp_on_rstore_read. eapply wp_frozen_read; [exact Hfr3|lia|]. intros d Hdl Hdb.
    split; [done|]. destruct cb as [cb|]; [|by apply wp_ret].
    apply wp_bind, wp_mod, wp_ret. split_and!; [|done|by split].
    destruct Hinv3. split; try done. cbn. apply Forall_app. split; [done|]. constructor; [|done].
    unfold msg_ok. cbn. rewrite (lenZ_length d (cs_length cs)) by (done || lia). lia. }
  intros r' s4 (Hinv4 & Hst4 & Hp4).
  assert (∃ bf4, st_bufs (rs_store s4) !! id = Some bf4 ∧ b_refs bf4 = 1) as (bf4 & Hb4 & Hr4).
  { destruct Hfr3 as (bf3 & ? & ? & _). exists bf3. by rewrite Hst4. }
  assert (owns (rs_store s4) (id :: holds (rd_chunks (rs_rd s4)) ++ L)) as Ho4.
  { eapply owns_proper; [|exact (ri_owns _ _ Hinv4)]. by rewrite <- Permutation_middle. }
  assert (id ∉ holds (rd_chunks (rs_rd s4)) ++ L) as Hnin4 by by eapply sole_refs.
  apply wp_bind, wp_on_rstore.
  eapply wp_mono; [by apply (wp_unref_sole id (holds (rd_chunks (rs_rd s4)) ++ L))|].
  intros [] st5 [-> Ho5].
  assert (step_ok L s (s4 <| rs_store := drop_buf id (rs_store s4) |>)) as Hs5.
  { split.
    - eapply rinv_store; [exact Hinv4|exact Ho5|]. apply keeps_drop. set_solver.
    - eapply keeps_trans; [exact HkL|]. eapply keeps_trans; [eapply keeps_sub; [|exact Hk3]; set_solver|].
      rewrite <- Hst4. apply keeps_drop. set_solver. }
  assert (pend_same s s4) as Hp5 by (eapply pend_trans; [exact Hp1|]; by eapply pend_trans).
  case_bool_decide.
  - apply wp_bind, wp_rd_mod, wp_ret. split; [|exact Hp5]. destruct Hs5 as [Hi5 Hk5]. split; [|exact Hk5].
    by apply rinv_fields.
  - apply wp_ret. split; [exact Hs5|exact Hp5].
Qed.

(** ** Payload bytes *)

Lemma bytes_app l k : bytes l → bytes k → bytes (l ++ k).
Proof. unfold bytes. rewrite Forall_app. auto. Qed.

Lemma wp_chunk_payload L s i p cb :
  rinv L s → ready i s → bytes p →
  wp (chunk_payload i p cb) (λ r s', step_ok L s s' ∧ pend_ok s' ∧ (r.2 ≤ length p)%nat ∧
    (0 < rd_pending_remaining (rs_rd s) → p ≠ [] → (1 ≤ r.2)%nat)) s.
Proof.
  intros Hinv (cs & Hscan & Hi & Hrem & Hnp) Hb. unfold chunk_payload.
  pose proof (ri_cs _ _ Hinv _ _ Hi) as Hok. pose proof (co_length _ _ Hok) as Hl.
  pose proof (co_received _ _ Hok) as Hr.
  apply wp_bind. eapply wp_cs_at; [exact Hi|]. apply wp_bind, wp_rd_get. cbn zeta.
  rewrite u64_small by lia. rewrite (Z.min_r (cs_length cs - cs_received cs)) by lia.
  set (t := Z.to_nat _). assert (0 ≤ lenZ p) by apply lenZ_nonneg.
  assert (Z.of_nat t = Z.min (rd_pending_remaining (rs_rd s)) (lenZ p)) as Ht by lia.
  assert (t ≤ length p)%nat as Htp by (unfold lenZ in *; lia).
  assert (0 < rd_pending_remaining (rs_rd s) → p ≠ [] → (1 ≤ t)%nat) as Hprog.
  { intros Hpos Hne. destruct p; [done|]. unfold lenZ in Ht. cbn [length] in Ht. lia. }
  set (cs' := cs <| cs_received ::= λ n, n ⊕ Z.of_nat t |>).
  assert (cs_received cs' = cs_received cs + Z.of_nat t) as Hrec' by (apply u64_small; lia).
  apply wp_bind. eapply (wp_mono _ (λ _ s1, ∃ st, s1 = s <| rs_store := st |> ∧
    step_ok L s (put_cs i cs' (s <| rs_store := st |>)))).
  { destruct (cs_payload cs) as [id|] eqn:Ep.
    - destruct (co_some _ _ Hok id Ep) as (Hu & Hpos & Ha & bf & Hbf & Hcap & Hrf & Hrd & Hby).
      assert (∀ st, (∃ bf', st_bufs st !! id = Some bf' ∧ b_cap bf' = cs_length cs ∧ b_refs bf' = 1 ∧
                     cs_received cs' ≤ lenZ (b_data bf') ∧ bytes (b_data bf')) →
        owns st (holds cs ++ rest_of i L s) → keeps (rest_of i L s) (rs_store s) st →
        step_ok L s (put_cs i cs' (s <| rs_store := st |>))) as Hfin.
      { intros st Hbuf Ho Hk. apply (rinv_slot L s _ i cs cs'); try done; try apply Hinv; cbn.
        - lia.
        - split; [exact Hl|rewrite Hrec'; cbn; lia|cbn; congruence|].
          cbn. rewrite Ep. intros id' [= <-]. by split_and!. }
      pose proof (owns_rest _ _ _ _ Hinv Hi) as Ho.
      destruct (Nat.ltb_spec 0 t) as [Hpt|Hz].
      + apply wp_on_rstore. eapply wp_buf_write; [exact Hbf|lia| |].
        { unfold lenZ. rewrite length_take. lia. }
        set (d := take _ (b_data bf) ++ _).
        assert (lenZ d ≤ b_cap bf ∧ cs_received cs' ≤ lenZ d) as [Hd1 Hd2].
        { pose proof (wf_buf _ (owns_wf _ _ Ho) _ _ Hbf). unfold d, lenZ in *.
          rewrite !length_app, length_drop, !length_take. lia. }
        eexists. split; [done|]. apply Hfin.
        * eexists. split; [by apply set_data_lookup|]. cbn. split_and!; [done|done|done|].
          unfold d. apply bytes_app; [by apply Forall_take|]. apply bytes_app; [by apply Forall_take|].
          by apply Forall_drop.
        * by eapply owns_set_data.
        * apply keeps_set_data. by eapply payload_sole.
      + apply wp_ret. exists (rs_store s). split; [by destruct s|].
        apply Hfin; [|done|apply keeps_refl]. exists bf. split_and!; try done. lia.
    - specialize (Hnp eq_refl). assert (t = 0)%nat as Et by lia. apply wp_ret. exists (rs_store s).
      split; [by destruct s|]. split; [|apply keeps_refl].
      apply (rinv_put L s i cs cs'); try done.
      split; [exact Hl|rewrite Hrec'; cbn; lia|by apply Hok|]. cbn. rewrite Ep. done. }
  intros [] s1 (st & -> & Hst). set (s1 := s <| rs_store := st |>) in *.
  apply wp_bind. eapply wp_cs_mod; [exact Hi|]. fold cs'. apply wp_bind, wp_rd_mod.
  match goal with |- wp _ _ ?x => set (s2 := x) end.
  assert (rd_pending_remaining (rs_rd s2) = rd_pending_remaining (rs_rd s) - Z.of_nat t) as Hp2.
  { apply u64_small. lia. }
  assert (step_ok L s s2) as Hs2 by (split; [by apply rinv_fields; [apply Hst|..]|apply Hst]).
  assert (rd_chunks (rs_rd s2) !! i = Some cs') as Hi2 by by eapply (put_cs_lookup i cs).
  apply wp_bind. eapply wp_cs_at; [exact Hi2|].
  change (cs_length cs') with (cs_length cs).
  destruct (Z.leb_spec (cs_length cs) (cs_received cs')) as [Hdone|Hmore].
  - apply wp_bind, wp_rd_mod. match goal with |- wp _ _ ?x => set (s3 := x) end.
    assert (step_ok L s s3) as Hs3 by (split; [by apply rinv_fields; [apply Hs2|..]|apply Hs2]).
    apply wp_bind. eapply wp_mono; [apply (wp_reader_complete L s3 i cs')|].
    + apply Hs3.
    + exact Hi2.
    + rewrite Hrec' in *. cbn. lia.
    + intros r s4 [Hs4 [Hp4 _]]. apply wp_ret. cbn [snd]. split_and!; [by eapply step_trans| |done|done].
      left. by rewrite Hp4.
  - apply wp_ret. cbn [snd]. split_and!; [done| |done|done].
    destruct (decide (rd_pending_remaining (rs_rd s) = Z.of_nat t)) as [E|Hne]; [left; lia|].
    right. split; [lia|]. exists i, cs'. split_and!; [|done|lia|change (cs_length cs') with (cs_length cs); lia|done].
    rewrite <- Hscan. apply cs_scan_keys. by apply (cs_keys_insert i cs).
Qed.

(** ** Whole feeds *)

Lemma wp_read_chunks L cb fuel : ∀ s p,
  rinv L s → pend_ok s → bytes p → (length p ≤ fuel)%nat →
  wp (read_chunks fuel p cb) (λ r s', step_ok L s s' ∧ pend_ok s' ∧ (r.2 ≤ length p)%nat ∧
    (r.1 = NGX_OK → (length p - r.2 < 18)%nat)) s.
Proof.
  induction fuel as [|fuel IH]; intros s p Hinv Hpend Hb Hfuel.
  { destruct p; [|cbn in Hfuel; lia]. apply wp_ret. cbn.
    split_and!; [split; [done|apply keeps_refl]|done|lia..]. }
  cbn [read_chunks]. destruct p as [|b0 p'] eqn:Ep.
  { apply wp_ret. cbn. split_and!; [split; [done|apply keeps_refl]|done|lia..]. }
  rewrite <- Ep in *. assert (p ≠ []) as Hne by by rewrite Ep. clear Ep b0 p'.
  apply wp_bind. eapply wp_mono; [by apply (wp_chunk_start L)|].
  intros [| |i h] s1 [[Hs1 Hpost] Hpe].
  - apply wp_ret. cbn. unfold lenZ in Hpost. split_and!; [done|done|lia..].
  - apply wp_ret. cbn. split_and!; [done|done|lia|done].
  - destruct Hpost as (Hready & Hh & Hprog). apply wp_bind.
    pose proof Hs1 as [Hinv1 _].
    eapply wp_mono; [apply (wp_chunk_payload L s1 i (drop h p) cb); [done..|by apply Forall_drop]|].
    intros [r t] s2 (Hs2 & Hpe2 & Ht & Hpt). cbn [fst snd] in *. rewrite length_drop in Ht.
    assert (step_ok L s s2) as Hs02 by by eapply step_trans.
    pose proof Hs2 as [Hinv2 _].
    assert (1 ≤ h + t)%nat as Hadv.
    { destruct Hprog as [|[-> Hpos]]; [lia|]. rewrite drop_0 in Hpt. specialize (Hpt Hpos Hne). lia. }
    case_bool_decide as Hr.
    + apply wp_bind. eapply wp_mono; [apply (IH s2 (drop (h + t) p)); [done|done|by apply Forall_drop|]|].
      { rewrite length_drop. lia. }
      intros [r' n] s3 (Hs3 & Hpe3 & Hn & Hok). cbn [fst snd] in *. rewrite length_drop in *.
      apply wp_ret. cbn [fst snd]. split_and!; [by eapply step_trans|done|lia|].
      intros Hr'. specialize (Hok Hr'). lia.
    + apply wp_ret. cbn [fst snd]. split_and!; [done|done|lia|done].
Qed.

Lemma wp_reader_feed L s p cb :
  rinv L s → pend_ok s → bytes p →
  wp (reader_feed p cb) (λ r s', step_ok L s s' ∧ pend_ok s' ∧ (r.2 ≤ length p)%nat ∧
    (r.1 = NGX_OK → (length p - r.2 < 18)%nat)) s.
Proof.
  intros Hinv Hpend Hb. apply wp_bind. eapply wp_mono; [by apply (wp_read_chunks L)|].
  intros [r n] s' (Hs & Hpe & Hn & Hok). cbn [fst snd] in *. apply wp_bind.
  case_bool_decide.
  - apply wp_rd_mod, wp_ret. split_and!; try done. destruct Hs as [Hi Hk]. split; [|done]. by apply rinv_fields.
  - apply wp_ret, wp_ret. by split_and!.
Qed.

Lemma wp_reader_reads L cb reads : ∀ s tail,
  rinv L s → pend_ok s → bytes tail → (length tail < 18)%nat → Forall bytes reads →
  wp (reader_reads tail reads cb) (λ r s', step_ok L s s' ∧ pend_ok s' ∧
    (r.1 = NGX_OK → (length r.2 < 18)%nat ∧ r.2 `suffix_of` tail ++ concat reads)) s.
Proof.
  induction reads as [|data reads IH]; intros s tail Hinv Hpend Hb Ht Hreads.
  { apply wp_ret. split; [split; [done|apply keeps_refl]|]. split; [done|]. cbn. rewrite app_nil_r. done. }
  apply Forall_cons in Hreads as [Hd Hreads]. cbn [reader_reads].
  assert (bytes (tail ++ data)) as Hbd by by apply bytes_app.
  apply wp_bind. eapply wp_mono; [by apply (wp_reader_feed L)|].
  intros [r n] s1 (Hs1 & Hp1 & Hn & Hok). cbn [fst snd] in *. case_bool_decide as Hr.
  - pose proof Hs1 as [Hinv1 _]. eapply wp_mono; [apply IH; try done|].
    + by apply Forall_drop.
    + rewrite length_drop. by apply Hok.
    + intros [r' tl] s2 (Hs2 & Hp2 & Hok2). cbn [fst snd] in *. split; [by eapply step_trans|].
      split; [done|]. intros Hr'. destruct (Hok2 Hr') as [? Hsuf]. split; [done|].
      etrans; [exact Hsuf|]. cbn [concat]. rewrite app_assoc.
      exists (take n (tail ++ data)). by rewrite app_assoc, take_drop.
  - apply wp_ret. by split_and!.
Qed.

(** ** The reader's life *)

Lemma rinv_init L s :
  rs_rd s = reader_init → rs_calls s = [] → owns (rs_store s) L → rinv L s.
Proof.
  intros E Hc Ho. split; rewrite ?E, ?Hc; try done.
  - intros i cs Hi%lookup_replicate_1. destruct Hi as [-> _]. by split.
Qed.

(** Dropping the partial messages gives back every reference. *)
Lemma wp_reader_reset L s :
  rinv L s → wp reader_reset (λ _ s', rs_rd s' = reader_init ∧ owns (rs_store s') L) s.
Proof.
  intros Hinv. apply wp_bind, wp_rd_get, wp_bind, wp_on_rstore.
  eapply wp_mono; [apply (wp_unref_all _ L)|].
  - replace (holds (cs_payload <$> rd_chunks (rs_rd s))) with (holds (rd_chunks (rs_rd s)));
      [exact (ri_owns _ _ Hinv)|].
    induction (rd_chunks (rs_rd s)) as [|c l IH]; [done|]. cbn [fmap list_fmap]. by rewrite !holds_cons, IH.
  - intros [] st [Ho _]. by apply wp_rd_mod.
Qed.

(** The bytes of the allocation a chunk stream keeps for its partial message. *)
Definition partial_bytes (st : store) (cs : cstream) : Z :=
  match cs_payload cs with
  | None => 0
  | Some id => match st_bufs st !! id with Some b => b_cap b | None => 0 end
  end.
Lemma buffered_bytes L s : rinv L s → rd_buffered (rs_rd s) = sumZ (partial_bytes (rs_store s) <$> rd_chunks (rs_rd s)).
Proof.
  intros [_ _ _ _ Hcs Hsum _ _]. rewrite Hsum. f_equal. apply list_fmap_ext. intros i cs Hi. destruct (Hcs i cs Hi) as [_ _ Hn Hs].
  unfold partial_bytes. destruct (cs_payload cs) as [id|]; [|by rewrite Hn]. destruct (Hs id eq_refl) as (_ & _ & -> & bf & -> & -> & _). done.
Qed.

(** C16: the chunk reader survives any peer. Whatever bytes a connection delivers, however
    they are cut into reads, whatever the allocator refuses and whatever the callback
    answers, no read leaves its buffer, no payload byte is written outside its message, no
    buffer of anybody else is touched and every feed ends. The allocations that exist for
    partial messages are the only ones the reader has, what is counted against the budget is
    exactly their size, and it never exceeds the budget; every
    message delivered has between 1 and 2^24 - 1 bytes; while the connection lives, the
    bytes a feed leaves behind are less than one chunk header, and are the last bytes
    received; and a reset gives back every buffer. *)
Theorem reader_any_bytes L s reads cb :
  rs_rd s = reader_init → rs_calls s = [] → owns (rs_store s) L → Forall bytes reads →
  ∃ r tail s', reader_reads [] reads cb s = Some ((r, tail), s') ∧
    owns (rs_store s') (holds (rd_chunks (rs_rd s')) ++ L) ∧
    rd_buffered (rs_rd s') = sumZ (partial_bytes (rs_store s') <$> rd_chunks (rs_rd s')) ∧
    rd_buffered (rs_rd s') ≤ RTMP_MAX_BUFFERED ∧
    Forall msg_ok (rs_calls s') ∧
    keeps L (rs_store s) (rs_store s') ∧
    (r = NGX_OK → (length tail < 18)%nat ∧ tail `suffix_of` concat reads) ∧
    ∃ s'', reader_reset s' = Some (tt, s'') ∧ rs_rd s'' = reader_init ∧ owns (rs_store s'') L.
Proof.
  intros E Hc Ho Hreads. pose proof (rinv_init L s E Hc Ho) as Hinv.
  destruct (wp_reader_reads L cb reads s []) as ([r tail] & s' & Hrun & [Hinv' Hk] & _ & Hok);
    [done|left; by rewrite E|constructor|cbn; lia|done|].
  exists r, tail, s'. split; [exact Hrun|]. destruct (ri_conf _ _ Hinv') as [_ Hmb].
  pose proof (ri_max _ _ Hinv') as Hmax. rewrite Hmb in Hmax.
  split_and!; [apply Hinv'|by eapply buffered_bytes|exact Hmax|apply Hinv'|exact Hk|exact Hok|].
  destruct (wp_reader_reset L s' Hinv') as ([] & s'' & Hres & Hend). by exists s''.
Qed.
Definition ex_rstore : store := mk_store ∅ 0 (λ _ _, true).
Lemma ex_rstore_owns : owns ex_rstore [].
Proof. split; [split|..]; cbn; [done|done|done|]. intros id _. apply not_elem_of_nil. Qed.
(** The start of an audio message of 3 bytes on chunk stream 4, cut in its payload. *)
Definition ex_reads : list (list Z) := [[0x04; 0; 0; 40; 0; 0]; [3; 8; 0; 0; 0; 1; 0xAF; 1]].
Lemma reader_any_bytes_witness :
  ∃ r tail s', reader_reads [] ex_reads (Some (λ _, NGX_OK)) (mk_rstate reader_init [] ex_rstore)
    = Some ((r, tail), s') ∧ rd_buffered (rs_rd s') = sumZ (partial_bytes (rs_store s') <$> rd_chunks (rs_rd s')) ∧
    rd_buffered (rs_rd s') ≤ RTMP_MAX_BUFFERED.
Proof.
  destruct (reader_any_bytes [] (mk_rstate reader_init [] ex_rstore) ex_reads (Some (λ _, NGX_OK)))
    as (r & tail & s' & Hrun & _ & Hsum & Hmax & _); [done|done|apply ex_rstore_owns| |].
  - by apply (bool_decide_unpack _).
  - exists r, tail, s'. split_and!; [exact Hrun|exact Hsum|exact Hmax].
Defined.
