(* ===== verification/RtmpWriter.v ===== *)
(** * What the chunk writer emits

    The bytes of a packet of RtmpChunk.v as a function of the message, and the footprint a
    queue reserves for it. *)
From S2P Require Import Prelude Bytes Store RtmpChunk RtmpReader.

(** ** The bytes of a message *)

(** [n] chunks of [data], the first with format [fmt]. *)
Fixpoint wire (n : nat) (fmt csid type stream_id len ts_field : Z) (extended : bool)
    (chunk_size : nat) (data : list Z) : list Z :=
  match n with
  | O => []
  | S n =>
      chunk_head fmt csid type stream_id len ts_field extended ++ take chunk_size data
      ++ wire n 3 csid type stream_id len ts_field extended chunk_size (drop chunk_size data)
  end.

(** The bytes a part points at. *)
Definition part_bytes (head data : list Z) (p : part) : list Z :=
  match p with
  | PHead off n => take n (drop off head)
  | PData off n => take (Z.to_nat n) (drop (Z.to_nat off) data)
  end.
Definition packet_bytes (st : store) (pkt : rtmp_packet) : list Z :=
  concat (part_bytes (default [] (pk_head pkt)) (bytes_of st (pk_payload pkt)) <$> pk_parts pkt).

Definition is_data (p : part) : bool := match p with PData _ _ => true | PHead _ _ => false end.

(** The loop's headers and parts, in one pass over the chunks. *)
Lemma message_chunks_spec n : ∀ fmt csid type sid len ts ext cs off pos remain head parts data,
  0 < cs → 0 ≤ off → 0 ≤ pos → 0 ≤ remain → off + pos + remain ≤ lenZ data →
  ∃ hs ps, message_chunks n fmt csid type sid len ts ext cs off pos remain head parts
             = (head ++ hs, parts ++ ps) ∧
    (∀ more, concat (part_bytes (head ++ hs ++ more) data <$> ps)
       = wire n fmt csid type sid len ts ext (Z.to_nat cs)
           (take (Z.to_nat remain) (drop (Z.to_nat (off + pos)) data))) ∧
    lenZ hs = match n with
              | O => 0
              | S n => lenZ (chunk_head fmt csid type sid len ts ext)
                       + Z.of_nat n * lenZ (chunk_head 3 csid type sid len ts ext)
              end ∧
    (length ps ≤ 2 * n)%nat ∧
    ((Z.of_nat n - 1) * cs < remain →
       (length ps = 2 * n)%nat ∧ length (filter is_data ps) = n).
Proof.
  induction n as [|n IH]; intros fmt csid type sid len ts ext cs off pos remain head parts data
    Hcs Hoff Hpos Hrem Hfit.
  { exists [], []. cbn [message_chunks wire]. rewrite !app_nil_r. by split_and!. }
  cbn [message_chunks wire]. set (h := chunk_head fmt csid type sid len ts ext).
  set (t := if remain <? cs then remain else cs).
  assert (t = Z.min remain cs ∧ 0 ≤ t) as [Ht Ht0] by (unfold t; caseb; lia).
  set (dp := if 0 <? t then [PData (off + pos) t] else []).
  destruct (IH 3 csid type sid len ts ext cs off (pos + t) (remain - t) (head ++ h)
    ((parts ++ [PHead (length head) (length h)]) ++ dp) data)
    as (hs & ps & Heq & Hbytes & Hhl & Hpl & Hcount); [lia..|].
  exists (h ++ hs), ([PHead (length head) (length h)] ++ dp ++ ps). rewrite Heq.
  split_and!.
  - by rewrite <- !app_assoc.
  - intros more. rewrite !fmap_app, !concat_app. f_equal; [|f_equal].
    + change (take (length h) (drop (length head) (head ++ (h ++ hs) ++ more)) ++ [] = h).
      by rewrite app_nil_r, drop_app_length, <- app_assoc, take_app_length.
    + rewrite take_take. unfold dp. destruct (Z.ltb_spec 0 t) as [Hpt|Hz]; cbn.
      * rewrite app_nil_r. f_equal. lia.
      * replace (Z.to_nat cs `min` Z.to_nat remain)%nat with O by lia. done.
    + rewrite <- !app_assoc. specialize (Hbytes more). rewrite <- app_assoc in Hbytes. rewrite Hbytes.
      f_equal. rewrite skipn_firstn_comm, drop_drop.
      destruct (Z.ltb_spec remain cs).
      * replace t with remain by lia. replace (Z.to_nat (remain - remain)) with O by lia.
        replace (Z.to_nat remain - Z.to_nat cs)%nat with O by lia. done.
      * replace t with cs by lia. f_equal; [lia|]. f_equal. lia.
  - rewrite lenZ_app, Hhl. fold h. destruct n; lia.
  - rewrite !length_app. cbn. unfold dp. destruct (0 <? t); cbn; lia.
  - intros Hn. assert (0 < t) as Hpt by (destruct n; lia). unfold dp. rewrite (proj2 (Z.ltb_lt _ _)) by done.
    destruct n as [|n].
    { destruct ps; [done|cbn in Hpl; lia]. }
    destruct Hcount as [Hc1 Hc2]; [lia|]. cbn [app length]. split; [lia|].
    change (S (length (filter is_data ps)) = S (S n)). by rewrite Hc2.
Qed.

(** ** A packet *)

(** Arrays of one slot per outgoing chunk stream; what [writer_init] can give. *)
Record writer_ok (w : writer) : Prop := {
  wo_chunk : 0 < wr_chunk_size w ≤ RTMP_MAX_CHUNK;
  wo_max : 0 ≤ wr_max_message w < 2 ^ 32;
  wo_time : length (wr_timestamp w) = RTMP_MAX_OUT_CSID;
  wo_id : length (wr_stream_id w) = RTMP_MAX_OUT_CSID;
  wo_used : length (wr_used w) = RTMP_MAX_OUT_CSID }.

Lemma writer_init_ok chunk_size max_message :
  0 ≤ max_message < 2 ^ 32 → writer_ok (writer_init chunk_size max_message).
Proof.
  intros Hm. unfold writer_init, RTMP_MAX_CHUNK, RTMP_DEFAULT_CHUNK, RTMP_MAX_MESSAGE.
  split; cbn [wr_chunk_size wr_max_message]; [|caseb; lia|done..]. unfold RTMP_MAX_CHUNK.
  destruct (Z.ltb_spec 0 chunk_size), (Z.leb_spec chunk_size 65536); cbn [andb]; lia.
Qed.

Definition writer_put (w : writer) (csid : nat) (stream_id timestamp : Z) : writer :=
  w <| wr_used ::= <[csid := true]> |> <| wr_stream_id ::= <[csid := stream_id]> |>
    <| wr_timestamp ::= <[csid := timestamp]> |>.

Lemma writer_put_ok w csid id ts : writer_ok w → writer_ok (writer_put w csid id ts).
Proof. intros []. split; cbn; rewrite ?length_insert; done. Qed.

Lemma writer_format_some w csid id ts :
  writer_ok w → (csid < RTMP_MAX_OUT_CSID)%nat → 0 ≤ ts →
  ∃ fmt field, writer_format w csid id ts = Some (fmt, field) ∧
    (fmt = 0 ∧ field = ts ∨
     fmt = 1 ∧ 0 ≤ field < 0xFFFFFF ∧ wr_used w !! csid = Some true ∧
       wr_stream_id w !! csid = Some id ∧
       ∃ last, wr_timestamp w !! csid = Some last ∧ last ≤ ts ∧ field = u32 (ts - last)).
Proof.
  intros [_ _ Ht Hi Hu] Hc Hts. unfold writer_format.
  destruct (lookup_lt_is_Some_2 (wr_used w) csid) as [u Eu]; [lia|].
  destruct (lookup_lt_is_Some_2 (wr_timestamp w) csid) as [l El]; [lia|].
  destruct (lookup_lt_is_Some_2 (wr_stream_id w) csid) as [d Ed]; [lia|].
  rewrite Eu, El, Ed. cbn [mbind option_bind].
  destruct u; cbn [negb]; [|eexists _, _; split; [done|]; by left].
  destruct ((l <=? ts) && _ && _) eqn:E; eexists _, _; (split; [done|]); [right|by left].
  apply andb_prop in E as [[E1%Z.leb_le E2%Z.ltb_lt]%andb_prop E3%Z.eqb_eq]. subst d.
  split_and!; try done; [apply Z.mod_pos_bound; lia|]. by exists l.
Qed.

(** The number of chunks is the length over the chunk size, rounded up. *)
Lemma chunk_count_spec len cs :
  0 < cs ≤ RTMP_MAX_CHUNK → 0 ≤ len < 2 ^ 63 →
  (len = 0 → chunk_count len cs = 0) ∧
  (0 < len → 1 ≤ chunk_count len cs ∧ (chunk_count len cs - 1) * cs < len ≤ chunk_count len cs * cs).
Proof.
  intros Hcs Hl. unfold RTMP_MAX_CHUNK in Hcs. unfold chunk_count.
  rewrite u64_sub_l. rewrite u64_small by lia. split.
  - intros ->. rewrite Z.div_small; lia.
  - intros Hp. pose proof (Z.div_mod (len + cs - 1) cs). pose proof (Z.mod_pos_bound (len + cs - 1) cs).
    set (q := (len + cs - 1) `div` cs) in *. nia.
Qed.

(** The chunks a message takes: one more when it is empty. *)
Definition message_count (w : writer) (len : Z) : Z :=
  if chunk_count len (wr_chunk_size w) =? 0 then 1 else chunk_count len (wr_chunk_size w).

Definition msg_wire (w : writer) (csid : nat) (type stream_id ts : Z) (data : list Z) : list Z :=
  match writer_format w csid stream_id ts with
  | Some (fmt, field) =>
      wire (Z.to_nat (message_count w (lenZ data))) fmt (Z.of_nat csid) type stream_id (lenZ data)
        field (0xFFFFFF <=? field) (Z.to_nat (wr_chunk_size w)) data
  | None => []
  end.

Lemma chunk_head_length fmt csid type sid len ts (ext : bool) :
  lenZ (chunk_head fmt csid type sid len ts ext)
    = 1 + (if fmt =? 0 then 11 else if negb (fmt =? 3) then 7 else 0) + (if ext then 4 else 0).
Proof.
  unfold chunk_head, lenZ, be24, be32. destruct (Z.eqb_spec fmt 0) as [->|]; [by destruct ext|].
  destruct (Z.eqb_spec fmt 3); by destruct ext.
Qed.

(** The range [off] of payload [p] holds [data]. *)
Definition shares (st : store) (p : option N) (off : Z) (data : list Z) : Prop :=
  lenZ (bytes_of st p) = len_of st p ∧ off + lenZ data ≤ len_of st p ∧
  take (length data) (drop (Z.to_nat off) (bytes_of st p)) = data.

Lemma shares_evolves L L' st st' p off data :
  owns st L → owns st' L' → evolves st st' → holds p ⊆ L → holds p ⊆ L' →
  shares st p off data → shares st' p off data.
Proof.
  intros Ho Ho' Hev Hin Hin' Hs. destruct p as [id|]; [|done].
  destruct (evolves_held st st' L L' id) as [Hl Hb]; try done; [set_solver..|].
  unfold shares. by rewrite Hl, Hb.
Qed.

(** What [writer_message] answers when its payload and its allocation are there. *)
Definition can_emit (w : writer) (csid : nat) (len : Z) : bool :=
  (csid <? RTMP_MAX_OUT_CSID)%nat && (len <=? wr_max_message w)
  && (message_count w len * 2 <=? RTMP_MAX_OUT_PARTS).

Lemma can_emit_footprint w csid len :
  writer_ok w → 0 ≤ len < 2 ^ 63 → (csid < RTMP_MAX_OUT_CSID)%nat →
  if can_emit w csid len
  then ∃ parts refs, message_footprint w len = (NGX_OK, parts, refs) ∧
         (len = 0 → parts = 1 ∧ refs = 0) ∧
         (0 < len → parts = 2 * message_count w len ∧ refs = message_count w len)
  else (message_footprint w len).1.1 = NGX_AGAIN.
Proof.
  intros Hw Hl Hc. pose proof (wo_chunk _ Hw) as Hcs.
  destruct (chunk_count_spec len (wr_chunk_size w) Hcs Hl) as [H0 H1].
  unfold can_emit, message_footprint, message_count. rewrite (proj2 (Nat.ltb_lt _ _)) by done. cbn [andb].
  rewrite (proj2 (Z.eqb_neq (wr_chunk_size w) 0)) by lia. cbn [orb].
  destruct (Z.ltb_spec (wr_max_message w) len), (Z.leb_spec len (wr_max_message w)); try lia; cbn [andb]; [done|].
  destruct (Z.eqb_spec len 0) as [E|Hne].
  - rewrite H0 by done. cbn. eexists _, _. split; [done|]. lia.
  - rewrite (proj2 (Z.eqb_neq (chunk_count len (wr_chunk_size w)) 0)) by lia.
    destruct (Z.leb_spec (chunk_count len (wr_chunk_size w) * 2) RTMP_MAX_OUT_PARTS) as [Hfit|Hbig].
    + rewrite (proj2 (Z.ltb_ge _ _)) by done. eexists _, _. split; [done|]. lia.
    + by rewrite (proj2 (Z.ltb_lt _ _)).
Qed.

(** What a queue finds in a packet: as many parts and payload slices as it reserved. *)
Definition reserved (w : writer) (len : Z) (pkt : rtmp_packet) : Prop :=
  message_footprint w len
    = (NGX_OK, Z.of_nat (length (pk_parts pkt)), Z.of_nat (length (filter is_data (pk_parts pkt)))).

Lemma wp_alloc_granted size L s :
  owns s L → size < 2 ^ 63 →
  wp (ngx_alloc size) (λ p s', owns s' L ∧ evolves s s' ∧
    ((∀ n z, st_alloc s n z = true) → p ≠ None)) s.
Proof.
  intros Ho Hs. eapply wp_mono; [apply wp_and; [by apply (wp_ngx_alloc size L)|]|].
  { instantiate (1 := λ p _, (∀ n z, st_alloc s n z = true) → p ≠ None).
    eexists _, _. split; [done|]. intros Hg. by rewrite Hg, (proj2 (Z.ltb_lt _ _)). }
  intros p s' [(? & ? & _) ?]. done.
Qed.

Lemma wp_writer_message w csid type sid ts p off data pkt L s :
  writer_ok w → 0 ≤ ts → 0 ≤ off → off + lenZ data < 2 ^ 63 →
  owns s L → holds p ⊆ L → shares s p off data → pk_payload pkt = None →
  wp (writer_message w csid type sid ts p off (lenZ data) pkt) (λ r st',
    evolves s st' ∧
    if can_emit w csid (lenZ data)
    then r = (NGX_ERROR, w, pkt) ∧ owns st' L ∧ ¬ (∀ n z, st_alloc s n z = true) ∨
      ∃ pkt', r = (NGX_OK, writer_put w csid sid ts, pkt') ∧ owns st' (holds p ++ L) ∧
        pk_payload pkt' = p ∧ packet_bytes st' pkt' = msg_wire w csid type sid ts data ∧
        reserved w (lenZ data) pkt'
    else r = (NGX_ERROR, w, pkt) ∧ st' = s) s.
Proof.
  intros Hw Hts Hoff Hfit Ho Hin (Hlen & Hroom & Hdata) Hpk.
  pose proof (wo_chunk _ Hw) as Hcs. assert (0 ≤ lenZ data) as Hl0 by apply lenZ_nonneg.
  unfold writer_message. destruct (Nat.leb_spec RTMP_MAX_OUT_CSID csid) as [Hc|Hc].
  { apply wp_ret. unfold can_emit. by rewrite (proj2 (Nat.ltb_ge _ _)). }
  pose proof (can_emit_footprint w csid (lenZ data) Hw ltac:(lia) Hc) as Hfoot.
  unfold can_emit in *. rewrite (proj2 (Nat.ltb_lt _ _)) in * by done. cbn [orb andb] in *.
  destruct (Z.ltb_spec (wr_max_message w) (lenZ data)) as [Hbig|Hm].
  { apply wp_ret. by rewrite (proj2 (Z.leb_gt _ _)). }
  rewrite (proj2 (Z.leb_le _ _)) in * by done. cbn [andb] in *.
  assert (p = None → lenZ data = 0) as Hnone by (intros ->; cbn in Hroom; lia).
  assert ((0 <? lenZ data) && bool_decide (p = None) = false) as ->.
  { case_bool_decide as E; [|apply andb_false_r]. by rewrite Hnone. }
  apply wp_bind. eapply (wp_mono _ (λ size s', s' = s ∧
    (0 <? lenZ data) && (size <? off ⊕ lenZ data) = false)).
  { destruct (Z.ltb_spec 0 (lenZ data)); [|by apply wp_ret].
    eapply wp_mono; [by apply (wp_buf_size p L)|]. intros _ s' [-> ->]. split; [done|].
    rewrite u64_small by lia. by apply Z.ltb_ge. }
  intros size s' [-> ->].
  destruct (writer_format_some w csid sid ts Hw Hc Hts) as (fmt & field & Hfmt & Hcase).
  apply wp_bind. eapply wp_read; [exact Hfmt|]. cbn zeta. fold (message_count w (lenZ data)).
  destruct (chunk_count_spec (lenZ data) (wr_chunk_size w) Hcs) as [H0 H1]; [lia|].
  set (n := message_count w (lenZ data)) in *.
  assert (1 ≤ n ∧ (0 < lenZ data → (n - 1) * wr_chunk_size w < lenZ data) ∧
          (lenZ data = 0 → n = 1)) as (Hn1 & Hn2 & Hn3).
  { unfold n, message_count. caseb; [split_and!; try lia|].
    destruct (decide (lenZ data = 0)); [split_and!; lia|]. split_and!; lia. }
  destruct (Z.leb_spec (n * 2) RTMP_MAX_OUT_PARTS) as [Hparts|Hparts].
  2:{ rewrite (proj2 (Z.ltb_lt _ _)) by done. apply wp_ret. done. }
  rewrite (proj2 (Z.ltb_ge _ _)) by done. destruct Hfoot as (np & nr & Hfoot & Hf0 & Hf1).
  assert (n ≤ 256) as Hn4 by (unfold RTMP_MAX_OUT_PARTS in Hparts; lia).
  apply wp_bind. eapply wp_mono; [apply (wp_alloc_granted _ L); [done|repeat case_match; lia]|].
  intros a s1 (Ho1 & Hev1 & Hgr).
  destruct a as [a|].
  2:{ apply wp_ret. split; [done|]. left. split_and!; [done|done|]. intros Hg. by apply Hgr. }
  destruct (message_chunks_spec (Z.to_nat n) fmt (Z.of_nat csid) type sid (lenZ data) field
    (0xFFFFFF <=? field) (wr_chunk_size w) off 0 (lenZ data) [] [] (bytes_of s p))
    as (hs & ps & Heq & Hbytes & Hhl & Hpl & Hcount); [lia..|].
  rewrite Heq. cbn [app] in *.
  assert (lenZ hs = n * (1 + (if 0xFFFFFF <=? field then 4 else 0))
            + (if fmt =? 0 then 11 else if fmt =? 1 then 7 else 0)) as Hhead.
  { rewrite Hhl. destruct (Z.to_nat n) as [|k] eqn:En; [lia|]. rewrite !chunk_head_length.
    replace n with (Z.of_nat k + 1) by lia. cbn [Z.eqb Pos.eqb negb].
    destruct Hcase as [[-> _]|[-> _]]; cbn [Z.eqb Pos.eqb negb]; case_match; lia. }
  rewrite (proj2 (Z.ltb_ge _ (lenZ hs))) by lia.
  rewrite (proj2 (Z.ltb_ge RTMP_MAX_OUT_PARTS _)) by lia. cbn [orb].
  assert (wp (match p with None => mret (pk_payload pkt) | Some _ => buf_ref p end)
    (λ r s2, r = p ∧ owns s2 (holds p ++ L) ∧ evolves s1 s2) s1) as Href.
  { destruct p as [id|]; [by apply (wp_buf_ref_opt (Some id))|].
    apply wp_ret. rewrite Hpk. split_and!; [done|done|reflexivity]. }
  apply wp_bind. eapply wp_mono; [exact Href|]. intros r s2 (-> & Ho2 & Hev2). apply wp_ret.
  assert (evolves s s2) as Hev by by etrans.
  split; [exact Hev|]. right. eexists. split; [reflexivity|]. split; [exact Ho2|]. split; [done|].
  assert (bytes_of s2 p = bytes_of s p) as Hsame.
  { destruct p as [id|]; [|done]. apply (evolves_held s s2 L (holds (Some id) ++ L)); try done; set_solver. }
  split.
  - unfold packet_bytes. cbn [pk_head pk_payload pk_parts]. rewrite Hsame.
    change (default [] (Some hs)) with hs.
    specialize (Hbytes []). rewrite app_nil_r in Hbytes. rewrite Hbytes.
    unfold msg_wire. rewrite Hfmt. fold n. f_equal. rewrite Z.add_0_r. unfold lenZ. by rewrite Nat2Z.id.
  - unfold reserved. cbn [pk_parts]. rewrite Hfoot. destruct (decide (lenZ data = 0)) as [E|Hne].
    + destruct (Hf0 E) as [-> ->]. rewrite (Hn3 E), E in Heq.
      change (Z.to_nat 1) with 1%nat in Heq. cbn [message_chunks app] in Heq.
      rewrite (proj2 (Z.ltb_lt 0 (wr_chunk_size w))) in Heq by lia.
      change (0 <? 0) with false in Heq. cbn [app] in Heq. injection Heq as _ <-. done.
    + destruct Hf1 as [-> ->]; [lia|]. destruct Hcount as [-> ->]; [lia|]. do 2 f_equal; lia.
Qed.

(** ** The message on the wire, described

    A message is its payload cut into pieces of the chunk size, each behind a header: the first
    header is the whole one (format 0) or, for a stream that goes on within the same message
    stream, the one with the time since the last message (format 1); the pieces that follow have
    a one-byte header (format 3).  Times that do not fit three bytes follow every header. *)

(** The [n] base-256 digits of a number, the most significant first. *)
Fixpoint digits (n : nat) (v : Z) : list Z :=
  match n with O => [] | S n => (v / 256 ^ Z.of_nat n) mod 256 :: digits n v end.
Fixpoint pieces (fuel k : nat) (data : list Z) : list (list Z) :=
  match fuel with
  | O => [data]
  | S fuel => if (length data <=? k)%nat then [data] else take k data :: pieces fuel k (drop k data)
  end.
Definition extension (ts : Z) : list Z := if 0xFFFFFF <=? ts then digits 4 ts else [].
Definition whole_header (csid type sid ts len : Z) : list Z :=
  [csid] ++ digits 3 (Z.min ts 0xFFFFFF) ++ digits 3 len ++ [type] ++ digits 4 sid ++ extension ts.
Definition delta_header (csid type delta len : Z) : list Z := [64 + csid] ++ digits 3 delta ++ digits 3 len ++ [type].
Definition next_header (csid : Z) (ext : list Z) : list Z := [192 + csid] ++ ext.
(** [prev]: the time and the message stream of the last message on this chunk stream. *)
Definition continues (prev : option (Z * Z)) (sid ts : Z) : option Z :=
  match prev with
  | Some (last, id) => if bool_decide (id = sid ∧ last ≤ ts < last + 0xFFFFFF) then Some (ts - last) else None
  | None => None
  end.
Definition message_on_wire (prev : option (Z * Z)) (csid type sid ts : Z) (k : nat) (data : list Z) : list Z :=
  let '(head, ext) :=
    match continues prev sid ts with
    | Some delta => (delta_header csid type delta (lenZ data), [])
    | None => (whole_header csid type sid ts (lenZ data), extension ts)
    end in
  match pieces (length data) k data with
  | [] => []
  | first :: rest => head ++ first ++ concat ((λ p, next_header csid ext ++ p) <$> rest)
  end.
(** What a chunk stream of the writer remembers. *)
Definition writer_last (w : writer) (csid : nat) : option (Z * Z) :=
  match wr_used w !! csid, wr_timestamp w !! csid, wr_stream_id w !! csid with
  | Some true, Some last, Some id => Some (last, id)
  | _, _, _ => None
  end.

Lemma u8_shiftr v n : 0 ≤ n → u8 (Z.shiftr v n) = (v / 2 ^ n) mod 256.
Proof. intros Hn. unfold u8. by rewrite Z.shiftr_div_pow2. Qed.
Lemma digits_be24 v : digits 3 v = be24 v.
Proof. unfold be24. rewrite !u8_shiftr by done. unfold u8. cbn [digits]. by rewrite Z.div_1_r. Qed.
Lemma digits_be32 v : digits 4 v = be32 v.
Proof. unfold be32. rewrite !u8_shiftr by done. unfold u8. cbn [digits]. by rewrite Z.div_1_r. Qed.
Lemma basic_byte fmt csid : 0 ≤ fmt < 4 → 0 ≤ csid < 64 → u8 (Z.lor (Z.shiftl fmt 6) (Z.land csid 0x3F)) = fmt * 64 + csid.
Proof.
  intros Hf Hc. change 0x3F with (Z.ones 6). rewrite Z.land_ones, (Z.mod_small csid) by (done || lia).
  rewrite lor_shift by lia. apply u8_small. unfold is_byte. lia.
Qed.
Lemma whole_head csid type sid len ts :
  0 ≤ csid < 64 → is_byte type → chunk_head 0 csid type sid len ts (0xFFFFFF <=? ts) = whole_header csid type sid ts len.
Proof.
  intros Hc Ht. unfold chunk_head, whole_header, extension. rewrite basic_byte, (u8_small type), digits_be24, !digits_be32, digits_be24 by (done || lia).
  cbn [Z.eqb negb]. destruct (Z.leb_spec 0xFFFFFF ts).
  - rewrite Z.min_r by done. cbn [app]. by rewrite <- !app_assoc.
  - rewrite Z.min_l by lia. cbn [app]. by rewrite <- !app_assoc.
Qed.
Lemma delta_head csid type sid len delta :
  0 ≤ csid < 64 → is_byte type → chunk_head 1 csid type sid len delta false = delta_header csid type delta len.
Proof.
  intros Hc Ht. unfold chunk_head, delta_header. rewrite basic_byte, (u8_small type), !digits_be24 by (done || lia).
  cbn [Z.eqb negb Pos.eqb]. cbn [app]. by rewrite <- !app_assoc.
Qed.
Lemma next_head csid type sid len ts :
  0 ≤ csid < 64 → chunk_head 3 csid type sid len ts (0xFFFFFF <=? ts) = next_header csid (extension ts).
Proof.
  intros Hc. unfold chunk_head, next_header, extension. rewrite basic_byte, digits_be32 by (done || lia). done.
Qed.

Lemma wire_pieces n : ∀ fuel k fmt csid type sid len ts ext data,
  (0 < k)%nat → (length data ≤ fuel)%nat → (length data ≤ S n * k)%nat → (n = 0%nat ∨ n * k < length data)%nat →
  ∃ first rest, pieces fuel k data = first :: rest ∧
    wire (S n) fmt csid type sid len ts ext k data =
      chunk_head fmt csid type sid len ts ext ++ first ++ concat ((λ p, chunk_head 3 csid type sid len ts ext ++ p) <$> rest).
Proof.
  induction n as [|n IH]; intros fuel k fmt csid type sid len ts ext data Hk Hf Hle Hlt.
  - exists data, []. split.
    + destruct fuel; cbn [pieces]; [done|]. by rewrite (proj2 (Nat.leb_le _ _)) by lia.
    + cbn [wire]. rewrite take_ge by lia. done.
  - destruct fuel as [|fuel]; [lia|]. cbn [pieces]. rewrite (proj2 (Nat.leb_gt _ _)) by lia.
    destruct (IH fuel k 3 csid type sid len ts ext (drop k data)) as (first & rest & E & Hw); [done|rewrite length_drop; lia..|].
    exists (take k data), (first :: rest). rewrite E. split; [done|]. change (wire (S (S n)) ?f ?a ?b ?c ?d ?e ?g ?h ?x) with
      (chunk_head f a b c d e g ++ take h x ++ wire (S n) 3 a b c d e g h (drop h x)). rewrite Hw. cbn [fmap list_fmap concat]. by rewrite <- !app_assoc.
Qed.

(** The writer emits the message as described. *)
Lemma msg_wire_described w csid type sid ts data :
  writer_ok w → (csid < RTMP_MAX_OUT_CSID)%nat → is_byte type → 0 ≤ ts < 2 ^ 32 → lenZ data < 2 ^ 24 →
  (∀ last, wr_timestamp w !! csid = Some last → 0 ≤ last) →
  msg_wire w csid type sid ts data = message_on_wire (writer_last w csid) (Z.of_nat csid) type sid ts (Z.to_nat (wr_chunk_size w)) data.
Proof.
  intros Hw Hc Hty Hts Hlen Hlast. unfold msg_wire. destruct Hw as [Hcs _ Ht Hi Hu].
  destruct (lookup_lt_is_Some_2 (wr_used w) csid) as [u Eu]; [lia|].
  destruct (lookup_lt_is_Some_2 (wr_timestamp w) csid) as [l El]; [lia|].
  destruct (lookup_lt_is_Some_2 (wr_stream_id w) csid) as [d Ed]; [lia|]. specialize (Hlast l El).
  set (k := Z.to_nat (wr_chunk_size w)). assert (0 < k)%nat as Hk by (unfold k; lia).
  destruct (chunk_count_spec (lenZ data) (wr_chunk_size w) Hcs) as [H0 H1]; [pose proof (lenZ_nonneg data); lia|].
  assert (∃ n, Z.to_nat (message_count w (lenZ data)) = S n ∧ (length data ≤ S n * k)%nat ∧ (n = 0%nat ∨ n * k < length data)%nat) as (n & En & Hle & Hlt).
  { unfold message_count. destruct (Z.eqb_spec (chunk_count (lenZ data) (wr_chunk_size w)) 0) as [E|E].
    - exists 0%nat. split; [done|]. split; [|by left]. destruct (decide (lenZ data = 0)) as [E'|]; [unfold lenZ in E'; lia|].
      destruct H1 as [H1 _]; [pose proof (lenZ_nonneg data); lia|lia].
    - destruct H1 as [H1 H2]; [pose proof (lenZ_nonneg data); destruct (decide (lenZ data = 0)); [by rewrite H0 in E|lia]|].
      exists (Z.to_nat (chunk_count (lenZ data) (wr_chunk_size w) - 1)). unfold lenZ in *. unfold k. split; [lia|]. split; [nia|right; nia]. }
  unfold writer_format. rewrite Eu, El, Ed. cbn [mbind option_bind].
  assert (u32 (ts - l) = ts - l ∨ ts < l) as Hu32 by (destruct (decide (ts < l)); [by right|left; apply Z.mod_small; lia]).
  unfold message_on_wire, writer_last. rewrite Eu, El, Ed. destruct u; cbn [negb].
  - cbn [continues]. case_bool_decide as Hcont.
    + destruct Hcont as (-> & Hl1 & Hl2). destruct Hu32 as [E32|]; [|lia].
      rewrite E32, (proj2 (Z.leb_le _ _)), (proj2 (Z.ltb_lt _ _)), Z.eqb_refl by lia. cbn [andb].
      rewrite (proj2 (Z.leb_gt 0xFFFFFF _)) by lia.
      destruct (wire_pieces n (length data) k 1 (Z.of_nat csid) type sid (lenZ data) (ts - l) false data) as (first & rest & E & Hwire); [done..|].
      rewrite E, En, Hwire, delta_head by (done || (unfold RTMP_MAX_OUT_CSID in Hc; lia)). do 3 f_equal.
      apply list_fmap_ext. intros _ p _. f_equal. rewrite <- (next_head _ type sid (lenZ data) 0) by (unfold RTMP_MAX_OUT_CSID in Hc; lia). done.
    + destruct ((l <=? ts) && (u32 (ts - l) <? 0xFFFFFF) && (d =? sid)) eqn:Eb.
      { exfalso. apply Hcont. apply andb_true_iff in Eb as [Eb Eb3%Z.eqb_eq]. apply andb_true_iff in Eb as [Eb1%Z.leb_le Eb2%Z.ltb_lt]. lia. }
      destruct (wire_pieces n (length data) k 0 (Z.of_nat csid) type sid (lenZ data) ts (0xFFFFFF <=? ts) data) as (first & rest & E & Hwire); [done..|].
      rewrite E, En, Hwire, whole_head by (done || (unfold RTMP_MAX_OUT_CSID in Hc; lia)). do 3 f_equal.
      apply list_fmap_ext. intros _ p _. f_equal. apply next_head. unfold RTMP_MAX_OUT_CSID in Hc; lia.
  - cbn [continues].
    destruct (wire_pieces n (length data) k 0 (Z.of_nat csid) type sid (lenZ data) ts (0xFFFFFF <=? ts) data) as (first & rest & E & Hwire); [done..|].
    rewrite E, En, Hwire, whole_head by (done || (unfold RTMP_MAX_OUT_CSID in Hc; lia)). do 3 f_equal.
    apply list_fmap_ext. intros _ p _. f_equal. apply next_head. unfold RTMP_MAX_OUT_CSID in Hc; lia.
Qed.

(** C17: the writer emits what a queue reserved for it. For a payload range that is there
    and any message shorter than 16 MiB, the call is defined: the chunk headers fill their allocation
    and the parts their array. When the footprint is NGX_AGAIN the message is refused and
    nothing changes. Otherwise it is refused only when the allocator refuses - again with
    nothing changed - and else the packet has exactly the parts and payload slices of the
    footprint, holds one more reference on the payload, and its bytes are the message: the
    payload cut into pieces of the chunk size behind a whole header, or one with the time
    since the last message of the chunk stream, and behind one-byte headers, with every field
    - time, length, type, message stream - in its place, most significant byte first; the
    stream's timestamp, message stream and use are recorded. *)
Theorem message_reserved w csid type sid ts p off data L s :
  writer_ok w → (csid < RTMP_MAX_OUT_CSID)%nat → is_byte type → 0 ≤ ts < 2 ^ 32 → 0 ≤ off →
  (∀ last, wr_timestamp w !! csid = Some last → 0 ≤ last) → lenZ data < 2 ^ 24 →
  off + lenZ data < 2 ^ 63 → owns s L → holds p ⊆ L → shares s p off data →
  ∃ r w' pkt st', writer_message w csid type sid ts p off (lenZ data) packet_init s
                    = Some ((r, w', pkt), st') ∧
    if bool_decide ((message_footprint w (lenZ data)).1.1 = NGX_OK)
    then ((∀ n z, st_alloc s n z = true) → r = NGX_OK) ∧
      (r = NGX_OK ∧ w' = writer_put w csid sid ts ∧ reserved w (lenZ data) pkt ∧
         pk_payload pkt = p ∧ owns st' (holds p ++ L) ∧
         packet_bytes st' pkt = message_on_wire (writer_last w csid) (Z.of_nat csid) type sid ts (Z.to_nat (wr_chunk_size w)) data ∨
       r = NGX_ERROR ∧ w' = w ∧ pkt = packet_init ∧ owns st' L)
    else r = NGX_ERROR ∧ w' = w ∧ pkt = packet_init ∧ st' = s.
Proof.
  intros Hw Hc Hty Hts Hoff Hlast Hlen Hfit Ho Hin Hsh.
  destruct (wp_writer_message w csid type sid ts p off data packet_init L s)
    as ([[r w'] pkt] & st' & Hrun & _ & Hpost); [done|lia|done..|].
  exists r, w', pkt, st'. split; [exact Hrun|].
  pose proof (can_emit_footprint w csid (lenZ data) Hw) as Hfoot.
  pose proof (lenZ_nonneg data). specialize (Hfoot ltac:(lia) Hc).
  rewrite <- msg_wire_described by done.
  destruct (can_emit w csid (lenZ data)).
  - destruct Hfoot as (np & nr & -> & _). rewrite bool_decide_true by done.
    destruct Hpost as [([= -> -> ->] & Ho' & Hg)|(pkt' & [= -> -> ->] & Ho' & Hp & Hb & Hr)].
    + split; [done|]. by right.
    + split; [done|]. by left.
  - rewrite Hfoot, bool_decide_false by done. by destruct Hpost as [[= -> -> ->] ->].
Qed.
(** A payload of 5 bytes, cut into chunks of 2. *)
Definition ex_out_store : store :=
  mk_store {[ 0%N := mk_buf 1 5 5 [1; 2; 3; 4; 5] ]} 1 (λ _ _, true).
Lemma ex_out_owns : owns ex_out_store [0%N].
Proof.
  split; [split|..]; simpl.
  - intros id b [<- _]%lookup_singleton_Some. lia.
  - intros id b [_ <-]%lookup_singleton_Some. simpl. lia.
  - intros id b [<- <-]%lookup_singleton_Some. done.
  - intros id Hid%lookup_singleton_None. set_solver.
Qed.
Lemma message_reserved_witness :
  ∃ w' pkt st', writer_message (writer_init 2 0) 4 9 1 40 (Some 0%N) 0 5 packet_init ex_out_store
                  = Some ((NGX_OK, w', pkt), st') ∧ reserved (writer_init 2 0) 5 pkt ∧
    packet_bytes st' pkt = [4; 0; 0; 40; 0; 0; 5; 9; 0; 0; 0; 1; 1; 2; 196; 3; 4; 196; 5].
Proof.
  destruct (message_reserved (writer_init 2 0) 4 9 1 40 (Some 0%N) 0 [1; 2; 3; 4; 5] [0%N] ex_out_store)
    as (r & w' & pkt & st' & Hrun & Hpost).
  - apply writer_init_ok. lia.
  - unfold RTMP_MAX_OUT_CSID. lia.
  - done.
  - lia.
  - lia.
  - intros last [= <-]. lia.
  - change (5 < 2 ^ 24). lia.
  - change (0 + 5 < 2 ^ 63). lia.
  - exact ex_out_owns.
  - done.
  - split; [reflexivity|]. split; [change (0 + 5 ≤ 5); lia|reflexivity].
  - replace (bool_decide _) with true in Hpost by reflexivity. destruct Hpost as [Hg Hpost].
    rewrite Hg in * by done.
    destruct Hpost as [(_ & _ & Hr & _ & _ & Hb)|(? & _)]; [|done].
    exists w', pkt, st'. split_and!; [exact Hrun|exact Hr|]. rewrite Hb. reflexivity.
Defined.
