(* ===== verification/Amf.v ===== *)
(** * AMF0 values

    Models the AMF0 reader and writer of rtmp/ngx_media_rtmp_wire.[ch].  A pointer into the
    message with the bytes left behind it is the list of those bytes and its offset in the
    message; a double is its 64-bit pattern, which the code moves without computing on it.
    An answer of the reader means that no read left the message and that it ended. *)
From S2P Require Import Prelude Bytes.

Definition AMF_NUMBER : Z := 0x00.
Definition AMF_BOOLEAN : Z := 0x01.
Definition AMF_STRING : Z := 0x02.
Definition AMF_OBJECT : Z := 0x03.
Definition AMF_NULL : Z := 0x05.
Definition AMF_UNDEFINED : Z := 0x06.
Definition AMF_ECMA_ARRAY : Z := 0x08.
Definition AMF_OBJECT_END : Z := 0x09.
Definition AMF_STRICT_ARRAY : Z := 0x0A.
Definition AMF_MAX_MEMBERS : nat := 24.
Definition AMF_MAX_DEPTH : Z := 1024.

(** ** The reader *)

(** A string that points into the message: offset and length; [None] is NULL. *)
Definition amf_str : Type := option (nat * nat).

Record amf_member_t := mk_member {
  am_name : amf_str; am_type : Z; am_number : Z; am_boolean : Z; am_string : amf_str }.
(** The members recorded; [count] is their number. *)
Record amf_value := mk_value {
  av_type : Z; av_number : Z; av_boolean : Z; av_string : amf_str;
  av_members : list amf_member_t }.
#[global] Instance eta_amf_value : Eta amf_value := λ r,
  mk_value (av_type r) (av_number r) (av_boolean r) (av_string r) (av_members r).
Definition amf_zero : amf_value := mk_value 0 0 0 None [].

Definition amf_get_double (d : list Z) (i : nat) : option Z :=
  p ← bytes_at d i 8; Some (foldl (λ bits b, Z.lor (u64 (Z.shiftl bits 8)) b) 0 p).

(** The terminator: an empty name followed by 0x09. *)
Definition object_end (d : list Z) (pos : nat) : option bool :=
  if (pos + 3 <=? length d)%nat then
    a ← d !! pos; b ← d !! (pos + 1)%nat; c ← d !! (pos + 2)%nat;
    Some ((a =? 0) && (b =? 0) && (c =? AMF_OBJECT_END))
  else Some false.

Definition scalar_answer : Type := rc * amf_value * nat.

(** The values that hold no others; [None] is an aggregate or an unknown type. *)
Definition amf_read_scalar (d : list Z) (base : nat) (type : Z) (out : amf_value)
    : option (option scalar_answer) :=
  if type =? AMF_NUMBER then
    if (length d <? 9)%nat then Some (Some (NGX_AGAIN, out, 1%nat))
    else
      v ← amf_get_double d 1;
      Some (Some (NGX_OK, out <| av_type := type |> <| av_number := v |>, 9%nat))
  else if type =? AMF_BOOLEAN then
    if (length d <? 2)%nat then Some (Some (NGX_AGAIN, out, 1%nat))
    else
      b ← d !! 1%nat;
      Some (Some (NGX_OK, out <| av_type := type |>
                              <| av_boolean := if b =? 0 then 0 else 1 |>, 2%nat))
  else if type =? AMF_STRING then
    if (length d <? 3)%nat then Some (Some (NGX_AGAIN, out, 1%nat))
    else
      slen ← u16_at d 1; let slen := Z.to_nat slen in
      if (length d <? 3 + slen)%nat then Some (Some (NGX_AGAIN, out, 1%nat))
      else
        Some (Some (NGX_OK, out <| av_type := type |>
                                <| av_string := Some ((base + 3)%nat, slen) |>, (3 + slen)%nat))
  else if (type =? AMF_NULL) || (type =? AMF_UNDEFINED) then
    Some (Some (NGX_OK, out <| av_type := type |>, 1%nat))
  else Some None.

Definition is_array (type : Z) : bool := (type =? AMF_ECMA_ARRAY) || (type =? AMF_STRICT_ARRAY).

(** One value, the members of an aggregate that is skipped, and those of one that is
    recorded.  A byte of the message pays for two calls at most, so twice their number is
    fuel enough. *)
Fixpoint amf_read_value (fuel : nat) (d : list Z) (base : nat) (out : amf_value)
    (consumed : nat) (record : bool) (nesting : Z) {struct fuel} : option scalar_answer :=
  match fuel with
  | O => None
  | S fuel =>
      match d with
      | [] => Some (NGX_AGAIN, out, consumed)
      | type :: _ =>
          scalar ← amf_read_scalar d base type out;
          match scalar with
          | Some answer => Some answer
          | None =>
              if negb ((type =? AMF_OBJECT) || is_array type) then Some (NGX_ERROR, out, 1%nat)
              else if AMF_MAX_DEPTH <? nesting then Some (NGX_ERROR, out, 1%nat)
              else
                let out := out <| av_type :=
                  if record || negb (type =? AMF_ECMA_ARRAY) then type else AMF_OBJECT |> in
                if is_array type && (length d <? 5)%nat then Some (NGX_AGAIN, out, 1%nat)
                else
                  let pos := if is_array type then 5%nat else 1%nat in
                  if record then amf_record_members fuel d base pos out nesting
                  else amf_skip_members fuel d base pos 0 out nesting
          end
      end
  end
with amf_skip_members (fuel : nat) (d : list Z) (base pos depth : nat) (out : amf_value)
    (nesting : Z) {struct fuel} : option scalar_answer :=
  match fuel with
  | O => None
  | S fuel =>
      if (pos <? length d)%nat then
        stop ← object_end d pos;
        if stop : bool then Some (NGX_OK, out, (pos + 3)%nat)
        else if (length d <? pos + 2)%nat then Some (NGX_AGAIN, out, 1%nat)
        else
          nlen ← u16_at d pos;
          let next := (pos + 2 + Z.to_nat nlen)%nat in
          if (length d <? next)%nat then Some (NGX_AGAIN, out, 1%nat)
          else
            '(r, out, used) ←
              amf_read_value fuel (drop next d) (base + next) out 0 false (nesting + 1);
            if negb (bool_decide (r = NGX_OK)) then Some (r, out, 1%nat)
            else if (1024 <? S depth)%nat then Some (NGX_ERROR, out, 1%nat)
            else amf_skip_members fuel d base (next + used) (S depth) out nesting
      else Some (NGX_OK, out, pos)
  end
with amf_record_members (fuel : nat) (d : list Z) (base pos : nat) (out : amf_value)
    (nesting : Z) {struct fuel} : option scalar_answer :=
  match fuel with
  | O => None
  | S fuel =>
      if (length d <=? pos)%nat then Some (NGX_AGAIN, out, 1%nat)
      else
        stop ← object_end d pos;
        if stop : bool then Some (NGX_OK, out, (pos + 3)%nat)
        else if (length d <? pos + 2)%nat then Some (NGX_AGAIN, out, 1%nat)
        else
          nlen ← u16_at d pos; let nlen := Z.to_nat nlen in
          let next := (pos + 2 + nlen)%nat in
          if (length d <=? next)%nat then Some (NGX_AGAIN, out, 1%nat)
          else
            '(r, member, used) ←
              amf_read_value fuel (drop next d) (base + next) amf_zero 0 false (nesting + 1);
            if negb (bool_decide (r = NGX_OK)) then Some (r, out, 1%nat)
            else
              let out :=
                if (length (av_members out) <? AMF_MAX_MEMBERS)%nat then
                  out <| av_members ::= λ l, l ++ [mk_member (Some ((base + pos + 2)%nat, nlen))
                    (av_type member) (av_number member) (av_boolean member) (av_string member)] |>
                else out in
              amf_record_members fuel d base (next + used) out nesting
  end.

Definition amf_read (d : list Z) (base : nat) : option scalar_answer :=
  amf_read_value (S (2 * length d)) d base amf_zero 0 true 1.

(** The bytes a string designates in [message]. *)
Definition str_bytes (message : list Z) (s : amf_str) : option (list Z) :=
  '(off, n) ← s; bytes_at message off n.

(** [memcmp] of the name of member [m]. *)
Definition name_is (message name : list Z) (m : amf_member_t) : option bool :=
  match am_name m with
  | None => Some (length name =? 0)%nat
  | Some (off, n) =>
      if (n =? length name)%nat then
        b ← bytes_at message off n; Some (bool_decide (b = name))
      else Some false
  end.
(** The first member of that name. *)
Fixpoint amf_find (message name : list Z) (l : list amf_member_t)
    : option (option amf_member_t) :=
  match l with
  | [] => Some None
  | m :: l => hit ← name_is message name m; if hit : bool then Some (Some m) else amf_find message name l
  end.

(** [value] NULL is [None]. *)
Definition amf_member (message : list Z) (value : option amf_value) (name : list Z)
    : option (option amf_str) :=
  match value with
  | None => Some None
  | Some v =>
      if negb (av_type v =? AMF_OBJECT) && negb (av_type v =? AMF_ECMA_ARRAY) then Some None
      else
        m ← amf_find message name (av_members v);
        Some (match m with Some m => Some (am_string m) | None => None end)
  end.

Definition amf_member_number (message : list Z) (value : option amf_value) (name : list Z)
    (out : Z) : option (rc * Z) :=
  match value with
  | None => Some (NGX_ERROR, out)
  | Some v =>
      m ← amf_find message name (av_members v);
      match m with
      | Some m => if am_type m =? AMF_NUMBER then Some (NGX_OK, am_number m)
                  else Some (NGX_ERROR, out)
      | None => Some (NGX_ERROR, out)
      end
  end.

(** ** The writer *)

(** [aw_data] is the caller's buffer; a write outside it has no answer. *)
Record amf_writer := mk_aw {
  aw_data : list Z; aw_capacity : Z; aw_len : Z; aw_objects : Z }.
#[global] Instance eta_amf_writer : Eta amf_writer := λ r,
  mk_aw (aw_data r) (aw_capacity r) (aw_len r) (aw_objects r).

Definition amf_writer_init (data : list Z) (capacity : Z) : amf_writer := mk_aw data capacity 0 0.

Definition amf_room (w : amf_writer) (need : Z) : bool := aw_len w ⊕ need <=? aw_capacity w.

(** Bytes stored at the cursor, which moves behind them. *)
Definition amf_store (w : amf_writer) (b : list Z) : option amf_writer :=
  let at_ := Z.to_nat (aw_len w) in
  if (at_ + length b <=? length (aw_data w))%nat then
    Some (w <| aw_data := take at_ (aw_data w) ++ b ++ drop (at_ + length b) (aw_data w) |>
            <| aw_len := aw_len w ⊕ lenZ b |>)
  else None.

Definition amf_put_u16 (v : Z) : list Z := [Z.land (Z.shiftr v 8) 0xFF; Z.land v 0xFF].
Definition amf_put_double (v : Z) : list Z :=
  (λ i, Z.land (Z.shiftr v ((7 - i) * 8)) 0xFF) <$> seqZ 0 8.

Definition amf_put_number (w : amf_writer) (v : Z) : option (rc * amf_writer) :=
  if negb (amf_room w 9) then Some (NGX_ERROR, w)
  else w ← amf_store w (AMF_NUMBER :: amf_put_double v); Some (NGX_OK, w).
Definition amf_put_boolean (w : amf_writer) (v : Z) : option (rc * amf_writer) :=
  if negb (amf_room w 2) then Some (NGX_ERROR, w)
  else w ← amf_store w [AMF_BOOLEAN; if v =? 0 then 0 else 1]; Some (NGX_OK, w).
Definition amf_put_string (w : amf_writer) (s : list Z) : option (rc * amf_writer) :=
  if (0xFFFF <? lenZ s) || negb (amf_room w (3 + lenZ s)) then Some (NGX_ERROR, w)
  else w ← amf_store w (AMF_STRING :: amf_put_u16 (lenZ s) ++ s); Some (NGX_OK, w).
Definition amf_put_null (w : amf_writer) : option (rc * amf_writer) :=
  if negb (amf_room w 1) then Some (NGX_ERROR, w)
  else w ← amf_store w [AMF_NULL]; Some (NGX_OK, w).

(** [ecma] is the hint of an ECMA array, [None] an object. *)
Definition amf_begin_object (w : amf_writer) (ecma : option Z) : option (rc * amf_writer) :=
  if negb (amf_room w (match ecma with Some _ => 5 | None => 1 end)) then Some (NGX_ERROR, w)
  else
    w ← amf_store w (match ecma with
                     | Some hint =>
                         AMF_ECMA_ARRAY :: amf_put_u16 (Z.land (Z.shiftr hint 16) 0xFFFF)
                         ++ amf_put_u16 (Z.land hint 0xFFFF)
                     | None => [AMF_OBJECT]
                     end);
    Some (NGX_OK, w <| aw_objects ::= λ n, n ⊕ 1 |>).
Definition amf_end_object (w : amf_writer) : option (rc * amf_writer) :=
  if (aw_objects w =? 0) || negb (amf_room w 3) then Some (NGX_ERROR, w)
  else
    w ← amf_store w [0; 0; AMF_OBJECT_END];
    Some (NGX_OK, w <| aw_objects ::= λ n, n ⊖ 1 |>).

(** The name of a member, and then its value. *)
Definition amf_put_name (w : amf_writer) (name : list Z) : option (rc * amf_writer) :=
  if (0xFFFF <? lenZ name) || negb (amf_room w (2 + lenZ name)) then Some (NGX_ERROR, w)
  else w ← amf_store w (amf_put_u16 (lenZ name) ++ name); Some (NGX_OK, w).
Definition amf_put_member (put : amf_writer → option (rc * amf_writer)) (w : amf_writer)
    (name : list Z) : option (rc * amf_writer) :=
  '(r, w) ← amf_put_name w name;
  if bool_decide (r = NGX_OK) then put w else Some (r, w).
Definition amf_put_member_string (w : amf_writer) (name s : list Z) : option (rc * amf_writer) :=
  amf_put_member (λ w, amf_put_string w s) w name.
Definition amf_put_member_number (w : amf_writer) (name : list Z) (v : Z) : option (rc * amf_writer) :=
  amf_put_member (λ w, amf_put_number w v) w name.
Definition amf_put_member_boolean (w : amf_writer) (name : list Z) (v : Z) : option (rc * amf_writer) :=
  amf_put_member (λ w, amf_put_boolean w v) w name.

(** ** Any bytes *)

Definition str_in (n : nat) (s : amf_str) : Prop :=
  match s with Some (off, len) => (off + len ≤ n)%nat | None => True end.
Definition member_in (n : nat) (m : amf_member_t) : Prop :=
  str_in n (am_name m) ∧ str_in n (am_string m).
(** Every string of [v] lies in a message of [n] bytes, and the members fit their array. *)
Definition value_in (n : nat) (v : amf_value) : Prop :=
  str_in n (av_string v) ∧ Forall (member_in n) (av_members v) ∧
  (length (av_members v) ≤ AMF_MAX_MEMBERS)%nat.

(** The reader answers, inside the message; a value it accepts is at least a byte of the
    [len] there are. *)
Definition answers (n len : nat) (x : option scalar_answer) : Prop :=
  ∃ r v k, x = Some (r, v, k) ∧ value_in n v ∧ (r = NGX_OK → (1 ≤ k ≤ len)%nat).

Lemma answers_intro n len r v k :
  value_in n v → (r = NGX_OK → (1 ≤ k ≤ len)%nat) → answers n len (Some (r, v, k)).
Proof. intros. by exists r, v, k. Qed.

Lemma object_end_some d pos :
  ∃ b, object_end d pos = Some b ∧ (b = true → (pos + 3 ≤ length d)%nat).
Proof.
  unfold object_end. destruct (Nat.leb_spec (pos + 3) (length d)); [|by eexists].
  destruct (lookup_some d pos) as [a ->]; [lia|].
  destruct (lookup_some d (pos + 1)) as [b ->]; [lia|].
  destruct (lookup_some d (pos + 2)) as [c ->]; [lia|]. by eexists.
Qed.

Lemma value_in_set n v (t x b : Z) : value_in n v →
  value_in n (v <| av_type := t |>) ∧ value_in n (v <| av_type := t |> <| av_number := x |>) ∧
  value_in n (v <| av_type := t |> <| av_boolean := b |>).
Proof. done. Qed.

Lemma read_scalar_answers n d base type out :
  value_in n out → (base + length d ≤ n)%nat → (1 ≤ length d)%nat →
  ∃ a, amf_read_scalar d base type out = Some a ∧
    match a with Some _ => answers n (length d) a | None => True end.
Proof.
  intros Hv Hn Hd. destruct (value_in_set n out type 0 0 Hv) as (Ht & _ & _). unfold amf_read_scalar.
  destruct (type =? AMF_NUMBER).
  { destruct (Nat.ltb_spec (length d) 9); [eexists; split; [done|by apply answers_intro]|].
    unfold amf_get_double. rewrite bytes_at_some by lia. cbn [mbind option_bind].
    eexists. split; [done|]. apply answers_intro; [by apply value_in_set|lia]. }
  destruct (type =? AMF_BOOLEAN).
  { destruct (Nat.ltb_spec (length d) 2); [eexists; split; [done|by apply answers_intro]|].
    destruct (lookup_some d 1) as [b ->]; [lia|]. cbn [mbind option_bind].
    eexists. split; [done|]. apply answers_intro; [by apply value_in_set|lia]. }
  destruct (type =? AMF_STRING).
  { destruct (Nat.ltb_spec (length d) 3); [eexists; split; [done|by apply answers_intro]|].
    destruct (u16_at_some d 1) as [l ->]; [lia|]. cbn [mbind option_bind]. cbv zeta.
    destruct (Nat.ltb_spec (length d) (3 + Z.to_nat l)); eexists; (split; [done|]);
      apply answers_intro; [done|done| |lia].
    destruct Hv as (_ & ? & ?). split_and!; [unfold str_in; cbn; lia|done..]. }
  destruct (_ || _); [|by eexists].
  eexists. split; [done|]. by apply answers_intro; [|lia].
Qed.

(** The reader on [fuel] answers on every input the fuel pays for. *)
Definition value_total (fuel n : nat) : Prop := ∀ d base out c record nesting,
  value_in n out → (base + length d ≤ n)%nat → (2 * length d < fuel)%nat →
  answers n (length d) (amf_read_value fuel d base out c record nesting).
Definition skip_total (fuel n : nat) : Prop := ∀ d base pos depth out nesting,
  value_in n out → (base + length d ≤ n)%nat → (1 ≤ pos ≤ length d)%nat →
  (2 * (length d - pos) + 1 < fuel)%nat →
  answers n (length d) (amf_skip_members fuel d base pos depth out nesting).
Definition record_total (fuel n : nat) : Prop := ∀ d base pos out nesting,
  value_in n out → (base + length d ≤ n)%nat → (1 ≤ pos ≤ length d)%nat →
  (2 * (length d - pos) + 1 < fuel)%nat →
  answers n (length d) (amf_record_members fuel d base pos out nesting).

Lemma value_total_step fuel n :
  skip_total fuel n → record_total fuel n → value_total (S fuel) n.
Proof.
  intros Hskip Hrec d base out c record nesting Hv Hn Hf. cbn [amf_read_value].
  destruct d as [|type d']; [by apply answers_intro|]. set (d := type :: d') in *.
  assert (1 ≤ length d)%nat as Hd by (cbn; lia).
  destruct (read_scalar_answers n d base type out Hv Hn Hd) as (a & -> & Ha). cbn [mbind option_bind].
  destruct a as [a|]; [done|]. destruct (negb _); [by apply answers_intro|].
  destruct (_ <? _); [by apply answers_intro|]. cbv zeta. set (out' := out <| av_type := _ |>).
  assert (value_in n out') as Hv' by done.
  destruct (is_array type) eqn:E; cbn [andb].
  - destruct (Nat.ltb_spec (length d) 5); [by apply answers_intro|].
    destruct record; [apply Hrec|apply Hskip]; (done || lia).
  - destruct record; [apply Hrec|apply Hskip]; (done || lia).
Qed.

Lemma members_in n v m :
  value_in n v → member_in n m →
  value_in n (if (length (av_members v) <? AMF_MAX_MEMBERS)%nat
              then v <| av_members ::= λ l, l ++ [m] |> else v).
Proof.
  intros (Hs & Hm & Hl) Hin. destruct (Nat.ltb_spec (length (av_members v)) AMF_MAX_MEMBERS); [|done].
  split_and!; [done|cbn; apply Forall_app; by split; [|constructor]|cbn; rewrite length_app; cbn; lia].
Qed.

Lemma skip_total_step fuel n :
  value_total fuel n → skip_total fuel n → skip_total (S fuel) n.
Proof.
  intros Hval Hskip d base pos depth out nesting Hv Hn Hp Hf. cbn [amf_skip_members].
  destruct (Nat.ltb_spec pos (length d)) as [Hlt|Hge]; [|by apply answers_intro].
  destruct (object_end_some d pos) as (stop & -> & Hstop). cbn [mbind option_bind].
  destruct stop; [apply answers_intro; [done|specialize (Hstop eq_refl); lia]|].
  destruct (Nat.ltb_spec (length d) (pos + 2)); [by apply answers_intro|].
  destruct (u16_at_some d pos) as [l ->]; [lia|]. cbn [mbind option_bind]. cbv zeta.
  set (next := (pos + 2 + Z.to_nat l)%nat). destruct (Nat.ltb_spec (length d) next); [by apply answers_intro|].
  destruct (Hval (drop next d) (base + next)%nat out O false (nesting + 1))
    as (r & out' & used & -> & Hv' & Hk); [done|rewrite length_drop; lia|rewrite length_drop; lia|].
  rewrite length_drop in Hk. cbn [mbind option_bind].
  case_bool_decide as Hr; cbn [negb]; [|by apply answers_intro]. specialize (Hk Hr).
  destruct (1024 <? S depth)%nat; [by apply answers_intro|]. apply Hskip; (done || lia).
Qed.

Lemma record_total_step fuel n :
  value_total fuel n → record_total fuel n → record_total (S fuel) n.
Proof.
  intros Hval Hrec d base pos out nesting Hv Hn Hp Hf. cbn [amf_record_members].
  destruct (Nat.leb_spec (length d) pos) as [Hge|Hlt]; [by apply answers_intro|].
  destruct (object_end_some d pos) as (stop & -> & Hstop). cbn [mbind option_bind].
  destruct stop; [apply answers_intro; [done|specialize (Hstop eq_refl); lia]|].
  destruct (Nat.ltb_spec (length d) (pos + 2)); [by apply answers_intro|].
  destruct (u16_at_some d pos) as [l ->]; [lia|]. cbn [mbind option_bind]. cbv zeta.
  set (next := (pos + 2 + Z.to_nat l)%nat). destruct (Nat.leb_spec (length d) next); [by apply answers_intro|].
  destruct (Hval (drop next d) (base + next)%nat amf_zero O false (nesting + 1))
    as (r & m & used & -> & (Hms & _) & Hk);
    [by repeat constructor; cbn; lia|rewrite length_drop; lia|rewrite length_drop; lia|].
  rewrite length_drop in Hk. cbn [mbind option_bind].
  case_bool_decide as Hr; cbn [negb]; [|by apply answers_intro]. specialize (Hk Hr).
  apply Hrec; [|lia..]. apply members_in; [done|]. split; [unfold str_in; cbn; lia|done].
Qed.

Lemma reader_total fuel n : value_total fuel n ∧ skip_total fuel n ∧ record_total fuel n.
Proof.
  induction fuel as [|fuel (Hv & Hs & Hr)]; [by split_and!; intros ?; intros; lia|].
  split_and!; [by apply value_total_step|by apply skip_total_step|by apply record_total_step].
Qed.

(** C19: the AMF0 reader survives any message. Whatever bytes are left of a message and
    wherever they start, reading a value never leaves them and ends; every string and every
    member name it hands out lies inside the message, at most 24 members are recorded, and
    an accepted value took between one byte and all of them. *)
Theorem amf_read_any_bytes d base :
  ∃ r v k, amf_read d base = Some (r, v, k) ∧ value_in (base + length d) v ∧
    (r = NGX_OK → (1 ≤ k ≤ length d)%nat).
Proof.
  destruct (reader_total (S (2 * length d)) (base + length d)) as (Hval & _).
  apply Hval; [|lia..]. by repeat constructor; cbn; lia.
Qed.

(** ** The writer within its buffer *)

(** The calls of a client. *)
Inductive amf_call :=
  | CNumber (v : Z) | CBoolean (v : Z) | CString (s : list Z) | CNull
  | CBegin (ecma : option Z) | CEnd
  | CMemberString (name s : list Z) | CMemberNumber (name : list Z) (v : Z)
  | CMemberBoolean (name : list Z) (v : Z).

Definition amf_do (w : amf_writer) (c : amf_call) : option (rc * amf_writer) :=
  match c with
  | CNumber v => amf_put_number w v
  | CBoolean v => amf_put_boolean w v
  | CString s => amf_put_string w s
  | CNull => amf_put_null w
  | CBegin ecma => amf_begin_object w ecma
  | CEnd => amf_end_object w
  | CMemberString name s => amf_put_member_string w name s
  | CMemberNumber name v => amf_put_member_number w name v
  | CMemberBoolean name v => amf_put_member_boolean w name v
  end.
Fixpoint amf_run (w : amf_writer) (cs : list amf_call) : option (list rc * amf_writer) :=
  match cs with
  | [] => Some ([], w)
  | c :: cs => '(r, w) ← amf_do w c; '(rs, w) ← amf_run w cs; Some (r :: rs, w)
  end.

(** The bytes a call stores when it succeeds. *)
Definition string_bytes (s : list Z) : list Z := amf_put_u16 (lenZ s) ++ s.
Definition call_bytes (c : amf_call) : list Z :=
  match c with
  | CNumber v => AMF_NUMBER :: amf_put_double v
  | CBoolean v => [AMF_BOOLEAN; if v =? 0 then 0 else 1]
  | CString s => AMF_STRING :: string_bytes s
  | CNull => [AMF_NULL]
  | CBegin (Some hint) => AMF_ECMA_ARRAY :: amf_put_u16 (Z.land (Z.shiftr hint 16) 0xFFFF)
                          ++ amf_put_u16 (Z.land hint 0xFFFF)
  | CBegin None => [AMF_OBJECT]
  | CEnd => [0; 0; AMF_OBJECT_END]
  | CMemberString name s => string_bytes name ++ AMF_STRING :: string_bytes s
  | CMemberNumber name v => string_bytes name ++ AMF_NUMBER :: amf_put_double v
  | CMemberBoolean name v => string_bytes name ++ [AMF_BOOLEAN; if v =? 0 then 0 else 1]
  end.

Record aw_ok (w : amf_writer) : Prop := {
  awo_room : 0 ≤ aw_len w ≤ aw_capacity w;
  awo_data : aw_capacity w ≤ lenZ (aw_data w) < 2 ^ 63;
  awo_open : 0 ≤ aw_objects w ≤ aw_len w }.

Definition written (w : amf_writer) : list Z := take (Z.to_nat (aw_len w)) (aw_data w).

(** The writer went on: what was written stays, and nothing behind the capacity changes. *)
Definition wrote (w w' : amf_writer) : Prop :=
  aw_ok w' ∧ aw_capacity w' = aw_capacity w ∧ length (aw_data w') = length (aw_data w) ∧
  drop (Z.to_nat (aw_capacity w)) (aw_data w') = drop (Z.to_nat (aw_capacity w)) (aw_data w) ∧
  written w `prefix_of` written w'.

Lemma wrote_refl w : aw_ok w → wrote w w.
Proof. intros. unfold wrote. by split_and!. Qed.
Lemma wrote_trans a b c : wrote a b → wrote b c → wrote a c.
Proof.
  intros (_ & Hc1 & Hl1 & Hd1 & Hp1) (Hok & Hc2 & Hl2 & Hd2 & Hp2).
  rewrite Hc1 in Hd2. split_and!; [done|congruence..|by etrans].
Qed.

Lemma amf_store_ok w b :
  aw_ok w → aw_len w + lenZ b ≤ aw_capacity w →
  ∃ w', amf_store w b = Some w' ∧ wrote w w' ∧ written w' = written w ++ b ∧
    aw_len w' = aw_len w + lenZ b ∧ aw_objects w' = aw_objects w.
Proof.
  intros [Hr Hd Ho] Hb. unfold amf_store. pose proof (lenZ_nonneg b) as Hn. unfold lenZ in Hd, Hb, Hn.
  rewrite (proj2 (Nat.leb_le _ _)) by lia. eexists. split; [done|].
  set (n := Z.to_nat (aw_len w)).
  assert (aw_len w ⊕ lenZ b = aw_len w + lenZ b) as Hl by (apply u64_small; unfold lenZ; lia).
  assert (take (n + length b) (take n (aw_data w) ++ b ++ drop (n + length b) (aw_data w))
          = take n (aw_data w) ++ b) as Ht.
  { rewrite app_assoc. apply take_app_length'. rewrite length_app, length_take. lia. }
  assert (written (w <| aw_data := take n (aw_data w) ++ b ++ drop (n + length b) (aw_data w) |>
                     <| aw_len := aw_len w ⊕ lenZ b |>) = written w ++ b) as Hw.
  { unfold written. cbn [aw_data aw_len setf]. rewrite Hl. fold n. rewrite <- Ht. f_equal. unfold lenZ. lia. }
  rewrite Hw. split_and!; [|done|by rewrite Hl|done].
  assert (length (take n (aw_data w) ++ b ++ drop (n + length b) (aw_data w)) = length (aw_data w)) as Hlen.
  { rewrite !length_app, length_take, length_drop. lia. }
  unfold wrote. rewrite Hw. split_and!; [|done|exact Hlen| |by eexists].
  - split; cbn [aw_data aw_len aw_capacity aw_objects setf]; rewrite ?Hl; unfold lenZ; rewrite ?Hlen; lia.
  - cbn [aw_data setf]. rewrite app_assoc, drop_app_ge; rewrite length_app, length_take; [|lia].
    rewrite drop_drop. f_equal. lia.
Qed.

(** A put that needs [lenZ b] bytes of room for [b]. *)
Lemma amf_put_ok w b :
  aw_ok w → lenZ b < 2 ^ 62 →
  if amf_room w (lenZ b) then
    ∃ w', amf_store w b = Some w' ∧ wrote w w' ∧ written w' = written w ++ b ∧
      aw_len w' = aw_len w + lenZ b ∧ aw_objects w' = aw_objects w
  else aw_capacity w < aw_len w + lenZ b.
Proof.
  intros Hw Hb. unfold amf_room. pose proof (awo_room _ Hw). pose proof (awo_data _ Hw).
  pose proof (lenZ_nonneg b). rewrite u64_small by lia.
  destruct (Z.leb_spec (aw_len w + lenZ b) (aw_capacity w)); [|done]. by apply amf_store_ok.
Qed.

(** What a call does: it answers; with room for its bytes [b], when [ok], it succeeds; and
    when it succeeds it has appended [b] and moved the object count by [d]. *)
Definition put_spec (w : amf_writer) (b : list Z) (ok : Prop) (d : Z)
    (x : option (rc * amf_writer)) : Prop :=
  ∃ r w', x = Some (r, w') ∧ wrote w w' ∧
    (aw_len w + lenZ b ≤ aw_capacity w → ok → r = NGX_OK) ∧
    (r = NGX_OK → written w' = written w ++ b ∧ aw_len w' = aw_len w + lenZ b ∧
                  aw_objects w' = aw_objects w + d).

Lemma put_simple w b need (bad : bool) :
  aw_ok w → need = lenZ b → (bad = false → lenZ b < 2 ^ 62) →
  put_spec w b (bad = false) 0
    (if bad || negb (amf_room w need) then Some (NGX_ERROR, w)
     else w ← amf_store w b; Some (NGX_OK, w)).
Proof.
  intros Hw -> Hb. destruct bad; cbn [orb].
  { exists NGX_ERROR, w. split_and!; [done|by apply wrote_refl|done|done]. }
  pose proof (amf_put_ok w b Hw (Hb eq_refl)) as Hput. destruct (amf_room w (lenZ b)); cbn [negb].
  - destruct Hput as (w' & -> & Hwr & Hwb & Hl & Ho). exists NGX_OK, w'.
    split_and!; [done|done|done|]. intros _. split_and!; [done|done|lia].
  - exists NGX_ERROR, w. split_and!; [done|by apply wrote_refl|lia|done].
Qed.

(** The object count alone changes. *)
Lemma wrote_objects w w' n :
  wrote w w' → 0 ≤ n ≤ aw_len w' → wrote w (w' <| aw_objects := n |>).
Proof. intros ([] & ?) Hn. split; [by split|done]. Qed.

Lemma put_begin w ecma :
  aw_ok w → put_spec w (call_bytes (CBegin ecma)) True 1 (amf_begin_object w ecma).
Proof.
  intros Hw. unfold amf_begin_object. set (b := call_bytes (CBegin ecma)).
  assert (lenZ b < 2 ^ 62 ∧ 1 ≤ lenZ b ∧ (match ecma with Some _ => 5 | None => 1 end) = lenZ b) as (Hb & H1 & ->).
  { by destruct ecma. }
  pose proof (amf_put_ok w b Hw Hb) as Hput. destruct (amf_room w (lenZ b)); cbn [negb].
  - destruct Hput as (w' & Hs & Hwr & Hwb & Hl & Ho).
    replace (amf_store w _) with (Some w') by (rewrite <- Hs; by destruct ecma). cbn [mbind option_bind].
    pose proof (awo_open _ Hw). pose proof (awo_room _ Hw). pose proof (awo_data _ Hw).
    pose proof Hwr as (Hw' & Hc & _). pose proof (awo_room _ Hw').
    assert (aw_objects w' ⊕ 1 = aw_objects w + 1) as Hn by (rewrite u64_small; lia).
    eexists NGX_OK, _. split; [done|]. split; [|split; [done|]].
    + apply (wrote_objects w w' (aw_objects w' ⊕ 1)); [done|]. lia.
    + intros _. split_and!; [exact Hwb|exact Hl|exact Hn].
  - exists NGX_ERROR, w. split_and!; [done|by apply wrote_refl|lia|done].
Qed.

Lemma put_end w :
  aw_ok w → put_spec w (call_bytes CEnd) (0 < aw_objects w) (-1) (amf_end_object w).
Proof.
  intros Hw. unfold amf_end_object. pose proof (awo_open _ Hw) as Hopen.
  destruct (Z.eqb_spec (aw_objects w) 0) as [E|Hne]; cbn [orb].
  { exists NGX_ERROR, w. split_and!; [done|by apply wrote_refl|lia|done]. }
  pose proof (amf_put_ok w [0; 0; AMF_OBJECT_END] Hw) as Hput. specialize (Hput ltac:(done)).
  change (lenZ [0; 0; AMF_OBJECT_END]) with 3 in Hput. destruct (amf_room w 3); cbn [negb].
  - destruct Hput as (w' & -> & Hwr & Hwb & Hl & Ho). cbn [mbind option_bind].
    pose proof (awo_room _ Hw). pose proof (awo_data _ Hw). pose proof Hwr as (Hw' & _).
    pose proof (awo_room _ Hw').
    assert (aw_objects w' ⊖ 1 = aw_objects w - 1) as Hn by (rewrite u64_small; lia).
    eexists NGX_OK, _. split; [done|]. split; [|split; [done|]].
    + apply (wrote_objects w w' (aw_objects w' ⊖ 1)); [done|]. lia.
    + intros _. split_and!; [exact Hwb|exact Hl|exact Hn].
  - exists NGX_ERROR, w. split_and!; [done|by apply wrote_refl|change (lenZ (call_bytes CEnd)) with 3; lia|done].
Qed.

Lemma put_member w name put b ok :
  aw_ok w → (∀ w, aw_ok w → put_spec w b ok 0 (put w)) →
  put_spec w (string_bytes name ++ b) (lenZ name ≤ 0xFFFF ∧ ok) 0 (amf_put_member put w name).
Proof.
  intros Hw Hput. unfold amf_put_member, amf_put_name. fold (string_bytes name).
  destruct (put_simple w (string_bytes name) (2 + lenZ name) (0xFFFF <? lenZ name))
    as (r & w1 & -> & Hw1 & Hok1 & Hb1); [done| |intros ?%Z.ltb_ge|].
  { unfold string_bytes. rewrite lenZ_app. done. }
  { unfold string_bytes. rewrite lenZ_app. change (lenZ (amf_put_u16 (lenZ name))) with 2. lia. }
  cbn [mbind option_bind]. pose proof (lenZ_nonneg b).
  case_bool_decide as Hr.
  - destruct (Hb1 Hr) as (Hwb & Hl & Ho). pose proof Hw1 as (Hok & Hc & _).
    destruct (Hput w1 Hok) as (r' & w2 & -> & Hw2 & Hok2 & Hb2). exists r', w2.
    split_and!; [done|by eapply wrote_trans| |].
    + rewrite lenZ_app. intros Hfit [_ Hp]. apply Hok2; [lia|done].
    + intros Hr'. destruct (Hb2 Hr') as (-> & -> & ->). rewrite Hwb, lenZ_app, <- app_assoc.
      split_and!; [done|lia..].
  - exists r, w1. split_and!; [done|done| |done]. rewrite lenZ_app. intros Hfit [Hs _].
    destruct Hr. apply Hok1; [lia|]. by apply Z.ltb_ge.
Qed.

(** Strings and names the format can carry. *)
Definition call_fits (w : amf_writer) (c : amf_call) : Prop :=
  match c with
  | CString s => lenZ s ≤ 0xFFFF
  | CMemberString name s => lenZ name ≤ 0xFFFF ∧ lenZ s ≤ 0xFFFF
  | CMemberNumber name _ | CMemberBoolean name _ => lenZ name ≤ 0xFFFF
  | CEnd => 0 < aw_objects w
  | _ => True
  end.
Definition call_opens (c : amf_call) : Z :=
  match c with CBegin _ => 1 | CEnd => -1 | _ => 0 end.

Lemma put_spec_ok w b (ok ok' : Prop) d x : (ok' → ok) → put_spec w b ok d x → put_spec w b ok' d x.
Proof. intros H (r & w' & ? & ? & ? & ?). exists r, w'. split_and!; [done..| |done]. auto. Qed.

Lemma put_number_ok w v :
  aw_ok w → put_spec w (AMF_NUMBER :: amf_put_double v) True 0 (amf_put_number w v).
Proof. intros. by eapply put_spec_ok; [|apply (put_simple w (AMF_NUMBER :: amf_put_double v) 9 false)]. Qed.
Lemma put_boolean_ok w v :
  aw_ok w → put_spec w [AMF_BOOLEAN; if v =? 0 then 0 else 1] True 0 (amf_put_boolean w v).
Proof. intros. by eapply put_spec_ok; [|apply (put_simple w [AMF_BOOLEAN; _] 2 false)]. Qed.
Lemma put_string_ok w s :
  aw_ok w → put_spec w (AMF_STRING :: string_bytes s) (lenZ s ≤ 0xFFFF) 0 (amf_put_string w s).
Proof.
  intros. assert (lenZ (AMF_STRING :: string_bytes s) = 3 + lenZ s) as Hl.
  { unfold string_bytes, lenZ. cbn [length app amf_put_u16]. lia. }
  eapply put_spec_ok; [|apply (put_simple w (AMF_STRING :: string_bytes s) (3 + lenZ s) (0xFFFF <? lenZ s))].
  - apply Z.ltb_ge.
  - done.
  - by rewrite Hl.
  - intros ?%Z.ltb_ge. lia.
Qed.

Lemma amf_do_ok w c :
  aw_ok w → put_spec w (call_bytes c) (call_fits w c) (call_opens c) (amf_do w c).
Proof.
  intros Hw. destruct c; cbn [amf_do call_bytes call_opens].
  - by apply put_number_ok.
  - by apply put_boolean_ok.
  - by apply put_string_ok.
  - by eapply put_spec_ok; [|apply (put_simple w [AMF_NULL] 1 false)].
  - by apply put_begin.
  - by apply put_end.
  - eapply put_spec_ok; [|apply put_member; [done|intros; by apply put_string_ok]]. done.
  - eapply put_spec_ok; [|apply put_member; [done|intros; by apply put_number_ok]]. done.
  - eapply put_spec_ok; [|apply put_member; [done|intros; by apply put_boolean_ok]]. done.
Qed.

Lemma amf_run_wrote cs : ∀ w, aw_ok w → ∃ rs w', amf_run w cs = Some (rs, w') ∧ wrote w w'.
Proof.
  induction cs as [|c cs IH]; intros w Hw; cbn [amf_run].
  { exists [], w. split; [done|by apply wrote_refl]. }
  destruct (amf_do_ok w c Hw) as (r & w1 & -> & Hw1 & _). cbn [mbind option_bind].
  destruct (IH w1 (proj1 Hw1)) as (rs & w2 & -> & Hw2). exists (r :: rs), w2.
  split; [done|by eapply wrote_trans].
Qed.

(** The AMF0 writer stays in its buffer. Whatever a client writes, in whatever order
    and however long the strings, every call answers and no byte behind the capacity
    changes; a call that does not fit is refused. What was written stays written, and the
    length never exceeds the capacity. *)
Theorem amf_writer_bounded cs1 cs2 data capacity :
  0 ≤ capacity ≤ lenZ data → lenZ data < 2 ^ 63 →
  ∃ rs1 w1 rs2 w2, amf_run (amf_writer_init data capacity) cs1 = Some (rs1, w1) ∧
    amf_run w1 cs2 = Some (rs2, w2) ∧ 0 ≤ aw_len w2 ≤ capacity ∧
    length (aw_data w2) = length data ∧
    drop (Z.to_nat capacity) (aw_data w2) = drop (Z.to_nat capacity) data ∧
    written w1 `prefix_of` written w2.
Proof.
  intros Hc Hd. assert (aw_ok (amf_writer_init data capacity)) as Hw by (split; cbn; lia).
  destruct (amf_run_wrote cs1 _ Hw) as (rs1 & w1 & H1 & Hw1).
  destruct (amf_run_wrote cs2 w1 (proj1 Hw1)) as (rs2 & w2 & H2 & Hw2).
  destruct (wrote_trans _ _ _ Hw1 Hw2) as (Hok & Hcap & Hlen & Hdrop & _).
  exists rs1, w1, rs2, w2. pose proof (awo_room _ Hok) as Hr. rewrite Hcap in Hr.
  split_and!; [done|done|apply Hr|apply Hr|done|done|apply Hw2].
Qed.
Lemma amf_writer_bounded_witness :
  ∃ rs1 w1 rs2 w2,
    amf_run (amf_writer_init (replicate 12 7) 10) [CString [99; 111]] = Some (rs1, w1) ∧
    amf_run w1 [CNumber 5; CNull] = Some (rs2, w2) ∧ 0 ≤ aw_len w2 ≤ 10.
Proof.
  destruct (amf_writer_bounded [CString [99; 111]] [CNumber 5; CNull] (replicate 12 7) 10)
    as (rs1 & w1 & rs2 & w2 & H1 & H2 & Hl & _); [by split|done|].
  exists rs1, w1, rs2, w2. split; [exact H1|]. split; [exact H2|exact Hl].
Defined.

(** ** Reading what was written *)

Inductive amf_scalar := ANumber (v : Z) | ABoolean (v : Z) | AString (s : list Z).
(** What the commands of the protocol are made of. *)
Inductive amf_item :=
  | IScalar (s : amf_scalar) | INull
  | IObject (ecma : option Z) (members : list (list Z * amf_scalar)).

Definition scalar_call (s : amf_scalar) : amf_call :=
  match s with ANumber v => CNumber v | ABoolean v => CBoolean v | AString s => CString s end.
Definition member_call (m : list Z * amf_scalar) : amf_call :=
  match m.2 with
  | ANumber v => CMemberNumber m.1 v
  | ABoolean v => CMemberBoolean m.1 v
  | AString s => CMemberString m.1 s
  end.
Definition item_calls (i : amf_item) : list amf_call :=
  match i with
  | IScalar s => [scalar_call s]
  | INull => [CNull]
  | IObject ecma ms => CBegin ecma :: (member_call <$> ms) ++ [CEnd]
  end.
Definition item_bytes (i : amf_item) : list Z := concat (call_bytes <$> item_calls i).

Definition scalar_ok (s : amf_scalar) : Prop :=
  match s with ANumber v => is_u64 v | ABoolean _ => True | AString s => lenZ s ≤ 0xFFFF end.
Definition member_ok (m : list Z * amf_scalar) : Prop := lenZ m.1 ≤ 0xFFFF ∧ scalar_ok m.2.
Definition item_ok (i : amf_item) : Prop :=
  match i with
  | IScalar s => scalar_ok s | INull => True | IObject _ ms => Forall member_ok ms
  end.

#[global] Instance scalar_ok_dec s : Decision (scalar_ok s).
Proof. destruct s; cbn; apply _. Defined.
#[global] Instance member_ok_dec m : Decision (member_ok m).
Proof. unfold member_ok. apply _. Defined.
#[global] Instance item_ok_dec i : Decision (item_ok i).
Proof. destruct i; cbn; apply _. Defined.

(** The message as the reader hands it out. *)
Definition scalar_type (s : amf_scalar) : Z :=
  match s with ANumber _ => AMF_NUMBER | ABoolean _ => AMF_BOOLEAN | AString _ => AMF_STRING end.
Definition shows_scalar (message : list Z) (type number boolean : Z) (string : amf_str)
    (s : amf_scalar) : Prop :=
  type = scalar_type s ∧
  match s with
  | ANumber v => number = v
  | ABoolean v => boolean = if v =? 0 then 0 else 1
  | AString s => str_bytes message string = Some s
  end.
Definition shows_member (message : list Z) (m : amf_member_t) (p : list Z * amf_scalar) : Prop :=
  str_bytes message (am_name m) = Some p.1 ∧
  shows_scalar message (am_type m) (am_number m) (am_boolean m) (am_string m) p.2.
Definition shows (message : list Z) (v : amf_value) (i : amf_item) : Prop :=
  match i with
  | IScalar s => shows_scalar message (av_type v) (av_number v) (av_boolean v) (av_string v) s
  | INull => av_type v = AMF_NULL
  | IObject ecma ms =>
      av_type v = match ecma with Some _ => AMF_ECMA_ARRAY | None => AMF_OBJECT end ∧
      Forall2 (shows_member message) (av_members v) (take AMF_MAX_MEMBERS ms)
  end.

(** *** Fields *)

Lemma u16_put v x : 0 ≤ v ≤ 0xFFFF → u16_at (amf_put_u16 v ++ x) 0 = Some v.
Proof. intros. unfold amf_put_u16. rewrite !land_ff. by apply (u16_be16 [] v x). Qed.

Lemma object_end_drop d pos l :
  drop pos d = l → (pos ≤ length d)%nat → object_end d pos = object_end l 0.
Proof.
  intros <- Hp. unfold object_end. rewrite !lookup_drop, length_drop, Nat.add_0_r.
  by destruct (Nat.leb_spec (pos + 3) (length d)), (Nat.leb_spec (0 + 3) (length d - pos)); try lia.
Qed.

(** One turn of the loop over the bytes of a double. *)
Lemma double_step v j :
  0 ≤ j → 0 ≤ v < 2 ^ 64 →
  Z.lor (u64 (Z.shiftl (v / 2 ^ (8 * (j + 1))) 8)) (Z.land (Z.shiftr v (8 * j)) 0xFF) = v / 2 ^ (8 * j).
Proof.
  intros Hj Hv. rewrite land_ff, shiftr_div, shiftl_mul by lia.
  replace (8 * (j + 1)) with (8 * j + 8) by lia. rewrite Z.pow_add_r, <- Z.div_div by lia.
  assert (0 ≤ v / 2 ^ (8 * j) < 2 ^ 64) as Hw.
  { split; [by apply Z.div_pos; lia|]. apply Z.div_lt_upper_bound; [lia|].
    assert (1 ≤ 2 ^ (8 * j)) by lia. nia. }
  set (w := v / 2 ^ (8 * j)) in *. pose proof (Z.div_mod w 256). pose proof (Z.mod_pos_bound w 256).
  change (2 ^ 8) with 256. rewrite u64_small by lia. rewrite (lor_add _ _ 8); try lia. apply (Z_mod_mult _ 256).
Qed.

Lemma double_put v t x : is_u64 v → amf_get_double (t :: amf_put_double v ++ x) 1 = Some v.
Proof.
  intros Hv. unfold amf_get_double.
  replace (bytes_at (t :: amf_put_double v ++ x) 1 8) with (Some (amf_put_double v)) by done.
  change (Some (foldl (λ bits b, Z.lor (u64 (Z.shiftl bits 8)) b) 0
    ((λ j, Z.land (Z.shiftr v (8 * j)) 0xFF) <$> [7; 6; 5; 4; 3; 2; 1; 0])) = Some v).
  cbn [fmap list_fmap foldl]. f_equal.
  assert (0 = v / 2 ^ (8 * (7 + 1))) as E by (symmetry; apply Z.div_small; exact Hv).
  pose proof (double_step v 7 ltac:(lia) Hv) as H7. rewrite <- E in H7. rewrite H7.
  pose proof (double_step v 6 ltac:(lia) Hv) as H6. change (6 + 1) with 7 in H6. rewrite H6.
  pose proof (double_step v 5 ltac:(lia) Hv) as H5. change (5 + 1) with 6 in H5. rewrite H5.
  pose proof (double_step v 4 ltac:(lia) Hv) as H4. change (4 + 1) with 5 in H4. rewrite H4.
  pose proof (double_step v 3 ltac:(lia) Hv) as H3. change (3 + 1) with 4 in H3. rewrite H3.
  pose proof (double_step v 2 ltac:(lia) Hv) as H2. change (2 + 1) with 3 in H2. rewrite H2.
  pose proof (double_step v 1 ltac:(lia) Hv) as H1. change (1 + 1) with 2 in H1. rewrite H1.
  pose proof (double_step v 0 ltac:(lia) Hv) as H0. change (0 + 1) with 1 in H0. rewrite H0.
  apply Z.div_1_r.
Qed.

(** *** Values *)

Definition scalar_bytes (s : amf_scalar) : list Z := call_bytes (scalar_call s).
Definition member_bytes (m : list Z * amf_scalar) : list Z := call_bytes (member_call m).

Lemma member_bytes_split m : member_bytes m = string_bytes m.1 ++ scalar_bytes m.2.
Proof. by destruct m as [n []]. Qed.
Lemma length_string_bytes s : length (string_bytes s) = (2 + length s)%nat.
Proof. done. Qed.

(** The value a scalar at offset [base] is read into. *)
Definition scalar_into (base : nat) (s : amf_scalar) (out : amf_value) : amf_value :=
  let out := out <| av_type := scalar_type s |> in
  match s with
  | ANumber v => out <| av_number := v |>
  | ABoolean v => out <| av_boolean := if v =? 0 then 0 else 1 |>
  | AString s => out <| av_string := Some ((base + 3)%nat, length s) |>
  end.

Lemma read_scalar s base out x c record nesting fuel :
  scalar_ok s →
  amf_read_value (S fuel) (scalar_bytes s ++ x) base out c record nesting
    = Some (NGX_OK, scalar_into base s out, length (scalar_bytes s)).
Proof.
  intros Hs. unfold scalar_bytes.
  destruct s as [v|v|s]; cbn [scalar_call call_bytes amf_read_value app]; unfold amf_read_scalar.
  - rewrite double_put by exact Hs. done.
  - cbn. by destruct (v =? 0).
  - cbn in Hs. set (d := AMF_STRING :: string_bytes s ++ x).
    assert (u16_at d 1 = Some (lenZ s)) as Hu.
    { change 1%nat with (1 + 0)%nat. rewrite (u16_drop d 1 0 (string_bytes s ++ x) eq_refl). unfold string_bytes.
      rewrite <- app_assoc. apply u16_put. pose proof (lenZ_nonneg s). lia. }
    assert (length d = 3 + length s + length x)%nat as Hd by (unfold d; cbn; rewrite length_app; lia).
    change (AMF_STRING =? AMF_NUMBER) with false. change (AMF_STRING =? AMF_BOOLEAN) with false.
    change (AMF_STRING =? AMF_STRING) with true. cbv iota.
    rewrite (proj2 (Nat.ltb_ge (length d) 3)) by lia. rewrite Hu. cbn [mbind option_bind]. cbv zeta.
    unfold lenZ. rewrite Nat2Z.id. rewrite (proj2 (Nat.ltb_ge (length d) (3 + length s))) by lia. cbn [mbind option_bind].
    done.
Qed.

Lemma scalar_shown message pre s post out :
  message = pre ++ scalar_bytes s ++ post →
  let v := scalar_into (length pre) s out in
  shows_scalar message (av_type v) (av_number v) (av_boolean v) (av_string v) s.
Proof.
  intros ->. destruct s as [v|v|s]; cbn; (split; [done|]); [done..|].
  apply (bytes_at_mid _ _ (pre ++ AMF_STRING :: amf_put_u16 (lenZ s)) s post).
  - by rewrite <- !app_assoc.
  - rewrite length_app. done.
Qed.

(** The members of an object that starts at [off]. *)
Definition member_at (off : nat) (m : list Z * amf_scalar) : amf_member_t :=
  let v := scalar_into (off + 2 + length m.1) m.2 amf_zero in
  mk_member (Some ((off + 2)%nat, length m.1)) (av_type v) (av_number v) (av_boolean v) (av_string v).
Fixpoint recorded (off : nat) (ms : list (list Z * amf_scalar)) : list amf_member_t :=
  match ms with
  | [] => []
  | m :: ms => member_at off m :: recorded (off + length (member_bytes m)) ms
  end.
Definition add_members (l k : list amf_member_t) : list amf_member_t :=
  l ++ take (AMF_MAX_MEMBERS - length l) k.

Lemma member_shown message pre m post :
  message = pre ++ member_bytes m ++ post → shows_member message (member_at (length pre) m) m.
Proof.
  intros E. rewrite member_bytes_split in E. split.
  - apply (bytes_at_mid _ _ (pre ++ amf_put_u16 (lenZ m.1)) m.1 (scalar_bytes m.2 ++ post)).
    + rewrite E. unfold string_bytes. by rewrite <- !app_assoc.
    + rewrite length_app. done.
  - replace (length pre + 2 + length m.1)%nat with (length (pre ++ string_bytes m.1))
      by (rewrite length_app, length_string_bytes; lia).
    cbn [member_at am_type am_number am_boolean am_string]. unfold member_at.
    replace (length pre + 2 + length m.1)%nat with (length (pre ++ string_bytes m.1))
      by (rewrite length_app, length_string_bytes; lia).
    apply (scalar_shown _ _ _ post). rewrite E. by rewrite <- !app_assoc.
Qed.

Lemma members_shown ms : ∀ message pre post,
  message = pre ++ concat (member_bytes <$> ms) ++ post →
  Forall2 (shows_member message) (recorded (length pre) ms) ms.
Proof.
  induction ms as [|m ms IH]; intros message pre post E; [constructor|].
  cbn [fmap list_fmap concat] in E. rewrite <- app_assoc in E. constructor.
  - by eapply member_shown.
  - fold (recorded (length pre + length (member_bytes m)) ms). rewrite <- length_app.
    apply (IH _ _ post). rewrite E. by rewrite <- app_assoc.
Qed.

Lemma add_members_cons l m k :
  add_members (if (length l <? AMF_MAX_MEMBERS)%nat then l ++ [m] else l) k = add_members l (m :: k).
Proof.
  unfold add_members. destruct (Nat.ltb_spec (length l) AMF_MAX_MEMBERS).
  - rewrite length_app. cbn [length].
    replace (AMF_MAX_MEMBERS - length l)%nat with (S (AMF_MAX_MEMBERS - (length l + 1))) by lia.
    cbn [take]. by rewrite <- app_assoc.
  - replace (AMF_MAX_MEMBERS - length l)%nat with O by lia. by rewrite !take_0.
Qed.

(** A member is not the terminator: no type is 9. *)
Lemma object_end_member m x : member_ok m → object_end (member_bytes m ++ x) 0 = Some false.
Proof.
  intros [Hn _]. rewrite member_bytes_split. destruct m as [[|b name] s]; cbn [fst snd] in *.
  - by destruct s.
  - unfold object_end. change (0 + 3 <=? _)%nat with true. cbv iota.
    change (Some ((Z.land (Z.shiftr (lenZ (b :: name)) 8) 0xFF =? 0)
      && (Z.land (lenZ (b :: name)) 0xFF =? 0) && (b =? AMF_OBJECT_END)) = Some false).
    rewrite !land_ff, shiftr_div by done.
    assert (1 ≤ lenZ (b :: name)) by (unfold lenZ; cbn; lia).
    set (n := lenZ (b :: name)) in *. pose proof (Z.div_mod n 256). change (2 ^ 8) with 256.
    assert (n / 256 < 256) by (apply Z.div_lt_upper_bound; lia). assert (0 ≤ n / 256) by (apply Z.div_pos; lia).
    destruct (Z.eqb_spec ((n / 256) mod 256) 0) as [E|]; [|done].
    rewrite Z.mod_small in E by lia. destruct (Z.eqb_spec (n mod 256) 0); [lia|done].
Qed.

Lemma record_members ms : ∀ fuel d base pos out nesting x,
  Forall member_ok ms → drop pos d = concat (member_bytes <$> ms) ++ [0; 0; AMF_OBJECT_END] ++ x →
  (2 * (length d - pos) + 1 < fuel)%nat →
  ∃ v, amf_record_members fuel d base pos out nesting
         = Some (NGX_OK, v, (pos + length (concat (member_bytes <$> ms)) + 3)%nat) ∧
    av_type v = av_type out ∧
    av_members v = add_members (av_members out) (recorded (base + pos) ms).
Proof.
  induction ms as [|m ms IH]; intros fuel d base pos out nesting x Hok Hd Hf;
    (destruct fuel as [|fuel]; [lia|]); cbn [amf_record_members fmap list_fmap concat] in *;
    pose proof (f_equal length Hd) as Hlen; rewrite length_drop, !length_app in Hlen; cbn [length] in Hlen;
    rewrite (proj2 (Nat.leb_gt _ _)) by lia.
  - rewrite (object_end_drop d pos _ Hd) by lia. cbn. eexists. split; [f_equal; f_equal; lia|].
    split; [done|]. unfold add_members. by rewrite take_nil, app_nil_r.
  - apply Forall_cons in Hok as [Hm Hok]. rewrite <- app_assoc in Hd.
    rewrite (object_end_drop d pos _ Hd), object_end_member by (done || lia). cbn [mbind option_bind].
    rewrite member_bytes_split, length_app, length_string_bytes in Hlen.
    assert (1 ≤ length (scalar_bytes m.2))%nat as Hs1 by (destruct m.2; cbn; lia).
    rewrite (proj2 (Nat.ltb_ge _ _)) by lia. destruct Hm as [Hn Hs].
    assert (u16_at d pos = Some (lenZ m.1)) as ->.
    { replace pos with (pos + 0)%nat by lia. rewrite (u16_drop d pos 0 _ Hd), member_bytes_split.
      unfold string_bytes. rewrite <- !app_assoc. apply u16_put. pose proof (lenZ_nonneg m.1). lia. }
    cbn [mbind option_bind]. cbv zeta. unfold lenZ. rewrite Nat2Z.id.
    rewrite (proj2 (Nat.leb_gt _ (pos + 2 + _))) by lia.
    assert (drop (pos + 2 + length m.1) d
      = scalar_bytes m.2 ++ concat (member_bytes <$> ms) ++ [0; 0; AMF_OBJECT_END] ++ x) as ->.
    { rewrite <- (drop_drop _ (2 + length m.1) pos) || replace (pos + 2 + length m.1)%nat with (pos + (2 + length m.1))%nat by lia.
      rewrite <- drop_drop, Hd, member_bytes_split, <- app_assoc.
      rewrite <- length_string_bytes. by rewrite drop_app_length. }
    destruct fuel as [|fuel]; [lia|]. rewrite read_scalar by done. cbn [mbind option_bind].
    rewrite bool_decide_true by done. cbn [negb].
    set (out' := if (_ <? _)%nat then _ else _).
    destruct (IH (S fuel) d base (pos + 2 + length m.1 + length (scalar_bytes m.2))%nat out' nesting x)
      as (v & Hv & Ht & Hms); [done| |lia|].
    { replace (pos + 2 + length m.1 + length (scalar_bytes m.2))%nat with (pos + length (member_bytes m))%nat
        by (rewrite member_bytes_split, length_app, length_string_bytes; lia).
      by rewrite <- drop_drop, Hd, drop_app_length. }
    exists v. rewrite Hv. split; [|split].
    + do 2 f_equal. rewrite !length_app, member_bytes_split, length_app, length_string_bytes. lia.
    + rewrite Ht. unfold out'. by destruct (_ <? _)%nat.
    + rewrite Hms. cbn [recorded]. rewrite <- add_members_cons.
      replace (base + (pos + 2 + length m.1 + length (scalar_bytes m.2)))%nat
        with (base + pos + length (member_bytes m))%nat
        by (rewrite member_bytes_split, length_app, length_string_bytes; lia).
      f_equal. unfold out', member_at.
      replace (base + (pos + 2 + length m.1))%nat with (base + pos + 2 + length m.1)%nat by lia.
      by destruct (_ <? _)%nat.
Qed.

(** An item read back from where it was written. *)
Lemma read_item i pre x :
  item_ok i → ∃ v, amf_read (item_bytes i ++ x) (length pre) = Some (NGX_OK, v, length (item_bytes i)) ∧
    shows (pre ++ item_bytes i ++ x) v i.
Proof.
  intros Hok. unfold amf_read. destruct i as [s| |ecma ms]; unfold item_bytes.
  - cbn [item_calls fmap list_fmap concat]. rewrite app_nil_r. fold (scalar_bytes s).
    eexists. split; [by apply read_scalar|]. by apply (scalar_shown _ pre s x).
  - by eexists.
  - set (b := call_bytes (CBegin ecma)). set (mb := concat (member_bytes <$> ms)).
    assert (concat (call_bytes <$> item_calls (IObject ecma ms)) = b ++ mb ++ [0; 0; AMF_OBJECT_END]) as ->.
    { cbn [item_calls fmap list_fmap concat]. fold b. f_equal.
      rewrite fmap_app, concat_app. f_equal. unfold mb. by rewrite <- list_fmap_compose. }
    rewrite <- !app_assoc. set (d := b ++ mb ++ [0; 0; AMF_OBJECT_END] ++ x).
    set (out := amf_zero <| av_type := match ecma with Some _ => AMF_ECMA_ARRAY | None => AMF_OBJECT end |>).
    destruct (record_members ms (2 * length d) d (length pre) (length b) out 1 x)
      as (v & Hv & Ht & Hms); [done|unfold d; by rewrite drop_app_length| |].
    { unfold d. rewrite length_app. assert (1 ≤ length b)%nat by (destruct ecma; cbn; lia). cbn [app length].
      rewrite !length_app. cbn [length]. lia. }
    exists v. split.
    + assert (∀ fuel, amf_read_value (S fuel) d (length pre) amf_zero 0 true 1
                = amf_record_members fuel d (length pre) (length b) out 1) as -> by by destruct ecma.
      rewrite Hv. fold mb. do 2 f_equal. rewrite !length_app. cbn [length]. lia.
    + split; [rewrite Ht; by destruct ecma|]. rewrite Hms. cbn [add_members app].
      apply Forall2_take. rewrite <- length_app.
      apply (members_shown ms _ (pre ++ b) ([0; 0; AMF_OBJECT_END] ++ x)).
      unfold d. by rewrite <- app_assoc.
Qed.

(** Values read one behind the other, as the handlers of a command do. *)
Fixpoint amf_reads (n : nat) (d : list Z) (base : nat) : option (list amf_value) :=
  match n with
  | O => Some []
  | S n =>
      '(r, v, k) ← amf_read d base;
      if bool_decide (r = NGX_OK) then vs ← amf_reads n (drop k d) (base + k); Some (v :: vs)
      else None
  end.

Lemma reads_items its : ∀ pre x,
  Forall item_ok its →
  ∃ vs, amf_reads (length its) (concat (item_bytes <$> its) ++ x) (length pre) = Some vs ∧
    Forall2 (shows (pre ++ concat (item_bytes <$> its) ++ x)) vs its.
Proof.
  induction its as [|i its IH]; intros pre x Hok; cbn [length amf_reads fmap list_fmap concat].
  { exists []. by split. }
  apply Forall_cons in Hok as [Hi Hok]. rewrite <- app_assoc.
  destruct (read_item i pre (concat (item_bytes <$> its) ++ x) Hi) as (v & -> & Hv).
  cbn [mbind option_bind]. rewrite bool_decide_true by done. rewrite drop_app_length, <- length_app.
  destruct (IH (pre ++ item_bytes i) x Hok) as (vs & -> & Hvs). exists (v :: vs). split; [done|].
  constructor; [done|]. by rewrite <- app_assoc in Hvs.
Qed.

(** Calls that fit succeed and append their bytes. *)
Lemma amf_run_app cs cs' w rs w1 :
  amf_run w cs = Some (rs, w1) →
  amf_run w (cs ++ cs') = '(rs', w2) ← amf_run w1 cs'; Some (rs ++ rs', w2).
Proof.
  revert w rs. induction cs as [|c cs IH]; intros w rs; cbn [amf_run app].
  { intros [= <- <-]. by destruct (amf_run w cs') as [[]|]. }
  destruct (amf_do w c) as [[r w']|]; [|done]. cbn [mbind option_bind].
  destruct (amf_run w' cs) as [[rs' w'']|] eqn:E; [|done]. intros [= <- <-].
  rewrite (IH w' rs' E). by destruct (amf_run w'' cs') as [[]|].
Qed.

Definition emits (w : amf_writer) (cs : list amf_call) (w' : amf_writer) : Prop :=
  amf_run w cs = Some (replicate (length cs) NGX_OK, w') ∧ wrote w w' ∧
  written w' = written w ++ concat (call_bytes <$> cs) ∧
  aw_len w' = aw_len w + lenZ (concat (call_bytes <$> cs)).

Lemma emits_app w cs cs' w1 w2 : emits w cs w1 → emits w1 cs' w2 → emits w (cs ++ cs') w2.
Proof.
  intros (H1 & Hw1 & Hb1 & Hl1) (H2 & Hw2 & Hb2 & Hl2). split; [|split; [by eapply wrote_trans|split]].
  - rewrite (amf_run_app cs cs' _ _ _ H1), H2. cbn. by rewrite length_app, replicate_add.
  - by rewrite Hb2, Hb1, fmap_app, concat_app, <- app_assoc.
  - rewrite Hl2, Hl1, fmap_app, concat_app, lenZ_app. lia.
Qed.

Lemma emits_one w c :
  aw_ok w → call_fits w c → aw_len w + lenZ (call_bytes c) ≤ aw_capacity w →
  ∃ w', emits w [c] w' ∧ aw_objects w' = aw_objects w + call_opens c.
Proof.
  intros Hw Hfit Hroom. destruct (amf_do_ok w c Hw) as (r & w' & Hdo & Hw' & Hok & Hb).
  specialize (Hok Hroom Hfit). destruct (Hb Hok) as (Hwb & Hl & Ho). exists w'. split; [|done].
  unfold emits. cbn [amf_run fmap list_fmap concat]. rewrite Hdo, app_nil_r, Hok. by split_and!.
Qed.

Lemma emits_members ms : ∀ w,
  aw_ok w → Forall member_ok ms →
  aw_len w + lenZ (concat (call_bytes <$> (member_call <$> ms))) ≤ aw_capacity w →
  ∃ w', emits w (member_call <$> ms) w' ∧ aw_objects w' = aw_objects w.
Proof.
  induction ms as [|m ms IH]; intros w Hw Hok Hroom; cbn [fmap list_fmap concat] in *.
  { exists w. split; [|done]. split; [done|]. split; [by apply wrote_refl|]. cbn. rewrite app_nil_r. split; [done|]. change (lenZ []) with 0. lia. }
  apply Forall_cons in Hok as [Hm Hok]. rewrite lenZ_app in Hroom.
  pose proof (lenZ_nonneg (concat (call_bytes <$> (member_call <$> ms)))).
  destruct (emits_one w (member_call m) Hw) as (w1 & Hr1 & Ho1); [|lia|].
  { destruct m as [n [v|v|s]], Hm; cbn in *; done. }
  pose proof Hr1 as (_ & (Hw1 & Hc1 & _) & _ & Hl1). cbn [fmap list_fmap concat] in Hl1.
  rewrite app_nil_r in Hl1.
  destruct (IH w1) as (w2 & Hr2 & Ho2); [done|done|rewrite Hl1, Hc1; lia|].
  exists w2. split; [by apply (emits_app w [member_call m] _ w1 w2)|].
  rewrite Ho2, Ho1. destruct m as [n []]; cbn; lia.
Qed.

Lemma emits_item w i :
  aw_ok w → item_ok i → aw_len w + lenZ (item_bytes i) ≤ aw_capacity w →
  ∃ w', emits w (item_calls i) w'.
Proof.
  intros Hw Hok Hroom. destruct i as [s| |ecma ms]; unfold item_bytes in Hroom; cbn [item_calls] in *.
  - cbn [fmap list_fmap concat] in Hroom. rewrite app_nil_r in Hroom.
    destruct (emits_one w (scalar_call s) Hw) as (w' & Hr & _); [by destruct s|done|by exists w'].
  - destruct (emits_one w CNull Hw) as (w' & Hr & _); [done|done|by exists w'].
  - change (CBegin ecma :: (member_call <$> ms) ++ [CEnd]) with ([CBegin ecma] ++ (member_call <$> ms) ++ [CEnd]) in *.
    rewrite !fmap_app, !concat_app, !lenZ_app in Hroom.
    pose proof (lenZ_nonneg (concat (call_bytes <$> (member_call <$> ms)))).
    change (lenZ (concat (call_bytes <$> [CEnd]))) with 3 in Hroom.
    pose proof (awo_open _ Hw).
    destruct (emits_one w (CBegin ecma) Hw) as (w1 & Hr1 & Ho1); [done| |].
    { cbn [fmap list_fmap concat] in Hroom. rewrite app_nil_r in Hroom. lia. }
    pose proof Hr1 as (_ & (Hw1 & Hc1 & _) & _ & Hl1).
    destruct (emits_members ms w1 Hw1 Hok) as (w2 & Hr2 & Ho2); [lia|].
    pose proof Hr2 as (_ & (Hw2 & Hc2 & _) & _ & Hl2).
    destruct (emits_one w2 CEnd Hw2) as (w3 & Hr3 & _).
    { cbn [call_fits call_opens] in *. lia. }
    { change (lenZ (call_bytes CEnd)) with 3. lia. }
    exists w3. eapply emits_app; [exact Hr1|]. by eapply emits_app.
Qed.

Lemma emits_items its : ∀ w,
  aw_ok w → Forall item_ok its → aw_len w + lenZ (concat (item_bytes <$> its)) ≤ aw_capacity w →
  ∃ w', emits w (concat (item_calls <$> its)) w' ∧
        concat (call_bytes <$> concat (item_calls <$> its)) = concat (item_bytes <$> its).
Proof.
  induction its as [|i its IH]; intros w Hw Hok Hroom; cbn [fmap list_fmap concat] in *.
  { exists w. split; [|done]. split; [done|]. split; [by apply wrote_refl|]. cbn. rewrite app_nil_r. split; [done|]. change (lenZ []) with 0. lia. }
  apply Forall_cons in Hok as [Hi Hok]. rewrite lenZ_app in Hroom.
  pose proof (lenZ_nonneg (concat (item_bytes <$> its))).
  destruct (emits_item w i Hw Hi) as (w1 & Hr1); [lia|].
  pose proof Hr1 as (_ & (Hw1 & Hc1 & _) & _ & Hl1). change (concat (call_bytes <$> item_calls i)) with (item_bytes i) in Hl1.
  destruct (IH w1 Hw1 Hok) as (w2 & Hr2 & E); [lia|]. exists w2. split; [by eapply emits_app|].
  by rewrite fmap_app, concat_app, E.
Qed.

(** *** Lookups *)

Fixpoint first_named (name : list Z) (ms : list (list Z * amf_scalar)) : option amf_scalar :=
  match ms with
  | [] => None
  | m :: ms => if bool_decide (m.1 = name) then Some m.2 else first_named name ms
  end.

Lemma find_shown message name l ms :
  Forall2 (shows_member message) l ms →
  ∃ o, amf_find message name l = Some o ∧
    match first_named name ms, o with
    | Some s, Some m => shows_scalar message (am_type m) (am_number m) (am_boolean m) (am_string m) s
    | None, None => True
    | _, _ => False
    end.
Proof.
  induction 1 as [|m p l ms [Hn Hs] _ (o & IH & Ho)]; cbn [amf_find first_named]; [by exists None|].
  assert (name_is message name m = Some (bool_decide (p.1 = name))) as ->.
  { unfold name_is, str_bytes in *. destruct (am_name m) as [[off n]|]; [|done]. cbn in Hn.
    pose proof (bytes_at_length _ _ _ _ Hn) as Hl. destruct (Nat.eqb_spec n (length name)) as [E|Hne].
    - by rewrite Hn.
    - rewrite bool_decide_false; [done|]. intros <-. by destruct Hne. }
  cbn [mbind option_bind]. case_bool_decide; [by exists (Some m)|]. by exists o.
Qed.

(** What a client finds in an object it reads. *)
Definition finds (message : list Z) (v : amf_value) (ms : list (list Z * amf_scalar)) : Prop :=
  ∀ name,
    (∀ x, amf_member_number message (Some v) name x
       = Some (match first_named name ms with
               | Some (ANumber n) => (NGX_OK, n)
               | _ => (NGX_ERROR, x)
               end)) ∧
    ∃ o, amf_member message (Some v) name = Some o ∧
      match first_named name ms with
      | Some (AString s) => ∃ str, o = Some str ∧ str_bytes message str = Some s
      | Some _ => o ≠ None
      | None => o = None
      end.

Lemma object_finds message v ecma ms :
  shows message v (IObject ecma ms) → finds message v (take AMF_MAX_MEMBERS ms).
Proof.
  intros [Ht Hms] name. destruct (find_shown message name _ _ Hms) as (o & Ho & Hshow).
  unfold amf_member_number, amf_member. rewrite Ho. split.
  - intros x. cbn [mbind option_bind]. destruct (first_named _ _) as [s|], o as [m|]; try done.
    destruct Hshow as [Hty Hs]. rewrite Hty. destruct s; try done. cbn in Hs. by subst.
  - replace (negb (av_type v =? AMF_OBJECT) && negb (av_type v =? AMF_ECMA_ARRAY)) with false
      by (rewrite Ht; by destruct ecma).
    eexists. split; [done|]. destruct (first_named _ _) as [s|], o as [m|]; try done.
    destruct Hshow as [_ Hs]. destruct s; [done..|]. by eexists.
Qed.

(** C18: what the AMF0 writer writes, the AMF0 reader reads. For any values - scalars, null
    and objects or arrays of scalars, with strings and names of at most 65535 bytes - that
    fit the buffer, every call of the writer succeeds, and reading as many values from what
    was written, whatever follows it, gives them back one after the other: the doubles bit
    for bit, the strings and names byte for byte, of an object its first 24 members in
    order. Looking a member up by name finds the first of that name. *)
Theorem amf_roundtrip its data capacity x :
  Forall item_ok its → 0 ≤ capacity ≤ lenZ data → lenZ data < 2 ^ 63 →
  lenZ (concat (item_bytes <$> its)) ≤ capacity →
  ∃ rs w vs, amf_run (amf_writer_init data capacity) (concat (item_calls <$> its)) = Some (rs, w) ∧
    Forall (λ r, r = NGX_OK) rs ∧
    amf_reads (length its) (written w ++ x) 0 = Some vs ∧
    Forall2 (shows (written w ++ x)) vs its ∧
    (∀ i v ecma ms, vs !! i = Some v → its !! i = Some (IObject ecma ms) →
       finds (written w ++ x) v (take AMF_MAX_MEMBERS ms)).
Proof.
  intros Hok Hc Hd Hfit. assert (aw_ok (amf_writer_init data capacity)) as Hw by (split; cbn; lia).
  destruct (emits_items its _ Hw Hok) as (w & (Hrun & _ & Hwb & _) & E); [exact Hfit|].
  rewrite E in Hwb. change (written (amf_writer_init data capacity)) with (@nil Z) in Hwb.
  destruct (reads_items its [] x Hok) as (vs & Hvs & Hsh). cbn [app length] in *.
  rewrite <- Hwb in Hvs, Hsh. eexists _, w, vs. split; [exact Hrun|]. split; [|split; [done|split; [done|]]].
  - apply Forall_forall. intros r Hr. by apply elem_of_replicate in Hr as [-> _].
  - intros i v ecma ms Hv Hi. eapply object_finds, Forall2_lookup_lr; [exact Hsh|exact Hv|exact Hi].
Qed.
(** A command: its name, its transaction and an object. *)
Definition ex_items : list amf_item :=
  [IScalar (AString [112; 108; 97; 121]); IScalar (ANumber 0x3FF0000000000000); INull;
   IObject None [([97], AString [98; 99]); ([100], ANumber 7); ([101], ABoolean 2)]].
Lemma amf_roundtrip_witness :
  ∃ rs w vs, amf_run (amf_writer_init (replicate 64 0) 64) (concat (item_calls <$> ex_items)) = Some (rs, w) ∧
    amf_reads 4 (written w ++ [1]) 0 = Some vs ∧ Forall2 (shows (written w ++ [1])) vs ex_items.
Proof.
  destruct (amf_roundtrip ex_items (replicate 64 0) 64 [1]) as (rs & w & vs & Hrun & _ & Hr & Hs & _).
  - apply (bool_decide_unpack _). reflexivity.
  - by split.
  - done.
  - done.
  - exists rs, w, vs. split; [exact Hrun|]. split; [exact Hr|exact Hs].
Defined.

(** ** Nesting *)

(** A null inside [n] objects. *)
Fixpoint nested (n : nat) : list Z :=
  match n with
  | O => [AMF_NULL]
  | S n => [AMF_OBJECT; 0; 0] ++ nested n ++ [0; 0; AMF_OBJECT_END]
  end.

(** Whether [n] aggregates fit when the outermost is at [nesting]. *)
Definition nest_verdict (nesting : Z) (n : nat) : rc :=
  if (n =? 0)%nat || (nesting + Z.of_nat n - 1 <=? AMF_MAX_DEPTH) then NGX_OK else NGX_ERROR.

Lemma nested_head n : ∃ b l, nested n = b :: l ∧ b ≠ AMF_OBJECT_END.
Proof. destruct n; cbn; by eexists _, _. Qed.

Lemma nested_facts n y :
  let d := nested (S n) ++ y in
  let rest := nested n ++ [0; 0; AMF_OBJECT_END] ++ y in
  d = AMF_OBJECT :: 0 :: 0 :: rest ∧ (5 ≤ length d)%nat ∧
  object_end d 1 = Some false ∧ object_end d (3 + length (nested n)) = Some true.
Proof.
  intros d rest. assert (d = AMF_OBJECT :: 0 :: 0 :: rest) as E.
  { unfold d, rest. cbn [nested app]. by rewrite <- app_assoc. }
  destruct (nested_head n) as (b & l & Hh & Hb).
  assert (5 ≤ length d)%nat as Hl.
  { rewrite E. unfold rest. rewrite Hh. cbn. rewrite length_app. cbn. lia. }
  split_and!; [done|done| |].
  - rewrite E. unfold rest. rewrite Hh. unfold object_end. cbn. by rewrite (proj2 (Z.eqb_neq _ _)).
  - rewrite (object_end_drop d _ ([0; 0; AMF_OBJECT_END] ++ y)); [done| |].
    + rewrite E. change (drop (length (nested n)) rest = [0; 0; AMF_OBJECT_END] ++ y).
      apply drop_app_length.
    + rewrite E. unfold rest. cbn [length]. rewrite length_app. lia.
Qed.

Lemma nest_verdict_S nesting n :
  nest_verdict nesting (S n)
    = if AMF_MAX_DEPTH <? nesting then NGX_ERROR else nest_verdict (nesting + 1) n.
Proof.
  unfold nest_verdict. cbn [Nat.eqb orb].
  destruct (Z.leb_spec (nesting + Z.of_nat (S n) - 1) AMF_MAX_DEPTH),
    (Z.ltb_spec AMF_MAX_DEPTH nesting), (Nat.eqb_spec n 0); cbn [orb]; try lia; try done;
    destruct (Z.leb_spec (nesting + 1 + Z.of_nat n - 1) AMF_MAX_DEPTH); (done || lia).
Qed.

Lemma skip_nested n : ∀ fuel y base out c nesting,
  (2 * length (nested n ++ y) < fuel)%nat →
  ∃ v k, amf_read_value fuel (nested n ++ y) base out c false nesting = Some (nest_verdict nesting n, v, k) ∧
    (nest_verdict nesting n = NGX_OK → k = length (nested n)).
Proof.
  induction n as [|n IH]; intros fuel y base out c nesting Hf; (destruct fuel as [|fuel]; [lia|]).
  { by eexists _, _. }
  destruct (nested_facts n y) as (E & Hl & He & Hend). set (d := nested (S n) ++ y) in *.
  set (rest := nested n ++ _) in *. rewrite nest_verdict_S.
  assert (amf_read_value (S fuel) d base out c false nesting
    = if AMF_MAX_DEPTH <? nesting then Some (NGX_ERROR, out, 1%nat)
      else amf_skip_members fuel d base 1 0 (out <| av_type := AMF_OBJECT |>) nesting) as -> by by rewrite E.
  destruct (AMF_MAX_DEPTH <? nesting); [by eexists _, _|].
  assert (length d = 3 + length rest)%nat as Hdl by by rewrite E.
  destruct fuel as [|fuel]; [lia|]. cbn [amf_skip_members].
  rewrite (proj2 (Nat.ltb_lt 1 _)), He by lia. cbn [mbind option_bind].
  rewrite (proj2 (Nat.ltb_ge (length d) (1 + 2))) by lia.
  assert (u16_at d 1 = Some 0) as -> by by rewrite E. cbn [mbind option_bind]. cbv zeta.
  change (1 + 2 + Z.to_nat 0)%nat with 3%nat. rewrite (proj2 (Nat.ltb_ge (length d) 3)) by lia.
  assert (drop 3 d = rest) as -> by by rewrite E.
  edestruct (IH fuel) as (v & k & Hv & Hk); [|unfold rest; rewrite Hv].
  { unfold rest in *. lia. }
  cbn [mbind option_bind]. case_bool_decide as Hok; cbn [negb]; [|by eexists _, _].
  change (1024 <? 1)%nat with false. rewrite (Hk Hok).
  destruct fuel as [|fuel]; [lia|]. cbn [amf_skip_members].
  assert (length rest = length (nested n) + 3 + length y)%nat as Hrl by (unfold rest; rewrite !length_app; cbn; lia).
  rewrite (proj2 (Nat.ltb_lt _ (length d))), Hend by lia. cbn [mbind option_bind].
  eexists _, _. split; [by rewrite Hok|]. intros _. cbn [nested]. rewrite !length_app. cbn [length]. lia.
Qed.

(** How deep a peer can make the reader recurse. A value inside [n] objects is read
    when [n] is at most 1024 - and then taken whole - and rejected as malformed, whatever
    follows it, when it is nested deeper. *)
Theorem amf_depth_bounded n y base :
  ∃ v k, amf_read (nested n ++ y) base
           = Some (if (n <=? 1024)%nat then NGX_OK else NGX_ERROR, v, k) ∧
    ((n ≤ 1024)%nat → k = length (nested n)).
Proof.
  destruct n as [|n]; [by eexists _, _|]. unfold amf_read.
  destruct (nested_facts n y) as (E & Hl & He & Hend). set (d := nested (S n) ++ y) in *.
  set (rest := nested n ++ _) in *. set (fuel := (2 * length d)%nat).
  assert (amf_read_value (S fuel) d base amf_zero 0 true 1
    = amf_record_members fuel d base 1 (amf_zero <| av_type := AMF_OBJECT |>) 1) as -> by by rewrite E.
  assert (length d = 3 + length rest)%nat as Hdl by by rewrite E.
  assert (length rest = length (nested n) + 3 + length y)%nat as Hrl by (unfold rest; rewrite !length_app; cbn; lia).
  destruct fuel as [|fuel0] eqn:Hfuel; [lia|]. cbn [amf_record_members].
  rewrite (proj2 (Nat.leb_gt (length d) 1)), He by lia. cbn [mbind option_bind].
  rewrite (proj2 (Nat.ltb_ge (length d) (1 + 2))) by lia.
  assert (u16_at d 1 = Some 0) as -> by by rewrite E. cbn [mbind option_bind]. cbv zeta.
  change (1 + 2 + Z.to_nat 0)%nat with 3%nat. rewrite (proj2 (Nat.leb_gt (length d) 3)) by lia.
  assert (drop 3 d = rest) as -> by by rewrite E.
  edestruct (skip_nested n fuel0) as (v & k & Hv & Hk); [|unfold rest; rewrite Hv].
  { unfold rest in *. lia. }
  assert (nest_verdict (1 + 1) n = if (S n <=? 1024)%nat then NGX_OK else NGX_ERROR) as Hver.
  { unfold nest_verdict, AMF_MAX_DEPTH. destruct (Nat.eqb_spec n 0) as [->|]; [done|]. cbn [orb].
    destruct (Z.leb_spec (1 + 1 + Z.of_nat n - 1) 1024), (Nat.leb_spec (S n) 1024); (done || lia). }
  rewrite Hver in *. cbn [mbind option_bind]. case_bool_decide as Hok; cbn [negb].
  2:{ eexists _, _. split; [done|]. intros Hn. by rewrite (proj2 (Nat.leb_le _ _)) in Hok. }
  rewrite (Hk Hok). destruct fuel0 as [|fuel1]; [lia|]. cbn [amf_record_members].
  rewrite (proj2 (Nat.leb_gt (length d) (3 + _))) by lia.
  match goal with |- context [object_end d ?p] => change p with (3 + length (nested n))%nat end.
  rewrite Hend. cbn [mbind option_bind].
  eexists _, _. split; [by rewrite Hok|]. intros _. cbn [nested]. rewrite !length_app. cbn [length]. lia.
Qed.

(** ** Two departures from the format *)

(** An object inside an object is recorded with the type and the value of its own last
    member, not as an object. *)
Lemma nested_object_type_lost :
  ∃ v, amf_read [3; 0; 1; 97; 3; 0; 1; 98; 1; 1; 0; 0; 9; 0; 0; 9] 0 = Some (NGX_OK, v, 16%nat) ∧
    (am_type <$> av_members v) = [AMF_BOOLEAN].
Proof. eexists. split; reflexivity. Qed.

(** A strict array - a count and that many values - is read as names and values: an array
    of one null is never complete. *)
Lemma strict_array_misread :
  ∃ v, amf_read [0x0A; 0; 0; 0; 1; 5] 0 = Some (NGX_AGAIN, v, 1%nat).
Proof. eexists. reflexivity. Qed.
