(* ===== verification/TsCrc.v ===== *)
(** * The MPEG-2 systems CRC

    Models mpegts/ngx_media_ts_crc.c, the checksum that guards PSI sections. *)
From S2P Require Import Prelude Bytes.

Definition CRC_POLY : Z := 0x04C11DB7.

(** One round of the inner loop. *)
Definition crc_bit (crc : Z) : Z :=
  if Z.testbit crc 31 then Z.lxor (u32 (Z.shiftl crc 1)) CRC_POLY else u32 (Z.shiftl crc 1).

Definition crc_byte (crc b : Z) : Z :=
  Nat.iter 8 crc_bit (Z.lxor crc (u32 (Z.shiftl b 24))).

Definition ts_crc32 (p : list Z) : Z := foldl crc_byte 0xFFFFFFFF p.

Definition is_u32 (x : Z) : Prop := 0 ≤ x < 2 ^ 32.

Lemma lxor_u32 a b : is_u32 a → is_u32 b → is_u32 (Z.lxor a b).
Proof.
  unfold is_u32. intros Ha Hb. assert (0 ≤ Z.lxor a b) by (apply Z.lxor_nonneg; lia).
  split; [done|]. replace (Z.lxor a b) with (Z.lxor a b mod 2 ^ 32); [by apply Z.mod_pos_bound|].
  rewrite <- Z.land_ones by done. apply Z.bits_inj'. intros i Hi.
  rewrite Z.land_spec, Z.testbit_ones_nonneg, Z.lxor_spec by lia. destruct (Z.ltb_spec i 32).
  - apply andb_true_r.
  - rewrite andb_false_r. symmetry.
    assert (∀ x, 0 ≤ x < 2 ^ 32 → Z.testbit x i = false) as Hx; [|by rewrite !Hx].
    intros x Hx. rewrite Z.testbit_false by lia. rewrite Z.div_small; [done|].
    pose proof (Z.pow_le_mono_r 2 32 i). lia.
Qed.

Lemma u32_range x : is_u32 (u32 x).
Proof. by apply Z.mod_pos_bound. Qed.

Lemma crc_bit_u32 c : is_u32 (crc_bit c).
Proof. unfold crc_bit. case_match; [apply lxor_u32; [apply u32_range|by vm_compute]|apply u32_range]. Qed.

Lemma crc_byte_u32 c b : is_u32 (crc_byte c b).
Proof. apply crc_bit_u32. Qed.

Lemma crc_state_u32 p c : is_u32 c → is_u32 (foldl crc_byte c p).
Proof. revert c. induction p; simpl; intros; [done|]. eauto using crc_byte_u32. Qed.

(** ** A section followed by its own checksum *)

Lemma crc_bit_low c : 0 ≤ c < 2 ^ 31 → crc_bit c = 2 * c.
Proof.
  intros Hc. unfold crc_bit. replace (Z.testbit c 31) with false.
  - rewrite Z.shiftl_mul_pow2 by done. unfold u32. rewrite Z.mod_small; lia.
  - symmetry. apply Z.testbit_false; [done|]. by rewrite Z.div_small.
Qed.

Lemma lxor_top x :
  is_u32 x → Z.lxor x (u32 (Z.shiftl (u8 (Z.shiftr x 24)) 24)) = x mod 2 ^ 24.
Proof.
  intros Hx. unfold is_u32 in Hx. assert (0 ≤ x / 2 ^ 24 < 2 ^ 8) as Hhi.
  { split; [apply Z.div_pos; lia|apply Z.div_lt_upper_bound; lia]. }
  rewrite shiftr_div by done. unfold u8. rewrite (Z.mod_small (x / 2 ^ 24)) by lia.
  unfold u32. rewrite Z.shiftl_mul_pow2 by done. rewrite Z.mod_small by lia.
  rewrite (Z.div_mod x (2 ^ 24)) at 1 by done. rewrite (Z.mul_comm (2 ^ 24)).
  rewrite <- lor_shift, <- Z.shiftl_mul_pow2 by (done || by apply Z.mod_pos_bound).
  apply Z.bits_inj'. intros i Hi. rewrite Z.lxor_spec, Z.lor_spec.
  destruct (Z.testbit (Z.shiftl (x / 2 ^ 24) 24) i) eqn:E; [|by rewrite orb_false_l, xorb_false_r].
  rewrite <- Z.land_ones by done. rewrite Z.land_spec, Z.testbit_ones_nonneg by lia.
  destruct (Z.ltb_spec i 24); [by rewrite Z.shiftl_spec_low in E|by rewrite andb_false_r].
Qed.

(** Feeding the top byte of the state shifts it out. *)
Lemma crc_byte_top x :
  is_u32 x → crc_byte x (u8 (Z.shiftr x 24)) = x mod 2 ^ 24 * 2 ^ 8.
Proof.
  intros Hx. unfold crc_byte. rewrite lxor_top by done.
  pose proof (Z.mod_pos_bound x (2 ^ 24)). cbn [Nat.iter nat_rect].
  rewrite !crc_bit_low by (repeat rewrite crc_bit_low; lia). lia.
Qed.

Lemma crc_bytes_self c : is_u32 c → foldl crc_byte c (be32 c) = 0.
Proof.
  intros Hc. pose proof Hc as Hc'. unfold is_u32 in Hc. cbn [foldl be32].
  rewrite (crc_byte_top c) by done. set (x1 := c mod 2 ^ 24 * 2 ^ 8).
  pose proof (Z.mod_pos_bound c (2 ^ 24) ltac:(done)).
  pose proof (Z.mod_pos_bound c (2 ^ 16) ltac:(done)).
  pose proof (Z.mod_pos_bound c (2 ^ 8) ltac:(done)).
  assert (u8 (Z.shiftr c 16) = u8 (Z.shiftr x1 24)) as ->.
  { unfold u8, x1. rewrite !shiftr_div by done. Z.to_euclidean_division_equations. lia. }
  rewrite (crc_byte_top x1) by (unfold is_u32, x1; lia). set (x2 := x1 mod 2 ^ 24 * 2 ^ 8).
  assert (x2 = c mod 2 ^ 16 * 2 ^ 16) as E2.
  { unfold x2, x1. Z.to_euclidean_division_equations. lia. }
  assert (u8 (Z.shiftr c 8) = u8 (Z.shiftr x2 24)) as ->.
  { unfold u8. rewrite E2, !shiftr_div by done. Z.to_euclidean_division_equations. lia. }
  rewrite (crc_byte_top x2) by (unfold is_u32; lia). set (x3 := x2 mod 2 ^ 24 * 2 ^ 8).
  assert (x3 = c mod 2 ^ 8 * 2 ^ 24) as E3.
  { unfold x3. rewrite E2. Z.to_euclidean_division_equations. lia. }
  assert (u8 c = u8 (Z.shiftr x3 24)) as ->.
  { unfold u8. rewrite E3, !shiftr_div by done. Z.to_euclidean_division_equations. lia. }
  rewrite (crc_byte_top x3) by (unfold is_u32; lia). rewrite E3.
  Z.to_euclidean_division_equations. lia.
Qed.

(** ** Every round is injective *)

Lemma crc_bit_inj a b : is_u32 a → is_u32 b → crc_bit a = crc_bit b → a = b.
Proof.
  assert (∀ x, Z.testbit (crc_bit x) 0 = Z.testbit x 31) as Hlow.
  { intros x. unfold crc_bit, u32. rewrite <- Z.land_ones by done.
    destruct (Z.testbit x 31); rewrite ?Z.lxor_spec, Z.land_spec, Z.shiftl_spec_low by done; done. }
  intros Ha Hb Heq. assert (Z.testbit a 31 = Z.testbit b 31) as Ht by (by rewrite <- !Hlow, Heq).
  assert (u32 (Z.shiftl a 1) = u32 (Z.shiftl b 1)) as Hs.
  { unfold crc_bit in Heq. rewrite Ht in Heq. destruct (Z.testbit b 31); [|done].
    apply (f_equal (λ x, Z.lxor x CRC_POLY)) in Heq.
    by rewrite !Z.lxor_assoc, Z.lxor_nilpotent, !Z.lxor_0_r in Heq. }
  apply (f_equal Z.b2z) in Ht. rewrite !Z.testbit_spec' in Ht by done.
  unfold u32, is_u32 in *. rewrite !Z.shiftl_mul_pow2 in Hs by done.
  Z.to_euclidean_division_equations. lia.
Qed.

Lemma crc_iter_inj n a b :
  is_u32 a → is_u32 b → Nat.iter n crc_bit a = Nat.iter n crc_bit b → a = b.
Proof.
  intros Ha Hb. induction n as [|n IH]; [done|]. cbn. intros Heq%crc_bit_inj; [by apply IH|..];
    (destruct n; [done|apply crc_bit_u32]).
Qed.

Lemma crc_byte_inj a b x y : is_u32 a → is_u32 b → is_byte x → is_byte y →
  crc_byte a x = crc_byte b y → Z.lxor a (Z.shiftl x 24) = Z.lxor b (Z.shiftl y 24).
Proof.
  unfold is_byte. intros Ha Hb Hx Hy Heq.
  assert (∀ z, 0 ≤ z < 256 → u32 (Z.shiftl z 24) = Z.shiftl z 24) as Hu.
  { intros z Hz. unfold u32. rewrite Z.shiftl_mul_pow2 by done. apply Z.mod_small. lia. }
  apply crc_iter_inj in Heq; [by rewrite !Hu in Heq| |];
    (apply lxor_u32; [done|apply u32_range]).
Qed.

Lemma crc_fold_inj p a b : bytes p → is_u32 a → is_u32 b →
  foldl crc_byte a p = foldl crc_byte b p → a = b.
Proof.
  intros Hp. revert a b. induction Hp as [|x p Hx Hp IH]; intros a b Ha Hb; [done|].
  cbn. intros Heq%IH; [|apply crc_byte_u32..]. apply crc_byte_inj in Heq; [|done..].
  apply (f_equal (λ z, Z.lxor z (Z.shiftl x 24))) in Heq.
  by rewrite !Z.lxor_assoc, Z.lxor_nilpotent, !Z.lxor_0_r in Heq.
Qed.

(** The CRC protects sections. A section followed by its own checksum always has
    checksum zero, which is the test the demuxer applies, and corrupting any single byte
    of a section - anywhere, in any way - changes its checksum, so a section corrupted in
    one byte, its stored checksum included, never passes. *)
Theorem crc_protects p pre x y post :
  bytes p → bytes (pre ++ [x] ++ post) → is_byte y → x ≠ y →
  ts_crc32 (p ++ be32 (ts_crc32 p)) = 0 ∧
  ts_crc32 (pre ++ [y] ++ post) ≠ ts_crc32 (pre ++ [x] ++ post) ∧
  (pre ++ [x] ++ post = p ++ be32 (ts_crc32 p) → ts_crc32 (pre ++ [y] ++ post) ≠ 0).
Proof.
  assert (∀ q, is_u32 (ts_crc32 q)) as Hu by (intros; by apply crc_state_u32).
  assert (ts_crc32 (p ++ be32 (ts_crc32 p)) = 0) as Hself.
  { unfold ts_crc32 at 1. rewrite foldl_app. apply crc_bytes_self, Hu. }
  intros Hp Hall Hy Hne. apply Forall_app in Hall as [_ Hall]. apply Forall_app in Hall as [Hx Hpost].
  apply (proj1 (Forall_singleton is_byte x)) in Hx.
  assert (ts_crc32 (pre ++ [y] ++ post) ≠ ts_crc32 (pre ++ [x] ++ post)) as Hdet.
  { unfold ts_crc32. rewrite !foldl_app. cbn [foldl]. intros Heq.
    apply crc_fold_inj in Heq; [|exact Hpost|apply crc_byte_u32..].
    apply crc_byte_inj in Heq; [|apply Hu|apply Hu|exact Hy|exact Hx].
    apply (f_equal (Z.lxor (foldl crc_byte 4294967295 pre))) in Heq.
    rewrite <- !Z.lxor_assoc, Z.lxor_nilpotent, !Z.lxor_0_l, !Z.shiftl_mul_pow2 in Heq by done. lia. }
  split_and!; [done|done|]. intros E Hz. apply Hdet. rewrite Hz, E. by rewrite Hself.
Qed.
Lemma crc_protects_witness :
  ts_crc32 [0; 176; 13; 0; 1; 193; 0; 0; 0; 1; 240; 0; 42; 177; 4; 178] = 0 ∧
  ts_crc32 [0; 176; 13; 0; 1; 193; 0; 0; 0; 1; 240; 0; 42; 177; 5; 178] ≠ 0.
Proof.
  destruct (crc_protects [0; 176; 13; 0; 1; 193; 0; 0; 0; 1; 240; 0]
    [0; 176; 13; 0; 1; 193; 0; 0; 0; 1; 240; 0; 42; 177] 4 5 [178]) as (H1 & _ & H3).
  - by apply (bool_decide_unpack _).
  - by apply (bool_decide_unpack _).
  - done.
  - done.
  - split; [exact H1|]. apply H3. vm_compute. reflexivity.
Defined.
