(* ===== verification/Aac.v ===== *)
(** * AAC framing

    Models codec/ngx_media_aac.c: parsing and writing ADTS headers and synthesising the
    AudioSpecificConfig.  A read is [p !! i] in the option monad, so an answer means
    that every byte read was inside the buffer. *)
From S2P Require Import Prelude Bytes.

Record adts := mk_adts {
  ad_frame_len : Z; ad_header_len : Z; ad_object_type : Z; ad_sample_rate : Z;
  ad_channels : Z }.
#[global] Instance eta_adts : Eta adts := λ r,
  mk_adts (ad_frame_len r) (ad_header_len r) (ad_object_type r) (ad_sample_rate r) (ad_channels r).

Definition ADTS_HEADER_MIN : Z := 7.

Definition aac_sample_rates : list Z :=
  [96000; 88200; 64000; 48000; 44100; 32000; 24000; 22050; 16000; 12000; 11025; 8000; 7350].

Definition adts_parse (p : list Z) (a : adts) : option (rc * adts) :=
  if lenZ p <? ADTS_HEADER_MIN then Some (NGX_ERROR, a)
  else
    b0 ← p !! 0%nat; b1 ← p !! 1%nat;
    if negb (b0 =? 0xFF) || negb (Z.land b1 0xF0 =? 0xF0) then Some (NGX_ERROR, a)
    else
      let protection_absent := Z.land b1 1 in
      let a := a <| ad_header_len := if protection_absent =? 0 then 9 else 7 |> in
      if lenZ p <? ad_header_len a then Some (NGX_ERROR, a)
      else
        b2 ← p !! 2%nat;
        let a := a <| ad_object_type := Z.land (Z.shiftr b2 6) 3 + 1 |> in
        let index := Z.land (Z.shiftr b2 2) 15 in
        if Z.of_nat (length aac_sample_rates) <=? index then Some (NGX_ERROR, a)
        else
          rate ← aac_sample_rates !! Z.to_nat index;
          let a := a <| ad_sample_rate := rate |> in
          b3 ← p !! 3%nat;
          let a := a <| ad_channels := Z.lor (Z.shiftl (Z.land b2 1) 2)
                                             (Z.land (Z.shiftr b3 6) 3) |> in
          if ad_channels a =? 0 then Some (NGX_ERROR, a)
          else
            b4 ← p !! 4%nat; b5 ← p !! 5%nat;
            let a := a <| ad_frame_len :=
              Z.lor (Z.lor (Z.shiftl (Z.land b3 3) 11) (Z.shiftl b4 3))
                    (Z.land (Z.shiftr b5 5) 7) |> in
            if ad_frame_len a <? ad_header_len a then Some (NGX_ERROR, a)
            else Some (NGX_OK, a).

(** The search for a rate's index; the table's length when it is missing. *)
Fixpoint rate_index (rates : list Z) (rate : Z) (i : Z) : Z :=
  match rates with
  | [] => i
  | r :: rates => if r =? rate then i else rate_index rates rate (i + 1)
  end.

(** [adts_audio_specific_config]: the two bytes written. *)
Definition adts_audio_specific_config (a : adts) (cap : Z) : rc * list Z :=
  if (cap <? 2) || (ad_sample_rate a =? 0) then (NGX_ERROR, [])
  else
    let index := rate_index aac_sample_rates (ad_sample_rate a) 0 in
    if index =? Z.of_nat (length aac_sample_rates) then (NGX_ERROR, [])
    else (NGX_OK,
      [u8 (Z.lor (Z.shiftl (Z.land (ad_object_type a) 0x1F) 3) (Z.land (Z.shiftr index 1) 7));
       u8 (Z.lor (Z.shiftl (Z.land index 1) 7) (Z.shiftl (Z.land (ad_channels a) 15) 3))]).

(** [adts_write]: the header bytes written. *)
Definition adts_write (a : adts) (cap : Z) : rc * list Z :=
  if (cap <? ADTS_HEADER_MIN) || (0x1FFF <? ad_frame_len a) || (ad_object_type a <? 1)
     || (4 <? ad_object_type a) || (ad_channels a <? 1) || (7 <? ad_channels a)
  then (NGX_ERROR, [])
  else
    let index := rate_index aac_sample_rates (ad_sample_rate a) 0 in
    if index =? Z.of_nat (length aac_sample_rates) then (NGX_ERROR, [])
    else (NGX_OK,
      [0xFF; 0xF1;
       u8 (Z.lor (Z.lor (Z.shiftl (ad_object_type a - 1) 6) (Z.shiftl index 2))
                 (Z.land (Z.shiftr (ad_channels a) 2) 1));
       u8 (Z.lor (Z.shiftl (Z.land (ad_channels a) 3) 6)
                 (Z.land (Z.shiftr (ad_frame_len a) 11) 3));
       u8 (Z.land (Z.shiftr (ad_frame_len a) 3) 0xFF);
       u8 (Z.lor (Z.shiftl (Z.land (ad_frame_len a) 7) 5) 0x1F);
       0xFC]).

(** ** Sampling rates *)

Lemma rate_index_spec rates rate i :
  let j := rate_index rates rate i in
  i ≤ j ≤ i + Z.of_nat (length rates) ∧
  (j < i + Z.of_nat (length rates) → rates !! Z.to_nat (j - i) = Some rate).
Proof.
  revert i. induction rates as [|r rates IH]; intros i; cbn [rate_index length]; [split; lia|].
  destruct (Z.eqb_spec r rate) as [->|].
  - split; [lia|]. intros _. by rewrite Z.sub_diag.
  - destruct (IH (i + 1)) as [H1 H2]. split; [lia|]. intros Hlt.
    replace (Z.to_nat (rate_index rates rate (i + 1) - i))
      with (S (Z.to_nat (rate_index rates rate (i + 1) - (i + 1)))) by lia.
    apply H2. lia.
Qed.

(** ** Bit fields of the header *)

Lemma byte2_fields o i c : 0 ≤ o < 4 → 0 ≤ i < 13 → 0 ≤ c < 8 →
  let b := u8 (Z.lor (Z.lor (Z.shiftl o 6) (Z.shiftl i 2)) (Z.land (Z.shiftr c 2) 1)) in
  Z.land (Z.shiftr b 6) 3 = o ∧ Z.land (Z.shiftr b 2) 15 = i ∧ Z.land b 1 = Z.land (Z.shiftr c 2) 1.
Proof.
  intros Ho Hi Hc b.
  pose proof (forall_below (λ o, forallb (λ i, forallb (λ c,
    let b := u8 (Z.lor (Z.lor (Z.shiftl o 6) (Z.shiftl i 2)) (Z.land (Z.shiftr c 2) 1)) in
    (Z.land (Z.shiftr b 6) 3 =? o) && (Z.land (Z.shiftr b 2) 15 =? i)
    && (Z.land b 1 =? Z.land (Z.shiftr c 2) 1)) (seqZ 0 8)) (seqZ 0 13)) 4
    ltac:(vm_compute; reflexivity) o Ho) as H1.
  pose proof (forall_below _ 13 H1 i Hi) as H2. pose proof (forall_below _ 8 H2 c Hc) as H3.
  cbv beta zeta in H3. rewrite !andb_true_iff, !Z.eqb_eq in H3. tauto.
Qed.

Lemma byte3_fields c h : 0 ≤ c < 8 → 0 ≤ h < 4 →
  let b := u8 (Z.lor (Z.shiftl (Z.land c 3) 6) h) in
  Z.lor (Z.shiftl (Z.land (Z.shiftr c 2) 1) 2) (Z.land (Z.shiftr b 6) 3) = c ∧ Z.land b 3 = h.
Proof.
  intros Hc Hh b.
  pose proof (pair_below (λ c h, let b := u8 (Z.lor (Z.shiftl (Z.land c 3) 6) h) in
    (Z.lor (Z.shiftl (Z.land (Z.shiftr c 2) 1) 2) (Z.land (Z.shiftr b 6) 3) =? c)
    && (Z.land b 3 =? h)) 8 4 ltac:(vm_compute; reflexivity) c h Hc Hh) as H.
  cbv beta zeta in H. rewrite andb_true_iff, !Z.eqb_eq in H. tauto.
Qed.

(** The thirteen bits of the frame length. *)
Lemma frame_len_fields n : 0 ≤ n < 2 ^ 13 →
  let b5 := u8 (Z.lor (Z.shiftl (Z.land n 7) 5) 0x1F) in
  Z.lor (Z.lor (Z.shiftl (Z.land (Z.shiftr n 11) 3) 11)
               (Z.shiftl (u8 (Z.land (Z.shiftr n 3) 0xFF)) 3)) (Z.land (Z.shiftr b5 5) 7) = n.
Proof.
  intros Hn b5.
  assert (Z.land (Z.shiftr b5 5) 7 = n mod 2 ^ 3) as ->.
  { unfold b5. change 7 with (2 ^ 3 - 1). rewrite (land_ones n) by done.
    set (m := n mod 2 ^ 3). assert (0 ≤ m < 8) as Hm by by apply Z.mod_pos_bound.
    pose proof (forall_below (λ m, Z.land (Z.shiftr (u8 (Z.lor (Z.shiftl m 5) 0x1F)) 5) 7 =? m) 8
      ltac:(vm_compute; reflexivity) m Hm) as H. by apply Z.eqb_eq in H. }
  change 3 with (2 ^ 2 - 1) at 1. change 0xFF with (2 ^ 8 - 1).
  rewrite !land_ones, !shiftr_div by done. unfold u8. rewrite Zmod_mod, <- Z.lor_assoc.
  rewrite (lor_shift _ (n mod 2 ^ 3)) by (done || by apply Z.mod_pos_bound).
  rewrite lor_shift by (done || (Z.to_euclidean_division_equations; lia)).
  Z.to_euclidean_division_equations. lia.
Qed.

(** ** Properties *)

(** The parser's reads and what it accepts. *)
Lemma adts_parse_spec p a :
  bytes p →
  ∃ r a', adts_parse p a = Some (r, a') ∧
    (r = NGX_OK →
       (ad_header_len a' = 7 ∨ ad_header_len a' = 9) ∧ ad_header_len a' ≤ lenZ p ∧
       ad_header_len a' ≤ ad_frame_len a' < 2 ^ 13 ∧ 1 ≤ ad_object_type a' ≤ 4 ∧
       1 ≤ ad_channels a' ≤ 7 ∧ ad_sample_rate a' ∈ aac_sample_rates).
Proof.
  intros Hp. unfold adts_parse. destruct (Z.ltb_spec (lenZ p) ADTS_HEADER_MIN) as [|Hlen];
    [by eexists _, _|].
  assert (∀ i, (i < 7)%nat → ∃ b, p !! i = Some b ∧ is_byte b) as Hb.
  { intros i Hi. unfold lenZ, ADTS_HEADER_MIN in Hlen.
    destruct (lookup_lt_is_Some_2 p i) as [b Hb]; [lia|]. eauto using bytes_lookup. }
  assert (∀ x k, 0 ≤ k → 0 ≤ Z.land x (2 ^ k - 1) < 2 ^ k) as Hland.
  { intros. rewrite land_ones by done. by apply Z.mod_pos_bound, Z.pow_pos_nonneg. }
  destruct (Hb 0%nat) as (b0 & -> & H0); [lia|]. cbn [mbind option_bind].
  destruct (Hb 1%nat) as (b1 & -> & H1); [lia|]. cbn [mbind option_bind].
  destruct (_ || _); [by eexists _, _|]. caseb; [by eexists _, _|].
  destruct (Hb 2%nat) as (b2 & -> & H2); [lia|]. cbn [mbind option_bind].
  destruct (Z.leb_spec (Z.of_nat (length aac_sample_rates)) (Z.land (Z.shiftr b2 2) 15)) as [|Hi];
    [by eexists _, _|].
  pose proof (Hland (Z.shiftr b2 2) 4 ltac:(done)) as Hi0. change (2 ^ 4 - 1) with 15 in Hi0.
  destruct (lookup_lt_is_Some_2 aac_sample_rates (Z.to_nat (Z.land (Z.shiftr b2 2) 15)))
    as [rate Hrate]; [lia|]. rewrite Hrate. cbn [mbind option_bind].
  destruct (Hb 3%nat) as (b3 & -> & H3); [lia|]. cbn [mbind option_bind].
  caseb; [by eexists _, _|].
  destruct (Hb 4%nat) as (b4 & -> & H4); [lia|]. cbn [mbind option_bind].
  destruct (Hb 5%nat) as (b5 & -> & H5); [lia|]. cbn [mbind option_bind].
  caseb; [by eexists _, _|]. eexists _, _. split; [done|]. intros _.
  cbn [setf ad_header_len ad_frame_len ad_object_type ad_channels ad_sample_rate] in *.
  pose proof (Hland b2 1 ltac:(done)). pose proof (Hland (Z.shiftr b3 6) 2 ltac:(done)).
  pose proof (Hland (Z.shiftr b2 6) 2 ltac:(done)). pose proof (Hland b3 2 ltac:(done)).
  pose proof (Hland (Z.shiftr b5 5) 3 ltac:(done)).
  change (2 ^ 1 - 1) with 1 in *. change (2 ^ 2 - 1) with 3 in *. change (2 ^ 3 - 1) with 7 in *.
  unfold is_byte in *. rewrite <- Z.lor_assoc in *. rewrite !lor_shift in * by (done || lia).
  remember (if Z.land b1 1 =? 0 then 9 else 7) as hl eqn:Ehl.
  assert (hl = 7 ∨ hl = 9) by (subst hl; caseb; auto).
  rewrite (lor_shift (Z.land b3 3)) in * by (rewrite ?lor_shift; lia).
  rewrite (lor_shift b4), (lor_shift (Z.land b2 1)) in * by lia.
  split_and!; try lia. by eapply list_elem_of_lookup_2.
Qed.

(** Parsing an ADTS header is safe on any bytes: it never reads outside the buffer,
    and a header it accepts describes a frame of 7 to 8191 bytes that is at least as long
    as its own header, with the header inside the buffer, a sampling rate of the table, an
    object type in 1..4 and between one and seven channels. *)
Theorem adts_parse_bounds p a :
  bytes p →
  ∃ r a', adts_parse p a = Some (r, a') ∧
    (r = NGX_OK →
       (ad_header_len a' = 7 ∨ ad_header_len a' = 9) ∧ ad_header_len a' ≤ lenZ p ∧
       ad_header_len a' ≤ ad_frame_len a' < 2 ^ 13 ∧ 1 ≤ ad_object_type a' ≤ 4 ∧
       1 ≤ ad_channels a' ≤ 7 ∧ ad_sample_rate a' ∈ aac_sample_rates).
Proof. apply adts_parse_spec. Qed.
Lemma adts_parse_bounds_witness :
  ∃ a', adts_parse [0xFF; 0xF1; 0x4C; 0x80; 0x01; 0x1F; 0xFC] (mk_adts 0 0 0 0 0) = Some (NGX_OK, a') ∧
    ad_header_len a' ≤ ad_frame_len a' < 2 ^ 13.
Proof.
  destruct (adts_parse_bounds [0xFF; 0xF1; 0x4C; 0x80; 0x01; 0x1F; 0xFC] (mk_adts 0 0 0 0 0))
    as (r & a' & Hp & Hok); [by apply (bool_decide_unpack _)|].
  assert (r = NGX_OK) as Hr by (vm_compute in Hp; congruence). rewrite Hr in Hp.
  exists a'. split; [exact Hp|]. apply (Hok Hr).
Defined.

Lemma asc_fields o i c : 0 ≤ o < 5 → 0 ≤ i < 13 → 0 ≤ c < 8 →
  let b0 := u8 (Z.lor (Z.shiftl (Z.land o 0x1F) 3) (Z.land (Z.shiftr i 1) 7)) in
  let b1 := u8 (Z.lor (Z.shiftl (Z.land i 1) 7) (Z.shiftl (Z.land c 15) 3)) in
  Z.shiftr b0 3 = o ∧ Z.lor (Z.shiftl (Z.land b0 7) 1) (Z.shiftr b1 7) = i ∧
  Z.land (Z.shiftr b1 3) 15 = c.
Proof.
  intros Ho Hi Hc b0 b1.
  pose proof (forall_below (λ o, forallb (λ i, forallb (λ c,
    let b0 := u8 (Z.lor (Z.shiftl (Z.land o 0x1F) 3) (Z.land (Z.shiftr i 1) 7)) in
    let b1 := u8 (Z.lor (Z.shiftl (Z.land i 1) 7) (Z.shiftl (Z.land c 15) 3)) in
    (Z.shiftr b0 3 =? o) && (Z.lor (Z.shiftl (Z.land b0 7) 1) (Z.shiftr b1 7) =? i)
    && (Z.land (Z.shiftr b1 3) 15 =? c)) (seqZ 0 8)) (seqZ 0 13)) 5
    ltac:(vm_compute; reflexivity) o Ho) as H1.
  pose proof (forall_below _ 13 H1 i Hi) as H2. pose proof (forall_below _ 8 H2 c Hc) as H3.
  cbv beta zeta in H3. rewrite !andb_true_iff, !Z.eqb_eq in H3. tauto.
Qed.

(** What a successful write knows of its descriptor. *)
Lemma adts_write_ok a cap hdr :
  adts_write a cap = (NGX_OK, hdr) →
  ad_frame_len a < 2 ^ 13 ∧ 1 ≤ ad_object_type a ≤ 4 ∧ 1 ≤ ad_channels a ≤ 7 ∧
  ∃ i, 0 ≤ i < 13 ∧ rate_index aac_sample_rates (ad_sample_rate a) 0 = i ∧
    aac_sample_rates !! Z.to_nat i = Some (ad_sample_rate a) ∧ ad_sample_rate a ≠ 0.
Proof.
  unfold adts_write. destruct (_ || _) eqn:Hg; [done|].
  rewrite !orb_false_iff, !Z.ltb_ge in Hg. destruct Hg as (((((? & ?) & ?) & ?) & ?) & ?).
  destruct (Z.eqb_spec (rate_index aac_sample_rates (ad_sample_rate a) 0)
    (Z.of_nat (length aac_sample_rates))) as [|Hne]; [done|]. intros _.
  destruct (rate_index_spec aac_sample_rates (ad_sample_rate a) 0) as [Hr Hl].
  cbv zeta in *. change (Z.of_nat (length aac_sample_rates)) with 13 in *.
  rewrite Z.add_0_l, Z.sub_0_r in *. specialize (Hl ltac:(lia)).
  split_and!; try lia. eexists. split_and!; [| |done|exact Hl|]; [lia|lia|].
  intros Hz. rewrite Hz in Hl. apply list_elem_of_lookup_2 in Hl. vm_compute in Hl. set_solver.
Qed.

(** The parser on a header with no CRC whose fields are known. *)
Lemma adts_parse_fields b2 b3 b4 b5 b6 rest a0 rate :
  aac_sample_rates !! Z.to_nat (Z.land (Z.shiftr b2 2) 15) = Some rate →
  let ch := Z.lor (Z.shiftl (Z.land b2 1) 2) (Z.land (Z.shiftr b3 6) 3) in
  let fl := Z.lor (Z.lor (Z.shiftl (Z.land b3 3) 11) (Z.shiftl b4 3)) (Z.land (Z.shiftr b5 5) 7) in
  ch ≠ 0 → 7 ≤ fl →
  adts_parse (0xFF :: 0xF1 :: b2 :: b3 :: b4 :: b5 :: b6 :: rest) a0
  = Some (NGX_OK, mk_adts fl 7 (Z.land (Z.shiftr b2 6) 3 + 1) rate ch).
Proof.
  intros Hrate ch fl Hch Hfl. unfold adts_parse, lenZ. cbn [length lookup list_lookup].
  pose proof (lookup_lt_Some _ _ _ Hrate) as Hlt.
  assert (0 ≤ Z.land (Z.shiftr b2 2) 15).
  { change 15 with (2 ^ 4 - 1). rewrite land_ones by done. by apply Z.mod_pos_bound. }
  rewrite (proj2 (Z.ltb_ge _ _)) by (unfold ADTS_HEADER_MIN; lia). cbn [mbind option_bind].
  change (negb (255 =? 255) || negb (Z.land 241 240 =? 240)) with false.
  change (if Z.land 241 1 =? 0 then 9 else 7) with 7. cbv iota zeta.
  rewrite (proj2 (Z.ltb_ge _ _)) by (cbn; lia).
  rewrite (proj2 (Z.leb_gt _ _)) by lia. rewrite Hrate. cbn [mbind option_bind].
  fold ch. change (ad_channels (setf ad_channels _ _)) with ch.
  rewrite (proj2 (Z.eqb_neq ch 0)) by done. fold fl.
  rewrite (proj2 (Z.ltb_ge _ _)) by exact Hfl. done.
Qed.

(** ADTS framing round-trips. A header [adts_write] produces, followed by anything,
    parses back to the descriptor it was written from, with a 7-byte header; and the
    AudioSpecificConfig synthesised from it carries, in the bit positions of ISO 14496-3,
    the object type, the index of the sampling rate and the channel configuration. *)
Theorem adts_roundtrip a cap hdr rest a0 :
  adts_write a cap = (NGX_OK, hdr) → 7 ≤ ad_frame_len a →
  length hdr = 7%nat ∧ bytes hdr ∧
  adts_parse (hdr ++ rest) a0 = Some (NGX_OK, a <| ad_header_len := 7 |>) ∧
  ∃ c0 c1 i, adts_audio_specific_config a 2 = (NGX_OK, [c0; c1]) ∧
    aac_sample_rates !! Z.to_nat i = Some (ad_sample_rate a) ∧
    Z.shiftr c0 3 = ad_object_type a ∧
    Z.lor (Z.shiftl (Z.land c0 7) 1) (Z.shiftr c1 7) = i ∧
    Z.land (Z.shiftr c1 3) 15 = ad_channels a.
Proof.
  intros Hw Hlen. destruct (adts_write_ok a cap hdr Hw) as (Hf & Ho & Hc & i & Hi & Hri & Hrate & Hnz).
  unfold adts_write in Hw. destruct (_ || _); [done|].
  unfold adts_audio_specific_config. rewrite (proj2 (Z.eqb_neq (ad_sample_rate a) 0) Hnz).
  rewrite Hri in *. change (Z.of_nat (length aac_sample_rates)) with 13 in *.
  rewrite (proj2 (Z.eqb_neq i 13)) in * by lia. injection Hw as <-.
  destruct (byte2_fields (ad_object_type a - 1) i (ad_channels a)) as (E1 & E2 & E3); [lia..|].
  destruct (byte3_fields (ad_channels a) (Z.land (Z.shiftr (ad_frame_len a) 11) 3)) as [E4 E5]; [lia| |].
  { change 3 with (2 ^ 2 - 1). rewrite land_ones by done. by apply Z.mod_pos_bound. }
  pose proof (frame_len_fields (ad_frame_len a) ltac:(lia)) as E6.
  destruct (asc_fields (ad_object_type a) i (ad_channels a)) as (E7 & E8 & E9); [lia..|].
  split_and!; [done|by repeat (constructor; [apply u8_range || done|])| |by eexists _, _, i].
  cbn [app]. set (b2 := u8 (Z.lor (Z.lor _ _) _)) in *. set (b3 := u8 (Z.lor _ (Z.land _ 3))) in *.
  set (b4 := u8 (Z.land _ 0xFF)) in *. set (b5 := u8 (Z.lor _ 0x1F)) in *.
  rewrite (adts_parse_fields _ _ _ _ _ _ _ (ad_sample_rate a)).
  - rewrite E3, E4, E5, E6, E1. destruct a. cbn. do 3 f_equal. lia.
  - by rewrite E2.
  - rewrite E3, E4. lia.
  - rewrite E5, E6. lia.
Qed.
Lemma adts_roundtrip_witness :
  let a := mk_adts 371 0 2 48000 2 in
  ∃ hdr, adts_write a 7 = (NGX_OK, hdr) ∧
    adts_parse (hdr ++ [1; 2; 3]) (mk_adts 0 0 0 0 0) = Some (NGX_OK, a <| ad_header_len := 7 |>).
Proof.
  intros a. eexists. split; [reflexivity|].
  apply (adts_roundtrip a 7); [reflexivity|]. cbn. lia.
Defined.
