(* ===== verification/Nal.v ===== *)
(** * Annex B NAL units

    Models codec/ngx_media_nal.[ch]: start-code search, the NAL unit iterator and the
    classification of NAL types.  A pointer is an offset into the buffer; reads are
    [d !! i] in the option monad, and a loop that ran out of fuel has no answer, so an
    answer means in-bounds reads and termination. *)
From S2P Require Import Prelude Bytes.

Definition CODEC_H264 : Z := 1.
Definition CODEC_H265 : Z := 2.
Definition CODEC_AAC : Z := 3.

(** The start code at or after [p], with its length. *)
Fixpoint nal_start_code (fuel : nat) (d : list Z) (p e : nat) : option (option (nat * nat)) :=
  match fuel with
  | O => None
  | S fuel =>
      if (e <? p + 3)%nat then Some None
      else
        b0 ← d !! p; b1 ← d !! (p + 1)%nat; b2 ← d !! (p + 2)%nat;
        four ← (if (b0 =? 0) && (b1 =? 0) && (b2 =? 0) && (p + 4 <=? e)%nat
                then b3 ← d !! (p + 3)%nat; Some (b3 =? 1) else Some false);
        if four : bool then Some (Some (p, 4%nat))
        else if (b0 =? 0) && (b1 =? 0) && (b2 =? 1) then Some (Some (p, 3%nat))
        else nal_start_code fuel d (p + 1) e
  end.

Record nal_iter := mk_iter { it_pos : nat; it_end : nat }.
Definition nal_iter_init (len : nat) : nal_iter := mk_iter 0 len.

(** [while (nal_end > nal_start && nal_end[-1] == 0) nal_end--], for
    [nal_end = nal_start + n]. *)
Fixpoint trim_zeros (d : list Z) (nal_start n : nat) : option nat :=
  match n with
  | O => Some nal_start
  | S n' => b ← d !! (nal_start + n')%nat;
            if b =? 0 then trim_zeros d nal_start n' else Some (nal_start + n)%nat
  end.

(** The next NAL unit as (offset, length). *)
Fixpoint nal_iter_next (fuel : nat) (d : list Z) (it : nal_iter)
    : option (nal_iter * option (nat * nat)) :=
  match fuel with
  | O => None
  | S fuel =>
      let e := it_end it in
      if (e <=? it_pos it)%nat then Some (it, None)
      else
        r ← nal_start_code (S e) d (it_pos it) e;
        match r with
        | None => Some (mk_iter e e, None)
        | Some (sc, sc_len) =>
            let nal_start := (sc + sc_len)%nat in
            next ← nal_start_code (S e) d nal_start e;
            let nal_end := match next with Some (q, _) => q | None => e end in
            nal_end' ← trim_zeros d nal_start (nal_end - nal_start);
            if (nal_start <? nal_end')%nat
            then Some (mk_iter nal_end e, Some (nal_start, (nal_end' - nal_start)%nat))
            else nal_iter_next fuel d (mk_iter nal_end e)
        end
  end.

(** A caller's [while (nal_iter_next(&it, &nal))] loop: the units' bytes. *)
Fixpoint nal_units (fuel : nat) (d : list Z) (it : nal_iter) : option (list (list Z)) :=
  match fuel with
  | O => None
  | S fuel =>
      r ← nal_iter_next (S (it_end it)) d it;
      match r.2 with
      | None => Some []
      | Some (off, len) => rest ← nal_units fuel d r.1; Some (take len (drop off d) :: rest)
      end
  end.

(** ** Classification *)

Definition nal_type (codec : Z) (nal : list Z) : Z :=
  match nal with
  | [] => 0
  | b :: _ => if codec =? CODEC_H265 then Z.land (Z.shiftr b 1) 0x3F else Z.land b 0x1F
  end.
Definition nal_is_vcl (codec type : Z) : bool :=
  if codec =? CODEC_H265 then type <=? 31 else (1 <=? type) && (type <=? 5).
Definition nal_is_config (codec type : Z) : bool :=
  if codec =? CODEC_H265 then (type =? 32) || (type =? 33) || (type =? 34)
  else (type =? 7) || (type =? 8).
Definition nal_is_keyframe (codec type : Z) : bool :=
  if codec =? CODEC_H265 then (16 <=? type) && (type <=? 21) else type =? 5.

(** ** Reference: start codes of a list *)

Definition sc_at (l : list Z) : option nat :=
  match l with
  | a :: b :: c :: l =>
      if (a =? 0) && (b =? 0) && (c =? 0) && match l with x :: _ => x =? 1 | [] => false end
      then Some 4%nat
      else if (a =? 0) && (b =? 0) && (c =? 1) then Some 3%nat else None
  | _ => None
  end.

Fixpoint find_sc (l : list Z) : option (nat * nat) :=
  match sc_at l with
  | Some k => Some (0%nat, k)
  | None => match l with
            | [] => None
            | _ :: l => prod_map S id <$> find_sc l
            end
  end.

Lemma sc_at_bounds l k : sc_at l = Some k → (3 ≤ k ≤ length l)%nat.
Proof.
  unfold sc_at. destruct l as [|a [|b [|c l]]]; try done.
  destruct l as [|x l]; rewrite ?andb_false_r; repeat case_match; intros [= <-]; cbn; lia.
Qed.

Lemma find_sc_bounds l o k : find_sc l = Some (o, k) → (3 ≤ k ∧ o + k ≤ length l)%nat.
Proof.
  revert o k. induction l as [|a l IH]; intros o k; [done|]. cbn [find_sc].
  destruct (sc_at (a :: l)) as [k'|] eqn:E.
  - intros [= <- <-]. apply sc_at_bounds in E. cbn in *. lia.
  - destruct (find_sc l) as [[o' k']|] eqn:Ef; [|done]. intros [= <- <-].
    destruct (IH _ _ eq_refl). cbn. lia.
Qed.

Lemma find_sc_cons a l :
  find_sc (a :: l) = match sc_at (a :: l) with
                     | Some k => Some (0%nat, k)
                     | None => prod_map S id <$> find_sc l
                     end.
Proof. done. Qed.

(** The search never leaves the buffer and finds what the reference finds. *)
Lemma start_code_spec d fuel p :
  (length d - p < fuel)%nat →
  nal_start_code fuel d p (length d)
  = Some ((λ x, ((p + x.1)%nat, x.2)) <$> find_sc (drop p d)).
Proof.
  revert p. induction fuel as [|fuel IH]; intros p Hf; [lia|]. cbn [nal_start_code].
  destruct (Nat.ltb_spec (length d) (p + 3)) as [Hlt|Hge].
  - assert (find_sc (drop p d) = None) as ->; [|done].
    destruct (find_sc (drop p d)) as [[o k]|] eqn:E; [|done].
    apply find_sc_bounds in E. rewrite length_drop in E. lia.
  - destruct (drop p d) as [|a [|b [|c l]]] eqn:Hd;
      try (apply (f_equal length) in Hd; rewrite length_drop in Hd; cbn in Hd; lia).
    assert (∀ i, d !! (p + i)%nat = (a :: b :: c :: l) !! i) as Hl by (intros i; by rewrite <- lookup_drop, Hd).
    assert (drop (p + 1) d = b :: c :: l) as Hd1.
    { rewrite <- (drop_drop d 1 p), Hd. done. }
    assert (length d = p + 3 + length l)%nat as Hlen.
    { apply (f_equal length) in Hd. rewrite length_drop in Hd. cbn in Hd. lia. }
    assert (d !! p = Some a) as -> by (rewrite <- (Nat.add_0_r p); apply Hl).
    rewrite !Hl. cbn [lookup list_lookup mbind option_bind].
    rewrite (IH (p + 1)%nat), Hd1, (find_sc_cons a) by lia.
    assert (∀ o : option (nat * nat), Some ((λ x, ((p + 1 + x.1)%nat, x.2)) <$> o)
      = Some ((λ x, ((p + x.1)%nat, x.2)) <$> (prod_map S id <$> o))) as Hs.
    { intros [[o k]|]; [|done]. cbn. do 3 f_equal. lia. }
    rewrite Hs. clear Hs. generalize (prod_map S id <$> find_sc (b :: c :: l)). intros o.
    cbn [sc_at]. destruct (_ && _ && (c =? 0)); cbn [andb].
    + destruct (Nat.leb_spec (p + 4) (length d)) as [H4|H4].
      * destruct l as [|x l]; [cbn in Hlen; lia|]. cbn [lookup list_lookup mbind option_bind].
        destruct (x =? 1); [|destruct (_ && _ && (c =? 1))]; cbn; by rewrite ?Nat.add_0_r.
      * destruct l; [|cbn in Hlen; lia]. cbn [mbind option_bind].
        destruct (_ && _ && (c =? 1)); cbn; by rewrite ?Nat.add_0_r.
    + cbn [mbind option_bind]. destruct (_ && _ && (c =? 1)); cbn; by rewrite ?Nat.add_0_r.
Qed.

(** ** One step of the iterator *)

Lemma trim_zeros_spec d s n :
  (s + n ≤ length d)%nat →
  ∃ m, trim_zeros d s n = Some (s + m)%nat ∧ (m ≤ n)%nat ∧
    (∀ i, (m ≤ i < n)%nat → d !! (s + i)%nat = Some 0) ∧
    (∀ b, (0 < m)%nat → d !! (s + (m - 1))%nat = Some b → b ≠ 0).
Proof.
  induction n as [|n IH]; intros Hn; cbn [trim_zeros].
  { exists 0%nat. rewrite Nat.add_0_r. split_and!; [done|lia|lia|lia]. }
  destruct (lookup_lt_is_Some_2 d (s + n)) as [b Hb]; [lia|]. rewrite Hb. cbn [mbind option_bind].
  destruct (Z.eqb_spec b 0) as [->|Hne].
  - destruct IH as (m & -> & Hm & Hz & Hl); [lia|]. exists m. split_and!; [done|lia| |done].
    intros i Hi. destruct (decide (i = n)) as [->|]; [done|]. apply Hz. lia.
  - exists (S n). split_and!; [done|lia|lia|]. intros b' _. replace (s + (S n - 1))%nat with (s + n)%nat by lia.
    rewrite Hb. by intros [= <-].
Qed.

(** A NAL unit as it can appear between start codes: not empty, no start code inside, no
    trailing zero byte. *)
Definition clean (n : list Z) : Prop := n ≠ [] ∧ find_sc n = None ∧ last n ≠ Some 0.

Lemma sc_at_take m l : sc_at l = None → sc_at (take m l) = None.
Proof.
  destruct l as [|a [|b [|c l]]]; destruct m as [|[|[|m]]]; try done.
  cbn [sc_at take]. destruct (_ && _ && (c =? 0)); cbn [andb]; [|by repeat case_match].
  destruct l as [|x l]; [by rewrite take_nil|]. destruct m; cbn [take]; repeat case_match; done.
Qed.

Lemma find_sc_take m l o k :
  find_sc l = None ∨ find_sc l = Some (o, k) ∧ (m ≤ o)%nat → find_sc (take m l) = None.
Proof.
  revert m o. induction l as [|a l IH]; intros m o Hor; [by rewrite take_nil|].
  destruct m as [|m]; [done|]. cbn [take]. rewrite find_sc_cons in *.
  change (a :: take m l) with (take (S m) (a :: l)).
  destruct (sc_at (a :: l)) as [k'|] eqn:Es.
  { destruct Hor as [|[[= <- <-] ?]]; [done|lia]. }
  rewrite (sc_at_take (S m) _ Es).
  destruct (find_sc l) as [[o' k'']|] eqn:Ef; cbn in Hor.
  - destruct Hor as [|[[= <- <-] Hm]]; [done|]. rewrite (IH m o'); [done|]. right. split; [done|lia].
  - rewrite (IH m 0%nat); [done|by left].
Qed.

Lemma find_sc_app_clean n sc rest :
  clean n → sc_at (sc ++ rest) = Some (length sc) → hd 1 sc = 0 →
  find_sc (n ++ sc ++ rest) = Some (length n, length sc).
Proof.
  intros (Hne & Hf & Hl) Hsc Hhd. induction n as [|a n IH]; [done|].
  cbn [app]. rewrite find_sc_cons in *. destruct (sc_at (a :: n)) eqn:Es; [done|].
  destruct n as [|b n].
  - cbn in Hl. assert (a ≠ 0) as Ha by congruence. cbn [app length].
    assert (sc_at (a :: sc ++ rest) = None) as ->.
    { destruct (sc ++ rest) as [|x [|y l]]; [done..|]. cbn [sc_at].
      by rewrite (proj2 (Z.eqb_neq a 0)). }
    destruct (sc ++ rest) as [|x l] eqn:E; [by destruct sc|].
    rewrite find_sc_cons, Hsc. done.
  - assert (sc_at (a :: (b :: n) ++ sc ++ rest) = None) as ->.
    { destruct n as [|c n].
      - cbn in Hl. assert (b ≠ 0) as Hb by congruence. cbn [app]. destruct (sc ++ rest) as [|x l]; [done|].
        cbn [sc_at]. by rewrite (proj2 (Z.eqb_neq b 0)), andb_false_r.
      - cbn [app sc_at] in *. destruct n as [|x n]; [|done]. cbn in Hl.
        assert (c ≠ 0) as Hc by congruence. cbn [app]. rewrite (proj2 (Z.eqb_neq c 0)) in * by done.
        rewrite !andb_false_r in *. done. }
    rewrite IH; [done|done| |].
    + destruct (find_sc (b :: n)); [done|done].
    + exact Hl.
Qed.

(** The unit a step cuts out of the buffer is clean. *)
Lemma cut_clean d s n m o k :
  (s + n ≤ length d)%nat → (0 < m ≤ n)%nat →
  find_sc (drop s d) = None ∨ find_sc (drop s d) = Some (o, k) ∧ (n ≤ o)%nat →
  (∀ b, d !! (s + (m - 1))%nat = Some b → b ≠ 0) → clean (take m (drop s d)).
Proof.
  intros Hn Hm Hf Hl.
  assert (length (take m (drop s d)) = m) as Hlen by (rewrite length_take, length_drop; lia).
  split_and!.
  - intros E. rewrite E in Hlen. cbn in Hlen. lia.
  - eapply (find_sc_take _ _ o k). destruct Hf as [|[? ?]]; [by left|right; split; [done|lia]].
  - rewrite last_lookup, Hlen, lookup_take_lt, lookup_drop by lia.
    replace (pred m) with (m - 1)%nat by lia. intros E. by apply (Hl 0).
Qed.

(** One call: in bounds, terminating, and advancing past a clean unit. *)
Lemma iter_next_spec d fuel pos :
  (pos ≤ length d)%nat → (length d - pos < fuel)%nat →
  ∃ pos' r, nal_iter_next fuel d (mk_iter pos (length d)) = Some (mk_iter pos' (length d), r) ∧
    (pos ≤ pos' ≤ length d)%nat ∧
    match r with
    | None => True
    | Some (off, len) =>
        (pos + 3 ≤ off ∧ off + len ≤ pos')%nat ∧ (off + len ≤ length d)%nat ∧ clean (take len (drop off d))
    end.
Proof.
  revert pos. induction fuel as [|fuel IH]; intros pos Hp Hf; [lia|].
  cbn [nal_iter_next it_pos it_end]. destruct (Nat.leb_spec (length d) pos).
  { eexists pos, None. split_and!; [done|lia|lia|done]. }
  rewrite start_code_spec by lia. cbn [mbind option_bind].
  destruct (find_sc (drop pos d)) as [[o k]|] eqn:E; cbn [fmap option_fmap option_map fst snd].
  2: { eexists (length d), None. split_and!; [done|lia|lia|done]. }
  apply find_sc_bounds in E as [Hk Ho]. rewrite length_drop in Ho.
  set (s := (pos + o + k)%nat). rewrite start_code_spec by lia. cbn [mbind option_bind].
  set (e' := match _ with Some (q, _) => q | None => length d end).
  assert (∃ o' k', (find_sc (drop s d) = None ∨ find_sc (drop s d) = Some (o', k') ∧ (e' - s ≤ o')%nat)
    ∧ (s ≤ e' ≤ length d)%nat) as (o' & k' & Hf' & He').
  { unfold e'. destruct (find_sc (drop s d)) as [[o' k']|] eqn:E'; cbn.
    - pose proof (find_sc_bounds _ _ _ E') as [? Hb]. rewrite length_drop in Hb.
      exists o', k'. split; [right; split; [done|lia]|lia].
    - exists 0%nat, 0%nat. split; [by left|]. lia. }
  destruct (trim_zeros_spec d s (e' - s)) as (m & -> & Hm & _ & Hl); [lia|]. cbn [mbind option_bind].
  destruct (Nat.ltb_spec s (s + m)) as [Hlt|].
  - replace (s + m - s)%nat with m by lia. eexists e', (Some (s, m)).
    split_and!; [done|lia|lia|lia|lia|lia|]. eapply (cut_clean d s (e' - s) m); eauto; [lia..|].
    intros b Hb. apply Hl; [lia|done].
  - destruct (IH e') as (pos' & r & Hr & Hpos & Hpost); [lia..|]. exists pos', r. rewrite Hr.
    split_and!; [done|lia|lia|]. destruct r as [[off len]|]; [|done].
    destruct Hpost as (? & ? & ?). split_and!; [lia|lia|done|done].
Qed.

Lemma nal_units_spec d fuel pos :
  (pos ≤ length d)%nat → (length d - pos < fuel)%nat →
  ∃ us, nal_units fuel d (mk_iter pos (length d)) = Some us ∧ Forall clean us.
Proof.
  revert pos. induction fuel as [|fuel IH]; intros pos Hp Hf; [lia|]. cbn [nal_units it_end].
  destruct (iter_next_spec d (S (length d)) pos) as (pos' & r & -> & Hpos & Hpost); [lia..|].
  cbn [mbind option_bind fst snd]. destruct r as [[off len]|]; [|by exists []].
  destruct Hpost as (? & ? & ?). destruct (IH pos') as (us & -> & Hus); [lia..|].
  cbn [mbind option_bind]. eexists. split; [done|by constructor].
Qed.

(** NAL iteration is safe and total. On any buffer the iterator reads only inside
    it and the caller's loop ends, and every unit handed out is non-empty, contains no
    start code and carries no trailing zero byte. *)
Theorem nal_units_clean d :
  ∃ us, nal_units (S (length d)) d (nal_iter_init (length d)) = Some us ∧ Forall clean us.
Proof. apply nal_units_spec; lia. Qed.

(** ** Round trip *)

Definition start_code (long : bool) : list Z := if long then [0; 0; 0; 1] else [0; 0; 1].
Definition annexb (units : list (bool * list Z)) : list Z :=
  mjoin ((λ u, start_code u.1 ++ u.2) <$> units).

Lemma annexb_cons long n units :
  annexb ((long, n) :: units) = start_code long ++ n ++ annexb units.
Proof. unfold annexb. cbn. by rewrite <- app_assoc. Qed.

Lemma start_code_at long rest : sc_at (start_code long ++ rest) = Some (length (start_code long)).
Proof. by destruct long. Qed.

Lemma iter_next_unit d pos long n rest :
  drop pos d = start_code long ++ n ++ annexb rest → clean n →
  let s := (pos + length (start_code long))%nat in
  nal_iter_next (S (length d)) d (mk_iter pos (length d))
  = Some (mk_iter (s + length n) (length d), Some (s, length n)).
Proof.
  intros Hd Hc s. pose proof Hc as (Hne & Hfn & Hl). cbn [nal_iter_next it_pos it_end].
  assert (length d = pos + length (start_code long) + length n + length (annexb rest))%nat as Hlen.
  { apply (f_equal length) in Hd. rewrite length_drop, !length_app in Hd.
    destruct long; cbn in *; lia. }
  assert (3 ≤ length (start_code long))%nat by (destruct long; cbn; lia).
  assert (0 < length n)%nat by (destruct n; [done|cbn; lia]).
  destruct (Nat.leb_spec (length d) pos); [lia|].
  rewrite start_code_spec, Hd by lia.
  assert (find_sc (start_code long ++ n ++ annexb rest) = Some (0%nat, length (start_code long))) as ->.
  { destruct long; done. }
  cbn [mbind option_bind fmap option_fmap option_map fst snd]. rewrite Nat.add_0_r. fold s.
  assert (drop s d = n ++ annexb rest) as Hds.
  { unfold s. rewrite <- (drop_drop d _ pos), Hd. apply drop_app_length. }
  rewrite start_code_spec, Hds by lia. cbn [mbind option_bind].
  assert (∃ r, find_sc (n ++ annexb rest) = r ∧ match r with
    | Some x => x.1 = length n | None => rest = [] end) as (r & -> & Hr).
  { destruct rest as [|[long' n'] rest].
    - exists None. cbn. rewrite app_nil_r. by split.
    - exists (Some (length n, length (start_code long'))). split; [|done].
      rewrite annexb_cons. apply find_sc_app_clean; [done|apply start_code_at|by destruct long']. }
  assert (match (λ x : nat * nat, ((s + x.1)%nat, x.2)) <$> r with Some (q, _) => q | None => length d end
    = s + length n)%nat as ->.
  { destruct r as [x|]; cbn; [by rewrite Hr|]. subst rest. cbn in Hlen. unfold s. lia. }
  replace (s + length n - s)%nat with (length n) by lia.
  assert (trim_zeros d s (length n) = Some (s + length n)%nat) as ->.
  { destruct (length n) as [|m] eqn:Em; [lia|]. cbn [trim_zeros].
    assert (d !! (s + m)%nat = last n) as ->.
    { rewrite <- lookup_drop, Hds, lookup_app_l, last_lookup, Em by lia. done. }
    destruct (last n) as [b|] eqn:Eb.
    - cbn [mbind option_bind]. rewrite (proj2 (Z.eqb_neq b 0)); [done|congruence].
    - by apply last_None in Eb. }
  cbn [mbind option_bind]. rewrite (proj2 (Nat.ltb_lt _ _)) by lia.
  do 4 f_equal. lia.
Qed.

Lemma nal_units_annexb d fuel pos units :
  drop pos d = annexb units → Forall (λ u, clean u.2) units → (length units < fuel)%nat →
  (pos ≤ length d)%nat →
  nal_units fuel d (mk_iter pos (length d)) = Some units.*2.
Proof.
  revert fuel pos. induction units as [|[long n] units IH]; intros fuel pos Hd Hc Hf Hp;
    destruct fuel as [|fuel]; cbn in Hf; try lia; cbn [nal_units it_end].
  - assert (length d <= pos)%nat.
    { apply (f_equal length) in Hd. rewrite length_drop in Hd. cbn in Hd. lia. }
    cbn [nal_iter_next it_end it_pos]. by rewrite (proj2 (Nat.leb_le _ _)).
  - apply Forall_cons in Hc as [Hn Hc]. rewrite annexb_cons in Hd.
    rewrite (iter_next_unit d pos long n units Hd Hn). cbn [mbind option_bind fst snd].
    assert (drop (pos + length (start_code long)) d = n ++ annexb units) as Hds.
    { rewrite <- (drop_drop d _ pos), Hd. apply drop_app_length. }
    rewrite (IH fuel); [| |done|lia|].
    + cbn. by rewrite Hds, take_app_length.
    + rewrite <- (drop_drop d (length n)), Hds. apply drop_app_length.
    + apply (f_equal length) in Hds. rewrite length_drop, length_app in Hds.
      destruct n; [by destruct Hn|]. cbn in *. lia.
Qed.

(** C14: Annex B round-trips: NAL units written one after the other, each behind a three-
    or four-byte start code, come back from the iterator unchanged and in order. *)
Theorem nal_roundtrip units :
  Forall (λ u, clean u.2) units →
  let d := annexb units in
  nal_units (S (length d)) d (nal_iter_init (length d)) = Some units.*2.
Proof.
  intros Hc d. apply nal_units_annexb; [done|done| |lia].
  unfold d. clear. induction units as [|[long n] units IH]; [cbn; lia|].
  rewrite annexb_cons, !length_app. cbn [length] in *. destruct long; cbn [length start_code] in *; lia.
Qed.
Lemma nal_roundtrip_witness :
  let units := [(true, [103; 66]); (false, [104; 1]); (true, [101; 0; 0; 3; 1])] in
  nal_units (S (length (annexb units))) (annexb units) (nal_iter_init (length (annexb units)))
  = Some [[103; 66]; [104; 1]; [101; 0; 0; 3; 1]].
Proof.
  intros units. apply (nal_roundtrip units). repeat constructor; vm_compute; congruence.
Defined.
