(* ===== verification/TsIngest.v ===== *)
(** * The raw-TS ingest queue

    Models mpegts/ngx_media_ts_ingest.[ch]: the bounded hand-off of transport chunks to
    the worker.  Chunks are raw allocations, kept in a heap of their own so that a leak, a
    double free or a read of freed memory shows.  The operations are serialised by the
    queue's spinlock and are modelled as atomic. *)
From S2P Require Import Prelude StateM Bytes Ring.

(** ** Raw allocations *)

Record heap := mk_heap { h_mem : gmap N (list Z); h_next : N; h_grant : N → Z → bool }.

Notation H := (SM heap).

(** [ngx_alloc] followed by the copy of the data into the block. *)
Definition raw_dup (data : list Z) : H (option N) := λ h,
  if h_grant h (h_next h) (lenZ data)
  then Some (Some (h_next h), mk_heap (<[h_next h := data]> (h_mem h)) (N.succ (h_next h)) (h_grant h))
  else Some (None, mk_heap (h_mem h) (N.succ (h_next h)) (h_grant h)).

(** [ngx_free]: NULL is allowed, a block that is not live is undefined behaviour. *)
Definition raw_free (p : option N) : H unit := λ h,
  match p with
  | None => Some (tt, h)
  | Some p =>
      match h_mem h !! p with
      | Some _ => Some (tt, mk_heap (delete p (h_mem h)) (h_next h) (h_grant h))
      | None => None
      end
  end.

(** ** The queue *)

Definition CHUNK_MAX : Z := 65536.

Record ingest_conf := mk_ingest_conf { ic_max_chunks : Z; ic_max_bytes : Z }.
Record ingest_stats := mk_ingest_stats {
  is_bytes_in : Z; is_chunks_in : Z; is_bytes_dropped : Z; is_chunks_dropped : Z;
  is_last_write : Z }.
#[global] Instance eta_ingest_stats : Eta ingest_stats := λ r,
  mk_ingest_stats (is_bytes_in r) (is_chunks_in r) (is_bytes_dropped r) (is_chunks_dropped r)
    (is_last_write r).

Record chunk := mk_chunk { ck_data : option N; ck_len : Z; ck_time : Z; ck_session : Z }.
#[global] Instance eta_chunk : Eta chunk := λ r,
  mk_chunk (ck_data r) (ck_len r) (ck_time r) (ck_session r).
Definition chunk_zero : chunk := mk_chunk None 0 0 0.
(** sizeof(ngx_media_ts_ingest_chunk_t) *)
Definition chunk_size : Z := 32.

(** [q_chunks = []] is the NULL array. *)
Record ingest := mk_ingest {
  q_chunks : list chunk; q_capacity : Z; q_max_chunks : Z; q_max_bytes : Z;
  q_head : Z; q_tail : Z; q_bytes : Z; q_stats : ingest_stats }.
#[global] Instance eta_ingest : Eta ingest := λ r,
  mk_ingest (q_chunks r) (q_capacity r) (q_max_chunks r) (q_max_bytes r)
    (q_head r) (q_tail r) (q_bytes r) (q_stats r).
Definition ingest_zero : ingest := mk_ingest [] 0 0 0 0 0 0 (mk_ingest_stats 0 0 0 0 0).

Definition ingest_pow2 (n : Z) : Z := pow2 n.

(** [grant]: whether the slot array can be allocated. *)
Definition ingest_init (q : ingest) (conf : ingest_conf) (grant : bool) : rc * ingest :=
  if (ic_max_chunks conf =? 0) || (ic_max_bytes conf =? 0) then (NGX_ERROR, q)
  else
    let q := ingest_zero <| q_capacity := ingest_pow2 (ic_max_chunks conf) |> in
    if q_capacity q =? 0 then (NGX_ERROR, q)
    else if (2 ^ 64 - 1) `div` chunk_size <? q_capacity q then (NGX_ERROR, q)
    else if negb grant then (NGX_ERROR, q <| q_capacity := 0 |>)
    else (NGX_OK,
      q <| q_chunks := replicate (Z.to_nat (q_capacity q)) chunk_zero |>
        <| q_max_chunks := ic_max_chunks conf |> <| q_max_bytes := ic_max_bytes conf |>).

Definition q_slot (q : ingest) (seq : Z) : chunk :=
  default chunk_zero (q_chunks q !! ring_idx (q_capacity q) seq).

Definition ingest_drop (q : ingest) (len : Z) : ingest :=
  q <| q_stats := (q_stats q)
         <| is_chunks_dropped := is_chunks_dropped (q_stats q) ⊕ 1 |>
         <| is_bytes_dropped := is_bytes_dropped (q_stats q) ⊕ len |> |>.

Definition ingest_write (q : ingest) (session : Z) (data : list Z) (now : Z) : H (rc * ingest) :=
  let len := lenZ data in
  match q_chunks q with
  | [] => mret (NGX_ERROR, q)
  | _ =>
      if (len =? 0) || (CHUNK_MAX <? len) then mret (NGX_ERROR, q)
      else
        let q := q <| q_stats := (q_stats q)
          <| is_bytes_in := is_bytes_in (q_stats q) ⊕ len |>
          <| is_chunks_in := is_chunks_in (q_stats q) ⊕ 1 |>
          <| is_last_write := now |> |> in
        if (q_max_chunks q <=? q_head q ⊖ q_tail q) || (q_max_bytes q <? q_bytes q ⊕ len)
        then mret (NGX_AGAIN, ingest_drop q len)
        else
          copy ← raw_dup data;
          match copy with
          | None => mret (NGX_ERROR, ingest_drop q len)
          | Some p =>
              mret (NGX_OK,
                q <| q_chunks := <[ring_idx (q_capacity q) (q_head q) :=
                                   mk_chunk (Some p) len now session]> (q_chunks q) |>
                  <| q_bytes := q_bytes q ⊕ len |>
                  <| q_head := q_head q ⊕ 1 |>)
          end
  end.

(** The loop of [ts_ingest_read]; [n] is what is left of [max_chunks]. *)
Fixpoint ingest_read_loop (n : nat) (q : ingest) : ingest * list chunk :=
  match n with
  | O => (q, [])
  | S n =>
      if q_tail q <? q_head q then
        let c := q_slot q (q_tail q) in
        let q := q <| q_bytes := q_bytes q ⊖ ck_len c |> <| q_tail := q_tail q ⊕ 1 |> in
        let '(q, out) := ingest_read_loop n q in (q, c :: out)
      else (q, [])
  end.
Definition ingest_read (q : ingest) (max_chunks : nat) : ingest * list chunk :=
  match q_chunks q with
  | [] => (q, [])
  | _ => ingest_read_loop max_chunks q
  end.

Fixpoint ingest_release (chunks : list chunk) : H (list chunk) :=
  match chunks with
  | [] => mret []
  | c :: chunks =>
      _ ← raw_free (ck_data c);
      rest ← ingest_release chunks;
      mret (c <| ck_data := None |> <| ck_len := 0 |> :: rest)
  end.

Fixpoint free_slots (q : ingest) (seqs : list Z) : H unit :=
  match seqs with
  | [] => mret tt
  | seq :: seqs => _ ← raw_free (ck_data (q_slot q seq)); free_slots q seqs
  end.
Definition ingest_destroy (q : ingest) : H ingest :=
  match q_chunks q with
  | [] => mret q
  | _ => _ ← free_slots q (seqZ (q_tail q) (q_head q - q_tail q)); mret ingest_zero
  end.

Definition ingest_pending (q : ingest) : Z :=
  match q_chunks q with [] => 0 | _ => q_head q ⊖ q_tail q end.

(** ** Histories of the two ends of the queue *)

Definition entry : Type := Z * Z * list Z.

(** What a descriptor shows: session, arrival time and the bytes it points to. *)
Definition chunk_view (h : heap) (c : chunk) : option entry :=
  p ← ck_data c; d ← h_mem h !! p; Some (ck_session c, ck_time c, d).

Inductive ingest_op :=
  | IWrite (session : Z) (data : list Z) (now : Z)
  | IRead (max_chunks : nat)
  | IRelease.

(** The queue, the descriptors the consumer holds, and the log of what was accepted and
    what was delivered. *)
Record ingest_state := mk_istate {
  i_queue : ingest; i_held : list chunk; i_accepted : list entry; i_delivered : list entry }.

Definition ingest_step (st : ingest_state) (op : ingest_op) : H ingest_state := λ h,
  let '(mk_istate q held acc del) := st in
  match op with
  | IWrite session data now =>
      '(r, q', h') ← ingest_write q session data now h;
      Some (mk_istate q' held
              (acc ++ if bool_decide (r = NGX_OK) then [(session, now, data)] else []) del, h')
  | IRead n =>
      let '(q', out) := ingest_read q n in
      Some (mk_istate q' (held ++ out) acc (del ++ omap (chunk_view h) out), h)
  | IRelease =>
      '(_, h') ← ingest_release held h; Some (mk_istate q [] acc del, h')
  end.

Fixpoint ingest_run (ops : list ingest_op) (st : ingest_state) : H ingest_state :=
  match ops with
  | [] => mret st
  | op :: ops => st ← ingest_step st op; ingest_run ops st
  end.

(** ** The invariant *)

Definition queue (q : ingest) : list chunk :=
  window (q_chunks q) (q_capacity q) (q_tail q) (q_head q).

(** The chunks own the live blocks, each exactly one. *)
Record owned (h : heap) (cs : list chunk) : Prop := {
  ow_live : Forall (λ c, ∃ p d, ck_data c = Some p ∧ h_mem h !! p = Some d) cs;
  ow_nodup : NoDup (ck_data <$> cs);
  ow_all : ∀ p, is_Some (h_mem h !! p) → Some p ∈ ck_data <$> cs;
  ow_fresh : ∀ p, is_Some (h_mem h !! p) → (p < h_next h)%N;
}.

Definition sized (h : heap) (c : chunk) : Prop :=
  ∀ e, chunk_view h c = Some e → ck_len c = lenZ e.2.

Record ingest_inv (n : Z) (st : ingest_state) (h : heap) : Prop := {
  iq_pow : is_pow2 (q_capacity (i_queue st));
  iq_len : Z.of_nat (length (q_chunks (i_queue st))) = q_capacity (i_queue st);
  iq_max : 0 < q_max_chunks (i_queue st) ≤ q_capacity (i_queue st);
  iq_maxb : q_max_bytes (i_queue st) < 2 ^ 63;
  iq_seq : 0 ≤ q_tail (i_queue st) ≤ q_head (i_queue st);
  iq_units : q_head (i_queue st) - q_tail (i_queue st) ≤ q_max_chunks (i_queue st);
  iq_bytes : q_bytes (i_queue st) = sumZ (ck_len <$> queue (i_queue st));
  iq_room : q_bytes (i_queue st) ≤ q_max_bytes (i_queue st);
  iq_owned : owned h (queue (i_queue st) ++ i_held st);
  iq_sized : Forall (sized h) (queue (i_queue st));
  iq_log : i_accepted st = i_delivered st ++ omap (chunk_view h) (queue (i_queue st));
  iq_head : q_head (i_queue st) = Z.of_nat (length (i_accepted st));
  iq_chunks : is_chunks_in (q_stats (i_queue st))
    = Z.of_nat (length (i_accepted st)) + is_chunks_dropped (q_stats (i_queue st));
  iq_bytesin : is_bytes_in (q_stats (i_queue st))
    = sumZ ((λ e, lenZ e.2) <$> i_accepted st) + is_bytes_dropped (q_stats (i_queue st));
  iq_small : 0 ≤ is_chunks_dropped (q_stats (i_queue st)) ∧ is_chunks_in (q_stats (i_queue st)) ≤ n ∧
    0 ≤ is_bytes_dropped (q_stats (i_queue st)) ∧ is_bytes_in (q_stats (i_queue st)) ≤ n * CHUNK_MAX;
}.


Lemma lenZ_entries (acc : list entry) : 0 ≤ sumZ ((λ e, lenZ e.2) <$> acc).
Proof. apply sumZ_nonneg, Forall_fmap, Forall_forall. intros e _. apply lenZ_nonneg. Qed.

(** ** Ownership of blocks *)

Lemma owned_proper h cs cs' : cs ≡ₚ cs' → owned h cs → owned h cs'.
Proof. intros Hp []. split; [by rewrite <- Hp|by rewrite <- Hp|intros p; rewrite <- Hp; auto|done]. Qed.

Lemma owned_dup h cs data h' p c :
  owned h cs → raw_dup data h = Some (Some p, h') → ck_data c = Some p →
  owned h' (c :: cs) ∧ h_mem h' !! p = Some data ∧
  (∀ x, x ∈ cs → chunk_view h' x = chunk_view h x).
Proof.
  intros [Hl Hn Ha Hf] Hd Hc. unfold raw_dup in Hd. case_match; [|done]. injection Hd as <- <-.
  assert (h_mem h !! h_next h = None) as Hnone.
  { destruct (h_mem h !! h_next h) eqn:E; [|done]. specialize (Hf (h_next h) ltac:(eauto)). lia. }
  rewrite Forall_forall in Hl. split_and!; [split; cbn| |].
  - constructor; [exists (h_next h), data; split; [done|apply lookup_insert_eq]|].
    apply Forall_forall. intros x Hx. destruct (Hl x Hx) as (p & d & Hp & Hd). exists p, d. split; [done|].
    rewrite lookup_insert_ne; [done|]. intros <-. congruence.
  - apply NoDup_cons. split; [|done]. rewrite Hc. intros (x & Hx & Hin)%list_elem_of_fmap.
    destruct (Hl x Hin) as (p & d & Hp & Hd). congruence.
  - intros p. rewrite lookup_insert. case_decide as E; [subst; rewrite Hc; intros; left|right; auto].
  - intros p. rewrite lookup_insert. case_decide; [subst; lia|]. intros Hp. specialize (Hf p Hp). lia.
  - apply lookup_insert_eq.
  - intros x Hx. destruct (Hl x Hx) as (p & d & Hp & Hd). unfold chunk_view. rewrite Hp. cbn.
    rewrite lookup_insert_ne; [done|]. intros <-. congruence.
Qed.

Lemma owned_free h c cs :
  owned h (c :: cs) → ∃ h', raw_free (ck_data c) h = Some (tt, h') ∧ owned h' cs ∧
    ∀ x, x ∈ cs → chunk_view h' x = chunk_view h x.
Proof.
  intros [Hl Hn Ha Hf]. apply Forall_cons in Hl as [(p & d & Hp & Hd) Hl]. cbn in Hn.
  apply NoDup_cons in Hn as [Hni Hn]. unfold raw_free. rewrite Hp, Hd. eexists. split; [done|].
  rewrite Forall_forall in Hl.
  assert (∀ x, x ∈ cs → ∀ p' d', ck_data x = Some p' → h_mem h !! p' = Some d' → p' ≠ p) as Hne.
  { intros x Hx p' d' Hp' _ ->. apply Hni. rewrite Hp, <- Hp'. by apply list_elem_of_fmap_2. }
  split; [split; cbn|].
  - apply Forall_forall. intros x Hx. destruct (Hl x Hx) as (p' & d' & Hp' & Hd'). exists p', d'.
    split; [done|]. by rewrite lookup_delete_ne by (intros <-; by eapply Hne).
  - done.
  - intros p'. rewrite lookup_delete. case_decide as E; [by intros []|]. intros Hs.
    specialize (Ha p' Hs). cbn in Ha. apply elem_of_cons in Ha as [Hin|]; [congruence|done].
  - intros p'. rewrite lookup_delete. case_decide; [by intros []|]. auto.
  - intros x Hx. destruct (Hl x Hx) as (p' & d' & Hp' & Hd'). unfold chunk_view. rewrite Hp'. cbn.
    by rewrite lookup_delete_ne by (intros <-; by eapply Hne).
Qed.

Lemma owned_release h cs rest :
  owned h (cs ++ rest) → ∃ out h', ingest_release cs h = Some (out, h') ∧ owned h' rest ∧
    (∀ x, x ∈ rest → chunk_view h' x = chunk_view h x) ∧ Forall (λ c, ck_data c = None) out.
Proof.
  revert h. induction cs as [|c cs IH]; intros h Ho; [by exists [], h|].
  destruct (owned_free h c (cs ++ rest) Ho) as (h1 & Hf & Ho1 & Hv1).
  destruct (IH h1 Ho1) as (out & h2 & Hr & Ho2 & Hv2 & Hn).
  eexists (_ :: out), h2. cbn [ingest_release]. unfold mbind, SM_bind. rewrite Hf, Hr.
  split_and!; [done|done| |by constructor].
  intros x Hx. rewrite Hv2, Hv1 by set_solver. done.
Qed.

(** ** Every step keeps the invariant *)

Lemma chunks_cons n st h : ingest_inv n st h → q_chunks (i_queue st) ≠ [].
Proof.
  intros [] E. rewrite E in iq_len0. pose proof (is_pow2_pos _ iq_pow0). cbn in *. lia.
Qed.

Lemma len_nonneg h (cs : list chunk) :
  Forall (λ c, is_Some (chunk_view h c)) cs → Forall (sized h) cs → 0 ≤ sumZ (ck_len <$> cs).
Proof.
  intros Hl Hs. apply sumZ_nonneg, Forall_fmap. rewrite Forall_forall in *. intros c Hc. cbn.
  destruct (Hl c Hc) as [e He]. rewrite (Hs c Hc e He). apply lenZ_nonneg.
Qed.

Lemma owned_prefix h cs rest : owned h (cs ++ rest) → Forall (λ c, is_Some (chunk_view h c)) cs.
Proof.
  intros [Hl _ _ _]. apply Forall_app in Hl as [Hl _]. eapply Forall_impl; [done|].
  intros c (p & d & Hp & Hd). unfold chunk_view. rewrite Hp. cbn. rewrite Hd. eauto.
Qed.

Lemma length_views h cs : Forall (λ c, is_Some (chunk_view h c)) cs →
  length (omap (chunk_view h) cs) = length cs.
Proof. induction 1 as [|c cs [e He] _ IH]; [done|]. cbn. rewrite He. cbn. by rewrite IH. Qed.

Lemma omap_view_ext h h' (cs : list chunk) : (∀ x, x ∈ cs → chunk_view h' x = chunk_view h x) →
  omap (chunk_view h') cs = omap (chunk_view h) cs.
Proof.
  induction cs as [|c cs IH]; intros Hx; [done|]. cbn. rewrite Hx by set_solver.
  rewrite IH by set_solver. done.
Qed.

Lemma sized_ext h h' (cs : list chunk) : (∀ x, x ∈ cs → chunk_view h' x = chunk_view h x) →
  Forall (sized h) cs → Forall (sized h') cs.
Proof.
  rewrite !Forall_forall. intros Hx Hs c Hc e He. apply (Hs c Hc). by rewrite <- Hx.
Qed.

(** What a write answers: the ceilings first, then the allocator. *)
Definition write_result (q : ingest) (data : list Z) (grant : bool) : rc :=
  if (lenZ data =? 0) || (CHUNK_MAX <? lenZ data) then NGX_ERROR
  else if (q_max_chunks q <=? q_head q - q_tail q) || (q_max_bytes q <? q_bytes q + lenZ data)
  then NGX_AGAIN else if grant then NGX_OK else NGX_ERROR.

Definition accepted_by (r : rc) (e : entry) : list entry :=
  if bool_decide (r = NGX_OK) then [e] else [].

(** A write that leaves the queue's contents alone only counts. *)
Lemma inv_counted n q q' held acc del h len :
  ingest_inv n (mk_istate q held acc del) h →
  q' = q <| q_stats := q_stats q' |> →
  is_chunks_in (q_stats q') = is_chunks_in (q_stats q) + 1 →
  is_chunks_dropped (q_stats q') = is_chunks_dropped (q_stats q) + 1 →
  is_bytes_in (q_stats q') = is_bytes_in (q_stats q) + len →
  is_bytes_dropped (q_stats q') = is_bytes_dropped (q_stats q) + len →
  0 ≤ len ≤ CHUNK_MAX → ingest_inv (n + 1) (mk_istate q' held acc del) h.
Proof.
  intros [] -> Hc Hd Hb Hbd Hl. cbn [i_queue i_held i_accepted i_delivered] in *.
  split; cbn [i_queue i_held i_accepted i_delivered setf q_stats q_capacity q_chunks q_max_chunks
    q_max_bytes q_head q_tail q_bytes] in *; auto; try lia.
Qed.

Lemma inv_mono n m st h : ingest_inv n st h → n ≤ m → ingest_inv m st h.
Proof. intros [] Hm. split; auto. unfold CHUNK_MAX in *. lia. Qed.

Lemma raw_dup_grant data h :
  raw_dup data h =
    (let p := h_next h in
     if h_grant h p (lenZ data)
     then Some (Some p, mk_heap (<[p := data]> (h_mem h)) (N.succ p) (h_grant h))
     else Some (None, mk_heap (h_mem h) (N.succ p) (h_grant h))).
Proof. done. Qed.

(** The heap after a failed allocation. *)
Lemma inv_failed n st h :
  ingest_inv n st h → ingest_inv n st (mk_heap (h_mem h) (N.succ (h_next h)) (h_grant h)).
Proof.
  intros []. split; auto. destruct iq_owned0. split; auto.
  intros p Hp. cbn in *. specialize (ow_fresh0 p Hp). lia.
Qed.

(** The statistics of a valid write. *)
Definition counted (q : ingest) (len now : Z) : ingest :=
  q <| q_stats := (q_stats q)
    <| is_bytes_in := is_bytes_in (q_stats q) ⊕ len |>
    <| is_chunks_in := is_chunks_in (q_stats q) ⊕ 1 |>
    <| is_last_write := now |> |>.

Lemma inv_accepted n q held acc del h session data now :
  ingest_inv n (mk_istate q held acc del) h → 0 ≤ n < 2 ^ 40 →
  0 < lenZ data ≤ 65536 → q_head q - q_tail q < q_max_chunks q →
  0 ≤ q_bytes q → q_bytes q + lenZ data ≤ q_max_bytes q →
  h_grant h (h_next h) (lenZ data) = true →
  let c := mk_chunk (Some (h_next h)) (lenZ data) now session in
  let q1 := counted q (lenZ data) now in
  ingest_inv (n + 1)
    (mk_istate (q1 <| q_chunks := <[ring_idx (q_capacity q1) (q_head q) := c]> (q_chunks q1) |>
                  <| q_bytes := q_bytes q + lenZ data |> <| q_head := q_head q ⊕ 1 |>)
      held (acc ++ accepted_by NGX_OK (session, now, data)) del)
    (mk_heap (<[h_next h := data]> (h_mem h)) (N.succ (h_next h)) (h_grant h)).
Proof.
  intros Hi Hn Hlen Hu Hb0 Hb Hg c q1.
  pose proof Hi as [Hpow Hcl Hmax Hmaxb Hseq Hunits Hbytes Hroom Hown Hsized Hlog Hhead Hch Hby Hsm].
  cbn [i_queue i_held i_accepted i_delivered] in *.
  pose proof (lenZ_entries acc) as Ha0. assert (2 ^ 40 * CHUNK_MAX = 2 ^ 56) as HM by done.
  unfold CHUNK_MAX in *.
  set (h' := mk_heap _ _ _). set (q' := setf q_head _ _).
  assert (raw_dup data h = Some (Some (h_next h), h')) as Hdup by (rewrite raw_dup_grant; cbv zeta; by rewrite Hg).
  destruct (owned_dup h _ data h' (h_next h) c Hown Hdup eq_refl) as (Hown' & Hdata & Hview).
  assert (queue q' = queue q ++ [c]) as Hq.
  { unfold queue, q', q1, counted. cbn [setf q_chunks q_capacity q_tail q_head].
    rewrite u64_small by lia. apply window_push; [done|done|lia|lia]. }
  assert (chunk_view h' c = Some (session, now, data)) as Hvc by (unfold chunk_view; cbn [ck_data c mbind option_bind]; by rewrite Hdata).
  assert (omap (chunk_view h') (queue q) = omap (chunk_view h) (queue q)) as Hvq.
  { apply omap_view_ext. intros x Hx. apply Hview. set_solver. }
  unfold accepted_by. rewrite bool_decide_true by done.
  split; cbn [i_queue i_held i_accepted i_delivered]; rewrite ?Hq;
    try (unfold q', q1, counted;
         cbn [setf q_stats q_capacity q_chunks q_max_chunks q_max_bytes q_head q_tail q_bytes
              is_chunks_in is_bytes_in is_chunks_dropped is_bytes_dropped];
         rewrite ?length_insert, ?length_app, ?fmap_app, ?sumZ_app, ?u64_small by lia; cbn; lia || done).
  - eapply owned_proper; [|exact Hown']. rewrite <- app_assoc. cbn. apply Permutation_middle.
  - apply Forall_app. split.
    + eapply sized_ext; [|exact Hsized]. intros x Hx. apply Hview. set_solver.
    + apply Forall_singleton. intros e He. rewrite Hvc in He. by injection He as <-.
  - rewrite omap_app, Hvq, Hlog, <- app_assoc. do 2 f_equal.
    change (omap (chunk_view h') [c]) with (match chunk_view h' c with Some y => [y] | None => [] end).
    by rewrite Hvc.
  - unfold q', q1, counted. cbn [setf q_stats is_chunks_in is_bytes_in is_chunks_dropped is_bytes_dropped].
    rewrite !u64_small by lia. unfold CHUNK_MAX. lia.
Qed.

Lemma step_write n q held acc del h session data now :
  ingest_inv n (mk_istate q held acc del) h → 0 ≤ n < 2 ^ 40 →
  let r := write_result q data (h_grant h (h_next h) (lenZ data)) in
  ∃ q' h', ingest_write q session data now h = Some (r, q', h') ∧
    ingest_inv (n + 1) (mk_istate q' held (acc ++ accepted_by r (session, now, data)) del) h'.
Proof.
  intros Hi Hn r. pose proof (chunks_cons _ _ _ Hi) as Hne. cbn [i_queue] in Hne.
  pose proof Hi as [Hpow Hlen Hmax Hmaxb Hseq Hunits Hbytes Hroom Hown Hsized Hlog Hhead Hch Hby Hsm].
  cbn [i_queue i_held i_accepted i_delivered] in *.
  pose proof (lenZ_nonneg data) as Hd0. pose proof (lenZ_entries acc) as Ha0.
  assert (0 ≤ q_bytes q) as Hb0.
  { rewrite Hbytes. by eapply len_nonneg; [eapply owned_prefix|]. }
  assert (2 ^ 40 * CHUNK_MAX = 2 ^ 56) as HM by done. unfold CHUNK_MAX in HM.
  assert (Z.of_nat (length acc) ≤ n) as Hacc by lia.
  assert (∀ q', q' = ingest_drop (counted q (lenZ data) now) (lenZ data) →
    lenZ data ≤ CHUNK_MAX → ingest_inv (n + 1) (mk_istate q' held acc del) h) as Hdrop.
  { intros q' -> Hl. unfold CHUNK_MAX in Hl.
    unfold CHUNK_MAX in *. eapply (inv_counted n q _ held acc del h (lenZ data)); [exact Hi|done|..|by split];
      cbn [counted ingest_drop setf q_stats is_chunks_in is_bytes_in is_chunks_dropped is_bytes_dropped];
      apply u64_small; lia. }
  assert (∀ e, acc ++ accepted_by NGX_ERROR e = acc ∧ acc ++ accepted_by NGX_AGAIN e = acc) as Hno.
  { intros e. unfold accepted_by. rewrite !bool_decide_false by done. by rewrite app_nil_r. }
  unfold ingest_write, r, write_result. destruct (q_chunks q) as [|c0 cs0] eqn:Ecs; [done|].
  rewrite <- Ecs in *. destruct (_ || _) eqn:Hval.
  { eexists q, h. split; [done|]. rewrite (proj1 (Hno _)). eapply inv_mono; [done|lia]. }
  apply orb_false_iff in Hval as [Hl0 Hl1]. apply Z.eqb_neq in Hl0. apply Z.ltb_ge in Hl1.
  fold (counted q (lenZ data) now). pose proof Hl1 as Hl1'. unfold CHUNK_MAX in Hl1'.
  change (q_head (counted _ _ _)) with (q_head q). change (q_tail (counted _ _ _)) with (q_tail q).
  change (q_max_chunks (counted _ _ _)) with (q_max_chunks q).
  change (q_bytes (counted _ _ _)) with (q_bytes q).
  change (q_max_bytes (counted _ _ _)) with (q_max_bytes q).
  rewrite (u64_small (q_head q - q_tail q)), (u64_small (q_bytes q + lenZ data)) by lia.
  destruct (_ || _) eqn:Hlim.
  { eexists _, h. split; [done|]. rewrite (proj2 (Hno _)). by apply Hdrop. }
  apply orb_false_iff in Hlim as [Hu Hb]. apply Z.leb_gt in Hu. apply Z.ltb_ge in Hb.
  unfold mbind, SM_bind. rewrite raw_dup_grant. cbv zeta.
  destruct (h_grant h (h_next h) (lenZ data)) eqn:Hg.
  2: { eexists _, _. split; [done|]. rewrite (proj1 (Hno _)). by apply inv_failed, Hdrop. }
  eexists _, _. split; [done|]. apply (inv_accepted n q held acc del h session data now); auto; lia.
Qed.

Lemma queue_head q : is_pow2 (q_capacity q) → Z.of_nat (length (q_chunks q)) = q_capacity q →
  0 ≤ q_tail q < q_head q →
  queue q = q_slot q (q_tail q) :: window (q_chunks q) (q_capacity q) (q_tail q + 1) (q_head q).
Proof.
  intros Hp Hl Ht. destruct (lookup_slot (q_capacity q) Hp (q_chunks q) (q_tail q) Hl) as [c Hc]; [lia|].
  unfold queue, q_slot. rewrite Hc. cbn [default]. by apply window_cons; [lia|].
Qed.

(** Handing out the oldest chunk. *)
Lemma inv_pop n q held acc del h :
  ingest_inv n (mk_istate q held acc del) h → 0 ≤ n < 2 ^ 40 → q_tail q < q_head q →
  let c := q_slot q (q_tail q) in
  let q1 := q <| q_bytes := q_bytes q ⊖ ck_len c |> <| q_tail := q_tail q ⊕ 1 |> in
  queue q = c :: queue q1 ∧
  ingest_inv n (mk_istate q1 (held ++ [c]) acc (del ++ omap (chunk_view h) [c])) h.
Proof.
  intros Hi Hn Hlt c q1.
  pose proof Hi as [Hpow Hlen Hmax Hmaxb Hseq Hunits Hbytes Hroom Hown Hsized Hlog Hhead Hch Hby Hsm].
  cbn [i_queue i_held i_accepted i_delivered] in *.
  assert (2 ^ 40 * CHUNK_MAX = 2 ^ 56) as HM by done. unfold CHUNK_MAX in *.
  pose proof (lenZ_entries acc) as Ha0.
  assert (queue q = c :: queue q1) as Hq.
  { rewrite queue_head by (done || lia). unfold queue, q1. cbn [setf q_chunks q_capacity q_tail q_head].
    by rewrite u64_small by lia. }
  pose proof (owned_prefix _ _ _ Hown) as Hsome. rewrite Hq in Hsome, Hsized, Hown, Hlog.
  pose proof Hsized as [_ Hsz]%Forall_cons. pose proof Hsome as [Hc Hsm']%Forall_cons.
  pose proof (len_nonneg _ _ Hsm' Hsz) as Hrest.
  assert (0 ≤ ck_len c) as Hc0.
  { destruct Hc as [e He]. apply Forall_cons in Hsized as [Hs _]. rewrite (Hs e He). apply lenZ_nonneg. }
  assert (q_bytes q = ck_len c + sumZ (ck_len <$> queue q1)) as Hb by (rewrite Hbytes, Hq; done).
  assert (q_bytes q1 = sumZ (ck_len <$> queue q1)) as Hb1.
  { transitivity (q_bytes q ⊖ ck_len c); [done|]. rewrite u64_small by lia. lia. }
  assert (q_tail q1 = q_tail q + 1) as Ht1 by (transitivity (q_tail q ⊕ 1); [done|apply u64_small; lia]).
  split; [done|]. split; cbn [i_queue i_held i_accepted i_delivered]; rewrite ?Ht1; auto;
    try (cbn [q1 setf q_stats q_capacity q_chunks q_max_chunks q_max_bytes q_head q_tail q_bytes]; unfold CHUNK_MAX; lia).
  - rewrite Hb1. cbn. lia.
  - eapply owned_proper; [|exact Hown]. cbn [app]. solve_Permutation.
  - rewrite Hlog, <- app_assoc. f_equal. destruct Hc as [e He]. cbn. rewrite He. done.
Qed.

Lemma read_loop_spec k : ∀ n q held acc del h,
  ingest_inv n (mk_istate q held acc del) h → 0 ≤ n < 2 ^ 40 →
  ∃ q', ingest_read_loop k q = (q', take k (queue q)) ∧ queue q' = drop k (queue q) ∧
    ingest_inv n (mk_istate q' (held ++ take k (queue q)) acc
                    (del ++ omap (chunk_view h) (take k (queue q)))) h.
Proof.
  induction k as [|k IH]; intros n q held acc del h Hi Hn; cbn [ingest_read_loop].
  { exists q. rewrite !take_0, !app_nil_r. by split_and!. }
  destruct (Z.ltb_spec (q_tail q) (q_head q)) as [Hlt|Hge].
  - destruct (inv_pop n q held acc del h Hi Hn Hlt) as [Hq Hi1]. cbv zeta in *.
    set (c := q_slot q (q_tail q)) in *. set (q1 := setf q_tail _ _) in *.
    destruct (IH n q1 _ _ _ h Hi1 Hn) as (q' & Hr & Hq' & Hi'). exists q'. rewrite Hr, Hq. cbn [take drop].
    split_and!; [done|done|]. rewrite <- !app_assoc in Hi'. cbn [app] in Hi'.
    rewrite <- omap_app in Hi'. exact Hi'.
  - exists q. assert (queue q = []) as Hnil by by apply window_empty.
    rewrite Hnil. cbn. rewrite !app_nil_r. by split_and!.
Qed.

Lemma step_release n q held acc del h :
  ingest_inv n (mk_istate q held acc del) h →
  ∃ out h', ingest_release held h = Some (out, h') ∧
    ingest_inv n (mk_istate q [] acc del) h' ∧ Forall (λ c, ck_data c = None) out.
Proof.
  intros []. cbn [i_queue i_held i_accepted i_delivered] in *.
  destruct (owned_release h held (queue q)) as (out & h' & Hr & Ho & Hv & Hnone).
  { eapply owned_proper; [|done]. apply Permutation_app_comm. }
  exists out, h'. split_and!; [done| |done].
  split; cbn [i_queue i_held i_accepted i_delivered]; auto.
  - by rewrite app_nil_r.
  - by eapply sized_ext.
  - by rewrite (omap_view_ext h h').
Qed.

(** ** Teardown *)

Lemma free_slots_spec q h : ∀ seqs,
  owned h (q_slot q <$> seqs) → ∃ h', free_slots q seqs h = Some (tt, h') ∧ h_mem h' = ∅.
Proof.
  intros seqs. revert h. induction seqs as [|seq seqs IH]; intros h Ho; cbn [free_slots].
  - exists h. split; [done|]. destruct Ho as [_ _ Ha _]. apply map_empty. intros p.
    destruct (h_mem h !! p) eqn:E; [|done]. specialize (Ha p ltac:(eauto)). cbn in Ha. set_solver.
  - destruct (owned_free h _ _ Ho) as (h1 & Hf & Ho1 & _). unfold mbind, SM_bind. rewrite Hf. by apply IH.
Qed.

Lemma queue_slots q : is_pow2 (q_capacity q) → Z.of_nat (length (q_chunks q)) = q_capacity q →
  ∀ m t, 0 ≤ t → q_head q - t = Z.of_nat m →
  q_slot q <$> seqZ t (q_head q - t) = window (q_chunks q) (q_capacity q) t (q_head q).
Proof.
  intros Hp Hl. induction m as [|m IH]; intros t Ht Hm.
  - rewrite seqZ_nil, window_empty by lia. done.
  - destruct (lookup_slot (q_capacity q) Hp (q_chunks q) t Hl Ht) as [c Hc].
    rewrite seqZ_cons, (window_cons _ _ _ _ c) by (lia || done).
    replace (Z.pred (q_head q - t)) with (q_head q - (t + 1)) by lia.
    replace (Z.succ t) with (t + 1) by lia. cbn [fmap list_fmap].
    rewrite <- IH by lia. f_equal. unfold q_slot. by rewrite Hc.
Qed.

Lemma destroy_spec n q acc del h :
  ingest_inv n (mk_istate q [] acc del) h →
  ∃ h', ingest_destroy q h = Some (ingest_zero, h') ∧ h_mem h' = ∅.
Proof.
  intros Hi. pose proof (chunks_cons _ _ _ Hi) as Hne. destruct Hi.
  cbn [i_queue i_held i_accepted i_delivered] in *. rewrite app_nil_r in *.
  destruct (free_slots_spec q h (seqZ (q_tail q) (q_head q - q_tail q))) as (h' & Hf & Hm).
  { rewrite (queue_slots q iq_pow0 iq_len0 (Z.to_nat (q_head q - q_tail q))) by lia. done. }
  exists h'. unfold ingest_destroy. destruct (q_chunks q); [done|].
  unfold mbind, SM_bind. by rewrite Hf.
Qed.

(** ** The start and whole histories *)

Lemma init_spec q0 conf grant q h :
  ingest_init q0 conf grant = (NGX_OK, q) → h_mem h = ∅ →
  0 < ic_max_chunks conf < 2 ^ 64 → ic_max_bytes conf < 2 ^ 63 → 0 < ic_max_bytes conf →
  ingest_inv 0 (mk_istate q [] [] []) h.
Proof.
  intros Hinit Hh Hc Hb Hb0. unfold ingest_init in Hinit. destruct (_ || _); [done|].
  cbv zeta in Hinit. cbn [setf q_capacity ingest_zero] in Hinit. unfold ingest_pow2 in Hinit.
  destruct (Z.eqb_spec (pow2 (ic_max_chunks conf)) 0) as [|Hnz]; [done|].
  destruct (_ <? pow2 _); [done|]. destruct grant; [|done]. cbn [negb] in Hinit. injection Hinit as <-.
  destruct (pow2_nonzero (ic_max_chunks conf)) as [Hp Hle]; [lia|done|].
  pose proof (is_pow2_pos _ Hp). split; cbn [i_queue i_held i_accepted i_delivered setf
    q_stats q_capacity q_chunks q_max_chunks q_max_bytes q_head q_tail q_bytes]; try done; try lia.
  - rewrite length_replicate. lia.
  - split; cbn; [done|constructor|..]; intros p; rewrite Hh, lookup_empty; by intros [].
Qed.

(** What the consumer's calls do: every operation of a history is defined. *)
Lemma step_spec n st op h :
  ingest_inv n st h → 0 ≤ n < 2 ^ 40 →
  ∃ st' h', ingest_step st op h = Some (st', h') ∧ ingest_inv (n + 1) st' h'.
Proof.
  intros Hi Hn. destruct st as [q held acc del]. destruct op as [session data now|k|]; cbn [ingest_step].
  - destruct (step_write n q held acc del h session data now Hi Hn) as (q' & h' & Hw & Hi').
    rewrite Hw. cbn. eexists _, _. split; [done|exact Hi'].
  - destruct (read_loop_spec k n q held acc del h Hi Hn) as (q' & Hr & _ & Hi').
    unfold ingest_read. pose proof (chunks_cons _ _ _ Hi) as Hne. cbn [i_queue] in Hne.
    destruct (q_chunks q); [done|]. rewrite Hr. eexists _, _. split; [done|]. eapply inv_mono; [exact Hi'|lia].
  - destruct (step_release n q held acc del h Hi) as (out & h' & Hr & Hi' & _). rewrite Hr. cbn.
    eexists _, _. split; [done|]. eapply inv_mono; [exact Hi'|lia].
Qed.

Lemma run_spec ops : ∀ n st h,
  ingest_inv n st h → 0 ≤ n → n + Z.of_nat (length ops) ≤ 2 ^ 40 →
  ∃ st' h', ingest_run ops st h = Some (st', h') ∧ ingest_inv (n + Z.of_nat (length ops)) st' h'.
Proof.
  induction ops as [|op ops IH]; intros n st h Hi Hn Hl; cbn [length] in *.
  - eexists st, h. split; [done|]. eapply inv_mono; [done|lia].
  - destruct (step_spec n st op h Hi) as (st1 & h1 & Hs & Hi1); [lia|].
    destruct (IH (n + 1) st1 h1 Hi1) as (st2 & h2 & Hr & Hi2); [lia..|].
    exists st2, h2. cbn [ingest_run]. unfold mbind, SM_bind. rewrite Hs. split; [done|].
    replace (n + Z.of_nat (S (length ops))) with (n + 1 + Z.of_nat (length ops)) by lia. done.
Qed.

(** C12: the ingest queue is a bounded, lossless FIFO that owns its memory. Over any
    history of up to 2^40 writes, reads and releases from a fresh queue, no call is
    undefined; what was accepted is exactly what was delivered followed by what is
    queued, byte for byte and in order; both ceilings hold; every valid write is counted
    as accepted or dropped, in chunks and in bytes; the next write answers NGX_ERROR for
    an empty or oversized chunk or a failed allocation, NGX_AGAIN exactly at a ceiling and
    NGX_OK otherwise; the next read hands out the oldest chunks, as many as asked for and
    present; and once the consumer has released its chunks, destroying the queue frees
    every block. *)
Theorem ingest_fifo q0 conf q h ops :
  ingest_init q0 conf true = (NGX_OK, q) → h_mem h = ∅ →
  0 < ic_max_chunks conf < 2 ^ 64 → 0 < ic_max_bytes conf < 2 ^ 63 →
  Z.of_nat (length ops) < 2 ^ 40 →
  ∃ q' held acc del h', ingest_run ops (mk_istate q [] [] []) h = Some (mk_istate q' held acc del, h') ∧
    acc = del ++ omap (chunk_view h') (queue q') ∧
    Z.of_nat (length acc - length del) ≤ q_max_chunks q' ∧
    q_bytes q' = sumZ (ck_len <$> queue q') ∧ q_bytes q' ≤ q_max_bytes q' ∧
    is_chunks_in (q_stats q') = Z.of_nat (length acc) + is_chunks_dropped (q_stats q') ∧
    is_bytes_in (q_stats q') = sumZ ((λ e, lenZ e.2) <$> acc) + is_bytes_dropped (q_stats q') ∧
    (∀ session data now, ∃ q'' h'', ingest_write q' session data now h'
       = Some (write_result q' data (h_grant h' (h_next h') (lenZ data)), q'', h'')) ∧
    (∀ k, (ingest_read q' k).2 = take k (queue q')) ∧
    ∃ out h1 h2, ingest_release held h' = Some (out, h1) ∧
      ingest_destroy q' h1 = Some (ingest_zero, h2) ∧ h_mem h2 = ∅.
Proof.
  intros Hinit Hh Hc [Hb0 Hb] Hl.
  pose proof (init_spec _ _ _ _ h Hinit Hh Hc Hb Hb0) as Hi.
  destruct (run_spec ops 0 _ h Hi) as ([q' held acc del] & h' & Hr & Hi'); [lia..|].
  exists q', held, acc, del, h'. pose proof Hi' as [].
  cbn [i_queue i_held i_accepted i_delivered] in *.
  destruct (step_release _ _ _ _ _ _ Hi') as (out & h1 & Hrel & Hi1 & _).
  destruct (destroy_spec _ _ _ _ _ Hi1) as (h2 & Hd & Hm).
  split_and!; try done; [| | |by exists out, h1, h2].
  2: { intros session data now. destruct (step_write _ _ _ _ _ _ session data now Hi') as (q2 & h3 & Hw & _);
       [lia|]. by exists q2, h3. }
  2: { intros k. destruct (read_loop_spec k _ _ _ _ _ _ Hi') as (q2 & Hrd & _); [lia|].
       pose proof (chunks_cons _ _ _ Hi') as Hne. cbn [i_queue] in Hne. unfold ingest_read.
       destruct (q_chunks q'); [done|]. by rewrite Hrd. }
  rewrite iq_log0, length_app, length_views by by eapply owned_prefix.
  pose proof (length_window (q_capacity q') iq_pow0 (q_chunks q') (q_tail q') (q_head q') iq_len0 iq_seq0).
  unfold queue in *. lia.
Qed.
Definition ex_heap : heap := mk_heap ∅ 0 (λ _ _, true).
Definition ex_ingest : ingest := (ingest_init ingest_zero (mk_ingest_conf 3 100) true).2.
Lemma ingest_fifo_witness :
  ∃ q' held acc del h',
    ingest_run [IWrite 1 [71; 0] 5; IWrite 1 [71; 1; 2] 6; IRead 1; IRelease; IWrite 2 [71] 7]
      (mk_istate ex_ingest [] [] []) ex_heap = Some (mk_istate q' held acc del, h') ∧
    acc = del ++ omap (chunk_view h') (queue q').
Proof.
  destruct (ingest_fifo ingest_zero (mk_ingest_conf 3 100) ex_ingest ex_heap
    [IWrite 1 [71; 0] 5; IWrite 1 [71; 1; 2] 6; IRead 1; IRelease; IWrite 2 [71] 7])
    as (q' & held & acc & del & h' & Hr & Ha & _); [reflexivity|done|cbn; lia..|].
  exists q', held, acc, del, h'. split; [exact Hr|exact Ha].
Defined.
