(* ===== verification/TsMux.v ===== *)
(** * The MPEG-TS muxer

    Models mpegts/ngx_media_ts_mux.[ch]: a burst of transport packets is written into one
    backing buffer - PAT and PMT first, then every frame as one PES - and frozen.  The
    burst's backing is a payload buffer of Store.v, written at the cursor. *)
From S2P Require Import Prelude Bytes Store TsCrc Compat Nal.

Definition TS_PACKET : Z := 188.
Definition TS_PAYLOAD : Z := 184.
Definition MUX_MAX_SLICES : Z := 256.
Definition MUX_PID_PAT : Z := 0.
Definition MUX_PID_PMT : Z := 0x1000.
Definition MUX_PID_VIDEO : Z := 0x1011.
Definition MUX_PID_AUDIO : Z := 0x1100.
Definition STREAM_AAC_ADTS : Z := 0x0F.
Definition STREAM_H264 : Z := 0x1B.
Definition STREAM_H265 : Z := 0x24.

Record ts_slice := mk_slice {
  sl_offset : Z; sl_len : Z; sl_pts : Z; sl_dts : Z; sl_media_type : Z; sl_codec : Z;
  sl_keyframe : bool }.

(** [bu_slices] holds the slices in use; the cursor is an offset into the backing. *)
Record ts_burst := mk_burst {
  bu_backing : option N; bu_cursor : Z; bu_capacity : Z; bu_psi_len : Z;
  bu_slices : list ts_slice }.
#[global] Instance eta_burst : Eta ts_burst := λ r,
  mk_burst (bu_backing r) (bu_cursor r) (bu_capacity r) (bu_psi_len r) (bu_slices r).
Definition burst_zero : ts_burst := mk_burst None 0 0 0 [].

Record mux_conf := mk_mux_conf {
  mc_pmt_pid : Z; mc_pcr_pid : Z; mc_video_pid : Z; mc_audio_pid : Z;
  mc_default_burst_bytes : Z; mc_max_burst_bytes : Z }.
#[global] Instance eta_mux_conf : Eta mux_conf := λ r,
  mk_mux_conf (mc_pmt_pid r) (mc_pcr_pid r) (mc_video_pid r) (mc_audio_pid r)
    (mc_default_burst_bytes r) (mc_max_burst_bytes r).

Record ts_mux := mk_mux {
  mx_conf : mux_conf;
  mx_cc_pat : Z; mx_cc_pmt : Z; mx_cc_video : Z; mx_cc_audio : Z;
  mx_video_stream_type : Z; mx_audio_stream_type : Z; mx_tracks_ready : bool;
  mx_bursts : Z; mx_packets : Z; mx_bytes : Z; mx_psi_packets : Z; mx_pcr_packets : Z;
  mx_frame_bytes : Z; mx_frame_drops : Z }.
#[global] Instance eta_mux : Eta ts_mux := λ r,
  mk_mux (mx_conf r) (mx_cc_pat r) (mx_cc_pmt r) (mx_cc_video r) (mx_cc_audio r)
    (mx_video_stream_type r) (mx_audio_stream_type r) (mx_tracks_ready r)
    (mx_bursts r) (mx_packets r) (mx_bytes r) (mx_psi_packets r) (mx_pcr_packets r)
    (mx_frame_bytes r) (mx_frame_drops r).

Definition mux_conf_default : mux_conf :=
  mk_mux_conf MUX_PID_PMT MUX_PID_VIDEO MUX_PID_VIDEO MUX_PID_AUDIO (512 * 1024) (4 * 1024 * 1024).
Definition mux_zero : ts_mux :=
  mk_mux (mk_mux_conf 0 0 0 0 0 0) 0 0 0 0 0 0 false 0 0 0 0 0 0 0.

Definition mux_init (conf : option mux_conf) : ts_mux :=
  let c := default mux_conf_default conf in
  let c := if mc_default_burst_bytes c =? 0
           then c <| mc_default_burst_bytes := 512 * 1024 |> else c in
  let c := if mc_max_burst_bytes c <? mc_default_burst_bytes c
           then c <| mc_max_burst_bytes := mc_default_burst_bytes c |> else c in
  mux_zero <| mx_conf := c |>.

(** The last video and audio track of a known codec decide. *)
Fixpoint mux_scan_tracks (tracks : list track) (video audio : Z) : Z * Z :=
  match tracks with
  | [] => (video, audio)
  | t :: tracks =>
      if (tr_media_type t =? TYPE_VIDEO) && (tr_codec t =? CODEC_H264)
      then mux_scan_tracks tracks STREAM_H264 audio
      else if (tr_media_type t =? TYPE_VIDEO) && (tr_codec t =? CODEC_H265)
      then mux_scan_tracks tracks STREAM_H265 audio
      else if (tr_media_type t =? TYPE_AUDIO) && (tr_codec t =? CODEC_AAC)
      then mux_scan_tracks tracks video STREAM_AAC_ADTS
      else mux_scan_tracks tracks video audio
  end.
Definition mux_set_tracks (mux : ts_mux) (tracks : option trackset) : rc * ts_mux :=
  match tracks with
  | None => (NGX_ERROR, mux)
  | Some ts =>
      let '(video, audio) := mux_scan_tracks (ts_used ts) 0 0 in
      if (video =? 0) && (audio =? 0) then (NGX_ERROR, mux)
      else (NGX_OK, mux <| mx_video_stream_type := video |> <| mx_audio_stream_type := audio |>
                        <| mx_tracks_ready := true |>)
  end.

(** ** One packet *)

Definition payload_capacity (remain : Z) (with_pcr : bool) : Z :=
  let min_af := if with_pcr then 8 else 0 in
  if remain + min_af <? TS_PAYLOAD then remain else TS_PAYLOAD - min_af.

(** The copy loop over header and payload; without an answer when it cannot make
    progress. *)
Fixpoint copy_pes (fuel : nat) (n : nat) (header payload : list Z) (off : nat) : option (list Z) :=
  match n with
  | O => Some []
  | _ =>
      match fuel with
      | O => None
      | S fuel =>
          let src := if (off <? length header)%nat then drop off header
                     else drop (off - length header) payload in
          let take_n := Nat.min (length src) n in
          rest ← copy_pes fuel (n - take_n) header payload (off + take_n);
          Some (take take_n src ++ rest)
      end
  end.

(** [put_ts(p, prefix, v)]: the five bytes of a PES timestamp. *)
Definition put_ts (prefix v : Z) : list Z :=
  [u8 (Z.lor (Z.lor (Z.shiftl prefix 4) (Z.shiftl (Z.land (Z.shiftr v 30) 7) 1)) 1);
   u8 (Z.land (Z.shiftr v 22) 0xFF);
   u8 (Z.lor (Z.shiftl (Z.land (Z.shiftr v 15) 0x7F) 1) 1);
   u8 (Z.land (Z.shiftr v 7) 0xFF);
   u8 (Z.lor (Z.shiftl (Z.land v 0x7F) 1) 1)].

(** The adaptation field [mux_packet] needs, its length byte included. *)
Definition af_bytes (payload_len : Z) (with_pcr : bool) : Z :=
  let min_af := if with_pcr then 8 else 0 in
  if payload_len + min_af <? TS_PAYLOAD then TS_PAYLOAD - payload_len else min_af.

Definition pcr_bytes (pcr_base : Z) : list Z :=
  let base := Z.land (u64 pcr_base) 0x1FFFFFFFF in
  [u8 (Z.shiftr base 25); u8 (Z.shiftr base 17); u8 (Z.shiftr base 9); u8 (Z.shiftr base 1);
   u8 (Z.lor (Z.shiftl (Z.land base 1) 7) 0x7E); 0].

Definition af_field (af : Z) (with_pcr : bool) (pcr_base : Z) : list Z :=
  if 0 <? af then
    u8 (af - 1) ::
      if 1 <? af then
        (if with_pcr then 0x10 :: pcr_bytes pcr_base ++ replicate (Z.to_nat (af - 8)) 0xFF
         else 0 :: replicate (Z.to_nat (af - 2)) 0xFF)
      else []
  else [].

(** Header and adaptation field of a packet. *)
Definition packet_header (pid cc : Z) (pusi : bool) (payload_len : Z) (with_pcr : bool)
    (pcr_base : Z) : list Z :=
  let af := af_bytes payload_len with_pcr in
  [0x47;
   u8 (Z.lor (if pusi then 0x40 else 0) (Z.land (Z.shiftr pid 8) 0x1F));
   u8 (Z.land pid 0xFF);
   u8 (Z.lor (Z.shiftl (if af =? 0 then 1 else 3) 4) (Z.land cc 0x0F))]
  ++ af_field af with_pcr pcr_base.

(** [mux_packet]: the counter after the packet and where its payload goes. *)
Definition mux_packet (mux : ts_mux) (burst : ts_burst) (pid cc : Z) (pusi : bool)
    (payload_len : Z) (with_pcr : bool) (pcr_base : Z)
    : M (rc * ts_mux * ts_burst * Z * Z) :=
  match bu_backing burst with
  | None => ub
  | Some b =>
      if bu_capacity burst - bu_cursor burst <? TS_PACKET
      then mret (NGX_AGAIN, mux, burst, cc, 0)
      else
        let p := bu_cursor burst in
        let hdr := packet_header pid cc pusi payload_len with_pcr pcr_base in
        _ ← buf_write b p hdr;
        let mux := mux <| mx_packets := mx_packets mux ⊕ 1 |> in
        let mux := if with_pcr then mux <| mx_pcr_packets := mx_pcr_packets mux ⊕ 1 |> else mux in
        mret (NGX_OK, mux, burst <| bu_cursor := p + TS_PACKET |>, Z.land (cc + 1) 0x0F,
              p + lenZ hdr)
  end.

(** ** Program specific information *)

Definition mux_section (mux : ts_mux) (burst : ts_burst) (pid cc : Z) (section : list Z)
    : M (ts_mux * ts_burst * Z) :=
  r ← mux_packet mux burst pid cc true TS_PAYLOAD false 0;
  let '(rc, mux, burst, cc, out) := r in
  if bool_decide (rc = NGX_OK) then
    match bu_backing burst with
    | None => ub
    | Some b =>
        let take_n := if lenZ section <? TS_PAYLOAD - 1 then lenZ section else TS_PAYLOAD - 1 in
        _ ← buf_write b out
              (0 :: take (Z.to_nat take_n) section
                 ++ replicate (Z.to_nat (TS_PAYLOAD - 1 - take_n)) 0xFF);
        mret (mux <| mx_psi_packets := mx_psi_packets mux ⊕ 1 |>, burst, cc)
    end
  else mret (mux, burst, cc).

(** A PID behind reserved bits. *)
Definition pid_bytes (pid : Z) : list Z :=
  [u8 (Z.lor 0xE0 (Z.land (Z.shiftr pid 8) 0x1F)); u8 (Z.land pid 0xFF)].

Definition mux_pat (mux : ts_mux) : list Z :=
  let body := [0; 0xB0; 0x0D; 0; 1; 0xC1; 0; 0; 0; 1] ++ pid_bytes (mc_pmt_pid (mx_conf mux)) in
  body ++ be32 (ts_crc32 body).

Definition pmt_entry (stream_type pid : Z) : list Z :=
  if stream_type =? 0 then [] else u8 stream_type :: pid_bytes pid ++ [0xF0; 0].
Definition mux_pmt (mux : ts_mux) : list Z :=
  let n := (if mx_video_stream_type mux =? 0 then 0 else 1)
           + (if mx_audio_stream_type mux =? 0 then 0 else 1) in
  let section_length := 9 + 5 * n + 4 in
  let body :=
    [2; u8 (Z.lor 0xB0 (Z.land (Z.shiftr section_length 8) 0x0F)); u8 (Z.land section_length 0xFF);
     0; 1; 0xC1; 0; 0] ++ pid_bytes (mc_pcr_pid (mx_conf mux)) ++ [0xF0; 0]
    ++ pmt_entry (mx_video_stream_type mux) (mc_video_pid (mx_conf mux))
    ++ pmt_entry (mx_audio_stream_type mux) (mc_audio_pid (mx_conf mux)) in
  body ++ be32 (ts_crc32 body).

(** ** Bursts *)

Definition burst_init (mux : ts_mux) (capacity : Z) : M (rc * ts_mux * ts_burst) :=
  let capacity := if capacity =? 0 then mc_default_burst_bytes (mx_conf mux) else capacity in
  let capacity := if mc_max_burst_bytes (mx_conf mux) <? capacity
                  then mc_max_burst_bytes (mx_conf mux) else capacity in
  p ← buf_alloc capacity;
  match p with
  | None => mret (NGX_ERROR, mux, burst_zero)
  | Some b =>
      let burst := burst_zero <| bu_backing := Some b |> <| bu_capacity := capacity |> in
      let mux := mux <| mx_bursts := mx_bursts mux ⊕ 1 |> in
      if mx_tracks_ready mux then
        '(mux, burst, cc) ← mux_section mux burst MUX_PID_PAT (mx_cc_pat mux) (mux_pat mux);
        let mux := mux <| mx_cc_pat := cc |> in
        '(mux, burst, cc) ← mux_section mux burst (mc_pmt_pid (mx_conf mux)) (mx_cc_pmt mux)
                              (mux_pmt mux);
        let mux := mux <| mx_cc_pmt := cc |> in
        mret (NGX_OK, mux, burst <| bu_psi_len := bu_cursor burst |>)
      else mret (NGX_OK, mux, burst)
  end.

Definition burst_destroy (burst : ts_burst) : M ts_burst :=
  _ ← buf_unref (bu_backing burst); mret burst_zero.

Definition burst_size (burst : ts_burst) : Z :=
  match bu_backing burst with None => 0 | Some _ => bu_cursor burst end.

Definition burst_end (mux : ts_mux) (burst : ts_burst) : M (rc * ts_mux) :=
  match bu_backing burst with
  | None => mret (NGX_ERROR, mux)
  | Some _ =>
      let len := burst_size burst in
      r ← buf_freeze (bu_backing burst) len;
      if bool_decide (r = NGX_OK) then mret (NGX_OK, mux <| mx_bytes := mx_bytes mux ⊕ len |>)
      else mret (NGX_ERROR, mux)
  end.

Definition mux_destroy (mux : ts_mux) : ts_mux := mux_zero.

(** ** Frames *)

Definition PES_AUDIO : Z := 0xC0.
Definition PES_VIDEO : Z := 0xE0.

(** The PES header of a frame with [payload_len] bytes: 14 bytes, or 19 with a DTS. *)
Definition pes_header_len (f : frame) : Z := if pts f =? dts f then 14 else 19.
Definition pes_header (stream_id : Z) (bounded : bool) (f : frame) (payload_len : Z) : list Z :=
  let total_len := 3 + (pes_header_len f - 9) + payload_len in
  [0; 0; 1; u8 stream_id]
  ++ (if bounded
      then [u8 (Z.land (Z.shiftr total_len 8) 0xFF); u8 (Z.land total_len 0xFF)]
      else [0; 0])
  ++ [0x80; if pts f =? dts f then 0x80 else 0xC0; u8 (pes_header_len f - 9)]
  ++ put_ts (if pts f =? dts f then 2 else 3) (u64 (pts f))
  ++ (if pts f =? dts f then [] else put_ts 1 (u64 (dts f))).

(** The frozen bytes of a payload. *)
Definition payload_data (p : N) : M (list Z) := n ← buf_size (Some p); buf_read p n.

(** The packet loop of [write_frame]; every packet carries at least one byte, so the
    length of the PES is fuel enough. *)
Fixpoint write_loop (fuel : nat) (mux : ts_mux) (burst : ts_burst) (pid cc : Z)
    (first pcr : bool) (pcr_base : Z) (header payload : list Z) (off : Z)
    : M (rc * ts_mux * ts_burst * Z) :=
  let total := lenZ header + lenZ payload in
  if off <? total then
    match fuel with
    | O => ub
    | S fuel =>
        let take_n := payload_capacity (total - off) (first && pcr) in
        '(rc, mux, burst, cc, out) ←
          mux_packet mux burst pid cc first take_n (first && pcr) pcr_base;
        if bool_decide (rc = NGX_OK) then
          match bu_backing burst, copy_pes 2 (Z.to_nat take_n) header payload (Z.to_nat off) with
          | Some b, Some data =>
              _ ← buf_write b out data;
              write_loop fuel mux burst pid cc false pcr pcr_base header payload (off + take_n)
          | _, _ => ub
          end
        else mret (rc, mux, burst, cc)
    end
  else mret (NGX_OK, mux, burst, cc).

Definition write_frame (mux : ts_mux) (burst : ts_burst) (f : frame) (pcr : bool)
    : M (rc * ts_mux * ts_burst) :=
  match bu_backing burst, payload f with
  | None, _ => mret (NGX_ERROR, mux, burst)
  | Some _, None => mret (NGX_OK, mux, burst)
  | Some _, Some p =>
      if negb (mx_tracks_ready mux) then mret (NGX_OK, mux, burst)
      else if MUX_MAX_SLICES <=? Z.of_nat (length (bu_slices burst))
      then mret (NGX_AGAIN, mux, burst)
      else
        let audio := media_type f =? TYPE_AUDIO in
        let pid := if audio then mc_audio_pid (mx_conf mux) else mc_video_pid (mx_conf mux) in
        let stream_id := if audio then PES_AUDIO else PES_VIDEO in
        let cc := if audio then mx_cc_audio mux else mx_cc_video mux in
        data ← payload_data p;
        let payload_len := lenZ data in
        let header := pes_header stream_id audio f payload_len in
        let offset := bu_cursor burst in
        '(rc, mux', burst', cc') ←
          write_loop (Z.to_nat (lenZ header + payload_len)) mux burst pid cc true pcr (dts f)
            header data 0;
        if bool_decide (rc = NGX_OK) then
          let slice := mk_slice offset (bu_cursor burst' - offset) (pts f) (dts f)
                         (media_type f) (codec f) (keyframe f) in
          let mux' := mux' <| mx_frame_bytes := mx_frame_bytes mux' ⊕ payload_len |> in
          let mux' := if audio then mux' <| mx_cc_audio := cc' |>
                      else mux' <| mx_cc_video := cc' |> in
          mret (NGX_OK, mux', burst' <| bu_slices := bu_slices burst' ++ [slice] |>)
        else
          mret (NGX_AGAIN,
            mux' <| mx_packets := mx_packets mux |> <| mx_pcr_packets := mx_pcr_packets mux |>
                 <| mx_frame_drops := mx_frame_drops mux' ⊕ 1 |>,
            burst' <| bu_cursor := offset |>)
  end.

(** ** Writing into the backing *)

(** The burst's backing is [b] and its first bytes are [content], up to the cursor. *)
Record at_burst (b : N) (content : list Z) (burst : ts_burst) (s : store) : Prop := {
  ab_backing : bu_backing burst = Some b;
  ab_cursor : bu_cursor burst = lenZ content;
  ab_buf : ∃ bf, st_bufs s !! b = Some bf ∧ b_cap bf = bu_capacity burst ∧
    take (length content) (b_data bf) = content ∧ lenZ (b_data bf) ≤ bu_capacity burst }.

Lemma at_burst_fits b content burst s :
  at_burst b content burst s → lenZ content ≤ bu_capacity burst.
Proof.
  intros [_ _ (bf & _ & _ & Ht & Hl)]. apply (f_equal length) in Ht.
  rewrite length_take in Ht. unfold lenZ in *. lia.
Qed.

(** Writing [src] right behind [content]. *)
Lemma wp_append_write b content burst s src :
  at_burst b content burst s → lenZ content + lenZ src ≤ bu_capacity burst →
  wp (buf_write b (lenZ content) src) (λ _ s', ∃ d, s' = set_data b d s ∧
    ∀ burst', bu_backing burst' = Some b → bu_capacity burst' = bu_capacity burst →
      bu_cursor burst' = lenZ (content ++ src) → at_burst b (content ++ src) burst' s') s.
Proof.
  intros [Hbk Hcu (bf & Hb & Hcap & Ht & Hl)] Hfit.
  assert (length content ≤ length (b_data bf))%nat as Hle.
  { apply (f_equal length) in Ht. rewrite length_take in Ht. lia. }
  eapply wp_buf_write; [exact Hb|unfold lenZ in *; lia..|].
  eexists. split; [done|]. intros burst' Hbk' Hcap' Hcu'. split; [done|done|].
  eexists. split; [by apply set_data_lookup|]. cbn. unfold lenZ in *. rewrite Nat2Z.id, Ht.
  split_and!; [congruence| |].
  - rewrite app_assoc, take_app_length'; [done|by rewrite length_app].
  - rewrite !length_app, length_drop. lia.
Qed.

(** ** Packets *)

Definition min_af (with_pcr : bool) : Z := if with_pcr then 8 else 0.

Lemma af_bytes_eq n with_pcr : n + min_af with_pcr ≤ 184 → af_bytes n with_pcr = 184 - n.
Proof. unfold af_bytes, min_af, TS_PAYLOAD. intros. destruct with_pcr; caseb; lia. Qed.

Lemma af_field_length af with_pcr base :
  0 ≤ af → (with_pcr = true → 8 ≤ af) → lenZ (af_field af with_pcr base) = af.
Proof.
  intros Ha Hp. unfold af_field, lenZ. destruct (Z.ltb_spec 0 af); [|cbn; lia].
  destruct (Z.ltb_spec 1 af); [|cbn; lia].
  destruct with_pcr; cbn [length pcr_bytes app]; rewrite ?length_app, length_replicate; [|lia].
  cbn. specialize (Hp eq_refl). lia.
Qed.

Lemma packet_header_length pid cc pusi n with_pcr base :
  0 ≤ n → n + min_af with_pcr ≤ 184 → lenZ (packet_header pid cc pusi n with_pcr base) = 188 - n.
Proof.
  intros Hn Hf. assert (0 ≤ min_af with_pcr) by (by destruct with_pcr).
  unfold packet_header, lenZ. cbn zeta. rewrite length_app, Nat2Z.inj_add.
  change (Z.of_nat (length (af_field (af_bytes n with_pcr) with_pcr base)))
    with (lenZ (af_field (af_bytes n with_pcr) with_pcr base)).
  rewrite af_bytes_eq by done. rewrite af_field_length; [cbn; lia|lia|].
  intros ->. cbn in Hf. lia.
Qed.

Lemma payload_capacity_bounds remain with_pcr :
  0 < remain → 0 < payload_capacity remain with_pcr ≤ remain ∧
               payload_capacity remain with_pcr + min_af with_pcr ≤ 184.
Proof. intros. unfold payload_capacity, min_af, TS_PAYLOAD. destruct with_pcr; caseb; lia. Qed.

(** The muxer after a packet. *)
Definition count_packet (with_pcr : bool) (mux : ts_mux) : ts_mux :=
  let mux := mux <| mx_packets := mx_packets mux ⊕ 1 |> in
  if with_pcr then mux <| mx_pcr_packets := mx_pcr_packets mux ⊕ 1 |> else mux.

Lemma wp_mux_packet b content burst mux pid cc pusi n with_pcr base s :
  at_burst b content burst s → 0 ≤ n → n + min_af with_pcr ≤ 184 →
  wp (mux_packet mux burst pid cc pusi n with_pcr base) (λ r s',
    let hdr := packet_header pid cc pusi n with_pcr base in
    if bu_capacity burst - lenZ content <? 188
    then r = (NGX_AGAIN, mux, burst, cc, 0) ∧ s' = s
    else r = (NGX_OK, count_packet with_pcr mux, burst <| bu_cursor := lenZ content + 188 |>,
              Z.land (cc + 1) 0x0F, lenZ (content ++ hdr)) ∧
         ∃ d, s' = set_data b d s ∧
           at_burst b (content ++ hdr) (burst <| bu_cursor := lenZ (content ++ hdr) |>) s') s.
Proof.
  intros Hat Hn Hf. unfold mux_packet. pose proof (ab_cursor _ _ _ _ Hat) as Hcu.
  rewrite (ab_backing _ _ _ _ Hat), Hcu. unfold TS_PACKET. cbn zeta.
  destruct (Z.ltb_spec (bu_capacity burst - lenZ content) 188); [by apply wp_ret|].
  pose proof (packet_header_length pid cc pusi n with_pcr base Hn Hf) as Hh.
  apply wp_bind. eapply wp_mono; [eapply wp_append_write; [exact Hat|lia]|].
  intros _ s' (d & Hs' & Hat'). apply wp_ret. split.
  - unfold lenZ. rewrite length_app, Nat2Z.inj_add. destruct with_pcr; done.
  - exists d. split; [done|]. apply Hat'; [apply Hat|done|done].
Qed.

(** [mux_packet] followed by its payload appends one packet. *)
Lemma wp_packet_payload b content burst pid cc pusi n with_pcr base data s :
  let hdr := packet_header pid cc pusi n with_pcr base in
  lenZ data = n → n + min_af with_pcr ≤ 184 → 188 ≤ bu_capacity burst - lenZ content →
  at_burst b (content ++ hdr) (burst <| bu_cursor := lenZ (content ++ hdr) |>) s →
  wp (buf_write b (lenZ (content ++ hdr)) data) (λ _ s', ∃ d, s' = set_data b d s ∧
    at_burst b (content ++ hdr ++ data) (burst <| bu_cursor := lenZ content + 188 |>) s') s.
Proof.
  intros hdr Hn Hf Hc Hat.
  assert (lenZ hdr = 188 - lenZ data) as Hh by (rewrite Hn; apply packet_header_length; [unfold lenZ in *; lia|done]).
  clearbody hdr.
  eapply wp_mono; [eapply wp_append_write; [exact Hat|]|].
  - unfold lenZ in *. rewrite length_app. cbn. lia.
  - intros _ s' (d & -> & Hat'). exists d. split; [done|]. rewrite app_assoc. apply Hat'.
    + apply Hat. + done.
    + cbn. unfold lenZ in *. rewrite !length_app. lia.
Qed.

Lemma copy_pes_step fuel n header payload off :
  n ≠ 0%nat →
  copy_pes (S fuel) n header payload off =
    let src := if (off <? length header)%nat then drop off header
               else drop (off - length header) payload in
    rest ← copy_pes fuel (n - Nat.min (length src) n) header payload (off + Nat.min (length src) n);
    Some (take (Nat.min (length src) n) src ++ rest).
Proof. by destruct n. Qed.

Lemma copy_pes_payload fuel header payload n off :
  (length header ≤ off)%nat → (off + n ≤ length header + length payload)%nat →
  copy_pes (S fuel) n header payload off = Some (take n (drop off (header ++ payload))).
Proof.
  intros Ho Hk. destruct (decide (n = 0%nat)) as [->|]; [done|].
  rewrite copy_pes_step, (proj2 (Nat.ltb_ge _ _)), drop_app_ge by lia. cbn zeta.
  rewrite Nat.min_r, Nat.sub_diag by (rewrite length_drop; lia).
  destruct fuel; cbn [copy_pes mbind option_bind]; by rewrite app_nil_r.
Qed.

Lemma copy_pes_spec header payload n off :
  (off + n ≤ length header + length payload)%nat →
  copy_pes 2 n header payload off = Some (take n (drop off (header ++ payload))).
Proof.
  intros Hle. destruct (decide (n = 0%nat)) as [->|]; [done|].
  destruct (Nat.ltb_spec off (length header)) as [Hlt|Hge]; [|by apply copy_pes_payload].
  rewrite copy_pes_step, (proj2 (Nat.ltb_lt _ _)), drop_app_le by lia. cbn zeta.
  rewrite length_drop. destruct (Nat.le_gt_cases n (length header - off)).
  - rewrite Nat.min_r, Nat.sub_diag by lia. cbn [copy_pes mbind option_bind].
    by rewrite app_nil_r, take_app_le by (rewrite length_drop; lia).
  - rewrite Nat.min_l, copy_pes_payload by lia. cbn [mbind option_bind]. f_equal.
    replace (off + (length header - off))%nat with (length header) by lia.
    rewrite drop_app_length, (take_ge (drop off header)) by (rewrite length_drop; lia).
    by rewrite take_app_ge, length_drop by (rewrite length_drop; lia).
Qed.

(** ** The packets of a frame *)

(** The packets a PES is cut into. *)
Fixpoint packetize (fuel : nat) (pid cc : Z) (first pcr : bool) (base : Z) (pes : list Z)
    : list (list Z) :=
  match fuel, pes with
  | S fuel, _ :: _ =>
      let n := payload_capacity (lenZ pes) (first && pcr) in
      (packet_header pid cc first n (first && pcr) base ++ take (Z.to_nat n) pes)
      :: packetize fuel pid (Z.land (cc + 1) 0x0F) false pcr base (drop (Z.to_nat n) pes)
  | _, _ => []
  end.

Lemma packetize_nil fuel pid cc first pcr base : packetize fuel pid cc first pcr base [] = [].
Proof. by destruct fuel. Qed.

Definition recounted (mux mux' : ts_mux) : Prop :=
  mux' = mux <| mx_packets := mx_packets mux' |> <| mx_pcr_packets := mx_pcr_packets mux' |>.

Lemma recounted_refl mux : recounted mux mux.
Proof. by destruct mux. Qed.
Lemma recounted_trans mux1 mux2 mux3 : recounted mux1 mux2 → recounted mux2 mux3 → recounted mux1 mux3.
Proof. unfold recounted. intros -> ->. by destruct mux3. Qed.
Lemma recounted_packet with_pcr mux : recounted mux (count_packet with_pcr mux).
Proof. by destruct mux, with_pcr. Qed.

Lemma land15_add a n : Z.land (Z.land a 15 + n) 15 = Z.land (a + n) 15.
Proof. rewrite !(land_ones _ 4 ltac:(done)). by rewrite Zplus_mod_idemp_l. Qed.

(** What the loop leaves, from [content] and the part [pes] of the PES still to write. *)
Record loop_post (b : N) (content : list Z) (burst : ts_burst) (mux : ts_mux) (cc : Z)
    (with_pcr : bool) (pkts : list (list Z)) (s : store)
    (rc : rc) (mux' : ts_mux) (burst' : ts_burst) (cc' : Z) (s' : store) : Prop := {
  lp_store : ∃ d, s' = set_data b d s;
  lp_mux : recounted mux mux';
  lp_burst : burst' = burst <| bu_cursor := bu_cursor burst' |>;
  lp_rc : if lenZ content + 188 * Z.of_nat (length pkts) <=? bu_capacity burst
    then rc = NGX_OK ∧ at_burst b (content ++ concat pkts) burst' s' ∧
         Z.land cc' 15 = Z.land (cc + Z.of_nat (length pkts)) 15 ∧
         u64 (mx_packets mux') = mx_packets mux ⊕ Z.of_nat (length pkts) ∧
         u64 (mx_pcr_packets mux') = mx_pcr_packets mux ⊕ (if with_pcr then 1 else 0)
    else rc = NGX_AGAIN ∧ ∃ more, at_burst b (content ++ more) burst' s' }.

Lemma set_data_refl b content burst s : at_burst b content burst s → ∃ d, s = set_data b d s.
Proof. intros [_ _ (bf & Hb & _)]. exists (b_data bf). by rewrite (set_data_same _ _ _ Hb). Qed.

Lemma loop_post_nil b content burst mux cc s :
  at_burst b content burst s → loop_post b content burst mux cc false [] s NGX_OK mux burst cc s.
Proof.
  intros Hat. pose proof (at_burst_fits _ _ _ _ Hat) as Hfit.
  split; [by eapply set_data_refl|apply recounted_refl|by destruct burst|]. cbn.
  rewrite Z.add_0_r, (proj2 (Z.leb_le _ _)) by done. by rewrite app_nil_r, !Z.add_0_r.
Qed.

Lemma loop_post_full b content burst mux cc w pkt pkts s :
  at_burst b content burst s → bu_capacity burst - lenZ content < 188 →
  loop_post b content burst mux cc w (pkt :: pkts) s NGX_AGAIN mux burst cc s.
Proof.
  intros Hat Hlt.
  split; [by eapply set_data_refl|apply recounted_refl|by destruct burst|]. cbn [length].
  rewrite (proj2 (Z.leb_gt _ _)) by lia. split; [done|]. exists []. by rewrite app_nil_r.
Qed.

Lemma loop_post_cons b content burst mux cc w pkt pkts s d s1 burst1 rc mux' burst' cc' s' :
  lenZ pkt = 188 → s1 = set_data b d s → burst1 = burst <| bu_cursor := bu_cursor burst1 |> →
  loop_post b (content ++ pkt) burst1 (count_packet w mux) (Z.land (cc + 1) 15) false pkts s1
    rc mux' burst' cc' s' →
  loop_post b content burst mux cc w (pkt :: pkts) s rc mux' burst' cc' s'.
Proof.
  intros Hl -> Hb1 [[d' ->] Hm Hb Hrc]. split.
  - exists d'. by rewrite set_data_twice.
  - by eapply recounted_trans, Hm; apply recounted_packet.
  - rewrite Hb, Hb1. by destruct burst.
  - rewrite Hb1 in Hrc. unfold lenZ in Hrc, Hl |- *. rewrite length_app in Hrc.
    cbn [bu_capacity setf] in Hrc. cbn [length concat]. revert Hrc.
    replace (Z.of_nat (length content) + 188 * Z.of_nat (S (length pkts)))
      with (Z.of_nat (length content + length pkt) + 188 * Z.of_nat (length pkts)) by lia.
    caseb.
    + intros (-> & Hat & Hcc & Hp & Hq). rewrite app_assoc. split_and!; [done|done| | |].
      * rewrite Hcc, land15_add. f_equal. lia.
      * rewrite Hp. destruct w; cbn; autorewrite with media; f_equal; lia.
      * rewrite Hq. destruct w; cbn; autorewrite with media; f_equal; lia.
    + intros (-> & more & Hat). split; [done|]. exists (pkt ++ more). by rewrite app_assoc.
Qed.

Lemma packetize_cons fuel pid cc first pcr base pes :
  pes ≠ [] →
  packetize (S fuel) pid cc first pcr base pes =
    let n := payload_capacity (lenZ pes) (first && pcr) in
    (packet_header pid cc first n (first && pcr) base ++ take (Z.to_nat n) pes)
    :: packetize fuel pid (Z.land (cc + 1) 15) false pcr base (drop (Z.to_nat n) pes).
Proof. by destruct pes. Qed.

Lemma wp_write_loop fuel b content burst mux pid cc first pcr base header payload off s :
  at_burst b content burst s → 0 ≤ off ≤ lenZ header + lenZ payload →
  lenZ header + lenZ payload - off ≤ Z.of_nat fuel →
  let pes := drop (Z.to_nat off) (header ++ payload) in
  wp (write_loop fuel mux burst pid cc first pcr base header payload off) (λ r s',
    loop_post b content burst mux cc (bool_decide (pes ≠ []) && (first && pcr))
      (packetize fuel pid cc first pcr base pes) s r.1.1.1 r.1.1.2 r.1.2 r.2 s') s.
Proof.
  revert content burst mux cc first off s.
  induction fuel as [|fuel IH]; intros content burst mux cc first off s Hat Hoff Hf pes.
  all: assert (lenZ pes = lenZ header + lenZ payload - off) as Hlen
    by (unfold pes, lenZ in *; rewrite length_drop, length_app; lia).
  all: cbn [write_loop]; cbn zeta; destruct (Z.ltb_spec off (lenZ header + lenZ payload)) as [Hlt|Hge].
  { lia. }
  2: assert (pes ≠ []) as Hne by (intros E; rewrite E in Hlen; change (lenZ []) with 0 in Hlen; lia).
  1, 3: assert (pes = []) as -> by (apply nil_length_inv; unfold lenZ in *; lia);
    rewrite packetize_nil; apply wp_ret; by apply loop_post_nil.
  rewrite packetize_cons, bool_decide_eq_true_2, Hlen by done. cbn zeta.
  destruct (payload_capacity_bounds (lenZ header + lenZ payload - off) (first && pcr))
    as [Hn Haf]; [lia|].
  set (n := payload_capacity _ _) in *. set (w := first && pcr) in *.
  assert (lenZ (take (Z.to_nat n) pes) = n) as Htake
    by (unfold lenZ in *; rewrite length_take; lia).
  apply wp_bind. eapply wp_mono; [apply wp_mux_packet; [exact Hat|lia|done]|].
  intros r s1 Hpk. cbn zeta in Hpk. revert Hpk.
  destruct (Z.ltb_spec (bu_capacity burst - lenZ content) 188) as [Hfull|Hroom].
  { intros [-> ->]. apply wp_ret. by apply loop_post_full. }
  intros [-> (d & Hs1 & Hat1)]. cbv beta iota. rewrite bool_decide_eq_true_2 by done.
  assert (bu_backing (burst <| bu_cursor := lenZ content + 188 |>) = Some b) as -> by apply Hat.
  rewrite copy_pes_spec by (unfold lenZ in *; lia). fold pes.
  apply wp_bind. eapply wp_mono; [apply (wp_packet_payload b content burst); [exact Htake|done|lia|exact Hat1]|].
  intros _ s2 (d2 & Hs2 & Hat2).
  eapply wp_mono; [apply IH; [exact Hat2|lia|lia]|].
  intros [[[r' mux'] burst'] cc'] s' Hpost. cbn [fst snd] in *.
  replace (drop (Z.to_nat (off + n)) (header ++ payload)) with (drop (Z.to_nat n) pes) in Hpost
    by (unfold pes; rewrite drop_drop; f_equal; lia).
  rewrite andb_false_r in Hpost.
  eapply loop_post_cons; [| |  |exact Hpost].
  - unfold lenZ in *. rewrite length_app, Nat2Z.inj_add.
    change (Z.of_nat (length (packet_header pid cc first n w base)))
      with (lenZ (packet_header pid cc first n w base)).
    rewrite packet_header_length by lia. lia.
  - rewrite Hs2, Hs1. by rewrite set_data_twice.
  - done.
Qed.

(** ** Frames and sections *)

Lemma wp_payload_data p data s :
  carries s p data → wp (payload_data p) (λ r s', r = data ∧ s' = s) s.
Proof.
  intros (bf & Hb & Hl & Ht). pose proof (f_equal length Ht) as Hlen. rewrite length_take in Hlen.
  unfold payload_data, buf_size, buf_read, deref. exists data, s. split; [|done].
  unfold mbind, SM_bind, mret, SM_ret. rewrite Hb. cbn. rewrite Hb, Hl. unfold lenZ.
  rewrite (proj2 (Z.leb_le _ _)) by lia. by rewrite Nat2Z.id, Ht.
Qed.

Lemma at_burst_prefix b content more burst s :
  at_burst b (content ++ more) burst s →
  at_burst b content (burst <| bu_cursor := lenZ content |>) s.
Proof.
  intros [Hbk Hcu (bf & Hb & Hcap & Ht & Hl)]. split; [done|done|]. exists bf. split_and!; try done.
  apply (f_equal (take (length content))) in Ht. rewrite take_take in Ht.
  rewrite length_app, Nat.min_l in Ht by lia. by rewrite Ht, take_app_length.
Qed.

Definition is_audio (f : frame) : bool := media_type f =? TYPE_AUDIO.
Definition frame_pid (mux : ts_mux) (f : frame) : Z :=
  if is_audio f then mc_audio_pid (mx_conf mux) else mc_video_pid (mx_conf mux).
Definition frame_cc (mux : ts_mux) (f : frame) : Z :=
  if is_audio f then mx_cc_audio mux else mx_cc_video mux.
Definition frame_pes (f : frame) (data : list Z) : list Z :=
  pes_header (if is_audio f then PES_AUDIO else PES_VIDEO) (is_audio f) f (lenZ data) ++ data.
Definition frame_packets (mux : ts_mux) (f : frame) (pcr : bool) (data : list Z) : list (list Z) :=
  let pes := frame_pes f data in
  packetize (length pes) (frame_pid mux f) (frame_cc mux f) true pcr (dts f) pes.

(** The counters of a muxer that wrote [n] packets of a frame. *)
Record mux_wrote (mux : ts_mux) (f : frame) (pcr : bool) (n len : Z) (mux' : ts_mux) : Prop := {
  mw_conf : mx_conf mux' = mx_conf mux;
  mw_types : mx_video_stream_type mux' = mx_video_stream_type mux ∧
             mx_audio_stream_type mux' = mx_audio_stream_type mux ∧
             mx_tracks_ready mux' = mx_tracks_ready mux;
  mw_psi : mx_cc_pat mux' = mx_cc_pat mux ∧ mx_cc_pmt mux' = mx_cc_pmt mux;
  mw_cc : Z.land (frame_cc mux' f) 15 = Z.land (frame_cc mux f + n) 15;
  mw_other : if is_audio f then mx_cc_video mux' = mx_cc_video mux
             else mx_cc_audio mux' = mx_cc_audio mux;
  mw_counts : u64 (mx_packets mux') = mx_packets mux ⊕ n ∧
    u64 (mx_pcr_packets mux') = mx_pcr_packets mux ⊕ (if pcr then 1 else 0) ∧
    mx_frame_bytes mux' = mx_frame_bytes mux ⊕ len ∧ mx_frame_drops mux' = mx_frame_drops mux }.

Lemma pes_header_length id bounded f n : lenZ (pes_header id bounded f n) = pes_header_len f.
Proof. unfold pes_header, pes_header_len, lenZ. destruct bounded, (pts f =? dts f); done. Qed.

Lemma wp_write_frame b content burst mux f pcr p data s :
  at_burst b content burst s → payload f = Some p → carries s p data →
  mx_tracks_ready mux = true → Z.of_nat (length (bu_slices burst)) < MUX_MAX_SLICES →
  let pkts := frame_packets mux f pcr data in
  let n := Z.of_nat (length pkts) in
  wp (write_frame mux burst f pcr) (λ r s', (∃ d, s' = set_data b d s) ∧
    let '(rc, mux', burst') := r in
    if lenZ content + 188 * n <=? bu_capacity burst
    then rc = NGX_OK ∧ at_burst b (content ++ concat pkts) burst' s' ∧
         mux_wrote mux f pcr n (lenZ data) mux' ∧
         burst' = burst <| bu_cursor := bu_cursor burst' |> <| bu_slices := bu_slices burst ++
           [mk_slice (lenZ content) (bu_cursor burst' - lenZ content) (pts f) (dts f)
              (media_type f) (codec f) (keyframe f)] |>
    else r = (NGX_AGAIN, mux <| mx_frame_drops := mx_frame_drops mux ⊕ 1 |>, burst) ∧
         at_burst b content burst s') s.
Proof.
  intros Hat Hp Hc Hready Hslices pkts n. unfold write_frame.
  rewrite (ab_backing _ _ _ _ Hat), Hp, Hready, (proj2 (Z.leb_gt _ _)) by done. cbn [negb].
  apply wp_bind. eapply wp_mono; [by apply wp_payload_data|]. intros ? ? [-> ->].
  cbv zeta. rewrite (ab_cursor _ _ _ _ Hat).
  change (media_type f =? TYPE_AUDIO) with (is_audio f).
  set (header := pes_header (if is_audio f then PES_AUDIO else PES_VIDEO) (is_audio f) f (lenZ data)).
  assert (frame_pes f data = header ++ data) as Hpes by done.
  assert (0 < lenZ header) as Hh
    by (unfold header; rewrite pes_header_length; unfold pes_header_len; by caseb).
  apply wp_bind. eapply wp_mono;
    [apply (wp_write_loop _ b content); [exact Hat|unfold lenZ in *; lia|unfold lenZ in *; lia]|].
  intros [[[rc mux'] burst'] cc'] s'. cbn [Z.to_nat drop fst snd].
  rewrite bool_decide_eq_true_2 by (by destruct header). cbn [andb].
  assert (Z.to_nat (lenZ header + lenZ data) = length (frame_pes f data)) as ->
    by (rewrite Hpes, length_app; unfold lenZ; lia).
  intros Hpost.
  assert (loop_post b content burst mux (frame_cc mux f) pcr pkts s rc mux' burst' cc' s')
    as [Hs Hm Hb Hrc] by exact Hpost.
  clear Hpost. revert Hrc. subst n.
  destruct (Z.leb_spec (lenZ content + 188 * Z.of_nat (length pkts)) (bu_capacity burst)).
  - intros (-> & Hat' & Hcc & Hpk & Hpcr). rewrite bool_decide_eq_true_2 by done. apply wp_ret.
    split; [exact Hs|]. rewrite Hm in Hpk, Hpcr |- *. unfold frame_cc in *.
    split_and!; [done|by destruct Hat' as [? ? ?]; split| |rewrite Hb; by destruct burst].
    destruct (is_audio f) eqn:Ha; (split; unfold frame_cc; rewrite ?Ha; done).
  - intros (-> & more & Hat'). rewrite bool_decide_eq_false_2 by done. apply wp_ret.
    split; [exact Hs|]. apply at_burst_prefix in Hat'. rewrite Hm, Hb. split.
    + pose proof (ab_cursor _ _ _ _ Hat) as Hcu. destruct mux, burst. cbn in *. by rewrite Hcu.
    + rewrite Hb in Hat'. pose proof (ab_cursor _ _ _ _ Hat) as Hcu. destruct burst.
      cbn in *. by rewrite Hcu.
Qed.

(** One section in one packet, padded with stuffing bytes. *)
Definition section_packet (pid cc : Z) (section : list Z) : list Z :=
  packet_header pid cc true 184 false 0 ++ 0 :: section ++ replicate (183 - length section) 0xFF.

(** [content] with a section's packet behind it, when there is room. *)
Definition put_section (capacity pid cc : Z) (section content : list Z) : list Z :=
  if capacity - lenZ content <? 188 then content else content ++ section_packet pid cc section.

(** Changes of the packet counters only. *)
Definition recounted_psi (mux mux' : ts_mux) : Prop :=
  mux' = mux <| mx_packets := mx_packets mux' |> <| mx_psi_packets := mx_psi_packets mux' |>.

Lemma recounted_psi_fields mux mux' :
  recounted_psi mux mux' →
  mx_conf mux' = mx_conf mux ∧ mx_video_stream_type mux' = mx_video_stream_type mux ∧
  mx_audio_stream_type mux' = mx_audio_stream_type mux ∧
  mx_tracks_ready mux' = mx_tracks_ready mux ∧ mx_cc_pmt mux' = mx_cc_pmt mux ∧
  mx_cc_video mux' = mx_cc_video mux ∧ mx_cc_audio mux' = mx_cc_audio mux ∧
  mx_bursts mux' = mx_bursts mux.
Proof. by intros ->. Qed.

Lemma mux_pmt_ext mux mux' :
  mx_conf mux' = mx_conf mux → mx_video_stream_type mux' = mx_video_stream_type mux →
  mx_audio_stream_type mux' = mx_audio_stream_type mux → mux_pmt mux' = mux_pmt mux.
Proof. unfold mux_pmt. by intros -> -> ->. Qed.

Lemma wp_mux_section b content burst mux pid cc section s :
  at_burst b content burst s → (length section ≤ 183)%nat →
  wp (mux_section mux burst pid cc section) (λ r s', (∃ d, s' = set_data b d s) ∧
    let '(mux', burst', cc') := r in
    let content' := put_section (bu_capacity burst) pid cc section content in
    at_burst b content' burst' s' ∧ burst' = burst <| bu_cursor := lenZ content' |> ∧
    recounted_psi mux mux' ∧
    cc' = if bu_capacity burst - lenZ content <? 188 then cc else Z.land (cc + 1) 15) s.
Proof.
  intros Hat Hlen. unfold mux_section, TS_PAYLOAD, put_section.
  apply wp_bind. eapply wp_mono; [by apply wp_mux_packet; [exact Hat|..]|].
  intros r s1. cbn zeta. destruct (Z.ltb_spec (bu_capacity burst - lenZ content) 188).
  - intros [-> ->]. cbv beta iota. rewrite bool_decide_eq_false_2 by done. apply wp_ret.
    split; [by eapply set_data_refl|]. split_and!; [done| |by destruct mux|done].
    pose proof (ab_cursor _ _ _ _ Hat). destruct burst. cbn in *. by subst.
  - intros [-> (d & Hs1 & Hat1)]. cbv beta iota. rewrite bool_decide_eq_true_2 by done.
    assert (bu_backing (burst <| bu_cursor := lenZ content + 188 |>) = Some b) as -> by apply Hat.
    assert ((if lenZ section <? 184 - 1 then lenZ section else 184 - 1) = lenZ section) as ->
      by (unfold lenZ; caseb; lia).
    assert (take (Z.to_nat (lenZ section)) section = section) as ->
      by (apply take_ge; unfold lenZ; lia).
    replace (Z.to_nat (184 - 1 - lenZ section)) with (183 - length section)%nat
      by (unfold lenZ; lia).
    apply wp_bind. eapply wp_mono; [apply (wp_packet_payload b content burst); [|done|lia|exact Hat1]|].
    + unfold lenZ. cbn [length]. rewrite length_app, length_replicate. lia.
    + intros _ s2 (d2 & Hs2 & Hat2). apply wp_ret. split.
      { exists d2. by rewrite Hs2, Hs1, set_data_twice. }
      assert (lenZ (content ++ section_packet pid cc section) = lenZ content + 188) as ->.
      { pose proof (ab_cursor _ _ _ _ Hat2) as Hcu. cbn in Hcu. unfold section_packet. by rewrite Hcu. }
      split_and!; [exact Hat2|done|by destruct mux|done].
Qed.

Lemma mux_pat_length mux : length (mux_pat mux) = 16%nat.
Proof. done. Qed.
Lemma mux_pmt_length mux : (length (mux_pmt mux) ≤ 26)%nat.
Proof. unfold mux_pmt, pmt_entry. repeat case_match; cbn; lia. Qed.

(** The program tables at the start of a burst. *)
Definition psi_content (mux : ts_mux) (capacity : Z) : list Z :=
  if mx_tracks_ready mux
  then put_section capacity (mc_pmt_pid (mx_conf mux)) (mx_cc_pmt mux) (mux_pmt mux)
         (put_section capacity MUX_PID_PAT (mx_cc_pat mux) (mux_pat mux) [])
  else [].

(** What a new burst leaves of the muxer. *)
Record mux_started (mux mux' : ts_mux) : Prop := {
  ms_conf : mx_conf mux' = mx_conf mux;
  ms_types : mx_video_stream_type mux' = mx_video_stream_type mux ∧
             mx_audio_stream_type mux' = mx_audio_stream_type mux ∧
             mx_tracks_ready mux' = mx_tracks_ready mux;
  ms_cc : mx_cc_video mux' = mx_cc_video mux ∧ mx_cc_audio mux' = mx_cc_audio mux;
  ms_bursts : mx_bursts mux' = mx_bursts mux ⊕ 1 }.

Definition burst_capacity (mux : ts_mux) (capacity : Z) : Z :=
  Z.min (if capacity =? 0 then mc_default_burst_bytes (mx_conf mux) else capacity)
        (mc_max_burst_bytes (mx_conf mux)).

(** An allocation leaves what was there. *)
Definition kept (s s' : store) : Prop :=
  ∀ id, (id < st_next s)%N → st_bufs s' !! id = st_bufs s !! id.

Lemma wp_buf_alloc_kept n s : wp (buf_alloc n) (λ _ s', kept s s') s.
Proof.
  unfold buf_alloc. caseb; [by apply wp_ret|]. apply wp_bind. eexists _, _. split; [done|].
  destruct (_ && _); [|by apply wp_ret]. eexists _, _. split; [done|]. intros id Hid. cbn.
  by rewrite lookup_insert_ne by lia.
Qed.

Lemma wp_burst_init mux capacity L s :
  owns s L → 0 ≤ burst_capacity mux capacity →
  wp (burst_init mux capacity) (λ r s', evolves s s' ∧ kept s s' ∧
    (r = (NGX_ERROR, mux, burst_zero) ∧ owns s' L ∨
     ∃ b mux' burst, r = (NGX_OK, mux', burst) ∧ owns s' (b :: L) ∧ (b ∉ L) ∧
       bu_capacity burst = burst_capacity mux capacity ∧ bu_slices burst = [] ∧
       bu_psi_len burst = lenZ (psi_content mux (burst_capacity mux capacity)) ∧
       at_burst b (psi_content mux (burst_capacity mux capacity)) burst s' ∧
       mux_started mux mux')) s.
Proof.
  intros Ho Hc. unfold burst_init.
  assert ((let c := if capacity =? 0 then mc_default_burst_bytes (mx_conf mux) else capacity in
    if mc_max_burst_bytes (mx_conf mux) <? c then mc_max_burst_bytes (mx_conf mux) else c)
    = burst_capacity mux capacity) as Hcap.
  { unfold burst_capacity. cbn zeta. destruct (capacity =? 0); caseb; lia. }
  cbn zeta in *. rewrite Hcap. set (cap := burst_capacity mux capacity) in *.
  apply wp_bind. eapply wp_mono; [apply wp_and; [by apply wp_buf_alloc|apply wp_buf_alloc_kept]|].
  intros [b|] s1 [(Ho1 & Hev & Hfresh) Hk]; [|apply wp_ret; eauto].
  destruct (Hfresh b eq_refl) as [Hge Hb].
  assert (b ∉ L) as Hnin.
  { intros Hin. destruct (owns_in _ _ _ Ho Hin) as [bf Hbf].
    apply (wf_next _ (owns_wf _ _ Ho)) in Hbf. lia. }
  set (burst := burst_zero <| bu_backing := Some b |> <| bu_capacity := cap |>).
  assert (at_burst b [] burst s1) as Hat.
  { split; [done..|]. eexists. by split_and!. }
  assert (∀ d, lenZ d ≤ cap → owns (set_data b d s1) (b :: L) ∧ evolves s (set_data b d s1) ∧
    kept s (set_data b d s1)) as Hset.
  { intros d Hd. split; [by eapply owns_set_data|]. destruct Hev as [Hn Ha Hsame]. split; [split|].
    - done. - done.
    - intros id b' Hb' Hlt. rewrite set_data_other in Hb' by lia. eauto.
    - intros id Hlt. rewrite set_data_other by lia. by apply Hk. }
  unfold psi_content. cbn [mx_tracks_ready setf]. destruct (mx_tracks_ready mux) eqn:Hready.
  2:{ apply wp_ret. split; [done|]. split; [done|]. right. eexists b, _, burst. split; [reflexivity|].
      split_and!; [exact Ho1|done..|exact Hat|]. by split; rewrite ?Hready. }
  apply wp_bind. eapply wp_mono; [by apply (wp_mux_section b []); [|rewrite mux_pat_length; lia]|].
  intros [[mux1 burst1] cc1] s2 ([d1 ->] & Hat1 & Hb1 & Hm1 & Hcc1).
  apply wp_bind. eapply wp_mono;
    [eapply wp_mux_section; [exact Hat1|etrans; [apply mux_pmt_length|lia]]|].
  intros [[mux2 burst2] cc2] s3 ([d2 Hs3] & Hat2 & Hb2 & Hm2 & Hcc2).
  rewrite set_data_twice in Hs3. apply wp_ret.
  apply recounted_psi_fields in Hm1 as (Hc1 & Hv1 & Ha1 & Hr1 & Hp1 & Hcv1 & Hca1 & Hn1).
  apply recounted_psi_fields in Hm2 as (Hc2 & Hv2 & Ha2 & Hr2 & _ & Hcv2 & Hca2 & Hn2).
  rewrite (mux_pmt_ext mux) in Hat2, Hb2 by done. cbn [mx_conf mx_cc_pmt setf] in Hat2, Hb2.
  rewrite Hc1, Hp1 in Hat2, Hb2. cbn [mx_conf mx_cc_pmt setf] in Hat2, Hb2.
  assert (bu_capacity burst1 = cap) as Hcap1 by (by rewrite Hb1).
  assert (bu_capacity burst2 = cap) as Hcap2 by (by rewrite Hb2, Hb1).
  assert (bu_slices burst2 = []) as Hsl by (by rewrite Hb2, Hb1).
  pose proof (ab_cursor _ _ _ _ Hat2) as Hcu. rewrite Hcap1 in Hat2, Hcu.
  assert (lenZ d2 ≤ cap) as Hd2.
  { destruct Hat2 as [_ _ (bf & Hbf & _ & _ & Hl)]. rewrite Hs3 in Hbf.
    erewrite set_data_lookup in Hbf by exact Hb. injection Hbf as <-. by rewrite <- Hcap2. }
  destruct (Hset d2 Hd2) as (Ho3 & Hev3 & Hk3). rewrite <- Hs3 in Ho3, Hev3, Hk3.
  split; [exact Hev3|]. split; [exact Hk3|]. right.
  eexists b, _, _. split; [reflexivity|].
  split_and!; [exact Ho3|exact Hnin|exact Hcap2|exact Hsl|exact Hcu| |].
  - split; [exact (ab_backing _ _ _ _ Hat2)|exact Hcu|exact (ab_buf _ _ _ _ Hat2)].
  - split; cbn [mx_conf mx_video_stream_type mx_audio_stream_type mx_tracks_ready mx_cc_video
      mx_cc_audio mx_bursts setf] in *; split_and?; congruence.
Qed.

Lemma wp_burst_destroy burst L s :
  owns s (holds (bu_backing burst) ++ L) →
  wp (burst_destroy burst) (λ r s', r = burst_zero ∧ owns s' L ∧ evolves s s') s.
Proof.
  intros Ho. apply wp_bind. eapply wp_mono; [by apply wp_buf_unref|].
  intros _ s' (? & ?). by apply wp_ret.
Qed.

Lemma wp_burst_end b content burst mux s :
  at_burst b content burst s →
  wp (burst_end mux burst) (λ r s',
    r = (NGX_OK, mux <| mx_bytes := (mx_bytes mux ⊕ lenZ content) |>) ∧ carries s' b content ∧
    (∀ id, id ≠ b → st_bufs s' !! id = st_bufs s !! id)) s.
Proof.
  intros Hat. pose proof (at_burst_fits _ _ _ _ Hat) as Hfit.
  destruct Hat as [Hbk Hcu (bf & Hb & Hcap & Ht & Hl)].
  unfold burst_end, burst_size. rewrite Hbk, Hcu. eexists _, _. split.
  { unfold buf_freeze, deref, mbind, SM_bind. rewrite Hb, Hcap.
    rewrite (proj2 (Z.ltb_ge _ _)) by lia. done. }
  split; [done|]. cbn. split.
  - unfold carries. cbn. rewrite lookup_insert_eq. eexists. split; [done|]. by split.
  - intros id Hne. by rewrite lookup_insert_ne.
Qed.
