(* ===== verification/TsDemux.v ===== *)
(** * The MPEG-TS demultiplexer

    Models mpegts/ngx_media_ts_demux.[ch]: transport bytes are cut into packets, packets
    are dispatched by PID, PSI sections build the track list and PES payloads are assembled
    into access units and handed to the sink.  A demuxer runs in the monad [D]: its state,
    the payload store and the calls made to the sink so far.  An answer means that no read
    left its buffer, no write left its allocation and every loop ended. *)
From S2P Require Import Prelude Bytes Store TsCrc Compat Nal Aac.

Definition TS_PACKET_SIZE : Z := 188.
Definition TS_SYNC_BYTE : Z := 0x47.
Definition TS_PID_PAT : Z := 0.
Definition TS_PID_NULL : Z := 0x1FFF.
Definition TS_SECTION_MAX : Z := 1024.
Definition TS_STREAM_AAC_ADTS : Z := 0x0F.
Definition TS_STREAM_H264 : Z := 0x1B.
Definition TS_STREAM_H265 : Z := 0x24.
Definition TS_DEFAULT_TRACKS : Z := 8.
Definition TS_DEFAULT_AU_BYTES : Z := 4 * 1024 * 1024.
Definition CODEC_NONE : Z := 0.
Definition PAYLOAD_ANNEXB : Z := 1.
Definition PAYLOAD_ADTS : Z := 3.
Definition PAYLOAD_RAW : Z := 4.

Record demux_conf := mk_demux_conf { dc_max_tracks : Z; dc_max_au_bytes : Z }.

Record demux_stats := mk_demux_stats {
  dt_bytes : Z; dt_packets : Z; dt_frames_out : Z; dt_config_frames_out : Z;
  dt_sync_errors : Z; dt_transport_errors : Z; dt_continuity_errors : Z; dt_psi_errors : Z;
  dt_crc_errors : Z; dt_pes_errors : Z; dt_au_overflows : Z; dt_unsupported_streams : Z;
  dt_skipped_bytes : Z; dt_last_pcr : Z; dt_has_pcr : bool }.
#[global] Instance eta_demux_stats : Eta demux_stats := λ r,
  mk_demux_stats (dt_bytes r) (dt_packets r) (dt_frames_out r) (dt_config_frames_out r)
    (dt_sync_errors r) (dt_transport_errors r) (dt_continuity_errors r) (dt_psi_errors r)
    (dt_crc_errors r) (dt_pes_errors r) (dt_au_overflows r) (dt_unsupported_streams r)
    (dt_skipped_bytes r) (dt_last_pcr r) (dt_has_pcr r).
Definition demux_stats_zero : demux_stats :=
  mk_demux_stats 0 0 0 0 0 0 0 0 0 0 0 0 0 0 false.

(** [tk_au] holds the [au_len] bytes assembled; [tk_au_cap = 0] is the NULL buffer.  The
    [config] of the descriptor [tk_track] is an alias that owns no reference. *)
Record ts_track := mk_ts_track {
  tk_pid : Z; tk_stream_type : Z; tk_codec : Z; tk_track_index : Z;
  tk_cc : Z; tk_cc_valid : bool;
  tk_au : list Z; tk_au_cap : Z; tk_au_overflow : bool;
  tk_pts : Z; tk_dts : Z; tk_has_pts : bool; tk_has_dts : bool; tk_last_pts : Z;
  tk_pes_remaining : Z;
  tk_config : option N; tk_config_len : Z;
  tk_track : track }.
#[global] Instance eta_ts_track : Eta ts_track := λ r,
  mk_ts_track (tk_pid r) (tk_stream_type r) (tk_codec r) (tk_track_index r)
    (tk_cc r) (tk_cc_valid r) (tk_au r) (tk_au_cap r) (tk_au_overflow r)
    (tk_pts r) (tk_dts r) (tk_has_pts r) (tk_has_dts r) (tk_last_pts r)
    (tk_pes_remaining r) (tk_config r) (tk_config_len r) (tk_track r).

#[global] Instance eta_track : Eta track := λ r,
  mk_track (tr_media_type r) (tr_codec r) (tr_payload_format r) (tr_profile r) (tr_level r)
    (tr_width r) (tr_height r) (tr_frame_rate_num r) (tr_frame_rate_den r)
    (tr_sample_rate r) (tr_channels r) (tr_config r).
#[global] Instance eta_trackset : Eta trackset := λ r,
  mk_trackset (ts_tracks r) (ts_count r) (ts_capacity r).

(** [ps_buf] holds the [len] bytes of the section assembled so far. *)
Record ts_psi := mk_ts_psi {
  ps_pid : Z; ps_buf : list Z; ps_expected : Z; ps_cc : Z; ps_cc_valid : bool;
  ps_assembling : bool }.
#[global] Instance eta_ts_psi : Eta ts_psi := λ r,
  mk_ts_psi (ps_pid r) (ps_buf r) (ps_expected r) (ps_cc r) (ps_cc_valid r) (ps_assembling r).
Definition ts_psi_zero : ts_psi := mk_ts_psi 0 [] 0 0 false false.

(** [dx_live]: the track array is allocated.  [dx_tracks] are the tracks in use. *)
Record demux := mk_demux {
  dx_max_tracks : Z; dx_max_au_bytes : Z; dx_live : bool; dx_tracks : list ts_track;
  dx_trackset : trackset; dx_tracks_ready : bool;
  dx_pat : ts_psi; dx_pmt : ts_psi; dx_pmt_pid : Z; dx_pat_valid : bool;
  dx_pmt_valid : bool; dx_pcr_pid : Z; dx_tail : list Z; dx_stats : demux_stats }.
#[global] Instance eta_demux : Eta demux := λ r,
  mk_demux (dx_max_tracks r) (dx_max_au_bytes r) (dx_live r) (dx_tracks r)
    (dx_trackset r) (dx_tracks_ready r) (dx_pat r) (dx_pmt r) (dx_pmt_pid r)
    (dx_pat_valid r) (dx_pmt_valid r) (dx_pcr_pid r) (dx_tail r) (dx_stats r).
Definition demux_zero : demux :=
  mk_demux 0 0 false [] trackset_zero false ts_psi_zero ts_psi_zero 0 false false 0 []
    demux_stats_zero.

(** A call of the sink: the track list, or a frame with the bytes it carries. *)
Inductive ts_sink := SinkTracks (tracks : list track) | SinkFrame (f : frame) (data : list Z).

Record dstate := mk_dstate { ds_dx : demux; ds_out : list ts_sink; ds_store : store }.
#[global] Instance eta_dstate : Eta dstate := λ r, mk_dstate (ds_dx r) (ds_out r) (ds_store r).
Notation D := (SM dstate).

Definition dx_mod (f : demux → demux) : D unit := smod (λ s, s <| ds_dx ::= f |>).
Definition dx_get {A} (f : demux → A) : D A := sget (λ s, f (ds_dx s)).
Definition stat (f : demux_stats → demux_stats) : D unit := dx_mod (λ dx, dx <| dx_stats ::= f |>).
Definition call_sink (e : ts_sink) : D unit := smod (λ s, s <| ds_out ::= λ o, o ++ [e] |>).
Definition on_store {A} (m : M A) : D A := λ s,
  match m (ds_store s) with
  | Some (a, st) => Some (a, s <| ds_store := st |>)
  | None => None
  end.
(** The track a pointer into the track array designates. *)
Definition tk_get (i : nat) : D ts_track := tracks ← dx_get dx_tracks; sread (tracks !! i).
Definition tk_mod (i : nat) (f : ts_track → ts_track) : D unit :=
  tk ← tk_get i; dx_mod (λ dx, dx <| dx_tracks ::= <[i := f tk]> |>).

(** ** Fields *)

Definition ts_codec (stream_type : Z) : Z :=
  if stream_type =? TS_STREAM_H264 then CODEC_H264
  else if stream_type =? TS_STREAM_H265 then CODEC_H265
  else if stream_type =? TS_STREAM_AAC_ADTS then CODEC_AAC
  else CODEC_NONE.

(** The verdict, and the counter and its validity afterwards. *)
Definition cc_check (cc : Z) (valid : bool) (new_cc : Z) (has_payload : bool)
    : rc * Z * bool :=
  if negb valid then (NGX_OK, new_cc, true)
  else if negb has_payload then (NGX_OK, new_cc, valid)
  else if negb (new_cc =? Z.land (cc + 1) 0x0F) then (NGX_DECLINED, new_cc, valid)
  else (NGX_OK, new_cc, valid).

Definition pes_ts (p : list Z) (i : nat) : option Z :=
  b0 ← p !! i; b1 ← p !! (i + 1)%nat; b2 ← p !! (i + 2)%nat;
  b3 ← p !! (i + 3)%nat; b4 ← p !! (i + 4)%nat;
  Some (Z.lor (Z.lor (Z.lor (Z.lor (Z.shiftl (Z.land b0 0x0E) 29) (Z.shiftl b1 22))
                            (Z.shiftl (Z.land b2 0xFE) 14)) (Z.shiftl b3 7)) (Z.shiftr b4 1)).

(** A 13-bit PID, and 12-bit length, out of two bytes. *)
Definition pid_at (p : list Z) (i : nat) : option Z :=
  hi ← p !! i; lo ← p !! (i + 1)%nat; Some (Z.lor (Z.shiftl (Z.land hi 0x1F) 8) lo).
Definition len12_at (p : list Z) (i : nat) : option Z :=
  hi ← p !! i; lo ← p !! (i + 1)%nat; Some (Z.lor (Z.shiftl (Z.land hi 0x0F) 8) lo).

(** ** Life cycle *)

(** sizeof(ngx_media_ts_track_t) *)
Definition ts_track_size : Z := 240.

(** The demuxer that results; the track array is an allocation. *)
Definition demux_init (conf : option demux_conf) : M (rc * demux) :=
  let or_default (x d : Z) := if x =? 0 then d else x in
  let dx := demux_zero
    <| dx_max_tracks := or_default (default 0 (dc_max_tracks <$> conf)) TS_DEFAULT_TRACKS |>
    <| dx_max_au_bytes := or_default (default 0 (dc_max_au_bytes <$> conf)) TS_DEFAULT_AU_BYTES |> in
  let track_bytes := dx_max_tracks dx * ts_track_size in
  if 2 ^ 64 <=? track_bytes then mret (NGX_ERROR, dx)
  else
    p ← ngx_alloc track_bytes;
    match p with
    | None => mret (NGX_ERROR, dx)
    | Some _ =>
        mret (NGX_OK, dx <| dx_live := true |>
                         <| dx_pat ::= λ psi, psi <| ps_pid := TS_PID_PAT |> |>
                         <| dx_pmt ::= λ psi, psi <| ps_pid := TS_PID_NULL |> |>)
    end.

Definition track_clear (i : nat) : D unit :=
  tk ← tk_get i;
  _ ← on_store (buf_unref (tk_config tk));
  tk_mod i (λ tk, tk <| tk_au := [] |> <| tk_au_cap := 0 |> <| tk_au_overflow := false |>
                     <| tk_config := None |> <| tk_config_len := 0 |>).

(** [for (i = first; i < ntracks; i++)] over the [n] remaining tracks. *)
Fixpoint for_tracks (n first : nat) (body : nat → D unit) : D unit :=
  match n with O => mret tt | S n => _ ← body first; for_tracks n (S first) body end.

Definition demux_destroy : D unit :=
  live ← dx_get dx_live;
  if negb live then mret tt
  else
    ntracks ← dx_get (λ dx, length (dx_tracks dx));
    _ ← for_tracks ntracks 0 track_clear;
    set ← dx_get dx_trackset;
    _ ← on_store (trackset_destroy set);
    dx_mod (λ _, demux_zero).

(** ** Emission *)

(** [ngx_media_buf_alloc(len)], the copy of [data] and the freeze. *)
Definition buf_dup (data : list Z) : M (option N) :=
  p ← buf_alloc (lenZ data);
  match p with
  | None => mret None
  | Some id =>
      _ ← buf_write id 0 data;
      _ ← buf_freeze (Some id) (lenZ data);
      mret (Some id)
  end.

Definition demux_emit (i : nat) (data : list Z) (pts dts : Z) (keyframe config : bool)
    (payload_format : Z) : D rc :=
  if lenZ data =? 0 then mret NGX_OK
  else
    max ← dx_get dx_max_au_bytes;
    if max <? lenZ data then
      _ ← stat (λ s, s <| dt_au_overflows ::= λ n, n ⊕ 1 |>); mret NGX_ERROR
    else
      p ← on_store (buf_dup data);
      match p with
      | None => mret NGX_ERROR
      | Some buf =>
          tk ← tk_get i;
          let f := mk_frame (tr_media_type (tk_track tk)) (tk_codec tk) payload_format
                     (tk_track_index tk) pts dts keyframe config None in
          f ← on_store (frame_adopt f (Some buf));
          _ ← call_sink (SinkFrame f data);
          _ ← on_store (frame_release f);
          _ ← stat (λ s, if config then s <| dt_config_frames_out ::= λ n, n ⊕ 1 |>
                         else s <| dt_frames_out ::= λ n, n ⊕ 1 |>);
          mret NGX_OK
      end.

(** The descriptors the sink is shown. *)
Definition call_sink_tracks : D unit :=
  ts ← dx_get (λ dx, ts_used (dx_trackset dx)); call_sink (SinkTracks ts).

(** [track->config != NULL && config_len == len && memcmp(...) == 0] *)
Definition config_same (tk : ts_track) (data : list Z) : M bool :=
  match tk_config tk with
  | None => mret false
  | Some id =>
      if tk_config_len tk =? lenZ data
      then b ← buf_read id (lenZ data); mret (bool_decide (b = data))
      else mret false
  end.

(** The trackset's descriptor at [i] gets its own reference on the configuration. *)
Definition trackset_config (i : Z) (buf : option N) : D unit :=
  set ← dx_get dx_trackset;
  if i <? ts_count set then
    tr ← sread (ts_tracks set !! Z.to_nat i);
    _ ← on_store (buf_unref (tr_config tr));
    r ← on_store (buf_ref buf);
    dx_mod (λ dx, dx <| dx_trackset ::= λ set, set
      <| ts_tracks ::= <[Z.to_nat i := tr <| tr_config := r |>]> |> |>)
  else mret tt.

Definition emit_config (i : nat) (data : list Z) (payload_format : Z) : D rc :=
  if lenZ data =? 0 then mret NGX_OK
  else
    tk ← tk_get i;
    same ← on_store (config_same tk data);
    if same : bool then mret NGX_OK
    else
      p ← on_store (buf_dup data);
      match p with
      | None => mret NGX_ERROR
      | Some buf =>
          _ ← on_store (buf_unref (tk_config tk));
          _ ← tk_mod i (λ tk, tk <| tk_config := Some buf |> <| tk_config_len := lenZ data |>
                                 <| tk_track ::= λ tr, tr <| tr_config := Some buf |> |>);
          _ ← trackset_config (tk_track_index tk) (Some buf);
          _ ← demux_emit i data (tk_pts tk) (tk_dts tk) true true payload_format;
          ready ← dx_get dx_tracks_ready;
          _ ← (if ready : bool then call_sink_tracks else mret tt);
          mret NGX_OK
      end.

(** ** Audio *)

Definition adts_zero : adts := mk_adts 0 0 0 0 0.

(** One turn of the ADTS loop on [p], the bytes left: the rest and whether the
    descriptor changed. *)
Definition adts_step (i : nat) (p : list Z) (a : adts) : D (list Z * bool) :=
  let '(r, asc) := adts_audio_specific_config a 2 in
  _ ← (if bool_decide (r = NGX_OK) then emit_config i asc PAYLOAD_RAW else mret NGX_OK);
  tk ← tk_get i;
  let tr := tk_track tk in
  let changed := negb (tr_sample_rate tr =? ad_sample_rate a)
                 || negb (tr_channels tr =? ad_channels a)
                 || negb (tr_profile tr =? ad_object_type a) in
  _ ← (if changed
       then tk_mod i (λ tk, tk <| tk_track ::= λ tr, tr
              <| tr_sample_rate := ad_sample_rate a |> <| tr_channels := ad_channels a |>
              <| tr_profile := ad_object_type a |> |>)
       else mret tt);
  let pts := tk_last_pts tk in
  let n := Z.to_nat (ad_frame_len a) in
  _ ← demux_emit i (take n p) pts pts true false PAYLOAD_ADTS;
  _ ← tk_mod i (λ tk, tk <| tk_last_pts := s64 (pts + 1024 * 90000 `div` ad_sample_rate a) |>);
  mret (drop n p, changed).

(** A frame is at least a header long, so the number of bytes is fuel enough. *)
Fixpoint adts_loop (fuel : nat) (i : nat) (p : list Z) (meta_changed : bool) : D bool :=
  if ADTS_HEADER_MIN <=? lenZ p then
    match fuel with
    | O => ub
    | S fuel =>
        '(r, a) ← sread (adts_parse p adts_zero);
        if negb (bool_decide (r = NGX_OK)) || (lenZ p <? ad_frame_len a) then
          _ ← stat (λ s, s <| dt_pes_errors ::= λ n, n ⊕ 1 |>); mret meta_changed
        else
          '(rest, changed) ← adts_step i p a;
          adts_loop fuel i rest (meta_changed || changed)
    end
  else mret meta_changed.

(** The descriptors are copied into the trackset whole, configuration pointer included. *)
Definition sync_tracks (tracks : list ts_track) (set : trackset) : trackset :=
  foldl (λ set tk,
    if tk_track_index tk <? ts_count set
    then set <| ts_tracks ::= <[Z.to_nat (tk_track_index tk) := tk_track tk]> |>
    else set) set tracks.

Definition au_reset (tk : ts_track) : ts_track :=
  tk <| tk_au := [] |> <| tk_has_pts := false |> <| tk_has_dts := false |>.

Definition audio_flush (i : nat) : D unit :=
  tk ← tk_get i;
  _ ← (if tk_has_pts tk then tk_mod i (λ tk, tk <| tk_last_pts := tk_pts tk |>) else mret tt);
  changed ← adts_loop (length (tk_au tk)) i (tk_au tk) false;
  ready ← dx_get dx_tracks_ready;
  _ ← (if (changed : bool) && ready
       then _ ← dx_mod (λ dx, dx <| dx_trackset ::= sync_tracks (dx_tracks dx) |>);
            call_sink_tracks
       else mret tt);
  tk_mod i au_reset.

(** ** Access units *)

(** [while (cap < need) cap <<= 1] *)
Fixpoint grow_cap (fuel : nat) (cap need : Z) : option Z :=
  if cap <? need then
    match fuel with O => None | S fuel => grow_cap fuel (u64 (Z.shiftl cap 1)) need end
  else Some cap.

(** The configuration units gathered behind start codes, and what was seen. *)
Record au_scan := mk_au_scan {
  sc_cfg : list Z; sc_cap : Z; sc_have_config : bool; sc_vcl : bool; sc_keyframe : bool }.
#[global] Instance eta_au_scan : Eta au_scan := λ r,
  mk_au_scan (sc_cfg r) (sc_cap r) (sc_have_config r) (sc_vcl r) (sc_keyframe r).

(** Appends a configuration unit; [false] is the [break]. *)
Definition scan_config (nal : list Z) (st : au_scan) : M (bool * au_scan) :=
  let need := lenZ (sc_cfg st) + 4 + lenZ nal in
  if 2 ^ 64 <=? need then mret (false, st)
  else
    '(ok, cap) ←
      (if sc_cap st <? need then
         match grow_cap 64 (if sc_cap st =? 0 then 256 else sc_cap st) need with
         | None => ub
         | Some cap =>
             p ← ngx_alloc cap;
             mret (match p with None => (false, sc_cap st) | Some _ => (true, cap) end)
         end
       else mret (true, sc_cap st));
    if negb ok then mret (false, st)
    else if cap =? 0 then mret (false, st)
    else if cap <? need then ub
    else mret (true, st <| sc_cfg ::= λ c, c ++ [0; 0; 0; 1] ++ nal |> <| sc_cap := cap |>
                        <| sc_have_config := true |>).

Fixpoint au_scan_loop (fuel : nat) (codec : Z) (au : list Z) (it : nal_iter) (st : au_scan)
    : M au_scan :=
  match fuel with
  | O => ub
  | S fuel =>
      r ← sread (nal_iter_next (S (length au)) au it);
      match r.2 with
      | None => mret st
      | Some (off, len) =>
          let nal := take len (drop off au) in
          let type := nal_type codec nal in
          '(continue, st) ← (if nal_is_config codec type then scan_config nal st else mret (true, st));
          if (continue : bool) then
            au_scan_loop fuel codec au r.1
              (st <| sc_vcl ::= λ b, b || nal_is_vcl codec type |>
                  <| sc_keyframe ::= λ b, b || nal_is_keyframe codec type |>)
          else mret st
      end
  end.

Definition au_flush (i : nat) : D unit :=
  tk ← tk_get i;
  if lenZ (tk_au tk) =? 0 then
    tk_mod i (λ tk, au_reset (tk <| tk_au_overflow := false |>))
  else if tk_au_overflow tk then
    tk_mod i (λ tk, au_reset (tk <| tk_au_overflow := false |>))
  else if tk_codec tk =? CODEC_AAC then audio_flush i
  else
    let au := tk_au tk in
    st ← on_store (au_scan_loop (S (length au)) (tk_codec tk) au (nal_iter_init (length au))
                     (mk_au_scan [] 0 false false false));
    _ ← (if sc_have_config st then emit_config i (sc_cfg st) PAYLOAD_ANNEXB else mret NGX_OK);
    _ ← (if sc_vcl st then
           let pts := if tk_has_pts tk then tk_pts tk else tk_last_pts tk in
           let dts := if tk_has_dts tk then tk_dts tk else pts in
           _ ← demux_emit i au pts dts (sc_keyframe st) false PAYLOAD_ANNEXB;
           tk_mod i (λ tk, tk <| tk_last_pts := pts |>)
         else mret tt);
    tk_mod i au_reset.

Definition au_drop (i : nat) : D unit :=
  _ ← stat (λ s, s <| dt_au_overflows ::= λ n, n ⊕ 1 |>);
  tk_mod i (λ tk, tk <| tk_au := [] |> <| tk_au_overflow := true |>).

Definition au_append (i : nat) (data : list Z) : D unit :=
  if lenZ data =? 0 then mret tt
  else
    tk ← tk_get i;
    max ← dx_get dx_max_au_bytes;
    let need := lenZ (tk_au tk) + lenZ data in
    if (2 ^ 64 <=? need) || (max <? need) then au_drop i
    else
      cap ← (if tk_au_cap tk <? need then
               cap ← sread (grow_cap 64 (if tk_au_cap tk =? 0 then 8192 else tk_au_cap tk) need);
               let cap := if max <? cap then max else cap in
               p ← on_store (ngx_alloc cap);
               mret (match p with None => None | Some _ => Some cap end)
             else mret (Some (tk_au_cap tk)));
      match cap with
      | None => au_drop i
      | Some cap =>
          if cap <? need then ub
          else tk_mod i (λ tk, tk <| tk_au ::= λ au, au ++ data |> <| tk_au_cap := cap |>)
      end.

Definition pes_error : D unit := stat (λ s, s <| dt_pes_errors ::= λ n, n ⊕ 1 |>).

Definition pes_start (i : nat) (p : list Z) : D unit :=
  let len := lenZ p in
  _ ← tk_mod i (λ tk, tk <| tk_has_pts := false |> <| tk_has_dts := false |>
                         <| tk_pes_remaining := 0 |>);
  if len <? 9 then pes_error
  else
    b0 ← sread (p !! 0%nat); b1 ← sread (p !! 1%nat); b2 ← sread (p !! 2%nat);
    b6 ← sread (p !! 6%nat);
    if negb (b0 =? 0) || negb (b1 =? 0) || negb (b2 =? 1) || negb (Z.land b6 0xC0 =? 0x80)
    then pes_error
    else
      flags ← sread (p !! 7%nat);
      header_len ← sread (p !! 8%nat);
      let off := 9 + header_len in
      if len <? off then pes_error
      else if negb (Z.land flags 0x80 =? 0) && (len <? 14) then pes_error
      else
        _ ← (if negb (Z.land flags 0x80 =? 0) then
               v ← sread (pes_ts p 9);
               tk_mod i (λ tk, tk <| tk_pts := v |> <| tk_has_pts := true |>)
             else mret tt);
        if (Z.land flags 0xC0 =? 0xC0) && (len <? 19) then pes_error
        else
          _ ← (if Z.land flags 0xC0 =? 0xC0 then
                 v ← sread (pes_ts p 14);
                 tk_mod i (λ tk, tk <| tk_dts := v |> <| tk_has_dts := true |>)
               else mret tt);
          b4 ← sread (p !! 4%nat); b5 ← sread (p !! 5%nat);
          let pes_len := Z.lor (Z.shiftl b4 8) b5 in
          let append := len - off in
          let data := drop (Z.to_nat off) p in
          if 0 <? pes_len then
            if pes_len <? 3 + header_len then pes_error
            else
              let remaining := pes_len - 3 - header_len in
              let append := if remaining <? append then remaining else append in
              _ ← tk_mod i (λ tk, tk <| tk_pes_remaining := remaining - append |>);
              _ ← au_append i (take (Z.to_nat append) data);
              tk ← tk_get i;
              if tk_pes_remaining tk =? 0 then au_flush i else mret tt
          else au_append i data.

(** ** Program specific information *)

Definition psi_error : D unit := stat (λ s, s <| dt_psi_errors ::= λ n, n ⊕ 1 |>).

Definition tracks_build : D unit :=
  set ← dx_get dx_trackset;
  set ← on_store (trackset_destroy set);
  _ ← dx_mod (λ dx, dx <| dx_trackset := set |>);
  max ← dx_get dx_max_tracks;
  '(r, set) ← on_store (trackset_init max);
  _ ← dx_mod (λ dx, dx <| dx_trackset := set |>);
  if bool_decide (r = NGX_OK) then
    ntracks ← dx_get (λ dx, length (dx_tracks dx));
    _ ← for_tracks ntracks 0 (λ i,
          tk ← tk_get i;
          set ← dx_get dx_trackset;
          r ← on_store (trackset_add set (tk_track tk));
          dx_mod (λ dx, dx <| dx_trackset := r.2 |>));
    _ ← dx_mod (λ dx, dx <| dx_tracks_ready := true |>);
    call_sink_tracks
  else mret tt.

(** The program loop of a PAT, from [p]: the PMT's PID. *)
Fixpoint pat_scan (fuel : nat) (s : list Z) (p e : nat) : option (option Z) :=
  if (p + 4 <=? e)%nat then
    match fuel with
    | O => None
    | S fuel =>
        hi ← s !! p; lo ← s !! (p + 1)%nat;
        pid ← pid_at s (p + 2);
        if Z.lor (Z.shiftl hi 8) lo =? 0 then pat_scan fuel s (p + 4) e else Some (Some pid)
    end
  else Some None.

Definition parse_pat (s : list Z) : D unit :=
  if lenZ s <? 12 then psi_error
  else
    r ← sread (pat_scan (length s) s 8 (length s - 4));
    match r with
    | None => psi_error
    | Some pid =>
        _ ← dx_mod (λ dx,
              if negb (dx_pat_valid dx) || negb (dx_pmt_pid dx =? pid)
              then dx <| dx_pmt_pid := pid |> <| dx_pmt_valid := false |>
                      <| dx_pmt ::= λ psi, psi <| ps_pid := pid |> <| ps_assembling := false |>
                                               <| ps_buf := [] |> <| ps_expected := 0 |> |>
              else dx);
        dx_mod (λ dx, dx <| dx_pat_valid := true |>)
    end.

(** The elementary streams of a PMT: (pid, stream type) of the supported ones, at most 32
    of them and at most [max], and how many were not supported. *)
Fixpoint pmt_scan (fuel : nat) (s : list Z) (p e : nat) (max : Z) (acc : list (Z * Z))
    (unsupported : Z) : option (list (Z * Z) * Z) :=
  if (p + 5 <=? e)%nat && (length acc <? 32)%nat then
    match fuel with
    | O => None
    | S fuel =>
        type ← s !! p;
        pid ← pid_at s (p + 1);
        es_info_len ← len12_at s (p + 3);
        let p := (p + 5 + Z.to_nat es_info_len)%nat in
        if ts_codec type =? CODEC_NONE then pmt_scan fuel s p e max acc (unsupported + 1)
        else if Z.of_nat (length acc) <? max
        then pmt_scan fuel s p e max (acc ++ [(pid, type)]) unsupported
        else pmt_scan fuel s p e max acc unsupported
    end
  else Some (acc, unsupported).

Definition new_track (i : nat) (pid type : Z) : ts_track :=
  let codec := ts_codec type in
  let audio := codec =? CODEC_AAC in
  mk_ts_track pid type codec (Z.of_nat i) 0 false [] 0 false 0 0 false false 0 0 None 0
    (track_zero <| tr_media_type := if audio then TYPE_AUDIO else TYPE_VIDEO |>
                <| tr_codec := codec |>
                <| tr_payload_format := if audio then PAYLOAD_ADTS else PAYLOAD_ANNEXB |>).

Definition parse_pmt (s : list Z) : D unit :=
  if lenZ s <? 16 then psi_error
  else
    let e := (length s - 4)%nat in
    pcr_pid ← sread (pid_at s 8);
    _ ← dx_mod (λ dx, dx <| dx_pcr_pid := pcr_pid |>);
    info_len ← sread (len12_at s 10);
    let p := (12 + Z.to_nat info_len)%nat in
    if (e <? p)%nat then psi_error
    else
      max ← dx_get dx_max_tracks;
      '(found, unsupported) ← sread (pmt_scan (length s) s p e max [] 0);
      _ ← stat (λ st, st <| dt_unsupported_streams ::= λ n, n ⊕ unsupported |>);
      tracks ← dx_get dx_tracks;
      if bool_decide (found = (λ tk, (tk_pid tk, tk_stream_type tk)) <$> tracks) then
        dx_mod (λ dx, dx <| dx_pmt_valid := true |>)
      else
        _ ← for_tracks (length tracks) 0 track_clear;
        set ← dx_get dx_trackset;
        set ← on_store (trackset_destroy set);
        if max <? Z.of_nat (length found) then ub
        else
          _ ← dx_mod (λ dx, dx <| dx_trackset := set |> <| dx_tracks_ready := false |>
                <| dx_tracks := imap (λ i x, new_track i x.1 x.2) found |>
                <| dx_pmt_valid := true |>);
          tracks_build.

Definition parse_section (s : list Z) : D unit :=
  if negb (ts_crc32 s =? 0) then stat (λ st, st <| dt_crc_errors ::= λ n, n ⊕ 1 |>)
  else
    table ← sread (s !! 0%nat);
    if table =? 0 then parse_pat s
    else if table =? 2 then parse_pmt s
    else mret tt.

(** The assembler of the PAT or of the PMT. *)
Inductive psi_sel := PAT | PMT.
Definition psi_get (w : psi_sel) : D ts_psi :=
  dx_get (λ dx, match w with PAT => dx_pat dx | PMT => dx_pmt dx end).
Definition psi_mod (w : psi_sel) (f : ts_psi → ts_psi) : D unit :=
  dx_mod (λ dx, match w with PAT => dx <| dx_pat ::= f |> | PMT => dx <| dx_pmt ::= f |> end).

(** [ngx_memcpy(psi->buf + psi->len, p, take)] *)
Definition psi_copy (w : psi_sel) (data : list Z) : D unit :=
  psi ← psi_get w;
  if TS_SECTION_MAX <? lenZ (ps_buf psi) + lenZ data then ub
  else psi_mod w (λ psi, psi <| ps_buf ::= λ b, b ++ data |>).

(** Idle, with nothing assembled. *)
Definition psi_idle (psi : ts_psi) : ts_psi := psi <| ps_buf := [] |> <| ps_assembling := false |>.

(** The header half of a turn: [None] when the function returns, else the bytes left. *)
Definition psi_header (w : psi_sel) (p : list Z) : D (option (list Z)) :=
  psi ← psi_get w;
  if lenZ (ps_buf psi) <? 3 then
    let n := Z.to_nat (Z.min (lenZ p) (3 - lenZ (ps_buf psi))) in
    _ ← psi_copy w (take n p);
    psi ← psi_get w;
    if lenZ (ps_buf psi) <? 3 then
      _ ← psi_mod w (λ psi, psi <| ps_assembling := true |>); mret None
    else
      b0 ← sread (ps_buf psi !! 0%nat);
      if b0 =? 0xFF then _ ← psi_mod w psi_idle; mret None
      else
        section_length ← sread (len12_at (ps_buf psi) 1);
        let total := 3 + section_length in
        if (TS_SECTION_MAX <? total) || (section_length <? 4) then
          _ ← psi_error; _ ← psi_mod w psi_idle; mret None
        else
          _ ← psi_mod w (λ psi, psi <| ps_expected := total |>);
          mret (Some (drop n p))
  else mret (Some p).

(** Every turn takes at least one byte. *)
Fixpoint psi_loop (fuel : nat) (w : psi_sel) (p : list Z) : D unit :=
  match p with
  | [] => mret tt
  | _ =>
      match fuel with
      | O => ub
      | S fuel =>
          r ← psi_header w p;
          match r with
          | None => mret tt
          | Some p =>
              psi ← psi_get w;
              let need := ps_expected psi ⊖ lenZ (ps_buf psi) in
              let n := Z.to_nat (Z.min (lenZ p) need) in
              _ ← psi_copy w (take n p);
              psi ← psi_get w;
              _ ← (if lenZ (ps_buf psi) =? ps_expected psi then
                     _ ← parse_section (ps_buf psi);
                     psi_mod w (λ psi, psi_idle (psi <| ps_expected := 0 |>))
                   else psi_mod w (λ psi, psi <| ps_assembling := true |>));
              psi_loop fuel w (drop n p)
          end
      end
  end.

Definition psi_feed (w : psi_sel) (pusi : bool) (payload : list Z) : D unit :=
  psi ← psi_get w;
  if negb pusi && negb (ps_assembling psi) then mret tt
  else if pusi then
    match payload with
    | [] => psi_error
    | pointer :: p =>
        if lenZ p <? pointer then _ ← psi_error; psi_mod w psi_idle
        else
          _ ← psi_mod w (λ psi, psi_idle (psi <| ps_expected := 0 |>));
          psi_loop (length payload) w (drop (Z.to_nat pointer) p)
    end
  else psi_loop (length payload) w payload.

(** ** Packets *)

(** What the four header bytes and the adaptation field say. *)
Record packet := mk_packet {
  pk_pid : Z; pk_pusi : bool; pk_cc : Z; pk_discontinuity : bool; pk_pcr : option Z;
  pk_payload : option (list Z) }.
Inductive parsed := PacketError | PacketNull | Packet (k : packet).

Definition pcr_at (p : list Z) (i : nat) : option Z :=
  b2 ← p !! i; b3 ← p !! (i + 1)%nat; b4 ← p !! (i + 2)%nat; b5 ← p !! (i + 3)%nat;
  b6 ← p !! (i + 4)%nat;
  Some (Z.lor (Z.lor (Z.lor (Z.lor (Z.shiftl b2 25) (Z.shiftl b3 17)) (Z.shiftl b4 9))
                     (Z.shiftl b5 1)) (Z.shiftr b6 7)).

(** The adaptation field at offset 4: the PCR, the discontinuity indicator and the offset
    of what follows; [inl] is a length that leaves the packet. *)
Definition parse_af (p : list Z) : option (unit + option Z * bool * nat) :=
  af_len ← p !! 4%nat;
  if 183 <? af_len then Some (inl ())
  else if 0 <? af_len then
    flags ← p !! 5%nat;
    pcr ← (if negb (Z.land flags 0x10 =? 0) && (7 <=? af_len)
           then Some <$> pcr_at p 6 else Some None);
    Some (inr (pcr, negb (Z.land flags 0x80 =? 0), (5 + Z.to_nat af_len)%nat))
  else Some (inr (None, false, 5%nat)).

Definition parse_packet (p : list Z) : option parsed :=
  b1 ← p !! 1%nat;
  if negb (Z.land b1 0x80 =? 0) then Some PacketError
  else
    pid ← pid_at p 1;
    if pid =? TS_PID_NULL then Some PacketNull
    else
      b3 ← p !! 3%nat;
      let afc := Z.land (Z.shiftr b3 4) 3 in
      if negb (Z.land (Z.shiftr b3 6) 3 =? 0) || (afc =? 0) then Some PacketError
      else
        af ← (if negb (Z.land afc 2 =? 0) then parse_af p
              else Some (inr (None, false, 4%nat)));
        match af with
        | inl _ => Some PacketError
        | inr (pcr, discontinuity, off) =>
            Some (Packet (mk_packet pid (negb (Z.land b1 0x40 =? 0)) (Z.land b3 0x0F)
              discontinuity pcr
              (if negb (Z.land afc 1 =? 0) then Some (drop off p) else None)))
        end.

Fixpoint track_by_pid (tracks : list ts_track) (pid : Z) (i : nat) : option nat :=
  match tracks with
  | [] => None
  | tk :: tracks => if tk_pid tk =? pid then Some i else track_by_pid tracks pid (S i)
  end.

Definition process_psi (w : psi_sel) (k : packet) : D unit :=
  psi ← psi_get w;
  let has_payload := bool_decide (is_Some (pk_payload k)) in
  let '(r, cc, valid) := cc_check (ps_cc psi) (ps_cc_valid psi) (pk_cc k) has_payload in
  _ ← psi_mod w (λ psi, psi <| ps_cc := cc |> <| ps_cc_valid := valid |>);
  _ ← (if bool_decide (r = NGX_DECLINED)
       then stat (λ s, s <| dt_continuity_errors ::= λ n, n ⊕ 1 |>) else mret tt);
  match pk_payload k with None => mret tt | Some p => psi_feed w (pk_pusi k) p end.

(** The payload of a track's packet. *)
Definition process_pes (i : nat) (pusi : bool) (payload : list Z) : D unit :=
  if pusi then _ ← au_flush i; pes_start i payload
  else
    tk ← tk_get i;
    let remaining := tk_pes_remaining tk in
    if (0 <? lenZ (tk_au tk)) || tk_au_overflow tk || (0 <? remaining) then
      let append := if (0 <? remaining) && (remaining <? lenZ payload)
                    then remaining else lenZ payload in
      _ ← au_append i (take (Z.to_nat append) payload);
      if 0 <? remaining then
        _ ← tk_mod i (λ tk, tk <| tk_pes_remaining := remaining - append |>);
        if remaining - append =? 0 then au_flush i else mret tt
      else mret tt
    else mret tt.

Definition process_track (i : nat) (k : packet) : D unit :=
  tk ← tk_get i;
  let has_payload := bool_decide (is_Some (pk_payload k)) in
  let '(r, cc, valid) := cc_check (tk_cc tk) (tk_cc_valid tk) (pk_cc k) has_payload in
  _ ← tk_mod i (λ tk, tk <| tk_cc := cc |> <| tk_cc_valid := valid |>);
  _ ← (if bool_decide (r = NGX_DECLINED) && negb (pk_discontinuity k)
       then stat (λ s, s <| dt_continuity_errors ::= λ n, n ⊕ 1 |>) else mret tt);
  match pk_payload k with None => mret tt | Some p => process_pes i (pk_pusi k) p end.

Definition process_packet (p : list Z) : D unit :=
  _ ← stat (λ s, s <| dt_packets ::= λ n, n ⊕ 1 |>);
  r ← sread (parse_packet p);
  match r with
  | PacketError => stat (λ s, s <| dt_transport_errors ::= λ n, n ⊕ 1 |>)
  | PacketNull => mret tt
  | Packet k =>
      _ ← (match pk_pcr k with
           | Some v => stat (λ s, s <| dt_last_pcr := v |> <| dt_has_pcr := true |>)
           | None => mret tt
           end);
      pat_valid ← dx_get dx_pat_valid;
      pmt_pid ← dx_get dx_pmt_pid;
      if pk_pid k =? TS_PID_PAT then process_psi PAT k
      else if pat_valid && (pk_pid k =? pmt_pid) then process_psi PMT k
      else
        tracks ← dx_get dx_tracks;
        match track_by_pid tracks (pk_pid k) 0 with
        | None => mret tt
        | Some i => process_track i k
        end
  end.

(** ** The byte stream *)

(** The resynchronisation scan from [q]: a sync byte that the next one follows at the
    packet distance, when that is in the buffer. *)
Fixpoint find_sync (fuel : nat) (d : list Z) (q : nat) : option nat :=
  match fuel with
  | O => None
  | S fuel =>
      if (q <? length d)%nat then
        b ← d !! q;
        good ← (if b =? TS_SYNC_BYTE then
                  if (length d <=? q + 188)%nat then Some true
                  else b' ← d !! (q + 188)%nat; Some (b' =? TS_SYNC_BYTE)
                else Some false);
        if (good : bool) then Some q else find_sync fuel d (S q)
      else Some q
  end.

Fixpoint feed_loop (fuel : nat) (d : list Z) (off : nat) : D nat :=
  if (off + 188 <=? length d)%nat then
    match fuel with
    | O => ub
    | S fuel =>
        b ← sread (d !! off);
        if b =? TS_SYNC_BYTE then
          _ ← process_packet (take 188 (drop off d));
          feed_loop fuel d (off + 188)
        else
          q ← sread (find_sync (S (length d)) d (S off));
          _ ← stat (λ s, s <| dt_sync_errors ::= λ n, n ⊕ 1 |>
                           <| dt_skipped_bytes ::= λ n, n ⊕ (Z.of_nat (q - off)) |>);
          feed_loop fuel d q
    end
  else mret off.

Definition feed_rest (d : list Z) (off : nat) : D rc :=
  off ← feed_loop (S (length d)) d off;
  _ ← dx_mod (λ dx, dx <| dx_tail := drop off d |>);
  mret NGX_OK.

Definition demux_feed (data : list Z) : D rc :=
  live ← dx_get dx_live;
  if negb live then mret NGX_ERROR
  else
    _ ← stat (λ s, s <| dt_bytes ::= λ n, n ⊕ (lenZ data) |>);
    tail ← dx_get dx_tail;
    match tail with
    | [] => feed_rest data 0
    | b :: _ =>
        let n := Nat.min (length data) (188 - length tail) in
        let tail := tail ++ take n data in
        if (length tail <? 188)%nat then
          _ ← dx_mod (λ dx, dx <| dx_tail := tail |>); mret NGX_OK
        else
          _ ← (if b =? TS_SYNC_BYTE then process_packet tail
               else stat (λ s, s <| dt_sync_errors ::= λ n, n ⊕ 1 |>));
          _ ← dx_mod (λ dx, dx <| dx_tail := [] |>);
          feed_rest data n
    end.

(** End of the stream: what is partially assembled is emitted. *)
Definition demux_flush : D unit :=
  live ← dx_get dx_live;
  if negb live then mret tt
  else
    ntracks ← dx_get (λ dx, length (dx_tracks dx));
    for_tracks ntracks 0 au_flush.
