(* ===== verification/TsDemuxSafe.v ===== *)
(** * The demultiplexer's invariant

    The state invariant of TsDemux.v and the proof that every operation keeps it and never
    misbehaves, whatever bytes arrive: buffers stay inside their ceilings, references
    balance, no read leaves its packet and every loop ends. *)
From S2P Require Import Prelude Bytes Store TsCrc Compat Nal Aac TsDemux.

(** ** Rules for the primitives *)

Section rules.
Context {A : Type}.
Implicit Types (Q : A → dstate → Prop) (s : dstate).

Lemma wp_on_store (m : M A) Q s :
  wp m (λ a st, Q a (s <| ds_store := st |>)) (ds_store s) → wp (on_store m) Q s.
Proof.
  intros (a & st & Hm & HQ). exists a, (s <| ds_store := st |>). split; [|done].
  unfold on_store. by rewrite Hm.
Qed.
Lemma wp_dx_get (f : demux → A) Q s : Q (f (ds_dx s)) s → wp (dx_get f) Q s.
Proof. intros. by apply (wp_get (λ s, f (ds_dx s))). Qed.
End rules.

Lemma wp_dx_mod f (Q : unit → dstate → Prop) s :
  Q tt (s <| ds_dx := f (ds_dx s) |>) → wp (dx_mod f) Q s.
Proof. intros. by apply (wp_mod (λ s, s <| ds_dx ::= f |>)). Qed.
Lemma wp_stat f (Q : unit → dstate → Prop) s :
  Q tt (s <| ds_dx := (ds_dx s) <| dx_stats := f (dx_stats (ds_dx s)) |> |>) → wp (stat f) Q s.
Proof. intros. by apply (wp_dx_mod (λ dx, dx <| dx_stats ::= f |>)). Qed.
Lemma wp_tk_get i tk Q s :
  dx_tracks (ds_dx s) !! i = Some tk → Q tk s → wp (tk_get i) Q s.
Proof. intros. apply wp_bind, wp_dx_get. by eapply wp_read. Qed.
Lemma wp_tk_mod i f tk Q s :
  dx_tracks (ds_dx s) !! i = Some tk →
  Q tt (s <| ds_dx := (ds_dx s) <| dx_tracks := <[i := f tk]> (dx_tracks (ds_dx s)) |> |>) →
  wp (tk_mod i f) Q s.
Proof. intros. apply wp_bind. eapply wp_tk_get; [done|]. by apply wp_dx_mod. Qed.

(** ** The invariant *)

Record tk_ok (max : Z) (i : nat) (tk : ts_track) : Prop := {
  tko_au : bytes (tk_au tk);
  tko_cap : lenZ (tk_au tk) ≤ tk_au_cap tk ≤ max;
  tko_remaining : 0 ≤ tk_pes_remaining tk;
  tko_index : tk_track_index tk = Z.of_nat i;
  tko_alias : tr_config (tk_track tk) = tk_config tk }.

Record psi_ok (psi : ts_psi) : Prop := {
  pso_buf : bytes (ps_buf psi);
  pso_len : lenZ (ps_buf psi) < 3 ∨ lenZ (ps_buf psi) ≤ ps_expected psi ≤ TS_SECTION_MAX }.

(** The trackset is absent, or mirrors the tracks. *)
Definition set_ok (dx : demux) : Prop :=
  trackset_inv (dx_trackset dx) ∧
  (ts_count (dx_trackset dx) = 0 ∧ dx_tracks_ready dx = false ∨
   ts_count (dx_trackset dx) = Z.of_nat (length (dx_tracks dx)) ∧
   ∀ i tk, dx_tracks dx !! i = Some tk →
     ∃ tr, ts_tracks (dx_trackset dx) !! i = Some tr ∧ tr_config tr = tk_config tk).

Record dx_ok (dx : demux) : Prop := {
  dxo_live : dx_live dx = true;
  dxo_max : 0 ≤ dx_max_au_bytes dx ≤ 2 ^ 60;
  dxo_tracks : Z.of_nat (length (dx_tracks dx)) ≤ dx_max_tracks dx < 2 ^ 63;
  dxo_tk i tk : dx_tracks dx !! i = Some tk → tk_ok (dx_max_au_bytes dx) i tk;
  dxo_set : set_ok dx;
  dxo_pat : psi_ok (dx_pat dx);
  dxo_pmt : psi_ok (dx_pmt dx);
  dxo_tail : bytes (dx_tail dx) ∧ (length (dx_tail dx) < 188)%nat }.

#[global] Instance owner_ts_track : Owner ts_track := λ tk, option_list (tk_config tk).
#[global] Instance owner_demux : Owner demux := λ dx,
  holds (dx_tracks dx) ++ holds (dx_trackset dx).

Lemma holds_demux dx : holds dx = holds (dx_tracks dx) ++ holds (dx_trackset dx).
Proof. done. Qed.

(** The configuration a track remembers is readable. *)
Definition config_ok (st : store) (tk : ts_track) : Prop :=
  ∀ id, tk_config tk = Some id → ∃ bf, st_bufs st !! id = Some bf ∧
    tk_config_len tk ≤ Z.of_nat (length (b_data bf)).

(** What the sink was handed obeys the ceiling. *)
Definition sink_ok (max : Z) (e : ts_sink) : Prop :=
  match e with SinkTracks _ => True | SinkFrame _ d => 0 < lenZ d ≤ max end.

Record dinv (L : list N) (s : dstate) : Prop := {
  di_dx : dx_ok (ds_dx s);
  di_owns : owns (ds_store s) (holds (ds_dx s) ++ L);
  di_config tk : tk ∈ dx_tracks (ds_dx s) → config_ok (ds_store s) tk;
  di_out : Forall (sink_ok (dx_max_au_bytes (ds_dx s))) (ds_out s) }.

(** ** What an operation on track [i] leaves alone *)

Record tk_same (tk tk' : ts_track) : Prop := {
  tks_pid : tk_pid tk' = tk_pid tk;
  tks_type : tk_stream_type tk' = tk_stream_type tk;
  tks_codec : tk_codec tk' = tk_codec tk;
  tks_index : tk_track_index tk' = tk_track_index tk }.
#[global] Instance tk_same_preorder : PreOrder tk_same.
Proof.
  split; [by split|]. intros a b c [? ? ? ?] [? ? ? ?]. split; congruence.
Qed.

(** The media frames among the calls of the sink. *)
Definition media (e : ts_sink) : option (Z * Z * Z * bool * list Z) :=
  match e with
  | SinkFrame f d => if config f then None else Some (track_index f, pts f, dts f, keyframe f, d)
  | SinkTracks _ => None
  end.

Record op_frame (i : nat) (s s' : dstate) : Prop := {
  opf_dx : ds_dx s' = (ds_dx s) <| dx_stats := dx_stats (ds_dx s') |>
             <| dx_tracks := dx_tracks (ds_dx s') |> <| dx_trackset := dx_trackset (ds_dx s') |>
             <| dx_tail := dx_tail (ds_dx s') |>;
  opf_tracks tk : dx_tracks (ds_dx s) !! i = Some tk → ∃ tk',
    dx_tracks (ds_dx s') = <[i := tk']> (dx_tracks (ds_dx s)) ∧ tk_same tk tk';
  opf_store : evolves (ds_store s) (ds_store s') }.

Lemma op_frame_refl i s : op_frame i s s.
Proof.
  split; [by destruct s as [[] ? ?]| |done]. intros tk Htk. exists tk. split; [|done].
  by rewrite list_insert_id.
Qed.
Lemma op_frame_trans i s1 s2 s3 : op_frame i s1 s2 → op_frame i s2 s3 → op_frame i s1 s3.
Proof.
  intros [Hd1 Ht1 He1] [Hd2 Ht2 He2]. split.
  - rewrite Hd2, Hd1. done.
  - intros tk Htk. destruct (Ht1 _ Htk) as (tk1 & Heq1 & Hs1).
    destruct (Ht2 tk1) as (tk2 & Heq2 & Hs2).
    { rewrite Heq1. apply list_lookup_insert_eq. by eapply lookup_lt_Some. }
    exists tk2. rewrite Heq2, Heq1, list_insert_insert_eq. split; [done|by etrans].
  - by etrans.
Qed.

Lemma op_frame_lookup i s s' tk :
  op_frame i s s' → dx_tracks (ds_dx s) !! i = Some tk →
  ∃ tk', dx_tracks (ds_dx s') !! i = Some tk' ∧ tk_same tk tk'.
Proof.
  intros [_ Ht _] Htk. destruct (Ht _ Htk) as (tk' & -> & Hs). exists tk'. split; [|done].
  apply list_lookup_insert_eq. by eapply lookup_lt_Some.
Qed.

(** ** Keeping the invariant *)

Lemma dinv_stat L s x : dinv L s → dinv L (s <| ds_dx := (ds_dx s) <| dx_stats := x |> |>).
Proof. intros [[] ? ? ?]. by split; [split|..]. Qed.

Lemma dinv_out L s e :
  dinv L s → sink_ok (dx_max_au_bytes (ds_dx s)) e → dinv L (s <| ds_out ::= λ o, o ++ [e] |>).
Proof.
  intros [? ? ? Ho] He. split; [done|done|done|]. cbn. apply Forall_app. by split; [|constructor].
Qed.

Lemma dinv_perm L L' s : L ≡ₚ L' → dinv L s → dinv L' s.
Proof. intros HL [? Ho ? ?]. split; [done| |done|done]. by rewrite <- HL. Qed.

(** A readable buffer stays readable while it is held. *)
Lemma config_ok_evolves st st' L tk :
  owns st' L → evolves st st' → holds tk ⊆ L → (∀ id, id ∈ holds tk → (id < st_next st)%N) →
  config_ok st tk → config_ok st' tk.
Proof.
  intros Ho [_ _ Hev] Hin Hlt Hc id Hid. destruct (Hc id Hid) as (bf & Hb & Hl).
  assert (id ∈ holds tk) as Hh by (unfold holds, owner_ts_track; rewrite Hid; set_solver).
  destruct (owns_in _ _ id Ho) as [b' Hb']; [by apply Hin|].
  destruct (Hev id b' Hb' (Hlt _ Hh)) as (b0 & Hb0 & _ & Hd). rewrite Hb in Hb0.
  injection Hb0 as <-. exists b'. by rewrite Hd.
Qed.

Lemma owns_lt st L id : owns st L → id ∈ L → (id < st_next st)%N.
Proof.
  intros Ho Hin. destruct (owns_in _ _ _ Ho Hin) as [b Hb]. by eapply wf_next, Hb; apply Ho.
Qed.

Lemma holds_tk_sub dx tk : tk ∈ dx_tracks dx → holds tk ⊆ holds dx.
Proof.
  intros Hin. unfold holds at 2, owner_demux. etrans; [by apply (holds_elem tk)|]. sub_app.
Qed.

Lemma dinv_store L L' s st :
  dinv L s → owns st (holds (ds_dx s) ++ L') → evolves (ds_store s) st →
  dinv L' (s <| ds_store := st |>).
Proof.
  intros [Hdx Ho Hc Hout] Ho' Hev. split; [done|done| |done]. cbn. intros tk Htk.
  pose proof (holds_tk_sub _ _ Htk) as Hsub.
  eapply config_ok_evolves; [exact Ho'|exact Hev| | |by apply Hc].
  - etrans; [exact Hsub|sub_app].
  - intros id Hid. eapply owns_lt; [exact Ho|]. apply elem_of_app. left. by apply Hsub.
Qed.

(** A track changes in what carries no reference. *)
Lemma dinv_track L s i tk tk' :
  dinv L s → dx_tracks (ds_dx s) !! i = Some tk →
  (tk_ok (dx_max_au_bytes (ds_dx s)) i tk → tk_ok (dx_max_au_bytes (ds_dx s)) i tk') →
  tk_config tk' = tk_config tk → tk_config_len tk' = tk_config_len tk →
  dinv L (s <| ds_dx := (ds_dx s) <| dx_tracks := <[i := tk']> (dx_tracks (ds_dx s)) |> |>).
Proof.
  intros [[Hlive Hmax Hn Htk Hset Hpat Hpmt Htail] Ho Hc Hout] Hi Hok Hcfg Hlen.
  pose proof (lookup_lt_Some _ _ _ Hi) as Hlt.
  split; [split|..]; cbn; try done.
  - by rewrite length_insert.
  - intros j t Hj. destruct (decide (j = i)) as [->|Hne].
    + rewrite list_lookup_insert_eq in Hj by done. injection Hj as <-. auto.
    + rewrite list_lookup_insert_ne in Hj by done. auto.
  - destruct Hset as [Hinv [Hz|[Hcnt Hm]]]; (split; [done|]); [by left|right]. cbn.
    rewrite length_insert. split; [done|]. intros j t Hj. destruct (decide (j = i)) as [->|Hne].
    + rewrite list_lookup_insert_eq in Hj by done. injection Hj as <-.
      destruct (Hm _ _ Hi) as (tr & ? & ?). exists tr. split; [done|congruence].
    + rewrite list_lookup_insert_ne in Hj by done. auto.
  - eapply owns_proper; [|exact Ho]. unfold holds, owner_demux; cbn.
    assert (holds (<[i := tk']> (dx_tracks (ds_dx s))) ≡ₚ holds (dx_tracks (ds_dx s))) as ->; [|done].
    rewrite (holds_insert _ _ _ _ Hi), (holds_delete _ _ _ Hi).
    unfold holds at 1 3, owner_ts_track. by rewrite Hcfg.
  - intros t [j Hj]%list_elem_of_lookup. destruct (decide (j = i)) as [->|Hne].
    + rewrite list_lookup_insert_eq in Hj by done. injection Hj as <-.
      intros id. rewrite Hcfg, Hlen. eapply Hc, list_elem_of_lookup_2, Hi.
    + rewrite list_lookup_insert_ne in Hj by done. eapply Hc, list_elem_of_lookup_2, Hj.
Qed.

Lemma op_frame_stat i s x : op_frame i s (s <| ds_dx := (ds_dx s) <| dx_stats := x |> |>).
Proof.
  split; [by destruct s as [[] ? ?]| |done]. intros tk Htk. exists tk. split; [|done].
  cbn. by rewrite list_insert_id.
Qed.
Lemma op_frame_out i s e : op_frame i s (s <| ds_out ::= λ o, o ++ [e] |>).
Proof.
  split; [by destruct s as [[] ? ?]| |done]. intros tk Htk. exists tk. split; [|done].
  cbn. by rewrite list_insert_id.
Qed.
Lemma op_frame_store i s st : evolves (ds_store s) st → op_frame i s (s <| ds_store := st |>).
Proof.
  split; [by destruct s as [[] ? ?]| |done]. intros tk Htk. exists tk. split; [|done].
  cbn. by rewrite list_insert_id.
Qed.
Lemma op_frame_track i s tk tk' :
  dx_tracks (ds_dx s) !! i = Some tk → tk_same tk tk' →
  op_frame i s (s <| ds_dx := (ds_dx s) <| dx_tracks := <[i := tk']> (dx_tracks (ds_dx s)) |> |>).
Proof.
  intros Hi Hs. split; [by destruct s as [[] ? ?]| |done]. intros t Ht. rewrite Hi in Ht.
  injection Ht as <-. by exists tk'.
Qed.
Lemma op_frame_set i s set :
  op_frame i s (s <| ds_dx := (ds_dx s) <| dx_trackset := set |> |>).
Proof.
  split; [by destruct s as [[] ? ?]| |done]. intros tk Htk. exists tk. split; [|done].
  cbn. by rewrite list_insert_id.
Qed.

(** ** Emission *)

Definition alloc_ok (st : store) : Prop := ∀ n size, st_alloc st n size = true.

Lemma alloc_ok_evolves st st' : evolves st st' → alloc_ok st → alloc_ok st'.
Proof. intros [_ Ha _] H n size. by rewrite Ha. Qed.

Lemma wp_ngx_alloc_ok size L st :
  owns st L →
  wp (ngx_alloc size) (λ p st', owns st' L ∧ evolves st st' ∧
    (alloc_ok st → size < 2 ^ 63 → is_Some p)) st.
Proof.
  intros Ho. eapply wp_mono; [apply wp_and; [by apply wp_ngx_alloc|]|].
  - instantiate (1 := λ p _, alloc_ok st → size < 2 ^ 63 → is_Some p).
    eexists _, _. split; [done|]. intros Ha Hs.
    rewrite (proj2 (Z.ltb_lt _ _) Hs), Ha. done.
  - intros p st' [(? & ? & _) ?]. done.
Qed.

Lemma wp_buf_dup data L st :
  owns st L →
  wp (buf_dup data) (λ p st', owns st' (holds p ++ L) ∧ evolves st st' ∧
    (∀ id, p = Some id → ∃ bf, st_bufs st' !! id = Some bf ∧ b_data bf = data) ∧
    (alloc_ok st → lenZ data ≤ 2 ^ 62 → is_Some p)) st.
Proof.
  intros Ho. unfold buf_dup. pose proof (lenZ_nonneg data) as Hn.
  apply wp_bind. eapply wp_mono; [apply wp_and; [by apply wp_buf_alloc|]|].
  { instantiate (1 := λ p _, alloc_ok st → lenZ data ≤ 2 ^ 62 → is_Some p).
    unfold buf_alloc, buf_header. caseb; [apply wp_ret; lia|].
    apply wp_bind. eapply wp_mono; [by apply wp_ngx_alloc_ok|].
    intros [a|] st1 (_ & _ & Ha); [|apply wp_ret; intros ??; apply Ha; [done|lia]].
    eexists _, _. split; [done|]. eauto. }
  intros [id|] st1 [(Ho1 & Hev & Hfresh) Ha].
  2:{ apply wp_ret. by split_and!. }
  destruct (Hfresh id eq_refl) as [Hge Hb]. pose proof (owns_wf _ _ Ho1) as Hwf.
  apply wp_bind. eapply wp_buf_write; [exact Hb|done|done|].
  apply wp_bind. eapply wp_buf_freeze; [by apply set_data_lookup|done|].
  cbn [b_refs b_cap b_data]. rewrite take_nil, drop_nil, app_nil_l, app_nil_r.
  apply wp_ret. split_and!.
  - eapply owns_update; [|by apply set_data_lookup|done|done|cbn; lia|done].
    by eapply owns_set_data.
  - destruct Hev as [Hnx Hal Hsame]. split; [done|done|]. cbn. intros i b'.
    rewrite lookup_insert. case_decide; [lia|]. rewrite lookup_alter_ne by done. eauto.
  - intros ? [= <-]. cbn. rewrite lookup_insert_eq. by eexists.
  - eauto.
Qed.

(** Frames come out, nothing else changes but the counters. *)
Lemma wp_demux_emit L s i tk data p d key cfg fmt :
  dinv L s → dx_tracks (ds_dx s) !! i = Some tk →
  wp (demux_emit i data p d key cfg fmt) (λ _ s', dinv L s' ∧ op_frame i s s' ∧
    dx_tracks (ds_dx s') = dx_tracks (ds_dx s) ∧
    dx_trackset (ds_dx s') = dx_trackset (ds_dx s) ∧ ∃ more, ds_out s' = ds_out s ++ more ∧
    (cfg = true → omap media more = []) ∧
    (cfg = false → alloc_ok (ds_store s) → 0 < lenZ data ≤ dx_max_au_bytes (ds_dx s) →
      omap media more = [(tk_track_index tk, p, d, key, data)])) s.
Proof.
  intros Hi Htk. unfold demux_emit. pose proof (lenZ_nonneg data) as Hn.
  assert (∀ s', dinv L s' ∧ op_frame i s s' ∧ dx_tracks (ds_dx s') = dx_tracks (ds_dx s) ∧
    dx_trackset (ds_dx s') = dx_trackset (ds_dx s) ∧
    (ds_out s' = ds_out s ∧ (alloc_ok (ds_store s) → ¬ 0 < lenZ data ≤ dx_max_au_bytes (ds_dx s))) →
    dinv L s' ∧ op_frame i s s' ∧ dx_tracks (ds_dx s') = dx_tracks (ds_dx s) ∧
    dx_trackset (ds_dx s') = dx_trackset (ds_dx s) ∧ ∃ more, ds_out s' = ds_out s ++ more ∧
    (cfg = true → omap media more = []) ∧
    (cfg = false → alloc_ok (ds_store s) → 0 < lenZ data ≤ dx_max_au_bytes (ds_dx s) →
      omap media more = [(tk_track_index tk, p, d, key, data)])) as Hnone.
  { intros s' (H1 & H2 & H3 & H4 & H5 & H6). split_and!; try done. exists [].
    rewrite app_nil_r. split_and!; [done|done|]. intros _ Ha Hb. by destruct (H6 Ha). }
  destruct (Z.eqb_spec (lenZ data) 0) as [Hz|Hz].
  { apply wp_ret, Hnone. split_and!; [done|apply op_frame_refl|done..|lia]. }
  apply wp_bind, wp_dx_get. destruct (Z.ltb_spec (dx_max_au_bytes (ds_dx s)) (lenZ data)).
  { apply wp_bind, wp_stat, wp_ret, Hnone.
    split_and!; [by apply dinv_stat|apply op_frame_stat|done..|cbn; lia]. }
  apply wp_bind, wp_on_store. eapply wp_mono; [apply wp_buf_dup, Hi|].
  intros [buf|] st1 (Ho1 & Hev1 & _ & Hok).
  2:{ apply wp_ret, Hnone. split_and!; [by eapply dinv_store|by apply op_frame_store|done..|].
      intros Ha _. pose proof (dxo_max _ (di_dx _ _ Hi)).
      destruct (Hok Ha) as [? ?]; [lia|done]. }
  apply wp_bind. eapply wp_tk_get; [exact Htk|].
  apply wp_bind, wp_on_store. eapply wp_mono;
    [by apply (wp_frame_adopt _ (Some buf) (holds (ds_dx s) ++ L))|].
  intros f st2 (-> & Ho2 & Hev2).
  apply wp_bind, wp_mod, wp_bind, wp_on_store. eapply wp_mono; [by apply wp_frame_release|].
  intros f st3 (-> & Ho3 & Hev3). apply wp_bind, wp_stat, wp_ret.
  assert (evolves (ds_store s) st3) as Hev by (by do 2 (etrans; [done|])).
  set (e := SinkFrame _ _).
  assert (dinv L (s <| ds_store := st3 |> <| ds_out ::= λ o, o ++ [e] |>)) as Hi3.
  { apply dinv_out; [by eapply dinv_store|]. cbn. lia. }
  split_and!.
  - apply (dinv_stat _ _ _ Hi3).
  - eapply op_frame_trans; [by apply (op_frame_store i s st3)|].
    eapply op_frame_trans; [apply (op_frame_out i _ e)|]. apply op_frame_stat.
  - done.
  - done.
  - exists [e]. split; [done|]. split; intros ->; [done|]. intros _ _. done.
Qed.

(** ** Replacing a track's configuration *)

Lemma ts_used_insert set i tr :
  (i < Z.to_nat (ts_count set))%nat →
  ts_used (set <| ts_tracks ::= <[i := tr]> |>) = <[i := tr]> (ts_used set).
Proof. intros Hi. unfold ts_used. cbn. by rewrite take_insert_lt. Qed.

Lemma ts_used_lookup set i tr :
  (i < Z.to_nat (ts_count set))%nat → ts_tracks set !! i = Some tr → ts_used set !! i = Some tr.
Proof. intros Hi Hl. unfold ts_used. by rewrite lookup_take_lt. Qed.

(** The trackset's half: its descriptor [i] drops [old] and refers to [buf]. *)
Lemma wp_trackset_config s i buf rest L :
  trackset_inv (dx_trackset (ds_dx s)) → Z.of_nat i < 2 ^ 63 →
  owns (ds_store s) (buf :: rest ++ holds (dx_trackset (ds_dx s)) ++ L) →
  wp (trackset_config (Z.of_nat i) (Some buf)) (λ _ s', ∃ set,
    s' = s <| ds_store := ds_store s' |> <| ds_dx := (ds_dx s) <| dx_trackset := set |> |> ∧
    evolves (ds_store s) (ds_store s') ∧ trackset_inv set ∧
    ts_count set = ts_count (dx_trackset (ds_dx s)) ∧
    owns (ds_store s') (buf :: rest ++ holds set ++ L) ∧
    ∀ j tr, ts_tracks (dx_trackset (ds_dx s)) !! j = Some tr →
      ∃ tr', ts_tracks set !! j = Some tr' ∧
        tr_config tr' = if decide (j = i ∧ Z.of_nat i < ts_count set) then Some buf else tr_config tr) s.
Proof.
  intros Hinv Hi63 Ho. unfold trackset_config. apply wp_bind, wp_dx_get.
  set (set0 := dx_trackset (ds_dx s)) in *. destruct Hinv as [Hlen Hcnt].
  destruct (Z.ltb_spec (Z.of_nat i) (ts_count set0)) as [Hlt|Hge].
  2:{ apply wp_ret. exists set0. split_and!; [by destruct s as [[] ? ?]|done|by split|done|done|].
      intros j tr Hj. exists tr. split; [done|]. rewrite decide_False by lia. done. }
  destruct (lookup_lt_is_Some_2 (ts_tracks set0) i) as [tr Htr]; [lia|].
  apply wp_bind. eapply wp_read; [by rewrite Nat2Z.id|].
  assert (ts_used set0 !! i = Some tr) as Hu by (apply ts_used_lookup; [lia|done]).
  assert (holds set0 ≡ₚ holds tr ++ holds (delete i (ts_used set0))) as Hh
    by (by apply (holds_delete (ts_used set0))).
  apply wp_bind, wp_on_store. eapply wp_mono; [apply (wp_buf_unref _ (buf :: rest ++ holds (delete i (ts_used set0)) ++ L))|].
  { eapply owns_proper; [|exact Ho]. rewrite Hh. change (holds tr) with (holds (tr_config tr)).
    solve_Permutation. }
  intros [] st1 (Ho1 & Hev1).
  apply wp_bind, wp_on_store. eapply wp_mono; [eapply wp_buf_ref; [exact Ho1|set_solver]|].
  intros r st2 (-> & Ho2 & Hev2). apply wp_dx_mod.
  assert (evolves (ds_store s) st2) as Hev by (by etrans).
  exists (set0 <| ts_tracks ::= <[i := tr <| tr_config := Some buf |>]> |>).
  rewrite Nat2Z.id. split_and!; [by destruct s as [[] ? ?]|done| |done| |].
  - split; cbn; rewrite ?length_insert; done.
  - eapply owns_proper; [|exact Ho2].
    change (holds (set0 <| ts_tracks ::= <[i := tr <| tr_config := Some buf |>]> |>))
      with (holds (ts_used (set0 <| ts_tracks ::= <[i := tr <| tr_config := Some buf |>]> |>))).
    rewrite ts_used_insert by lia. rewrite (holds_insert _ _ _ _ Hu).
    change (holds (tr <| tr_config := Some buf |>)) with [buf]. solve_Permutation.
  - intros j tr' Hj. cbn. destruct (decide (j = i)) as [->|Hne].
    + rewrite list_lookup_insert_eq by (by eapply lookup_lt_Some).
      eexists. split; [done|]. by rewrite decide_True.
    + rewrite list_lookup_insert_ne by done. exists tr'. split; [done|].
      rewrite decide_False by tauto. done.
Qed.

Lemma wp_swap_config L s i tk buf bf len st1 :
  dinv L s → dx_tracks (ds_dx s) !! i = Some tk →
  owns st1 (buf :: holds (ds_dx s) ++ L) → evolves (ds_store s) st1 →
  st_bufs st1 !! buf = Some bf → len ≤ Z.of_nat (length (b_data bf)) →
  let new := λ tk, tk <| tk_config := Some buf |> <| tk_config_len := len |>
                      <| tk_track ::= λ tr, tr <| tr_config := Some buf |> |> in
  wp (_ ← on_store (buf_unref (tk_config tk)); _ ← tk_mod i new;
      trackset_config (tk_track_index tk) (Some buf))
    (λ _ s', dinv L s' ∧ op_frame i s s' ∧ ds_out s' = ds_out s ∧
       dx_tracks (ds_dx s') = <[i := new tk]> (dx_tracks (ds_dx s)))
    (s <| ds_store := st1 |>).
Proof.
  intros Hi Htk Ho1 Hev1 Hbuf Hlen new. pose proof (lookup_lt_Some _ _ _ Htk) as Hlt.
  pose proof Hi as [[Hlive Hmax Hn Htko Hset Hpat Hpmt Htail] Ho Hc Hout].
  pose proof (Htko _ _ Htk) as [? ? ? Hindex ?].
  set (others := holds (delete i (dx_tracks (ds_dx s)))).
  assert (holds (ds_dx s) ≡ₚ holds tk ++ others ++ holds (dx_trackset (ds_dx s))) as Hh.
  { unfold holds at 1, owner_demux. rewrite (holds_delete _ _ _ Htk). by rewrite app_assoc. }
  apply wp_bind, wp_on_store. eapply wp_mono;
    [apply (wp_buf_unref _ (buf :: others ++ holds (dx_trackset (ds_dx s)) ++ L))|].
  { eapply owns_proper; [|exact Ho1]. rewrite Hh. change (holds tk) with (holds (tk_config tk)).
    solve_Permutation. }
  intros [] st2 (Ho2 & Hev2). apply wp_bind. eapply wp_tk_mod; [exact Htk|].
  rewrite Hindex. eapply wp_mono; [apply (wp_trackset_config _ i buf others L);
    [apply Hset|lia|exact Ho2]|].
  intros [] s' (set & Hs' & Hev3 & Hinv & Hcnt & Ho3 & Hcfg).
  set (st' := ds_store s') in *. clearbody st'. subst s'. cbn [ds_store setf] in *.
  cbn [ds_dx dx_trackset setf] in Hcnt, Hcfg.
  assert (evolves st1 st') as Hev13 by (by etrans).
  assert (evolves (ds_store s) st') as Hev by (by etrans).
  assert (holds (<[i := new tk]> (dx_tracks (ds_dx s))) ≡ₚ buf :: others) as Hh'
    by (by rewrite (holds_insert _ _ _ _ Htk)).
  assert (owns st' (holds (<[i := new tk]> (dx_tracks (ds_dx s))) ++ holds set ++ L)) as Ho'.
  { eapply owns_proper; [|exact Ho3]. rewrite Hh'. solve_Permutation. }
  split_and!; [|split| |]; try done.
  - split; [split|..]; cbn; try done.
    + by rewrite length_insert.
    + intros j t Hj. destruct (decide (j = i)) as [->|Hne].
      * rewrite list_lookup_insert_eq in Hj by done. injection Hj as <-. by split.
      * rewrite list_lookup_insert_ne in Hj by done. auto.
    + split; [done|]. cbn. rewrite Hcnt, length_insert.
      destruct Hset as [_ [[Hz Hr]|[Hcn Hm]]]; [by left|right]. split; [done|].
      intros j t Hj. destruct (decide (j = i)) as [->|Hne].
      * rewrite list_lookup_insert_eq in Hj by done. injection Hj as <-.
        destruct (Hm _ _ Htk) as (tr & Htr & _). destruct (Hcfg _ _ Htr) as (tr' & ? & Htr').
        exists tr'. split; [done|]. rewrite Htr', decide_True; [done|lia].
      * rewrite list_lookup_insert_ne in Hj by done. destruct (Hm _ _ Hj) as (tr & Htr & Htrc).
        destruct (Hcfg _ _ Htr) as (tr' & ? & Htr'). exists tr'. split; [done|].
        rewrite Htr', decide_False by tauto. done.
    + unfold holds at 1, owner_demux. cbn. by rewrite <- app_assoc.
    + intros t [j Hj]%list_elem_of_lookup. destruct (decide (j = i)) as [->|Hne].
      * rewrite list_lookup_insert_eq in Hj by done. injection Hj as <-.
        eapply (config_ok_evolves st1); [exact Ho'|exact Hev13| | |].
        -- change (holds (new tk)) with [buf]. rewrite Hh'. set_solver.
        -- intros id ->%list_elem_of_singleton. eapply owns_lt; [exact Ho1|set_solver].
        -- intros id [= <-]. by exists bf.
      * rewrite list_lookup_insert_ne in Hj by done.
        pose proof (list_elem_of_lookup_2 _ _ _ Hj) as Hin.
        eapply (config_ok_evolves (ds_store s)); [exact Ho'|exact Hev| | |by apply Hc].
        -- etrans; [|apply list_subseteq_app_l; reflexivity].
           apply (holds_elem t). apply list_elem_of_lookup. exists j.
           by rewrite list_lookup_insert_ne.
        -- intros id Hid. eapply owns_lt; [exact Ho|]. apply elem_of_app. left.
           by apply (holds_tk_sub _ t).
  - intros t Ht. rewrite Htk in Ht. injection Ht as <-. exists (new tk). split; [done|]. by split.
Qed.

(** [tk'] is [tk] up to the descriptor and the configuration. *)
Definition tk_retold (tk tk' : ts_track) : Prop :=
  tk' = tk <| tk_config := tk_config tk' |> <| tk_config_len := tk_config_len tk' |>
           <| tk_track := tk_track tk' |>.
Lemma tk_retold_refl tk : tk_retold tk tk.
Proof. by destruct tk. Qed.
Lemma tk_retold_trans a b c : tk_retold a b → tk_retold b c → tk_retold a c.
Proof. unfold tk_retold. intros -> ->. by destruct c. Qed.
Lemma tk_retold_same tk tk' : tk_retold tk tk' → tk_same tk tk'.
Proof. by intros ->. Qed.

(** Only the calls of the sink that are not media came. *)
Definition quiet (s s' : dstate) : Prop :=
  ∃ more, ds_out s' = ds_out s ++ more ∧ omap media more = [].
Lemma quiet_refl s : quiet s s.
Proof. exists []. by rewrite app_nil_r. Qed.
Lemma quiet_eq s s' : ds_out s' = ds_out s → quiet s s'.
Proof. exists []. by rewrite app_nil_r. Qed.
Lemma quiet_trans s1 s2 s3 : quiet s1 s2 → quiet s2 s3 → quiet s1 s3.
Proof.
  intros (m1 & H1 & E1) (m2 & H2 & E2). exists (m1 ++ m2).
  by rewrite H2, H1, app_assoc, omap_app, E1, E2.
Qed.
Lemma quiet_emits s1 s2 s3 l :
  quiet s1 s2 → (∃ more, ds_out s3 = ds_out s2 ++ more ∧ omap media more = l) →
  ∃ more, ds_out s3 = ds_out s1 ++ more ∧ omap media more = l.
Proof.
  intros (m1 & H1 & E1) (m2 & H2 & E2). exists (m1 ++ m2).
  by rewrite H2, H1, app_assoc, omap_app, E1, E2.
Qed.

Lemma wp_call_sink_tracks L s i :
  dinv L s →
  wp call_sink_tracks (λ _ s', dinv L s' ∧ op_frame i s s' ∧ quiet s s' ∧ ds_dx s' = ds_dx s) s.
Proof.
  intros Hi. apply wp_bind, wp_dx_get, wp_mod. split_and!; [by apply dinv_out|apply op_frame_out| |done].
  by eexists.
Qed.

Lemma wp_config_same L s tk data :
  dinv L s → tk ∈ dx_tracks (ds_dx s) →
  wp (config_same tk data) (λ _ st, st = ds_store s) (ds_store s).
Proof.
  intros Hi Hin. unfold config_same. destruct (tk_config tk) as [id|] eqn:E; [|by apply wp_ret].
  destruct (Z.eqb_spec (tk_config_len tk) (lenZ data)) as [El|]; [|by apply wp_ret].
  destruct (di_config _ _ Hi tk Hin id E) as (bf & Hb & Hl).
  eexists _, _. split; [|done]. unfold buf_read, deref, mbind, SM_bind. rewrite Hb.
  by rewrite (proj2 (Z.leb_le _ _)) by lia.
Qed.

Lemma wp_emit_config L s i tk data fmt :
  dinv L s → dx_tracks (ds_dx s) !! i = Some tk →
  wp (emit_config i data fmt) (λ _ s', dinv L s' ∧ op_frame i s s' ∧ quiet s s' ∧
    ∃ tk', tk_retold tk tk' ∧ dx_tracks (ds_dx s') = <[i := tk']> (dx_tracks (ds_dx s))) s.
Proof.
  intros Hi Htk. unfold emit_config.
  assert (dinv L s ∧ op_frame i s s ∧ quiet s s ∧
    ∃ tk', tk_retold tk tk' ∧ dx_tracks (ds_dx s) = <[i := tk']> (dx_tracks (ds_dx s))) as Hnone.
  { split_and!; [done|apply op_frame_refl|apply quiet_refl|]. exists tk.
    split; [apply tk_retold_refl|by rewrite list_insert_id]. }
  destruct (lenZ data =? 0); [by apply wp_ret|].
  apply wp_bind. eapply wp_tk_get; [done|]. apply wp_bind, wp_on_store.
  eapply wp_mono; [by eapply wp_config_same; [|by eapply list_elem_of_lookup_2]|].
  intros same ? ->. replace (s <| ds_store := ds_store s |>) with s by (by destruct s).
  destruct same; [by apply wp_ret|].
  apply wp_bind, wp_on_store. eapply wp_mono; [apply wp_buf_dup, Hi|].
  intros [buf|] st1 (Ho1 & Hev1 & Hbuf & _).
  2:{ apply wp_ret. destruct Hnone as (_ & _ & Hq & Ht).
      split_and!; [by eapply dinv_store|by apply op_frame_store|done|done]. }
  destruct (Hbuf buf eq_refl) as (bf & Hbf & Hdata).
  apply wp_bind3. eapply wp_mono; [eapply (wp_swap_config L s i tk buf bf (lenZ data) st1);
    [done..|by rewrite Hdata]|].
  intros [] s2 (Hi2 & Hf2 & Hout2 & Ht2). pose proof (lookup_lt_Some _ _ _ Htk) as Hlt.
  set (tk2 := _ <| tk_track ::= _ |>) in Ht2.
  assert (dx_tracks (ds_dx s2) !! i = Some tk2) as Htk2 by (by rewrite Ht2, list_lookup_insert_eq).
  apply wp_bind. eapply wp_mono; [by apply (wp_demux_emit L s2 i tk2)|].
  intros _ s3 (Hi3 & Hf3 & Ht3 & _ & more & Hout3 & Hq3 & _).
  assert (quiet s s3) as Hquiet.
  { exists more. split; [by rewrite Hout3, Hout2|auto]. }
  assert (op_frame i s s3) as Hf by (by eapply op_frame_trans).
  assert (∃ tk', tk_retold tk tk' ∧ dx_tracks (ds_dx s3) = <[i := tk']> (dx_tracks (ds_dx s))) as Ht.
  { exists tk2. split; [done|by rewrite Ht3, Ht2]. }
  apply wp_bind, wp_dx_get. destruct (dx_tracks_ready (ds_dx s3)).
  - apply wp_bind. eapply wp_mono; [by apply (wp_call_sink_tracks L s3 i)|].
    intros [] s4 (Hi4 & Hf4 & Hq4 & Hdx4). apply wp_ret. rewrite Hdx4.
    split_and!; [done|by eapply op_frame_trans|by eapply quiet_trans|done].
  - apply wp_bind, wp_ret, wp_ret. by split_and!.
Qed.

(** ** Audio *)

(** [tk'] is [tk] up to the descriptor, the configuration and the audio clock. *)
Definition tk_heard (tk tk' : ts_track) : Prop :=
  tk' = tk <| tk_config := tk_config tk' |> <| tk_config_len := tk_config_len tk' |>
           <| tk_track := tk_track tk' |> <| tk_last_pts := tk_last_pts tk' |>.
Lemma tk_heard_refl tk : tk_heard tk tk.
Proof. by destruct tk. Qed.
Lemma tk_heard_trans a b c : tk_heard a b → tk_heard b c → tk_heard a c.
Proof. unfold tk_heard. intros -> ->. by destruct c. Qed.
Lemma tk_retold_heard a b : tk_retold a b → tk_heard a b.
Proof. unfold tk_heard. intros ->. by destruct a. Qed.
Lemma tk_heard_same a b : tk_heard a b → tk_same a b.
Proof. by intros ->. Qed.

(** The frames an assembled run of ADTS frames yields, with their times. *)
Fixpoint adts_media (fuel : nat) (idx pts : Z) (p : list Z) : list (Z * Z * Z * bool * list Z) :=
  match fuel with
  | O => []
  | S fuel =>
      if lenZ p <? ADTS_HEADER_MIN then []
      else
        match adts_parse p adts_zero with
        | Some (NGX_OK, a) =>
            if lenZ p <? ad_frame_len a then []
            else
              let n := Z.to_nat (ad_frame_len a) in
              (idx, pts, pts, true, take n p)
              :: adts_media fuel idx (s64 (pts + 1024 * 90000 `div` ad_sample_rate a)) (drop n p)
        | _ => []
        end
  end.

(** [s'] follows [s] after [l] was emitted for track [i], which was [tk]. *)
Record emitted (L : list N) (i : nat) (s s' : dstate) (l : list (Z * Z * Z * bool * list Z)) : Prop := {
  em_inv : dinv L s';
  em_frame : op_frame i s s';
  em_out : ∃ more, ds_out s' = ds_out s ++ more ∧
    (alloc_ok (ds_store s) → omap media more = l) }.

Lemma emitted_trans L i s1 s2 s3 l1 l2 :
  emitted L i s1 s2 l1 → emitted L i s2 s3 l2 → emitted L i s1 s3 (l1 ++ l2).
Proof.
  intros [_ Hf1 (m1 & H1 & E1)] [Hi Hf2 (m2 & H2 & E2)]. split; [done|by eapply op_frame_trans|].
  exists (m1 ++ m2). split; [by rewrite H2, H1, app_assoc|]. intros Ha.
  rewrite omap_app, E1, E2; [done| |done]. eapply alloc_ok_evolves, Ha. apply Hf1.
Qed.
Lemma emitted_quiet L i s s' : dinv L s' → op_frame i s s' → quiet s s' → emitted L i s s' [].
Proof. intros Hi Hf (m & H & E). split; [done|done|]. by exists m. Qed.

Lemma wp_tk_mod_inv L s i tk f (Q : unit → dstate → Prop) :
  dinv L s → dx_tracks (ds_dx s) !! i = Some tk →
  (tk_ok (dx_max_au_bytes (ds_dx s)) i tk → tk_ok (dx_max_au_bytes (ds_dx s)) i (f tk)) →
  tk_config (f tk) = tk_config tk → tk_config_len (f tk) = tk_config_len tk →
  (∀ s', dinv L s' → ds_out s' = ds_out s → ds_store s' = ds_store s →
     ds_dx s' = (ds_dx s) <| dx_tracks := <[i := f tk]> (dx_tracks (ds_dx s)) |> →
     (tk_same tk (f tk) → op_frame i s s') → Q tt s') →
  wp (tk_mod i f) Q s.
Proof.
  intros Hi Htk Hok Hc Hl HQ. eapply wp_tk_mod; [done|]. apply HQ; [by apply (dinv_track L s i tk)|done..|].
  by apply op_frame_track.
Qed.

Lemma wp_adts_step L s i tk p a :
  dinv L s → dx_tracks (ds_dx s) !! i = Some tk →
  0 < ad_frame_len a ≤ lenZ p → lenZ p ≤ dx_max_au_bytes (ds_dx s) →
  wp (adts_step i p a) (λ r s',
    r.1 = drop (Z.to_nat (ad_frame_len a)) p ∧
    emitted L i s s' [(tk_track_index tk, tk_last_pts tk, tk_last_pts tk, true,
                       take (Z.to_nat (ad_frame_len a)) p)] ∧
    ∃ tk', tk_heard tk tk' ∧ dx_tracks (ds_dx s') = <[i := tk']> (dx_tracks (ds_dx s)) ∧
      tk_last_pts tk' = s64 (tk_last_pts tk + 1024 * 90000 `div` ad_sample_rate a)) s.
Proof.
  intros Hi Htk Hn Hmax. unfold adts_step. destruct (adts_audio_specific_config a 2) as [r asc].
  pose proof (lookup_lt_Some _ _ _ Htk) as Hlt.
  apply wp_bind. eapply (wp_mono _ (λ _ s', dinv L s' ∧ op_frame i s s' ∧ quiet s s' ∧
    ∃ tk', tk_retold tk tk' ∧ dx_tracks (ds_dx s') = <[i := tk']> (dx_tracks (ds_dx s)))).
  { destruct (bool_decide_reflect (r = NGX_OK)); [by apply wp_emit_config|]. apply wp_ret.
    split_and!; [done|apply op_frame_refl|apply quiet_refl|]. exists tk.
    split; [apply tk_retold_refl|by rewrite list_insert_id]. }
  intros _ s1 (Hi1 & Hf1 & Hq1 & tk1 & Ht1 & Hts1).
  assert (dx_tracks (ds_dx s1) !! i = Some tk1) as Htk1 by (by rewrite Hts1, list_lookup_insert_eq).
  apply wp_bind. eapply wp_tk_get; [done|]. cbv zeta.
  apply wp_bind. eapply (wp_mono _ (λ _ s', dinv L s' ∧ op_frame i s1 s' ∧ ds_out s' = ds_out s1 ∧
    ∃ tk', tk_retold tk1 tk' ∧ dx_tracks (ds_dx s') = <[i := tk']> (dx_tracks (ds_dx s1)))).
  { destruct (negb _ || _ || _).
    - eapply (wp_tk_mod_inv L s1); [done|done|intros [? ? ? ? ?]; by split|done|done|].
      intros s' Hi' Ho' _ Hdx' Hf'. split_and!; [done|by apply Hf'|done|].
      eexists. rewrite Hdx'. split; [|done]. done.
    - apply wp_ret. split_and!; [done|apply op_frame_refl|done|]. exists tk1.
      split; [apply tk_retold_refl|by rewrite list_insert_id]. }
  intros _ s2 (Hi2 & Hf2 & Ho2 & tk2 & Ht2 & Hts2).
  assert (dx_tracks (ds_dx s2) !! i = Some tk2) as Htk2
    by (rewrite Hts2, list_lookup_insert_eq; [done|by rewrite Hts1, length_insert]).
  assert (op_frame i s s2) as Hf02 by (by eapply op_frame_trans).
  assert (lenZ (take (Z.to_nat (ad_frame_len a)) p) = ad_frame_len a) as Hlen
    by (unfold lenZ in *; rewrite length_take; lia).
  apply wp_bind. eapply wp_mono; [by apply (wp_demux_emit L s2 i tk2)|].
  intros _ s3 (Hi3 & Hf3 & Hts3 & _ & more & Ho3 & _ & Hmedia).
  eapply (wp_bind (tk_mod i _)). eapply (wp_tk_mod_inv L s3); [done|by rewrite Hts3|..].
  { by intros [? ? ? ? ?]; split. } { done. } { done. }
  intros s4 Hi4 Ho4 _ Hdx4 Hf4. apply wp_ret. cbn [fst]. split; [done|].
  assert (tk_retold tk tk2) as Ht02 by (by eapply tk_retold_trans).
  assert (tk_track_index tk2 = tk_track_index tk ∧ tk_last_pts tk1 = tk_last_pts tk) as [Hidx Hpts].
  { rewrite Ht02, Ht1. done. }
  rewrite Hpts in *. split.
  - split; [done| |].
    + eapply op_frame_trans; [exact Hf02|]. eapply op_frame_trans; [exact Hf3|]. by apply Hf4.
    + destruct Hq1 as (m1 & Hm1 & E1). exists (m1 ++ more).
      split; [by rewrite Ho4, Ho3, Ho2, Hm1, app_assoc|]. intros Ha.
      rewrite omap_app, E1, Hmedia, Hidx; [done|done|eapply alloc_ok_evolves, Ha; apply Hf02|].
      rewrite (opf_dx _ _ _ Hf02). cbn. lia.
  - eexists. rewrite Hdx4. cbn [dx_tracks setf]. rewrite Hts3, Hts2, Hts1, !list_insert_insert_eq.
    split; [|split; [reflexivity|done]].
    eapply tk_heard_trans; [by apply tk_retold_heard, Ht02|]. by destruct tk2.
Qed.

(** A counter moves. *)
Lemma wp_stat_inv L s i f (Q : unit → dstate → Prop) :
  dinv L s →
  (∀ s', dinv L s' → op_frame i s s' → ds_out s' = ds_out s → ds_store s' = ds_store s →
     ds_dx s' = (ds_dx s) <| dx_stats := dx_stats (ds_dx s') |> → Q tt s') →
  wp (stat f) Q s.
Proof. intros Hi HQ. apply wp_stat, HQ; [by apply dinv_stat|apply op_frame_stat|done..]. Qed.

(** The result of an operation on a track that was [tk]: [l] came out and [R] relates the
    track to what it became. *)
Definition tracked (L : list N) (i : nat) (tk : ts_track) (R : ts_track → ts_track → Prop)
    (l : list (Z * Z * Z * bool * list Z)) (s s' : dstate) : Prop :=
  emitted L i s s' l ∧ ∃ tk', R tk tk' ∧ dx_tracks (ds_dx s') = <[i := tk']> (dx_tracks (ds_dx s)).

Lemma tracked_lookup L i tk R l s s' :
  tracked L i tk R l s s' → dx_tracks (ds_dx s) !! i = Some tk →
  ∃ tk', R tk tk' ∧ dx_tracks (ds_dx s') !! i = Some tk'.
Proof.
  intros (_ & tk' & HR & Ht) Hl. exists tk'. split; [done|].
  rewrite Ht. apply list_lookup_insert_eq. by eapply lookup_lt_Some.
Qed.
Lemma tracked_max L i tk R l s s' :
  tracked L i tk R l s s' → dx_max_au_bytes (ds_dx s') = dx_max_au_bytes (ds_dx s).
Proof. intros [[_ Hf _] _]. by rewrite (opf_dx _ _ _ Hf). Qed.
Lemma tracked_trans L i tk1 tk2 R1 R2 (R : ts_track → ts_track → Prop) l1 l2 s1 s2 s3 :
  tracked L i tk1 R1 l1 s1 s2 → dx_tracks (ds_dx s2) !! i = Some tk2 →
  dx_tracks (ds_dx s1) !! i = Some tk1 → tracked L i tk2 R2 l2 s2 s3 →
  (∀ tk3, R1 tk1 tk2 → R2 tk2 tk3 → R tk1 tk3) → tracked L i tk1 R (l1 ++ l2) s1 s3.
Proof.
  intros (He1 & t2 & HR1 & Ht2) Hl2 Hl1 (He2 & t3 & HR2 & Ht3) HR. split; [by eapply emitted_trans|].
  rewrite Ht2, list_lookup_insert_eq in Hl2 by (by eapply lookup_lt_Some). injection Hl2 as ->.
  exists t3. split; [by apply HR|]. by rewrite Ht3, Ht2, list_insert_insert_eq.
Qed.
Lemma tracked_refl L i tk (R : ts_track → ts_track → Prop) s :
  dinv L s → dx_tracks (ds_dx s) !! i = Some tk → R tk tk → tracked L i tk R [] s s.
Proof.
  intros Hi Hl HR. split; [apply emitted_quiet; [done|apply op_frame_refl|apply quiet_refl]|].
  exists tk. by rewrite list_insert_id.
Qed.
Lemma tracked_stat L i tk (R : ts_track → ts_track → Prop) s s' :
  dinv L s' → op_frame i s s' → ds_out s' = ds_out s →
  ds_dx s' = (ds_dx s) <| dx_stats := dx_stats (ds_dx s') |> →
  dx_tracks (ds_dx s) !! i = Some tk → R tk tk → tracked L i tk R [] s s'.
Proof.
  intros Hi Hf Ho Hd Hl HR. split; [by apply emitted_quiet; [..|apply quiet_eq]|].
  exists tk. split; [done|]. rewrite Hd. cbn. by rewrite list_insert_id.
Qed.
(** A track update. *)
Lemma tracked_mod L i tk f (R : ts_track → ts_track → Prop) s s' :
  dinv L s' → (tk_same tk (f tk) → op_frame i s s') → ds_out s' = ds_out s →
  ds_dx s' = (ds_dx s) <| dx_tracks := <[i := f tk]> (dx_tracks (ds_dx s)) |> →
  tk_same tk (f tk) → R tk (f tk) → tracked L i tk R [] s s'.
Proof.
  intros Hi Hf Ho Hd Hs HR. split; [by apply emitted_quiet; [|apply Hf|apply quiet_eq]|].
  exists (f tk). by rewrite Hd.
Qed.
Lemma tracked_mono L i tk (R R' : ts_track → ts_track → Prop) l s s' :
  tracked L i tk R l s s' → (∀ tk', R tk tk' → R' tk tk') → tracked L i tk R' l s s'.
Proof. intros (He & tk' & HR & Ht) H. split; [done|]. exists tk'. auto. Qed.

Lemma wp_adts_loop fuel L s i tk p changed :
  dinv L s → dx_tracks (ds_dx s) !! i = Some tk → bytes p → (length p ≤ fuel)%nat →
  lenZ p ≤ dx_max_au_bytes (ds_dx s) →
  wp (adts_loop fuel i p changed) (λ _ s',
    tracked L i tk tk_heard (adts_media fuel (tk_track_index tk) (tk_last_pts tk) p) s s') s.
Proof.
  revert s tk p changed. induction fuel as [|fuel IH]; intros s tk p changed Hi Htk Hp Hf Hmax.
  { destruct p; [|cbn in Hf; lia]. apply wp_ret. apply tracked_refl; [done|done|apply tk_heard_refl]. }
  cbn [adts_loop adts_media]. unfold ADTS_HEADER_MIN.
  destruct (Z.leb_spec 7 (lenZ p)) as [Hle|Hgt].
  2:{ rewrite (proj2 (Z.ltb_lt _ _)) by lia. apply wp_ret.
      apply tracked_refl; [done|done|apply tk_heard_refl]. }
  rewrite (proj2 (Z.ltb_ge _ _)) by lia.
  destruct (adts_parse_spec p adts_zero Hp) as (r & a & Hparse & Hok). rewrite Hparse.
  apply wp_bind. eapply wp_read; [done|]. cbv beta iota.
  assert (wp (_ ← stat (λ s, s <| dt_pes_errors ::= λ n, n ⊕ 1 |>); mret changed)
    (λ _ s', tracked L i tk tk_heard [] s s') s) as Hbad.
  { apply wp_bind. eapply (wp_stat_inv L s i); [done|]. intros s' Hi' Hf' Ho' _ Hd'. apply wp_ret.
    by apply tracked_stat; [..|apply tk_heard_refl]. }
  destruct (bool_decide_reflect (r = NGX_OK)) as [->|Hr]; cbn [negb orb].
  2:{ by destruct r. }
  destruct (Z.ltb_spec (lenZ p) (ad_frame_len a)) as [|Hfl]; [done|].
  destruct (Hok eq_refl) as (Hh & _ & Hfh & _).
  apply wp_bind. eapply wp_mono; [by apply (wp_adts_step L s i tk); [..|lia|]|].
  intros [rest ch] s1 (Hrest & He1 & tk1 & Hh1 & Hts1 & Hpts1). cbn [fst] in Hrest. subst rest.
  assert (tracked L i tk (λ t t', t' = tk1 ∧ tk_heard t t') _ s s1) as Htr1 by (split; [exact He1|eauto]).
  destruct (tracked_lookup _ _ _ _ _ _ _ Htr1 Htk) as (? & [-> _] & Htk1).
  eapply wp_mono; [apply IH; [apply He1|exact Htk1|by apply Forall_drop|rewrite length_drop; lia|]|].
  { rewrite (tracked_max _ _ _ _ _ _ _ Htr1). unfold lenZ in *. rewrite length_drop. lia. }
  intros ? s2 Htr2. assert (tk_track_index tk1 = tk_track_index tk) as Hidx by (by rewrite Hh1).
  rewrite Hidx, Hpts1 in Htr2.
  apply (tracked_trans _ _ _ _ _ _ tk_heard _ _ _ _ _ Htr1 Htk1 Htk Htr2).
  intros tk3 [_ H1] H2. by eapply tk_heard_trans.
Qed.

(** ** Flushing *)

Record tk_flushed (tk tk' : ts_track) : Prop := {
  tkf_same : tk_same tk tk';
  tkf_au : tk_au tk' = [];
  tkf_overflow : tk_au_overflow tk' = false;
  tkf_ts : tk_has_pts tk' = false ∧ tk_has_dts tk' = false;
  tkf_remaining : tk_pes_remaining tk' = tk_pes_remaining tk }.

Lemma holds_used_configs set set' :
  ts_count set' = ts_count set → tr_config <$> ts_tracks set' = tr_config <$> ts_tracks set →
  holds set' = holds set.
Proof.
  intros Hc Hm. unfold holds, owner_trackset. rewrite <- (holds_configs (take _ (ts_tracks set'))).
  rewrite <- (holds_configs (take _ (ts_tracks set))). by rewrite !fmap_take, Hm, Hc.
Qed.

(** Copying the descriptors over changes no configuration: the trackset mirrors the tracks. *)
Lemma sync_tracks_configs tracks set :
  trackset_inv set →
  (∀ tk, tk ∈ tracks → ∃ i tr, tk_track_index tk = Z.of_nat i ∧ ts_tracks set !! i = Some tr ∧
     tr_config tr = tr_config (tk_track tk)) →
  let set' := sync_tracks tracks set in
  trackset_inv set' ∧ ts_count set' = ts_count set ∧
  tr_config <$> ts_tracks set' = tr_config <$> ts_tracks set.
Proof.
  unfold sync_tracks. revert set. induction tracks as [|tk tracks IH]; intros set Hi Hm; [done|].
  cbn [foldl].
  set (set1 := if tk_track_index tk <? ts_count set then _ else set).
  assert (trackset_inv set1 ∧ ts_count set1 = ts_count set ∧
    tr_config <$> ts_tracks set1 = tr_config <$> ts_tracks set) as (Hi1 & Hc1 & Hm1).
  { unfold set1. destruct (_ <? _); [|done]. destruct Hi as [Hl Hc].
    destruct (Hm tk) as (i & tr & -> & Htr & Hcfg); [set_solver|]. cbn. rewrite Nat2Z.id.
    split_and!; [split; cbn; by rewrite ?length_insert|done|]. rewrite list_fmap_insert.
    apply list_insert_id. by rewrite list_lookup_fmap, Htr, <- Hcfg. }
  destruct (IH set1 Hi1) as (? & ? & ?); [|split_and!; [done|congruence|congruence]].
  intros t Ht. destruct (Hm t) as (i & tr & Hidx & Htr & Hcfg); [set_solver|].
  assert ((tr_config <$> ts_tracks set1) !! i = Some (tr_config tr)) as Hl
    by (by rewrite Hm1, list_lookup_fmap, Htr).
  apply list_lookup_fmap_Some in Hl as (tr1 & ? & ?). exists i, tr1. split_and!; [done|done|congruence].
Qed.

Lemma dinv_sync L s :
  dinv L s → dx_tracks_ready (ds_dx s) = true →
  dinv L (s <| ds_dx := (ds_dx s) <| dx_trackset ::= sync_tracks (dx_tracks (ds_dx s)) |> |>).
Proof.
  intros [[Hlive Hmax Hn Htko Hset Hpat Hpmt Htail] Ho Hc Hout] Hready.
  destruct Hset as [Hinv [[_ Hr]|[Hcnt Hm]]]; [congruence|].
  destruct (sync_tracks_configs (dx_tracks (ds_dx s)) (dx_trackset (ds_dx s)) Hinv)
    as (Hinv' & Hcnt' & Hmap).
  { intros tk [i Hi]%list_elem_of_lookup. destruct (Hm _ _ Hi) as (tr & Htr & Hcfg).
    exists i, tr. destruct (Htko _ _ Hi) as [_ _ _ Hidx Hal]. split_and!; [done|done|congruence]. }
  split; [split|..]; cbn; try done.
  - split; [done|right]. cbn. rewrite Hcnt'. split; [done|]. intros i tk Hi.
    destruct (Hm _ _ Hi) as (tr & Htr & Hcfg).
    assert ((tr_config <$> ts_tracks (sync_tracks (dx_tracks (ds_dx s)) (dx_trackset (ds_dx s)))) !! i
      = Some (tr_config tr)) as Hl by (by rewrite Hmap, list_lookup_fmap, Htr).
    apply list_lookup_fmap_Some in Hl as (tr1 & ? & ?). exists tr1. split; [done|congruence].
  - unfold holds at 1, owner_demux. cbn. by rewrite (holds_used_configs _ _ Hcnt' Hmap).
Qed.

Definition audio_media (tk : ts_track) : list (Z * Z * Z * bool * list Z) :=
  adts_media (length (tk_au tk)) (tk_track_index tk)
    (if tk_has_pts tk then tk_pts tk else tk_last_pts tk) (tk_au tk).

Lemma wp_audio_flush L s i tk :
  dinv L s → dx_tracks (ds_dx s) !! i = Some tk → tk_au_overflow tk = false →
  wp (audio_flush i) (λ _ s', tracked L i tk tk_flushed (audio_media tk) s s') s.
Proof.
  intros Hi Htk Hov. unfold audio_flush. apply wp_bind. eapply wp_tk_get; [done|].
  pose proof (dxo_tk _ (di_dx _ _ Hi) _ _ Htk) as [Hau Hcap _ _ _].
  set (tk1 := if tk_has_pts tk then tk <| tk_last_pts := tk_pts tk |> else tk).
  apply wp_bind. eapply (wp_mono _ (λ _ s', tracked L i tk (λ t t', t' = tk1 ∧ tk_heard t t') [] s s')).
  { unfold tk1. destruct (tk_has_pts tk).
    - eapply (wp_tk_mod_inv L s); [done|done|intros [? ? ? ? ?]; by split|done|done|].
      intros s' Hi' Ho' _ Hd' Hf'. eapply tracked_mod; [done|done|done|exact Hd'|by split|by split].
    - apply wp_ret, tracked_refl; [done|done|]. split; [done|apply tk_heard_refl]. }
  intros _ s1 Htr1. destruct (tracked_lookup _ _ _ _ _ _ _ Htr1 Htk) as (? & [-> Hh1] & Htk1).
  apply wp_bind. eapply wp_mono; [apply (wp_adts_loop _ L s1 i tk1);
    [apply Htr1|done|done|done|]|].
  { rewrite (tracked_max _ _ _ _ _ _ _ Htr1). lia. }
  intros changed s2 Htr2.
  assert (tracked L i tk tk_heard (audio_media tk) s s2) as Htr.
  { eapply (tracked_trans _ _ _ _ _ _ _ [] _ _ _ _ Htr1 Htk1 Htk).
    - unfold audio_media. replace (tk_track_index tk) with (tk_track_index tk1) by (by rewrite Hh1).
      replace (if tk_has_pts tk then tk_pts tk else tk_last_pts tk) with (tk_last_pts tk1); [exact Htr2|].
      unfold tk1. by destruct (tk_has_pts tk).
    - intros t [_ ?] ?. by eapply tk_heard_trans. }
  clear Htr1 Htr2 Hh1 Htk1. destruct (tracked_lookup _ _ _ _ _ _ _ Htr Htk) as (tk2 & Hh2 & Htk2).
  apply wp_bind, wp_dx_get. apply wp_bind.
  eapply (wp_mono _ (λ _ s', tracked L i tk2 eq [] s2 s')).
  { destruct (_ && dx_tracks_ready (ds_dx s2)) eqn:Hb; [|by apply wp_ret, tracked_refl; [apply Htr|..]].
    apply andb_true_iff in Hb as [_ Hready].
    pose proof (dinv_sync L s2 (em_inv _ _ _ _ _ (proj1 Htr)) Hready) as Hi3.
    apply wp_bind, wp_dx_mod. eapply wp_mono; [by apply (wp_call_sink_tracks L _ i)|].
    intros [] s4 (Hi4 & Hf4 & Hq4 & Hdx4). split.
    - apply emitted_quiet; [done|eapply op_frame_trans; [apply op_frame_set|exact Hf4]|exact Hq4].
    - exists tk2. split; [done|]. rewrite Hdx4. cbn. by rewrite list_insert_id. }
  intros _ s3 Htr3. destruct (tracked_lookup _ _ _ _ _ _ _ Htr3 Htk2) as (? & <- & Htk3).
  eapply (wp_tk_mod_inv L s3); [apply Htr3|done| |done|done|].
  { intros [? [? ?] ? ? ?]. split; cbn; [constructor| |done..].
    pose proof (lenZ_nonneg (tk_au tk2)). unfold lenZ in *. cbn. lia. }
  intros s4 Hi4 Ho4 _ Hd4 Hf4.
  assert (tracked L i tk2 (λ t t', t' = au_reset t) [] s3 s4) as Htr4.
  { eapply tracked_mod; [done|done|done|exact Hd4|by split|done]. }
  assert (tracked L i tk2 (λ t t', t' = au_reset t) [] s2 s4) as Htr24.
  { apply (tracked_trans _ _ _ _ _ _ _ [] [] _ _ _ Htr3 Htk3 Htk2 Htr4). by intros ? _ ->. }
  rewrite <- (app_nil_r (audio_media tk)).
  apply (tracked_trans _ _ _ _ _ _ _ _ [] _ _ _ Htr Htk2 Htk Htr24). intros t Hh ->.
  rewrite Hh. by split.
Qed.

(** ** Scanning an access unit *)

Lemma grow_cap_spec fuel cap need :
  0 < cap → need ≤ cap * 2 ^ Z.of_nat fuel → need ≤ 2 ^ 62 →
  ∃ cap', grow_cap fuel cap need = Some cap' ∧ need ≤ cap' ∧ cap ≤ cap' ≤ Z.max cap (2 * need).
Proof.
  revert cap. induction fuel as [|fuel IH]; intros cap Hc Hf Hn.
  - cbn in Hf. exists cap. unfold grow_cap. rewrite (proj2 (Z.ltb_ge _ _)) by lia. split; [done|lia].
  - cbn [grow_cap]. caseb; [|exists cap; split; [done|lia]].
    assert (u64 (Z.shiftl cap 1) = 2 * cap) as ->.
    { rewrite shiftl_mul by done. rewrite u64_small; lia. }
    destruct (IH (2 * cap)) as (cap' & Hg & H1 & H2); [lia| |lia|].
    { rewrite Nat2Z.inj_succ, Z.pow_succ_r in Hf by lia. lia. }
    exists cap'. split; [done|lia].
Qed.

Definition has_vcl (codec : Z) (us : list (list Z)) : bool :=
  existsb (λ u, nal_is_vcl codec (nal_type codec u)) us.
Definition has_key (codec : Z) (us : list (list Z)) : bool :=
  existsb (λ u, nal_is_keyframe codec (nal_type codec u)) us.

Lemma wp_scan_config nal sc L st :
  owns st L → lenZ (sc_cfg sc) ≤ sc_cap sc → 0 ≤ sc_cap sc →
  lenZ (sc_cfg sc) + 4 + lenZ nal ≤ 2 ^ 61 →
  wp (scan_config nal sc) (λ r st', owns st' L ∧ evolves st st' ∧
    (alloc_ok st → r.1 = true) ∧
    (r = (false, sc) ∨ ∃ cap, lenZ (sc_cfg sc) + 4 + lenZ nal ≤ cap ∧
       r = (true, sc <| sc_cfg ::= λ c, c ++ [0; 0; 0; 1] ++ nal |> <| sc_cap := cap |>
                     <| sc_have_config := true |>))) st.
Proof.
  intros Ho Hcap Hc0 Hneed. pose proof (lenZ_nonneg nal) as Hn. pose proof (lenZ_nonneg (sc_cfg sc)).
  unfold scan_config. set (need := lenZ (sc_cfg sc) + 4 + lenZ nal) in *.
  rewrite (proj2 (Z.leb_gt (2 ^ 64) need)) by lia.
  apply wp_bind. eapply (wp_mono _ (λ r st', owns st' L ∧ evolves st st' ∧
    (alloc_ok st → r.1 = true) ∧ (r.1 = true → need ≤ r.2 ∧ 0 < r.2))).
  { destruct (Z.ltb_spec (sc_cap sc) need).
    2:{ apply wp_ret. split_and!; auto with media. cbn. lia. }
    assert (0 < (if sc_cap sc =? 0 then 256 else sc_cap sc) ≤ Z.max 256 (sc_cap sc)) as [Hp Hle]
      by (destruct (Z.eqb_spec (sc_cap sc) 0); lia).
    destruct (grow_cap_spec 64 _ need Hp) as (cap & -> & Hge & _ & Hcle); [change (2 ^ Z.of_nat 64) with (2 ^ 64); lia|lia|].
    apply wp_bind. eapply wp_mono; [by apply wp_ngx_alloc_ok|].
    intros p st' (Ho' & Hev & Ha). apply wp_ret. split_and!; [done|done| |].
    - intros Hal. destruct (Ha Hal) as [? ->]; [lia|done].
    - destruct p; [|done]. cbn. lia. }
  intros [ok cap] st' (Ho' & Hev & Ha & Hok). cbn [fst snd] in *. destruct ok; cbn [negb].
  2:{ apply wp_ret. split_and!; [done|done|intros Hal; by apply Ha|by left]. }
  destruct (Hok eq_refl) as [H1 H2]. rewrite (proj2 (Z.eqb_neq cap 0)) by lia.
  rewrite (proj2 (Z.ltb_ge cap need)) by lia. apply wp_ret.
  split_and!; [done|done|done|]. right. by exists cap.
Qed.

Lemma wp_au_scan_loop fuel codec au pos sc L st :
  owns st L → lenZ au ≤ 2 ^ 60 → (pos ≤ length au)%nat → (length au - pos < fuel)%nat →
  0 ≤ lenZ (sc_cfg sc) ≤ sc_cap sc → lenZ (sc_cfg sc) ≤ 2 * Z.of_nat pos →
  wp (au_scan_loop fuel codec au (mk_iter pos (length au)) sc) (λ r st', owns st' L ∧ evolves st st' ∧
    ∃ us, nal_units fuel au (mk_iter pos (length au)) = Some us ∧
      (alloc_ok st → sc_vcl r = sc_vcl sc || has_vcl codec us ∧
                     sc_keyframe r = sc_keyframe sc || has_key codec us)) st.
Proof.
  intros Ho Hau. revert pos sc st Ho.
  induction fuel as [|fuel IH]; intros pos sc st Ho Hp Hf Hc Hcp; [lia|].
  cbn [au_scan_loop nal_units it_end].
  destruct (iter_next_spec au (S (length au)) pos) as (pos' & r & Hnext & Hpos & Hpost); [lia..|].
  rewrite Hnext. apply wp_bind. eapply wp_read; [done|]. cbn [mbind option_bind fst snd].
  destruct r as [[off len]|].
  2:{ apply wp_ret. split_and!; auto with media. exists []. unfold has_vcl, has_key. cbn.
      by rewrite !orb_false_r. }
  destruct Hpost as ([Hp1 Hp2] & Hle & _). set (nal := take len (drop off au)).
  assert (lenZ nal = Z.of_nat len) as Hnal.
  { unfold lenZ, nal. rewrite length_take, length_drop. lia. }
  destruct (nal_units_spec au fuel pos') as (us & Hus & _); [lia..|]. rewrite Hus.
  apply wp_bind. eapply (wp_mono _ (λ r st', owns st' L ∧ evolves st st' ∧ (alloc_ok st → r.1 = true) ∧
    sc_vcl r.2 = sc_vcl sc ∧ sc_keyframe r.2 = sc_keyframe sc ∧
    0 ≤ lenZ (sc_cfg r.2) ≤ sc_cap r.2 ∧ lenZ (sc_cfg r.2) ≤ 2 * Z.of_nat pos')).
  { destruct (nal_is_config codec (nal_type codec nal)).
    - eapply wp_mono; [apply wp_scan_config; [done|lia|lia|unfold lenZ in *; lia]|].
      intros r st' (? & ? & ? & [-> | (cap & Hge & ->)]); split_and!; try done; cbn; try lia.
      all: rewrite ?lenZ_app; change (lenZ (0 :: 0 :: 0 :: 1 :: nal)) with (lenZ ([0; 0; 0; 1] ++ nal));
        rewrite ?lenZ_app; change (lenZ [0; 0; 0; 1]) with 4; lia.
    - apply wp_ret. split_and!; auto with media; cbn; lia. }
  intros [cont sc1] st1 (Ho1 & Hev1 & Hok & Hv & Hk & Hc1 & Hp1'). cbn [fst snd] in *.
  destruct cont.
  2:{ apply wp_ret. split_and!; [done|done|]. eexists. split; [done|]. intros Ha. by specialize (Hok Ha). }
  eapply wp_mono; [apply IH; [done|lia|lia|done|done]|].
  intros r st2 (Ho2 & Hev2 & us' & Hus' & Hr). rewrite Hus in Hus'. injection Hus' as <-.
  split_and!; [done|by etrans|]. eexists. split; [done|]. intros Ha.
  destruct Hr as [-> ->]; [by eapply alloc_ok_evolves|]. cbn [sc_vcl sc_keyframe setf].
  rewrite Hv, Hk. unfold has_vcl, has_key. cbn [existsb]. by rewrite !orb_assoc.
Qed.

(** What flushing a track emits. *)
Definition video_media (tk : ts_track) : list (Z * Z * Z * bool * list Z) :=
  let au := tk_au tk in
  let p := if tk_has_pts tk then tk_pts tk else tk_last_pts tk in
  let d := if tk_has_dts tk then tk_dts tk else p in
  let us := default [] (nal_units (S (length au)) au (nal_iter_init (length au))) in
  if has_vcl (tk_codec tk) us
  then [(tk_track_index tk, p, d, has_key (tk_codec tk) us, au)] else [].
Definition au_media (tk : ts_track) : list (Z * Z * Z * bool * list Z) :=
  if (lenZ (tk_au tk) =? 0) || tk_au_overflow tk then []
  else if tk_codec tk =? CODEC_AAC then audio_media tk else video_media tk.

Lemma tk_ok_reset max i tk ov :
  tk_ok max i tk → tk_ok max i (au_reset (tk <| tk_au_overflow := ov |>)).
Proof.
  intros [? [? ?] ? ? ?]. pose proof (lenZ_nonneg (tk_au tk)).
  split; cbn; [constructor|unfold lenZ in *; cbn; lia|done..].
Qed.

Lemma wp_au_reset L s i tk ov :
  dinv L s → dx_tracks (ds_dx s) !! i = Some tk →
  wp (tk_mod i (λ tk, au_reset (tk <| tk_au_overflow := ov |>)))
    (λ _ s', tracked L i tk (λ t t', t' = au_reset (t <| tk_au_overflow := ov |>)) [] s s') s.
Proof.
  intros Hi Htk. eapply (wp_tk_mod_inv L s); [done|done|apply tk_ok_reset|done|done|].
  intros s' Hi' Ho' _ Hd' Hf'.
  eapply (tracked_mod _ _ _ (λ tk, au_reset (tk <| tk_au_overflow := ov |>)));
    [done|exact Hf'|done|exact Hd'|by split|done].
Qed.

Lemma wp_video_emit L s i tk us :
  dinv L s → dx_tracks (ds_dx s) !! i = Some tk → lenZ (tk_au tk) ≠ 0 →
  nal_units (S (length (tk_au tk))) (tk_au tk) (nal_iter_init (length (tk_au tk))) = Some us →
  ∀ v k, (alloc_ok (ds_store s) → v = has_vcl (tk_codec tk) us ∧ k = has_key (tk_codec tk) us) →
  wp (if v : bool then
        let pts := if tk_has_pts tk then tk_pts tk else tk_last_pts tk in
        let dts := if tk_has_dts tk then tk_dts tk else pts in
        _ ← demux_emit i (tk_au tk) pts dts k false PAYLOAD_ANNEXB;
        tk_mod i (λ tk, tk <| tk_last_pts := pts |>)
      else mret tt) (λ _ s', tracked L i tk tk_heard (video_media tk) s s') s.
Proof.
  intros Hi Htk Hne Hus v k Hvk. unfold video_media. rewrite Hus. cbn [from_option id].
  set (p := if tk_has_pts tk then _ else _). set (d := if tk_has_dts tk then _ else _). cbv zeta.
  pose proof (tracked_refl L i tk tk_heard s Hi Htk (tk_heard_refl tk)) as [[_ _ (m0 & H0 & _)] Hr0].
  destruct v.
  2:{ apply wp_ret. split; [|exact Hr0]. split; [done|apply op_frame_refl|]. exists [].
      split; [by rewrite app_nil_r|]. intros Ha. by destruct (Hvk Ha) as [<- _]. }
  pose proof (dxo_tk _ (di_dx _ _ Hi) _ _ Htk) as [_ Hcap _ _ _]. pose proof (lenZ_nonneg (tk_au tk)).
  apply wp_bind. eapply wp_mono; [by apply (wp_demux_emit L s i tk)|].
  intros _ s1 (Hi1 & Hf1 & Hts1 & _ & more & Ho1 & _ & Hm).
  eapply (wp_tk_mod_inv L s1); [done|by rewrite Hts1|intros [? ? ? ? ?]; by split|done|done|].
  intros s2 Hi2 Ho2 _ Hd2 Hf2. split.
  - split; [done|eapply op_frame_trans; [exact Hf1|apply Hf2]|].
    { by split. } exists more. split; [by rewrite Ho2, Ho1|].
    intros Ha. destruct (Hvk Ha) as [<- ->]. apply Hm; [done|done|lia].
  - exists (tk <| tk_last_pts := p |>). split; [done|]. rewrite Hd2. cbn [dx_tracks setf]. by rewrite Hts1.
Qed.

Lemma wp_au_flush L s i tk :
  dinv L s → dx_tracks (ds_dx s) !! i = Some tk →
  wp (au_flush i) (λ _ s', tracked L i tk tk_flushed (au_media tk) s s') s.
Proof.
  intros Hi Htk. unfold au_flush, au_media. apply wp_bind. eapply wp_tk_get; [done|].
  destruct (lenZ (tk_au tk) =? 0) eqn:Hz; cbn [orb].
  { eapply wp_mono; [by apply wp_au_reset|]. intros [] s' Htr. eapply tracked_mono; [exact Htr|].
    intros ? ->. by split. }
  apply Z.eqb_neq in Hz. destruct (tk_au_overflow tk) eqn:Hov.
  { eapply wp_mono; [by apply wp_au_reset|]. intros [] s' Htr. eapply tracked_mono; [exact Htr|].
    intros ? ->. by split. }
  destruct (tk_codec tk =? CODEC_AAC); [by apply wp_audio_flush|]. cbv zeta.
  pose proof (dxo_tk _ (di_dx _ _ Hi) _ _ Htk) as [_ Hcap _ _ _].
  pose proof (dxo_max _ (di_dx _ _ Hi)) as Hmax.
  apply wp_bind, wp_on_store. eapply wp_mono;
    [apply (wp_au_scan_loop _ _ _ 0); [apply Hi|lia|lia|lia|done|done]|].
  intros sc st1 (Ho1 & Hev1 & us & Hus & Hscan). cbn [sc_vcl sc_keyframe orb] in Hscan.
  set (s1 := s <| ds_store := st1 |>).
  assert (tracked L i tk (λ t t', t' = tk) [] s s1) as Htr1.
  { split; [|exists tk; by rewrite list_insert_id].
    apply emitted_quiet; [by eapply dinv_store|by apply op_frame_store|by apply quiet_eq]. }
  apply wp_bind. eapply (wp_mono _ (λ _ s', tracked L i tk tk_retold [] s1 s')).
  { destruct (sc_have_config sc).
    - eapply wp_mono; [by apply (wp_emit_config L s1 i tk); [apply Htr1|]|].
      intros _ s' (? & ? & ? & Ht). split; [by apply emitted_quiet|exact Ht].
    - apply wp_ret, tracked_refl; [apply Htr1|done|apply tk_retold_refl]. }
  intros _ s2 Htr2. destruct (tracked_lookup _ _ _ _ _ _ _ Htr2 Htk) as (tk2 & Ht2 & Htk2).
  assert (alloc_ok (ds_store s) → alloc_ok (ds_store s2)) as Hal2.
  { intros Ha. eapply alloc_ok_evolves; [apply Htr2|]. by eapply alloc_ok_evolves. }
  assert (tracked L i tk tk_retold [] s s2) as Htr02.
  { apply (tracked_trans _ _ _ _ _ _ _ [] [] _ _ _ Htr1 Htk Htk Htr2). done. }
  assert (tk_au tk2 = tk_au tk ∧ tk_has_pts tk2 = tk_has_pts tk ∧ tk_has_dts tk2 = tk_has_dts tk ∧
    tk_pts tk2 = tk_pts tk ∧ tk_dts tk2 = tk_dts tk ∧ tk_last_pts tk2 = tk_last_pts tk ∧
    tk_codec tk2 = tk_codec tk ∧ tk_track_index tk2 = tk_track_index tk)
    as (E1 & E2 & E3 & E4 & E5 & E6 & E7 & E8) by (by rewrite Ht2).
  assert (video_media tk2 = video_media tk) as Emedia.
  { unfold video_media. by rewrite E1, E2, E3, E4, E5, E6, E7, E8. }
  pose proof (wp_video_emit L s2 i tk2 us) as Hemit. rewrite E1, E2, E3, E4, E5, E6, E7, Emedia in Hemit.
  apply wp_bind. eapply wp_mono; [apply Hemit; [apply Htr2|done|done|exact Hus|]|].
  { intros Ha. apply Hscan. intros n size. rewrite <- (Ha n size). symmetry.
    rewrite (ev_alloc _ _ (opf_store _ _ _ (em_frame _ _ _ _ _ (proj1 Htr02)))). done. }
  intros [] s3 Htr3. destruct (tracked_lookup _ _ _ _ _ _ _ Htr3 Htk2) as (tk3 & Ht3 & Htk3).
  assert (tracked L i tk tk_heard (video_media tk) s s3) as Htr03.
  { apply (tracked_trans _ _ _ _ _ _ _ [] _ _ _ _ Htr02 Htk2 Htk Htr3).
    intros t ? ?. eapply tk_heard_trans; [by apply tk_retold_heard|done]. }
  destruct (tracked_lookup _ _ _ _ _ _ _ Htr03 Htk) as (tk3' & Ht03 & Htk3').
  rewrite Htk3 in Htk3'. injection Htk3' as <-.
  assert (tk_au_overflow tk3 = false) as Hov3 by (rewrite Ht03; exact Hov).
  eapply (wp_tk_mod_inv L s3); [apply Htr3|done| |done|done|].
  { intros Hok. replace tk3 with (tk3 <| tk_au_overflow := false |>); [by apply tk_ok_reset|].
    destruct tk3. cbn in *. by subst. }
  intros s4 Hi4 Ho4 _ Hd4 Hf4.
  assert (tracked L i tk3 (λ t t', t' = au_reset t) [] s3 s4) as Htr4.
  { eapply tracked_mod; [done|done|done|exact Hd4|by split|done]. }
  rewrite <- (app_nil_r (video_media tk)).
  apply (tracked_trans _ _ _ _ _ _ _ _ [] _ _ _ Htr03 Htk3 Htk Htr4). intros ? _ ->.
  rewrite Ht03. by split.
Qed.

(** ** Appending to an access unit *)

Definition tk_grown (tk tk' : ts_track) : Prop :=
  tk' = tk <| tk_au := tk_au tk' |> <| tk_au_cap := tk_au_cap tk' |>
           <| tk_au_overflow := tk_au_overflow tk' |>.
Lemma tk_grown_refl tk : tk_grown tk tk.
Proof. by destruct tk. Qed.
Lemma tk_grown_same tk tk' : tk_grown tk tk' → tk_same tk tk'.
Proof. by intros ->. Qed.

Lemma wp_au_drop L s i tk :
  dinv L s → dx_tracks (ds_dx s) !! i = Some tk →
  wp (au_drop i) (λ _ s', tracked L i tk tk_grown [] s s') s.
Proof.
  intros Hi Htk. apply wp_bind. eapply (wp_stat_inv L s i); [done|].
  intros s1 Hi1 Hf1 Ho1 _ Hd1.
  assert (dx_tracks (ds_dx s1) !! i = Some tk) as Htk1 by (by rewrite Hd1).
  assert (tracked L i tk eq [] s s1) as Htr1 by (by apply tracked_stat).
  eapply (wp_tk_mod_inv L s1); [done|done| |done|done|].
  { intros [? [? ?] ? ? ?]. pose proof (lenZ_nonneg (tk_au tk)).
    split; cbn; [constructor|unfold lenZ in *; cbn; lia|done..]. }
  intros s2 Hi2 Ho2 _ Hd2 Hf2.
  assert (tracked L i tk tk_grown [] s1 s2) as Htr2.
  { eapply (tracked_mod _ _ _ (λ tk, tk <| tk_au := [] |> <| tk_au_overflow := true |>));
      [done|exact Hf2|done|exact Hd2|by split|done]. }
  apply (tracked_trans _ _ _ _ _ _ _ [] [] _ _ _ Htr1 Htk1 Htk Htr2). done.
Qed.

Lemma wp_au_append L s i tk data :
  dinv L s → dx_tracks (ds_dx s) !! i = Some tk → bytes data →
  wp (au_append i data) (λ _ s', tracked L i tk (λ t t', tk_grown t t' ∧
    (alloc_ok (ds_store s) → lenZ (tk_au t) + lenZ data ≤ dx_max_au_bytes (ds_dx s) →
     tk_au t' = tk_au t ++ data ∧ tk_au_overflow t' = tk_au_overflow t)) [] s s') s.
Proof.
  intros Hi Htk Hb. unfold au_append. pose proof (lenZ_nonneg data) as Hn.
  pose proof (lenZ_nonneg (tk_au tk)) as Hn'.
  destruct (Z.eqb_spec (lenZ data) 0) as [Hz|Hz].
  { apply wp_ret, tracked_refl; [done|done|]. split; [apply tk_grown_refl|]. intros _ _.
    by rewrite (lenZ_nil data), app_nil_r. }
  apply wp_bind. eapply wp_tk_get; [done|]. apply wp_bind, wp_dx_get. cbv zeta.
  pose proof (dxo_max _ (di_dx _ _ Hi)) as Hmax.
  pose proof (dxo_tk _ (di_dx _ _ Hi) _ _ Htk) as [Hau Hcap _ _ _].
  set (need := lenZ (tk_au tk) + lenZ data). set (max := dx_max_au_bytes (ds_dx s)) in *.
  assert (∀ s1, tracked L i tk eq [] s s1 → dx_tracks (ds_dx s1) !! i = Some tk →
    (alloc_ok (ds_store s) → ¬ need ≤ max) →
    wp (au_drop i) (λ _ s', tracked L i tk (λ t t', tk_grown t t' ∧
    (alloc_ok (ds_store s) → lenZ (tk_au t) + lenZ data ≤ max →
     tk_au t' = tk_au t ++ data ∧ tk_au_overflow t' = tk_au_overflow t)) [] s s') s1) as Hdrop.
  { intros s1 Htr1 Htk1 Hno. eapply wp_mono; [by apply (wp_au_drop L s1 i tk); [apply Htr1|]|].
    intros [] s2 Htr2. apply (tracked_trans _ _ _ _ _ _ _ [] [] _ _ _ Htr1 Htk1 Htk Htr2).
    intros tk3 _ Hg. split; [done|]. intros Ha Hle. by destruct (Hno Ha). }
  assert (tracked L i tk eq [] s s) as Htr0 by (by apply tracked_refl).
  destruct ((2 ^ 64 <=? need) || (max <? need)) eqn:Hover.
  { apply Hdrop; [done|done|]. rewrite orb_true_iff, Z.leb_le, Z.ltb_lt in Hover. lia. }
  rewrite orb_false_iff, Z.leb_gt, Z.ltb_ge in Hover. destruct Hover as [_ Hfit].
  apply wp_bind. eapply (wp_mono _ (λ c s', tracked L i tk eq [] s s' ∧
    dx_tracks (ds_dx s') !! i = Some tk ∧
    match c with Some cap => need ≤ cap ≤ max | None => ¬ alloc_ok (ds_store s) end)).
  { destruct (Z.ltb_spec (tk_au_cap tk) need); [|by apply wp_ret; split_and!; [..|lia]].
    assert (0 < (if tk_au_cap tk =? 0 then 8192 else tk_au_cap tk)) as Hp
      by (destruct (Z.eqb_spec (tk_au_cap tk) 0); lia).
    destruct (grow_cap_spec 64 _ need Hp) as (cap & Hg & Hge & _ & _);
      [change (2 ^ Z.of_nat 64) with (2 ^ 64); lia|lia|].
    apply wp_bind. eapply wp_read; [exact Hg|]. cbv zeta.
    set (cap' := if max <? cap then max else cap).
    assert (need ≤ cap' ≤ max) as Hc' by (unfold cap'; caseb; lia).
    apply wp_bind, wp_on_store. eapply wp_mono; [apply wp_ngx_alloc_ok, Hi|].
    intros p st' (Ho' & Hev & Ha). apply wp_ret. split_and!; [|done|].
    - split; [|exists tk; by rewrite list_insert_id].
      apply emitted_quiet; [by eapply dinv_store|by apply op_frame_store|by apply quiet_eq].
    - destruct p; [done|]. intros Hal. destruct (Ha Hal) as [? ?]; [lia|done]. }
  intros [cap|] s1 (Htr1 & Htk1 & Hc); [|apply Hdrop; done].
  rewrite (proj2 (Z.ltb_ge cap need)) by lia.
  eapply (wp_tk_mod_inv L s1); [apply Htr1|done| |done|done|].
  { rewrite (tracked_max _ _ _ _ _ _ _ Htr1). fold max.
    intros [? ? ? ? ?]; split; cbn; [by apply Forall_app|rewrite lenZ_app; fold need; lia|done..]. }
  intros s2 Hi2 Ho2 _ Hd2 Hf2.
  assert (tracked L i tk (λ t t', t' = t <| tk_au ::= λ au, au ++ data |> <| tk_au_cap := cap |>)
    [] s1 s2) as Htr2.
  { eapply (tracked_mod _ _ _ (λ tk, tk <| tk_au ::= λ au, au ++ data |> <| tk_au_cap := cap |>));
      [done|exact Hf2|done|exact Hd2|by split|done]. }
  apply (tracked_trans _ _ _ _ _ _ _ [] [] _ _ _ Htr1 Htk1 Htk Htr2).
  intros tk3 _ ->. split; [done|]. done.
Qed.

(** ** Safety of an operation on one track *)

Definition safe {A} (L : list N) (i : nat) (m : D A) (s : dstate) : Prop :=
  wp m (λ _ s', dinv L s' ∧ op_frame i s s') s.
Definition ready (L : list N) (i : nat) (s : dstate) : Prop :=
  dinv L s ∧ is_Some (dx_tracks (ds_dx s) !! i).

Lemma tracked_safe L i tk R l s s' : tracked L i tk R l s s' → dinv L s' ∧ op_frame i s s'.
Proof. by intros [[? ? _] _]. Qed.
Lemma ready_frame L i s s' : ready L i s → dinv L s' → op_frame i s s' → ready L i s'.
Proof.
  intros [_ [tk Htk]] Hi Hf. split; [done|].
  destruct (op_frame_lookup _ _ _ _ Hf Htk) as (tk' & ? & _). by exists tk'.
Qed.

Lemma safe_ret {A} L i (a : A) s : ready L i s → safe L i (mret a) s.
Proof. intros [Hi _]. apply wp_ret. split; [done|apply op_frame_refl]. Qed.
Lemma safe_bind {A B} L i (m : D A) (k : A → D B) s :
  ready L i s → safe L i m s → (∀ a s', ready L i s' → safe L i (k a) s') → safe L i (m ≫= k) s.
Proof.
  intros Hr Hm Hk. apply wp_bind. eapply wp_mono; [exact Hm|]. intros a s' [Hi' Hf'].
  eapply wp_mono; [by apply Hk; eapply ready_frame|]. intros b s'' [? ?].
  split; [done|by eapply op_frame_trans].
Qed.
Lemma safe_stat L i f s : ready L i s → safe L i (stat f) s.
Proof. intros [Hi _]. eapply wp_stat_inv; [done|]. by intros s' ? ? _ _ _. Qed.
Lemma safe_read {A B} L i (x : option A) (k : A → D B) s :
  is_Some x → (∀ a, x = Some a → safe L i (k a) s) → safe L i (sread x ≫= k) s.
Proof. intros [a Ha] Hk. apply wp_bind. eapply wp_read; [done|]. by apply Hk. Qed.
Lemma safe_get {B} L i (k : ts_track → D B) s :
  ready L i s → (∀ tk, dx_tracks (ds_dx s) !! i = Some tk → safe L i (k tk) s) →
  safe L i (tk_get i ≫= k) s.
Proof. intros [_ [tk Htk]] Hk. apply wp_bind. eapply wp_tk_get; [done|]. by apply Hk. Qed.
Lemma safe_mod L i f s :
  ready L i s →
  (∀ max tk, tk_ok max i tk → tk_ok max i (f tk)) →
  (∀ tk, tk_config (f tk) = tk_config tk ∧ tk_config_len (f tk) = tk_config_len tk ∧ tk_same tk (f tk)) →
  safe L i (tk_mod i f) s.
Proof.
  intros [Hi [tk Htk]] Hok Hs. destruct (Hs tk) as (? & ? & ?).
  eapply (wp_tk_mod_inv L s); [done|done|apply Hok|done|done|].
  intros s' ? _ _ _ Hf. split; [done|by apply Hf].
Qed.
Lemma safe_append L i data s : ready L i s → bytes data → safe L i (au_append i data) s.
Proof.
  intros [? [tk ?]] ?. eapply wp_mono; [by apply wp_au_append|]. intros [] s'. apply tracked_safe.
Qed.
Lemma safe_flush L i s : ready L i s → safe L i (au_flush i) s.
Proof.
  intros [? [tk ?]]. eapply wp_mono; [by apply wp_au_flush|]. intros [] s'. apply tracked_safe.
Qed.

(** A byte, with its range. *)
Lemma safe_byte {B} L i p (j : nat) (k : Z → D B) s :
  bytes p → (j < length p)%nat → (∀ b, is_byte b → safe L i (k b) s) →
  safe L i (sread (p !! j) ≫= k) s.
Proof.
  intros Hp Hj Hk. apply safe_read; [by apply lookup_lt_is_Some_2|]. intros b Hb.
  apply Hk. by eapply bytes_lookup.
Qed.
Lemma pes_ts_is_Some p i : (i + 5 ≤ length p)%nat → is_Some (pes_ts p i).
Proof.
  intros H. unfold pes_ts.
  destruct (lookup_lt_is_Some_2 p i) as [? ->]; [lia|].
  destruct (lookup_lt_is_Some_2 p (i + 1)) as [? ->]; [lia|].
  destruct (lookup_lt_is_Some_2 p (i + 2)) as [? ->]; [lia|].
  destruct (lookup_lt_is_Some_2 p (i + 3)) as [? ->]; [lia|].
  destruct (lookup_lt_is_Some_2 p (i + 4)) as [? ->]; [lia|]. by eexists.
Qed.

Lemma safe_pes_start L i p s : ready L i s → bytes p → safe L i (pes_start i p) s.
Proof.
  intros Hr Hp. unfold pes_start, pes_error. cbv zeta.
  apply safe_bind; [done|by apply safe_mod; [|intros ?? [? ? ? ? ?]; split|]|].
  clear s Hr. intros _ s Hr.
  destruct (Z.ltb_spec (lenZ p) 9) as [|H9]; [by apply safe_stat|]. unfold lenZ in *.
  do 4 (apply safe_byte; [done|lia|intros ? _]).
  destruct (_ || _); [by apply safe_stat|].
  apply safe_byte; [done|lia|intros flags _]. apply safe_byte; [done|lia|intros hl Hhl].
  unfold is_byte in Hhl.
  destruct (Z.ltb_spec (Z.of_nat (length p)) (9 + hl)) as [|Hhdr]; [by apply safe_stat|].
  destruct (negb (Z.land flags 0x80 =? 0) && _) eqn:E14; [by apply safe_stat|].
  apply safe_bind; [done| |clear s Hr; intros _ s Hr].
  { destruct (negb (Z.land flags 0x80 =? 0)); [|by apply safe_ret].
    cbn in E14. apply Z.ltb_ge in E14. apply safe_read; [apply pes_ts_is_Some; lia|].
    intros v _. by apply safe_mod; [|intros ?? [? ? ? ? ?]; split|]. }
  destruct ((Z.land flags 0xC0 =? 0xC0) && _) eqn:E19; [by apply safe_stat|].
  apply safe_bind; [done| |clear s Hr; intros _ s Hr].
  { destruct (Z.land flags 0xC0 =? 0xC0); [|by apply safe_ret].
    cbn in E19. apply Z.ltb_ge in E19. apply safe_read; [apply pes_ts_is_Some; lia|].
    intros v _. by apply safe_mod; [|intros ?? [? ? ? ? ?]; split|]. }
  apply safe_byte; [done|lia|intros b4 _]. apply safe_byte; [done|lia|intros b5 _].
  set (pes_len := Z.lor _ _). destruct (Z.ltb_spec 0 pes_len).
  2: { apply safe_append; [done|by apply Forall_drop]. }
  destruct (Z.ltb_spec pes_len (3 + hl)); [by apply safe_stat|].
  set (n := if _ <? _ then _ else _).
  assert (n ≤ pes_len - 3 - hl) as Hn by (unfold n; caseb; lia).
  apply safe_bind; [done| |clear s Hr; intros _ s Hr].
  { apply safe_mod; [done| |by intros; split_and!].
    intros ?? [? ? ? ? ?]; split; try done. cbn. lia. }
  apply safe_bind; [done|by apply safe_append; [|apply Forall_take, Forall_drop]|].
  clear s Hr. intros _ s Hr. apply safe_get; [done|]. intros tk Htk.
  destruct (tk_pes_remaining tk =? 0); [by apply safe_flush|by apply safe_ret].
Qed.

Lemma safe_process_pes L i pusi p s : ready L i s → bytes p → safe L i (process_pes i pusi p) s.
Proof.
  intros Hr Hp. unfold process_pes. destruct pusi.
  { apply safe_bind; [done|by apply safe_flush|]. intros _ s' Hr'. by apply safe_pes_start. }
  apply safe_get; [done|]. intros tk Htk. cbv zeta. destruct (_ || _); [|by apply safe_ret].
  pose proof (tko_remaining _ _ _ (dxo_tk _ (di_dx _ _ (proj1 Hr)) _ _ Htk)) as Hrem.
  set (n := if _ && _ then _ else _).
  apply safe_bind; [done|by apply safe_append; [|apply Forall_take]|].
  clear s Hr Htk. intros _ s Hr. destruct (Z.ltb_spec 0 (tk_pes_remaining tk)) as [Hpos|];
    [|by apply safe_ret].
  assert (n ≤ tk_pes_remaining tk) as Hn.
  { unfold n. destruct (Z.ltb_spec (tk_pes_remaining tk) (lenZ p)); cbn; lia. }
  apply safe_bind; [done| |clear s Hr; intros _ s Hr].
  { apply safe_mod; [done| |by intros; split_and!].
    intros ?? [? ? ? ? ?]; split; try done. cbn. lia. }
  destruct (tk_pes_remaining tk - n =? 0); [by apply safe_flush|by apply safe_ret].
Qed.

(** ** Rebuilding the tracks *)

#[local] Arguments holds : simpl never.

Lemma wp_for_tracks (I : nat → dstate → Prop) n first body s :
  I first s →
  (∀ j s, (first ≤ j < first + n)%nat → I j s → wp (body j) (λ _ s', I (S j) s') s) →
  wp (for_tracks n first body) (λ _ s', I (first + n)%nat s') s.
Proof.
  revert first s. induction n as [|n IH]; intros first s HI Hb.
  - apply wp_ret. by rewrite Nat.add_0_r.
  - apply wp_bind. eapply wp_mono; [apply Hb; [lia|exact HI]|]. intros [] s' HI'.
    rewrite <- Nat.add_succ_comm. apply IH; [exact HI'|]. intros j s'' Hj. apply Hb. lia.
Qed.

(** A set without tracks. *)
Definition set_empty (set : trackset) : Prop :=
  trackset_inv set ∧ ts_count set = 0.
Lemma set_empty_holds set : set_empty set → holds set = [].
Proof. intros [_ Hc]. unfold holds, owner_trackset. by rewrite Hc. Qed.

Lemma wp_destroy_set set L st :
  trackset_inv set → owns st (holds set ++ L) →
  wp (trackset_destroy set) (λ r st', set_empty r ∧ owns st' L ∧ evolves st st') st.
Proof.
  intros Hinv Ho. eapply wp_mono; [apply wp_and; [by apply wp_trackset_destroy|]|].
  - instantiate (1 := λ r _, set_empty r). unfold trackset_destroy.
    destruct (ts_tracks set) as [|t ts] eqn:E.
    + apply wp_ret. split; [done|]. destruct Hinv as [Hl Hc]. rewrite E in Hl. cbn in Hl. lia.
    + rewrite <- E. apply wp_bind. eapply wp_mono;
        [apply (wp_unref_all _ L); rewrite holds_configs; exact Ho|].
      intros _ ? _. apply wp_ret. by split; [apply trackset_zero_inv|].
  - intros r st' [[? ?] ?]. done.
Qed.

Lemma wp_clear_tracks L s :
  let dx := ds_dx s in
  owns (ds_store s) (holds (dx_tracks dx) ++ holds (dx_trackset dx) ++ L) →
  wp (for_tracks (length (dx_tracks dx)) 0 track_clear) (λ _ s', ∃ tracks' st',
    s' = s <| ds_dx := dx <| dx_tracks := tracks' |> |> <| ds_store := st' |> ∧
    owns st' (holds (dx_trackset dx) ++ L) ∧ evolves (ds_store s) st') s.
Proof.
  intros dx Ho. set (I := λ (k : nat) (s' : dstate), ∃ tracks' st',
    s' = s <| ds_dx := dx <| dx_tracks := tracks' |> |> <| ds_store := st' |> ∧
    length tracks' = length (dx_tracks dx) ∧
    owns st' (holds (drop k tracks') ++ holds (dx_trackset dx) ++ L) ∧ evolves (ds_store s) st').
  eapply wp_mono; [apply (wp_for_tracks I)|].
  - exists (dx_tracks dx), (ds_store s). split_and!; [by destruct s as [[] ? ?]|done|done|done].
  - intros j s1 Hj (tracks & st & -> & Hlen & Ho1 & Hev). unfold track_clear.
    destruct (lookup_lt_is_Some_2 tracks j) as [tk Htk]; [lia|].
    apply wp_bind. eapply wp_tk_get; [exact Htk|]. apply wp_bind, wp_on_store.
    rewrite (drop_S _ _ _ Htk), holds_cons, <- app_assoc in Ho1.
    eapply wp_mono; [apply (wp_buf_unref (tk_config tk)); exact Ho1|].
    intros _ st' (Ho2 & Hev2). eapply wp_tk_mod; [exact Htk|].
    eexists (<[j := _]> tracks), st'. split_and!; [reflexivity|by rewrite length_insert| |by etrans].
    rewrite drop_insert_lt by lia. exact Ho2.
  - intros _ s' (tracks & st & -> & Hlen & Ho' & Hev). exists tracks, st.
    rewrite Nat.add_0_l, drop_ge in Ho' by lia. by split_and!.
Qed.

(** Tracks nothing was received on. *)
Definition fresh_tracks (tracks : list ts_track) : Prop :=
  ∀ i tk, tracks !! i = Some tk → ∃ pid type, tk = new_track i pid type.

Lemma fresh_holds tracks : fresh_tracks tracks → holds tracks = [].
Proof.
  intros Hf. apply elem_of_nil_inv. intros id Hid. unfold holds, owner_list in Hid.
  apply list_elem_of_bind in Hid as (tk & Hid & [i Hi]%list_elem_of_lookup).
  destruct (Hf _ _ Hi) as (pid & type & ->). by apply elem_of_nil in Hid.
Qed.

Lemma dinv_fresh L s st dx' set :
  dinv L s → owns st L → set_empty set → fresh_tracks (dx_tracks dx') →
  Z.of_nat (length (dx_tracks dx')) ≤ dx_max_tracks (ds_dx s) →
  dx' = (ds_dx s) <| dx_trackset := set |> <| dx_tracks_ready := false |>
          <| dx_tracks := dx_tracks dx' |> <| dx_pmt_valid := true |> →
  dinv L (s <| ds_store := st |> <| ds_dx := dx' |>).
Proof.
  intros [[Hlive Hmax Hn Htko Hset Hpat Hpmt Htail] Ho Hc Hout] Ho' He Hf Hlen Hdx.
  pose proof (set_empty_holds _ He) as Hh. pose proof (fresh_holds _ Hf) as Hh'.
  set (ts := dx_tracks dx') in *. clearbody ts. subst dx'. destruct He as [Hinv Hz].
  split; [split|..]; cbn; try done; try lia.
  - intros i tk Hi. destruct (Hf _ _ Hi) as (pid & type & ->). split; try done; [by apply List.Forall_nil|].
    change (0 ≤ 0 ≤ dx_max_au_bytes (ds_dx s)). lia.
  - split; [done|by left].
  - rewrite holds_demux. cbn [ds_dx ds_store dx_tracks dx_trackset setf]. by rewrite Hh, Hh'.
  - intros tk [i Hi]%list_elem_of_lookup id Hid. destruct (Hf _ _ Hi) as (pid & type & ->). done.
Qed.

Lemma ts_used_lookup_inv set i tr :
  ts_used set !! i = Some tr → (i < Z.to_nat (ts_count set))%nat ∧ ts_tracks set !! i = Some tr.
Proof. unfold ts_used. rewrite lookup_take_Some. tauto. Qed.

Lemma wp_tracks_build L s :
  dinv L s → set_empty (dx_trackset (ds_dx s)) → fresh_tracks (dx_tracks (ds_dx s)) →
  dx_tracks_ready (ds_dx s) = false →
  wp tracks_build (λ _ s', dinv L s' ∧ evolves (ds_store s) (ds_store s') ∧ quiet s s' ∧
    ds_dx s' = (ds_dx s) <| dx_trackset := dx_trackset (ds_dx s') |>
                 <| dx_tracks_ready := dx_tracks_ready (ds_dx s') |>) s.
Proof.
  intros Hi He Hf Hready. pose proof Hi as [[Hlive Hmax Hn Htko Hset Hpat Hpmt Htail] Ho Hc Hout].
  pose proof (set_empty_holds _ He) as Hh. pose proof (fresh_holds _ Hf) as Hh'.
  rewrite holds_demux in Ho. rewrite Hh' in Ho. cbn [app] in Ho.
  unfold tracks_build. apply wp_bind, wp_dx_get. apply wp_bind, wp_on_store.
  eapply wp_mono; [apply (wp_destroy_set _ L); [apply He|exact Ho]|].
  intros set1 st1 (He1 & Ho1 & Hev1). apply wp_bind, wp_dx_mod. apply wp_bind, wp_dx_get.
  cbn [ds_dx dx_max_tracks setf].
  apply wp_bind, wp_on_store. eapply wp_mono; [apply (wp_trackset_init _ L); [exact Ho1|lia]|].
  intros [r set2] st2 (Ho2 & Hev2 & Hinv2 & Hc2 & Hok & Hbad). cbn [fst snd] in *.
  apply wp_bind, wp_dx_mod. assert (evolves (ds_store s) st2) as Hev by (by etrans).
  set (s2 := s <| ds_store := st2 |> <| ds_dx := (ds_dx s) <| dx_trackset := set2 |> |>).
  assert (dinv L s2) as Hi2.
  { split; [split|..]; cbn; try done; [split; [done|by left]| |].
    - rewrite holds_demux. cbn [ds_dx ds_store dx_tracks dx_trackset setf]. rewrite Hh', (set_empty_holds set2); [done|by split].
    - intros tk [i Hl]%list_elem_of_lookup id Hid. destruct (Hf _ _ Hl) as (pid & type & ->). done. }
  match goal with |- wp _ _ ?x => change x with s2 end.
  destruct (bool_decide_reflect (r = NGX_OK)) as [->|Hr].
  2: { apply wp_ret. split_and!; [done|done|by apply quiet_eq|by destruct s as [[] ? ?]]. }
  destruct (Hok eq_refl) as [Hpos Hcap2]. apply wp_bind, wp_dx_get. cbn [ds_dx dx_tracks s2 setf].
  set (I := λ (k : nat) (s' : dstate), ∃ set st', s' = s2 <| ds_store := st' |>
      <| ds_dx := (ds_dx s) <| dx_trackset := set |> |> ∧ evolves (ds_store s) st' ∧
    owns st' L ∧ holds set = [] ∧ trackset_inv set ∧ ts_count set = Z.of_nat k ∧
    ts_capacity set = dx_max_tracks (ds_dx s) ∧
    ∀ i tk, (i < k)%nat → dx_tracks (ds_dx s) !! i = Some tk → ts_used set !! i = Some (tk_track tk)).
  apply wp_bind. eapply wp_mono; [apply (wp_for_tracks I)|].
  - exists set2, st2. split_and!; [done|done|done|apply set_empty_holds; by split|done|lia|done|lia].
  - intros j s3 Hj (set & st3 & -> & Hev3 & Ho3 & Hh3 & Hinv3 & Hc3 & Hcap3 & Hm3).
    destruct (lookup_lt_is_Some_2 (dx_tracks (ds_dx s)) j) as [tk Htk]; [lia|].
    destruct (Hf _ _ Htk) as (pid & type & Htk').
    apply wp_bind. eapply wp_tk_get; [exact Htk|]. apply wp_bind, wp_dx_get, wp_bind, wp_on_store.
    eapply wp_mono; [apply (wp_trackset_add _ _ L); [exact Hinv3| |]|].
    + cbn [ds_dx dx_trackset setf]. by rewrite Hh3.
    + rewrite Htk'. intros x Hx. by apply elem_of_nil in Hx.
    + cbn [ds_dx dx_trackset setf]. rewrite (proj2 (Z.ltb_lt _ _)) by lia.
      intros [r4 set4] st4 (Hev4 & Ho4 & Hinv4 & Hcap4 & _ & Hu4 & Hc4). cbn [fst snd] in *.
      assert (holds set4 = []) as Hh4.
      { change (holds set4) with (holds (ts_used set4)). rewrite Hu4, holds_app.
        change (holds (ts_used set)) with (holds set). rewrite Hh3. by rewrite Htk'. }
      apply wp_dx_mod. exists set4, st4. rewrite Hh4 in Ho4.
      split_and!; [done|by etrans|done|done|done|lia|lia|].
      assert (length (ts_used set) = j) as Hlu.
      { unfold ts_used. rewrite length_take. destruct Hinv3. lia. }
      intros i t Hij Ht. rewrite Hu4. destruct (decide (i = j)) as [->|].
      * rewrite Htk in Ht. injection Ht as <-. rewrite lookup_app_r by lia. by rewrite Hlu, Nat.sub_diag.
      * rewrite lookup_app_l by lia. apply Hm3; [lia|done].
  - intros [] s5 (set & st5 & -> & Hev5 & Ho5 & Hh5 & Hinv5 & Hc5 & Hcap5 & Hm5).
    apply wp_bind, wp_dx_mod.
    set (s6 := s <| ds_store := st5 |> <| ds_dx := (ds_dx s) <| dx_trackset := set |>
                 <| dx_tracks_ready := true |> |>).
    assert (dinv L s6) as Hi6.
    { split; [split|..]; cbn; try done.
      - split; [done|right]. split; [done|]. intros i tk Htk. cbn in Htk.
        pose proof (lookup_lt_Some _ _ _ Htk).
        destruct (ts_used_lookup_inv _ _ _ (Hm5 i tk ltac:(lia) Htk)) as [_ Hl].
        eexists. split; [exact Hl|]. by destruct (Hf _ _ Htk) as (? & ? & ->).
      - rewrite holds_demux. cbn [ds_dx ds_store dx_tracks dx_trackset setf]. by rewrite Hh', Hh5.
      - intros tk [i Hl]%list_elem_of_lookup id Hid. destruct (Hf _ _ Hl) as (pid & type & ->). done. }
    match goal with |- wp _ _ ?x => change x with s6 end.
    eapply wp_mono; [by apply (wp_call_sink_tracks L s6 0)|].
    intros [] s7 (Hi7 & Hf7 & Hq7 & Hd7). split_and!; [done| | |by rewrite Hd7].
    + etrans; [exact Hev5|]. apply Hf7.
    + exact Hq7.
Qed.

(** ** Sections *)

Lemma pid_at_is_Some p i : (i + 2 ≤ length p)%nat → is_Some (pid_at p i).
Proof.
  intros H. unfold pid_at. destruct (lookup_lt_is_Some_2 p i) as [? ->]; [lia|].
  destruct (lookup_lt_is_Some_2 p (i + 1)) as [? ->]; [lia|]. by eexists.
Qed.
Lemma len12_at_is_Some p i : (i + 2 ≤ length p)%nat → is_Some (len12_at p i).
Proof.
  intros H. unfold len12_at. destruct (lookup_lt_is_Some_2 p i) as [? ->]; [lia|].
  destruct (lookup_lt_is_Some_2 p (i + 1)) as [? ->]; [lia|]. by eexists.
Qed.

Lemma pat_scan_is_Some fuel s p e :
  (e ≤ length s)%nat → (e - p ≤ fuel)%nat → is_Some (pat_scan fuel s p e).
Proof.
  intros He. revert p. induction fuel as [|fuel IH]; intros p Hf; cbn [pat_scan].
  { destruct (Nat.leb_spec (p + 4) e); [lia|by eexists]. }
  destruct (Nat.leb_spec (p + 4) e); [|by eexists].
  destruct (lookup_lt_is_Some_2 s p) as [? ->]; [lia|].
  destruct (lookup_lt_is_Some_2 s (p + 1)) as [? ->]; [lia|].
  destruct (pid_at_is_Some s (p + 2)) as [? ->]; [lia|]. cbn [mbind option_bind].
  destruct (_ =? 0); [apply IH; lia|by eexists].
Qed.

Lemma pmt_scan_spec fuel s p e max acc u :
  (e ≤ length s)%nat → (e - p ≤ fuel)%nat → Z.of_nat (length acc) ≤ max →
  ∃ found u', pmt_scan fuel s p e max acc u = Some (found, u') ∧ Z.of_nat (length found) ≤ max.
Proof.
  intros He. revert p acc u. induction fuel as [|fuel IH]; intros p acc u Hf Hmax; cbn [pmt_scan].
  { destruct (Nat.leb_spec (p + 5) e); [lia|]. cbn [andb]. eauto. }
  destruct (Nat.leb_spec (p + 5) e); cbn [andb]; [|eauto].
  destruct (length acc <? 32)%nat; [|eauto].
  destruct (lookup_lt_is_Some_2 s p) as [type ->]; [lia|].
  destruct (pid_at_is_Some s (p + 1)) as [pid ->]; [lia|].
  destruct (len12_at_is_Some s (p + 3)) as [n ->]; [lia|]. cbn [mbind option_bind].
  destruct (ts_codec type =? CODEC_NONE); [apply IH; [lia|done]|].
  destruct (Z.ltb_spec (Z.of_nat (length acc)) max); [|apply IH; [lia|done]].
  apply IH; [lia|]. rewrite length_app. cbn. lia.
Qed.

(** What parsing a section may touch: never the assembler of the PAT, and the one of the
    PMT only to reset it. *)
Record sectioned (L : list N) (s s' : dstate) : Prop := {
  sec_inv : dinv L s';
  sec_store : evolves (ds_store s) (ds_store s');
  sec_quiet : quiet s s';
  sec_pat : dx_pat (ds_dx s') = dx_pat (ds_dx s);
  sec_pmt : dx_pmt (ds_dx s') = dx_pmt (ds_dx s) ∨ ps_buf (dx_pmt (ds_dx s')) = [];
  sec_conf : dx_max_au_bytes (ds_dx s') = dx_max_au_bytes (ds_dx s) ∧
             dx_max_tracks (ds_dx s') = dx_max_tracks (ds_dx s) }.

Lemma sectioned_refl L s : dinv L s → sectioned L s s.
Proof. intros Hi. split; [done|done|apply quiet_refl|done|by left|done]. Qed.
Lemma sectioned_stat L s f :
  dinv L s → wp (stat f) (λ _ s', sectioned L s s' ∧
    ds_dx s' = (ds_dx s) <| dx_stats := dx_stats (ds_dx s') |>) s.
Proof.
  intros Hi. eapply (wp_stat_inv L s 0); [done|]. intros s' Hi' Hf' Ho' Hs' Hd'.
  split; [|done]. split; [done|apply Hf'|by apply quiet_eq|by rewrite Hd'|left; by rewrite Hd'|].
  by rewrite Hd'.
Qed.

Lemma wp_parse_pat L s sec :
  dinv L s → wp (parse_pat sec) (λ _ s', sectioned L s s' ∧
    ∀ pid, 12 ≤ lenZ sec → pat_scan (length sec) sec 8 (length sec - 4) = Some (Some pid) →
      dx_pmt_pid (ds_dx s') = pid ∧ dx_pat_valid (ds_dx s') = true ∧
      dx_tracks (ds_dx s') = dx_tracks (ds_dx s)) s.
Proof.
  intros Hi. unfold parse_pat, psi_error. destruct (Z.ltb_spec (lenZ sec) 12) as [|H12].
  { eapply wp_mono; [by apply sectioned_stat|]. intros [] s' [? _]. split; [done|lia]. }
  destruct (pat_scan_is_Some (length sec) sec 8 (length sec - 4)) as [r Hr]; [lia|lia|].
  apply wp_bind. eapply wp_read; [exact Hr|]. destruct r as [pid|].
  2:{ eapply wp_mono; [by apply sectioned_stat|]. intros [] s' [? _]. split; [done|congruence]. }
  apply wp_bind, wp_dx_mod, wp_dx_mod.
  pose proof Hi as [[Hlive Hmax Hn Htko Hset Hpat Hpmt Htail] Ho Hc Hout].
  destruct (negb (dx_pat_valid (ds_dx s)) || negb (dx_pmt_pid (ds_dx s) =? pid)) eqn:E.
  - split; [split; try done|].
    + split; [split; try done|..]; try done. split; [by apply List.Forall_nil|by left].
    + by apply quiet_eq.
    + by right.
    + intros ? _ Hp. rewrite Hr in Hp. by injection Hp as <-.
  - split; [split; try done|].
    + by apply quiet_eq.
    + by left.
    + intros ? _ Hp. rewrite Hr in Hp. injection Hp as <-.
      apply orb_false_iff in E as [_ E]. apply negb_false_iff, Z.eqb_eq in E. done.
Qed.

Lemma sectioned_trans L s1 s2 s3 : sectioned L s1 s2 → sectioned L s2 s3 → sectioned L s1 s3.
Proof.
  intros [? ? ? Hp1 Hm1 [? ?]] [? ? ? Hp2 Hm2 [? ?]]. split; try done; [by etrans|by eapply quiet_trans| | |].
  - congruence.
  - destruct Hm2 as [->|?]; [done|by right].
  - split; congruence.
Qed.

(** The part of the state a PMT keeps. *)
Definition same_pat (s s' : dstate) : Prop :=
  dx_pmt_pid (ds_dx s') = dx_pmt_pid (ds_dx s) ∧ dx_pat_valid (ds_dx s') = dx_pat_valid (ds_dx s).

Lemma wp_rebuild L s found max :
  dinv L s → dx_max_tracks (ds_dx s) = max → Z.of_nat (length found) ≤ max →
  wp (_ ← for_tracks (length (dx_tracks (ds_dx s))) 0 track_clear;
      set ← dx_get dx_trackset;
      set ← on_store (trackset_destroy set);
      if max <? Z.of_nat (length found) then ub
      else
        _ ← dx_mod (λ dx, dx <| dx_trackset := set |> <| dx_tracks_ready := false |>
              <| dx_tracks := imap (λ i x, new_track i x.1 x.2) found |>
              <| dx_pmt_valid := true |>);
        tracks_build)
    (λ _ s', sectioned L s s' ∧ same_pat s s' ∧
       dx_tracks (ds_dx s') = imap (λ i x, new_track i x.1 x.2) found) s.
Proof.
  intros Hi <- Hfound. pose proof Hi as [[Hlive Hmax Hn Htko Hset Hpat Hpmt Htail] Ho Hc Hout].
  apply wp_bind. eapply wp_mono;
    [apply (wp_clear_tracks L); rewrite holds_demux, <- app_assoc in Ho; exact Ho|].
  intros [] s1 (tracks1 & st1 & -> & Ho1 & Hev1). apply wp_bind, wp_dx_get, wp_bind, wp_on_store.
  eapply wp_mono; [apply (wp_destroy_set _ L); [apply Hset|exact Ho1]|].
  intros set st2 (He2 & Ho2 & Hev2). rewrite (proj2 (Z.ltb_ge _ _)) by done.
  apply wp_bind, wp_dx_mod.
  set (tracks := imap (λ i x, new_track i x.1 x.2) found).
  set (s2 := s <| ds_store := st2 |> <| ds_dx := (ds_dx s) <| dx_trackset := set |>
    <| dx_tracks_ready := false |> <| dx_tracks := tracks |> <| dx_pmt_valid := true |> |>).
  match goal with |- wp _ _ ?x => change x with s2 end.
  assert (fresh_tracks tracks) as Hf.
  { intros i tk Htk. unfold tracks in Htk. rewrite list_lookup_imap in Htk.
    destruct (found !! i) as [[pid type]|]; [|done]. injection Htk as <-. by exists pid, type. }
  assert (dinv L s2) as Hi2.
  { apply (dinv_fresh L s st2 _ set); [done|done|done|exact Hf| |done].
    cbn. unfold tracks. by rewrite length_imap. }
  eapply wp_mono; [by apply wp_tracks_build|].
  intros [] s3 (Hi3 & Hev3 & Hq3 & Hd3). split; [|unfold same_pat; by rewrite Hd3].
  split; [done| |exact Hq3|by rewrite Hd3|left; by rewrite Hd3|by rewrite Hd3].
  etrans; [exact Hev1|]. etrans; [exact Hev2|]. exact Hev3.
Qed.

Lemma sectioned_pcr L s pid :
  dinv L s → sectioned L s (s <| ds_dx := (ds_dx s) <| dx_pcr_pid := pid |> |>).
Proof.
  intros [[] ? ? ?]. split; [by split; [split|..]|done|by apply quiet_eq|done|by left|done].
Qed.

Lemma sectioned_valid L s :
  dinv L s → sectioned L s (s <| ds_dx := (ds_dx s) <| dx_pmt_valid := true |> |>).
Proof.
  intros [[] ? ? ?]. split; [by split; [split|..]|done|by apply quiet_eq|done|by left|done].
Qed.

(** The tracks after a PMT that lists [found]. *)
Definition pmt_tracks (found : list (Z * Z)) (tracks : list ts_track) : list ts_track :=
  if bool_decide (found = (λ tk, (tk_pid tk, tk_stream_type tk)) <$> tracks)
  then tracks else imap (λ i x, new_track i x.1 x.2) found.

Lemma wp_parse_pmt L s sec :
  dinv L s → wp (parse_pmt sec) (λ _ s', sectioned L s s' ∧ same_pat s s' ∧
    ∀ info found u, 16 ≤ lenZ sec → len12_at sec 10 = Some info →
      (12 + Z.to_nat info ≤ length sec - 4)%nat →
      pmt_scan (length sec) sec (12 + Z.to_nat info) (length sec - 4) (dx_max_tracks (ds_dx s)) [] 0
        = Some (found, u) →
      dx_tracks (ds_dx s') = pmt_tracks found (dx_tracks (ds_dx s))) s.
Proof.
  intros Hi. unfold parse_pmt, psi_error. destruct (Z.ltb_spec (lenZ sec) 16) as [|H16].
  { eapply wp_mono; [by apply sectioned_stat|]. intros [] s' [? Hd]. unfold same_pat. rewrite Hd.
    split_and!; [done..|lia]. }
  unfold lenZ in H16. destruct (pid_at_is_Some sec 8) as [pcr Hpcr]; [lia|].
  apply wp_bind. eapply wp_read; [exact Hpcr|]. apply wp_bind, wp_dx_mod.
  set (s1 := s <| ds_dx := (ds_dx s) <| dx_pcr_pid := pcr |> |>).
  pose proof (sectioned_pcr L s pcr Hi : sectioned L s s1) as Hs1.
  destruct (len12_at_is_Some sec 10) as [info Hinfo]; [lia|].
  apply wp_bind. eapply wp_read; [exact Hinfo|]. cbv zeta.
  destruct (Nat.ltb_spec (length sec - 4) (12 + Z.to_nat info)).
  { eapply wp_mono; [apply sectioned_stat, Hs1|]. intros [] s' [Hs' Hd']. split_and!.
    - by eapply sectioned_trans.
    - unfold same_pat. by rewrite Hd'.
    - intros i' f u _ Hi' Hle. rewrite Hinfo in Hi'. injection Hi' as <-. lia. }
  apply wp_bind, wp_dx_get. change (dx_max_tracks (ds_dx s1)) with (dx_max_tracks (ds_dx s)).
  pose proof (dxo_tracks _ (di_dx _ _ Hi)) as Hn.
  destruct (pmt_scan_spec (length sec) sec (12 + Z.to_nat info) (length sec - 4)
    (dx_max_tracks (ds_dx s)) [] 0) as (found & u & Hscan & Hfound); [lia|lia|cbn; lia|].
  apply wp_bind. eapply wp_read; [exact Hscan|]. cbv beta iota.
  apply wp_bind. eapply wp_mono; [apply sectioned_stat, Hs1|].
  intros [] s2 [Hs2 Hd2]. pose proof (sectioned_trans _ _ _ _ Hs1 Hs2) as Hs02.
  assert (dx_tracks (ds_dx s2) = dx_tracks (ds_dx s) ∧ same_pat s s2) as [Ht2 Hp2]
    by (unfold same_pat; by rewrite Hd2).
  apply wp_bind, wp_dx_get.
  assert (∀ s3, sectioned L s2 s3 ∧ same_pat s2 s3 ∧
    dx_tracks (ds_dx s3) = pmt_tracks found (dx_tracks (ds_dx s2)) →
    sectioned L s s3 ∧ same_pat s s3 ∧ ∀ info found u, 16 ≤ lenZ sec → len12_at sec 10 = Some info →
      (12 + Z.to_nat info ≤ length sec - 4)%nat →
      pmt_scan (length sec) sec (12 + Z.to_nat info) (length sec - 4) (dx_max_tracks (ds_dx s)) [] 0
        = Some (found, u) →
      dx_tracks (ds_dx s3) = pmt_tracks found (dx_tracks (ds_dx s))) as Hend.
  { intros s3 (Hs3 & Hp3 & Ht3). split_and!; [by eapply sectioned_trans|destruct Hp2, Hp3; split; congruence|].
    intros i' f' u' _ Hi' _ Hsc. rewrite Hinfo in Hi'. injection Hi' as <-.
    rewrite Hscan in Hsc. injection Hsc as <- <-. by rewrite Ht3, Ht2. }
  unfold pmt_tracks in Hend at 1. destruct (bool_decide_reflect (found =
    (λ tk, (tk_pid tk, tk_stream_type tk)) <$> dx_tracks (ds_dx s2))).
  - apply wp_dx_mod, Hend. split; [apply sectioned_valid, Hs2|done].
  - eapply wp_mono; [apply wp_rebuild; [apply Hs2|apply Hs02|exact Hfound]|]. intros [] s3 ?. by apply Hend.
Qed.

(** What a section does to the tracks and to the PMT's PID. *)
Lemma wp_parse_section L s sec :
  dinv L s → (0 < length sec)%nat →
  wp (parse_section sec) (λ _ s', sectioned L s s' ∧
    (∀ pid, ts_crc32 sec = 0 → sec !! 0%nat = Some 0 → 12 ≤ lenZ sec →
       pat_scan (length sec) sec 8 (length sec - 4) = Some (Some pid) →
       dx_pmt_pid (ds_dx s') = pid ∧ dx_pat_valid (ds_dx s') = true ∧
       dx_tracks (ds_dx s') = dx_tracks (ds_dx s)) ∧
    (∀ info found u, ts_crc32 sec = 0 → sec !! 0%nat = Some 2 → 16 ≤ lenZ sec →
       len12_at sec 10 = Some info → (12 + Z.to_nat info ≤ length sec - 4)%nat →
       pmt_scan (length sec) sec (12 + Z.to_nat info) (length sec - 4) (dx_max_tracks (ds_dx s)) [] 0
         = Some (found, u) →
       same_pat s s' ∧ dx_tracks (ds_dx s') = pmt_tracks found (dx_tracks (ds_dx s)))) s.
Proof.
  intros Hi Hlen. unfold parse_section. destruct (Z.eqb_spec (ts_crc32 sec) 0) as [Hcrc|Hcrc]; cbn [negb].
  2:{ eapply wp_mono; [by apply sectioned_stat|]. intros [] s' [? _]. by split_and!. }
  destruct (lookup_lt_is_Some_2 sec 0) as [table Htable]; [done|].
  apply wp_bind. eapply wp_read; [exact Htable|].
  destruct (Z.eqb_spec table 0) as [->|]; [|destruct (Z.eqb_spec table 2) as [->|]].
  - eapply wp_mono; [by apply wp_parse_pat|]. intros [] s' [Hs' Hp]. split_and!; [done| |congruence].
    intros pid _ _ H12 Hscan. by apply Hp.
  - eapply wp_mono; [by apply wp_parse_pmt|]. intros [] s' (Hs' & Hsame & Hp). split_and!; [done|congruence|].
    intros info found u _ _ H16 Hinfo Hle Hscan. split; [done|]. by eapply Hp.
  - apply wp_ret. split_and!; [by apply sectioned_refl|congruence..].
Qed.

(** ** Assembling sections *)

Definition get_psi (w : psi_sel) (dx : demux) : ts_psi :=
  match w with PAT => dx_pat dx | PMT => dx_pmt dx end.
Definition set_psi (w : psi_sel) (psi : ts_psi) (dx : demux) : demux :=
  match w with PAT => dx <| dx_pat := psi |> | PMT => dx <| dx_pmt := psi |> end.
Definition put_psi (w : psi_sel) (psi : ts_psi) (s : dstate) : dstate :=
  s <| ds_dx := set_psi w psi (ds_dx s) |>.

Lemma get_put_psi w psi s : get_psi w (ds_dx (put_psi w psi s)) = psi.
Proof. by destruct w. Qed.
Lemma put_psi_twice w psi psi' s : put_psi w psi' (put_psi w psi s) = put_psi w psi' s.
Proof. by destruct w. Qed.

Lemma wp_psi_get w (Q : ts_psi → dstate → Prop) s :
  Q (get_psi w (ds_dx s)) s → wp (psi_get w) Q s.
Proof. intros. by apply (wp_dx_get (get_psi w)). Qed.
Lemma wp_psi_mod w f (Q : unit → dstate → Prop) s :
  Q tt (put_psi w (f (get_psi w (ds_dx s))) s) → wp (psi_mod w f) Q s.
Proof. intros. apply wp_dx_mod. by destruct w. Qed.
Lemma wp_psi_copy w data (Q : unit → dstate → Prop) s :
  lenZ (ps_buf (get_psi w (ds_dx s))) + lenZ data ≤ TS_SECTION_MAX →
  Q tt (put_psi w ((get_psi w (ds_dx s)) <| ps_buf ::= λ b, b ++ data |>) s) →
  wp (psi_copy w data) Q s.
Proof.
  intros Hl HQ. apply wp_bind, wp_psi_get. rewrite (proj2 (Z.ltb_ge _ _)) by done.
  by apply wp_psi_mod.
Qed.

Lemma dinv_put L w psi s : dinv L s → psi_ok psi → dinv L (put_psi w psi s).
Proof. intros [[] ? ? ?] Hp. destruct w; by split; [split|..]. Qed.

(** Between packets an assembler has room for what it waits for. *)
Definition waiting (psi : ts_psi) : Prop :=
  lenZ (ps_buf psi) < 3 ∨ lenZ (ps_buf psi) < ps_expected psi.
Section settled.
Context (max_au max_tracks : Z).
Definition settled (L : list N) (s : dstate) : Prop :=
  dinv L s ∧ (waiting (dx_pat (ds_dx s)) ∧ waiting (dx_pmt (ds_dx s))) ∧
  dx_max_au_bytes (ds_dx s) = max_au ∧ dx_max_tracks (ds_dx s) = max_tracks.

Lemma settled_get L w s : settled L s → psi_ok (get_psi w (ds_dx s)) ∧ waiting (get_psi w (ds_dx s)).
Proof. intros ([[]] & [? ?] & _). by destruct w. Qed.
Lemma settled_put L w psi s :
  settled L s → psi_ok psi → waiting psi → settled L (put_psi w psi s).
Proof. intros (Hi & [? ?] & ?) Hp Hw. split; [by apply dinv_put|by destruct w]. Qed.
Lemma settled_stat L s s' :
  settled L s → dinv L s' → ds_dx s' = (ds_dx s) <| dx_stats := dx_stats (ds_dx s') |> → settled L s'.
Proof. intros [_ ?] Hi Hd. split; [done|]. by rewrite Hd. Qed.
Lemma settled_sectioned L s s' : settled L s → sectioned L s s' → settled L s'.
Proof.
  intros (_ & [Hp Hm] & Hc) [Hi _ _ Hpat Hpmt [E1 E2]]. split; [done|].
  rewrite E1, E2. split; [|done].
  split; [by rewrite Hpat|]. destruct Hpmt as [->|E]; [done|]. left. rewrite E. by cbn.
Qed.

Lemma psi_idle_ok psi : psi_ok (psi_idle psi) ∧ waiting (psi_idle psi).
Proof. split; [split; [by apply List.Forall_nil|by left]|by left]. Qed.

(** A section header in the assembler: the length is known. *)
Definition measured (psi : ts_psi) : Prop :=
  bytes (ps_buf psi) ∧ 3 ≤ lenZ (ps_buf psi) < ps_expected psi ∧ ps_expected psi ≤ TS_SECTION_MAX.

Lemma wp_psi_stat L w psi s f (Q : unit → dstate → Prop) :
  settled L s → (∀ s', settled L s' → Q tt (put_psi w psi s')) → wp (stat f) Q (put_psi w psi s).
Proof.
  intros Hs HQ. apply wp_stat. set (x := f _).
  replace ((put_psi w psi s) <| ds_dx := (ds_dx (put_psi w psi s)) <| dx_stats := x |> |>)
    with (put_psi w psi (s <| ds_dx := (ds_dx s) <| dx_stats := x |> |>)) by (by destruct w).
  apply HQ. eapply settled_stat; [exact Hs|by apply dinv_stat, Hs|done].
Qed.

Lemma wp_psi_header L w p s :
  settled L s → bytes p →
  wp (psi_header w p) (λ r s',
    match r with
    | None => settled L s'
    | Some p' => ∃ psi, s' = put_psi w psi s ∧ measured psi ∧ bytes p' ∧
        (p' = p ∨ (length p' < length p)%nat ∨ p = [])
    end) s.
Proof.
  intros Hs Hp. pose proof (settled_get _ w _ Hs) as [[Hb Hl] Hw]. unfold psi_header, psi_error.
  apply wp_bind, wp_psi_get. set (psi := get_psi w (ds_dx s)) in *.
  pose proof (lenZ_nonneg (ps_buf psi)) as Hn. pose proof (lenZ_nonneg p) as Hnp.
  destruct (Z.ltb_spec (lenZ (ps_buf psi)) 3) as [Hlt|Hge].
  2:{ apply wp_ret. exists psi. split; [by destruct s as [[] ? ?], w|]. unfold waiting in Hw.
      split; [|by eauto]. split_and!; [done|lia..]. }
  set (n := Z.to_nat (Z.min (lenZ p) (3 - lenZ (ps_buf psi)))).
  assert (lenZ (take n p) = Z.min (lenZ p) (3 - lenZ (ps_buf psi))) as Hlen.
  { unfold n, lenZ in *. rewrite length_take. lia. }
  assert (bytes (ps_buf psi ++ take n p)) as Hb' by (by apply Forall_app; split; [|apply Forall_take]).
  apply wp_bind, wp_psi_copy; [fold psi; unfold TS_SECTION_MAX; lia|]. fold psi.
  set (psi1 := psi <| ps_buf ::= λ b, b ++ take n p |>).
  assert (lenZ (ps_buf psi1) = lenZ (ps_buf psi) + lenZ (take n p)) as Hl1 by apply lenZ_app.
  assert (bytes (ps_buf psi1)) as Hb1 by exact Hb'. clearbody psi1.
  apply wp_bind, wp_psi_get. rewrite get_put_psi.
  destruct (Z.ltb_spec (lenZ (ps_buf psi1)) 3) as [|H3].
  { apply wp_bind, wp_psi_mod, wp_ret. rewrite get_put_psi, put_psi_twice. apply settled_put; [done| |by left].
    split; [exact Hb1|by left]. }
  assert (lenZ (ps_buf psi1) = 3) as H3' by lia. unfold lenZ in H3'.
  destruct (lookup_lt_is_Some_2 (ps_buf psi1) 0) as [b0 Hb0]; [lia|].
  apply wp_bind. eapply wp_read; [exact Hb0|]. destruct (b0 =? 255).
  { apply wp_bind, wp_psi_mod, wp_ret. rewrite get_put_psi, put_psi_twice.
    destruct (psi_idle_ok psi1). by apply settled_put. }
  destruct (len12_at_is_Some (ps_buf psi1) 1) as [sl Hsl]; [lia|].
  apply wp_bind. eapply wp_read; [exact Hsl|]. cbv zeta. unfold TS_SECTION_MAX.
  destruct (Z.ltb_spec 1024 (3 + sl)) as [|Hle]; [cbn [orb]|destruct (Z.ltb_spec sl 4)]; cbn [orb].
  1, 2: apply wp_bind, (wp_psi_stat L); [done|]; intros s1 Hs1;
    apply wp_bind, wp_psi_mod, wp_ret; rewrite get_put_psi, put_psi_twice;
    destruct (psi_idle_ok psi1); by apply settled_put.
  apply wp_bind, wp_psi_mod, wp_ret. rewrite get_put_psi, put_psi_twice. eexists. split; [reflexivity|].
  unfold measured, lenZ. cbn [ps_buf ps_expected setf].
  split_and!; [exact Hb1|lia|lia|exact Hle|by apply Forall_drop|].
  rewrite length_drop. destruct p; [by right; right|]. right; left. unfold n, lenZ in *. cbn in *. lia.
Qed.

Lemma wp_psi_loop fuel L w p s :
  settled L s → bytes p → (length p ≤ fuel)%nat → wp (psi_loop fuel w p) (λ _ s', settled L s') s.
Proof.
  revert p s. induction fuel as [|fuel IH]; intros p s Hs Hp Hf.
  { destruct p; [|cbn in Hf; lia]. by apply wp_ret. }
  destruct p as [|b p]; [by apply wp_ret|]. set (d := b :: p) in *.
  change (psi_loop (S fuel) w d) with
    (r ← psi_header w d;
     match r with
     | None => mret tt
     | Some p =>
         psi ← psi_get w;
         let need := ps_expected psi ⊖ lenZ (ps_buf psi) in
         let n := Z.to_nat (Z.min (lenZ p) need) in
         _ ← psi_copy w (take n p);
         psi ← psi_get w;
         _ ← (if lenZ (ps_buf psi) =? ps_expected psi then
                _ ← parse_section (ps_buf psi);
                psi_mod w (λ psi, psi_idle (psi <| ps_expected := 0 |>))
              else psi_mod w (λ psi, psi <| ps_assembling := true |>));
         psi_loop fuel w (drop n p)
     end).
  apply wp_bind. eapply wp_mono; [by apply (wp_psi_header L)|].
  intros [p'|] s1; [|intros Hs1; by apply wp_ret].
  intros (psi & -> & (Hb & [H3 Hlt] & Hmax) & Hp' & Hshort).
  pose proof (lenZ_nonneg p') as Hn'. unfold TS_SECTION_MAX in Hmax.
  apply wp_bind, wp_psi_get. rewrite get_put_psi. cbv zeta.
  rewrite (u64_small (ps_expected psi - lenZ (ps_buf psi))) by lia.
  set (n := Z.to_nat (Z.min (lenZ p') (ps_expected psi - lenZ (ps_buf psi)))).
  assert (lenZ (take n p') = Z.min (lenZ p') (ps_expected psi - lenZ (ps_buf psi))) as Hlen.
  { unfold n, lenZ in *. rewrite length_take. lia. }
  assert (length (drop n p') ≤ fuel)%nat as Hf'.
  { rewrite length_drop. destruct Hshort as [->|[Hsh|E]]; [|cbn in *; lia|done].
    unfold n, lenZ in *. cbn in *. lia. }
  apply wp_bind, wp_psi_copy; rewrite get_put_psi; [unfold TS_SECTION_MAX; lia|]. rewrite put_psi_twice.
  set (psi1 := psi <| ps_buf ::= λ b, b ++ take n p' |>).
  assert (lenZ (ps_buf psi1) = lenZ (ps_buf psi) + lenZ (take n p')) as Hl1 by apply lenZ_app.
  assert (bytes (ps_buf psi1)) as Hb1 by (by apply Forall_app; split; [|apply Forall_take]).
  assert (ps_expected psi1 = ps_expected psi) as He1 by done. clearbody psi1.
  apply wp_bind, wp_psi_get. rewrite get_put_psi, He1.
  assert (psi_ok psi1) as Hok1.
  { split; [done|right]. rewrite He1. unfold TS_SECTION_MAX. lia. }
  assert (dinv L (put_psi w psi1 s)) as Hi1 by (apply dinv_put; [apply Hs|done]).
  apply wp_bind. eapply (wp_mono _ (λ _ s', settled L s')).
  2:{ intros [] s2 Hs2. apply IH; [exact Hs2|by apply Forall_drop|exact Hf']. }
  destruct (Z.eqb_spec (lenZ (ps_buf psi1)) (ps_expected psi)) as [Heq|Hne].
  - apply wp_bind. eapply wp_mono; [apply (wp_parse_section L); [exact Hi1|unfold lenZ in *; lia]|].
    intros [] s2 (Hs2 & _). apply wp_psi_mod.
    destruct (psi_idle_ok ((get_psi w (ds_dx s2)) <| ps_expected := 0 |>)) as [Ho2 Hw2].
    split; [apply dinv_put; [apply Hs2|exact Ho2]|].
    destruct Hs as (_ & [Hwp Hwm] & Hc). destruct Hs2 as [_ _ _ Hpat Hpmt [Hc1 Hc2]].
    assert (dx_max_au_bytes (ds_dx s2) = max_au ∧ dx_max_tracks (ds_dx s2) = max_tracks) as Hc'
      by (rewrite Hc1, Hc2; by destruct w).
    clear Hc1 Hc2. destruct w; (split; [split|exact Hc']); try exact Hw2; cbn in *.
    + destruct Hpmt as [->|E]; [done|]. left. rewrite E. done.
    + by rewrite Hpat.
  - apply wp_psi_mod. rewrite get_put_psi, put_psi_twice. apply settled_put; [done| |].
    + split; [done|]. right. cbn. rewrite He1. unfold TS_SECTION_MAX. lia.
    + right. cbn. lia.
Qed.

Lemma wp_psi_feed L w pusi p s :
  settled L s → bytes p → wp (psi_feed w pusi p) (λ _ s', settled L s') s.
Proof.
  intros Hs Hp. unfold psi_feed, psi_error. apply wp_bind, wp_psi_get.
  destruct (_ && _); [by apply wp_ret|]. destruct pusi; [|by apply wp_psi_loop].
  assert (∀ f, wp (stat f) (λ _ s', settled L s') s) as Hstat.
  { intros f. apply wp_stat. eapply settled_stat; [exact Hs|by apply dinv_stat, Hs|done]. }
  destruct p as [|pointer p]; [done|]. apply Forall_cons in Hp as [_ Hp].
  destruct (lenZ p <? pointer).
  - apply wp_bind. eapply wp_mono; [apply Hstat|]. intros [] s1 Hs1. apply wp_psi_mod.
    destruct (psi_idle_ok (get_psi w (ds_dx s1))). by apply settled_put.
  - apply wp_bind, wp_psi_mod.
    destruct (psi_idle_ok ((get_psi w (ds_dx s)) <| ps_expected := 0 |>)).
    apply wp_psi_loop; [by apply settled_put|by apply Forall_drop|]. rewrite length_drop. cbn. lia.
Qed.

(** ** Packets *)

Lemma settled_frame L i s s' : settled L s → dinv L s' → op_frame i s s' → settled L s'.
Proof. intros [_ ?] Hi Hf. split; [done|]. by rewrite (opf_dx _ _ _ Hf). Qed.

Lemma settled_wp_stat L f s : settled L s → wp (stat f) (λ _ s', settled L s') s.
Proof. intros Hs. apply wp_stat. eapply settled_stat; [exact Hs|by apply dinv_stat, Hs|done]. Qed.

Lemma parse_af_spec p :
  bytes p → length p = 188%nat →
  ∃ r, parse_af p = Some r ∧
    match r with inl _ => True | inr (_, _, off) => (off ≤ 188)%nat end.
Proof.
  intros Hp Hl. unfold parse_af. destruct (lookup_lt_is_Some_2 p 4) as [af Haf]; [lia|].
  rewrite Haf. cbn [mbind option_bind]. pose proof (bytes_lookup _ _ _ Hp Haf) as Hb. unfold is_byte in Hb.
  destruct (Z.ltb_spec 183 af); [by eexists|]. destruct (Z.ltb_spec 0 af).
  2:{ eexists. split; [done|]. cbn. lia. }
  destruct (lookup_lt_is_Some_2 p 5) as [fl ->]; [lia|]. cbn [mbind option_bind].
  destruct (_ && _).
  - unfold pcr_at. destruct (lookup_lt_is_Some_2 p 6) as [? ->]; [lia|].
    destruct (lookup_lt_is_Some_2 p (6 + 1)) as [? ->]; [lia|].
    destruct (lookup_lt_is_Some_2 p (6 + 2)) as [? ->]; [lia|].
    destruct (lookup_lt_is_Some_2 p (6 + 3)) as [? ->]; [lia|].
    destruct (lookup_lt_is_Some_2 p (6 + 4)) as [? ->]; [lia|].
    cbn. eexists. split; [done|]. cbn. lia.
  - cbn. eexists. split; [done|]. cbn. lia.
Qed.

Lemma parse_packet_spec p :
  bytes p → length p = 188%nat →
  ∃ r, parse_packet p = Some r ∧
    match r with
    | Packet k => match pk_payload k with Some d => bytes d ∧ (length d ≤ 184)%nat | None => True end
    | _ => True
    end.
Proof.
  intros Hp Hl. unfold parse_packet. destruct (lookup_lt_is_Some_2 p 1) as [b1 ->]; [lia|].
  cbn [mbind option_bind]. destruct (negb (Z.land b1 128 =? 0)); [by eexists|].
  destruct (pid_at_is_Some p 1) as [pid ->]; [lia|]. cbn [mbind option_bind].
  destruct (pid =? TS_PID_NULL); [by eexists|].
  destruct (lookup_lt_is_Some_2 p 3) as [b3 ->]; [lia|]. cbn [mbind option_bind].
  destruct (_ || _); [by eexists|].
  assert (∃ r, (if negb (Z.land (Z.land (Z.shiftr b3 4) 3) 2 =? 0) then parse_af p
                else Some (inr (None, false, 4%nat))) = Some r ∧
    match r with inl _ => True | inr (_, _, off) => (4 ≤ off)%nat end) as (r & -> & Hoff).
  { destruct (negb _); [|eexists; split; [done|cbn; lia]]. destruct (parse_af_spec p Hp Hl) as (r & Hr & _). exists r.
    split; [done|]. unfold parse_af in Hr. destruct r as [|[[? ?] off]]; [done|].
    destruct (p !! 4%nat); [|done]. cbn [mbind option_bind] in Hr.
    destruct (183 <? z); [done|]. destruct (0 <? z); [|injection Hr as <- <- <-; lia].
    destruct (p !! 5%nat); [|done]. cbn [mbind option_bind] in Hr.
    destruct (if _ && _ then _ else _); [|done]. injection Hr as <- <- <-. lia. }
  cbn [mbind option_bind]. destruct r as [|[[pcr disc] off]]; [by eexists|]. eexists. split; [done|].
  cbn [pk_payload]. destruct (negb _); [|done]. split; [by apply Forall_drop|]. rewrite length_drop. lia.
Qed.

Lemma track_by_pid_lookup tracks pid i0 i :
  track_by_pid tracks pid i0 = Some i →
  (i0 ≤ i)%nat ∧ ∃ tk, tracks !! (i - i0)%nat = Some tk ∧ tk_pid tk = pid.
Proof.
  revert i0. induction tracks as [|tk tracks IH]; intros i0; [done|]. cbn [track_by_pid].
  destruct (Z.eqb_spec (tk_pid tk) pid).
  - intros [= <-]. split; [lia|]. exists tk. by rewrite Nat.sub_diag.
  - intros (Hle & t & Ht & Hp)%IH. split; [lia|]. exists t.
    replace (i - i0)%nat with (S (i - S i0)) by lia. done.
Qed.

Lemma wp_process_track L i k s :
  settled L s → is_Some (dx_tracks (ds_dx s) !! i) →
  match pk_payload k with Some d => bytes d | None => True end →
  wp (process_track i k) (λ _ s', settled L s') s.
Proof.
  intros Hs Htk Hp. eapply (wp_mono _ (λ _ s', dinv L s' ∧ op_frame i s s')).
  2:{ intros [] s' [? ?]. by eapply settled_frame. }
  assert (ready L i s) as Hr by (by split; [apply Hs|]).
  unfold process_track. apply safe_get; [done|]. intros tk _. cbv zeta.
  destruct (cc_check _ _ _ _) as [[r cc] valid].
  apply safe_bind; [done| |clear s Hs Htk Hr; intros _ s Hr].
  { apply safe_mod; [done|by intros ?? [? ? ? ? ?]; split|]. intros t. by split_and!. }
  apply safe_bind; [done| |clear s Hr; intros _ s Hr].
  { destruct (_ && _); [by apply safe_stat|by apply safe_ret]. }
  destruct (pk_payload k); [by apply safe_process_pes|by apply safe_ret].
Qed.

Lemma wp_process_psi L w k s :
  settled L s → match pk_payload k with Some d => bytes d | None => True end →
  wp (process_psi w k) (λ _ s', settled L s') s.
Proof.
  intros Hs Hp. unfold process_psi. apply wp_bind, wp_psi_get. cbv zeta.
  destruct (cc_check _ _ _ _) as [[r cc] valid]. apply wp_bind, wp_psi_mod.
  set (s1 := put_psi _ _ _). assert (settled L s1) as Hs1.
  { destruct (settled_get _ w _ Hs) as [[? ?] ?]. by apply settled_put; [|split|]. }
  clearbody s1. apply wp_bind. eapply (wp_mono _ (λ _ s', settled L s')).
  - destruct (bool_decide _); [by apply settled_wp_stat|by apply wp_ret].
  - intros [] s2 Hs2. destruct (pk_payload k); [by apply wp_psi_feed|by apply wp_ret].
Qed.

Lemma wp_process_packet L p s :
  settled L s → bytes p → length p = 188%nat →
  wp (process_packet p) (λ _ s', settled L s') s.
Proof.
  intros Hs Hp Hl. unfold process_packet. destruct (parse_packet_spec p Hp Hl) as (r & Hr & Hk).
  apply wp_bind. eapply wp_mono; [by apply settled_wp_stat|]. intros [] s1 Hs1.
  apply wp_bind. eapply wp_read; [exact Hr|]. destruct r as [| |k];
    [by apply settled_wp_stat|by apply wp_ret|].
  assert (match pk_payload k with Some d => bytes d | None => True end) as Hd
    by (by destruct (pk_payload k) as [?|]; [apply Hk|]).
  apply wp_bind. eapply (wp_mono _ (λ _ s', settled L s')).
  { destruct (pk_pcr k); [by apply settled_wp_stat|by apply wp_ret]. }
  intros [] s2 Hs2. apply wp_bind, wp_dx_get, wp_bind, wp_dx_get.
  destruct (_ =? _); [by apply wp_process_psi|].
  destruct (_ && _); [by apply wp_process_psi|]. apply wp_bind, wp_dx_get.
  destruct (track_by_pid _ _ _) as [i|] eqn:Ei; [|by apply wp_ret].
  apply track_by_pid_lookup in Ei as (_ & tk & Htk & _). rewrite Nat.sub_0_r in Htk.
  by apply wp_process_track.
Qed.

(** ** The byte stream *)

Lemma find_sync_spec fuel d q :
  (length d - q < fuel)%nat → (q ≤ length d)%nat →
  ∃ q', find_sync fuel d q = Some q' ∧ (q ≤ q' ≤ length d)%nat.
Proof.
  revert q. induction fuel as [|fuel IH]; intros q Hf Hq; [lia|]. cbn [find_sync].
  destruct (Nat.ltb_spec q (length d)); [|by eauto].
  destruct (lookup_lt_is_Some_2 d q) as [b ->]; [done|]. cbn [mbind option_bind].
  assert (∃ good, (if b =? TS_SYNC_BYTE then
    if (length d <=? q + 188)%nat then Some true
    else b' ← d !! (q + 188)%nat; Some (b' =? TS_SYNC_BYTE) else Some false) = Some good)
    as (good & ->).
  { destruct (b =? TS_SYNC_BYTE); [|by eexists].
    destruct (Nat.leb_spec (length d) (q + 188)); [by eexists|].
    destruct (lookup_lt_is_Some_2 d (q + 188)) as [b' ->]; [done|by eexists]. }
  cbn [mbind option_bind]. destruct good; [by eauto with lia|].
  destruct (IH (S q)) as (q' & -> & ?); [lia..|]. exists q'. split; [done|lia].
Qed.

Lemma wp_feed_loop fuel L d off s :
  settled L s → bytes d → (off ≤ length d)%nat → (length d - off < fuel)%nat →
  wp (feed_loop fuel d off) (λ off' s', settled L s' ∧
    (off ≤ off' ≤ length d)%nat ∧ (length d < off' + 188)%nat) s.
Proof.
  revert off s. induction fuel as [|fuel IH]; intros off s Hs Hd Ho Hf; [lia|].
  cbn [feed_loop]. destruct (Nat.leb_spec (off + 188) (length d)).
  2:{ apply wp_ret. split; [done|lia]. }
  destruct (lookup_lt_is_Some_2 d off) as [b Hb]; [lia|]. apply wp_bind.
  eapply wp_read; [exact Hb|]. destruct (b =? TS_SYNC_BYTE).
  - apply wp_bind. eapply wp_mono; [apply (wp_process_packet L); [done| |]|].
    + by apply Forall_take, Forall_drop.
    + rewrite length_take, length_drop. lia.
    + intros [] s1 Hs1. eapply wp_mono; [apply IH; [done|done|lia..]|].
      intros off' s2 (? & ? & ?). split; [done|lia].
  - destruct (find_sync_spec (S (length d)) d (S off)) as (q & Hq & ?); [lia..|].
    apply wp_bind. eapply wp_read; [exact Hq|]. apply wp_bind.
    eapply wp_mono; [by apply settled_wp_stat|]. intros [] s1 Hs1.
    eapply wp_mono; [apply IH; [done|done|lia..]|].
    intros off' s2 (? & ? & ?). split; [done|lia].
Qed.

Lemma settled_tail L s t :
  settled L s → bytes t → (length t < 188)%nat →
  settled L (s <| ds_dx := (ds_dx s) <| dx_tail := t |> |>).
Proof. intros [[[] ? ? ?] ?] Hb Hl. by split; [split; [split|..]|]. Qed.

Lemma wp_feed_rest L d off s :
  settled L s → bytes d → (off ≤ length d)%nat →
  wp (feed_rest d off) (λ r s', r = NGX_OK ∧ settled L s') s.
Proof.
  intros Hs Hd Ho. unfold feed_rest. apply wp_bind.
  eapply wp_mono; [apply wp_feed_loop; [done|done|lia|lia]|]. intros off' s1 (Hs1 & ? & ?).
  apply wp_bind, wp_dx_mod, wp_ret. split; [done|]. apply settled_tail; [done|by apply Forall_drop|].
  rewrite length_drop. lia.
Qed.

Lemma wp_demux_feed L data s :
  settled L s → bytes data → wp (demux_feed data) (λ r s', r = NGX_OK ∧ settled L s') s.
Proof.
  intros Hs Hd. unfold demux_feed. apply wp_bind, wp_dx_get.
  rewrite (dxo_live _ (di_dx _ _ (proj1 Hs))). cbn [negb]. apply wp_bind.
  eapply wp_mono; [by apply settled_wp_stat|]. clear s Hs. intros [] s Hs.
  apply wp_bind, wp_dx_get. destruct (dxo_tail _ (di_dx _ _ (proj1 Hs))) as [Htb Htl].
  destruct (dx_tail (ds_dx s)) as [|b t]; [by apply wp_feed_rest; [..|lia]|].
  cbv zeta. set (tl := b :: t) in *. set (n := Nat.min _ _).
  assert (length (tl ++ take n data) = (length tl + n)%nat) as Hlen
    by (rewrite length_app, length_take; lia).
  assert (bytes (tl ++ take n data)) as Hb by (by apply Forall_app; split; [|apply Forall_take]).
  rewrite Hlen. destruct (Nat.ltb_spec (length tl + n) 188).
  { apply wp_bind, wp_dx_mod, wp_ret. split; [done|]. by apply settled_tail; [..|lia]. }
  apply wp_bind. eapply (wp_mono _ (λ _ s', settled L s')).
  { destruct (b =? TS_SYNC_BYTE); [|by apply settled_wp_stat].
    apply wp_process_packet; [done|done|lia]. }
  intros [] s1 Hs1. apply wp_bind, wp_dx_mod.
  apply wp_feed_rest; [|done|lia]. apply settled_tail; [done|by apply List.Forall_nil|cbn; lia].
Qed.

Lemma wp_demux_flush L s : settled L s → wp demux_flush (λ _ s', settled L s') s.
Proof.
  intros Hs. unfold demux_flush. apply wp_bind, wp_dx_get.
  destruct (negb _); [by apply wp_ret|]. apply wp_bind, wp_dx_get.
  eapply wp_mono; [apply (wp_for_tracks (λ _ s', settled L s' ∧
    length (dx_tracks (ds_dx s')) = length (dx_tracks (ds_dx s))))|].
  - done.
  - intros j s1 Hj [Hs1 Hl]. destruct (lookup_lt_is_Some_2 (dx_tracks (ds_dx s1)) j) as [tk Htk]; [lia|].
    eapply wp_mono; [apply (safe_flush L j); by split; [apply Hs1|]|].
    intros [] s2 [Hi2 Hf2]. split; [by eapply settled_frame|].
    destruct (opf_tracks _ _ _ Hf2 _ Htk) as (tk' & -> & _). by rewrite length_insert.
  - by intros [] s' [? _].
Qed.

(** ** From the first call to the last *)

Lemma wp_demux_destroy L s :
  settled L s →
  wp demux_destroy (λ _ s', ds_dx s' = demux_zero ∧ ds_out s' = ds_out s ∧ owns (ds_store s') L) s.
Proof.
  intros [Hi _]. unfold demux_destroy. apply wp_bind, wp_dx_get.
  rewrite (dxo_live _ (di_dx _ _ Hi)). cbn [negb]. apply wp_bind, wp_dx_get, wp_bind.
  pose proof (di_owns _ _ Hi) as Ho. rewrite holds_demux, <- app_assoc in Ho.
  eapply wp_mono; [by apply (wp_clear_tracks L)|]. intros [] s1 (tracks & st & -> & Ho1 & _).
  apply wp_bind, wp_dx_get, wp_bind, wp_on_store.
  eapply wp_mono; [apply (wp_destroy_set _ L)|].
  - apply (dxo_set _ (di_dx _ _ Hi)).
  - exact Ho1.
  - intros set' st' (_ & Ho' & _). by apply wp_dx_mod.
Qed.

(** Feeding chunk after chunk. *)
Fixpoint feed_chunks (chunks : list (list Z)) : D unit :=
  match chunks with
  | [] => mret tt
  | c :: chunks => _ ← demux_feed c; feed_chunks chunks
  end.

Lemma wp_feed_chunks L chunks s :
  settled L s → Forall bytes chunks → wp (feed_chunks chunks) (λ _ s', settled L s') s.
Proof.
  revert s. induction chunks as [|c chunks IH]; intros s Hs Hc; [by apply wp_ret|].
  apply Forall_cons in Hc as [Hc Hcs]. apply wp_bind.
  eapply wp_mono; [by apply (wp_demux_feed L)|]. intros r s1 [_ Hs1]. by apply IH.
Qed.

End settled.

(** What a configuration amounts to. *)
Definition conf_max_au (conf : demux_conf) : Z :=
  if dc_max_au_bytes conf =? 0 then TS_DEFAULT_AU_BYTES else dc_max_au_bytes conf.
Definition conf_max_tracks (conf : demux_conf) : Z :=
  if dc_max_tracks conf =? 0 then TS_DEFAULT_TRACKS else dc_max_tracks conf.

Lemma demux_init_settled L mt ma st :
  0 ≤ mt → mt < 2 ^ 63 → 0 ≤ ma ≤ 2 ^ 60 → owns st L →
  settled ma mt L (mk_dstate (mk_demux mt ma true [] trackset_zero false
    (ts_psi_zero <| ps_pid := TS_PID_PAT |>) (ts_psi_zero <| ps_pid := TS_PID_NULL |>)
    0 false false 0 [] demux_stats_zero) [] st).
Proof.
  intros H0 H1 Hma Ho. split; [|by split; [split; left|]]. split; [|exact Ho| |by apply List.Forall_nil].
  - split; try done.
    + split; [apply trackset_zero_inv|by left].
    + split; [by apply List.Forall_nil|by left].
    + split; [by apply List.Forall_nil|by left].
    + split; [by apply List.Forall_nil|cbn; lia].
  - intros tk Htk. by apply elem_of_nil in Htk.
Qed.

Lemma wp_demux_init L conf st :
  owns st L → 0 ≤ dc_max_tracks conf → 0 ≤ dc_max_au_bytes conf ≤ 2 ^ 60 →
  wp (demux_init (Some conf)) (λ r st', owns st' L ∧ evolves st st' ∧
    (r.1 = NGX_OK → settled (conf_max_au conf) (conf_max_tracks conf) L (mk_dstate r.2 [] st')) ∧
    (r.1 ≠ NGX_OK → dx_live r.2 = false ∧ holds r.2 = [])) st.
Proof.
  intros Ho Ht Ha. unfold demux_init, conf_max_au, conf_max_tracks. cbv zeta.
  change (default 0 (dc_max_tracks <$> Some conf)) with (dc_max_tracks conf).
  change (default 0 (dc_max_au_bytes <$> Some conf)) with (dc_max_au_bytes conf).
  set (mt := if dc_max_tracks conf =? 0 then TS_DEFAULT_TRACKS else dc_max_tracks conf).
  set (ma := if dc_max_au_bytes conf =? 0 then TS_DEFAULT_AU_BYTES else dc_max_au_bytes conf).
  assert (0 ≤ mt) as Hmt by (unfold mt, TS_DEFAULT_TRACKS; caseb; lia).
  assert (0 ≤ ma ≤ 2 ^ 60) as Hma by (unfold ma, TS_DEFAULT_AU_BYTES; caseb; lia).
  clearbody mt ma. unfold ts_track_size. set (dx0 := demux_zero <| _ := _ |> <| _ := _ |>).
  change (dx_max_tracks dx0) with mt.
  destruct (Z.leb_spec (2 ^ 64) (mt * 240)) as [|Hlt].
  { apply wp_ret. split; [exact Ho|]. split; [done|]. by split. }
  apply wp_bind. eapply wp_mono; [by apply (wp_ngx_alloc_ok _ L)|].
  intros [p|] st1 (Ho1 & Hev & _); apply wp_ret; (split; [exact Ho1|split; [exact Hev|]]).
  2: { split; [intros E; discriminate E|]. by split. }
  split; [|intros E; exfalso; apply E; exact eq_refl]. intros _.
  apply (demux_init_settled L mt ma); [done|lia|done|done].
Qed.

(** ** The claim *)

(** C11: whatever bytes arrive, in whatever pieces - corrupt packets, lying lengths, tables
    that change under a stream - a demuxer that was initialised feeds them all, flushes and
    is destroyed without an access outside a buffer and without a loop that fails to end;
    every frame the sink gets is non-empty and no longer than the configured ceiling, the
    access units under assembly stay below the same ceiling, less than a packet is carried
    over, and at the end exactly the references that were held before remain. *)
Theorem demux_any_bytes L conf st dx st0 chunks :
  owns st L → 0 ≤ dc_max_tracks conf → 0 ≤ dc_max_au_bytes conf ≤ 2 ^ 60 →
  demux_init (Some conf) st = Some ((NGX_OK, dx), st0) → Forall bytes chunks →
  ∃ s1 s2 s3,
    feed_chunks chunks (mk_dstate dx [] st0) = Some (tt, s1) ∧
    demux_flush s1 = Some (tt, s2) ∧ demux_destroy s2 = Some (tt, s3) ∧
    (∀ s, s = s1 ∨ s = s2 →
      Forall (sink_ok (conf_max_au conf)) (ds_out s) ∧
      Forall (λ tk, lenZ (tk_au tk) ≤ tk_au_cap tk ≤ conf_max_au conf) (dx_tracks (ds_dx s)) ∧
      Z.of_nat (length (dx_tracks (ds_dx s))) ≤ conf_max_tracks conf ∧
      (length (dx_tail (ds_dx s)) < 188)%nat) ∧
    ds_dx s3 = demux_zero ∧ owns (ds_store s3) L.
Proof.
  intros Ho Ht Ha Hinit Hc.
  destruct (wp_run _ _ _ _ _ (wp_demux_init L conf st Ho Ht Ha) Hinit) as (_ & _ & Hok & _).
  specialize (Hok eq_refl). cbn [fst snd] in Hok.
  destruct (wp_feed_chunks _ _ L chunks _ Hok Hc) as ([] & s1 & H1 & Hs1).
  destruct (wp_demux_flush _ _ L s1 Hs1) as ([] & s2 & H2 & Hs2).
  destruct (wp_demux_destroy _ _ L s2 Hs2) as ([] & s3 & H3 & Hz & _ & Ho3).
  exists s1, s2, s3. split_and!; [done..| |done|done].
  intros s Hs. assert (settled (conf_max_au conf) (conf_max_tracks conf) L s) as (Hi & _ & Hau & Htr)
    by (by destruct Hs as [->| ->]).
  destruct Hi as [Hdx _ _ Hout]. rewrite Hau in Hout. split_and!; [done| | |by apply Hdx].
  - apply Forall_lookup_2. intros i tk Htk. rewrite <- Hau. by apply (dxo_tk _ Hdx i).
  - rewrite <- Htr. apply (dxo_tracks _ Hdx).
Qed.
Definition ex_demux : demux :=
  mk_demux 2 4096 true [] trackset_zero false (ts_psi_zero <| ps_pid := TS_PID_PAT |>)
    (ts_psi_zero <| ps_pid := TS_PID_NULL |>) 0 false false 0 [] demux_stats_zero.
Definition ex_demux_store : store := mk_store (st_bufs ex_store) 2 (st_alloc ex_store).
Lemma demux_any_bytes_witness :
  ∃ s1 s2 s3,
    feed_chunks [[71; 64; 0; 16; 0; 1]; replicate 190 71] (mk_dstate ex_demux [] ex_demux_store)
      = Some (tt, s1) ∧ demux_flush s1 = Some (tt, s2) ∧ demux_destroy s2 = Some (tt, s3) ∧
    owns (ds_store s3) [0%N; 0%N].
Proof.
  destruct (demux_any_bytes [0%N; 0%N] (mk_demux_conf 2 4096) ex_store ex_demux ex_demux_store
    [[71; 64; 0; 16; 0; 1]; replicate 190 71])
    as (s1 & s2 & s3 & H1 & H2 & H3 & _ & _ & Ho);
    [apply ex_store_owns|done|done|reflexivity|by apply (bool_decide_unpack _)|].
  by exists s1, s2, s3.
Defined.
