(* ===== verification/TsRoundtrip.v ===== *)
(** * The muxer and the demuxer agree

    What the muxer writes (TsMux.v) is what the demuxer reads (TsDemux.v): packets, PES
    headers, program tables and, composed, whole streams of frames. *)
From S2P Require Import Prelude Bytes Store TsCrc Compat Nal TsMux TsDemux.

(** ** Fields of a packet *)

Lemma packet_byte1 hi (pusi : bool) : 0 ≤ hi < 32 →
  let b := u8 (Z.lor (if pusi then 0x40 else 0) (Z.land hi 0x1F)) in
  Z.land b 0x80 = 0 ∧ Z.land b 0x1F = hi ∧ negb (Z.land b 0x40 =? 0) = pusi.
Proof.
  intros Hh b.
  pose proof (forall_below (λ hi, forallb (λ pusi : bool,
    let b := u8 (Z.lor (if pusi then 0x40 else 0) (Z.land hi 0x1F)) in
    (Z.land b 0x80 =? 0) && (Z.land b 0x1F =? hi) && eqb (negb (Z.land b 0x40 =? 0)) pusi)
    [true; false]) 32 ltac:(vm_compute; reflexivity) hi Hh) as H.
  cbn [forallb] in H. rewrite !andb_true_iff, !Z.eqb_eq, !eqb_true_iff in H.
  subst b. destruct pusi; tauto.
Qed.

Lemma packet_byte3 cc (af : bool) :
  let b := u8 (Z.lor (Z.shiftl (if af then 3 else 1) 4) (Z.land cc 0x0F)) in
  Z.land (Z.shiftr b 4) 3 = (if af then 3 else 1) ∧ Z.land (Z.shiftr b 6) 3 = 0 ∧
  Z.land b 0x0F = Z.land cc 0x0F.
Proof.
  cbn zeta. change 0x0F with (2 ^ 4 - 1). rewrite !land_ones by done.
  pose proof (Z.mod_pos_bound cc (2 ^ 4) ltac:(done)) as Hc. set (c := cc mod 2 ^ 4) in *.
  pose proof (forall_below (λ c, forallb (λ af : bool,
    let b := u8 (Z.lor (Z.shiftl (if af then 3 else 1) 4) c) in
    (Z.land (Z.shiftr b 4) 3 =? (if af then 3 else 1)) && (Z.land (Z.shiftr b 6) 3 =? 0)
    && (b mod 2 ^ 4 =? c)) [true; false]) 16 ltac:(vm_compute; reflexivity) c Hc) as H.
  cbn [forallb] in H. rewrite !andb_true_iff, !Z.eqb_eq in H. destruct af; split_and!; apply H.
Qed.

Lemma pid_fields pid :
  0 ≤ pid < 2 ^ 13 →
  0 ≤ Z.shiftr pid 8 < 32 ∧ Z.lor (Z.shiftl (Z.shiftr pid 8) 8) (u8 (Z.land pid 0xFF)) = pid.
Proof.
  intros Hp. change 0xFF with (2 ^ 8 - 1). rewrite land_ones, shiftr_div by done. split.
  { Z.to_euclidean_division_equations. lia. }
  unfold u8. rewrite Zmod_mod, lor_shift by (done || by apply Z.mod_pos_bound).
  rewrite (Z.div_mod pid (2 ^ 8)) at 3 by done. lia.
Qed.

(** Five fields side by side. *)
Lemma lor_five a b c d e i j k l :
  0 ≤ l ≤ k → k ≤ j → j ≤ i →
  0 ≤ b → b * 2 ^ j < 2 ^ i → 0 ≤ c → c * 2 ^ k < 2 ^ j → 0 ≤ d → d * 2 ^ l < 2 ^ k → 0 ≤ e < 2 ^ l →
  Z.lor (Z.lor (Z.lor (Z.lor (Z.shiftl a i) (Z.shiftl b j)) (Z.shiftl c k)) (Z.shiftl d l)) e
  = a * 2 ^ i + b * 2 ^ j + c * 2 ^ k + d * 2 ^ l + e.
Proof.
  intros Hl Hk Hj Hb Hb' Hc Hc' Hd Hd' He. rewrite !shiftl_mul by lia.
  assert (∀ x m n, 0 ≤ n ≤ m → (x * 2 ^ m) mod 2 ^ n = 0) as Hmod.
  { intros x m n Hn. replace m with (m - n + n) by lia.
    rewrite Z.pow_add_r, Z.mul_assoc by lia. apply Z.mod_mul. lia. }
  assert (∀ x y n, x mod 2 ^ n = 0 → y mod 2 ^ n = 0 → (x + y) mod 2 ^ n = 0) as Hadd.
  { intros x y n Hx Hy. by rewrite Zplus_mod, Hx, Hy, Zmod_0_l. }
  assert (0 ≤ b * 2 ^ j ∧ 0 ≤ c * 2 ^ k ∧ 0 ≤ d * 2 ^ l) as (? & ? & ?) by (split_and!; lia).
  rewrite (lor_add (a * 2 ^ i) _ i) by (lia || (apply Hmod; lia)).
  rewrite (lor_add _ (c * 2 ^ k) j) by (lia || (apply Hadd; apply Hmod; lia)).
  rewrite (lor_add _ (d * 2 ^ l) k) by (lia || (apply Hadd; [apply Hadd|]; apply Hmod; lia)).
  rewrite (lor_add _ e l) by (lia || (apply Hadd; [apply Hadd; [apply Hadd|]|]; apply Hmod; lia)).
  done.
Qed.

Lemma pcr_roundtrip base a b c d e f post :
  pcr_at (a :: b :: c :: d :: e :: f :: pcr_bytes base ++ post) 6 = Some (base mod 2 ^ 33).
Proof.
  unfold pcr_bytes. change 0x1FFFFFFFF with (2 ^ 33 - 1). rewrite land_ones by done.
  assert (u64 base mod 2 ^ 33 = base mod 2 ^ 33) as ->.
  { apply Z.mod_mod_divide. by exists (2 ^ 31). }
  pose proof (Z.mod_pos_bound base (2 ^ 33) ltac:(done)) as Hx.
  set (x := base mod 2 ^ 33) in *. clearbody x. unfold pcr_at.
  cbn [lookup list_lookup app mbind option_bind Nat.add]. f_equal.
  assert (Z.shiftr (u8 (Z.lor (Z.shiftl (Z.land x 1) 7) 0x7E)) 7 = x mod 2) as ->.
  { change 1 with (2 ^ 1 - 1). rewrite land_ones by done. change (2 ^ 1) with 2.
    pose proof (Z.mod_pos_bound x 2 ltac:(done)).
    assert (x mod 2 = 0 ∨ x mod 2 = 1) as [-> | ->] by lia; done. }
  rewrite !shiftr_div by done. unfold u8.
  pose proof (Z.mod_pos_bound (x / 2 ^ 17) (2 ^ 8) ltac:(done)).
  pose proof (Z.mod_pos_bound (x / 2 ^ 9) (2 ^ 8) ltac:(done)).
  pose proof (Z.mod_pos_bound (x / 2 ^ 1) (2 ^ 8) ltac:(done)).
  pose proof (Z.mod_pos_bound x 2 ltac:(done)).
  rewrite lor_five by lia. clear -Hx. Z.to_euclidean_division_equations. lia.
Qed.

(** The first five bytes of a timestamp field carry its low 33 bits. *)
Lemma pes_ts_roundtrip prefix v p i :
  0 ≤ prefix < 16 → take 5 (drop i p) = put_ts prefix v → pes_ts p i = Some (v mod 2 ^ 33).
Proof.
  intros Hp Hput.
  assert (∀ k, (k < 5)%nat → p !! (i + k)%nat = put_ts prefix v !! k) as Hl.
  { intros k Hk. rewrite <- Hput, lookup_take, lookup_drop by done. by destruct (decide _). }
  unfold pes_ts. rewrite <- (Nat.add_0_r i) at 1. rewrite !Hl by lia. unfold put_ts.
  cbn [lookup list_lookup mbind option_bind]. f_equal.
  pose proof (pair_below (λ q n,
    Z.land (u8 (Z.lor (Z.lor (Z.shiftl q 4) (Z.shiftl n 1)) 1)) 14 =? 2 * n) 16 8
    ltac:(vm_compute; reflexivity) prefix ((v / 2 ^ 30) mod 2 ^ 3) Hp
    ltac:(by apply Z.mod_pos_bound)) as H1.
  pose proof (forall_below (λ n, Z.land (u8 (Z.lor (Z.shiftl n 1) 1)) 254 =? 2 * n) 128
    ltac:(vm_compute; reflexivity) ((v / 2 ^ 15) mod 2 ^ 7) ltac:(by apply Z.mod_pos_bound)) as H2.
  pose proof (forall_below (λ n, Z.shiftr (u8 (Z.lor (Z.shiftl n 1) 1)) 1 =? n) 128
    ltac:(vm_compute; reflexivity) (v mod 2 ^ 7) ltac:(by apply Z.mod_pos_bound)) as H3.
  cbv beta in H1, H2, H3. apply Z.eqb_eq in H1, H2, H3.
  change 7 with (2 ^ 3 - 1) at 1. change 127 with (2 ^ 7 - 1). change 255 with (2 ^ 8 - 1).
  rewrite !land_ones, !shiftr_div in * by done. rewrite H1, H2, H3. unfold u8. rewrite !Zmod_mod.
  pose proof (Z.mod_pos_bound (v / 2 ^ 22) (2 ^ 8) ltac:(done)).
  pose proof (Z.mod_pos_bound (v / 2 ^ 15) (2 ^ 7) ltac:(done)).
  pose proof (Z.mod_pos_bound (v / 2 ^ 7) (2 ^ 8) ltac:(done)).
  pose proof (Z.mod_pos_bound v (2 ^ 7) ltac:(done)).
  assert (∀ x k, 0 ≤ k → Z.shiftl (2 * x) k = Z.shiftl x (k + 1)) as Hsh.
  { intros x k Hk. rewrite !shiftl_mul, Z.pow_add_r by lia. lia. }
  rewrite !Hsh by done. cbn [Z.add Pos.add Pos.succ].
  rewrite lor_five by lia. clear. Z.to_euclidean_division_equations. lia.
Qed.

(** ** Packets *)

Lemma parse_af_field a b c d af with_pcr base payload :
  0 < af ≤ 184 → (with_pcr = true → 8 ≤ af) →
  parse_af (a :: b :: c :: d :: af_field af with_pcr base ++ payload) =
  Some (inr (if with_pcr then Some (base mod 2 ^ 33) else None, false, (4 + Z.to_nat af)%nat)).
Proof.
  intros Haf Hp. unfold af_field. rewrite (proj2 (Z.ltb_lt 0 af)) by lia.
  unfold parse_af. cbn [app lookup list_lookup mbind option_bind].
  assert (u8 (af - 1) = af - 1) as -> by (apply Z.mod_small; lia).
  rewrite (proj2 (Z.ltb_ge 183 (af - 1))) by lia.
  replace (5 + Z.to_nat (af - 1))%nat with (4 + Z.to_nat af)%nat by lia.
  destruct (Z.ltb_spec 1 af) as [H1|H1].
  - rewrite (proj2 (Z.ltb_lt 0 (af - 1))) by lia. destruct with_pcr.
    + specialize (Hp eq_refl). cbn [app lookup list_lookup mbind option_bind].
      rewrite (proj2 (Z.leb_le 7 (af - 1))) by lia.
      change (negb (Z.land 16 16 =? 0)) with true. cbn [andb]. rewrite <- app_assoc, pcr_roundtrip.
      done.
    + done.
  - assert (af = 1) as -> by lia. destruct with_pcr; [by specialize (Hp eq_refl)|done].
Qed.

Lemma drop_header (h p : list Z) n : n = length h → drop n (h ++ p) = p.
Proof. intros ->. apply drop_app_length. Qed.

Lemma parse_packet_header pid cc pusi n with_pcr base payload :
  0 ≤ pid < 2 ^ 13 → pid ≠ TS_PID_NULL → lenZ payload = n → n + min_af with_pcr ≤ 184 →
  parse_packet (packet_header pid cc pusi n with_pcr base ++ payload) =
  Some (Packet (mk_packet pid pusi (Z.land cc 15) false
    (if with_pcr then Some (base mod 2 ^ 33) else None) (Some payload))).
Proof.
  intros Hpid Hnull Hn Hf. pose proof (lenZ_nonneg payload) as Hn0. rewrite Hn in Hn0.
  unfold packet_header. cbn zeta. rewrite af_bytes_eq by done.
  destruct (pid_fields pid Hpid) as [Hhi Hpb].
  destruct (packet_byte1 (Z.shiftr pid 8) pusi Hhi) as (H80 & H1f & H40).
  destruct (packet_byte3 cc (negb (184 - n =? 0))) as (Hafc & Hscr & Hcc).
  set (b1 := u8 (Z.lor (if pusi then 0x40 else 0) (Z.land (Z.shiftr pid 8) 0x1F))) in *.
  assert (Z.lor (Z.shiftl (if 184 - n =? 0 then 1 else 3) 4) (Z.land cc 15)
          = Z.lor (Z.shiftl (if negb (184 - n =? 0) then 3 else 1) 4) (Z.land cc 15)) as ->
    by (by destruct (184 - n =? 0)).
  set (b3 := u8 (Z.lor (Z.shiftl (if negb (184 - n =? 0) then 3 else 1) 4) (Z.land cc 15))) in *.
  unfold parse_packet, pid_at. cbn [app lookup list_lookup mbind option_bind Nat.add].
  rewrite H80, H1f, Hpb, Hafc, Hscr, Hcc, (proj2 (Z.eqb_neq _ _) Hnull), H40. cbn [negb orb Z.eqb].
  destruct (Z.eqb_spec (184 - n) 0) as [E|E]; cbn [negb].
  - cbn. rewrite E. unfold af_field. cbn. destruct with_pcr; [cbn in Hf; lia|done].
  - change (negb (Z.land 3 2 =? 0)) with true. change (negb (Z.land 3 1 =? 0)) with true. cbv iota.
    assert (with_pcr = true → 8 ≤ 184 - n) as Hp by (intros ->; cbn in Hf; lia).
    assert (0 ≤ min_af with_pcr) by (by destruct with_pcr).
    rewrite parse_af_field by (done || lia). cbn [mbind option_bind].
    change (71 :: b1 :: u8 (Z.land pid 255) :: b3 :: af_field (184 - n) with_pcr base ++ payload)
      with (([71; b1; u8 (Z.land pid 255); b3] ++ af_field (184 - n) with_pcr base) ++ payload).
    rewrite drop_header; [done|]. rewrite length_app.
    pose proof (af_field_length (184 - n) with_pcr base ltac:(lia) Hp) as Hl.
    unfold lenZ in Hl. cbn. lia.
Qed.

(** ** The packets of a PES *)

(** The packets that carry [slices] on [pid], with the counter running from [cc]. *)
Fixpoint carried (pid cc : Z) (first : bool) (pcr : option Z) (slices : list (list Z))
    : list packet :=
  match slices with
  | [] => []
  | d :: slices =>
      mk_packet pid first (Z.land cc 15) false (if first then pcr else None) (Some d)
      :: carried pid (cc + 1) false pcr slices
  end.

Lemma carried_land pid cc first pcr slices :
  carried pid (Z.land cc 15) first pcr slices = carried pid cc first pcr slices.
Proof.
  revert cc first. induction slices as [|d slices IH]; intros cc first; [done|]. cbn [carried]. f_equal.
  - f_equal. pose proof (land15_add cc 0) as H. by rewrite !Z.add_0_r in H.
  - rewrite <- IH, land15_add. apply IH.
Qed.

Lemma is_byte_u8 x : is_byte (u8 x).
Proof. unfold is_byte, u8. by apply Z.mod_pos_bound. Qed.

Lemma bytes_pcr base : bytes (pcr_bytes base).
Proof.
  unfold pcr_bytes. cbv zeta. set (x := Z.land _ _). clearbody x.
  repeat (constructor; [first [apply is_byte_u8|done]|]). constructor.
Qed.
Lemma bytes_replicate n : bytes (replicate n 0xFF).
Proof. by apply Forall_replicate. Qed.
Lemma bytes_packet_header pid cc pusi n w base : bytes (packet_header pid cc pusi n w base).
Proof.
  unfold packet_header. cbv zeta. apply Forall_app. split.
  { repeat (constructor; [first [apply is_byte_u8|done]|]). constructor. }
  unfold af_field. destruct (0 <? _); [|constructor]. constructor; [apply is_byte_u8|].
  destruct (1 <? _); [|constructor]. destruct w; constructor; try done.
  - apply Forall_app. split; [apply bytes_pcr|apply bytes_replicate].
  - apply bytes_replicate.
Qed.

(** A whole transport packet. *)
Definition ts_packet (p : list Z) : Prop :=
  bytes p ∧ length p = 188%nat ∧ p !! 0%nat = Some TS_SYNC_BYTE.

Lemma ts_packet_header pid cc pusi n w base payload :
  lenZ payload = n → n + min_af w ≤ 184 → bytes payload →
  ts_packet (packet_header pid cc pusi n w base ++ payload).
Proof.
  intros Hn Hf Hb. pose proof (lenZ_nonneg payload).
  pose proof (packet_header_length pid cc pusi n w base ltac:(lia) Hf) as Hl. split_and!.
  - apply Forall_app. split; [apply bytes_packet_header|done].
  - rewrite length_app. unfold lenZ in *. lia.
  - done.
Qed.

(** The packets a PES is cut into parse back to it. *)
Lemma packetize_parses fuel pid cc first pcr base pes :
  0 ≤ pid < 2 ^ 13 → pid ≠ TS_PID_NULL → (length pes ≤ fuel)%nat → bytes pes →
  let pkts := packetize fuel pid cc first pcr base pes in
  ∃ slices, parse_packet <$> pkts = (Some ∘ Packet) <$>
      carried pid cc first (if pcr then Some (base mod 2 ^ 33) else None) slices ∧
    concat slices = pes ∧ Forall ts_packet pkts ∧ Forall (λ d, d ≠ []) slices ∧
    match slices with d :: _ => Z.min 176 (lenZ pes) ≤ lenZ d | [] => True end.
Proof.
  intros Hpid Hnull. revert cc first pes.
  induction fuel as [|fuel IH]; intros cc first pes Hf Hb.
  { destruct pes; [|cbn in Hf; lia]. exists []. by split_and!. }
  destruct (decide (pes = [])) as [->|Hne]; [exists []; by split_and!|].
  cbv zeta. rewrite packetize_cons by done. cbv zeta.
  assert (0 < lenZ pes) as Hpos by (destruct pes; [done|unfold lenZ; cbn; lia]).
  destruct (payload_capacity_bounds (lenZ pes) (first && pcr) Hpos) as [Hn Haf].
  assert (Z.min 176 (lenZ pes) ≤ payload_capacity (lenZ pes) (first && pcr)) as Hmin.
  { unfold payload_capacity, TS_PAYLOAD. destruct (first && pcr); caseb; lia. }
  set (n := payload_capacity _ _) in *. set (w := first && pcr) in *.
  assert (lenZ (take (Z.to_nat n) pes) = n) as Htake by (unfold lenZ in *; rewrite length_take; lia).
  destruct (IH (Z.land (cc + 1) 15) false (drop (Z.to_nat n) pes)) as (slices & Hp & Hc & Hw & Hnn & _);
    [rewrite length_drop; unfold lenZ in *; lia|by apply Forall_drop|].
  exists (take (Z.to_nat n) pes :: slices). split_and!.
  - cbn [fmap list_fmap carried]. rewrite Hp, carried_land. f_equal.
    rewrite parse_packet_header by done. cbn. do 3 f_equal.
    unfold w. by destruct first, pcr.
  - cbn [concat]. by rewrite Hc, take_drop.
  - constructor; [|done]. apply ts_packet_header; [done|done|by apply Forall_take].
  - constructor; [|done]. intros E. rewrite E in Htake. change (lenZ []) with 0 in Htake. lia.
  - lia.
Qed.
