(* ===== verification/TsStream.v ===== *)
(** * A muxed stream, demultiplexed

    The composition of TsMux.v and TsDemux.v: the bursts the muxer writes, fed to the
    demuxer in pieces of any size, come out as the frames that went in. *)
From S2P Require Import Prelude Bytes Store TsCrc Compat Nal Aac TsMux TsDemux TsDemuxSafe TsRoundtrip.

#[local] Arguments holds : simpl never.

(** ** Steps on one track *)

Section track.
Context (L : list N) (i : nat).
Implicit Types (s : dstate) (tk : ts_track).

Definition at_track s tk : Prop := dinv L s ∧ dx_tracks (ds_dx s) !! i = Some tk.

Lemma at_track_next s s' tk R l :
  at_track s tk → tracked L i tk R l s s' → ∃ tk', R tk tk' ∧ at_track s' tk'.
Proof.
  intros [_ Htk] Ht. destruct (tracked_lookup _ _ _ _ _ _ _ Ht Htk) as (tk' & ? & ?).
  exists tk'. split; [done|]. split; [apply Ht|done].
Qed.

Lemma tracked_alloc s s' tk R l :
  tracked L i tk R l s s' → alloc_ok (ds_store s) → alloc_ok (ds_store s').
Proof. intros [[_ Hf _] _]. apply alloc_ok_evolves, Hf. Qed.

(** One operation, and what follows it from the track it leaves. *)
Lemma wp_tracked_bind {A B} (m : D A) (k : A → D B) (R1 R : ts_track → ts_track → Prop) l1 l2 s tk :
  at_track s tk → wp m (λ _ s', tracked L i tk R1 l1 s s') s →
  (∀ a s1 tk1, tracked L i tk R1 l1 s s1 → at_track s1 tk1 → R1 tk tk1 →
     wp (k a) (λ _ s', tracked L i tk1 (λ _, R tk) l2 s1 s') s1) →
  wp (m ≫= k) (λ _ s', tracked L i tk R (l1 ++ l2) s s') s.
Proof.
  intros Hat Hm Hk. apply wp_bind. eapply wp_mono; [exact Hm|]. intros a s1 H1.
  destruct (at_track_next _ _ _ _ _ Hat H1) as (tk1 & HR & Hat1).
  eapply wp_mono; [by apply (Hk a s1 tk1)|]. intros b s2 H2.
  eapply (tracked_trans L i tk tk1 _ _ R); [exact H1|apply Hat1|apply Hat|exact H2|done].
Qed.

Lemma wp_tracked_get {B} (k : ts_track → D B) (R : ts_track → ts_track → Prop) l s tk :
  at_track s tk → wp (k tk) (λ _ s', tracked L i tk R l s s') s →
  wp (tk_get i ≫= k) (λ _ s', tracked L i tk R l s s') s.
Proof. intros [_ Htk] Hk. apply wp_bind. by eapply wp_tk_get. Qed.

Lemma wp_tracked_ret {A} (a : A) (R : ts_track → ts_track → Prop) s tk :
  at_track s tk → R tk tk → wp (mret a) (λ _ s', tracked L i tk R [] s s') s.
Proof. intros [? ?] HR. by apply wp_ret, tracked_refl. Qed.

Lemma wp_tracked_stat f (R : ts_track → ts_track → Prop) s tk :
  at_track s tk → R tk tk → wp (stat f) (λ _ s', tracked L i tk R [] s s') s.
Proof.
  intros [Hi Htk] HR. eapply (wp_stat_inv L s i); [done|]. intros s' Hi' Hf' Ho' _ Hd'.
  by apply tracked_stat.
Qed.

Lemma wp_tracked_mod f s tk :
  at_track s tk →
  (tk_ok (dx_max_au_bytes (ds_dx s)) i tk → tk_ok (dx_max_au_bytes (ds_dx s)) i (f tk)) →
  tk_config (f tk) = tk_config tk → tk_config_len (f tk) = tk_config_len tk → tk_same tk (f tk) →
  wp (tk_mod i f) (λ _ s', tracked L i tk (λ t t', t' = f t) [] s s') s.
Proof.
  intros [Hi Htk] Hok Hc Hl Hs. eapply (wp_tk_mod_inv L s); [done..|].
  intros s' Hi' Ho' _ Hd' Hf'. by apply (tracked_mod _ _ _ f).
Qed.
End track.

Lemma wp_sread {A B} (x : option A) (a : A) (k : A → D B) (Q : B → dstate → Prop) s :
  x = Some a → wp (k a) Q s → wp (sread x ≫= k) Q s.
Proof. intros. apply wp_bind. by eapply wp_read. Qed.

(** ** The payload of a PES *)

(** The track holds [au] of the PES of [f], with [rem] bytes of it to come. *)
Record holding (f : frame) (tk tk' : ts_track) (au : list Z) (rem : Z) : Prop := {
  ho_same : tk_same tk tk';
  ho_au : tk_au tk' = au;
  ho_overflow : tk_au_overflow tk' = false;
  ho_pts : tk_has_pts tk' = true ∧ tk_pts tk' = pts f mod 2 ^ 33;
  ho_dts : tk_has_dts tk' = negb (pts f =? dts f) ∧
           (pts f ≠ dts f → tk_dts tk' = dts f mod 2 ^ 33);
  ho_remaining : tk_pes_remaining tk' = rem }.

(** What the demuxer makes of the frame [f] with bytes [data] on a track. *)
Definition frame_media (codec idx : Z) (f : frame) (data : list Z)
    : list (Z * Z * Z * bool * list Z) :=
  if lenZ data =? 0 then []
  else if codec =? CODEC_AAC then adts_media (length data) idx (pts f mod 2 ^ 33) data
  else
    let us := default [] (nal_units (S (length data)) data (nal_iter_init (length data))) in
    if has_vcl codec us
    then [(idx, pts f mod 2 ^ 33, dts f mod 2 ^ 33, has_key codec us, data)] else [].

Lemma holding_media f tk tk' data rem :
  holding f tk tk' data rem →
  au_media tk' = frame_media (tk_codec tk) (tk_track_index tk) f data.
Proof.
  intros [[_ _ Hc Hx] Ha Ho [Hp Hpv] [Hd Hdv] _]. unfold au_media, frame_media.
  rewrite Ha, Ho, Hc, orb_false_r. destruct (lenZ data =? 0); [done|].
  destruct (tk_codec tk =? CODEC_AAC).
  - unfold audio_media. by rewrite Ha, Hp, Hpv, Hx.
  - unfold video_media. rewrite Ha, Hp, Hpv, Hc, Hx, Hd. cbv zeta. destruct (has_vcl _ _); [|done].
    destruct (Z.eqb_spec (pts f) (dts f)) as [E|E]; cbn [negb]; [by rewrite E|by rewrite Hdv].
Qed.

(** Between PES of bounded length, or before the first. *)
Record clear (tk tk' : ts_track) : Prop := {
  cl_same : tk_same tk tk';
  cl_au : tk_au tk' = [];
  cl_overflow : tk_au_overflow tk' = false;
  cl_remaining : tk_pes_remaining tk' = 0 }.

Lemma u64_mod33 x : u64 x mod 2 ^ 33 = x mod 2 ^ 33.
Proof. apply Z.mod_mod_divide. by exists (2 ^ 31). Qed.

Lemma be16_value x : 0 ≤ x < 65536 →
  Z.lor (Z.shiftl (u8 (Z.land (Z.shiftr x 8) 0xFF)) 8) (u8 (Z.land x 0xFF)) = x.
Proof.
  intros Hx. change 0xFF with (2 ^ 8 - 1). rewrite !land_ones, shiftr_div by done.
  unfold u8. rewrite !Zmod_mod, lor_shift by (done || by apply Z.mod_pos_bound).
  clear -Hx. Z.to_euclidean_division_equations. lia.
Qed.

(** The length field of a PES header. *)
Definition pes_total (f : frame) (n : Z) : Z := pes_header_len f - 6 + n.

Record pes_fields (bounded : bool) (f : frame) (n : Z) (p c : list Z) : Prop := {
  pf_start : p !! 0%nat = Some 0 ∧ p !! 1%nat = Some 0 ∧ p !! 2%nat = Some 1;
  pf_mark : p !! 6%nat = Some 0x80;
  pf_flags : p !! 7%nat = Some (if pts f =? dts f then 0x80 else 0xC0);
  pf_header : p !! 8%nat = Some (pes_header_len f - 9);
  pf_length : ∃ b4 b5, p !! 4%nat = Some b4 ∧ p !! 5%nat = Some b5 ∧
    Z.lor (Z.shiftl b4 8) b5 = (if bounded then pes_total f n else 0);
  pf_pts : pes_ts p 9 = Some (pts f mod 2 ^ 33);
  pf_dts : pts f ≠ dts f → pes_ts p 14 = Some (dts f mod 2 ^ 33);
  pf_data : drop (Z.to_nat (pes_header_len f)) p = c;
  pf_len : lenZ p = pes_header_len f + lenZ c }.

Lemma pes_header_fields id bounded f n c :
  0 ≤ n → (bounded = true → pes_total f n < 65536) →
  pes_fields bounded f n (pes_header id bounded f n ++ c) c.
Proof.
  intros Hn Hb. assert (3 + (pes_header_len f - 9) + n = pes_total f n) as Ht
    by (unfold pes_total; lia).
  assert (0 ≤ pes_total f n) as H0 by (unfold pes_total, pes_header_len; destruct (_ =? _); lia).
  pose proof (pes_header_length id bounded f n) as Hlen.
  split.
  - done.
  - by destruct bounded.
  - by destruct bounded.
  - unfold pes_header, pes_header_len. by destruct bounded, (pts f =? dts f).
  - unfold pes_header. rewrite Ht. destruct bounded.
    + eexists _, _. split_and!; [reflexivity..|]. apply be16_value. split; [done|by apply Hb].
    + exists 0, 0. done.
  - rewrite <- u64_mod33. apply (pes_ts_roundtrip (if pts f =? dts f then 2 else 3)).
    + destruct (_ =? _); lia.
    + unfold pes_header. destruct bounded, (pts f =? dts f); done.
  - intros Hne%Z.eqb_neq. rewrite <- u64_mod33. apply (pes_ts_roundtrip 1); [done|].
    unfold pes_header. destruct bounded; by rewrite Hne.
  - apply drop_header. unfold lenZ in Hlen. lia.
  - by rewrite lenZ_app, Hlen.
Qed.

(** ** The first packet of a PES *)

Section pes.
Context (L : list N) (i : nat).
Implicit Types (s : dstate) (tk : ts_track).

Lemma wp_append_fits s tk data :
  at_track L i s tk → bytes data → alloc_ok (ds_store s) →
  lenZ (tk_au tk) + lenZ data ≤ dx_max_au_bytes (ds_dx s) →
  wp (au_append i data) (λ _ s', tracked L i tk (λ t t', tk_grown t t' ∧
    tk_au t' = tk_au t ++ data ∧ tk_au_overflow t' = tk_au_overflow t) [] s s') s.
Proof.
  intros [Hi Htk] Hb Ha Hfit. eapply wp_mono; [by apply wp_au_append|]. intros [] s' Htr.
  eapply tracked_mono; [exact Htr|]. intros tk' [Hg H]. split; [done|]. by apply H.
Qed.

Lemma wp_flush_holding s tk0 tk f data :
  at_track L i s tk → holding f tk0 tk data 0 →
  wp (au_flush i) (λ _ s', tracked L i tk (λ _, clear tk0)
    (frame_media (tk_codec tk0) (tk_track_index tk0) f data) s s') s.
Proof.
  intros [Hi Htk] Hh. eapply wp_mono; [by apply wp_au_flush|]. intros [] s' Htr.
  rewrite <- (holding_media f tk0 tk data 0) by done. eapply tracked_mono; [exact Htr|].
  intros tk' [Hs Ha Ho _ Hr]. split; [|done|done|by rewrite Hr; apply Hh].
  etrans; [apply Hh|exact Hs].
Qed.

Lemma holding_grown f tk tk1 tk2 au data rem :
  holding f tk tk1 au rem → tk_grown tk1 tk2 → tk_au tk2 = tk_au tk1 ++ data →
  tk_au_overflow tk2 = false → holding f tk tk2 (au ++ data) rem.
Proof.
  intros [Hs Ha Ho [? ?] [? ?] Hr] Hg Ha2 Ho2. rewrite Ha in Ha2.
  assert (tk_same tk1 tk2) by (by apply tk_grown_same). rewrite Hg in *. by split; [by etrans|..].
Qed.

Lemma holding_remaining f tk tk1 au rem rem' :
  holding f tk tk1 au rem → holding f tk (tk1 <| tk_pes_remaining := rem' |>) au rem'.
Proof. intros [[] ? ? ? ? ?]. by split; [split|..]. Qed.

(** Appending a piece of a bounded PES, the last piece flushing. *)
Lemma wp_piece s tk tk1 f au c rest rem :
  at_track L i s tk1 → holding f tk tk1 au rem → bytes c → alloc_ok (ds_store s) →
  lenZ au + lenZ c ≤ dx_max_au_bytes (ds_dx s) →
  wp (_ ← tk_mod i (λ tk, tk <| tk_pes_remaining := lenZ rest |>);
      _ ← au_append i c;
      tk ← tk_get i;
      if tk_pes_remaining tk =? 0 then au_flush i else mret tt)
    (λ _ s', tracked L i tk1 (λ _ t', if lenZ rest =? 0 then clear tk t'
                                      else holding f tk t' (au ++ c) (lenZ rest))
      (if lenZ rest =? 0 then frame_media (tk_codec tk) (tk_track_index tk) f (au ++ c) else []) s s') s.
Proof.
  intros Hat Hh Hb Ha Hfit. pose proof (lenZ_nonneg rest) as Hr.
  set (l := if lenZ rest =? 0 then _ else []). change l with ([] ++ l).
  eapply wp_tracked_bind; [exact Hat| |].
  { apply wp_tracked_mod; [done| |done..|]; [by intros []; split|by split]. }
  intros [] s1 tk2 Htr1 Hat1 ->. pose proof (holding_remaining _ _ _ _ _ (lenZ rest) Hh) as Hh1.
  change l with ([] ++ l). eapply wp_tracked_bind; [exact Hat1| |].
  { apply wp_append_fits; [done|done|by eapply tracked_alloc|].
    rewrite (tracked_max _ _ _ _ _ _ _ Htr1), (ho_au _ _ _ _ _ Hh1). done. }
  intros [] s2 tk3 Htr2 Hat2 (Hg & Ha3 & Ho3).
  assert (holding f tk tk3 (au ++ c) (lenZ rest)) as Hh3
    by (eapply holding_grown; [exact Hh1|done|done|by rewrite Ho3; apply Hh1]).
  apply wp_tracked_get with (tk := tk3); [done|]. rewrite (ho_remaining _ _ _ _ _ Hh3). unfold l.
  destruct (Z.eqb_spec (lenZ rest) 0) as [E|E].
  - rewrite E in Hh3. by apply (wp_flush_holding s2 tk tk3).
  - by apply wp_tracked_ret.
Qed.

(** The track with [au] of the [data] of [f] received and [rest] to come: a bounded PES is
    flushed with its last byte. *)
Definition pes_at (bounded : bool) (f : frame) (au rest : list Z) (tk0 tk : ts_track) : Prop :=
  if bounded && (lenZ rest =? 0) then clear tk0 tk
  else holding f tk0 tk au (if bounded then lenZ rest else 0).
Definition pes_out (bounded : bool) (f : frame) (data rest : list Z) (tk0 : ts_track) :=
  if bounded && (lenZ rest =? 0)
  then frame_media (tk_codec tk0) (tk_track_index tk0) f data else [].

Lemma wp_pes_start s tk bounded f data p c rest :
  at_track L i s tk → tk_au tk = [] → tk_au_overflow tk = false →
  pes_fields bounded f (lenZ data) p c → data = c ++ rest → bytes p →
  (bounded = true → pes_total f (lenZ data) < 65536) →
  alloc_ok (ds_store s) → lenZ data ≤ dx_max_au_bytes (ds_dx s) →
  wp (pes_start i p) (λ _ s', tracked L i tk (pes_at bounded f c rest)
    (pes_out bounded f data rest tk) s s') s.
Proof.
  intros Hat Hau Hov [(H0 & H1 & H2) H6 H7 H8 (b4 & b5 & H4 & H5 & Hlen) Hpts Hdts Hdata Hl]
    Hsplit Hb Hbnd Ha Hmax.
  assert (bytes c) as Hbc by (rewrite <- Hdata; by apply Forall_drop).
  pose proof (lenZ_nonneg c) as Hc0. pose proof (lenZ_nonneg rest) as Hr0.
  assert (lenZ data = lenZ c + lenZ rest) as Hd by (by rewrite Hsplit, lenZ_app).
  assert (pes_header_len f = if pts f =? dts f then 14 else 19) as Hh by done.
  unfold pes_start, pes_error. cbv zeta.
  set (R := pes_at bounded f c rest). set (l := pes_out bounded f data rest tk).
  change l with ([] ++ l). eapply wp_tracked_bind; [exact Hat| |].
  { apply wp_tracked_mod; [done| |done..|]; [by intros []; split|by split]. }
  intros [] s1 tk1 Htr1 Hat1 ->. rewrite (proj2 (Z.ltb_ge _ _)) by (destruct (_ =? _); lia).
  do 4 (eapply wp_sread; [eassumption|]).
  change (negb (0 =? 0) || negb (0 =? 0) || negb (1 =? 1) || negb (Z.land 128 192 =? 128)) with false.
  cbv iota. do 2 (eapply wp_sread; [eassumption|]).
  replace (9 + (pes_header_len f - 9)) with (pes_header_len f) by lia.
  rewrite (proj2 (Z.ltb_ge _ (pes_header_len f))) by lia.
  assert (negb (Z.land (if pts f =? dts f then 128 else 192) 128 =? 0) = true) as -> by (by destruct (_ =? _)).
  rewrite (proj2 (Z.ltb_ge _ 14)) by (destruct (_ =? _); lia). cbn [andb].
  change l with ([] ++ l). eapply wp_tracked_bind; [exact Hat1| |].
  { eapply wp_sread; [exact Hpts|]. apply wp_tracked_mod; [done| |done..|]; [by intros []; split|by split]. }
  intros [] s2 tk2 Htr2 Hat2 ->.
  assert ((Z.land (if pts f =? dts f then 128 else 192) 192 =? 192) = negb (pts f =? dts f)) as ->
    by (by destruct (pts f =? dts f)).
  assert ((negb (pts f =? dts f) && (lenZ p <? 19)) = false) as ->.
  { destruct (pts f =? dts f); [done|]. cbn [negb andb]. apply Z.ltb_ge. lia. }
  change l with ([] ++ l). eapply (wp_tracked_bind _ _ _ _ (λ _ t', holding f tk t' [] 0)); [exact Hat2| |].
  { destruct (Z.eqb_spec (pts f) (dts f)) as [E|E]; cbn [negb].
    - apply wp_tracked_ret; [exact Hat2|]. split; try done. cbn. by rewrite E, Z.eqb_refl.
    - eapply wp_sread; [by apply Hdts|]. eapply wp_mono.
      + apply wp_tracked_mod; [done| |done..|]; [by intros []; split|by split].
      + intros [] s' Htr. eapply tracked_mono; [exact Htr|]. intros ? ->.
        split; try done. cbn. by rewrite (proj2 (Z.eqb_neq _ _) E). }
  intros [] s3 tk3 Htr3 Hat3 Hh3. do 2 (eapply wp_sread; [eassumption|]). rewrite Hlen, Hdata.
  pose proof (tracked_alloc _ _ _ _ _ _ _ Htr1 Ha) as Ha1.
  pose proof (tracked_alloc _ _ _ _ _ _ _ Htr2 Ha1) as Ha2.
  pose proof (tracked_alloc _ _ _ _ _ _ _ Htr3 Ha2) as Ha3.
  assert (dx_max_au_bytes (ds_dx s3) = dx_max_au_bytes (ds_dx s)) as Hmax3
    by (by rewrite (tracked_max _ _ _ _ _ _ _ Htr3), (tracked_max _ _ _ _ _ _ _ Htr2),
          (tracked_max _ _ _ _ _ _ _ Htr1)).
  unfold R, l, pes_at, pes_out. clear R l Htr1 Htr2 Htr3 Hat1 Hat2. destruct bounded; cbn [andb].
  - assert (lenZ p - pes_header_len f = lenZ c) as -> by lia.
    rewrite (proj2 (Z.ltb_lt 0 _)), (proj2 (Z.ltb_ge (pes_total _ _) _))
      by (unfold pes_total; destruct (_ =? _); lia).
    replace (pes_total f (lenZ data) - 3 - (pes_header_len f - 9)) with (lenZ data)
      by (unfold pes_total; lia).
    rewrite (proj2 (Z.ltb_ge (lenZ data) _)) by lia.
    replace (lenZ data - lenZ c) with (lenZ rest) by lia.
    rewrite (take_ge c) by (unfold lenZ; lia).
    assert ((if lenZ rest =? 0 then frame_media (tk_codec tk) (tk_track_index tk) f data else [])
      = if lenZ rest =? 0 then frame_media (tk_codec tk) (tk_track_index tk) f ([] ++ c) else []) as ->.
    { destruct (Z.eqb_spec (lenZ rest) 0) as [E%lenZ_nil|]; [|done]. by rewrite Hsplit, E, app_nil_r. }
    apply (wp_piece s3 tk tk3 f [] c rest 0); [done..|]. rewrite Hmax3. change (lenZ []) with 0. lia.
  - rewrite (proj2 (Z.ltb_ge 0 0)) by done. eapply wp_mono; [apply wp_append_fits; [done..|]|].
    + rewrite (ho_au _ _ _ _ _ Hh3), Hmax3. change (lenZ []) with 0. lia.
    + intros [] s' Htr. eapply tracked_mono; [exact Htr|]. intros tk' (Hg & Ha' & Ho').
      apply (holding_grown f tk tk3 tk' []); [done..|by rewrite Ho'; apply Hh3].
Qed.

(** ** The following packets *)

Lemma wp_pes_more s tk tk1 (bounded : bool) f data au d rest :
  at_track L i s tk1 → holding f tk tk1 au (if bounded then lenZ (d ++ rest) else 0) →
  data = au ++ d ++ rest → bytes d → d ≠ [] → (bounded = false → au ≠ []) →
  alloc_ok (ds_store s) → lenZ data ≤ dx_max_au_bytes (ds_dx s) →
  wp (process_pes i false d) (λ _ s', tracked L i tk1
    (λ _, pes_at bounded f (au ++ d) rest tk) (pes_out bounded f data rest tk) s s') s.
Proof.
  intros Hat Hh Hdata Hb Hd Hau Ha Hmax. unfold process_pes.
  assert (0 < lenZ d) as Hd0 by (destruct d; [done|unfold lenZ; cbn; lia]).
  pose proof (lenZ_nonneg rest) as Hr0. pose proof (lenZ_nonneg au) as Ha0.
  assert (lenZ data = lenZ au + (lenZ d + lenZ rest)) as Hl by (by rewrite Hdata, !lenZ_app).
  rewrite lenZ_app in Hh.
  apply wp_tracked_get with (tk := tk1); [done|]. cbv zeta.
  rewrite (ho_remaining _ _ _ _ _ Hh), (ho_overflow _ _ _ _ _ Hh), (ho_au _ _ _ _ _ Hh).
  set (rem := if bounded then lenZ d + lenZ rest else 0) in *.
  assert ((0 <? lenZ au) || false || (0 <? rem) = true) as ->.
  { unfold rem. destruct bounded; rewrite orb_false_r, orb_true_iff, !Z.ltb_lt; [right; lia|left].
    destruct au; [by specialize (Hau eq_refl)|unfold lenZ; cbn; lia]. }
  assert ((if (0 <? rem) && (rem <? lenZ d) then rem else lenZ d) = lenZ d) as ->.
  { unfold rem. destruct bounded; [|done]. rewrite (proj2 (Z.ltb_ge (_ + _) _)) by lia.
    by rewrite andb_false_r. }
  rewrite (take_ge d) by (unfold lenZ; lia).
  set (l := pes_out bounded f data rest tk). change l with ([] ++ l).
  eapply wp_tracked_bind; [exact Hat| |].
  { apply wp_append_fits; [done|done|done|]. rewrite (ho_au _ _ _ _ _ Hh). lia. }
  intros [] s1 tk2 Htr1 Hat1 (Hg & Ha2 & Ho2).
  assert (holding f tk tk2 (au ++ d) rem) as Hh2
    by (eapply holding_grown; [exact Hh|done|done|by rewrite Ho2; apply Hh]).
  unfold l, pes_at, pes_out, rem in *. clear l rem Hg Ha2 Ho2. destruct bounded; cbn [andb].
  2: { rewrite (proj2 (Z.ltb_ge 0 0)) by done. by apply wp_tracked_ret. }
  rewrite (proj2 (Z.ltb_lt 0 _)) by lia. replace (lenZ d + lenZ rest - lenZ d) with (lenZ rest) by lia.
  set (l := if lenZ rest =? 0 then _ else []). change l with ([] ++ l).
  eapply wp_tracked_bind; [exact Hat1| |].
  { apply wp_tracked_mod; [done| |done..|]; [by intros []; split|by split]. }
  intros [] s2 tk3 Htr2 Hat2 ->. pose proof (holding_remaining _ _ _ _ _ (lenZ rest) Hh2) as Hh3.
  unfold l. destruct (Z.eqb_spec (lenZ rest) 0) as [E|E]; [|by apply wp_tracked_ret].
  rewrite E in Hh3, Hat2 |- *. replace data with (au ++ d); [by apply (wp_flush_holding s2 tk)|].
  by rewrite Hdata, (lenZ_nil rest E), app_nil_r.
Qed.

(** The first packet, behind whatever the track still held. *)
Lemma wp_pes_first s tk bounded f data p c rest :
  at_track L i s tk →
  pes_fields bounded f (lenZ data) p c → data = c ++ rest → bytes p →
  (bounded = true → pes_total f (lenZ data) < 65536) →
  alloc_ok (ds_store s) → lenZ data ≤ dx_max_au_bytes (ds_dx s) →
  wp (process_pes i true p) (λ _ s', tracked L i tk (pes_at bounded f c rest)
    (au_media tk ++ pes_out bounded f data rest tk) s s') s.
Proof.
  intros Hat Hp Hdata Hb Hbnd Ha Hmax. unfold process_pes.
  eapply wp_tracked_bind; [exact Hat|by apply wp_au_flush; apply Hat|].
  intros [] s1 tk1 Htr1 Hat1 [Hs Hau Hov _ _].
  assert (pes_out bounded f data rest tk = pes_out bounded f data rest tk1) as ->.
  { unfold pes_out. destruct Hs as [_ _ -> ->]. done. }
  eapply wp_mono; [apply (wp_pes_start s1 tk1 bounded f data p c rest); [done..| |]|].
  - by eapply tracked_alloc.
  - by rewrite (tracked_max _ _ _ _ _ _ _ Htr1).
  - intros [] s2 Htr2. eapply tracked_mono; [exact Htr2|]. intros tk2. unfold pes_at.
    destruct (bounded && _).
    + intros [? ? ? ?]. split; [by etrans|done..].
    + intros [? ? ? ? ? ?]. split; [by etrans|done..].
Qed.
End pes.

(** ** Packets of a stream *)

(** Counters and the carried-over tail do not matter to what a packet does. *)
Definition bump (x : demux_stats) (t : list Z) (s : dstate) : dstate :=
  s <| ds_dx := (ds_dx s) <| dx_stats := x |> <| dx_tail := t |> |>.

Definition fit (s : dstate) : Prop :=
  dx_live (ds_dx s) = true ∧ bytes (dx_tail (ds_dx s)) ∧ (length (dx_tail (ds_dx s)) < 188)%nat.
Lemma dinv_fit L s : dinv L s → fit s.
Proof. by intros [[] _ _ _]. Qed.

(** Processing [pkts] one by one leads to [Q], whatever happens to the counters and the
    tail in between. *)
Fixpoint runs (pkts : list (list Z)) (Q : dstate → Prop) (s : dstate) : Prop :=
  match pkts with
  | [] => Q s
  | p :: pkts =>
      wp (process_packet p) (λ _ s', fit s' ∧
        ∀ x t, bytes t → (length t < 188)%nat → runs pkts Q (bump x t s')) s
  end.

Lemma runs_app a b Q s : runs a (runs b Q) s → runs (a ++ b) Q s.
Proof.
  revert s. induction a as [|p a IH]; intros s; [done|]. cbn [app runs]. intros H.
  eapply wp_mono; [exact H|]. intros [] s' [? Hr]. split; [done|]. intros x t Hb Hl. by apply IH, Hr.
Qed.
Lemma runs_mono pkts (Q Q' : dstate → Prop) s :
  runs pkts Q s → (∀ s', Q s' → Q' s') → runs pkts Q' s.
Proof.
  revert s. induction pkts as [|p pkts IH]; intros s H HQ; [by apply HQ|]. cbn [runs].
  eapply wp_mono; [exact H|]. intros [] s' [? Hr]. split; [done|]. intros x t Hb Hl. by apply IH; [apply Hr|].
Qed.

Definition tk_sig (tk : ts_track) : Z * Z * Z := (tk_pid tk, tk_stream_type tk, tk_codec tk).

Section stream.
Context (ma mt : Z) (L : list N) (P : Z) (sig : list (Z * Z * Z)).

(** The tables are known: the tracks are those of [sig] and the PMT is on [P]. *)
Record streaming (s : dstate) : Prop := {
  sg_settled : settled ma mt L s;
  sg_alloc : alloc_ok (ds_store s);
  sg_pat : dx_pat_valid (ds_dx s) = true;
  sg_pmt : dx_pmt_pid (ds_dx s) = P;
  sg_tracks : tk_sig <$> dx_tracks (ds_dx s) = sig }.

Lemma op_frame_bump i s x t : op_frame i s (bump x t s).
Proof.
  split; [by destruct s as [[] ? ?]| |done]. intros tk Htk. exists tk. split; [|done].
  unfold bump. cbn [ds_dx dx_tracks setf]. by rewrite list_insert_id.
Qed.
Lemma tracked_bump i tk R l s s' x t :
  bytes t → (length t < 188)%nat → tracked L i tk R l s s' → tracked L i tk R l s (bump x t s').
Proof.
  intros Hb Hl [[Hi Hf Ho] Ht]. split; [split; [|by eapply op_frame_trans, op_frame_bump|done]|done].
  destruct Hi as [[] ? ? ?]. by split; [split|..].
Qed.
Lemma streaming_bump s x t :
  bytes t → (length t < 188)%nat → streaming s → streaming (bump x t s).
Proof.
  intros Hb Hl [(Hi & ? & ?) ? ? ? ?]. split; try done. split; [|by split].
  destruct Hi as [[] ? ? ?]. by split; [split|..].
Qed.

Lemma streaming_tracked s s' i tk R l :
  streaming s → dx_tracks (ds_dx s) !! i = Some tk → tracked L i tk R l s s' → streaming s'.
Proof.
  intros [Hs Ha Hpat Hpmt Hsig] Htk Htr. pose proof Htr as [[Hi Hf _] _]. split.
  - by eapply settled_frame.
  - by eapply tracked_alloc.
  - by rewrite (opf_dx _ _ _ Hf).
  - by rewrite (opf_dx _ _ _ Hf).
  - destruct (opf_tracks _ _ _ Hf _ Htk) as (tk' & -> & [Hp Ht Hc _]).
    rewrite list_fmap_insert, Hsig. apply list_insert_id. rewrite <- Hsig, list_lookup_fmap, Htk.
    cbn. unfold tk_sig. by rewrite Hp, Ht, Hc.
Qed.

Lemma track_by_pid_eq tracks i0 i tk :
  NoDup (tk_pid <$> tracks) → tracks !! i = Some tk →
  track_by_pid tracks (tk_pid tk) i0 = Some (i0 + i)%nat.
Proof.
  revert i0 i. induction tracks as [|t tracks IH]; intros i0 i Hnd Hi; [done|]. cbn [track_by_pid].
  apply NoDup_cons in Hnd as [Hnin Hnd]. destruct i as [|i].
  - injection Hi as ->. by rewrite Z.eqb_refl, Nat.add_0_r.
  - destruct (Z.eqb_spec (tk_pid t) (tk_pid tk)) as [E|].
    + destruct Hnin. rewrite E. apply list_elem_of_fmap. exists tk. split; [done|].
      by eapply list_elem_of_lookup_2.
    + rewrite (IH (S i0) i) by done. f_equal. lia.
Qed.

Lemma wp_track_packet s i tk pkt k d (R : ts_track → Prop) l :
  streaming s → dx_tracks (ds_dx s) !! i = Some tk → NoDup sig.*1.*1 → tk_pid tk = pk_pid k →
  pk_pid k ≠ TS_PID_PAT → pk_pid k ≠ P → parse_packet pkt = Some (Packet k) →
  pk_payload k = Some d →
  (∀ s1 cc v, at_track L i s1 (tk <| tk_cc := cc |> <| tk_cc_valid := v |>) →
     alloc_ok (ds_store s1) → dx_max_au_bytes (ds_dx s1) = ma →
     wp (process_pes i (pk_pusi k) d) (λ _ s', tracked L i (tk <| tk_cc := cc |> <| tk_cc_valid := v |>)
       (λ _, R) l s1 s') s1) →
  wp (process_packet pkt) (λ _ s', tracked L i tk (λ _, R) l s s') s.
Proof.
  intros Hs Htk Hnd Hpid H0 HP Hparse Hd Hk. unfold process_packet.
  assert (∀ s1, tracked L i tk (λ t t', t' = t) [] s s1 → streaming s1 ∧ at_track L i s1 tk) as Hsame.
  { intros s1 Htr. split; [by eapply streaming_tracked|].
    destruct (at_track_next L i s s1 tk _ _ (conj (proj1 (sg_settled _ Hs)) Htk) Htr) as (? & -> & ?). done. }
  change l with ([] ++ l). eapply wp_tracked_bind.
  { by split; [apply Hs|]. }
  { eapply wp_mono; [apply (wp_tracked_stat L i _ (λ t t', t' = t))|]; [by split; [apply Hs|]|done|].
    intros [] s' Htr. exact Htr. }
  intros [] s1 tk1 Htr1 Hat1 ->. destruct (Hsame _ Htr1) as [Hs1 _].
  eapply wp_sread; [exact Hparse|].
  change l with ([] ++ l). eapply (wp_tracked_bind _ _ _ _ (λ t t', t' = t)); [exact Hat1| |].
  { destruct (pk_pcr k); [by apply wp_tracked_stat|by apply wp_tracked_ret]. }
  intros [] s2 tk2 Htr2 Hat2 ->. pose proof (streaming_tracked _ _ _ _ _ _ Hs1 (proj2 Hat1) Htr2) as Hs2.
  apply wp_bind, wp_dx_get, wp_bind, wp_dx_get. rewrite (sg_pat _ Hs2), (sg_pmt _ Hs2).
  rewrite (proj2 (Z.eqb_neq _ _) H0), (proj2 (Z.eqb_neq _ _) HP). cbn [andb].
  apply wp_bind, wp_dx_get. rewrite <- Hpid, (track_by_pid_eq _ 0 i tk); [|..|apply Hat2].
  2: { rewrite <- (sg_tracks _ Hs2), <- !list_fmap_compose in Hnd. exact Hnd. }
  unfold process_track. apply wp_tracked_get with (tk := tk); [done|]. cbv zeta.
  destruct (cc_check _ _ _ _) as [[r cc] valid].
  change (0 + i)%nat with i. change l with ([] ++ l). eapply wp_tracked_bind; [exact Hat2| |].
  { apply wp_tracked_mod; [done| |done..|]; [by intros []; split|by split]. }
  intros [] s3 tk3 Htr3 Hat3 ->.
  change l with ([] ++ l). eapply (wp_tracked_bind _ _ _ _ (λ t t', t' = t)); [exact Hat3| |].
  { destruct (_ && _); [by apply wp_tracked_stat|by apply wp_tracked_ret]. }
  intros [] s4 tk4 Htr4 Hat4 ->. rewrite Hd. eapply wp_mono; [apply Hk; [exact Hat4| |]|done].
  - eapply tracked_alloc; [exact Htr4|]. eapply tracked_alloc; [exact Htr3|]. apply Hs2.
  - rewrite (tracked_max _ _ _ _ _ _ _ Htr4), (tracked_max _ _ _ _ _ _ _ Htr3). apply Hs2.
Qed.

(** ** The packets of a frame *)

Lemma carried_head pid cc first pcr d slices pkts :
  parse_packet <$> pkts = (Some ∘ Packet) <$> carried pid cc first pcr (d :: slices) →
  ∃ p pkts', pkts = p :: pkts' ∧
    parse_packet p = Some (Packet (mk_packet pid first (Z.land cc 15) false
      (if first then pcr else None) (Some d))) ∧
    parse_packet <$> pkts' = (Some ∘ Packet) <$> carried pid (cc + 1) false pcr slices.
Proof. destruct pkts as [|p pkts]; [done|]. intros [= Hp Hr]. by exists p, pkts. Qed.

Lemma concat_nonempty (slices : list (list Z)) :
  Forall (λ d, d ≠ []) slices → slices ≠ [] → lenZ (concat slices) ≠ 0.
Proof.
  intros Hne Hs. destruct slices as [|d slices]; [done|]. apply Forall_cons in Hne as [Hd _].
  cbn [concat]. rewrite lenZ_app. pose proof (lenZ_nonneg (concat slices)).
  destruct d; [done|]. unfold lenZ. cbn. lia.
Qed.

(** The PID and the bounds a frame's packets are sent under. *)
Record track_for (s : dstate) (i : nat) (tk : ts_track) (pid : Z) : Prop := {
  tf_track : dx_tracks (ds_dx s) !! i = Some tk;
  tf_pid : tk_pid tk = pid ∧ pid ≠ TS_PID_PAT ∧ pid ≠ P;
  tf_nodup : NoDup sig.*1.*1 }.

Lemma runs_more s i tk0 tk (bounded : bool) f data au pid cc pcr slices pkts :
  streaming s → track_for s i tk pid → slices ≠ [] → Forall (λ d, d ≠ []) slices →
  parse_packet <$> pkts = (Some ∘ Packet) <$> carried pid cc false pcr slices →
  holding f tk0 tk au (if bounded then lenZ (concat slices) else 0) →
  data = au ++ concat slices → bytes data → (bounded = false → au ≠ []) → lenZ data ≤ ma →
  runs pkts (λ s', streaming s' ∧ tracked L i tk (λ _, pes_at bounded f data [] tk0)
    (pes_out bounded f data [] tk0) s s') s.
Proof.
  revert s tk au cc pkts. induction slices as [|d slices IH]; intros s tk au cc pkts Hs Hfor Hne Hnn
    Hparse Hh Hdata Hb Hau Hma; [done|]. clear Hne.
  apply carried_head in Hparse as (p & pkts' & -> & Hp & Hparse). apply Forall_cons in Hnn as [Hd Hnn].
  destruct Hfor as [Htk (Hpid & H0 & HP) Hnd]. cbn [concat] in *. set (rest := concat slices) in *.
  assert (bytes d) as Hbd. { rewrite Hdata in Hb. by apply Forall_app in Hb as [_ [? _]%Forall_app]. }
  cbn [runs]. eapply wp_mono.
  { eapply (wp_track_packet s i tk p (mk_packet pid false (Z.land cc 15) false None (Some d)) d (pes_at bounded f (au ++ d) rest tk0)
      (pes_out bounded f data rest tk0)); [done..|].
    cbn [pk_pusi]. intros s1 c v Hat1 Ha1 Hm1. eapply wp_mono.
    - eapply (wp_pes_more L i s1 tk0 _ bounded f data au d rest); [exact Hat1| |done..|by rewrite Hm1].
      destruct Hh as [[] ? ? ? ? ?]. by split; [split|..].
    - intros [] s2 H2. exact H2. }
  intros [] s1 Htr1. assert (fit s1) as Hlive by apply (dinv_fit L), Htr1. split; [done|].
  intros x t Hbt Hlt. apply (tracked_bump i tk _ _ _ _ x t Hbt Hlt) in Htr1.
  pose proof (streaming_tracked _ _ _ _ _ _ Hs Htk Htr1) as Hs1. set (s2 := bump x t s1) in *. clearbody s2.
  destruct slices as [|d' slices'].
  { destruct pkts'; [|done]. cbn [runs]. split; [done|]. subst rest. cbn [concat] in *.
    rewrite app_nil_r in Hdata. by rewrite Hdata in Htr1 |- *. }
  destruct (at_track_next L i s s2 tk _ _ (conj (proj1 (sg_settled _ Hs)) Htk) Htr1) as (tk1 & HR & Hat1).
  pose proof (concat_nonempty (d' :: slices') Hnn ltac:(done)) as Hrest. fold rest in Hrest.
  unfold pes_at, pes_out in HR, Htr1. rewrite (proj2 (Z.eqb_neq _ _) Hrest), andb_false_r in HR, Htr1.
  eapply runs_mono.
  - eapply (IH s2 tk1 (au ++ d)); [done| |done|done|exact Hparse|exact HR| |done| |done].
    + split; [apply Hat1| |done]. split; [|done]. destruct HR as [[Hp1 _ _ _] _ _ _ _ _].
      destruct Hh as [[Hp0 _ _ _] _ _ _ _ _]. congruence.
    + by rewrite <- app_assoc.
    + intros Hf%Hau. by destruct au.
  - intros s3 [Hs3 Htr3]. split; [done|].
    eapply (tracked_trans L i tk tk1 _ _ _ []); [exact Htr1|apply Hat1|exact Htk|exact Htr3|done].
Qed.

Lemma pes_at_cc bounded f au rest tk cc v tk' :
  pes_at bounded f au rest (tk <| tk_cc := cc |> <| tk_cc_valid := v |>) tk' →
  pes_at bounded f au rest tk tk'.
Proof.
  unfold pes_at. destruct (bounded && _); [intros [[] ? ? ?]|intros [[] ? ? ? ? ?]];
    by split; [split|..].
Qed.

Lemma first_slice (header data d : list Z) (slices : list (list Z)) :
  concat (d :: slices) = header ++ data → (length header ≤ length d)%nat →
  ∃ c, d = header ++ c ∧ data = c ++ concat slices.
Proof.
  intros Hc Hl. cbn [concat] in Hc. exists (drop (length header) d).
  assert (take (length header) d = header) as Ht.
  { apply (f_equal (take (length header))) in Hc. rewrite take_app_length, take_app_le in Hc; done. }
  split; [by rewrite <- Ht at 1; rewrite take_drop|].
  rewrite <- (take_drop (length header) d), Ht, <- app_assoc in Hc. by apply app_inv_head in Hc.
Qed.

Lemma runs_frame s i tk id (bounded : bool) f data pid cc pcr slices pkts :
  streaming s → track_for s i tk pid → Forall (λ d, d ≠ []) slices →
  parse_packet <$> pkts = (Some ∘ Packet) <$> carried pid cc true pcr slices →
  let pes := pes_header id bounded f (lenZ data) ++ data in
  concat slices = pes → bytes pes →
  match slices with d :: _ => Z.min 176 (lenZ pes) ≤ lenZ d | [] => True end →
  (bounded = true → pes_total f (lenZ data) < 65536) → lenZ data ≤ ma →
  runs pkts (λ s', streaming s' ∧ tracked L i tk (pes_at bounded f data [])
    (au_media tk ++ pes_out bounded f data [] tk) s s') s.
Proof.
  intros Hs Hfor Hnn Hparse pes Hconcat Hb Hfirst Hbnd Hma.
  pose proof (pes_header_length id bounded f (lenZ data)) as Hhl.
  assert (14 ≤ pes_header_len f ≤ 19) as Hh by (unfold pes_header_len; destruct (_ =? _); lia).
  pose proof (lenZ_nonneg data) as Hd0.
  destruct slices as [|d slices]; [unfold pes in Hconcat; by destruct bounded|].
  destruct (first_slice (pes_header id bounded f (lenZ data)) data d slices) as (c & Hd & Hdata);
    [done|unfold pes in Hfirst; rewrite lenZ_app in Hfirst; unfold lenZ in *; lia|].
  apply carried_head in Hparse as (p & pkts' & -> & Hp & Hparse). apply Forall_cons in Hnn as [_ Hnn].
  pose proof Hfor as [Htk (Hpid & H0 & HP) Hnd].
  assert (bytes d ∧ bytes data) as [Hbd Hbdata].
  { split; [|by apply Forall_app in Hb as [_ ?]]. rewrite <- Hconcat in Hb. cbn [concat] in Hb.
    by apply Forall_app in Hb as [? _]. }
  set (rest := concat slices) in *.
  assert (pes_fields bounded f (lenZ data) d c) as Hf by (rewrite Hd; by apply pes_header_fields).
  cbn [runs]. eapply wp_mono.
  { eapply (wp_track_packet s i tk p (mk_packet pid true (Z.land cc 15) false pcr (Some d)) d
      (pes_at bounded f c rest tk) (au_media tk ++ pes_out bounded f data rest tk)); [done..|].
    cbn [pk_pusi]. intros s1 cc' v Hat1 Ha1 Hm1. eapply wp_mono.
    - eapply (wp_pes_first L i s1 _ bounded f data d c rest); [exact Hat1|done..|by rewrite Hm1].
    - intros [] s2 H2. eapply tracked_mono; [exact H2|]. intros tk'. apply pes_at_cc. }
  intros [] s1 Htr1. assert (fit s1) as Hlive by apply (dinv_fit L), Htr1. split; [done|].
  intros x t Hbt Hlt. apply (tracked_bump i tk _ _ _ _ x t Hbt Hlt) in Htr1.
  pose proof (streaming_tracked _ _ _ _ _ _ Hs Htk Htr1) as Hs1. set (s2 := bump x t s1) in *. clearbody s2.
  destruct slices as [|d' slices'].
  { destruct pkts'; [|done]. cbn [runs]. split; [done|]. subst rest. cbn [concat] in *.
    rewrite app_nil_r in Hdata. by rewrite Hdata in Htr1 |- *. }
  destruct (at_track_next L i s s2 tk _ _ (conj (proj1 (sg_settled _ Hs)) Htk) Htr1) as (tk1 & HR & Hat1).
  pose proof (concat_nonempty (d' :: slices') Hnn ltac:(done)) as Hrest. fold rest in Hrest.
  unfold pes_at in HR, Htr1. unfold pes_out at 1 in Htr1.
  rewrite (proj2 (Z.eqb_neq _ _) Hrest), andb_false_r in HR, Htr1. rewrite app_nil_r in Htr1.
  eapply runs_mono.
  - apply (runs_more s2 i tk tk1 bounded f data c pid (cc + 1) pcr (d' :: slices'));
      [done| |done|done|exact Hparse|exact HR|exact Hdata|exact Hbdata| |exact Hma].
    + split; [apply Hat1| |done]. split; [|done]. destruct HR as [[Hp1 _ _ _] _ _ _ _ _]. congruence.
    + intros _ ->. destruct Hrest. rewrite app_nil_r in Hd. cbn [app] in Hdata.
      rewrite Hd, Hhl in Hfirst. unfold pes in Hfirst. rewrite lenZ_app, Hhl in Hfirst.
      rewrite <- Hdata. lia.
  - intros s3 [Hs3 Htr3]. split; [done|].
    eapply (tracked_trans L i tk tk1); [exact Htr1|apply Hat1|exact Htk|exact Htr3|done].
Qed.
End stream.

(** ** A section in one packet *)

Lemma psi_loop_cons fuel w b p :
  psi_loop (S fuel) w (b :: p) =
    (r ← psi_header w (b :: p);
     match r with
     | None => mret tt
     | Some p =>
         psi ← psi_get w;
         let need := ps_expected psi ⊖ lenZ (ps_buf psi) in
         let n := Z.to_nat (Z.min (lenZ p) need) in
         _ ← psi_copy w (take n p);
         psi ← psi_get w;
         _ ← (if lenZ (ps_buf psi) =? ps_expected psi then
                _ ← parse_section (ps_buf psi);
                psi_mod w (λ psi, psi_idle (psi <| ps_expected := 0 |>))
              else psi_mod w (λ psi, psi <| ps_assembling := true |>));
         psi_loop fuel w (drop n p)
     end).
Proof. done. Qed.

(** The three header bytes of a section, at the start of [p]. *)
Lemma wp_section_header w psi s p b0 b1 b2 n (Q : option (list Z) → dstate → Prop) :
  ps_buf psi = [] → b0 ≠ 255 → len12_at [b0; b1; b2] 1 = Some n → 4 ≤ n → 3 + n ≤ TS_SECTION_MAX →
  Q (Some p) (put_psi w (psi <| ps_buf := [b0; b1; b2] |> <| ps_expected := 3 + n |>) s) →
  wp (psi_header w (b0 :: b1 :: b2 :: p)) Q (put_psi w psi s).
Proof.
  intros Hbuf Hff Hn H4 Hmax HQ. unfold psi_header. apply wp_bind, wp_psi_get. rewrite get_put_psi, Hbuf.
  change (lenZ [] <? 3) with true. cbv iota.
  replace (Z.to_nat (Z.min (lenZ (b0 :: b1 :: b2 :: p)) (3 - lenZ []))) with 3%nat
    by (unfold lenZ; cbn [length]; lia).
  cbn [take]. apply wp_bind, wp_psi_copy; rewrite get_put_psi; [by rewrite Hbuf|]. rewrite put_psi_twice.
  replace (psi <| ps_buf ::= λ b, b ++ [b0; b1; b2] |>) with (psi <| ps_buf := [b0; b1; b2] |>)
    by (destruct psi; cbn in *; by subst).
  apply wp_bind, wp_psi_get. rewrite get_put_psi. cbn [ps_buf setf].
  change (lenZ [b0; b1; b2] <? 3) with false. cbv iota.
  eapply wp_sread; [reflexivity|]. rewrite (proj2 (Z.eqb_neq b0 0xFF)) by done.
  eapply wp_sread; [exact Hn|]. cbv zeta.
  rewrite (proj2 (Z.ltb_ge _ _)), (proj2 (Z.ltb_ge n 4)) by lia. cbn [orb].
  apply wp_bind, wp_psi_mod, wp_ret. rewrite get_put_psi, put_psi_twice. exact HQ.
Qed.

(** Stuffing ends a packet. *)
Lemma wp_stuffing fuel w psi s m (Q : unit → dstate → Prop) :
  ps_buf psi = [] → (∀ psi', Q tt (put_psi w psi' s)) →
  wp (psi_loop (S fuel) w (replicate (S (S (S m))) 255)) Q (put_psi w psi s).
Proof.
  intros Hbuf HQ. cbn [replicate]. rewrite psi_loop_cons. apply wp_bind. unfold psi_header.
  apply wp_bind, wp_psi_get. rewrite get_put_psi, Hbuf. change (lenZ [] <? 3) with true. cbv iota.
  replace (Z.to_nat (Z.min (lenZ (255 :: 255 :: 255 :: replicate m 255)) (3 - lenZ []))) with 3%nat
    by (unfold lenZ; cbn [length]; lia).
  cbn [take]. apply wp_bind, wp_psi_copy; rewrite get_put_psi; [by rewrite Hbuf|]. rewrite put_psi_twice.
  apply wp_bind, wp_psi_get. rewrite get_put_psi. cbn [ps_buf setf]. rewrite Hbuf.
  cbn [app]. change (lenZ [255; 255; 255] <? 3) with false. cbv iota.
  eapply wp_sread; [reflexivity|]. change (255 =? 0xFF) with true. cbv iota.
  apply wp_bind, wp_psi_mod, wp_ret, wp_ret. rewrite put_psi_twice. apply HQ.
Qed.

Lemma wp_psi_section w s b0 b1 b2 sec m (Q : dstate → Prop) :
  b0 ≠ 255 → len12_at [b0; b1; b2] 1 = Some (lenZ sec) → 4 ≤ lenZ sec →
  3 + lenZ sec ≤ TS_SECTION_MAX → (3 ≤ m)%nat →
  (∀ psi, ps_buf psi = b0 :: b1 :: b2 :: sec → ps_expected psi = 3 + lenZ sec →
     wp (parse_section (b0 :: b1 :: b2 :: sec)) (λ _ s2, ∀ psi', Q (put_psi w psi' s2))
       (put_psi w psi s)) →
  wp (psi_feed w true (0 :: (b0 :: b1 :: b2 :: sec) ++ replicate m 255)) (λ _ s', Q s') s.
Proof.
  intros Hff Hn H4 Hmax Hm Hsec. unfold psi_feed. apply wp_bind, wp_psi_get. cbn [negb andb].
  pose proof (lenZ_nonneg ((b0 :: b1 :: b2 :: sec) ++ replicate m 255)).
  rewrite (proj2 (Z.ltb_ge _ 0)) by done. apply wp_bind, wp_psi_mod.
  change (Z.to_nat 0) with 0%nat. rewrite drop_0. cbn [app length].
  set (psi0 := psi_idle _). assert (ps_buf psi0 = []) as Hb0 by done. clearbody psi0.
  rewrite psi_loop_cons. apply wp_bind.
  apply (wp_section_header _ _ _ _ _ _ _ (lenZ sec)); [done..|].
  set (psi1 := psi0 <| ps_buf := _ |> <| ps_expected := _ |>).
  apply wp_bind, wp_psi_get. rewrite get_put_psi. cbv zeta.
  assert (lenZ (ps_buf psi1) = 3 ∧ ps_expected psi1 = 3 + lenZ sec) as [-> ->] by done.
  unfold TS_SECTION_MAX in Hmax. rewrite u64_small by lia.
  replace (Z.to_nat (Z.min (lenZ (sec ++ replicate m 255)) (3 + lenZ sec - 3))) with (length sec)
    by (rewrite lenZ_app; unfold lenZ; lia).
  rewrite take_app_length, drop_app_length.
  apply wp_bind, wp_psi_copy; rewrite get_put_psi; [change (lenZ (ps_buf psi1)) with 3; unfold TS_SECTION_MAX; lia|].
  rewrite put_psi_twice. set (psi2 := psi1 <| ps_buf ::= _ |>).
  assert (ps_buf psi2 = b0 :: b1 :: b2 :: sec ∧ ps_expected psi2 = 3 + lenZ sec) as [Hb2 He2] by done.
  apply wp_bind, wp_psi_get. rewrite get_put_psi, Hb2, He2.
  assert (lenZ (b0 :: b1 :: b2 :: sec) = 3 + lenZ sec) as -> by (unfold lenZ; cbn [length]; lia).
  rewrite Z.eqb_refl. apply wp_bind, wp_bind. eapply wp_mono; [by apply Hsec|].
  intros [] s2 HQ. apply wp_psi_mod. destruct m as [|[|[|m]]]; [lia..|].
  rewrite length_app. cbn [length replicate Nat.add].
  rewrite Nat.add_succ_r. by apply wp_stuffing.
Qed.

(** ** The program tables of the muxer *)

Lemma crc_self p : ts_crc32 (p ++ be32 (ts_crc32 p)) = 0.
Proof. unfold ts_crc32. rewrite foldl_app. by apply crc_bytes_self, crc_state_u32. Qed.

Lemma pid_bytes_at pid l : 0 ≤ pid < 2 ^ 13 → pid_at (pid_bytes pid ++ l) 0 = Some pid.
Proof.
  intros Hp. destruct (pid_fields pid Hp) as [Hhi Heq]. unfold pid_at, pid_bytes.
  cbn [app lookup list_lookup mbind option_bind Nat.add].
  pose proof (forall_below (λ h, Z.land (u8 (Z.lor 0xE0 (Z.land h 0x1F))) 0x1F =? h) 32
    ltac:(vm_compute; reflexivity) _ Hhi) as H. cbv beta in H. apply Z.eqb_eq in H.
  by rewrite H, Heq.
Qed.

(** The streams a muxer with these tracks announces. *)
Definition mux_streams (mux : ts_mux) : list (Z * Z) :=
  (if mx_video_stream_type mux =? 0 then []
   else [(mc_video_pid (mx_conf mux), mx_video_stream_type mux)])
  ++ (if mx_audio_stream_type mux =? 0 then []
      else [(mc_audio_pid (mx_conf mux), mx_audio_stream_type mux)]).

Definition good_pid (pid : Z) : Prop := 0 < pid < TS_PID_NULL.

(** A muxer whose tracks are set, with a configuration that keeps the streams apart. *)
Record mux_ok (mux : ts_mux) : Prop := {
  mo_ready : mx_tracks_ready mux = true;
  mo_video : mx_video_stream_type mux ∈ [0; STREAM_H264; STREAM_H265];
  mo_audio : mx_audio_stream_type mux ∈ [0; STREAM_AAC_ADTS];
  mo_some : mx_video_stream_type mux ≠ 0 ∨ mx_audio_stream_type mux ≠ 0;
  mo_pmt : good_pid (mc_pmt_pid (mx_conf mux));
  mo_video_pid : good_pid (mc_video_pid (mx_conf mux));
  mo_audio_pid : good_pid (mc_audio_pid (mx_conf mux));
  mo_apart : mc_video_pid (mx_conf mux) ≠ mc_audio_pid (mx_conf mux) ∧
    mc_video_pid (mx_conf mux) ≠ mc_pmt_pid (mx_conf mux) ∧
    mc_audio_pid (mx_conf mux) ≠ mc_pmt_pid (mx_conf mux) }.

Lemma good_pid_range pid : good_pid pid → 0 ≤ pid < 2 ^ 13.
Proof. unfold good_pid, TS_PID_NULL. lia. Qed.

Lemma mux_pat_parses mux :
  mux_ok mux →
  ts_crc32 (mux_pat mux) = 0 ∧
  pat_scan 16 (mux_pat mux) 8 12 = Some (Some (mc_pmt_pid (mx_conf mux))).
Proof.
  intros Hm. split; [apply crc_self|].
  pose proof (pid_bytes_at (mc_pmt_pid (mx_conf mux))
    (be32 (ts_crc32 ([0; 0xB0; 0x0D; 0; 1; 0xC1; 0; 0; 0; 1] ++ pid_bytes (mc_pmt_pid (mx_conf mux)))))
    (good_pid_range _ (mo_pmt _ Hm))) as Hpid.
  cbn [pat_scan]. change (8 + 4 <=? 12)%nat with true. cbv iota.
  change (pid_at (mux_pat mux) (8 + 2)) with (pid_at (pid_bytes (mc_pmt_pid (mx_conf mux)) ++
    be32 (ts_crc32 ([0; 0xB0; 0x0D; 0; 1; 0xC1; 0; 0; 0; 1] ++ pid_bytes (mc_pmt_pid (mx_conf mux))))) 0).
  by rewrite Hpid.
Qed.

Lemma pmt_scan_entry fuel pre type pid l max acc u :
  ts_codec type ≠ CODEC_NONE → 0 ≤ type < 256 → type ≠ 0 → 0 ≤ pid < 2 ^ 13 →
  Z.of_nat (length acc) < max → (length acc < 32)%nat → (4 ≤ length l)%nat →
  let s := pre ++ pmt_entry type pid ++ l in
  pmt_scan (S fuel) s (length pre) (length s - 4) max acc u
  = pmt_scan fuel s (length pre + 5) (length s - 4) max (acc ++ [(pid, type)]) u.
Proof.
  intros Hc Ht Hnz Hpid Hmax Hacc Hl s.
  assert (s = pre ++ type :: pid_bytes pid ++ [240; 0] ++ l) as Hs.
  { unfold s, pmt_entry. rewrite (proj2 (Z.eqb_neq _ _) Hnz).
    assert (u8 type = type) as -> by (by apply Z.mod_small). by rewrite <- app_comm_cons, <- app_assoc. }
  assert (length pre + 5 ≤ length s - 4)%nat as He.
  { rewrite Hs, length_app. cbn [length pid_bytes app]. lia. }
  assert (s !! length pre = Some type) as H0 by (rewrite Hs; by apply list_lookup_middle).
  assert (pid_at s (length pre + 1) = Some pid) as H1.
  { rewrite <- (pid_bytes_at pid ([240; 0] ++ l)) by done. rewrite Hs. unfold pid_at.
    rewrite !lookup_app_r by lia. replace (length pre + 1 - length pre)%nat with 1%nat by lia.
    by replace (length pre + 1 + 1 - length pre)%nat with 2%nat by lia. }
  assert (len12_at s (length pre + 3) = Some 0) as H2.
  { rewrite Hs. unfold len12_at. rewrite !lookup_app_r by lia.
    replace (length pre + 3 - length pre)%nat with 3%nat by lia.
    by replace (length pre + 3 + 1 - length pre)%nat with 4%nat by lia. }
  clearbody s. cbn [pmt_scan].
  rewrite (proj2 (Nat.leb_le _ _) He), (proj2 (Nat.ltb_lt _ _) Hacc). cbn [andb].
  rewrite H0. cbn [mbind option_bind]. rewrite H1. cbn [mbind option_bind]. rewrite H2.
  cbn [mbind option_bind]. rewrite (proj2 (Z.eqb_neq _ _) Hc), (proj2 (Z.ltb_lt _ _) Hmax).
  change (Z.to_nat 0) with 0%nat. by rewrite Nat.add_0_r.
Qed.

Lemma pmt_scan_end fuel s p max acc u :
  (length s - 4 < p + 5)%nat → pmt_scan fuel s p (length s - 4) max acc u = Some (acc, u).
Proof.
  intros H. destruct fuel; cbn [pmt_scan]; by rewrite (proj2 (Nat.leb_gt _ _)) by lia.
Qed.

Lemma mux_pmt_parses mux max :
  mux_ok mux → Z.of_nat (length (mux_streams mux)) ≤ max →
  let sec := mux_pmt mux in
  ts_crc32 sec = 0 ∧ sec !! 0%nat = Some 2 ∧ len12_at sec 10 = Some 0 ∧
  (16 ≤ length sec - 4)%nat ∧
  pmt_scan (length sec) sec 12 (length sec - 4) max [] 0 = Some (mux_streams mux, 0).
Proof.
  intros Hm Hmax sec. destruct Hm as [_ Hv Ha Hsome _ Hvp Hap _].
  split; [apply crc_self|]. split; [done|]. split; [done|].
  set (c := mx_conf mux) in *. set (v := mx_video_stream_type mux) in *.
  set (a := mx_audio_stream_type mux) in *.
  apply good_pid_range in Hvp, Hap.
  set (n := (if v =? 0 then 0 else 1) + (if a =? 0 then 0 else 1)).
  set (pre := [2; u8 (Z.lor 0xB0 (Z.land (Z.shiftr (9 + 5 * n + 4) 8) 0x0F));
    u8 (Z.land (9 + 5 * n + 4) 0xFF); 0; 1; 0xC1; 0; 0] ++ pid_bytes (mc_pcr_pid c) ++ [0xF0; 0]).
  assert (∃ x, sec = pre ++ pmt_entry v (mc_video_pid c) ++ pmt_entry a (mc_audio_pid c) ++ be32 x)
    as (x & Hsec).
  { eexists. unfold sec, mux_pmt. fold c v a n. unfold pre. by rewrite <- !app_assoc. }
  assert (length pre = 12%nat) as Hpre by done. clearbody pre sec.
  assert (∀ t pid, t ≠ 0 → length (pmt_entry t pid) = 5%nat) as Hent
    by (intros t pid Ht; unfold pmt_entry; by rewrite (proj2 (Z.eqb_neq _ _) Ht)).
  assert (v = 0 ∨ v ≠ 0 ∧ ts_codec v ≠ CODEC_NONE ∧ 0 ≤ v < 256) as Hv'.
  { rewrite !elem_of_cons, elem_of_nil in Hv. destruct Hv as [-> |[-> |[-> |[]]]]; [by left|by right..]. }
  assert (a = 0 ∨ a ≠ 0 ∧ ts_codec a ≠ CODEC_NONE ∧ 0 ≤ a < 256) as Ha'.
  { rewrite !elem_of_cons, elem_of_nil in Ha. destruct Ha as [-> |[-> |[]]]; [by left|by right]. }
  unfold mux_streams in *. fold c v a in Hmax |- *. clearbody c v a. clear n Hv Ha.
  pose proof (f_equal length Hsec) as Hlen. rewrite !length_app, Hpre in Hlen.
  change (length (be32 x)) with 4%nat in Hlen. rewrite <- Hpre.
  destruct Hv' as [-> |(Hv & Hvc & Hvr)], Ha' as [-> |(Ha & Hac & Har)];
    [by destruct Hsome as [[]|[]]|..].
  - rewrite (Hent a) in Hlen by done. change (length (pmt_entry 0 _)) with 0%nat in Hlen.
    rewrite (Z.eqb_refl 0), (proj2 (Z.eqb_neq _ _) Ha) in Hmax |- *. cbn [app length] in Hmax |- *.
    split; [lia|]. replace (length sec) with 21%nat at 1 by lia. rewrite Hsec.
    change (pmt_entry 0 (mc_video_pid c) ++ pmt_entry a (mc_audio_pid c) ++ be32 x)
      with (pmt_entry a (mc_audio_pid c) ++ be32 x).
    rewrite pmt_scan_entry by (done || (cbn; lia)).
    apply pmt_scan_end. rewrite !length_app, Hent by done. cbn. lia.
  - rewrite (Hent v) in Hlen by done. change (length (pmt_entry 0 _)) with 0%nat in Hlen.
    rewrite (Z.eqb_refl 0), (proj2 (Z.eqb_neq _ _) Hv) in Hmax |- *. cbn [app length] in Hmax |- *.
    split; [lia|]. replace (length sec) with 21%nat at 1 by lia. rewrite Hsec.
    change (pmt_entry 0 (mc_audio_pid c) ++ be32 x) with (be32 x).
    rewrite pmt_scan_entry by (done || (cbn; lia)).
    apply pmt_scan_end. rewrite !length_app, Hent by done. cbn. lia.
  - rewrite (Hent a), (Hent v) in Hlen by done.
    rewrite (proj2 (Z.eqb_neq _ _) Ha), (proj2 (Z.eqb_neq _ _) Hv) in Hmax |- *.
    cbn [app length] in Hmax |- *.
    split; [lia|]. replace (length sec) with 26%nat at 1 by lia. rewrite Hsec.
    rewrite pmt_scan_entry by (done || (rewrite ?length_app; cbn; lia)).
    rewrite (app_assoc pre (pmt_entry v (mc_video_pid c))).
    replace (length pre + 5)%nat with (length (pre ++ pmt_entry v (mc_video_pid c)))
      by (by rewrite length_app, Hent).
    rewrite pmt_scan_entry by (done || (cbn; lia)).
    apply pmt_scan_end. rewrite !length_app, !Hent by done. cbn. lia.
Qed.

(** ** Processing the tables *)

Section tables.
Context (ma mt : Z) (L : list N).

(** Only assemblers and counters differ. *)
Record psi_only (s s' : dstate) : Prop := {
  po_inv : dinv L s';
  po_store : ds_store s' = ds_store s;
  po_out : ds_out s' = ds_out s;
  po_tracks : dx_tracks (ds_dx s') = dx_tracks (ds_dx s);
  po_pat : dx_pat_valid (ds_dx s') = dx_pat_valid (ds_dx s);
  po_pmt : dx_pmt_pid (ds_dx s') = dx_pmt_pid (ds_dx s);
  po_max : dx_max_tracks (ds_dx s') = dx_max_tracks (ds_dx s) }.

Definition dispatched (w : psi_sel) (pid : Z) (s : dstate) : Prop :=
  match w with
  | PAT => pid = TS_PID_PAT
  | PMT => pid ≠ TS_PID_PAT ∧ dx_pat_valid (ds_dx s) = true ∧ dx_pmt_pid (ds_dx s) = pid
  end.

Lemma psi_only_refl s : dinv L s → psi_only s s.
Proof. by split. Qed.
Lemma psi_only_stat s s' x :
  psi_only s s' → psi_only s (s' <| ds_dx := (ds_dx s') <| dx_stats := x |> |>).
Proof. intros [? ? ? ? ? ? ?]. split; try done. by apply dinv_stat. Qed.
Lemma psi_only_put s s' w psi : psi_only s s' → psi_ok psi → psi_only s (put_psi w psi s').
Proof. intros [? ? ? ? ? ? ?] Hp. split; try (by destruct w). by apply dinv_put. Qed.

Lemma wp_psi_only_stat s s' f (Q : unit → dstate → Prop) :
  psi_only s s' → (∀ s'', psi_only s s'' → Q tt s'') → wp (stat f) Q s'.
Proof. intros Hp HQ. by apply wp_stat, HQ, psi_only_stat. Qed.

Lemma wp_section_packet w pid cc b0 b1 b2 sec s (Q : dstate → Prop) :
  dinv L s → dispatched w pid s → 0 ≤ pid < 2 ^ 13 → pid ≠ TS_PID_NULL →
  b0 ≠ 255 → len12_at [b0; b1; b2] 1 = Some (lenZ sec) → 4 ≤ lenZ sec → (length sec ≤ 176)%nat →
  bytes (b0 :: b1 :: b2 :: sec) →
  (∀ s1, psi_only s s1 →
     wp (parse_section (b0 :: b1 :: b2 :: sec)) (λ _ s2, ∀ psi', Q (put_psi w psi' s2)) s1) →
  wp (process_packet (section_packet pid cc (b0 :: b1 :: b2 :: sec))) (λ _ s', Q s') s.
Proof.
  intros Hi Hw Hpid Hnull Hff Hn H4 Hl Hb Hsec. unfold process_packet, section_packet.
  apply wp_bind. eapply wp_psi_only_stat; [by apply psi_only_refl|]. intros s1 Hp1.
  eapply wp_sread.
  { apply parse_packet_header; [done|done| |done].
    unfold lenZ. cbn [length]. rewrite length_app, length_replicate. cbn [length]. lia. }
  cbn [pk_pcr pk_pid]. apply wp_bind, wp_ret, wp_bind, wp_dx_get, wp_bind, wp_dx_get.
  rewrite (po_pat _ _ Hp1), (po_pmt _ _ Hp1). set (k := mk_packet _ _ _ _ _ _).
  assert (wp (process_psi w k) (λ _ s', Q s') s1) as Hpsi.
  { unfold process_psi. apply wp_bind, wp_psi_get. cbv zeta.
    destruct (cc_check _ _ _ _) as [[r c] v]. apply wp_bind, wp_psi_mod.
    set (psi1 := _ <| ps_cc_valid := _ |>).
    assert (psi_only s (put_psi w psi1 s1)) as Hp2.
    { apply psi_only_put; [done|]. destruct Hp1 as [[[] _ _ _] _ _ _ _ _ _]. destruct w; by destruct dxo_pat, dxo_pmt. }
    apply wp_bind. eapply (wp_mono _ (λ _ s', psi_only s s')).
    { destruct (bool_decide _); [by eapply wp_psi_only_stat|by apply wp_ret]. }
    intros [] s2 Hp3. cbn [k pk_payload pk_pusi].
    apply wp_psi_section; [done|done|done|unfold TS_SECTION_MAX, lenZ in *; lia|cbn [length]; lia|].
    intros psi Hbuf Hexp. apply Hsec. apply psi_only_put; [done|]. split; [by rewrite Hbuf|right].
    rewrite Hbuf, Hexp. unfold TS_SECTION_MAX, lenZ in *. cbn [length]. lia. }
  destruct w; cbn [dispatched] in Hw.
  - by rewrite Hw, Z.eqb_refl.
  - destruct Hw as (H0 & -> & ->). rewrite (proj2 (Z.eqb_neq _ _) H0). cbn [k pk_pid andb].
    by rewrite Z.eqb_refl.
Qed.

Lemma bytes_pid_bytes pid : bytes (pid_bytes pid).
Proof. repeat (constructor; [apply is_byte_u8|]). constructor. Qed.
Lemma bytes_mux_pat mux : bytes (mux_pat mux).
Proof.
  unfold mux_pat. cbv zeta. apply Forall_app. split; [|apply be32_bytes]. apply Forall_app.
  split; [by apply (bool_decide_unpack _)|apply bytes_pid_bytes].
Qed.
Lemma bytes_pmt_entry type pid : bytes (pmt_entry type pid).
Proof.
  unfold pmt_entry. destruct (type =? 0); [constructor|]. constructor; [apply is_byte_u8|].
  apply Forall_app. split; [apply bytes_pid_bytes|by apply (bool_decide_unpack _)].
Qed.
Lemma bytes_mux_pmt mux : bytes (mux_pmt mux).
Proof.
  unfold mux_pmt. cbv zeta. apply Forall_app. split; [|apply be32_bytes].
  repeat (apply Forall_app; split); try apply bytes_pid_bytes; try apply bytes_pmt_entry;
    [|by apply (bool_decide_unpack _)].
  repeat (constructor; [first [apply is_byte_u8|done]|]). constructor.
Qed.

Lemma section_packet_whole pid cc sec :
  bytes sec → (length sec ≤ 183)%nat → ts_packet (section_packet pid cc sec).
Proof.
  intros Hb Hl. unfold section_packet. apply ts_packet_header; [|done|].
  - unfold lenZ. cbn [length]. rewrite length_app, length_replicate. lia.
  - apply Forall_cons. split; [done|]. apply Forall_app. split; [done|apply bytes_replicate].
Qed.

(** The tables announced: the PMT is on the muxer's PID and the tracks are [tracks]. *)
Record announced (mux : ts_mux) (tracks : list ts_track) (s s' : dstate) : Prop := {
  an_alloc : alloc_ok (ds_store s');
  an_pat : dx_pat_valid (ds_dx s') = true;
  an_pmt : dx_pmt_pid (ds_dx s') = mc_pmt_pid (mx_conf mux);
  an_tracks : dx_tracks (ds_dx s') = tracks;
  an_quiet : quiet s s' }.

Lemma announced_put mux tracks s s' w psi :
  announced mux tracks s s' → announced mux tracks s (put_psi w psi s').
Proof. intros [? ? ? ? ?]. by destruct w; split. Qed.

Lemma quiet_same s s1 s2 : ds_out s1 = ds_out s → quiet s1 s2 → quiet s s2.
Proof. intros H Hq. eapply quiet_trans; [by apply quiet_eq|done]. Qed.

Lemma wp_pat_packet mux cc s :
  settled ma mt L s → alloc_ok (ds_store s) → mux_ok mux →
  wp (process_packet (section_packet MUX_PID_PAT cc (mux_pat mux)))
    (λ _ s', settled ma mt L s' ∧ announced mux (dx_tracks (ds_dx s)) s s') s.
Proof.
  intros Hs Ha Hm. destruct (mux_pat_parses mux Hm) as [Hcrc Hscan].
  pose proof (bytes_mux_pat mux) as Hb.
  apply wp_and.
  { destruct (section_packet_whole MUX_PID_PAT cc (mux_pat mux) Hb) as (Hp & Hl & _);
      [rewrite mux_pat_length; lia|]. exact (wp_process_packet ma mt L _ s Hs Hp Hl). }
  assert (∃ sec, mux_pat mux = 0 :: 0xB0 :: 0x0D :: sec ∧ length sec = 13%nat) as (sec & Hsec & Hlen)
    by (eexists; split; [reflexivity|done]).
  rewrite Hsec in *. apply (wp_section_packet PAT); try done.
  - apply Hs.
  - unfold lenZ. by rewrite Hlen.
  - unfold lenZ. by rewrite Hlen.
  - lia.
  - intros s1 [Hi1 Hst1 Ho1 Ht1 _ _ _].
    eapply wp_mono; [apply (wp_parse_section L s1); [done|cbn [length]; lia]|].
    intros [] s2 (Hs2 & Hpat & _) psi'.
    assert (length (0 :: 0xB0 :: 0x0D :: sec) = 16%nat) as Hl16 by (cbn [length]; lia).
    destruct (Hpat (mc_pmt_pid (mx_conf mux))) as (? & ? & Ht2);
      [done|done|unfold lenZ; rewrite Hl16; lia|by rewrite Hl16|].
    apply announced_put. split; [|done|done|congruence|by eapply quiet_same, Hs2].
    eapply alloc_ok_evolves; [apply Hs2|by rewrite Hst1].
Qed.

(** What the tracks of [mux] make of the tracks already there. *)
Lemma wp_pmt_packet mux cc s :
  settled ma mt L s → alloc_ok (ds_store s) → mux_ok mux →
  dx_pat_valid (ds_dx s) = true → dx_pmt_pid (ds_dx s) = mc_pmt_pid (mx_conf mux) →
  Z.of_nat (length (mux_streams mux)) ≤ mt →
  wp (process_packet (section_packet (mc_pmt_pid (mx_conf mux)) cc (mux_pmt mux)))
    (λ _ s', settled ma mt L s' ∧
       announced mux (pmt_tracks (mux_streams mux) (dx_tracks (ds_dx s))) s s') s.
Proof.
  intros Hs Ha Hm Hpv Hpp Hmt.
  destruct (mux_pmt_parses mux mt Hm Hmt) as (Hcrc & H0 & H10 & H16 & Hscan).
  pose proof (bytes_mux_pmt mux) as Hb. pose proof (mux_pmt_length mux) as Hlen.
  pose proof (mo_pmt _ Hm) as Hgood. pose proof (good_pid_range _ Hgood) as Hpid. unfold good_pid in Hgood.
  apply wp_and.
  { destruct (section_packet_whole (mc_pmt_pid (mx_conf mux)) cc (mux_pmt mux) Hb) as (Hp & Hl & _);
      [lia|]. exact (wp_process_packet ma mt L _ s Hs Hp Hl). }
  assert (∃ b1 b2 sec, mux_pmt mux = 2 :: b1 :: b2 :: sec ∧
    len12_at [2; b1; b2] 1 = Some (lenZ sec)) as (b1 & b2 & sec & Hsec & Hn).
  { unfold mux_pmt, pmt_entry. destruct (_ =? 0), (_ =? 0); (eexists _, _, _; split; [reflexivity|done]). }
  set (all := mux_pmt mux) in *. clearbody all. subst all.
  cbn [length] in Hlen, H16.
  apply (wp_section_packet PMT); try done.
  - apply Hs.
  - split; [|done]. unfold TS_PID_PAT. lia.
  - lia.
  - unfold lenZ. lia.
  - lia.
  - intros s1 [Hi1 Hst1 Ho1 Ht1 Hpv1 Hpp1 Hmax1].
    eapply wp_mono; [apply (wp_parse_section L s1); [done|cbn [length]; lia]|].
    intros [] s2 (Hs2 & _ & Hpmt) psi'.
    destruct (Hpmt 0 (mux_streams mux) 0) as ([Hpp2 Hpv2] & Ht2); [done|done| |done|cbn [length]; lia| |].
    { unfold lenZ. cbn [length]. lia. }
    { rewrite Hmax1. destruct Hs as (_ & _ & _ & ->). exact Hscan. }
    apply announced_put. split; [|congruence|congruence|congruence|by eapply quiet_same, Hs2].
    eapply alloc_ok_evolves; [apply Hs2|by rewrite Hst1].
Qed.
End tables.

(** ** A stream of frames *)

(** What comes out for a sequence of frames, with [pending] still held on the video track: an
    audio PES has a length and is complete with its last byte, a video PES only ends where
    the next one starts. *)
Definition frame_idx (mux : ts_mux) (f : frame) : nat :=
  if is_audio f && negb (mx_video_stream_type mux =? 0) then 1 else 0.
Definition frame_type (mux : ts_mux) (f : frame) : Z :=
  if is_audio f then mx_audio_stream_type mux else mx_video_stream_type mux.
Definition frame_out (mux : ts_mux) (f : frame) (data : list Z) :=
  frame_media (ts_codec (frame_type mux f)) (Z.of_nat (frame_idx mux f)) f data.
Fixpoint demuxed (mux : ts_mux) (pending : list (Z * Z * Z * bool * list Z))
    (items : list (frame * list Z)) : list (Z * Z * Z * bool * list Z) :=
  match items with
  | [] => pending
  | (f, data) :: items =>
      if is_audio f then frame_out mux f data ++ demuxed mux pending items
      else pending ++ demuxed mux (frame_out mux f data) items
  end.

(** A frame the muxer can carry and the demuxer, with ceiling [ma], can reassemble. *)
Record frame_ok (mux : ts_mux) (ma : Z) (f : frame) (data : list Z) : Prop := {
  fo_track : frame_type mux f ≠ 0;
  fo_bytes : bytes data;
  fo_max : lenZ data ≤ ma;
  fo_length : is_audio f = true → pes_total f (lenZ data) < 65536 }.

(** The packets of [items], with the tables in front of any of them. *)
Inductive stream_pkts (mux : ts_mux) : list (frame * list Z) → list (list Z) → Prop :=
  | sp_nil : stream_pkts mux [] []
  | sp_tables cc1 cc2 items pkts :
      stream_pkts mux items pkts →
      stream_pkts mux items (section_packet MUX_PID_PAT cc1 (mux_pat mux)
        :: section_packet (mc_pmt_pid (mx_conf mux)) cc2 (mux_pmt mux) :: pkts)
  | sp_frame cc pcr f data items pkts :
      stream_pkts mux items pkts →
      stream_pkts mux ((f, data) :: items)
        (packetize (length (frame_pes f data)) (frame_pid mux f) cc true pcr (dts f)
           (frame_pes f data) ++ pkts).

Definition mux_sig (mux : ts_mux) : list (Z * Z * Z) :=
  (λ x, (x.1, x.2, ts_codec x.2)) <$> mux_streams mux.

Lemma mux_sig_frame mux f :
  frame_type mux f ≠ 0 →
  mux_sig mux !! frame_idx mux f
  = Some (frame_pid mux f, frame_type mux f, ts_codec (frame_type mux f)).
Proof.
  unfold mux_sig, mux_streams, frame_idx, frame_type, frame_pid. intros Ht.
  destruct (is_audio f); rewrite (proj2 (Z.eqb_neq _ _) Ht).
  - destruct (mx_video_stream_type mux =? 0); done.
  - cbn. done.
Qed.

Lemma mux_sig_nodup mux : mux_ok mux → NoDup (mux_sig mux).*1.*1.
Proof.
  intros [_ _ _ _ _ _ _ (Hne & _)]. unfold mux_sig, mux_streams.
  destruct (_ =? 0), (_ =? 0); cbn; repeat constructor; rewrite ?elem_of_cons, ?elem_of_nil; naive_solver.
Qed.

Lemma frame_pid_ok mux f :
  mux_ok mux → good_pid (frame_pid mux f) ∧ frame_pid mux f ≠ mc_pmt_pid (mx_conf mux).
Proof. intros [_ _ _ _ _ ? ? (_ & ? & ?)]. unfold frame_pid. by destruct (is_audio f). Qed.

Lemma bytes_pes_header id bounded f n : bytes (pes_header id bounded f n).
Proof.
  unfold pes_header, put_ts.
  repeat (apply Forall_app; split);
    destruct bounded, (pts f =? dts f);
    repeat (constructor; [first [apply is_byte_u8|done]|]); constructor.
Qed.

Section frames.
Context (ma mt : Z) (L : list N) (mux : ts_mux) (Hmux : mux_ok mux).

(** The state between two frames: [pending] is what a flush of the video track would emit. *)
Record live (pending : list (Z * Z * Z * bool * list Z)) (s : dstate) : Prop := {
  lv_stream : streaming ma mt L (mc_pmt_pid (mx_conf mux)) (mux_sig mux) s;
  lv_video : mx_video_stream_type mux = 0 → pending = [];
  lv_tracks i tk : dx_tracks (ds_dx s) !! i = Some tk →
    au_media tk = if (i =? 0)%nat then pending else [] }.

Lemma live_bump pending s x t :
  bytes t → (length t < 188)%nat → live pending s → live pending (bump x t s).
Proof. intros Hb Hl [? ? ?]. split; [by apply streaming_bump|done|done]. Qed.

(** The track of a frame. *)
Lemma live_track pending s f :
  live pending s → frame_type mux f ≠ 0 →
  ∃ tk, track_for (mc_pmt_pid (mx_conf mux)) (mux_sig mux) s (frame_idx mux f) tk (frame_pid mux f) ∧
    tk_codec tk = ts_codec (frame_type mux f) ∧
    tk_track_index tk = Z.of_nat (frame_idx mux f) ∧
    au_media tk = if is_audio f then [] else pending.
Proof.
  intros [Hst Hv Htk] Ht. pose proof (mux_sig_frame mux f Ht) as Hsig.
  rewrite <- (sg_tracks _ _ _ _ _ _ Hst), list_lookup_fmap in Hsig.
  destruct (dx_tracks (ds_dx s) !! frame_idx mux f) as [tk|] eqn:Hi; [|done].
  injection Hsig as Hp Hty Hc. exists tk.
  destruct (frame_pid_ok mux f Hmux) as [Hg Hne].
  split_and!; [|done| |].
  - split; [done| |by apply mux_sig_nodup]. split; [done|]. split; [|done].
    unfold good_pid, TS_PID_PAT in *. lia.
  - destruct Hst as [[[Hdx _ _ _] _] _ _ _ _]. by apply (dxo_tk _ Hdx _ _ Hi).
  - rewrite (Htk _ _ Hi). unfold frame_idx.
    destruct (is_audio f); [|done]. destruct (Z.eqb_spec (mx_video_stream_type mux) 0); [|done].
    by rewrite Hv.
Qed.

Lemma clear_media tk0 tk : clear tk0 tk → au_media tk = [].
Proof. intros [_ Ha _ _]. unfold au_media. by rewrite Ha. Qed.

Lemma runs_item pending s cc pcr f data :
  live pending s → frame_ok mux ma f data →
  let out := frame_out mux f data in
  runs (packetize (length (frame_pes f data)) (frame_pid mux f) cc true pcr (dts f) (frame_pes f data))
    (λ s', live (if is_audio f then pending else out) s' ∧ ∃ more, ds_out s' = ds_out s ++ more ∧
       omap media more = if is_audio f then out else pending) s.
Proof.
  intros Hlive [Ht Hb Hmax Hlen] out. destruct (live_track _ _ _ Hlive Ht) as (tk & Hfor & Hc & Hi & Hmed).
  destruct (frame_pid_ok mux f Hmux) as [Hg Hne]. pose proof (good_pid_range _ Hg) as Hpid.
  assert (bytes (frame_pes f data)) as Hbp
    by (apply Forall_app; split; [apply bytes_pes_header|done]).
  destruct (packetize_parses (length (frame_pes f data)) (frame_pid mux f) cc true pcr (dts f)
    (frame_pes f data)) as (slices & Hparse & Hcat & _ & Hnn & Hfirst);
    [done|unfold good_pid in Hg; lia|done|done|].
  eapply runs_mono.
  { eapply (runs_frame ma mt L _ _ s _ tk _ (is_audio f) f data); [apply Hlive|exact Hfor|exact Hnn|
      exact Hparse|exact Hcat|exact Hbp|exact Hfirst|exact Hlen|exact Hmax]. }
  intros s' [Hs' Htr]. pose proof Htr as [[_ Hf (more & Hmore & Hout)] (tk' & HR & Htracks)].
  specialize (Hout (sg_alloc _ _ _ _ _ _ (lv_stream _ _ Hlive))). rewrite Hmed in Hout.
  unfold pes_at, pes_out in HR, Hout. change (lenZ [] =? 0) with true in HR, Hout.
  rewrite andb_true_r in HR, Hout. rewrite Hc, Hi in Hout. fold (frame_out mux f data) in Hout. fold out in Hout.
  assert (au_media tk' = if is_audio f then [] else out) as Hmed'.
  { destruct (is_audio f); [by eapply clear_media|].
    rewrite (holding_media _ _ _ _ _ HR), Hc, Hi. done. }
  assert (∃ more, ds_out s' = ds_out s ++ more ∧ omap media more = if is_audio f then out else pending)
    as Hgoal.
  { exists more. split; [done|]. rewrite Hout. destruct (is_audio f); [done|apply app_nil_r]. }
  split; [|exact Hgoal]. split; [done| |].
  - intros Hv. destruct (is_audio f) eqn:E; [by apply Hlive|]. unfold frame_type in Ht. by rewrite E in Ht.
  - intros j t. rewrite Htracks, list_lookup_insert. case_decide as Hj.
    + destruct Hj as [<- _]. intros [= <-]. rewrite Hmed'. unfold frame_idx.
      destruct (is_audio f); [|done]. destruct (Z.eqb_spec (mx_video_stream_type mux) 0) as [E|]; [|done].
      by rewrite (lv_video _ _ Hlive E).
    + intros Hl. rewrite (lv_tracks _ _ Hlive _ _ Hl). destruct (Nat.eqb_spec j 0) as [->|]; [|done].
      destruct (is_audio f) eqn:E; [done|]. destruct Hj. unfold frame_idx. rewrite E. split; [done|].
      by eapply lookup_lt_Some.
Qed.

(** Before the first table there are no tracks. *)
Record silent (s : dstate) : Prop := {
  si_settled : settled ma mt L s;
  si_alloc : alloc_ok (ds_store s);
  si_tracks : dx_tracks (ds_dx s) = [] }.

(** Either the tables were seen, or nothing was. *)
Definition started (pending : list (Z * Z * Z * bool * list Z)) (s : dstate) : Prop :=
  live pending s ∨ silent s ∧ pending = [].

Lemma started_bump pending s x t :
  bytes t → (length t < 188)%nat → started pending s → started pending (bump x t s).
Proof.
  intros Hb Hl [?|[[(Hi & ? & ?) ? ?] ?]]; [left; by apply live_bump|right]. split; [|done].
  split; [split; [|by split]|done|done]. destruct Hi as [[] ? ? ?]. by split; [split|..].
Qed.
Lemma started_settled pending s : started pending s → settled ma mt L s ∧ alloc_ok (ds_store s).
Proof. intros [[[] _ _]|[[] _]]; done. Qed.

Lemma streams_some : mux_streams mux ≠ [].
Proof.
  unfold mux_streams. destruct (mo_some _ Hmux) as [E|E]; rewrite (proj2 (Z.eqb_neq _ _) E); [done|].
  by destruct (_ =? 0).
Qed.

(** The tables change nothing that is already known. *)
Lemma tables_live pending s tracks' s' :
  started pending s → dx_tracks (ds_dx s) = tracks' →
  settled ma mt L s' → announced mux (pmt_tracks (mux_streams mux) tracks') s s' → live pending s'.
Proof.
  intros Hst <- Hs' [Ha Hpv Hpp Ht _]. unfold pmt_tracks in Ht. destruct Hst as [[Hst Hv Htk]|[Hsi ->]].
  - rewrite bool_decide_eq_true_2 in Ht.
    + split; [|done|by rewrite Ht]. split; [done..|]. rewrite Ht. apply Hst.
    + pose proof (f_equal (fmap fst) (sg_tracks _ _ _ _ _ _ Hst)) as Hsig.
      unfold mux_sig in Hsig. rewrite <- !list_fmap_compose in Hsig.
      rewrite <- (list_fmap_id (mux_streams mux)) at 1. symmetry. etrans; [exact Hsig|].
      apply list_fmap_ext. by intros ? [].
  - rewrite (si_tracks _ Hsi), bool_decide_eq_false_2 in Ht by apply streams_some.
    assert (∀ i tk, dx_tracks (ds_dx s') !! i = Some tk → ∃ pid type, tk = new_track i pid type) as Hnew.
    { intros i tk. rewrite Ht, list_lookup_imap. destruct (_ !! i) as [[pid type]|]; [|done].
      intros [= <-]. by exists pid, type. }
    split; [|done|].
    + split; [done..|]. rewrite Ht. unfold mux_sig. apply list_eq. intros i.
      rewrite !list_lookup_fmap, list_lookup_imap. by destruct (_ !! i) as [[? ?]|].
    + intros i tk Hi. destruct (Hnew _ _ Hi) as (pid & type & ->). by destruct (i =? 0)%nat.
Qed.

Lemma runs_tables pending s cc1 cc2 :
  started pending s → Z.of_nat (length (mux_streams mux)) ≤ mt →
  runs [section_packet MUX_PID_PAT cc1 (mux_pat mux);
        section_packet (mc_pmt_pid (mx_conf mux)) cc2 (mux_pmt mux)]
    (λ s', live pending s' ∧ ∃ more, ds_out s' = ds_out s ++ more ∧ omap media more = []) s.
Proof.
  intros Hst Hmt. destruct (started_settled _ _ Hst) as [Hs Ha]. cbn [runs].
  eapply wp_mono; [by apply (wp_pat_packet ma mt L)|].
  intros [] s1 [Hs1 [Ha1 Hpv1 Hpp1 Ht1 Hq1]]. split; [apply (dinv_fit L), Hs1|]. intros x t Hb Hl.
  assert (settled ma mt L (bump x t s1)) as Hs1'.
  { destruct Hs1 as (Hi & ? & ?). split; [|by split]. destruct Hi as [[] ? ? ?]. by split; [split|..]. }
  eapply wp_mono; [by apply (wp_pmt_packet ma mt L)|].
  intros [] s2 [Hs2 Han2]. split; [apply (dinv_fit L), Hs2|]. intros x' t' Hb' Hl'.
  destruct Han2 as [? ? ? Htr ?]. split; [|by eapply quiet_trans].
  apply live_bump; [done|done|].
  eapply (tables_live pending s (dx_tracks (ds_dx s))); [done|done|done|]. split; [done..| |].
  - rewrite Htr. by rewrite <- Ht1.
  - by eapply quiet_trans.
Qed.

Lemma runs_stream items pkts pending s :
  stream_pkts mux items pkts → live pending s → Z.of_nat (length (mux_streams mux)) ≤ mt →
  Forall (λ x, frame_ok mux ma x.1 x.2) items →
  runs pkts (λ s', ∃ pending' more, live pending' s' ∧ ds_out s' = ds_out s ++ more ∧
    omap media more ++ pending' = demuxed mux pending items) s.
Proof.
  intros Hp. revert pending s. induction Hp as [|cc1 cc2 items pkts Hp IH|cc pcr f data items pkts Hp IH];
    intros pending s Hlive Hmt Hok.
  - exists pending, []. split_and!; [done|by rewrite app_nil_r|done].
  - change (?a :: ?b :: pkts) with ([a; b] ++ pkts). apply runs_app.
    eapply runs_mono; [by apply (runs_tables pending); [left|]|].
    intros s1 (Hl1 & m1 & Ho1 & E1). eapply runs_mono; [by apply (IH pending)|].
    intros s2 (p2 & m2 & Hl2 & Ho2 & E2). exists p2, (m1 ++ m2).
    split_and!; [done|by rewrite Ho2, Ho1, app_assoc|by rewrite omap_app, E1].
  - apply Forall_cons in Hok as [Hf Hok]. apply runs_app.
    eapply runs_mono; [by apply (runs_item pending)|].
    intros s1 (Hl1 & m1 & Ho1 & E1). eapply runs_mono; [by apply IH|].
    intros s2 (p2 & m2 & Hl2 & Ho2 & E2). exists p2, (m1 ++ m2).
    split_and!; [done|by rewrite Ho2, Ho1, app_assoc|]. rewrite omap_app, E1, <- app_assoc, E2.
    cbn [demuxed]. by destruct (is_audio f).
Qed.

(** ** The end of the stream *)

Lemma wp_flush_live pending s :
  live pending s →
  wp demux_flush (λ _ s', settled ma mt L s' ∧
    ∃ more, ds_out s' = ds_out s ++ more ∧ omap media more = pending) s.
Proof.
  intros Hlive. apply wp_and; [apply wp_demux_flush, Hlive|].
  unfold demux_flush. apply wp_bind, wp_dx_get. rewrite (dxo_live _ (di_dx _ _ (proj1 (sg_settled _ _ _ _ _ _ (lv_stream _ _ Hlive))))).
  cbn [negb]. apply wp_bind, wp_dx_get.
  set (n := length (dx_tracks (ds_dx s))).
  assert (0 < n)%nat as Hn.
  { unfold n. rewrite <- (length_fmap tk_sig), (sg_tracks _ _ _ _ _ _ (lv_stream _ _ Hlive)).
    unfold mux_sig. rewrite length_fmap. pose proof streams_some. destruct (mux_streams mux); [done|cbn; lia]. }
  set (I := λ (k : nat) (s' : dstate), streaming ma mt L (mc_pmt_pid (mx_conf mux)) (mux_sig mux) s' ∧
    length (dx_tracks (ds_dx s')) = n ∧
    (∀ i tk, (k ≤ i)%nat → dx_tracks (ds_dx s') !! i = Some tk →
       au_media tk = if (i =? 0)%nat then pending else []) ∧
    ∃ more, ds_out s' = ds_out s ++ more ∧ omap media more = if (k =? 0)%nat then [] else pending).
  eapply wp_mono; [apply (wp_for_tracks I)|].
  - split_and!; [apply Hlive|done|intros; by apply (lv_tracks _ _ Hlive)|]. exists []. by rewrite app_nil_r.
  - intros j s1 Hj (Hs1 & Hn1 & Htk1 & more & Ho & Hm).
    destruct (lookup_lt_is_Some_2 (dx_tracks (ds_dx s1)) j) as [tk Htk]; [lia|].
    eapply wp_mono; [apply (wp_au_flush L s1 j tk); [apply Hs1|done]|]. intros [] s2 Htr.
    pose proof (streaming_tracked _ _ _ _ _ _ _ _ _ _ _ Hs1 Htk Htr) as Hs2.
    destruct Htr as [[_ _ (m2 & Ho2 & Hm2)] (tk' & _ & Ht2)]. split_and!; [done| | |].
    + by rewrite Ht2, length_insert.
    + intros i t Hi. rewrite Ht2, list_lookup_insert_ne by lia. apply Htk1. lia.
    + exists (more ++ m2). split; [by rewrite Ho2, Ho, app_assoc|].
      rewrite omap_app, Hm, Hm2 by apply Hs1. rewrite (Htk1 j tk) by done.
      destruct j; [done|]. cbn. apply app_nil_r.
  - intros [] s' (_ & _ & _ & more & Ho & Hm). exists more. split; [done|]. by destruct n; [lia|].
Qed.
End frames.

(** ** Feeding packets in pieces *)

Lemma split_packets (l future : list Z) (pkts : list (list Z)) :
  Forall ts_packet pkts → l ++ future = concat pkts →
  ∃ ps qs rest, pkts = ps ++ qs ∧ l = concat ps ++ rest ∧ rest ++ future = concat qs ∧
    (length rest < 188)%nat.
Proof.
  intros Hp. revert l. induction Hp as [|p pkts Hp _ IH]; intros l Hl.
  - exists [], [], []. apply app_eq_nil in Hl as [-> ->]. split_and!; (done || cbn; lia).
  - destruct Hp as (_ & Hlen & _). destruct (Nat.ltb_spec (length l) 188) as [Hlt|Hge].
    { exists [], (p :: pkts), l. by split_and!. }
    cbn [concat] in Hl. assert (take 188 l = p) as Ht.
    { apply (f_equal (take 188)) in Hl. rewrite <- Hlen in Hl at 2.
      rewrite take_app_length, take_app_le in Hl by done. exact Hl. }
    rewrite <- (take_drop 188 l), Ht, <- app_assoc in Hl. apply app_inv_head in Hl.
    destruct (IH _ Hl) as (ps & qs & rest & -> & Hl' & Hr & Hlt).
    exists (p :: ps), qs, rest. split_and!; [done| |done|done].
    cbn [concat]. by rewrite <- app_assoc, <- Hl', <- Ht, take_drop.
Qed.

(** [s] is where [pkts] remain to be processed. *)
Definition before (Q : dstate → Prop) (pkts : list (list Z)) (s : dstate) : Prop :=
  fit s ∧ ∀ x t, bytes t → (length t < 188)%nat → runs pkts Q (bump x t s).

Lemma before_bump Q pkts s x t :
  bytes t → (length t < 188)%nat → before Q pkts s → before Q pkts (bump x t s).
Proof. intros Hb Hl [[? _] Hr]. by split. Qed.
Lemma before_runs Q pkts s : before Q pkts s → runs pkts Q s.
Proof.
  intros [(_ & Hb & Hl) Hr]. specialize (Hr (dx_stats (ds_dx s)) _ Hb Hl).
  by replace (bump _ _ s) with s in Hr by (by destruct s as [[] ? ?]).
Qed.
Lemma wp_stat_before Q pkts s f (R : unit → dstate → Prop) :
  before Q pkts s →
  (∀ s', before Q pkts s' → dx_tail (ds_dx s') = dx_tail (ds_dx s) → R tt s') → wp (stat f) R s.
Proof.
  intros Hb HR. apply wp_stat, HR; [|done]. pose proof Hb as [(_ & Ht & Hl) _].
  by apply (before_bump Q pkts s (f (dx_stats (ds_dx s))) (dx_tail (ds_dx s))) in Hb.
Qed.
Lemma wp_tail_before Q pkts s t (R : unit → dstate → Prop) :
  before Q pkts s → bytes t → (length t < 188)%nat →
  (∀ s', before Q pkts s' → dx_tail (ds_dx s') = t → R tt s') →
  wp (dx_mod (λ dx, dx <| dx_tail := t |>)) R s.
Proof.
  intros Hb Ht Hl HR. apply wp_dx_mod, HR; [|done].
  by apply (before_bump Q pkts s (dx_stats (ds_dx s)) t) in Hb.
Qed.

Lemma wp_loop_before Q fuel d off ps qs rest s :
  before Q (ps ++ qs) s → Forall ts_packet ps → drop off d = concat ps ++ rest →
  (off ≤ length d)%nat → (length rest < 188)%nat → (length d - off < fuel)%nat →
  wp (feed_loop fuel d off) (λ off' s', drop off' d = rest ∧ before Q qs s') s.
Proof.
  revert fuel off s. induction ps as [|p ps IH]; intros fuel off s Hb Hps Hd Hoff Hr Hf.
  - cbn [concat app] in Hd, Hb. assert (length d - off < 188)%nat by (by rewrite <- length_drop, Hd).
    destruct fuel; [lia|]. cbn [feed_loop]. rewrite (proj2 (Nat.leb_gt _ _)) by lia. by apply wp_ret.
  - apply Forall_cons in Hps as [(Hpb & Hpl & Hp0) Hps]. cbn [concat] in Hd. rewrite <- app_assoc in Hd.
    pose proof (f_equal length Hd) as Hlen. rewrite length_drop, length_app, Hpl in Hlen.
    destruct fuel; [lia|]. cbn [feed_loop]. rewrite (proj2 (Nat.leb_le _ _)) by lia.
    assert (d !! off = Some TS_SYNC_BYTE) as Hb0.
    { rewrite <- (Nat.add_0_r off), <- lookup_drop, Hd. by rewrite lookup_app_l by lia. }
    eapply wp_sread; [exact Hb0|]. rewrite Z.eqb_refl.
    assert (take 188 (drop off d) = p) as -> by (rewrite Hd, <- Hpl; apply take_app_length).
    apply wp_bind. apply before_runs in Hb. cbn [app runs] in Hb.
    eapply wp_mono; [exact Hb|]. intros [] s1 Hb1.
    apply IH; [exact Hb1|done| |lia|done|lia].
    rewrite <- drop_drop, Hd, <- Hpl. apply drop_app_length.
Qed.

Lemma wp_rest_before Q d off ps qs rest s :
  before Q (ps ++ qs) s → Forall ts_packet ps → drop off d = concat ps ++ rest →
  (off ≤ length d)%nat → (length rest < 188)%nat → bytes d →
  wp (feed_rest d off) (λ _ s', before Q qs s' ∧ dx_tail (ds_dx s') = rest) s.
Proof.
  intros Hb Hps Hd Ho Hr Hbd. unfold feed_rest. apply wp_bind.
  eapply wp_mono; [by apply (wp_loop_before Q _ _ _ ps qs rest); [..|lia]|].
  intros off' s1 [<- Hb1]. apply wp_bind. eapply wp_tail_before; [done|by apply Forall_drop|done|].
  intros s2 Hb2 Ht2. by apply wp_ret.
Qed.

Lemma wp_feed_before Q data future pkts s :
  before Q pkts s → Forall ts_packet pkts → dx_tail (ds_dx s) ++ data ++ future = concat pkts →
  bytes data →
  wp (demux_feed data) (λ _ s', ∃ qs, before Q qs s' ∧ Forall ts_packet qs ∧
    dx_tail (ds_dx s') ++ future = concat qs) s.
Proof.
  intros Hb Hp Hd Hbd. unfold demux_feed. apply wp_bind, wp_dx_get.
  pose proof Hb as [(-> & Htb & Htl) _]. cbn [negb]. apply wp_bind.
  eapply wp_stat_before; [exact Hb|]. clear Hb. intros s1 Hb Ht1. rewrite <- Ht1 in Hd, Htb, Htl.
  clear s Ht1. rename s1 into s. apply wp_bind, wp_dx_get.
  destruct (dx_tail (ds_dx s)) as [|b t] eqn:Et.
  { destruct (split_packets data future pkts Hp Hd) as (ps & qs & rest & -> & Hdat & Hrest & Hlt).
    apply Forall_app in Hp as [Hps Hqs].
    eapply wp_mono; [by apply (wp_rest_before Q data 0 ps qs rest); [..|lia| |]|].
    intros r s' [Hb' ->]. by exists qs. }
  cbv zeta. set (tl := b :: t) in *. set (n := Nat.min _ _).
  assert (length (tl ++ take n data) = (length tl + n)%nat) as Hlen
    by (rewrite length_app, length_take; lia).
  assert (bytes (tl ++ take n data)) as Hbt by (by apply Forall_app; split; [|apply Forall_take]).
  rewrite Hlen. destruct (Nat.ltb_spec (length tl + n) 188).
  { assert (take n data = data) as Hall by (apply take_ge; lia). rewrite Hall in *.
    apply wp_bind. eapply wp_tail_before; [exact Hb|done|by rewrite Hlen|].
    intros s' Hb' Ht'. apply wp_ret. exists pkts. split; [done|]. split; [done|].
    by rewrite Ht', <- app_assoc. }
  rewrite app_assoc in Hd.
  destruct (split_packets (tl ++ data) future pkts Hp Hd) as (ps & qs & rest & -> & Hdat & Hrest & Hlt).
  apply Forall_app in Hp as [Hps Hqs]. destruct ps as [|p ps].
  { cbn [concat app] in Hdat. rewrite <- Hdat, length_app in Hlt. lia. }
  apply Forall_cons in Hps as [(Hpb & Hpl & Hp0) Hps]. cbn [concat] in Hdat. rewrite <- app_assoc in Hdat.
  assert (tl ++ take n data = p ∧ drop n data = concat ps ++ rest) as [Hpk Hdr].
  { rewrite <- (take_drop n data), app_assoc in Hdat. by apply app_inj_1 in Hdat; [|lia]. }
  assert (b = TS_SYNC_BYTE) as -> by (rewrite <- Hpk in Hp0; by injection Hp0).
  rewrite Z.eqb_refl, Hpk. apply wp_bind. apply before_runs in Hb. cbn [app runs] in Hb.
  eapply wp_mono; [exact Hb|]. intros [] s1 Hb1. apply wp_bind.
  eapply wp_tail_before; [exact Hb1|by apply List.Forall_nil|cbn; lia|]. intros s2 Hb2 _.
  eapply wp_mono; [apply (wp_rest_before Q data n ps qs rest); [done|done|done|lia|done|done]|].
  intros r s' [Hb' ->]. by exists qs.
Qed.

Lemma wp_feed_packets Q chunks pkts s :
  before Q pkts s → Forall ts_packet pkts → dx_tail (ds_dx s) ++ concat chunks = concat pkts →
  Forall bytes chunks →
  wp (feed_chunks chunks) (λ _ s', Q s') s.
Proof.
  revert pkts s. induction chunks as [|c chunks IH]; intros pkts s Hb Hp Hd Hc.
  - cbn [concat] in Hd. rewrite app_nil_r in Hd. pose proof Hb as [(_ & _ & Htl) _].
    destruct pkts as [|p pkts]; [|].
    + apply wp_ret. by apply before_runs in Hb.
    + apply Forall_cons in Hp as [(_ & Hpl & _) _]. rewrite Hd in Htl. cbn [concat] in Htl.
      rewrite length_app in Htl. lia.
  - apply Forall_cons in Hc as [Hc Hcs]. apply wp_bind.
    eapply wp_mono; [by apply (wp_feed_before Q c (concat chunks) pkts)|].
    intros r s1 (qs & Hb1 & Hq & Hd1). by apply (IH qs).
Qed.
