(* ===== verification/TsSession.v ===== *)
(** * From frames to frames

    Whole bursts of TsMux.v, and the theorem that a stream of them, fed to TsDemux.v in
    pieces of any size, yields the frames that were written. *)
From S2P Require Import Prelude Bytes Store TsCrc Compat Nal Aac TsMux TsDemux TsDemuxSafe TsRoundtrip TsStream.

(** ** A burst *)

(** Frames are written until one does not fit. *)
Fixpoint write_frames (mux : ts_mux) (burst : ts_burst) (fs : list (frame * bool))
    : M (rc * ts_mux * ts_burst) :=
  match fs with
  | [] => mret (NGX_OK, mux, burst)
  | (f, pcr) :: fs =>
      '(r, mux, burst) ← write_frame mux burst f pcr;
      if bool_decide (r = NGX_OK) then write_frames mux burst fs else mret (r, mux, burst)
  end.

(** A burst from beginning to end, and the bytes of its backing. *)
Definition mux_burst (mux : ts_mux) (capacity : Z) (fs : list (frame * bool))
    : M (rc * ts_mux * list Z) :=
  '(r, mux, burst) ← burst_init mux capacity;
  if negb (bool_decide (r = NGX_OK)) then mret (r, mux, [])
  else
    '(r, mux, burst) ← write_frames mux burst fs;
    if negb (bool_decide (r = NGX_OK)) then mret (r, mux, [])
    else
      '(r, mux) ← burst_end mux burst;
      match bu_backing burst with
      | None => ub
      | Some b => data ← payload_data b; mret (r, mux, data)
      end.

(** The parts of a muxer that decide what its packets look like. *)
Record same_mux (mux mux' : ts_mux) : Prop := {
  sm_conf : mx_conf mux' = mx_conf mux;
  sm_video : mx_video_stream_type mux' = mx_video_stream_type mux;
  sm_audio : mx_audio_stream_type mux' = mx_audio_stream_type mux;
  sm_ready : mx_tracks_ready mux' = mx_tracks_ready mux }.
#[global] Instance same_mux_preorder : PreOrder same_mux.
Proof. split; [by split|]. intros a b c [? ? ? ?] [? ? ? ?]. split; congruence. Qed.

Lemma same_mux_ok mux mux' : same_mux mux mux' → mux_ok mux → mux_ok mux'.
Proof. intros [Hc Hv Ha Hr] []. split; by rewrite ?Hc, ?Hv, ?Ha, ?Hr. Qed.
Lemma same_mux_pat mux mux' : same_mux mux mux' → mux_pat mux' = mux_pat mux.
Proof. intros [Hc _ _ _]. unfold mux_pat. by rewrite Hc. Qed.
Lemma same_mux_pmt mux mux' : same_mux mux mux' → mux_pmt mux' = mux_pmt mux.
Proof. intros [? ? ? _]. by apply mux_pmt_ext. Qed.

(** Tables of the same muxer at another time. *)
Lemma stream_pkts_same mux mux' items pkts :
  same_mux mux mux' → stream_pkts mux' items pkts → stream_pkts mux items pkts.
Proof.
  intros Hs. induction 1 as [|cc1 cc2 items pkts _ IH|cc pcr f data items pkts _ IH].
  - constructor.
  - rewrite (same_mux_pat mux mux' Hs), (same_mux_pmt mux mux' Hs), (sm_conf _ _ Hs). by constructor.
  - assert (frame_pid mux' f = frame_pid mux f) as -> by (unfold frame_pid; by rewrite (sm_conf _ _ Hs)).
    by constructor.
Qed.
Lemma stream_pkts_app mux items1 pkts1 items2 pkts2 :
  stream_pkts mux items1 pkts1 → stream_pkts mux items2 pkts2 →
  stream_pkts mux (items1 ++ items2) (pkts1 ++ pkts2).
Proof. induction 1; intros H2; cbn [app]; [done|constructor; auto|]. rewrite <- app_assoc. constructor. auto. Qed.

(** A frame whose payload, held by someone, is frozen in the store. *)
Definition loaded (L : list N) (st : store) (x : frame * bool) (data : list Z) : Prop :=
  ∃ p, payload x.1 = Some p ∧ carries st p data ∧ p ∈ L.

(** Another buffer of the store is written. *)
Lemma carries_other st b d p data : p ≠ b → carries st p data → carries (set_data b d st) p data.
Proof. intros Hne (bf & Hb & Hl & Ht). exists bf. by rewrite set_data_other. Qed.

Lemma write_frame_full mux burst f pcr s p :
  is_Some (bu_backing burst) → payload f = Some p → mx_tracks_ready mux = true →
  MUX_MAX_SLICES ≤ Z.of_nat (length (bu_slices burst)) →
  write_frame mux burst f pcr s = Some ((NGX_AGAIN, mux, burst), s).
Proof.
  intros [b Hb] Hp Hr Hn. unfold write_frame.
  by rewrite Hb, Hp, Hr, (proj2 (Z.leb_le _ _) Hn).
Qed.

Lemma wp_write_frames fs : ∀ b content burst mux datas s,
  at_burst b content burst s → mux_ok mux →
  Forall2 (λ x d, ∃ p, payload x.1 = Some p ∧ carries s p d ∧ p ≠ b) fs datas →
  wp (write_frames mux burst fs) (λ r s', r.1.1 = NGX_OK →
    ∃ pkts, at_burst b (content ++ concat pkts) r.2 s' ∧
      stream_pkts mux (zip fs.*1 datas) pkts ∧ same_mux mux r.1.2) s.
Proof.
  induction fs as [|[f pcr] fs IH]; intros b content burst mux datas s Hat Hm Hl.
  { apply Forall2_nil_inv_l in Hl as ->. apply wp_ret. intros _. exists []. cbn.
    rewrite app_nil_r. split_and!; [done|constructor|done]. }
  apply Forall2_cons_inv_l in Hl as (d & ds & (p & Hp & Hc & Hne) & Hl & ->). cbn [fst] in Hp.
  cbn [write_frames]. apply wp_bind.
  destruct (Z.ltb_spec (Z.of_nat (length (bu_slices burst))) MUX_MAX_SLICES) as [Hsl|Hsl].
  2: { eexists _, _. split; [apply (write_frame_full mux burst f pcr s p)|];
       [by rewrite (ab_backing _ _ _ _ Hat)|done|apply Hm|done|]. by apply wp_ret. }
  eapply wp_mono; [apply (wp_write_frame b content burst mux f pcr p d s); [done..|apply Hm|done]|].
  intros [[r mux1] burst1] s1 [(dd & ->) Hpost]. revert Hpost.
  destruct (Z.leb_spec (lenZ content + 188 * Z.of_nat (length (frame_packets mux f pcr d)))
    (bu_capacity burst)).
  2: { intros [[= -> -> ->] _]. by apply wp_ret. }
  intros (-> & Hat1 & Hw & _). rewrite bool_decide_eq_true_2 by done.
  assert (same_mux mux mux1) as Hsame.
  { destruct Hw as [? (? & ? & ?) _ _ _ _]. by split. }
  eapply wp_mono; [apply (IH b (content ++ concat (frame_packets mux f pcr d)) burst1 mux1 ds);
    [exact Hat1|exact (same_mux_ok _ _ Hsame Hm)|]|].
  { eapply Forall2_impl; [exact Hl|]. intros x e (q & Hq & Hcq & Hqne). exists q.
    split_and!; [done|by apply carries_other|done]. }
  intros [[r2 mux2] burst2] s2 Hend Hr. destruct (Hend Hr) as (pkts & Hat2 & Hst & Hs2).
  exists (frame_packets mux f pcr d ++ pkts). split_and!.
  - by rewrite concat_app, app_assoc.
  - cbn [zip zip_with fmap list_fmap fst]. constructor. by eapply stream_pkts_same.
  - by etrans.
Qed.

Lemma psi_content_tables mux capacity :
  mux_ok mux → 376 ≤ capacity →
  psi_content mux capacity = concat
    [section_packet MUX_PID_PAT (mx_cc_pat mux) (mux_pat mux);
     section_packet (mc_pmt_pid (mx_conf mux)) (mx_cc_pmt mux) (mux_pmt mux)].
Proof.
  intros Hm Hc. unfold psi_content, put_section. rewrite (mo_ready _ Hm).
  change (lenZ []) with 0. rewrite (proj2 (Z.ltb_ge (capacity - 0) 188)) by lia. cbn [app].
  pose proof (section_packet_whole MUX_PID_PAT (mx_cc_pat mux) (mux_pat mux) (bytes_mux_pat mux))
    as (_ & Hl & _); [rewrite mux_pat_length; lia|].
  set (pat := section_packet _ _ (mux_pat mux)) in *.
  rewrite (proj2 (Z.ltb_ge (capacity - lenZ pat) 188)) by (unfold lenZ; lia).
  cbn [concat]. by rewrite app_nil_r.
Qed.

Lemma wp_mux_burst mux capacity fs datas L s :
  owns s L → mux_ok mux → 376 ≤ burst_capacity mux capacity → Forall2 (loaded L s) fs datas →
  wp (mux_burst mux capacity fs) (λ r s', r.1.1 = NGX_OK →
    ∃ cc1 cc2 pkts, r.2 = concat (section_packet MUX_PID_PAT cc1 (mux_pat mux)
        :: section_packet (mc_pmt_pid (mx_conf mux)) cc2 (mux_pmt mux) :: pkts) ∧
      stream_pkts mux (zip fs.*1 datas) pkts ∧ same_mux mux r.1.2) s.
Proof.
  intros Ho Hm Hcap Hl. unfold mux_burst. apply wp_bind.
  eapply wp_mono; [by apply (wp_burst_init mux capacity L); [|lia]|].
  intros r s1 (Hev & Hk & [[-> _]|(b & mux1 & burst1 & -> & _ & Hb & _ & _ & _ & Hat & Hst)]).
  { by apply wp_ret. }
  cbn [fst snd]. rewrite bool_decide_eq_true_2 by done. cbn [negb].
  assert (same_mux mux mux1) as Hs1.
  { destruct Hst as [? (? & ? & ?) _ _]. by split. }
  assert (mux_ok mux1) as Hm1 by exact (same_mux_ok _ _ Hs1 Hm).
  rewrite (psi_content_tables mux) in Hat by done.
  apply wp_bind. eapply wp_mono;
    [eapply (wp_write_frames fs b _ burst1 mux1 datas); [exact Hat|exact Hm1|]|].
  { eapply Forall2_impl; [exact Hl|]. intros x d (p & Hp & (bf & Hbf & Hrest) & Hin). exists p.
    split_and!; [done| |by intros ->]. exists bf. rewrite Hk; [done|by eapply owns_lt]. }
  intros [[r mux2] burst2] s2 Hpost. cbn [fst snd] in Hpost.
  destruct (bool_decide_reflect (r = NGX_OK)) as [->|Hr]; cbn [negb]; [|by apply wp_ret].
  destruct (Hpost eq_refl) as (pkts & Hat2 & Hst2 & Hs2). apply wp_bind.
  eapply wp_mono; [by eapply (wp_burst_end b)|]. intros [r3 mux3] s3 ([= -> ->] & Hc3 & _).
  rewrite (ab_backing _ _ _ _ Hat2). apply wp_bind.
  eapply wp_mono; [by apply wp_payload_data|]. intros data s4 [-> ->]. apply wp_ret. intros _.
  cbn [fst snd]. eexists _, _, pkts. split_and!.
  - rewrite <- concat_app. done.
  - by eapply stream_pkts_same.
  - etrans; [exact Hs1|]. etrans; [exact Hs2|]. by split.
Qed.

(** ** A session *)

(** The bytes of burst after burst, with the frames in them.  Between two bursts the store
    may change in any way, as long as the payloads written are frozen and held. *)
Inductive session (mux : ts_mux) : list (frame * list Z) → list Z → Prop :=
  | session_nil : session mux [] []
  | session_burst L s capacity fs datas mux' data s' items bytes :
      owns s L → Forall2 (loaded L s) fs datas → 376 ≤ burst_capacity mux capacity →
      mux_burst mux capacity fs s = Some ((NGX_OK, mux', data), s') →
      session mux' items bytes →
      session mux (zip fs.*1 datas ++ items) (data ++ bytes).

(** Tables come first. *)
Definition tables_first (mux : ts_mux) (items : list (frame * list Z)) (pkts : list (list Z)) : Prop :=
  pkts = [] ∧ items = [] ∨ ∃ cc1 cc2 pkts', pkts = section_packet MUX_PID_PAT cc1 (mux_pat mux)
    :: section_packet (mc_pmt_pid (mx_conf mux)) cc2 (mux_pmt mux) :: pkts' ∧
    stream_pkts mux items pkts'.

Lemma tables_first_stream mux items pkts : tables_first mux items pkts → stream_pkts mux items pkts.
Proof. intros [[-> ->]|(cc1 & cc2 & pkts' & -> & ?)]; by constructor. Qed.

Lemma session_packets mux items bytes :
  mux_ok mux → session mux items bytes →
  ∃ pkts, bytes = concat pkts ∧ tables_first mux items pkts.
Proof.
  intros Hm Hs. revert Hm.
  induction Hs as [|mux L s capacity fs datas mux' data s' items bytes Ho Hl Hcap Hrun Hs IH]; intros Hm.
  { exists []. split; [done|by left]. }
  pose proof (wp_run _ _ _ _ _ (wp_mux_burst mux capacity fs datas L s Ho Hm Hcap Hl) Hrun eq_refl)
    as (cc1 & cc2 & pkts & Hdata & Hst & Hsame). cbn [fst snd] in Hdata, Hsame.
  destruct (IH (same_mux_ok _ _ Hsame Hm)) as (pkts' & Hbytes & Hst'%tables_first_stream).
  exists ((section_packet MUX_PID_PAT cc1 (mux_pat mux)
    :: section_packet (mc_pmt_pid (mx_conf mux)) cc2 (mux_pmt mux) :: pkts) ++ pkts'). split_and!.
  - by rewrite concat_app, Hdata, Hbytes.
  - right. eexists _, _, _. split; [reflexivity|].
    apply stream_pkts_app; [done|by eapply stream_pkts_same].
Qed.

Lemma stream_pkts_whole mux items pkts :
  mux_ok mux → Forall (λ x, bytes x.2) items → stream_pkts mux items pkts → Forall ts_packet pkts.
Proof.
  intros Hm Hb Hs. induction Hs as [|cc1 cc2 items pkts _ IH|cc pcr f data items pkts _ IH].
  - constructor.
  - constructor; [apply section_packet_whole; [apply bytes_mux_pat|rewrite mux_pat_length; lia]|].
    constructor; [|by apply IH]. apply section_packet_whole; [apply bytes_mux_pmt|].
    etrans; [apply mux_pmt_length|lia].
  - apply Forall_cons in Hb as [Hb Hbs]. apply Forall_app. split; [|by apply IH].
    destruct (frame_pid_ok mux f Hm) as [Hg _]. pose proof (good_pid_range _ Hg).
    destruct (packetize_parses (length (frame_pes f data)) (frame_pid mux f) cc true pcr (dts f)
      (frame_pes f data)) as (_ & _ & _ & Hp & _); [done|unfold good_pid in Hg; lia|done| |done].
    apply Forall_app. split; [apply bytes_pes_header|done].
Qed.

(** ** Per track *)

Definition media_track (m : Z * Z * Z * bool * list Z) : Z := m.1.1.1.1.

Lemma adts_media_track fuel idx p d : Forall (λ m, media_track m = idx) (adts_media fuel idx p d).
Proof.
  revert p d. induction fuel as [|fuel IH]; intros p d; cbn [adts_media]; [constructor|].
  destruct (_ <? _); [constructor|]. destruct (adts_parse d adts_zero) as [[[] a]|]; try constructor.
  destruct (_ <? _); [constructor|]. cbv zeta. by constructor.
Qed.
Lemma frame_out_track mux f d :
  Forall (λ m, media_track m = Z.of_nat (frame_idx mux f)) (frame_out mux f d).
Proof.
  unfold frame_out, frame_media. destruct (_ =? 0); [constructor|].
  destruct (_ =? _); [apply adts_media_track|]. cbv zeta. destruct (has_vcl _ _); by repeat constructor.
Qed.

(** The frames of one track, in order. *)
Definition track_out (mux : ts_mux) (i : nat) (items : list (frame * list Z)) :=
  concat ((λ x, if (frame_idx mux x.1 =? i)%nat then frame_out mux x.1 x.2 else []) <$> items).

Lemma filter_track i (l : list (Z * Z * Z * bool * list Z)) j :
  Forall (λ m, media_track m = Z.of_nat j) l →
  filter (λ m, media_track m = Z.of_nat i) l = if (j =? i)%nat then l else [].
Proof.
  intros Hl. induction Hl as [|m l Hm _ IH]; [by destruct (_ =? _)%nat|].
  rewrite filter_cons, IH. destruct (Nat.eqb_spec j i) as [->|Hne]; case_decide; (done || lia).
Qed.

(** Frames of a track keep their order; only across tracks a video frame comes later. *)
Lemma demuxed_track mux i items pending :
  Forall (λ m, media_track m = 0) pending → (mx_video_stream_type mux = 0 → pending = []) →
  Forall (λ x, frame_type mux x.1 ≠ 0) items →
  filter (λ m, media_track m = Z.of_nat i) (demuxed mux pending items)
  = (if (i =? 0)%nat then pending else []) ++ track_out mux i items.
Proof.
  intros Hp Hv Hi. revert pending Hp Hv. induction Hi as [|[f d] items Ht _ IH]; intros pending Hp Hv;
    cbn [demuxed].
  { unfold track_out. cbn. rewrite (filter_track i pending 0) by done.
    rewrite app_nil_r. by destruct i. }
  pose proof (frame_out_track mux f d) as Hf. unfold track_out. cbn [fmap list_fmap concat fst snd] in *.
  fold (track_out mux i items). unfold frame_type in Ht. destruct (is_audio f) eqn:Ea.
  - rewrite filter_app, (filter_track i _ _ Hf), IH by done. unfold frame_idx. rewrite Ea. cbn [andb].
    destruct (Z.eqb_spec (mx_video_stream_type mux) 0) as [E|]; cbn [negb].
    + rewrite Hv by done. by destruct (i =? 0)%nat, (0 =? i)%nat.
    + destruct i as [|[|i]]; cbn; by rewrite ?app_nil_r.
  - assert (frame_idx mux f = 0%nat) as Hidx by (unfold frame_idx; by rewrite Ea).
    rewrite Hidx in *. rewrite filter_app, (filter_track i pending 0), IH by done.
    rewrite (Nat.eqb_sym 0 i). by destruct (i =? 0)%nat.
Qed.

(** ** The claim *)

Lemma bytes_concat l : bytes (concat l) ↔ Forall bytes l.
Proof.
  induction l as [|x l IH]; cbn [concat]; [by split; constructor|].
  unfold bytes in *. by rewrite Forall_app, IH, Forall_cons.
Qed.

Lemma demux_init_fresh conf st dx st0 :
  demux_init conf st = Some ((NGX_OK, dx), st0) → dx_tracks dx = [] ∧ dx_tail dx = [].
Proof.
  unfold demux_init. cbv zeta. destruct (_ <=? _); [done|]. unfold mbind, SM_bind, ngx_alloc.
  destruct (_ && _); [|done]. by intros [= <- _].
Qed.

Section claim.
Context (mux : ts_mux) (ma mt : Z) (L : list N) (items : list (frame * list Z)).

(** Everything but the pending frame is out. *)
Definition streamed (s : dstate) : Prop :=
  ∃ pending, started ma mt L mux pending s ∧ omap media (ds_out s) ++ pending = demuxed mux [] items.

Lemma streamed_before pkts s :
  mux_ok mux → tables_first mux items pkts →
  Forall (λ x, frame_ok mux ma x.1 x.2) items → Z.of_nat (length (mux_streams mux)) ≤ mt →
  silent ma mt L s → ds_out s = [] → before streamed pkts s.
Proof.
  intros Hm Hfirst Hok Hmt Hs Hout. split; [by apply (dinv_fit L), Hs|].
  intros x t Hb Hl.
  assert (started ma mt L mux [] (bump x t s)) as Hstart.
  { apply started_bump; [exact Hb|exact Hl|]. right. by split. }
  destruct Hfirst as [[-> Hi]|(cc1 & cc2 & pkts' & -> & Hst)].
  { exists []. split; [done|]. change (ds_out (bump x t s)) with (ds_out s). by rewrite Hout, Hi. }
  change (?a :: ?b :: pkts') with ([a; b] ++ pkts'). apply runs_app.
  eapply runs_mono; [by apply (runs_tables ma mt L mux Hm [])|].
  intros s1 (Hl1 & m1 & Ho1 & E1). change (ds_out (bump x t s)) with (ds_out s) in Ho1. rewrite Hout in Ho1. cbn [app] in Ho1.
  eapply runs_mono; [by apply (runs_stream ma mt L mux Hm items pkts' [])|].
  intros s2 (p2 & m2 & Hl2 & Ho2 & E2). exists p2. split; [by left|].
  rewrite Ho2, Ho1, omap_app, E1. exact E2.
Qed.

Lemma wp_flush_streamed s :
  mux_ok mux → streamed s →
  wp demux_flush (λ _ s', omap media (ds_out s') = demuxed mux [] items) s.
Proof.
  intros Hm (pending & [Hl|[Hsi ->]] & Hout).
  - eapply wp_mono; [by apply (wp_flush_live ma mt L mux Hm pending)|].
    intros [] s' (_ & more & Ho & Hmore). by rewrite Ho, omap_app, Hmore.
  - unfold demux_flush. apply wp_bind, wp_dx_get.
    rewrite (dxo_live _ (di_dx _ _ (proj1 (si_settled _ _ _ _ Hsi)))). cbn [negb].
    apply wp_bind, wp_dx_get. rewrite (si_tracks _ _ _ _ Hsi). apply wp_ret. by rewrite app_nil_r in Hout.
Qed.
End claim.

(** C10: what the muxer writes, the demuxer reads.  Bursts of any number of frames, written by
    a muxer whose tracks are set and cut into pieces of any size, come out of a demuxer that
    was just initialised as the frames that were written: every video frame with its bytes,
    its timestamps modulo 2^33 and its keyframe flag, every audio payload as its ADTS frames;
    a track keeps its order, and a video frame is delivered when the next one starts or at
    the flush. *)
Theorem mux_demux_roundtrip mux items data chunks conf L st dx st0 :
  mux_ok mux → session mux items data →
  Forall (λ x, frame_ok mux (conf_max_au conf) x.1 x.2) items →
  0 ≤ dc_max_tracks conf → 0 ≤ dc_max_au_bytes conf ≤ 2 ^ 60 →
  Z.of_nat (length (mux_streams mux)) ≤ conf_max_tracks conf →
  owns st L → alloc_ok st → demux_init (Some conf) st = Some ((NGX_OK, dx), st0) →
  concat chunks = data →
  ∃ s1 s2, feed_chunks chunks (mk_dstate dx [] st0) = Some (tt, s1) ∧
    demux_flush s1 = Some (tt, s2) ∧
    omap media (ds_out s2) = demuxed mux [] items ∧
    ∀ i : nat, filter (λ m, media_track m = Z.of_nat i) (omap media (ds_out s2))
               = track_out mux i items.
Proof.
  intros Hm Hsess Hok Ht Ha Hmt Ho Hal Hinit Hcat.
  destruct (session_packets mux items data Hm Hsess) as (pkts & -> & Hfirst).
  destruct (wp_run _ _ _ _ _ (wp_demux_init L conf st Ho Ht Ha) Hinit) as (_ & Hev & Hs & _).
  specialize (Hs eq_refl). cbn [fst snd] in Hs.
  assert (Forall ts_packet pkts) as Hw.
  { eapply stream_pkts_whole; [exact Hm| |by eapply tables_first_stream].
    eapply Forall_impl; [exact Hok|]. by intros ? []. }
  set (ma := conf_max_au conf) in *. set (mt := conf_max_tracks conf) in *.
  set (s0 := mk_dstate dx [] st0) in *.
  assert (silent ma mt L s0) as Hsi.
  { split; [done|by eapply alloc_ok_evolves|]. by apply (demux_init_fresh _ _ _ _ Hinit). }
  pose proof (streamed_before mux ma mt L items pkts s0 Hm Hfirst Hok Hmt Hsi eq_refl) as Hb.
  destruct (wp_feed_packets _ chunks pkts s0 Hb Hw) as ([] & s1 & H1 & HQ).
  { change (dx_tail (ds_dx s0)) with (dx_tail dx). rewrite (proj2 (demux_init_fresh _ _ _ _ Hinit)).
    exact Hcat. }
  { apply bytes_concat. rewrite Hcat. apply bytes_concat.
    eapply Forall_impl; [exact Hw|]. by intros ? []. }
  destruct (wp_flush_streamed mux ma mt L items s1 Hm HQ) as ([] & s2 & H2 & Hout).
  exists s1, s2. split_and!; [done..|]. intros i. rewrite Hout, demuxed_track; [by destruct (i =? 0)%nat| | |].
  - constructor.
  - done.
  - eapply Forall_impl; [exact Hok|]. by intros ? [].
Qed.

(** A burst with one video and one audio frame. *)
Definition ex_nal : list Z := [0; 0; 1; 0x65; 0x88].
Definition ex_adts : list Z := [0xFF; 0xF1; 0x4C; 0x80; 0x01; 0x1F; 0xFC; 0x21].
Definition ex_payloads : store :=
  mk_store {[ 0%N := mk_buf 1 5 100 ex_nal; 1%N := mk_buf 1 8 100 ex_adts ]} 2 (λ _ _, true).
Definition ex_frames : list (frame * bool) :=
  [(mk_frame TYPE_VIDEO CODEC_H264 1 0 9000 6000 true false (Some 0%N), true);
   (mk_frame TYPE_AUDIO CODEC_AAC 3 1 7000 7000 true false (Some 1%N), false)].
Definition ex_trackset : trackset :=
  mk_trackset [mk_track TYPE_VIDEO CODEC_H264 1 0 0 0 0 0 0 0 0 None;
               mk_track TYPE_AUDIO CODEC_AAC 3 0 0 0 0 0 0 48000 2 None] 2 2.
Definition ex_mux : ts_mux := Eval vm_compute in (mux_set_tracks (mux_init None) (Some ex_trackset)).2.
Definition ex_bytes : list Z :=
  Eval vm_compute in match mux_burst ex_mux 1000 ex_frames ex_payloads with
                     | Some ((_, _, data), _) => data
                     | None => []
                     end.
Definition ex_items : list (frame * list Z) := zip ex_frames.*1 [ex_nal; ex_adts].

Lemma ex_payloads_owns : owns ex_payloads [0%N; 1%N].
Proof.
  split; [split|..]; simpl.
  - intros id b [[<- _]|[_ [<- _]%lookup_singleton_Some]]%lookup_insert_Some; lia.
  - intros id b [[_ <-]|[_ [_ <-]%lookup_singleton_Some]]%lookup_insert_Some; simpl; lia.
  - intros id b [[<- <-]|[_ [<- <-]%lookup_singleton_Some]]%lookup_insert_Some; done.
  - intros id [?%lookup_singleton_None ?]%lookup_insert_None. set_solver.
Qed.
Lemma mux_demux_roundtrip_witness :
  ∃ s1 s2, feed_chunks [take 100 ex_bytes; drop 100 ex_bytes] (mk_dstate ex_demux [] ex_demux_store)
      = Some (tt, s1) ∧ demux_flush s1 = Some (tt, s2) ∧
    omap media (ds_out s2) = [(1, 7000, 7000, true, ex_adts); (0, 9000, 6000, true, ex_nal)].
Proof.
  destruct (mux_demux_roundtrip ex_mux ex_items ex_bytes [take 100 ex_bytes; drop 100 ex_bytes]
    (mk_demux_conf 2 4096) [0%N; 0%N] ex_store ex_demux ex_demux_store)
    as (s1 & s2 & H1 & H2 & Hout & _).
  - by split; [done|repeat constructor|repeat constructor|left|split|split|split|split_and!].
  - eapply (session_burst ex_mux [0%N; 1%N] ex_payloads 1000 ex_frames [ex_nal; ex_adts] _ ex_bytes _ [] []).
    + apply ex_payloads_owns.
    + repeat constructor; eexists; (split; [reflexivity|]); (split; [by eexists|repeat constructor]).
    + by vm_compute.
    + vm_compute. reflexivity.
    + constructor.
  - repeat constructor; try done; apply (bool_decide_unpack _); by vm_compute.
  - done.
  - done.
  - done.
  - apply ex_store_owns.
  - done.
  - reflexivity.
  - apply take_drop.
  - exists s1, s2. split; [exact H1|]. split; [exact H2|]. rewrite Hout. by vm_compute.
Defined.

(** ** One frame *)

(** [pkts] are whole packets that parse back to the PES of [f]: on the frame's PID, with
    consecutive counters, the unit start and the PCR on the first one. *)
Definition carries_frame (mux : ts_mux) (f : frame) (pcr : bool) (data : list Z)
    (pkts : list (list Z)) : Prop :=
  Forall ts_packet pkts ∧
  ∃ slices, parse_packet <$> pkts = (Some ∘ Packet) <$> carried (frame_pid mux f) (frame_cc mux f) true
      (if pcr then Some (dts f mod 2 ^ 33) else None) slices ∧
    concat slices = frame_pes f data.

(** A frame is written whole or not at all.  Its packets are 188 bytes each, parse back
    to the frame's PID with consecutive continuity counters, the unit start on the first one
    only and the PCR there when asked for, and their payloads are exactly the PES header and
    the frame's bytes.  When they fit they are appended to the burst, which records the
    slice; when they do not, [NGX_AGAIN] leaves the burst and every counter but
    [frame_drops] as they were. *)
Theorem write_frame_packets b content burst mux f pcr p data s :
  at_burst b content burst s → payload f = Some p → carries s p data →
  mx_tracks_ready mux = true → Z.of_nat (length (bu_slices burst)) < MUX_MAX_SLICES →
  good_pid (frame_pid mux f) → bytes data →
  ∃ rc mux' burst' s' pkts,
    write_frame mux burst f pcr s = Some ((rc, mux', burst'), s') ∧
    carries_frame mux f pcr data pkts ∧
    let n := Z.of_nat (length pkts) in
    if lenZ content + 188 * n <=? bu_capacity burst
    then rc = NGX_OK ∧ at_burst b (content ++ concat pkts) burst' s' ∧
      bu_slices burst' = bu_slices burst ++ [mk_slice (lenZ content) (188 * n) (pts f) (dts f)
        (media_type f) (codec f) (keyframe f)] ∧
      Z.land (frame_cc mux' f) 15 = Z.land (frame_cc mux f + n) 15 ∧
      mx_frame_bytes mux' = mx_frame_bytes mux ⊕ lenZ data
    else rc = NGX_AGAIN ∧ at_burst b content burst s' ∧ burst' = burst ∧
      mux' = mux <| mx_frame_drops := mx_frame_drops mux ⊕ 1 |>.
Proof.
  intros Hat Hp Hc Hr Hsl Hg Hb. pose proof (good_pid_range _ Hg) as Hpid.
  destruct (packetize_parses (length (frame_pes f data)) (frame_pid mux f) (frame_cc mux f) true pcr
    (dts f) (frame_pes f data)) as (slices & Hparse & Hcat & Hw & _);
    [done|unfold good_pid in Hg; lia|done|apply Forall_app; split; [apply bytes_pes_header|done]|].
  destruct (wp_write_frame b content burst mux f pcr p data s) as ([[rc mux'] burst'] & s' & Hrun & _ & Hpost);
    [done..|].
  set (pkts := frame_packets mux f pcr data) in *. change (Forall ts_packet pkts) in Hw.
  exists rc, mux', burst', s', pkts. split; [done|]. split; [by split; [|exists slices]|]. cbv zeta. revert Hpost.
  destruct (Z.leb_spec (lenZ content + 188 * Z.of_nat (length pkts)) (bu_capacity burst)).
  - intros (-> & Hat' & [_ _ _ Hcc _ (_ & _ & Hfb & _)] & Hburst). split_and!; [done|done| |done|done].
    pose proof (ab_cursor _ _ _ _ Hat') as Hcu. rewrite Hburst. cbn [bu_slices bu_cursor setf].
    do 3 f_equal. rewrite Hcu, lenZ_app. assert (lenZ (concat pkts) = 188 * Z.of_nat (length pkts)); [|lia].
    clearbody pkts. clear -Hw. induction Hw as [|pk more (_ & Hl & _) _ IH]; [done|]. cbn [concat length].
    rewrite lenZ_app, IH. unfold lenZ. rewrite Hl. lia.
  - by intros [[= -> -> ->] Hat'].
Qed.
Definition ex_open : store :=
  mk_store {[ 0%N := mk_buf 1 5 100 ex_nal; 2%N := mk_buf 1 0 300 [] ]} 3 (λ _ _, true).
Definition ex_burst : ts_burst := burst_zero <| bu_backing := Some 2%N |> <| bu_capacity := 300 |>.
Definition ex_video : frame := mk_frame TYPE_VIDEO CODEC_H264 1 0 9000 6000 true false (Some 0%N).
Lemma write_frame_packets_witness :
  ∃ rc mux' burst' s', write_frame ex_mux ex_burst ex_video true ex_open = Some ((rc, mux', burst'), s').
Proof.
  destruct (write_frame_packets 2 [] ex_burst ex_mux ex_video true 0 ex_nal ex_open)
    as (rc & mux' & burst' & s' & _ & H & _); [|reflexivity|by eexists|done|done|by split|by apply (bool_decide_unpack _)|].
  - split; [done|done|]. by eexists.
  - by exists rc, mux', burst', s'.
Defined.

(** ** The tables *)

Lemma parse_section_packet pid cc sec :
  good_pid pid ∨ pid = MUX_PID_PAT → (length sec ≤ 183)%nat →
  parse_packet (section_packet pid cc sec) = Some (Packet (mk_packet pid true (Z.land cc 15) false None
    (Some (0 :: sec ++ replicate (183 - length sec) 0xFF)))).
Proof.
  intros Hp Hl. apply parse_packet_header; [| | |done].
  - destruct Hp as [?%good_pid_range| ->]; done.
  - unfold good_pid, TS_PID_NULL in *. destruct Hp as [|E]; [lia|]. by rewrite E.
  - unfold lenZ. cbn [length]. rewrite length_app, length_replicate. lia.
Qed.

(** [pat] and [pmt] are packets with the muxer's sections, and the sections parse to its PMT
    PID and to its streams. *)
Definition announces (mux : ts_mux) (pat pmt : list Z) : Prop :=
  (∃ cc, parse_packet pat = Some (Packet (mk_packet MUX_PID_PAT true cc false None
     (Some (0 :: mux_pat mux ++ replicate (183 - length (mux_pat mux)) 0xFF))))) ∧
  (∃ cc, parse_packet pmt = Some (Packet (mk_packet (mc_pmt_pid (mx_conf mux)) true cc false None
     (Some (0 :: mux_pmt mux ++ replicate (183 - length (mux_pmt mux)) 0xFF))))) ∧
  ts_crc32 (mux_pat mux) = 0 ∧ ts_crc32 (mux_pmt mux) = 0 ∧
  pat_scan 16 (mux_pat mux) 8 12 = Some (Some (mc_pmt_pid (mx_conf mux))) ∧
  let n := length (mux_pmt mux) in
  pmt_scan n (mux_pmt mux) 12 (n - 4) 2 [] 0 = Some (mux_streams mux, 0).

(** A burst starts with the program tables, and they say what the muxer's tracks are:
    the first packet is the PAT, on PID 0, the second the PMT, on the configured PID; both
    sections have a zero CRC, the PAT names the PMT's PID, and the PMT lists exactly the
    muxer's streams, each with its PID and stream type. *)
Theorem tables_roundtrip mux capacity L s :
  mux_ok mux → owns s L → 376 ≤ burst_capacity mux capacity →
  ∃ rc mux' burst s', burst_init mux capacity s = Some ((rc, mux', burst), s') ∧
    (rc = NGX_OK → ∃ b pat pmt,
      at_burst b (pat ++ pmt) burst s' ∧ bu_psi_len burst = 376 ∧ owns s' (b :: L) ∧
      announces mux pat pmt) ∧
    (rc ≠ NGX_OK → mux' = mux ∧ burst = burst_zero ∧ owns s' L).
Proof.
  intros Hm Ho Hcap. destruct (mux_pat_parses mux Hm) as [Hcrc Hscan].
  destruct (mux_pmt_parses mux 2 Hm) as (Hcrc' & _ & _ & _ & Hscan').
  { unfold mux_streams. destruct (_ =? 0), (_ =? 0); cbn; lia. }
  destruct (wp_burst_init mux capacity L s Ho ltac:(lia)) as (r & s' & Hrun & _ & _ & Hpost).
  destruct Hpost as [[-> Ho']|(b & mux' & burst & -> & Ho' & _ & _ & _ & Hpsi & Hat & _)].
  { exists NGX_ERROR, mux, burst_zero, s'. split; [exact Hrun|]. split; [intros E; discriminate E|].
    intros _. split; [reflexivity|split; [reflexivity|exact Ho']]. }
  exists NGX_OK, mux', burst, s'. split; [exact Hrun|]. split; [intros _|intros E; by destruct (E eq_refl)].
  rewrite (psi_content_tables mux) in Hat, Hpsi by done. cbn [concat] in Hat, Hpsi.
  rewrite app_nil_r in Hat, Hpsi. exists b. eexists _, _.
  pose proof (good_pid_range _ (mo_pmt _ Hm)) as Hpid. pose proof (mo_pmt _ Hm) as Hg.
  pose proof (mux_pmt_length mux) as Hl.
  split_and!; [exact Hat| |exact Ho'|]; [|split_and!; [| |done..]].
  - rewrite Hpsi, lenZ_app. 
    destruct (section_packet_whole MUX_PID_PAT (mx_cc_pat mux) (mux_pat mux) (bytes_mux_pat mux)) as (_ & H1 & _);
      [rewrite mux_pat_length; lia|].
    destruct (section_packet_whole (mc_pmt_pid (mx_conf mux)) (mx_cc_pmt mux) (mux_pmt mux) (bytes_mux_pmt mux)) as (_ & H2 & _); [lia|].
    unfold lenZ. by rewrite H1, H2.
  - eexists. apply parse_section_packet; [by right|]. rewrite mux_pat_length. lia.
  - eexists. apply parse_section_packet; [by left|lia].
Qed.
Lemma tables_roundtrip_witness :
  ∃ rc mux' burst s', burst_init ex_mux 1000 ex_payloads = Some ((rc, mux', burst), s').
Proof.
  destruct (tables_roundtrip ex_mux 1000 [0%N; 1%N] ex_payloads) as (rc & mux' & burst & s' & H & _).
  - by split; [done|repeat constructor|repeat constructor|left|split|split|split|split_and!].
  - apply ex_payloads_owns.
  - by vm_compute.
  - by exists rc, mux', burst, s'.
Defined.
