(* ===== verification/RtmpParam.v ===== *)
(** * RTMP media framing

    Models the conversions of rtmp/ngx_media_rtmp_adapter.[ch] that have no state: the
    decoder configuration records of H.264 and H.265 and the AudioSpecificConfig, parsed and
    built, and the reframing of NAL units between length prefixes and start codes.

    A string of a record is the bytes it points to.  A read is [d !! i] in the option monad
    and a write is [dst_put], which has no answer outside the buffer: an answer means that
    every access was inside.  A result is the return code with the bytes written. *)
From S2P Require Import Prelude Bytes Aac Nal.

Definition RTMP_MAX_PARAM_SETS : nat := 4.

(** Bytes stored behind those written so far. *)
Definition dst_put (capacity : Z) (out b : list Z) : option (list Z) :=
  if lenZ out + lenZ b <=? capacity then Some (out ++ b) else None.

(** ** Lists of parameter sets *)

(** Sets past the room there is are skipped. *)
Definition add_set (sets : list (list Z)) (set : list Z) : list (list Z) :=
  if (length sets <? RTMP_MAX_PARAM_SETS)%nat then sets ++ [set] else sets.

(** [count] units behind 16-bit lengths, given to [add]; the position behind them, or
    [None] when the record does not hold them. *)
Fixpoint units_read {A} (add : list Z → A → A) (count : nat) (data : list Z) (pos : nat) (a : A)
    : option (option nat * A) :=
  match count with
  | O => Some (Some pos, a)
  | S count =>
      if (length data <? pos + 2)%nat then Some (None, a)
      else
        n ← u16_at data pos; let n := Z.to_nat n in
        let pos := (pos + 2)%nat in
        if (n =? 0)%nat || (length data <? pos + n)%nat then Some (None, a)
        else set ← bytes_at data pos n; units_read add count data (pos + n) (add set a)
  end.

(** Units written behind 16-bit lengths; [Some None] is a buffer too small. *)
Fixpoint units_write (capacity : Z) (sets : list (list Z)) (out : list Z) : option (option (list Z)) :=
  match sets with
  | [] => Some (Some out)
  | set :: sets =>
      if capacity <? lenZ out + 2 + lenZ set then Some None
      else
        out ← dst_put capacity out (be16 (lenZ set));
        out ← dst_put capacity out set; units_write capacity sets out
  end.

(** ** AVCDecoderConfigurationRecord *)

Record avcc := mk_avcc {
  ac_version : Z; ac_profile : Z; ac_compatibility : Z; ac_level : Z; ac_nal_length_size : Z;
  ac_sps : list (list Z); ac_pps : list (list Z) }.
#[global] Instance eta_avcc : Eta avcc := λ r,
  mk_avcc (ac_version r) (ac_profile r) (ac_compatibility r) (ac_level r) (ac_nal_length_size r)
    (ac_sps r) (ac_pps r).
Definition avcc_zero : avcc := mk_avcc 0 0 0 0 0 [] [].

Definition add_sps (set : list Z) (a : avcc) : avcc := a <| ac_sps ::= λ l, add_set l set |>.
Definition add_pps (set : list Z) (a : avcc) : avcc := a <| ac_pps ::= λ l, add_set l set |>.

(** The record is written to whatever the answer. *)
Definition avcc_parse (data : list Z) (out : avcc) : option (rc * avcc) :=
  if (length data <? 7)%nat then Some (NGX_ERROR, out)
  else
    version ← data !! 0%nat; profile ← data !! 1%nat; compatibility ← data !! 2%nat;
    level ← data !! 3%nat; size ← data !! 4%nat;
    let out := mk_avcc version profile compatibility level (Z.land size 3 + 1) [] [] in
    if negb (version =? 1) || (4 <? ac_nal_length_size out) then Some (NGX_ERROR, out)
    else
      count ← data !! 5%nat;
      '(pos, out) ← units_read add_sps (Z.to_nat (Z.land count 0x1F)) data 6 out;
      match pos with
      | None => Some (NGX_ERROR, out)
      | Some pos =>
          if (length (ac_sps out) =? 0)%nat then Some (NGX_ERROR, out)
          else if (length data <=? pos)%nat then Some (NGX_ERROR, out)
          else
            count ← data !! pos;
            '(pos, out) ← units_read add_pps (Z.to_nat count) data (pos + 1) out;
            match pos with
            | None => Some (NGX_ERROR, out)
            | Some _ => Some (if (length (ac_pps out) =? 0)%nat then NGX_ERROR else NGX_OK, out)
            end
      end.

Definition avcc_build (avcc : avcc) (capacity : Z) : option (rc * list Z) :=
  let nsps := length (ac_sps avcc) in
  let npps := length (ac_pps avcc) in
  if (nsps =? 0)%nat || (npps =? 0)%nat || (RTMP_MAX_PARAM_SETS <? nsps)%nat
     || (RTMP_MAX_PARAM_SETS <? npps)%nat
  then Some (NGX_ERROR, [])
  else if capacity <? 7 then Some (NGX_ERROR, [])
  else
    out ← dst_put capacity []
      [u8 (if ac_version avcc =? 0 then 1 else ac_version avcc); u8 (ac_profile avcc);
       u8 (ac_compatibility avcc); u8 (ac_level avcc)];
    let length_size := if ac_nal_length_size avcc =? 0 then 4 else ac_nal_length_size avcc in
    if (length_size <? 1) || (4 <? length_size) then Some (NGX_ERROR, out)
    else
      out ← dst_put capacity out
        [u8 (Z.lor 0xFC (length_size - 1)); u8 (Z.lor 0xE0 (Z.of_nat nsps))];
      sps ← units_write capacity (ac_sps avcc) out;
      match sps with
      | None => Some (NGX_ERROR, out)
      | Some out =>
          if capacity <? lenZ out + 1 then Some (NGX_ERROR, out)
          else
            out ← dst_put capacity out [u8 (Z.of_nat npps)];
            pps ← units_write capacity (ac_pps avcc) out;
            match pps with
            | None => Some (NGX_ERROR, out)
            | Some out => Some (NGX_OK, out)
            end
      end.

(** The parameter sets behind start codes. *)
Definition sets_size (sets : list (list Z)) : Z := sumZ ((λ set, 4 + lenZ set) <$> sets).
Fixpoint sets_put (capacity : Z) (sets : list (list Z)) (out : list Z) : option (list Z) :=
  match sets with
  | [] => Some out
  | set :: sets =>
      out ← dst_put capacity out [0; 0; 0; 1];
      out ← dst_put capacity out set; sets_put capacity sets out
  end.
Definition avcc_annexb_size (avcc : avcc) : Z :=
  sets_size (ac_sps avcc) + sets_size (ac_pps avcc).
Definition avcc_to_annexb (avcc : avcc) (capacity : Z) : option (rc * list Z) :=
  if capacity <? avcc_annexb_size avcc then Some (NGX_ERROR, [])
  else
    out ← sets_put capacity (ac_sps avcc) [];
    out ← sets_put capacity (ac_pps avcc) out; Some (NGX_OK, out).

(** ** AudioSpecificConfig *)

Record asc := mk_asc {
  as_object_type : Z; as_sample_rate_index : Z; as_sample_rate : Z; as_channels : Z }.
#[global] Instance eta_asc : Eta asc := λ r,
  mk_asc (as_object_type r) (as_sample_rate_index r) (as_sample_rate r) (as_channels r).
Definition asc_zero : asc := mk_asc 0 0 0 0.

Definition asc_rates : list Z := aac_sample_rates ++ [0; 0; 0].

Definition asc_parse (data : list Z) (out : asc) : option (rc * asc) :=
  if (length data <? 2)%nat then Some (NGX_ERROR, out)
  else
    a ← data !! 0%nat; b ← data !! 1%nat;
    let index := Z.lor (Z.shiftl (Z.land a 7) 1) (Z.shiftr b 7) in
    let out := mk_asc (Z.land (Z.shiftr a 3) 0x1F) 0 0 (Z.land (Z.shiftr b 3) 0x0F) in
    if (as_object_type out =? 0) || (12 <? index) then Some (NGX_ERROR, out)
    else
      rate ← asc_rates !! Z.to_nat index;
      let out := out <| as_sample_rate_index := index |> <| as_sample_rate := rate |> in
      Some (if rate =? 0 then NGX_ERROR else NGX_OK, out).

Definition asc_build (asc : asc) (capacity : Z) : rc * list Z :=
  if capacity <? 2 then (NGX_ERROR, [])
  else if (as_object_type asc =? 0) || (31 <? as_object_type asc)
          || (12 <? as_sample_rate_index asc) || (15 <? as_channels asc)
  then (NGX_ERROR, [])
  else
    (NGX_OK,
     [u8 (Z.lor (Z.shiftl (as_object_type asc) 3) (Z.land (Z.shiftr (as_sample_rate_index asc) 1) 7));
      u8 (Z.lor (Z.shiftl (Z.land (as_sample_rate_index asc) 1) 7) (Z.shiftl (as_channels asc) 3))]).

(** ** Reframing *)

(** The value of a length prefix. *)
Definition be_value (p : list Z) : Z := foldl (λ n b, Z.lor (Z.shiftl n 8) b) 0 p.

(** [Some None] is NGX_ERROR.  A turn reads a prefix at least. *)
Fixpoint annexb_loop (fuel : nat) (src : list Z) (size : nat) (capacity : Z) (pos : nat)
    (out : list Z) : option (option (nat * list Z)) :=
  if (pos + size <=? length src)%nat then
    match fuel with
    | O => None
    | S fuel =>
        p ← bytes_at src pos size;
        let nlen := be_value p in
        let zero := forallb (λ b, b =? 0) p in
        let pos := (pos + size)%nat in
        if (nlen =? 0) || (lenZ src <? Z.of_nat pos + nlen) then Some None
        else if zero then annexb_loop fuel src size capacity pos out
        else if capacity <? lenZ out + 4 + nlen then Some None
        else
          out ← dst_put capacity out [0; 0; 0; 1];
          nal ← bytes_at src pos (Z.to_nat nlen);
          out ← dst_put capacity out nal;
          annexb_loop fuel src size capacity (pos + Z.to_nat nlen) out
    end
  else Some (Some (pos, out)).
Definition avcc_payload_to_annexb (src : list Z) (nal_length_size capacity : Z)
    : option (rc * list Z) :=
  if (nal_length_size <? 1) || (4 <? nal_length_size) then Some (NGX_ERROR, [])
  else
    r ← annexb_loop (length src) src (Z.to_nat nal_length_size) capacity 0 [];
    Some
      match r with
      | None => (NGX_ERROR, [])
      | Some (pos, out) =>
          if negb (pos =? length src)%nat || (lenZ out =? 0) then (NGX_ERROR, out) else (NGX_OK, out)
      end.

(** The prefix of a length; a length past its bytes is cut. *)
Definition nal_prefix (size : nat) (len : Z) : list Z :=
  (λ i, u8 (Z.land (Z.shiftr len (Z.of_nat i * 8)) 0xFF)) <$> reverse (seq 0 size).

Fixpoint avcc_loop (fuel : nat) (src : list Z) (size : nat) (capacity : Z) (it : nal_iter)
    (out : list Z) : option (option (list Z)) :=
  match fuel with
  | O => None
  | S fuel =>
      '(it, nal) ← nal_iter_next (S (it_end it)) src it;
      match nal with
      | None => Some (Some out)
      | Some (off, len) =>
          if capacity <? lenZ out + Z.of_nat size + Z.of_nat len then Some None
          else
            out ← dst_put capacity out (nal_prefix size (Z.of_nat len));
            data ← bytes_at src off len;
            out ← dst_put capacity out data;
            avcc_loop fuel src size capacity it out
      end
  end.
Definition annexb_payload_to_avcc (src : list Z) (nal_length_size capacity : Z)
    : option (rc * list Z) :=
  if (nal_length_size <? 1) || (4 <? nal_length_size) then Some (NGX_ERROR, [])
  else
    r ← avcc_loop (S (length src)) src (Z.to_nat nal_length_size) capacity
          (nal_iter_init (length src)) [];
    Some
      match r with
      | None => (NGX_ERROR, [])
      | Some out => if lenZ out =? 0 then (NGX_ERROR, []) else (NGX_OK, out)
      end.

(** ** HEVCDecoderConfigurationRecord *)

Record hvcc := mk_hvcc {
  hc_version : Z; hc_nal_length_size : Z; hc_profile_space : Z; hc_profile_idc : Z; hc_level : Z;
  hc_vps : list (list Z); hc_sps : list (list Z); hc_pps : list (list Z) }.
#[global] Instance eta_hvcc : Eta hvcc := λ r,
  mk_hvcc (hc_version r) (hc_nal_length_size r) (hc_profile_space r) (hc_profile_idc r)
    (hc_level r) (hc_vps r) (hc_sps r) (hc_pps r).
Definition hvcc_zero : hvcc := mk_hvcc 0 0 0 0 0 [] [] [].

(** 32 VPS, 33 SPS, 34 PPS *)
Definition add_unit (nal_type : Z) (set : list Z) (h : hvcc) : hvcc :=
  if nal_type =? 32 then h <| hc_vps ::= λ l, add_set l set |>
  else if nal_type =? 33 then h <| hc_sps ::= λ l, add_set l set |>
  else if nal_type =? 34 then h <| hc_pps ::= λ l, add_set l set |>
  else h.

Fixpoint hvcc_arrays (arrays : nat) (data : list Z) (pos : nat) (out : hvcc) : option (rc * hvcc) :=
  match arrays with
  | O => Some (NGX_OK, out)
  | S arrays =>
      if (length data <? pos + 3)%nat then Some (NGX_ERROR, out)
      else
        type ← data !! pos;
        count ← u16_at data (pos + 1);
        '(pos, out) ← units_read (add_unit (Z.land type 0x3F)) (Z.to_nat count) data (pos + 3) out;
        match pos with
        | None => Some (NGX_ERROR, out)
        | Some pos => hvcc_arrays arrays data pos out
        end
  end.

Definition hvcc_parse (data : list Z) (out : hvcc) : option (rc * hvcc) :=
  if (length data <? 23)%nat then Some (NGX_ERROR, out)
  else
    version ← data !! 0%nat; profile ← data !! 1%nat; level ← data !! 12%nat;
    size ← data !! 21%nat;
    let out := mk_hvcc version (Z.land size 3 + 1) (Z.land (Z.shiftr profile 6) 3)
                 (Z.land profile 0x1F) level [] [] [] in
    if negb (version =? 1) || (4 <? hc_nal_length_size out) then Some (NGX_ERROR, out)
    else
      arrays ← data !! 22%nat;
      '(r, out) ← hvcc_arrays (Z.to_nat arrays) data 23 out;
      if bool_decide (r = NGX_OK)
      then Some (if (length (hc_sps out) =? 0)%nat then NGX_ERROR else NGX_OK, out)
      else Some (NGX_ERROR, out).

Definition hvcc_annexb_size (hvcc : hvcc) : Z :=
  sets_size (hc_vps hvcc) + sets_size (hc_sps hvcc) + sets_size (hc_pps hvcc).
Definition hvcc_to_annexb (hvcc : hvcc) (capacity : Z) : option (rc * list Z) :=
  if capacity <? hvcc_annexb_size hvcc then Some (NGX_ERROR, [])
  else
    out ← sets_put capacity (hc_vps hvcc) [];
    out ← sets_put capacity (hc_sps hvcc) out;
    out ← sets_put capacity (hc_pps hvcc) out; Some (NGX_OK, out).

(** One array of [build]: the type and the sets. *)
Fixpoint arrays_write (capacity : Z) (arrays : list (Z * list (list Z))) (out : list Z)
    : option (option (list Z)) :=
  match arrays with
  | [] => Some (Some out)
  | (nal_type, sets) :: arrays =>
      if capacity <? lenZ out + 3 then Some None
      else
        let count := Z.of_nat (length sets) in
        out ← dst_put capacity out
          [u8 (Z.lor 0x80 nal_type); u8 (Z.land (Z.shiftr count 8) 0xFF); u8 (Z.land count 0xFF)];
        out ← units_write capacity sets out;
        match out with
        | None => Some None
        | Some out => arrays_write capacity arrays out
        end
  end.
Definition hvcc_sets (hvcc : hvcc) : list (Z * list (list Z)) :=
  (if (0 <? length (hc_vps hvcc))%nat then [(32, hc_vps hvcc)] else [])
  ++ [(33, hc_sps hvcc); (34, hc_pps hvcc)].
Definition hvcc_build (hvcc : hvcc) (capacity : Z) : option (rc * list Z) :=
  if (length (hc_sps hvcc) =? 0)%nat then Some (NGX_ERROR, [])
  else if capacity <? 23 then Some (NGX_ERROR, [])
  else
    out ← dst_put capacity []
      ([1; u8 (Z.lor (Z.shiftl (hc_profile_space hvcc) 6) (Z.land (hc_profile_idc hvcc) 0x1F))]
       ++ replicate 10 0 ++ [u8 (hc_level hvcc)] ++ replicate 8 0
       ++ [3; u8 (Z.of_nat (length (hvcc_sets hvcc)))]);
    r ← arrays_write capacity (hvcc_sets hvcc) out;
    Some match r with None => (NGX_ERROR, out) | Some out => (NGX_OK, out) end.

(** ** Lists of units *)

Definition units_bytes (sets : list (list Z)) : list Z :=
  mjoin ((λ set, be16 (lenZ set) ++ set) <$> sets).
(** Sets a 16-bit length can describe. *)
Definition describable (set : list Z) : Prop := 1 ≤ lenZ set ≤ 0xFFFF.
#[global] Instance describable_dec set : Decision (describable set).
Proof. unfold describable. apply _. Defined.

Lemma units_bytes_cons set sets : units_bytes (set :: sets) = be16 (lenZ set) ++ set ++ units_bytes sets.
Proof. change ((be16 (lenZ set) ++ set) ++ units_bytes sets = be16 (lenZ set) ++ set ++ units_bytes sets). by rewrite <- app_assoc. Qed.

Lemma lenZ_cons x l : lenZ (x :: l) = 1 + lenZ l.
Proof. unfold lenZ. cbn. lia. Qed.
Ltac len := rewrite ?lenZ_app, ?lenZ_cons; change (lenZ []) with 0; lia.

Lemma dst_put_some capacity out b : lenZ out + lenZ b ≤ capacity → dst_put capacity out b = Some (out ++ b).
Proof. intros. unfold dst_put. by rewrite (proj2 (Z.leb_le _ _)). Qed.

(** Reading stays inside the record, whatever it says. *)
Lemma units_read_safe {A} (add : list Z → A → A) count data : ∀ pos (a : A),
  ∃ r a', units_read add count data pos a = Some (r, a') ∧
    ∀ p, r = Some p → (pos ≤ p ∧ (p ≤ length data ∨ p = pos))%nat.
Proof.
  induction count as [|count IH]; intros pos a; cbn [units_read].
  { eexists _, _. split; [done|]. intros p [= <-]. auto. }
  destruct (Nat.ltb_spec (length data) (pos + 2)); [by eexists _, _|].
  destruct (u16_at_some data pos) as [n ->]; [lia|]. cbn [mbind option_bind].
  destruct (_ =? 0)%nat; [by eexists _, _|]. cbn [orb].
  destruct (Nat.ltb_spec (length data) (pos + 2 + Z.to_nat n)); [by eexists _, _|].
  rewrite bytes_at_some by lia. cbn [mbind option_bind].
  destruct (IH (pos + 2 + Z.to_nat n)%nat (add (take (Z.to_nat n) (drop (pos + 2) data)) a)) as (r & a' & -> & Hr).
  eexists _, _. split; [done|]. intros p Hp. destruct (Hr p Hp). lia.
Qed.

Lemma units_read_bytes {A} (add : list Z → A → A) sets : ∀ pre post (a : A),
  Forall describable sets →
  units_read add (length sets) (pre ++ units_bytes sets ++ post) (length pre) a
  = Some (Some (length pre + length (units_bytes sets))%nat, foldl (λ a set, add set a) a sets).
Proof.
  induction sets as [|set sets IH]; intros pre post a Hs.
  { cbn. by rewrite Nat.add_0_r. }
  apply Forall_cons in Hs as [Hset Hs]. cbn [length units_read foldl]. rewrite units_bytes_cons.
  set (data := pre ++ _). unfold describable in Hset.
  assert (length data = length pre + 2 + length set + length (units_bytes sets ++ post))%nat as Hlen.
  { unfold data, be16. rewrite !length_app. cbn. lia. }
  destruct (Nat.ltb_spec (length data) (length pre + 2)); [lia|].
  assert (u16_at data (length pre) = Some (lenZ set)) as ->.
  { unfold data. rewrite <- !app_assoc. apply u16_be16. lia. }
  cbn [mbind option_bind]. assert (Z.to_nat (lenZ set) = length set) as -> by (unfold lenZ; lia).
  destruct (Nat.eqb_spec (length set) 0); [unfold lenZ in Hset; lia|]. cbn [orb].
  destruct (Nat.ltb_spec (length data) (length pre + 2 + length set)); [lia|].
  assert (length pre + 2 = length (pre ++ be16 (lenZ set)))%nat as Hpre by (rewrite length_app; done).
  rewrite (bytes_at_mid data _ (pre ++ be16 (lenZ set)) set (units_bytes sets ++ post)); [|unfold data|done].
  2:{ by rewrite <- !app_assoc. }
  cbn [mbind option_bind].
  specialize (IH (pre ++ be16 (lenZ set) ++ set) post (add set a) Hs).
  replace ((pre ++ be16 (lenZ set) ++ set) ++ units_bytes sets ++ post) with data in IH
    by (unfold data; by rewrite <- !app_assoc).
  replace (length (pre ++ be16 (lenZ set) ++ set)) with (length pre + 2 + length set)%nat in IH
    by (rewrite !length_app; cbn; lia).
  rewrite IH. do 3 f_equal. rewrite !length_app. cbn. lia.
Qed.

Lemma units_write_spec capacity sets : ∀ out,
  units_write capacity sets out
  = Some (if lenZ out + lenZ (units_bytes sets) <=? capacity then Some (out ++ units_bytes sets)
          else match sets with [] => Some out | _ => None end).
Proof.
  induction sets as [|set sets IH]; intros out; cbn [units_write].
  { change (units_bytes []) with (@nil Z). rewrite app_nil_r. by destruct (_ <=? _). }
  rewrite units_bytes_cons, !lenZ_app. change (lenZ (be16 _)) with 2.
  pose proof (lenZ_nonneg (units_bytes sets)). destruct (Z.ltb_spec capacity (lenZ out + 2 + lenZ set)).
  { destruct (Z.leb_spec (lenZ out + (2 + (lenZ set + lenZ (units_bytes sets)))) capacity); [lia|done]. }
  rewrite dst_put_some by (change (lenZ (be16 _)) with 2; pose proof (lenZ_nonneg set); lia). cbn [mbind option_bind].
  rewrite dst_put_some by (rewrite lenZ_app; change (lenZ (be16 _)) with 2; lia). cbn [mbind option_bind].
  rewrite IH, !lenZ_app. change (lenZ (be16 _)) with 2. rewrite <- !app_assoc.
  replace (lenZ out + 2 + lenZ set + lenZ (units_bytes sets)) with (lenZ out + (2 + (lenZ set + lenZ (units_bytes sets)))) by lia.
  destruct (Z.leb_spec (lenZ out + (2 + (lenZ set + lenZ (units_bytes sets)))) capacity); [done|].
  destruct sets; [|done]. change (lenZ (units_bytes [])) with 0 in *. lia.
Qed.

Lemma units_write_fits capacity sets out :
  lenZ out + lenZ (units_bytes sets) ≤ capacity →
  units_write capacity sets out = Some (Some (out ++ units_bytes sets)).
Proof. intros. rewrite units_write_spec. by rewrite (proj2 (Z.leb_le _ _)). Qed.

Lemma add_sets l sets :
  (length l + length sets ≤ RTMP_MAX_PARAM_SETS)%nat → foldl add_set l sets = l ++ sets.
Proof.
  revert l. induction sets as [|set sets IH]; intros l Hl; cbn [foldl length] in *; [by rewrite app_nil_r|].
  unfold add_set at 2. rewrite (proj2 (Nat.ltb_lt _ _)) by lia. rewrite IH by (rewrite length_app; cbn; lia).
  by rewrite <- app_assoc.
Qed.

(** ** Configuration records *)

(** The sets of a record: one to four, each with a length. *)
Definition sets_ok (sets : list (list Z)) : Prop :=
  (1 ≤ length sets ≤ RTMP_MAX_PARAM_SETS)%nat ∧ Forall describable sets.

#[global] Instance sets_ok_dec sets : Decision (sets_ok sets).
Proof. unfold sets_ok. apply _. Defined.

Record avcc_ok (a : avcc) : Prop := {
  ao_version : ac_version a = 1;
  ao_profile : is_byte (ac_profile a);
  ao_compatibility : is_byte (ac_compatibility a);
  ao_level : is_byte (ac_level a);
  ao_size : 1 ≤ ac_nal_length_size a ≤ 4;
  ao_sps : sets_ok (ac_sps a);
  ao_pps : sets_ok (ac_pps a) }.

Definition avcc_bytes (a : avcc) : list Z :=
  [1; ac_profile a; ac_compatibility a; ac_level a; 0xFC + (ac_nal_length_size a - 1);
   0xE0 + Z.of_nat (length (ac_sps a))]
  ++ units_bytes (ac_sps a) ++ [Z.of_nat (length (ac_pps a))] ++ units_bytes (ac_pps a).

Lemma foldl_sps sets a : foldl (λ a set, add_sps set a) a sets = a <| ac_sps := foldl add_set (ac_sps a) sets |>.
Proof. revert a. induction sets as [|set sets IH]; intros a; [by destruct a|]. cbn [foldl]. by rewrite IH. Qed.
Lemma foldl_pps sets a : foldl (λ a set, add_pps set a) a sets = a <| ac_pps := foldl add_set (ac_pps a) sets |>.
Proof. revert a. induction sets as [|set sets IH]; intros a; [by destruct a|]. cbn [foldl]. by rewrite IH. Qed.

Lemma length_size_byte n : 1 ≤ n ≤ 4 → u8 (Z.lor 0xFC (n - 1)) = 0xFC + (n - 1) ∧ Z.land (0xFC + (n - 1)) 3 + 1 = n.
Proof. intros. by assert (n = 1 ∨ n = 2 ∨ n = 3 ∨ n = 4) as [-> | [-> | [-> | ->]]] by lia. Qed.
Lemma count_byte n : 1 ≤ n ≤ 4 → u8 (Z.lor 0xE0 n) = 0xE0 + n ∧ Z.land (0xE0 + n) 0x1F = n ∧ u8 n = n.
Proof. intros. by assert (n = 1 ∨ n = 2 ∨ n = 3 ∨ n = 4) as [-> | [-> | [-> | ->]]] by lia. Qed.

Lemma sets_count l : sets_ok l → 1 ≤ Z.of_nat (length l) ≤ 4.
Proof. unfold sets_ok, RTMP_MAX_PARAM_SETS. lia. Qed.

Lemma avcc_build_bytes a cap :
  avcc_ok a → lenZ (avcc_bytes a) ≤ cap → avcc_build a cap = Some (NGX_OK, avcc_bytes a).
Proof.
  intros [Hv Hp Hc Hl Hn Hs Hpp] Hcap. unfold avcc_bytes in *. unfold avcc_build.
  pose proof (sets_count _ Hs) as Hns. pose proof (sets_count _ Hpp) as Hnp.
  destruct Hs as [Hs1 _], Hpp as [Hp1 _].
  repeat (rewrite (proj2 (Nat.eqb_neq _ _)) by lia). repeat (rewrite (proj2 (Nat.ltb_ge _ _)) by lia).
  rewrite !lenZ_app, !lenZ_cons in Hcap. change (lenZ []) with 0 in Hcap. cbn [orb].
  pose proof (lenZ_nonneg (units_bytes (ac_sps a))). pose proof (lenZ_nonneg (units_bytes (ac_pps a))).
  destruct (Z.ltb_spec cap 7); [lia|]. rewrite dst_put_some by len. cbn [mbind option_bind].
  rewrite Hv. cbn [Z.eqb Pos.eqb]. destruct (Z.eqb_spec (ac_nal_length_size a) 0); [lia|].
  destruct (Z.ltb_spec (ac_nal_length_size a) 1), (Z.ltb_spec 4 (ac_nal_length_size a)); try lia. cbn [orb].
  rewrite dst_put_some by len. cbn [mbind option_bind]. rewrite units_write_fits by len.
  cbn [mbind option_bind]. set (out := (_ ++ _) ++ units_bytes _).
  assert (lenZ out = 6 + lenZ (units_bytes (ac_sps a))) as Hout by (unfold out; len).
  destruct (Z.ltb_spec cap (lenZ out + 1)); [lia|]. rewrite dst_put_some by len. cbn [mbind option_bind].
  rewrite units_write_fits by len. unfold out.
  cbn [mbind option_bind]. do 2 f_equal. rewrite !u8_small by done.
  destruct (length_size_byte _ Hn) as [-> _]. destruct (count_byte _ Hns) as (-> & _). destruct (count_byte _ Hnp) as (_ & _ & ->).
  by rewrite <- !app_assoc.
Qed.

Lemma avcc_parse_bytes a a0 rest : avcc_ok a → avcc_parse (avcc_bytes a ++ rest) a0 = Some (NGX_OK, a).
Proof.
  intros [Hv Hp Hc Hl Hn Hs Hpp]. unfold avcc_parse.
  pose proof (sets_count _ Hs) as Hns. pose proof (sets_count _ Hpp) as Hnp. destruct Hs as [Hs1 Hs2], Hpp as [Hp1 Hp2].
  assert (avcc_bytes a ++ rest = [1; ac_profile a; ac_compatibility a; ac_level a; 0xFC + (ac_nal_length_size a - 1);
     0xE0 + Z.of_nat (length (ac_sps a))] ++ units_bytes (ac_sps a) ++ Z.of_nat (length (ac_pps a)) :: units_bytes (ac_pps a) ++ rest)
    as Hd by (unfold avcc_bytes; by rewrite <- !app_assoc).
  rewrite Hd. set (post := Z.of_nat (length (ac_pps a)) :: _).
  destruct (Nat.ltb_spec (length ([1; ac_profile a; ac_compatibility a; ac_level a; 0xFC + (ac_nal_length_size a - 1);
     0xE0 + Z.of_nat (length (ac_sps a))] ++ units_bytes (ac_sps a) ++ post)) 7) as [Hlt|_].
  { rewrite !length_app in Hlt. unfold post in Hlt. cbn in Hlt. lia. }
  change (_ !! 0%nat) with (Some 1). change (_ !! 1%nat) with (Some (ac_profile a)).
  change (_ !! 2%nat) with (Some (ac_compatibility a)). change (_ !! 3%nat) with (Some (ac_level a)).
  change (_ !! 4%nat) with (Some (0xFC + (ac_nal_length_size a - 1))).
  change (_ !! 5%nat) with (Some (0xE0 + Z.of_nat (length (ac_sps a)))). cbn [mbind option_bind].
  destruct (length_size_byte _ Hn) as [_ ->]. destruct (count_byte _ Hns) as (_ & -> & _).
  change (negb (1 =? 1)) with false. cbn [ac_nal_length_size orb]. destruct (Z.ltb_spec 4 (ac_nal_length_size a)); [lia|].
  rewrite Nat2Z.id. set (hd := [1; _; _; _; _; _]). change 6%nat with (length hd) at 1.
  rewrite units_read_bytes by done. cbn [mbind option_bind]. rewrite foldl_sps. cbn [ac_sps setf eta_avcc ac_version ac_profile ac_compatibility ac_level ac_nal_length_size ac_pps].
  rewrite add_sets by (cbn; lia). cbn [app]. destruct (Nat.eqb_spec (length (ac_sps a)) 0); [lia|].
  rewrite !length_app. unfold post at 1. cbn [length]. destruct (Nat.leb_spec (length hd + (length (units_bytes (ac_sps a)) + S (length (units_bytes (ac_pps a) ++ rest)))) (length hd + length (units_bytes (ac_sps a)))); [lia|].
  assert ((hd ++ units_bytes (ac_sps a) ++ post) !! (length hd + length (units_bytes (ac_sps a)))%nat = Some (Z.of_nat (length (ac_pps a)))) as ->.
  { rewrite lookup_app_r by lia. rewrite lookup_app_r by lia. replace (_ - _ - _)%nat with 0%nat by lia. done. }
  cbn [mbind option_bind]. rewrite Nat2Z.id. unfold post.
  replace (hd ++ units_bytes (ac_sps a) ++ Z.of_nat (length (ac_pps a)) :: units_bytes (ac_pps a) ++ rest)
    with ((hd ++ units_bytes (ac_sps a) ++ [Z.of_nat (length (ac_pps a))]) ++ units_bytes (ac_pps a) ++ rest) by by rewrite <- !app_assoc.
  replace (length hd + length (units_bytes (ac_sps a)) + 1)%nat with (length (hd ++ units_bytes (ac_sps a) ++ [Z.of_nat (length (ac_pps a))]))
    by (rewrite !length_app; cbn; lia).
  rewrite units_read_bytes by done. cbn [mbind option_bind]. rewrite foldl_pps.
  cbn [ac_sps setf eta_avcc ac_version ac_profile ac_compatibility ac_level ac_nal_length_size ac_pps].
  rewrite add_sets by (cbn; lia). cbn [app]. destruct (Nat.eqb_spec (length (ac_pps a)) 0); [lia|]. destruct a. cbn in *. by subst.
Qed.

Definition arrays_bytes (arrays : list (Z * list (list Z))) : list Z :=
  mjoin ((λ a, [u8 (Z.lor 0x80 a.1)] ++ be16 (Z.of_nat (length a.2)) ++ units_bytes a.2) <$> arrays).
(** An array of one of the three types, its units with a length. *)
Definition array_ok (a : Z * list (list Z)) : Prop :=
  (a.1 = 32 ∨ a.1 = 33 ∨ a.1 = 34) ∧ (length a.2 ≤ RTMP_MAX_PARAM_SETS)%nat ∧ Forall describable a.2.

Lemma arrays_bytes_cons t sets arrays :
  arrays_bytes ((t, sets) :: arrays)
  = [u8 (Z.lor 0x80 t)] ++ be16 (Z.of_nat (length sets)) ++ units_bytes sets ++ arrays_bytes arrays.
Proof.
  change (arrays_bytes ((t, sets) :: arrays)) with
    (([u8 (Z.lor 0x80 t)] ++ be16 (Z.of_nat (length sets)) ++ units_bytes sets) ++ arrays_bytes arrays).
  by rewrite <- !app_assoc.
Qed.
Lemma be16_masked v : [u8 (Z.land (Z.shiftr v 8) 0xFF); u8 (Z.land v 0xFF)] = be16 v.
Proof. unfold be16, u8. rewrite !land_ff. change 256 with (2 ^ 8). by rewrite !Z.mod_mod. Qed.

Lemma arrays_write_fits capacity arrays : ∀ out,
  lenZ out + lenZ (arrays_bytes arrays) ≤ capacity →
  arrays_write capacity arrays out = Some (Some (out ++ arrays_bytes arrays)).
Proof.
  induction arrays as [|[t sets] arrays IH]; intros out; [intros; by rewrite app_nil_r|].
  rewrite arrays_bytes_cons, !lenZ_app, !lenZ_cons. change (lenZ (be16 _)) with 2. change (lenZ []) with 0.
  pose proof (lenZ_nonneg (arrays_bytes arrays)). pose proof (lenZ_nonneg (units_bytes sets)). intros Hc.
  cbn [arrays_write]. destruct (Z.ltb_spec capacity (lenZ out + 3)); [lia|]. cbv zeta.
  change [u8 (Z.lor 128 t); ?a; ?b] with ([u8 (Z.lor 128 t)] ++ [a; b]). rewrite be16_masked.
  rewrite dst_put_some by (change (lenZ (_ ++ be16 _)) with 3; lia). cbn [mbind option_bind].
  rewrite units_write_fits by (rewrite !lenZ_app; change (lenZ (be16 _)) with 2; len). cbn [mbind option_bind].
  rewrite IH by (rewrite !lenZ_app; change (lenZ (be16 _)) with 2; len). by rewrite <- !app_assoc.
Qed.

Lemma hvcc_arrays_bytes arrays : ∀ pre post h,
  Forall array_ok arrays →
  hvcc_arrays (length arrays) (pre ++ arrays_bytes arrays ++ post) (length pre) h
  = Some (NGX_OK, foldl (λ h a, foldl (λ h set, add_unit a.1 set h) h a.2) h arrays).
Proof.
  induction arrays as [|[t sets] arrays IH]; intros pre post h Ha; [done|].
  apply Forall_cons in Ha as [(Ht & Hc & Hs) Ha]. cbn [length hvcc_arrays foldl fst snd] in *.
  rewrite arrays_bytes_cons. unfold RTMP_MAX_PARAM_SETS in Hc.
  set (data := pre ++ _). set (pre' := pre ++ [u8 (Z.lor 128 t)] ++ be16 (Z.of_nat (length sets))).
  assert (data = pre' ++ units_bytes sets ++ arrays_bytes arrays ++ post) as Hd
    by (unfold data, pre'; by rewrite <- !app_assoc).
  assert (length pre' = length pre + 3)%nat as Hl by (unfold pre'; rewrite !length_app; done).
  destruct (Nat.ltb_spec (length data) (length pre + 3)) as [Hlt|_].
  { rewrite Hd, length_app in Hlt. lia. }
  assert (data !! length pre = Some (u8 (Z.lor 128 t))) as ->.
  { unfold data. rewrite lookup_app_r, Nat.sub_diag by lia. done. }
  assert (u16_at data (length pre + 1) = Some (Z.of_nat (length sets))) as ->.
  { replace (length pre + 1)%nat with (length (pre ++ [u8 (Z.lor 128 t)])) by (rewrite length_app; done).
    replace data with ((pre ++ [u8 (Z.lor 128 t)]) ++ be16 (Z.of_nat (length sets)) ++ units_bytes sets ++ arrays_bytes arrays ++ post)
      by (unfold data; by rewrite <- !app_assoc).
    apply u16_be16. lia. }
  cbn [mbind option_bind]. rewrite Nat2Z.id, <- Hl, Hd, units_read_bytes by done. cbn [mbind option_bind].
  assert (Z.land (u8 (Z.lor 128 t)) 63 = t) as -> by (by destruct Ht as [-> | [-> | ->]]).
  specialize (IH (pre' ++ units_bytes sets) post (foldl (λ h set, add_unit t set h) h sets) Ha).
  rewrite <- !app_assoc, length_app in IH. exact IH.
Qed.

Record hvcc_ok (h : hvcc) : Prop := {
  ho_version : hc_version h = 1;
  ho_size : hc_nal_length_size h = 4;
  ho_space : 0 ≤ hc_profile_space h < 4;
  ho_idc : 0 ≤ hc_profile_idc h < 32;
  ho_level : is_byte (hc_level h);
  ho_vps : (length (hc_vps h) ≤ RTMP_MAX_PARAM_SETS)%nat ∧ Forall describable (hc_vps h);
  ho_sps : sets_ok (hc_sps h);
  ho_pps : (length (hc_pps h) ≤ RTMP_MAX_PARAM_SETS)%nat ∧ Forall describable (hc_pps h) }.

Definition hvcc_head (h : hvcc) : list Z :=
  [1; hc_profile_space h * 64 + hc_profile_idc h] ++ replicate 10 0 ++ [hc_level h] ++ replicate 8 0
  ++ [3; Z.of_nat (length (hvcc_sets h))].
Definition hvcc_bytes (h : hvcc) : list Z := hvcc_head h ++ arrays_bytes (hvcc_sets h).

Lemma profile_byte s i :
  0 ≤ s < 4 → 0 ≤ i < 32 →
  let b := s * 64 + i in
  u8 (Z.lor (Z.shiftl s 6) (Z.land i 0x1F)) = b ∧ Z.land (Z.shiftr b 6) 3 = s ∧ Z.land b 0x1F = i.
Proof.
  intros Hs Hi b.
  pose proof (pair_below (λ s i, (u8 (Z.lor (Z.shiftl s 6) (Z.land i 0x1F)) =? s * 64 + i)
    && (Z.land (Z.shiftr (s * 64 + i) 6) 3 =? s) && (Z.land (s * 64 + i) 0x1F =? i)) 4 32
    ltac:(vm_compute; reflexivity) s i Hs Hi) as H.
  cbv beta in H. rewrite !andb_true_iff, !Z.eqb_eq in H. by destruct H as [[? ?] ?].
Qed.

Lemma hvcc_sets_small h : (2 ≤ length (hvcc_sets h) ≤ 3)%nat.
Proof. unfold hvcc_sets. destruct (0 <? _)%nat; cbn; lia. Qed.
Lemma hvcc_head_length h : length (hvcc_head h) = 23%nat.
Proof. done. Qed.

Lemma hvcc_build_bytes h cap :
  hvcc_ok h → lenZ (hvcc_bytes h) ≤ cap → hvcc_build h cap = Some (NGX_OK, hvcc_bytes h).
Proof.
  intros [Hv Hn Hs Hi Hl Hvp Hsp Hpp] Hcap. unfold hvcc_build, hvcc_bytes in *.
  rewrite lenZ_app in Hcap. change (lenZ (hvcc_head h)) with 23 in Hcap.
  pose proof (lenZ_nonneg (arrays_bytes (hvcc_sets h))). destruct (sets_count _ Hsp).
  destruct (Nat.eqb_spec (length (hc_sps h)) 0); [lia|]. destruct (Z.ltb_spec cap 23); [lia|].
  destruct (profile_byte _ _ Hs Hi) as (-> & _). pose proof (hvcc_sets_small h).
  rewrite (u8_small (hc_level h)), (u8_small (Z.of_nat _)) by (unfold is_byte in *; lia).
  rewrite dst_put_some by (change (lenZ (_ ++ _)) with 23; change (lenZ []) with 0; lia). cbn [mbind option_bind app].
  rewrite arrays_write_fits by (change (lenZ (_ :: _)) with 23; lia). done.
Qed.

Lemma foldl_unit t sets h :
  (t = 32 ∨ t = 33 ∨ t = 34) →
  foldl (λ h set, add_unit t set h) h sets =
    if t =? 32 then h <| hc_vps := foldl add_set (hc_vps h) sets |>
    else if t =? 33 then h <| hc_sps := foldl add_set (hc_sps h) sets |>
    else h <| hc_pps := foldl add_set (hc_pps h) sets |>.
Proof.
  intros Ht. revert h. induction sets as [|set sets IH]; intros h; cbn [foldl].
  - by destruct h, Ht as [-> | [-> | ->]].
  - rewrite IH. by destruct Ht as [-> | [-> | ->]].
Qed.

Lemma hvcc_parse_bytes h h0 rest : hvcc_ok h → hvcc_parse (hvcc_bytes h ++ rest) h0 = Some (NGX_OK, h).
Proof.
  intros [Hv Hn Hs Hi Hl Hvp Hsp Hpp]. unfold hvcc_parse, hvcc_bytes. rewrite <- app_assoc.
  destruct (Nat.ltb_spec (length (hvcc_head h ++ arrays_bytes (hvcc_sets h) ++ rest)) 23) as [Hlt|_].
  { rewrite length_app, hvcc_head_length in Hlt. lia. }
  change (_ !! 0%nat) with (Some 1). change (_ !! 1%nat) with (Some (hc_profile_space h * 64 + hc_profile_idc h)).
  change (_ !! 12%nat) with (Some (hc_level h)). change (_ !! 21%nat) with (Some 3).
  change (_ !! 22%nat) with (Some (Z.of_nat (length (hvcc_sets h)))). cbn [mbind option_bind].
  destruct (profile_byte _ _ Hs Hi) as (_ & -> & ->). change (Z.land 3 3 + 1) with 4.
  change (negb (1 =? 1) || (4 <? hc_nal_length_size _)) with false. cbn [hc_nal_length_size].
  rewrite Nat2Z.id. change 23%nat with (length (hvcc_head h)). rewrite hvcc_arrays_bytes.
  2:{ destruct Hvp as [? ?], Hpp as [? ?], Hsp as [? ?]. unfold hvcc_sets.
      assert (∀ t sets, t = 32 ∨ t = 33 ∨ t = 34 → (length sets ≤ RTMP_MAX_PARAM_SETS)%nat → Forall describable sets →
        array_ok (t, sets)) as Hok by (intros; by split_and!).
      apply Forall_app. split; [destruct (0 <? _)%nat; [apply Forall_singleton; auto|constructor]|].
      repeat apply Forall_cons_2; [apply Hok; (lia || done)|apply Hok; auto|constructor]. }
  cbn [mbind option_bind]. rewrite bool_decide_true by done.
  set (out := foldl _ _ _). assert (out = h) as ->.
  { destruct Hvp as [? _], Hsp as [[_ ?] _], Hpp as [? _].
    unfold out, hvcc_sets. destruct h as [v n s i l vps sps pps]. cbn in *. subst v n.
    destruct vps as [|x vps]; cbn [length Nat.ltb Nat.leb app foldl fst snd];
      rewrite !foldl_unit by auto; cbn [Z.eqb Pos.eqb setf eta_hvcc hc_version hc_nal_length_size hc_profile_space
        hc_profile_idc hc_level hc_vps hc_sps hc_pps]; rewrite !add_sets by (cbn in *; lia); done. }
  destruct (sets_count _ Hsp). destruct (Nat.eqb_spec (length (hc_sps h)) 0); [lia|done].
Qed.

Record asc_ok (c : asc) : Prop := {
  co_type : 0 < as_object_type c < 32;
  co_rate : asc_rates !! Z.to_nat (as_sample_rate_index c) = Some (as_sample_rate c);
  co_index : 0 ≤ as_sample_rate_index c ≤ 12;
  co_channels : 0 ≤ as_channels c < 16 }.

Definition asc_head (c : asc) : list Z :=
  [as_object_type c * 8 + as_sample_rate_index c / 2;
   as_sample_rate_index c mod 2 * 128 + as_channels c * 8].

Lemma asc_bytes_fields o i c :
  0 ≤ o < 32 → 0 ≤ i < 13 → 0 ≤ c < 16 →
  let a := o * 8 + i / 2 in let b := i mod 2 * 128 + c * 8 in
  u8 (Z.lor (Z.shiftl o 3) (Z.land (Z.shiftr i 1) 7)) = a ∧
  u8 (Z.lor (Z.shiftl (Z.land i 1) 7) (Z.shiftl c 3)) = b ∧
  Z.land (Z.shiftr a 3) 0x1F = o ∧ Z.lor (Z.shiftl (Z.land a 7) 1) (Z.shiftr b 7) = i ∧
  Z.land (Z.shiftr b 3) 0x0F = c.
Proof.
  intros Ho Hi Hc a b.
  pose proof (forall_below (λ o, forallb (λ i, forallb (λ c,
    let a := o * 8 + i / 2 in let b := i mod 2 * 128 + c * 8 in
    (u8 (Z.lor (Z.shiftl o 3) (Z.land (Z.shiftr i 1) 7)) =? a) &&
    (u8 (Z.lor (Z.shiftl (Z.land i 1) 7) (Z.shiftl c 3)) =? b) &&
    (Z.land (Z.shiftr a 3) 0x1F =? o) && (Z.lor (Z.shiftl (Z.land a 7) 1) (Z.shiftr b 7) =? i) &&
    (Z.land (Z.shiftr b 3) 0x0F =? c)) (seqZ 0 16)) (seqZ 0 13)) 32 ltac:(vm_compute; reflexivity) o Ho) as H1.
  pose proof (pair_below _ 13 16 H1 i c Hi Hc) as H. cbv beta zeta in H.
  rewrite !andb_true_iff, !Z.eqb_eq in H. destruct H as [[[[? ?] ?] ?] ?]. by split_and!.
Qed.

Lemma asc_build_bytes c cap : asc_ok c → 2 ≤ cap → asc_build c cap = (NGX_OK, asc_head c).
Proof.
  intros [Ht Hr Hi Hc] Hcap. unfold asc_build.
  destruct (Z.ltb_spec cap 2), (Z.eqb_spec (as_object_type c) 0), (Z.ltb_spec 31 (as_object_type c)),
    (Z.ltb_spec 12 (as_sample_rate_index c)), (Z.ltb_spec 15 (as_channels c)); try lia. cbn [orb].
  destruct (asc_bytes_fields (as_object_type c) (as_sample_rate_index c) (as_channels c)) as (-> & -> & _); [lia..|done].
Qed.
Lemma asc_parse_bytes c c0 rest : asc_ok c → asc_parse (asc_head c ++ rest) c0 = Some (NGX_OK, c).
Proof.
  intros [Ht Hr Hi Hc]. unfold asc_parse, asc_head.
  destruct (asc_bytes_fields (as_object_type c) (as_sample_rate_index c) (as_channels c)) as (_ & _ & E1 & E2 & E3); [lia..|].
  cbn [app length Nat.ltb Nat.leb mbind option_bind lookup list_lookup]. rewrite E1, E2, E3. cbn [as_object_type].
  destruct (Z.eqb_spec (as_object_type c) 0), (Z.ltb_spec 12 (as_sample_rate_index c)); try lia. cbn [orb].
  rewrite Hr. cbn [mbind option_bind]. destruct (Z.eqb_spec (as_sample_rate c) 0) as [E|]; [|by destruct c].
  exfalso. rewrite E in Hr. clear - Hr Hi.
  pose proof (forall_below (λ i, negb (nth (Z.to_nat i) asc_rates 0 =? 0)) 13 ltac:(vm_compute; reflexivity)
    (as_sample_rate_index c) ltac:(lia)) as H. cbv beta in H.
  by rewrite (nth_lookup_Some _ _ _ _ Hr) in H.
Qed.

(** C23: The decoder configuration records round-trip: an AVCDecoderConfigurationRecord of
    version 1 with one to four sequence and picture parameter sets, an
    HEVCDecoderConfigurationRecord of version 1 (with the four-byte lengths the builder writes)
    with one to four sequence parameter sets and at most four video and picture parameter sets
    - none of them empty or longer than 65535 bytes - and an AudioSpecificConfig of a listed
    sample rate are built, in a buffer with room for them, as the bytes [avcc_bytes],
    [hvcc_bytes] and [asc_head] spell out (the HEVC fields that the code does not keep are
    zero), and are parsed back to the same record: every parameter set with its bytes, in
    order, whatever follows the record and whatever the destination structure held before. *)
Theorem config_roundtrip a a0 h h0 c c0 rest cap :
  avcc_ok a → hvcc_ok h → asc_ok c →
  lenZ (avcc_bytes a) ≤ cap → lenZ (hvcc_bytes h) ≤ cap → 2 ≤ cap →
  (avcc_build a cap = Some (NGX_OK, avcc_bytes a) ∧ avcc_parse (avcc_bytes a ++ rest) a0 = Some (NGX_OK, a)) ∧
  (hvcc_build h cap = Some (NGX_OK, hvcc_bytes h) ∧ hvcc_parse (hvcc_bytes h ++ rest) h0 = Some (NGX_OK, h)) ∧
  (asc_build c cap = (NGX_OK, asc_head c) ∧ asc_parse (asc_head c ++ rest) c0 = Some (NGX_OK, c)).
Proof.
  intros Ha Hh Hc Hca Hch Hcc.
  by rewrite avcc_build_bytes, avcc_parse_bytes, hvcc_build_bytes, hvcc_parse_bytes, asc_build_bytes, asc_parse_bytes.
Qed.
Definition ex_avcc : avcc := mk_avcc 1 66 0 30 4 [[103; 66; 0; 30]; [103; 1]] [[104; 206]].
Definition ex_hvcc : hvcc := mk_hvcc 1 4 0 1 93 [] [[66; 1; 1]] [[68; 1]].
Definition ex_asc : asc := mk_asc 2 4 44100 2.
Lemma config_roundtrip_witness :
  let avcc := [1; 66; 0; 30; 0xFF; 0xE2; 0; 4; 103; 66; 0; 30; 0; 2; 103; 1; 1; 0; 2; 104; 206] in
  let hvcc := [1; 1; 0; 0; 0; 0; 0; 0; 0; 0; 0; 0; 93; 0; 0; 0; 0; 0; 0; 0; 0; 3; 2;
               0xA1; 0; 1; 0; 3; 66; 1; 1; 0xA2; 0; 1; 0; 2; 68; 1] in
  (avcc_build ex_avcc 64 = Some (NGX_OK, avcc) ∧ avcc_parse (avcc ++ [9]) avcc_zero = Some (NGX_OK, ex_avcc)) ∧
  (hvcc_build ex_hvcc 64 = Some (NGX_OK, hvcc) ∧ hvcc_parse (hvcc ++ [9]) hvcc_zero = Some (NGX_OK, ex_hvcc)) ∧
  (asc_build ex_asc 64 = (NGX_OK, [18; 16]) ∧ asc_parse ([18; 16] ++ [9]) asc_zero = Some (NGX_OK, ex_asc)).
Proof.
  apply (config_roundtrip ex_avcc avcc_zero ex_hvcc hvcc_zero ex_asc asc_zero [9] 64); [| | |apply (bool_decide_unpack _); reflexivity..].
  - split; apply (bool_decide_unpack _); reflexivity.
  - split; apply (bool_decide_unpack _); reflexivity.
  - split; [cbn; lia|reflexivity|cbn; lia..].
Defined.

(** ** Length prefixes *)

Definition frames_of (size : nat) (us : list (list Z)) : list Z :=
  mjoin ((λ u, nal_prefix size (lenZ u) ++ u) <$> us).
(** Units behind four-byte start codes. *)
Definition started (us : list (list Z)) : list Z := annexb (pair true <$> us).

Lemma frames_cons size u us : frames_of size (u :: us) = nal_prefix size (lenZ u) ++ u ++ frames_of size us.
Proof.
  change (frames_of size (u :: us)) with ((nal_prefix size (lenZ u) ++ u) ++ frames_of size us).
  by rewrite <- app_assoc.
Qed.
Lemma started_cons u us : started (u :: us) = [0; 0; 0; 1] ++ u ++ started us.
Proof. apply annexb_cons. Qed.

Lemma nal_prefix_S k v : nal_prefix (S k) v = v / 2 ^ (8 * Z.of_nat k) mod 256 :: nal_prefix k v.
Proof.
  unfold nal_prefix. rewrite seq_S, reverse_app. cbn [reverse rev_append app]. cbn [fmap list_fmap].
  change (rev_append (seq 0 k) []) with (reverse (seq 0 k)). f_equal. cbn [Nat.add].
  rewrite land_ff, shiftr_div by lia. unfold u8. change (2 ^ 8) with 256. rewrite Z.mod_mod by done.
  by replace (Z.of_nat k * 8) with (8 * Z.of_nat k) by lia.
Qed.
Lemma nal_prefix_length size v : length (nal_prefix size v) = size.
Proof. unfold nal_prefix. by rewrite length_fmap, length_reverse, length_seq. Qed.

Lemma pow_S k : 2 ^ (8 * Z.of_nat (S k)) = 256 * 2 ^ (8 * Z.of_nat k).
Proof. replace (8 * Z.of_nat (S k)) with (8 + 8 * Z.of_nat k) by lia. by rewrite Z.pow_add_r by lia. Qed.
Lemma pow_pos k : 0 < 2 ^ (8 * Z.of_nat k).
Proof. apply Z.pow_pos_nonneg; lia. Qed.

Lemma be_value_prefix k : ∀ acc v, 0 ≤ acc →
  foldl (λ n b, Z.lor (Z.shiftl n 8) b) acc (nal_prefix k v)
  = acc * 2 ^ (8 * Z.of_nat k) + v mod 2 ^ (8 * Z.of_nat k).
Proof.
  induction k as [|k IH]; intros acc v Hacc.
  { change (2 ^ (8 * Z.of_nat 0)) with 1. rewrite Z.mod_1_r. cbn. lia. }
  rewrite nal_prefix_S. cbn [foldl]. pose proof (pow_pos k).
  pose proof (Z.mod_pos_bound (v / 2 ^ (8 * Z.of_nat k)) 256).
  rewrite lor_shift by (change (2 ^ 8) with 256; lia). rewrite IH by lia. rewrite pow_S.
  change (2 ^ 8) with 256. rewrite (Z.mul_comm 256 (2 ^ _)), Z.rem_mul_r by lia. lia.
Qed.

(** A prefix says its length, and every prefix is one of some length. *)
Lemma be_value_nal k v : 0 ≤ v < 2 ^ (8 * Z.of_nat k) → be_value (nal_prefix k v) = v.
Proof. intros. unfold be_value. rewrite be_value_prefix by done. rewrite Z.mod_small by done. lia. Qed.

Lemma be_value_acc p : ∀ acc, bytes p → 0 ≤ acc →
  foldl (λ n b, Z.lor (Z.shiftl n 8) b) acc p = acc * 2 ^ (8 * Z.of_nat (length p)) + be_value p ∧
  0 ≤ be_value p < 2 ^ (8 * Z.of_nat (length p)).
Proof.
  induction p as [|b p IH]; intros acc Hp Hacc; [cbn; lia|]. apply Forall_cons in Hp as [Hb Hp].
  unfold be_value. cbn [foldl length]. rewrite pow_S. unfold is_byte in Hb.
  rewrite !lor_shift by (change (2 ^ 8) with 256; lia). change (2 ^ 8) with 256.
  destruct (IH (acc * 256 + b) Hp ltac:(lia)) as [-> Hv]. destruct (IH (0 * 256 + b) Hp ltac:(lia)) as [-> _].
  split; nia.
Qed.
Lemma nal_prefix_mod k : ∀ v a, nal_prefix k (a * 2 ^ (8 * Z.of_nat k) + v) = nal_prefix k v.
Proof.
  induction k as [|k IH]; intros v a; [done|]. rewrite !nal_prefix_S, pow_S. pose proof (pow_pos k). f_equal.
  - replace (a * (256 * 2 ^ (8 * Z.of_nat k)) + v) with (v + a * 256 * 2 ^ (8 * Z.of_nat k)) by lia.
    rewrite Z.div_add by lia. apply Z.mod_add. lia.
  - rewrite <- (IH v (a * 256)). f_equal. lia.
Qed.
Lemma nal_prefix_value p : bytes p → nal_prefix (length p) (be_value p) = p.
Proof.
  induction p as [|b p IH]; intros Hp; [done|]. apply Forall_cons in Hp as [Hb Hp].
  cbn [length]. rewrite nal_prefix_S. destruct (be_value_acc p b Hp ltac:(unfold is_byte in Hb; lia)) as [E Hv].
  assert (be_value (b :: p) = b * 2 ^ (8 * Z.of_nat (length p)) + be_value p) as ->.
  { rewrite <- E. unfold be_value. cbn [foldl]. by rewrite (lor_shift 0 b 8) by (unfold is_byte in Hb; (lia || done)). }
  rewrite nal_prefix_mod, IH by done. pose proof (pow_pos (length p)). f_equal.
  rewrite Z.div_add_l by lia. rewrite (Z.div_small (be_value p)) by done. rewrite Z.add_0_r. by apply Z.mod_small.
Qed.

Lemma be_value_zero p : forallb (λ b, b =? 0) p = true → be_value p = 0.
Proof.
  unfold be_value. induction p as [|b p IH]; [done|]. cbn [forallb foldl].
  intros [->%Z.eqb_eq Hz]%andb_prop. by apply IH.
Qed.

(** ** Reframing *)

(** A unit that a prefix of [size] bytes can describe. *)
Definition unit_ok (size : nat) (u : list Z) : Prop := u ≠ [] ∧ lenZ u < 2 ^ (8 * Z.of_nat size).

Lemma started_length us : lenZ (started us) = sets_size us.
Proof.
  induction us as [|u us IH]; [done|]. rewrite started_cons, !lenZ_app, IH.
  change (sets_size (u :: us)) with (4 + lenZ u + sets_size us). change (lenZ [0; 0; 0; 1]) with 4. lia.
Qed.
Lemma started_nonempty us : us ≠ [] → 0 < lenZ (started us).
Proof. destruct us as [|u us]; [done|]. intros _. rewrite started_cons, !lenZ_app.
  change (lenZ [0; 0; 0; 1]) with 4. pose proof (lenZ_nonneg u). pose proof (lenZ_nonneg (started us)). lia. Qed.

(** A source that is framed is reframed, when it fits. *)
Lemma annexb_loop_frames src size capacity us : ∀ fuel pos out,
  (1 ≤ size)%nat → Forall (unit_ok size) us → drop pos src = frames_of size us →
  (pos ≤ length src)%nat → (length src ≤ pos + fuel)%nat →
  lenZ out + lenZ (started us) ≤ capacity →
  annexb_loop fuel src size capacity pos out = Some (Some (length src, out ++ started us)).
Proof.
  induction us as [|u us IH]; intros fuel pos out Hsize Hus Hsrc Hpos Hfuel Hcap.
  { apply (f_equal length) in Hsrc. rewrite length_drop in Hsrc. change (length (frames_of size [])) with 0%nat in Hsrc.
    rewrite app_nil_r. replace pos with (length src) by lia.
    destruct fuel; cbn [annexb_loop]; destruct (Nat.leb_spec (length src + size) (length src)); (done || lia). }
  apply Forall_cons in Hus as [[Hne Hlt] Hus]. rewrite frames_cons in Hsrc.
  rewrite started_cons, !lenZ_app in Hcap. change (lenZ [0; 0; 0; 1]) with 4 in Hcap.
  pose proof (f_equal length Hsrc) as Hlen. rewrite length_drop, !length_app, nal_prefix_length in Hlen.
  assert (0 < length u)%nat by (destruct u; [done|cbn; lia]).
  destruct fuel as [|fuel]; [lia|]. cbn [annexb_loop]. destruct (Nat.leb_spec (pos + size) (length src)); [|lia].
  rewrite bytes_at_some, Hsrc by lia. rewrite take_app_length' by (symmetry; apply nal_prefix_length). cbn [mbind option_bind].
  assert (0 ≤ lenZ u < 2 ^ (8 * Z.of_nat size)) as Hu by (unfold lenZ; split; [lia|exact Hlt]).
  rewrite be_value_nal by done. unfold lenZ at 1 2 3. destruct (Z.eqb_spec (Z.of_nat (length u)) 0); [lia|].
  destruct (Z.ltb_spec (Z.of_nat (length src)) (Z.of_nat (pos + size) + Z.of_nat (length u))); [lia|]. cbn [orb].
  destruct (forallb _ _) eqn:Ez.
  { apply be_value_zero in Ez. rewrite be_value_nal in Ez by done. unfold lenZ in Ez. lia. }
  pose proof (lenZ_nonneg (started us)). fold (lenZ u).
  destruct (Z.ltb_spec capacity (lenZ out + 4 + lenZ u)); [lia|].
  rewrite dst_put_some by (change (lenZ [0; 0; 0; 1]) with 4; lia). cbn [mbind option_bind].
  assert (Z.to_nat (lenZ u) = length u) as -> by (unfold lenZ; lia).
  assert (drop (pos + size) src = u ++ frames_of size us) as Hrest.
  { rewrite <- drop_drop, Hsrc. apply drop_app_length'. by rewrite nal_prefix_length. }
  rewrite bytes_at_some, Hrest, take_app_length by lia. cbn [mbind option_bind].
  rewrite dst_put_some by (rewrite lenZ_app; change (lenZ [0; 0; 0; 1]) with 4; lia). cbn [mbind option_bind].
  rewrite IH; [by rewrite started_cons, <- !app_assoc|done|done| |lia|lia|].
  - rewrite <- drop_drop, Hrest. apply drop_app_length.
  - rewrite !lenZ_app. change (lenZ [0; 0; 0; 1]) with 4. lia.
Qed.

(** Any source: the loop ends inside it, and what it wrote are units it framed. *)
Lemma annexb_loop_any src size capacity : ∀ fuel pos out,
  (1 ≤ size)%nat → bytes src → (pos ≤ length src)%nat → (length src ≤ pos + fuel)%nat →
  lenZ out ≤ capacity →
  ∃ r, annexb_loop fuel src size capacity pos out = Some r ∧
    ∀ p out', r = Some (p, out') → ∃ us, Forall (unit_ok size) us ∧ out' = out ++ started us ∧
      lenZ out' ≤ capacity ∧ (p ≤ length src)%nat ∧ drop pos src = frames_of size us ++ drop p src.
Proof.
  induction fuel as [|fuel IH]; intros pos out Hsize Hb Hpos Hfuel Hcap; cbn [annexb_loop].
  - destruct (Nat.leb_spec (pos + size) (length src)); [lia|]. eexists. split; [done|].
    intros p out' [= <- <-]. exists []. rewrite app_nil_r. by split_and!.
  - destruct (Nat.leb_spec (pos + size) (length src)).
    2:{ eexists. split; [done|]. intros p out' [= <- <-]. exists []. rewrite app_nil_r. by split_and!. }
    rewrite bytes_at_some by done. cbn [mbind option_bind]. set (p := take size (drop pos src)).
    assert (bytes p) as Hp by (by apply Forall_take, Forall_drop).
    assert (length p = size) as Hlp by (unfold p; rewrite length_take, length_drop; lia).
    destruct (be_value_acc p 0 Hp ltac:(lia)) as [_ Hv]. rewrite Hlp in Hv.
    destruct (Z.eqb_spec (be_value p) 0) as [|Hnz]; [by eexists|]. cbn [orb]. set (n := be_value p) in *.
    unfold lenZ at 1. destruct (Z.ltb_spec (Z.of_nat (length src)) (Z.of_nat (pos + size) + n)); [by eexists|].
    destruct (forallb _ p) eqn:Ez; [by apply be_value_zero in Ez|].
    destruct (Z.ltb_spec capacity (lenZ out + 4 + n)); [by eexists|].
    rewrite dst_put_some by (change (lenZ [0; 0; 0; 1]) with 4; lia). cbn [mbind option_bind].
    rewrite bytes_at_some by lia. cbn [mbind option_bind]. set (u := take (Z.to_nat n) (drop (pos + size) src)).
    assert (length u = Z.to_nat n) as Hu by (unfold u; rewrite length_take, length_drop; lia).
    assert (lenZ u = n) as Hlu by (unfold lenZ; lia).
    rewrite dst_put_some by (rewrite lenZ_app; change (lenZ [0; 0; 0; 1]) with 4; lia). cbn [mbind option_bind].
    destruct (IH (pos + size + Z.to_nat n)%nat ((out ++ [0; 0; 0; 1]) ++ u)) as (r & -> & Hr); [done|done|lia|lia| |].
    { rewrite !lenZ_app. change (lenZ [0; 0; 0; 1]) with 4. lia. }
    exists r. split; [done|]. intros p' out' ->. destruct (Hr _ _ eq_refl) as (us & Hus & -> & Hc & Hle & Hd).
    exists (u :: us). split_and!; [|by rewrite started_cons, <- !app_assoc|done|done|].
    + constructor; [|done]. split; [|lia]. intros E. rewrite E in Hu. cbn in Hu. lia.
    + rewrite frames_cons, Hlu, <- !app_assoc, <- Hd. unfold n. rewrite <- Hlp, nal_prefix_value, Hlp by done.
      rewrite <- (drop_drop src (Z.to_nat (be_value p))). fold n.
      change (drop pos src = p ++ u ++ drop (Z.to_nat n) (drop (pos + size) src)). unfold u.
      rewrite take_drop. rewrite <- drop_drop. unfold p. by rewrite take_drop.
Qed.

Lemma payload_frames src size capacity us :
  1 ≤ size ≤ 4 → us ≠ [] → Forall (unit_ok (Z.to_nat size)) us → src = frames_of (Z.to_nat size) us →
  lenZ (started us) ≤ capacity →
  avcc_payload_to_annexb src size capacity = Some (NGX_OK, started us).
Proof.
  intros Hsize Hne Hus Hsrc Hcap. unfold avcc_payload_to_annexb.
  destruct (Z.ltb_spec size 1), (Z.ltb_spec 4 size); try lia. cbn [orb].
  rewrite (annexb_loop_frames src (Z.to_nat size) capacity us); [|lia|done|by rewrite drop_0|lia|lia|change (lenZ []) with 0; lia].
  cbn [mbind option_bind app]. rewrite Nat.eqb_refl. pose proof (started_nonempty us Hne).
  by destruct (Z.eqb_spec (lenZ (started us)) 0); [lia|].
Qed.

(** Turning length prefixes into start codes is decided by what the source is: on any bytes
    and for any prefix size the conversion answers without an access outside the source
    or the destination, and it succeeds exactly when the prefix size is 1 to 4, the source is
    a non-empty sequence of non-empty NAL units behind prefixes that add up to it, and the
    units behind four-byte start codes fit the destination - which is what it then holds. *)
Theorem reframing_decides src size capacity :
  bytes src → 0 ≤ capacity →
  ∃ r out, avcc_payload_to_annexb src size capacity = Some (r, out) ∧
    (r = NGX_OK ↔ 1 ≤ size ≤ 4 ∧ ∃ us, us ≠ [] ∧ Forall (unit_ok (Z.to_nat size)) us ∧
       src = frames_of (Z.to_nat size) us ∧ lenZ (started us) ≤ capacity ∧ out = started us).
Proof.
  intros Hb Hcap. unfold avcc_payload_to_annexb.
  destruct (Z.ltb_spec size 1); [eexists _, _; split; [done|]; split; [done|intros [? _]; lia]|].
  destruct (Z.ltb_spec 4 size); [eexists _, _; split; [done|]; split; [done|intros [? _]; lia]|]. cbn [orb].
  destruct (annexb_loop_any src (Z.to_nat size) capacity (length src) 0 []) as (o & Eo & Ho); [lia|done|lia|lia|exact Hcap|].
  assert (∀ us, us ≠ [] → Forall (unit_ok (Z.to_nat size)) us → src = frames_of (Z.to_nat size) us →
    lenZ (started us) ≤ capacity → o = Some (length src, started us)) as Hframes.
  { intros us Hne Hus Hsrc Hfit.
    rewrite (annexb_loop_frames src (Z.to_nat size) capacity us) in Eo; [by injection Eo as <-|lia|done|by rewrite drop_0|lia|lia|change (lenZ []) with 0; lia]. }
  rewrite Eo. cbn [mbind option_bind]. destruct o as [[p out]|].
  - destruct (Ho p out eq_refl) as (us & Hus & -> & Hfit & Hp & Hd). cbn [app] in *. rewrite drop_0 in Hd.
    destruct (Nat.eqb_spec p (length src)) as [->|Hne]; cbn [negb orb].
    + rewrite drop_all, app_nil_r in Hd. destruct (Z.eqb_spec (lenZ (started us)) 0) as [E|].
      * eexists _, _. split; [done|]. split; [done|]. intros (_ & us' & Hne & ? & ? & ? & Eus).
        pose proof (started_nonempty us' Hne). rewrite <- Eus in *. lia.
      * eexists _, _. split; [done|]. split; [|done]. intros _. split; [lia|]. exists us. split_and!; try done.
        intros ->. done.
    + eexists _, _. split; [done|]. split; [done|]. intros (_ & us' & Hne' & Hus' & Hsrc & Hf & _).
      pose proof (Hframes us' Hne' Hus' Hsrc Hf) as [= ->]. done.
  - eexists _, _. split; [done|]. split; [done|]. intros (_ & us & Hne & Hus & Hsrc & Hf & _).
    by pose proof (Hframes us Hne Hus Hsrc Hf).
Qed.
Lemma reframing_decides_witness :
  ∃ r out, avcc_payload_to_annexb [0; 2; 101; 9; 0; 1; 65] 2 20 = Some (r, out) ∧
    (r = NGX_OK ↔ 1 ≤ 2 ≤ 4 ∧ ∃ us, us ≠ [] ∧ Forall (unit_ok (Z.to_nat 2)) us ∧
       [0; 2; 101; 9; 0; 1; 65] = frames_of (Z.to_nat 2) us ∧ lenZ (started us) ≤ 20 ∧ out = started us).
Proof. apply reframing_decides; [apply (bool_decide_unpack _); reflexivity|lia]. Defined.

(** The other direction frames the units the iterator finds, when they fit. *)
Lemma avcc_loop_units src size capacity : ∀ fuel pos out,
  (pos ≤ length src)%nat → (length src - pos < fuel)%nat → lenZ out ≤ capacity →
  ∃ us, nal_units fuel src (mk_iter pos (length src)) = Some us ∧ Forall clean us ∧
    avcc_loop fuel src size capacity (mk_iter pos (length src)) out
    = Some (if lenZ out + lenZ (frames_of size us) <=? capacity then Some (out ++ frames_of size us) else None).
Proof.
  induction fuel as [|fuel IH]; intros pos out Hp Hf Hcap; [lia|]. cbn [nal_units avcc_loop it_end].
  destruct (iter_next_spec src (S (length src)) pos) as (pos' & r & -> & Hpos & Hr); [lia..|].
  cbn [mbind option_bind fst snd]. destruct r as [[off len]|].
  2:{ exists []. split_and!; [done..|]. change (frames_of size []) with (@nil Z). change (lenZ []) with 0.
      rewrite (proj2 (Z.leb_le _ _)) by lia. by rewrite app_nil_r. }
  destruct Hr as (Hoff & Hin & Hc). set (u := take len (drop off src)) in *.
  assert (lenZ u = Z.of_nat len) as Hu by (unfold lenZ, u; rewrite length_take, length_drop; lia).
  assert (lenZ (nal_prefix size (Z.of_nat len)) = Z.of_nat size) as Hpre by (unfold lenZ; by rewrite nal_prefix_length).
  assert (∀ us, lenZ (frames_of size (u :: us)) = Z.of_nat size + Z.of_nat len + lenZ (frames_of size us)) as Hframes.
  { intros us. rewrite frames_cons, !lenZ_app, Hu, Hpre. lia. }
  destruct (Z.ltb_spec capacity (lenZ out + Z.of_nat size + Z.of_nat len)) as [Hlt|Hge].
  - destruct (IH pos' [] ltac:(lia) ltac:(lia)) as (us & -> & Hus & _).
    { change (lenZ []) with 0. pose proof (lenZ_nonneg out). lia. }
    exists (u :: us). split_and!; [done|by constructor|]. rewrite Hframes. pose proof (lenZ_nonneg (frames_of size us)).
    by destruct (Z.leb_spec (lenZ out + (Z.of_nat size + Z.of_nat len + lenZ (frames_of size us))) capacity); [lia|].
  - rewrite dst_put_some by lia. cbn [mbind option_bind]. rewrite bytes_at_some by lia. cbn [mbind option_bind]. fold u.
    rewrite dst_put_some by (rewrite lenZ_app; lia). cbn [mbind option_bind].
    destruct (IH pos' ((out ++ nal_prefix size (Z.of_nat len)) ++ u)) as (us & -> & Hus & ->); [lia|lia|rewrite !lenZ_app; lia|].
    exists (u :: us). split_and!; [done|by constructor|]. rewrite Hframes, !lenZ_app, Hpre, Hu.
    replace (lenZ out + Z.of_nat size + Z.of_nat len + lenZ (frames_of size us))
      with (lenZ out + (Z.of_nat size + Z.of_nat len + lenZ (frames_of size us))) by lia.
    rewrite frames_cons, Hu, <- !app_assoc. done.
Qed.

Lemma frames_nonempty size us : (1 ≤ size)%nat → us ≠ [] → 0 < lenZ (frames_of size us).
Proof.
  intros Hs. destruct us as [|u us]; [done|]. intros _. rewrite frames_cons, !lenZ_app. unfold lenZ at 1.
  rewrite nal_prefix_length. pose proof (lenZ_nonneg u). pose proof (lenZ_nonneg (frames_of size us)). lia.
Qed.

(** Any source again: no access outside, no endless loop. *)
Lemma annexb_to_avcc_units src size capacity :
  1 ≤ size ≤ 4 → 0 ≤ capacity →
  ∃ us, nal_units (S (length src)) src (nal_iter_init (length src)) = Some us ∧ Forall clean us ∧
    annexb_payload_to_avcc src size capacity
    = Some (if bool_decide (us ≠ []) && (lenZ (frames_of (Z.to_nat size) us) <=? capacity)
            then (NGX_OK, frames_of (Z.to_nat size) us) else (NGX_ERROR, [])).
Proof.
  intros Hs Hcap. unfold annexb_payload_to_avcc.
  destruct (Z.ltb_spec size 1), (Z.ltb_spec 4 size); try lia. cbn [orb].
  destruct (avcc_loop_units src (Z.to_nat size) capacity (S (length src)) 0 []) as (us & Hn & Hus & E); [lia|lia|done|].
  unfold nal_iter_init. rewrite E. exists us. split_and!; [done..|]. cbn [mbind option_bind app]. change (lenZ [] + ?x) with x.
  destruct us as [|u us].
  - change (frames_of _ []) with (@nil Z). rewrite (proj2 (Z.leb_le (lenZ []) _)) by exact Hcap. done.
  - rewrite bool_decide_true by done. cbn [andb]. pose proof (frames_nonempty (Z.to_nat size) (u :: us) ltac:(lia) ltac:(done)).
    destruct (_ <=? capacity); [|done]. by destruct (Z.eqb_spec (lenZ (frames_of (Z.to_nat size) (u :: us))) 0); [lia|].
Qed.

Lemma annexb_frames units size capacity :
  1 ≤ size ≤ 4 → units ≠ [] → Forall (λ u, clean u.2) units →
  lenZ (frames_of (Z.to_nat size) units.*2) ≤ capacity →
  annexb_payload_to_avcc (annexb units) size capacity = Some (NGX_OK, frames_of (Z.to_nat size) units.*2).
Proof.
  intros Hs Hne Hc Hcap. pose proof (lenZ_nonneg (frames_of (Z.to_nat size) units.*2)).
  destruct (annexb_to_avcc_units (annexb units) size capacity Hs ltac:(lia)) as (us & Hn & _ & ->).
  assert (us = units.*2) as ->.
  { unfold nal_iter_init in Hn. rewrite (nal_units_annexb (annexb units) _ 0 units) in Hn; [by injection Hn as <-|done|done| |lia].
    clear. induction units as [|[long n] units IH]; [cbn; lia|].
    rewrite annexb_cons, !length_app. destruct long; cbn [length start_code] in *; lia. }
  rewrite bool_decide_true by (by destruct units). rewrite (proj2 (Z.leb_le _ _)) by done. done.
Qed.

(** Reframing is a round trip: NAL units in Annex B form, behind start codes of three or
    four bytes, become length-prefixed when the destination has room, and back become the
    same units in the same order, each behind a four-byte start code - for every prefix size
    from 1 to 4 that can describe the units. *)
Theorem reframing_roundtrip (units : list (bool * list Z)) size capacity back :
  1 ≤ size ≤ 4 → units ≠ [] → Forall (λ u, clean u.2 ∧ lenZ u.2 < 2 ^ (8 * size)) units →
  lenZ (frames_of (Z.to_nat size) units.*2) ≤ capacity → lenZ (started units.*2) ≤ back →
  ∃ avcc, annexb_payload_to_avcc (annexb units) size capacity = Some (NGX_OK, avcc) ∧
    avcc_payload_to_annexb avcc size back = Some (NGX_OK, started units.*2).
Proof.
  intros Hs Hne Hu Hcap Hback. eexists. split.
  - apply annexb_frames; [done|done| |exact Hcap]. eapply Forall_impl; [exact Hu|]. by intros ? [? _].
  - apply payload_frames; [done|by destruct units| |done|done]. apply Forall_fmap. eapply Forall_impl; [exact Hu|].
    intros u [(? & _) Hlt]. split; [done|]. by rewrite Z2Nat.id by lia.
Qed.
Lemma reframing_roundtrip_witness :
  ∃ avcc, annexb_payload_to_avcc (annexb [(true, [103; 66]); (false, [101; 0; 0; 3; 1])]) 4 15 = Some (NGX_OK, avcc) ∧
    avcc_payload_to_annexb avcc 4 15 = Some (NGX_OK, started [[103; 66]; [101; 0; 0; 3; 1]]).
Proof.
  apply (reframing_roundtrip [(true, [103; 66]); (false, [101; 0; 0; 3; 1])] 4 15 15); [lia|done| |apply (bool_decide_unpack _); reflexivity..].
  repeat constructor; done.
Defined.

(** ** Parsed records *)

(** What every unit added keeps is kept. *)
Lemma units_read_keeps {A} (P : A → Prop) (add : list Z → A → A) count data : ∀ pos a r a',
  (∀ set a, P a → P (add set a)) → P a → units_read add count data pos a = Some (r, a') → P a'.
Proof.
  induction count as [|count IH]; intros pos a r a' Hadd Ha; cbn [units_read]; [by intros [= _ <-]|].
  case_match; [by intros [= _ <-]|]. destruct (u16_at _ _); [|done]. cbn [mbind option_bind].
  case_match; [by intros [= _ <-]|]. destruct (bytes_at _ _ _); [|done]. cbn [mbind option_bind].
  apply IH; auto.
Qed.

(** Whatever the bytes, the parser answers, and the prefix size it leaves is usable. *)
Definition size_ok (n : Z) : Prop := 1 ≤ n ≤ 4.
Lemma size_masked b : size_ok (Z.land b 3 + 1).
Proof. unfold size_ok. change 3 with (2 ^ 2 - 1). rewrite land_ones by lia. pose proof (Z.mod_pos_bound b (2 ^ 2)). lia. Qed.

Lemma avcc_parse_any d a0 :
  ∃ r a, avcc_parse d a0 = Some (r, a) ∧ (size_ok (ac_nal_length_size a) ∨ r ≠ NGX_OK ∧ a = a0).
Proof.
  unfold avcc_parse. destruct (Nat.ltb_spec (length d) 7); [eexists _, _; split; [done|]; auto|].
  destruct (lookup_some d 0 ltac:(lia)) as [b0 ->], (lookup_some d 1 ltac:(lia)) as [b1 ->], (lookup_some d 2 ltac:(lia)) as [b2 ->],
    (lookup_some d 3 ltac:(lia)) as [b3 ->], (lookup_some d 4 ltac:(lia)) as [b4 ->], (lookup_some d 5 ltac:(lia)) as [b5 ->].
  cbn [mbind option_bind]. set (a := mk_avcc _ _ _ _ _ _ _).
  assert (size_ok (ac_nal_length_size a)) as Ha by apply size_masked.
  destruct (_ || _); [eexists _, _; split; [done|]; auto|].
  destruct (units_read_safe add_sps (Z.to_nat (Z.land b5 31)) d 6 a) as (r1 & a1 & E1 & H1). rewrite E1. cbn [mbind option_bind].
  apply (units_read_keeps (λ a, size_ok (ac_nal_length_size a))) in E1; [|done|done].
  destruct r1 as [p|]; [|eexists _, _; split; [done|]; auto].
  destruct (_ =? 0)%nat; [eexists _, _; split; [done|]; auto|].
  destruct (Nat.leb_spec (length d) p); [eexists _, _; split; [done|]; auto|].
  destruct (lookup_some d p ltac:(lia)) as [b6 ->]. cbn [mbind option_bind].
  destruct (units_read_safe add_pps (Z.to_nat b6) d (p + 1) a1) as (r2 & a2 & E2 & _). rewrite E2. cbn [mbind option_bind].
  apply (units_read_keeps (λ a, size_ok (ac_nal_length_size a))) in E2; [|done|done].
  destruct r2; eexists _, _; (split; [done|]; auto).
Qed.

Lemma hvcc_arrays_any data arrays : ∀ pos h,
  ∃ r h', hvcc_arrays arrays data pos h = Some (r, h') ∧
    (size_ok (hc_nal_length_size h) → size_ok (hc_nal_length_size h')).
Proof.
  induction arrays as [|arrays IH]; intros pos h; cbn [hvcc_arrays]; [eexists _, _; split; [done|]; auto|].
  destruct (Nat.ltb_spec (length data) (pos + 3)); [eexists _, _; split; [done|]; auto|].
  destruct (lookup_some data pos ltac:(lia)) as [t ->]. destruct (u16_at_some data (pos + 1)) as [c ->]; [lia|].
  cbn [mbind option_bind].
  destruct (units_read_safe (add_unit (Z.land t 63)) (Z.to_nat c) data (pos + 3) h) as (r1 & h1 & E1 & _).
  rewrite E1. cbn [mbind option_bind].
  assert (size_ok (hc_nal_length_size h) → size_ok (hc_nal_length_size h1)) as Hh1.
  { intros Hh. eapply (units_read_keeps (λ h, size_ok (hc_nal_length_size h))); [|exact Hh|exact E1].
    intros set h' Hh'. unfold add_unit. by repeat case_match. }
  destruct r1 as [p|]; [|eexists _, _; split; [done|]; auto].
  destruct (IH p h1) as (r & h' & -> & Hh'). eexists _, _. split; [done|]. auto.
Qed.
Lemma hvcc_parse_any d h0 :
  ∃ r h, hvcc_parse d h0 = Some (r, h) ∧ (size_ok (hc_nal_length_size h) ∨ r ≠ NGX_OK ∧ h = h0).
Proof.
  unfold hvcc_parse. destruct (Nat.ltb_spec (length d) 23); [eexists _, _; split; [done|]; auto|].
  destruct (lookup_some d 0 ltac:(lia)) as [b0 ->], (lookup_some d 1 ltac:(lia)) as [b1 ->], (lookup_some d 12 ltac:(lia)) as [b2 ->],
    (lookup_some d 21 ltac:(lia)) as [b3 ->], (lookup_some d 22 ltac:(lia)) as [b4 ->].
  cbn [mbind option_bind]. set (h := mk_hvcc _ _ _ _ _ _ _ _).
  assert (size_ok (hc_nal_length_size h)) as Hh by apply size_masked.
  destruct (_ || _); [eexists _, _; split; [done|]; auto|].
  destruct (hvcc_arrays_any d (Z.to_nat b4) 23 h) as (r & h' & -> & Hh'). cbn [mbind option_bind].
  destruct (bool_decide (r = NGX_OK)); eexists _, _; (split; [done|]; auto).
Qed.
Lemma asc_parse_any d c0 : bytes d → ∃ r c, asc_parse d c0 = Some (r, c).
Proof.
  intros Hb. unfold asc_parse. destruct (Nat.ltb_spec (length d) 2); [by eexists _, _|].
  destruct (lookup_some d 0 ltac:(lia)) as [a Ha], (lookup_some d 1 ltac:(lia)) as [b Hb']. rewrite Ha, Hb'. cbn [mbind option_bind].
  destruct (_ =? 0); [by eexists _, _|]. cbn [orb]. set (i := Z.lor _ _).
  destruct (Z.ltb_spec 12 i) as [|Hi]; [by eexists _, _|].
  destruct (lookup_lt_is_Some_2 asc_rates (Z.to_nat i)) as [rate ->]; [cbn; lia|]. by eexists _, _.
Qed.

(** The parameter sets fit the buffer their size was computed for. *)
Lemma sets_put_fits capacity sets : ∀ out,
  lenZ out + sets_size sets ≤ capacity → sets_put capacity sets out = Some (out ++ started sets).
Proof.
  induction sets as [|set sets IH]; intros out; [intros; by rewrite app_nil_r|]. cbn [sets_put].
  change (sets_size (set :: sets)) with (4 + lenZ set + sets_size sets). intros Hc.
  pose proof (started_length sets). pose proof (lenZ_nonneg (started sets)). pose proof (lenZ_nonneg set).
  rewrite dst_put_some by (change (lenZ [0; 0; 0; 1]) with 4; lia). cbn [mbind option_bind].
  rewrite dst_put_some by (rewrite lenZ_app; change (lenZ [0; 0; 0; 1]) with 4; lia). cbn [mbind option_bind].
  rewrite IH by (rewrite !lenZ_app; change (lenZ [0; 0; 0; 1]) with 4; lia).
  by rewrite started_cons, <- !app_assoc.
Qed.
Lemma started_app a b : started (a ++ b) = started a ++ started b.
Proof. unfold started, annexb. by rewrite !fmap_app, join_app. Qed.
Lemma sets_size_nonneg l : 0 ≤ sets_size l.
Proof. rewrite <- started_length. apply lenZ_nonneg. Qed.
Lemma avcc_annexb_ok a :
  avcc_to_annexb a (avcc_annexb_size a) = Some (NGX_OK, started (ac_sps a ++ ac_pps a)) ∧
  lenZ (started (ac_sps a ++ ac_pps a)) = avcc_annexb_size a.
Proof.
  unfold avcc_to_annexb, avcc_annexb_size. rewrite Z.ltb_irrefl, started_app, lenZ_app, !started_length. split; [|done].
  pose proof (sets_size_nonneg (ac_pps a)).
  rewrite sets_put_fits by (change (lenZ []) with 0; lia). cbn [mbind option_bind app].
  by rewrite sets_put_fits by (rewrite started_length; lia).
Qed.
Lemma hvcc_annexb_ok h :
  hvcc_to_annexb h (hvcc_annexb_size h) = Some (NGX_OK, started (hc_vps h ++ hc_sps h ++ hc_pps h)) ∧
  lenZ (started (hc_vps h ++ hc_sps h ++ hc_pps h)) = hvcc_annexb_size h.
Proof.
  unfold hvcc_to_annexb, hvcc_annexb_size. rewrite Z.ltb_irrefl, !started_app, !lenZ_app, !started_length.
  split; [|lia]. pose proof (sets_size_nonneg (hc_sps h)). pose proof (sets_size_nonneg (hc_pps h)).
  rewrite sets_put_fits by (change (lenZ []) with 0; lia). cbn [mbind option_bind app].
  rewrite sets_put_fits by (rewrite started_length; lia). cbn [mbind option_bind].
  rewrite sets_put_fits by (rewrite lenZ_app, !started_length; lia). by rewrite app_assoc.
Qed.

(** Whatever the bytes, the conversion answers inside its destination. *)
Lemma payload_any src size capacity :
  bytes src → 0 ≤ capacity →
  ∃ r out, avcc_payload_to_annexb src size capacity = Some (r, out) ∧ (r = NGX_OK → lenZ out ≤ capacity ∧
    ∃ us, us ≠ [] ∧ Forall (unit_ok (Z.to_nat size)) us ∧ src = frames_of (Z.to_nat size) us ∧ out = started us).
Proof.
  intros Hb Hcap. unfold avcc_payload_to_annexb.
  destruct (Z.ltb_spec size 1); [by eexists _, _|]. destruct (Z.ltb_spec 4 size); [by eexists _, _|]. cbn [orb].
  destruct (annexb_loop_any src (Z.to_nat size) capacity (length src) 0 []) as (o & -> & Ho); [lia|done|lia|lia|exact Hcap|].
  cbn [mbind option_bind]. destruct o as [[p out]|]; [|by eexists _, _].
  destruct (Ho p out eq_refl) as (us & Hus & -> & Hfit & Hp & Hd). cbn [app] in *. rewrite drop_0 in Hd.
  destruct (Nat.eqb_spec p (length src)) as [->|]; cbn [negb orb]; [|by eexists _, _].
  destruct (Z.eqb_spec (lenZ (started us)) 0); [by eexists _, _|].
  eexists _, _. split; [done|]. intros _. split; [done|]. exists us. rewrite drop_all, app_nil_r in Hd.
  split_and!; try done. by intros ->.
Qed.
