(* ===== verification/RtmpPublisher.v ===== *)
(** * RTMP publishers

    Models the publisher of rtmp/ngx_media_rtmp_adapter.[ch]: the messages of an RTMP
    publisher become the frames and the tracks of a source.  The publisher runs in the monad
    [P]: its state, the payload store and the calls made to the two callbacks. *)
From S2P Require Import Prelude Bytes Store Aac Nal Compat TsDemux RtmpParam.

Definition RTMP_TIMESCALE : Z := 90.
Definition FRAME_KEYFRAME : Z := 1.
Definition FRAME_MASK : Z := 7.
Definition EX_HEADER_FLAG : Z := 0x80.
Definition EX_SEQUENCE_START : Z := 0.
Definition EX_CODED_FRAMES : Z := 1.
Definition EX_SEQUENCE_END : Z := 2.
Definition EX_METADATA : Z := 4.
Definition AVC_SEQUENCE : Z := 0.
Definition AVC_END_SEQUENCE : Z := 2.
Definition AAC_SEQUENCE : Z := 0.
Definition AAC_RAW : Z := 1.
Definition MSG_AUDIO : Z := 8.
Definition MSG_VIDEO : Z := 9.
Definition ADTS_HEADER_MAX : Z := 9.

Record publisher := mk_pub {
  pu_tracks : trackset; pu_video_track : Z; pu_audio_track : Z; pu_have_video : bool;
  pu_have_audio : bool; pu_avcc : avcc; pu_have_avcc : bool; pu_hvcc : hvcc; pu_have_hvcc : bool;
  pu_asc : asc; pu_have_asc : bool; pu_last_dts : Z;
  pu_frames : Z; pu_configs : Z; pu_errors : Z; pu_skipped : Z }.
#[global] Instance eta_publisher : Eta publisher := λ r,
  mk_pub (pu_tracks r) (pu_video_track r) (pu_audio_track r) (pu_have_video r) (pu_have_audio r)
    (pu_avcc r) (pu_have_avcc r) (pu_hvcc r) (pu_have_hvcc r) (pu_asc r) (pu_have_asc r)
    (pu_last_dts r) (pu_frames r) (pu_configs r) (pu_errors r) (pu_skipped r).
Definition publisher_zero : publisher :=
  mk_pub trackset_zero 0 0 false false avcc_zero false hvcc_zero false asc_zero false 0 0 0 0 0.

(** A call of a callback: a frame with its payload, and whether the receiver keeps a
    reference to it; or the tracks. *)
Inductive pub_call := CallFrame (f : frame) (data : list Z) (keep : bool) | CallTracks (tracks : trackset).

(** The payloads that receivers kept, as they were handed out. *)
Definition kept_of (calls : list pub_call) : list (N * list Z) :=
  omap (λ c, match c with CallFrame f data true => (λ id, (id, data)) <$> payload f | _ => None end) calls.
Definition kept_ids (calls : list pub_call) : list N := (kept_of calls).*1.

Record pstate := mk_pstate { ps_pub : publisher; ps_calls : list pub_call; ps_store : store }.
#[global] Instance eta_pstate : Eta pstate := λ r, mk_pstate (ps_pub r) (ps_calls r) (ps_store r).
Notation P := (SM pstate).

Definition pub_get {A} (f : publisher → A) : P A := sget (λ s, f (ps_pub s)).
Definition pub_mod (f : publisher → publisher) : P unit := smod (λ s, s <| ps_pub ::= f |>).
Definition on_pstore {A} (m : M A) : P A := λ s,
  match m (ps_store s) with
  | Some (a, st) => Some (a, s <| ps_store := st |>)
  | None => None
  end.
Definition pub_call_made (c : pub_call) : P unit := smod (λ s, s <| ps_calls ::= λ l, l ++ [c] |>).
Definition pub_error : P unit := pub_mod (λ p, p <| pu_errors ::= λ n, n ⊕ 1 |>).
Definition pub_skip : P rc := _ ← pub_mod (λ p, p <| pu_skipped ::= λ n, n ⊕ 1 |>); mret NGX_OK.

(** The callbacks: the answer the first gives to a frame, [None] when it is NULL, and whether
    it takes a reference to the payload; and whether there is a second, whose answer is
    ignored. *)
Record callbacks := mk_callbacks {
  cb_frame : option (frame → list Z → rc); cb_keep : frame → list Z → bool; cb_tracks : bool }.

Definition publisher_init : M (rc * publisher) :=
  '(r, tracks) ← trackset_init 4;
  mret (if bool_decide (r = NGX_OK) then NGX_OK else NGX_ERROR, publisher_zero <| pu_tracks := tracks |>).
Definition publisher_destroy : P unit :=
  tracks ← pub_get pu_tracks;
  _ ← on_pstore (trackset_destroy tracks);
  pub_mod (λ _, publisher_zero).

(** The 24-bit composition time, its sign extended. *)
Definition flv_cts (p : list Z) : option Z :=
  match p with
  | a :: b :: c :: _ =>
      let v := Z.lor (Z.lor (Z.shiftl a 16) (Z.shiftl b 8)) c in
      Some (if Z.land v 0x800000 =? 0 then v else Z.lor v (Z.lnot 0xFFFFFF))
  | _ => None
  end.

Definition rtmp_emit (cb : callbacks) (buf : N) (len : Z) (f : frame) : P rc :=
  _ ← on_pstore (buf_freeze (Some buf) len);
  f ← on_pstore (frame_adopt f (Some buf));
  r ← match cb_frame cb with
      | None => mret NGX_OK
      | Some answer =>
          n ← on_pstore (buf_size (Some buf));
          data ← on_pstore (buf_read buf n);
          let keep := cb_keep cb f data in
          _ ← (if keep then on_pstore (buf_ref (payload f)) else mret None);
          _ ← pub_call_made (CallFrame f data keep); mret (answer f data)
      end;
  _ ← on_pstore (frame_release f);
  mret (if bool_decide (r = NGX_OK) then NGX_OK else NGX_ERROR).

(** A buffer of [capacity] bytes that starts with [data]. *)
Definition buf_with (capacity : Z) (data : list Z) : P (option N) :=
  b ← on_pstore (buf_alloc capacity);
  match b with
  | None => mret None
  | Some id => _ ← on_pstore (buf_write id 0 data); mret (Some id)
  end.

(** ** Tracks *)

(** A track is added; [None] is a set without room. *)
Definition pub_add_track (tr : track) : P (option Z) :=
  tracks ← pub_get pu_tracks;
  '(r, tracks) ← on_pstore (trackset_add tracks tr);
  _ ← pub_mod (λ p, p <| pu_tracks := tracks |>);
  mret match r with inl _ => None | inr _ => Some (ts_count tracks - 1) end.

(** The configuration of track [i] is replaced and the track updated. *)
Definition pub_set_track (i : Z) (config : N) (update : track → track) : P unit :=
  tracks ← pub_get pu_tracks;
  slot ← sread (ts_tracks tracks !! Z.to_nat i);
  _ ← on_pstore (buf_unref (tr_config slot));
  c ← on_pstore (buf_ref (Some config));
  pub_mod (λ p, p <| pu_tracks := tracks <| ts_tracks ::= <[Z.to_nat i := (update slot) <| tr_config := c |>]> |> |>).

Definition config_frame (p : publisher) (media codec format track : Z) : frame :=
  mk_frame media codec format track (pu_last_dts p) (pu_last_dts p) true true None.

Definition pub_announce (cb : callbacks) : P rc :=
  _ ← pub_mod (λ p, p <| pu_configs ::= λ n, n ⊕ 1 |>);
  tracks ← pub_get pu_tracks;
  _ ← (if cb_tracks cb then pub_call_made (CallTracks tracks) else mret tt);
  mret NGX_OK.

Definition video_track (codec profile level : Z) (config : N) : track :=
  track_zero <| tr_media_type := TYPE_VIDEO |> <| tr_codec := codec |>
    <| tr_payload_format := PAYLOAD_ANNEXB |> <| tr_profile := profile |> <| tr_level := level |>
    <| tr_config := Some config |>.

(** The track of a configuration: updated when there is one, or else added; [false] is a set
    without room, which the configuration does not survive. *)
Definition install_track (have : bool) (index : Z) (config : N) (fresh : track) (update : track → track)
    (mark : Z → publisher → publisher) : P bool :=
  if have then _ ← pub_set_track index config update; mret true
  else
    i ← pub_add_track fresh;
    match i with
    | None => _ ← on_pstore (buf_unref (Some config)); mret false
    | Some i => _ ← pub_mod (mark i); mret true
    end.
Definition mark_video (i : Z) (p : publisher) : publisher :=
  p <| pu_video_track := i |> <| pu_have_video := true |>.
Definition mark_audio (i : Z) (p : publisher) : publisher :=
  p <| pu_audio_track := i |> <| pu_have_audio := true |>.

(** [video_config]: the extended path. *)
Definition publisher_video_config (cb : callbacks) (config : N) (len codec profile level : Z) : P rc :=
  p ← pub_get id;
  ok ← install_track (pu_have_video p) (pu_video_track p) config (video_track codec profile level config)
         (λ tr, tr <| tr_codec := codec |> <| tr_profile := profile |> <| tr_level := level |>
                   <| tr_payload_format := PAYLOAD_ANNEXB |>) mark_video;
  if negb ok then mret NGX_ERROR
  else
    p ← pub_get id;
    r ← rtmp_emit cb config len (config_frame p TYPE_VIDEO codec PAYLOAD_ANNEXB (pu_video_track p));
    if bool_decide (r = NGX_OK) then pub_announce cb else _ ← pub_error; mret NGX_OK.

(** ** Coded frames *)

Definition parameter_set (codec header : Z) : bool :=
  if codec =? CODEC_H265 then
    let type := Z.land (Z.shiftr header 1) 0x3f in (32 <=? type) && (type <=? 34)
  else
    let type := Z.land header 0x1f in (type =? 7) || (type =? 8).

(** The units counted: their number, the position behind the last, and whether one is a
    parameter set.  The legacy path does not look at types. *)
Fixpoint count_units (fuel : nat) (payload : list Z) (size : nat) (codec : option Z) (pos nals : Z)
    (has_sets : bool) : option (Z * Z * bool) :=
  if pos + Z.of_nat size <=? lenZ payload then
    match fuel with
    | O => None
    | S fuel =>
        p ← bytes_at payload (Z.to_nat pos) size;
        let nlen := be_value p in
        set ← (if (0 <? nlen) && (pos + Z.of_nat size <? lenZ payload) then
                 match codec with
                 | Some codec =>
                     header ← payload !! Z.to_nat (pos + Z.of_nat size); Some (parameter_set codec header)
                 | None => Some false
                 end
               else Some false);
        let pos := pos + (Z.of_nat size + nlen) in
        if lenZ payload <? pos then Some (0, pos, has_sets || set)
        else count_units fuel payload size codec pos (nals + 1) (has_sets || set)
    end
  else Some (nals, pos, has_sets).
Definition count_nals (payload : list Z) (size : Z) (codec : option Z) : option (Z * Z * bool) :=
  count_units (length payload) payload (Z.to_nat size) codec 0 0 false.

Definition media_frame (media codec format track pts dts : Z) (keyframe : bool) : frame :=
  mk_frame media codec format track pts dts keyframe false None.

(** The converted unit leaves as a frame. *)
Definition pub_emit_media (cb : callbacks) (buf : N) (len timestamp_ms : Z) (f : frame) : P rc :=
  _ ← pub_mod (λ p, p <| pu_last_dts := timestamp_ms * RTMP_TIMESCALE |>);
  r ← rtmp_emit cb buf len f;
  if bool_decide (r = NGX_OK)
  then _ ← pub_mod (λ p, p <| pu_frames ::= λ n, n ⊕ 1 |>); mret NGX_OK
  else _ ← pub_error; mret NGX_OK.

(** The parameter sets of the video track, put in front of a keyframe without any. *)
Definition track_sets (keyframe has_sets : bool) : P (option N) :=
  p ← pub_get id;
  if keyframe && negb has_sets && pu_have_video p then
    tr ← sread (ts_tracks (pu_tracks p) !! Z.to_nat (pu_video_track p)); mret (tr_config tr)
  else mret None.

(** [size] and [codec]: the prefix size and, in the extended path, the codec whose parameter
    sets are looked for.  The legacy path converts without them. *)
Definition publisher_payload (cb : callbacks) (timestamp_ms size : Z) (payload : list Z)
    (keyframe : bool) (cts codec : Z) (legacy : bool) : P rc :=
  '(nals, pos, has_sets) ← sread (count_nals payload size (if legacy then None else Some codec));
  if (nals =? 0) || negb (pos =? lenZ payload) then _ ← pub_error; mret NGX_OK
  else
    sets ← (if legacy then mret None else track_sets keyframe has_sets);
    sets_len ← on_pstore (buf_size sets);
    let capacity := sets_len + lenZ payload + nals * 4 in
    buf ← on_pstore (buf_alloc capacity);
    match buf with
    | None => mret NGX_ERROR
    | Some buf =>
        _ ← match sets with
            | Some sets =>
                if 0 <? sets_len
                then config ← on_pstore (buf_read sets sets_len); on_pstore (buf_write buf 0 config)
                else mret tt
            | None => mret tt
            end;
        '(r, out) ← sread (avcc_payload_to_annexb payload size (capacity - sets_len));
        if negb (bool_decide (r = NGX_OK)) then
          _ ← on_pstore (buf_unref (Some buf)); _ ← pub_error; mret NGX_OK
        else
          _ ← on_pstore (buf_write buf sets_len out);
          track ← pub_get pu_video_track;
          pub_emit_media cb buf (sets_len + lenZ out) timestamp_ms
            (media_frame TYPE_VIDEO codec PAYLOAD_ANNEXB track
               ((timestamp_ms + cts) * RTMP_TIMESCALE) (timestamp_ms * RTMP_TIMESCALE) keyframe)
    end.

(** ** Video messages *)

(** A record's parameter sets, in a buffer of their size; [None] is an error already
    counted or, with [false], no memory. *)
Definition sets_buffer (size : Z) (annexb : option (rc * list Z)) : P (bool * option (N * Z)) :=
  buf ← on_pstore (buf_alloc size);
  match buf with
  | None => mret (false, None)
  | Some buf =>
      '(r, out) ← sread annexb;
      if negb (bool_decide (r = NGX_OK)) then
        _ ← on_pstore (buf_unref (Some buf)); _ ← pub_error; mret (true, None)
      else _ ← on_pstore (buf_write buf 0 out); mret (true, Some (buf, lenZ out))
  end.

Definition fourcc_hvc1 : list Z := [104; 118; 99; 49].
Definition fourcc_avc1 : list Z := [97; 118; 99; 49].

(** A sequence header of the extended form. *)
Definition ex_sequence (cb : callbacks) (codec : Z) (payload : list Z) : P rc :=
  if codec =? CODEC_H265 then
    old ← pub_get pu_hvcc;
    '(r, hvcc) ← sread (hvcc_parse payload old);
    _ ← pub_mod (λ p, p <| pu_hvcc := hvcc |>);
    if negb (bool_decide (r = NGX_OK)) then _ ← pub_error; mret NGX_OK
    else
      _ ← pub_mod (λ p, p <| pu_have_hvcc := true |>);
      '(memory, config) ← sets_buffer (hvcc_annexb_size hvcc) (hvcc_to_annexb hvcc (hvcc_annexb_size hvcc));
      match config with
      | None => mret (if memory : bool then NGX_OK else NGX_ERROR)
      | Some (buf, len) => publisher_video_config cb buf len codec (hc_profile_idc hvcc) (hc_level hvcc)
      end
  else
    old ← pub_get pu_avcc;
    '(r, avcc) ← sread (avcc_parse payload old);
    _ ← pub_mod (λ p, p <| pu_avcc := avcc |>);
    if negb (bool_decide (r = NGX_OK)) then _ ← pub_error; mret NGX_OK
    else
      _ ← pub_mod (λ p, p <| pu_have_avcc := true |>);
      '(memory, config) ← sets_buffer (avcc_annexb_size avcc) (avcc_to_annexb avcc (avcc_annexb_size avcc));
      match config with
      | None => mret (if memory : bool then NGX_OK else NGX_ERROR)
      | Some (buf, len) => publisher_video_config cb buf len codec (ac_profile avcc) (ac_level avcc)
      end.

(** Coded frames of the extended form, with or without a composition time. *)
Definition ex_coded_frames (cb : callbacks) (timestamp_ms codec packet_type frame_type : Z) (payload : list Z) : P rc :=
  p ← pub_get id;
  if negb (if codec =? CODEC_H265 then pu_have_hvcc p else pu_have_avcc p) then pub_skip
  else
    let size := if codec =? CODEC_H265 then hc_nal_length_size (pu_hvcc p)
                else ac_nal_length_size (pu_avcc p) in
    if packet_type =? EX_CODED_FRAMES then
      if lenZ payload <? 3 then pub_skip
      else
        cts ← sread (flv_cts payload);
        publisher_payload cb timestamp_ms size (drop 3 payload) (frame_type =? FRAME_KEYFRAME) cts codec false
    else publisher_payload cb timestamp_ms size payload (frame_type =? FRAME_KEYFRAME) 0 codec false.

Definition publisher_video_ex (cb : callbacks) (timestamp_ms : Z) (data : list Z) : P rc :=
  if lenZ data <? 5 then pub_skip
  else
    b0 ← sread (data !! 0%nat);
    let frame_type := Z.land (Z.shiftr b0 4) FRAME_MASK in
    let packet_type := Z.land b0 0x0F in
    let payload := drop 5 data in
    if packet_type =? EX_SEQUENCE_END then mret NGX_OK
    else if packet_type =? EX_METADATA then pub_skip
    else
      fourcc ← sread (bytes_at data 1 4);
      let codec := if bool_decide (fourcc = fourcc_hvc1) then Some CODEC_H265
                   else if bool_decide (fourcc = fourcc_avc1) then Some CODEC_H264 else None in
      match codec with
      | None => pub_skip
      | Some codec =>
          if packet_type =? EX_SEQUENCE_START then ex_sequence cb codec payload
          else ex_coded_frames cb timestamp_ms codec packet_type frame_type payload
      end.

(** A sequence header of the legacy form: the slot's codec stays, and a refused
    configuration frame does not stop the announcement. *)
Definition legacy_sequence (cb : callbacks) (payload : list Z) : P rc :=
  old ← pub_get pu_avcc;
  '(r, avcc) ← sread (avcc_parse payload old);
  _ ← pub_mod (λ p, p <| pu_avcc := avcc |>);
  if negb (bool_decide (r = NGX_OK)) then _ ← pub_error; mret NGX_OK
  else
    _ ← pub_mod (λ p, p <| pu_have_avcc := true |>);
    '(memory, config) ← sets_buffer (avcc_annexb_size avcc) (avcc_to_annexb avcc (avcc_annexb_size avcc));
    match config with
    | None => mret (if memory : bool then NGX_OK else NGX_ERROR)
    | Some (buf, len) =>
        p ← pub_get id;
        ok ← install_track (pu_have_video p) (pu_video_track p) buf
               (video_track CODEC_H264 (ac_profile avcc) (ac_level avcc) buf)
               (λ tr, tr <| tr_profile := ac_profile avcc |> <| tr_level := ac_level avcc |>
                         <| tr_payload_format := PAYLOAD_ANNEXB |>) mark_video;
        if negb ok then mret NGX_ERROR
        else
          p ← pub_get id;
          r ← rtmp_emit cb buf len (config_frame p TYPE_VIDEO CODEC_H264 PAYLOAD_ANNEXB (pu_video_track p));
          _ ← (if bool_decide (r = NGX_OK) then mret tt else pub_error);
          pub_announce cb
    end.

Definition publisher_video (cb : callbacks) (timestamp_ms : Z) (data : list Z) : P rc :=
  if lenZ data <? 5 then pub_skip
  else
    b0 ← sread (data !! 0%nat);
    if negb (Z.land b0 EX_HEADER_FLAG =? 0) then publisher_video_ex cb timestamp_ms data
    else
      packet_type ← sread (data !! 1%nat);
      cts ← sread (flv_cts (drop 2 data));
      if packet_type =? AVC_END_SEQUENCE then mret NGX_OK
      else if packet_type =? AVC_SEQUENCE then legacy_sequence cb (drop 5 data)
      else
        p ← pub_get id;
        if negb (pu_have_avcc p) then pub_skip
        else publisher_payload cb timestamp_ms (ac_nal_length_size (pu_avcc p)) (drop 5 data)
               (Z.shiftr b0 4 =? FRAME_KEYFRAME) cts CODEC_H264 true.

(** ** Audio messages *)

Definition audio_track (asc : asc) (config : N) : track :=
  track_zero <| tr_media_type := TYPE_AUDIO |> <| tr_codec := CODEC_AAC |>
    <| tr_payload_format := PAYLOAD_ADTS |> <| tr_profile := as_object_type asc |>
    <| tr_sample_rate := as_sample_rate asc |> <| tr_channels := as_channels asc |>
    <| tr_config := Some config |>.

Definition audio_sequence (cb : callbacks) (payload : list Z) : P rc :=
  old ← pub_get pu_asc;
  '(r, asc) ← sread (asc_parse payload old);
  _ ← pub_mod (λ p, p <| pu_asc := asc |>);
  if negb (bool_decide (r = NGX_OK)) then _ ← pub_error; mret NGX_OK
  else
    _ ← pub_mod (λ p, p <| pu_have_asc := true |>);
    buf ← buf_with (lenZ payload) payload;
    match buf with
    | None => mret NGX_ERROR
    | Some buf =>
        p ← pub_get id;
        ok ← install_track (pu_have_audio p) (pu_audio_track p) buf (audio_track asc buf)
               (λ tr, tr <| tr_profile := as_object_type asc |> <| tr_sample_rate := as_sample_rate asc |>
                         <| tr_channels := as_channels asc |> <| tr_payload_format := PAYLOAD_ADTS |>) mark_audio;
        if negb ok then mret NGX_ERROR
        else
          p ← pub_get id;
          r ← rtmp_emit cb buf (lenZ payload) (config_frame p TYPE_AUDIO CODEC_AAC PAYLOAD_RAW (pu_audio_track p));
          _ ← (if bool_decide (r = NGX_OK) then mret tt else pub_error);
          pub_announce cb
    end.

Definition raw_adts (asc : asc) (payload : list Z) : adts :=
  mk_adts (lenZ payload + ADTS_HEADER_MIN) ADTS_HEADER_MIN (as_object_type asc)
    (as_sample_rate asc) (as_channels asc).

Definition publisher_audio (cb : callbacks) (timestamp_ms : Z) (data : list Z) : P rc :=
  if lenZ data <? 2 then pub_skip
  else
    packet_type ← sread (data !! 1%nat);
    let payload := drop 2 data in
    p ← pub_get id;
    if packet_type =? AAC_SEQUENCE then audio_sequence cb payload
    else if negb (packet_type =? AAC_RAW) || negb (pu_have_asc p) then pub_skip
    else
      let '(r, header) := adts_write (raw_adts (pu_asc p) payload) ADTS_HEADER_MAX in
      if negb (bool_decide (r = NGX_OK)) then _ ← pub_error; mret NGX_OK
      else
        buf ← buf_with (lenZ header + lenZ payload) (header ++ payload);
        match buf with
        | None => mret NGX_ERROR
        | Some buf =>
            let dts := timestamp_ms * RTMP_TIMESCALE in
            pub_emit_media cb buf (lenZ header + lenZ payload) timestamp_ms
              (media_frame TYPE_AUDIO CODEC_AAC PAYLOAD_ADTS (pu_audio_track p) dts dts true)
        end.

Definition publisher_feed (cb : callbacks) (type timestamp_ms : Z) (data : list Z) : P rc :=
  if type =? MSG_VIDEO then publisher_video cb timestamp_ms data
  else if type =? MSG_AUDIO then publisher_audio cb timestamp_ms data
  else mret NGX_OK.

(** The messages of a session, one after the other; the answers are the session's. *)
Fixpoint publisher_feeds (cb : callbacks) (ms : list (Z * Z * list Z)) : P unit :=
  match ms with
  | [] => mret tt
  | (type, timestamp_ms, data) :: ms => _ ← publisher_feed cb type timestamp_ms data; publisher_feeds cb ms
  end.

(** ** Rules for the primitives *)

Lemma wp_on_pstore {A} (m : M A) (Q : A → pstate → Prop) s :
  wp m (λ a st, Q a (s <| ps_store := st |>)) (ps_store s) → wp (on_pstore m) Q s.
Proof.
  intros (a & st & Hm & HQ). exists a, (s <| ps_store := st |>). split; [|done].
  unfold on_pstore. by rewrite Hm.
Qed.
Lemma wp_pub_get {A} (f : publisher → A) Q s : Q (f (ps_pub s)) s → wp (pub_get f) Q s.
Proof. intros. by apply (wp_get (λ s, f (ps_pub s))). Qed.
Lemma wp_pub_mod f (Q : unit → pstate → Prop) s :
  Q tt (s <| ps_pub := f (ps_pub s) |>) → wp (pub_mod f) Q s.
Proof. intros. by apply (wp_mod (λ s, s <| ps_pub ::= f |>)). Qed.
Lemma wp_pub_call c (Q : unit → pstate → Prop) s :
  Q tt (s <| ps_calls := ps_calls s ++ [c] |>) → wp (pub_call_made c) Q s.
Proof. intros. by apply (wp_mod (λ s, s <| ps_calls ::= λ l, l ++ [c] |>)). Qed.

(** ** Buffers on their way *)

(** Buffer [id] is younger than [s0] and its first [data] are written. *)
Record filled (s0 s : store) (id : N) (data : list Z) : Prop := {
  fi_young : (st_next s0 ≤ id)%N;
  fi_data : ∃ bf, st_bufs s !! id = Some bf ∧ take (length data) (b_data bf) = data ∧
    b_len bf ≤ lenZ (b_data bf) }.

(** What a buffer was frozen to was written. *)
Definition whole (s : store) (id : N) : Prop := ∃ bf, st_bufs s !! id = Some bf ∧ b_len bf ≤ lenZ (b_data bf).
Lemma filled_whole s0 s id data : filled s0 s id data → whole s id.
Proof. intros [_ (bf & ? & _ & ?)]. by exists bf. Qed.
Lemma whole_evolves s s' id L L' :
  whole s id → evolves s s' → owns s L → owns s' L' → id ∈ L' → whole s' id.
Proof.
  intros (bf & Hb & Hw) Hev Ho Ho' Hin. destruct (owns_in _ _ _ Ho' Hin) as [b' Hb'].
  destruct (ev_same _ _ Hev id b' Hb') as (b0 & Hb0 & El & Ed); [by eapply wf_next, Hb; apply Ho|].
  exists b'. split; [done|]. rewrite El, Ed. congruence.
Qed.

Lemma evolves_young s0 s id bf :
  evolves s0 s → (st_next s0 ≤ id)%N → evolves s0 (set_bufs (<[id := bf]> (st_bufs s)) s).
Proof.
  intros [Hn Ha Hs] Hy. split; cbn; [done..|]. intros i b' Hb' Hlt.
  rewrite lookup_insert_ne in Hb' by lia. by apply Hs.
Qed.
(** Writing into a young buffer. *)
Lemma wp_buf_fill id off src (s0 s : store) L cap data :
  evolves s0 s → owns s L → (st_next s0 ≤ id)%N → st_bufs s !! id = Some (mk_buf 1 0 cap data) →
  0 ≤ off ≤ lenZ data → off + lenZ src ≤ cap → 0 ≤ cap →
  wp (buf_write id off src) (λ _ s', evolves s0 s' ∧ owns s' L ∧
    st_bufs s' !! id = Some (mk_buf 1 0 cap (take (Z.to_nat off) data ++ src ++ drop (Z.to_nat off + length src) data))) s.
Proof.
  intros Hev Ho Hy Hb Hoff Hfit Hcap. eapply wp_buf_write; [exact Hb|exact Hoff|exact Hfit|].
  pose proof (wf_buf _ (owns_wf _ _ Ho) _ _ Hb) as (_ & _ & _ & Hd). cbn in Hd |- *.
  split_and!.
  - destruct Hev as [Hn Ha Hs]. split; cbn; [done..|]. intros i b' Hb' Hlt.
    rewrite lookup_alter_ne in Hb' by lia. by apply Hs.
  - eapply owns_set_data; [exact Ho|exact Hb|]. unfold lenZ in *. cbn.
    rewrite !length_app, length_take, length_drop. lia.
  - by rewrite lookup_alter_eq, Hb.
Qed.

(** ** The invariant *)

#[global] Instance owner_publisher : Owner publisher := λ p, holds (pu_tracks p).

Record pub_inv (p : publisher) : Prop := {
  pi_tracks : trackset_inv (pu_tracks p);
  pi_video : pu_have_video p = true → 0 ≤ pu_video_track p < ts_count (pu_tracks p);
  pi_audio : pu_have_audio p = true → 0 ≤ pu_audio_track p < ts_count (pu_tracks p);
  pi_avcc : pu_have_avcc p = true → size_ok (ac_nal_length_size (pu_avcc p));
  pi_hvcc : pu_have_hvcc p = true → size_ok (hc_nal_length_size (pu_hvcc p)) }.

(** Payloads that were kept are as they were handed out. *)
Definition intact (kept : list (N * list Z)) (s : store) : Prop :=
  ∀ id data, (id, data) ∈ kept → bytes_of s (Some id) = data.

(** The publisher holds its tracks' references, the world holds [L] and the payloads that
    were kept, nothing that existed in [s0] is written, and what was kept is as it was
    handed out. *)
Record keeps (L : list N) (s0 : store) (s : pstate) : Prop := {
  ke_inv : pub_inv (ps_pub s);
  ke_owns : owns (ps_store s) (holds (ps_pub s) ++ L ++ kept_ids (ps_calls s));
  ke_evolves : evolves s0 (ps_store s);
  ke_whole id : id ∈ holds (ps_pub s) → whole (ps_store s) id;
  ke_kept : intact (kept_of (ps_calls s)) (ps_store s) }.

Lemma kept_ids_in id data calls : (id, data) ∈ kept_of calls → id ∈ kept_ids calls.
Proof. intros H. apply list_elem_of_fmap. by exists (id, data). Qed.
Lemma kept_evolves s s' L L' calls :
  intact (kept_of calls) s → evolves s s' → owns s (L ++ kept_ids calls) → owns s' (L' ++ kept_ids calls) →
  intact (kept_of calls) s'.
Proof.
  intros Hk Hev Ho Ho' id data Hin. rewrite <- (Hk id data Hin). apply kept_ids_in in Hin.
  eapply evolves_held; [exact Ho|exact Ho'|exact Hev|apply elem_of_app; by right..].
Qed.
(** The world's references change while no payload is written. *)
Lemma keeps_store L L' s0 s st :
  keeps L s0 s → evolves (ps_store s) st → owns st (holds (ps_pub s) ++ L' ++ kept_ids (ps_calls s)) →
  keeps L' s0 (s <| ps_store := st |>).
Proof.
  intros [Hi Ho Hev Hw Hk] Hev' Ho'. split; [exact Hi|exact Ho'|cbn; by etrans| |]; cbn.
  - intros i Hin. eapply whole_evolves; [by apply Hw|exact Hev'|exact Ho|exact Ho'|]. apply elem_of_app. by left.
  - rewrite app_assoc in Ho, Ho'. by eapply kept_evolves.
Qed.

Definition kept {A} (L : list N) (s0 : store) : A → pstate → Prop := λ _ s, keeps L s0 s.

(** A young buffer that the publisher alone holds, with [data] written. *)
Definition young (s0 s : store) (id : N) (cap : Z) (data : list Z) : Prop :=
  (st_next s0 ≤ id)%N ∧ 0 ≤ cap ∧ st_bufs s !! id = Some (mk_buf 1 0 cap data).
Lemma young_filled s0 s id cap data : young s0 s id cap data → filled s0 s id data.
Proof.
  intros (Hy & _ & Hb). split; [done|]. eexists. split; [exact Hb|]. cbn. rewrite firstn_all. split; [done|apply lenZ_nonneg].
Qed.

Lemma wp_alloc_young cap L s0 s :
  keeps L s0 s → 0 ≤ cap →
  wp (on_pstore (buf_alloc cap)) (λ b s', ps_pub s' = ps_pub s ∧ ps_calls s' = ps_calls s ∧
    evolves (ps_store s) (ps_store s') ∧
    match b with
    | Some id => keeps (id :: L) s0 s' ∧ young s0 (ps_store s') id cap []
    | None => keeps L s0 s' ∧ memory_short (ps_store s) cap
    end) s.
Proof.
  intros Hk Hc. pose proof Hk as [_ Ho Hev _ _]. apply wp_on_pstore.
  eapply wp_mono; [by apply wp_buf_alloc_short|]. intros b st (Ho1 & Hev1 & Hb & Href). do 3 (split; [done|]). destruct b as [id|].
  - destruct (Hb id eq_refl) as [Hge Hbuf]. split.
    + apply (keeps_store L); [done|done|]. eapply owns_proper; [|exact Ho1]. cbn. solve_Permutation.
    + split; [|done]. pose proof (ev_next _ _ Hev). lia.
  - split; [by apply (keeps_store L)|by apply Href].
Qed.

(** A buffer that only the publisher holds was not kept by anyone. *)
Lemma young_unkept id L s0 s cap data :
  keeps (id :: L) s0 s → young s0 (ps_store s) id cap data → id ∉ kept_ids (ps_calls s).
Proof.
  intros [_ Ho _ _ _] (_ & _ & Hb) Hin. pose proof (owns_live _ _ Ho _ _ Hb) as Hl. cbn in Hl.
  apply occ_pos in Hin. revert Hl. unfold occ in *. rewrite !count_occ_app. cbn. rewrite count_occ_app.
  destruct (N.eq_dec id id); [lia|done].
Qed.

(** A written buffer on its way to the callback, which nobody has kept. *)
Definition ready (s0 : store) (s : pstate) (id : N) (data : list Z) : Prop :=
  filled s0 (ps_store s) id data ∧ id ∉ kept_ids (ps_calls s).
Lemma young_ready id L s0 s cap data :
  keeps (id :: L) s0 s → young s0 (ps_store s) id cap data → ready s0 s id data.
Proof. split; [by eapply young_filled|by eapply young_unkept]. Qed.

Lemma wp_write_young id off src cap data L s0 s :
  keeps (id :: L) s0 s → young s0 (ps_store s) id cap data → 0 ≤ off ≤ lenZ data → off + lenZ src ≤ cap →
  wp (on_pstore (buf_write id off src)) (λ _ s', ps_pub s' = ps_pub s ∧ ps_calls s' = ps_calls s ∧
    keeps (id :: L) s0 s' ∧
    young s0 (ps_store s') id cap (take (Z.to_nat off) data ++ src ++ drop (Z.to_nat off + length src) data)) s.
Proof.
  intros Hk Hy Hoff Hfit. pose proof (young_unkept _ _ _ _ _ _ Hk Hy) as Hun.
  destruct Hk as [Hi Ho Hev Hw Hk], Hy as (Hy & Hc & Hb). apply wp_on_pstore.
  eapply wp_mono; [eapply wp_and; [eapply (wp_buf_fill id off src s0); [exact Hev|exact Ho|exact Hy|exact Hb|exact Hoff|exact Hfit|exact Hc]|]|].
  { eapply (wp_buf_write id off src _ _ (λ _ st, ∀ i, i ≠ id → st_bufs st !! i = st_bufs (ps_store s) !! i)); [exact Hb|exact Hoff|exact Hfit|].
    intros i Hne. by apply set_data_other. }
  intros [] st ((Hev' & Ho' & Hb') & Hsame). split_and!; [done..| |done]. split; [done..| |].
  - intros i Hin. cbn in *. destruct (decide (i = id)) as [->|Hne]; [eexists; split; [exact Hb'|apply lenZ_nonneg]|].
    destruct (Hw i Hin) as (bw & Hbw & ?). exists bw. split; [|done]. by rewrite Hsame.
  - intros i d Hin. rewrite <- (Hk i d Hin). cbn. rewrite Hsame; [done|]. intros ->. by apply Hun, (kept_ids_in _ d).
Qed.

Lemma wp_buf_with cap data L s0 s :
  keeps L s0 s → lenZ data ≤ cap →
  wp (buf_with cap data) (λ b s', ps_pub s' = ps_pub s ∧ ps_calls s' = ps_calls s ∧
    match b with
    | Some id => keeps (id :: L) s0 s' ∧ young s0 (ps_store s') id cap data
    | None => keeps L s0 s'
    end) s.
Proof.
  intros Hk Hc. pose proof (lenZ_nonneg data). unfold buf_with. apply wp_bind.
  eapply wp_mono; [apply wp_alloc_young; [exact Hk|lia]|]. intros [id|] s1 (Hp1 & Hc1 & _ & H1); [|by destruct H1; apply wp_ret].
  destruct H1 as [Hk1 Hy1]. apply wp_bind.
  eapply wp_mono; [eapply (wp_write_young id 0 data); [exact Hk1|exact Hy1|done|lia]|].
  intros [] s2 (Hp2 & Hc2 & Hk2 & Hy2). apply wp_ret. rewrite Hp2, Hc2. split_and!; [done..|].
  by rewrite drop_nil, app_nil_r in Hy2.
Qed.

Lemma wp_unref_young id L s0 s :
  keeps (id :: L) s0 s →
  wp (on_pstore (buf_unref (Some id))) (λ _ s', keeps L s0 s' ∧ ps_pub s' = ps_pub s ∧ ps_calls s' = ps_calls s) s.
Proof.
  intros Hk. pose proof Hk as [_ Ho _ _ _]. apply wp_on_pstore.
  eapply wp_mono; [apply (wp_buf_unref (Some id) (holds (ps_pub s) ++ L ++ kept_ids (ps_calls s)))|].
  { eapply owns_proper; [|exact Ho]. cbn. solve_Permutation. }
  intros [] st [Ho' Hev']. split; [|done]. by apply (keeps_store (id :: L)).
Qed.

(** Counters and flags that do not concern the invariant. *)
Lemma keeps_mod L s0 s f :
  keeps L s0 s → pu_tracks (f (ps_pub s)) = pu_tracks (ps_pub s) → pub_inv (f (ps_pub s)) →
  keeps L s0 (s <| ps_pub := f (ps_pub s) |>).
Proof.
  intros [Hi Ho Hev Hw Hk] Ht Hi'. unfold holds, owner_publisher in *.
  split; [exact Hi'| |exact Hev| |exact Hk]; cbn; unfold holds, owner_publisher; by rewrite Ht.
Qed.
Lemma keeps_counter L s0 s f :
  keeps L s0 s → (∀ p, ∃ n m k d, f p = p <| pu_errors := n |> <| pu_skipped := m |> <| pu_configs := k |> <| pu_frames := d |>) →
  keeps L s0 (s <| ps_pub := f (ps_pub s) |>).
Proof.
  intros Hk Hf. destruct (Hf (ps_pub s)) as (n & m & k & d & E). apply keeps_mod; [done|by rewrite E|].
  rewrite E. destruct (ke_inv _ _ _ Hk). by split.
Qed.
Lemma kept_of_app c c' : kept_of (c ++ c') = kept_of c ++ kept_of c'.
Proof. apply omap_app. Qed.
Lemma keeps_calls L s0 s ts : keeps L s0 s → keeps L s0 (s <| ps_calls := ps_calls s ++ [CallTracks ts] |>).
Proof.
  intros [Hi Ho Hev Hw Hk]. split; [done| |done|done|]; unfold kept_ids; cbn; rewrite kept_of_app, app_nil_r; done.
Qed.
Lemma keeps_perm L L' s0 s : L ≡ₚ L' → keeps L s0 s → keeps L' s0 s.
Proof. intros HL [? Ho ? ? ?]. split; [done| |done..]. by rewrite <- HL. Qed.

Lemma wp_pub_error L s0 s : keeps L s0 s → wp pub_error (kept L s0) s.
Proof.
  intros Hk. apply wp_pub_mod. unfold kept. apply keeps_counter; [done|]. intros p. by exists (pu_errors p ⊕ 1), (pu_skipped p), (pu_configs p), (pu_frames p); destruct p.
Qed.
Lemma wp_pub_skip L s0 s : keeps L s0 s → wp pub_skip (kept L s0) s.
Proof.
  intros Hk. apply wp_bind, wp_pub_mod, wp_ret. unfold kept. apply keeps_counter; [done|]. intros p.
  by exists (pu_errors p), (pu_skipped p ⊕ 1), (pu_configs p), (pu_frames p); destruct p.
Qed.

(** The frame a callback sees. *)
Definition emitted (cb : callbacks) (buf : N) (f : frame) (data : list Z) : list pub_call :=
  let f := set_payload (Some buf) f in
  match cb_frame cb with Some _ => [CallFrame f data (cb_keep cb f data)] | None => [] end.

(** The callback's part: it may keep the payload. *)
Lemma wp_call_frame cb buf f data L s :
  owns (ps_store s) (buf :: L ++ kept_ids (ps_calls s)) → payload f = Some buf →
  len_of (ps_store s) (Some buf) = lenZ data → bytes_of (ps_store s) (Some buf) = data →
  whole (ps_store s) buf →
  wp (match cb_frame cb with
      | None => mret NGX_OK
      | Some answer =>
          n ← on_pstore (buf_size (Some buf));
          data ← on_pstore (buf_read buf n);
          let keep := cb_keep cb f data in
          _ ← (if keep then on_pstore (buf_ref (payload f)) else mret None);
          _ ← pub_call_made (CallFrame f data keep); mret (answer f data)
      end)
    (λ r s', ps_pub s' = ps_pub s ∧ evolves (ps_store s) (ps_store s') ∧
      ps_calls s' = ps_calls s ++ match cb_frame cb with Some _ => [CallFrame f data (cb_keep cb f data)] | None => [] end ∧
      owns (ps_store s') (buf :: L ++ kept_ids (ps_calls s')) ∧
      (∀ x, x ∈ kept_of (ps_calls s') → x ∈ kept_of (ps_calls s) ∨ x = (buf, data)) ∧
      r = match cb_frame cb with Some answer => answer f data | None => NGX_OK end) s.
Proof.
  intros Ho Hp Hl Hd (bf & Hb & Hw). destruct (cb_frame cb) as [answer|].
  2:{ apply wp_ret. rewrite app_nil_r. split_and!; auto with media. }
  assert (buf ∈ buf :: L ++ kept_ids (ps_calls s)) as Hin by left.
  apply wp_bind, wp_on_pstore. eapply wp_mono; [eapply (wp_buf_size (Some buf)); [exact Ho|]; cbn; set_solver|].
  intros n st [-> ->]. rewrite Hl. apply wp_bind, wp_on_pstore. exists data, (ps_store s). split.
  { unfold buf_read, deref, mbind, SM_bind. cbn [len_of bytes_of] in Hl, Hd. cbn. rewrite Hb in *. cbn in Hl, Hd |- *.
    fold (lenZ (b_data bf)). rewrite (proj2 (Z.leb_le _ _)), <- Hl by lia. by rewrite Hd. }
  cbv zeta. destruct (cb_keep cb f data).
  - apply wp_bind, wp_on_pstore. rewrite Hp. eapply wp_mono; [by eapply wp_buf_ref|].
    intros c st (-> & Ho' & Hev). apply wp_bind, wp_pub_call, wp_ret. cbn.
    split_and!; [done|exact Hev|done| | |done].
    + unfold kept_ids. rewrite kept_of_app, fmap_app. cbn. rewrite Hp. cbn. fold (kept_ids (ps_calls s)).
      eapply owns_proper; [|exact Ho']. cbn. solve_Permutation.
    + intros x. rewrite kept_of_app. cbn. rewrite Hp. cbn. intros [?| ->%list_elem_of_singleton]%elem_of_app; auto.
  - apply wp_bind, wp_ret, wp_bind, wp_pub_call, wp_ret. cbn. unfold kept_ids. rewrite kept_of_app. cbn. rewrite app_nil_r.
    split_and!; [done|reflexivity|done|exact Ho|by left|done].
Qed.

Lemma wp_emit cb buf f data L s0 s :
  keeps (buf :: L) s0 s → ready s0 s buf data → payload f = None →
  wp (rtmp_emit cb buf (lenZ data) f) (λ r s', keeps L s0 s' ∧ ps_pub s' = ps_pub s ∧
    ps_calls s' = ps_calls s ++ emitted cb buf f data ∧
    r = match cb_frame cb with
        | Some answer => if bool_decide (answer (set_payload (Some buf) f) data = NGX_OK) then NGX_OK else NGX_ERROR
        | None => NGX_OK
        end) s.
Proof.
  intros [Hi Ho Hev Hw Hk] [[Hy (bf & Hb & Hd & Hlw)] Hun] Hp. unfold rtmp_emit. set (W := L ++ kept_ids (ps_calls s)).
  pose proof (wf_buf _ (owns_wf _ _ Ho) _ _ Hb) as (_ & Hl & Hcap & Hdat).
  assert (lenZ data ≤ lenZ (b_data bf)) as Hfit'.
  { apply (f_equal length) in Hd. rewrite length_take in Hd. unfold lenZ. lia. }
  assert (lenZ data ≤ b_cap bf) as Hfit by (unfold lenZ in *; lia). pose proof (lenZ_nonneg data).
  apply wp_bind, wp_on_pstore. eapply wp_buf_freeze; [exact Hb|exact Hfit|].
  set (bf' := mk_buf _ _ _ _). set (st1 := set_bufs _ _).
  assert (owns st1 (holds (ps_pub s) ++ buf :: W)) as Ho1.
  { eapply owns_update; [exact Ho|exact Hb|done|done|cbn; lia|cbn; unfold lenZ in *; lia]. }
  assert (evolves s0 st1) as Hev1 by by apply evolves_young.
  assert (st_bufs st1 !! buf = Some bf') as Hb1 by (cbn; apply lookup_insert_eq).
  assert (∀ i, i ∈ holds (ps_pub s) → whole st1 i) as Hw1.
  { intros i Hin. destruct (Hw i Hin) as (bw & Hbw & Hlw'). destruct (decide (i = buf)) as [->|Hne].
    - by exists bf'. - exists bw. split; [|done]. cbn. by rewrite lookup_insert_ne. }
  assert (∀ i d, (i, d) ∈ kept_of (ps_calls s) → bytes_of st1 (Some i) = d) as Hk1.
  { intros i d Hin. rewrite <- (Hk i d Hin). cbn. rewrite lookup_insert_ne; [done|]. intros <-. by apply Hun, (kept_ids_in _ d). }
  apply wp_bind, wp_on_pstore. eapply wp_mono.
  { apply (wp_frame_adopt f (Some buf) (holds (ps_pub s) ++ W)). cbn.
    unfold holds, owner_frame. rewrite Hp. cbn. eapply owns_proper; [|exact Ho1]. solve_Permutation. }
  intros f1 st2 (-> & Ho2 & Hev2). change (evolves st1 st2) in Hev2. cbn [holds owner_frame payload set_payload option_list] in Ho2.
  change (owns st2 (buf :: holds (ps_pub s) ++ W)) in Ho2. set (s2 := s <| ps_store := st1 |> <| ps_store := st2 |>).
  destruct (evolves_held st1 st2 _ _ buf Ho1 Ho2 Hev2) as [Hl2 Hd2]; [apply elem_of_app; right; left|left|].
  cbn [len_of bytes_of] in Hl2, Hd2. rewrite Hb1 in Hl2, Hd2. cbn in Hl2, Hd2.
  unfold lenZ in Hd2. rewrite Nat2Z.id, Hd in Hd2.
  assert (whole st2 buf) as Hw2 by (eapply whole_evolves; [by exists bf'|exact Hev2|exact Ho1|exact Ho2|left]).
  apply wp_bind. eapply wp_mono; [apply (wp_call_frame cb buf (set_payload (Some buf) f) data (holds (ps_pub s) ++ L) s2)|].
  { unfold s2, W in *. cbn. rewrite <- app_assoc. exact Ho2. }
  { done. } { exact Hl2. } { exact Hd2. } { exact Hw2. }
  intros r s3 (Hp3 & Hev3 & Hc3 & Ho3 & Hk3 & ->). change (ps_store s2) with st2 in *. change (ps_calls s2) with (ps_calls s) in *.
  change (ps_pub s2) with (ps_pub s) in *. apply wp_bind, wp_on_pstore.
  eapply wp_mono; [apply (wp_frame_release (set_payload (Some buf) f) ((holds (ps_pub s) ++ L) ++ kept_ids (ps_calls s3))); exact Ho3|].
  intros ? st4 (_ & Ho4 & Hev4). assert (evolves st1 st4) as Hev14 by (etrans; [exact Hev2|]; by etrans).
  apply wp_ret. split_and!; [|done|exact Hc3|by destruct (cb_frame cb)].
  split; cbn; rewrite ?Hp3; [exact Hi|by rewrite <- app_assoc in Ho4|by etrans| |].
  - intros i Hin. eapply whole_evolves; [by apply Hw1|exact Hev14|exact Ho1|exact Ho4|]. rewrite <- app_assoc. apply elem_of_app. by left.
  - intros i d Hin. assert (i ∈ (holds (ps_pub s) ++ L) ++ kept_ids (ps_calls s3)) as Hin4 by (apply elem_of_app; right; by apply (kept_ids_in _ d)).
    destruct (Hk3 _ Hin) as [Hold|[= -> ->]].
    + rewrite <- (Hk1 i d Hold). eapply evolves_held; [exact Ho1|exact Ho4|exact Hev14| |exact Hin4].
      apply elem_of_app. right. right. apply elem_of_app. right. by apply (kept_ids_in _ d).
    + rewrite <- Hd2. eapply evolves_held; [exact Ho2|exact Ho4|by etrans|left|exact Hin4].
Qed.

(** ** Tracks *)

(** Buffers of the world keep what is written in them. *)
Definition stays (L : list N) (s0 s s' : store) : Prop :=
  ∀ id data, id ∈ L → filled s0 s id data → filled s0 s' id data.
Lemma stays_refl L s0 s : stays L s0 s s.
Proof. by intros id data. Qed.
Lemma stays_evolves L s0 s s' L1 L2 :
  evolves s s' → owns s L1 → owns s' L2 → L ⊆ L2 → stays L s0 s s'.
Proof.
  intros Hev Ho Ho' Hsub id data Hin Hf.
  destruct (owns_in _ _ id Ho') as [b' Hb']; [by apply Hsub|]. destruct Hf as [Hy (bf & Hb & Hd & Hw)].
  split; [done|]. destruct (ev_same _ _ Hev id b' Hb') as (b0 & Hb0 & Hlen & Hdat); [by eapply wf_next, Hb; apply Ho|].
  exists b'. split; [done|]. rewrite Hlen, Hdat. split; congruence.
Qed.

Lemma wp_pub_add_track tr L s0 s :
  keeps L s0 s → holds tr ⊆ L → (∀ id, id ∈ holds tr → whole (ps_store s) id) →
  wp (pub_add_track tr) (λ i s', keeps L s0 s' ∧ stays L s0 (ps_store s) (ps_store s') ∧
    ∃ tracks, s' = s <| ps_pub := (ps_pub s) <| pu_tracks := tracks |> |> <| ps_store := ps_store s' |> ∧
      match i with
      | Some i => i = ts_count (pu_tracks (ps_pub s)) ∧ ts_count tracks = i + 1 ∧ 0 ≤ i ∧
          ts_used tracks = ts_used (pu_tracks (ps_pub s)) ++ [tr]
      | None => tracks = pu_tracks (ps_pub s)
      end) s.
Proof.
  intros [Hi Ho Hev Hw Hk] Hin Hwt. unfold pub_add_track. apply wp_bind, wp_pub_get. apply wp_bind, wp_on_pstore.
  eapply wp_mono; [apply (wp_trackset_add _ tr (L ++ kept_ids (ps_calls s))); [apply Hi|exact Ho|set_solver]|].
  intros [r tracks] st (Hev1 & Ho1 & Hti & Hcap & Hr). cbn [fst snd] in *. cbn.
  apply wp_bind, wp_pub_mod. apply wp_ret.
  assert (ts_count (pu_tracks (ps_pub s)) ≤ ts_count tracks) as Hle.
  { destruct (_ <? _); [|by injection Hr as _ ->]. destruct Hr as (_ & _ & ->). lia. }
  split_and!.
  - destruct Hi as [? Hv Ha ? ?]. split; [split; cbn; [done|intros H; apply Hv in H; lia|intros H; apply Ha in H; lia|done..]|exact Ho1| | |].
    + cbn. by etrans.
    + intros id Hid. change (id ∈ holds (ts_used tracks)) in Hid.
      eapply whole_evolves; [|exact Hev1|exact Ho|exact Ho1|cbn; set_solver].
      destruct (_ <? _); [destruct Hr as (_ & Hu & _)|injection Hr as _ ->; by apply Hw].
      rewrite Hu, holds_app in Hid. apply elem_of_app in Hid as [Hid|Hid]; [by apply Hw|apply Hwt].
      unfold holds in Hid. cbn in Hid. by rewrite app_nil_r in Hid.
    + cbn. rewrite app_assoc in Ho, Ho1. by eapply kept_evolves.
  - eapply stays_evolves; [exact Hev1|exact Ho|exact Ho1|]. set_solver.
  - exists tracks. split; [done|]. destruct (_ <? _) eqn:E; [|by injection Hr as -> ->].
    destruct Hr as (-> & Hu & Hc). rewrite Hc. pose proof (ti_count _ (pi_tracks _ Hi)). split_and!; [lia|lia|lia|done].
Qed.

Lemma wp_pub_set_track i config update L s0 s :
  keeps L s0 s → 0 ≤ i < ts_count (pu_tracks (ps_pub s)) → config ∈ L → whole (ps_store s) config →
  wp (pub_set_track i config update) (λ _ s', keeps L s0 s' ∧ stays L s0 (ps_store s) (ps_store s') ∧
    ∃ slot, let tracks := pu_tracks (ps_pub s) in
      ts_tracks tracks !! Z.to_nat i = Some slot ∧
      s' = s <| ps_pub := (ps_pub s) <| pu_tracks := tracks <| ts_tracks ::=
             <[Z.to_nat i := (update slot) <| tr_config := Some config |>]> |> |> |> <| ps_store := ps_store s' |>) s.
Proof.
  intros [Hi Ho Hev Hw Hk] Hlt Hin Hwc. unfold pub_set_track. set (W := L ++ kept_ids (ps_calls s)) in *. apply wp_bind, wp_pub_get.
  pose proof (pi_tracks _ Hi) as [Hl Hc]. set (tracks := pu_tracks (ps_pub s)) in *.
  destruct (lookup_lt_is_Some_2 (ts_tracks tracks) (Z.to_nat i)) as [slot Hslot]; [lia|].
  apply wp_bind. eapply wp_read; [exact Hslot|].
  assert (ts_used tracks !! Z.to_nat i = Some slot) as Hused by (unfold ts_used; rewrite lookup_take_Some; split; [done|lia]).
  apply wp_bind, wp_on_pstore. eapply wp_mono.
  { apply (wp_buf_unref (tr_config slot) (holds (delete (Z.to_nat i) (ts_used tracks)) ++ W)).
    eapply owns_proper; [|exact Ho]. change (holds (ps_pub s)) with (holds (ts_used tracks)).
    rewrite (holds_delete _ _ _ Hused), <- app_assoc. done. }
  intros _ st1 [Ho1 Hev1]. apply wp_bind, wp_on_pstore.
  eapply wp_mono; [apply (wp_buf_ref_opt (Some config) _ _ Ho1); cbn; unfold W; set_solver|].
  intros c st2 (-> & Ho2 & Hev2). apply wp_pub_mod. cbn in Hev1, Hev2 |- *.
  set (tr := (update slot) <| tr_config := Some config |>).
  set (tracks' := tracks <| ts_tracks ::= <[Z.to_nat i:=tr]> |>).
  assert (holds tracks' ≡ₚ config :: holds (delete (Z.to_nat i) (ts_used tracks))) as Hh.
  { change (holds tracks') with (holds (take (Z.to_nat (ts_count tracks)) (<[Z.to_nat i:=tr]> (ts_tracks tracks)))).
    rewrite take_insert_lt by lia. fold (ts_used tracks).
    rewrite (holds_insert _ _ _ _ Hused). reflexivity. }
  assert (evolves (ps_store s) st2) as Hev' by (by etrans).
  assert (owns st2 (holds tracks' ++ W)) as Ho'.
  { eapply owns_proper; [|exact Ho2]. rewrite Hh. done. }
  split_and!.
  - destruct Hi as [? Hv Ha ? ?]. split; [split; cbn; [|exact Hv|exact Ha|done..]|exact Ho'|cbn; by etrans| |].
    + split; cbn; [by rewrite length_insert|done].
    + intros id Hid. change (id ∈ holds tracks') in Hid.
      eapply whole_evolves; [|exact Hev'|exact Ho|exact Ho'|cbn; set_solver].
      rewrite Hh in Hid. apply elem_of_cons in Hid as [->|Hid]; [done|]. apply Hw.
      change (id ∈ holds (ts_used tracks)). rewrite (holds_delete _ _ _ Hused). set_solver.
    + unfold W in *. rewrite app_assoc in Ho, Ho'. by eapply kept_evolves.
  - eapply stays_evolves; [exact Hev'|exact Ho|exact Ho'|unfold W; set_solver].
  - by exists slot.
Qed.

(** ** Configurations *)

Lemma wp_install_track have index config data fresh update mark L s0 s :
  keeps (config :: L) s0 s → ready s0 s config data → tr_config fresh = Some config →
  (have = true → 0 ≤ index < ts_count (pu_tracks (ps_pub s))) → mark = mark_video ∨ mark = mark_audio →
  wp (install_track have index config fresh update mark) (λ r s', ps_calls s' = ps_calls s ∧
    if r : bool then keeps (config :: L) s0 s' ∧ ready s0 s' config data else keeps L s0 s') s.
Proof.
  intros Hk Hf Hc Hidx Hmark. unfold install_track. destruct have.
  - apply wp_bind. eapply wp_mono; [apply (wp_pub_set_track index config update (config :: L) s0); [exact Hk|by apply Hidx|left|by eapply filled_whole, Hf]|].
    intros [] s' (Hk' & Hst & slot & _ & E). apply wp_ret.
    assert (ps_calls s' = ps_calls s) as Hcalls by by rewrite E. split; [done|]. split; [done|].
    split; [apply Hst; [left|apply Hf]|rewrite Hcalls; apply Hf].
  - apply wp_bind. eapply wp_mono; [apply (wp_pub_add_track fresh (config :: L) s0); [exact Hk|..]|].
    { unfold holds, owner_track. rewrite Hc. cbn. set_solver. }
    { unfold holds, owner_track. rewrite Hc. cbn. intros id ->%list_elem_of_singleton. by eapply filled_whole, Hf. }
    intros i s' (Hk' & Hst & tracks & E & Hi). assert (ps_calls s' = ps_calls s) as Hcalls by by rewrite E.
    assert (pu_tracks (ps_pub s') = tracks) as Ht by by rewrite E. destruct i as [i|].
    + apply wp_bind, wp_pub_mod, wp_ret. destruct Hi as (-> & Hcnt & Hge & _). split; [done|].
      split; [|split; [apply Hst; [left|apply Hf]|cbn; rewrite Hcalls; apply Hf]]. destruct Hk' as [Hinv Ho Hev Hw Hkk].
      split; [|destruct Hmark as [-> | ->]; exact Ho|exact Hev|destruct Hmark as [-> | ->]; exact Hw|exact Hkk].
      destruct Hinv as [? Hv Ha ? ?], Hmark as [-> | ->]; split; cbn; try done; intros _; rewrite Ht; lia.
    + apply wp_bind. eapply wp_mono; [by apply wp_unref_young|]. intros [] s2 (Hk2 & _ & Hc2). apply wp_ret.
      by rewrite Hc2.
Qed.

Lemma wp_pub_announce cb L s0 s : keeps L s0 s → wp (pub_announce cb) (kept L s0) s.
Proof.
  intros Hk. apply wp_bind, wp_pub_mod. set (s1 := s <| ps_pub := (ps_pub s) <| pu_configs ::= λ n, n ⊕ 1 |> |>).
  apply wp_bind, wp_pub_get. assert (keeps L s0 s1) as Hk1.
  { apply (keeps_mod L s0 s (λ p, p <| pu_configs ::= λ n, n ⊕ 1 |>)); [done|done|].
    by destruct (ke_inv _ _ _ Hk). }
  apply wp_bind. destruct (cb_tracks cb).
  - apply wp_pub_call, wp_ret. by apply keeps_calls.
  - by apply wp_ret, wp_ret.
Qed.

(** The configuration frame and what follows it. *)
Lemma wp_config_frame cb buf data media codec format track L s0 s :
  keeps (buf :: L) s0 s → ready s0 s buf data →
  wp (rtmp_emit cb buf (lenZ data) (config_frame (ps_pub s) media codec format track))
    (λ _ s', keeps L s0 s') s.
Proof. intros Hk Hf. eapply wp_mono; [by eapply wp_emit|]. by intros r s' (? & _). Qed.

Lemma wp_pub_video_config cb buf data codec profile level L s0 s :
  keeps (buf :: L) s0 s → ready s0 s buf data →
  wp (publisher_video_config cb buf (lenZ data) codec profile level) (kept L s0) s.
Proof.
  intros Hk Hf. apply wp_bind, wp_pub_get. apply wp_bind.
  eapply wp_mono; [eapply (wp_install_track _ _ buf data); [exact Hk|exact Hf|done| |by left]|].
  { apply (pi_video _ (ke_inv _ _ _ Hk)). }
  intros [] s1 [_ H]; cbn [negb]; [|by apply wp_ret]. destruct H as [Hk1 Hf1].
  apply wp_bind, wp_pub_get. apply wp_bind. eapply wp_mono; [by eapply wp_config_frame|].
  intros r s2 Hk2. case_bool_decide; [by apply wp_pub_announce|].
  apply wp_bind. eapply wp_mono; [by apply (wp_pub_error L s0)|]. intros [] s3 Hk3. by apply wp_ret.
Qed.

(** The parameter sets of a record, on their way to the track. *)
Lemma wp_sets_buffer size out L s0 s :
  keeps L s0 s → lenZ out = size →
  wp (sets_buffer size (Some (NGX_OK, out))) (λ r s', ps_pub s' = ps_pub s ∧
    match r.2 with
    | Some (buf, len) => keeps (buf :: L) s0 s' ∧ ready s0 s' buf out ∧ len = lenZ out
    | None => keeps L s0 s'
    end) s.
Proof.
  intros Hk Hl. pose proof (lenZ_nonneg out). unfold sets_buffer. apply wp_bind.
  eapply wp_mono; [apply wp_alloc_young; [exact Hk|lia]|]. intros [id|] s1 (Hp1 & _ & _ & H1); [|by destruct H1; apply wp_ret].
  destruct H1 as [Hk1 Hy1]. apply wp_bind. eapply wp_read; [done|]. cbv beta iota. rewrite bool_decide_true by done. cbn [negb].
  apply wp_bind. eapply wp_mono; [eapply (wp_write_young id 0 out); [exact Hk1|exact Hy1|done|lia]|].
  intros [] s2 (Hp2 & _ & Hk2 & Hy2). apply wp_ret. rewrite Hp2. split; [done|]. cbn. split_and!; [done| |done].
  apply (young_ready id L) in Hy2; [|done]. by rewrite drop_nil, app_nil_r in Hy2.
Qed.

(** ** Coded frames *)

Definition is_set (codec : option Z) (u : list Z) : bool :=
  match codec, u with Some codec, header :: _ => parameter_set codec header | _, _ => false end.

Lemma count_units_any payload size codec : ∀ fuel pos nals has,
  (1 ≤ size)%nat → bytes payload → 0 ≤ pos → 0 ≤ nals → lenZ payload ≤ pos + Z.of_nat fuel →
  ∃ n p h, count_units fuel payload size codec pos nals has = Some (n, p, h) ∧ 0 ≤ n.
Proof.
  induction fuel as [|fuel IH]; intros pos nals has Hs Hb Hp Hn Hf; cbn [count_units].
  - destruct (Z.leb_spec (pos + Z.of_nat size) (lenZ payload)); [lia|by eexists _, _, _].
  - destruct (Z.leb_spec (pos + Z.of_nat size) (lenZ payload)); [|by eexists _, _, _].
    rewrite bytes_at_some by (unfold lenZ in *; lia). cbn [mbind option_bind]. set (p := take size _).
    destruct (be_value_acc p 0) as [_ Hv]; [by apply Forall_take, Forall_drop|done|]. set (v := be_value p) in *.
    assert (∃ set, (if (0 <? v) && (pos + Z.of_nat size <? lenZ payload) then
      match codec with Some codec => header ← payload !! Z.to_nat (pos + Z.of_nat size); Some (parameter_set codec header)
      | None => Some false end else Some false) = Some set) as [set ->].
    { destruct (Z.ltb_spec (pos + Z.of_nat size) (lenZ payload)) as [Hlt|]; [|rewrite andb_false_r; by eexists].
      destruct (0 <? v); [|by eexists]. destruct codec; [|by eexists]. cbn [andb].
      destruct (lookup_some payload (Z.to_nat (pos + Z.of_nat size))) as [h ->]; [unfold lenZ in Hlt; lia|by eexists]. }
    cbn [mbind option_bind]. cbv zeta.
    destruct (Z.ltb_spec (lenZ payload) (pos + (Z.of_nat size + v))); [by eexists _, _, _|].
    apply IH; [done|done|lia|lia|lia].
Qed.

Lemma count_units_frames payload size codec us : ∀ fuel pos nals has,
  (1 ≤ size)%nat → Forall (unit_ok size) us → drop pos payload = frames_of size us → (pos ≤ length payload)%nat →
  (length payload ≤ pos + fuel)%nat →
  count_units fuel payload size codec (Z.of_nat pos) nals has
  = Some (nals + Z.of_nat (length us), lenZ payload, has || existsb (is_set codec) us).
Proof.
  induction us as [|u us IH]; intros fuel pos nals has Hs Hus Hd Hp Hf.
  { apply (f_equal length) in Hd. rewrite length_drop in Hd. change (length (frames_of size [])) with 0%nat in Hd.
    assert (Z.of_nat pos = lenZ payload) as -> by (unfold lenZ; lia). cbn [existsb length]. rewrite orb_false_r, Z.add_0_r.
    destruct fuel; cbn [count_units]; destruct (Z.leb_spec (lenZ payload + Z.of_nat size) (lenZ payload)); (done || lia). }
  apply Forall_cons in Hus as [[Hne Hlt] Hus]. rewrite frames_cons in Hd.
  pose proof (f_equal length Hd) as Hl. rewrite length_drop, !length_app, nal_prefix_length in Hl.
  assert (0 < length u)%nat by (destruct u; [done|cbn; lia]).
  destruct fuel as [|fuel]; [lia|]. cbn [count_units].
  destruct (Z.leb_spec (Z.of_nat pos + Z.of_nat size) (lenZ payload)) as [_|]; [|unfold lenZ in *; lia].
  rewrite Nat2Z.id, bytes_at_some, Hd by lia. rewrite take_app_length' by (symmetry; apply nal_prefix_length). cbn [mbind option_bind].
  rewrite be_value_nal by (unfold lenZ in *; split; [lia|exact Hlt]).
  destruct (Z.ltb_spec 0 (lenZ u)) as [_|]; [|unfold lenZ in *; lia].
  destruct (Z.ltb_spec (Z.of_nat pos + Z.of_nat size) (lenZ payload)) as [_|]; [|unfold lenZ in *; lia]. cbn [andb].
  assert (drop (pos + size) payload = u ++ frames_of size us) as Hrest.
  { rewrite <- drop_drop, Hd. apply drop_app_length'. by rewrite nal_prefix_length. }
  assert (match codec with Some codec => header ← payload !! Z.to_nat (Z.of_nat pos + Z.of_nat size); Some (parameter_set codec header)
    | None => Some false end = Some (is_set codec u)) as ->.
  { destruct codec as [codec|]; [|done]. rewrite <- Nat2Z.inj_add, Nat2Z.id.
    replace (pos + size)%nat with (pos + size + 0)%nat by lia. rewrite <- lookup_drop, Hrest. by destruct u. }
  cbn [mbind option_bind]. cbv zeta.
  destruct (Z.ltb_spec (lenZ payload) (Z.of_nat pos + (Z.of_nat size + lenZ u))); [unfold lenZ in *; lia|].
  replace (Z.of_nat pos + (Z.of_nat size + lenZ u)) with (Z.of_nat (pos + size + length u)) by (unfold lenZ; lia).
  rewrite IH; [|done|done| |lia|lia].
  - cbn [existsb length]. rewrite orb_assoc. do 3 f_equal. lia.
  - rewrite <- drop_drop, Hrest. apply drop_app_length.
Qed.

(** The sets put in front of a unit sequence. *)
Definition prefix_of (p : publisher) (s : store) (legacy keyframe : bool) (codec : Z) (us : list (list Z)) : list Z :=
  if negb legacy && keyframe && negb (existsb (is_set (Some codec)) us) && pu_have_video p
  then bytes_of s (tr_config (default track_zero (ts_tracks (pu_tracks p) !! Z.to_nat (pu_video_track p))))
  else [].

Lemma keeps_dts L s0 s d : keeps L s0 s → keeps L s0 (s <| ps_pub := (ps_pub s) <| pu_last_dts := d |> |>).
Proof.
  intros Hk. apply (keeps_mod L s0 s (λ p, p <| pu_last_dts := d |>)); [done|done|]. by destruct (ke_inv _ _ _ Hk).
Qed.

Lemma wp_emit_media cb buf data ts f L s0 s :
  keeps (buf :: L) s0 s → ready s0 s buf data → payload f = None →
  wp (pub_emit_media cb buf (lenZ data) ts f)
    (λ r s', keeps L s0 s' ∧ r = NGX_OK ∧ ps_calls s' = ps_calls s ++ emitted cb buf f data) s.
Proof.
  intros Hk Hf Hp. apply wp_bind, wp_pub_mod. apply wp_bind.
  eapply wp_mono; [apply (wp_emit cb buf f data L s0); [by apply keeps_dts|exact Hf|exact Hp]|].
  intros r s1 (Hk1 & _ & Hc & _). cbn in Hc. case_bool_decide.
  - apply wp_bind, wp_pub_mod, wp_ret. split; [|done].
    apply (keeps_mod L s0 s1 (λ p, p <| pu_frames ::= λ n, n ⊕ 1 |>)); [done|done|]. by destruct (ke_inv _ _ _ Hk1).
  - apply wp_bind, wp_pub_mod, wp_ret. split; [|done].
    apply (keeps_mod L s0 s1 (λ p, p <| pu_errors ::= λ n, n ⊕ 1 |>)); [done|done|]. by destruct (ke_inv _ _ _ Hk1).
Qed.

Lemma started_frames size us : lenZ (started us) ≤ lenZ (frames_of size us) + Z.of_nat (length us) * 4.
Proof.
  induction us as [|u us IH]; [done|]. rewrite started_cons, frames_cons, !lenZ_app. cbn [length].
  change (lenZ [0; 0; 0; 1]) with 4. pose proof (lenZ_nonneg (nal_prefix size (lenZ u))). lia.
Qed.

(** A track's configuration read. *)
Lemma wp_read_config id L s0 s :
  keeps L s0 s → id ∈ holds (ps_pub s) →
  wp (on_pstore (buf_read id (len_of (ps_store s) (Some id))))
    (λ data s', s' = s ∧ data = bytes_of (ps_store s) (Some id) ∧ lenZ data = len_of (ps_store s) (Some id)) s.
Proof.
  intros [_ Ho _ Hw _] Hin. destruct (Hw id Hin) as (bf & Hb & Hl).
  pose proof (wf_buf _ (owns_wf _ _ Ho) _ _ Hb) as (_ & Hr & _).
  exists (take (Z.to_nat (b_len bf)) (b_data bf)), s. split.
  - unfold on_pstore, buf_read, deref, mbind, SM_bind. cbn [len_of]. rewrite Hb. cbn [fmap option_fmap option_map default].
    fold (lenZ (b_data bf)). rewrite (proj2 (Z.leb_le _ _)) by done. by destruct s.
  - cbn [len_of bytes_of]. rewrite Hb. cbn. unfold lenZ in *. rewrite length_take. split_and!; [done|done|lia].
Qed.

Definition framed (size : Z) (payload : list Z) (us : list (list Z)) : Prop :=
  us ≠ [] ∧ Forall (unit_ok (Z.to_nat size)) us ∧ payload = frames_of (Z.to_nat size) us.

(** What a message of coded units comes to: one frame with the units behind start codes, or
    nothing - and then the payload is not a sequence of units, or there was no memory for
    them in the state [st]. *)
Definition payload_post (cb : callbacks) (size : Z) (payload : list Z) (f : frame)
    (pre : list (list Z) → list Z) (calls : list pub_call) (st : store) (r : rc) (s' : pstate) : Prop :=
  (ps_calls s' = calls ∧ ∀ us, framed size payload us →
     r = NGX_ERROR ∧ memory_short st (lenZ (pre us) + lenZ payload + Z.of_nat (length us) * 4)) ∨
  ∃ us buf, framed size payload us ∧ r = NGX_OK ∧
    ps_calls s' = calls ++ emitted cb buf f (pre us ++ started us).

(** The sets that go in front, and their length. *)
Lemma wp_track_sets keyframe has L s0 s :
  keeps L s0 s →
  wp (track_sets keyframe has) (λ o s', s' = s ∧ holds o ⊆ holds (ps_pub s) ∧
    o = if keyframe && negb has && pu_have_video (ps_pub s)
        then tr_config (default track_zero (ts_tracks (pu_tracks (ps_pub s)) !! Z.to_nat (pu_video_track (ps_pub s))))
        else None) s.
Proof.
  intros [Hi Ho _ _ _]. unfold track_sets. apply wp_bind, wp_pub_get. cbn [id].
  destruct (keyframe && negb has); [|apply wp_ret; split_and!; [done|apply list_subseteq_nil|done]]. cbn [andb].
  destruct (pu_have_video (ps_pub s)) eqn:Hv; [|apply wp_ret; split_and!; [done|apply list_subseteq_nil|done]].
  pose proof (pi_video _ Hi Hv) as Hlt. destruct (pi_tracks _ Hi) as [Hl Hc].
  destruct (lookup_lt_is_Some_2 (ts_tracks (pu_tracks (ps_pub s))) (Z.to_nat (pu_video_track (ps_pub s)))) as [tr Htr]; [lia|].
  apply wp_bind. eapply wp_read; [exact Htr|]. apply wp_ret. rewrite Htr. split_and!; [done| |done].
  change (holds tr ⊆ holds (ts_used (pu_tracks (ps_pub s)))).
  apply holds_elem. apply (list_elem_of_lookup_2 _ (Z.to_nat (pu_video_track (ps_pub s)))).
  unfold ts_used. apply lookup_take_Some. split; [done|lia].
Qed.

Lemma wp_payload cb ts size payload keyframe cts codec legacy L s0 s :
  keeps L s0 s → size_ok size → bytes payload →
  wp (publisher_payload cb ts size payload keyframe cts codec legacy)
    (λ r s', keeps L s0 s' ∧
      payload_post cb size payload
        (media_frame TYPE_VIDEO codec PAYLOAD_ANNEXB (pu_video_track (ps_pub s))
           ((ts + cts) * RTMP_TIMESCALE) (ts * RTMP_TIMESCALE) keyframe)
        (prefix_of (ps_pub s) (ps_store s) legacy keyframe codec) (ps_calls s) (ps_store s) r s') s.
Proof.
  intros Hk Hsize Hb. unfold size_ok in Hsize. set (f := media_frame _ _ _ _ _ _ _). set (codecs := if legacy then None else Some codec).
  assert (∀ us, framed size payload us →
    count_nals payload size codecs = Some (Z.of_nat (length us), lenZ payload, existsb (is_set codecs) us)) as Hcount.
  { intros us (_ & Hus & Hp). unfold count_nals. change 0 with (Z.of_nat 0) at 1.
    rewrite (count_units_frames _ _ _ us); [done|lia|done|by rewrite drop_0|lia|lia]. }
  destruct (count_units_any payload (Z.to_nat size) codecs (length payload) 0 0 false) as (nals & pos & has & Hn & Hge);
    [lia|done|lia|lia|unfold lenZ; lia|]. fold (count_nals payload size codecs) in Hn.
  unfold publisher_payload. fold codecs. apply wp_bind. eapply wp_read; [exact Hn|]. cbv beta iota.
  destruct ((nals =? 0) || negb (pos =? lenZ payload)) eqn:Ebad.
  { apply wp_bind, wp_pub_mod, wp_ret. split.
    - apply (keeps_mod L s0 s (λ p, p <| pu_errors ::= λ n, n ⊕ 1 |>)); [done|done|]. by destruct (ke_inv _ _ _ Hk).
    - left. split; [done|]. intros us Hus. rewrite (Hcount us Hus) in Hn. injection Hn as <- <- _.
      rewrite Z.eqb_refl, orb_false_r, Z.eqb_eq in Ebad. destruct us; [by destruct Hus|done]. }
  apply wp_bind. eapply (wp_mono _ (λ o s', s' = s ∧ holds o ⊆ holds (ps_pub s) ∧
    o = if negb legacy && (keyframe && negb has && pu_have_video (ps_pub s))
        then tr_config (default track_zero (ts_tracks (pu_tracks (ps_pub s)) !! Z.to_nat (pu_video_track (ps_pub s))))
        else None)).
  { destruct legacy; [apply wp_ret; split_and!; [done|apply list_subseteq_nil|done]|by eapply wp_track_sets]. }
  intros sets s' (-> & Hsets & Eo).
  apply wp_bind, wp_on_pstore. eapply wp_mono; [eapply (wp_buf_size sets); [apply Hk|]|].
  { etrans; [exact Hsets|]. sub_app. }
  intros n st [-> ->]. change (s <| ps_store := ps_store s |>) with (mk_pstate (ps_pub s) (ps_calls s) (ps_store s)).
  replace (mk_pstate (ps_pub s) (ps_calls s) (ps_store s)) with s by by destruct s.
  set (n := len_of (ps_store s) sets). pose proof (len_of_range _ _ sets (ke_owns _ _ _ Hk)) as Hnr. fold n in Hnr.
  set (config := bytes_of (ps_store s) sets).
  assert (lenZ config = n) as Hconfig.
  { destruct sets as [sets|]; [|done]. assert (sets ∈ holds (ps_pub s)) as Hin by (apply Hsets; left).
    destruct (wp_read_config sets L s0 s Hk Hin) as (? & ? & _ & _ & -> & ?). done. }
  assert (∀ us, framed size payload us → prefix_of (ps_pub s) (ps_store s) legacy keyframe codec us = config) as Hpre.
  { intros us Hus. rewrite (Hcount us Hus) in Hn. injection Hn as _ _ <-. unfold config, prefix_of. rewrite Eo. unfold codecs.
    destruct legacy; cbn [negb andb]; [done|]. by destruct (keyframe && _ && _). }
  pose proof (lenZ_nonneg payload). cbv zeta. apply wp_bind.
  eapply wp_mono; [apply (wp_alloc_young _ L s0 s Hk); lia|]. intros [buf|] s1 (Hp1 & Hc1 & Hev1 & H1).
  2:{ destruct H1 as [Hk1 Hshort]. apply wp_ret. split; [done|]. left. split; [done|]. intros us Hus. split; [done|].
      rewrite (Hpre us Hus), Hconfig. rewrite (Hcount us Hus) in Hn. injection Hn as <- _ _. exact Hshort. }
  destruct H1 as [Hk1 Hy1]. apply wp_bind.
  apply (wp_mono _ (λ _ s', ps_pub s' = ps_pub s ∧ ps_calls s' = ps_calls s ∧ keeps (buf :: L) s0 s' ∧ lenZ config = n ∧
    young s0 (ps_store s') buf (n + lenZ payload + nals * 4) config)).
  { destruct sets as [sets|]; [|apply wp_ret; by split_and!].
    assert (sets ∈ holds (ps_pub s)) as Hin by (apply Hsets; left).
    assert (len_of (ps_store s1) (Some sets) = n ∧ bytes_of (ps_store s1) (Some sets) = config) as [Hlen1 Hbytes1].
    { eapply evolves_held; [apply Hk|apply Hk1|exact Hev1|set_solver|rewrite Hp1; set_solver]. }
    assert (lenZ config = n) as Hlc.
    { destruct (wp_read_config sets L s0 s Hk Hin) as (? & ? & _ & _ & -> & ?). done. }
    destruct (Z.ltb_spec 0 n) as [Hpos|Hnp].
    - apply wp_bind. rewrite <- Hlen1. eapply wp_mono; [apply (wp_read_config sets (buf :: L) s0 s1 Hk1); by rewrite Hp1|].
      intros data s2 (-> & -> & _). rewrite Hlen1, Hbytes1.
      eapply wp_mono; [eapply (wp_write_young buf 0 config); [exact Hk1|exact Hy1|done|lia]|].
      intros [] s3 (Hp3 & Hc3 & Hk3 & Hy3). rewrite Hp3, Hc3. split_and!; [done..|]. by rewrite drop_nil, app_nil_r in Hy3.
    - apply wp_ret. assert (config = []) as -> by (apply lenZ_nil; lia). by split_and!. }
  intros [] s2 (Hp2 & Hc2 & Hk2 & Hlc & Hy2). apply wp_bind.
  destruct (payload_any payload size (n + lenZ payload + nals * 4 - n) Hb ltac:(lia)) as (r & out & Er & Hr).
  eapply wp_read; [exact Er|]. cbv beta iota. destruct (bool_decide_reflect (r = NGX_OK)) as [->|Hne]; cbn [negb].
  - destruct (Hr eq_refl) as (Hfit & us & Hneu & Hus & Hpay & ->). assert (framed size payload us) as Hfr by by split_and!.
    rewrite (Hcount us Hfr) in Hn. injection Hn as <- <- _.
    apply wp_bind. eapply wp_mono; [eapply (wp_write_young buf n (started us)); [exact Hk2|exact Hy2|lia|lia]|].
    intros [] s3 (Hp3 & Hc3 & Hk3 & Hy3). apply wp_bind, wp_pub_get. rewrite Hp3, Hp2.
    assert (Z.to_nat n = length config) as En by (unfold lenZ in Hlc; lia).
    rewrite En, firstn_all, drop_ge, app_nil_r in Hy3 by lia.
    replace (n + lenZ (started us)) with (lenZ (config ++ started us)) by (rewrite lenZ_app; lia).
    eapply wp_mono; [apply (wp_emit_media cb buf (config ++ started us) ts f L s0 s3 Hk3); [by eapply young_ready|done]|].
    intros r s4 (Hk4 & -> & Hc4). split; [done|]. right. exists us, buf. split_and!; [done..|].
    by rewrite Hc4, Hc3, Hc2, (Hpre us Hfr).
  - apply wp_bind. eapply wp_mono; [by apply wp_unref_young|]. intros [] s3 (Hk3 & _ & Hc3).
    apply wp_bind, wp_pub_mod, wp_ret. split.
    + apply (keeps_mod L s0 s3 (λ p, p <| pu_errors ::= λ n, n ⊕ 1 |>)); [done|done|]. by destruct (ke_inv _ _ _ Hk3).
    + left. cbn. rewrite Hc3, Hc2. split; [done|]. intros us Hfr. exfalso. apply Hne.
      pose proof (Hcount us Hfr) as Hn'. rewrite Hn in Hn'. injection Hn' as -> _ _. destruct Hfr as (Hneu & Hus & Hpay).
      pose proof (started_frames (Z.to_nat size) us) as Hle. rewrite <- Hpay in Hle.
      rewrite (payload_frames payload size _ us) in Er; [by injection Er|done..|lia].
Qed.

(** ** Messages *)

Lemma keeps_avcc L s0 s a have :
  keeps L s0 s → (have = true → size_ok (ac_nal_length_size a)) →
  keeps L s0 (s <| ps_pub := (ps_pub s) <| pu_avcc := a |> <| pu_have_avcc := have |> |>).
Proof.
  intros Hk Ha. apply (keeps_mod L s0 s (λ p, p <| pu_avcc := a |> <| pu_have_avcc := have |>)); [done|done|].
  destruct (ke_inv _ _ _ Hk). by split.
Qed.
Lemma keeps_hvcc L s0 s h have :
  keeps L s0 s → (have = true → size_ok (hc_nal_length_size h)) →
  keeps L s0 (s <| ps_pub := (ps_pub s) <| pu_hvcc := h |> <| pu_have_hvcc := have |> |>).
Proof.
  intros Hk Ha. apply (keeps_mod L s0 s (λ p, p <| pu_hvcc := h |> <| pu_have_hvcc := have |>)); [done|done|].
  destruct (ke_inv _ _ _ Hk). by split.
Qed.
Lemma keeps_asc L s0 s c have :
  keeps L s0 s → keeps L s0 (s <| ps_pub := (ps_pub s) <| pu_asc := c |> <| pu_have_asc := have |> |>).
Proof.
  intros Hk. apply (keeps_mod L s0 s (λ p, p <| pu_asc := c |> <| pu_have_asc := have |>)); [done|done|].
  destruct (ke_inv _ _ _ Hk). by split.
Qed.

(** An error counted and the message given up. *)
Lemma wp_give_up L s0 s : keeps L s0 s → wp (pub_error ≫= λ _, mret NGX_OK) (kept L s0) s.
Proof. intros Hk. apply wp_bind. eapply wp_mono; [by apply (wp_pub_error L s0)|]. intros [] s' Hk'. by apply wp_ret. Qed.

(** The configuration frame of the legacy form and of audio. *)
Lemma wp_config_announce cb buf data media codec format track L s0 s :
  keeps (buf :: L) s0 s → ready s0 s buf data →
  wp (r ← rtmp_emit cb buf (lenZ data) (config_frame (ps_pub s) media codec format track);
      _ ← (if bool_decide (r = NGX_OK) then mret tt else pub_error);
      pub_announce cb) (kept L s0) s.
Proof.
  intros Hk Hf. apply wp_bind. eapply wp_mono; [by eapply wp_config_frame|]. intros r s1 Hk1.
  apply wp_bind. apply (wp_mono _ (kept L s0)); [case_bool_decide; [by apply wp_ret|by apply wp_pub_error]|].
  intros [] s2 Hk2. by apply wp_pub_announce.
Qed.

Lemma wp_ex_sequence cb codec payload L s0 s : keeps L s0 s → wp (ex_sequence cb codec payload) (kept L s0) s.
Proof.
  intros Hk. unfold ex_sequence. destruct (codec =? CODEC_H265).
  - apply wp_bind, wp_pub_get. destruct (hvcc_parse_any payload (pu_hvcc (ps_pub s))) as (r & h & E & Hh).
    apply wp_bind. eapply wp_read; [exact E|]. cbv beta iota. apply wp_bind, wp_pub_mod.
    pose proof (pi_hvcc _ (ke_inv _ _ _ Hk)) as Hold.
    assert (keeps L s0 (s <| ps_pub := (ps_pub s) <| pu_hvcc := h |> |>)) as Hk1.
    { replace (s <| ps_pub := (ps_pub s) <| pu_hvcc := h |> |>)
        with (s <| ps_pub := (ps_pub s) <| pu_hvcc := h |> <| pu_have_hvcc := pu_have_hvcc (ps_pub s) |> |>) by by destruct s as [[] ? ?].
      apply keeps_hvcc; [done|]. intros Hhave. destruct Hh as [|[_ ->]]; [done|auto]. }
    destruct (bool_decide_reflect (r = NGX_OK)) as [->|Hne]; cbn [negb]; [|by apply wp_give_up].
    apply wp_bind, wp_pub_mod. set (s2 := _ <| ps_pub := _ |>). assert (keeps L s0 s2) as Hk2.
    { apply (keeps_hvcc L s0 s h true Hk). by destruct Hh as [|[? _]]. }
    destruct (hvcc_annexb_ok h) as [Ea El]. rewrite Ea.
    apply wp_bind. eapply wp_mono; [apply (wp_sets_buffer _ _ L s0); [exact Hk2|exact El]|].
    intros [memory [[buf len]|]] s3 [_ H3]; cbn in H3; [|by apply wp_ret].
    destruct H3 as (Hk3 & Hf3 & ->). by eapply wp_pub_video_config.
  - apply wp_bind, wp_pub_get. destruct (avcc_parse_any payload (pu_avcc (ps_pub s))) as (r & a & E & Hh).
    apply wp_bind. eapply wp_read; [exact E|]. cbv beta iota. apply wp_bind, wp_pub_mod.
    pose proof (pi_avcc _ (ke_inv _ _ _ Hk)) as Hold.
    assert (keeps L s0 (s <| ps_pub := (ps_pub s) <| pu_avcc := a |> |>)) as Hk1.
    { replace (s <| ps_pub := (ps_pub s) <| pu_avcc := a |> |>)
        with (s <| ps_pub := (ps_pub s) <| pu_avcc := a |> <| pu_have_avcc := pu_have_avcc (ps_pub s) |> |>) by by destruct s as [[] ? ?].
      apply keeps_avcc; [done|]. intros Hhave. destruct Hh as [|[_ ->]]; [done|auto]. }
    destruct (bool_decide_reflect (r = NGX_OK)) as [->|Hne]; cbn [negb]; [|by apply wp_give_up].
    apply wp_bind, wp_pub_mod. set (s2 := _ <| ps_pub := _ |>). assert (keeps L s0 s2) as Hk2.
    { apply (keeps_avcc L s0 s a true Hk). by destruct Hh as [|[? _]]. }
    destruct (avcc_annexb_ok a) as [Ea El]. rewrite Ea.
    apply wp_bind. eapply wp_mono; [apply (wp_sets_buffer _ _ L s0); [exact Hk2|exact El]|].
    intros [memory [[buf len]|]] s3 [_ H3]; cbn in H3; [|by apply wp_ret].
    destruct H3 as (Hk3 & Hf3 & ->). by eapply wp_pub_video_config.
Qed.

Lemma wp_legacy_sequence cb payload L s0 s : keeps L s0 s → wp (legacy_sequence cb payload) (kept L s0) s.
Proof.
  intros Hk. apply wp_bind, wp_pub_get. destruct (avcc_parse_any payload (pu_avcc (ps_pub s))) as (r & a & E & Hh).
  apply wp_bind. eapply wp_read; [exact E|]. cbv beta iota. apply wp_bind, wp_pub_mod.
  pose proof (pi_avcc _ (ke_inv _ _ _ Hk)) as Hold.
  assert (keeps L s0 (s <| ps_pub := (ps_pub s) <| pu_avcc := a |> |>)) as Hk1.
  { replace (s <| ps_pub := (ps_pub s) <| pu_avcc := a |> |>)
      with (s <| ps_pub := (ps_pub s) <| pu_avcc := a |> <| pu_have_avcc := pu_have_avcc (ps_pub s) |> |>) by by destruct s as [[] ? ?].
    apply keeps_avcc; [done|]. intros Hhave. destruct Hh as [|[_ ->]]; [done|auto]. }
  destruct (bool_decide_reflect (r = NGX_OK)) as [->|Hne]; cbn [negb]; [|by apply wp_give_up].
  apply wp_bind, wp_pub_mod. set (s2 := _ <| ps_pub := _ |>). assert (keeps L s0 s2) as Hk2.
  { apply (keeps_avcc L s0 s a true Hk). by destruct Hh as [|[? _]]. }
  destruct (avcc_annexb_ok a) as [Ea El]. rewrite Ea.
  apply wp_bind. eapply wp_mono; [apply (wp_sets_buffer _ _ L s0); [exact Hk2|exact El]|].
  intros [memory [[buf len]|]] s3 [_ H3]; cbn in H3; [|by apply wp_ret]. destruct H3 as (Hk3 & Hf3 & ->).
  apply wp_bind, wp_pub_get. apply wp_bind.
  eapply wp_mono; [eapply (wp_install_track _ _ buf _); [exact Hk3|exact Hf3|done| |by left]|].
  { apply (pi_video _ (ke_inv _ _ _ Hk3)). }
  intros [] s4 [_ H4]; cbn [negb]; [|by apply wp_ret]. destruct H4 as [Hk4 Hf4].
  apply wp_bind, wp_pub_get. by eapply wp_config_announce.
Qed.

Lemma wp_audio_sequence cb payload L s0 s :
  keeps L s0 s → bytes payload → wp (audio_sequence cb payload) (kept L s0) s.
Proof.
  intros Hk Hb. apply wp_bind, wp_pub_get. destruct (asc_parse_any payload (pu_asc (ps_pub s)) Hb) as (r & c & E).
  apply wp_bind. eapply wp_read; [exact E|]. cbv beta iota. apply wp_bind, wp_pub_mod.
  assert (keeps L s0 (s <| ps_pub := (ps_pub s) <| pu_asc := c |> |>)) as Hk1.
  { replace (s <| ps_pub := (ps_pub s) <| pu_asc := c |> |>)
      with (s <| ps_pub := (ps_pub s) <| pu_asc := c |> <| pu_have_asc := pu_have_asc (ps_pub s) |> |>) by by destruct s as [[] ? ?].
    by apply keeps_asc. }
  destruct (bool_decide_reflect (r = NGX_OK)) as [->|Hne]; cbn [negb]; [|by apply wp_give_up].
  apply wp_bind, wp_pub_mod. set (s2 := _ <| ps_pub := _ |>). assert (keeps L s0 s2) as Hk2 by apply (keeps_asc L s0 s c true Hk).
  apply wp_bind. eapply wp_mono; [apply (wp_buf_with (lenZ payload) payload L s0); [exact Hk2|done]|].
  intros [buf|] s3 (_ & _ & H3); [|by apply wp_ret]. destruct H3 as (Hk3 & Hy3). apply (young_ready buf L) in Hy3; [|done].
  apply wp_bind, wp_pub_get. apply wp_bind.
  eapply wp_mono; [eapply (wp_install_track _ _ buf _); [exact Hk3|exact Hy3|done| |by right]|].
  { apply (pi_audio _ (ke_inv _ _ _ Hk3)). }
  intros [] s4 [_ H4]; cbn [negb]; [|by apply wp_ret]. destruct H4 as [Hk4 Hf4].
  apply wp_bind, wp_pub_get. by eapply wp_config_announce.
Qed.

Lemma wp_payload_kept cb ts size payload keyframe cts codec legacy L s0 s :
  keeps L s0 s → size_ok size → bytes payload →
  wp (publisher_payload cb ts size payload keyframe cts codec legacy) (kept L s0) s.
Proof. intros. eapply wp_mono; [by eapply wp_payload|]. by intros r s' [? _]. Qed.

Lemma wp_ex_frames cb ts codec packet frame_type payload L s0 s :
  keeps L s0 s → bytes payload → wp (ex_coded_frames cb ts codec packet frame_type payload) (kept L s0) s.
Proof.
  intros Hk Hb. apply wp_bind, wp_pub_get. cbn [id].
  destruct (if codec =? CODEC_H265 then pu_have_hvcc (ps_pub s) else pu_have_avcc (ps_pub s)) eqn:Hh; cbn [negb]; [|by apply wp_pub_skip].
  assert (size_ok (if codec =? CODEC_H265 then hc_nal_length_size (pu_hvcc (ps_pub s)) else ac_nal_length_size (pu_avcc (ps_pub s)))) as Hs.
  { destruct (codec =? CODEC_H265); [by apply (pi_hvcc _ (ke_inv _ _ _ Hk))|by apply (pi_avcc _ (ke_inv _ _ _ Hk))]. }
  cbv zeta. destruct (packet =? EX_CODED_FRAMES); [|by apply wp_payload_kept].
  destruct (Z.ltb_spec (lenZ payload) 3) as [|Hl]; [by apply wp_pub_skip|].
  destruct payload as [|a [|b [|c payload]]]; [done..|]. apply wp_bind. eapply wp_read; [done|].
  apply wp_payload_kept; [done|done|]. by apply (Forall_drop _ 3).
Qed.

Lemma wp_publisher_video_ex cb ts data L s0 s :
  keeps L s0 s → bytes data → wp (publisher_video_ex cb ts data) (kept L s0) s.
Proof.
  intros Hk Hb. unfold publisher_video_ex. destruct (Z.ltb_spec (lenZ data) 5) as [|Hl]; [by apply wp_pub_skip|].
  unfold lenZ in Hl. destruct (lookup_some data 0) as [b0 Hb0]; [lia|].
  apply wp_bind. eapply wp_read; [exact Hb0|]. cbv zeta.
  destruct (_ =? EX_SEQUENCE_END); [by apply wp_ret|]. destruct (_ =? EX_METADATA); [by apply wp_pub_skip|].
  apply wp_bind. eapply wp_read; [apply bytes_at_some; lia|].
  destruct (if bool_decide _ then _ else _) as [codec|]; [|by apply wp_pub_skip].
  destruct (_ =? EX_SEQUENCE_START); [by apply wp_ex_sequence|apply wp_ex_frames; [done|by apply Forall_drop]].
Qed.

Lemma wp_publisher_video cb ts data L s0 s :
  keeps L s0 s → bytes data → wp (publisher_video cb ts data) (kept L s0) s.
Proof.
  intros Hk Hb. unfold publisher_video. destruct (Z.ltb_spec (lenZ data) 5) as [|Hl]; [by apply wp_pub_skip|].
  unfold lenZ in Hl. destruct (lookup_some data 0) as [b0 Hb0]; [lia|]. destruct (lookup_some data 1) as [b1 Hb1]; [lia|].
  apply wp_bind. eapply wp_read; [exact Hb0|].
  destruct (Z.land b0 EX_HEADER_FLAG =? 0); cbn [negb]; [|by apply wp_publisher_video_ex].
  apply wp_bind. eapply wp_read; [exact Hb1|].
  destruct data as [|? [|? [|a [|b [|c data]]]]]; [cbn in Hl; lia..|]. apply wp_bind. eapply wp_read; [done|].
  destruct (b1 =? AVC_END_SEQUENCE); [by apply wp_ret|]. destruct (b1 =? AVC_SEQUENCE); [by apply wp_legacy_sequence|].
  apply wp_bind, wp_pub_get. cbn [id]. destruct (pu_have_avcc (ps_pub s)) eqn:Hh; cbn [negb]; [|by apply wp_pub_skip].
  apply wp_payload_kept; [done|by apply (pi_avcc _ (ke_inv _ _ _ Hk))|by apply (Forall_drop _ 5)].
Qed.

Lemma wp_publisher_audio cb ts data L s0 s :
  keeps L s0 s → bytes data → wp (publisher_audio cb ts data) (kept L s0) s.
Proof.
  intros Hk Hb. unfold publisher_audio. destruct (Z.ltb_spec (lenZ data) 2) as [|Hl]; [by apply wp_pub_skip|].
  unfold lenZ in Hl. destruct (lookup_some data 1) as [b1 Hb1]; [lia|].
  apply wp_bind. eapply wp_read; [exact Hb1|]. cbv zeta. apply wp_bind, wp_pub_get. cbn [id].
  destruct (b1 =? AAC_SEQUENCE); [apply wp_audio_sequence; [done|by apply Forall_drop]|].
  destruct (_ || _); [by apply wp_pub_skip|].
  destruct (adts_write _ _) as [r header]. destruct (bool_decide (r = NGX_OK)); cbn [negb]; [|by apply wp_give_up].
  apply wp_bind. eapply wp_mono; [apply (wp_buf_with _ (header ++ drop 2 data) L s0); [exact Hk|by rewrite lenZ_app]|].
  intros [buf|] s1 (_ & _ & H1); [|by apply wp_ret]. destruct H1 as [Hk1 Hy1]. apply (young_ready buf L) in Hy1; [|done].
  rewrite <- lenZ_app. eapply wp_mono; [by eapply (wp_emit_media cb buf (header ++ drop 2 data))|]. by intros r' s2 [? _].
Qed.

Lemma wp_publisher_feed cb type ts data L s0 s :
  keeps L s0 s → bytes data → wp (publisher_feed cb type ts data) (kept L s0) s.
Proof.
  intros Hk Hb. unfold publisher_feed. destruct (type =? MSG_VIDEO); [by apply wp_publisher_video|].
  destruct (type =? MSG_AUDIO); [by apply wp_publisher_audio|by apply wp_ret].
Qed.

Lemma wp_publisher_feeds cb ms L s0 : ∀ s,
  keeps L s0 s → Forall (λ m, bytes m.2) ms → wp (publisher_feeds cb ms) (kept L s0) s.
Proof.
  induction ms as [|[[type ts] data] ms IH]; intros s Hk Hms; [by apply wp_ret|].
  apply Forall_cons in Hms as [Hm Hms]. apply wp_bind. eapply wp_mono; [by apply (wp_publisher_feed cb type ts data L s0)|].
  intros r s1 Hk1. by apply IH.
Qed.

Lemma wp_publisher_destroy L s0 s :
  keeps L s0 s →
  wp publisher_destroy (λ _ s', owns (ps_store s') (L ++ kept_ids (ps_calls s)) ∧ evolves s0 (ps_store s') ∧
    intact (kept_of (ps_calls s)) (ps_store s')) s.
Proof.
  intros [_ Ho Hev _ Hk]. apply wp_bind, wp_pub_get. apply wp_bind, wp_on_pstore.
  eapply wp_mono; [apply (wp_trackset_destroy _ (L ++ kept_ids (ps_calls s))); exact Ho|]. intros ts st [Ho' Hev'].
  apply wp_pub_mod. split_and!; [exact Ho'|by etrans|]. rewrite app_assoc in Ho. intros id data. by eapply kept_evolves.
Qed.

(** C22: No publisher can break the adapter: from a fresh publisher, over any messages - audio
    and video of any type, any bytes, any timestamps, in any order - with any answers of the
    frame callback, which keeps the payloads it likes, and any refusals of the allocator, every
    read stays inside its message, every write inside its buffer, every loop ends, nothing that
    existed before is written, every payload that was kept still has the bytes and the length
    it was handed out with, whatever came after it, and the references held are exactly those
    of the tracks and of who kept a payload, so that destroying the publisher gives back every
    other buffer and leaves the kept ones as they are. *)
Theorem publisher_any_messages (cb : callbacks) (ms : list (Z * Z * list Z)) (L : list N) (s0 : store) :
  owns s0 L → Forall (λ m, bytes m.2) ms →
  wp publisher_init (λ r st, if bool_decide (r.1 = NGX_OK) then
      wp (publisher_feeds cb ms) (λ _ s,
        let kept := kept_of (ps_calls s) in
        owns (ps_store s) (holds (ps_pub s) ++ L ++ kept.*1) ∧ evolves s0 (ps_store s) ∧ intact kept (ps_store s) ∧
        wp publisher_destroy (λ _ s', owns (ps_store s') (L ++ kept.*1) ∧ evolves s0 (ps_store s') ∧
          intact kept (ps_store s')) s)
        (mk_pstate r.2 [] st)
    else owns st L) s0.
Proof.
  intros Ho Hms. apply wp_bind. eapply wp_mono; [by apply (wp_trackset_init 4 L)|].
  intros [r ts] st (Ho1 & Hev1 & Hti & Hc & _ & Herr). cbn [fst snd] in *. apply wp_ret. cbn [fst snd].
  destruct (bool_decide_reflect (r = NGX_OK)); [|done]. rewrite bool_decide_true by done.
  assert (holds (publisher_zero <| pu_tracks := ts |>) = []) as Hh.
  { unfold holds, owner_publisher, holds, owner_trackset. cbn. rewrite Hc. done. }
  assert (keeps L s0 (mk_pstate (publisher_zero <| pu_tracks := ts |>) [] st)) as Hk.
  { split; [by split| |done| |]; cbn [ps_store ps_pub ps_calls]; rewrite ?Hh.
    - cbn. by rewrite app_nil_r.
    - by intros id ?%elem_of_nil.
    - by intros id data ?%elem_of_nil. }
  eapply wp_mono; [by apply (wp_publisher_feeds cb ms L s0)|]. intros [] s Hks. cbv zeta.
  split_and!; [apply Hks..|]. by eapply wp_publisher_destroy.
Qed.

(** A keyframe, kept by its receiver, before the frames that follow. *)
Definition ex_messages : list (Z * Z * list Z) :=
  [(9, 0, [0x17; 0; 0; 0; 0; 1; 66; 0; 30; 255; 225; 0; 2; 103; 66; 1; 0; 1; 104]);
   (9, 40, [0x17; 1; 0; 0; 0; 0; 0; 0; 2; 101; 9]); (9, 80, [0x27; 1; 0; 0; 0; 0; 0; 0; 1; 65]); (8, 80, [0xAF; 0; 0x12])].
Definition ex_keeping : callbacks := mk_callbacks (Some (λ _ _, NGX_OK)) (λ f _, keyframe f) true.
Lemma publisher_any_messages_witness :
  wp publisher_init (λ r st, if bool_decide (r.1 = NGX_OK) then
      wp (publisher_feeds ex_keeping ex_messages) (λ _ s,
        let kept := kept_of (ps_calls s) in
        owns (ps_store s) (holds (ps_pub s) ++ [0%N; 0%N] ++ kept.*1) ∧ evolves ex_store (ps_store s) ∧
        intact kept (ps_store s) ∧
        wp publisher_destroy (λ _ s', owns (ps_store s') ([0%N; 0%N] ++ kept.*1) ∧ evolves ex_store (ps_store s') ∧
          intact kept (ps_store s')) s)
        (mk_pstate r.2 [] st)
    else owns st [0%N; 0%N]) ex_store ∧
  wp publisher_init (λ r st, r.1 = NGX_OK ∧
      wp (publisher_feeds ex_keeping ex_messages) (λ _ s,
        [0; 0; 0; 1; 101; 9] ∈ (kept_of (ps_calls s)).*2) (mk_pstate r.2 [] st)) ex_store.
Proof.
  split; [apply publisher_any_messages; [apply ex_store_owns|repeat constructor; done]|].
  eexists _, _. split; [reflexivity|]. split; [done|]. eexists _, _. split; [vm_compute; reflexivity|].
  by apply (bool_decide_unpack _).
Defined.
