(* ===== verification/RtmpFanout.v ===== *)
(** * The RTMP fanout ring

    Models the shared ring of rtmp/ngx_media_rtmp_adapter.[ch]: the messages of a program,
    converted once, from which every player of the program reads.  A slot holds a reference on
    its payload in the store of Store.v. *)
From S2P Require Import Prelude Bytes Store.

Definition FANOUT_UNITS : Z := 1024.

Record rtmp_media := mk_media {
  fm_payload : option N; fm_type : Z; fm_track : Z; fm_timestamp : Z; fm_sequence : Z;
  fm_keyframe : bool; fm_config : bool }.
#[global] Instance eta_rtmp_media : Eta rtmp_media := λ r,
  mk_media (fm_payload r) (fm_type r) (fm_track r) (fm_timestamp r) (fm_sequence r)
    (fm_keyframe r) (fm_config r).
Definition media_zero : rtmp_media := mk_media None 0 0 0 0 false false.

Record fanout := mk_fan {
  fn_units : list rtmp_media; fn_capacity : Z; fn_head : Z; fn_tail : Z; fn_dropped : Z;
  fn_converted : Z; fn_bytes : Z; fn_max_bytes : Z }.
#[global] Instance eta_fanout : Eta fanout := λ r,
  mk_fan (fn_units r) (fn_capacity r) (fn_head r) (fn_tail r) (fn_dropped r) (fn_converted r)
    (fn_bytes r) (fn_max_bytes r).
Definition fanout_zero : fanout := mk_fan (replicate (Z.to_nat FANOUT_UNITS) media_zero) 0 0 0 0 0 0 0.

Definition fanout_init (capacity max_bytes : Z) : fanout :=
  fanout_zero
    <| fn_capacity := if (0 <? capacity) && (capacity <=? FANOUT_UNITS) then capacity else FANOUT_UNITS |>
    <| fn_max_bytes := if max_bytes =? 0 then 16 * 1024 * 1024 else max_bytes |>.

Definition fanout_destroy (f : fanout) : M fanout :=
  _ ← unref_all (fm_payload <$> take (Z.to_nat (fn_capacity f)) (fn_units f)); mret fanout_zero.

(** The slot of a sequence number; the division by zero has no answer. *)
Definition fan_index (f : fanout) (sequence : Z) : option nat :=
  if fn_capacity f =? 0 then None else Some (Z.to_nat (sequence mod fn_capacity f)).

(** The payload of a slot is given back, and no longer counted. *)
Definition fan_release (f : fanout) (p : option N) : M fanout :=
  match p with
  | None => mret f
  | Some _ => n ← buf_size p; _ ← buf_unref p; mret (f <| fn_bytes ::= λ b, b ⊖ n |>)
  end.

(** The eviction loop; every turn moves the tail. *)
Definition fan_over (f : fanout) : bool :=
  (fn_tail f <? fn_head f)
  && ((fn_capacity f <? fn_head f ⊖ fn_tail f)
      || (negb (fn_max_bytes f =? 0) && (fn_max_bytes f <? fn_bytes f))).
Fixpoint fanout_evict (fuel : nat) (f : fanout) : M fanout :=
  if fan_over f then
    match fuel with
    | O => ub
    | S fuel =>
        i ← sread (fan_index f (fn_tail f));
        u ← sread (fn_units f !! i);
        f ← fan_release f (fm_payload u);
        let f := f <| fn_units ::= <[i := u <| fm_payload := None |>]> |> in
        fanout_evict fuel (f <| fn_tail ::= λ n, n ⊕ 1 |> <| fn_dropped ::= λ n, n ⊕ 1 |>)
    end
  else mret f.

Definition fanout_push (f : fanout) (type track timestamp : Z) (payload : option N)
    (keyframe config : bool) : M (rc * fanout) :=
  match payload with
  | None => mret (NGX_ERROR, f)
  | Some _ =>
      i ← sread (fan_index f (fn_head f));
      u ← sread (fn_units f !! i);
      f ← fan_release f (fm_payload u);
      p ← buf_ref payload;
      n ← buf_size payload;
      let f := f <| fn_units ::= <[i := mk_media p type track timestamp (fn_head f) keyframe config]> |>
                 <| fn_bytes ::= λ b, b ⊕ n |> <| fn_head ::= λ h, h ⊕ 1 |>
                 <| fn_converted ::= λ c, c ⊕ 1 |> in
      f ← fanout_evict (S (Z.to_nat (fn_head f - fn_tail f))) f;
      mret (NGX_OK, f)
  end.

(** The unit a reader that wants [from] gets. *)
Definition fanout_next (f : fanout) (from : Z) : option (option rtmp_media) :=
  if fn_head f <=? fn_tail f then Some None
  else
    let sequence := if from <? fn_tail f then fn_tail f else from in
    if fn_head f <=? sequence then Some None
    else
      i ← fan_index f sequence;
      u ← fn_units f !! i;
      Some (if bool_decide (fm_payload u = None) then None else Some u).

(** ** What the ring holds *)

#[global] Instance owner_rtmp_media : Owner rtmp_media := λ u, option_list (fm_payload u).
#[global] Instance owner_fanout : Owner fanout := λ f, holds (fn_units f).

Definition fan_slot (f : fanout) (sequence : Z) : nat := Z.to_nat (sequence mod fn_capacity f).
(** The bytes of a unit; payloads are buffers in memory. *)
Definition media_len (s : store) (u : rtmp_media) : Z := len_of s (fm_payload u).
Definition sum_media (s : store) (l : list rtmp_media) : Z := sumZ (media_len s <$> l).

(** Behind the tail the ring holds [l], oldest first - a unit without a payload is one that
    was lost - and nothing in the other slots. *)
Record fan_is (s : store) (f : fanout) (l : list rtmp_media) : Prop := {
  fa_cap : 0 < fn_capacity f ≤ FANOUT_UNITS;
  fa_slots : length (fn_units f) = Z.to_nat FANOUT_UNITS;
  fa_room : Z.of_nat (length l) ≤ fn_capacity f;
  fa_tail : 0 ≤ fn_tail f;
  fa_head : fn_head f = fn_tail f + Z.of_nat (length l);
  fa_seq : fn_head f < 2 ^ 64;
  fa_live k u : l !! k = Some u → fn_units f !! fan_slot f (fn_tail f + Z.of_nat k) = Some u;
  fa_dead i u : fn_units f !! i = Some u → fm_payload u ≠ None →
    ∃ k, (k < length l)%nat ∧ i = fan_slot f (fn_tail f + Z.of_nat k);
  fa_size u : u ∈ l → media_len s u < 2 ^ 48;
  fa_bytes : fn_bytes f = sum_media s l;
  fa_max : 0 < fn_max_bytes f < 2 ^ 64 }.

(** The newest units of [l] that fit. *)
Fixpoint fan_trim (s : store) (max : Z) (l : list rtmp_media) : list rtmp_media :=
  match l with
  | [] => []
  | u :: l' => if max <? sum_media s l then fan_trim s max l' else l
  end.

Lemma fan_mod_inj c a b : 0 < c → Z.abs (a - b) < c → Z.to_nat (a mod c) = Z.to_nat (b mod c) → a = b.
Proof.
  intros Hc Hab E. pose proof (Z.mod_pos_bound a c). pose proof (Z.mod_pos_bound b c).
  assert (a mod c = b mod c) by lia. pose proof (Z.div_mod a c). pose proof (Z.div_mod b c).
  assert (a / c = b / c); nia.
Qed.

Lemma fan_slot_lt s f l n : fan_is s f l → (fan_slot f n < length (fn_units f))%nat.
Proof.
  intros H. rewrite (fa_slots _ _ _ H). pose proof (fa_cap _ _ _ H). unfold fan_slot.
  pose proof (Z.mod_pos_bound n (fn_capacity f)). lia.
Qed.
Lemma fan_index_slot f n : 0 < fn_capacity f → fan_index f n = Some (fan_slot f n).
Proof. intros. unfold fan_index. by rewrite (proj2 (Z.eqb_neq _ _)) by lia. Qed.

Lemma sum_media_cons s u l : sum_media s (u :: l) = media_len s u + sum_media s l.
Proof. done. Qed.
Lemma sum_media_app s l k : sum_media s (l ++ k) = sum_media s l + sum_media s k.
Proof. unfold sum_media. by rewrite fmap_app, sumZ_app. Qed.

Lemma sum_media_bound s L l :
  owns s L → (∀ u, u ∈ l → media_len s u < 2 ^ 48) → 0 ≤ sum_media s l ≤ Z.of_nat (length l) * 2 ^ 48.
Proof.
  intros Ho. induction l as [|u l IH]; intros Hs; [done|]. rewrite sum_media_cons. cbn [length].
  pose proof (Hs u ltac:(set_solver)). pose proof (len_of_range s L (fm_payload u) Ho). unfold media_len in *.
  specialize (IH ltac:(set_solver)). lia.
Qed.
Lemma fan_bytes_bound s L f l : owns s L → fan_is s f l → 0 ≤ fn_bytes f < 2 ^ 60.
Proof.
  intros Ho H. rewrite (fa_bytes _ _ _ H). pose proof (sum_media_bound s L l Ho (fa_size _ _ _ H)).
  pose proof (fa_room _ _ _ H). pose proof (fa_cap _ _ _ H). unfold FANOUT_UNITS in *. lia.
Qed.

Lemma fan_is_init s capacity max_bytes :
  0 ≤ max_bytes < 2 ^ 64 → fan_is s (fanout_init capacity max_bytes) [].
Proof.
  intros Hm. split; cbn; try done.
  - unfold FANOUT_UNITS. destruct (Z.ltb_spec 0 capacity), (Z.leb_spec capacity 1024); cbn; lia.
  - unfold FANOUT_UNITS. destruct (Z.ltb_spec 0 capacity), (Z.leb_spec capacity 1024); cbn; lia.
  - intros i u [-> _]%lookup_replicate_1. done.
  - by intros u ?%elem_of_nil.
  - destruct (Z.eqb_spec max_bytes 0); lia.
Qed.

(** ** Moving the window *)

(** The oldest unit leaves; what is put in its slot holds nothing. *)
Lemma fan_is_drop s f f' u l x :
  fan_is s f (u :: l) → fm_payload x = None →
  fn_units f' = <[fan_slot f (fn_tail f) := x]> (fn_units f) →
  fn_capacity f' = fn_capacity f → fn_max_bytes f' = fn_max_bytes f → fn_head f' = fn_head f →
  fn_tail f' = fn_tail f + 1 → fn_bytes f' = fn_bytes f - media_len s u → fan_is s f' l.
Proof.
  intros H Hx Eu Ec Em Eh Et Eb.
  assert (∀ n, fan_slot f' n = fan_slot f n) as Es by (intros; unfold fan_slot; by rewrite Ec).
  pose proof (fa_head _ _ _ H) as Hh. pose proof (fa_room _ _ _ H) as Hr. pose proof (fa_tail _ _ _ H).
  cbn [length] in Hh, Hr. split.
  - rewrite Ec. apply H.
  - rewrite Eu, length_insert. apply H.
  - lia.
  - lia.
  - lia.
  - rewrite Eh. apply H.
  - intros k v Hk. pose proof (lookup_lt_Some _ _ _ Hk).
    rewrite Et, Es, Eu. replace (fn_tail f + 1 + Z.of_nat k) with (fn_tail f + Z.of_nat (S k)) by lia.
    rewrite list_lookup_insert_ne; [by apply (fa_live _ _ _ H (S k))|]. intros E.
    apply fan_mod_inj in E; pose proof (fa_cap _ _ _ H); lia.
  - intros i v. rewrite Eu. intros [(<- & <- & _)|[Hne Hi]]%list_lookup_insert_Some Hv; [done|].
    destruct (fa_dead _ _ _ H i v Hi Hv) as (k & Hk & ->). destruct k as [|k].
    { destruct Hne. f_equal. lia. }
    exists k. split; [cbn in Hk; lia|]. rewrite Es, Et. f_equal. lia.
  - intros v Hv. apply (fa_size _ _ _ H). by right.
  - rewrite Eb, (fa_bytes _ _ _ H), sum_media_cons. lia.
  - rewrite Em. apply H.
Qed.

(** A unit enters behind the newest. *)
Lemma fan_is_push s f f' l u :
  fan_is s f l → Z.of_nat (length l) < fn_capacity f → media_len s u < 2 ^ 48 →
  fn_head f + 1 < 2 ^ 64 →
  fn_units f' = <[fan_slot f (fn_head f) := u]> (fn_units f) →
  fn_capacity f' = fn_capacity f → fn_max_bytes f' = fn_max_bytes f → fn_head f' = fn_head f + 1 →
  fn_tail f' = fn_tail f → fn_bytes f' = fn_bytes f + media_len s u → fan_is s f' (l ++ [u]).
Proof.
  intros H Hroom Hu Hseq Eu Ec Em Eh Et Eb.
  assert (∀ n, fan_slot f' n = fan_slot f n) as Es by (intros; unfold fan_slot; by rewrite Ec).
  pose proof (fa_head _ _ _ H) as Hh. pose proof (fa_cap _ _ _ H). split.
  - by rewrite Ec.
  - rewrite Eu, length_insert. apply H.
  - rewrite length_app. cbn. lia.
  - rewrite Et. apply H.
  - rewrite length_app. cbn. lia.
  - lia.
  - intros k v Hk. rewrite Es, Et, Eu. apply lookup_app_Some in Hk as [Hk|[Hlen Hk]].
    + pose proof (lookup_lt_Some _ _ _ Hk). rewrite list_lookup_insert_ne; [by apply (fa_live _ _ _ H)|].
      intros E. apply fan_mod_inj in E; lia.
    + apply list_lookup_singleton_Some in Hk as [E <-].
      replace (fn_tail f + Z.of_nat k) with (fn_head f) by lia.
      apply list_lookup_insert_eq. by eapply fan_slot_lt.
  - intros i v. rewrite Eu. intros [(<- & <- & _)|[Hne Hi]]%list_lookup_insert_Some Hv.
    + exists (length l). rewrite length_app. split; [cbn; lia|]. rewrite Es, Et. f_equal. lia.
    + destruct (fa_dead _ _ _ H i v Hi Hv) as (k & Hk & ->). exists k. rewrite length_app, Es, Et.
      split; [lia|done].
  - intros v [Hv| ->%list_elem_of_singleton]%elem_of_app; [by apply (fa_size _ _ _ H)|done].
  - rewrite Eb, (fa_bytes _ _ _ H), sum_media_app. unfold sum_media. cbn. lia.
  - rewrite Em. apply H.
Qed.

(** ** The store under the ring *)

Lemma media_stable s s' L L' u :
  owns s L → owns s' L' → evolves s s' → holds u ⊆ L → holds u ⊆ L' → media_len s' u = media_len s u.
Proof.
  intros Ho Ho' Hev Hin Hin'. unfold media_len. unfold holds, owner_rtmp_media in Hin, Hin'.
  destruct (fm_payload u) as [id|]; [|done]. cbn in Hin, Hin'.
  by apply (evolves_held s s' L L'); [..|apply Hin; set_solver|apply Hin'; set_solver].
Qed.
Lemma sum_media_ext s s' l : (∀ u, u ∈ l → media_len s' u = media_len s u) → sum_media s' l = sum_media s l.
Proof.
  induction l as [|u l IH]; intros E; [done|]. rewrite !sum_media_cons, IH, (E u); [done|by left|].
  intros v Hv. apply E. by right.
Qed.
Lemma fan_trim_ext s s' max l :
  (∀ u, u ∈ l → media_len s' u = media_len s u) → fan_trim s' max l = fan_trim s max l.
Proof.
  induction l as [|u l IH]; intros E; [done|]. cbn [fan_trim]. rewrite (sum_media_ext s s' (u :: l) E).
  rewrite IH; [done|]. intros v Hv. apply E. by right.
Qed.
Lemma fan_is_store s s' f l : fan_is s f l → (∀ u, u ∈ l → media_len s' u = media_len s u) → fan_is s' f l.
Proof.
  intros H E. split; try apply H.
  - intros u Hu. rewrite (E u Hu). by apply (fa_size _ _ _ H).
  - rewrite (sum_media_ext s s' l E). apply H.
Qed.
Lemma fan_holds s f l u : fan_is s f l → u ∈ l → holds u ⊆ holds f.
Proof.
  intros H [k Hk]%list_elem_of_lookup_1. apply (holds_elem u (fn_units f)).
  apply (fa_live _ _ _ H) in Hk. by eapply list_elem_of_lookup_2.
Qed.

Lemma wp_fan_release f p L s :
  owns s (holds p ++ L) → len_of s p ≤ fn_bytes f < 2 ^ 64 →
  wp (fan_release f p) (λ f' s', f' = f <| fn_bytes := fn_bytes f - len_of s p |> ∧
    owns s' L ∧ evolves s s') s.
Proof.
  intros Ho Hb. pose proof (len_of_range s _ p Ho). destruct p as [id|]; cbn [fan_release].
  - apply wp_bind. eapply wp_mono; [apply (wp_buf_size (Some id) _ _ Ho); sub_app|].
    intros n s1 [-> ->]. apply wp_bind. eapply wp_mono; [by apply (wp_buf_unref (Some id))|].
    intros _ s1 [Ho1 Hev]. apply wp_ret. split; [|done]. rewrite <- (u64_small (_ - _)) by lia. done.
  - apply wp_ret. split; [|split; [exact Ho|reflexivity]]. cbn. rewrite Z.sub_0_r. by destruct f.
Qed.

Lemma fan_owns_slot s f i u L :
  fn_units f !! i = Some u → owns s (holds f ++ L) →
  owns s (holds (fm_payload u) ++ holds (delete i (fn_units f)) ++ L).
Proof.
  intros Hu Ho. eapply owns_proper; [|exact Ho]. rewrite app_assoc. apply Permutation_app_tail. symmetry.
  exact (holds_delete (fn_units f) i u Hu).
Qed.
Lemma fan_owns_put s f f' i u x L :
  fn_units f !! i = Some u → fn_units f' = <[i := x]> (fn_units f) →
  owns s (holds x ++ holds (delete i (fn_units f)) ++ L) → owns s (holds f' ++ L).
Proof.
  intros Hu E Ho. eapply owns_proper; [|exact Ho]. rewrite app_assoc. apply Permutation_app_tail.
  change (holds f') with (holds (fn_units f')). rewrite E. by apply (holds_insert _ i u).
Qed.

(** ** Evicting *)

(** What the eviction loop keeps between its turns. *)
Definition fan_same (f f' : fanout) : Prop :=
  fn_capacity f' = fn_capacity f ∧ fn_max_bytes f' = fn_max_bytes f ∧ fn_head f' = fn_head f ∧
  fn_converted f' = fn_converted f.

Lemma fan_over_bytes s f l :
  fan_is s f l → fan_over f = match l with [] => false | _ => fn_max_bytes f <? sum_media s l end.
Proof.
  intros H. pose proof (fa_head _ _ _ H). pose proof (fa_room _ _ _ H). pose proof (fa_tail _ _ _ H).
  pose proof (fa_seq _ _ _ H). pose proof (fa_max _ _ _ H). pose proof (fa_cap _ _ _ H).
  unfold fan_over. rewrite u64_small by lia. destruct l as [|u l]; cbn [length] in *.
  - by rewrite (proj2 (Z.ltb_ge _ _)) by lia.
  - rewrite (proj2 (Z.ltb_lt _ _)), (proj2 (Z.ltb_ge (fn_capacity f) _)), (proj2 (Z.eqb_neq _ 0)) by lia.
    cbn. by rewrite (fa_bytes _ _ _ H).
Qed.

Lemma wp_fan_evict n f l L s :
  fan_is s f l → owns s (holds f ++ L) → (length l < n)%nat →
  wp (fanout_evict n f) (λ f' s', fan_is s' f' (fan_trim s (fn_max_bytes f) l) ∧
    owns s' (holds f' ++ L) ∧ evolves s s' ∧ fan_same f f') s.
Proof.
  revert f l s. induction n as [|n IH]; intros f l s H Ho Hn; [lia|]. cbn [fanout_evict].
  rewrite (fan_over_bytes s f l H). destruct l as [|u l].
  { apply wp_ret. by split_and!. }
  cbn [fan_trim]. destruct (Z.ltb_spec (fn_max_bytes f) (sum_media s (u :: l))) as [Hover|Hfit].
  2:{ apply wp_ret. by split_and!. }
  pose proof (fa_cap _ _ _ H). pose proof (fa_tail _ _ _ H). pose proof (fa_head _ _ _ H) as Hh.
  pose proof (fa_seq _ _ _ H). cbn [length] in Hh, Hn.
  pose proof (fa_live _ _ _ H 0 u eq_refl) as Hu. rewrite Z.add_0_r in Hu.
  pose proof (fan_owns_slot _ _ _ _ _ Hu Ho) as Ho1.
  apply wp_bind. eapply wp_read; [by apply fan_index_slot; lia|].
  apply wp_bind. eapply wp_read; [exact Hu|].
  pose proof (fan_bytes_bound _ _ _ _ Ho H) as Hb.
  assert (len_of s (fm_payload u) ≤ fn_bytes f) as Hlb.
  { rewrite (fa_bytes _ _ _ H), sum_media_cons. pose proof (sum_media_bound s _ l Ho) as Hs.
    unfold media_len in *. destruct Hs; [|lia]. intros v Hv. apply (fa_size _ _ _ H). by right. }
  apply wp_bind. eapply wp_mono; [by apply (wp_fan_release f _ _ _ Ho1); lia|].
  intros f1 s1 (-> & Ho2 & Hev). set (f2 := _ <| fn_dropped ::= _ |>).
  assert (fan_is s f2 l) as Hf2.
  { eapply (fan_is_drop s f f2 u l (u <| fm_payload := None |>)); [exact H|done..| |done].
    change (fn_tail f ⊕ 1 = fn_tail f + 1). apply u64_small. lia. }
  assert (owns s1 (holds f2 ++ L)) as Ho3 by (eapply (fan_owns_put s1 f f2); [exact Hu|done|exact Ho2]).
  assert (∀ v, v ∈ l → media_len s1 v = media_len s v) as Hst.
  { intros v Hv. eapply media_stable; [exact Ho|exact Ho3|exact Hev| |].
    - intros i Hi. apply elem_of_app. left. eapply (fan_holds s f (u :: l)); [exact H|by right|exact Hi].
    - intros i Hi. apply elem_of_app. left. by eapply (fan_holds s f2 l). }
  assert (fan_is s1 f2 l) as Hf3 by by apply (fan_is_store s).
  eapply wp_mono; [apply (IH f2 l s1 Hf3 Ho3); lia|]. intros f' s' (H' & Ho' & Hev' & Hsame).
  rewrite (fan_trim_ext s s1) in H' by done. split_and!; [exact H'|done|by etrans|exact Hsame].
Qed.

(** ** Pushing *)

Definition fan_full (f : fanout) (l : list rtmp_media) : bool := fn_capacity f <=? Z.of_nat (length l).
(** What the ring offers the eviction loop: a ring that is full by count writes the new unit
    over the oldest, and the loop then frees that slot - the new unit is the one that is lost. *)
Definition fan_enter (f : fanout) (l : list rtmp_media) (u : rtmp_media) : list rtmp_media :=
  if fan_full f l then tail l ++ [u <| fm_payload := None |>] else l ++ [u].

Lemma fanout_evict_turn s f i u n :
  fan_over f = true → fan_index f (fn_tail f) = Some i → fn_units f !! i = Some u →
  fanout_evict (S n) f s = (f1 ← fan_release f (fm_payload u);
    let f1 := f1 <| fn_units ::= <[i := u <| fm_payload := None |>]> |> in
    fanout_evict n (f1 <| fn_tail ::= λ n, n ⊕ 1 |> <| fn_dropped ::= λ n, n ⊕ 1 |>)) s.
Proof. intros Hov Hi Hu. cbn [fanout_evict]. rewrite Hov, Hi. unfold mbind, SM_bind, sread. cbn. by rewrite Hu. Qed.

Section push.
Context (s : store) (f : fanout) (l : list rtmp_media) (L : list N).
Context (type track ts : Z) (p : N) (kf cfg : bool).
Context (H : fan_is s f l) (Ho : owns s (holds f ++ L)) (Hp : p ∈ L).
Context (Hlen : len_of s (Some p) < 2 ^ 48) (Hseq : fn_head f + 1 < 2 ^ 64).
Let u := mk_media (Some p) type track ts (fn_head f) kf cfg.

(** The slot of the new unit: of a full ring it is the oldest's, else it holds nothing. *)
Lemma push_slot :
  ∃ v, fn_units f !! fan_slot f (fn_head f) = Some v ∧
    (if fan_full f l
     then fan_slot f (fn_tail f) = fan_slot f (fn_head f) ∧ l = v :: tail l
     else fm_payload v = None).
Proof.
  destruct (lookup_lt_is_Some_2 (fn_units f) _ (fan_slot_lt _ _ _ (fn_head f) H)) as [v Hv].
  exists v. split; [done|]. pose proof (fa_cap _ _ _ H). pose proof (fa_head _ _ _ H) as Hh.
  pose proof (fa_room _ _ _ H). unfold fan_full. destruct (Z.leb_spec (fn_capacity f) (Z.of_nat (length l))).
  - assert (fan_slot f (fn_tail f) = fan_slot f (fn_head f)) as E.
    { unfold fan_slot. rewrite Hh. replace (Z.of_nat (length l)) with (1 * fn_capacity f) by lia.
      by rewrite Z_mod_plus_full. }
    split; [done|]. destruct l as [|w l']; [cbn [length] in *; lia|].
    pose proof (fa_live _ _ _ H 0 w eq_refl) as Hw. rewrite Z.add_0_r, E, Hv in Hw. cbn. congruence.
  - destruct (decide (fm_payload v = None)) as [|Hne]; [done|].
    destruct (fa_dead _ _ _ H _ _ Hv Hne) as (k & Hk & E). apply fan_mod_inj in E; lia.
Qed.

Lemma slot_bytes v : fn_units f !! fan_slot f (fn_head f) = Some v →
  (if fan_full f l then l = v :: tail l else fm_payload v = None) →
  0 ≤ media_len s v ≤ fn_bytes f.
Proof.
  intros Hv E. pose proof (fan_bytes_bound _ _ _ _ Ho H). unfold media_len.
  pose proof (len_of_range s _ (fm_payload v) Ho). destruct (fan_full f l); [|rewrite E in *; cbn in *; lia].
  rewrite (fa_bytes _ _ _ H), E, sum_media_cons. unfold media_len.
  destruct (sum_media_bound s _ (tail l) Ho); [|lia]. intros w Hw. apply (fa_size _ _ _ H). rewrite E. by right.
Qed.

(** The ring as the eviction loop finds it. *)
Definition push_state (v : rtmp_media) : fanout :=
  f <| fn_units := <[fan_slot f (fn_head f) := u]> (fn_units f) |>
    <| fn_bytes := fn_bytes f - media_len s v + len_of s (Some p) |>
    <| fn_head := fn_head f + 1 |> <| fn_converted ::= λ c, c ⊕ 1 |>.

Lemma wp_push_state v (Q : rc * fanout → store → Prop) :
  fn_units f !! fan_slot f (fn_head f) = Some v → 0 ≤ media_len s v ≤ fn_bytes f →
  (∀ s1, owns s1 (holds (push_state v) ++ L) → evolves s s1 →
    wp (fanout_evict (S (Z.to_nat (fn_head f + 1 - fn_tail f))) (push_state v))
      (λ f' s', Q (NGX_OK, f') s') s1) →
  wp (fanout_push f type track ts (Some p) kf cfg) Q s.
Proof.
  intros Hv Hb HQ. pose proof (fa_cap _ _ _ H). pose proof (fan_bytes_bound _ _ _ _ Ho H) as Hfb.
  pose proof (fa_head _ _ _ H). pose proof (fa_tail _ _ _ H). pose proof (len_of_range _ _ (Some p) Ho).
  pose proof (fan_owns_slot _ _ _ _ _ Hv Ho) as Ho1. unfold fanout_push.
  apply wp_bind. eapply wp_read; [apply fan_index_slot; lia|].
  apply wp_bind. eapply wp_read; [exact Hv|].
  apply wp_bind. eapply wp_mono; [apply (wp_fan_release f _ _ _ Ho1); unfold media_len in Hb; lia|].
  intros f1 s1 (-> & Ho2 & Hev).
  apply wp_bind. eapply wp_mono; [apply (wp_buf_ref p _ _ Ho2), elem_of_app; by right|].
  intros r s2 (-> & Ho3 & Hev2).
  apply wp_bind. eapply wp_mono; [apply (wp_buf_size (Some p) _ _ Ho3)|].
  { intros i ->%list_elem_of_singleton. by left. }
  intros n s3 [-> ->].
  destruct (evolves_held s s2 _ _ p Ho Ho3) as [-> _];
    [by etrans|apply elem_of_app; by right|by left|].
  apply wp_bind. match goal with |- wp (fanout_evict _ ?g) _ _ => assert (g = push_state v) as -> end.
  { unfold media_len in Hb.
    assert (fn_bytes f - len_of s (fm_payload v) ⊕ len_of s (Some p)
            = fn_bytes f - len_of s (fm_payload v) + len_of s (Some p)) as E1 by (apply u64_small; lia).
    assert (fn_head f ⊕ 1 = fn_head f + 1) as E2 by (apply u64_small; lia).
    unfold push_state, media_len. cbn -[len_of]. by rewrite E1, E2. }
  cbn -[push_state]. 
  eapply wp_mono; [apply (HQ s2)|intros f' s' HQ'; apply wp_ret; exact HQ'].
  - eapply (fan_owns_put s2 f); [exact Hv|done|exact Ho3].
  - by etrans.
Qed.

Definition pushed (l2 : list rtmp_media) (r : rc * fanout) (s' : store) : Prop :=
  r.1 = NGX_OK ∧ fan_is s' r.2 (fan_trim s (fn_max_bytes f) l2) ∧ owns s' (holds r.2 ++ L) ∧
  evolves s s' ∧ fn_capacity r.2 = fn_capacity f ∧ fn_max_bytes r.2 = fn_max_bytes f ∧
  fn_head r.2 = fn_head f + 1.

Lemma wp_push_evict n f2 l2 s2 :
  fan_is s f2 l2 → owns s2 (holds f2 ++ L) → evolves s s2 → (length l2 < n)%nat →
  (∀ w, w ∈ l2 → holds w ⊆ holds f ++ L) → fn_capacity f2 = fn_capacity f →
  fn_max_bytes f2 = fn_max_bytes f → fn_head f2 = fn_head f + 1 →
  wp (fanout_evict n f2) (λ f' s', pushed l2 (NGX_OK, f') s') s2.
Proof.
  intros H2 Ho2 Hev Hn Hin Hc Hm Hh.
  assert (∀ w, w ∈ l2 → media_len s2 w = media_len s w) as Hst.
  { intros w Hw. eapply media_stable; [exact Ho|exact Ho2|exact Hev|by apply Hin|].
    intros i Hi. apply elem_of_app. left. by eapply (fan_holds s f2 l2). }
  eapply wp_mono; [apply (wp_fan_evict n f2 l2 L s2); [by apply (fan_is_store s)|done|done]|].
  intros f' s' (H' & Ho' & Hev' & Hc' & Hm' & Hh' & _). rewrite (fan_trim_ext s s2), Hm in H' by done.
  split_and!; cbn [fst snd]; first [exact H'|exact Ho'|by etrans|congruence|done].
Qed.

Lemma enter_held w : w ∈ fan_enter f l u → holds w ⊆ holds f ++ L.
Proof.
  assert (∀ w, w ∈ l → holds w ⊆ holds f ++ L) as Hl.
  { intros x Hx i Hi. apply elem_of_app. left. by eapply (fan_holds s f l). }
  unfold fan_enter. destruct (fan_full f l); intros [Hw|Hw]%elem_of_app.
  - apply Hl. destruct l; [done|by right].
  - apply list_elem_of_singleton in Hw as ->. by intros i ?%elem_of_nil.
  - by apply Hl.
  - apply list_elem_of_singleton in Hw as ->. intros i ->%list_elem_of_singleton.
    apply elem_of_app. by right.
Qed.

(** The turn of the loop that a ring full by count brings about. *)
Lemma wp_push_full v n s1 :
  fan_full f l = true → l = v :: tail l → fan_slot f (fn_tail f) = fan_slot f (fn_head f) →
  fn_units f !! fan_slot f (fn_head f) = Some v →
  owns s1 (holds (push_state v) ++ L) → evolves s s1 → (length l < n)%nat →
  wp (fanout_evict (S n) (push_state v)) (λ f' s', pushed (fan_enter f l u) (NGX_OK, f') s') s1.
Proof.
  intros Hfull El Esl Hv Ho1 Hev Hn. pose proof (slot_bytes v Hv ltac:(by rewrite Hfull)) as Hb.
  pose proof (fa_head _ _ _ H) as Hh. pose proof (fa_cap _ _ _ H). pose proof (fa_tail _ _ _ H).
  pose proof (fa_room _ _ _ H). pose proof (fan_bytes_bound _ _ _ _ Ho H).
  pose proof (len_of_range _ _ (Some p) Ho). assert (fn_capacity f = Z.of_nat (length l)) as Hc.
  { unfold fan_full in Hfull. apply Z.leb_le in Hfull. lia. }
  assert (fn_units (push_state v) !! fan_slot f (fn_head f) = Some u) as Hu.
  { apply list_lookup_insert_eq. by eapply lookup_lt_Some. }
  assert (owns s1 (holds (Some p) ++ holds (delete (fan_slot f (fn_head f)) (fn_units (push_state v))) ++ L)) as Ho2
    by exact (fan_owns_slot _ _ _ _ _ Hu Ho1).
  destruct (evolves_held s s1 _ _ p Ho Ho1 Hev) as [Hpl _]; [apply elem_of_app; by right..|].
  unfold wp. rewrite (fanout_evict_turn s1 (push_state v) (fan_slot f (fn_head f)) u n).
  2:{ unfold fan_over. cbn. rewrite (u64_small (_ - _)) by lia.
      by rewrite (proj2 (Z.ltb_lt (fn_tail f) _)), (proj2 (Z.ltb_lt (fn_capacity f) _)) by lia. }
  2:{ rewrite <- Esl. apply (fan_index_slot (push_state v)). cbn. lia. }
  2:{ exact Hu. }
  apply wp_bind. eapply wp_mono; [apply (wp_fan_release _ (Some p) _ _ Ho2)|].
  { rewrite Hpl. cbn -[len_of]. lia. }
  intros f1 s2 (-> & Ho3 & Hev2). cbv zeta. set (x := u <| fm_payload := None |>).
  assert (fan_is s (f <| fn_units := <[fan_slot f (fn_tail f) := x]> (fn_units f) |>
      <| fn_bytes := fn_bytes f - media_len s v |> <| fn_tail := fn_tail f + 1 |>) (tail l)) as Hdrop.
  { eapply (fan_is_drop s f _ v (tail l) x); [by rewrite <- El|done..]. }
  replace (fan_enter f l u) with (tail l ++ [x]) by (unfold fan_enter; by rewrite Hfull).
  assert (Z.of_nat (length (tail l)) < fn_capacity f) as Hlt by (rewrite Hc, El; cbn; lia).
  apply wp_push_evict.
  - eapply (fan_is_push s _ _ (tail l) x Hdrop); cbn; try done; try lia.
    + rewrite Esl, !list_insert_insert_eq. done.
    + apply u64_small. lia.
    + change (fn_bytes f - media_len s v + len_of s (Some p) - len_of s1 (Some p) = fn_bytes f - media_len s v + 0). lia.
  - eapply (fan_owns_put s2 (push_state v)); [exact Hu|done|exact Ho3].
  - by etrans.
  - rewrite length_app. cbn. lia.
  - intros w Hw. apply enter_held. unfold fan_enter. by rewrite Hfull.
  - done.
  - done.
  - done.
Qed.

(** What a push does to the ring. *)
Lemma wp_fanout_push : wp (fanout_push f type track ts (Some p) kf cfg) (pushed (fan_enter f l u)) s.
Proof.
  destruct push_slot as (v & Hv & Hcase).
  pose proof (slot_bytes v Hv ltac:(destruct (fan_full f l); tauto)) as Hb.
  pose proof (fa_head _ _ _ H) as Hh. pose proof (fa_tail _ _ _ H).
  pose proof (fa_room _ _ _ H). pose proof (fa_cap _ _ _ H).
  apply (wp_push_state v); [done..|]. intros s1 Ho1 Hev.
  destruct (fan_full f l) eqn:Hfull.
  - destruct Hcase as [Esl El]. apply wp_push_full; try done. lia.
  - assert (fan_enter f l u = l ++ [u]) as E by (unfold fan_enter; by rewrite Hfull).
    apply wp_push_evict; try done.
    + rewrite E. unfold fan_full in Hfull. apply Z.leb_gt in Hfull.
      eapply (fan_is_push s f _ l u H); try done. cbn -[media_len]. unfold media_len. rewrite Hcase. 
      cbn. lia.
    + rewrite E, length_app. cbn. lia.
    + intros w Hw. apply enter_held. done.
Qed.
End push.

(** ** Reading *)

Lemma fanout_next_spec s f l n :
  fan_is s f l →
  fanout_next f n = Some (u ← l !! Z.to_nat (Z.max n (fn_tail f) - fn_tail f);
                          if bool_decide (fm_payload u = None) then None else Some u).
Proof.
  intros H. pose proof (fa_head _ _ _ H) as Hh. pose proof (fa_cap _ _ _ H). unfold fanout_next.
  destruct (Z.leb_spec (fn_head f) (fn_tail f)).
  { rewrite lookup_ge_None_2 by lia. done. }
  replace (if n <? fn_tail f then fn_tail f else n) with (Z.max n (fn_tail f))
    by (destruct (Z.ltb_spec n (fn_tail f)); lia).
  destruct (Z.leb_spec (fn_head f) (Z.max n (fn_tail f))).
  { rewrite lookup_ge_None_2 by lia. done. }
  rewrite fan_index_slot by lia. cbn.
  destruct (lookup_lt_is_Some_2 l (Z.to_nat (Z.max n (fn_tail f) - fn_tail f))) as [u Hu]; [lia|].
  pose proof (fa_live _ _ _ H _ _ Hu) as Hs. rewrite Z2Nat.id in Hs by lia.
  replace (fn_tail f + (Z.max n (fn_tail f) - fn_tail f)) with (Z.max n (fn_tail f)) in Hs by lia.
  by rewrite Hs, Hu.
Qed.

Lemma fan_trim_last s max l u :
  media_len s u ≤ max → ∃ k, fan_trim s max (l ++ [u]) = k ++ [u].
Proof.
  intros Hu. induction l as [|v l IH]; cbn [app fan_trim].
  - exists []. unfold sum_media. cbn. rewrite (proj2 (Z.ltb_ge _ _)) by lia. done.
  - destruct (max <? _); [exact IH|]. by exists (v :: l).
Qed.
Lemma fan_trim_fits s max l : sum_media s l ≤ max → fan_trim s max l = l.
Proof. intros Hl. destruct l; [done|]. cbn [fan_trim]. by rewrite (proj2 (Z.ltb_ge _ _)). Qed.

(** The caller's loop over the messages of a program. *)
Fixpoint fanout_pushes (f : fanout) (ms : list rtmp_media) : M fanout :=
  match ms with
  | [] => mret f
  | m :: ms =>
      r ← fanout_push f (fm_type m) (fm_track m) (fm_timestamp m) (fm_payload m) (fm_keyframe m)
            (fm_config m);
      fanout_pushes r.2 ms
  end.

(** C24: A ring with room delivers. While fewer than [capacity] units are held, a push of a
    payload within the byte limit keeps it and drops the oldest units only as far as the byte
    limit asks; a player that waits at the head then reads exactly the pushed message, with the
    sequence number it waited for, and every reference is accounted for. *)
Theorem fanout_push_delivers s f l L p type track ts kf cfg :
  fan_is s f l → owns s (holds f ++ L) → p ∈ L → len_of s (Some p) < 2 ^ 48 →
  fn_head f + 1 < 2 ^ 64 → Z.of_nat (length l) < fn_capacity f → len_of s (Some p) ≤ fn_max_bytes f →
  let u := mk_media (Some p) type track ts (fn_head f) kf cfg in
  wp (fanout_push f type track ts (Some p) kf cfg) (λ r s', r.1 = NGX_OK ∧
    fan_is s' r.2 (fan_trim s (fn_max_bytes f) (l ++ [u])) ∧ owns s' (holds r.2 ++ L) ∧
    evolves s s' ∧ fanout_next r.2 (fn_head f) = Some (Some u)) s.
Proof.
  intros H Ho Hp Hlen Hseq Hroom Hmax u.
  eapply wp_mono; [by apply (wp_fanout_push s f l L type track ts p kf cfg)|].
  intros [r f'] s' (Hr & H' & Ho' & Hev & _ & _ & Hh). cbn [fst snd] in *. fold u in H'.
  unfold fan_enter, fan_full in H'. rewrite (proj2 (Z.leb_gt _ _)) in H' by done.
  split_and!; try done. rewrite (fanout_next_spec s' f' _ _ H').
  destruct (fan_trim_last s (fn_max_bytes f) l u) as [k E]; [exact Hmax|]. rewrite E in H' |- *.
  pose proof (fa_head _ _ _ H') as Hh'. rewrite length_app in Hh'. cbn in Hh'.
  rewrite Z.max_l by lia. rewrite list_lookup_middle; [done|]. lia.
Qed.

(** The example ring of one slot, before and after its first unit. *)
Definition ex_unit : rtmp_media := mk_media (Some 0%N) 9 0 40 0 true false.
Definition ex_ring : fanout :=
  (fanout_init 1 0) <| fn_units ::= <[0%nat := ex_unit]> |> <| fn_head := 1 |> <| fn_bytes := 100 |>.
Lemma ex_ring_is : fan_is ex_store ex_ring [ex_unit].
Proof.
  eapply (fan_is_push ex_store (fanout_init 1 0) ex_ring [] ex_unit); [apply fan_is_init; lia|..];
    first [done|cbn; lia].
Qed.

Lemma fanout_push_delivers_witness :
  wp (fanout_push (fanout_init 4 0) 9 0 40 (Some 0%N) true false) (λ r s', r.1 = NGX_OK ∧
    fan_is s' r.2 (fan_trim ex_store (16 * 1024 * 1024) [ex_unit]) ∧
    owns s' (holds r.2 ++ [0%N; 0%N]) ∧ evolves ex_store s' ∧
    fanout_next r.2 0 = Some (Some ex_unit)) ex_store.
Proof.
  apply (fanout_push_delivers ex_store (fanout_init 4 0) [] [0%N; 0%N] 0%N 9 0 40 true false).
  - apply fan_is_init. lia.
  - apply ex_store_owns.
  - by left.
  - done.
  - done.
  - done.
  - by apply (bool_decide_unpack _).
Defined.

(** ** A full ring *)

(** Full by count within the byte limit, and nothing readable from [n] on. *)
Record fan_dead (s : store) (f : fanout) (n : Z) (l : list rtmp_media) : Prop := {
  fd_is : fan_is s f l;
  fd_full : fan_full f l = true;
  fd_fits : sum_media s l ≤ fn_max_bytes f;
  fd_lost k u : l !! k = Some u → n ≤ fn_tail f + Z.of_nat k → fm_payload u = None }.

Lemma wp_push_dead s f n l L p type track ts kf cfg :
  fan_dead s f n l → owns s (holds f ++ L) → p ∈ L → len_of s (Some p) < 2 ^ 48 →
  fn_head f + 1 < 2 ^ 64 →
  wp (fanout_push f type track ts (Some p) kf cfg) (λ r s', (∃ l', fan_dead s' r.2 n l') ∧
    owns s' (holds r.2 ++ L) ∧ evolves s s' ∧ fn_head r.2 = fn_head f + 1) s.
Proof.
  intros [H Hfull Hfits Hlost] Ho Hp Hlen Hseq. pose proof (fa_cap _ _ _ H). pose proof (fa_head _ _ _ H) as Hh.
  eapply wp_mono; [by apply (wp_fanout_push s f l L type track ts p kf cfg)|].
  intros [r f'] s' (_ & H' & Ho' & Hev & Hc & Hm & Hh'). cbn [fst snd] in *.
  unfold fan_full in Hfull. apply Z.leb_le in Hfull.
  destruct l as [|w l]; [cbn in Hfull; lia|]. set (u := mk_media _ _ _ _ _ _ _) in H'.
  assert (fan_enter f (w :: l) u = l ++ [u <| fm_payload := None |>]) as E.
  { unfold fan_enter, fan_full. by rewrite (proj2 (Z.leb_le _ _) Hfull). }
  set (l' := l ++ [_]) in E. rewrite E in H'.
  assert (sum_media s l' ≤ fn_max_bytes f) as Hs.
  { unfold l'. rewrite sum_media_app. rewrite sum_media_cons in Hfits. pose proof (len_of_range s _ (fm_payload w) Ho).
    unfold media_len in Hfits. unfold sum_media at 2. cbn. lia. }
  rewrite (fan_trim_fits s _ l' Hs) in H'. assert (length l' = length (w :: l)) as El.
  { unfold l'. rewrite length_app. cbn. lia. }
  split; [|done]. exists l'. split; [exact H'| | |].
  - unfold fan_full. rewrite Hc, El. by apply Z.leb_le.
  - rewrite Hm, (sum_media_ext s s' l'); [done|]. intros v Hv.
    eapply media_stable; [exact Ho|exact Ho'|exact Hev| |].
    + eapply (enter_held s f (w :: l) L type track ts p kf cfg); [done..|]. fold u. by rewrite E.
    + intros i Hi. apply elem_of_app. left. by eapply (fan_holds s' f' l').
  - intros k v Hk Hn. pose proof (fa_head _ _ _ H') as Hh2. unfold l' in Hk.
    apply lookup_app_Some in Hk as [Hk|[_ Hk]].
    + apply (Hlost (S k) v Hk). rewrite El in Hh2. lia.
    + by apply list_elem_of_lookup_2, list_elem_of_singleton in Hk as ->.
Qed.

Lemma wp_pushes_dead ms s f n l L :
  fan_dead s f n l → owns s (holds f ++ L) →
  (∀ m, m ∈ ms → ∃ p, fm_payload m = Some p ∧ p ∈ L ∧ len_of s (Some p) < 2 ^ 48) →
  fn_head f + Z.of_nat (length ms) < 2 ^ 64 →
  wp (fanout_pushes f ms) (λ f' s', (∃ l', fan_dead s' f' n l') ∧ owns s' (holds f' ++ L) ∧
    fn_head f' = fn_head f + Z.of_nat (length ms)) s.
Proof.
  revert s f l. induction ms as [|m ms IH]; intros s f l H Ho Hms Hseq; cbn [fanout_pushes length] in *.
  { apply wp_ret. split; [by exists l|]. split; [done|lia]. }
  destruct (Hms m) as (p & Hp & Hin & Hlen); [by left|]. rewrite Hp.
  apply wp_bind. eapply wp_mono; [apply (wp_push_dead s f n l L p); try done; lia|].
  intros [r f1] s1 ((l1 & H1) & Ho1 & Hev & Hh). cbn [fst snd] in *.
  eapply wp_mono; [apply (IH s1 f1 l1 H1 Ho1)|].
  - intros m' Hm'. destruct (Hms m') as (q & Hq & Hqin & Hql); [by right|]. exists q. split_and!; [done..|].
    destruct (evolves_held s s1 _ _ q Ho Ho1 Hev) as [-> _]; [apply elem_of_app; by right..|done].
  - lia.
  - intros f' s' (Hd & Ho' & Hh'). split_and!; [done..|]. lia.
Qed.

(** A ring that is full by count stays silent. Once [capacity] units are held within the
    byte limit, each push overwrites the oldest unit's slot and the eviction that follows frees
    that very slot: whatever messages are pushed from then on, a player that reads at any
    sequence number from that point on gets nothing, while the pushes all report success and
    the head moves on. *)
Theorem fanout_full_silent ms s f l L :
  fan_is s f l → fan_full f l = true → sum_media s l ≤ fn_max_bytes f → owns s (holds f ++ L) →
  (∀ m, m ∈ ms → ∃ p, fm_payload m = Some p ∧ p ∈ L ∧ len_of s (Some p) < 2 ^ 48) →
  fn_head f + Z.of_nat (length ms) < 2 ^ 64 →
  wp (fanout_pushes f ms) (λ f' s', owns s' (holds f' ++ L) ∧
    fn_head f' = fn_head f + Z.of_nat (length ms) ∧
    ∀ n, fn_head f ≤ n → fanout_next f' n = Some None) s.
Proof.
  intros H Hfull Hfits Ho Hms Hseq. pose proof (fa_head _ _ _ H) as Hh.
  eapply wp_mono; [apply (wp_pushes_dead ms s f (fn_head f) l L); try done|].
  - split; try done. intros k u Hk. apply lookup_lt_Some in Hk. lia.
  - intros f' s' ((l' & [H' _ _ Hl]) & Ho' & Hh'). split_and!; try done. intros n Hn.
    rewrite (fanout_next_spec s' f' l' n H'). destruct (l' !! _) as [u|] eqn:Hu; cbn; [|done].
    rewrite (Hl _ _ Hu) by lia. done.
Qed.

Lemma fanout_full_silent_witness :
  wp (fanout_pushes ex_ring [ex_unit; ex_unit]) (λ f' s', owns s' (holds f' ++ [0%N]) ∧
    fn_head f' = 1 + 2 ∧ ∀ n, 1 ≤ n → fanout_next f' n = Some None) ex_store.
Proof.
  apply (fanout_full_silent [ex_unit; ex_unit] ex_store ex_ring [ex_unit] [0%N] ex_ring_is).
  - done.
  - by apply (bool_decide_unpack _).
  - apply ex_store_owns.
  - intros m Hm. exists 0%N. split; [|split; [by left|done]].
    by apply elem_of_cons in Hm as [-> | ->%list_elem_of_singleton].
  - done.
Defined.

Lemma wp_fanout_destroy s f l L :
  fan_is s f l → owns s (holds f ++ L) →
  wp (fanout_destroy f) (λ f' s', f' = fanout_zero ∧ owns s' L ∧ evolves s s') s.
Proof.
  intros H Ho. unfold fanout_destroy. apply wp_bind.
  assert (holds (drop (Z.to_nat (fn_capacity f)) (fn_units f)) = []) as Hd.
  { destruct (holds (drop _ _)) as [|i ids] eqn:E; [done|].
    assert (i ∈ holds (drop (Z.to_nat (fn_capacity f)) (fn_units f))) as Hi by (rewrite E; by left).
    apply list_elem_of_bind in Hi as (u & Hi & [k Hk]%list_elem_of_lookup_1).
    rewrite lookup_drop in Hk. destruct (fa_dead _ _ _ H _ _ Hk) as (j & Hj & Ej).
    { unfold holds, owner_rtmp_media in Hi. destruct (fm_payload u); [done|]. by apply elem_of_nil in Hi. }
    pose proof (fa_cap _ _ _ H). unfold fan_slot in Ej. pose proof (Z.mod_pos_bound (fn_tail f + Z.of_nat j) (fn_capacity f)). lia. }
  eapply wp_mono; [apply (wp_unref_all _ L)|].
  - eapply owns_proper; [|exact Ho]. apply Permutation_app_tail.
    change (holds f) with (holds (fn_units f)). rewrite <- (take_drop (Z.to_nat (fn_capacity f)) (fn_units f)) at 2.
    rewrite holds_app, Hd, app_nil_r. generalize (take (Z.to_nat (fn_capacity f)) (fn_units f)).
    intros k. induction k as [|v k IH]; [done|]. cbn [fmap list_fmap]. rewrite !holds_cons, IH. done.
  - intros _ s' [Ho' Hev]. by apply wp_ret.
Qed.
