(* ===== verification/RtmpPrepare.v ===== *)
(** * What RTMP players get

    Models the preparation of rtmp/ngx_media_rtmp_adapter.[ch]: the frames of a program are
    turned, once, into the messages of the fanout ring, behind sequence headers made from the
    program's tracks.  An array on the stack is the bytes written to it, and writing past its
    end has no answer.  Scratch memory is a buffer of the store like any other, so that it is
    seen when it leaks. *)
From S2P Require Import Prelude Bytes Store Aac Nal Compat TsDemux RtmpParam RtmpPublisher RtmpFanout.

Definition FRAME_INTER : Z := 2.
Definition RTMP_CODEC_AVC : Z := 7.
Definition SOUND_AAC : Z := 10.
Definition AVC_NALU : Z := 1.

(** The fields the code never uses stay zero. *)
Record prepare := mk_prep {
  pr_fan : fanout; pr_tracks : option trackset; pr_avcc : avcc; pr_have_avcc : bool; pr_asc : asc;
  pr_have_asc : bool; pr_nal_length_size : Z; pr_errors : Z; pr_skipped : Z }.
#[global] Instance eta_prepare : Eta prepare := λ r,
  mk_prep (pr_fan r) (pr_tracks r) (pr_avcc r) (pr_have_avcc r) (pr_asc r) (pr_have_asc r)
    (pr_nal_length_size r) (pr_errors r) (pr_skipped r).
Definition prepare_zero : prepare := mk_prep fanout_zero None avcc_zero false asc_zero false 0 0 0.

Definition prepare_init (units max_bytes : Z) : prepare :=
  prepare_zero <| pr_nal_length_size := 4 |> <| pr_fan := fanout_init units max_bytes |>.
Definition prepare_destroy (p : prepare) : M prepare :=
  _ ← fanout_destroy (pr_fan p); mret prepare_zero.
Definition prep_skip (p : prepare) : prepare := p <| pr_skipped ::= λ n, n ⊕ 1 |>.
Definition prep_error (p : prepare) : prepare := p <| pr_errors ::= λ n, n ⊕ 1 |>.

(** [ngx_alloc] and [ngx_free] of scratch memory. *)
Definition scratch_alloc (size : Z) : M (option N) :=
  p ← ngx_alloc size;
  match p with
  | None => mret None
  | Some id => _ ← put_buf id (mk_buf 1 0 size []); mret (Some id)
  end.
Definition scratch_free (id : N) : M unit := _ ← deref id; free_buf id.

(** ** FLV bodies *)

Definition cts_bytes (cts : Z) : list Z :=
  [u8 (Z.land (Z.shiftr cts 16) 0xFF); u8 (Z.land (Z.shiftr cts 8) 0xFF); u8 (Z.land cts 0xFF)].
Definition flv_frame_type (keyframe : bool) : Z := if keyframe then FRAME_KEYFRAME else FRAME_INTER.
Definition avc_head (keyframe : bool) (cts : Z) : list Z :=
  [u8 (Z.lor (Z.shiftl (flv_frame_type keyframe) 4) RTMP_CODEC_AVC); AVC_NALU] ++ cts_bytes cts.
Definition audio_head (packet : Z) : list Z := [u8 (Z.lor (Z.shiftl SOUND_AAC 4) 0x0F); packet].

(** The body written to [dst], of [capacity] bytes. *)
Definition flv_video (capacity : Z) (keyframe : bool) (composition_time : Z) (data : list Z)
    : option (rc * list Z) :=
  if capacity <? 5 + lenZ data then Some (NGX_ERROR, [])
  else
    out ← dst_put capacity [] (avc_head keyframe (u32 composition_time));
    out ← dst_put capacity out data; Some (NGX_OK, out).
Definition flv_audio (capacity : Z) (aac_sequence : bool) (data : list Z) : option (rc * list Z) :=
  if capacity <? 2 + lenZ data then Some (NGX_ERROR, [])
  else
    out ← dst_put capacity [] (audio_head (if aac_sequence then AAC_SEQUENCE else AAC_RAW));
    out ← dst_put capacity out data; Some (NGX_OK, out).

(** ** Sequence headers *)

(** The parameter sets found first: VPS (for H.265 only), SPS, PPS. *)
Record found := mk_found { fo_vps : option (list Z); fo_sps : option (list Z); fo_pps : option (list Z) }.
#[global] Instance eta_found : Eta found := λ r, mk_found (fo_vps r) (fo_sps r) (fo_pps r).

Definition unset (o : option (list Z)) : bool := bool_decide (o = None).
Definition pick_h265 (f : found) (nal : list Z) : found :=
  if lenZ nal <? 1 then f
  else
    let type := nal_type CODEC_H265 nal in
    if (type =? 32) && unset (fo_vps f) then f <| fo_vps := Some nal |>
    else if (type =? 33) && unset (fo_sps f) then f <| fo_sps := Some nal |>
    else if (type =? 34) && unset (fo_pps f) then f <| fo_pps := Some nal |>
    else f.
Definition pick_h264 (f : found) (nal : list Z) : found :=
  if lenZ nal <? 1 then f
  else
    let type := nal_type CODEC_H264 nal in
    if (type =? 7) && unset (fo_sps f) then f <| fo_sps := Some nal |>
    else if (type =? 8) && unset (fo_pps f) then f <| fo_pps := Some nal |>
    else f.
Definition find_sets (pick : found → list Z → found) (config : list Z) : option found :=
  us ← nal_units (S (length config)) config (nal_iter_init (length config));
  Some (foldl pick (mk_found None None None) us).

(** The body of a video sequence header; [inl] is what is counted instead. *)
Definition hevc_sequence (p : prepare) (config : list Z) : option (prepare + list Z) :=
  f ← find_sets pick_h265 config;
  match fo_vps f, fo_sps f, fo_pps f with
  | Some vps, Some sps, Some pps =>
      if lenZ sps <? 13 then Some (inl (prep_skip p))
      else
        s1 ← sps !! 1%nat; s12 ← sps !! 12%nat;
        '(r, record) ← hvcc_build
          (mk_hvcc 1 (pr_nal_length_size p) (Z.land (Z.shiftr s1 6) 0x03) (Z.land s1 0x1F) s12
             [vps] [sps] [pps]) 512;
        if negb (bool_decide (r = NGX_OK)) then Some (inl (prep_error p))
        else
          body ← dst_put 1024 [] [u8 (Z.lor (Z.lor EX_HEADER_FLAG (Z.shiftl FRAME_KEYFRAME 4)) EX_SEQUENCE_START)];
          body ← dst_put 1024 body fourcc_hvc1;
          body ← dst_put 1024 body record; Some (inr body)
  | _, _, _ => Some (inl (prep_skip p))
  end.
Definition avc_sequence (p : prepare) (config : list Z) : option (prepare + list Z) :=
  f ← find_sets pick_h264 config;
  match fo_sps f, fo_pps f with
  | Some sps, Some pps =>
      if lenZ sps <? 4 then Some (inl (prep_skip p))
      else
        s1 ← sps !! 1%nat; s2 ← sps !! 2%nat; s3 ← sps !! 3%nat;
        '(r, record) ← avcc_build (mk_avcc 1 s1 s2 s3 (pr_nal_length_size p) [sps] [pps]) 512;
        if negb (bool_decide (r = NGX_OK)) then Some (inl (prep_error p))
        else
          body ← dst_put 1024 [] [u8 (Z.lor (Z.shiftl FRAME_KEYFRAME 4) RTMP_CODEC_AVC); AVC_SEQUENCE; 0; 0; 0];
          body ← dst_put 1024 body record; Some (inr body)
  | _, _ => Some (inl (prep_skip p))
  end.
Definition audio_config (config : list Z) : option (list Z) :=
  body ← dst_put 1024 [] (audio_head AAC_SEQUENCE); dst_put 1024 body config.

(** A message in a buffer of its own, pushed into the ring; the ring keeps its reference. *)
Definition push_message (p : prepare) (buf : N) (len type track timestamp : Z) (keyframe config : bool)
    : M (rc * prepare) :=
  _ ← buf_freeze (Some buf) len;
  '(r, fan) ← fanout_push (pr_fan p) type track timestamp (Some buf) keyframe config;
  _ ← buf_unref (Some buf);
  mret (r, p <| pr_fan := fan |>).

Definition prepare_sequence (p : prepare) (media : Z) (tr : track) : M (rc * prepare) :=
  match tr_config tr with
  | None => mret (NGX_OK, p)
  | Some config =>
      n ← buf_size (Some config);
      data ← buf_read config n;
      made ← sread (if media =? TYPE_VIDEO
                    then if tr_codec tr =? CODEC_H265 then hevc_sequence p data else avc_sequence p data
                    else inr <$> audio_config data);
      match made with
      | inl p => mret (NGX_OK, p)
      | inr body =>
          payload ← buf_alloc (lenZ body);
          match payload with
          | None => mret (NGX_ERROR, p)
          | Some buf =>
              _ ← buf_write buf 0 body;
              push_message p buf (lenZ body) (if media =? TYPE_VIDEO then MSG_VIDEO else MSG_AUDIO)
                (tr_media_type tr) 0 true true
          end
      end
  end.

Fixpoint announce_loop (p : prepare) (trs : list track) : M (rc * prepare) :=
  match trs with
  | [] => mret (NGX_OK, p)
  | tr :: trs =>
      '(r, p) ← prepare_sequence p (tr_media_type tr) tr;
      if bool_decide (r = NGX_OK) then announce_loop p trs else mret (NGX_ERROR, p)
  end.
Definition prepare_announce (p : prepare) (tracks : trackset) : M (rc * prepare) :=
  '(r, p) ← announce_loop p (ts_used tracks);
  mret (if bool_decide (r = NGX_OK) then (NGX_OK, p <| pr_tracks := Some tracks |>) else (NGX_ERROR, p)).

(** ** Frames *)

(** The signed difference; overflow has no answer. *)
Definition s64_sub (a b : Z) : option Z := if decide (is_s64 (a - b)) then Some (a - b) else None.

(** The header of a coded frame's body. *)
Definition frame_head (codec : Z) (type : Z) (keyframe : bool) (cts : Z) : list Z :=
  if type =? MSG_VIDEO then
    if codec =? CODEC_H265 then
      [u8 (Z.lor (Z.lor EX_HEADER_FLAG (Z.shiftl (flv_frame_type keyframe) 4)) EX_CODED_FRAMES)]
      ++ fourcc_hvc1 ++ cts_bytes cts
    else avc_head keyframe cts
  else audio_head AAC_RAW.
Definition frame_room (codec type : Z) : Z :=
  if negb (type =? MSG_VIDEO) then 2 else if codec =? CODEC_H265 then 8 else 5.

(** The converted bytes in the scratch memory [conv] become a message. *)
Definition prepare_message (p : prepare) (f : frame) (type timestamp cts : Z) (conv : N) (len : Z)
    : M (rc * prepare) :=
  payload ← buf_alloc (len + frame_room (codec f) type);
  match payload with
  | None => _ ← scratch_free conv; mret (NGX_ERROR, p)
  | Some buf =>
      let head := frame_head (codec f) type (keyframe f) cts in
      _ ← buf_write buf 0 head;
      converted ← buf_read conv len;
      _ ← buf_write buf (lenZ head) converted;
      _ ← scratch_free conv;
      push_message p buf (lenZ head + len) type (track_index f) timestamp (keyframe f) false
  end.

Definition prepare_video (p : prepare) (f : frame) (payload : N) (timestamp : Z) : M (rc * prepare) :=
  len ← buf_size (Some payload);
  let capacity := len + 4 in
  conv ← scratch_alloc capacity;
  match conv with
  | None => mret (NGX_ERROR, p)
  | Some conv =>
      data ← buf_read payload len;
      '(r, converted) ← sread (annexb_payload_to_avcc data (pr_nal_length_size p) capacity);
      if negb (bool_decide (r = NGX_OK)) then _ ← scratch_free conv; mret (NGX_OK, prep_skip p)
      else
        _ ← buf_write conv 0 converted;
        diff ← sread (s64_sub (pts f) (dts f));
        prepare_message p f MSG_VIDEO timestamp (u32 (diff `quot` RTMP_TIMESCALE)) conv (lenZ converted)
  end.

(** [adts_parse] looks into the payload; what it finds there is a header or not. *)
Definition prepare_audio (p : prepare) (f : frame) (payload : N) (timestamp : Z) : M (rc * prepare) :=
  len ← buf_size (Some payload);
  data ← buf_read payload len;
  '(r, adts) ← sread (adts_parse data (mk_adts 0 0 0 0 0));
  let header_len := if bool_decide (r = NGX_OK) then ad_header_len adts else 0 in
  if len <=? header_len then mret (NGX_OK, prep_skip p)
  else
    conv ← scratch_alloc (len - header_len);
    match conv with
    | None => mret (NGX_ERROR, p)
    | Some conv =>
        _ ← buf_write conv 0 (drop (Z.to_nat header_len) data);
        prepare_message p f MSG_AUDIO timestamp 0 conv (len - header_len)
    end.

Definition prepare_frame (p : prepare) (f : frame) : M (rc * prepare) :=
  if negb (media_type f =? TYPE_VIDEO) && negb (media_type f =? TYPE_AUDIO) then mret (NGX_OK, p)
  else
    match payload f with
    | None => mret (NGX_OK, p)
    | Some buf =>
        let timestamp := u32 (dts f `quot` RTMP_TIMESCALE) in
        if media_type f =? TYPE_VIDEO then prepare_video p f buf timestamp
        else prepare_audio p f buf timestamp
    end.

(** ** Memory on its way *)

#[global] Instance owner_prepare : Owner prepare := λ p, holds (pr_fan p).

Lemma wp_scratch_alloc size L s :
  owns s L → 0 ≤ size < 2 ^ 62 →
  wp (scratch_alloc size) (λ p s', owns s' (holds p ++ L) ∧ evolves s s' ∧
    (∀ id, p = Some id → (st_next s ≤ id)%N ∧ st_bufs s' !! id = Some (mk_buf 1 0 size [])) ∧
    (p = None → ¬ no_refusal s)) s.
Proof.
  intros Ho Hc. apply wp_bind. eapply wp_mono; [apply wp_and; [by apply wp_ngx_alloc|apply wp_ngx_alloc_refused; lia]|].
  intros [id|] s1 [(Ho1 & Hev & Hfresh) Href]; [|apply wp_ret; by split_and!].
  destruct (Hfresh id) as (Hsz & Hnone & Hge & Hlt); [done|].
  eexists _, _. split; [done|]. split_and!; [..|done].
  - apply (owns_insert s1 L id (mk_buf 1 0 size [])); cbn; auto; lia.
  - apply evolves_young; [done|lia].
  - intros i [= <-]. split; [done|]. cbn. by rewrite lookup_insert_eq.
Qed.

(** Nothing that was held before [id] was handed out is [id]. *)
Lemma young_fresh s0 L id : owns s0 L → (st_next s0 ≤ id)%N → id ∉ L.
Proof.
  intros Ho Hy Hin. destruct (owns_in _ _ _ Ho Hin) as [b Hb].
  apply (wf_next _ (owns_wf _ _ Ho)) in Hb. lia.
Qed.

Lemma wp_scratch_free id L s :
  owns s (id :: L) → id ∉ L →
  wp (scratch_free id) (λ _ s', owns s' L ∧ evolves s s' ∧ st_bufs s' = delete id (st_bufs s)) s.
Proof.
  intros Ho Hnin. destruct (owns_in _ _ id Ho) as [b Hb]; [by left|].
  assert (b_refs b = 1) as Hr.
  { rewrite (owns_live _ _ Ho _ _ Hb), occ_cons, decide_True by done.
    rewrite occ_pos in Hnin. pose proof (occ_nonneg id L). lia. }
  assert (scratch_free id s = Some (tt, set_bufs (delete id (st_bufs s)) s)) as E.
  { unfold scratch_free, deref, mbind, SM_bind. by rewrite Hb. }
  assert (scratch_free id s = buf_unref (Some id) s) as E'.
  { rewrite E. unfold buf_unref, deref, mbind, SM_bind. by rewrite Hb, Hr. }
  destruct (wp_buf_unref (Some id) L s Ho) as ([] & s' & Hs & Ho' & Hev').
  rewrite <- E', E in Hs. injection Hs as <-. eexists _, _. split; [exact E|]. by split_and!.
Qed.

Lemma carries_evolves s s' L L' id data :
  carries s id data → evolves s s' → owns s L → owns s' L' → id ∈ L' → carries s' id data.
Proof.
  intros (bf & Hb & El & Ed) Hev Ho Ho' Hin. destruct (owns_in _ _ _ Ho' Hin) as [b' Hb'].
  destruct (ev_same _ _ Hev id b' Hb') as (b0 & Hb0 & El' & Ed'); [by eapply wf_next, Hb; apply Ho|].
  rewrite Hb in Hb0. injection Hb0 as <-. exists b'. by rewrite El', Ed'.
Qed.

Lemma fan_is_evolves s s' f l L L' :
  fan_is s f l → evolves s s' → owns s (holds f ++ L) → owns s' (holds f ++ L') → fan_is s' f l.
Proof.
  intros H Hev Ho Ho'. apply (fan_is_store s); [done|]. intros u Hu.
  eapply media_stable; [exact Ho|exact Ho'|exact Hev| |];
    (intros i Hi; apply elem_of_app; left; by eapply (fan_holds s f l)).
Qed.

(** ** Messages sent *)

(** The message [body] went into the ring of [p0]: what the others see of it. *)
Record sent (s0 : store) (p0 : prepare) (l : list rtmp_media) (L : list N) (body : list Z)
    (type track ts : Z) (kf cfg : bool) (p : prepare) (s : store) : Prop := {
  se_prep : p = p0 <| pr_fan := pr_fan p |>;
  se_fan : ∃ l', fan_is s (pr_fan p) l';
  se_owns : owns s (holds p ++ L);
  se_evolves : evolves s0 s;
  se_head : fn_head (pr_fan p) = fn_head (pr_fan p0) + 1;
  se_next : Z.of_nat (length l) < fn_capacity (pr_fan p0) → lenZ body ≤ fn_max_bytes (pr_fan p0) →
    ∃ buf, carries s buf body ∧ fanout_next (pr_fan p) (fn_head (pr_fan p0))
           = Some (Some (mk_media (Some buf) type track ts (fn_head (pr_fan p0)) kf cfg)) }.

Lemma wp_push_message p l buf body cap type track ts kf cfg L (s0 s : store) :
  fan_is s0 (pr_fan p) l → owns s0 (holds p ++ L) → evolves s0 s →
  owns s (holds p ++ buf :: L) → (st_next s0 ≤ buf)%N →
  st_bufs s !! buf = Some (mk_buf 1 0 cap body) → lenZ body ≤ cap →
  lenZ body < 2 ^ 48 → fn_head (pr_fan p) + 1 < 2 ^ 64 →
  wp (push_message p buf (lenZ body) type track ts kf cfg)
    (λ r s', r.1 = NGX_OK ∧ sent s0 p l L body type track ts kf cfg r.2 s') s.
Proof.
  intros H Ho0 Hev Ho Hy Hb Hcap Hlen Hseq. pose proof (lenZ_nonneg body).
  apply wp_bind. eapply wp_buf_freeze; [exact Hb|exact Hcap|]. cbn [b_refs b_cap b_data].
  set (s1 := set_bufs _ s). assert (st_bufs s1 !! buf = Some (mk_buf 1 (lenZ body) cap body)) as Hb1
    by (cbn; apply lookup_insert_eq).
  pose proof (wf_buf _ (owns_wf _ _ Ho) _ _ Hb) as (_ & _ & Hc & _). cbn in Hc.
  assert (owns s1 (holds p ++ buf :: L)) as Ho1.
  { eapply owns_update; [exact Ho|exact Hb|done|done|cbn; lia|cbn; unfold lenZ in *; lia]. }
  assert (evolves s0 s1) as Hev1 by by apply evolves_young.
  assert (fan_is s1 (pr_fan p) l) as H1 by by eapply (fan_is_evolves s0 s1).
  assert (len_of s1 (Some buf) = lenZ body) as Hlb by (cbn [len_of]; by rewrite Hb1).
  assert (carries s1 buf body) as Hca.
  { eexists. split; [exact Hb1|]. split; [done|]. cbn. apply firstn_all. }
  apply wp_bind. eapply wp_mono; [apply (wp_fanout_push s1 (pr_fan p) l (buf :: L) type track ts buf kf cfg H1 Ho1);
    [by left|by rewrite Hlb|done]|].
  intros [r f'] s2 (Hr & H2 & Ho2 & Hev2 & _ & _ & Hh2). cbn [fst snd] in *.
  apply wp_bind. eapply wp_mono; [apply (wp_buf_unref (Some buf) (holds f' ++ L))|].
  { eapply owns_proper; [|exact Ho2]. cbn. solve_Permutation. }
  intros [] s3 [Ho3 Hev3]. apply wp_ret. cbn [fst snd]. split; [done|]. split.
  - done.
  - eexists. eapply (fan_is_evolves s2 s3); [exact H2|exact Hev3|exact Ho2|exact Ho3].
  - exact Ho3.
  - etrans; [exact Hev1|]. by etrans.
  - done.
  - intros Hroom Hmax. exists buf. set (u := mk_media _ _ _ _ _ _ _) in *.
    unfold fan_enter, fan_full in H2. rewrite (proj2 (Z.leb_gt _ _)) in H2 by done.
    destruct (fan_trim_last s1 (fn_max_bytes (pr_fan p)) l u) as [k E].
    { unfold media_len. cbn [u fm_payload]. by rewrite Hlb. }
    rewrite E in H2. split.
    + eapply carries_evolves; [exact Hca|by etrans|exact Ho1|exact Ho3|]. apply elem_of_app. left.
      eapply (fan_holds s2 f' _ u); [exact H2|apply elem_of_app; right; by left|by left].
    + change (pr_fan (p <| pr_fan := f' |>)) with f'.
      rewrite (fanout_next_spec s2 f' _ _ H2). pose proof (fa_head _ _ _ H2) as Hh. rewrite length_app in Hh. cbn in Hh.
      rewrite Z.max_l by lia. rewrite list_lookup_middle; [done|]. lia.
Qed.

(** A payload read by one who holds it. *)
Lemma wp_size_carries id data s :
  carries s id data → wp (buf_size (Some id)) (λ n s', n = lenZ data ∧ s' = s) s.
Proof.
  intros (bf & Hb & El & _). eexists _, _. split; [|done].
  unfold buf_size, deref, mbind, SM_bind, mret, SM_ret. by rewrite Hb, El.
Qed.
Lemma wp_read_carries id data s :
  carries s id data → wp (buf_read id (lenZ data)) (λ d s', d = data ∧ s' = s) s.
Proof.
  intros (bf & Hb & El & Ed). eexists _, _. split; [|done].
  unfold buf_read, deref, mbind, SM_bind, mret, SM_ret. rewrite Hb.
  assert (lenZ data ≤ Z.of_nat (length (b_data bf))) as Hle.
  { apply (f_equal length) in Ed. rewrite length_take in Ed. unfold lenZ. lia. }
  rewrite (proj2 (Z.leb_le _ _)) by done. unfold lenZ. by rewrite Nat2Z.id, Ed.
Qed.

(** ** Builders within their buffer *)

Lemma units_write_any capacity sets out :
  lenZ out ≤ capacity → ∃ o, units_write capacity sets out = Some o ∧
    ∀ out', o = Some out' → lenZ out ≤ lenZ out' ≤ capacity.
Proof.
  intros Hc. rewrite units_write_spec. eexists. split; [done|]. intros out'. pose proof (lenZ_nonneg (units_bytes sets)).
  destruct (Z.leb_spec (lenZ out + lenZ (units_bytes sets)) capacity).
  - intros [= <-]. rewrite lenZ_app. lia.
  - destruct sets; [intros [= <-]; lia|done].
Qed.
Lemma arrays_write_any capacity arrays : ∀ out,
  lenZ out ≤ capacity → ∃ o, arrays_write capacity arrays out = Some o ∧
    ∀ out', o = Some out' → lenZ out' ≤ capacity.
Proof.
  induction arrays as [|[t sets] arrays IH]; intros out Hc; cbn [arrays_write].
  { eexists. split; [done|]. by intros out' [= <-]. }
  destruct (Z.ltb_spec capacity (lenZ out + 3)); [by eexists|]. cbv zeta.
  rewrite dst_put_some by len. cbn [mbind option_bind].
  destruct (units_write_any capacity sets (out ++ [u8 (Z.lor 0x80 t); u8 (Z.land (Z.shiftr (Z.of_nat (length sets)) 8) 0xFF);
    u8 (Z.land (Z.of_nat (length sets)) 0xFF)])) as (o & -> & Ho); [len|].
  cbn [mbind option_bind]. destruct o as [out'|]; [|by eexists]. apply IH. by apply Ho.
Qed.
Lemma hvcc_build_any h cap : 0 ≤ cap → ∃ r out, hvcc_build h cap = Some (r, out) ∧ lenZ out ≤ cap.
Proof.
  intros Hc. unfold hvcc_build. destruct (_ =? 0)%nat; [by eexists _, _|].
  destruct (Z.ltb_spec cap 23); [by eexists _, _|].
  set (head := [1; _] ++ _). assert (lenZ head = 23) as Hh by done.
  rewrite dst_put_some by (change (lenZ []) with 0; lia). cbn [mbind option_bind app].
  destruct (arrays_write_any cap (hvcc_sets h) head) as (o & -> & Ho); [lia|]. cbn [mbind option_bind].
  destruct o as [out|]; eexists _, _; (split; [done|]); [by apply Ho|lia].
Qed.
Lemma avcc_build_any a cap : 0 ≤ cap → ∃ r out, avcc_build a cap = Some (r, out) ∧ lenZ out ≤ cap.
Proof.
  intros Hc. unfold avcc_build. destruct (_ || _); [by eexists _, _|].
  destruct (Z.ltb_spec cap 7); [by eexists _, _|].
  rewrite dst_put_some by len. cbn [mbind option_bind app]. cbv zeta.
  destruct (_ || _); [eexists _, _; split; [done|len]|].
  rewrite dst_put_some by len. cbn [mbind option_bind]. set (out1 := _ ++ _).
  assert (lenZ out1 = 6) as H1 by done.
  destruct (units_write_any cap (ac_sps a) out1) as (o & -> & Ho); [lia|]. cbn [mbind option_bind].
  destruct o as [out2|]; [|eexists _, _; split; [done|lia]].
  specialize (Ho _ eq_refl). destruct (Z.ltb_spec cap (lenZ out2 + 1)); [eexists _, _; split; [done|lia]|].
  rewrite dst_put_some by len. cbn [mbind option_bind].
  destruct (units_write_any cap (ac_pps a) (out2 ++ [u8 (Z.of_nat (length (ac_pps a)))])) as (o & -> & Ho2); [len|].
  cbn [mbind option_bind]. destruct o as [out3|]; eexists _, _; (split; [done|]); [by apply Ho2|len].
Qed.

(** Preparing a message changes a counter or the ring, nothing else. *)
Definition counted (p p' : prepare) : Prop := p' = prep_skip p ∨ p' = prep_error p.
Lemma find_sets_any pick config : ∃ f, find_sets pick config = Some f.
Proof.
  unfold find_sets. destruct (nal_units_spec config (S (length config)) 0) as (us & E & _); [lia|lia|].
  unfold nal_iter_init. rewrite E. by eexists.
Qed.
Lemma hevc_sequence_any p config :
  ∃ r, hevc_sequence p config = Some r ∧ match r with inl p' => counted p p' | inr body => lenZ body ≤ 1024 end.
Proof.
  unfold hevc_sequence. destruct (find_sets_any pick_h265 config) as [[vps sps pps] ->]. cbn [mbind option_bind fo_vps fo_sps fo_pps].
  destruct vps as [vps|]; [|eexists; split; [done|by left]].
  destruct sps as [sps|]; [|eexists; split; [done|by left]].
  destruct pps as [pps|]; [|eexists; split; [done|by left]].
  destruct (Z.ltb_spec (lenZ sps) 13) as [|Hl]; [eexists; split; [done|by left]|]. unfold lenZ in Hl.
  destruct (lookup_some sps 1) as [s1 ->]; [lia|]. destruct (lookup_some sps 12) as [s12 ->]; [lia|]. cbn [mbind option_bind].
  match goal with |- context [hvcc_build ?h 512] => destruct (hvcc_build_any h 512) as (r & record & -> & Hr); [lia|] end.
  cbn [mbind option_bind]. destruct (negb _); [eexists; split; [done|by right]|].
  pose proof (lenZ_nonneg record). change (lenZ fourcc_hvc1) with 4 in *.
  repeat (rewrite dst_put_some by (rewrite ?lenZ_app; change (lenZ fourcc_hvc1) with 4; len); cbn [mbind option_bind]).
  eexists. split; [done|]. cbv beta iota. rewrite !lenZ_app. change (lenZ fourcc_hvc1) with 4. len.
Qed.
Lemma avc_sequence_any p config :
  ∃ r, avc_sequence p config = Some r ∧ match r with inl p' => counted p p' | inr body => lenZ body ≤ 1024 end.
Proof.
  unfold avc_sequence. destruct (find_sets_any pick_h264 config) as [[vps sps pps] ->]. cbn [mbind option_bind fo_vps fo_sps fo_pps].
  destruct sps as [sps|]; [|eexists; split; [done|by left]].
  destruct pps as [pps|]; [|eexists; split; [done|by left]].
  destruct (Z.ltb_spec (lenZ sps) 4) as [|Hl]; [eexists; split; [done|by left]|]. unfold lenZ in Hl.
  destruct (lookup_some sps 1) as [s1 ->]; [lia|]. destruct (lookup_some sps 2) as [s2 ->]; [lia|].
  destruct (lookup_some sps 3) as [s3 ->]; [lia|]. cbn [mbind option_bind].
  match goal with |- context [avcc_build ?h 512] => destruct (avcc_build_any h 512) as (r & record & -> & Hr); [lia|] end.
  cbn [mbind option_bind]. destruct (negb _); [eexists; split; [done|by right]|].
  pose proof (lenZ_nonneg record).
  repeat (rewrite dst_put_some by len; cbn [mbind option_bind]). eexists. split; [done|]. cbv beta iota. len.
Qed.

(** ** Operations *)

(** The allocator refused: the program's state is as it was. *)
Definition refused (s0 : store) (p : prepare) (L : list N) (r : rc * prepare) (s : store) : Prop :=
  r = (NGX_ERROR, p) ∧ owns s (holds p ++ L) ∧ evolves s0 s ∧ ¬ no_refusal s0.

Lemma frame_head_room codec type kf cts : lenZ (frame_head codec type kf cts) = frame_room codec type.
Proof. unfold frame_head, frame_room. destruct (type =? MSG_VIDEO), (codec =? CODEC_H265); done. Qed.

Lemma wp_prepare_message p f type ts cts conv cap cdata l L (s0 s : store) :
  fan_is s0 (pr_fan p) l → owns s0 (holds p ++ L) → evolves s0 s →
  owns s (holds p ++ conv :: L) → (st_next s0 ≤ conv)%N →
  st_bufs s !! conv = Some (mk_buf 1 0 cap cdata) → lenZ cdata < 2 ^ 47 →
  fn_head (pr_fan p) + 1 < 2 ^ 64 →
  wp (prepare_message p f type ts cts conv (lenZ cdata)) (λ r s', refused s0 p L r s' ∨
    r.1 = NGX_OK ∧ sent s0 p l L (frame_head (codec f) type (keyframe f) cts ++ cdata) type
                     (track_index f) ts (keyframe f) false r.2 s') s.
Proof.
  intros H Ho0 Hev Ho Hy Hb Hlen Hseq. pose proof (lenZ_nonneg cdata).
  set (head := frame_head (codec f) type (keyframe f) cts). pose proof (frame_head_room (codec f) type (keyframe f) cts) as Hroom.
  fold head in Hroom. pose proof (lenZ_nonneg head).
  assert (lenZ head ≤ 8) as Hh8 by (rewrite Hroom; unfold frame_room; repeat case_match; lia).
  assert (conv ∉ holds p ++ L) as Hfresh by by eapply young_fresh.
  assert (conv < st_next s)%N as Hold by by eapply wf_next, Hb; apply Ho.
  unfold prepare_message. rewrite <- Hroom. apply wp_bind.
  eapply wp_mono; [apply (wp_buf_alloc_short _ _ _ Ho); lia|]. intros [buf|] s1 (Ho1 & Hev1 & Hbuf & Hshort).
  2:{ assert (¬ no_refusal s0) as Href.
      { intros Hn. pose proof (Hshort eq_refl (no_refusal_evolves _ _ Hev Hn)). lia. }
      apply wp_bind. eapply wp_mono; [apply (wp_scratch_free conv (holds p ++ L)); [|done]|].
      - eapply owns_proper; [|exact Ho1]. cbn. solve_Permutation.
      - intros [] s2 (Ho2 & Hev2 & _). apply wp_ret. left. split_and!; [done|done| |done]. etrans; [exact Hev|]. by etrans. }
  destruct (Hbuf buf eq_refl) as [Hyb Hb1].
  apply wp_bind. eapply wp_mono; [eapply (wp_buf_fill buf 0 head s s1 _ (lenZ cdata + lenZ head) []); [exact Hev1|exact Ho1|exact Hyb|exact Hb1|split; [done|apply lenZ_nonneg]|lia|lia]|].
  intros [] s2 (Hev2 & Ho2 & Hb2). rewrite drop_nil, app_nil_r in Hb2. cbn [Z.to_nat take app] in Hb2.
  assert (∃ b, st_bufs s2 !! conv = Some b ∧ b_data b = cdata) as (b & Hcb & Hcd).
  { destruct (owns_in _ _ conv Ho2) as [b Hcb]; [apply elem_of_app; right; apply elem_of_app; right; by left|].
    destruct (ev_same _ _ Hev2 conv b Hcb Hold) as (b0 & Hb0 & _ & Ed). exists b. split; [done|].
    rewrite Hb in Hb0. by injection Hb0 as <-. }
  apply wp_bind. exists cdata, s2. split.
  { unfold buf_read, deref, mbind, SM_bind, mret, SM_ret. rewrite Hcb, Hcd.
    unfold lenZ. rewrite Z.leb_refl, Nat2Z.id, firstn_all. done. }
  apply wp_bind. eapply wp_mono; [eapply (wp_buf_fill buf (lenZ head) cdata s s2 _ (lenZ cdata + lenZ head) head); [exact Hev2|exact Ho2|exact Hyb|exact Hb2|lia|lia|lia]|].
  intros [] s3 (Hev3 & Ho3 & Hb3). assert (Z.to_nat (lenZ head) = length head) as En by (unfold lenZ; lia).
  rewrite En, firstn_all, drop_ge, app_nil_r in Hb3 by (unfold lenZ; lia).
  apply wp_bind. eapply wp_mono; [apply (wp_scratch_free conv (holds p ++ buf :: L))|].
  { eapply owns_proper; [|exact Ho3]. cbn. solve_Permutation. }
  { intros [Hin|[Hin|Hin]%elem_of_cons]%elem_of_app; [apply Hfresh, elem_of_app; by left|lia|apply Hfresh, elem_of_app; by right]. }
  intros [] s4 (Ho4 & Hev4 & Hs4).
  assert (st_bufs s4 !! buf = Some (mk_buf 1 0 (lenZ cdata + lenZ head) (head ++ cdata))) as Hb4.
  { rewrite Hs4, lookup_delete_ne by lia. rewrite Hb3. done. }
  rewrite <- lenZ_app. eapply wp_mono; [eapply (wp_push_message p l buf (head ++ cdata) _ type (track_index f) ts (keyframe f) false L s0 s4)|].
  - exact H.
  - exact Ho0.
  - etrans; [exact Hev|]. by etrans.
  - exact Ho4.
  - pose proof (ev_next _ _ Hev). lia.
  - exact Hb4.
  - rewrite lenZ_app. lia.
  - rewrite lenZ_app. lia.
  - done.
  - intros r s5 H5. by right.
Qed.

(** A skipped frame. *)
Definition skipped (s0 : store) (p : prepare) (L : list N) (r : rc * prepare) (s : store) : Prop :=
  r = (NGX_OK, prep_skip p) ∧ owns s (holds p ++ L) ∧ evolves s0 s.

(** A video frame: what it is made of decides. *)
Lemma wp_prepare_video p f id data ts l L s :
  fan_is s (pr_fan p) l → owns s (holds p ++ L) → pr_nal_length_size p = 4 → id ∈ L → carries s id data →
  lenZ data < 2 ^ 40 → is_s64 (pts f - dts f) → fn_head (pr_fan p) + 1 < 2 ^ 64 →
  ∃ us, nal_units (S (length data)) data (nal_iter_init (length data)) = Some us ∧
  wp (prepare_video p f id ts) (λ r s', refused s p L r s' ∨
    if bool_decide (us ≠ []) && (lenZ (frames_of 4 us) <=? lenZ data + 4)
    then r.1 = NGX_OK ∧ sent s p l L
           (frame_head (codec f) MSG_VIDEO (keyframe f) (u32 ((pts f - dts f) `quot` RTMP_TIMESCALE)) ++ frames_of 4 us)
           MSG_VIDEO (track_index f) ts (keyframe f) false r.2 s'
    else skipped s p L r s') s.
Proof.
  intros H Ho Hsize Hin Hc Hlen Hs64 Hseq. pose proof (lenZ_nonneg data).
  destruct (annexb_to_avcc_units data 4 (lenZ data + 4)) as (us & Hus & _ & Econv); [lia|lia|].
  exists us. split; [exact Hus|]. change (Z.to_nat 4) with 4%nat in Econv. unfold prepare_video. rewrite Hsize.
  apply wp_bind. eapply wp_mono; [by apply wp_size_carries|]. intros n s1 [-> ->]. cbv zeta.
  apply wp_bind. eapply wp_mono; [apply (wp_scratch_alloc _ _ _ Ho); lia|]. intros [conv|] s1 (Ho1 & Hev1 & Hconv & Href).
  2:{ apply wp_ret. left. split_and!; [done..|by apply Href]. }
  destruct (Hconv conv eq_refl) as [Hy Hb]. cbn in Ho1.
  assert (carries s1 id data) as Hc1.
  { eapply carries_evolves; [exact Hc|exact Hev1|exact Ho|exact Ho1|]. right. apply elem_of_app. by right. }
  apply wp_bind. eapply wp_mono; [by apply wp_read_carries|]. intros d s2 [-> ->].
  apply wp_bind. eapply wp_read; [exact Econv|].
  destruct (bool_decide (us ≠ []) && (lenZ (frames_of 4 us) <=? lenZ data + 4)) eqn:Efit; cbv beta iota.
  - rewrite bool_decide_true by done. cbn [negb]. apply andb_true_iff in Efit as [_ Hle]. apply Z.leb_le in Hle.
    apply wp_bind. eapply wp_mono; [eapply (wp_buf_fill conv 0 (frames_of 4 us) s s1 _ (lenZ data + 4) []);
      [exact Hev1|exact Ho1|exact Hy|exact Hb|done|lia|lia]|].
    intros [] s2 (Hev2 & Ho2 & Hb2). rewrite drop_nil, app_nil_r in Hb2. cbn [Z.to_nat take app] in Hb2.
    apply wp_bind. eapply wp_read; [unfold s64_sub; by rewrite decide_True|].
    eapply wp_mono; [eapply (wp_prepare_message p f MSG_VIDEO ts _ conv _ (frames_of 4 us) l L s s2 H Ho Hev2)|].
    + eapply owns_proper; [|exact Ho2]. solve_Permutation.
    + exact Hy.
    + exact Hb2.
    + lia.
    + done.
    + intros r s3 H3. exact H3.
  - rewrite bool_decide_false by done. cbn [negb]. apply wp_bind.
    eapply wp_mono; [apply (wp_scratch_free conv (holds p ++ L) _ Ho1); by eapply young_fresh|].
    intros [] s2 (Ho2 & Hev2 & _). apply wp_ret. right. split; [done|]. split; [done|]. by etrans.
Qed.

(** An audio frame: its bytes without the header they may start with. *)
Definition adts_strip (data : list Z) : Z :=
  match adts_parse data (mk_adts 0 0 0 0 0) with
  | Some (r, adts) => if bool_decide (r = NGX_OK) then ad_header_len adts else 0
  | None => 0
  end.
Lemma wp_prepare_audio p f id data ts l L s :
  fan_is s (pr_fan p) l → owns s (holds p ++ L) → id ∈ L → carries s id data → bytes data →
  lenZ data < 2 ^ 40 → fn_head (pr_fan p) + 1 < 2 ^ 64 →
  wp (prepare_audio p f id ts) (λ r s', refused s p L r s' ∨
    if lenZ data <=? adts_strip data then skipped s p L r s'
    else r.1 = NGX_OK ∧ sent s p l L
           (frame_head (codec f) MSG_AUDIO (keyframe f) 0 ++ drop (Z.to_nat (adts_strip data)) data)
           MSG_AUDIO (track_index f) ts (keyframe f) false r.2 s') s.
Proof.
  intros H Ho Hin Hc Hbytes Hlen Hseq. pose proof (lenZ_nonneg data). unfold prepare_audio.
  apply wp_bind. eapply wp_mono; [by apply wp_size_carries|]. intros n s1 [-> ->].
  apply wp_bind. eapply wp_mono; [by apply wp_read_carries|]. intros d s1 [-> ->].
  destruct (adts_parse_spec data (mk_adts 0 0 0 0 0) Hbytes) as (r & a & Ea & Hr).
  apply wp_bind. eapply wp_read; [exact Ea|]. cbv beta iota zeta.
  assert (adts_strip data = if bool_decide (r = NGX_OK) then ad_header_len a else 0) as <-
    by (unfold adts_strip; by rewrite Ea).
  assert (0 ≤ adts_strip data) as Hst.
  { unfold adts_strip. rewrite Ea. case_bool_decide as Hok; [|lia]. destruct (Hr Hok) as ([-> | ->] & _); lia. }
  clear r a Ea Hr. destruct (Z.leb_spec (lenZ data) (adts_strip data)).
  { apply wp_ret. right. by split_and!. }
  set (rest := drop _ data). assert (lenZ data - adts_strip data = lenZ rest) as El.
  { unfold rest, lenZ in *. rewrite length_drop. lia. }
  rewrite El. apply wp_bind. eapply wp_mono; [apply (wp_scratch_alloc _ _ _ Ho); lia|].
  intros [conv|] s1 (Ho1 & Hev1 & Hconv & Href); [|apply wp_ret; left; split_and!; [done..|by apply Href]].
  destruct (Hconv conv eq_refl) as [Hy Hb]. cbn in Ho1.
  apply wp_bind. eapply wp_mono; [eapply (wp_buf_fill conv 0 rest s s1 _ (lenZ rest) []);
    [exact Hev1|exact Ho1|exact Hy|exact Hb|done|lia|lia]|].
  intros [] s2 (Hev2 & Ho2 & Hb2). rewrite drop_nil, app_nil_r in Hb2. cbn [Z.to_nat take app] in Hb2.
  eapply wp_mono; [eapply (wp_prepare_message p f MSG_AUDIO ts 0 conv _ rest l L s s2 H Ho Hev2)|].
  - eapply owns_proper; [|exact Ho2]. solve_Permutation.
  - exact Hy.
  - exact Hb2.
  - lia.
  - done.
  - intros r s3 H3. exact H3.
Qed.

(** A sequence header: the configuration is readable, and not longer than the array when it
    is copied as it is. *)
Definition config_ok (L : list N) (s : store) (tr : track) : Prop :=
  ∀ id, tr_config tr = Some id → id ∈ L ∧ ∃ data, carries s id data ∧
    (tr_media_type tr ≠ TYPE_VIDEO → lenZ data ≤ 1022).
Definition counted_only (s0 : store) (p : prepare) (L : list N) (r : rc * prepare) (s : store) : Prop :=
  r.1 = NGX_OK ∧ (r.2 = p ∨ counted p r.2) ∧ owns s (holds p ++ L) ∧ evolves s0 s.
Lemma wp_prepare_sequence p tr l L s :
  fan_is s (pr_fan p) l → owns s (holds p ++ L) → config_ok L s tr → fn_head (pr_fan p) + 1 < 2 ^ 64 →
  wp (prepare_sequence p (tr_media_type tr) tr) (λ r s', refused s p L r s' ∨ counted_only s p L r s' ∨
    ∃ body type, r.1 = NGX_OK ∧ sent s p l L body type (tr_media_type tr) 0 true true r.2 s') s.
Proof.
  intros H Ho Hcfg Hseq. unfold prepare_sequence. destruct (tr_config tr) as [id|] eqn:Eid.
  2:{ apply wp_ret. right. left. split; [done|]. split; [by left|]. by split. }
  destruct (Hcfg id Eid) as (Hin & data & Hc & Hshort). pose proof (lenZ_nonneg data).
  apply wp_bind. eapply wp_mono; [by apply wp_size_carries|]. intros n s1 [-> ->].
  apply wp_bind. eapply wp_mono; [by apply wp_read_carries|]. intros d s1 [-> ->].
  match goal with |- wp (sread ?m ≫= _) _ _ => assert (∃ r, m = Some r ∧
    match r with inl p' => counted p p' | inr body => lenZ body ≤ 1024 end) as (made & Em & Hmade) end.
  { destruct (Z.eqb_spec (tr_media_type tr) TYPE_VIDEO) as [|Hne].
    - destruct (_ =? CODEC_H265); [apply hevc_sequence_any|apply avc_sequence_any].
    - specialize (Hshort Hne). unfold audio_config.
      rewrite dst_put_some by (change (lenZ []) with 0; change (lenZ (audio_head _)) with 2; lia). cbn [mbind option_bind app].
      rewrite dst_put_some by (change (lenZ (audio_head _)) with 2; lia). eexists. split; [done|].
      cbv beta iota. rewrite lenZ_app. change (lenZ (audio_head _)) with 2. lia. }
  apply wp_bind. eapply wp_read; [exact Em|]. destruct made as [p'|body].
  { apply wp_ret. right. left. split; [done|]. split; [by right|]. by split. }
  pose proof (lenZ_nonneg body). apply wp_bind. eapply wp_mono; [by apply (wp_buf_alloc_short _ _ _ Ho)|].
  intros [buf|] s1 (Ho1 & Hev1 & Hbuf & Href).
  2:{ apply wp_ret. left. split_and!; [done..|]. intros Hn. pose proof (Href eq_refl Hn). lia. }
  destruct (Hbuf buf eq_refl) as [Hy Hb].
  apply wp_bind. eapply wp_mono; [eapply (wp_buf_fill buf 0 body s s1 _ (lenZ body) []);
    [exact Hev1|exact Ho1|exact Hy|exact Hb|done|lia|lia]|].
  intros [] s2 (Hev2 & Ho2 & Hb2). rewrite drop_nil, app_nil_r in Hb2. cbn [Z.to_nat take app] in Hb2.
  eapply wp_mono; [eapply (wp_push_message p l buf body _ _ _ 0 true true L s s2 H Ho Hev2)|].
  - eapply owns_proper; [|exact Ho2]. solve_Permutation.
  - exact Hy.
  - exact Hb2.
  - done.
  - lia.
  - done.
  - intros r s3 H3. right. right. eexists _, _. exact H3.
Qed.

(** ** Whole programs *)

Inductive prep_op := PrepFrame (f : frame) | PrepAnnounce (tracks : trackset).
Definition prepare_step (p : prepare) (op : prep_op) : M prepare :=
  '(_, p) ← match op with
            | PrepFrame f => prepare_frame p f
            | PrepAnnounce tracks => prepare_announce p tracks
            end;
  mret p.
Fixpoint prepare_run (p : prepare) (ops : list prep_op) : M prepare :=
  match ops with [] => mret p | op :: ops => p ← prepare_step p op; prepare_run p ops end.

(** What the program hands over: buffers somebody holds, with their bytes. *)
Definition op_ok (L : list N) (s : store) (op : prep_op) : Prop :=
  match op with
  | PrepFrame f => is_s64 (pts f - dts f) ∧
      ∀ id, payload f = Some id → id ∈ L ∧ ∃ data, carries s id data ∧ bytes data ∧ lenZ data < 2 ^ 40
  | PrepAnnounce tracks => Forall (config_ok L s) (ts_used tracks)
  end.
(** The messages an operation can send. *)
Definition op_room (op : prep_op) : Z :=
  match op with PrepFrame _ => 1 | PrepAnnounce tracks => Z.of_nat (length (ts_used tracks)) end.

Record prep_ok (s : store) (p : prepare) (L : list N) : Prop := {
  po_fan : ∃ l, fan_is s (pr_fan p) l;
  po_owns : owns s (holds p ++ L);
  po_size : pr_nal_length_size p = 4 }.
(** An operation that sends at most [n] messages. *)
Definition after (s0 : store) (p0 : prepare) (L : list N) (n : Z) (p : prepare) (s : store) : Prop :=
  prep_ok s p L ∧ evolves s0 s ∧ fn_head (pr_fan p) ≤ fn_head (pr_fan p0) + n.

Lemma after_same s0 p0 p L s n :
  prep_ok s0 p0 L → pr_fan p = pr_fan p0 → pr_nal_length_size p = pr_nal_length_size p0 →
  owns s (holds p0 ++ L) → evolves s0 s → 0 ≤ n → after s0 p0 L n p s.
Proof.
  intros [[l H] Ho0 Hs] Ef En Ho Hev Hn. assert (holds p = holds p0) as Eh by (unfold holds, owner_prepare; by rewrite Ef).
  split; [split|split; [done|rewrite Ef; lia]].
  - exists l. rewrite Ef. by eapply (fan_is_evolves s0 s).
  - by rewrite Eh.
  - congruence.
Qed.
Lemma after_refused s0 p L r s : prep_ok s0 p L → refused s0 p L r s → after s0 p L 1 r.2 s.
Proof. intros Hp (-> & Ho & Hev & _). by apply after_same. Qed.
Lemma after_skipped s0 p L r s : prep_ok s0 p L → skipped s0 p L r s → after s0 p L 1 r.2 s.
Proof. intros Hp (-> & Ho & Hev). by apply after_same. Qed.
Lemma after_counted s0 p L r s : prep_ok s0 p L → counted_only s0 p L r s → after s0 p L 1 r.2 s.
Proof. intros Hp (_ & [-> | [-> | ->]] & Ho & Hev); by apply after_same. Qed.
Lemma after_sent s0 p l L body type track ts kf cfg p' s :
  prep_ok s0 p L → sent s0 p l L body type track ts kf cfg p' s → after s0 p L 1 p' s.
Proof.
  intros [_ _ Hs] [Ep Hf Ho Hev Hh _]. split; [split; [done..|]|split; [done|lia]]. rewrite Ep. exact Hs.
Qed.

Lemma op_ok_evolves L L1 L2 s s' op :
  op_ok L s op → evolves s s' → owns s (L1 ++ L) → owns s' (L2 ++ L) → op_ok L s' op.
Proof.
  intros H Hev Ho Ho'. assert (∀ id data, id ∈ L → carries s id data → carries s' id data) as Hc.
  { intros id data Hin Hca. eapply carries_evolves; [exact Hca|exact Hev|exact Ho|exact Ho'|]. apply elem_of_app. by right. }
  destruct op as [f|tracks]; cbn in *.
  - destruct H as [? H]. split; [done|]. intros id Hid. destruct (H id Hid) as (? & data & ? & ?). split; [done|]. exists data. auto.
  - eapply Forall_impl; [exact H|]. intros tr Htr id Hid. destruct (Htr id Hid) as (? & data & ? & ?). split; [done|]. exists data. auto.
Qed.

Lemma wp_prepare_frame_ok p f L s :
  prep_ok s p L → op_ok L s (PrepFrame f) → fn_head (pr_fan p) + 1 < 2 ^ 64 →
  wp (prepare_frame p f) (λ r s', after s p L 1 r.2 s') s.
Proof.
  intros Hp [Hs64 Hpay] Hseq. pose proof Hp as [[l H] Ho Hsize]. unfold prepare_frame.
  destruct (_ && _); [apply wp_ret; by apply after_same|].
  destruct (payload f) as [id|]; [|apply wp_ret; by apply after_same].
  destruct (Hpay id eq_refl) as (Hin & data & Hc & Hb & Hlen). cbv zeta. destruct (_ =? TYPE_VIDEO).
  - destruct (wp_prepare_video p f id data (u32 (dts f `quot` RTMP_TIMESCALE)) l L s) as (us & _ & Hwp); try done.
    eapply wp_mono; [exact Hwp|]. intros r s' [Hr|Hr]; [by apply after_refused|].
    destruct (_ && _); [|by apply after_skipped]. destruct Hr as [_ Hr]. by eapply after_sent.
  - eapply wp_mono; [by eapply (wp_prepare_audio p f id data _ l L s)|]. intros r s' [Hr|Hr]; [by apply after_refused|].
    destruct (_ <=? _); [by apply after_skipped|]. destruct Hr as [_ Hr]. by eapply after_sent.
Qed.

Lemma wp_announce_loop trs : ∀ p L s,
  prep_ok s p L → Forall (config_ok L s) trs → fn_head (pr_fan p) + Z.of_nat (length trs) < 2 ^ 64 →
  wp (announce_loop p trs) (λ r s', after s p L (Z.of_nat (length trs)) r.2 s') s.
Proof.
  induction trs as [|tr trs IH]; intros p L s Hp Hc Hseq; cbn [announce_loop length] in *.
  { apply wp_ret. apply after_same; try done. apply Hp. }
  apply Forall_cons in Hc as [Htr Hc]. pose proof Hp as [[l H] Ho Hsize].
  apply wp_bind. eapply (wp_mono _ (λ r s', after s p L 1 r.2 s')).
  { eapply wp_mono; [apply (wp_prepare_sequence p tr l L s H Ho Htr); lia|].
    intros r s' [Hr|[Hr|(body & type & _ & Hr)]]; [by apply after_refused|by apply after_counted|by eapply after_sent]. }
  intros [r p1] s1 (Hp1 & Hev1 & Hh1). cbn [snd] in *. case_bool_decide.
  - eapply wp_mono; [apply (IH p1 L s1 Hp1)|].
    + pose proof (op_ok_evolves L (holds p) (holds p1) s s1 (PrepAnnounce (mk_trackset trs (Z.of_nat (length trs)) 0))) as Hop.
      cbn [op_ok] in Hop. unfold ts_used in Hop. cbn [ts_count ts_tracks] in Hop. rewrite Nat2Z.id, firstn_all in Hop.
      eapply Hop; [done|done|exact Ho|apply Hp1].
    + lia.
    + intros r' s2 (Hp2 & Hev2 & Hh2). split; [done|]. split; [by etrans|lia].
  - apply wp_ret. split; [done|]. split; [done|]. cbn. lia.
Qed.

Lemma wp_prepare_step p op L s :
  prep_ok s p L → op_ok L s op → fn_head (pr_fan p) + op_room op < 2 ^ 64 →
  wp (prepare_step p op) (after s p L (op_room op)) s.
Proof.
  intros Hp Hop Hseq. unfold prepare_step. apply wp_bind. destruct op as [f|tracks]; cbn [op_room] in *.
  - eapply wp_mono; [by apply wp_prepare_frame_ok|]. intros [r p'] s' H. by apply wp_ret.
  - unfold prepare_announce. apply wp_bind.
    eapply wp_mono; [by apply (wp_announce_loop (ts_used tracks) p L s)|]. intros [r p'] s' ([Hf Ho Hs] & Hev & Hh).
    apply wp_ret. cbn [snd] in *. case_bool_decide; apply wp_ret; (split; [split; [exact Hf|exact Ho|exact Hs]|by split]).
Qed.

Lemma wp_prepare_run ops : ∀ p L s,
  prep_ok s p L → Forall (op_ok L s) ops → fn_head (pr_fan p) + sumZ (op_room <$> ops) < 2 ^ 64 →
  wp (prepare_run p ops) (λ p' s', prep_ok s' p' L ∧ evolves s s') s.
Proof.
  induction ops as [|op ops IH]; intros p L s Hp Hops Hseq; cbn [prepare_run]; [by apply wp_ret|].
  apply Forall_cons in Hops as [Hop Hops].
  change (sumZ (op_room <$> op :: ops)) with (op_room op + sumZ (op_room <$> ops)) in Hseq.
  assert (0 ≤ sumZ (op_room <$> ops)) as Hnn.
  { apply sumZ_nonneg, Forall_fmap, Forall_forall. intros x _. destruct x; cbn; lia. }
  apply wp_bind. eapply wp_mono; [apply (wp_prepare_step p op L s Hp Hop); lia|].
  intros p1 s1 (Hp1 & Hev1 & Hh1). eapply wp_mono; [apply (IH p1 L s1 Hp1)|].
  - eapply Forall_impl; [exact Hops|]. intros x Hx. eapply op_ok_evolves; [exact Hx|exact Hev1|apply Hp|apply Hp1].
  - lia.
  - intros p2 s2 [Hp2 Hev2]. split; [done|by etrans].
Qed.

(** ** What comes back *)

Lemma cts_value x : 0 ≤ x < 2 ^ 32 →
  Z.lor (Z.lor (Z.shiftl (u8 (Z.land (Z.shiftr x 16) 0xFF)) 16) (Z.shiftl (u8 (Z.land (Z.shiftr x 8) 0xFF)) 8))
    (u8 (Z.land x 0xFF)) = x mod 2 ^ 24.
Proof.
  intros Hx. rewrite !land_ff, !shiftr_div by done.
  rewrite !u8_small by (unfold is_byte; apply Z.mod_pos_bound; done).
  assert (∀ y, 0 ≤ y mod 256 < 256) as Hm by (intros; by apply Z.mod_pos_bound).
  rewrite <- Z.lor_assoc, (lor_shift _ (x mod 256) 8) by (done || apply Hm).
  pose proof (Hm (x / 2 ^ 8)). pose proof (Hm x). rewrite lor_shift by lia.
  change (2 ^ 24) with (256 * (256 * 256)). change (2 ^ 16) with (256 * 256). change (2 ^ 8) with 256.
  Z.to_euclidean_division_equations. lia.
Qed.

(** The composition time survives its 24 bits. *)
Lemma flv_cts_back cts rest : - 2 ^ 23 ≤ cts < 2 ^ 23 → flv_cts (cts_bytes (u32 cts) ++ rest) = Some cts.
Proof.
  intros Hc. unfold cts_bytes. cbn [app flv_cts]. rewrite cts_value by (by apply Z.mod_pos_bound).
  unfold u32. assert (cts mod 2 ^ 32 mod 2 ^ 24 = cts mod 2 ^ 24) as ->.
  { apply Z.mod_mod_divide. by exists 256. }
  set (v := cts mod 2 ^ 24). assert (0 ≤ v < 2 ^ 24) as Hv by by apply Z.mod_pos_bound.
  assert (Z.land v 0x800000 = if Z.testbit v 23 then 2 ^ 23 else 0) as ->.
  { change 0x800000 with (2 ^ 23). apply Z.bits_inj'. intros n Hn. rewrite Z.land_spec, Z.pow2_bits_eqb by done.
    destruct (Z.eqb_spec 23 n) as [<-|Hne]; destruct (Z.testbit v 23); rewrite ?andb_true_r, ?andb_false_r; try done;
      rewrite ?Z.bits_0, ?Z.pow2_bits_eqb by done; try done.
    - by rewrite (proj2 (Z.eqb_neq 23 n)).  }
  assert (Z.testbit v 23 = Z.odd (v / 2 ^ 23)) as -> by (rewrite Z.testbit_odd, Z.shiftr_div_pow2 by done; done).
  destruct (decide (0 ≤ cts)) as [Hnn|Hneg].
  - assert (v = cts) as Ev by (unfold v; apply Z.mod_small; lia). rewrite Ev, Z.div_small by lia. done.
  - assert (v = cts + 2 ^ 24) as Ev.
    { unfold v. rewrite <- (Z.mod_add cts 1), Z.mul_1_l by done. apply Z.mod_small. lia. }
    rewrite Ev.
    assert ((cts + 2 ^ 24) / 2 ^ 23 = 1) as -> by (Z.to_euclidean_division_equations; lia).
    cbn [Z.odd]. rewrite (proj2 (Z.eqb_neq _ 0)) by done. f_equal.
    rewrite Z.lor_comm. change (Z.lnot 0xFFFFFF) with (- 2 ^ 24). rewrite (lor_add (- 2 ^ 24) _ 24) by (done || lia). lia.
Qed.

(** A body sent as H.264 or H.265 is read back as its units, times and kind. *)
Lemma head_type kf : Z.shiftr (u8 (Z.lor (Z.shiftl (flv_frame_type kf) 4) RTMP_CODEC_AVC)) 4 =? FRAME_KEYFRAME = kf.
Proof. by destruct kf. Qed.
Lemma feed_avc cb ts kf cts body Q s :
  - 2 ^ 23 ≤ cts < 2 ^ 23 → pu_have_avcc (ps_pub s) = true →
  wp (publisher_payload cb ts (ac_nal_length_size (pu_avcc (ps_pub s))) body kf cts CODEC_H264 true) Q s →
  wp (publisher_feed cb MSG_VIDEO ts (frame_head CODEC_H264 MSG_VIDEO kf (u32 cts) ++ body)) Q s.
Proof.
  intros Hc Hh HQ. pose proof (flv_cts_back cts body Hc) as Ects. pose proof (head_type kf) as Ek.
  assert (negb (Z.land (u8 (Z.lor (Z.shiftl (flv_frame_type kf) 4) RTMP_CODEC_AVC)) EX_HEADER_FLAG =? 0) = false) as Ex by by destruct kf.
  change (frame_head CODEC_H264 MSG_VIDEO kf (u32 cts) ++ body)
    with (u8 (Z.lor (Z.shiftl (flv_frame_type kf) 4) RTMP_CODEC_AVC) :: AVC_NALU :: cts_bytes (u32 cts) ++ body).
  set (b0 := u8 _) in *. unfold publisher_feed. change (MSG_VIDEO =? MSG_VIDEO) with true. cbv iota. unfold publisher_video.
  rewrite (proj2 (Z.ltb_ge _ _)).
  2:{ pose proof (lenZ_nonneg body). rewrite !lenZ_cons, lenZ_app. change (lenZ (cts_bytes _)) with 3. lia. }
  apply wp_bind. eapply wp_read; [done|]. rewrite Ex.
  apply wp_bind. eapply wp_read; [done|]. apply wp_bind. eapply wp_read; [exact Ects|].
  apply wp_bind, wp_pub_get. unfold id. rewrite Hh. cbn [negb]. rewrite Ek. exact HQ.
Qed.
Lemma feed_hevc cb ts kf cts body Q s :
  - 2 ^ 23 ≤ cts < 2 ^ 23 → pu_have_hvcc (ps_pub s) = true →
  wp (publisher_payload cb ts (hc_nal_length_size (pu_hvcc (ps_pub s))) body kf cts CODEC_H265 false) Q s →
  wp (publisher_feed cb MSG_VIDEO ts (frame_head CODEC_H265 MSG_VIDEO kf (u32 cts) ++ body)) Q s.
Proof.
  intros Hc Hh HQ. pose proof (flv_cts_back cts body Hc) as Ects.
  set (b0 := u8 (Z.lor (Z.lor EX_HEADER_FLAG (Z.shiftl (flv_frame_type kf) 4)) EX_CODED_FRAMES)).
  assert (negb (Z.land b0 EX_HEADER_FLAG =? 0) = true ∧ Z.land b0 0x0F = EX_CODED_FRAMES ∧
    (Z.land (Z.shiftr b0 4) FRAME_MASK =? FRAME_KEYFRAME) = kf) as (Ex & Ep & Ek) by by destruct kf.
  change (frame_head CODEC_H265 MSG_VIDEO kf (u32 cts) ++ body)
    with (b0 :: 104 :: 118 :: 99 :: 49 :: cts_bytes (u32 cts) ++ body). clearbody b0.
  assert (lenZ (cts_bytes (u32 cts) ++ body) = 3 + lenZ body) as El by (rewrite lenZ_app; done).
  pose proof (lenZ_nonneg body). set (rest := cts_bytes (u32 cts) ++ body) in *.
  unfold publisher_feed. change (MSG_VIDEO =? MSG_VIDEO) with true. cbv iota. unfold publisher_video.
  rewrite (proj2 (Z.ltb_ge _ _)) by (rewrite !lenZ_cons; lia).
  apply wp_bind. eapply wp_read; [done|]. rewrite Ex. unfold publisher_video_ex.
  rewrite (proj2 (Z.ltb_ge _ _)) by (rewrite !lenZ_cons; lia).
  apply wp_bind. eapply wp_read; [done|]. cbv zeta. rewrite Ep.
  change (EX_CODED_FRAMES =? EX_SEQUENCE_END) with false. change (EX_CODED_FRAMES =? EX_METADATA) with false. cbv iota.
  apply wp_bind. eapply wp_read; [done|]. change (bool_decide ([104; 118; 99; 49] = fourcc_hvc1)) with true. cbv iota.
  change (EX_CODED_FRAMES =? EX_SEQUENCE_START) with false. cbv iota.
  change (drop 5 (b0 :: 104 :: 118 :: 99 :: 49 :: rest)) with rest. unfold ex_coded_frames. apply wp_bind, wp_pub_get. unfold id. change (CODEC_H265 =? CODEC_H265) with true. cbv iota.
  rewrite Hh. cbn [negb]. change (EX_CODED_FRAMES =? EX_CODED_FRAMES) with true. cbv iota.
  rewrite (proj2 (Z.ltb_ge _ _)) by lia. apply wp_bind. eapply wp_read; [exact Ects|]. rewrite Ek. exact HQ.
Qed.

(** Frames determine their units. *)
Lemma frames_inj size us us' :
  Forall (unit_ok size) us → Forall (unit_ok size) us' → frames_of size us = frames_of size us' →
  (1 ≤ size)%nat → us = us'.
Proof.
  revert us'. induction us as [|u us IH]; intros us' Hu Hu' E Hs.
  - destruct us' as [|u' us']; [done|]. apply (f_equal length) in E. rewrite frames_cons, length_app, nal_prefix_length in E.
    change (length (frames_of size [])) with 0%nat in E. lia.
  - apply Forall_cons in Hu as [[_ Hl] Hu]. destruct us' as [|u' us'].
    { apply (f_equal length) in E. rewrite frames_cons, length_app, nal_prefix_length in E.
      change (length (frames_of size [])) with 0%nat in E. lia. }
    apply Forall_cons in Hu' as [[_ Hl'] Hu']. rewrite !frames_cons in E.
    apply app_inj_1 in E as [Ep E]; [|by rewrite !nal_prefix_length].
    apply (f_equal be_value) in Ep. rewrite !be_value_nal in Ep by (split; [apply lenZ_nonneg|done]).
    apply app_inj_1 in E as [-> E]; [|unfold lenZ in Ep; lia]. f_equal. by apply IH.
Qed.
Lemma bytes_prefix k v : bytes (nal_prefix k v).
Proof.
  induction k as [|k IH]; [by constructor|]. rewrite nal_prefix_S. constructor; [by apply Z.mod_pos_bound|exact IH].
Qed.
Lemma bytes_frames size us : Forall bytes us → bytes (frames_of size us).
Proof.
  induction us as [|u us IH]; intros Hu; [by constructor|]. apply Forall_cons in Hu as [Hb Hu].
  rewrite frames_cons. apply Forall_app. split; [apply bytes_prefix|]. apply Forall_app. by split; [|apply IH].
Qed.

(** ** Relaying *)

(** What the publisher side of a relay knows of the codec. *)
Definition configured (p : publisher) (codec : Z) : Prop :=
  codec = CODEC_H264 ∧ pu_have_avcc p = true ∧ ac_nal_length_size (pu_avcc p) = 4 ∨
  codec = CODEC_H265 ∧ pu_have_hvcc p = true ∧ hc_nal_length_size (pu_hvcc p) = 4.

Lemma wp_fed cb ts kf cts codec us L s0 s :
  keeps L s0 s → configured (ps_pub s) codec → - 2 ^ 23 ≤ cts < 2 ^ 23 → us ≠ [] →
  Forall (λ u, unit_ok 4 u ∧ bytes u) us → lenZ (frames_of 4 us) < 2 ^ 41 →
  lenZ (prefix_of (ps_pub s) (ps_store s) (codec =? CODEC_H264) kf codec us) < 2 ^ 41 →
  wp (publisher_feed cb MSG_VIDEO ts (frame_head codec MSG_VIDEO kf (u32 cts) ++ frames_of 4 us))
    (λ r s', keeps L s0 s' ∧
      (r = NGX_ERROR ∧ ps_calls s' = ps_calls s ∧ ¬ no_refusal (ps_store s) ∨ ∃ b, r = NGX_OK ∧
        ps_calls s' = ps_calls s ++ emitted cb b
          (media_frame TYPE_VIDEO codec PAYLOAD_ANNEXB (pu_video_track (ps_pub s))
             ((ts + cts) * RTMP_TIMESCALE) (ts * RTMP_TIMESCALE) kf)
          (prefix_of (ps_pub s) (ps_store s) (codec =? CODEC_H264) kf codec us ++ started us))) s.
Proof.
  intros Hk Hcfg Hc Hne Hus Hlen Hsets.
  assert (Forall (unit_ok 4) us) as Huok by (eapply Forall_impl; [exact Hus|]; by intros ? [? _]).
  assert (bytes (frames_of 4 us)) as Hb by (apply bytes_frames; eapply Forall_impl; [exact Hus|]; by intros ? [_ ?]).
  assert (framed 4 (frames_of 4 us) us) as Hf by by split_and!.
  assert (Z.of_nat (length us) ≤ lenZ (frames_of 4 us)) as Hcount.
  { clear. induction us as [|u us IH]; [done|]. rewrite frames_cons, !lenZ_app. cbn [length]. pose proof (lenZ_nonneg u).
    assert (lenZ (nal_prefix 4 (lenZ u)) = 4) by (unfold lenZ at 1; by rewrite nal_prefix_length). lia. }
  assert (∀ pre f calls r s', lenZ (pre us) < 2 ^ 41 → payload_post cb 4 (frames_of 4 us) f pre calls (ps_store s) r s' →
    r = NGX_ERROR ∧ ps_calls s' = calls ∧ ¬ no_refusal (ps_store s) ∨ ∃ b, r = NGX_OK ∧ ps_calls s' = calls ++ emitted cb b f (pre us ++ started us)) as Hpost.
  { intros pre f calls r s' Hp [[Hcalls Hno]|(us' & b & (_ & Hus' & E) & -> & Hcalls)].
    - left. destruct (Hno us Hf) as [-> Hshort]. split_and!; [done..|]. intros Hn. apply Hshort in Hn. lia.
    - right. exists b. split; [done|]. apply frames_inj in E as <-; [done|done|done|]. change (Z.to_nat 4) with 4%nat. lia. }
  assert (size_ok 4) as Hs by (unfold size_ok; lia).
  destruct Hcfg as [(-> & Hh & Hl)|(-> & Hh & Hl)].
  - apply feed_avc; [done|done|]. rewrite Hl. eapply wp_mono; [by eapply wp_payload|]. intros r s' [Hk' Hp]. split; [done|].
    by apply Hpost in Hp; [|exact Hsets].
  - apply feed_hevc; [done|done|]. rewrite Hl. eapply wp_mono; [by eapply wp_payload|]. intros r s' [Hk' Hp]. split; [done|].
    by apply Hpost in Hp; [|exact Hsets].
Qed.

(** C21: Preparing a program for RTMP players is safe: from a fresh preparation of any
    capacity and byte limit, over any frames and announcements whose buffers are held - audio
    configurations not longer than the stack array they are copied to - with any refusals of
    the allocator, every access stays in bounds, scratch memory is given back on every path,
    no program payload is written, and the references held are exactly those of the ring, so
    that destroying the preparation gives back every message. *)
Theorem prepare_any_frames units max_bytes ops L s :
  owns s L → 0 ≤ max_bytes < 2 ^ 64 → Forall (op_ok L s) ops → sumZ (op_room <$> ops) < 2 ^ 64 →
  wp (prepare_run (prepare_init units max_bytes) ops) (λ p s1, owns s1 (holds p ++ L) ∧ evolves s s1 ∧
    wp (prepare_destroy p) (λ p2 s2, p2 = prepare_zero ∧ owns s2 L ∧ evolves s s2) s1) s.
Proof.
  intros Ho Hm Hops Hseq.
  eapply wp_mono; [apply (wp_prepare_run ops (prepare_init units max_bytes) L s); [|done|exact Hseq]|].
  { split; [exists []; by apply fan_is_init|exact Ho|done]. }
  intros p s1 [[[l H] Ho1 _] Hev]. split; [done|]. split; [done|]. apply wp_bind.
  eapply wp_mono; [by apply (wp_fanout_destroy s1 (pr_fan p) l L)|]. intros f s2 (_ & Ho2 & Hev2).
  apply wp_ret. split_and!; [done..|by etrans].
Qed.

(** One payload, held twice: a keyframe's slice in Annex B form. *)
Definition ex_slice : list (bool * list Z) := [(true, [101; 136; 4])].
Definition ex_relay : store :=
  mk_store {[ 0%N := mk_buf 2 7 7 [0; 0; 0; 1; 101; 136; 4] ]} 1 (λ _ _, true).
Definition ex_key : frame := mk_frame TYPE_VIDEO CODEC_H264 PAYLOAD_ANNEXB 0 3690 3600 true false (Some 0%N).
Lemma ex_relay_owns : owns ex_relay [0%N; 0%N].
Proof.
  split; [split|..]; cbn.
  - intros id b [<- _]%lookup_singleton_Some. lia.
  - intros id b [_ <-]%lookup_singleton_Some. cbn. lia.
  - intros id b [<- <-]%lookup_singleton_Some. done.
  - intros id Hid%lookup_singleton_None. set_solver.
Qed.
Lemma ex_relay_carries : carries ex_relay 0 (annexb ex_slice).
Proof. by eexists. Qed.

Lemma prepare_any_frames_witness :
  wp (prepare_run (prepare_init 2048 0) [PrepFrame ex_key; PrepFrame ex_key]) (λ p s1,
    owns s1 (holds p ++ [0%N; 0%N]) ∧ evolves ex_relay s1 ∧
    wp (prepare_destroy p) (λ p2 s2, p2 = prepare_zero ∧ owns s2 [0%N; 0%N] ∧ evolves ex_relay s2) s1) ex_relay.
Proof.
  assert (op_ok [0%N; 0%N] ex_relay (PrepFrame ex_key)) as Hop.
  { split; [by apply (bool_decide_unpack _)|]. intros id [= <-]. split; [by left|].
    exists (annexb ex_slice). split; [apply ex_relay_carries|]. split; [by apply (bool_decide_unpack _)|done]. }
  apply (prepare_any_frames 2048 0 [PrepFrame ex_key; PrepFrame ex_key] [0%N; 0%N] ex_relay).
  - apply ex_relay_owns.
  - lia.
  - apply Forall_cons. split; [exact Hop|]. by apply Forall_singleton.
  - done.
Defined.

(** A video frame that a relay carries whole: NAL units in Annex B form, of which at most four
    stand behind a start code of three bytes, as their length takes four and the room reserved
    is four bytes more than the payload; and times RTMP can express. *)
Record relayed (s : store) (L : list N) (f : frame) (id : N) (units : list (bool * list Z)) : Prop := {
  rl_media : media_type f = TYPE_VIDEO;
  rl_payload : payload f = Some id;
  rl_held : id ∈ L;
  rl_data : carries s id (annexb units);
  rl_units : units ≠ [];
  rl_clean : Forall (λ u, clean u.2 ∧ bytes u.2 ∧ lenZ u.2 < 2 ^ 32) units;
  rl_len : lenZ (annexb units) < 2 ^ 40;
  rl_short : (length (filter (λ u, u.1 = false) units) ≤ 4)%nat;
  rl_dts : 0 ≤ dts f < 90 * 2 ^ 32;
  rl_cts : - 2 ^ 23 ≤ (pts f - dts f) `quot` RTMP_TIMESCALE < 2 ^ 23 }.

Lemma frames_annexb (units : list (bool * list Z)) :
  lenZ (frames_of 4 units.*2) = lenZ (annexb units) + Z.of_nat (length (filter (λ u, u.1 = false) units)).
Proof.
  induction units as [|[long n] units IH]; [done|]. cbn [fmap list_fmap snd]. rewrite frames_cons, annexb_cons, !lenZ_app, IH.
  unfold lenZ at 1. rewrite nal_prefix_length, filter_cons. destruct long; cbn [fst]; [rewrite decide_False by done; change (lenZ (start_code true)) with 4|rewrite decide_True by done; change (lenZ (start_code false)) with 3; cbn [length]]; lia.
Qed.
Lemma units_ok (units : list (bool * list Z)) :
  Forall (λ u, clean u.2 ∧ bytes u.2 ∧ lenZ u.2 < 2 ^ 32) units →
  Forall (λ u, unit_ok 4 u ∧ bytes u) units.*2.
Proof.
  intros H. apply Forall_fmap. eapply Forall_impl; [exact H|]. intros u ((? & _) & ? & ?). by split.
Qed.

(** What the relay's first half leaves in the ring. *)
Lemma wp_relay_prepare p f id units l L s :
  fan_is s (pr_fan p) l → owns s (holds p ++ L) → pr_nal_length_size p = 4 → relayed s L f id units →
  fn_head (pr_fan p) + 1 < 2 ^ 64 →
  let ts := dts f / RTMP_TIMESCALE in
  let cts := (pts f - dts f) `quot` RTMP_TIMESCALE in
  wp (prepare_frame p f) (λ r s', refused s p L r s' ∨
    r.1 = NGX_OK ∧ sent s p l L (frame_head (codec f) MSG_VIDEO (keyframe f) (u32 cts) ++ frames_of 4 units.*2)
                     MSG_VIDEO (track_index f) ts (keyframe f) false r.2 s') s.
Proof.
  intros H Ho Hsize [Hm Hp Hin Hc Hne Hcl Hlen Hshort Hd Hcts] Hseq ts cts.
  assert (lenZ (frames_of 4 units.*2) ≤ lenZ (annexb units) + 4) as Hfit by (rewrite frames_annexb; lia).
  assert (u32 (dts f `quot` RTMP_TIMESCALE) = ts) as Ets.
  { unfold u32, ts. rewrite Z.quot_div_nonneg by (unfold RTMP_TIMESCALE; lia). apply Z.mod_small.
    unfold RTMP_TIMESCALE. Z.to_euclidean_division_equations. lia. }
  assert (is_s64 (pts f - dts f)) as Hs64.
  { unfold is_s64, RTMP_TIMESCALE in *. Z.to_euclidean_division_equations. lia. }
  destruct (wp_prepare_video p f id (annexb units) ts l L s) as (us & Hus & Hwp); try done.
  assert (us = units.*2) as ->.
  { unfold nal_iter_init in Hus. rewrite (nal_units_annexb (annexb units) _ 0 units) in Hus; [by injection Hus as <-|done| | |lia].
    - eapply Forall_impl; [exact Hcl|]. by intros ? [? _].
    - clear. induction units as [|[long n] units IH]; [cbn; lia|].
      rewrite annexb_cons, !length_app. destruct long; cbn [length start_code] in *; lia. }
  unfold prepare_frame. rewrite Hm, Hp. change (negb (TYPE_VIDEO =? TYPE_VIDEO) && _) with false. cbv iota zeta.
  change (TYPE_VIDEO =? TYPE_VIDEO) with true. cbv iota. rewrite Ets.
  eapply wp_mono; [exact Hwp|]. intros r s' [Hr|Hr]; [by left|].
  rewrite bool_decide_true, (proj2 (Z.leb_le _ _)) in Hr by (done || by destruct units). by right.
Qed.


Definition ex_player : pstate :=
  mk_pstate (publisher_zero <| pu_avcc := ex_avcc |> <| pu_have_avcc := true |>) [] ex_relay.

(** ** Where the code does not hold up *)

(** An audio configuration of more than 1022 bytes is copied past the end of the array. *)
Lemma long_audio_config_overflows p tr id data s :
  tr_config tr = Some id → tr_media_type tr ≠ TYPE_VIDEO → carries s id data → 1022 < lenZ data →
  ¬ wp (prepare_sequence p (tr_media_type tr) tr) (λ _ _, True) s.
Proof.
  intros Et Hm Hc Hl (r & s' & Hrun & _). unfold prepare_sequence in Hrun. rewrite Et in Hrun.
  destruct (wp_size_carries _ _ _ Hc) as (n & s1 & E1 & -> & ->).
  destruct (wp_read_carries _ _ _ Hc) as (d & s1 & E2 & -> & ->).
  unfold mbind, SM_bind in Hrun. rewrite E1, E2, (proj2 (Z.eqb_neq _ _) Hm) in Hrun.
  assert (audio_config data = None) as Ea.
  { unfold audio_config. rewrite dst_put_some by (change (lenZ []) with 0; change (lenZ (audio_head _)) with 2; lia).
    cbn [mbind option_bind app]. unfold dst_put. change (lenZ (audio_head _)) with 2. by rewrite (proj2 (Z.leb_gt _ _)) by lia. }
  unfold sread in Hrun. by rewrite Ea in Hrun.
Qed.

(** Behind three-byte start codes, five units do not fit the room reserved for their lengths. *)
Lemma short_codes_do_not_fit :
  let data := annexb (replicate 5 (false, [101])) in
  annexb_payload_to_avcc data 4 (lenZ data + 4) = Some (NGX_ERROR, []).
Proof. reflexivity. Qed.
