(* ===== verification/SrtStreamId.v ===== *)
(** * SRT stream ids

    Models srt/ngx_media_srt_streamid.[ch]: the access-control string an SRT caller sends
    names the stream it wants.  The parser works with pointers into its own copy of the
    string; it is proved equal to a reference that splits lists. *)
From S2P Require Import Prelude Bytes.

Definition STREAMID_MAX : Z := 512.
Definition STREAMID_NAME_MAX : Z := 128.
Definition MODE_UNKNOWN : Z := 0.
Definition MODE_PUBLISH : Z := 1.
Definition MODE_REQUEST : Z := 2.

(** An [ngx_str_t] that points into [storage]: offset and length. *)
Record slice := mk_slice { sl_off : nat; sl_len : nat }.
Definition slice_null : slice := mk_slice 0 0.

Record streamid := mk_sid {
  id_storage : list Z; id_raw : slice; id_resource : slice; id_mode : slice; id_source : slice;
  id_application : slice; id_stream : slice; id_mode_kind : Z; id_pairs : Z }.
#[global] Instance eta_streamid : Eta streamid := λ r,
  mk_sid (id_storage r) (id_raw r) (id_resource r) (id_mode r) (id_source r)
    (id_application r) (id_stream r) (id_mode_kind r) (id_pairs r).
(** [storage] holds what was copied into it; the rest of the array is zero. *)
Definition streamid_init : streamid :=
  mk_sid [] slice_null slice_null slice_null slice_null slice_null slice_null 0 0.

Definition name_char (allow_slash : bool) (c : Z) : bool :=
  (97 <=? c) && (c <=? 122) || (65 <=? c) && (c <=? 90) || (48 <=? c) && (c <=? 57)
  || (c =? 45) || (c =? 95) || (c =? 46) || allow_slash && (c =? 47).
Definition srt_name_ok (d : list Z) (s : slice) (allow_slash : bool) : option bool :=
  if (sl_len s =? 0)%nat || (STREAMID_NAME_MAX <? Z.of_nat (sl_len s)) then Some false
  else p ← bytes_at d (sl_off s) (sl_len s); Some (forallb (name_char allow_slash) p).

(** [memchr] of [c] from [p] up to [e]: the position of the first. *)
Definition memchr (d : list Z) (p e : nat) (c : Z) : option (option nat) :=
  b ← bytes_at d p (e - p);
  Some (match list_find (λ x, x = c) b with Some (i, _) => Some (p + i)%nat | None => None end).

(** One key of one letter; [None] is a duplicate. *)
Definition set_key (key : Z) (val : slice) (id : streamid) : option streamid :=
  if key =? 114 then
    if negb (sl_len (id_resource id) =? 0)%nat then None else Some (id <| id_resource := val |>)
  else if key =? 109 then
    if negb (sl_len (id_mode id) =? 0)%nat then None else Some (id <| id_mode := val |>)
  else if key =? 115 then
    if negb (sl_len (id_source id) =? 0)%nat then None else Some (id <| id_source := val |>)
  else Some id.

(** [while (p < end)]; a pair is at least a byte, so the length is fuel enough. *)
Fixpoint pairs_loop (fuel : nat) (d : list Z) (p : nat) (id : streamid) : option (rc * streamid) :=
  if (p <? length d)%nat then
    match fuel with
    | O => None
    | S fuel =>
        pe ← memchr d p (length d) 44;
        let pair_end := match pe with Some e => e | None => length d end in
        if (pair_end =? p)%nat then Some (NGX_ERROR, id)
        else
          eq ← memchr d p pair_end 61;
          match eq with
          | None => Some (NGX_ERROR, id)
          | Some eq =>
              let val := mk_slice (eq + 1) (pair_end - (eq + 1)) in
              let id := id <| id_pairs ::= λ n, n ⊕ 1 |> in
              set ← (if (eq - p =? 1)%nat then key ← d !! p; Some (set_key key val id)
                     else Some (Some id));
              match set with
              | None => Some (NGX_ERROR, id)
              | Some id =>
                  if (pair_end =? length d)%nat then Some (NGX_OK, id)
                  else if (pair_end + 1 =? length d)%nat then Some (NGX_ERROR, id)
                  else pairs_loop fuel d (pair_end + 1) id
              end
          end
    end
  else Some (NGX_OK, id).

(** [ngx_memcmp] of a field with a literal. *)
Definition slice_is (d : list Z) (s : slice) (word : list Z) : option bool :=
  if (sl_len s =? length word)%nat then
    p ← bytes_at d (sl_off s) (sl_len s); Some (bool_decide (p = word))
  else Some false.
Definition word_publish : list Z := [112; 117; 98; 108; 105; 115; 104].
Definition word_request : list Z := [114; 101; 113; 117; 101; 115; 116].

(** The checks behind the loop. *)
Definition split_resource (d : list Z) (id : streamid) : option (bool * streamid) :=
  let r := id_resource id in
  slash ← memchr d (sl_off r) (sl_off r + sl_len r) 47;
  match slash with
  | Some slash =>
      let app := mk_slice (sl_off r) (slash - sl_off r) in
      let stream := mk_slice (slash + 1) (sl_len r - (slash - sl_off r) - 1) in
      let id := id <| id_application := app |> <| id_stream := stream |> in
      a ← srt_name_ok d app false;
      s ← srt_name_ok d stream false; Some (a && s, id)
  | None =>
      s ← srt_name_ok d r false; Some (s, id <| id_stream := r |>)
  end.
Definition mode_kind (d : list Z) (id : streamid) : option Z :=
  publish ← slice_is d (id_mode id) word_publish;
  request ← slice_is d (id_mode id) word_request;
  Some (if publish : bool then MODE_PUBLISH else if request : bool then MODE_REQUEST else MODE_UNKNOWN).
Definition finish_parse (d : list Z) (id : streamid) : option (rc * streamid) :=
  if (sl_len (id_resource id) =? 0)%nat then Some (NGX_ERROR, id)
  else
    r ← srt_name_ok d (id_resource id) true;
    if negb r then Some (NGX_ERROR, id)
    else
      '(names, id) ← split_resource d id;
      if negb names then Some (NGX_ERROR, id)
      else
        s ← (if (sl_len (id_source id) =? 0)%nat then Some true else srt_name_ok d (id_source id) false);
        if negb s then Some (NGX_ERROR, id)
        else kind ← mode_kind d id; Some (NGX_OK, id <| id_mode_kind := kind |>).

Definition streamid_parse (data : list Z) (id : streamid) : option (rc * streamid) :=
  if (lenZ data =? 0) || (STREAMID_MAX <? lenZ data) then Some (NGX_ERROR, id)
  else
    let id := streamid_init <| id_storage := data |> <| id_raw := mk_slice 0 (length data) |> in
    let d := id_storage id in
    let p := if bool_decide (take 4 d = [35; 33; 58; 58]) then 4%nat else 0%nat in
    '(r, id) ← pairs_loop (length d) d p id;
    if bool_decide (r = NGX_OK) then finish_parse d id else Some (r, id).

(** ** The reference *)

Fixpoint split_on (c : Z) (l : list Z) : list (list Z) :=
  match l with
  | [] => [[]]
  | x :: l =>
      if x =? c then [] :: split_on c l
      else match split_on c l with w :: ws => (x :: w) :: ws | [] => [[x]] end
  end.
(** The parts before and behind the first [c]. *)
Definition cut_at (c : Z) (l : list Z) : option (list Z * list Z) :=
  match list_find (λ x, x = c) l with
  | Some (i, _) => Some (take i l, drop (S i) l)
  | None => None
  end.

Record fields := mk_fields { f_resource : list Z; f_mode : list Z; f_source : list Z }.
#[global] Instance eta_fields : Eta fields := λ r, mk_fields (f_resource r) (f_mode r) (f_source r).

(** A field that has a value is not set again. *)
Definition set_once (old val : list Z) : option (list Z) :=
  match old with [] => Some val | _ => None end.
Definition ref_set (key val : list Z) (f : fields) : option fields :=
  match key with
  | [k] =>
      if k =? 114 then v ← set_once (f_resource f) val; Some (f <| f_resource := v |>)
      else if k =? 109 then v ← set_once (f_mode f) val; Some (f <| f_mode := v |>)
      else if k =? 115 then v ← set_once (f_source f) val; Some (f <| f_source := v |>)
      else Some f
  | _ => Some f
  end.
Fixpoint ref_pairs (ws : list (list Z)) (f : fields) : option fields :=
  match ws with
  | [] => Some f
  | w :: ws => '(key, val) ← cut_at 61 w; f ← ref_set key val f; ref_pairs ws f
  end.

(** Text as bytes. *)
Definition text (s : string) : list Z := (λ c, Z.of_N (Ascii.N_of_ascii c)) <$> String.list_ascii_of_string s.

(** A name: one to 128 letters, digits, hyphens, underscores and dots. *)
Definition name_alphabet : list Z :=
  text "abcdefghijklmnopqrstuvwxyzABCDEFGHIJKLMNOPQRSTUVWXYZ0123456789-_.".
Definition is_name (w : list Z) : bool :=
  bool_decide (w ≠ [] ∧ lenZ w ≤ 128 ∧ Forall (.∈ name_alphabet) w).
(** The application - empty when there is none - and the stream a resource names: one
    name, or two with a slash between them, 128 characters in all. *)
Definition ref_names (resource : list Z) : option (list Z * list Z) :=
  if 128 <? lenZ resource then None
  else
    match split_on 47 resource with
    | [stream] => if is_name stream then Some ([], stream) else None
    | [app; stream] => if is_name app && is_name stream then Some (app, stream) else None
    | _ => None
    end.
Definition ref_kind (mode : list Z) : Z :=
  if bool_decide (mode = text "publish") then 1 else if bool_decide (mode = text "request") then 2 else 0.

Definition ref_finish (f : fields) : option (fields * list Z * list Z) :=
  '(app, stream) ← ref_names (f_resource f);
  if bool_decide (f_source f = []) || is_name (f_source f) then Some (f, app, stream) else None.

Definition strip_prefix (d : list Z) : list Z :=
  match d with 35 :: 33 :: 58 :: 58 :: d => d | _ => d end.
Definition ref_parse (d : list Z) : option (fields * list Z * list Z) :=
  if STREAMID_MAX <? lenZ d then None
  else
    f ← ref_pairs (split_on 44 (strip_prefix d)) (mk_fields [] [] []); ref_finish f.

(** ** Names

    The code's tests, on the bytes of a name. *)

Definition name_ok (allow_slash : bool) (w : list Z) : bool :=
  negb (length w =? 0)%nat && (lenZ w <=? STREAMID_NAME_MAX) && forallb (name_char allow_slash) w.
Definition cut_names (resource : list Z) : option (list Z * list Z) :=
  match cut_at 47 resource with
  | Some (app, stream) => if name_ok false app && name_ok false stream then Some (app, stream) else None
  | None => if name_ok false resource then Some ([], resource) else None
  end.

Lemma name_char_alphabet c : name_char false c = bool_decide (c ∈ name_alphabet).
Proof.
  destruct (decide (0 ≤ c < 128)) as [Hc|Hc].
  - apply eqb_prop. revert c Hc.
    apply (forall_below (λ c, Bool.eqb (name_char false c) (bool_decide (c ∈ name_alphabet))) 128). by vm_compute.
  - rewrite bool_decide_false.
    + unfold name_char. repeat match goal with |- context [?a <=? ?b] => destruct (Z.leb_spec a b) end;
        repeat match goal with |- context [?a =? ?b] => destruct (Z.eqb_spec a b) end; (lia || done).
    + intros Hin. assert (Forall is_byte ((λ x, 2 * x) <$> name_alphabet)) as H
        by (apply (bool_decide_unpack _); by vm_compute).
      rewrite Forall_fmap, Forall_forall in H. specialize (H c Hin). unfold is_byte in H. cbn in H. lia.
Qed.
Lemma name_char_slash c : name_char true c = name_char false c || (c =? 47).
Proof. unfold name_char. cbn [andb]. by rewrite orb_false_r. Qed.

Lemma forallb_alphabet w : forallb (name_char false) w = bool_decide (Forall (.∈ name_alphabet) w).
Proof.
  induction w as [|c w IH]; [done|]. cbn [forallb]. rewrite IH, name_char_alphabet.
  rewrite (bool_decide_ext (Forall _ (c :: w)) (c ∈ name_alphabet ∧ Forall (.∈ name_alphabet) w)) by (by rewrite Forall_cons).
  by rewrite bool_decide_and.
Qed.
Lemma name_ok_is_name w : name_ok false w = is_name w.
Proof.
  unfold name_ok, is_name. rewrite forallb_alphabet, !bool_decide_and, bool_decide_not, <- andb_assoc.
  f_equal; [|f_equal]; unfold STREAMID_NAME_MAX.
  - by destruct w.
  - destruct (Z.leb_spec (lenZ w) 128); [by rewrite bool_decide_true|rewrite bool_decide_false; [done|lia]].
Qed.
Lemma name_ok_weaken w : name_ok false w = true → name_ok true w = true.
Proof.
  unfold name_ok. rewrite !andb_true_iff, !forallb_forall. intros [H Hw]. split; [done|].
  intros x Hx. by rewrite name_char_slash, (Hw x Hx).
Qed.
Lemma is_name_no_slash w : is_name w = true → list_find (λ x, x = 47) w = None.
Proof.
  unfold is_name. rewrite bool_decide_eq_true. intros (_ & _ & Hw). apply list_find_None.
  eapply Forall_impl; [exact Hw|]. intros x Hx ->. revert Hx. by apply (bool_decide_unpack _); vm_compute.
Qed.

Lemma split_on_find c l :
  split_on c l = match list_find (λ x, x = c) l with
                 | Some (i, _) => take i l :: split_on c (drop (S i) l)
                 | None => [l]
                 end.
Proof.
  induction l as [|x l IH]; [done|]. cbn [split_on list_find].
  destruct (Z.eqb_spec x c) as [E|E]; [by rewrite decide_True|]. rewrite decide_False by done.
  rewrite IH. by destruct (list_find _ l) as [[i y]|].
Qed.
Lemma split_on_cons c l : ∃ w ws, split_on c l = w :: ws.
Proof. rewrite split_on_find. destruct (list_find _ l) as [[i y]|]; by eexists _, _. Qed.

(** The test of the whole resource and of its parts together are the reference's. *)
Lemma names_ref r : (if name_ok true r then cut_names r else None) = ref_names r.
Proof.
  unfold ref_names, cut_names, cut_at. destruct (Z.ltb_spec 128 (lenZ r)) as [Hl|Hl].
  { unfold name_ok, STREAMID_NAME_MAX. destruct (Z.leb_spec (lenZ r) 128); [lia|].
    by rewrite andb_false_r. }
  rewrite (split_on_find 47 r). destruct (list_find (λ x, x = 47) r) as [[i x]|] eqn:E.
  - apply list_find_Some in E as (Hi & -> & _).
    set (app := take i r). set (rest := drop (S i) r). rewrite !name_ok_is_name.
    rewrite (split_on_find 47 rest). destruct (list_find (λ x, x = 47) rest) as [[j y]|] eqn:Er.
    + destruct (split_on_cons 47 (drop (S j) rest)) as (w & ws & ->).
      destruct (is_name rest) eqn:Hr; [apply is_name_no_slash in Hr; congruence|].
      rewrite andb_false_r. by destruct (name_ok true r).
    + destruct (is_name app && is_name rest) eqn:Hn; [|by destruct (name_ok true r)].
      apply andb_true_iff in Hn as [Ha Hr]. replace (name_ok true r) with true; [done|]. symmetry.
      rewrite <- name_ok_is_name in Ha, Hr. apply name_ok_weaken in Ha, Hr. revert Ha Hr.
      pose proof (take_drop_middle r i 47 Hi) as Hc. fold app rest in Hc. rewrite <- Hc in Hl |- *.
      unfold name_ok, STREAMID_NAME_MAX in *. rewrite !andb_true_iff, forallb_app. cbn [forallb].
      intros [_ ->] [_ ->]. split_and!; [by destruct app|by apply Z.leb_le|done].
  - rewrite <- name_ok_is_name. destruct (name_ok false r) eqn:Hr; [|by destruct (name_ok true r)].
    by rewrite (name_ok_weaken r Hr).
Qed.

(** ** Pointers and lists *)

(** The bytes a field designates. *)
Definition sub (d : list Z) (s : slice) : list Z := take (sl_len s) (drop (sl_off s) d).
Definition inside (d : list Z) (s : slice) : Prop := (sl_off s + sl_len s ≤ length d)%nat.

Lemma sub_length d s : inside d s → length (sub d s) = sl_len s.
Proof. unfold inside, sub. intros. rewrite length_take, length_drop. lia. Qed.
Lemma sub_bytes d s : inside d s → bytes_at d (sl_off s) (sl_len s) = Some (sub d s).
Proof. intros. by apply bytes_at_some. Qed.
Lemma sub_empty d s : inside d s → (sl_len s =? 0)%nat = bool_decide (sub d s = []).
Proof.
  intros Hs. pose proof (sub_length d s Hs) as Hl. destruct (Nat.eqb_spec (sl_len s) 0) as [E|].
  - rewrite bool_decide_true; [done|]. apply nil_length_inv. lia.
  - rewrite bool_decide_false; [done|]. intros E. rewrite E in Hl. cbn in Hl. lia.
Qed.

Lemma srt_name_ok_sub d s slash :
  inside d s → srt_name_ok d s slash = Some (name_ok slash (sub d s)).
Proof.
  intros Hs. unfold srt_name_ok, name_ok, lenZ. rewrite (sub_length d s Hs), (sub_bytes d s Hs).
  destruct (sl_len s =? 0)%nat; [done|]. cbn [orb negb andb].
  destruct (Z.ltb_spec STREAMID_NAME_MAX (Z.of_nat (sl_len s))),
    (Z.leb_spec (Z.of_nat (sl_len s)) STREAMID_NAME_MAX); (done || lia).
Qed.

Lemma slice_is_sub d s word : inside d s → slice_is d s word = Some (bool_decide (sub d s = word)).
Proof.
  intros Hs. unfold slice_is. pose proof (sub_length d s Hs) as Hl. rewrite (sub_bytes d s Hs).
  destruct (Nat.eqb_spec (sl_len s) (length word)); [done|]. rewrite bool_decide_false; [done|]. congruence.
Qed.

(** [memchr] in a range that holds [w]. *)
Lemma memchr_find d p (e : nat) c w :
  (p ≤ e)%nat → (e ≤ length d)%nat → take (e - p) (drop p d) = w →
  memchr d p e c = Some (match list_find (λ x, x = c) w with Some (i, _) => Some (p + i)%nat | None => None end).
Proof. intros Hp He <-. unfold memchr. by rewrite bytes_at_some by lia. Qed.

Lemma find_some_lt (P : Z → Prop) `{∀ x, Decision (P x)} l i x :
  list_find P l = Some (i, x) → (i < length l)%nat.
Proof. intros (Hi & _)%list_find_Some. by eapply lookup_lt_Some. Qed.

(** The fields of [id] lie in [d] and hold [f]; no application is known yet. *)
Definition field (d : list Z) (s : slice) (v : list Z) : Prop := inside d s ∧ sub d s = v.
Definition holds (d : list Z) (id : streamid) (f : fields) : Prop :=
  field d (id_resource id) (f_resource f) ∧ field d (id_mode id) (f_mode f) ∧
  field d (id_source id) (f_source f) ∧ id_storage id = d ∧ id_application id = slice_null.

Lemma field_empty d s v : field d s v → (sl_len s =? 0)%nat = bool_decide (v = []).
Proof. intros [Hs <-]. by apply sub_empty. Qed.
Lemma field_name_ok d s v slash : field d s v → srt_name_ok d s slash = Some (name_ok slash v).
Proof. intros [Hs <-]. by apply srt_name_ok_sub. Qed.
Lemma field_is d s v word : field d s v → slice_is d s word = Some (bool_decide (v = word)).
Proof. intros [Hs <-]. by apply slice_is_sub. Qed.

Lemma set_key_ref d key val v id f :
  holds d id f → field d val v →
  match set_key key val id, ref_set [key] v f with
  | Some id', Some f' => holds d id' f'
  | None, None => True
  | _, _ => False
  end.
Proof.
  intros (Hr & Hm & Hs & Ho) Hv. unfold set_key, ref_set, set_once.
  rewrite (field_empty _ _ _ Hr), (field_empty _ _ _ Hm), (field_empty _ _ _ Hs).
  repeat case_match; simplify_eq/=; try done.
Qed.

(** One pair: [i] bytes at [p]. *)
Lemma pair_find d p i :
  (p + i ≤ length d)%nat →
  memchr d p (p + i) 61 = Some None ∧ cut_at 61 (take i (drop p d)) = None
  ∨ ∃ j, (j < i)%nat ∧ memchr d p (p + i) 61 = Some (Some (p + j)%nat) ∧
      cut_at 61 (take i (drop p d)) = Some (take j (drop p d), sub d (mk_slice (p + j + 1) (i - (j + 1)))).
Proof.
  intros Hi. unfold cut_at. rewrite (memchr_find d p (p + i) 61 (take i (drop p d))); [|lia..|by f_equal; lia].
  destruct (list_find _ (take i (drop p d))) as [[j x]|] eqn:E; [|by left].
  apply find_some_lt in E. rewrite length_take, length_drop in E. right. exists j. split; [lia|]. split; [done|].
  do 2 f_equal; [rewrite take_take; f_equal; lia|]. unfold sub. cbn [sl_off sl_len].
  rewrite skipn_firstn_comm, drop_drop. f_equal; [lia|]. f_equal. lia.
Qed.

(** What a pair sets, in the parser and in the reference. *)
Definition agrees (d : list Z) (o : option streamid) (fo : option fields) : Prop :=
  match o, fo with
  | Some id, Some f => holds d id f
  | None, None => True
  | _, _ => False
  end.

Lemma pair_set d p j i f id :
  (j < i)%nat → (p + i ≤ length d)%nat → holds d id f →
  let val := mk_slice (p + j + 1) (i - (j + 1)) in
  ∃ o, (if (p + j - p =? 1)%nat then key ← d !! p; Some (set_key key val id) else Some (Some id)) = Some o ∧
    agrees d o (ref_set (take j (drop p d)) (sub d val) f).
Proof.
  intros Hj Hi Hf val. replace (p + j - p)%nat with j by lia.
  assert (field d val (sub d val)) as Hval by (split; [unfold inside; cbn; lia|done]).
  destruct (lookup_lt_is_Some_2 d p) as [x Hx]; [lia|].
  pose proof (drop_S d x p Hx) as Hd. rewrite Hd. destruct (Nat.eqb_spec j 1) as [->|Hne].
  - rewrite Hx. eexists. split; [done|]. exact (set_key_ref d x val _ id f Hf Hval).
  - eexists. split; [done|]. destruct j as [|[|j]]; [exact Hf|done|]. cbn [take].
    destruct (lookup_lt_is_Some_2 d (S p)) as [y Hy]; [lia|]. rewrite (drop_S d y _ Hy). exact Hf.
Qed.

Lemma ref_pairs_cons w ws f :
  ref_pairs (w :: ws) f =
  match cut_at 61 w with
  | Some (key, val) => match ref_set key val f with Some f => ref_pairs ws f | None => None end
  | None => None
  end.
Proof. cbn [ref_pairs]. by destruct (cut_at 61 w) as [[]|]. Qed.

(** The loop does to the fields what the reference does to the list of pairs. *)
Lemma pairs_loop_ref d fuel : ∀ p id f,
  (length d ≤ p + fuel)%nat → (p < length d)%nat → holds d id f →
  ∃ r id', pairs_loop fuel d p id = Some (r, id') ∧
    agrees d (if bool_decide (r = NGX_OK) then Some id' else None) (ref_pairs (split_on 44 (drop p d)) f) ∧
    (r = NGX_OK ∨ r = NGX_ERROR).
Proof.
  induction fuel as [|fuel IH]; intros p id f Hfuel Hp Hf; [lia|]. cbn [pairs_loop].
  destruct (Nat.ltb_spec p (length d)); [|lia].
  rewrite (memchr_find d p (length d) 44 (drop p d)); [|lia..|by rewrite <-length_drop, firstn_all].
  cbn [mbind option_bind]. rewrite split_on_find.
  set (found := list_find _ (drop p d)).
  assert (∃ i, (p + i ≤ length d)%nat ∧
    match match found with Some (i, _) => Some (p + i)%nat | None => None end with Some e => e | None => length d end
      = (p + i)%nat ∧
    match found with Some (i, _) => take i (drop p d) :: split_on 44 (drop (S i) (drop p d)) | None => [drop p d] end
      = take i (drop p d) :: (if (p + i =? length d)%nat then [] else split_on 44 (drop (p + i + 1) d)))
    as (i & Hi & -> & ->).
  { destruct found as [[i x]|] eqn:E.
    - exists i. apply find_some_lt in E. rewrite length_drop in E. split_and!; [lia|done|].
      destruct (Nat.eqb_spec (p + i) (length d)); [lia|]. rewrite drop_drop. do 3 f_equal. lia.
    - exists (length d - p)%nat. split_and!; [lia|lia|]. destruct (Nat.eqb_spec (p + (length d - p)) (length d)); [|lia].
      by rewrite <-length_drop, firstn_all. }
  rewrite ref_pairs_cons. destruct (Nat.eqb_spec (p + i) p).
  { assert (i = 0%nat) as -> by lia. exists NGX_ERROR, id. split; [done|]. split; [exact I|by right]. }
  destruct (pair_find d p i Hi) as [[-> ->]|(j & Hj & -> & ->)].
  { exists NGX_ERROR, id. split; [done|]. split; [exact I|by right]. }
  cbn [mbind option_bind]. replace (p + i - (p + j + 1))%nat with (i - (j + 1))%nat by lia.
  set (id1 := id <| id_pairs ::= _ |>).
  destruct (pair_set d p j i f id1 Hj Hi) as (o & -> & Ho); [exact Hf|]. cbn [mbind option_bind].
  unfold agrees in Ho. destruct o as [id2|]; [|destruct (ref_set _ _ _); [done|]; exists NGX_ERROR, id1; split; [done|]; split; [exact I|by right]].
  destruct (ref_set _ _ _) as [f2|]; [|done]. destruct (Nat.eqb_spec (p + i) (length d)).
  { exists NGX_OK, id2. split; [done|]. split; [exact Ho|by left]. }
  destruct (Nat.eqb_spec (p + i + 1) (length d)) as [E|].
  { exists NGX_ERROR, id2. split; [done|]. rewrite (drop_ge d (p + i + 1)) by lia. split; [exact I|by right]. }
  apply IH; [lia|lia|done].
Qed.

(** ** The resource *)

(** What the result of a parse says. *)
Definition says (d : list Z) (id : streamid) (f : fields) (app stream : list Z) : Prop :=
  id_storage id = d ∧ field d (id_resource id) (f_resource f) ∧ field d (id_mode id) (f_mode f) ∧
  field d (id_source id) (f_source f) ∧ field d (id_application id) app ∧
  field d (id_stream id) stream ∧ id_mode_kind id = ref_kind (f_mode f).

Lemma resource_find d s v :
  field d s v →
  memchr d (sl_off s) (sl_off s + sl_len s) 47 = Some None ∧ cut_at 47 v = None
  ∨ ∃ j, memchr d (sl_off s) (sl_off s + sl_len s) 47 = Some (Some (sl_off s + j)%nat) ∧
      (j < sl_len s)%nat ∧ cut_at 47 v = Some (take j v, drop (S j) v).
Proof.
  intros [Hs <-]. unfold cut_at, sub. unfold inside in Hs.
  rewrite (memchr_find d _ _ 47 (take (sl_len s) (drop (sl_off s) d))); [|lia..|by f_equal; lia].
  destruct (list_find _ _) as [[j x]|] eqn:E; [|by left].
  apply find_some_lt in E. rewrite length_take in E. right. exists j. split_and!; [done|lia|done].
Qed.

Lemma field_take d s v j :
  field d s v → (j ≤ sl_len s)%nat → field d (mk_slice (sl_off s) j) (take j v).
Proof. intros [Hs <-] Hj. unfold field, inside, sub in *. cbn. rewrite take_take. split; [lia|f_equal; lia]. Qed.
Lemma field_drop d s v j :
  field d s v → (j ≤ sl_len s)%nat → field d (mk_slice (sl_off s + j) (sl_len s - j)) (drop j v).
Proof.
  intros [Hs <-] Hj. unfold field, inside, sub in *. cbn. split; [lia|].
  by rewrite skipn_firstn_comm, drop_drop.
Qed.

Lemma split_resource_ref d id f :
  holds d id f →
  ∃ b id', split_resource d id = Some (b, id') ∧
    match cut_names (f_resource f) with
    | Some (app, stream) => b = true ∧ ∀ k, k = ref_kind (f_mode f) → says d (id' <| id_mode_kind := k |>) f app stream
    | None => b = false
    end ∧ id_source id' = id_source id ∧ id_mode id' = id_mode id.
Proof.
  intros (Hr & Hm & Hs & Hd & Ha). unfold split_resource, cut_names.
  destruct (resource_find d (id_resource id) (f_resource f) Hr) as [[-> ->]|(j & -> & Hj & ->)];
    cbn [mbind option_bind].
  - rewrite (field_name_ok _ _ _ _ Hr). cbn [mbind option_bind]. eexists _, _. split; [done|].
    split; [|done]. destruct (name_ok false (f_resource f)); [|done]. split; [done|]. intros k ->.
    split_and!; cbn; try done. rewrite Ha. split; [unfold inside; cbn; lia|done].
  - replace (sl_off (id_resource id) + j - sl_off (id_resource id))%nat with j by lia.
    pose proof (field_take d _ _ j Hr) as Ht. pose proof (field_drop d _ _ (S j) Hr) as Hdr.
    replace (sl_off (id_resource id) + j + 1)%nat with (sl_off (id_resource id) + S j)%nat by lia.
    replace (sl_len (id_resource id) - j - 1)%nat with (sl_len (id_resource id) - S j)%nat by lia.
    rewrite (field_name_ok _ _ _ _ (Ht ltac:(lia))), (field_name_ok _ _ _ _ (Hdr ltac:(lia))). cbn [mbind option_bind].
    eexists _, _. split; [done|]. split; [|done].
    destruct (name_ok false (take j _) && name_ok false _); [|done]. split; [done|]. intros k ->.
    split_and!; cbn; try done; [apply Ht|apply Hdr]; lia.
Qed.

Lemma finish_parse_ref d id f :
  holds d id f →
  ∃ r id', finish_parse d id = Some (r, id') ∧
    match ref_finish f with
    | Some (f', app, stream) => r = NGX_OK ∧ f' = f ∧ says d id' f app stream
    | None => r = NGX_ERROR
    end.
Proof.
  intros Hf. pose proof Hf as (Hr & Hm & Hs & _). unfold finish_parse, ref_finish. rewrite <- names_ref.
  rewrite (field_empty _ _ _ Hr), (field_name_ok _ _ _ true Hr). cbn [mbind option_bind].
  destruct (bool_decide_reflect (f_resource f = [])) as [->|_]; [by eexists _, _|].
  destruct (name_ok true (f_resource f)); cbn [negb]; [|by eexists _, _].
  destruct (split_resource_ref d id f Hf) as (b & id' & -> & H & Hs' & Hm'). cbn [mbind option_bind].
  destruct (cut_names (f_resource f)) as [[app stream]|]; [|rewrite H; by eexists _, _].
  destruct H as [-> Hsays]. cbn [mbind option_bind negb]. rewrite Hs', (field_empty _ _ _ Hs), (field_name_ok _ _ _ false Hs), name_ok_is_name.
  assert (mode_kind d id' = Some (ref_kind (f_mode f))) as Hkind.
  { unfold mode_kind, ref_kind. rewrite Hm', !(field_is _ _ _ _ Hm). cbn [mbind option_bind].
    by repeat case_bool_decide. }
  destruct (bool_decide (f_source f = [])); cbn [mbind option_bind orb negb].
  - rewrite Hkind. eexists _, _. split; [done|]. split_and!; [done..|]. by apply Hsays.
  - destruct (is_name (f_source f)); cbn [negb]; [|by eexists _, _].
    rewrite Hkind. eexists _, _. split; [done|]. split_and!; [done..|]. by apply Hsays.
Qed.

Lemma strip_prefix_drop d :
  strip_prefix d = drop (if bool_decide (take 4 d = [35; 33; 58; 58]) then 4%nat else 0%nat) d.
Proof.
  case_bool_decide as E.
  - do 4 (destruct d as [|? d]; [done|]). cbn in E. by simplify_eq.
  - unfold strip_prefix. repeat case_match; simplify_eq/=; done.
Qed.

(** C38: A stream id is read as its description says, whatever bytes a caller sends and
    whatever the result structure held before: the parser never reads outside its copy of
    the string and never loops; it accepts exactly the strings the reference accepts - at
    most 512 bytes, an optional "#!::", pairs of a key and a value separated by commas, one
    resource, one mode and one source at most with a value; the source a name of one to 128
    letters, digits, hyphens, underscores and dots, the resource such a name or two of them
    with one slash between, 128 characters in all - and the resource, mode, source,
    application and stream of its result are the bytes the reference cuts out, held in the
    structure's own storage (what the structure's comment says; the older one at the top of
    the header, of pointers into the caller's buffer, is a finding). *)
Theorem streamid_reference (d : list Z) (id : streamid) :
  ∃ r id', streamid_parse d id = Some (r, id') ∧
    match ref_parse d with
    | Some (f, app, stream) => r = NGX_OK ∧ says d id' f app stream
    | None => r = NGX_ERROR
    end.
Proof.
  unfold streamid_parse, ref_parse. destruct (STREAMID_MAX <? lenZ d) eqn:Hmax.
  { rewrite orb_true_r. by eexists _, _. }
  destruct (Z.eqb_spec (lenZ d) 0) as [E|Hne]; cbn [orb].
  { destruct d; [by eexists _, _|done]. }
  rewrite strip_prefix_drop. set (p := if bool_decide _ then _ else _). set (id0 := _ <| id_raw := _ |>).
  assert (holds d id0 (mk_fields [] [] [])) as H0 by (split_and!; split; cbn; (done || unfold inside; cbn; lia)).
  change (id_storage id0) with d. cbv zeta.
  assert (∀ f id', holds d id' f → ∃ r id2, finish_parse d id' = Some (r, id2) ∧
    match ref_finish f with
    | Some (f', app, stream) => r = NGX_OK ∧ says d id2 f' app stream
    | None => r = NGX_ERROR
    end) as Hfinish.
  { intros f id' Hf. destruct (finish_parse_ref d id' f Hf) as (r & id2 & -> & H). exists r, id2. split; [done|].
    destruct (ref_finish f) as [[[f' app] stream]|]; [|done]. by destruct H as (-> & -> & ?). }
  destruct (decide (p < length d)%nat) as [Hp|Hp].
  - destruct (pairs_loop_ref d (length d) p id0 _ ltac:(lia) Hp H0) as (r & id' & -> & Ha & Hr).
    cbn [mbind option_bind]. unfold agrees in Ha. destruct Hr as [-> | ->]; cbn [bool_decide] in *.
    + destruct (ref_pairs _ _) as [f|]; [|done]. cbn [mbind option_bind]. by apply Hfinish.
    + destruct (ref_pairs _ _) as [f|]; [done|]. by eexists _, _.
  - rewrite (drop_ge d p) by lia.
    replace (pairs_loop (length d) d p id0) with (Some (NGX_OK, id0)).
    2:{ destruct d; [done|]. cbn [length pairs_loop]. cbn [length] in Hp. destruct (Nat.ltb_spec p (S (length d))); [lia|done]. }
    cbn [mbind option_bind]. rewrite bool_decide_true by done.
    destruct (Hfinish _ id0 H0) as (r & id' & E & H). exists r, id'. split; [exact E|]. exact H.
Qed.
