(* ===== verification/SrtQueue.v ===== *)
(** * The SRT output queue

    Models srt/ngx_media_srt_output_queue.[ch]: the bounded ring of prepared bursts in
    front of one SRT receiver, and proves that it is a bounded queue of the newest units.
    The units live in the store of Store.v; a slot holds a reference on its burst. *)
From S2P Require Import Prelude Store.

Definition SRT_QUEUE_MAX_UNITS : Z := 256.

Record srt_unit := mk_unit {
  su_burst : option N; su_len : Z; su_sequence : Z; su_enqueue_msec : Z; su_keyframe : bool }.
#[global] Instance eta_srt_unit : Eta srt_unit := λ r,
  mk_unit (su_burst r) (su_len r) (su_sequence r) (su_enqueue_msec r) (su_keyframe r).
Definition unit_zero : srt_unit := mk_unit None 0 0 0 false.

Record srt_queue := mk_sq {
  sq_units : list srt_unit; sq_capacity : Z; sq_max_bytes : Z; sq_head : Z; sq_tail : Z;
  sq_bytes : Z; sq_dropped : Z; sq_pushed : Z; sq_resync : bool }.
#[global] Instance eta_srt_queue : Eta srt_queue := λ r,
  mk_sq (sq_units r) (sq_capacity r) (sq_max_bytes r) (sq_head r) (sq_tail r) (sq_bytes r)
    (sq_dropped r) (sq_pushed r) (sq_resync r).
Definition srt_queue_zero : srt_queue :=
  mk_sq (replicate (Z.to_nat SRT_QUEUE_MAX_UNITS) unit_zero) 0 0 0 0 0 0 0 false.

Definition srt_queue_init (capacity max_bytes : Z) : srt_queue :=
  srt_queue_zero
    <| sq_capacity := if (0 <? capacity) && (capacity <=? SRT_QUEUE_MAX_UNITS) then capacity
                      else SRT_QUEUE_MAX_UNITS |>
    <| sq_max_bytes := max_bytes |>.

(** [sequence % capacity]; the division by zero has no answer. *)
Definition unit_index (q : srt_queue) (sequence : Z) : option nat :=
  if sq_capacity q =? 0 then None else Some (Z.to_nat (sequence mod sq_capacity q)).
Definition unit_at (q : srt_queue) (sequence : Z) : option srt_unit :=
  i ← unit_index q sequence; sq_units q !! i.
Definition unit_put (sequence : Z) (u : srt_unit) (q : srt_queue) : srt_queue :=
  match unit_index q sequence with
  | Some i => q <| sq_units ::= <[i := u]> |>
  | None => q
  end.

Definition srt_queue_destroy (q : srt_queue) : M srt_queue :=
  _ ← unref_all (su_burst <$> take (Z.to_nat (sq_capacity q)) (sq_units q));
  mret srt_queue_zero.

(** The unit of [sequence] gives its burst back. *)
Definition unit_release (q : srt_queue) (sequence : Z) : M srt_queue :=
  u ← sread (unit_at q sequence);
  match su_burst u with
  | None => mret q
  | Some burst =>
      _ ← buf_unref (Some burst);
      mret (unit_put sequence (u <| su_burst := None |>) (q <| sq_bytes ::= λ n, n ⊖ su_len u |>))
  end.
(** The oldest unit leaves. *)
Definition unit_retire (q : srt_queue) : M srt_queue :=
  q' ← unit_release q (sq_tail q);
  u ← sread (unit_at q' (sq_tail q));
  mret ((unit_put (sq_tail q) (u <| su_len := 0 |>) q') <| sq_tail ::= λ n, n ⊕ 1 |>).

Definition srt_queue_evict (q : srt_queue) : M srt_queue :=
  if sq_head q <=? sq_tail q then mret q
  else
    q ← unit_retire q;
    mret (q <| sq_dropped ::= λ n, n ⊕ 1 |> <| sq_resync := true |>).

(** The eviction loop of [push]; every turn retires a unit. *)
Definition srt_full (q : srt_queue) (len : Z) : bool :=
  (sq_tail q <? sq_head q)
  && ((sq_capacity q <=? sq_head q ⊖ sq_tail q)
      || (negb (sq_max_bytes q =? 0) && (sq_max_bytes q <? sq_bytes q ⊕ len))).
Fixpoint evict_loop (fuel : nat) (q : srt_queue) (len : Z) : M srt_queue :=
  if srt_full q len then
    match fuel with
    | O => ub
    | S fuel => q ← srt_queue_evict q; evict_loop fuel q len
    end
  else mret q.

Definition srt_queue_push (q : srt_queue) (burst : option N) (len : Z) (keyframe : bool)
    (enqueue_msec : Z) : M (rc * srt_queue) :=
  match burst with
  | None => mret (NGX_ERROR, q)
  | Some _ =>
      if len =? 0 then mret (NGX_ERROR, q)
      else if negb (sq_max_bytes q =? 0) && (sq_max_bytes q <? len) then
        mret (NGX_OK, q <| sq_dropped ::= λ n, n ⊕ 1 |> <| sq_resync := true |>)
      else
        q ← evict_loop (Z.to_nat (sq_head q - sq_tail q)) q len;
        u ← sread (unit_at q (sq_head q));
        q ← (match su_burst u with
             | None => mret q
             | Some _ =>
                 q ← unit_release q (sq_head q);
                 mret (q <| sq_dropped ::= λ n, n ⊕ 1 |> <| sq_resync := true |>
                         <| sq_tail ::= λ n, n ⊕ 1 |>)
             end);
        b ← buf_ref burst;
        mret (NGX_OK,
          (unit_put (sq_head q) (mk_unit b len (sq_head q) enqueue_msec keyframe) q)
            <| sq_bytes ::= λ n, n ⊕ len |> <| sq_head ::= λ n, n ⊕ 1 |>
            <| sq_pushed ::= λ n, n ⊕ 1 |>)
  end.

(** The scan for a sync boundary: the first sequence that has one, or [head]. *)
Fixpoint next_keyframe (n : nat) (q : srt_queue) (sequence : Z) : option Z :=
  match n with
  | O => Some sequence
  | S n =>
      u ← unit_at q sequence;
      if bool_decide (su_burst u ≠ None) && su_keyframe u then Some sequence
      else next_keyframe n q (sequence ⊕ 1)
  end.

(** The unit itself stands for the pointer to it; the cursor is not moved. *)
Definition srt_queue_next (q : srt_queue) (cursor : Z) : option (option srt_unit) :=
  if sq_head q <=? sq_tail q then Some None
  else
    let sequence := if cursor <? sq_tail q then sq_tail q else cursor in
    sequence ← (if sq_resync q then next_keyframe (Z.to_nat (sq_head q - sequence)) q sequence
                else Some sequence);
    if sq_head q <=? sequence then Some None
    else
      u ← unit_at q sequence;
      Some (if bool_decide (su_burst u = None) then None else Some u).

Fixpoint units_loop (fuel : nat) (q : srt_queue) (next : Z) : M srt_queue :=
  if (sq_tail q <? next) && (sq_tail q <? sq_head q) then
    match fuel with
    | O => ub
    | S fuel => q ← unit_retire q; units_loop fuel q next
    end
  else mret q.

(** The queue and the new cursor. *)
Definition srt_queue_advance (q : srt_queue) (sequence : Z) : M (srt_queue * Z) :=
  let next := sequence ⊕ 1 in
  let q := if sq_resync q && (sq_tail q <=? sequence) then
             q <| sq_dropped ::= λ n, n ⊕ (sequence - sq_tail q) |> <| sq_resync := false |>
           else q in
  q ← units_loop (Z.to_nat (sq_head q - sq_tail q)) q next;
  mret (q, next).

Definition srt_queue_resync (q : srt_queue) : srt_queue := q <| sq_resync := true |>.

(** ** What the ring holds *)

#[global] Instance owner_srt_unit : Owner srt_unit := λ u, option_list (su_burst u).
#[global] Instance owner_srt_queue : Owner srt_queue := λ q, holds (sq_units q).

(** A retained unit: its burst is there, and it is a burst in memory. *)
Definition unit_ok (u : srt_unit) (sequence : Z) : Prop :=
  is_Some (su_burst u) ∧ su_sequence u = sequence ∧ 0 < su_len u < 2 ^ 48.

(** The ring [q] holds the units [l], oldest first: each in the slot of its sequence, and
    nothing in the other slots. *)
Record sq_is (q : srt_queue) (l : list srt_unit) : Prop := {
  qi_cap : 0 < sq_capacity q ≤ SRT_QUEUE_MAX_UNITS;
  qi_slots : length (sq_units q) = Z.to_nat SRT_QUEUE_MAX_UNITS;
  qi_room : Z.of_nat (length l) ≤ sq_capacity q;
  qi_tail : 0 ≤ sq_tail q;
  qi_head : sq_head q = sq_tail q + Z.of_nat (length l);
  qi_seq : sq_head q < 2 ^ 64;
  qi_live k u : l !! k = Some u →
    unit_at q (sq_tail q + Z.of_nat k) = Some u ∧ unit_ok u (sq_tail q + Z.of_nat k);
  qi_dead i u : sq_units q !! i = Some u → su_burst u ≠ None →
    ∃ k, (k < length l)%nat ∧ i = Z.to_nat ((sq_tail q + Z.of_nat k) mod sq_capacity q);
  qi_bytes : sq_bytes q = sumZ (su_len <$> l);
  qi_max : 0 ≤ sq_max_bytes q < 2 ^ 64 ∧ (sq_max_bytes q ≠ 0 → sq_bytes q ≤ sq_max_bytes q) }.

Lemma mod_inj c a b : 0 < c → Z.abs (a - b) < c → a mod c = b mod c → a = b.
Proof.
  intros Hc Hab E. pose proof (Z.div_mod a c). pose proof (Z.div_mod b c).
  assert (a / c = b / c); [nia|]. nia.
Qed.

Lemma index_of q l sequence :
  sq_is q l → unit_index q sequence = Some (Z.to_nat (sequence mod sq_capacity q)) ∧
  (Z.to_nat (sequence mod sq_capacity q) < length (sq_units q))%nat.
Proof.
  intros H. pose proof (qi_cap _ _ H). unfold unit_index. rewrite (proj2 (Z.eqb_neq _ _)) by lia.
  split; [done|]. rewrite (qi_slots _ _ H). pose proof (Z.mod_pos_bound sequence (sq_capacity q)). lia.
Qed.

Lemma index_inj q l a b :
  sq_is q l → Z.abs (a - b) < sq_capacity q →
  Z.to_nat (a mod sq_capacity q) = Z.to_nat (b mod sq_capacity q) → a = b.
Proof.
  intros H Hab E. pose proof (qi_cap _ _ H). apply (mod_inj (sq_capacity q)); [lia|done|].
  pose proof (Z.mod_pos_bound a (sq_capacity q)). pose proof (Z.mod_pos_bound b (sq_capacity q)). lia.
Qed.

Lemma unit_put_at q i (u : srt_unit) sequence :
  unit_index q sequence = Some i → unit_put sequence u q = q <| sq_units ::= <[i := u]> |>.
Proof. unfold unit_put. by intros ->. Qed.

Lemma unit_put_units sequence u q : ∃ us, unit_put sequence u q = q <| sq_units := us |>.
Proof.
  unfold unit_put. destruct (unit_index q sequence); [by eexists|]. exists (sq_units q). by destruct q.
Qed.

Lemma lens_bound q l : sq_is q l → 0 ≤ sumZ (su_len <$> l) ≤ Z.of_nat (length l) * 2 ^ 48.
Proof.
  intros H. assert (∀ u, u ∈ l → 0 < su_len u < 2 ^ 48) as Hl.
  { intros u [k Hk]%list_elem_of_lookup_1. apply (qi_live _ _ H _ _ Hk). }
  clear H. induction l as [|u l IH]; [done|]. change (0 ≤ su_len u + sumZ (su_len <$> l) ≤ Z.of_nat (S (length l)) * 2 ^ 48).
  pose proof (Hl u ltac:(set_solver)). specialize (IH ltac:(set_solver)). lia.
Qed.

Lemma bytes_bound q l : sq_is q l → 0 ≤ sq_bytes q < 2 ^ 60.
Proof.
  intros H. pose proof (lens_bound q l H). rewrite (qi_bytes _ _ H).
  pose proof (qi_cap _ _ H). pose proof (qi_room _ _ H). unfold SRT_QUEUE_MAX_UNITS in *. lia.
Qed.

(** A queue fresh from [init] holds nothing. *)
Lemma sq_is_init capacity max_bytes :
  0 ≤ max_bytes < 2 ^ 64 → sq_is (srt_queue_init capacity max_bytes) [].
Proof.
  intros Hm. split; cbn; try done.
  - unfold SRT_QUEUE_MAX_UNITS. destruct (Z.ltb_spec 0 capacity), (Z.leb_spec capacity 256); cbn; lia.
  - unfold SRT_QUEUE_MAX_UNITS. destruct (Z.ltb_spec 0 capacity), (Z.leb_spec capacity 256); cbn; lia.
  - intros i u [-> _]%lookup_replicate_1. done.
  - split; [done|lia].
Qed.
Lemma holds_init capacity max_bytes : holds (srt_queue_init capacity max_bytes) = [].
Proof. done. Qed.

(** ** Retiring the oldest unit *)

Definition same_conf (q q' : srt_queue) : Prop :=
  sq_capacity q' = sq_capacity q ∧ sq_max_bytes q' = sq_max_bytes q ∧ sq_head q' = sq_head q ∧
  sq_pushed q' = sq_pushed q.

Lemma wp_unit_retire q u l L s :
  sq_is q (u :: l) → owns s (holds q ++ L) →
  wp (unit_retire q) (λ q' s', sq_is q' l ∧ owns s' (holds q' ++ L) ∧ evolves s s' ∧
    same_conf q q' ∧ sq_tail q' = sq_tail q + 1 ∧ sq_dropped q' = sq_dropped q ∧
    sq_resync q' = sq_resync q) s.
Proof.
  intros H Ho. destruct (index_of _ _ (sq_tail q) H) as [Hi Hlt].
  destruct (qi_live _ _ H 0 u eq_refl) as [Hu ([b Hb] & Hseq & Hlen)].
  rewrite Z.add_0_r in Hu. pose proof Hu as Hat. unfold unit_at in Hat. rewrite Hi in Hat. cbn in Hat.
  set (i := Z.to_nat (sq_tail q mod sq_capacity q)) in *.
  assert (owns s ([b] ++ holds (delete i (sq_units q)) ++ L)) as Ho'.
  { eapply owns_proper; [|exact Ho]. rewrite app_assoc. apply Permutation_app_tail. symmetry.
    change (holds q) with (holds (sq_units q)). rewrite (holds_delete _ i u Hat).
    unfold holds at 1, owner_srt_unit. by rewrite Hb. }
  unfold unit_retire, unit_release. apply wp_bind, wp_bind. eapply wp_read; [exact Hu|]. rewrite Hb.
  apply wp_bind. eapply wp_mono; [by apply (wp_buf_unref (Some b))|]. intros [] s1 [Ho1 Hev].
  apply wp_ret. set (q1 := q <| sq_bytes ::= _ |>).
  assert (unit_index q1 (sq_tail q) = Some i) as Hi1 by exact Hi. rewrite (unit_put_at _ _ _ _ Hi1).
  set (q2 := q1 <| sq_units ::= _ |>).
  assert (unit_index q2 (sq_tail q) = Some i) as Hi2 by exact Hi.
  assert (unit_at q2 (sq_tail q) = Some (u <| su_burst := None |>)) as Hu2.
  { unfold unit_at. rewrite Hi2. cbn. by apply list_lookup_insert_eq. }
  apply wp_bind. eapply wp_read; [exact Hu2|]. apply wp_ret. rewrite (unit_put_at _ _ _ _ Hi2).
  set (q3 := _ <| sq_tail ::= _ |>).
  pose proof (qi_head _ _ H) as Hh. pose proof (qi_seq _ _ H). pose proof (qi_tail _ _ H).
  pose proof (qi_room _ _ H) as Hroom. cbn [length] in Hh, Hroom.
  assert (sq_tail q3 = sq_tail q + 1) as Ht3 by (apply u64_small; lia).
  assert (sq_units q3 = <[i := u <| su_burst := None |> <| su_len := 0 |>]> (sq_units q)) as Hu3
    by (cbn; by rewrite list_insert_insert_eq).
  assert (sq_bytes q3 = sumZ (su_len <$> l)) as Hb3.
  { pose proof (bytes_bound _ _ H). pose proof (lens_bound _ _ H) as Hl.
    pose proof (qi_bytes _ _ H) as Hsum. change (sumZ (su_len <$> u :: l)) with (su_len u + sumZ (su_len <$> l)) in *.
    change (sq_bytes q ⊖ su_len u = sumZ (su_len <$> l)). 
    assert (0 ≤ sumZ (su_len <$> l)).
    { apply sumZ_nonneg, Forall_fmap, Forall_forall. intros x [k Hk]%list_elem_of_lookup_1.
      destruct (qi_live _ _ H (S k) x Hk) as [_ (_ & _ & ?)]. cbn. lia. }
    rewrite u64_small by lia. lia. }
  split; [|split; [|split; [exact Hev|by split_and!]]].
  - pose proof (qi_max _ _ H) as [Hm1 Hm2]. split; try apply H.
    + rewrite Hu3, length_insert. apply H.
    + change (sq_capacity q3) with (sq_capacity q). lia.
    + lia.
    + change (sq_head q3) with (sq_head q). lia.
    + intros k v Hk. destruct (qi_live _ _ H (S k) v Hk) as [Hv Hok].
      rewrite Ht3. replace (sq_tail q + 1 + Z.of_nat k) with (sq_tail q + Z.of_nat (S k)) by lia.
      split; [|done]. pose proof (lookup_lt_Some _ _ _ Hk). unfold unit_at in *.
      destruct (index_of _ _ (sq_tail q + Z.of_nat (S k)) H) as [Hj _].
      change (unit_index q3) with (unit_index q). rewrite Hj in Hv |- *. cbn [mbind option_bind] in Hv |- *. rewrite Hu3.
      rewrite list_lookup_insert_ne; [done|]. intros E. unfold i in E.
      apply (index_inj _ _ _ _ H) in E; lia.
    + intros j v. rewrite Hu3. intros [(<- & <- & _)|[Hne Hj]]%list_lookup_insert_Some Hv; [done|].
      destruct (qi_dead _ _ H j v Hj Hv) as (k & Hk & E). destruct k as [|k].
      { destruct Hne. rewrite E, Z.add_0_r. done. }
      exists k. split; [cbn in Hk; lia|]. rewrite E, Ht3. change (sq_capacity q3) with (sq_capacity q).
      do 2 f_equal. lia.
    + exact Hb3.
    + change (sq_max_bytes q3) with (sq_max_bytes q). split; [done|]. intros Hnz. rewrite Hb3.
      specialize (Hm2 Hnz). rewrite (qi_bytes _ _ H) in Hm2.
      change (sumZ (su_len <$> u :: l)) with (su_len u + sumZ (su_len <$> l)) in Hm2. lia.
  - eapply owns_proper; [|exact Ho1]. change (holds q3) with (holds (sq_units q3)). rewrite Hu3.
    rewrite (holds_insert _ i u) by done. done.
Qed.

(** ** Pushing *)

Definition sum_len (l : list srt_unit) : Z := sumZ (su_len <$> l).

(** The units that stay when [len] more bytes come: the oldest leave while there is no room
    for a unit, or not for its bytes. *)
Fixpoint trim (capacity max_bytes len : Z) (l : list srt_unit) : list srt_unit :=
  match l with
  | [] => []
  | _ :: l' =>
      if (capacity <=? Z.of_nat (length l))
         || (negb (max_bytes =? 0) && (max_bytes <? sum_len l + len))
      then trim capacity max_bytes len l' else l
  end.

Lemma trim_length capacity max_bytes len l : (length (trim capacity max_bytes len l) ≤ length l)%nat.
Proof. induction l as [|u l IH]; [done|]. cbn [trim]. case_match; cbn [length]; lia. Qed.
Lemma trim_suffix capacity max_bytes len l : trim capacity max_bytes len l `suffix_of` l.
Proof.
  induction l as [|u l IH]; [done|]. cbn [trim]. case_match; [|done]. etrans; [exact IH|]. by exists [u].
Qed.
Lemma trim_room capacity max_bytes len l :
  0 < capacity → (max_bytes ≠ 0 → len ≤ max_bytes) →
  Z.of_nat (length (trim capacity max_bytes len l)) < capacity ∧
  (max_bytes ≠ 0 → sum_len (trim capacity max_bytes len l) + len ≤ max_bytes).
Proof.
  intros Hc Hm. induction l as [|u l IH]; cbn [trim]; [split; cbn; lia|].
  destruct (Z.leb_spec capacity (Z.of_nat (length (u :: l)))); cbn [orb]; [done|].
  destruct (Z.eqb_spec max_bytes 0); cbn [negb andb]; [split; lia|].
  destruct (Z.ltb_spec max_bytes (sum_len (u :: l) + len)); [done|]. split; lia.
Qed.
(** What leaves had to: with one unit more, the ring would have no room. *)
Lemma trim_least capacity max_bytes len l k :
  l = k ++ trim capacity max_bytes len l → k ≠ [] →
  capacity ≤ Z.of_nat (length (trim capacity max_bytes len l)) + 1 ∨
  (max_bytes ≠ 0 ∧ max_bytes < sum_len (drop (length k - 1) l) + len).
Proof.
  revert k. induction l as [|u l IH]; intros k Hk Hne; [by destruct k|].
  cbn [trim] in *. destruct (_ || _) eqn:E.
  2:{ destruct k; [done|]. apply (f_equal length) in Hk. rewrite length_app in Hk. cbn in Hk. lia. }
  destruct k as [|v k]; [done|]. injection Hk as -> Hk. destruct k as [|v' k].
  - cbn [app] in Hk. rewrite <- Hk. apply orb_prop in E as [E%Z.leb_le|[E1 E2%Z.ltb_lt]%andb_prop].
    + left. cbn [length] in E. lia.
    + right. split; [|exact E2]. intros ->. done.
  - destruct (IH (v' :: k) Hk) as [|[? Hlt]]; [done|by left|]. right. split; [done|].
    replace (length (v :: v' :: k) - 1)%nat with (S (length (v' :: k) - 1)) by (cbn; lia). exact Hlt.
Qed.

Lemma full_trim q l len :
  sq_is q l → 0 ≤ len < 2 ^ 48 →
  srt_full q len = match l with
                   | [] => false
                   | _ :: _ => (sq_capacity q <=? Z.of_nat (length l))
                       || (negb (sq_max_bytes q =? 0) && (sq_max_bytes q <? sum_len l + len))
                   end.
Proof.
  intros H Hl. unfold srt_full. pose proof (qi_head _ _ H). pose proof (qi_seq _ _ H).
  pose proof (qi_tail _ _ H). pose proof (bytes_bound _ _ H). pose proof (qi_bytes _ _ H) as Hb.
  fold (sum_len l) in Hb. rewrite !u64_small by lia. rewrite Hb.
  replace (sq_head q - sq_tail q) with (Z.of_nat (length l)) by lia.
  destruct l as [|u l]; [by rewrite (proj2 (Z.ltb_ge _ _)) by (cbn in *; lia)|].
  by rewrite (proj2 (Z.ltb_lt _ _)) by (cbn [length] in *; lia).
Qed.

(** [n] units were lost. *)
Definition lost (n : Z) (q q' : srt_queue) : Prop :=
  u64 (sq_dropped q') = u64 (sq_dropped q + n) ∧
  sq_resync q' = sq_resync q || (0 <? n).

Lemma lost_trans n m a b c :
  0 ≤ n → 0 ≤ m → lost n a b → lost m b c → lost (n + m) a c.
Proof.
  intros Hn Hm [H1 R1] [H2 R2]. split.
  - rewrite H2. rewrite <- (u64_add_l (sq_dropped b)), H1, u64_add_l. f_equal. lia.
  - rewrite R2, R1. destruct (sq_resync a); [done|]. cbn [orb].
    destruct (Z.ltb_spec 0 n), (Z.ltb_spec 0 m), (Z.ltb_spec 0 (n + m)); (done || lia).
Qed.
Lemma lost_none q : lost 0 q q.
Proof. split; [by rewrite Z.add_0_r|by rewrite orb_false_r]. Qed.

Lemma wp_evict_loop len L fuel : ∀ q l s,
  sq_is q l → owns s (holds q ++ L) → 0 ≤ len < 2 ^ 48 → (length l ≤ fuel)%nat →
  wp (evict_loop fuel q len) (λ q' s',
    let l' := trim (sq_capacity q) (sq_max_bytes q) len l in
    let n := Z.of_nat (length l) - Z.of_nat (length l') in
    sq_is q' l' ∧ owns s' (holds q' ++ L) ∧ evolves s s' ∧ same_conf q q' ∧
    sq_tail q' = sq_tail q + n ∧ lost n q q') s.
Proof.
  induction fuel as [|fuel IH]; intros q l s H Ho Hlen Hf; cbn [evict_loop];
    rewrite (full_trim q l len H Hlen).
  { destruct l; [|cbn in Hf; lia]. apply wp_ret. cbn. rewrite Z.add_0_r.
    split_and!; try done. apply lost_none. }
  destruct l as [|u l].
  { apply wp_ret. cbn. rewrite Z.add_0_r. split_and!; try done. apply lost_none. }
  cbn [trim]. destruct (_ || _) eqn:E.
  2:{ apply wp_ret. cbn zeta. rewrite Z.sub_diag, Z.add_0_r. split_and!; try done. apply lost_none. }
  pose proof (qi_head _ _ H) as Hh. cbn [length] in Hh, Hf.
  apply wp_bind. unfold srt_queue_evict. rewrite (proj2 (Z.leb_gt _ _)) by lia.
  apply wp_bind. eapply wp_mono; [by apply (wp_unit_retire q u l L)|].
  intros q1 s1 (H1 & Ho1 & Hev1 & (Hc1 & Hm1 & Hh1 & Hp1) & Ht1 & Hd1 & Hr1).
  apply wp_ret. set (q2 := _ <| sq_resync := true |>).
  assert (sq_is q2 l) as H2 by (by destruct H1).
  eapply wp_mono; [apply (IH q2 l s1 H2); [done|done|lia]|]. cbn zeta.
  intros q3 s3. change (sq_capacity q2) with (sq_capacity q1). change (sq_max_bytes q2) with (sq_max_bytes q1).
  rewrite Hc1, Hm1. intros (H3 & Ho3 & Hev3 & (Hc3 & Hm3 & Hh3 & Hp3) & Ht3 & Hl3).
  pose proof (trim_length (sq_capacity q) (sq_max_bytes q) len l).
  split_and!; [done|done|by etrans| |rewrite Ht3; change (sq_tail q2) with (sq_tail q1); cbn [length]; lia|].
  - unfold same_conf. rewrite Hc3, Hm3, Hh3, Hp3. by split_and!.
  - replace (_ - _) with (1 + (Z.of_nat (length l) - Z.of_nat (length (trim (sq_capacity q) (sq_max_bytes q) len l))))
      by (cbn [length]; lia).
    apply (lost_trans _ _ _ q2); [lia|lia| |exact Hl3]. split.
    + cbn. rewrite Hd1. unfold u64. by rewrite Z.mod_mod.
    + cbn. by rewrite orb_true_r.
Qed.

(** A new unit takes the free slot at the head. *)
Lemma sq_is_put q l u :
  sq_is q l → Z.of_nat (length l) < sq_capacity q → sq_head q + 1 < 2 ^ 64 →
  unit_ok u (sq_head q) → (sq_max_bytes q ≠ 0 → sum_len l + su_len u ≤ sq_max_bytes q) →
  ∃ v, unit_at q (sq_head q) = Some v ∧ su_burst v = None ∧
    let q' := (unit_put (sq_head q) u q) <| sq_bytes ::= λ n, n ⊕ su_len u |>
                <| sq_head ::= λ n, n ⊕ 1 |> <| sq_pushed ::= λ n, n ⊕ 1 |> in
    sq_is q' (l ++ [u]) ∧ holds q' ≡ₚ holds u ++ holds q.
Proof.
  intros H Hroom Hseq Hok Hmax. destruct (index_of _ _ (sq_head q) H) as [Hi Hlt].
  destruct (lookup_lt_is_Some_2 _ _ Hlt) as [v Hv].
  pose proof (qi_head _ _ H) as Hh. pose proof (qi_tail _ _ H). pose proof (bytes_bound _ _ H).
  assert (su_burst v = None) as Hvn.
  { destruct (su_burst v) as [b|] eqn:E; [|done].
    destruct (qi_dead _ _ H _ v Hv) as (k & Hk & Hik); [congruence|].
    apply (index_inj _ _ _ _ H) in Hik; lia. }
  exists v. split; [unfold unit_at; by rewrite Hi|]. split; [done|].
  rewrite (unit_put_at _ _ _ _ Hi). cbn zeta. set (i := Z.to_nat (sq_head q mod sq_capacity q)) in *.
  set (q' := _ <| sq_pushed ::= _ |>). destruct Hok as (Hb & Hs & Hl).
  assert (sq_head q' = sq_head q + 1) as Hh' by (apply u64_small; lia).
  assert (sq_bytes q' = sum_len (l ++ [u])) as Hb'.
  { change (sq_bytes q ⊕ su_len u = sum_len (l ++ [u])). unfold sum_len. rewrite fmap_app, sumZ_app. cbn.
    rewrite u64_small by lia. pose proof (qi_bytes _ _ H). lia. }
  split.
  - pose proof (qi_max _ _ H) as [Hm1 Hm2]. split; try apply H.
    + cbn. rewrite length_insert. apply H.
    + rewrite length_app. change (sq_capacity q') with (sq_capacity q). cbn [length]. lia.
    + rewrite Hh'. change (sq_tail q') with (sq_tail q). rewrite length_app. cbn [length]. lia.
    + lia.
    + intros k x. change (sq_tail q') with (sq_tail q). unfold unit_at. change (unit_index q') with (unit_index q).
      change (sq_units q') with (<[i := u]> (sq_units q)).
      intros [Hk|[Hge Hk]]%lookup_app_Some.
      * destruct (qi_live _ _ H k x Hk) as [Hx Hxok]. split; [|done]. unfold unit_at in Hx.
        pose proof (lookup_lt_Some _ _ _ Hk).
        destruct (index_of _ _ (sq_tail q + Z.of_nat k) H) as [Hj _]. rewrite Hj in Hx |- *. cbn [mbind option_bind] in Hx |- *.
        rewrite list_lookup_insert_ne; [done|]. intros E. apply (index_inj _ _ _ _ H) in E; lia.
      * apply list_lookup_singleton_Some in Hk as [Hk <-].
        replace (sq_tail q + Z.of_nat k) with (sq_head q) by lia. rewrite Hi. cbn [mbind option_bind].
        rewrite list_lookup_insert_eq by done. by split_and!.
    + intros j x. change (sq_units q') with (<[i := u]> (sq_units q)).
      change (sq_capacity q') with (sq_capacity q). change (sq_tail q') with (sq_tail q). rewrite length_app. cbn [length].
      intros [(-> & <- & _)|[Hne Hj]]%list_lookup_insert_Some Hx.
      * exists (length l). split; [lia|]. rewrite <- Hh. destruct (index_of _ _ (sq_head q) H). congruence.
      * destruct (qi_dead _ _ H j x Hj Hx) as (k & Hk & E). exists k. split; [lia|done].
    + exact Hb'.
    + split; [done|]. change (sq_max_bytes q') with (sq_max_bytes q). intros Hnz. rewrite Hb'.
      unfold sum_len. rewrite fmap_app, sumZ_app. cbn. specialize (Hmax Hnz). unfold sum_len in Hmax. lia.
  - change (holds q') with (holds (<[i := u]> (sq_units q))). rewrite (holds_insert _ i v) by done.
    change (holds q) with (holds (sq_units q)). rewrite (holds_delete (sq_units q) i v) by done.
    assert (holds v = []) as -> by (unfold holds, owner_srt_unit; by rewrite Hvn). done.
Qed.

(** A burst too large for the whole queue. *)
Definition oversize (q : srt_queue) (len : Z) : bool :=
  negb (sq_max_bytes q =? 0) && (sq_max_bytes q <? len).

(** What a push of burst [b] does to a queue that holds [l]. *)
Definition push_post (q : srt_queue) (l : list srt_unit) (u : srt_unit) (q' : srt_queue)
    (l' : list srt_unit) : Prop :=
  sq_is q' l' ∧ sq_capacity q' = sq_capacity q ∧ sq_max_bytes q' = sq_max_bytes q ∧
  if oversize q (su_len u) then l' = l ∧ sq_tail q' = sq_tail q ∧ sq_head q' = sq_head q ∧ lost 1 q q'
  else
    let kept := trim (sq_capacity q) (sq_max_bytes q) (su_len u) l in
    let n := Z.of_nat (length l) - Z.of_nat (length kept) in
    l' = kept ++ [u] ∧ sq_tail q' = sq_tail q + n ∧ sq_head q' = sq_head q + 1 ∧ lost n q q'.

Lemma wp_srt_queue_push q l b len keyframe now L s :
  sq_is q l → owns s (holds q ++ L) → b ∈ L → 0 < len < 2 ^ 48 → sq_head q + 1 < 2 ^ 64 →
  wp (srt_queue_push q (Some b) len keyframe now) (λ r s', r.1 = NGX_OK ∧
    owns s' (holds r.2 ++ L) ∧ evolves s s' ∧
    ∃ l', push_post q l (mk_unit (Some b) len (sq_head q) now keyframe) r.2 l') s.
Proof.
  intros H Ho Hb Hlen Hseq. unfold srt_queue_push, push_post. rewrite (proj2 (Z.eqb_neq len 0)) by lia.
  cbn [su_len]. unfold oversize. destruct (negb (sq_max_bytes q =? 0) && (sq_max_bytes q <? len)) eqn:Eo.
  { apply wp_ret. cbn [fst snd]. split_and!; [done..|]. exists l. split_and!; try done; [by destruct H|].
    split; cbn; [unfold u64; by rewrite Z.mod_mod|by rewrite orb_true_r]. }
  assert (sq_max_bytes q ≠ 0 → len ≤ sq_max_bytes q) as Hfit.
  { intros Hnz. rewrite (proj2 (Z.eqb_neq _ _) Hnz) in Eo. by apply Z.ltb_ge in Eo. }
  pose proof (qi_head _ _ H) as Hh. pose proof (qi_cap _ _ H) as Hcap.
  apply wp_bind. eapply wp_mono; [apply (wp_evict_loop len L); [done|done|lia|lia]|]. cbn zeta.
  set (kept := trim _ _ _ l). intros q1 s1 (H1 & Ho1 & Hev1 & (Hc1 & Hm1 & Hh1 & Hp1) & Ht1 & Hl1).
  destruct (trim_room (sq_capacity q) (sq_max_bytes q) len l) as [Hr1 Hr2]; [lia|done|]. fold kept in Hr1, Hr2.
  rewrite <- Hh1. set (u := mk_unit (Some b) len (sq_head q1) now keyframe).
  destruct (sq_is_put q1 kept u H1) as (v & Hv & Hvn & Hput & Hholds); [lia|lia|split; [by eexists|by split]|rewrite Hm1; exact Hr2|].
  apply wp_bind. eapply wp_read; [exact Hv|]. rewrite Hvn. apply wp_bind, wp_ret.
  apply wp_bind. eapply wp_mono; [apply (wp_buf_ref b (holds q1 ++ L) s1); [done|set_solver]|].
  intros r s2 (-> & Ho2 & Hev2). apply wp_ret. fold u. cbn [fst snd].
  split_and!; [done| |by etrans|].
  - change (su_len u) with len in Hholds. rewrite Hholds. exact Ho2.
  - exists (kept ++ [u]). split; [exact Hput|]. destruct (unit_put_units (sq_head q1) u q1) as [us ->].
    split_and!; [done|done|done|done| |exact Hl1].
    apply (u64_small (sq_head q1 + 1)). pose proof (qi_tail _ _ H). lia.
Qed.

(** ** The consumer *)

(** What a consumer at [cursor] may be given: a unit it has not passed, and a sync boundary
    when it has to resume. *)
Definition eligible (q : srt_queue) (cursor : Z) (u : srt_unit) : bool :=
  (cursor <=? su_sequence u) && (negb (sq_resync q) || su_keyframe u).

Lemma find_from (P : srt_unit → bool) l : ∀ t cursor,
  (∀ (k : nat) u, l !! k = Some u → su_sequence u = t + Z.of_nat k) →
  List.find (λ u, (cursor <=? su_sequence u) && P u) l = List.find P (drop (Z.to_nat (cursor - t)) l).
Proof.
  induction l as [|u l IH]; intros t cursor Hs; [by rewrite drop_nil|].
  pose proof (Hs O u eq_refl) as Hu. cbn [List.find].
  assert (∀ (k : nat) v, l !! k = Some v → su_sequence v = t + 1 + Z.of_nat k) as Hs'.
  { intros k v Hk. rewrite (Hs (S k) v Hk). lia. }
  rewrite (IH (t + 1) cursor Hs'). destruct (Z.leb_spec cursor (su_sequence u)); cbn [andb].
  - replace (Z.to_nat (cursor - t)) with O by lia. replace (Z.to_nat (cursor - (t + 1))) with O by lia.
    by rewrite !drop_0.
  - replace (Z.to_nat (cursor - t)) with (S (Z.to_nat (cursor - (t + 1)))) by lia. done.
Qed.

Lemma next_keyframe_find q l n : ∀ k,
  sq_is q l → (n + k = length l)%nat →
  match List.find su_keyframe (drop k l) with
  | Some u => next_keyframe n q (sq_tail q + Z.of_nat k) = Some (su_sequence u) ∧
              unit_at q (su_sequence u) = Some u ∧ su_sequence u < sq_head q
  | None => next_keyframe n q (sq_tail q + Z.of_nat k) = Some (sq_head q)
  end.
Proof.
  induction n as [|n IH]; intros k H Hk; pose proof (qi_head _ _ H) as Hh.
  { rewrite drop_ge by lia. cbn. f_equal. lia. }
  destruct (lookup_lt_is_Some_2 l k) as [u Hu]; [lia|]. rewrite (drop_S l u k Hu).
  destruct (qi_live _ _ H k u Hu) as [Hat ([b Hb] & Hs & Hl)]. cbn [List.find next_keyframe]. rewrite Hat.
  cbn [mbind option_bind]. rewrite bool_decide_true by by rewrite Hb. cbn [andb].
  destruct (su_keyframe u).
  - rewrite Hs. split_and!; [done|done|lia].
  - pose proof (qi_tail _ _ H). pose proof (qi_seq _ _ H). rewrite u64_small by lia.
    replace (sq_tail q + Z.of_nat k + 1) with (sq_tail q + Z.of_nat (S k)) by lia. apply IH; [done|lia].
Qed.

Lemma next_find q l cursor :
  sq_is q l → srt_queue_next q cursor = Some (List.find (eligible q cursor) l).
Proof.
  intros H. unfold srt_queue_next, eligible. pose proof (qi_head _ _ H) as Hh.
  rewrite (find_from (λ u, negb (sq_resync q) || su_keyframe u) l (sq_tail q) cursor)
    by (intros k u Hk; apply (qi_live _ _ H _ _ Hk)).
  destruct (Z.leb_spec (sq_head q) (sq_tail q)) as [|Hne].
  { destruct l; [by rewrite drop_nil|cbn [length] in Hh; lia]. }
  set (k := Z.to_nat (cursor - sq_tail q)).
  replace (if cursor <? sq_tail q then sq_tail q else cursor) with (sq_tail q + Z.of_nat k)
    by (destruct (Z.ltb_spec cursor (sq_tail q)); lia).
  destruct (decide (length l < k)%nat) as [Hbig|Hle].
  { rewrite (drop_ge l) by lia. cbn [List.find].
    replace (Z.to_nat (sq_head q - (sq_tail q + Z.of_nat k))) with O by lia. cbn [next_keyframe].
    destruct (sq_resync q); cbn [mbind option_bind]; by rewrite (proj2 (Z.leb_le _ _)) by lia. }
  destruct (sq_resync q); cbn [negb orb].
  - pose proof (next_keyframe_find q l (Z.to_nat (sq_head q - (sq_tail q + Z.of_nat k))) k H ltac:(lia)) as Hf.
    change (List.find (λ u, su_keyframe u)) with (List.find su_keyframe).
    destruct (List.find su_keyframe (drop k l)) as [u|] eqn:Ef.
    + destruct Hf as (-> & Hat & Hlt). cbn [mbind option_bind]. rewrite (proj2 (Z.leb_gt _ _)) by lia.
      rewrite Hat. cbn [mbind option_bind].
      apply find_some in Ef as [Hin _]. apply list_elem_of_In in Hin.
      apply list_elem_of_lookup_1 in Hin as [j Hj]. rewrite lookup_drop in Hj.
      destruct (qi_live _ _ H _ _ Hj) as [_ ([b Hb] & _)]. by rewrite Hb.
    + rewrite Hf. cbn [mbind option_bind]. by rewrite (proj2 (Z.leb_le _ _)) by lia.
  - cbn [mbind option_bind]. destruct (Z.leb_spec (sq_head q) (sq_tail q + Z.of_nat k)).
    { by rewrite (drop_ge l) by lia. }
    destruct (lookup_lt_is_Some_2 l k) as [u Hu]; [lia|]. rewrite (drop_S l u k Hu).
    destruct (qi_live _ _ H k u Hu) as [Hat ([b Hb] & _)]. rewrite Hat. cbn. by rewrite Hb.
Qed.

Lemma wp_units_retire next L fuel : ∀ q l s,
  sq_is q l → owns s (holds q ++ L) → (length l ≤ fuel)%nat →
  wp (units_loop fuel q next) (λ q' s',
    let l' := drop (Z.to_nat (next - sq_tail q)) l in
    sq_is q' l' ∧ owns s' (holds q' ++ L) ∧ evolves s s' ∧ same_conf q q' ∧
    sq_tail q' = sq_tail q + (Z.of_nat (length l) - Z.of_nat (length l')) ∧
    sq_dropped q' = sq_dropped q ∧ sq_resync q' = sq_resync q) s.
Proof.
  induction fuel as [|fuel IH]; intros q l s H Ho Hf; cbn [units_loop]; pose proof (qi_head _ _ H) as Hh.
  { destruct l; [|cbn in Hf; lia]. rewrite (proj2 (Z.ltb_ge _ (sq_head q))), andb_false_r by (cbn in Hh; lia).
    apply wp_ret. rewrite drop_nil. cbn. split_and!; try done. lia. }
  destruct (Z.ltb_spec (sq_tail q) next) as [Hlt|Hge]; cbn [andb].
  2:{ apply wp_ret. replace (Z.to_nat (next - sq_tail q)) with O by lia. rewrite drop_0. cbn zeta.
      split_and!; try done. lia. }
  destruct l as [|u l].
  { rewrite (proj2 (Z.ltb_ge _ _)) by (cbn in Hh; lia). apply wp_ret. rewrite drop_nil. cbn.
    split_and!; try done. lia. }
  cbn [length] in Hh, Hf. rewrite (proj2 (Z.ltb_lt _ _)) by lia.
  apply wp_bind. eapply wp_mono; [by apply (wp_unit_retire q u l L)|].
  intros q1 s1 (H1 & Ho1 & Hev1 & (Hc1 & Hm1 & Hh1 & Hp1) & Ht1 & Hd1 & Hr1).
  eapply wp_mono; [apply (IH q1 l s1 H1 Ho1); lia|]. cbn zeta.
  intros q3 s3 (H3 & Ho3 & Hev3 & (Hc3 & Hm3 & Hh3 & Hp3) & Ht3 & Hd3 & Hr3). rewrite Ht1 in *.
  replace (Z.to_nat (next - sq_tail q)) with (S (Z.to_nat (next - (sq_tail q + 1)))) by lia.
  cbn [drop]. split_and!; [done|done|by etrans| |cbn [length]; lia|congruence|congruence].
  unfold same_conf. rewrite Hc3, Hm3, Hh3, Hp3. by split_and!.
Qed.

Lemma wp_srt_queue_advance q l sequence L s :
  sq_is q l → owns s (holds q ++ L) → 0 ≤ sequence → sequence + 1 < 2 ^ 64 →
  wp (srt_queue_advance q sequence) (λ r s',
    let l' := drop (Z.to_nat (sequence + 1 - sq_tail q)) l in
    r.2 = sequence + 1 ∧ sq_is r.1 l' ∧ owns s' (holds r.1 ++ L) ∧ evolves s s' ∧
    same_conf q r.1 ∧ sq_tail r.1 = sq_tail q + (Z.of_nat (length l) - Z.of_nat (length l')) ∧
    sq_resync r.1 = sq_resync q && (sequence <? sq_tail q)) s.
Proof.
  intros H Ho Hs0 Hs. unfold srt_queue_advance. rewrite u64_small by lia.
  match goal with |- context [if ?c then ?x else q] => set (q0 := if c then x else q) end. pose proof (qi_head _ _ H) as Hh.
  assert (sq_is q0 l ∧ holds q0 = holds q ∧ same_conf q q0 ∧ sq_tail q0 = sq_tail q ∧
    sq_resync q0 = sq_resync q && (sequence <? sq_tail q)) as (H0 & Hh0 & Hc0 & Ht0 & Hr0).
  { unfold q0. destruct (Z.leb_spec (sq_tail q) sequence), (Z.ltb_spec sequence (sq_tail q)), (sq_resync q) eqn:E;
      try lia; cbn [andb]; (split_and!; [by destruct H|done|by split_and!|done|done]). }
  apply wp_bind. eapply wp_mono; [apply (wp_units_retire (sequence + 1) L _ q0 l)|].
  - done.
  - by rewrite Hh0.
  - destruct Hc0 as (_ & _ & -> & _). lia.
  - cbn zeta. rewrite Ht0. intros q1 s1 (H1 & Ho1 & Hev1 & Hc1 & Ht1 & _ & Hr1). apply wp_ret. cbn [fst snd].
    destruct Hc0 as (? & ? & ? & ?), Hc1 as (? & ? & ? & ?).
    split_and!; [done|done|done|done|unfold same_conf; split_and!; congruence|done|congruence].
Qed.

Lemma take_slots q l : sq_is q l → holds (su_burst <$> take (Z.to_nat (sq_capacity q)) (sq_units q)) ≡ₚ holds q.
Proof.
  intros H. change (holds q) with (holds (sq_units q)).
  rewrite <- (take_drop (Z.to_nat (sq_capacity q)) (sq_units q)) at 2. rewrite holds_app.
  assert (holds (drop (Z.to_nat (sq_capacity q)) (sq_units q)) = []) as ->.
  { apply elem_of_nil_inv. intros x (u & Hx & Hu)%list_elem_of_bind.
    apply list_elem_of_lookup_1 in Hu as [j Hj]. rewrite lookup_drop in Hj.
    destruct (su_burst u) as [b|] eqn:E; [|unfold holds, owner_srt_unit in Hx; rewrite E in Hx; set_solver].
    destruct (qi_dead _ _ H _ u Hj) as (k & Hk & Hik); [congruence|].
    pose proof (qi_cap _ _ H). pose proof (Z.mod_pos_bound (sq_tail q + Z.of_nat k) (sq_capacity q)). lia. }
  rewrite app_nil_r. generalize (take (Z.to_nat (sq_capacity q)) (sq_units q)). intros us.
  induction us as [|u us IH]; [done|]. cbn [fmap list_fmap]. by rewrite !holds_cons, IH.
Qed.

Lemma wp_srt_queue_destroy q l L s :
  sq_is q l → owns s (holds q ++ L) →
  wp (srt_queue_destroy q) (λ q' s', q' = srt_queue_zero ∧ owns s' L ∧ evolves s s') s.
Proof.
  intros H Ho. apply wp_bind. eapply wp_mono; [apply (wp_unref_all _ L)|].
  - eapply owns_proper; [|exact Ho]. by rewrite (take_slots q l H).
  - intros [] s' [? ?]. by apply wp_ret.
Qed.

(** C37: a full SRT queue keeps the newest units. Pushing a burst always answers NGX_OK.
    A burst that fits the byte ceiling becomes the youngest unit, under the next number and
    with a reference of its own; of the units before it, some oldest ones leave - their
    bursts given back - and no more than its room needs: with the last of them still there,
    the ring would be full or the bytes beyond the ceiling. The units that left are counted,
    and behind the gap the consumer, wherever its cursor is, is next given a unit that starts
    at a sync boundary. A burst larger than the ceiling is dropped and counted instead:
    nothing is queued and nothing leaves, and the resumption flag is set (which the units
    queued before it can clear: see [oversize_resync_lost]). *)
Theorem srt_push_keeps_newest q l b len keyframe now L s :
  sq_is q l → owns s (holds q ++ L) → b ∈ L → 0 < len < 2 ^ 48 → sq_head q + 1 < 2 ^ 64 →
  ∃ q' s' gone kept,
    srt_queue_push q (Some b) len keyframe now s = Some ((NGX_OK, q'), s') ∧
    owns s' (holds q' ++ L) ∧ l = gone ++ kept ∧ sq_tail q' = sq_tail q + Z.of_nat (length gone) ∧
    if oversize q len then gone = [] ∧ sq_is q' kept ∧ lost 1 q q'
    else sq_is q' (kept ++ [mk_unit (Some b) len (sq_head q) now keyframe]) ∧
      lost (Z.of_nat (length gone)) q q' ∧
      (gone ≠ [] → ∀ cursor u, srt_queue_next q' cursor = Some (Some u) → su_keyframe u = true) ∧
      (gone ≠ [] → sq_capacity q ≤ Z.of_nat (length kept) + 1 ∨
         (sq_max_bytes q ≠ 0 ∧ sq_max_bytes q < sum_len (drop (length gone - 1) l) + len)).
Proof.
  intros H Ho Hb Hlen Hseq.
  destruct (wp_srt_queue_push q l b len keyframe now L s) as ([r q'] & s' & Hrun & Hr & Ho' & _ & l' & Hpost);
    [done..|]. cbn [fst snd] in *. subst r. destruct Hpost as (His & _ & _ & Hpost). cbn [su_len] in Hpost.
  destruct (oversize q len).
  - destruct Hpost as (-> & Ht & _ & Hl). exists q', s', [], l. split_and!; try done. cbn. lia.
  - destruct Hpost as (-> & Ht & _ & Hl). set (kept := trim _ _ _ l) in *.
    destruct (trim_suffix (sq_capacity q) (sq_max_bytes q) len l) as [gone Hg]. fold kept in Hg.
    assert (Z.of_nat (length l) - Z.of_nat (length kept) = Z.of_nat (length gone)) as En.
    { rewrite Hg, length_app. lia. }
    rewrite En in *. exists q', s', gone, kept. split_and!; try done.
    + intros Hne cursor u Hu. rewrite (next_find _ _ cursor His) in Hu.
      injection Hu as [_ [_ Hk]%andb_prop]%find_some. destruct Hl as [_ Hr]. rewrite Hr in Hk.
      destruct gone; [done|]. cbn [length] in Hk. rewrite (proj2 (Z.ltb_lt _ _)), orb_true_r in Hk by lia. done.
    + intros Hne. by apply trim_least.
Qed.
(** Two slots, both used. *)
Definition ex_unit (n : Z) : srt_unit := mk_unit (Some 0%N) 10 n 0 true.
Definition ex_queue : srt_queue :=
  mk_sq (ex_unit 0 :: ex_unit 1 :: replicate 254 unit_zero) 2 0 2 0 20 0 2 false.
Definition ex_qstore : store := mk_store {[ 0%N := mk_buf 3 100 100 [] ]} 1 (λ _ _, true).
Lemma ex_queue_is : sq_is ex_queue [ex_unit 0; ex_unit 1].
Proof.
  split; try done.
  - intros [|[|k]] u [= <-]; (split; [done|]; split; [by eexists|done]).
  - intros [|[|i]] u; [by exists 0%nat; split; [cbn; lia|]|by exists 1%nat; split; [cbn; lia|]|].
    intros [-> _]%(lookup_replicate_1 254 unit_zero). done.
Qed.
Lemma ex_qstore_owns : owns ex_qstore (holds ex_queue ++ [0%N]).
Proof.
  split; [split|..]; cbn.
  - intros id b [<- _]%lookup_singleton_Some. lia.
  - intros id b [_ <-]%lookup_singleton_Some. cbn. lia.
  - intros id b [<- <-]%lookup_singleton_Some. done.
  - intros id Hid%lookup_singleton_None. set_solver.
Qed.
Lemma srt_push_keeps_newest_witness :
  ∃ q' s' gone kept, srt_queue_push ex_queue (Some 0%N) 30 false 5 ex_qstore = Some ((NGX_OK, q'), s') ∧
    [ex_unit 0; ex_unit 1] = gone ++ kept ∧ sq_is q' (kept ++ [mk_unit (Some 0%N) 30 2 5 false]) ∧
    sq_dropped q' = 1 ∧ srt_queue_next q' 0 = Some (Some (ex_unit 1)).
Proof.
  destruct (srt_push_keeps_newest ex_queue [ex_unit 0; ex_unit 1] 0%N 30 false 5 [0%N] ex_qstore)
    as (q' & s' & gone & kept & Hrun & _ & Hl & _ & Hq & _).
  - exact ex_queue_is.
  - exact ex_qstore_owns.
  - set_solver.
  - lia.
  - cbn. lia.
  - exists q', s', gone, kept. split_and!; [done..| |]; vm_compute in Hrun; by injection Hrun as <- _.
Defined.

(** A consumer takes the units in order. Asking for the next unit gives the oldest one
    at or behind the cursor - the oldest that starts at a sync boundary after a loss - or
    nothing when there is none, and changes nothing. When the unit was delivered, the units
    up to it leave, their bursts are given back, the cursor is behind it, and the consumer
    has resumed. *)
Theorem srt_consumer_in_order q l cursor L s :
  sq_is q l → owns s (holds q ++ L) →
  (srt_queue_next q cursor = Some None ∧ Forall (λ u, eligible q cursor u = false) l) ∨
  ∃ before u after,
    srt_queue_next q cursor = Some (Some u) ∧ l = before ++ u :: after ∧
    eligible q cursor u = true ∧ Forall (λ u, eligible q cursor u = false) before ∧
    ∃ q' s', srt_queue_advance q (su_sequence u) s = Some ((q', su_sequence u + 1), s') ∧
      sq_is q' after ∧ owns s' (holds q' ++ L) ∧ sq_resync q' = false.
Proof.
  intros H Ho. rewrite (next_find q l cursor H).
  assert (∀ k, (List.find (eligible q cursor) k = None ∧ Forall (λ u, eligible q cursor u = false) k) ∨
    ∃ before u after, List.find (eligible q cursor) k = Some u ∧ k = before ++ u :: after ∧
      eligible q cursor u = true ∧ Forall (λ u, eligible q cursor u = false) before) as Hfind.
  { induction k as [|u k IH]; [by left|]. cbn [List.find]. destruct (eligible q cursor u) eqn:E.
    - right. by exists [], u, k.
    - destruct IH as [[-> Hk]|(be & v & af & -> & -> & Hv & Hk)]; [left; by split; [|constructor]|].
      right. exists (u :: be), v, af. split_and!; [done..|by constructor]. }
  destruct (Hfind l) as [[-> Hl]|(be & u & af & -> & El & Hu & Hbe)]; [by left|]. right.
  exists be, u, af. split_and!; try done.
  assert (l !! length be = Some u) as Hk by (rewrite El; by rewrite list_lookup_middle).
  destruct (qi_live _ _ H _ _ Hk) as [_ (_ & Hs & _)]. pose proof (qi_tail _ _ H). pose proof (qi_seq _ _ H).
  pose proof (qi_head _ _ H) as Hh. rewrite El, length_app in Hh. cbn [length] in Hh.
  destruct (wp_srt_queue_advance q l (su_sequence u) L s) as ([q' c] & s' & Hrun & Hc & His & Ho' & _ & _ & _ & Hr);
    [done|done|lia|lia|]. cbn [fst snd] in *. subst c. exists q', s'. split; [exact Hrun|]. split; [|split; [done|]].
  - replace (Z.to_nat (su_sequence u + 1 - sq_tail q)) with (length (be ++ [u])) in His
      by (rewrite length_app; cbn [length]; lia).
    replace l with ((be ++ [u]) ++ af) in His by (rewrite El; by rewrite <- app_assoc).
    by rewrite drop_app_length in His.
  - rewrite Hr, (proj2 (Z.ltb_ge _ _)) by lia. apply andb_false_r.
Qed.
Lemma srt_consumer_in_order_witness :
  srt_queue_next ex_queue 1 = Some (Some (ex_unit 1)) ∧
  ∃ q' s', srt_queue_advance ex_queue 1 ex_qstore = Some ((q', 2), s') ∧ sq_is q' [].
Proof.
  split; [done|].
  destruct (srt_consumer_in_order ex_queue [ex_unit 0; ex_unit 1] 1 [0%N] ex_qstore ex_queue_is ex_qstore_owns)
    as [[Hn _]|([|x [|y [|z be]]] & u & af & Hn & El & Hu & _ & q' & s' & Hrun & His & _)]; try done.
  - injection El as <- <-. done.
  - injection El as <- <- <-. by exists q', s'.
Defined.

(** The resumption flag has no position: a burst too large for the queue is lost between
    two units, but delivering the keyframe queued before it is taken for the resumption, and
    the unit behind the gap is delivered although it is not at a sync boundary. *)
Lemma oversize_resync_lost :
  ∃ r, (let q := srt_queue_init 4 20 in
        '(_, q) ← srt_queue_push q (Some 0%N) 10 true 1;
        '(_, q) ← srt_queue_push q (Some 0%N) 30 false 2;
        '(q, cursor) ← srt_queue_advance q 0;
        '(_, q) ← srt_queue_push q (Some 0%N) 10 false 3;
        mret (sq_dropped q, srt_queue_next q cursor))
       (mk_store {[ 0%N := mk_buf 1 100 100 [] ]} 1 (λ _ _, true))
    = Some ((1, Some (Some (mk_unit (Some 0%N) 10 1 3 false))), r).
Proof. eexists. vm_compute. reflexivity. Qed.
