(* ===== verification/SrtSender.v ===== *)
(** * The SRT sender

    Models one destination slot of srt/ngx_media_srt_output.c: adding and removing it,
    connecting, and sending the units of its queue.  The slot's mutex is dropped while the
    transport connects or sends, so each of the two is a pair of steps and everything else
    may happen between them.  The transport is the environment: it answers a connection
    attempt and a send with any value. *)
From S2P Require Import Prelude Bytes Store SrtQueue.

Definition SRT_SEND_CHUNK : Z := 1316.

(** The bytes of one send, as the transport was given them. *)
Record sent_chunk := mk_chunk {
  ck_burst : option N; ck_sequence : Z; ck_keyframe : bool; ck_len : Z; ck_offset : Z;
  ck_bytes : list Z }.

(** [used] stands for [used && running], which are set together.  [sd_call] and [sd_conn]
    are the locals of the thread that sends or connects while the mutex is free.
    [sd_wire] - the chunks the transport accepted on the present session, newest first - and
    [sd_sessions] - those of the sessions before - are what an observer sees, as is
    [sd_inflight_key]. *)
Record dest := mk_dest {
  sd_used : bool; sd_queue : srt_queue; sd_session : bool; sd_sending : bool;
  sd_connecting : bool; sd_cursor : Z; sd_epoch : Z;
  sd_inflight : option N; sd_inflight_sequence : Z; sd_inflight_len : Z;
  sd_inflight_offset : Z; sd_inflight_key : bool;
  sd_sent_bytes : Z; sd_sent_bursts : Z; sd_blocked_sends : Z; sd_transport_errors : Z;
  sd_reconnects : Z;
  sd_call : option (Z * list Z); sd_conn : option Z;
  sd_wire : list sent_chunk; sd_sessions : list (list sent_chunk) }.
#[global] Instance eta_dest : Eta dest := λ r,
  mk_dest (sd_used r) (sd_queue r) (sd_session r) (sd_sending r) (sd_connecting r)
    (sd_cursor r) (sd_epoch r) (sd_inflight r) (sd_inflight_sequence r) (sd_inflight_len r)
    (sd_inflight_offset r) (sd_inflight_key r) (sd_sent_bytes r) (sd_sent_bursts r)
    (sd_blocked_sends r) (sd_transport_errors r) (sd_reconnects r) (sd_call r) (sd_conn r)
    (sd_wire r) (sd_sessions r).
Definition dest_zero : dest :=
  mk_dest false srt_queue_zero false false false 0 0 None 0 0 0 false 0 0 0 0 0 None None [] [].

(** The slot is taken for a destination, when it is reusable. *)
Definition dest_add (capacity max_bytes : Z) (d : dest) : M dest :=
  if sd_used d || sd_sending d || sd_connecting d || sd_session d
     || bool_decide (sd_inflight d ≠ None) then mret d
  else
    _ ← srt_queue_destroy (sd_queue d);
    mret (d <| sd_queue := srt_queue_init capacity max_bytes |> <| sd_used := true |>
            <| sd_cursor := 0 |> <| sd_inflight_sequence := 0 |> <| sd_inflight_len := 0 |>
            <| sd_inflight_offset := 0 |> <| sd_sent_bytes := 0 |> <| sd_sent_bursts := 0 |>
            <| sd_blocked_sends := 0 |> <| sd_reconnects := 0 |> <| sd_transport_errors := 0 |>
            <| sd_connecting := false |> <| sd_epoch ::= λ n, n ⊕ 1 |>).

(** The unit on its way is given up. *)
Definition drop_inflight (d : dest) : M dest :=
  _ ← buf_unref (sd_inflight d);
  mret (d <| sd_inflight := None |> <| sd_inflight_len := 0 |> <| sd_inflight_offset := 0 |>).

Definition outputs_remove (d : dest) : M dest :=
  if negb (sd_used d) then mret d
  else
    let d := d <| sd_used := false |> <| sd_epoch ::= λ n, n ⊕ 1 |> in
    let d := if sd_session d && negb (sd_sending d) then d <| sd_session := false |> else d in
    d ← (if negb (sd_sending d) then drop_inflight d else mret d);
    q ← srt_queue_destroy (sd_queue d);
    mret (d <| sd_queue := q |>).

(** [dispatch]: a prepared burst for the program of this destination. *)
Definition dest_push (burst : N) (len : Z) (keyframe : bool) (now : Z) (d : dest) : M dest :=
  if sd_used d then
    '(_, q) ← srt_queue_push (sd_queue d) (Some burst) len keyframe now;
    mret (d <| sd_queue := q |>)
  else mret d.

(** [service] without a session: the attempt, and its answer. *)
Definition connect_begin (d : dest) : M dest :=
  mret (if negb (sd_used d) || sd_sending d || sd_connecting d || sd_session d then d
        else d <| sd_connecting := true |> <| sd_conn := Some (sd_epoch d) |>).
Definition connect_end (ok : bool) (d : dest) : M dest :=
  mret
    match sd_conn d with
    | None => d
    | Some epoch =>
        let d := d <| sd_conn := None |> in
        if negb (sd_epoch d =? epoch) || negb (sd_used d) then d <| sd_connecting := false |>
        else
          let d := d <| sd_connecting := false |> in
          if negb ok then
            d <| sd_reconnects ::= λ n, n ⊕ 1 |> <| sd_transport_errors ::= λ n, n ⊕ 1 |>
          else
            d <| sd_session := true |> <| sd_reconnects ::= λ n, n ⊕ 1 |> <| sd_cursor := 0 |>
              <| sd_queue ::= srt_queue_resync |>
              <| sd_sessions ::= λ l, sd_wire d :: l |> <| sd_wire := [] |>
    end.

(** [service] with a session: the next unit, or the rest of the one on its way, up to a
    chunk of it; and the answer of the transport. *)
Definition take_unit (d : dest) : M dest :=
  match sd_inflight d with
  | Some _ => mret d
  | None =>
      u ← sread (srt_queue_next (sd_queue d) (sd_cursor d));
      match u with
      | None => mret d
      | Some u =>
          b ← buf_ref (su_burst u);
          mret (d <| sd_inflight := b |> <| sd_inflight_sequence := su_sequence u |>
                  <| sd_inflight_len := su_len u |> <| sd_inflight_offset := 0 |>
                  <| sd_inflight_key := su_keyframe u |>)
      end
  end.
Definition send_begin (d : dest) : M dest :=
  if negb (sd_used d) || sd_sending d || sd_connecting d || negb (sd_session d) then mret d
  else
    d ← take_unit d;
    match sd_inflight d with
    | None => mret d
    | Some burst =>
        let offset := sd_inflight_offset d in
        let remaining := sd_inflight_len d ⊖ offset in
        let take_ := if SRT_SEND_CHUNK <? remaining then SRT_SEND_CHUNK else remaining in
        data ← buf_read burst (offset + take_);
        mret (d <| sd_sending := true |>
                <| sd_call := Some (sd_epoch d, drop (Z.to_nat offset) data) |>)
    end.

Definition wire_chunk (d : dest) (data : list Z) : sent_chunk :=
  mk_chunk (sd_inflight d) (sd_inflight_sequence d) (sd_inflight_key d) (sd_inflight_len d)
    (sd_inflight_offset d) data.

Definition send_end (r : Z) (d : dest) : M dest :=
  match sd_call d with
  | None => mret d
  | Some (epoch, data) =>
      let d := d <| sd_call := None |> <| sd_sending := false |> in
      let d := if (0 <? r) && (r <=? lenZ data)
               then d <| sd_wire ::= λ l, wire_chunk d (take (Z.to_nat r) data) :: l |> else d in
      if negb (sd_epoch d =? epoch) then drop_inflight (d <| sd_session := false |>)
      else if r =? 0 then mret (d <| sd_blocked_sends ::= λ n, n ⊕ 1 |>)
      else if (r <? 0) || (lenZ data <? r) then
        drop_inflight (d <| sd_transport_errors ::= λ n, n ⊕ 1 |> <| sd_session := false |>
                         <| sd_queue ::= srt_queue_resync |>)
      else
        let d := d <| sd_sent_bytes ::= λ n, n ⊕ r |> <| sd_inflight_offset ::= λ n, n ⊕ r |> in
        if sd_inflight_offset d =? sd_inflight_len d then
          '(q, cursor) ← srt_queue_advance (sd_queue d) (sd_inflight_sequence d);
          drop_inflight (d <| sd_queue := q |> <| sd_cursor := cursor |>
                           <| sd_sent_bursts ::= λ n, n ⊕ 1 |>)
        else mret d
  end.

(** [outputs_destroy]: the threads have been joined. *)
Definition outputs_destroy (d : dest) : M dest :=
  _ ← buf_unref (sd_inflight d);
  q ← srt_queue_destroy (sd_queue d);
  mret (d <| sd_session := false |> <| sd_inflight := None |> <| sd_queue := q |>).

(** What can happen to the slot. *)
Inductive dest_event :=
  | EvAdd (capacity max_bytes : Z) | EvRemove
  | EvPush (burst : N) (len : Z) (keyframe : bool) (now : Z)
  | EvConnect | EvConnected (ok : bool) | EvSend | EvSent (r : Z).
Definition dest_step (e : dest_event) : dest → M dest :=
  match e with
  | EvAdd capacity max_bytes => dest_add capacity max_bytes
  | EvRemove => outputs_remove
  | EvPush burst len keyframe now => dest_push burst len keyframe now
  | EvConnect => connect_begin
  | EvConnected ok => connect_end ok
  | EvSend => send_begin
  | EvSent r => send_end r
  end.
Fixpoint dest_run (es : list dest_event) (d : dest) : M dest :=
  match es with
  | [] => mret d
  | e :: es => d ← dest_step e d; dest_run es d
  end.

(** ** What the receiver of a session sees *)

(** A burst on the wire, and the bytes it was pushed with. *)
Record sent_burst := mk_sent { se_burst : N; se_sequence : Z; se_keyframe : bool; se_len : Z }.
Definition burst_bytes (s : store) (b : N) (len : Z) : list Z :=
  match st_bufs s !! b with Some bf => take (Z.to_nat len) (b_data bf) | None => [] end.
Definition sent_bytes (s : store) (u : sent_burst) : list Z := burst_bytes s (se_burst u) (se_len u).
Definition pushed (es : list dest_event) (b : N) (len : Z) (keyframe : bool) : Prop :=
  ∃ now, EvPush b len keyframe now ∈ es.

(** [v] may follow [u]: it is the next burst of the queue, or a later sync boundary. *)
Definition follows (u v : sent_burst) : Prop :=
  se_sequence v = se_sequence u + 1 ∨ se_sequence u < se_sequence v ∧ se_keyframe v = true.

(** The chunks of a session, newest first, as the bytes of a stream: bursts that were pushed,
    each whole, and of the last one its beginning, if not all; the first starts at a sync
    boundary and each of the others may follow the one before it. *)
Definition session_stream (s : store) (es : list dest_event) (wire : list sent_chunk) : Prop :=
  Forall (λ c, 0 < lenZ (ck_bytes c) ≤ 1316) wire ∧
  (wire = [] ∨
   ∃ us u part, concat (rev (ck_bytes <$> wire)) = concat (sent_bytes s <$> us) ++ part ∧
     part ≠ [] ∧ part `prefix_of` sent_bytes s u ∧
     Forall (λ u, pushed es (se_burst u) (se_len u) (se_keyframe u)) (us ++ [u]) ∧
     (∃ first, head (us ++ [u]) = Some first ∧ se_keyframe first = true) ∧
     ∀ i v w, (us ++ [u]) !! i = Some v → (us ++ [u]) !! S i = Some w → follows v w).

(** ** The slot's invariant *)

(** A slot as its fields. *)
Ltac dest_fields :=
  cbn [sd_used sd_queue sd_session sd_sending sd_connecting sd_cursor sd_epoch sd_inflight
    sd_inflight_sequence sd_inflight_len sd_inflight_offset sd_inflight_key
    sd_sent_bytes sd_sent_bursts sd_blocked_sends sd_transport_errors sd_reconnects
    sd_call sd_conn sd_wire sd_sessions setf].
Ltac open_dest d :=
  destruct d as [used q ses sndg cng cur ep inf iseq ilen ioff ikey sb sbu bl te re call conn wire sess];
  dest_fields.


(** [n] bytes of burst [b] can be read. *)
Definition readable (s : store) (b : N) (n : Z) : Prop :=
  ∃ bf, st_bufs s !! b = Some bf ∧ n ≤ lenZ (b_data bf).

#[global] Instance owner_dest : Owner dest := λ d, holds (sd_queue d) ++ option_list (sd_inflight d).

Section Sender.
(** The store the bursts were pushed from, and what was pushed. *)
Context (s0 : store) (P : N → Z → bool → Prop).

(** They can be read and are as they were. *)
Definition fits (s : store) (b : N) (n : Z) : Prop :=
  ∃ bf, st_bufs s !! b = Some bf ∧ n ≤ lenZ (b_data bf) ∧ take (Z.to_nat n) (b_data bf) = burst_bytes s0 b n.
Definition unit_fits (s : store) (u : srt_unit) : Prop :=
  match su_burst u with Some b => fits s b (su_len u) ∧ P b (su_len u) (su_keyframe u) | None => True end.

(** A chunk is the part of its burst that its position says. *)
Definition chunk_true (c : sent_chunk) : Prop :=
  ∃ b, ck_burst c = Some b ∧ P b (ck_len c) (ck_keyframe c) ∧
    ck_bytes c = take (length (ck_bytes c)) (drop (Z.to_nat (ck_offset c)) (burst_bytes s0 b (ck_len c))) ∧
    lenZ (burst_bytes s0 b (ck_len c)) = ck_len c.

Definition complete (c : sent_chunk) : Prop := ck_offset c + lenZ (ck_bytes c) = ck_len c.

(** A unit continues at [offset] behind the chunks [wire], newest first: at its own place
    when the last unit is not complete, and otherwise from its start, being the next unit or
    one that starts at a sync boundary.  A session starts at a sync boundary. *)
Definition continues (wire : list sent_chunk) (burst : option N) (sequence : Z) (keyframe : bool)
    (len offset : Z) : Prop :=
  match wire with
  | [] => offset = 0 ∧ keyframe = true
  | c :: _ =>
      (ck_offset c + lenZ (ck_bytes c) < ck_len c ∧ burst = ck_burst c ∧ sequence = ck_sequence c ∧
         keyframe = ck_keyframe c ∧ len = ck_len c ∧ offset = ck_offset c + lenZ (ck_bytes c)) ∨
      (complete c ∧ offset = 0 ∧ ck_sequence c < sequence ∧
         (sequence = ck_sequence c + 1 ∨ keyframe = true))
  end.
Fixpoint gapless (wire : list sent_chunk) : Prop :=
  match wire with
  | [] => True
  | c :: wire => continues wire (ck_burst c) (ck_sequence c) (ck_keyframe c) (ck_len c) (ck_offset c) ∧
                 0 < lenZ (ck_bytes c) ≤ SRT_SEND_CHUNK ∧ 0 ≤ ck_offset c ∧
                 ck_offset c + lenZ (ck_bytes c) ≤ ck_len c ∧ chunk_true c ∧ gapless wire
  end.

Lemma fits_evolves s s' L L' b n :
  owns s L → owns s' L' → evolves s s' → b ∈ L → b ∈ L' → fits s b n → fits s' b n.
Proof.
  intros Ho Ho' Hev Hb Hb' (bf & Hbf & Hn & Hd0). destruct (owns_in _ _ _ Ho' Hb') as [bf' Hbf'].
  destruct (ev_same _ _ Hev b bf' Hbf') as (bf0 & Hbf0 & _ & Hd); [by eapply wf_next, Hbf; apply Ho|].
  exists bf'. split; [done|]. rewrite Hd. rewrite Hbf in Hbf0. by injection Hbf0 as <-.
Qed.

Lemma unit_held q l u b : sq_is q l → u ∈ l → su_burst u = Some b → b ∈ holds q.
Proof.
  intros H [k Hk]%list_elem_of_lookup_1 Hb. destruct (qi_live _ _ H k u Hk) as [Hat _].
  unfold unit_at in Hat. destruct (unit_index q _) as [i|]; [|done]. cbn in Hat.
  apply list_elem_of_lookup_2 in Hat. apply (holds_elem _ _ Hat).
  unfold holds, owner_srt_unit. rewrite Hb. set_solver.
Qed.

Definition queue_fits (s : store) (q : srt_queue) : Prop :=
  ∃ l, sq_is q l ∧ Forall (unit_fits s) l.

Lemma queue_fits_evolves s s' q q' l l' L L' :
  sq_is q l → sq_is q' l' → l' ⊆ l → Forall (unit_fits s) l →
  owns s (holds q ++ L) → owns s' (holds q' ++ L') → evolves s s' → Forall (unit_fits s') l'.
Proof.
  intros H H' Hsub Hl Ho Ho' Hev. apply Forall_forall. intros u Hu. unfold unit_fits.
  destruct (su_burst u) as [b|] eqn:E; [|done]. rewrite Forall_forall in Hl. specialize (Hl u (Hsub _ Hu)).
  unfold unit_fits in Hl. rewrite E in Hl.
  pose proof (unit_held q' l' u b H' Hu E). pose proof (unit_held q l u b H (Hsub _ Hu) E).
  split; [|apply Hl]. eapply (fits_evolves s s'); [exact Ho|exact Ho'|exact Hev|set_solver..|apply Hl].
Qed.

(** The cursor of a session whose last unit is complete, or that has not started. *)
Definition between (d : dest) : Prop :=
  match sd_wire d with
  | [] => sq_resync (sd_queue d) = true
  | c :: _ => complete c ∧ ck_sequence c < sd_cursor d ∧
              (sq_resync (sd_queue d) = false → sd_cursor d = ck_sequence c + 1)
  end.

(** What is known of the session's position, when the slot is used and connected. *)
Definition positioned (d : dest) : Prop :=
  (sq_resync (sd_queue d) = false → sq_tail (sd_queue d) ≤ sd_cursor d) ∧
  match sd_inflight d with
  | None => between d
  | Some _ => sd_cursor d ≤ sd_inflight_sequence d < sq_head (sd_queue d)
  end.

Record dinv (L : list N) (s : store) (d : dest) : Prop := {
  dv_owns : owns s (holds d ++ L);
  dv_queue : if sd_used d then queue_fits s (sd_queue d) else sd_queue d = srt_queue_zero;
  dv_epoch : is_u64 (sd_epoch d);
  dv_idle : sd_session d = false → sd_inflight d = None ∧ sd_call d = None;
  dv_connecting : sd_connecting d = true → sd_session d = false;
  dv_conn : is_Some (sd_conn d) → sd_connecting d = true;
  dv_sending : sd_sending d = bool_decide (sd_call d ≠ None);
  dv_unused : sd_used d = false → sd_session d = true → is_Some (sd_call d);
  dv_cursor : 0 ≤ sd_cursor d;
  dv_inflight b : sd_inflight d = Some b →
    0 ≤ sd_inflight_offset d < sd_inflight_len d ∧ sd_inflight_len d < 2 ^ 48 ∧
    (fits s b (sd_inflight_len d) ∧ P b (sd_inflight_len d) (sd_inflight_key d)) ∧ 0 ≤ sd_inflight_sequence d ∧
    continues (sd_wire d) (sd_inflight d) (sd_inflight_sequence d) (sd_inflight_key d) (sd_inflight_len d)
      (sd_inflight_offset d);
  dv_call epoch data : sd_call d = Some (epoch, data) →
    is_Some (sd_inflight d) ∧ (if sd_used d then epoch = sd_epoch d else epoch ≠ sd_epoch d) ∧
    0 < lenZ data ≤ SRT_SEND_CHUNK ∧ sd_inflight_offset d + lenZ data ≤ sd_inflight_len d ∧
    ∀ b, sd_inflight d = Some b → lenZ (burst_bytes s0 b (sd_inflight_len d)) = sd_inflight_len d ∧
      data = take (length data) (drop (Z.to_nat (sd_inflight_offset d)) (burst_bytes s0 b (sd_inflight_len d)));
  dv_position : sd_used d = true → sd_session d = true → positioned d;
  dv_wire : gapless (sd_wire d) ∧ Forall gapless (sd_sessions d) }.

Lemma zero_holds : holds srt_queue_zero = [].
Proof. done. Qed.
#[local] Opaque srt_queue_zero.

Lemma dinv_zero L s : owns s L → dinv L s dest_zero.
Proof.
  intros Ho. split; try done. by intros [? ?].
Qed.

Definition step_post (L : list N) (s : store) (d d' : dest) (s' : store) : Prop :=
  dinv L s' d' ∧ evolves s s' ∧ sq_head (sd_queue d') ≤ sq_head (sd_queue d) + 1.

Lemma head_nonneg L s d : dinv L s d → 0 ≤ sq_head (sd_queue d).
Proof.
  intros H. pose proof (dv_queue _ _ _ H) as Hq. destruct (sd_used d); [|by rewrite Hq].
  destruct Hq as (l & Hq & _). pose proof (qi_head _ _ Hq). pose proof (qi_tail _ _ Hq). lia.
Qed.

Lemma step_same L s d : dinv L s d → step_post L s d d s.
Proof. intros. split_and!; [done..|lia]. Qed.

(** A queue, or what is left of one. *)
Lemma wp_any_destroy q M s :
  queue_fits s q ∨ q = srt_queue_zero → owns s (holds q ++ M) →
  wp (srt_queue_destroy q) (λ q' s', q' = srt_queue_zero ∧ owns s' M ∧ evolves s s') s.
Proof.
  intros [(l & H & _)| ->] Ho; [by eapply wp_srt_queue_destroy|].
  apply wp_bind. eapply wp_mono; [by apply (wp_unref_all _ M)|]. intros [] s' [? ?]. by apply wp_ret.
Qed.

Lemma dv_any L s d : dinv L s d → queue_fits s (sd_queue d) ∨ sd_queue d = srt_queue_zero.
Proof. intros H. pose proof (dv_queue _ _ _ H). destruct (sd_used d); [by left|by right]. Qed.

Lemma wp_dest_add capacity max_bytes L s d :
  dinv L s d → 0 ≤ max_bytes < 2 ^ 64 →
  wp (dest_add capacity max_bytes d) (step_post L s d) s.
Proof.
  intros H Hm. unfold dest_add. destruct (_ || bool_decide _) eqn:E; [by apply wp_ret, step_same|].
  apply orb_false_elim in E as [E Ei%bool_decide_eq_false_1]. rewrite !orb_false_iff in E.
  destruct E as (((Hu & Hsd) & Hcn) & Hss). apply dec_stable in Ei.
  pose proof (dv_owns _ _ _ H) as Ho. unfold holds at 1, owner_dest in Ho. rewrite Ei, app_nil_r in Ho.
  apply wp_bind. eapply wp_mono; [apply (wp_any_destroy _ L); [by eapply dv_any|exact Ho]|].
  intros q s' (-> & Ho' & Hev). apply wp_ret. destruct (dv_idle _ _ _ H Hss) as [_ Hcall].
  assert (sd_conn d = None) as Hconn.
  { destruct (sd_conn d) eqn:E; [|done]. by rewrite (dv_conn _ _ _ H) in Hcn by (by rewrite E). }
  split; [|split; [exact Hev|]].
  - split; cbn; rewrite ?Ei, ?Hcall, ?Hconn, ?Hss; try done.
    + exists []. split; [by apply sq_is_init|done].
    + apply u64_range.
    + apply H.
  - pose proof (head_nonneg _ _ _ H). change (0 ≤ sq_head (sd_queue d) + 1). lia.
Qed.

Lemma wp_drop_inflight M s d :
  owns s (option_list (sd_inflight d) ++ M) →
  wp (drop_inflight d) (λ d' s', owns s' M ∧ evolves s s' ∧
    d' = d <| sd_inflight := None |> <| sd_inflight_len := 0 |> <| sd_inflight_offset := 0 |>) s.
Proof.
  intros Ho. apply wp_bind. eapply wp_mono; [by apply (wp_buf_unref _ M)|]. intros [] s' [? ?]. by apply wp_ret.
Qed.

Lemma epoch_next e : is_u64 e → e ⊕ 1 ≠ e.
Proof.
  unfold is_u64, u64. intros He. destruct (decide (e + 1 = 2 ^ 64)) as [E|]; [rewrite E, Z.mod_same; lia|].
  rewrite Z.mod_small by lia. lia.
Qed.

Lemma wp_outputs_remove L s d : dinv L s d → wp (outputs_remove d) (step_post L s d) s.
Proof.
  intros H. destruct (sd_used d) eqn:Hu; [|unfold outputs_remove; rewrite Hu; by apply wp_ret, step_same].
  pose proof (dv_queue _ _ _ H) as Hq. rewrite Hu in Hq.
  pose proof (dv_owns _ _ _ H) as Ho. unfold holds at 1, owner_dest in Ho.
  pose proof (head_nonneg _ _ _ H) as Hh. pose proof (epoch_next _ (dv_epoch _ _ _ H)) as Hne.
  unfold outputs_remove. rewrite Hu. cbn [negb].
  pose proof (dv_sending _ _ _ H) as Hc. destruct (sd_sending d) eqn:Hsd; symmetry in Hc.
  - apply bool_decide_eq_true_1 in Hc.
    destruct (sd_call d) as [[e data]|] eqn:Ecall; [|done].
    destruct (dv_call _ _ _ H e data Ecall) as (Hin & He & Hdl & Hdo). rewrite Hu in He.
    revert H Hu Hq Ho Hh Hne Hsd Ecall Hin He Hdl Hdo. open_dest d.
    intros H -> Hq Ho Hh Hne -> -> Hin -> Hdl Hdo. cbn [negb andb]. rewrite andb_false_r. dest_fields.
    apply wp_bind, wp_ret, wp_bind. dest_fields.
    eapply wp_mono; [apply (wp_any_destroy _ (option_list inf ++ L)); [by left|by rewrite app_assoc]|].
    intros q' s' (-> & Ho' & Hev). apply wp_ret.
    split; [|split; [exact Hev|dest_fields; change (0 ≤ sq_head q + 1); lia]].
    split; dest_fields; try done; try apply H.
    + apply u64_range.
    + intros b Hb. destruct (dv_inflight _ _ _ H b Hb) as (Ha & Hb' & Hf & Hr).
      split; [exact Ha|]. split; [exact Hb'|]. split; [|exact Hr].
      split; [|apply Hf]. eapply (fits_evolves s s'); [exact Ho|exact Ho'|exact Hev|rewrite Hb; set_solver..|apply Hf].
    + intros e' data' [= <- <-]. split_and!; try done; try lia; apply Hdo.
  - apply bool_decide_eq_false_1, dec_stable in Hc.
    revert H Hu Hq Ho Hh Hne Hsd Hc. open_dest d.
    intros H -> Hq Ho Hh Hne -> ->. cbn [negb andb]. rewrite andb_true_r.
    match goal with |- context [if ses then ?x else ?y] =>
      replace (if ses then x else y) with x by (by destruct ses) end. dest_fields. cbn [negb].
    apply wp_bind. eapply wp_mono; [apply (wp_drop_inflight (holds q ++ L))|].
    { eapply owns_proper; [|exact Ho]. rewrite <- app_assoc. by rewrite Permutation_app_swap_app. }
    dest_fields. intros d' s1 (Ho1 & Hev1 & ->). apply wp_bind. dest_fields.
    eapply wp_mono; [apply (wp_any_destroy _ L); [|exact Ho1]|].
    { left. destruct Hq as (l & Hl & Hf). exists l. split; [done|]. rewrite <- app_assoc in Ho.
      by eapply (queue_fits_evolves s s1). }
    intros q' s2 (-> & Ho2 & Hev2). apply wp_ret.
    split; [|split; [by etrans|dest_fields; change (0 ≤ sq_head q + 1); lia]].
    split; dest_fields; try done; try apply H. apply u64_range.
Qed.

(** A burst the slot may be handed: the caller holds it, and it is as long as it says. *)
Definition burst_ok (L : list N) (s : store) (b : N) (len : Z) : Prop :=
  b ∈ L ∧ 0 < len < 2 ^ 48 ∧ fits s b len.

Lemma positioned_push d l u q' l' :
  sq_is (sd_queue d) l → push_post (sd_queue d) l u q' l' →
  positioned d → positioned (d <| sd_queue := q' |>).
Proof.
  intros H (H' & _ & _ & Hpost). revert H Hpost. open_dest d. intros H Hpost.
  unfold positioned, between. dest_fields.
  set (n := if oversize q (su_len u) then 1 else
    Z.of_nat (length l) - Z.of_nat (length (trim (sq_capacity q) (sq_max_bytes q) (su_len u) l))).
  pose proof (trim_length (sq_capacity q) (sq_max_bytes q) (su_len u) l).
  assert (lost n q q' ∧ 0 ≤ n ∧ (n = 0 → sq_tail q' = sq_tail q) ∧ sq_head q ≤ sq_head q')
    as ((_ & Hr) & Hn & Ht & Hh).
  { unfold n. destruct (oversize q (su_len u)); destruct Hpost as (_ & ? & ? & ?); split_and!; try done; lia. }
  assert (sq_resync q' = false → sq_resync q = false ∧ sq_tail q' = sq_tail q) as Hrs.
  { rewrite Hr. intros [? Hz%Z.ltb_ge]%orb_false_elim. split; [done|]. apply Ht. lia. }
  intros [Hp1 Hp2]. split; [intros E; destruct (Hrs E) as [E1 ->]; auto|].
  destruct inf; [lia|]. destruct wire as [|c wire].
  - destruct (sq_resync q') eqn:E; [done|]. destruct (Hrs eq_refl). congruence.
  - destruct Hp2 as (? & ? & Hp). split_and!; [done..|]. intros E. apply Hp, Hrs, E.
Qed.

Lemma wp_dest_push burst len keyframe now L s d :
  dinv L s d → burst_ok L s burst len → P burst len keyframe → sq_head (sd_queue d) + 1 < 2 ^ 64 →
  wp (dest_push burst len keyframe now d) (step_post L s d) s.
Proof.
  intros H (Hb & Hlen & Hfit) HP Hhead. unfold dest_push.
  destruct (sd_used d) eqn:Hu; [|by apply wp_ret, step_same].
  pose proof (dv_queue _ _ _ H) as Hq. rewrite Hu in Hq. destruct Hq as (l & Hl & Hlf).
  pose proof (dv_owns _ _ _ H) as Ho. unfold holds at 1, owner_dest in Ho. rewrite <- app_assoc in Ho.
  apply wp_bind.
  eapply wp_mono; [apply (wp_srt_queue_push (sd_queue d) l burst len keyframe now (option_list (sd_inflight d) ++ L)); try done; set_solver|].
  intros [r q'] s' (_ & Ho' & Hev & l' & Hpost). cbn [snd] in *. apply wp_ret.
  pose proof Hpost as (Hl' & _ & _ & Hshape). cbn [su_len] in Hshape.
  set (u := mk_unit _ _ _ _ _) in *.
  assert (Forall (unit_fits s') l' ∧ sq_head q' ≤ sq_head (sd_queue d) + 1) as [Hlf' Hh'].
  { destruct (oversize (sd_queue d) len).
    - destruct Hshape as (-> & _ & -> & _). split; [|lia]. eapply (queue_fits_evolves s s' (sd_queue d) q' l l); [exact Hl|exact Hl'|done|exact Hlf|exact Ho|exact Ho'|exact Hev].
    - destruct Hshape as (-> & _ & -> & _). split; [|lia].
      destruct (trim_suffix (sq_capacity (sd_queue d)) (sq_max_bytes (sd_queue d)) len l) as [gone Hg].
      set (kept := trim _ _ _ l) in *. apply Forall_app. split.
      + apply Forall_forall. intros v Hv. unfold unit_fits. destruct (su_burst v) as [b|] eqn:E; [|done].
        rewrite Forall_forall in Hlf. assert (v ∈ l) as Hvl by (rewrite Hg; set_solver).
        specialize (Hlf v Hvl). unfold unit_fits in Hlf. rewrite E in Hlf.
        pose proof (unit_held _ _ _ _ Hl Hvl E). pose proof (unit_held q' (kept ++ [u]) v b Hl' ltac:(set_solver) E).
        split; [|apply Hlf]. eapply (fits_evolves s s'); [exact Ho|exact Ho'|exact Hev|set_solver..|apply Hlf].
      + constructor; [|done]. split; [|exact HP]. eapply (fits_evolves s s'); [exact Ho|exact Ho'|exact Hev|set_solver..|exact Hfit]. }
  pose proof (dv_position _ _ _ H Hu) as Hpos.
  pose proof (positioned_push d l u q' l' Hl Hpost) as Hpp.
  revert H Hu Ho Ho' Hpos Hpp Hl Hh'. clear Hshape Hlf Hpost Hhead. open_dest d.
  intros H -> Ho Ho' Hpos Hpp Hl Hh'. split; [|split; [exact Hev|exact Hh']].
  split; dest_fields; try done; try apply H.
  - unfold holds at 1, owner_dest. dest_fields. by rewrite <- app_assoc.
  - by exists l'.
  - intros b Hin. destruct (dv_inflight _ _ _ H b Hin) as (Ha & Hb' & Hf & Hr).
    split; [exact Ha|]. split; [exact Hb'|]. split; [|exact Hr].
    split; [|apply Hf]. eapply (fits_evolves s s'); [exact Ho|exact Ho'|exact Hev|rewrite Hin; set_solver..|apply Hf].
  - intros _ Hs. by apply Hpp, Hpos.
Qed.

Lemma wp_connect_begin L s d : dinv L s d → wp (connect_begin d) (step_post L s d) s.
Proof.
  intros H. apply wp_ret.
  destruct (negb (sd_used d) || sd_sending d || sd_connecting d || sd_session d) eqn:E; [by apply step_same|].
  rewrite !orb_false_iff in E. destruct E as (((Hu%negb_false_iff & Hsd) & Hcn) & Hss).
  split; [|split; [done|dest_fields; lia]]. revert H Hu Hsd Hcn Hss. open_dest d.
  intros H -> -> -> ->. split; dest_fields; try done; apply H.
Qed.

Lemma sq_is_resync q l : sq_is q l → sq_is (srt_queue_resync q) l.
Proof. by intros []. Qed.

Lemma wp_connect_end ok L s d : dinv L s d → wp (connect_end ok d) (step_post L s d) s.
Proof.
  intros H. apply wp_ret. destruct (sd_conn d) as [epoch|] eqn:Econn; [|by apply step_same].
  pose proof (dv_conn _ _ _ H) as Hcn. rewrite Econn in Hcn. specialize (Hcn ltac:(by eexists)).
  pose proof (dv_connecting _ _ _ H Hcn) as Hss. destruct (dv_idle _ _ _ H Hss) as [Hin Hcall].
  pose proof (dv_sending _ _ _ H) as Hsd. rewrite Hcall in Hsd.
  assert (sd_used d = false → sd_queue d = srt_queue_zero) as Hz.
  { intros E. pose proof (dv_queue _ _ _ H) as Hq. by rewrite E in Hq. }
  cbv zeta. dest_fields. destruct (negb (sd_epoch d =? epoch) || negb (sd_used d)) eqn:E.
  - split; [|split; [done|]]; revert H Econn Hcn Hss Hin Hcall Hsd; clear Hz E; open_dest d.
    + intros H -> -> -> -> -> ->. split; dest_fields; try done; try apply H.
    + intros; dest_fields. change (sq_head q ≤ sq_head q + 1). lia.
  - apply orb_false_elim in E as [_ Hu%negb_false_iff].
    split; [|split; [done|]]; revert H Econn Hcn Hss Hin Hcall Hsd Hu; clear Hz; open_dest d.
    + intros H -> -> -> -> -> -> ->. destruct ok; cbn [negb].
      * split; dest_fields; try done; try apply H.
        -- destruct (dv_queue _ _ _ H) as (l & Hl & Hf). exists l. split; [by apply sq_is_resync|done].
        -- destruct (dv_wire _ _ _ H) as [Hw Hws]. split; [done|]. by constructor.
      * split; dest_fields; try done; try apply H.
    + intros. destruct ok; cbn [negb]; dest_fields; change (sq_head q ≤ sq_head q + 1); lia.
Qed.

(** ** Sending *)

(** Where the tail has not passed the cursor, the next unit is the one at the cursor. *)
Lemma next_position q l cursor u :
  sq_is q l → 0 ≤ cursor → List.find (eligible q cursor) l = Some u →
  u ∈ l ∧ cursor ≤ su_sequence u < sq_head q ∧ (sq_resync q = true → su_keyframe u = true) ∧
  (sq_resync q = false → sq_tail q ≤ cursor → su_sequence u = cursor).
Proof.
  intros H Hc Hf. pose proof (find_some _ _ Hf) as [Hin%list_elem_of_In He].
  apply andb_prop in He as [He1%Z.leb_le He2]. split; [done|].
  assert (su_sequence u < sq_head q) as Hlt.
  { apply list_elem_of_lookup_1 in Hin as [k Hk]. destruct (qi_live _ _ H k u Hk) as [_ (_ & -> & _)].
    rewrite (qi_head _ _ H). apply lookup_lt_Some in Hk. lia. }
  split; [lia|]. split; [intros E; by rewrite E in He2|]. intros E Ht.
  unfold eligible in Hf. rewrite E in Hf. cbn [negb orb] in Hf.
  rewrite (find_from (λ _, true) l (sq_tail q)) in Hf by (intros k v Hk; apply (qi_live _ _ H _ _ Hk)).
  destruct (drop (Z.to_nat (cursor - sq_tail q)) l) as [|v l'] eqn:Ed; [done|]. injection Hf as ->.
  assert (l !! (Z.to_nat (cursor - sq_tail q) + 0)%nat = Some u) as Hk by (by rewrite <- lookup_drop, Ed).
  destruct (qi_live _ _ H _ u Hk) as [_ (_ & -> & _)]. lia.
Qed.

Lemma between_continues d burst sequence keyframe len :
  between d → (sq_resync (sd_queue d) = true → keyframe = true) → sd_cursor d ≤ sequence →
  (sq_resync (sd_queue d) = false → sequence = sd_cursor d) →
  continues (sd_wire d) burst sequence keyframe len 0.
Proof.
  unfold between, continues. intros Hb Hk Hge Hs. destruct (sd_wire d) as [|c w]; [auto|].
  destruct Hb as (Hc & Hlt & Hn). right. split_and!; [done|done|lia|].
  destruct (sq_resync (sd_queue d)); [right; auto|left]. rewrite Hs by done. by apply Hn.
Qed.

Lemma wp_take_unit L s d :
  dinv L s d → sd_used d = true → sd_session d = true → sd_call d = None →
  wp (take_unit d) (λ d' s', dinv L s' d' ∧ evolves s s' ∧ sd_queue d' = sd_queue d ∧
    sd_used d' = true ∧ sd_session d' = true ∧ sd_call d' = None ∧ sd_connecting d' = sd_connecting d) s.
Proof.
  intros H Hu Hss Hcall. unfold take_unit. destruct (sd_inflight d) as [b|] eqn:Hin.
  { by apply wp_ret. }
  pose proof (dv_queue _ _ _ H) as Hq. rewrite Hu in Hq. destruct Hq as (l & Hl & Hlf).
  apply wp_bind. eapply wp_read; [by apply next_find|].
  destruct (List.find _ l) as [u|] eqn:Ef; [|by apply wp_ret].
  destruct (next_position _ _ _ _ Hl (dv_cursor _ _ _ H) Ef) as (Hul & Hrange & Hkey & Hat).
  destruct (dv_position _ _ _ H Hu Hss) as [Hp1 Hp2]. rewrite Hin in Hp2.
  pose proof Hul as Hk. apply list_elem_of_lookup_1 in Hk as [k Hk].
  destruct (qi_live _ _ Hl k u Hk) as [_ ([b Hb] & Hseq & Hlen)]. rewrite Hb.
  pose proof (dv_owns _ _ _ H) as Ho. unfold holds at 1, owner_dest in Ho. rewrite Hin, app_nil_r in Ho.
  pose proof (unit_held _ _ _ _ Hl Hul Hb) as Hheld.
  rewrite Forall_forall in Hlf. pose proof (Hlf u Hul) as Hfit. unfold unit_fits in Hfit. rewrite Hb in Hfit.
  apply wp_bind. eapply wp_mono; [apply (wp_buf_ref b (holds (sd_queue d) ++ L)); [done|set_solver]|].
  intros r s' (-> & Ho' & Hev). apply wp_ret.
  pose proof (between_continues d (Some b) (su_sequence u) (su_keyframe u) (su_len u) Hp2 Hkey ltac:(lia)
    ltac:(auto)) as Hcont.
  assert (queue_fits s' (sd_queue d)) as Hq'.
  { exists l. split; [done|]. apply Forall_forall. intros v Hv. unfold unit_fits.
    destruct (su_burst v) as [b'|] eqn:E; [|done]. pose proof (Hlf v Hv) as Hfv. unfold unit_fits in Hfv. rewrite E in Hfv.
    pose proof (unit_held _ _ _ _ Hl Hv E).
    split; [|apply Hfv]. eapply (fits_evolves s s'); [exact Ho|exact Ho'|exact Hev|set_solver..|apply Hfv]. }
  assert (fits s' b (su_len u)) as Hfit'.
  { eapply (fits_evolves s s'); [exact Ho|exact Ho'|exact Hev|set_solver..|apply Hfit]. }
  pose proof (qi_tail _ _ Hl).
  revert H Hu Hss Hcall Hin Ho' Hcont Hq' Hp1 Hrange. clear Hp2 Hat Hkey Ef Hl Hheld Hlf Hk Ho.
  open_dest d. intros H -> -> -> -> Ho' Hcont Hq' Hp1 Hrange.
  split; [|by split_and!]. split; dest_fields; try done; try apply H.
  - unfold holds at 1, owner_dest. dest_fields. cbn [option_list].
    eapply owns_proper; [|exact Ho']. rewrite <- app_assoc. cbn. by rewrite Permutation_middle.
  - pose proof (dv_cursor _ _ _ H) as Hcur. change (0 ≤ cur) in Hcur.
    intros b' [= <-]. split_and!; try done; try lia; apply Hfit.
Qed.

Lemma wp_buf_read_fits s b n m (Q : list Z → store → Prop) :
  fits s b m → 0 ≤ n ≤ m →
  (lenZ (burst_bytes s0 b m) = m → Q (take (Z.to_nat n) (burst_bytes s0 b m)) s) → wp (buf_read b n) Q s.
Proof.
  intros (bf & Hb & Hm & Hd0) Hn HQ. eexists _, _. split.
  - unfold buf_read, deref, mbind, SM_bind. rewrite Hb. unfold lenZ in Hm.
    by rewrite (proj2 (Z.leb_le _ _)) by lia.
  - rewrite <- Hd0, take_take, Nat.min_l in HQ by lia. apply HQ. unfold lenZ in *. rewrite length_take. lia.
Qed.

Lemma wp_send_begin L s d : dinv L s d → wp (send_begin d) (step_post L s d) s.
Proof.
  intros H. unfold send_begin.
  destruct (negb (sd_used d) || _ || _ || _) eqn:E; [by apply wp_ret, step_same|].
  rewrite !orb_false_iff in E. destruct E as (((Hu%negb_false_iff & Hsd) & Hcn) & Hss%negb_false_iff).
  assert (sd_call d = None) as Hcall.
  { pose proof (dv_sending _ _ _ H) as Hc. rewrite Hsd in Hc. symmetry in Hc.
    by apply bool_decide_eq_false_1, dec_stable in Hc. }
  apply wp_bind. eapply wp_mono; [by apply (wp_take_unit L)|].
  intros d1 s1 (H1 & Hev & Hq1 & Hu1 & Hss1 & Hcall1 & Hcn1). rewrite Hcn in Hcn1.
  destruct (sd_inflight d1) as [b|] eqn:Hin.
  2:{ apply wp_ret. split; [done|]. split; [done|]. rewrite Hq1. lia. }
  destruct (dv_inflight _ _ _ H1 b Hin) as (Hoff & Hlen & Hfit & Hseq & Hcont).
  cbv zeta. rewrite u64_small by lia.
  set (n := if SRT_SEND_CHUNK <? sd_inflight_len d1 - sd_inflight_offset d1 then _ else _).
  assert (0 < n ≤ SRT_SEND_CHUNK ∧ sd_inflight_offset d1 + n ≤ sd_inflight_len d1) as [Hn Hn2].
  { unfold n. destruct (Z.ltb_spec SRT_SEND_CHUNK (sd_inflight_len d1 - sd_inflight_offset d1));
      unfold SRT_SEND_CHUNK in *; lia. }
  apply wp_bind. apply (wp_buf_read_fits _ _ (sd_inflight_offset d1 + n) (sd_inflight_len d1)); [apply Hfit|lia|].
  intros Hdata. apply wp_ret. split; [|split; [exact Hev|]].
  2:{ revert Hq1. open_dest d1. intros ->. lia. }
  set (D := burst_bytes s0 b (sd_inflight_len d1)) in *.
  assert (drop (Z.to_nat (sd_inflight_offset d1)) (take (Z.to_nat (sd_inflight_offset d1 + n)) D) =
          take (Z.to_nat n) (drop (Z.to_nat (sd_inflight_offset d1)) D)) as ->.
  { rewrite skipn_firstn_comm. f_equal. lia. }
  set (out := take _ (drop _ D)).
  assert (lenZ out = n) as Hdl by (unfold out, lenZ in *; rewrite length_take, length_drop; lia).
  assert (out = take (length out) (drop (Z.to_nat (sd_inflight_offset d1)) D)) as Hout.
  { replace (length out) with (Z.to_nat n) by (unfold lenZ in Hdl; lia). done. }
  clearbody out n. unfold D in *. clear D.
  revert H1 Hu1 Hss1 Hcall1 Hcn1 Hin Hoff Hn2 Hdata Hout. clear Hq1 Hfit Hcont Hlen Hseq. open_dest d1.
  intros H1 -> -> -> -> -> Hoff Hn2 Hdata Hout. split; dest_fields; try done; try apply H1.
  intros epoch data' [= <- <-]. split_and!; [by eexists|done|lia..|]. by intros b' [= <-].
Qed.

(** What the transport accepted goes on the wire where it belongs. *)
Lemma wire_logged L s d epoch data r :
  dinv L s d → sd_call d = Some (epoch, data) → 0 < r ≤ lenZ data →
  gapless (wire_chunk d (take (Z.to_nat r) data) :: sd_wire d) ∧
  lenZ (take (Z.to_nat r) data) = r.
Proof.
  intros H Hcall Hr. destruct (dv_call _ _ _ H _ _ Hcall) as ([b Hin] & _ & Hdl & Hdo).
  destruct (dv_inflight _ _ _ H b Hin) as (Hoff & _ & [_ HP] & _ & Hcont).
  destruct Hdo as [Hdo Hdat]. destruct (Hdat b Hin) as [HD Hd].
  assert (lenZ (take (Z.to_nat r) data) = r) as Hl by (unfold lenZ in *; rewrite length_take; lia).
  split; [|done]. cbn [gapless wire_chunk ck_sequence ck_keyframe ck_len ck_offset ck_bytes ck_burst].
  rewrite Hl. split_and!; [done|lia..| |apply H]. exists b. unfold wire_chunk. cbn [ck_burst ck_len ck_keyframe ck_bytes ck_offset].
  split_and!; [done|done| |done]. 
  replace (length (take _ data)) with (Nat.min (Z.to_nat r) (length data)) by (by rewrite length_take).
  by rewrite <- take_take, <- Hd.
Qed.

(** The unit on its way is complete: it is retired. *)
Lemma wp_unit_done L s d c off bytes bursts :
  dinv L s d → sd_used d = true → sd_session d = true → is_Some (sd_inflight d) →
  complete c → ck_sequence c = sd_inflight_sequence d → gapless (c :: sd_wire d) →
  wp ('(q, cursor) ← srt_queue_advance (sd_queue d) (sd_inflight_sequence d);
      drop_inflight (d <| sd_call := None |> <| sd_sending := false |> <| sd_wire := c :: sd_wire d |>
                       <| sd_sent_bytes := bytes |> <| sd_inflight_offset := off |>
                       <| sd_queue := q |> <| sd_cursor := cursor |> <| sd_sent_bursts := bursts |>))
    (step_post L s d) s.
Proof.
  intros H Hu Hss [b Hin] Hlast Hlseq Hw.
  pose proof (dv_queue _ _ _ H) as Hq. rewrite Hu in Hq. destruct Hq as (l & Hl & Hlf).
  pose proof (dv_owns _ _ _ H) as Ho. unfold holds at 1, owner_dest in Ho. rewrite <- app_assoc in Ho.
  destruct (dv_inflight _ _ _ H b Hin) as (_ & _ & _ & Hseq & _).
  destruct (dv_position _ _ _ H Hu Hss) as [Hp1 Hp2]. rewrite Hin in Hp2.
  pose proof (qi_seq _ _ Hl). pose proof (qi_head _ _ Hl) as Hh.
  apply wp_bind.
  eapply wp_mono; [apply (wp_srt_queue_advance (sd_queue d) l _ (option_list (sd_inflight d) ++ L)); try done; lia|].
  intros [q' cursor] s1 (Hc & Hl' & Ho1 & Hev1 & (_ & _ & Hh' & _) & Ht' & Hr'). cbn [fst snd] in *. subst cursor.
  set (l' := drop _ l) in *.
  assert (Z.of_nat (length l') = Z.max 0 (sq_head (sd_queue d) - Z.max (sq_tail (sd_queue d)) (sd_inflight_sequence d + 1))) as Hll.
  { unfold l'. rewrite length_drop. lia. }
  eapply wp_mono; [apply (wp_drop_inflight (holds q' ++ L))|].
  { revert Ho1. clear. open_dest d. intros Ho1. eapply owns_proper; [|exact Ho1]. by rewrite Permutation_app_swap_app. }
  intros d' s2 (Ho2 & Hev2 & ->). split; [|split; [by etrans|]].
  2:{ revert Hh'. clear. open_dest d. intros ->. lia. }
  assert (Forall (unit_fits s2) l') as Hlf'.
  { eapply (queue_fits_evolves s s2 (sd_queue d) q' l l'); [exact Hl|exact Hl'| |exact Hlf|exact Ho|exact Ho2|by etrans].
    intros u. unfold l'. apply list_elem_of_drop_2 || (rewrite <- (take_drop (Z.to_nat (sd_inflight_sequence d + 1 - sq_tail (sd_queue d))) l) at 2; set_solver). }
  assert (sq_resync q' = false → sq_tail q' ≤ sd_inflight_sequence d + 1) as Htail.
  { rewrite Hr', Ht'. intros [E| Hge%Z.ltb_ge]%andb_false_iff; [specialize (Hp1 E)|]; lia. }
  revert H Hu Hss Hin Hlast Hlseq Hw Ho2 Htail Hseq. clear Hl Hlf Ho Hp1 Hp2 Hll Hr' Ht' Hh' Hh Ho1.
  open_dest d. intros H -> -> -> Hlast Hlseq Hw Ho2 Htail Hseq.
  split; dest_fields; try done; try apply H.
  - unfold holds at 1, owner_dest. dest_fields. by rewrite app_nil_r.
  - by exists l'.
  - lia.
  - intros _ _. split; [exact Htail|]. unfold between. dest_fields.
    rewrite Hlseq. split_and!; [done|lia|done].
  - split; [done|]. apply (dv_wire _ _ _ H).
Qed.

Lemma wp_send_end r L s d : dinv L s d → wp (send_end r d) (step_post L s d) s.
Proof.
  intros H. unfold send_end. destruct (sd_call d) as [[epoch data]|] eqn:Hcall; [|by apply wp_ret, step_same].
  destruct (dv_call _ _ _ H _ _ Hcall) as ([b Hin] & Hep & Hdl & Hdo).
  assert (sd_session d = true) as Hss.
  { destruct (sd_session d) eqn:E; [done|]. destruct (dv_idle _ _ _ H E). congruence. }
  destruct (dv_inflight _ _ _ H b Hin) as (Hoff & Hlen & Hfit & Hseq & Hcont).
  pose proof (dv_owns _ _ _ H) as Ho. unfold holds at 1, owner_dest in Ho.
  pose proof (dv_queue _ _ _ H) as Hq. pose proof (dv_wire _ _ _ H) as [Hgap Hpast].
  set (c := wire_chunk d (take (Z.to_nat r) data)). pose proof (wire_logged L s d epoch data r H Hcall) as Hlog.
  assert (wire_chunk (d <| sd_call := None |> <| sd_sending := false |>) (take (Z.to_nat r) data) = c) as Ec by done.
  cbv zeta. rewrite Ec. clear Ec.
  set (logged := (0 <? r) && (r <=? lenZ data)).
  assert (gapless (if logged then c :: sd_wire d else sd_wire d)) as Hw.
  { unfold logged. destruct (Z.ltb_spec 0 r), (Z.leb_spec r (lenZ data)); try done. by apply Hlog. }
  match goal with |- context [if logged then ?x else ?y] =>
    replace (if logged then x else y) with
      (d <| sd_call := None |> <| sd_sending := false |>
         <| sd_wire := if logged then c :: sd_wire d else sd_wire d |>) by (by destruct logged, d) end.
  dest_fields. destruct (Z.eqb_spec (sd_epoch d) epoch) as [He|Hne]; cbn [negb].
  2:{ assert (sd_used d = false) as Hu by (destruct (sd_used d); congruence). rewrite Hu in Hq.
      eapply wp_mono; [apply (wp_drop_inflight (holds (sd_queue d) ++ L))|].
      { dest_fields. eapply owns_proper; [|exact Ho]. by rewrite <- app_assoc, Permutation_app_swap_app. }
      intros d' s' (Ho' & Hev & ->). dest_fields. split; [|split; [done|dest_fields; lia]].
      split; dest_fields; rewrite ?Hu; try done; try apply H.
      unfold holds at 1, owner_dest. dest_fields. by rewrite app_nil_r. }
  assert (sd_used d = true) as Hu by (destruct (sd_used d); [done|congruence]). rewrite Hu in Hq.
  pose proof (dv_position _ _ _ H Hu Hss) as Hpos.
  assert (sd_connecting d = false) as Hcn.
  { destruct (sd_connecting d) eqn:E; [|done]. pose proof (dv_connecting _ _ _ H E). congruence. }
  destruct (Z.eqb_spec r 0) as [->|Hr0].
  { apply wp_ret. change logged with false. cbv iota. split; [|split; [done|dest_fields; lia]].
    split; dest_fields; try done; try apply H; rewrite ?Hu, ?Hss, ?Hcn; try done. }
  destruct ((r <? 0) || (lenZ data <? r)) eqn:Er.
  { assert (logged = false) as ->.
    { unfold logged. apply orb_prop in Er as [Er%Z.ltb_lt|Er%Z.ltb_lt].
      - by rewrite (proj2 (Z.ltb_ge 0 r)) by lia.
      - by rewrite (proj2 (Z.leb_gt r _)), andb_false_r by lia. }
    eapply wp_mono; [apply (wp_drop_inflight (holds (sd_queue d) ++ L))|].
    { dest_fields. eapply owns_proper; [|exact Ho]. by rewrite <- app_assoc, Permutation_app_swap_app. }
    intros d' s' (Ho' & Hev & ->). dest_fields. split; [|split; [done|]].
    2:{ change (sq_head (sd_queue d) ≤ sq_head (sd_queue d) + 1). lia. }
    destruct Hq as (l & Hl & Hlf). rewrite <- app_assoc in Ho.
    split; dest_fields; rewrite ?Hu; try done; try apply H.
    - unfold holds at 1, owner_dest. dest_fields. by rewrite app_nil_r.
    - exists l. split; [by apply sq_is_resync|]. by eapply (queue_fits_evolves s s'). }
  apply orb_false_elim in Er as [Er1%Z.ltb_ge Er2%Z.ltb_ge].
  assert (logged = true) as -> by (unfold logged; rewrite (proj2 (Z.ltb_lt _ _)), (proj2 (Z.leb_le _ _)) by lia; done).
  destruct Hlog as [Hlog Hrl]; [lia|].
  rewrite u64_small by lia.
  destruct (Z.eqb_spec (sd_inflight_offset d + r) (sd_inflight_len d)) as [Hdone|Hmore].
  - apply (wp_unit_done L s d c); try done; try by eexists. unfold complete, c, wire_chunk.
    cbn [ck_offset ck_bytes ck_len]. by rewrite Hrl.
  - apply wp_ret. split; [|split; [done|dest_fields; lia]].
    split; dest_fields; try done; try apply H; rewrite ?Hu, ?Hss, ?Hcn; try done.
    + intros b' Hb'. assert (b' = b) as -> by congruence. split_and!; [lia|lia|lia|apply Hfit|apply Hfit|done|].
      left. cbn [c wire_chunk ck_offset ck_bytes ck_len ck_sequence ck_keyframe]. rewrite Hrl.
      split_and!; (done || lia).
    + intros _ _. destruct Hpos as [Hp1 Hp2]. split; [exact Hp1|]. rewrite Hin in Hp2. dest_fields. by rewrite Hin.
Qed.

(** ** Histories *)

Definition step_ok (L : list N) (s : store) (e : dest_event) : Prop :=
  match e with
  | EvAdd _ max_bytes => 0 ≤ max_bytes < 2 ^ 64
  | EvPush burst len keyframe _ => burst_ok L s burst len ∧ P burst len keyframe
  | _ => True
  end.

Lemma wp_dest_step e L s d :
  dinv L s d → step_ok L s e → sq_head (sd_queue d) + 1 < 2 ^ 64 →
  wp (dest_step e d) (step_post L s d) s.
Proof.
  intros H He Hh. destruct e; cbn [dest_step].
  - by apply wp_dest_add.
  - by apply wp_outputs_remove.
  - destruct He. by apply wp_dest_push.
  - by apply wp_connect_begin.
  - by apply wp_connect_end.
  - by apply wp_send_begin.
  - by apply wp_send_end.
Qed.

Lemma wp_dest_run es L : owns s0 L → Forall (step_ok L s0) es → ∀ s d,
  dinv L s d → evolves s0 s → sq_head (sd_queue d) + Z.of_nat (length es) < 2 ^ 64 →
  wp (dest_run es d) (λ d' s', dinv L s' d') s.
Proof.
  intros Ho0. induction es as [|e es IH]; intros Hes s d H Hev Hh; [by apply wp_ret|].
  apply Forall_cons in Hes as [He Hes]. cbn [length] in Hh. cbn [dest_run]. apply wp_bind.
  eapply wp_mono; [apply (wp_dest_step e L s d H); [|lia]|].
  - destruct e; try done. destruct He as ((Hb & Hlen & Hfit) & HP). split; [|done]. split; [done|]. split; [done|].
    eapply (fits_evolves s0 s); [exact Ho0|apply H|done|done|set_solver|done].
  - intros d' s' (H' & Hev' & Hh'). apply IH; [done|done|by etrans|lia].
Qed.

Lemma wp_outputs_destroy L s d :
  dinv L s d → wp (outputs_destroy d) (λ d' s', owns s' L) s.
Proof.
  intros H. pose proof (dv_owns _ _ _ H) as Ho. unfold holds at 1, owner_dest in Ho.
  rewrite <- app_assoc in Ho. apply wp_bind.
  eapply wp_mono; [apply (wp_buf_unref (sd_inflight d) (holds (sd_queue d) ++ L))|].
  { eapply owns_proper; [|exact Ho]. by rewrite Permutation_app_swap_app. }
  intros [] s1 [Ho1 Hev1]. apply wp_bind. eapply wp_mono; [apply (wp_any_destroy _ L); [|exact Ho1]|].
  - destruct (dv_any _ _ _ H) as [(l & Hl & Hlf)|]; [|by right]. left. exists l. split; [done|].
    by eapply (queue_fits_evolves s s1).
  - intros q s2 (-> & Ho2 & _). by apply wp_ret.
Qed.

End Sender.

(** What the caller promises: it holds the bursts it pushes, and they are as long as it says. *)
Definition event_ok (L : list N) (s : store) (e : dest_event) : Prop :=
  match e with
  | EvAdd _ max_bytes => 0 ≤ max_bytes < 2 ^ 64
  | EvPush burst len _ _ => burst ∈ L ∧ 0 < len < 2 ^ 48 ∧ readable s burst len
  | _ => True
  end.
Lemma events_ok L s es : Forall (event_ok L s) es → Forall (step_ok s (pushed es) L s) es.
Proof.
  rewrite !Forall_forall. intros H e He. specialize (H e He). destruct e; try done.
  destruct H as (Hb & Hl & bf & Hbf & Hn). split; [|by eexists].
  split_and!; [done|lia|lia|]. exists bf. split_and!; [done|done|]. unfold burst_bytes. by rewrite Hbf.
Qed.

(** The chunks of a session, put together. *)
Lemma gapless_stream s es c wire :
  gapless s (pushed es) (c :: wire) →
  ∃ us u, ck_burst c = Some (se_burst u) ∧ se_sequence u = ck_sequence c ∧
    se_keyframe u = ck_keyframe c ∧ se_len u = ck_len c ∧
    concat (rev (ck_bytes <$> c :: wire)) =
      concat (sent_bytes s <$> us) ++ take (Z.to_nat (ck_offset c + lenZ (ck_bytes c))) (sent_bytes s u) ∧
    Forall (λ u, pushed es (se_burst u) (se_len u) (se_keyframe u)) (us ++ [u]) ∧
    (∃ first, head (us ++ [u]) = Some first ∧ se_keyframe first = true) ∧
    ∀ i v w, (us ++ [u]) !! i = Some v → (us ++ [u]) !! S i = Some w → follows v w.
Proof.
  revert c. induction wire as [|c' wire IH]; intros c (Hcont & Hn & Hoff & _ & (b & Hb & HP & Hbytes & HD) & Hw).
  - destruct Hcont as [H0 Hk]. exists [], (mk_sent b (ck_sequence c) (ck_keyframe c) (ck_len c)).
    split_and!; try done.
    + cbn. rewrite app_nil_r, H0, Z.add_0_l. unfold lenZ. rewrite Nat2Z.id. rewrite H0 in Hbytes. exact Hbytes.
    + by apply Forall_singleton.
    + by eexists.
  - destruct (IH c' Hw) as (us & u & Hub & Hus & Huk & Hul & Hcat & Hpush & Hfirst & Hfol).
    cbn [fmap list_fmap rev] in *. rewrite concat_app. cbn [concat]. rewrite app_nil_r. cbn [rev] in Hcat. rewrite Hcat.
    destruct Hw as (_ & Hn' & Hoff' & _ & (b' & Hb' & _ & _ & HD') & _).
    destruct Hcont as [(Hlt & Eb & Es & Ek & El & Eo)|(Hc & H0 & Hlt & Hnext)].
    + exists us, u. split_and!; try congruence; try done. rewrite <- app_assoc. f_equal.
      assert (sent_bytes s u = burst_bytes s b (ck_len c)) as ->
        by (unfold sent_bytes; rewrite Hul, El; f_equal; congruence).
      rewrite Hbytes at 1. rewrite Eo. unfold lenZ in *.
      rewrite (Z2Nat.inj_add (_ + _)), Nat2Z.id by lia. by rewrite take_take_drop.
    + set (v := mk_sent b (ck_sequence c) (ck_keyframe c) (ck_len c)). exists (us ++ [u]), v.
      assert (sent_bytes s u = burst_bytes s b' (ck_len c')) as Eu by (unfold sent_bytes; rewrite Hul; congruence).
      split_and!; try done.
      * rewrite fmap_app, concat_app. cbn [fmap list_fmap concat]. rewrite app_nil_r, <- !app_assoc. f_equal. f_equal.
        -- rewrite take_ge; [done|]. rewrite Eu. unfold complete, lenZ in *. lia.
        -- change (sent_bytes s v) with (burst_bytes s b (ck_len c)). rewrite H0, Z.add_0_l. unfold lenZ. rewrite Nat2Z.id. rewrite H0 in Hbytes. exact Hbytes.
      * apply Forall_app. split; [done|]. by apply Forall_singleton.
      * destruct Hfirst as (f & Hf & Hk). exists f. split; [|done]. by destruct us.
      * intros i x y Hx Hy. apply lookup_app_Some in Hy as [Hy|[Hi Hy]].
        -- apply (Hfol i); [|done]. rewrite lookup_app_l in Hx; [done|]. apply lookup_lt_Some in Hy. lia.
        -- apply list_lookup_singleton_Some in Hy as [Hi0 <-].
           assert (i = length us) as -> by (rewrite length_app in Hi, Hi0; cbn in Hi, Hi0; lia).
           rewrite <- app_assoc in Hx. cbn [app] in Hx. rewrite list_lookup_middle in Hx by done. injection Hx as <-.
           unfold follows. cbn. rewrite Hus. destruct Hnext; [by left|by right].
Qed.

Lemma session_of_gapless s es wire : gapless s (pushed es) wire → session_stream s es wire.
Proof.
  intros H. split.
  - clear -H. induction wire as [|c wire IH]; [done|]. destruct H as (_ & Hn & _ & _ & _ & Hw).
    constructor; [exact Hn|by apply IH].
  - destruct wire as [|c wire]; [by left|right].
    destruct (gapless_stream s es c wire H) as (us & u & Hb & _ & Hk & Hl & Hcat & Hrest).
    destruct H as (_ & Hn & Hoff & Hle & (b & Hb' & _ & _ & HD) & _).
    eexists us, u, _. split_and!; [exact Hcat| |apply prefix_take|apply Hrest..].
    assert (lenZ (sent_bytes s u) = ck_len c) as HL
      by (unfold sent_bytes; rewrite Hl; replace (se_burst u) with b by congruence; exact HD).
    intros E%(f_equal length). rewrite length_take in E. unfold lenZ in *. cbn in E. lia.
Qed.

(** A burst of 3 bytes; the first send takes 2 of them. *)
Definition ex_sstore : store := mk_store {[ 0%N := mk_buf 1 3 3 [7; 8; 9] ]} 1 (λ _ _, true).
Lemma ex_sstore_owns : owns ex_sstore [0%N].
Proof.
  split; [split|..]; cbn.
  - intros id b [<- _]%lookup_singleton_Some. lia.
  - intros id b [_ <-]%lookup_singleton_Some. cbn. lia.
  - intros id b [<- <-]%lookup_singleton_Some. done.
  - intros id Hid%lookup_singleton_None. set_solver.
Qed.
Definition ex_events : list dest_event :=
  [EvAdd 4 0; EvConnect; EvConnected true; EvPush 0%N 3 true 5; EvSend; EvSent 2; EvSend; EvSent 1].
