(* ===== verification/HlsPlaylist.v ===== *)
(** * Media playlists rewritten

    Models core/ngx_media_hls_playlist.[ch]: a destination's view of the stream's HLS media
    playlist, with segments trimmed from the front and missing ones marked.  The input is a
    list of bytes, a pointer into it an offset; [behind] is the memory behind the input, which
    [strtoull] may look at. *)
From Stdlib Require Import String.
From S2P Require Import Prelude Bytes.

Definition str (s : string) : list Z := (λ c, Z.of_N (Ascii.N_of_ascii c)) <$> list_ascii_of_string s.

Definition SEGMENTS_MAX : nat := 256.

Record seg := mk_seg { sg_start : nat; sg_uri : nat; sg_end : nat; sg_disc : bool; sg_gap : bool }.

Definition tag_is (line tag : list Z) : bool :=
  (length tag <=? length line)%nat && bool_decide (take (length tag) line = tag)
  && ((length line =? length tag)%nat
      || match line !! length tag with Some b => (b =? 58) || (b =? 13) | None => false end).

Definition EXTM3U : list Z := str "#EXTM3U".
Definition STREAM_INF : list Z := str "#EXT-X-STREAM-INF".
Definition MEDIA_SEQUENCE : list Z := str "#EXT-X-MEDIA-SEQUENCE".
Definition DISCONTINUITY_SEQUENCE : list Z := str "#EXT-X-DISCONTINUITY-SEQUENCE".
Definition DISCONTINUITY : list Z := str "#EXT-X-DISCONTINUITY".
Definition GAP : list Z := str "#EXT-X-GAP".
Definition ENDLIST : list Z := str "#EXT-X-ENDLIST".
#[global] Arguments str : simpl never.
Definition header_tags : list (list Z) :=
  [EXTM3U; str "#EXT-X-VERSION"; str "#EXT-X-TARGETDURATION"; MEDIA_SEQUENCE; DISCONTINUITY_SEQUENCE;
   str "#EXT-X-PLAYLIST-TYPE"; str "#EXT-X-INDEPENDENT-SEGMENTS"; str "#EXT-X-START";
   str "#EXT-X-ALLOW-CACHE"; str "#EXT-X-I-FRAMES-ONLY"; str "#EXT-X-SERVER-CONTROL";
   str "#EXT-X-PART-INF"].
Definition header_tag (line : list Z) : bool := existsb (tag_is line) header_tags.

(** A NULL [opts] is a window of 0, no first segment and nothing missing; so is an empty
    [first]. *)
Record opts := mk_opts { op_window : nat; op_first : list Z; op_missing : list (list Z) }.
Definition is_missing (o : opts) (uri : list Z) : bool := existsb (λ m, bool_decide (m = uri)) (op_missing o).

Record info := mk_info { in_segments : nat; in_removed : nat; in_gaps : nat; in_media : Z; in_uris : list (list Z) }.

(** Appended to the bytes written so far; [None] once the output is full. *)
Definition out_put (cap : Z) (out : option (list Z)) (data : list Z) : option (list Z) :=
  match out with
  | None => None
  | Some out => if cap - lenZ out <? lenZ data then None else Some (out ++ data)
  end.

(** ** Lines *)

(** [memchr(in + pos, '\n', e - pos)]: where the line at [pos] ends, its newline included. *)
Fixpoint line_span (l : list Z) : nat :=
  match l with [] => 0 | b :: l => if b =? 10 then 1 else S (line_span l) end.
Definition line_next (d : list Z) (pos e : nat) : nat := (pos + line_span (take (e - pos) (drop pos d)))%nat.
Definition range (d : list Z) (a b : nat) : list Z := take (b - a) (drop a d).

(** The line without the end-of-line bytes at its end. *)
Fixpoint strip_eol (l : list Z) : list Z :=
  match l with
  | [] => []
  | b :: l =>
      match strip_eol l with
      | [] => if (b =? 10) || (b =? 13) then [] else [b]
      | l' => b :: l'
      end
  end.

(** ** Numbers *)

Definition is_space (b : Z) : bool := (b =? 32) || (9 <=? b) && (b <=? 13).
Definition is_digit (b : Z) : bool := (48 <=? b) && (b <=? 57).
(** The digits of a number, read until one byte is none; the bytes may run out. *)
Fixpoint strto_digits (d : list Z) (v : Z) : option Z :=
  match d with
  | [] => None
  | b :: d => if is_digit b then strto_digits d (v * 10 + (b - 48)) else Some v
  end.
Fixpoint skip_spaces (d : list Z) : list Z :=
  match d with [] => [] | b :: d' => if is_space b then skip_spaces d' else d end.
(** [strtoull(p, NULL, 10)]: what does not fit saturates, a minus negates modulo 2^64. *)
Definition strtoull (d : list Z) : option Z :=
  let limit v := if v <? 2 ^ 64 then v else 2 ^ 64 - 1 in
  match skip_spaces d with
  | [] => None
  | b :: d =>
      if b =? 45 then
        v ← strto_digits d 0; Some (if v <? 2 ^ 64 then u64 (- v) else 2 ^ 64 - 1)
      else if b =? 43 then limit <$> strto_digits d 0
      else limit <$> strto_digits (b :: d) 0
  end.

(** [%llu] *)
Fixpoint dec_loop (fuel : nat) (n : Z) (acc : list Z) : list Z :=
  if n <? 10 then (48 + n) :: acc
  else match fuel with O => acc | S fuel => dec_loop fuel (n `div` 10) ((48 + n `mod` 10) :: acc) end.
Definition dec (n : Z) : list Z := dec_loop 20 n [].

(** ** Pass 1 *)

(** [sc_header_end] is the input's length until the header ends, [sc_trailer] until the end
    list is found. *)
Record scan := mk_scan {
  sc_segs : list seg; sc_in : bool; sc_start : nat; sc_disc : bool; sc_gap : bool;
  sc_header_end : nat; sc_trailer : nat; sc_media : Z; sc_discseq : Z }.
#[global] Instance eta_scan : Eta scan := λ r,
  mk_scan (sc_segs r) (sc_in r) (sc_start r) (sc_disc r) (sc_gap r) (sc_header_end r) (sc_trailer r)
    (sc_media r) (sc_discseq r).
Definition scan_init (len : nat) : scan := mk_scan [] false 0 false false len len 0 0.

(** The numbers of a header line. *)
Definition scan_header (d behind : list Z) (pos : nat) (line : list Z) (sc : scan) : option scan :=
  if tag_is line MEDIA_SEQUENCE then
    n ← strtoull (drop (pos + 22) (d ++ behind)); Some (sc <| sc_media := n |>)
  else if tag_is line DISCONTINUITY_SEQUENCE then
    n ← strtoull (drop (pos + 30) (d ++ behind)); Some (sc <| sc_discseq := n |>)
  else Some sc.

(** A line of a segment; [None] is one segment too many. *)
Definition scan_segment (pos next : nat) (line : list Z) (sc : scan) : option scan :=
  sc ← (if sc_in sc then Some sc
        else if (length (sc_segs sc) =? SEGMENTS_MAX)%nat then None
        else Some (sc <| sc_in := true |> <| sc_disc := false |> <| sc_gap := false |> <| sc_start := pos |>));
  Some
    (if bool_decide (head line = Some 35) then
       if tag_is line DISCONTINUITY then sc <| sc_disc := true |>
       else if tag_is line GAP then sc <| sc_gap := true |> else sc
     else sc <| sc_segs ::= λ l, l ++ [mk_seg (sc_start sc) pos next (sc_disc sc) (sc_gap sc)] |>
             <| sc_in := false |>).

Fixpoint scan_loop (fuel : nat) (d behind : list Z) (pos : nat) (sc : scan) : option (rc + scan) :=
  if (length d <=? pos)%nat then Some (inr sc)
  else
    match fuel with
    | O => None
    | S fuel =>
        let next := line_next d pos (length d) in
        let line := strip_eol (range d pos next) in
        if tag_is line STREAM_INF then Some (inl NGX_DECLINED)
        else if negb (sc_in sc) && (sc_header_end sc =? length d)%nat
                && (bool_decide (line = []) || header_tag line) then
          sc ← scan_header d behind pos line sc; scan_loop fuel d behind next sc
        else
          let sc := if (sc_header_end sc =? length d)%nat then sc <| sc_header_end := pos |> else sc in
          if tag_is line ENDLIST then Some (inr (sc <| sc_trailer := pos |>))
          else if bool_decide (line = []) then scan_loop fuel d behind next sc
          else
            match scan_segment pos next line sc with
            | None => Some (inl NGX_ERROR)
            | Some sc => scan_loop fuel d behind next sc
            end
    end.

(** ** Trimming *)

Definition seg_uri (d : list Z) (s : seg) : list Z := strip_eol (range d (sg_uri s) (sg_end s)).
(** The first segment kept. *)
Definition first_kept (d : list Z) (o : opts) (segs : list seg) : nat :=
  let n := length segs in
  let first := if negb (op_window o =? 0)%nat && (op_window o <? n)%nat then (n - op_window o)%nat else 0%nat in
  if bool_decide (op_first o = []) then first
  else match list_find (λ s, seg_uri d s = op_first o) segs with
       | Some (i, _) => if (first <? i)%nat then i else first
       | None => first
       end.
Definition removed_disc (segs : list seg) (first : nat) : nat :=
  length (filter (λ s, sg_disc s = true) (take first segs)).

(** ** Pass 2 *)

Fixpoint header_loop (fuel : nat) (d : list Z) (header_end pos : nat) (cut_media cut_disc : bool) (cap : Z)
    (out : option (list Z)) : option (option (list Z)) :=
  if (header_end <=? pos)%nat then Some out
  else
    match fuel with
    | O => None
    | S fuel =>
        let next := line_next d pos header_end in
        let line := range d pos next in
        if cut_media && tag_is line MEDIA_SEQUENCE then
          header_loop fuel d header_end next cut_media cut_disc cap out
        else if cut_disc && tag_is line DISCONTINUITY_SEQUENCE then
          header_loop fuel d header_end next cut_media cut_disc cap out
        else
          let out := out_put cap out line in
          let out := if bool_decide (last line = Some 10) then out else out_put cap out [10] in
          header_loop fuel d header_end next cut_media cut_disc cap out
    end.

Definition sequence_line (tag : list Z) (n : Z) : list Z := tag ++ [58] ++ dec (u64 n) ++ [10].

Definition seg_marked (d : list Z) (o : opts) (s : seg) : bool := negb (sg_gap s) && is_missing o (seg_uri d s).
Definition put_segment (d : list Z) (o : opts) (cap : Z) (out : option (list Z)) (s : seg) : option (list Z) :=
  let out := out_put cap out (range d (sg_start s) (sg_uri s)) in
  let out := if seg_marked d o s then out_put cap out (GAP ++ [10]) else out in
  out_put cap (out_put cap out (seg_uri d s)) [10].

(** [memory]: the segment array could be allocated.  The information about the result is
    only there when there is a result. *)
Definition playlist_rewrite (d behind : list Z) (o : opts) (cap : Z) (memory : bool)
    : option (rc * list Z * option info) :=
  if (length d <? 7)%nat || negb (bool_decide (take 7 d = EXTM3U)) then Some (NGX_DECLINED, [], None)
  else if negb memory then Some (NGX_ERROR, [], None)
  else
    r ← scan_loop (length d) d behind 0 (scan_init (length d));
    match r with
    | inl r => Some (r, [], None)
    | inr sc =>
        let header_end := if (sc_header_end sc =? length d)%nat
                          then (if (sc_trailer sc <? length d)%nat then sc_trailer sc else length d)
                          else sc_header_end sc in
        let segs := sc_segs sc in
        let first := first_kept d o segs in
        let removed := removed_disc segs first in
        out ← header_loop (length d) d header_end 0 (0 <? first)%nat (0 <? removed)%nat cap (Some []);
        let out := if (0 <? first)%nat
                   then out_put cap out (sequence_line MEDIA_SEQUENCE (sc_media sc + Z.of_nat first)) else out in
        let out := if (0 <? removed)%nat
                   then out_put cap out (sequence_line DISCONTINUITY_SEQUENCE (sc_discseq sc + Z.of_nat removed)) else out in
        let kept := drop first segs in
        let out := foldl (put_segment d o cap) out kept in
        let out := if (sc_trailer sc <? length d)%nat then out_put cap out (drop (sc_trailer sc) d) else out in
        Some
          match out with
          | None => (NGX_ERROR, [], None)
          | Some out =>
              (NGX_OK, out,
               Some (mk_info (length kept) first (length (filter (λ s, seg_marked d o s = true) kept))
                       (u64 (sc_media sc + Z.of_nat first)) (seg_uri d <$> kept)))
          end
    end.

(** ** Playlists *)

(** A header line: one that is copied, or one of the two sequence numbers. *)
Inductive hline := HLine (l : list Z) | HMedia (n : Z) | HDisc (n : Z).
Record segment := mk_segment { as_tags : list (list Z); as_uri : list Z }.
Record playlist := mk_playlist { pl_header : list hline; pl_segs : list segment; pl_trailer : list Z }.

Definition nl (l : list Z) : list Z := l ++ [10].
Definition lines (ls : list (list Z)) : list Z := mjoin (nl <$> ls).
Definition hline_text (h : hline) : list Z :=
  match h with
  | HLine l => l
  | HMedia n => MEDIA_SEQUENCE ++ [58] ++ dec n
  | HDisc n => DISCONTINUITY_SEQUENCE ++ [58] ++ dec n
  end.
Definition segment_lines (s : segment) : list (list Z) := as_tags s ++ [as_uri s].
Definition print (p : playlist) : list Z :=
  lines (hline_text <$> pl_header p) ++ lines (pl_segs p ≫= segment_lines) ++ pl_trailer p.

Definition has_tag (tag : list Z) (s : segment) : bool := existsb (λ l, tag_is l tag) (as_tags s).
(** The sequence numbers the header gives; the last line counts. *)
Definition media_sequence (hs : list hline) : Z :=
  foldl (λ n h, match h with HMedia n => n | _ => n end) 0 hs.
Definition disc_sequence (hs : list hline) : Z :=
  foldl (λ n h, match h with HDisc n => n | _ => n end) 0 hs.
Definition discontinuities (segs : list segment) : nat := length (filter (λ s, has_tag DISCONTINUITY s = true) segs).

(** How many segments leave: those past the window, and those from before the first one. *)
Definition trimmed (o : opts) (segs : list segment) : nat :=
  let n := length segs in
  let past := if (op_window o =? 0)%nat then 0%nat else (n - op_window o)%nat in
  if bool_decide (op_first o = []) then past
  else match list_find (λ s, as_uri s = op_first o) segs with
       | Some (i, _) => Nat.max past i
       | None => past
       end.
Definition marked (o : opts) (s : segment) : bool := negb (has_tag GAP s) && is_missing o (as_uri s).
Definition mark (o : opts) (s : segment) : segment :=
  if marked o s then mk_segment (as_tags s ++ [GAP]) (as_uri s) else s.
Definition line_stays (first removed : nat) (h : hline) : bool :=
  match h with HLine _ => true | HMedia _ => (first =? 0)%nat | HDisc _ => (removed =? 0)%nat end.
Definition trim (o : opts) (p : playlist) : playlist :=
  let first := trimmed o (pl_segs p) in
  let removed := discontinuities (take first (pl_segs p)) in
  mk_playlist
    (filter (λ h, line_stays first removed h = true) (pl_header p)
     ++ (if (0 <? first)%nat then [HMedia (u64 (media_sequence (pl_header p) + Z.of_nat first))] else [])
     ++ (if (0 <? removed)%nat then [HDisc (u64 (disc_sequence (pl_header p) + Z.of_nat removed))] else []))
    (mark o <$> drop first (pl_segs p)) (pl_trailer p).

(** A line's text holds no newline and does not end in a carriage return. *)
Definition text (l : list Z) : Prop := 10 ∉ l ∧ last l ≠ Some 13.
Definition hline_ok (h : hline) : Prop :=
  match h with
  | HLine l => text l ∧ (l = [] ∨ header_tag l = true) ∧ tag_is l MEDIA_SEQUENCE = false ∧
      tag_is l DISCONTINUITY_SEQUENCE = false ∧ tag_is l STREAM_INF = false
  | HMedia n | HDisc n => is_u64 n
  end.
Definition tag_ok (l : list Z) : Prop :=
  text l ∧ head l = Some 35 ∧ tag_is l STREAM_INF = false ∧ tag_is l ENDLIST = false.
Definition uri_ok (l : list Z) : Prop := text l ∧ l ≠ [] ∧ head l ≠ Some 35.
Definition segment_ok (s : segment) : Prop := Forall tag_ok (as_tags s) ∧ uri_ok (as_uri s).
(** A media playlist: the header opens with EXTM3U and the segments begin with a line that is
    no header's. *)
Record playlist_ok (p : playlist) : Prop := {
  po_head : ∃ l hs, pl_header p = HLine l :: hs ∧ take 7 l = EXTM3U;
  po_header : Forall hline_ok (pl_header p);
  po_segs : Forall segment_ok (pl_segs p);
  po_count : (length (pl_segs p) ≤ SEGMENTS_MAX)%nat;
  po_first l ls : pl_segs p ≫= segment_lines = l :: ls → header_tag l = false;
  po_trailer : pl_trailer p = [] ∨ ∃ rest, pl_trailer p = nl ENDLIST ++ rest }.

(** ** Lines *)

Lemma lines_cons l ls : lines (l :: ls) = l ++ 10 :: lines ls.
Proof. unfold lines, nl. cbn. by rewrite <- app_assoc. Qed.
Lemma lines_app ls ks : lines (ls ++ ks) = lines ls ++ lines ks.
Proof. unfold lines. by rewrite fmap_app, join_app. Qed.

Lemma line_span_text l rest : 10 ∉ l → line_span (l ++ 10 :: rest) = S (length l).
Proof.
  induction l as [|b l IH]; intros Hn; [done|]. apply not_elem_of_cons in Hn as [Hb Hn]. cbn.
  rewrite (proj2 (Z.eqb_neq _ _)) by congruence. by rewrite IH.
Qed.
Lemma line_span_le l : (line_span l ≤ length l)%nat.
Proof. induction l as [|b l IH]; [done|]. cbn. destruct (b =? 10); lia. Qed.
Lemma line_span_pos l : l ≠ [] → (0 < line_span l)%nat.
Proof. destruct l; [done|]. intros _. cbn. destruct (_ =? 10); lia. Qed.

Lemma strip_text l : text l → strip_eol (nl l) = l.
Proof.
  intros [Hn Hl]. unfold nl. induction l as [|b l IH]; [done|]. apply not_elem_of_cons in Hn as [Hb Hn].
  cbn [app strip_eol]. destruct l as [|c l].
  - cbn. rewrite (proj2 (Z.eqb_neq b 10)), (proj2 (Z.eqb_neq b 13)) by (cbn in Hl; congruence). done.
  - rewrite IH; [done|done|exact Hl].
Qed.

(** A line of [d], up to [e] or up to the end. *)
Lemma line_here d pos e l rest :
  range d pos e = l ++ 10 :: rest → 10 ∉ l → (pos + S (length l + length rest) ≤ length d)%nat →
  line_next d pos e = (pos + S (length l))%nat ∧ range d pos (pos + S (length l)) = nl l ∧
  range d (pos + S (length l)) e = rest.
Proof.
  intros Hd Hn Hlen. unfold line_next, range in *. rewrite Hd, line_span_text by done. split; [done|].
  assert (length (l ++ 10%Z :: rest) = S (length l) + length rest)%nat as El by (rewrite length_app; cbn; lia).
  pose proof (f_equal length Hd) as Hl. rewrite length_take, length_drop in Hl. split.
  - replace (pos + S (length l) - pos)%nat with (S (length l)) by lia.
    rewrite <- (firstn_all2 (n := e - pos) (take (S (length l)) (drop pos d))) by (rewrite length_take; lia).
    rewrite take_take, Nat.min_comm, <- take_take, Hd. unfold nl.
    replace (l ++ 10 :: rest) with ((l ++ [10]) ++ rest) by (by rewrite <- app_assoc).
    rewrite take_app_length'; [done|rewrite length_app; cbn; lia].
  - replace (e - (pos + S (length l)))%nat with (e - pos - S (length l))%nat by lia.
    rewrite <- drop_drop, <- skipn_firstn_comm, Hd.
    replace (l ++ 10 :: rest) with ((l ++ [10]) ++ rest) by (by rewrite <- app_assoc).
    rewrite drop_app_length'; [done|rewrite length_app; cbn; lia].
Qed.
Lemma range_end d pos : range d pos (length d) = drop pos d.
Proof. unfold range. apply firstn_all2. rewrite length_drop. lia. Qed.
Lemma line_at_end d pos l rest :
  drop pos d = l ++ 10 :: rest → 10 ∉ l →
  line_next d pos (length d) = (pos + S (length l))%nat ∧ range d pos (pos + S (length l)) = nl l ∧
  drop (pos + S (length l)) d = rest ∧ (pos + S (length l) ≤ length d)%nat.
Proof.
  intros Hd Hn. pose proof (f_equal length Hd) as Hl. rewrite length_drop, length_app in Hl. cbn in Hl.
  destruct (line_here d pos (length d) l rest) as (? & ? & E); [by rewrite range_end|done|lia|].
  rewrite range_end in E. split_and!; [done..|lia].
Qed.

(** ** Tags and numbers *)

Lemma tag_prefix l t : tag_is l t = true → take (length t) l = t.
Proof. unfold tag_is. rewrite !andb_true_iff. intros [[_ H] _]. by apply bool_decide_eq_true in H. Qed.
Lemma tag_hash l t : head t = Some 35 → tag_is l t = true → head l = Some 35.
Proof. intros Ht H%tag_prefix. rewrite <- H in Ht. destruct l; [by rewrite take_nil in Ht|]. destruct (length t); [done|exact Ht]. Qed.
Lemma header_hash l : header_tag l = true → head l = Some 35.
Proof.
  unfold header_tag. rewrite existsb_exists. intros (t & Ht & H). eapply tag_hash; [|exact H].
  assert (Forall (λ t, head t = Some 35) header_tags) as HF by (repeat constructor).
  rewrite Forall_forall in HF. by apply HF, list_elem_of_In.
Qed.
(** The newline behind a text does not make it a tag. *)
Lemma tag_nl l t : 10 ∉ t → tag_is (nl l) t = true → tag_is l t = true.
Proof.
  intros Hn H. pose proof (tag_prefix _ _ H) as Hp. unfold tag_is in *. rewrite !andb_true_iff in H.
  destruct H as [[Hl _] Hc]. apply Nat.leb_le in Hl. unfold nl in *. rewrite length_app in Hl, Hc. cbn [length] in *.
  assert (length t ≤ length l)%nat as Hle.
  { destruct (decide (length t = length l + 1)%nat) as [E|]; [|lia]. destruct Hn. rewrite <- Hp, firstn_all2 by (rewrite length_app; cbn; lia).
    apply elem_of_app. right. by left. }
  rewrite take_app_le in Hp by done. rewrite (proj2 (Nat.leb_le _ _)), bool_decide_true by done. cbn [andb].
  destruct (Nat.eqb_spec (length l) (length t)) as [E|Hne]; [done|]. cbn [orb].
  destruct (Nat.eqb_spec (length l + 1) (length t)); [lia|]. cbn [orb] in Hc.
  rewrite lookup_app_l in Hc by lia. exact Hc.
Qed.
Lemma tag_colon t r : tag_is (t ++ 58 :: r) t = true.
Proof.
  unfold tag_is. rewrite length_app, take_app_length. cbn [length].
  rewrite (proj2 (Nat.leb_le _ _)), bool_decide_true by (done || lia). cbn [andb].
  rewrite list_lookup_middle by done. by rewrite orb_true_r.
Qed.
Lemma tag_other r : tag_is (MEDIA_SEQUENCE ++ r) DISCONTINUITY_SEQUENCE = false ∧
  tag_is (DISCONTINUITY_SEQUENCE ++ r) MEDIA_SEQUENCE = false ∧
  tag_is (MEDIA_SEQUENCE ++ r) STREAM_INF = false ∧ tag_is (DISCONTINUITY_SEQUENCE ++ r) STREAM_INF = false.
Proof.
  split_and!; match goal with |- ?b = false => destruct b eqn:H; [|done] end; apply tag_prefix in H; discriminate H.
Qed.

Lemma dec_loop_value fuel : ∀ n acc r, 0 ≤ n < 10 ^ Z.of_nat (S fuel) →
  strto_digits (dec_loop fuel n acc ++ r) 0 = strto_digits (acc ++ r) n.
Proof.
  assert (∀ n, 0 ≤ n < 10 → is_digit (48 + n) = true) as Hd.
  { intros n Hn. unfold is_digit. by rewrite (proj2 (Z.leb_le _ _)), (proj2 (Z.leb_le _ _)) by lia. }
  induction fuel as [|fuel IH]; intros n acc r Hn; cbn [dec_loop]; destruct (Z.ltb_spec n 10).
  - cbn [app strto_digits]. rewrite Hd by lia. f_equal. lia.
  - change (10 ^ Z.of_nat 1) with 10 in Hn. lia.
  - cbn [app strto_digits]. rewrite Hd by lia. f_equal. lia.
  - rewrite IH.
    + pose proof (Z.mod_pos_bound n 10 ltac:(lia)). cbn [app strto_digits]. rewrite Hd by lia. f_equal.
      pose proof (Z.div_mod n 10). lia.
    + rewrite Nat2Z.inj_succ, Z.pow_succ_r in Hn by lia. split; [by apply Z.div_pos; lia|]. apply Z.div_lt_upper_bound; lia.
Qed.
Lemma dec_loop_digits fuel : ∀ n acc, 0 ≤ n < 10 ^ Z.of_nat (S fuel) → Forall (λ b, is_digit b = true) acc →
  Forall (λ b, is_digit b = true) (dec_loop fuel n acc) ∧ dec_loop fuel n acc ≠ [].
Proof.
  assert (∀ n, 0 ≤ n < 10 → is_digit (48 + n) = true) as Hd.
  { intros n Hn. unfold is_digit. by rewrite (proj2 (Z.leb_le _ _)), (proj2 (Z.leb_le _ _)) by lia. }
  induction fuel as [|fuel IH]; intros n acc Hn Ha; cbn [dec_loop]; destruct (Z.ltb_spec n 10).
  - split; [|done]. constructor; [apply Hd; lia|done].
  - change (10 ^ Z.of_nat 1) with 10 in Hn. lia.
  - split; [|done]. constructor; [apply Hd; lia|done].
  - apply IH.
    + rewrite Nat2Z.inj_succ, Z.pow_succ_r in Hn by lia. split; [by apply Z.div_pos; lia|]. apply Z.div_lt_upper_bound; lia.
    + constructor; [|done]. apply Hd. by apply Z.mod_pos_bound.
Qed.
Lemma dec_ok n : is_u64 n → Forall (λ b, is_digit b = true) (dec n) ∧ dec n ≠ [].
Proof.
  intros Hn. apply dec_loop_digits; [|done]. unfold is_u64 in Hn. change (10 ^ Z.of_nat 21) with 1000000000000000000000. lia.
Qed.
Lemma strtoull_dec n r : is_u64 n → strtoull (dec n ++ 10 :: r) = Some n.
Proof.
  intros Hn. destruct (dec_ok n Hn) as [Hd Hne].
  assert (strto_digits (dec n ++ 10 :: r) 0 = Some n) as E.
  { unfold dec. rewrite dec_loop_value; [done|]. unfold is_u64 in Hn. change (10 ^ Z.of_nat 21) with 1000000000000000000000. lia. }
  unfold strtoull. destruct (dec n) as [|b l]; [done|]. apply Forall_cons in Hd as [Hb _]. cbn [app] in *.
  unfold is_digit in Hb. apply andb_true_iff in Hb as [Hb1%Z.leb_le Hb2%Z.leb_le].
  assert (is_space b = false) as Hs.
  { unfold is_space. rewrite (proj2 (Z.eqb_neq _ _)), (proj2 (Z.leb_gt b 13)) by lia. apply andb_false_r. }
  cbn [skip_spaces]. rewrite Hs, (proj2 (Z.eqb_neq b 45)), (proj2 (Z.eqb_neq b 43)), E by lia. cbn.
  unfold is_u64 in Hn. by rewrite (proj2 (Z.ltb_lt _ _)) by lia.
Qed.
Lemma dec_text n : is_u64 n → ∀ t, 10 ∉ t → text (t ++ [58] ++ dec n).
Proof.
  intros Hn t Ht. destruct (dec_ok n Hn) as [Hd Hne]. rewrite Forall_forall in Hd. split.
  - rewrite !not_elem_of_app. split_and!; [done|by intros ?%list_elem_of_singleton|].
    intros Hin. by apply Hd in Hin.
  - rewrite app_assoc, last_app. destruct (last (dec n)) as [b|] eqn:E; [|by apply last_None in E].
    intros [= ->]. apply last_Some_elem_of, Hd in E. done.
Qed.
Lemma hline_text_ok h : hline_ok h → text (hline_text h).
Proof.
  destruct h as [l|n|n]; [by intros [? _]|intros; by apply dec_text, (bool_decide_unpack _)|
    intros; by apply dec_text, (bool_decide_unpack _)].
Qed.

(** ** Pass 1 on a printed playlist *)

(** A number of the header is read where its line has it. *)
Lemma number_here d behind pos tag n rest :
  drop pos d = tag ++ 58 :: dec n ++ 10 :: rest → is_u64 n →
  strtoull (drop (pos + S (length tag)) (d ++ behind)) = Some n.
Proof.
  intros Hd Hn. rewrite drop_app_le.
  - replace (pos + S (length tag))%nat with (pos + length (tag ++ [58%Z]))%nat by (rewrite length_app; cbn; lia).
    rewrite <- drop_drop, Hd. replace (tag ++ 58 :: dec n ++ 10 :: rest) with ((tag ++ [58]) ++ dec n ++ 10 :: rest) by (by rewrite <- app_assoc).
    rewrite drop_app_length, <- app_assoc. apply strtoull_dec, Hn.
  - pose proof (f_equal length Hd) as Hl. rewrite length_drop, length_app in Hl. cbn in Hl. lia.
Qed.

Definition in_header (len : nat) (m ds : Z) : scan := mk_scan [] false 0 false false len len m ds.

Lemma scan_hline d behind h fuel pos rest m ds :
  hline_ok h → drop pos d = hline_text h ++ 10 :: rest →
  scan_loop (S fuel) d behind pos (in_header (length d) m ds) =
  scan_loop fuel d behind (pos + S (length (hline_text h)))
    (in_header (length d) (match h with HMedia n => n | _ => m end) (match h with HDisc n => n | _ => ds end)).
Proof.
  intros Hh Hd. pose proof (hline_text_ok h Hh) as Ht. pose proof Ht as [Hn _].
  destruct (line_at_end d pos _ rest Hd Hn) as (En & Er & _ & Hle).
  cbn [scan_loop]. rewrite (proj2 (Nat.leb_gt _ _)), En, Er, (strip_text _ Ht) by lia.
  cbn [in_header sc_in sc_header_end negb andb]. rewrite Nat.eqb_refl. cbn [andb].
  destruct h as [l|n|n]; cbn [hline_text hline_ok] in *.
  - destruct Hh as (_ & Hor & Hm & Hdisc & Hinf). rewrite Hinf.
    assert (bool_decide (l = []) || header_tag l = true) as ->.
    { destruct Hor as [-> | ->]; [done|]. by rewrite orb_true_r. }
    unfold scan_header. rewrite Hm, Hdisc. done.
  - destruct (tag_other ([58] ++ dec n)) as (_ & _ & -> & _).
    assert (header_tag (MEDIA_SEQUENCE ++ [58] ++ dec n) = true) as ->.
    { unfold header_tag. apply existsb_exists. exists MEDIA_SEQUENCE. split; [cbn; tauto|apply tag_colon]. }
    rewrite orb_true_r. unfold scan_header. cbn [app]. rewrite tag_colon.
    change (pos + 22)%nat with (pos + S (length MEDIA_SEQUENCE))%nat.
    rewrite <- !app_assoc in Hd. by rewrite (number_here _ _ _ _ _ _ Hd Hh).
  - destruct (tag_other ([58] ++ dec n)) as (_ & Hm & _ & ->).
    assert (header_tag (DISCONTINUITY_SEQUENCE ++ [58] ++ dec n) = true) as ->.
    { unfold header_tag. apply existsb_exists. exists DISCONTINUITY_SEQUENCE. split; [cbn; tauto|apply tag_colon]. }
    rewrite orb_true_r. unfold scan_header. rewrite Hm. cbn [app]. rewrite tag_colon.
    change (pos + 30)%nat with (pos + S (length DISCONTINUITY_SEQUENCE))%nat.
    rewrite <- !app_assoc in Hd. by rewrite (number_here _ _ _ _ _ _ Hd Hh).
Qed.

Lemma scan_headers d behind hs : ∀ fuel pos rest m ds,
  Forall hline_ok hs → drop pos d = lines (hline_text <$> hs) ++ rest → (length d ≤ pos + fuel)%nat →
  ∃ fuel', (length d ≤ pos + length (lines (hline_text <$> hs)) + fuel')%nat ∧
    scan_loop fuel d behind pos (in_header (length d) m ds) =
    scan_loop fuel' d behind (pos + length (lines (hline_text <$> hs)))
      (in_header (length d) (foldl (λ n h, match h with HMedia n => n | _ => n end) m hs)
         (foldl (λ n h, match h with HDisc n => n | _ => n end) ds hs)).
Proof.
  induction hs as [|h hs IH]; intros fuel pos rest m ds Hh Hd Hf.
  - exists fuel. cbn. rewrite Nat.add_0_r. done.
  - apply Forall_cons in Hh as [Hh Hhs]. cbn [fmap list_fmap] in *. rewrite lines_cons, <- app_assoc in Hd.
    pose proof (hline_text_ok h Hh) as [Hn _].
    destruct (line_at_end d pos _ _ Hd Hn) as (_ & _ & Hd' & Hle).
    destruct fuel as [|fuel]; [lia|]. rewrite (scan_hline _ _ _ _ _ _ _ _ Hh Hd).
    destruct (IH fuel _ rest (match h with HMedia n => n | _ => m end) (match h with HDisc n => n | _ => ds end) Hhs Hd' ltac:(lia))
      as (fuel' & Hf' & ->).
    rewrite lines_cons, length_app. cbn [length]. exists fuel'. split; [lia|]. cbn [foldl]. f_equal. lia.
Qed.

(** A segment begins. *)
Definition opened (d : list Z) (pos : nat) (sc : scan) : scan :=
  let sc := if (sc_header_end sc =? length d)%nat then sc <| sc_header_end := pos |> else sc in
  sc <| sc_in := true |> <| sc_disc := false |> <| sc_gap := false |> <| sc_start := pos |>.
(** A line of a segment that is not the first of a playlist's header. *)
Definition seg_line (l : list Z) : Prop :=
  text l ∧ l ≠ [] ∧ tag_is l STREAM_INF = false ∧ tag_is l ENDLIST = false.

Lemma tag_line l : tag_ok l → seg_line l.
Proof. intros (? & Hh & ? & ?). split_and!; [done|by intros ->|done..]. Qed.
Lemma uri_line l : uri_ok l → seg_line l.
Proof.
  intros (? & ? & Hh). split_and!; [done..| |];
    (match goal with |- ?b = false => destruct b eqn:E; [|done] end); by apply (tag_hash l) in E.
Qed.

Lemma scan_opened d behind l fuel pos rest sc :
  seg_line l → drop pos d = l ++ 10 :: rest → sc_in sc = false →
  (length (sc_segs sc) < SEGMENTS_MAX)%nat → (sc_header_end sc = length d → header_tag l = false) →
  scan_loop (S fuel) d behind pos sc = scan_loop (S fuel) d behind pos (opened d pos sc).
Proof.
  intros (Ht & Hne & Hinf & Hend) Hd Hin Hc Hh. pose proof Ht as [Hn _].
  destruct (line_at_end d pos _ rest Hd Hn) as (En & Er & _ & Hle).
  cbn [scan_loop]. rewrite (proj2 (Nat.leb_gt _ _)), En, Er, (strip_text _ Ht), Hinf, Hin by lia.
  rewrite (bool_decide_false (l = [])), Hend by done. cbn [negb andb orb].
  change (sc_in (opened d pos sc)) with true. cbn [negb andb].
  assert ((sc_header_end sc =? length d)%nat && header_tag l = false) as ->.
  { destruct (Nat.eqb_spec (sc_header_end sc) (length d)); [|done]. cbn. by apply Hh. }
  assert (sc_header_end (opened d pos sc) =? length d = false)%nat as Ho.
  { unfold opened. destruct (Nat.eqb_spec (sc_header_end sc) (length d)); cbn; apply Nat.eqb_neq; [lia|done]. }
  rewrite Ho. unfold scan_segment. change (sc_in (opened d pos sc)) with true. cbv iota.
  unfold opened. destruct (sc_header_end sc =? length d)%nat; cbn [sc_in sc_segs];
    change (sc_in (sc <| sc_header_end := pos |>)) with (sc_in sc);
    change (sc_segs (sc <| sc_header_end := pos |>)) with (sc_segs sc);
    rewrite Hin, (proj2 (Nat.eqb_neq (length (sc_segs sc)) SEGMENTS_MAX)) by lia; done.
Qed.

Lemma disc_not_gap l : tag_is l DISCONTINUITY = true → tag_is l GAP = false.
Proof.
  intros E1%tag_prefix. destruct (tag_is l GAP) eqn:E2; [|done]. apply tag_prefix in E2. apply (f_equal (take 10)) in E1.
  rewrite take_take in E1. change (10 `min` _)%nat with 10%nat in E1. change (length GAP) with 10%nat in E2.
  rewrite E2 in E1. discriminate E1.
Qed.
Lemma scan_tag d behind l fuel pos rest sc :
  tag_ok l → drop pos d = l ++ 10 :: rest → sc_in sc = true → (sc_header_end sc ≠ length d) →
  scan_loop (S fuel) d behind pos sc =
  scan_loop fuel d behind (pos + S (length l))
    (sc <| sc_disc ::= λ b, b || tag_is l DISCONTINUITY |> <| sc_gap ::= λ b, b || tag_is l GAP |>).
Proof.
  intros Hl Hd Hin Hhe. pose proof (tag_line l Hl) as (Ht & Hne & Hinf & Hend). destruct Hl as (_ & Hh & _). pose proof Ht as [Hn _].
  destruct (line_at_end d pos _ rest Hd Hn) as (En & Er & _ & Hle).
  cbn [scan_loop]. rewrite (proj2 (Nat.leb_gt _ _)), En, Er, (strip_text _ Ht), Hinf, Hin by lia. cbn [negb andb].
  rewrite (proj2 (Nat.eqb_neq _ _) Hhe), Hend, (bool_decide_false (l = [])) by done.
  unfold scan_segment. rewrite Hin. cbn [mbind option_bind]. rewrite (bool_decide_true _ Hh).
  pose proof (disc_not_gap l) as HG. revert HG. generalize (tag_is l DISCONTINUITY) as D, (tag_is l GAP) as G.
  intros D G HG. destruct sc; cbn in *; subst.
  destruct D, G; cbn; rewrite ?orb_true_r, ?orb_false_r; try done. by discriminate HG.
Qed.

Lemma scan_tags d behind tags : ∀ fuel pos rest sc,
  Forall tag_ok tags → drop pos d = lines tags ++ rest → sc_in sc = true → sc_header_end sc ≠ length d →
  (length d ≤ pos + fuel)%nat →
  ∃ fuel', (length d ≤ pos + length (lines tags) + fuel')%nat ∧
    scan_loop fuel d behind pos sc =
    scan_loop fuel' d behind (pos + length (lines tags))
      (sc <| sc_disc ::= λ b, b || existsb (λ l, tag_is l DISCONTINUITY) tags |>
          <| sc_gap ::= λ b, b || existsb (λ l, tag_is l GAP) tags |>).
Proof.
  induction tags as [|l tags IH]; intros fuel pos rest sc Ht Hd Hin Hhe Hf.
  - exists fuel. cbn. rewrite Nat.add_0_r. destruct sc. cbn. by rewrite !orb_false_r.
  - apply Forall_cons in Ht as [Hl Hts]. rewrite lines_cons, <- app_assoc in Hd.
    destruct (line_at_end d pos _ _ Hd (proj1 (proj1 Hl))) as (_ & _ & Hd' & Hle).
    destruct fuel as [|fuel]; [lia|]. rewrite (scan_tag _ _ _ _ _ _ _ Hl Hd) by done.
    set (sc' := sc <| sc_disc ::= _ |> <| sc_gap ::= _ |>).
    destruct (IH fuel _ rest sc' Hts Hd' Hin Hhe ltac:(lia)) as (fuel' & Hf' & E).
    rewrite lines_cons, length_app. cbn [length]. exists fuel'. split; [lia|]. rewrite E. f_equal; [lia|].
    unfold sc'. destruct sc; cbn. by rewrite !orb_assoc.
Qed.

(** Where pass 1 has a segment's lines, and what it knows of them. *)
Record seg_at (d : list Z) (s : segment) (g : seg) : Prop := {
  sa_tags : range d (sg_start g) (sg_uri g) = lines (as_tags s);
  sa_uri : range d (sg_uri g) (sg_end g) = nl (as_uri s);
  sa_disc : sg_disc g = has_tag DISCONTINUITY s;
  sa_gap : sg_gap g = has_tag GAP s }.

Lemma scan_uri d behind l fuel pos rest sc :
  uri_ok l → drop pos d = l ++ 10 :: rest → sc_in sc = true → sc_header_end sc ≠ length d →
  scan_loop (S fuel) d behind pos sc =
  scan_loop fuel d behind (pos + S (length l))
    (sc <| sc_segs ::= λ ss, ss ++ [mk_seg (sc_start sc) pos (pos + S (length l)) (sc_disc sc) (sc_gap sc)] |>
        <| sc_in := false |>).
Proof.
  intros Hl Hd Hin Hhe. pose proof (uri_line l Hl) as (Ht & Hne & Hinf & Hend). destruct Hl as (_ & _ & Hh). pose proof Ht as [Hn _].
  destruct (line_at_end d pos _ rest Hd Hn) as (En & Er & _ & Hle).
  cbn [scan_loop]. rewrite (proj2 (Nat.leb_gt _ _)), En, Er, (strip_text _ Ht), Hinf, Hin by lia. cbn [negb andb].
  rewrite (proj2 (Nat.eqb_neq _ _) Hhe), Hend, (bool_decide_false (l = [])) by done.
  unfold scan_segment. rewrite Hin. cbn [mbind option_bind]. by rewrite (bool_decide_false (head l = Some 35)).
Qed.

(** One segment. *)
Lemma scan_one d behind s fuel pos rest sc :
  segment_ok s → drop pos d = lines (segment_lines s) ++ rest → sc_in sc = false →
  (length (sc_segs sc) < SEGMENTS_MAX)%nat →
  (sc_header_end sc = length d → ∀ l ls, segment_lines s = l :: ls → header_tag l = false) →
  (length d ≤ pos + fuel)%nat →
  ∃ fuel' g, (length d ≤ pos + length (lines (segment_lines s)) + fuel')%nat ∧ seg_at d s g ∧
    scan_loop fuel d behind pos sc =
    scan_loop fuel' d behind (pos + length (lines (segment_lines s)))
      (mk_scan (sc_segs sc ++ [g]) false pos (sg_disc g) (sg_gap g)
         (if (sc_header_end sc =? length d)%nat then pos else sc_header_end sc) (sc_trailer sc) (sc_media sc) (sc_discseq sc)).
Proof.
  intros [Htags Huri] Hd Hin Hc Hh Hf. unfold segment_lines in *.
  assert (∃ l ls rest', as_tags s ++ [as_uri s] = l :: ls ∧ seg_line l ∧ drop pos d = l ++ 10 :: rest') as (l & ls & rest' & El & Hl & Hdl).
  { destruct (as_tags s) as [|l ls] eqn:E; cbn [app] in *; rewrite lines_cons, <- app_assoc in Hd.
    - eexists _, _, _. split_and!; [done|by apply uri_line|exact Hd].
    - eexists _, _, _. split_and!; [done| |exact Hd]. apply tag_line. by apply Forall_cons in Htags as [? _]. }
  destruct (line_at_end d pos l _ Hdl (proj1 (proj1 Hl))) as (_ & _ & _ & Hle).
  rewrite lines_app in Hd. rewrite lines_app, length_app, lines_cons, length_app in *.
  change (lines []) with (@nil Z) in *. cbn [length] in *.
  destruct fuel as [|fuel]; [lia|].
  rewrite (scan_opened _ _ _ _ _ _ _ Hl Hdl Hin Hc) by (intros E; by eapply Hh).
  assert (sc_header_end (opened d pos sc) = if (sc_header_end sc =? length d)%nat then pos else sc_header_end sc) as Ehe
    by (unfold opened; by destruct (_ =? _)%nat).
  assert (sc_header_end (opened d pos sc) ≠ length d) as Hhe.
  { rewrite Ehe. destruct (Nat.eqb_spec (sc_header_end sc) (length d)); [lia|done]. }
  rewrite <- app_assoc in Hd.
  destruct (scan_tags d behind (as_tags s) (S fuel) pos _ (opened d pos sc) Htags Hd eq_refl Hhe Hf) as (f1 & Hf1 & ->).
  set (sc1 := (opened d pos sc) <| sc_disc ::= _ |> <| sc_gap ::= _ |>).
  assert (drop (pos + length (lines (as_tags s))) d = as_uri s ++ 10 :: rest) as Hdu.
  { rewrite <- drop_drop, Hd, drop_app_length. by rewrite <- app_assoc. }
  pose proof (proj1 (proj1 Huri)) as Hn.
  destruct (line_at_end d _ (as_uri s) rest Hdu Hn) as (_ & Er & _ & Hle1).
  destruct f1 as [|f1]; [lia|].
  rewrite (scan_uri d behind (as_uri s) f1 _ rest sc1 Huri Hdu eq_refl Hhe).
  exists f1, (mk_seg pos (pos + length (lines (as_tags s))) (pos + length (lines (as_tags s)) + S (length (as_uri s)))
    (has_tag DISCONTINUITY s) (has_tag GAP s)). split_and!; [cbn; lia| |].
  - split; cbn; [|done..]. unfold range. rewrite Hd.
    replace (pos + length (lines (as_tags s)) - pos)%nat with (length (lines (as_tags s))) by lia. by rewrite take_app_length.
  - f_equal; [cbn; lia|]. rewrite <- Ehe. unfold sc1, opened. by destruct (sc_header_end sc =? length d)%nat.
Qed.

Lemma lines_pos ls : (length ls ≤ length (lines ls))%nat.
Proof. induction ls as [|l ls IH]; [done|]. rewrite lines_cons, length_app. cbn [length]. lia. Qed.

Lemma scan_segments d behind ss : ∀ fuel pos rest sc,
  Forall segment_ok ss → drop pos d = lines (ss ≫= segment_lines) ++ rest → sc_in sc = false →
  (length (sc_segs sc) + length ss ≤ SEGMENTS_MAX)%nat →
  (sc_header_end sc = length d → ∀ l ls, ss ≫= segment_lines = l :: ls → header_tag l = false) →
  (length d ≤ pos + fuel)%nat →
  ∃ fuel' gs sc', (length d ≤ pos + length (lines (ss ≫= segment_lines)) + fuel')%nat ∧ Forall2 (seg_at d) ss gs ∧
    scan_loop fuel d behind pos sc = scan_loop fuel' d behind (pos + length (lines (ss ≫= segment_lines))) sc' ∧
    sc_segs sc' = sc_segs sc ++ gs ∧ sc_in sc' = false ∧
    sc_header_end sc' = (if decide (ss = []) then sc_header_end sc
                         else if (sc_header_end sc =? length d)%nat then pos else sc_header_end sc) ∧
    sc_trailer sc' = sc_trailer sc ∧ sc_media sc' = sc_media sc ∧ sc_discseq sc' = sc_discseq sc.
Proof.
  induction ss as [|s ss IH]; intros fuel pos rest sc Hs Hd Hin Hc Hh Hf.
  - exists fuel, [], sc. cbn. rewrite Nat.add_0_r, app_nil_r. split_and!; done.
  - apply Forall_cons in Hs as [Hs Hss]. rewrite bind_cons, lines_app in *. rewrite <- app_assoc in Hd. rewrite length_app. cbn [length] in Hc.
    destruct (scan_one d behind s fuel pos _ sc Hs Hd Hin ltac:(lia)) as (f1 & g & Hf1 & Hg & ->); [|done|].
    { intros E l ls El. apply (Hh E l (ls ++ (ss ≫= segment_lines))). by rewrite El. }
    set (he := if (_ =? _)%nat then pos else _). set (sc1 := mk_scan _ _ _ _ _ _ _ _ _).
    assert (drop (pos + length (lines (segment_lines s))) d = lines (ss ≫= segment_lines) ++ rest) as Hd1
      by (by rewrite <- drop_drop, Hd, drop_app_length).
    assert (he ≠ length d) as Hhe.
    { unfold he. destruct (Nat.eqb_spec (sc_header_end sc) (length d)); [|done]. intros ->.
      rewrite drop_ge in Hd by lia. pose proof (lines_pos (segment_lines s)) as Hl. unfold segment_lines in Hd, Hl.
      rewrite length_app in Hl. cbn in Hl. apply (f_equal length) in Hd. rewrite length_app in Hd. cbn in Hd. lia. }
    destruct (IH f1 _ rest sc1 Hss Hd1 eq_refl) as (f2 & gs & sc2 & Hf2 & Hgs & -> & E1 & E2 & E3 & E4 & E5 & E6).
    { cbn. rewrite length_app. cbn. lia. }
    { intros E. by destruct Hhe. }
    { lia. }
    exists f2, (g :: gs), sc2. split_and!; [lia|by constructor|f_equal; lia| |done| |done..].
    + rewrite E1. cbn. by rewrite <- app_assoc.
    + rewrite E3. cbn [sc1 sc_header_end]. rewrite (proj2 (Nat.eqb_neq _ _) Hhe). by destruct (decide (ss = [])).
Qed.

(** Pass 1 finds the header, the segments and the trailer of a printed playlist. *)
Lemma scan_print p behind :
  playlist_ok p →
  let d := print p in
  ∃ sc, scan_loop (length d) d behind 0 (scan_init (length d)) = Some (inr sc) ∧
    Forall2 (seg_at d) (pl_segs p) (sc_segs sc) ∧ drop (sc_trailer sc) d = pl_trailer p ∧
    sc_media sc = media_sequence (pl_header p) ∧ sc_discseq sc = disc_sequence (pl_header p) ∧
    (sc_trailer sc ≤ length d)%nat ∧
    (if (sc_header_end sc =? length d)%nat then (if (sc_trailer sc <? length d)%nat then sc_trailer sc else length d)
     else sc_header_end sc) = length (lines (hline_text <$> pl_header p)).
Proof.
  intros [_ Hh Hs Hc Hf Ht] d.
  assert (drop 0 d = lines (hline_text <$> pl_header p) ++ lines (pl_segs p ≫= segment_lines) ++ pl_trailer p) as Hd by done.
  destruct (scan_headers d behind (pl_header p) (length d) 0 _ 0 0 Hh Hd ltac:(lia)) as (f1 & Hf1 & E1).
  change (scan_init (length d)) with (in_header (length d) 0 0). rewrite E1. cbn [Nat.add] in *. clear E1.
  set (n := length (lines (hline_text <$> pl_header p))) in *.
  fold (media_sequence (pl_header p)). fold (disc_sequence (pl_header p)). set (sc1 := in_header _ _ _).
  assert (drop n d = lines (pl_segs p ≫= segment_lines) ++ pl_trailer p) as Hd1 by (by unfold n, d, print; rewrite drop_app_length).
  destruct (scan_segments d behind (pl_segs p) f1 n _ sc1 Hs Hd1 eq_refl) as (f2 & gs & sc2 & Hf2 & Hgs & -> & E1 & E2 & E3 & E4 & E5 & E6);
    [done|by intros _ l ls; apply Hf|done|].
  set (m := length (lines (pl_segs p ≫= segment_lines))) in *.
  assert (drop (n + m) d = pl_trailer p) as Hd2 by (by rewrite <- drop_drop, Hd1; unfold m; rewrite drop_app_length).
  assert (length d = n + m + length (pl_trailer p))%nat as Hlen by (unfold d, print; rewrite !length_app; lia).
  assert (pl_segs p = [] ∧ m = 0%nat ∧ sc_header_end sc2 = length d ∨
          pl_segs p ≠ [] ∧ (0 < m)%nat ∧ sc_header_end sc2 = n) as He2.
  { rewrite E3. destruct (decide (pl_segs p = [])) as [E|E].
    - left. unfold m. by rewrite E.
    - right. cbn [sc1 in_header sc_header_end]. rewrite Nat.eqb_refl. split_and!; [done| |done].
      unfold m. destruct (pl_segs p) as [|s ss]; [done|]. rewrite bind_cons, lines_app, length_app.
      pose proof (lines_pos (segment_lines s)) as Hl. unfold segment_lines in Hl at 1. rewrite length_app in Hl. cbn in Hl. lia. }
  destruct Ht as [Ht | (rest & Ht)].
  - rewrite Ht in Hlen. cbn [length] in Hlen. exists sc2.
    split_and!; [|by rewrite E1|rewrite E4; cbn; rewrite Ht; apply drop_all|by rewrite E5|by rewrite E6|rewrite E4; cbn; lia|].
    + destruct f2; cbn [scan_loop]; by rewrite (proj2 (Nat.leb_le _ _)) by lia.
    + rewrite E4. cbn [sc1 in_header sc_trailer]. rewrite Nat.ltb_irrefl.
      destruct He2 as [(_ & ? & ->) | (_ & ? & ->)]; [rewrite Nat.eqb_refl; lia|]. rewrite (proj2 (Nat.eqb_neq _ _)); lia.
  - rewrite Ht in Hd2. unfold nl in Hd2. rewrite <- app_assoc in Hd2.
    assert (text ENDLIST) as Htx by (apply (bool_decide_unpack _); reflexivity).
    destruct (line_at_end d (n + m) ENDLIST rest Hd2 (proj1 Htx)) as (En & Er & _ & Hle).
    destruct f2 as [|f2]; [lia|].
    set (he := if (sc_header_end sc2 =? length d)%nat then (n + m)%nat else sc_header_end sc2).
    assert (he = n) as Ehe.
    { unfold he. destruct He2 as [(_ & ? & ->) | (_ & ? & ->)]; [rewrite Nat.eqb_refl; lia|]. by rewrite (proj2 (Nat.eqb_neq _ _)) by lia. }
    exists (mk_scan (sc_segs sc2) (sc_in sc2) (sc_start sc2) (sc_disc sc2) (sc_gap sc2) he (n + m) (sc_media sc2) (sc_discseq sc2)).
    cbn [scan_loop]. rewrite (proj2 (Nat.leb_gt _ _)), En, Er, (strip_text _ Htx), E2 by lia.
    change (tag_is ENDLIST STREAM_INF) with false. change (header_tag ENDLIST) with false. change (tag_is ENDLIST ENDLIST) with true.
    change (bool_decide (ENDLIST = [])) with false. cbn [negb andb orb]. rewrite andb_false_r.
    cbn [sc_segs sc_trailer sc_header_end sc_media sc_discseq].
    split_and!; [|by rewrite E1|by rewrite Hd2, Ht; unfold nl; rewrite <- app_assoc|by rewrite E5|by rewrite E6|lia|].
    + rewrite <- E2. clear. unfold he. destruct sc2 as [? ? ? ? ? hd ? ? ?]. cbn. by destruct (hd =? length d)%nat.
    + rewrite Ehe. rewrite (proj2 (Nat.ltb_lt (n + m) (length d))) by lia. destruct (Nat.eqb_spec n (length d)); lia.
Qed.

(** ** Pass 2 on a printed playlist *)

Definition fits (cap : Z) (out : option (list Z)) : Prop := match out with Some out => lenZ out ≤ cap | None => True end.
Lemma put_fits cap out l : fits cap out → fits cap (out_put cap out l).
Proof. destruct out as [out|]; [|done]. cbn. intros H. destruct (Z.ltb_spec (cap - lenZ out) (lenZ l)); cbn; [done|]. rewrite lenZ_app. lia. Qed.
Lemma put_nil cap out : fits cap out → out_put cap out [] = out.
Proof.
  destruct out as [out|]; [|done]. unfold out_put, fits. intros H. change (lenZ []) with 0. rewrite app_nil_r.
  by rewrite (proj2 (Z.ltb_ge _ _)) by lia.
Qed.
Lemma out_put_put cap out a b : out_put cap (out_put cap out a) b = out_put cap out (a ++ b).
Proof.
  destruct out as [out|]; [|done]. cbn. rewrite lenZ_app. pose proof (lenZ_nonneg a). pose proof (lenZ_nonneg b).
  destruct (Z.ltb_spec (cap - lenZ out) (lenZ a)); cbn.
  - by rewrite (proj2 (Z.ltb_lt _ _)) by lia.
  - rewrite lenZ_app, <- app_assoc.
    destruct (Z.ltb_spec (cap - (lenZ out + lenZ a)) (lenZ b)), (Z.ltb_spec (cap - lenZ out) (lenZ a + lenZ b)); lia || done.
Qed.

Definition cut_stays (cut_media cut_disc : bool) (h : hline) : bool :=
  match h with HLine _ => true | HMedia _ => negb cut_media | HDisc _ => negb cut_disc end.

Lemma cut_stays_tags m ds h :
  hline_ok h →
  cut_stays m ds h =
  negb (m && tag_is (nl (hline_text h)) MEDIA_SEQUENCE) && negb (ds && tag_is (nl (hline_text h)) DISCONTINUITY_SEQUENCE).
Proof.
  intros Hh. destruct h as [l|n|n]; unfold nl; cbn [cut_stays hline_text hline_ok] in *.
  - destruct Hh as (_ & _ & Hm & Hd & _).
    assert (tag_is (l ++ [10]) MEDIA_SEQUENCE = false) as ->.
    { destruct (tag_is (l ++ [10]) MEDIA_SEQUENCE) eqn:E; [|done]. apply tag_nl in E; [congruence|]. apply (bool_decide_unpack _); reflexivity. }
    assert (tag_is (l ++ [10]) DISCONTINUITY_SEQUENCE = false) as ->.
    { destruct (tag_is (l ++ [10]) DISCONTINUITY_SEQUENCE) eqn:E; [|done]. apply tag_nl in E; [congruence|]. apply (bool_decide_unpack _); reflexivity. }
    by rewrite !andb_false_r.
  - rewrite <- !app_assoc. destruct (tag_other ([58] ++ dec n ++ [10])) as (-> & _). cbn [app]. rewrite tag_colon.
    by rewrite andb_false_r, !andb_true_r.
  - rewrite <- !app_assoc. destruct (tag_other ([58] ++ dec n ++ [10])) as (_ & -> & _). cbn [app]. rewrite tag_colon.
    by rewrite andb_false_r, !andb_true_r.
Qed.

Lemma header_print d he m ds cap hs : ∀ fuel pos out,
  Forall hline_ok hs → range d pos he = lines (hline_text <$> hs) → he = (pos + length (lines (hline_text <$> hs)))%nat →
  (he ≤ length d)%nat → (he ≤ pos + fuel)%nat → fits cap out →
  header_loop fuel d he pos m ds cap out =
  Some (out_put cap out (lines (hline_text <$> filter (λ h, cut_stays m ds h = true) hs))).
Proof.
  induction hs as [|h hs IH]; intros fuel pos out Hh Hr He Hle Hf Hout.
  - cbn in He. cbn [lines filter fmap list_filter list_fmap]. change (lines []) with (@nil Z). rewrite put_nil by done.
    destruct fuel; cbn [header_loop]; by rewrite (proj2 (Nat.leb_le _ _)) by lia.
  - apply Forall_cons in Hh as [Hh Hhs]. cbn [fmap list_fmap] in Hr, He. rewrite lines_cons in Hr, He. rewrite length_app in He. cbn [length] in He.
    pose proof (hline_text_ok h Hh) as [Hn _].
    destruct (line_here d pos he (hline_text h) _ Hr Hn ltac:(lia)) as (En & Er & Hr').
    destruct fuel as [|fuel]; [lia|]. cbn [header_loop]. rewrite (proj2 (Nat.leb_gt _ _)), En, Er by lia.
    rewrite filter_cons. pose proof (cut_stays_tags m ds h Hh) as Hcut.
    destruct (m && tag_is (nl (hline_text h)) MEDIA_SEQUENCE); cbn [negb andb] in Hcut.
    { rewrite decide_False by (by rewrite Hcut). apply IH; done || lia. }
    destruct (ds && tag_is (nl (hline_text h)) DISCONTINUITY_SEQUENCE); cbn [negb] in Hcut.
    { rewrite decide_False by (by rewrite Hcut). apply IH; done || lia. }
    rewrite decide_True by done.
    rewrite (bool_decide_true (last (nl (hline_text h)) = Some 10)) by apply last_snoc.
    rewrite IH by (done || lia || by apply put_fits). rewrite out_put_put. done.
Qed.

Lemma segs_filter d segs gs (P : segment → bool) (Q : seg → bool) :
  Forall segment_ok segs → Forall2 (seg_at d) segs gs → (∀ s g, segment_ok s → seg_at d s g → P s = Q g) →
  length (filter (λ s, P s = true) segs) = length (filter (λ g, Q g = true) gs).
Proof.
  intros Hs H HPQ. induction H as [|s g segs gs Hg _ IH]; [done|]. apply Forall_cons in Hs as [Hs Hss].
  rewrite !filter_cons, (HPQ s g Hs Hg). specialize (IH Hss).
  destruct (decide (Q g = true)); cbn; by rewrite IH.
Qed.
Lemma uri_at d s g : segment_ok s → seg_at d s g → seg_uri d g = as_uri s.
Proof. intros [_ [Ht _]] Hg. unfold seg_uri. rewrite (sa_uri _ _ _ Hg). by apply strip_text. Qed.

(** The same segments leave. *)
Lemma first_kept_trimmed d o segs gs :
  Forall segment_ok segs → Forall2 (seg_at d) segs gs → first_kept d o gs = trimmed o segs.
Proof.
  intros Hs H. unfold first_kept, trimmed. rewrite (Forall2_length _ _ _ H).
  assert (fst <$> list_find (λ g, seg_uri d g = op_first o) gs = fst <$> list_find (λ s, as_uri s = op_first o) segs) as E.
  { clear -Hs H. induction H as [|s g segs gs Hg _ IH]; [done|]. apply Forall_cons in Hs as [Hs Hss]. cbn [list_find].
    pose proof (uri_at d s g Hs Hg) as Eu. destruct (decide (as_uri s = op_first o)) as [E|E].
    - by rewrite decide_True by congruence.
    - rewrite decide_False by congruence. specialize (IH Hss).
      destruct (list_find _ gs) as [[i x]|], (list_find _ segs) as [[j y]|]; cbn in *; congruence. }
  assert ((if negb (op_window o =? 0)%nat && (op_window o <? length gs)%nat then length gs - op_window o else 0)%nat =
          (if (op_window o =? 0)%nat then 0 else length gs - op_window o)%nat) as ->.
  { destruct (op_window o =? 0)%nat; [done|]. cbn [negb andb]. destruct (Nat.ltb_spec (op_window o) (length gs)); lia. }
  destruct (bool_decide (op_first o = [])); [done|].
  destruct (list_find _ gs) as [[i x]|], (list_find _ segs) as [[j y]|]; cbn in E; try discriminate E; [|done].
  injection E as <-. set (n := if (op_window o =? 0)%nat then _ else _). destruct (Nat.ltb_spec n i); lia.
Qed.
Lemma marked_at d o s g : segment_ok s → seg_at d s g → marked o s = seg_marked d o g.
Proof. intros Hs Hg. unfold marked, seg_marked. by rewrite (sa_gap _ _ _ Hg), (uri_at d s g). Qed.

Lemma put_segment_at d o cap out s g :
  segment_ok s → seg_at d s g → put_segment d o cap out g = out_put cap out (lines (segment_lines (mark o s))).
Proof.
  intros Hs Hg. unfold put_segment, mark. rewrite <- (marked_at d o s g Hs Hg), (sa_tags _ _ _ Hg), (uri_at d s g Hs Hg).
  unfold segment_lines. destruct (marked o s); cbn [as_tags as_uri]; rewrite !out_put_put, !lines_app, !lines_cons;
    change (lines []) with (@nil Z); by rewrite <- ?app_assoc.
Qed.
Lemma put_segments d o cap segs gs : ∀ out,
  Forall segment_ok segs → Forall2 (seg_at d) segs gs → fits cap out →
  foldl (put_segment d o cap) out gs = out_put cap out (lines ((mark o <$> segs) ≫= segment_lines)).
Proof.
  intros out Hs H. revert out Hs. induction H as [|s g segs gs Hg _ IH]; intros out Hs Hf.
  - cbn. by rewrite put_nil.
  - apply Forall_cons in Hs as [Hs Hss]. cbn [foldl fmap list_fmap]. rewrite bind_cons, lines_app, (put_segment_at _ _ _ _ s) by done.
    rewrite IH by (done || by apply put_fits). by rewrite out_put_put.
Qed.

Lemma trimmed_le o segs : (trimmed o segs ≤ length segs)%nat.
Proof.
  unfold trimmed. assert ((if (op_window o =? 0)%nat then 0 else length segs - op_window o) ≤ length segs)%nat as Hw by (case_match; lia).
  destruct (bool_decide _); [done|]. destruct (list_find _ segs) as [[i s]|] eqn:E; [|done].
  apply list_find_Some in E as (E%lookup_lt_Some & _). lia.
Qed.
Lemma put_uris d o segs gs :
  Forall segment_ok segs → Forall2 (seg_at d) segs gs → seg_uri d <$> gs = as_uri <$> (mark o <$> segs).
Proof.
  intros Hs H. induction H as [|s g segs gs Hg _ IH]; [done|]. apply Forall_cons in Hs as [Hs Hss]. cbn [fmap list_fmap].
  rewrite (uri_at d s g), (IH Hss) by done. f_equal. unfold mark. by destruct (marked o s).
Qed.
Lemma put_when cap out (c : bool) h : fits cap out →
  (if c then out_put cap out (nl (hline_text h)) else out) = out_put cap out (lines (hline_text <$> (if c then [h] else []))).
Proof. intros Hf. destruct c; [by unfold lines; cbn; rewrite app_nil_r|]. symmetry. by apply put_nil. Qed.
Lemma put_trailer cap out d t : fits cap out → (t ≤ length d)%nat →
  (if (t <? length d)%nat then out_put cap out (drop t d) else out) = out_put cap out (drop t d).
Proof. intros Hf Ht. destruct (Nat.ltb_spec t (length d)); [done|]. rewrite drop_ge by lia. symmetry. by apply put_nil. Qed.
Lemma cut_line_stays first removed h : cut_stays (0 <? first)%nat (0 <? removed)%nat h = line_stays first removed h.
Proof. destruct h; [done|destruct first; done|destruct removed; done]. Qed.

(** Pass 2 from what pass 1 knows. *)
Lemma rewrite_print p behind o cap :
  playlist_ok p → 0 ≤ cap →
  let q := trim o p in
  playlist_rewrite (print p) behind o cap true =
  Some match out_put cap (Some []) (print q) with
       | None => (NGX_ERROR, [], None)
       | Some out =>
           (NGX_OK, out,
            Some (mk_info (length (pl_segs q)) (trimmed o (pl_segs p))
                    (length (filter (λ s, marked o s = true) (drop (trimmed o (pl_segs p)) (pl_segs p))))
                    (u64 (media_sequence (pl_header p) + Z.of_nat (trimmed o (pl_segs p)))) (as_uri <$> pl_segs q)))
       end.
Proof.
  intros Hp Hcap q. pose proof Hp as [(l & hs & Eh & El) Hh Hs _ _ _].
  destruct (scan_print p behind Hp) as (sc & Esc & Hgs & Htr & Em & Eds & Htl & Ehe). unfold playlist_rewrite.
  set (d := print p) in *. set (n := length (lines (hline_text <$> pl_header p))) in *.
  assert (take 7 d = EXTM3U) as H7.
  { unfold d, print. rewrite Eh. cbn [fmap list_fmap hline_text]. rewrite lines_cons, <- app_assoc.
    rewrite take_app_le; [done|]. apply (f_equal length) in El. rewrite length_take in El. change (length EXTM3U) with 7%nat in El. lia. }
  assert (7 ≤ length d)%nat as Hl7.
  { apply (f_equal length) in H7. rewrite length_take in H7. change (length EXTM3U) with 7%nat in H7. lia. }
  rewrite (proj2 (Nat.ltb_ge _ _) Hl7), (bool_decide_true _ H7), Esc. cbn [orb negb mbind option_bind]. rewrite Ehe.
  rewrite (first_kept_trimmed d o (pl_segs p) (sc_segs sc)) by done. set (first := trimmed o (pl_segs p)) in *.
  assert (removed_disc (sc_segs sc) first = discontinuities (take first (pl_segs p))) as ->.
  { symmetry. unfold removed_disc, discontinuities. apply (segs_filter d); [by apply Forall_take|by apply Forall2_take|].
    intros s g _ Hg. by rewrite (sa_disc _ _ _ Hg). }
  set (removed := discontinuities (take first (pl_segs p))) in *.
  assert (n ≤ length d)%nat as Hn by (unfold d, print; rewrite length_app; lia).
  rewrite (header_print d n _ _ cap (pl_header p) (length d) 0 (Some [])); [|done| |done|done|lia|exact Hcap].
  2: { unfold range, d, print. rewrite Nat.sub_0_r, drop_0. unfold n. by rewrite take_app_length. }
  cbn [mbind option_bind]. f_equal.
  assert (Forall segment_ok (drop first (pl_segs p))) as Hs' by by apply Forall_drop.
  assert (Forall2 (seg_at d) (drop first (pl_segs p)) (drop first (sc_segs sc))) as Hg' by by apply Forall2_drop.
  rewrite Em, Eds.
  change (sequence_line MEDIA_SEQUENCE ?n) with (nl (hline_text (HMedia (u64 n)))).
  change (sequence_line DISCONTINUITY_SEQUENCE ?n) with (nl (hline_text (HDisc (u64 n)))).
  assert (fits cap (Some [])) as Hf0 by exact Hcap.
  rewrite !put_when, (put_segments d o cap (drop first (pl_segs p))), put_trailer, !out_put_put, Htr
    by (repeat first [done | apply put_fits | case_match]).
  rewrite (put_uris d o (drop first (pl_segs p))) by done.
  rewrite <- (segs_filter d (drop first (pl_segs p)) _ (marked o)) by (done || intros; by apply marked_at).
  replace (length (drop first (sc_segs sc))) with (length (pl_segs q))
    by (unfold q; cbn [pl_segs trim]; rewrite length_fmap; apply (Forall2_length _ _ _ Hg')).
  replace (print q) with (lines (hline_text <$> filter (λ h, cut_stays (0 <? first)%nat (0 <? removed)%nat h = true) (pl_header p)) ++
    lines (hline_text <$> (if (0 <? first)%nat then [HMedia (u64 (media_sequence (pl_header p) + Z.of_nat first))] else [])) ++
    lines (hline_text <$> (if (0 <? removed)%nat then [HDisc (u64 (disc_sequence (pl_header p) + Z.of_nat removed))] else [])) ++
    lines ((mark o <$> drop first (pl_segs p)) ≫= segment_lines) ++ pl_trailer p); [done|].
  unfold q, print, trim. cbn [pl_header pl_segs pl_trailer]. rewrite !fmap_app, !lines_app, <- !app_assoc. f_equal.
  do 2 f_equal. apply list_filter_iff. intros h. by rewrite cut_line_stays.
Qed.

(** ** Any input *)

Lemma strto_ends l r : ∀ v, is_Some (strto_digits (l ++ 0 :: r) v).
Proof. induction l as [|b l IH]; intros v; cbn; [by eexists|]. case_match; [apply IH|by eexists]. Qed.
Lemma skip_ends l r : ∃ l', skip_spaces (l ++ 0 :: r) = l' ++ 0 :: r.
Proof. induction l as [|b l IH]; [by exists []|]. cbn. case_match; [done|]. by exists (b :: l). Qed.
Lemma strtoull_ends l r : is_Some (strtoull (l ++ 0 :: r)).
Proof.
  unfold strtoull. destruct (skip_ends l r) as [[|b l'] ->]; cbn [app]; [by eexists|].
  destruct (strto_ends l' r 0) as [v Ev]. rewrite Ev.
  destruct (b =? 45); [by eexists|]. destruct (b =? 43); [by eexists|].
  destruct (strto_ends (b :: l') r 0) as [w Ew]. cbn [app] in Ew. rewrite Ew. by eexists.
Qed.
Lemma strip_le l : (length (strip_eol l) ≤ length l)%nat.
Proof. induction l as [|b l IH]; [done|]. cbn. destruct (strip_eol l); [case_match; cbn; lia|cbn in *; lia]. Qed.
Lemma line_next_bounds d pos e : (pos < e)%nat → (e ≤ length d)%nat → (pos < line_next d pos e ≤ e)%nat.
Proof.
  intros Hp He. unfold line_next. set (l := take _ _).
  assert (length l = e - pos)%nat as Hl by (unfold l; rewrite length_take, length_drop; lia).
  pose proof (line_span_le l). assert (l ≠ []) as Hne%line_span_pos by (intros E; rewrite E in Hl; cbn in Hl; lia). lia.
Qed.
Lemma tag_length l t : tag_is l t = true → (length t ≤ length l)%nat.
Proof. unfold tag_is. rewrite !andb_true_iff. intros [[H%Nat.leb_le _] _]. done. Qed.

(** The number of a header line ends at the latest behind the input. *)
Lemma number_ends d pos next t r :
  (pos ≤ length d)%nat → tag_is (strip_eol (range d pos next)) t = true →
  is_Some (strtoull (drop (pos + S (length t)) (d ++ 0 :: 0 :: r))).
Proof.
  intros Hp Ht%tag_length. pose proof (strip_le (range d pos next)) as Hl. unfold range in Hl at 2.
  rewrite length_take, length_drop in Hl.
  destruct (decide (pos + S (length t) ≤ length d)%nat).
  - rewrite drop_app_le by done. apply strtoull_ends.
  - rewrite drop_app_ge by lia. replace (pos + S (length t) - length d)%nat with 1%nat by lia. apply (strtoull_ends []).
Qed.

(** A segment's lines lie inside the input and end in a URI. *)
Definition seg_wf (d : list Z) (g : seg) : Prop :=
  (sg_start g ≤ sg_uri g < sg_end g)%nat ∧ (sg_end g ≤ length d)%nat ∧ seg_uri d g ≠ [] ∧ head (seg_uri d g) ≠ Some 35.
Record scan_ok (d : list Z) (pos : nat) (sc : scan) : Prop := {
  so_count : (length (sc_segs sc) + (if sc_in sc then 1 else 0) ≤ SEGMENTS_MAX)%nat;
  so_segs : Forall (seg_wf d) (sc_segs sc);
  so_start : sc_in sc = true → (sc_start sc ≤ pos)%nat;
  so_header : (sc_header_end sc ≤ length d)%nat;
  so_trailer : (sc_trailer sc ≤ length d)%nat }.

Lemma scan_segment_ok d pos line next sc sc' :
  scan_ok d pos sc → line = strip_eol (range d pos next) → line ≠ [] → (pos < next ≤ length d)%nat →
  scan_segment pos next line sc = Some sc' → scan_ok d next sc'.
Proof.
  intros [Hc Hs Hst Hh Ht] -> Hne Hp. unfold scan_segment.
  set (sc1 := if sc_in sc then _ else _). intros E. destruct sc1 as [sc1'|] eqn:E1; [|done]. unfold sc1 in E1. clear sc1.
  assert (scan_ok d pos sc1' ∧ sc_in sc1' = true) as [[Hc1 Hs1 Hst1 Hh1 Ht1] Hin].
  { destruct (sc_in sc) eqn:Ein; [injection E1 as <-; split; [split|]; rewrite ?Ein in *; done|].
    destruct (Nat.eqb_spec (length (sc_segs sc)) SEGMENTS_MAX); [done|]. injection E1 as <-. destruct sc; cbn in *.
    split; [split; cbn|]; try done. lia. }
  cbn [mbind option_bind] in E. injection E as <-. rewrite Hin in Hc1. specialize (Hst1 Hin).
  destruct (bool_decide_reflect (head (strip_eol (range d pos next)) = Some 35)) as [Hhash|Hhash].
  - destruct (tag_is _ DISCONTINUITY); [|destruct (tag_is _ GAP)]; destruct sc1'; cbn in *; subst; split; cbn; try done; lia.
  - destruct sc1'; cbn in *; subst. split; cbn; try done.
    + rewrite length_app. cbn. lia.
    + apply Forall_app. split; [done|]. constructor; [|done]. split_and!; cbn; [lia|lia|lia|done|done].
Qed.

Lemma scan_header_ok d pos next r sc :
  (pos ≤ length d)%nat → scan_ok d pos sc → sc_in sc = false →
  ∃ sc', scan_header d (0 :: 0 :: r) pos (strip_eol (range d pos next)) sc = Some sc' ∧ scan_ok d next sc'.
Proof.
  intros Hp [Hc Hs Hst Hh Ht] Hin. unfold scan_header.
  assert (∀ sc', sc_segs sc' = sc_segs sc → sc_in sc' = false → sc_header_end sc' = sc_header_end sc →
    sc_trailer sc' = sc_trailer sc → scan_ok d next sc') as Hok.
  { intros sc' E1 E2 E3 E4. split; rewrite ?E1, ?E2, ?E3, ?E4; try done. by rewrite Hin in Hc. }
  destruct (tag_is _ MEDIA_SEQUENCE) eqn:Em.
  { destruct (number_ends d pos next MEDIA_SEQUENCE r Hp Em) as [v Ev]. change (pos + 22)%nat with (pos + S (length MEDIA_SEQUENCE))%nat.
    rewrite Ev. eexists. split; [done|]. by apply Hok; destruct sc. }
  destruct (tag_is _ DISCONTINUITY_SEQUENCE) eqn:Ed.
  { destruct (number_ends d pos next DISCONTINUITY_SEQUENCE r Hp Ed) as [v Ev].
    change (pos + 30)%nat with (pos + S (length DISCONTINUITY_SEQUENCE))%nat.
    rewrite Ev. eexists. split; [done|]. by apply Hok; destruct sc. }
  eexists. split; [done|]. by apply Hok.
Qed.

Lemma scan_any d r fuel : ∀ pos sc,
  (length d ≤ pos + fuel)%nat → scan_ok d pos sc →
  ∃ res, scan_loop fuel d (0 :: 0 :: r) pos sc = Some res ∧
    match res with inl e => e = NGX_DECLINED ∨ e = NGX_ERROR | inr sc' => ∃ pos', scan_ok d pos' sc' end.
Proof.
  induction fuel as [|fuel IH]; intros pos sc Hf Hok; cbn [scan_loop].
  { rewrite (proj2 (Nat.leb_le _ _)) by lia. eexists. split; [done|]. by exists pos. }
  destruct (Nat.leb_spec (length d) pos) as [|Hp]; [eexists; split; [done|]; by exists pos|].
  pose proof (line_next_bounds d pos (length d) Hp ltac:(lia)) as Hn. set (next := line_next d pos (length d)) in *.
  destruct (tag_is _ STREAM_INF); [eexists; split; [done|]; by left|].
  destruct (negb (sc_in sc) && _ && _) eqn:Ehead.
  { rewrite !andb_true_iff, negb_true_iff in Ehead. destruct Ehead as [[Hin _] _].
    destruct (scan_header_ok d pos next r sc ltac:(lia) Hok Hin) as (sc' & -> & Hok'). cbn [mbind option_bind]. apply IH; [lia|done]. }
  set (sc1 := if (_ =? _)%nat then _ else sc).
  assert (scan_ok d pos sc1) as Hok1.
  { unfold sc1. destruct (_ =? _)%nat; [|done]. destruct Hok, sc; cbn in *. split; cbn; try done; lia. }
  destruct (tag_is _ ENDLIST).
  { eexists. split; [done|]. exists pos. destruct Hok1. destruct sc1; cbn in *. split; cbn; try done; lia. }
  destruct (bool_decide_reflect (strip_eol (range d pos next) = [])) as [|Hne].
  { apply IH; [lia|]. destruct Hok1 as [? ? Hst ? ?]. split; try done. intros H%Hst. lia. }
  destruct (scan_segment pos next _ sc1) as [sc2|] eqn:E2; [|eexists; split; [done|]; by right].
  apply IH; [lia|]. eapply scan_segment_ok; [exact Hok1|done|exact Hne|lia|exact E2].
Qed.

Lemma header_any d he m ds cap fuel : ∀ pos out,
  (he ≤ length d)%nat → (he ≤ pos + fuel)%nat → fits cap out →
  ∃ out', header_loop fuel d he pos m ds cap out = Some out' ∧ fits cap out'.
Proof.
  induction fuel as [|fuel IH]; intros pos out Hl Hf Ho; cbn [header_loop].
  { rewrite (proj2 (Nat.leb_le _ _)) by lia. by eexists. }
  destruct (Nat.leb_spec he pos) as [|Hp]; [by eexists|].
  pose proof (line_next_bounds d pos he Hp Hl) as Hn.
  destruct (m && _); [apply IH; done || lia|]. destruct (ds && _); [apply IH; done || lia|].
  apply IH; [done|lia|]. case_match; repeat apply put_fits; done.
Qed.
Lemma put_segments_fit d o cap gs : ∀ out, fits cap out → fits cap (foldl (put_segment d o cap) out gs).
Proof.
  induction gs as [|g gs IH]; intros out Ho; [done|]. cbn [foldl]. apply IH. unfold put_segment.
  repeat first [done | apply put_fits | case_match].
Qed.
Lemma first_kept_le d o gs : (first_kept d o gs ≤ length gs)%nat.
Proof.
  unfold first_kept. set (n := if _ && _ then _ else _). assert (n ≤ length gs)%nat as Hn by (unfold n; case_match; lia).
  destruct (bool_decide _); [done|]. destruct (list_find _ gs) as [[i s]|] eqn:E; [|done].
  apply list_find_Some in E as (E%lookup_lt_Some & _). case_match; lia.
Qed.

(** ** The room a rewritten playlist takes *)

Lemma dec_loop_length fuel : ∀ n acc k, 0 ≤ n < 10 ^ Z.of_nat k → (1 ≤ k)%nat →
  (length (dec_loop fuel n acc) ≤ k + length acc)%nat.
Proof.
  induction fuel as [|fuel IH]; intros n acc k Hn Hk; cbn [dec_loop]; destruct (Z.ltb_spec n 10); cbn [length]; try lia.
  destruct k as [|[|k]]; [lia|change (10 ^ Z.of_nat 1) with 10 in Hn; lia|].
  rewrite Nat2Z.inj_succ, Z.pow_succ_r in Hn by lia.
  etrans; [apply (IH _ _ (S k)); [|lia]|cbn; lia]. split; [by apply Z.div_pos; lia|]. apply Z.div_lt_upper_bound; lia.
Qed.
Lemma dec_loop_bound fuel : ∀ n acc, 0 ≤ n < 10 ^ Z.of_nat (S fuel) →
  ∃ k, length (dec_loop fuel n acc) = (S k + length acc)%nat ∧ n < 10 ^ Z.of_nat (S k).
Proof.
  induction fuel as [|fuel IH]; intros n acc Hn; cbn [dec_loop]; destruct (Z.ltb_spec n 10); try (by exists 0%nat).
  - change (10 ^ Z.of_nat 1) with 10 in Hn. lia.
  - rewrite Nat2Z.inj_succ, Z.pow_succ_r in Hn by lia.
    destruct (IH (n `div` 10) ((48 + n `mod` 10) :: acc)) as (k & Hk & Hlt).
    { split; [by apply Z.div_pos; lia|apply Z.div_lt_upper_bound; lia]. }
    exists (S k). split; [rewrite Hk; cbn; lia|]. rewrite (Nat2Z.inj_succ (S k)), Z.pow_succ_r by lia.
    pose proof (Z.div_mod n 10). pose proof (Z.mod_pos_bound n 10). lia.
Qed.
(** A number and a later segment's: at most three digits more, whether it wraps or not. *)
Lemma dec_grows n k : is_u64 n → 0 ≤ k ≤ 256 → (length (dec (u64 (n + k))) ≤ length (dec n) + 3)%nat.
Proof.
  intros Hn Hk. unfold is_u64 in Hn.
  assert (n < 10 ^ Z.of_nat 21) as Hb by (change (10 ^ Z.of_nat 21) with 1000000000000000000000; lia).
  unfold dec. destruct (dec_loop_bound 20 n []) as (m & -> & Hm); [lia|].
  replace (S m + length (@nil Z) + 3)%nat with (S m + 3 + length (@nil Z))%nat by lia. apply dec_loop_length; [|lia].
  pose proof (u64_range (n + k)) as Hr. split; [lia|].
  assert (u64 (n + k) ≤ n + k) as Hle by (apply Z.mod_le; lia).
  rewrite Nat2Z.inj_add, Z.pow_add_r by lia. change (10 ^ Z.of_nat 3) with 1000.
  assert (10 ^ 1 ≤ 10 ^ Z.of_nat (S m)) by (apply Z.pow_le_mono_r; lia). lia.
Qed.
Lemma dec_small k : 0 ≤ k ≤ 256 → (length (dec (u64 k)) ≤ 3)%nat.
Proof.
  intros Hk. rewrite u64_small by lia. unfold dec. etrans; [apply (dec_loop_length 20 k [] 3)|cbn; lia]; [|lia].
  change (10 ^ Z.of_nat 3) with 1000. lia.
Qed.

(** What the lines of one sequence number take. *)
Definition line_len (P : hline → bool) (hs : list hline) : nat :=
  length (lines (hline_text <$> filter (λ h, P h = true) hs)).
Definition is_media (h : hline) : bool := match h with HMedia _ => true | _ => false end.
Definition is_disc (h : hline) : bool := match h with HDisc _ => true | _ => false end.

Lemma line_len_cons P h hs :
  line_len P (h :: hs) = ((if P h then S (length (hline_text h)) else 0) + line_len P hs)%nat.
Proof.
  unfold line_len. rewrite filter_cons. destruct (P h); [rewrite decide_True by done|by rewrite decide_False by done].
  cbn [fmap list_fmap]. rewrite lines_cons, length_app. cbn [length]. lia.
Qed.
Lemma line_len_split first removed hs :
  (line_len (line_stays first removed) hs + (if (0 <? first)%nat then line_len is_media hs else 0)
   + (if (0 <? removed)%nat then line_len is_disc hs else 0) = length (lines (hline_text <$> hs)))%nat.
Proof.
  induction hs as [|h hs IH]; [by destruct (0 <? first)%nat, (0 <? removed)%nat|].
  rewrite !line_len_cons. cbn [fmap list_fmap]. rewrite lines_cons, length_app. cbn [length]. rewrite <- IH.
  destruct h as [l|n|n], first, removed; cbn [line_stays is_media is_disc Nat.eqb Nat.ltb Nat.leb]; lia.
Qed.

Lemma media_room hs : ∀ m, Forall hline_ok hs →
  let n := foldl (λ n h, match h with HMedia n => n | _ => n end) m hs in
  n = m ∨ is_u64 n ∧ (S (length (hline_text (HMedia n))) ≤ line_len is_media hs)%nat.
Proof.
  induction hs as [|h hs IH]; intros m Hh; [by left|]. apply Forall_cons in Hh as [Hh Hhs]. cbn [foldl]. rewrite line_len_cons.
  destruct h as [l|k|k]; cbn [is_media]; [by apply IH| |by apply IH].
  destruct (IH k Hhs) as [E | [? ?]]; [rewrite E; right; split; [exact Hh|lia]|right; split; [done|lia]].
Qed.
Lemma disc_room hs : ∀ m, Forall hline_ok hs →
  let n := foldl (λ n h, match h with HDisc n => n | _ => n end) m hs in
  n = m ∨ is_u64 n ∧ (S (length (hline_text (HDisc n))) ≤ line_len is_disc hs)%nat.
Proof.
  induction hs as [|h hs IH]; intros m Hh; [by left|]. apply Forall_cons in Hh as [Hh Hhs]. cbn [foldl]. rewrite line_len_cons.
  destruct h as [l|k|k]; cbn [is_disc]; [by apply IH|by apply IH|].
  destruct (IH k Hhs) as [E | [? ?]]; [rewrite E; right; split; [exact Hh|lia]|right; split; [done|lia]].
Qed.
Lemma number_line t n : length (t ++ [58] ++ dec n) = (length t + 1 + length (dec n))%nat.
Proof. rewrite !length_app. cbn. lia. Qed.

(** The two numbers never need more than 60 bytes beyond what the header gives up. *)
Lemma header_room hs first removed :
  Forall hline_ok hs → (first ≤ 256)%nat → (removed ≤ 256)%nat →
  (length (lines (hline_text <$> (filter (λ h, line_stays first removed h = true) hs
     ++ (if (0 <? first)%nat then [HMedia (u64 (media_sequence hs + Z.of_nat first))] else [])
     ++ (if (0 <? removed)%nat then [HDisc (u64 (disc_sequence hs + Z.of_nat removed))] else []))))
   ≤ length (lines (hline_text <$> hs)) + 60)%nat.
Proof.
  intros Hh Hf Hr. rewrite !fmap_app, !lines_app, !length_app, <- (line_len_split first removed hs).
  fold (line_len (line_stays first removed) hs).
  assert (length (lines (hline_text <$> (if (0 <? first)%nat then [HMedia (u64 (media_sequence hs + Z.of_nat first))] else [])))
          ≤ (if (0 <? first)%nat then line_len is_media hs else 0) + 26)%nat as Hm.
  { destruct (0 <? first)%nat; [|cbn; lia]. cbn [fmap list_fmap]. rewrite lines_cons, length_app. change (lines []) with (@nil Z).
    cbn [hline_text length]. rewrite number_line. change (length MEDIA_SEQUENCE) with 21%nat.
    destruct (media_room hs 0 Hh) as [E | [Hu Hl]]; fold (media_sequence hs) in *.
    - rewrite E, Z.add_0_l. pose proof (dec_small (Z.of_nat first) ltac:(lia)). lia.
    - cbn [hline_text] in Hl. rewrite number_line in Hl. change (length MEDIA_SEQUENCE) with 21%nat in Hl.
      pose proof (dec_grows (media_sequence hs) (Z.of_nat first) Hu ltac:(lia)). lia. }
  assert (length (lines (hline_text <$> (if (0 <? removed)%nat then [HDisc (u64 (disc_sequence hs + Z.of_nat removed))] else [])))
          ≤ (if (0 <? removed)%nat then line_len is_disc hs else 0) + 34)%nat as Hd.
  { destruct (0 <? removed)%nat; [|cbn; lia]. cbn [fmap list_fmap]. rewrite lines_cons, length_app. change (lines []) with (@nil Z).
    cbn [hline_text length]. rewrite number_line. change (length DISCONTINUITY_SEQUENCE) with 29%nat.
    destruct (disc_room hs 0 Hh) as [E | [Hu Hl]]; fold (disc_sequence hs) in *.
    - rewrite E, Z.add_0_l. pose proof (dec_small (Z.of_nat removed) ltac:(lia)). lia.
    - cbn [hline_text] in Hl. rewrite number_line in Hl. change (length DISCONTINUITY_SEQUENCE) with 29%nat in Hl.
      pose proof (dec_grows (disc_sequence hs) (Z.of_nat removed) Hu ltac:(lia)). lia. }
  lia.
Qed.

Lemma segments_room o segs :
  (length (lines ((mark o <$> segs) ≫= segment_lines)) =
   length (lines (segs ≫= segment_lines)) + 11 * length (filter (λ s, marked o s = true) segs))%nat.
Proof.
  induction segs as [|s segs IH]; [done|]. cbn [fmap list_fmap]. rewrite !bind_cons, !lines_app, !length_app, IH, filter_cons.
  unfold mark. destruct (marked o s).
  - rewrite decide_True by done. unfold segment_lines. cbn [as_tags as_uri]. rewrite !lines_app, !length_app, !lines_cons, !length_app.
    change (length (GAP)) with 10%nat. change (lines []) with (@nil Z). cbn [length]. lia.
  - rewrite decide_False by done. lia.
Qed.
Lemma segments_drop n segs :
  (length (lines (drop n segs ≫= segment_lines)) ≤ length (lines (segs ≫= segment_lines)))%nat.
Proof. rewrite <- (take_drop n segs) at 2. rewrite bind_app, lines_app, length_app. lia. Qed.
(** URIs that occur once are marked once. *)
Lemma gaps_missing o segs : NoDup (as_uri <$> segs) →
  (length (filter (λ s, marked o s = true) segs) ≤ length (op_missing o))%nat.
Proof.
  intros Hn. rewrite <- (length_fmap as_uri). apply submseteq_length, NoDup_submseteq.
  - eapply sublist_NoDup; [exact Hn|]. apply fmap_sublist, sublist_filter.
  - intros u (s & -> & Hs)%list_elem_of_fmap. apply list_elem_of_filter in Hs as [Hs _]. unfold marked, is_missing in Hs.
    apply andb_true_iff in Hs as [_ Hs]. apply existsb_exists in Hs as (m & Hm & E). apply bool_decide_eq_true in E as <-.
    by apply list_elem_of_In.
Qed.

Lemma print_room p o : playlist_ok p → NoDup (as_uri <$> pl_segs p) →
  lenZ (print (trim o p)) ≤ lenZ (print p) + 60 + 11 * Z.of_nat (length (op_missing o)).
Proof.
  intros [_ Hh _ Hc _ _] Hn. unfold lenZ, trim, print. cbn [pl_header pl_segs pl_trailer].
  rewrite !length_app. set (first := trimmed o (pl_segs p)). set (removed := discontinuities (take first (pl_segs p))).
  assert (first ≤ 256)%nat as Hf.
  { pose proof (trimmed_le o (pl_segs p)). unfold SEGMENTS_MAX in Hc. fold first in H. lia. }
  assert (removed ≤ 256)%nat as Hr.
  { unfold removed, discontinuities. pose proof (length_filter (λ s, has_tag DISCONTINUITY s = true) (take first (pl_segs p))) as Hl.
    rewrite length_take in Hl. lia. }
  pose proof (header_room (pl_header p) first removed Hh Hf Hr). rewrite segments_room.
  pose proof (segments_drop first (pl_segs p)).
  pose proof (gaps_missing o (drop first (pl_segs p))) as Hg.
  assert (NoDup (as_uri <$> drop first (pl_segs p))) as Hn'.
  { rewrite fmap_drop. eapply sublist_NoDup; [exact Hn|apply sublist_drop]. }
  specialize (Hg Hn'). lia.
Qed.

(** ** The numbers of the segments *)

Lemma foldl_filter {A B} (f : B → A → B) (P : A → bool) l : ∀ b,
  (∀ x b, P x = false → f b x = b) → foldl f b (filter (λ x, P x = true) l) = foldl f b l.
Proof.
  induction l as [|x l IH]; intros b Hf; [done|]. rewrite filter_cons. destruct (P x) eqn:E.
  - rewrite decide_True by done. by apply IH.
  - rewrite decide_False by done. cbn [foldl]. rewrite (Hf x b E). by apply IH.
Qed.
Lemma trim_media o p :
  media_sequence (pl_header (trim o p)) =
  if (0 <? trimmed o (pl_segs p))%nat then u64 (media_sequence (pl_header p) + Z.of_nat (trimmed o (pl_segs p)))
  else media_sequence (pl_header p).
Proof.
  unfold trim. cbn [pl_header]. set (first := trimmed _ _). set (removed := discontinuities _).
  unfold media_sequence. rewrite !foldl_app.
  assert (∀ b, foldl (λ n h, match h with HMedia n => n | _ => n end) b
    (if (0 <? removed)%nat then [HDisc (u64 (disc_sequence (pl_header p) + Z.of_nat removed))] else []) = b) as -> by (intros b; by case_match).
  destruct first as [|first]; [|done]. cbn [Nat.ltb Nat.leb foldl]. apply foldl_filter. by intros [] ? ?.
Qed.
Lemma trim_disc o p :
  let removed := discontinuities (take (trimmed o (pl_segs p)) (pl_segs p)) in
  disc_sequence (pl_header (trim o p)) =
  if (0 <? removed)%nat then u64 (disc_sequence (pl_header p) + Z.of_nat removed) else disc_sequence (pl_header p).
Proof.
  unfold trim. cbn [pl_header]. set (first := trimmed _ _). set (removed := discontinuities _).
  unfold disc_sequence. rewrite !foldl_app.
  destruct removed as [|removed]; [|done]. cbn [Nat.ltb Nat.leb foldl].
  replace (foldl _ (foldl _ 0 (filter _ (pl_header p))) (if (0 <? first)%nat then _ else []))
    with (foldl (λ n h, match h with HDisc n => n | _ => n end) 0 (filter (λ h, line_stays first 0 h = true) (pl_header p))) by by case_match.
  apply foldl_filter. by intros [] ? ?.
Qed.
Lemma mark_disc o s : has_tag DISCONTINUITY (mark o s) = has_tag DISCONTINUITY s.
Proof.
  unfold mark. destruct (marked o s); [|done]. unfold has_tag. cbn [as_tags]. rewrite existsb_app.
  change (existsb _ [GAP]) with false. by rewrite orb_false_r.
Qed.
Lemma mark_discs o segs : discontinuities (mark o <$> segs) = discontinuities segs.
Proof.
  unfold discontinuities. induction segs as [|s segs IH]; [done|]. cbn [fmap list_fmap]. rewrite !filter_cons, mark_disc.
  case_match; cbn; by rewrite ?IH.
Qed.
Lemma discs_app a b : discontinuities (a ++ b) = (discontinuities a + discontinuities b)%nat.
Proof. unfold discontinuities. by rewrite filter_app, length_app. Qed.
(** A segment's number, and the number of the discontinuities up to and with it. *)
Definition media_number (p : playlist) (i : nat) : Z := u64 (media_sequence (pl_header p) + Z.of_nat i).
Definition disc_number (p : playlist) (i : nat) : Z :=
  u64 (disc_sequence (pl_header p) + Z.of_nat (discontinuities (take (S i) (pl_segs p)))).

(** ** Properties *)

(** C25: a media playlist (header lines and sequence numbers, up to 256 segments each with its
    tags and URI, a trailer) is rewritten into the playlist with the segments past the window
    and before the first one removed, the missing ones marked as gaps and the sequence numbers
    moved past what was removed; the information says how many were kept, removed and marked.
    When that does not fit the output, the rewriting fails. *)
Theorem rewrite_trims p behind o cap :
  playlist_ok p → 0 ≤ cap →
  let q := trim o p in
  playlist_rewrite (print p) behind o cap true =
  Some (if lenZ (print q) <=? cap then
          (NGX_OK, print q,
           Some (mk_info (length (pl_segs q)) (length (pl_segs p) - length (pl_segs q))
                   (length (filter (λ s, marked o s = true) (drop (trimmed o (pl_segs p)) (pl_segs p))))
                   (u64 (media_sequence (pl_header p) + Z.of_nat (length (pl_segs p) - length (pl_segs q))))
                   (as_uri <$> pl_segs q)))
        else (NGX_ERROR, [], None)).
Proof.
  intros Hp Hcap q. rewrite rewrite_print by done. fold q.
  assert (length (pl_segs p) - length (pl_segs q) = trimmed o (pl_segs p))%nat as ->.
  { unfold q, trim. cbn [pl_segs]. rewrite length_fmap, length_drop. pose proof (trimmed_le o (pl_segs p)). lia. }
  f_equal. cbn [out_put]. change (lenZ []) with 0. rewrite Z.sub_0_r. cbn [app].
  destruct (Z.ltb_spec cap (lenZ (print q))), (Z.leb_spec (lenZ (print q)) cap); lia || done.
Qed.

(** Whatever the input, its options and the room for the output, the rewriting answers
    (two zero bytes behind the input given): it writes no more than the output holds, fails and
    declines with nothing written, and a result has at most 256 segments whose URIs are neither
    empty nor tags, read from inside the input. *)
Theorem rewrite_any_bytes d r o cap memory :
  0 ≤ cap →
  ∃ rc out i, playlist_rewrite d (0 :: 0 :: r) o cap memory = Some (rc, out, i) ∧ lenZ out ≤ cap ∧
    match i with
    | None => (rc = NGX_DECLINED ∨ rc = NGX_ERROR) ∧ out = []
    | Some i =>
        rc = NGX_OK ∧ (in_segments i + in_removed i ≤ SEGMENTS_MAX)%nat ∧ (in_gaps i ≤ in_segments i)%nat ∧
        is_u64 (in_media i) ∧
        ∃ gs, Forall (seg_wf d) gs ∧ length gs = in_segments i ∧ in_uris i = seg_uri d <$> gs
    end.
Proof.
  intros Hcap. unfold playlist_rewrite. assert (lenZ [] ≤ cap) as H0 by done.
  case_match; [exists NGX_DECLINED, [], None; split_and!; auto|]. destruct memory; [|exists NGX_ERROR, [], None; split_and!; auto].
  cbn [negb]. destruct (scan_any d r (length d) 0 (scan_init (length d)) ltac:(lia)) as (res & -> & Hres).
  { split; cbn; try done; lia. }
  cbn [mbind option_bind]. destruct res as [e|sc]; [exists e, [], None; split_and!; done|].
  destruct Hres as (pos & [Hc Hs _ Hh Ht]). set (he := if (_ =? _)%nat then _ else _).
  assert (he ≤ length d)%nat as Hhe by (unfold he; repeat case_match; lia).
  set (first := first_kept d o (sc_segs sc)). pose proof (first_kept_le d o (sc_segs sc)) as Hfirst. fold first in Hfirst.
  destruct (header_any d he (0 <? first)%nat (0 <? removed_disc (sc_segs sc) first)%nat cap (length d) 0 (Some []) Hhe ltac:(lia) H0)
    as (out & -> & Ho). cbn [mbind option_bind].
  match goal with |- context [match ?out with Some _ => _ | None => _ end] => assert (fits cap out) as Hfit; [|destruct out as [out'|]] end.
  - repeat first [done | apply put_segments_fit | apply put_fits | case_match].
  - eexists _, _, _. split; [done|]. split; [exact Hfit|]. cbn [in_segments in_removed in_gaps in_media in_uris].
    rewrite !length_drop. split_and!; [done|lia| |apply u64_range|].
    + etrans; [apply length_filter|]. by rewrite length_drop.
    + exists (drop first (sc_segs sc)). split_and!; [by apply Forall_drop|by rewrite length_drop|done].
  - exists NGX_ERROR, [], None. split_and!; auto.
Qed.

(** C26: every segment of a result keeps the media sequence number and the discontinuity
    sequence number (modulo 2^64) that it has in the playlist it comes from. *)
Theorem rewrite_keeps_numbers p behind o cap out i :
  playlist_ok p → 0 ≤ cap → playlist_rewrite (print p) behind o cap true = Some (NGX_OK, out, Some i) →
  ∃ q, out = print q ∧ in_media i = media_number q 0 ∧
    ∀ j s, pl_segs p !! (in_removed i + j)%nat = Some s →
      pl_segs q !! j = Some (mark o s) ∧
      media_number q j = media_number p (in_removed i + j) ∧ disc_number q j = disc_number p (in_removed i + j).
Proof.
  intros Hp Hcap. rewrite rewrite_print by done. destruct (out_put _ _ _) as [out'|] eqn:E; [|done]. intros [= <- <-].
  cbn [out_put] in E. destruct (_ <? _); [done|]. injection E as <-. exists (trim o p). cbn [in_media in_removed]. split; [done|].
  set (first := trimmed o (pl_segs p)).
  assert (∀ j, media_number (trim o p) j = media_number p (first + j)) as Hm.
  { intros j. unfold media_number. rewrite trim_media. fold first. destruct first as [|first']; [done|]. cbn [Nat.ltb Nat.leb].
    rewrite u64_add_l. f_equal. lia. }
  split; [rewrite Hm, Nat.add_0_r; done|]. intros j s Hs. split_and!; [|apply Hm|].
  - cbn [pl_segs trim]. fold first. rewrite list_lookup_fmap, lookup_drop, Hs. done.
  - unfold disc_number. rewrite trim_disc. cbn [pl_segs trim]. fold first. rewrite <- fmap_take, mark_discs.
    replace (S (first + j)) with (first + S j)%nat by lia.
    rewrite <- (take_take_drop (pl_segs p) first (S j)), discs_app.
    destruct (discontinuities (take first (pl_segs p))) as [|k]; [done|]. cbn [Nat.ltb Nat.leb]. rewrite u64_add_l. f_equal. lia.
Qed.

(** The room its caller gives the rewriting, 64 bytes and a gap tag per missing segment
    beyond the playlist's length, always suffices when no URI is listed twice. *)
Theorem rewrite_room p behind o cap :
  playlist_ok p → NoDup (as_uri <$> pl_segs p) →
  lenZ (print p) + 64 + 11 * Z.of_nat (length (op_missing o)) ≤ cap →
  ∃ i, playlist_rewrite (print p) behind o cap true = Some (NGX_OK, print (trim o p), Some i).
Proof.
  intros Hp Hn Hcap. pose proof (print_room p o Hp Hn). pose proof (lenZ_nonneg (print p)).
  rewrite rewrite_print by (done || lia). cbn [out_put]. change (lenZ []) with 0. rewrite (proj2 (Z.ltb_ge _ _)) by lia.
  by eexists.
Qed.

(** ** Examples *)

Definition ex_playlist : playlist :=
  mk_playlist [HLine EXTM3U; HMedia 7; HDisc 2; HLine (str "#EXT-X-TARGETDURATION:2")]
    [mk_segment [str "#EXTINF:2,"] (str "a.ts"); mk_segment [DISCONTINUITY; str "#EXTINF:2,"] (str "b.ts");
     mk_segment [str "#EXTINF:2,"] (str "c.ts")]
    (nl ENDLIST).
(** A window of one, the segment left missing. *)
Definition ex_opts : opts := mk_opts 1 [] [str "c.ts"].

#[local] Instance text_dec l : Decision (text l) := and_dec _ _.
Lemma ex_playlist_ok : playlist_ok ex_playlist.
Proof.
  split.
  - eexists _, _. split; [done|]. reflexivity.
  - repeat apply Forall_cons_2; try apply Forall_nil_2; cbn [hline_ok]; try (unfold is_u64; lia);
      (split; [apply (bool_decide_unpack _); reflexivity|by split_and!; [right|..]]).
  - repeat apply Forall_cons_2; try apply Forall_nil_2; split; cbn [as_tags as_uri];
      repeat apply Forall_cons_2; try apply Forall_nil_2; split; by apply (bool_decide_unpack _).
  - unfold SEGMENTS_MAX. cbn. lia.
  - by intros l ls [= <- _].
  - right. by exists [].
Qed.

Lemma rewrite_trims_witness :
  ∃ i, playlist_rewrite (print ex_playlist) [] ex_opts 200 true =
    Some (NGX_OK, lines [EXTM3U; str "#EXT-X-TARGETDURATION:2"; str "#EXT-X-MEDIA-SEQUENCE:9";
                         str "#EXT-X-DISCONTINUITY-SEQUENCE:3"; str "#EXTINF:2,"; GAP; str "c.ts"; ENDLIST], Some i) ∧
    in_gaps i = 1%nat ∧ in_removed i = 2%nat.
Proof. rewrite (rewrite_trims ex_playlist [] ex_opts 200 ex_playlist_ok ltac:(lia)). eexists. by split_and!. Defined.
Lemma rewrite_any_bytes_witness :
  ∃ rc out i, playlist_rewrite (nl EXTM3U ++ nl MEDIA_SEQUENCE) [0; 0] ex_opts 0 true = Some (rc, out, i) ∧ lenZ out ≤ 0.
Proof.
  destruct (rewrite_any_bytes (nl EXTM3U ++ nl MEDIA_SEQUENCE) [] ex_opts 0 true ltac:(lia)) as (rc & out & i & E & H & _).
  by exists rc, out, i.
Defined.
Lemma rewrite_keeps_numbers_witness :
  ∃ out i, playlist_rewrite (print ex_playlist) [] ex_opts 200 true = Some (NGX_OK, out, Some i) ∧
    ∃ q, out = print q ∧ media_number q 0 = 9 ∧ disc_number q 0 = 3.
Proof.
  destruct (playlist_rewrite (print ex_playlist) [] ex_opts 200 true) as [[[rc out] [i|]]|] eqn:E;
    [|exfalso; revert E; rewrite rewrite_print by (apply ex_playlist_ok || lia); discriminate..].
  assert (rc = NGX_OK ∧ in_removed i = 2%nat) as [-> Hr].
  { rewrite rewrite_print in E by (apply ex_playlist_ok || lia). injection E as <- _ <-. by split. }
  exists out, i. split; [done|].
  destruct (rewrite_keeps_numbers ex_playlist [] ex_opts 200 out i ex_playlist_ok ltac:(lia) E) as (q & Eq & _ & Hq).
  exists q. split; [done|]. rewrite Hr in Hq.
  destruct (Hq 0%nat (mk_segment [str "#EXTINF:2,"] (str "c.ts")) eq_refl) as (_ & -> & ->). by split.
Defined.
Lemma rewrite_room_witness :
  ∃ i, playlist_rewrite (print ex_playlist) [] ex_opts 300 true = Some (NGX_OK, print (trim ex_opts ex_playlist), Some i).
Proof.
  apply (rewrite_room ex_playlist [] ex_opts 300 ex_playlist_ok); [|by apply (bool_decide_unpack _)].
  by apply (bool_decide_unpack _).
Defined.

(** A playlist that ends in its sequence number without a newline: the number is read on into
    the memory behind it, and does not end where that memory does not end it. *)
Lemma number_reads_on :
  let d := EXTM3U ++ [10] ++ str "#EXT-X-MEDIA-SEQUENCE:7" in
  playlist_rewrite d [] ex_opts 200 true = None ∧
  ∃ out i, playlist_rewrite d [53; 0] ex_opts 200 true = Some (NGX_OK, out, Some i) ∧ in_media i = 75.
Proof. cbv zeta. split; [reflexivity|]. by eexists _, _. Qed.
(** Tags after the last URI, which belong to no segment yet, are dropped. *)
Lemma trailing_tags_dropped :
  let d := lines [EXTM3U; str "#EXTINF:2,"; str "a.ts"; DISCONTINUITY] in
  ∃ i, playlist_rewrite d [] (mk_opts 0 [] []) 200 true = Some (NGX_OK, lines [EXTM3U; str "#EXTINF:2,"; str "a.ts"], Some i).
Proof. eexists. vm_compute. reflexivity. Qed.
