(* ===== verification/OwnerDir.v ===== *)
(** * The directory of stream owners

    Models core/ngx_media_owner_dir.[ch]: an open-addressing table in shared memory that
    records which worker drives a stream, behind a spin lock.  The shared mapping is a record
    of the state, a process's handle another; wall clocks and process ids are arguments.  The
    lock is modelled one compare-and-swap at a time, so that workers interleave. *)
From S2P Require Import Prelude Owner.

Definition OWN_FREE : Z := 0.
Definition OWN_OWNED : Z := 1.
Definition OWN_DELETED : Z := 2.
Definition DIR_MAGIC : Z := 0x4D4F574E.
Definition DIR_SLOTS : Z := 256.
Definition OWNER_STALE_MS : Z := 10000.
Definition LOCK_TRIES : Z := 100000.

Record orec := mk_orec {
  or_hash : Z; or_slot : Z; or_pid : Z; or_generation : Z; or_state : Z; or_sources : Z;
  or_heartbeat : Z; or_frames : Z }.
#[global] Instance eta_orec : Eta orec := λ r,
  mk_orec (or_hash r) (or_slot r) (or_pid r) (or_generation r) (or_state r) (or_sources r)
    (or_heartbeat r) (or_frames r).
Definition orec_zero : orec := mk_orec 0 0 0 0 OWN_FREE 0 0 0.

Record shm := mk_shm {
  sh_magic : Z; sh_slots : Z; sh_workers : Z; sh_epoch : Z; sh_lock : Z; sh_revision : Z;
  sh_records : list orec }.
#[global] Instance eta_shm : Eta shm := λ s,
  mk_shm (sh_magic s) (sh_slots s) (sh_workers s) (sh_epoch s) (sh_lock s) (sh_revision s) (sh_records s).
(** A process's handle: the mapping is the same for all. *)
Record dir := mk_dir { di_slots : Z; di_workers : Z; di_epoch : Z }.

(** ** The mapping *)

(** A reload keeps the records and begins an epoch. *)
Definition dir_reload (count : Z) (s : shm) : shm :=
  s <| sh_workers := u32 count |> <| sh_epoch := sh_epoch s ⊕ 1 |>.
(** [m] is the mapping of an earlier cycle, [epoch] the epoch this process knows, [got] whether
    the lock could be taken.  The answer comes with the mapping and the epoch. *)
Definition shm_create (m : option shm) (epoch count slots : Z) (memory got : bool) : rc * option shm * Z :=
  match m with
  | Some s =>
      if negb got then (NGX_ERROR, m, epoch)
      else let s := dir_reload count s in (NGX_OK, Some s, sh_epoch s)
  | None =>
      let slots := if slots =? 0 then DIR_SLOTS else slots in
      if negb memory then (NGX_ERROR, None, epoch)
      else
        let records := (λ r, r <| or_state := OWN_FREE |>) <$> replicate (Z.to_nat slots) orec_zero in
        (NGX_OK, Some (mk_shm DIR_MAGIC (u32 slots) (u32 count) 1 0 0 records), 1)
  end.
Definition dir_attach (m : option shm) (epoch count : Z) (memory : bool) : option dir :=
  match m with
  | None => None
  | Some s =>
      if negb (sh_magic s =? DIR_MAGIC) || (sh_slots s =? 0) then None
      else if negb memory then None
      else Some (mk_dir (sh_slots s) count epoch)
  end.

(** [ngx_atomic_fetch_add] *)
Definition dir_revision_next (s : shm) : Z * shm :=
  (sh_revision s ⊕ 1, s <| sh_revision := sh_revision s ⊕ 1 |>).

(** ** The lock *)

Definition cmp_set (old set : Z) (s : shm) : bool * shm :=
  if sh_lock s =? old then (true, s <| sh_lock := set |>) else (false, s).
Inductive lock_result := Acquired (s : shm) | Spin (n : Z) | GaveUp.
(** Attempt [n]. *)
Definition dir_lock (n : Z) (s : shm) : lock_result :=
  if n <? LOCK_TRIES then
    let '(got, s) := cmp_set 0 1 s in if got then Acquired s else Spin (n + 1)
  else GaveUp.
Definition dir_unlock (s : shm) : shm := (cmp_set 1 0 s).2.

(** ** Records *)

Definition dir_index (slots hash : Z) : Z := hash mod slots.

(** Milliseconds are unsigned. *)
Definition reclaimable (now : Z) (r : orec) : bool :=
  if negb (or_state r =? OWN_OWNED) then true else OWNER_STALE_MS <? now ⊖ or_heartbeat r.

(** From the [k]th place of the probe sequence on; no answer reads outside the table. *)
Fixpoint probe_loop (n : nat) (records : list orec) (slots hash now : Z) (k : Z) (first_avail : option nat)
    : option (option nat) :=
  match n with
  | O => Some first_avail
  | S n =>
      let index := Z.to_nat ((dir_index slots hash + k) mod slots) in
      r ← records !! index;
      if or_state r =? OWN_OWNED then
        if or_hash r =? hash then Some (Some index)
        else
          probe_loop n records slots hash now (k + 1)
            (match first_avail with
             | None => if reclaimable now r then Some index else None
             | Some i => Some i
             end)
      else if or_state r =? OWN_DELETED then
        probe_loop n records slots hash now (k + 1)
          (match first_avail with None => Some index | Some i => Some i end)
      else if or_state r =? OWN_FREE then
        Some (Some (match first_avail with Some i => i | None => index end))
      else probe_loop n records slots hash now (k + 1) first_avail
  end.
Definition dir_find (d : dir) (now hash : Z) (s : shm) : option (option nat) :=
  probe_loop (Z.to_nat (di_slots d)) (sh_records s) (di_slots d) hash now 0 None.

Definition put_record (i : nat) (r : orec) (s : shm) : shm := s <| sh_records ::= λ l, <[i := r]> l |>.

(** ** Operations

    What each does between taking and giving back the lock. *)

Definition claimed (hash slot pid now : Z) : orec :=
  orec_zero <| or_hash := hash |> <| or_state := OWN_OWNED |> <| or_slot := u32 slot |>
            <| or_pid := pid |> <| or_heartbeat := now |>.
Definition dir_claim (d : dir) (pid now hash slot : Z) (s : shm) : option (shm * bool) :=
  if negb (di_epoch d =? sh_epoch s) then Some (s, false)
  else
    f ← dir_find d now hash s;
    match f with
    | None => Some (s, false)
    | Some i =>
        r ← sh_records s !! i;
        if negb (or_hash r =? hash) || negb (or_slot r =? slot) || negb (or_pid r =? pid) || reclaimable now r
        then Some (put_record i (claimed hash slot pid now) s, true)
        else Some (s, true)
    end.

(** The record is this process's for this stream. *)
Definition owns_record (pid hash slot : Z) (r : orec) : bool :=
  (or_hash r =? hash) && (or_slot r =? slot) && (or_pid r =? pid) && (or_state r =? OWN_OWNED).
Definition dir_release (d : dir) (pid now hash slot : Z) (s : shm) : option shm :=
  if negb (di_epoch d =? sh_epoch s) then Some s
  else
    f ← dir_find d now hash s;
    match f with
    | None => Some s
    | Some i =>
        r ← sh_records s !! i;
        if owns_record pid hash slot r then Some (put_record i (orec_zero <| or_state := OWN_DELETED |>) s) else Some s
    end.

Definition heartbeat_rec (now generation frames sources : Z) (r : orec) : orec :=
  r <| or_generation := generation |> <| or_frames := frames |> <| or_sources := u32 sources |>
    <| or_state := OWN_OWNED |> <| or_heartbeat := now |>.
Definition dir_heartbeat (d : dir) (pid now hash slot generation frames sources : Z) (s : shm) : option shm :=
  if negb (di_epoch d =? sh_epoch s) then Some s
  else
    f ← dir_find d now hash s;
    match f with
    | None => Some s
    | Some i =>
        r ← sh_records s !! i;
        if owns_record pid hash slot r then Some (put_record i (heartbeat_rec now generation frames sources r) s) else Some s
    end.

Definition dir_observe (d : dir) (now hash : Z) (s : shm) : option (option orec) :=
  f ← dir_find d now hash s;
  match f with
  | None => Some None
  | Some i =>
      r ← sh_records s !! i;
      Some (if negb (or_hash r =? hash) || negb (or_state r =? OWN_OWNED) || reclaimable now r then None else Some r)
  end.

(** Places [i] on, with [count] records written. *)
Fixpoint list_loop (records : list orec) (count max : Z) : list orec :=
  match records with
  | [] => []
  | r :: records =>
      if negb (count <? max) then []
      else if negb (or_state r =? OWN_OWNED) then list_loop records count max
      else r :: list_loop records (count + 1) max
  end.
Definition dir_list (d : dir) (max : Z) (s : shm) : list orec :=
  list_loop (take (Z.to_nat (di_slots d)) (sh_records s)) 0 max.

Inductive dop :=
  | DClaim (hash slot : Z) | DRelease (hash slot : Z)
  | DHeartbeat (hash slot generation frames sources : Z) | DObserve (hash : Z) | DList (max : Z)
  | DReload (count : Z).
Inductive dans := AnsClaim (yes : bool) | AnsDone | AnsRecord (r : option orec) | AnsList (l : list orec)
  | AnsEpoch (r : rc) (epoch : Z).

(** What is decided before the lock: a handle that is missing, a slot that is not the owner's. *)
Definition dir_enter (d : option dir) (o : dop) : option dans :=
  match o, d with
  | DReload _, _ => None
  | DClaim hash slot, Some d => if negb (slot =? owner_slot hash (di_workers d)) then Some (AnsClaim false) else None
  | DClaim _ _, None => Some (AnsClaim false)
  | (DRelease _ _ | DHeartbeat _ _ _ _ _), None => Some AnsDone
  | DObserve _, None => Some (AnsRecord None)
  | DList _, None => Some (AnsList [])
  | _, Some _ => None
  end.
(** The answer when the lock stays contended. *)
Definition dir_refused (epoch : Z) (o : dop) : dans :=
  match o with
  | DClaim _ _ => AnsClaim false
  | DRelease _ _ | DHeartbeat _ _ _ _ _ => AnsDone
  | DObserve _ => AnsRecord None
  | DList _ => AnsList []
  | DReload _ => AnsEpoch NGX_ERROR epoch
  end.
Definition dir_body (d : dir) (pid now : Z) (o : dop) (s : shm) : option (shm * dans) :=
  match o with
  | DClaim hash slot => '(s, a) ← dir_claim d pid now hash slot s; Some (s, AnsClaim a)
  | DRelease hash slot => s ← dir_release d pid now hash slot s; Some (s, AnsDone)
  | DHeartbeat hash slot g f n => s ← dir_heartbeat d pid now hash slot g f n s; Some (s, AnsDone)
  | DObserve hash => r ← dir_observe d now hash s; Some (s, AnsRecord r)
  | DList max => Some (s, AnsList (dir_list d max s))
  | DReload count => let s := dir_reload count s in Some (s, AnsEpoch NGX_OK (sh_epoch s))
  end.

(** ** Workers *)

Inductive phase := Idle | Spinning (o : dop) (n : Z) | Inside (o : dop).
Record worker := mk_worker { wk_dir : dir; wk_pid : Z; wk_phase : phase }.
#[global] Instance eta_worker : Eta worker := λ w, mk_worker (wk_dir w) (wk_pid w) (wk_phase w).

(** One atomic step of a worker inside a call; the answer when the call ends. *)
Definition worker_next (now : Z) (w : worker) (s : shm) : option (worker * shm * option dans) :=
  match wk_phase w with
  | Idle => None
  | Spinning o n =>
      match dir_lock n s with
      | Acquired s => Some (w <| wk_phase := Inside o |>, s, None)
      | Spin n => Some (w <| wk_phase := Spinning o n |>, s, None)
      | GaveUp => Some (w <| wk_phase := Idle |>, s, Some (dir_refused (di_epoch (wk_dir w)) o))
      end
  | Inside o =>
      '(s, a) ← dir_body (wk_dir w) (wk_pid w) now o s;
      Some (w <| wk_phase := Idle |>, dir_unlock s, Some a)
  end.

(** The mapping, the epoch and the worker count the master has for the processes it forks, and
    the processes, the master among them. *)
Record sys := mk_sys { sy_shm : shm; sy_epoch : Z; sy_count : Z; sy_workers : list worker }.
#[global] Instance eta_sys : Eta sys := λ y, mk_sys (sy_shm y) (sy_epoch y) (sy_count y) (sy_workers y).

Inductive dir_step : sys → sys → Prop :=
  | step_call i w o y :
      sy_workers y !! i = Some w → wk_phase w = Idle → dir_enter (Some (wk_dir w)) o = None →
      dir_step y (y <| sy_workers := <[i := w <| wk_phase := Spinning o 0 |>]> (sy_workers y) |>)
  | step_next i w now w' s a y :
      sy_workers y !! i = Some w → worker_next now w (sy_shm y) = Some (w', s, a) →
      dir_step y (y <| sy_shm := s |> <| sy_workers := <[i := w']> (sy_workers y) |>
                    <| sy_epoch := match a with Some (AnsEpoch NGX_OK e) => e | _ => sy_epoch y end |>
                    <| sy_count := match a, wk_phase w with
                                   | Some (AnsEpoch NGX_OK _), Inside (DReload n) => n
                                   | _, _ => sy_count y end |>)
  | step_revision y :
      dir_step y (y <| sy_shm := (dir_revision_next (sy_shm y)).2 |>)
  | step_fork d pid y :
      dir_attach (Some (sy_shm y)) (sy_epoch y) (sy_count y) true = Some d →
      dir_step y (y <| sy_workers ::= λ ws, ws ++ [mk_worker d pid Idle] |>)
  | step_exit i y :
      (∀ w, sy_workers y !! i = Some w → wk_phase w = Idle) →
      dir_step y (y <| sy_workers ::= λ ws, take i ws ++ drop (S i) ws |>).
Definition dir_reachable (y0 y : sys) : Prop := rtc dir_step y0 y.

(** A system as the master starts it: a new mapping, no process yet. *)
Definition sys_init (count slots : Z) : option sys :=
  match shm_create None 0 count slots true true with
  | (NGX_OK, Some s, epoch) => Some (mk_sys s epoch count [])
  | _ => None
  end.

(** ** Well-formed tables *)

Definition probe (slots hash : Z) (k : nat) : nat := Z.to_nat ((dir_index slots hash + Z.of_nat k) mod slots).
Definition owned_by (hash : Z) (r : orec) : Prop := or_state r = OWN_OWNED ∧ or_hash r = hash.
#[global] Instance owned_by_dec hash r : Decision (owned_by hash r) := and_dec _ _.
(** Place [i] is in the probe sequence of [hash], and no place before it is free. *)
Definition chained (slots : Z) (records : list orec) (hash : Z) (i : nat) : Prop :=
  ∃ n, (Z.of_nat n < slots) ∧ i = probe slots hash n ∧
    ∀ k r, (k < n)%nat → records !! probe slots hash k = Some r → or_state r ≠ OWN_FREE.
Record table_ok (slots : Z) (records : list orec) : Prop := {
  tk_slots : 0 < slots < 2 ^ 32;
  tk_length : Z.of_nat (length records) = slots;
  tk_states : Forall (λ r, or_state r = OWN_FREE ∨ or_state r = OWN_OWNED ∨ or_state r = OWN_DELETED) records;
  tk_unique i j r r' : records !! i = Some r → records !! j = Some r' →
    or_state r = OWN_OWNED → owned_by (or_hash r) r' → i = j;
  tk_chained i r : records !! i = Some r → or_state r = OWN_OWNED → chained slots records (or_hash r) i }.
(** The directory as a map: the stream's record, when it is owned. *)
Definition owned (records : list orec) : gmap Z orec :=
  list_to_map ((λ r, (or_hash r, r)) <$> filter (λ r, or_state r = OWN_OWNED) records).

Lemma probe_lt slots hash k : 0 < slots → Z.of_nat (probe slots hash k) < slots.
Proof. intros Hs. unfold probe. pose proof (Z.mod_pos_bound (dir_index slots hash + Z.of_nat k) slots Hs). lia. Qed.
Lemma probe_onto slots hash i : 0 < slots → Z.of_nat i < slots → ∃ k, Z.of_nat k < slots ∧ i = probe slots hash k.
Proof.
  intros Hs Hi. exists (Z.to_nat ((Z.of_nat i - dir_index slots hash) mod slots)).
  pose proof (Z.mod_pos_bound (Z.of_nat i - dir_index slots hash) slots Hs). split; [lia|].
  unfold probe. rewrite Z2Nat.id by lia. rewrite Zplus_mod_idemp_r.
  replace (dir_index slots hash + (Z.of_nat i - dir_index slots hash)) with (Z.of_nat i) by lia.
  rewrite Z.mod_small by lia. lia.
Qed.
Lemma probe_record slots records hash k :
  table_ok slots records → ∃ r, records !! probe slots hash k = Some r ∧
    (or_state r = OWN_FREE ∨ or_state r = OWN_OWNED ∨ or_state r = OWN_DELETED).
Proof.
  intros [Hs Hl Hst _ _]. pose proof (probe_lt slots hash k ltac:(lia)).
  destruct (lookup_lt_is_Some_2 records (probe slots hash k)) as [r Hr]; [lia|].
  exists r. split; [done|]. rewrite Forall_forall in Hst. apply Hst. by eapply list_elem_of_lookup_2.
Qed.

(** What a search from place [k] on gives, with the first place it met that may be taken. *)
Definition probe_found (slots : Z) (records : list orec) (hash now : Z) (res : option nat) : Prop :=
  match res with
  | Some i => ∃ r, records !! i = Some r ∧ chained slots records hash i ∧
      (owned_by hash r ∨ reclaimable now r = true ∧ ∀ j r', records !! j = Some r' → ¬ owned_by hash r')
  | None => ∀ j r, records !! j = Some r → or_state r = OWN_OWNED ∧ reclaimable now r = false ∧ or_hash r ≠ hash
  end.

Lemma reclaimable_state now r : or_state r ≠ OWN_OWNED → reclaimable now r = true.
Proof. intros H. unfold reclaimable. by rewrite (proj2 (Z.eqb_neq _ _) H). Qed.

Section search.
Context (slots : Z) (records : list orec) (hash now : Z) (Hok : table_ok slots records).

(** The places before [k] are taken by other streams or deleted; [first] is the first of them
    that may be taken. *)
Definition searched (k : nat) (first : option nat) : Prop :=
  (∀ j r, (j < k)%nat → records !! probe slots hash j = Some r → or_state r ≠ OWN_FREE ∧ ¬ owned_by hash r) ∧
  match first with
  | Some i => ∃ j r, (j < k)%nat ∧ i = probe slots hash j ∧ records !! i = Some r ∧ reclaimable now r = true
  | None => ∀ j r, (j < k)%nat → records !! probe slots hash j = Some r →
      or_state r = OWN_OWNED ∧ reclaimable now r = false
  end.

Lemma searched_chained k i r :
  searched k (Some i) → (Z.of_nat k ≤ slots) → records !! i = Some r → reclaimable now r = true ∧ chained slots records hash i.
Proof.
  intros [Hb (j & r' & Hj & -> & Hr' & Hrec)] Hk Hr. rewrite Hr in Hr'. injection Hr' as <-. split; [done|].
  exists j. split_and!; [lia|done|]. intros j' r' Hj' Hr'. apply (Hb j' r'); [lia|done].
Qed.
Lemma searched_chain k first : searched k first → (Z.of_nat k < slots) → chained slots records hash (probe slots hash k).
Proof. intros [Hb _] Hk. exists k. split_and!; [done..|]. intros j r Hj Hr. by apply (Hb j r). Qed.
(** Nothing behind a free place is the stream's. *)
Lemma free_stops k first r :
  searched k first → records !! probe slots hash k = Some r → or_state r = OWN_FREE →
  ∀ j r', records !! j = Some r' → ¬ owned_by hash r'.
Proof.
  intros [Hb _] Hr Hfree j r' Hr' Ho. destruct Ho as [Ho Hh].
  destruct (tk_chained _ _ Hok j r' Hr' Ho) as (n & _ & -> & Hc). rewrite Hh in *.
  destruct (Nat.lt_trichotomy n k) as [Hn | [-> | Hn]].
  - destruct (Hb n r' Hn Hr') as [_ H]. by apply H.
  - rewrite Hr in Hr'. injection Hr' as ->. by rewrite Hfree in Ho.
  - by destruct (Hc k r Hn Hr).
Qed.
Lemma search_done first : searched (Z.to_nat slots) first →
  ∀ j r', records !! j = Some r' → ¬ owned_by hash r'.
Proof.
  intros [Hb _] j r' Hr'. pose proof (tk_slots _ _ Hok). pose proof (tk_length _ _ Hok). pose proof (lookup_lt_Some _ _ _ Hr').
  destruct (probe_onto slots hash j) as (k & Hk & ->); [lia..|]. apply (Hb k r'); [lia|done].
Qed.

Lemma probe_loop_found n : ∀ k first,
  (Z.of_nat (k + n) = slots) → searched k first →
  ∃ res, probe_loop n records slots hash now (Z.of_nat k) first = Some res ∧ probe_found slots records hash now res.
Proof.
  induction n as [|n IH]; intros k first Hkn Hse; cbn [probe_loop].
  - exists first. split; [done|]. replace k with (Z.to_nat slots) in Hse by lia.
    pose proof (search_done first Hse) as Hno. pose proof (tk_length _ _ Hok).
    destruct first as [i|]; cbn [probe_found].
    + destruct Hse as [Hb (j & r & Hj & Hi & Hr & Hrec)]. exists r. split; [done|].
      destruct (searched_chained (Z.to_nat slots) i r) as [_ Hc]; [split; [done|by exists j, r]|lia|done|]. split; [done|]. by right.
    + intros j r Hr. pose proof (lookup_lt_Some _ _ _ Hr). pose proof (tk_slots _ _ Hok).
      destruct (probe_onto slots hash j) as (k' & Hk' & ->); [lia..|].
      destruct (proj2 Hse k' r ltac:(lia) Hr) as [Ho Hrec]. split_and!; [done..|]. intros Hh. by destruct (Hno _ r Hr).
  - fold (probe slots hash k). destruct (probe_record slots records hash k Hok) as (r & Hr & Hst). rewrite Hr. cbn [mbind option_bind].
    assert (∀ first', (first' = first ∨ first = None ∧
        first' = if reclaimable now r then Some (probe slots hash k) else None) →
        (first = None → first' = if reclaimable now r then Some (probe slots hash k) else None) →
        or_state r ≠ OWN_FREE → ¬ owned_by hash r → searched (S k) first') as Hstep.
    { intros first' Hf Hf' Hnf Hno. split.
      - intros j r' Hj Hr'. destruct (decide (j = k)) as [->|]; [rewrite Hr in Hr'; by injection Hr' as <-|].
        apply (proj1 Hse j r'); [lia|done].
      - destruct first as [i|].
        + destruct Hf as [-> | [? _]]; [|done]. destruct (proj2 Hse) as (j & r' & Hj & ?). exists j, r'. split; [lia|done].
        + rewrite (Hf' eq_refl). destruct (reclaimable now r) eqn:E; [exists k, r; split_and!; [lia|done..]|].
          intros j r' Hj Hr'. destruct (decide (j = k)) as [->|]; [|apply (proj2 Hse j r'); [lia|done]].
          rewrite Hr in Hr'. injection Hr' as <-. split; [|done].
          destruct (decide (or_state r = OWN_OWNED)) as [|Hne]; [done|]. by rewrite (reclaimable_state now r Hne) in E. }
    replace (Z.of_nat k + 1) with (Z.of_nat (S k)) by lia.
    destruct (Z.eqb_spec (or_state r) OWN_OWNED) as [Ho|Ho].
    + destruct (Z.eqb_spec (or_hash r) hash) as [Hh|Hh].
      * eexists. split; [done|]. exists r. split_and!; [done| |by left]. eapply searched_chain; [exact Hse|lia].
      * apply IH; [lia|]. apply Hstep; [destruct first; auto|by intros ->|by rewrite Ho|by intros [_ ?]].
    + assert (¬ owned_by hash r) as Hno by by intros [? _].
      assert (reclaimable now r = true) as Hrec by by apply reclaimable_state.
      destruct (Z.eqb_spec (or_state r) OWN_DELETED) as [Hd|Hd].
      * apply IH; [lia|]. apply Hstep; [destruct first; auto; rewrite Hrec; auto|intros ->; by rewrite Hrec|by rewrite Hd|done].
      * destruct Hst as [Hfree | [?|?]]; [|done..]. rewrite (proj2 (Z.eqb_eq _ _) Hfree). eexists. split; [done|].
        pose proof (free_stops k first r Hse Hr Hfree) as Hnone. destruct first as [i|].
        -- destruct (proj2 Hse) as (j & r' & Hj & Hi & Hr' & Hrec'). exists r'. split; [done|].
           destruct (searched_chained k i r' Hse ltac:(lia) Hr') as [_ Hc]. split; [done|]. by right.
        -- exists r. split_and!; [done| |by right]. eapply searched_chain; [exact Hse|lia].
Qed.
Lemma find_found : ∃ res, probe_loop (Z.to_nat slots) records slots hash now 0 None = Some res ∧ probe_found slots records hash now res.
Proof.
  pose proof (tk_slots _ _ Hok). apply (probe_loop_found (Z.to_nat slots) 0 None); [lia|]. split; intros; lia.
Qed.
End search.

(** A place gets a record that is not free: the other probe sequences stay whole. *)
Lemma put_ok slots records i r0 r :
  table_ok slots records → records !! i = Some r0 →
  or_state r = OWN_DELETED ∨ or_state r = OWN_OWNED ∧ chained slots records (or_hash r) i ∧
    (∀ j r', records !! j = Some r' → owned_by (or_hash r) r' → j = i) →
  table_ok slots (<[i := r]> records).
Proof.
  intros Hok Hi Hr. pose proof Hok as [Hs Hl Hst Hu Hc].
  assert (or_state r ≠ OWN_FREE) as Hnf by (destruct Hr as [-> | [-> _]]; done).
  pose proof (lookup_lt_Some _ _ _ Hi) as Hlt.
  assert (∀ h j, chained slots records h j → chained slots (<[i := r]> records) h j) as Hch.
  { intros h j (n & Hn & -> & Hb). exists n. split_and!; [done..|]. intros k r' Hk Hr'.
    apply list_lookup_insert_Some in Hr' as [(_ & <- & _) | [_ Hr']]; [done|]. by apply (Hb k r'). }
  split; [done|by rewrite length_insert| | |].
  - apply Forall_insert; [done|]. destruct Hr as [-> | [-> _]]; auto.
  - intros j k r1 r2 H1 H2 Ho1 Ho2.
    apply list_lookup_insert_Some in H1 as [(-> & <- & _) | [Hji H1]]; apply list_lookup_insert_Some in H2 as [(-> & <- & _) | [Hki H2]].
    + done.
    + destruct Hr as [Hr | (_ & _ & Hr)]; [by rewrite Hr in Ho1|]. symmetry. by apply (Hr k r2).
    + destruct Hr as [Hr | (_ & _ & Hr)]; [destruct Ho2 as [Ho2 _]; by rewrite Hr in Ho2|].
      apply (Hr j r1); [done|]. split; [done|]. by destruct Ho2 as [_ ->].
    + by apply (Hu j k r1 r2).
  - intros j r' H1 Ho1. apply Hch. apply list_lookup_insert_Some in H1 as [(-> & <- & _) | [_ H1]].
    + destruct Hr as [Hr | (_ & Hr & _)]; [by rewrite Hr in Ho1|done].
    + by apply Hc.
Qed.

Lemma owned_lookup slots records hash r :
  table_ok slots records → owned records !! hash = Some r ↔ ∃ i, records !! i = Some r ∧ owned_by hash r.
Proof.
  intros Hok. unfold owned. split.
  - intros H%elem_of_list_to_map_2. apply list_elem_of_fmap in H as (r' & [= -> ->] & H).
    apply list_elem_of_filter in H as [Ho [i Hi]%list_elem_of_lookup]. by exists i.
  - intros (i & Hi & Ho & <-). apply elem_of_list_to_map_1'.
    + intros r' (r'' & [= Hh <-] & H)%list_elem_of_fmap. apply list_elem_of_filter in H as [Ho' [j Hj]%list_elem_of_lookup].
      assert (i = j) as -> by (by eapply (tk_unique _ _ Hok)). congruence.
    + apply list_elem_of_fmap. exists r. split; [done|]. apply list_elem_of_filter. split; [done|]. by eapply list_elem_of_lookup_2.
Qed.
Lemma owned_none slots records hash :
  table_ok slots records → owned records !! hash = None ↔ ∀ i r, records !! i = Some r → ¬ owned_by hash r.
Proof.
  intros Hok. split.
  - intros H i r Hi Ho. assert (owned records !! hash = Some r) as E by (apply (owned_lookup slots); [done|by exists i]). congruence.
  - intros H. destruct (owned records !! hash) as [r|] eqn:E; [|done].
    apply (owned_lookup slots) in E as (i & Hi & Ho); [|done]. by destruct (H i r).
Qed.
(** What a record put at a place does to the map. *)
Definition put_map (r0 r : orec) (m : gmap Z orec) : gmap Z orec :=
  let m := if decide (or_state r0 = OWN_OWNED) then delete (or_hash r0) m else m in
  if decide (or_state r = OWN_OWNED) then <[or_hash r := r]> m else m.
Lemma owned_put slots records i r0 r :
  table_ok slots records → table_ok slots (<[i := r]> records) → records !! i = Some r0 →
  owned (<[i := r]> records) = put_map r0 r (owned records).
Proof.
  intros Hok Hok' Hi. apply map_eq. intros h. apply option_eq. intros x. rewrite (owned_lookup slots) by done.
  pose proof (lookup_lt_Some _ _ _ Hi) as Hlt. unfold put_map. set (m := if decide (or_state r0 = OWN_OWNED) then _ else _).
  assert (m !! h = Some x ↔ ∃ j, j ≠ i ∧ records !! j = Some x ∧ owned_by h x) as Hm.
  { unfold m. destruct (decide (or_state r0 = OWN_OWNED)) as [Ho|Ho].
    - rewrite lookup_delete_Some, (owned_lookup slots) by done. split.
      + intros (Hh & j & Hj & Hox). exists j. split_and!; [|done..]. intros ->. rewrite Hi in Hj. injection Hj as <-. by destruct Hox.
      + intros (j & Hji & Hj & Hox). split; [|by exists j]. intros <-. destruct Hji. symmetry. by eapply (tk_unique _ _ Hok).
    - rewrite (owned_lookup slots) by done. split; [|by intros (j & _ & ?); exists j].
      intros (j & Hj & Hox). exists j. split_and!; [|done..]. intros ->. rewrite Hi in Hj. injection Hj as <-. by destruct Hox. }
  destruct (decide (or_state r = OWN_OWNED)) as [Ho|Ho].
  - rewrite lookup_insert_Some, Hm. split.
    + intros (j & Hj & Hox). apply list_lookup_insert_Some in Hj as [(-> & <- & _) | [Hne Hj]].
      * left. by destruct Hox.
      * right. split; [|exists j; split_and!; done]. intros <-. apply Hne.
        eapply (tk_unique _ _ Hok'); [by apply list_lookup_insert_eq|by rewrite list_lookup_insert_ne|done|done].
    + intros [[<- <-] | (Hne & j & Hji & Hj & Hox)].
      * exists i. rewrite list_lookup_insert_eq by done. done.
      * exists j. rewrite list_lookup_insert_ne by done. done.
  - rewrite Hm. split.
    + intros (j & Hj & Hox). apply list_lookup_insert_Some in Hj as [(-> & <- & _) | [Hne Hj]]; [by destruct Hox|].
      by exists j.
    + intros (j & Hji & Hj & Hox). exists j. rewrite list_lookup_insert_ne by done. done.
Qed.

Lemma filter_nodup {A B} (f : A → B) (P : A → Prop) `{∀ x, Decision (P x)} l :
  (∀ i j x y, l !! i = Some x → l !! j = Some y → P x → P y → f x = f y → i = j) → NoDup (f <$> filter P l).
Proof.
  induction l as [|x l IH]; intros Hu; [constructor|]. rewrite filter_cons.
  assert (NoDup (f <$> filter P l)) as Hl.
  { apply IH. intros i j y z Hi Hj Hy Hz E. specialize (Hu (S i) (S j) y z Hi Hj Hy Hz E). lia. }
  destruct (decide (P x)) as [Hx|]; [|done]. cbn [fmap list_fmap]. apply NoDup_cons. split; [|done].
  intros (y & E & Hy)%list_elem_of_fmap. apply list_elem_of_filter in Hy as [Hy [j Hj]%list_elem_of_lookup].
  specialize (Hu 0%nat (S j) x y eq_refl Hj Hx Hy E). lia.
Qed.
Lemma owned_size slots records :
  table_ok slots records → size (owned records) = length (filter (λ r, or_state r = OWN_OWNED) records).
Proof.
  intros Hok. unfold owned. rewrite map_size_list_to_map; [by rewrite length_fmap|]. rewrite <- list_fmap_compose.
  apply (filter_nodup (fst ∘ λ r, (or_hash r, r))). intros i j x y Hi Hj Hx Hy E. cbn in E.
  by eapply (tk_unique _ _ Hok).
Qed.
Lemma owned_full slots records : table_ok slots records → (∀ i r, records !! i = Some r → or_state r = OWN_OWNED) →
  Z.of_nat (size (owned records)) = slots.
Proof.
  intros Hok Hall. rewrite (owned_size slots) by done. rewrite <- (tk_length _ _ Hok). f_equal.
  assert (Forall (λ r, or_state r = OWN_OWNED) records) as HF by (apply Forall_lookup; exact Hall). clear -HF.
  induction HF as [|r l Hr _ IH]; [done|]. rewrite filter_cons, decide_True by done. cbn. by rewrite IH.
Qed.

(** ** What the directory promises

    In terms of the map of the owned streams. *)

Definition stale (now : Z) (r : orec) : bool := OWNER_STALE_MS <? now ⊖ or_heartbeat r.
Definition mine (pid slot : Z) (r : orec) : bool := (or_slot r =? slot) && (or_pid r =? pid).
(** A claim for a stream without a record may put out another stream's stale one. *)
Definition claim_spec (slots pid now hash slot : Z) (current : bool) (m : gmap Z orec) (yes : bool) (m' : gmap Z orec) : Prop :=
  if negb current then yes = false ∧ m' = m
  else
    match m !! hash with
    | Some r => yes = true ∧ m' = if mine pid slot r && negb (stale now r) then m else <[hash := claimed hash slot pid now]> m
    | None =>
        yes = true ∧ (∃ m0, (m0 = m ∨ ∃ h r, m !! h = Some r ∧ stale now r = true ∧ m0 = delete h m) ∧
                       m' = <[hash := claimed hash slot pid now]> m0)
        ∨ yes = false ∧ m' = m ∧ Z.of_nat (size m) = slots ∧ ∀ h r, m !! h = Some r → stale now r = false
    end.
Definition dir_spec (slots pid now : Z) (current : bool) (o : dop) (m : gmap Z orec) (a : dans) (m' : gmap Z orec) : Prop :=
  match o, a with
  | DClaim hash slot, AnsClaim yes => claim_spec slots pid now hash slot current m yes m'
  | DRelease hash slot, AnsDone =>
      m' = match m !! hash with Some r => if current && mine pid slot r then delete hash m else m | None => m end
  | DHeartbeat hash slot g f n, AnsDone =>
      m' = match m !! hash with
           | Some r => if current && mine pid slot r then <[hash := heartbeat_rec now g f n r]> m else m
           | None => m
           end
  | DObserve hash, AnsRecord res =>
      m' = m ∧ res = match m !! hash with Some r => if stale now r then None else Some r | None => None end
  | DList max, AnsList l => m' = m ∧ (∀ r, r ∈ l → m !! or_hash r = Some r) ∧
      (Z.of_nat (size m) ≤ max → ∀ h r, m !! h = Some r → r ∈ l)
  | DReload _, AnsEpoch NGX_OK _ => m' = m
  | _, _ => False
  end.

Lemma reclaimable_owned now r : or_state r = OWN_OWNED → reclaimable now r = stale now r.
Proof. intros H. unfold reclaimable. by rewrite H. Qed.
Lemma owns_record_iff pid hash slot r :
  owns_record pid hash slot r = bool_decide (owned_by hash r) && mine pid slot r.
Proof.
  unfold owns_record, mine. destruct (bool_decide_reflect (owned_by hash r)) as [[Ho Hh] | Hno].
  - rewrite (proj2 (Z.eqb_eq _ _) Ho), (proj2 (Z.eqb_eq _ _) Hh). by rewrite andb_true_r.
  - destruct (Z.eqb_spec (or_hash r) hash), (Z.eqb_spec (or_state r) OWN_OWNED); rewrite ?andb_false_r; try done. by destruct Hno.
Qed.


Section operations.
Context (d : dir) (s : shm) (Hok : table_ok (di_slots d) (sh_records s)).
Let m : gmap Z orec := owned (sh_records s).

Lemma dir_find_found now hash :
  ∃ res, dir_find d now hash s = Some res ∧
    match res with
    | Some i => ∃ r, sh_records s !! i = Some r ∧ chained (di_slots d) (sh_records s) hash i ∧
        (owned_by hash r ∧ m !! hash = Some r ∨ reclaimable now r = true ∧ ¬ owned_by hash r ∧ m !! hash = None)
    | None => m !! hash = None ∧ ∀ j r, sh_records s !! j = Some r → or_state r = OWN_OWNED ∧ reclaimable now r = false
    end.
Proof.
  destruct (find_found (di_slots d) (sh_records s) hash now Hok) as (res & E & H). exists res. split; [exact E|].
  destruct res as [i|]; cbn [probe_found] in H.
  - destruct H as (r & Hr & Hc & H). exists r. split_and!; [done..|]. destruct H as [H | [Hrec H]]; [left|right].
    + split; [done|]. apply (owned_lookup (di_slots d)); [done|by exists i].
    + split_and!; [done|by apply (H i)|]. by apply (owned_none (di_slots d)).
  - split.
    + apply (owned_none (di_slots d)); [done|]. intros i r Hi [_ Hh]. by destruct (H i r Hi) as (_ & _ & ?).
    + intros j r Hj. by destruct (H j r Hj) as (? & ? & _).
Qed.

(** A record put at the place a search gave. *)
Lemma put_found hash i r0 r :
  sh_records s !! i = Some r0 → chained (di_slots d) (sh_records s) hash i → or_state r = OWN_OWNED → or_hash r = hash →
  owned_by hash r0 ∨ m !! hash = None →
  table_ok (di_slots d) (sh_records (put_record i r s)) ∧ owned (sh_records (put_record i r s)) = put_map r0 r m.
Proof.
  intros Hi Hc Ho Hh Hor.
  assert (table_ok (di_slots d) (sh_records (put_record i r s))) as Hok'.
  { eapply put_ok; [exact Hok|exact Hi|]. right. rewrite Hh. split_and!; [done..|]. intros j r' Hj Hr'.
    destruct Hor as [[Ho0 Hh0] | Hn].
    - symmetry. eapply (tk_unique _ _ Hok); [exact Hi|exact Hj|exact Ho0|by rewrite Hh0].
    - unfold m in Hn. rewrite (owned_none (di_slots d)) in Hn by done. by destruct (Hn j r'). }
  split; [done|]. by eapply owned_put.
Qed.

Lemma claim_ok pid now hash slot :
  ∃ s' yes, dir_claim d pid now hash slot s = Some (s', yes) ∧ table_ok (di_slots d) (sh_records s') ∧
    (∃ rs, s' = s <| sh_records := rs |>) ∧
    claim_spec (di_slots d) pid now hash slot (di_epoch d =? sh_epoch s) m yes (owned (sh_records s')).
Proof.
  unfold dir_claim, claim_spec. destruct (di_epoch d =? sh_epoch s); cbn [negb].
  2: { exists s, false. split_and!; [done..| |done|done]. exists (sh_records s). by destruct s. }
  destruct (dir_find_found now hash) as (res & -> & Hres). cbn [mbind option_bind].
  destruct res as [i|].
  - destruct Hres as (r & Hi & Hc & H). rewrite Hi. cbn [mbind option_bind].
    assert (owned_by hash r ∨ m !! hash = None) as Hor by (destruct H as [[? _] | (_ & _ & ?)]; auto).
    destruct (put_found hash i r (claimed hash slot pid now) Hi Hc eq_refl eq_refl Hor) as [Hok' Eo].
    assert (∃ rs, put_record i (claimed hash slot pid now) s = s <| sh_records := rs |>) as Hrs by (eexists; reflexivity).
    destruct H as [[[Ho Hh] ->] | (Hrec & Hno & ->)].
    + rewrite (reclaimable_owned now r Ho). rewrite (proj2 (Z.eqb_eq _ _) Hh). unfold mine. cbn [negb orb].
      destruct (or_slot r =? slot), (or_pid r =? pid), (stale now r); cbn [negb orb andb];
        (eexists _, _; split; [reflexivity|]; split; [assumption|]; split;
         [first [exact Hrs | exists (sh_records s); by destruct s]|split; [done|]]);
        try done; rewrite Eo; unfold put_map; rewrite decide_True by done; rewrite decide_True by done; cbn [or_hash];
        rewrite Hh; apply insert_delete_eq.
    + rewrite Hrec, orb_true_r. eexists _, _. split; [reflexivity|]. split; [done|]. split; [done|]. left. split; [done|].
      rewrite Eo. unfold put_map. rewrite (decide_True (P := or_state (claimed hash slot pid now) = OWN_OWNED)) by done.
      destruct (decide (or_state r = OWN_OWNED)) as [Ho|Ho]; (eexists; split; [|reflexivity]); [right|by left].
      exists (or_hash r), r. split_and!; [|by rewrite <- reclaimable_owned|done].
      apply (owned_lookup (di_slots d)); [done|]. by exists i.
  - destruct Hres as [Hn Hall]. exists s, false. rewrite Hn. split_and!; [done..| |].
    { exists (sh_records s). by destruct s. }
    right. split_and!; [done..| |].
    + apply owned_full; [done|]. intros i r Hi. by apply (Hall i r).
    + intros h r Hr. apply (owned_lookup (di_slots d)) in Hr as (i & Hi & Ho & _); [|done].
      destruct (Hall i r Hi) as [_ Hrec]. by rewrite <- (reclaimable_owned now r Ho).
Qed.

(** The record found is this process's exactly when the map says so. *)
Lemma owns_found now pid hash slot r :
  owned_by hash r ∧ m !! hash = Some r ∨ reclaimable now r = true ∧ ¬ owned_by hash r ∧ m !! hash = None →
  owns_record pid hash slot r = match m !! hash with Some r' => mine pid slot r' | None => false end.
Proof.
  rewrite owns_record_iff. intros [[Ho ->] | (_ & Hno & ->)].
  - by rewrite bool_decide_true.
  - by rewrite bool_decide_false.
Qed.

Lemma release_ok pid now hash slot :
  ∃ s', dir_release d pid now hash slot s = Some s' ∧ table_ok (di_slots d) (sh_records s') ∧
    (∃ rs, s' = s <| sh_records := rs |>) ∧
    dir_spec (di_slots d) pid now (di_epoch d =? sh_epoch s) (DRelease hash slot) m AnsDone (owned (sh_records s')).
Proof.
  assert (∃ rs, s = s <| sh_records := rs |>) as Hid by (exists (sh_records s); by destruct s).
  unfold dir_release. cbn [dir_spec]. destruct (di_epoch d =? sh_epoch s); cbn [negb andb].
  2: { exists s. split_and!; [done..|]. by case_match. }
  destruct (dir_find_found now hash) as (res & -> & Hres). cbn [mbind option_bind].
  destruct res as [i|]; [|destruct Hres as [-> _]; by exists s].
  destruct Hres as (r & Hi & Hc & H). rewrite Hi. cbn [mbind option_bind]. rewrite (owns_found now pid hash slot r H).
  destruct H as [[[Ho Hh] ->] | (_ & _ & ->)]; [|by exists s].
  destruct (mine pid slot r); [|by exists s]. eexists. split; [reflexivity|].
  assert (table_ok (di_slots d) (sh_records (put_record i (orec_zero <| or_state := OWN_DELETED |>) s))) as Hok'
    by (eapply put_ok; [exact Hok|exact Hi|by left]).
  split_and!; [done|by eexists|]. cbn [put_record sh_records] in *. etrans; [eapply owned_put; [exact Hok|exact Hok'|exact Hi]|].
  unfold put_map. rewrite (decide_True (P := or_state r = OWN_OWNED)) by done.
  rewrite decide_False by (intros E; discriminate E). by rewrite Hh.
Qed.

Lemma heartbeat_ok pid now hash slot g f n :
  ∃ s', dir_heartbeat d pid now hash slot g f n s = Some s' ∧ table_ok (di_slots d) (sh_records s') ∧
    (∃ rs, s' = s <| sh_records := rs |>) ∧
    dir_spec (di_slots d) pid now (di_epoch d =? sh_epoch s) (DHeartbeat hash slot g f n) m AnsDone (owned (sh_records s')).
Proof.
  assert (∃ rs, s = s <| sh_records := rs |>) as Hid by (exists (sh_records s); by destruct s).
  unfold dir_heartbeat. cbn [dir_spec]. destruct (di_epoch d =? sh_epoch s); cbn [negb andb].
  2: { exists s. split_and!; [done..|]. by case_match. }
  destruct (dir_find_found now hash) as (res & -> & Hres). cbn [mbind option_bind].
  destruct res as [i|]; [|destruct Hres as [-> _]; by exists s].
  destruct Hres as (r & Hi & Hc & H). rewrite Hi. cbn [mbind option_bind]. rewrite (owns_found now pid hash slot r H).
  destruct H as [[[Ho Hh] ->] | (_ & _ & ->)]; [|by exists s].
  destruct (mine pid slot r); [|by exists s].
  assert (or_hash (heartbeat_rec now g f n r) = hash) as Hh' by (by destruct r).
  destruct (put_found hash i r (heartbeat_rec now g f n r) Hi Hc) as [Hok' Eo]; [by destruct r|done|by left|].
  eexists. split; [reflexivity|]. split_and!; [done|by eexists|]. rewrite Eo. unfold put_map.
  rewrite decide_True by done. rewrite decide_True by (by destruct r). rewrite Hh', Hh. apply insert_delete_eq.
Qed.

Lemma observe_ok pid now hash :
  ∃ res, dir_observe d now hash s = Some res ∧
    dir_spec (di_slots d) pid now (di_epoch d =? sh_epoch s) (DObserve hash) m (AnsRecord res) m.
Proof.
  unfold dir_observe. cbn [dir_spec]. destruct (dir_find_found now hash) as (res & -> & Hres). cbn [mbind option_bind].
  destruct res as [i|]; [|destruct Hres as [-> _]; by exists None].
  destruct Hres as (r & Hi & Hc & H). rewrite Hi. cbn [mbind option_bind].
  destruct H as [[[Ho Hh] ->] | (Hrec & _ & ->)].
  - rewrite (proj2 (Z.eqb_eq _ _) Ho), (proj2 (Z.eqb_eq _ _) Hh), (reclaimable_owned now r Ho). cbn [negb orb].
    destruct (stale now r); by eexists.
  - rewrite Hrec, !orb_true_r. by eexists.
Qed.

Lemma list_loop_elem records count max r : r ∈ list_loop records count max → r ∈ records ∧ or_state r = OWN_OWNED.
Proof.
  revert count. induction records as [|x records IH]; intros count; cbn; [by intros ?%not_elem_of_nil|].
  destruct (negb (count <? max)); [by intros ?%not_elem_of_nil|].
  destruct (Z.eqb_spec (or_state x) OWN_OWNED) as [Ho|Ho]; cbn [negb].
  - rewrite !elem_of_cons. intros [-> | H%IH]; [auto|]. destruct H. auto.
  - rewrite elem_of_cons. intros H%IH. destruct H. auto.
Qed.
Lemma list_ok max r : r ∈ dir_list d max s → m !! or_hash r = Some r.
Proof.
  intros [H Ho]%list_loop_elem. apply (owned_lookup (di_slots d)); [done|].
  apply elem_of_take in H as (i & Hi & _). by exists i.
Qed.

Lemma list_loop_all records : ∀ count max r,
  count + Z.of_nat (length (filter (λ r, or_state r = OWN_OWNED) records)) ≤ max →
  r ∈ records → or_state r = OWN_OWNED → r ∈ list_loop records count max.
Proof.
  induction records as [|x records IH]; intros count max r Hm Hr Ho; [by apply not_elem_of_nil in Hr|]. cbn [list_loop].
  rewrite filter_cons in Hm. apply elem_of_cons in Hr. destruct (Z.eqb_spec (or_state x) OWN_OWNED) as [Hx|Hx]; cbn [negb].
  - rewrite decide_True in Hm by done. cbn [length] in Hm. rewrite (proj2 (Z.ltb_lt count max)) by lia. cbn [negb].
    apply elem_of_cons. destruct Hr as [-> | Hr]; [by left|right]. apply IH; [lia|done..].
  - rewrite decide_False in Hm by done. destruct Hr as [-> | Hr]; [done|].
    assert (1 ≤ length (filter (λ r, or_state r = OWN_OWNED) records))%nat as H1.
    { assert (r ∈ filter (λ r, or_state r = OWN_OWNED) records) as Hf by (by apply list_elem_of_filter).
      destruct (filter _ records); [by apply not_elem_of_nil in Hf|cbn; lia]. }
    rewrite (proj2 (Z.ltb_lt count max)) by lia. by apply IH.
Qed.
Lemma list_complete max h r : Z.of_nat (size m) ≤ max → m !! h = Some r → r ∈ dir_list d max s.
Proof.
  intros Hm Hr. apply (owned_lookup (di_slots d)) in Hr as (i & Hi & Ho & _); [|done]. unfold dir_list.
  rewrite firstn_all2 by (pose proof (tk_length _ _ Hok); lia). apply list_loop_all; [|by eapply list_elem_of_lookup_2|done].
  unfold m in Hm. rewrite (owned_size (di_slots d)) in Hm by done. lia.
Qed.

(** Every operation has its answer, keeps the table well formed and does what the map says. *)
Lemma body_ok pid now o :
  ∃ s' a, dir_body d pid now o s = Some (s', a) ∧ table_ok (di_slots d) (sh_records s') ∧
    sh_slots s' = sh_slots s ∧ sh_magic s' = sh_magic s ∧ sh_lock s' = sh_lock s ∧
    dir_spec (di_slots d) pid now (di_epoch d =? sh_epoch s) o m a (owned (sh_records s')).
Proof.
  destruct o as [hash slot|hash slot|hash slot g f n|hash|max|count]; cbn [dir_body].
  - destruct (claim_ok pid now hash slot) as (s' & yes & -> & Hok' & (rs & ->) & Hs). by eexists _, _.
  - destruct (release_ok pid now hash slot) as (s' & -> & Hok' & (rs & ->) & Hs). by eexists _, _.
  - destruct (heartbeat_ok pid now hash slot g f n) as (s' & -> & Hok' & (rs & ->) & Hs). by eexists _, _.
  - destruct (observe_ok pid now hash) as (res & -> & Hs). by eexists _, _.
  - eexists _, _. split; [reflexivity|]. split_and!; [done..|]. cbn [dir_spec]. split_and!; [done|apply list_ok|].
    intros Hm h r. by apply list_complete.
  - eexists _, _. split; [reflexivity|]. by split_and!.
Qed.
End operations.

(** ** Interleavings *)

Definition is_inside (w : worker) : bool := match wk_phase w with Inside _ => true | _ => false end.
Definition insiders (ws : list worker) : nat := length (filter (λ w, is_inside w = true) ws).
#[global] Arguments insiders : simpl never.
Definition phase_ok (w : worker) : Prop :=
  match wk_phase w with
  | Idle => True
  | Spinning o n => dir_enter (Some (wk_dir w)) o = None ∧ 0 ≤ n ≤ LOCK_TRIES
  | Inside o => dir_enter (Some (wk_dir w)) o = None
  end.
Record sys_ok (y : sys) : Prop := {
  yk_table : table_ok (sh_slots (sy_shm y)) (sh_records (sy_shm y));
  yk_lock : sh_lock (sy_shm y) = Z.of_nat (insiders (sy_workers y));
  yk_excl : (insiders (sy_workers y) ≤ 1)%nat;
  yk_workers : Forall (λ w, di_slots (wk_dir w) = sh_slots (sy_shm y) ∧ phase_ok w) (sy_workers y) }.

Lemma insiders_insert ws i w w' :
  ws !! i = Some w →
  (insiders (<[i := w']> ws) + (if is_inside w then 1 else 0) = insiders ws + (if is_inside w' then 1 else 0))%nat.
Proof.
  intros Hi. pose proof (lookup_lt_Some _ _ _ Hi) as Hlt. rewrite insert_take_drop by done.
  assert (insiders ws = insiders (take i ws ++ w :: drop (S i) ws)) as -> by (by rewrite take_drop_middle). unfold insiders. rewrite !filter_app, !length_app, !filter_cons.
  destruct (is_inside w), (is_inside w');
    repeat (case_decide; try done); cbn [length]; lia.
Qed.
Lemma insiders_app ws ws' : insiders (ws ++ ws') = (insiders ws + insiders ws')%nat.
Proof. unfold insiders. by rewrite filter_app, length_app. Qed.
Lemma insiders_at ws i w : ws !! i = Some w → is_inside w = true → (1 ≤ insiders ws)%nat.
Proof.
  intros Hi Hw. rewrite <- (take_drop_middle ws i w Hi), insiders_app. unfold insiders at 2. rewrite filter_cons, decide_True by done.
  cbn [length]. lia.
Qed.

(** How many steps a call may still take. *)
Definition steps_left (w : worker) : Z :=
  match wk_phase w with Idle => 0 | Inside _ => 1 | Spinning _ n => LOCK_TRIES - n + 2 end.

(** A step inside a call. *)
Lemma next_ok y i w now :
  sys_ok y → sy_workers y !! i = Some w → wk_phase w ≠ Idle →
  ∃ w' s a, worker_next now w (sy_shm y) = Some (w', s, a) ∧ 0 ≤ steps_left w' < steps_left w ∧
    table_ok (sh_slots (sy_shm y)) (sh_records s) ∧ sh_slots s = sh_slots (sy_shm y) ∧
    sh_lock s = Z.of_nat (insiders (<[i := w']> (sy_workers y))) ∧ (insiders (<[i := w']> (sy_workers y)) ≤ 1)%nat ∧
    wk_dir w' = wk_dir w ∧ phase_ok w' ∧
    match wk_phase w with
    | Inside o => ∃ a', a = Some a' ∧
        dir_spec (sh_slots s) (wk_pid w) now (di_epoch (wk_dir w) =? sh_epoch (sy_shm y)) o
          (owned (sh_records (sy_shm y))) a' (owned (sh_records s))
    | _ => sh_records s = sh_records (sy_shm y)
    end.
Proof.
  intros [Ht Hl He Hw] Hi Hne. pose proof (proj1 (Forall_lookup _ _) Hw i w Hi) as [Hs Hp].
  assert (∀ w', (insiders (<[i := w']> (sy_workers y)) + (if is_inside w then 1 else 0)
                 = insiders (sy_workers y) + (if is_inside w' then 1 else 0))%nat) as Hins by (intros; by apply insiders_insert).
  unfold worker_next, phase_ok, steps_left in *. unfold is_inside in Hins. destruct (wk_phase w) as [|o n|o] eqn:Eph; [done| |].
  - destruct Hp as [Hen Hn]. unfold dir_lock, cmp_set.
    destruct (Z.ltb_spec n LOCK_TRIES); [destruct (Z.eqb_spec (sh_lock (sy_shm y)) 0) as [H0|H0]|].
    + eexists _, _, _. split; [reflexivity|]. specialize (Hins (w <| wk_phase := Inside o |>)). cbn in Hins |- *. split_and!; try done; lia.
    + eexists _, _, _. split; [reflexivity|]. specialize (Hins (w <| wk_phase := Spinning o (n + 1) |>)). cbn in Hins |- *.
      split_and!; try done; lia.
    + eexists _, _, _. split; [reflexivity|]. specialize (Hins (w <| wk_phase := Idle |>)). cbn in Hins |- *. split_and!; try done; lia.
  - assert (1 ≤ insiders (sy_workers y))%nat as H1 by (eapply insiders_at; [exact Hi|]; unfold is_inside; by rewrite Eph).
    rewrite <- Hs in Ht. destruct (body_ok (wk_dir w) (sy_shm y) Ht (wk_pid w) now o) as (s' & a & -> & Ht' & Hsl & _ & Hlk & Hsp).
    cbn [mbind option_bind]. eexists _, _, _. split; [reflexivity|]. specialize (Hins (w <| wk_phase := Idle |>)).
    assert (sh_lock s' = 1) as E1 by lia.
    assert (dir_unlock s' = s' <| sh_lock := 0 |>) as -> by (unfold dir_unlock, cmp_set; by rewrite E1).
    cbn in Hins |- *. split_and!; try done; try lia; try congruence; rewrite ?Hsl, <- ?Hs; try done; by exists a.
Qed.

Lemma init_ok count slots y : 0 ≤ slots < 2 ^ 32 → sys_init count slots = Some y → sys_ok y.
Proof.
  intros Hs E. unfold sys_init, shm_create in E. cbn [negb] in E. injection E as <-.
  set (n := if slots =? 0 then DIR_SLOTS else slots).
  assert (0 < n < 2 ^ 32) as Hn by (unfold n, DIR_SLOTS; destruct (Z.eqb_spec slots 0); lia).
  assert (∀ i r, ((λ r, r <| or_state := OWN_FREE |>) <$> replicate (Z.to_nat n) orec_zero) !! i = Some r → or_state r = OWN_FREE) as Hfree.
  { intros i r Hr. rewrite list_lookup_fmap in Hr. by apply fmap_Some in Hr as (r' & _ & ->). }
  split; cbn [sy_shm sy_workers sh_slots sh_records sh_lock]; [|done|change (insiders []) with 0%nat; lia|done].
  assert (u32 n = n) as -> by (unfold u32; rewrite Z.mod_small; lia). split.
  - done.
  - rewrite length_fmap, length_replicate. lia.
  - apply Forall_lookup. intros i r Hr. left. by eapply Hfree.
  - intros i j r r' Hi Hj Ho. by rewrite (Hfree i r Hi) in Ho.
  - intros i r Hi Ho. by rewrite (Hfree i r Hi) in Ho.
Qed.

Lemma step_ok y y' : sys_ok y → dir_step y y' → sys_ok y'.
Proof.
  intros Hok Hst. pose proof Hok as [Ht Hl He Hw]. destruct Hst as [i w o y Hi Hid Hen|i w now w' s a y Hi Hnx|y|d pid y Hd|i y Hi].
  - pose proof (insiders_insert (sy_workers y) i w (w <| wk_phase := Spinning o 0 |>) Hi) as Hins.
    assert (is_inside w = false) as Ew by (unfold is_inside; by rewrite Hid). rewrite Ew in Hins. cbn in Hins.
    split; cbn; [done|lia|lia|]. apply Forall_insert; [done|].
    pose proof (proj1 (Forall_lookup _ _) Hw i w Hi) as [Hs _]. split; [done|]. unfold phase_ok. cbn. unfold LOCK_TRIES. split; [done|lia].
  - assert (wk_phase w ≠ Idle) as Hne by (intros E; unfold worker_next in Hnx; by rewrite E in Hnx).
    destruct (next_ok y i w now Hok Hi Hne) as (w2 & s2 & a2 & E & _ & Ht' & Hsl & Hlk & Hex & Hdir & Hph & _).
    rewrite E in Hnx. injection Hnx as -> -> ->. split; cbn; rewrite ?Hsl; [done..|]. apply Forall_insert; [done|].
    pose proof (proj1 (Forall_lookup _ _) Hw i w Hi) as [Hs _]. by rewrite Hdir.
  - by split.
  - unfold dir_attach in Hd. destruct (_ || _) in Hd; [done|]. cbn in Hd. injection Hd as <-.
    split; cbn; rewrite ?insiders_app; change (insiders [_]) with 0%nat; [done|lia|lia|]. apply Forall_app. split; [done|]. by repeat constructor.
  - destruct (sy_workers y !! i) as [w|] eqn:E.
    + assert (is_inside w = false) as Ew by (unfold is_inside; by rewrite (Hi w eq_refl)).
      rewrite <- (take_drop_middle _ _ _ E) in Hl, He, Hw. rewrite insiders_app in Hl, He.
      assert (insiders (w :: drop (S i) (sy_workers y)) = insiders (drop (S i) (sy_workers y))) as Ei.
      { unfold insiders. rewrite filter_cons, decide_False; [done|]. by rewrite Ew. }
      rewrite Ei in Hl, He. apply Forall_app in Hw as [H1 [_ H2]%Forall_cons].
      split; cbn; rewrite ?insiders_app; [done..|]. by apply Forall_app.
    + apply lookup_ge_None in E. assert (take i (sy_workers y) ++ drop (S i) (sy_workers y) = sy_workers y) as E'
        by (rewrite firstn_all2, drop_ge by lia; apply app_nil_r).
      split; cbn; by rewrite ?E'.
Qed.
Lemma reachable_ok count slots y0 y :
  0 ≤ slots < 2 ^ 32 → sys_init count slots = Some y0 → dir_reachable y0 y → sys_ok y.
Proof.
  intros Hs Hi Hr. assert (sys_ok y0) as H0 by (by eapply init_ok). clear Hi. induction Hr as [|y1 y2 y3 H1 _ IH]; [done|].
  apply IH. by eapply step_ok.
Qed.

(** ** Properties *)

(** C27: over every interleaving of claims, releases, heartbeats, observations, lists and
    reloads of any number of processes, forks and exits: the table stays well formed (one
    record per stream, each reachable by its probe sequence), at most one process is between
    taking and giving back the lock, the lock is taken exactly when one is, and every process
    inside a call has a step that brings it nearer the call's end, after at most 100002. *)
Theorem dir_interleaved count slots y0 y :
  0 ≤ slots < 2 ^ 32 → sys_init count slots = Some y0 → dir_reachable y0 y →
  table_ok (sh_slots (sy_shm y)) (sh_records (sy_shm y)) ∧
  sh_lock (sy_shm y) = Z.of_nat (insiders (sy_workers y)) ∧ (insiders (sy_workers y) ≤ 1)%nat ∧
  ∀ i w now, sy_workers y !! i = Some w → wk_phase w ≠ Idle →
    ∃ w' s a, worker_next now w (sy_shm y) = Some (w', s, a) ∧
      0 ≤ steps_left w' < steps_left w ∧ steps_left w ≤ LOCK_TRIES + 2.
Proof.
  intros Hs Hi Hr. pose proof (reachable_ok count slots y0 y Hs Hi Hr) as Hok. split_and!; try apply Hok.
  intros i w now Hw Hne. destruct (next_ok y i w now Hok Hw Hne) as (w' & s & a & E & Hst & _).
  exists w', s, a. split_and!; [done|lia..|]. pose proof (proj1 (Forall_lookup _ _) (yk_workers _ Hok) i w Hw) as [_ Hp].
  unfold phase_ok, steps_left, LOCK_TRIES in *. destruct (wk_phase w); [done|lia|lia].
Qed.

(** C28: what a call answers and does to the map of the owned streams is what the directory
    promises, whatever the others do meanwhile: the map changes only in the step that ends a
    call, in that step as promised, and a claim that gets there names the stream's
    deterministic owner. *)
Theorem dir_refines count slots y0 y i w now w' s a :
  0 ≤ slots < 2 ^ 32 → sys_init count slots = Some y0 → dir_reachable y0 y →
  sy_workers y !! i = Some w → worker_next now w (sy_shm y) = Some (w', s, a) →
  match wk_phase w with
  | Inside o =>
      ∃ a', a = Some a' ∧ wk_phase w' = Idle ∧
        dir_spec (sh_slots s) (wk_pid w) now (di_epoch (wk_dir w) =? sh_epoch (sy_shm y)) o
          (owned (sh_records (sy_shm y))) a' (owned (sh_records s)) ∧
        ∀ hash slot, o = DClaim hash slot → slot = owner_slot hash (di_workers (wk_dir w))
  | _ => owned (sh_records s) = owned (sh_records (sy_shm y))
  end.
Proof.
  intros Hs Hi Hr Hw Hnx. pose proof (reachable_ok count slots y0 y Hs Hi Hr) as Hok.
  assert (wk_phase w ≠ Idle) as Hne by (intros E; unfold worker_next in Hnx; by rewrite E in Hnx).
  destruct (next_ok y i w now Hok Hw Hne) as (w2 & s2 & a2 & E & _ & _ & _ & _ & _ & _ & _ & H).
  pose proof (proj1 (Forall_lookup _ _) (yk_workers _ Hok) i w Hw) as [_ Hp].
  pose proof Hnx as Hnx'. rewrite E in Hnx'. injection Hnx' as -> -> ->. unfold phase_ok in Hp.
  destruct (wk_phase w) as [|o n|o] eqn:Eph; [done|by rewrite H|]. destruct H as (a' & -> & Hsp). exists a'. split; [done|].
  split.
  - unfold worker_next in Hnx. rewrite Eph in Hnx. destruct (dir_body _ _ _ _ _) as [[s3 a3]|]; [|done]. cbn in Hnx.
    injection Hnx as <- _ _. done.
  - split; [done|]. intros hash slot ->. cbn in Hp. destruct (Z.eqb_spec slot (owner_slot hash (di_workers (wk_dir w)))); done.
Qed.

(** A stream whose record is fresh by the clock of the process that acts keeps it through
    every call that is about another stream. *)
Theorem dir_live_record_stays count slots y0 y i w o now w' s a h r :
  0 ≤ slots < 2 ^ 32 → sys_init count slots = Some y0 → dir_reachable y0 y →
  sy_workers y !! i = Some w → wk_phase w = Inside o → worker_next now w (sy_shm y) = Some (w', s, a) →
  match o with DClaim hash _ | DRelease hash _ | DHeartbeat hash _ _ _ _ => hash ≠ h | _ => True end →
  owned (sh_records (sy_shm y)) !! h = Some r → stale now r = false →
  owned (sh_records s) !! h = Some r.
Proof.
  intros Hs Hi Hr Hw Eph Hnx Hh Hm Hst. pose proof (reachable_ok count slots y0 y Hs Hi Hr) as Hok.
  destruct (next_ok y i w now Hok Hw) as (w2 & s2 & a2 & E & _ & _ & _ & _ & _ & _ & _ & H); [by rewrite Eph|].
  rewrite E in Hnx. injection Hnx as -> -> ->. rewrite Eph in H. destruct H as (a' & _ & Hsp).
  set (m := owned (sh_records (sy_shm y))) in *. set (m' := owned (sh_records s)) in *.
  destruct o as [hash slot|hash slot|hash slot g f n|hash|max|c], a' as [yes| |res|l|e ep]; cbn [dir_spec] in Hsp; try done.
  - unfold claim_spec in Hsp. destruct (negb _); [destruct Hsp as [_ ->]; done|]. destruct (m !! hash) as [r'|] eqn:Eh.
    + destruct Hsp as [_ ->]. case_match; [done|]. by rewrite lookup_insert_ne.
    + destruct Hsp as [(_ & m0 & Hm0 & ->) | (_ & -> & _)]; [|done]. rewrite lookup_insert_ne by done.
      destruct Hm0 as [-> | (h2 & r2 & Hr2 & Hst2 & ->)]; [done|]. rewrite lookup_delete_ne; [done|]. intros ->. congruence.
  - rewrite Hsp. case_match; [|done]. case_match; [|done]. by rewrite lookup_delete_ne.
  - rewrite Hsp. case_match; [|done]. case_match; [|done]. by rewrite lookup_insert_ne.
  - by destruct Hsp as [-> _].
  - by destruct Hsp as [-> _].
  - destruct e; [by rewrite Hsp|done..].
Qed.

(** ** Examples *)

(** One worker of two, its slot the owner's of stream 5, about to claim it. *)
Definition ex_worker : worker := mk_worker (mk_dir 4 2 1) 70 (Inside (DClaim 5 1)).
Definition ex_sys : sys :=
  mk_sys (mk_shm DIR_MAGIC 4 2 1 1 0 (replicate 4 orec_zero)) 1 2 [ex_worker].
Lemma ex_sys_reachable : ∃ y0, sys_init 2 4 = Some y0 ∧ dir_reachable y0 ex_sys.
Proof.
  eexists. split; [reflexivity|].
  eapply rtc_l; [eapply (step_fork (mk_dir 4 2 1) 70); reflexivity|].
  eapply rtc_l; [eapply (step_call 0 _ (DClaim 5 1)); reflexivity|].
  eapply rtc_l; [eapply (step_next 0 _ 1000); reflexivity|]. apply rtc_refl.
Qed.

Lemma dir_interleaved_witness :
  ∃ y0, sys_init 2 4 = Some y0 ∧ dir_reachable y0 ex_sys ∧ table_ok 4 (sh_records (sy_shm ex_sys)) ∧
    ∃ w' s a, worker_next 1000 ex_worker (sy_shm ex_sys) = Some (w', s, a).
Proof.
  destruct ex_sys_reachable as (y0 & Hi & Hr). exists y0. split_and!; [done..| |].
  - by destruct (dir_interleaved 2 4 y0 ex_sys ltac:(lia) Hi Hr) as (? & _).
  - destruct (dir_interleaved 2 4 y0 ex_sys ltac:(lia) Hi Hr) as (_ & _ & _ & H).
    destruct (H 0%nat ex_worker 1000 eq_refl ltac:(done)) as (w' & s & a & ? & _). by exists w', s, a.
Defined.
Lemma dir_refines_witness :
  ∃ w' s a, worker_next 1000 ex_worker (sy_shm ex_sys) = Some (w', s, a) ∧ 1 = owner_slot 5 2 ∧
    ∃ a', a = Some a' ∧ dir_spec 4 70 1000 true (DClaim 5 1) ∅ a' (owned (sh_records s)).
Proof.
  destruct ex_sys_reachable as (y0 & Hi & Hr). eexists _, _, _. split; [reflexivity|].
  destruct (dir_refines 2 4 y0 ex_sys 0 ex_worker 1000 _ _ _ ltac:(lia) Hi Hr eq_refl eq_refl) as (a' & Ha & _ & Hsp & Hc).
  split; [exact (Hc 5 1 eq_refl)|]. exists a'. split; [exact Ha|]. exact Hsp.
Defined.

(** Stream 6 has a fresh record when stream 5 is claimed. *)
Definition ex_record : orec := claimed 6 0 70 900.
Definition ex_sys6 : sys :=
  mk_sys (mk_shm DIR_MAGIC 4 2 1 1 0 (<[2%nat := ex_record]> (replicate 4 orec_zero))) 1 2
    [mk_worker (mk_dir 4 2 1) 70 Idle; mk_worker (mk_dir 4 2 1) 71 (Inside (DClaim 5 1))].
Lemma ex_reachable6 : ∃ y0, sys_init 2 4 = Some y0 ∧ dir_reachable y0 ex_sys6.
Proof.
  eexists. split; [reflexivity|].
  eapply rtc_l; [eapply (step_fork (mk_dir 4 2 1) 70); reflexivity|].
  eapply rtc_l; [eapply (step_call 0 _ (DClaim 6 0)); reflexivity|].
  eapply rtc_l; [eapply (step_next 0 _ 900); reflexivity|].
  eapply rtc_l; [eapply (step_next 0 _ 900); reflexivity|].
  eapply rtc_l; [eapply (step_fork (mk_dir 4 2 1) 71); reflexivity|].
  eapply rtc_l; [eapply (step_call 1 _ (DClaim 5 1)); reflexivity|].
  eapply rtc_l; [eapply (step_next 1 _ 1000); reflexivity|]. apply rtc_refl.
Qed.
Lemma dir_live_record_stays_witness :
  ∃ w' s a, worker_next 1000 (mk_worker (mk_dir 4 2 1) 71 (Inside (DClaim 5 1))) (sy_shm ex_sys6) = Some (w', s, a) ∧
    owned (sh_records s) !! 6 = Some ex_record.
Proof.
  destruct ex_reachable6 as (y0 & Hi & Hr). eexists _, _, _. split; [reflexivity|].
  by eapply (dir_live_record_stays 2 4 y0 ex_sys6 1 _ (DClaim 5 1) 1000 _ _ _ 6 ex_record ltac:(lia) Hi Hr eq_refl eq_refl eq_refl).
Defined.

(** A process whose cached clock is behind the owner's takes a fresh record for stale: it does
    not observe it, and a claim for another stream puts it out. *)
Lemma clock_behind :
  let records := <[2%nat := claimed 6 0 70 1000]> (replicate 4 orec_zero) in
  let s := mk_shm DIR_MAGIC 4 2 1 1 0 records in
  let d := mk_dir 4 2 1 in
  dir_observe d 999 6 s = Some None ∧ dir_observe d 1000 6 s = Some (Some (claimed 6 0 70 1000)) ∧
  ∃ s', dir_claim d 71 999 10 0 s = Some (s', true) ∧ owned (sh_records s') !! 6 = None.
Proof. cbv zeta. split_and!; [reflexivity..|]. eexists. split; reflexivity. Qed.
