(* ===== verification/Ipc.v ===== *)
(** * Messages between workers

    Models core/ngx_media_ipc.[ch]: a message is one datagram of a SOCK_SEQPACKET pair, a frame
    is a run of them that the receiver puts together, and the sending side of a connection
    holds video back after a loss.  The socket is the environment's: each [sendmsg] has a
    result, and a datagram sent is delivered whole. *)
From S2P Require Import Prelude Bytes Store.

Definition IPC_VERSION : Z := 4.
Definition MAX_DATAGRAM : Z := 64 * 1024.
Definition HEADER_MAX : Z := 96.
Definition MAX_PAYLOAD : Z := MAX_DATAGRAM - HEADER_MAX.
Definition MAX_FRAME : Z := 4 * 1024 * 1024.
Definition FLAG_MORE : Z := 1.

Record ipc_header := mk_header {
  ih_version : Z; ih_type : Z; ih_flags : Z; ih_length : Z; ih_total : Z; ih_offset : Z;
  ih_hash : Z; ih_incarnation : Z; ih_sequence : Z; ih_pts : Z; ih_dts : Z;
  ih_media_type : Z; ih_codec : Z; ih_payload_format : Z; ih_track_index : Z; ih_keyframe : Z;
  ih_config : Z; ih_source_type : Z; ih_priority : Z; ih_session : Z }.
#[global] Instance eta_header : Eta ipc_header := λ h,
  mk_header (ih_version h) (ih_type h) (ih_flags h) (ih_length h) (ih_total h) (ih_offset h)
    (ih_hash h) (ih_incarnation h) (ih_sequence h) (ih_pts h) (ih_dts h) (ih_media_type h)
    (ih_codec h) (ih_payload_format h) (ih_track_index h) (ih_keyframe h) (ih_config h)
    (ih_source_type h) (ih_priority h) (ih_session h).

(** ** The header in memory

    The members at their offsets on the platforms the code is built for: little-endian, no
    padding between them (the header checks that its size is 96). *)
Fixpoint le (n : nat) (x : Z) : list Z := match n with O => [] | S n => x mod 256 :: le n (x / 256) end.
Fixpoint le_value (l : list Z) : Z := match l with [] => 0 | b :: l => b + 256 * le_value l end.
Definition member (d : list Z) (off n : nat) : Z := le_value (take n (drop off d)).
Definition header_bytes (h : ipc_header) : list Z :=
  le 1 (ih_version h) ++ le 1 (ih_type h) ++ le 2 (ih_flags h) ++ le 4 (ih_length h) ++ le 4 (ih_total h)
  ++ le 4 (ih_offset h) ++ le 8 (ih_hash h) ++ le 8 (ih_incarnation h) ++ le 8 (ih_sequence h)
  ++ le 8 (ih_pts h) ++ le 8 (ih_dts h) ++ le 4 (ih_media_type h) ++ le 4 (ih_codec h)
  ++ le 4 (ih_payload_format h) ++ le 4 (ih_track_index h) ++ le 4 (ih_keyframe h) ++ le 4 (ih_config h)
  ++ le 4 (ih_source_type h) ++ le 4 (ih_priority h) ++ le 8 (ih_session h).
Definition header_of (d : list Z) : ipc_header :=
  mk_header (member d 0 1) (member d 1 1) (member d 2 2) (member d 4 4) (member d 8 4) (member d 12 4)
    (member d 16 8) (member d 24 8) (member d 32 8) (s64 (member d 40 8)) (s64 (member d 48 8))
    (member d 56 4) (member d 60 4) (member d 64 4) (member d 68 4) (member d 72 4) (member d 76 4)
    (member d 80 4) (member d 84 4) (member d 88 8).

(** ** Sending *)

(** [fd] is negative once the endpoint is closed. *)
Record endpoint := mk_endpoint { ep_fd : Z; ep_sent_messages : Z; ep_sent_bytes : Z; ep_dropped : Z }.
#[global] Instance eta_endpoint : Eta endpoint := λ e,
  mk_endpoint (ep_fd e) (ep_sent_messages e) (ep_sent_bytes e) (ep_dropped e).

Definition endpoint_new (allocated : bool) (fd : Z) : option endpoint :=
  if allocated then Some (mk_endpoint fd 0 0 0) else None.
(** [fds] is what [socketpair] gives; the answer comes with the descriptors closed. *)
Definition ipc_pair_create (fds : option (Z * Z)) (allocated : bool * bool) : rc * option (endpoint * endpoint) * list Z :=
  match fds with
  | None => (NGX_ERROR, None, [])
  | Some (fd0, fd1) =>
      match endpoint_new allocated.1 fd0, endpoint_new allocated.2 fd1 with
      | Some a, Some b => (NGX_OK, Some (a, b), [])
      | _, _ => (NGX_ERROR, None, [fd0; fd1])
      end
  end.
Definition ipc_adopt (fd : Z) (allocated : bool) : rc * option endpoint :=
  if fd <? 0 then (NGX_ERROR, None)
  else match endpoint_new allocated fd with None => (NGX_ERROR, None) | Some e => (NGX_OK, Some e) end.
Definition ipc_fd (e : option endpoint) : Z := match e with None => -1 | Some e => ep_fd e end.
(** The descriptors closed. *)
Definition ipc_close (e : option endpoint) : list Z :=
  match e with None => [] | Some e => if 0 <=? ep_fd e then [ep_fd e] else [] end.

(** What [sendmsg] answers: the datagram is sent; EAGAIN, EWOULDBLOCK or ENOBUFS; EINTR; any
    other error. *)
Inductive sendmsg_result := Sent | SendFull | SendIntr | SendError.
Definition ipc_write (r : sendmsg_result) (e : endpoint) (datagram : list Z) : rc * endpoint * list (list Z) :=
  match r with
  | Sent => (NGX_OK, e <| ep_sent_messages ::= λ n, n ⊕ 1 |> <| ep_sent_bytes ::= λ n, n ⊕ lenZ datagram |>, [datagram])
  | SendFull => (NGX_AGAIN, e <| ep_dropped ::= λ n, n ⊕ 1 |>, [])
  | SendIntr => (NGX_AGAIN, e, [])
  | SendError => (NGX_ERROR, e, [])
  end.

Definition ipc_chunk_header (h : ipc_header) (pos n length : Z) : ipc_header :=
  h <| ih_length := u32 n |> <| ih_total := u32 length |> <| ih_offset := u32 pos |>
    <| ih_flags := if pos + n <? length then u16 (Z.lor (ih_flags h) FLAG_MORE)
                   else u16 (Z.land (ih_flags h) (Z.lnot FLAG_MORE)) |>.

(** The payload from [pos] on, a chunk at a time; [results k] is what the [k]th [sendmsg]
    answers. *)
Fixpoint send_loop (fuel : nat) (results : nat → sendmsg_result) (k : nat) (h : ipc_header) (buf : N) (offset length pos : Z)
    (e : endpoint) (out : list (list Z)) : M (rc * endpoint * list (list Z)) :=
  if negb (pos <? length) then mret (NGX_OK, e, out)
  else
    match fuel with
    | O => ub
    | S fuel =>
        let n := Z.min (length - pos) MAX_PAYLOAD in
        bytes ← buf_read buf (offset + pos + n);
        let data := drop (Z.to_nat (offset + pos)) bytes in
        let '(r, e, sent) := ipc_write (results k) e (header_bytes (ipc_chunk_header h pos n length) ++ data) in
        if negb (bool_decide (r = NGX_OK)) then mret (NGX_AGAIN, e, out)
        else send_loop fuel results (S k) h buf offset length (pos + n) e (out ++ sent)
    end.
(** The answer comes with the endpoint and the datagrams sent. *)
Definition ipc_send (results : nat → sendmsg_result) (e : option endpoint) (h : option ipc_header) (payload : option N)
    (offset length : Z) : M (rc * option endpoint * list (list Z)) :=
  match e, h with
  | Some ep, Some h =>
      if ep_fd ep <? 0 then mret (NGX_ERROR, e, [])
      else
        if length =? 0 then
          let '(r, ep, sent) := ipc_write (results 0%nat) ep (header_bytes h) in mret (r, Some ep, sent)
        else
          match payload with
          | None => mret (NGX_ERROR, e, [])
          | Some buf =>
              size ← buf_size (Some buf);
              if size <? offset ⊕ length then mret (NGX_ERROR, e, [])
              else
                '(r, ep, sent) ← send_loop (S (Z.to_nat (length / MAX_PAYLOAD))) results 0 h buf offset length 0 ep [];
                mret (r, Some ep, sent)
          end
  | _, _ => mret (NGX_ERROR, e, [])
  end.
Definition ipc_send_header (r : sendmsg_result) (e : option endpoint) (h : option ipc_header) : rc * option endpoint * list (list Z) :=
  match e, h with
  | Some ep, Some h =>
      if ep_fd ep <? 0 then (NGX_ERROR, e, [])
      else let '(r, ep, sent) := ipc_write r ep (header_bytes h) in (r, Some ep, sent)
  | _, _ => (NGX_ERROR, e, [])
  end.

(** ** Receiving *)

Record message := mk_message { ms_header : ipc_header; ms_payload : option N; ms_offset : Z; ms_length : Z }.
(** What [recv] answers: nothing pending, interrupted, another error, or a datagram's bytes
    (none when the peer closed). *)
Inductive recv_result := RecvAgain | RecvIntr | RecvError | RecvData (d : list Z).
Definition header_zero : ipc_header := mk_header 0 0 0 0 0 0 0 0 0 0 0 0 0 0 0 0 0 0 0 0.
Definition message_zero : message := mk_message header_zero None 0 0.

(** The bytes received, at most as many as the buffer holds. *)
Definition recv_datagram (buf : list Z) : M (rc * message) :=
  let n := lenZ buf in
  if n =? 0 then mret (NGX_ERROR, message_zero)
  else if n <? HEADER_MAX then mret (NGX_DECLINED, message_zero)
  else
    let h := header_of buf in
    if negb (ih_version h =? IPC_VERSION) || (MAX_PAYLOAD <? ih_length h) || negb (n =? HEADER_MAX + ih_length h)
    then mret (NGX_DECLINED, message_zero)
    else
      let m := mk_message h None 0 (ih_length h) in
      if 0 <? ih_length h then
        p ← buf_alloc (ih_length h);
        match p with
        | None => mret (NGX_DECLINED, m)
        | Some id =>
            _ ← buf_write id 0 (take (Z.to_nat (ih_length h)) (drop (Z.to_nat HEADER_MAX) buf));
            _ ← buf_freeze (Some id) (ih_length h);
            mret (NGX_OK, mk_message h (Some id) 0 (ih_length h))
        end
      else mret (NGX_OK, m).
Definition ipc_recv (r : recv_result) (e : option endpoint) : M (rc * message) :=
  match e with
  | None => mret (NGX_ERROR, message_zero)
  | Some ep =>
      if ep_fd ep <? 0 then mret (NGX_ERROR, message_zero)
      else
        match r with
        | RecvAgain | RecvIntr => mret (NGX_AGAIN, message_zero)
        | RecvError => mret (NGX_ERROR, message_zero)
        | RecvData d => recv_datagram (take (Z.to_nat MAX_DATAGRAM) d)
        end
  end.
Definition message_release (m : message) : M message :=
  match ms_payload m with
  | None => mret m
  | Some id => _ ← buf_unref (Some id); mret (mk_message (ms_header m) None (ms_offset m) (ms_length m))
  end.

(** ** Putting frames together *)

Record ipc_frame := mk_ipc_frame {
  if_header : ipc_header; if_payload : option N; if_capacity : Z; if_received : Z; if_active : bool; if_restarts : Z }.
#[global] Instance eta_ipc_frame : Eta ipc_frame := λ f,
  mk_ipc_frame (if_header f) (if_payload f) (if_capacity f) (if_received f) (if_active f) (if_restarts f).
Definition ipc_frame_zero : ipc_frame := mk_ipc_frame header_zero None 0 0 false 0.

Definition frame_reset (f : ipc_frame) : M ipc_frame :=
  _ ← buf_unref (if_payload f);
  mret (f <| if_payload := None |> <| if_capacity := 0 |> <| if_received := 0 |> <| if_active := false |>).
(** Dropped with its buffer. *)
Definition frame_fail (f : ipc_frame) : M (rc * ipc_frame) := f ← frame_reset f; mret (NGX_ERROR, f).

(** The members every chunk of a frame shares. *)
Definition same_frame (a b : ipc_header) : bool :=
  (ih_hash a =? ih_hash b) && (ih_incarnation a =? ih_incarnation b) && (ih_session a =? ih_session b)
  && (ih_sequence a =? ih_sequence b) && (ih_total a =? ih_total b) && (ih_type a =? ih_type b)
  && (ih_pts a =? ih_pts b) && (ih_dts a =? ih_dts b) && (ih_media_type a =? ih_media_type b)
  && (ih_codec a =? ih_codec b) && (ih_payload_format a =? ih_payload_format b)
  && (ih_track_index a =? ih_track_index b) && (ih_keyframe a =? ih_keyframe b) && (ih_config a =? ih_config b).

(** The frame a first chunk opens, or none. *)
Definition frame_open (m : message) (f : ipc_frame) : M (option ipc_frame) :=
  if if_active f then mret (Some f)
  else if negb (ih_offset (ms_header m) =? 0) then mret None
  else if (ih_total (ms_header m) =? 0) || (MAX_FRAME <? ih_total (ms_header m)) then mret None
  else
    p ← buf_alloc (ih_total (ms_header m));
    match p with
    | None => mret None
    | Some id => mret (Some (mk_ipc_frame (ms_header m) (Some id) (ih_total (ms_header m)) 0 true (if_restarts f)))
    end.
(** A chunk that belongs to the open frame. *)
Definition frame_add (m : message) (f : ipc_frame) : M (rc * ipc_frame) :=
  if negb (same_frame (ms_header m) (if_header f)) then frame_fail f
  else if negb (ih_offset (ms_header m) =? if_received f) || (if_capacity f <? if_received f ⊕ ms_length m) then frame_fail f
  else
    _ ← (if 0 <? ms_length m then
           match if_payload f, ms_payload m with
           | Some id, Some src => bytes ← buf_read src (ms_length m); buf_write id (if_received f) bytes
           | _, _ => ub
           end
         else mret tt);
    let f := f <| if_received ::= λ n, n ⊕ ms_length m |> in
    if negb (Z.land (ih_flags (ms_header m)) FLAG_MORE =? 0) then mret (NGX_AGAIN, f)
    else if negb (if_received f =? if_capacity f) then frame_fail f
    else _ ← buf_freeze (if_payload f) (if_capacity f); mret (NGX_OK, f).
Definition frame_feed (m : message) (f : ipc_frame) : M (rc * ipc_frame) :=
  f ← (if if_active f && (ih_offset (ms_header m) =? 0)
       then f ← frame_reset f; mret (f <| if_restarts ::= λ n, n ⊕ 1 |>)
       else mret f);
  o ← frame_open m f;
  match o with
  | None => mret (NGX_ERROR, f)
  | Some f => frame_add m f
  end.

(** ** Holding video back *)

Record flow := mk_flow { fl_sequence : Z; fl_dropped : Z; fl_resyncs : Z; fl_resync : bool }.
#[global] Instance eta_flow : Eta flow := λ f, mk_flow (fl_sequence f) (fl_dropped f) (fl_resyncs f) (fl_resync f).
Definition flow_zero : flow := mk_flow 0 0 0 false.
Definition flow_admit (f : flow) (video keyframe config : bool) : bool * flow :=
  if fl_resync f && video && negb keyframe && negb config
  then (false, f <| fl_dropped ::= λ n, n ⊕ 1 |> <| fl_sequence ::= λ n, n ⊕ 1 |>)
  else (true, f).
Definition flow_sent (f : flow) (video keyframe config : bool) (r : rc) : flow :=
  let f := f <| fl_sequence ::= λ n, n ⊕ 1 |> in
  if negb (bool_decide (r = NGX_OK)) then
    (if negb (fl_resync f) then f <| fl_resyncs ::= λ n, n ⊕ 1 |> else f) <| fl_resync := true |>
  else if video && keyframe && negb config then f <| fl_resync := false |> else f.

(** ** Headers read back *)

Record header_ok (h : ipc_header) : Prop := {
  ho_version : 0 ≤ ih_version h < 2 ^ 8; ho_type : 0 ≤ ih_type h < 2 ^ 8; ho_flags : 0 ≤ ih_flags h < 2 ^ 16;
  ho_length : 0 ≤ ih_length h < 2 ^ 32; ho_total : 0 ≤ ih_total h < 2 ^ 32; ho_offset : 0 ≤ ih_offset h < 2 ^ 32;
  ho_hash : is_u64 (ih_hash h); ho_incarnation : is_u64 (ih_incarnation h); ho_sequence : is_u64 (ih_sequence h);
  ho_pts : is_s64 (ih_pts h); ho_dts : is_s64 (ih_dts h);
  ho_media_type : 0 ≤ ih_media_type h < 2 ^ 32; ho_codec : 0 ≤ ih_codec h < 2 ^ 32;
  ho_payload_format : 0 ≤ ih_payload_format h < 2 ^ 32; ho_track_index : 0 ≤ ih_track_index h < 2 ^ 32;
  ho_keyframe : 0 ≤ ih_keyframe h < 2 ^ 32; ho_config : 0 ≤ ih_config h < 2 ^ 32;
  ho_source_type : 0 ≤ ih_source_type h < 2 ^ 32; ho_priority : 0 ≤ ih_priority h < 2 ^ 32;
  ho_session : is_u64 (ih_session h) }.

Lemma le_length n x : length (le n x) = n.
Proof. revert x. induction n as [|n IH]; intros x; [done|]. cbn. by rewrite IH. Qed.
Lemma le_value_le n : ∀ x, le_value (le n x) = x mod 256 ^ Z.of_nat n.
Proof.
  induction n as [|n IH]; intros x; [by rewrite Z.mod_1_r|]. cbn [le le_value]. rewrite IH.
  rewrite Nat2Z.inj_succ, Z.pow_succ_r by lia. rewrite Z.rem_mul_r by lia. lia.
Qed.
Lemma ipc_member_at a l b off n : off = length a → n = length l → member (a ++ l ++ b) off n = le_value l.
Proof. intros -> ->. unfold member. by rewrite drop_app_length, take_app_length. Qed.
Lemma header_length h : lenZ (header_bytes h) = HEADER_MAX.
Proof. unfold lenZ, header_bytes. rewrite !length_app, !le_length. done. Qed.

Lemma member_le n x d : member (le n x ++ d) 0 n = x mod 256 ^ Z.of_nat n.
Proof. rewrite (ipc_member_at [] (le n x) d) by (by rewrite ?le_length). apply le_value_le. Qed.
Lemma s64_wrap x : is_s64 x → s64 (x mod 2 ^ 64) = x.
Proof.
  unfold s64, is_s64. intros Hx. rewrite Zplus_mod_idemp_l, Z.mod_small by lia. lia.
Qed.
Lemma member_skip l d off n : (length l ≤ off)%nat → member (l ++ d) off n = member d (off - length l) n.
Proof. intros H. unfold member. by rewrite drop_app_ge. Qed.
Lemma header_of_bytes h d : header_ok h → header_of (header_bytes h ++ d) = h.
Proof.
  intros H. destruct H. destruct h; cbn [ih_version ih_type ih_flags ih_length ih_total ih_offset ih_hash ih_incarnation ih_sequence
    ih_pts ih_dts ih_media_type ih_codec ih_payload_format ih_track_index ih_keyframe ih_config ih_source_type ih_priority ih_session] in *.
  unfold header_of, header_bytes. rewrite <- !app_assoc.
  cbn [ih_version ih_type ih_flags ih_length ih_total ih_offset ih_hash ih_incarnation ih_sequence
    ih_pts ih_dts ih_media_type ih_codec ih_payload_format ih_track_index ih_keyframe ih_config ih_source_type ih_priority ih_session].
  f_equal; try (rewrite !member_skip by (rewrite le_length; cbn; lia); rewrite ?le_length; cbn [Nat.sub]);
    rewrite member_le; first [by apply Z.mod_small|by apply (s64_wrap _)].
Qed.

(** ** Buffers held once *)

(** Nothing that existed changes but the buffers [X]. *)
Record spared (X : list N) (s s' : store) : Prop := {
  ot_alloc : st_alloc s' = st_alloc s;
  ot_next : (st_next s ≤ st_next s')%N;
  ot_same i : i ∉ X → (i < st_next s)%N → st_bufs s' !! i = st_bufs s !! i }.
Lemma others_refl X s : spared X s s.
Proof. by split. Qed.
Lemma others_trans X s1 s2 s3 : spared X s1 s2 → spared X s2 s3 → spared X s1 s3.
Proof. intros [A1 N1 S1] [A2 N2 S2]. split; [congruence|lia|]. intros i Hi Hlt. rewrite S2, S1 by (done || lia). done. Qed.
Lemma others_mono X Y s s' : X ⊆ Y → spared X s s' → spared Y s s'.
Proof. intros HXY [A1 N1 S1]. split; [done..|]. intros i Hi. apply S1. set_solver. Qed.
(** A buffer born since may change too. *)
Lemma others_young X s s1 s2 id : spared X s s1 → (st_next s ≤ id)%N → spared [id] s1 s2 → spared X s s2.
Proof.
  intros [A1 N1 S1] Hid [A2 N2 S2]. split; [congruence|lia|]. intros i Hi Hlt. rewrite S2, S1; [done|done|done| |lia].
  intros ->%list_elem_of_singleton. lia.
Qed.
Lemma wp_alloc_mine cap L s :
  owns s L → 0 ≤ cap < 2 ^ 32 →
  wp (buf_alloc cap) (λ p s', spared [] s s' ∧
    match p with
    | Some id => owns s' (id :: L) ∧ st_bufs s' !! id = Some (mk_buf 1 0 cap []) ∧ (st_next s ≤ id)%N
    | None => owns s' L ∧ ¬ no_refusal s
    end) s.
Proof.
  intros Ho Hc. pose proof (wp_buf_alloc cap L s Ho ltac:(lia)) as Hwp.
  assert (∃ p s', buf_alloc cap s = Some (p, s') ∧ spared [] s s' ∧ (p = None → ¬ no_refusal s)) as (p & s' & E & Hot & Hn).
  { unfold buf_alloc. rewrite (proj2 (Z.leb_gt _ _)) by (unfold buf_header; lia). unfold mbind, SM_bind, ngx_alloc.
    rewrite (proj2 (Z.ltb_lt _ _)) by (unfold buf_header; lia). cbn [andb].
    destruct (st_alloc s (st_next s) (buf_header + cap)) eqn:Ea.
    - eexists _, _. split; [reflexivity|]. split; [|done]. split; cbn; [done|lia|]. intros i _ Hi. by rewrite lookup_insert_ne by lia.
    - eexists _, _. split; [reflexivity|]. split; [split; cbn; [done|lia|done]|]. intros _ Hall. by rewrite Hall in Ea. }
  pose proof (wp_run _ _ _ _ _ Hwp E) as (Ho' & _ & Hid). exists p, s'. split; [done|]. split; [done|]. destruct p as [id|].
  - destruct (Hid id eq_refl). split_and!; done.
  - split; [exact Ho'|by apply Hn].
Qed.

Lemma wp_write_mine id off n cap data src L s :
  owns s L → st_bufs s !! id = Some (mk_buf 1 n cap data) → off = lenZ data → off + lenZ src ≤ cap →
  wp (buf_write id off src) (λ _ s', owns s' L ∧ spared [id] s s' ∧
    st_bufs s' !! id = Some (mk_buf 1 n cap (data ++ src))) s.
Proof.
  intros Ho Hb -> Hc. pose proof (lenZ_nonneg data). eapply wp_buf_write; [exact Hb|cbn; lia|exact Hc|]. cbn [b_data].
  assert (take (Z.to_nat (lenZ data)) data ++ src ++ drop (Z.to_nat (lenZ data) + length src) data = data ++ src) as ->.
  { unfold lenZ. rewrite Nat2Z.id, firstn_all, drop_ge by lia. by rewrite app_nil_r. }
  split_and!.
  - eapply owns_set_data; [exact Ho|exact Hb|]. rewrite lenZ_app. exact Hc.
  - split; cbn; [done|lia|]. intros i Hi _. apply lookup_alter_ne. intros ->. apply Hi. by left.
  - by rewrite (set_data_lookup _ _ _ _ Hb).
Qed.
Lemma wp_freeze_mine id n len cap data L s :
  owns s L → st_bufs s !! id = Some (mk_buf 1 n cap data) → 0 ≤ len ≤ cap →
  wp (buf_freeze (Some id) len) (λ r s', r = NGX_OK ∧ owns s' L ∧ spared [id] s s' ∧
    st_bufs s' !! id = Some (mk_buf 1 len cap data)) s.
Proof.
  intros Ho Hb Hl. eapply wp_buf_freeze; [exact Hb|cbn; lia|]. cbn. split_and!; [done| | |by rewrite lookup_insert_eq].
  - eapply owns_update; [exact Ho|exact Hb|done|done|cbn; lia|].
    pose proof (wf_buf _ (owns_wf _ _ Ho) _ _ Hb) as (_ & _ & _ & ?). done.
  - split; cbn; [done|lia|]. intros i Hi _. apply lookup_insert_ne. intros ->. apply Hi. by left.
Qed.
Lemma wp_unref_mine id b L s :
  owns s (id :: L) → st_bufs s !! id = Some b →
  wp (buf_unref (Some id)) (λ _ s', owns s' L ∧ spared [id] s s' ∧
    (b_refs b ≠ 1 → st_bufs s' !! id = Some (mk_buf (b_refs b - 1) (b_len b) (b_cap b) (b_data b)))) s.
Proof.
  intros Ho Hb. pose proof (wp_buf_unref (Some id) L s Ho) as Hwp.
  assert (∃ s', buf_unref (Some id) s = Some (tt, s') ∧ spared [id] s s' ∧
    (b_refs b ≠ 1 → st_bufs s' !! id = Some (mk_buf (b_refs b - 1) (b_len b) (b_cap b) (b_data b)))) as (s' & E & Hot & Hr).
  { unfold buf_unref, mbind, SM_bind, deref. rewrite Hb. destruct (Z.eqb_spec (b_refs b) 1) as [Hr|Hr].
    - eexists. split; [reflexivity|]. split; [|done]. split; cbn; [done|lia|]. intros i Hi _. apply lookup_delete_ne.
      intros ->. apply Hi. by left.
    - eexists. split; [reflexivity|]. split; [|by cbn; rewrite lookup_insert_eq]. split; cbn; [done|lia|]. intros i Hi _.
      apply lookup_insert_ne. intros ->. apply Hi. by left. }
  pose proof (wp_run _ _ _ _ _ Hwp E) as [Ho' _]. by exists tt, s'.
Qed.
Lemma wp_ref_mine id b L s :
  owns s (id :: L) → st_bufs s !! id = Some b →
  wp (buf_ref (Some id)) (λ r s', r = Some id ∧ owns s' (id :: id :: L) ∧ spared [id] s s' ∧
    st_bufs s' !! id = Some (mk_buf (b_refs b + 1) (b_len b) (b_cap b) (b_data b))) s.
Proof.
  intros Ho Hb. pose proof (wp_buf_ref id (id :: L) s Ho ltac:(by left)) as Hwp.
  assert (∃ s', buf_ref (Some id) s = Some (Some id, s') ∧ spared [id] s s' ∧
    st_bufs s' !! id = Some (mk_buf (b_refs b + 1) (b_len b) (b_cap b) (b_data b))) as (s' & E & Hot & Hr).
  { unfold buf_ref, mbind, SM_bind, deref. rewrite Hb. eexists. split; [reflexivity|]. split; [|by cbn; rewrite lookup_insert_eq].
    split; cbn; [done|lia|]. intros i Hi _. apply lookup_insert_ne. intros ->. apply Hi. by left. }
  pose proof (wp_run _ _ _ _ _ Hwp E) as (_ & Ho' & _). by exists (Some id), s'.
Qed.

(** ** The receiver as a function

    What a datagram does to the frame being put together - its first header and the bytes so
    far - when [a] and [b] say that the two allocations succeed. *)
Definition aframe : Type := option (ipc_header * list Z).
Definition datagram_pure (a : bool) (buf : list Z) : option (ipc_header * list Z) :=
  if lenZ buf <? HEADER_MAX then None
  else
    let h := header_of buf in
    if negb (ih_version h =? IPC_VERSION) || (MAX_PAYLOAD <? ih_length h) || negb (lenZ buf =? HEADER_MAX + ih_length h)
       || (ih_length h =? 0) || negb a
    then None else Some (h, drop (Z.to_nat HEADER_MAX) buf).
Definition recv_pure (a : bool) (d : list Z) : option (ipc_header * list Z) :=
  datagram_pure a (take (Z.to_nat MAX_DATAGRAM) d).
Definition open_pure (b : bool) (h : ipc_header) (f : aframe) : aframe :=
  match f with
  | Some f => Some f
  | None =>
      if negb (ih_offset h =? 0) || (ih_total h =? 0) || (MAX_FRAME <? ih_total h) || negb b then None else Some (h, [])
  end.
Definition add_pure (h : ipc_header) (data : list Z) (f : ipc_header * list Z) : option (list Z) * aframe :=
  let '(h0, got) := f in
  if negb (same_frame h h0) || negb (ih_offset h =? lenZ got) || (ih_total h0 <? lenZ got + lenZ data) then (None, None)
  else if negb (Z.land (ih_flags h) FLAG_MORE =? 0) then (None, Some (h0, got ++ data))
  else if lenZ (got ++ data) =? ih_total h0 then (Some (got ++ data), None) else (None, None).
Definition feed_pure (b : bool) (h : ipc_header) (data : list Z) (f : aframe) : option (list Z) * aframe :=
  match open_pure b h (if ih_offset h =? 0 then None else f) with
  | None => (None, None)
  | Some f => add_pure h data f
  end.
Definition take_pure (b : bool) (m : option (ipc_header * list Z)) (f : aframe) : option (ipc_header * list Z) * aframe :=
  match m with
  | None => (None, f)
  | Some (h, data) => let '(o, f) := feed_pure b h data f in ((λ got, (h, got)) <$> o, f)
  end.
Definition deliver_pure (a b : bool) (d : list Z) (f : aframe) : option (ipc_header * list Z) * aframe :=
  take_pure b (recv_pure a d) f.

(** A worker takes a message: feeds the frame with it, takes a finished frame's payload over and
    releases the message. *)
Definition take_message (r : rc) (m : message) (f : ipc_frame) : M (option (ipc_header * option N) * ipc_frame) :=
  match r, ms_payload m with
  | NGX_OK, Some _ =>
      '(r, f) ← frame_feed m f;
      '(o, f) ← (if bool_decide (r = NGX_OK)
                 then p ← buf_ref (if_payload f); f ← frame_reset f; mret (Some (ms_header m, p), f)
                 else mret (None, f));
      _ ← message_release m;
      mret (o, f)
  | _, _ => _ ← message_release m; mret (None, f)
  end.
(** A datagram arrives for the frame [f] of an open slot.  Before [frame_feed] the runtime finds
    that slot by the header's hash, incarnation and session and leaves a source alone that is
    being removed; it also answers OPEN and ACCEPT messages.  None of that is modelled: what
    is fed here is what passed it. *)
Definition deliver (e : option endpoint) (d : list Z) (f : ipc_frame) : M (option (ipc_header * option N) * ipc_frame) :=
  '(r, m) ← ipc_recv (RecvData d) e;
  take_message r m f.

(** ** The receiver implements the function *)

#[global] Instance owner_ipc_frame : Owner ipc_frame := λ f, option_list (if_payload f).

(** The frame put together so far is [A], in a buffer of its own. *)
Definition frame_is (s : store) (f : ipc_frame) (L : list N) (A : aframe) : Prop :=
  match A with
  | None => if_active f = false ∧ if_payload f = None
  | Some (h, got) =>
      if_active f = true ∧ if_header f = h ∧ if_capacity f = ih_total h ∧ if_received f = lenZ got ∧
      0 < ih_total h ≤ MAX_FRAME ∧ lenZ got ≤ ih_total h ∧
      ∃ id, if_payload f = Some id ∧ id ∉ L ∧ st_bufs s !! id = Some (mk_buf 1 0 (ih_total h) got)
  end.
Definition frame_st (s : store) (f : ipc_frame) (L : list N) (A : aframe) : Prop :=
  owns s (holds f ++ L) ∧ frame_is s f L A.

Lemma wp_frame_reset s f L id b :
  owns s (id :: L) → if_payload f = Some id → st_bufs s !! id = Some b →
  wp (frame_reset f) (λ f' s', owns s' L ∧ spared [id] s s' ∧ if_active f' = false ∧ if_payload f' = None ∧
    (b_refs b ≠ 1 → st_bufs s' !! id = Some (mk_buf (b_refs b - 1) (b_len b) (b_cap b) (b_data b)))) s.
Proof.
  intros Ho Hp Hb. unfold frame_reset. rewrite Hp. apply wp_bind.
  eapply wp_mono; [by eapply wp_unref_mine|]. intros [] s' (Ho' & Hot & Hr). apply wp_ret. by split_and!.
Qed.
Lemma wp_reset_st s f L A :
  frame_st s f L A →
  wp (frame_reset f) (λ f' s', frame_st s' f' L None ∧ spared (holds f) s s') s.
Proof.
  intros [Ho Hf]. destruct A as [[h got]|]; cbn [frame_is] in Hf.
  - destruct Hf as (_ & _ & _ & _ & _ & _ & id & Hp & Hid & Hb).
    assert (holds f = [id]) as Hh by (unfold holds, owner_ipc_frame; by rewrite Hp). rewrite Hh in *. cbn in Ho.
    eapply wp_mono; [by eapply wp_frame_reset|]. intros f' s' (Ho' & Hot & Ha & Hp' & _). split; [|done].
    split; [|done]. unfold holds, owner_ipc_frame. by rewrite Hp'.
  - destruct Hf as [Ha Hp]. unfold frame_reset. rewrite Hp. apply wp_ret.
    assert (holds f = []) as Hh by (unfold holds, owner_ipc_frame; by rewrite Hp). rewrite Hh in *.
    split; [split; [exact Ho|done]|apply others_refl].
Qed.

Lemma wp_open_st s f L A m :
  frame_st s f L A → 0 ≤ ih_total (ms_header m) →
  wp (frame_open m f) (λ o s', ∃ b, (no_refusal s → b = true) ∧ spared [] s s' ∧
    match open_pure b (ms_header m) A with
    | None => o = None ∧ frame_st s' f L None
    | Some A' => ∃ f', o = Some f' ∧ frame_st s' f' L (Some A')
    end) s.
Proof.
  intros [Ho Hf] Ht. unfold frame_open. destruct A as [[h got]|]; cbn [frame_is open_pure] in *.
  { pose proof Hf as (-> & _). apply wp_ret. exists true. split; [done|]. split; [apply others_refl|]. by exists f. }
  pose proof Hf as [-> Hp]. destruct (Z.eqb_spec (ih_offset (ms_header m)) 0) as [Eo|Eo]; cbn [negb orb].
  2: { apply wp_ret. exists true. split; [done|]. split; [apply others_refl|]. by split. }
  destruct (Z.eqb_spec (ih_total (ms_header m)) 0) as [E0|E0]; cbn [orb].
  { apply wp_ret. exists true. split; [done|]. split; [apply others_refl|]. by split. }
  destruct (Z.ltb_spec MAX_FRAME (ih_total (ms_header m))) as [Em|Em]; cbn [orb].
  { apply wp_ret. exists true. split; [done|]. split; [apply others_refl|]. by split. }
  apply wp_bind. eapply wp_mono; [eapply wp_alloc_mine; [exact Ho|unfold MAX_FRAME in Em; lia]|].
  assert (holds f = []) as Hh by (unfold holds, owner_ipc_frame; by rewrite Hp). rewrite Hh in *. cbn [app] in *.
  intros [id|] s' [Hot H]; apply wp_ret.
  - destruct H as (Ho' & Hb & Hid). exists true. split; [done|]. split; [done|]. cbn [negb]. eexists. split; [reflexivity|].
    split; [exact Ho'|]. cbn. split_and!; try done; [lia|]. exists id. split_and!; [done| |done].
    intros Hin. destruct (owns_in _ _ id Ho Hin) as [b Hb']. apply (wf_next _ (owns_wf _ _ Ho)) in Hb'. lia.
  - destruct H as [Ho' Hn]. exists false. split; [intros Ha; by destruct Hn|]. split; [done|]. cbn [negb]. split; [done|].
    split; [|done]. by rewrite Hh.
Qed.

Lemma wp_add_st s f L h0 got m src data :
  frame_st s f L (Some (h0, got)) → src ∈ L → data ≠ [] → lenZ data < 2 ^ 32 →
  ms_payload m = Some src → ms_length m = lenZ data →
  st_bufs s !! src = Some (mk_buf 1 (lenZ data) (lenZ data) data) →
  wp (frame_add m f) (λ r s', spared (holds f) s s' ∧
    match add_pure (ms_header m) data (h0, got) with
    | (Some all, _) => r.1 = NGX_OK ∧ ∃ id, if_payload r.2 = Some id ∧ holds f = [id] ∧ owns s' (id :: L) ∧
        st_bufs s' !! id = Some (mk_buf 1 (lenZ all) (lenZ all) all)
    | (None, A') => r.1 ≠ NGX_OK ∧ frame_st s' r.2 L A'
    end) s.
Proof.
  intros Hst Hsrc Hne Hlen Hp Hm Hb. pose proof Hst as [Ho Hf]. cbn [frame_is] in Hf.
  destruct Hf as (Hact & Hh & Hcap & Hrec & Htot & Hgot & id & Hpf & Hid & Hbf).
  assert (holds f = [id]) as Eh by (unfold holds, owner_ipc_frame; by rewrite Hpf).
  assert (∀ f', holds f' = holds f → frame_st s f' L (Some (h0, got)) → wp (frame_fail f') (λ r s', spared (holds f) s s' ∧ r.1 ≠ NGX_OK ∧ frame_st s' r.2 L None) s) as Hfail.
  { intros f' E Hst'. unfold frame_fail. apply wp_bind. eapply wp_mono; [by apply (wp_reset_st s f' L (Some (h0, got)))|].
    intros f2 s' [Hst2 Hot]. apply wp_ret. rewrite E in Hot. by split_and!. }
  unfold frame_add, add_pure. rewrite Hh, Hrec, Hcap, Hm. pose proof (lenZ_nonneg got) as Hg0. pose proof (lenZ_nonneg data) as Hd0.
  unfold MAX_FRAME in Htot.
  destruct (same_frame (ms_header m) h0); cbn [negb orb]; [|by apply Hfail].
  destruct (Z.eqb_spec (ih_offset (ms_header m)) (lenZ got)); cbn [negb orb]; [|by apply Hfail].
  rewrite u64_small by lia. destruct (Z.ltb_spec (ih_total h0) (lenZ got + lenZ data)); [by apply Hfail|].
  assert (0 < lenZ data) as Hpos by (destruct data; [done|unfold lenZ; cbn; lia]).
  rewrite (proj2 (Z.ltb_lt _ _) Hpos), Hpf, Hp. rewrite Eh in *.
  apply wp_bind, wp_bind. eexists _, _. split.
  { unfold buf_read, mbind, SM_bind, deref. rewrite Hb. cbn [b_data]. fold (lenZ data). rewrite Z.leb_refl.
    unfold lenZ. rewrite Nat2Z.id, firstn_all. reflexivity. }
  eapply wp_mono; [eapply (wp_write_mine id (lenZ got) 0 (ih_total h0) got data); [exact Ho|exact Hbf|done|lia]|].
  intros [] s1 (Ho1 & Hot1 & Hb1). cbv zeta.
  change (if_received (f <| if_received ::= λ n, n ⊕ lenZ data |>)) with (if_received f ⊕ lenZ data).
  change (if_capacity (f <| if_received ::= λ n, n ⊕ lenZ data |>)) with (if_capacity f).
  change (if_payload (f <| if_received ::= λ n, n ⊕ lenZ data |>)) with (if_payload f).
  rewrite Hrec, Hcap, Hpf, u64_small, lenZ_app by lia.
  assert (frame_st s1 (f <| if_received ::= λ n, n ⊕ lenZ data |>) L (Some (h0, got ++ data))) as Hst1.
  { split; [unfold holds, owner_ipc_frame in *; cbn; by rewrite Hpf|]. cbn. rewrite Hrec, u64_small, lenZ_app by lia. unfold MAX_FRAME.
    split_and!; try done; try lia. exists id. by split_and!. }
  destruct (Z.land (ih_flags (ms_header m)) FLAG_MORE =? 0); cbn [negb]; [|apply wp_ret; by split_and!].
  destruct (Z.eqb_spec (lenZ got + lenZ data) (ih_total h0)) as [Etot|Etot]; cbn [negb].
  - apply wp_bind. eapply wp_mono; [eapply (wp_freeze_mine id 0 (ih_total h0)); [exact Ho1|exact Hb1|lia]|].
    intros r s2 (-> & Ho2 & Hot2 & Hb2). apply wp_ret. split; [by eapply others_trans|]. split; [done|].
    exists id. cbn. rewrite lenZ_app, Etot. by split_and!.
  - unfold frame_fail. apply wp_bind. eapply wp_mono; [by apply (wp_reset_st s1 _ L (Some (h0, got ++ data)))|].
    intros f2 s' [Hst2 Hot]. apply wp_ret. split; [|by split].
    assert (holds (f <| if_received ::= λ n, n ⊕ lenZ data |>) = [id]) as E by (unfold holds, owner_ipc_frame; cbn; by rewrite Hpf).
    rewrite E in Hot. by eapply others_trans.
Qed.

(** A buffer nobody held is new. *)
Lemma young_id s s' L X id b :
  owns s L → spared X s s' → id ∉ X → id ∉ L → st_bufs s' !! id = Some b → (st_next s ≤ id)%N.
Proof.
  intros Ho Hot HX Hid Hb. destruct (N.le_gt_cases (st_next s) id) as [|Hlt]; [done|]. exfalso.
  rewrite (ot_same _ _ _ Hot id HX Hlt) in Hb. pose proof (owns_live _ _ Ho id b Hb) as Hr.
  pose proof (wf_buf _ (owns_wf _ _ Ho) _ _ Hb) as [Hpos _]. rewrite Hr in Hpos. by apply occ_pos in Hpos.
Qed.
Lemma held_same s s' L X src b :
  owns s L → spared X s s' → src ∈ L → src ∉ X → st_bufs s !! src = Some b → st_bufs s' !! src = Some b.
Proof.
  intros Ho Hot Hin HX Hb. rewrite (ot_same _ _ _ Hot src HX); [done|]. by eapply (wf_next _ (owns_wf _ _ Ho)).
Qed.
Lemma frame_holds s f L A id : frame_is s f L A → id ∈ holds f → id ∉ L.
Proof.
  unfold holds, owner_ipc_frame. destruct A as [[h got]|]; cbn [frame_is].
  - intros (_ & _ & _ & _ & _ & _ & id' & -> & Hid & _) ->%list_elem_of_singleton. done.
  - intros [_ ->] H. by apply not_elem_of_nil in H.
Qed.

Lemma others_touch s s1 s2 X L id b :
  owns s (X ++ L) → spared X s s1 → st_bufs s1 !! id = Some b → id ∉ L → spared [id] s1 s2 → spared X s s2.
Proof.
  intros Ho Hot Hb Hid Hot2. destruct (decide (id ∈ X)) as [Hin|Hnin].
  - eapply others_trans; [exact Hot|]. eapply others_mono; [|exact Hot2]. by intros x ->%list_elem_of_singleton.
  - eapply others_young; [exact Hot| |exact Hot2]. eapply (young_id s s1 (X ++ L) X); [done..| |done].
    by rewrite not_elem_of_app.
Qed.

(** What feeding a message leaves. *)
Definition fed (s' : store) (L : list N) (r : rc) (f : ipc_frame) (o : option (list Z)) (A : aframe) : Prop :=
  match o with
  | Some all => r = NGX_OK ∧ ∃ id, if_payload f = Some id ∧ id ∉ L ∧ owns s' (id :: L) ∧
      st_bufs s' !! id = Some (mk_buf 1 (lenZ all) (lenZ all) all)
  | None => r ≠ NGX_OK ∧ frame_st s' f L A
  end.
Lemma wp_feed_st s f L A m src data :
  frame_st s f L A → src ∈ L → data ≠ [] → lenZ data < 2 ^ 32 → ms_payload m = Some src → ms_length m = lenZ data →
  st_bufs s !! src = Some (mk_buf 1 (lenZ data) (lenZ data) data) → 0 ≤ ih_total (ms_header m) →
  wp (frame_feed m f) (λ r s', ∃ b, (no_refusal s → b = true) ∧ spared (holds f) s s' ∧
    fed s' L r.1 r.2 (feed_pure b (ms_header m) data A).1 (feed_pure b (ms_header m) data A).2) s.
Proof.
  intros Hst Hsrc Hne Hlen Hp Hm Hb Ht. unfold frame_feed. apply wp_bind.
  set (A1 := if ih_offset (ms_header m) =? 0 then None else A).
  eapply (wp_mono _ (λ f1 s1, frame_st s1 f1 L A1 ∧ spared (holds f) s s1 ∧ (f1 = f ∧ s1 = s ∨ if_payload f1 = None))).
  { destruct (if_active f && (ih_offset (ms_header m) =? 0)) eqn:E.
    - apply andb_true_iff in E as [_ E0]. apply wp_bind. eapply wp_mono; [by apply (wp_reset_st s f L A)|].
      intros f1 s1 [[Ho1 [Ha1 Hp1]] Hot1]. apply wp_ret. unfold A1. rewrite E0. split; [|split; [done|by right]].
      split; [|done]. exact Ho1.
    - apply wp_ret. split; [|split; [apply others_refl|by left]]. unfold A1.
      destruct (ih_offset (ms_header m) =? 0); [|done]. rewrite andb_true_r in E. destruct Hst as [Ho Hf].
      destruct A as [[h got]|]; [|done]. cbn in Hf. destruct Hf as (Hact & _). congruence. }
  intros f1 s1 (Hst1 & Hot1 & Hf1). apply wp_bind. eapply wp_mono; [by apply (wp_open_st s1 f1 L A1)|].
  intros o s2 (b & Hall & Hot2 & Ho2).
  assert (feed_pure b (ms_header m) data A = match open_pure b (ms_header m) A1 with None => (None, None) | Some A => add_pure (ms_header m) data A end) as Efp by done.
  assert (no_refusal s → b = true) as Hall' by (intros H; apply Hall; intros n z; rewrite (ot_alloc _ _ _ Hot1); apply H).
  assert (spared (holds f) s s2) as Hot12 by (eapply others_trans; [exact Hot1|]; eapply others_mono; [|exact Hot2]; set_solver).
  destruct (open_pure b (ms_header m) A1) as [[h0 got]|] eqn:Eop; [|destruct Ho2 as [-> Hst2]].
  2: { apply wp_ret. exists b. rewrite Efp. split; [done|]. split; [done|]. unfold fed. by split. }
  destruct Ho2 as (f2 & -> & Hst2).
  assert (src ∉ holds f) as Hsf by (intros H; eapply frame_holds in H; [done|apply Hst]).
  assert (st_bufs s2 !! src = Some (mk_buf 1 (lenZ data) (lenZ data) data)) as Hb2.
  { eapply (held_same s); [apply Hst|exact Hot12|by apply elem_of_app; right|done|done]. }
  eapply wp_mono; [by eapply (wp_add_st s2 f2 L h0 got m src data)|]. intros [r f3] s3 [Hot3 H].
  assert (spared (holds f) s s3) as Hot13.
  { destruct Hst2 as [Ho2 Hf2]. cbn [frame_is] in Hf2. destruct Hf2 as (_ & _ & _ & _ & _ & _ & id & Hp2 & Hid & Hb').
    assert (holds f2 = [id]) as E2 by (unfold holds, owner_ipc_frame; by rewrite Hp2). rewrite E2 in Hot3.
    eapply others_touch; [apply Hst|exact Hot12|exact Hb'|exact Hid|exact Hot3]. }
  exists b. rewrite Efp. split; [done|]. split; [done|]. unfold fed. destruct (add_pure (ms_header m) data (h0, got)) as [[all|] A'] eqn:Eadd; cbn [fst snd].
  - destruct H as [Hr (id & Hpf & Eh & Ho3 & Hb3)]. split; [exact Hr|]. exists id. split_and!; try done.
    eapply frame_holds; [apply Hst2|rewrite Eh; by left].
  - exact H.
Qed.

Lemma le_value_range l : bytes l → 0 ≤ le_value l < 256 ^ Z.of_nat (length l).
Proof.
  induction 1 as [|b l Hb _ IH]; [done|]. cbn [le_value length]. rewrite Nat2Z.inj_succ, Z.pow_succ_r by lia. unfold is_byte in Hb. lia.
Qed.
Lemma member_range d off n : bytes d → (n ≤ 8)%nat → 0 ≤ member d off n < 256 ^ Z.of_nat n.
Proof.
  intros Hd Hn. unfold member. pose proof (le_value_range (take n (drop off d)) ltac:(by apply Forall_take, Forall_drop)) as H.
  rewrite length_take in H. split; [lia|]. eapply Z.lt_le_trans; [apply H|]. apply Z.pow_le_mono_r; lia.
Qed.

(** What receiving a datagram leaves. *)
Definition msg_received (s' : store) (L : list N) (r : rc) (m : message) (o : option (ipc_header * list Z)) : Prop :=
  match o with
  | None => ms_payload m = None ∧ owns s' L
  | Some (h, data) => r = NGX_OK ∧ ms_header m = h ∧ ms_length m = lenZ data ∧ data ≠ [] ∧ lenZ data < 2 ^ 32 ∧
      0 ≤ ih_total h ∧ ∃ id, ms_payload m = Some id ∧ owns s' (id :: L) ∧ id ∉ L ∧
      st_bufs s' !! id = Some (mk_buf 1 (lenZ data) (lenZ data) data)
  end.
Lemma wp_recv_datagram buf L s :
  owns s L → bytes buf →
  wp (recv_datagram buf) (λ r s', ∃ a, (no_refusal s → a = true) ∧ spared [] s s' ∧
    msg_received s' L r.1 r.2 (datagram_pure a buf)) s.
Proof.
  intros Ho Hbuf. unfold recv_datagram.
  assert (∀ (r : rc) m a, (no_refusal s → a = true) → ms_payload m = None → datagram_pure a buf = None →
    wp (mret (r, m)) (λ r s', ∃ a, (no_refusal s → a = true) ∧ spared [] s s' ∧ msg_received s' L r.1 r.2 (datagram_pure a buf)) s) as Hnone.
  { intros r m a Ha Hm E. apply wp_ret. exists a. rewrite E. split; [done|]. split; [apply others_refl|done]. }
  set (h := header_of buf).
  assert (0 ≤ ih_length h) as Hl0 by (cbn; apply member_range; [done|lia]).
  assert (0 ≤ ih_total h) as Ht0 by (cbn; apply member_range; [done|lia]).
  destruct (Z.eqb_spec (lenZ buf) 0) as [E0|E0].
  { apply (Hnone _ _ true); [done..|]. unfold datagram_pure. by rewrite E0. }
  destruct (Z.ltb_spec (lenZ buf) HEADER_MAX) as [Es|Es].
  { apply (Hnone _ _ true); [done..|]. unfold datagram_pure. by rewrite (proj2 (Z.ltb_lt _ _) Es). }
  destruct (negb (ih_version h =? IPC_VERSION) || (MAX_PAYLOAD <? ih_length h) || negb (lenZ buf =? HEADER_MAX + ih_length h)) eqn:Ebad.
  { apply (Hnone _ _ true); [done..|]. unfold datagram_pure. fold h. by rewrite (proj2 (Z.ltb_ge _ _) Es), Ebad. }
  pose proof Ebad as Ebad'. rewrite !orb_false_iff, !negb_false_iff in Ebad'. destruct Ebad' as [[_ Hmax%Z.ltb_ge] Hlen%Z.eqb_eq].
  destruct (Z.ltb_spec 0 (ih_length h)) as [Ep|Ep].
  2: { apply (Hnone _ _ true); [done..|]. unfold datagram_pure. fold h. rewrite (proj2 (Z.ltb_ge _ _) Es), Ebad.
       by rewrite (proj2 (Z.eqb_eq (ih_length h) 0)) by lia. }
  unfold MAX_PAYLOAD, MAX_DATAGRAM, HEADER_MAX in Hmax.
  apply wp_bind. eapply wp_mono; [eapply wp_alloc_mine; [exact Ho|lia]|]. intros [id|] s1 [Hot1 H1].
  2: { destruct H1 as [Ho1 Hn]. apply wp_ret. exists false. split; [intros Ha; by destruct Hn|]. split; [done|].
       unfold datagram_pure. fold h. rewrite (proj2 (Z.ltb_ge _ _) Es), Ebad, !orb_true_r. by split. }
  destruct H1 as (Ho1 & Hb1 & Hid). set (data := drop (Z.to_nat HEADER_MAX) buf).
  assert (take (Z.to_nat (ih_length h)) data = data) as Edata.
  { apply firstn_all2. unfold data. rewrite length_drop. unfold lenZ, HEADER_MAX in *. lia. }
  assert (lenZ data = ih_length h) as Eld by (unfold data, lenZ in *; rewrite length_drop; unfold HEADER_MAX in *; lia).
  rewrite Edata. apply wp_bind.
  eapply wp_mono; [eapply (wp_write_mine id 0 0 (ih_length h) [] data); [exact Ho1|exact Hb1|done|lia]|].
  intros [] s2 (Ho2 & Hot2 & Hb2). apply wp_bind.
  eapply wp_mono; [eapply (wp_freeze_mine id 0 (ih_length h)); [exact Ho2|exact Hb2|lia]|].
  intros r s3 (-> & Ho3 & Hot3 & Hb3). apply wp_ret. exists true. split; [done|]. split.
  { eapply others_young; [exact Hot1|exact Hid|]. by eapply others_trans. }
  unfold datagram_pure. fold h. rewrite (proj2 (Z.ltb_ge _ _) Es), Ebad, (proj2 (Z.eqb_neq (ih_length h) 0)) by lia. cbn [orb negb].
  fold data. cbn [msg_received fst snd ms_payload ms_header ms_length]. rewrite Eld.
  assert (id ∉ L) as Hnin.
  { intros Hin. destruct (owns_in _ _ id Ho Hin) as [b Hb]. apply (wf_next _ (owns_wf _ _ Ho)) in Hb. lia. }
  split_and!; try done.
  - intros E. rewrite E in Eld. change (lenZ []) with 0 in Eld. lia.
  - lia.
  - exists id.
    split; [reflexivity|].
    split; [exact Ho3|].
    split; [exact Hnin|].
    rewrite Hb3.
    reflexivity.
Qed.
Lemma wp_ipc_recv e d L s :
  owns s L → bytes d → 0 ≤ ep_fd e →
  wp (ipc_recv (RecvData d) (Some e)) (λ r s', ∃ a, (no_refusal s → a = true) ∧ spared [] s s' ∧
    msg_received s' L r.1 r.2 (recv_pure a d)) s.
Proof.
  intros Ho Hd Hfd. unfold ipc_recv, recv_pure. rewrite (proj2 (Z.ltb_ge _ _) Hfd).
  apply wp_recv_datagram; [exact Ho|by apply Forall_take].
Qed.

(** A delivery: the frame that is finished, in a payload of its own. *)
Definition delivered (s' : store) (L : list N) (o : option (ipc_header * option N)) (f : ipc_frame)
    (o' : option (ipc_header * list Z)) (A : aframe) : Prop :=
  match o, o' with
  | None, None => frame_st s' f L A
  | Some (h, p), Some (h', all) => h = h' ∧ ∃ id, p = Some id ∧ id ∉ L ∧ frame_st s' f (id :: L) A ∧
      st_bufs s' !! id = Some (mk_buf 1 (lenZ all) (lenZ all) all)
  | _, _ => False
  end.

(** The frame's buffer stays when others change. *)
Lemma frame_is_carry s s' f L L' A X :
  frame_is s f L A → owns s (holds f ++ L) → spared X s s' → holds f ## X → holds f ## L' → frame_is s' f L' A.
Proof.
  intros Hf Ho Hot HX HL. destruct A as [[h got]|]; [|exact Hf]. cbn [frame_is] in *.
  destruct Hf as (Ha & Hh & Hc & Hr & Ht & Hg & id & Hp & Hid & Hb).
  assert (id ∈ holds f) as Hin by (unfold holds, owner_ipc_frame; rewrite Hp; by left).
  split; [exact Ha|]. split; [exact Hh|]. split; [exact Hc|]. split; [exact Hr|]. split; [exact Ht|]. split; [exact Hg|].
  exists id. split; [exact Hp|]. split; [by intros ?%HL|].
  eapply (held_same s s' (holds f ++ L) X); [exact Ho|exact Hot|apply elem_of_app; by left|by intros ?%HX|exact Hb].
Qed.
Lemma frame_holds_disj s f L A : frame_is s f L A → holds f ## L.
Proof. intros Hf x Hx. by eapply frame_holds. Qed.

Lemma feed_pure_done b h data A all A' : feed_pure b h data A = (Some all, A') → A' = None.
Proof.
  unfold feed_pure. destruct (open_pure b h _) as [[h0 got]|]; [|done]. unfold add_pure.
  destruct (_ || _); [done|]. destruct (negb _); [done|]. destruct (_ =? _); [by intros [= _ <-]|done].
Qed.
(** The payload a message came with goes back; it was nobody's before. *)
Lemma wp_release_young s s1 s3 m src X L L' b (Q : store → Prop) :
  owns s (X ++ L) → spared [] s s1 → st_bufs s1 !! src = Some b → src ∉ X ++ L → ms_payload m = Some src →
  owns s3 (src :: L') → spared X s s3 →
  (∀ s4, owns s4 L' → spared [src] s3 s4 → spared X s s4 → Q s4) → wp (message_release m) (λ _, Q) s3.
Proof.
  intros Ho Hot1 Hb1 Hsrc Hp Ho3 Hot3 HQ. destruct (owns_in _ _ src Ho3 ltac:(by left)) as [bs Hbs].
  unfold message_release. rewrite Hp. apply wp_bind. eapply wp_mono; [by eapply wp_unref_mine|].
  intros [] s4 (Ho4 & Hot4 & _). apply wp_ret. apply HQ; [exact Ho4|exact Hot4|].
  eapply others_young; [exact Hot3| |exact Hot4].
  eapply (young_id s s1 (X ++ L) []); [exact Ho|exact Hot1|apply not_elem_of_nil|exact Hsrc|exact Hb1].
Qed.

Lemma wp_take_message r m o f L A s s1 :
  frame_st s f L A → spared [] s s1 → msg_received s1 (holds f ++ L) r m o →
  wp (take_message r m f) (λ r s', ∃ b, (no_refusal s → b = true) ∧ spared (holds f) s s' ∧
    delivered s' L r.1 r.2 (take_pure b o A).1 (take_pure b o A).2) s1.
Proof.
  intros Hst Hot1 H1. unfold take_message. pose proof Hst as [Ho Hf].
  assert (spared (holds f) s s1) as Hot1' by (eapply others_mono; [|exact Hot1]; set_solver).
  assert (∀ x, x ∈ holds f → x ∉ []) as Hnil by (intros ? _; apply not_elem_of_nil).
  unfold msg_received in H1. destruct o as [[h data]|].
  2: { destruct H1 as [Hp Ho1].
       assert (wp (_ ← message_release m; mret (None, f)) (λ r s', ∃ b, (no_refusal s → b = true) ∧ spared (holds f) s s' ∧
         delivered s' L r.1 r.2 (take_pure b None A).1 (take_pure b None A).2) s1) as Hend.
       { apply wp_bind. unfold message_release. rewrite Hp. apply wp_ret, wp_ret. exists true. split; [done|].
         split; [done|]. split; [exact Ho1|]. eapply frame_is_carry; [exact Hf|exact Ho|exact Hot1|done|by eapply frame_holds_disj]. }
       rewrite Hp. destruct r; exact Hend. }
  destruct H1 as (-> & Eh & El & Hne & Hsm & Ht & src & Hp & Ho1 & Hsrc & Hb1). rewrite Hp.
  assert (src ∉ holds f ∧ src ∉ L) as [Hsf HsL] by (by apply not_elem_of_app).
  assert (frame_st s1 f (src :: L) A) as Hst1.
  { split; [eapply owns_proper; [|exact Ho1]; solve_Permutation|].
    eapply frame_is_carry; [exact Hf|exact Ho|exact Hot1|done|].
    intros x Hx [->|Hin]%elem_of_cons; [done|]. by eapply frame_holds_disj. }
  apply wp_bind. eapply wp_mono; [eapply (wp_feed_st s1 f (src :: L) A m src data); [done|by left|done..|by rewrite Eh]|].
  intros [r f2] s2 (b & Hall & Hot2 & Hfed). cbn [fst snd] in Hfed. rewrite Eh in Hfed.
  assert (spared (holds f) s s2) as Hot12 by (by eapply others_trans).
  assert (no_refusal s → b = true) as Hab by (intros H; apply Hall; intros n z; rewrite (ot_alloc _ _ _ Hot1); apply H).
  cbn [take_pure]. destruct (feed_pure b h data A) as [[all|] A'] eqn:EP; cbn [fst snd] in Hfed; apply wp_bind.
  - destruct Hfed as (-> & id & Hpf & Hid & Ho2 & Hbid). apply not_elem_of_cons in Hid as [Hne' HidL].
    apply feed_pure_done in EP as HA'. subst A'.
    rewrite bool_decide_eq_true_2 by done. rewrite Hpf. apply wp_bind.
    eapply wp_mono; [by eapply wp_ref_mine|]. intros p s3 (-> & Ho3 & Hot3 & Hb3). cbn [b_refs b_len b_cap b_data] in Hb3.
    apply wp_bind. eapply wp_mono; [by eapply wp_frame_reset|]. intros f4 s4 (Ho4 & Hot4 & Hact & Hpay & Hb4). apply wp_ret.
    specialize (Hb4 ltac:(done)). cbn in Hb4. rewrite Eh. apply wp_bind.
    eapply (wp_release_young s s1 s4 m src (holds f) L (id :: L)); [exact Ho|exact Hot1|exact Hb1|exact Hsrc|exact Hp| | |].
    + eapply owns_proper; [|exact Ho4]; solve_Permutation.
    + eapply (others_touch s s2 s4 (holds f) L id); [exact Ho|exact Hot12|exact Hbid|exact HidL|by eapply others_trans].
    + intros s5 Ho5 Hot5 Hot. apply wp_ret. exists b. rewrite EP. split; [exact Hab|]. split; [exact Hot|]. cbn [delivered fst snd fmap option_fmap option_map].
      split; [done|]. exists id. split; [done|]. split; [exact HidL|]. split.
      * split; [|by split]. unfold holds, owner_ipc_frame. rewrite Hpay. exact Ho5.
      * eapply (held_same s4 s5 (id :: src :: L) [src]); [exact Ho4|exact Hot5|by left| |exact Hb4].
        by intros ->%list_elem_of_singleton.
  - destruct Hfed as [Hr [Ho2 Hf2]]. rewrite bool_decide_eq_false_2 by done. apply wp_ret, wp_bind.
    assert (holds f2 ## src :: L) as Hdj by (by eapply frame_holds_disj).
    eapply (wp_release_young s s1 s2 m src (holds f) L (holds f2 ++ L)); [exact Ho|exact Hot1|exact Hb1|exact Hsrc|exact Hp| |exact Hot12|].
    { eapply owns_proper; [|exact Ho2]; solve_Permutation. }
    intros s3 Ho3 Hot3 Hot. apply wp_ret. exists b. rewrite EP. split; [exact Hab|]. split; [exact Hot|]. split; [exact Ho3|].
    eapply frame_is_carry; [exact Hf2|exact Ho2|exact Hot3| |].
    + intros x Hx ->%list_elem_of_singleton. apply (Hdj src); [done|by left].
    + intros x Hx Hin. apply (Hdj x); [done|by right].
Qed.
Lemma wp_deliver e d f L A s :
  frame_st s f L A → bytes d → 0 ≤ ep_fd e →
  wp (deliver (Some e) d f) (λ r s', ∃ a b, (no_refusal s → a = true ∧ b = true) ∧ spared (holds f) s s' ∧
    delivered s' L r.1 r.2 (deliver_pure a b d A).1 (deliver_pure a b d A).2) s.
Proof.
  intros Hst Hd Hfd. unfold deliver. apply wp_bind.
  eapply wp_mono; [eapply wp_ipc_recv; [apply Hst|done..]|]. intros [r m] s1 (a & Ha & Hot1 & H1).
  eapply wp_mono; [by eapply wp_take_message|]. intros p s2 (b & Hb & Hot & Hdel). exists a, b. unfold deliver_pure.
  split; [by split; [apply Ha|apply Hb]|]. by split.
Qed.
