(* ===== verification/IpcLink.v ===== *)
(** * A publisher on another worker

    What Ipc.v is used for: a publisher's session hands the frames of its source to the worker
    that owns the stream (core/ngx_media_route.c, rtmp/ngx_media_rtmp_module.c), which puts
    them together again and makes frames of them (core/ngx_media_runtime.c). *)
From S2P Require Import Prelude Bytes Store Compat Source Ipc.

Definition IPC_MSG_VIDEO : Z := 4.
Definition IPC_MSG_AUDIO : Z := 5.
Definition IPC_MSG_DATA : Z := 6.

(** ** The sending side *)

Definition route_header (hash incarnation session : Z) (f : frame) (sequence : Z) : ipc_header :=
  mk_header IPC_VERSION
    (if media_type f =? TYPE_AUDIO then IPC_MSG_AUDIO else if media_type f =? TYPE_DATA then IPC_MSG_DATA else IPC_MSG_VIDEO)
    0 0 0 0 hash incarnation sequence (pts f) (dts f) (u32 (media_type f)) (u32 (codec f)) (u32 (payload_format f))
    (u32 (track_index f)) (if keyframe f then 1 else 0) (if config f then 1 else 0) 0 0 session.
(** [e] is the endpoint of the worker that owns the stream, when there is one. *)
Definition route_frame (results : nat → sendmsg_result) (e : option endpoint) (hash incarnation session : Z) (f : frame)
    (sequence : Z) : M (rc * option endpoint * list (list Z)) :=
  match payload f, e with
  | Some p, Some _ =>
      size ← buf_size (Some p);
      ipc_send results e (Some (route_header hash incarnation session f sequence)) (Some p) 0 size
  | _, _ => mret (NGX_ERROR, e, [])
  end.
(** A routed session's frame. *)
Definition routed_frame_cb (results : nat → sendmsg_result) (hash incarnation session : Z) (f : frame)
    (e : option endpoint) (fl : flow) : M (option endpoint * flow * list (list Z)) :=
  let '(ok, fl) := flow_admit fl (is_video f) (keyframe f) (config f) in
  if ok then
    '(r, e, ds) ← route_frame results e hash incarnation session f (fl_sequence fl);
    mret (e, flow_sent fl (is_video f) (keyframe f) (config f) r, ds)
  else mret (e, fl, []).

(** A frame of the source, the bytes of its payload and what the [sendmsg]s of its chunks
    answer. *)
Record hop := mk_hop { hop_frame : frame; hop_data : list Z; hop_results : nat → sendmsg_result }.
Fixpoint routed_session (hash incarnation session : Z) (xs : list hop) (e : option endpoint) (fl : flow) :
    M (option endpoint * flow * list (list Z)) :=
  match xs with
  | [] => mret (e, fl, [])
  | x :: xs =>
      '(e, fl, ds) ← routed_frame_cb (hop_results x) hash incarnation session (hop_frame x) e fl;
      '(e, fl, ds') ← routed_session hash incarnation session xs e fl;
      mret (e, fl, ds ++ ds')
  end.

(** ** The owning side *)

Definition frame_of_header (h : ipc_header) (p : option N) : frame :=
  mk_frame (ih_media_type h) (ih_codec h) (ih_payload_format h) (ih_track_index h) (ih_pts h) (ih_dts h)
    (negb (ih_keyframe h =? 0)) (negb (ih_config h =? 0)) p.
(** The datagrams of one session, in a worker that has an open slot for it; opening the slot,
    finding it by the header and the check for a source that is going away are the caller's and
    not modelled. *)
Fixpoint deliver_all (e : option endpoint) (ds : list (list Z)) (f : ipc_frame) : M (list frame * ipc_frame) :=
  match ds with
  | [] => mret ([], f)
  | d :: ds =>
      '(o, f) ← deliver e d f;
      '(l, f) ← deliver_all e ds f;
      mret (match o with Some (h, p) => [frame_of_header h p] | None => [] end ++ l, f)
  end.

(** ** Abstract descriptions *)

(** The datagrams of a frame. *)
Definition ipc_chunk_size (data : list Z) (pos : Z) : Z := Z.min (lenZ data - pos) MAX_PAYLOAD.
Definition datagram (h : ipc_header) (data : list Z) (pos : Z) : list Z :=
  header_bytes (ipc_chunk_header h pos (ipc_chunk_size data pos) (lenZ data))
  ++ take (Z.to_nat (ipc_chunk_size data pos)) (drop (Z.to_nat pos) data).
Fixpoint chunks (fuel : nat) (h : ipc_header) (data : list Z) (pos : Z) : list (list Z) :=
  match fuel with
  | O => []
  | S fuel => if pos <? lenZ data then datagram h data pos :: chunks fuel h data (pos + ipc_chunk_size data pos) else []
  end.
Definition frame_chunks (h : ipc_header) (data : list Z) : list (list Z) :=
  if lenZ data =? 0 then [header_bytes h] else chunks (S (Z.to_nat (lenZ data / MAX_PAYLOAD))) h data 0.
(** How many of [n] sends from the [k]th on come before the first that fails. *)
Fixpoint sent_count (results : nat → sendmsg_result) (k n : nat) : nat :=
  match n with
  | O => O
  | S n => match results k with Sent => S (sent_count results (S k) n) | _ => O end
  end.

(** A frame whose first [se_sent] datagrams were sent. *)
Record sending := mk_sending { se_hop : hop; se_header : ipc_header; se_sent : nat }.
Definition se_data (x : sending) : list Z := hop_data (se_hop x).
Definition ipc_wire (x : sending) : list (list Z) := take (se_sent x) (frame_chunks (se_header x) (se_data x)).
Definition sent_whole (x : sending) : bool := bool_decide (length (frame_chunks (se_header x) (se_data x)) ≤ se_sent x)%nat.
Definition arrives (x : sending) : option (frame * list Z) :=
  if sent_whole x && (0 <? lenZ (se_data x)) && (lenZ (se_data x) <=? MAX_FRAME)
  then Some (hop_frame (se_hop x), se_data x) else None.
(** What becomes of the frames of a session: sent, in part or whole, or held back. *)
Definition sending_of (hash incarnation session : Z) (x : hop) (sequence : Z) : sending :=
  let h := route_header hash incarnation session (hop_frame x) sequence in
  mk_sending x h (sent_count (hop_results x) 0 (length (frame_chunks h (hop_data x)))).
Fixpoint sendings (hash incarnation session : Z) (xs : list hop) (fl : flow) : list (option sending) :=
  match xs with
  | [] => []
  | x :: xs =>
      let f := hop_frame x in
      let '(ok, fl) := flow_admit fl (is_video f) (keyframe f) (config f) in
      if ok then
        let y := sending_of hash incarnation session x (fl_sequence fl) in
        Some y :: sendings hash incarnation session xs
          (flow_sent fl (is_video f) (keyframe f) (config f) (if sent_whole y then NGX_OK else NGX_AGAIN))
      else None :: sendings hash incarnation session xs fl
  end.

(** ** Sending *)

Lemma chunk_size_range data pos : 0 ≤ pos → pos < lenZ data → 0 < ipc_chunk_size data pos ≤ lenZ data - pos ∧ ipc_chunk_size data pos ≤ MAX_PAYLOAD.
Proof. unfold ipc_chunk_size, MAX_PAYLOAD, MAX_DATAGRAM, HEADER_MAX. lia. Qed.
Lemma chunks_nil fuel h data pos : lenZ data ≤ pos → chunks fuel h data pos = [].
Proof. intros H. destruct fuel; cbn; [done|]. by rewrite (proj2 (Z.ltb_ge _ _) H). Qed.
Lemma sent_count_le results n : ∀ k, (sent_count results k n ≤ n)%nat.
Proof. induction n as [|n IH]; intros k; cbn; [done|]. specialize (IH (S k)). destruct (results k); lia. Qed.

Lemma wp_send_loop results h buf offset data e s b fuel : ∀ k pos ep out,
  st_bufs s !! buf = Some b → 0 ≤ offset → offset + lenZ data ≤ lenZ (b_data b) →
  take (length data) (drop (Z.to_nat offset) (b_data b)) = data →
  0 ≤ pos → lenZ data - pos ≤ Z.of_nat fuel * MAX_PAYLOAD → ep_fd ep = e →
  wp (send_loop fuel results k h buf offset (lenZ data) pos ep out) (λ r s',
    s' = s ∧ ep_fd r.1.2 = e ∧
    let cs := chunks fuel h data pos in let j := sent_count results k (length cs) in
    r.2 = out ++ take j cs ∧ r.1.1 = if bool_decide (length cs ≤ j)%nat then NGX_OK else NGX_AGAIN) s.
Proof.
  induction fuel as [|fuel IH]; intros k pos ep out Hb Ho Hlen Hdata Hpos Hfuel Hfd; cbn [send_loop chunks].
  { rewrite (proj2 (Z.ltb_ge _ _)) by lia. apply wp_ret. split; [done|]. split; [done|]. by rewrite app_nil_r. }
  destruct (Z.ltb_spec pos (lenZ data)) as [Hlt|Hge]; cbn [negb].
  2: { apply wp_ret. split; [done|]. split; [done|]. by rewrite app_nil_r. }
  fold (ipc_chunk_size data pos). pose proof (chunk_size_range data pos Hpos Hlt) as [Hn Hn'].
  set (n := ipc_chunk_size data pos) in *. apply wp_bind. eexists _, _. split.
  { unfold buf_read, mbind, SM_bind, deref. rewrite Hb. rewrite (proj2 (Z.leb_le _ _)) by (unfold lenZ in *; lia). reflexivity. }
  assert (drop (Z.to_nat (offset + pos)) (take (Z.to_nat (offset + pos + n)) (b_data b)) =
          take (Z.to_nat n) (drop (Z.to_nat pos) data)) as ->.
  { rewrite <- Hdata. rewrite !skipn_firstn_comm, drop_drop, take_take.
    rewrite !Z2Nat.inj_add by lia.
    f_equal. unfold lenZ in *. lia. }
  fold n. unfold datagram. fold n. set (d := header_bytes _ ++ _).
  destruct (results k) eqn:Er; cbn [ipc_write negb bool_decide]; cbn [length sent_count]; rewrite ?Er.
  2,3,4: rewrite bool_decide_eq_false_2 by done; apply wp_ret; (split; [done|]); (split; [done|]); cbn [take];
    by rewrite app_nil_r, bool_decide_eq_false_2 by lia.
  assert (lenZ data - (pos + n) ≤ Z.of_nat fuel * MAX_PAYLOAD) as Hf' by (unfold n, ipc_chunk_size, MAX_PAYLOAD, MAX_DATAGRAM, HEADER_MAX in *; lia).
  eapply wp_mono; [eapply (IH (S k) (pos + n)); [exact Hb|exact Ho|exact Hlen|exact Hdata|lia|lia|done]|].
  intros r s' (-> & Hfd' & Hout & Hrc). split; [done|]. split; [done|]. cbn zeta in *. cbn [take]. split.
  - by rewrite Hout, <- app_assoc.
  - rewrite Hrc. case_bool_decide; case_bool_decide; done || lia.
Qed.

Lemma frame_chunks_nonempty h data : (0 < length (frame_chunks h data))%nat.
Proof.
  unfold frame_chunks. destruct (Z.eqb_spec (lenZ data) 0); cbn; [lia|].
  pose proof (lenZ_nonneg data). rewrite (proj2 (Z.ltb_lt _ _)) by lia. cbn. lia.
Qed.
(** A buffer that holds [data]. *)
Definition holds_data (s : store) (buf : N) (data : list Z) : Prop :=
  ∃ b, st_bufs s !! buf = Some b ∧ b_data b = data ∧ b_len b = lenZ data ∧ lenZ data < 2 ^ 32.
Lemma wp_ipc_send results ep h buf data s :
  holds_data s buf data → 0 ≤ ep_fd ep →
  wp (ipc_send results (Some ep) (Some h) (Some buf) 0 (lenZ data)) (λ r s', s' = s ∧
    (∃ ep', r.1.2 = Some ep' ∧ 0 ≤ ep_fd ep') ∧
    let cs := frame_chunks h data in let j := sent_count results 0 (length cs) in
    r.2 = take j cs ∧ (r.1.1 = NGX_OK ↔ (length cs ≤ j)%nat)) s.
Proof.
  intros (b & Hb & Hdata & Hlen & Hsmall) Hfd. unfold ipc_send, frame_chunks. rewrite (proj2 (Z.ltb_ge _ _) Hfd).
  pose proof (lenZ_nonneg data) as H0. destruct (Z.eqb_spec (lenZ data) 0) as [E0|E0].
  - destruct (results 0%nat) eqn:Er; cbn; rewrite Er; cbn; apply wp_ret; (split; [done|]); (split; [eexists; split; [done|exact Hfd]|]);
      (split; [done|]); split; (done || lia).
  - apply wp_bind. eexists _, _. split; [unfold buf_size, deref, mbind, SM_bind; rewrite Hb; reflexivity|].
    rewrite Hlen, u64_small, (proj2 (Z.ltb_ge _ _)) by lia.
    apply wp_bind. eapply wp_mono.
    { eapply (wp_send_loop results h buf 0 data (ep_fd ep)); [exact Hb|lia|rewrite Hdata; lia| |lia| |done].
      - rewrite Hdata. apply firstn_all.
      - unfold MAX_PAYLOAD, MAX_DATAGRAM, HEADER_MAX. pose proof (Z.mod_pos_bound (lenZ data) (64 * 1024 - 96) ltac:(lia)).
        pose proof (Z.div_mod (lenZ data) (64 * 1024 - 96) ltac:(lia)). pose proof (Z.div_pos (lenZ data) (64 * 1024 - 96) ltac:(lia) ltac:(lia)). lia. }
    intros [[r ep'] out] s' (-> & Hfd' & Hout & Hrc). apply wp_ret. cbn [fst snd] in *. split; [done|].
    split; [eexists; split; [done|lia]|]. split; [exact Hout|]. rewrite Hrc. case_bool_decide; done.
Qed.

(** The frame of a hop is in the store. *)
Definition hop_in (s : store) (x : hop) : Prop := ∃ buf, payload (hop_frame x) = Some buf ∧ holds_data s buf (hop_data x).
Lemma flow_sent_ok fl v k c r r' : (r = NGX_OK ↔ r' = NGX_OK) → flow_sent fl v k c r = flow_sent fl v k c r'.
Proof.
  intros H. unfold flow_sent. assert (bool_decide (r = NGX_OK) = bool_decide (r' = NGX_OK)) as -> by (by apply bool_decide_ext). done.
Qed.
Lemma wp_routed_session hash inc session s xs : ∀ ep fl,
  Forall (hop_in s) xs → 0 ≤ ep_fd ep →
  wp (routed_session hash inc session xs (Some ep) fl) (λ r s', s' = s ∧ r.2 = concat (ipc_wire <$> omap id (sendings hash inc session xs fl))) s.
Proof.
  induction xs as [|x xs IH]; intros ep fl Hin Hfd; cbn [routed_session sendings]; [by apply wp_ret|].
  inversion_clear Hin as [|? ? (buf & Hp & Hd) Hin']. apply wp_bind. unfold routed_frame_cb.
  destruct (flow_admit fl _ _ _) as [[] fl1].
  - set (y := sending_of hash inc session x (fl_sequence fl1)).
    apply wp_bind. unfold route_frame. rewrite Hp. apply wp_bind.
    destruct Hd as (b & Hb & Hdata & Hlen & Hsmall).
    eexists _, _. split; [unfold buf_size, deref, mbind, SM_bind; rewrite Hb; reflexivity|]. rewrite Hlen.
    eapply wp_mono; [apply (wp_ipc_send _ ep _ buf (hop_data x)); [by exists b|done]|].
    intros [[r e'] out] s' (-> & (ep' & He' & Hfd') & Hout & Hrc). cbn [fst snd] in *. subst e'. apply wp_ret.
    rewrite (flow_sent_ok _ _ _ _ r (if sent_whole y then NGX_OK else NGX_AGAIN)).
    2: { rewrite Hrc. unfold sent_whole. by case_bool_decide. }
    apply wp_bind. eapply wp_mono; [by apply IH|]. intros [[e2 fl2] out2] s2 [-> Hout2]. apply wp_ret. split; [done|].
    cbn [snd] in *. by rewrite Hout2, Hout.
  - apply wp_ret, wp_bind. eapply wp_mono; [by apply IH|]. intros [[e2 fl2] out2] s2 [-> Hout2]. apply wp_ret. split; [done|]. exact Hout2.
Qed.

(** ** Receiving *)

(** The receiver over a run of datagrams, each with what the allocator answers. *)
Fixpoint deliver_all_pure (ds : list (list Z * (bool * bool))) (A : aframe) : list (ipc_header * list Z) * aframe :=
  match ds with
  | [] => ([], A)
  | (d, (a, b)) :: ds =>
      let '(o, A) := deliver_pure a b d A in let '(l, A) := deliver_all_pure ds A in (option_list o ++ l, A)
  end.
(** A frame that was handed out: the header's members and the bytes, in a payload of its own. *)
Definition handed (s : store) (g : frame) (y : ipc_header * list Z) : Prop :=
  ∃ id, g = frame_of_header y.1 (Some id) ∧ st_bufs s !! id = Some (mk_buf 1 (lenZ y.2) (lenZ y.2) y.2).

Lemma frame_st_perm s f L L' A : L ≡ₚ L' → frame_st s f L A → frame_st s f L' A.
Proof.
  intros HL [Ho Hf]. split; [eapply owns_proper; [|exact Ho]; by rewrite HL|]. destruct A as [[h got]|]; [|exact Hf].
  cbn [frame_is] in *. destruct Hf as (Ha & Hh & Hc & Hr & Ht & Hg & id & Hp & Hid & Hb). split_and!; try done; try lia.
  exists id. split_and!; [done| |done]. by rewrite <- HL.
Qed.
Lemma handed_same s s' g y L X :
  handed s g y → owns s L → holds g ⊆ L → spared X s s' → holds g ## X → handed s' g y.
Proof.
  intros (id & -> & Hb) Ho HL Hot HX. exists id. split; [done|]. assert (id ∈ [id]) as Hin by (by left).
  eapply (held_same s s' L X); [exact Ho|exact Hot|by apply HL|by intros ?%HX|exact Hb].
Qed.
Lemma others_next s s1 s2 f1 L1 L X A1 :
  owns s (X ++ L) → spared X s s1 → frame_st s1 f1 L1 A1 → holds f1 ## L → spared (holds f1) s1 s2 → spared X s s2.
Proof.
  intros Ho Hot [Ho1 Hf1] Hdj Hot2. destruct A1 as [[h got]|]; cbn [frame_is] in Hf1.
  - destruct Hf1 as (_ & _ & _ & _ & _ & _ & id & Hp & Hid & Hb).
    assert (holds f1 = [id]) as E by (unfold holds, owner_ipc_frame; by rewrite Hp). rewrite E in *.
    eapply others_touch; [exact Ho|exact Hot|exact Hb| |exact Hot2]. intros Hin. apply (Hdj id); [by left|done].
  - destruct Hf1 as [_ Hp]. assert (holds f1 = []) as E by (unfold holds, owner_ipc_frame; by rewrite Hp). rewrite E in Hot2.
    eapply others_trans; [exact Hot|]. eapply others_mono; [|exact Hot2]. intros x Hx. by apply not_elem_of_nil in Hx.
Qed.

Lemma wp_deliver_all e ds : ∀ f L A s,
  frame_st s f L A → Forall bytes ds → 0 ≤ ep_fd e →
  wp (deliver_all (Some e) ds f) (λ r s', ∃ l, l.*1 = ds ∧ (no_refusal s → Forall (λ x, x.2 = (true, true)) l) ∧
    spared (holds f) s s' ∧ frame_st s' r.2 (holds r.1 ++ L) (deliver_all_pure l A).2 ∧
    Forall2 (handed s') r.1 (deliver_all_pure l A).1) s.
Proof.
  induction ds as [|d ds IH]; intros f L A s Hst Hds Hfd; cbn [deliver_all].
  { apply wp_ret. exists []. split; [done|]. split; [done|]. split; [apply others_refl|]. by split. }
  inversion_clear Hds as [|? ? Hd Hds']. apply wp_bind. eapply wp_mono; [by apply (wp_deliver e d f L A)|].
  intros [o f1] s1 (a & b & Hab & Hot1 & Hdel). cbn [fst snd] in Hdel.
  destruct (deliver_pure a b d A) as [oy A1] eqn:Epure. cbn [fst snd] in Hdel.
  set (g := match o with Some (h, p) => [frame_of_header h p] | None => [] end).
  assert (frame_st s1 f1 (holds g ++ L) A1 ∧ Forall2 (handed s1) g (option_list oy)) as [Hst1 Hg].
  { unfold g, delivered in *. destruct o as [[h p]|], oy as [[h' all]|]; try done.
    destruct Hdel as (-> & id & -> & Hid & Hst1 & Hb). split; [exact Hst1|]. constructor; [|constructor]. by exists id. }
  assert (holds f1 ## holds g ++ L) as Hdj by (eapply frame_holds_disj; apply Hst1).
  apply wp_bind. eapply wp_mono; [by apply (IH f1 (holds g ++ L) A1 s1)|].
  intros [r f2] s2 (l & Hl & Hall & Hot2 & Hst2 & Hr). cbn [fst snd] in *. apply wp_ret.
  exists ((d, (a, b)) :: l). cbn [fmap list_fmap fst deliver_all_pure]. rewrite Epure.
  destruct (deliver_all_pure l A1) as [ys A2]. cbn [fst snd] in *.
  split; [by f_equal|]. split.
  { intros H. constructor; [cbn; by destruct (Hab H) as [-> ->]|]. apply Hall. intros n z. rewrite (ot_alloc _ _ _ Hot1). apply H. }
  split; [eapply (others_next s s1 s2 f1); [apply Hst|exact Hot1|exact Hst1| |exact Hot2]|].
  { intros x Hx Hin. apply (Hdj x); [done|]. apply elem_of_app. by right. }
  split.
  - eapply frame_st_perm; [|exact Hst2]. unfold g, holds, owner_list. rewrite bind_app. solve_Permutation.
  - apply Forall2_app; [|exact Hr]. unfold g in *. destruct o as [[h p]|], oy as [y|]; cbn [option_list] in *; try by inversion Hg.
    apply Forall2_cons in Hg as [Hg _]. constructor; [|constructor]. rename h into h0, p into p0. set (p := (h0, p0)).
    eapply (handed_same s1 s2 _ _ (holds f1 ++ holds [frame_of_header p.1 p.2] ++ L)); [exact Hg|exact (proj1 Hst1)| |exact Hot2|].
    + intros x Hx. rewrite !elem_of_app. right. left. apply elem_of_app. by left.
    + intros x Hx Hx'. apply (Hdj x); [done|]. apply elem_of_app. left. apply elem_of_app. by left.
Qed.

(** ** What is sent is put together again *)

Lemma le_bytes n : ∀ x, bytes (le n x).
Proof. induction n as [|n IH]; intros x; cbn; constructor; [|apply IH]. unfold is_byte. pose proof (Z.mod_pos_bound x 256). lia. Qed.
Lemma header_bytes_ok h : bytes (header_bytes h).
Proof. unfold header_bytes. repeat (apply Forall_app; split); apply le_bytes. Qed.
Lemma chunk_header_ok h pos n len : header_ok h → header_ok (ipc_chunk_header h pos n len).
Proof.
  intros [] . unfold ipc_chunk_header, u32, u16. pose proof (λ x, Z.mod_pos_bound x (2 ^ 32) ltac:(lia)).
  pose proof (λ x, Z.mod_pos_bound x (2 ^ 16) ltac:(lia)).
  split; cbn; try done; try apply H. destruct (pos + n <? len); apply H0.
Qed.
Lemma same_frame_chunks h p n p' n' l : same_frame (ipc_chunk_header h p n l) (ipc_chunk_header h p' n' l) = true.
Proof. unfold same_frame. cbn. by rewrite !Z.eqb_refl. Qed.
Lemma flag_more x : Z.land (u16 (Z.lor x FLAG_MORE)) FLAG_MORE = 1.
Proof.
  unfold u16, FLAG_MORE. rewrite <- (Z.land_ones _ 16) by lia. apply Z.bits_inj'. intros n Hn.
  rewrite !Z.land_spec, Z.lor_spec, Z.testbit_ones_nonneg by lia. destruct (Z.eqb_spec n 0) as [->|].
  - cbn. by rewrite orb_true_r.
  - replace (Z.testbit 1 n) with false; [by rewrite !andb_false_r|]. symmetry. apply (Z.bits_above_log2 1 n); cbn; lia.
Qed.
Lemma flag_last x : Z.land (u16 (Z.land x (Z.lnot FLAG_MORE))) FLAG_MORE = 0.
Proof.
  unfold u16, FLAG_MORE. rewrite <- (Z.land_ones _ 16) by lia. apply Z.bits_inj'. intros n Hn.
  rewrite !Z.land_spec, Z.bits_0. destruct (Z.eqb_spec n 0) as [->|]; [by rewrite !andb_false_r|].
  replace (Z.testbit 1 n) with false; [by rewrite !andb_false_r|]. symmetry. apply (Z.bits_above_log2 1 n); cbn; lia.
Qed.

Lemma recv_header_pure h : header_ok h → recv_pure true (header_bytes h) = None.
Proof.
  intros Hh. pose proof (header_length h) as Hl. unfold recv_pure.
  rewrite firstn_all2 by (unfold lenZ, MAX_DATAGRAM, HEADER_MAX in *; lia).
  unfold datagram_pure. rewrite Hl, Z.ltb_irrefl.
  rewrite <- (app_nil_r (header_bytes h)) at 1 2 3 4. rewrite header_of_bytes by exact Hh.
  destruct (Z.eqb_spec HEADER_MAX (HEADER_MAX + ih_length h)) as [E|E]; cbn [negb]; [|by rewrite !orb_true_r].
  rewrite (proj2 (Z.eqb_eq (ih_length h) 0)) by lia. by rewrite !orb_true_r.
Qed.

Section round_trip.
Context (h : ipc_header) (data : list Z) (Hh : header_ok h) (Hv : ih_version h = IPC_VERSION) (Hlen : lenZ data < 2 ^ 32).
Let at_ (pos : Z) : ipc_header := ipc_chunk_header h pos (ipc_chunk_size data pos) (lenZ data).

Lemma at_members pos :
  0 ≤ pos < lenZ data →
  ih_version (at_ pos) = IPC_VERSION ∧ ih_length (at_ pos) = ipc_chunk_size data pos ∧ ih_total (at_ pos) = lenZ data ∧
  ih_offset (at_ pos) = pos.
Proof.
  intros Hpos. pose proof (chunk_size_range data pos ltac:(lia) ltac:(lia)). unfold at_, ipc_chunk_header. cbn.
  unfold u32. rewrite !Z.mod_small by lia. done.
Qed.
Lemma recv_datagram_pure pos :
  0 ≤ pos < lenZ data →
  recv_pure true (datagram h data pos) = Some (at_ pos, take (Z.to_nat (ipc_chunk_size data pos)) (drop (Z.to_nat pos) data)).
Proof.
  intros Hpos. pose proof (chunk_size_range data pos ltac:(lia) ltac:(lia)) as [Hn Hn'].
  assert (lenZ (datagram h data pos) = HEADER_MAX + ipc_chunk_size data pos) as Ed.
  { unfold datagram. rewrite lenZ_app, header_length. f_equal. unfold lenZ in *. rewrite length_take, length_drop. lia. }
  unfold recv_pure. rewrite firstn_all2 by (unfold lenZ, MAX_PAYLOAD in *; lia).
  unfold datagram_pure. rewrite Ed, (proj2 (Z.ltb_ge _ _)) by lia.
  assert (header_of (datagram h data pos) = at_ pos) as -> by (apply header_of_bytes, chunk_header_ok, Hh).
  destruct (at_members pos Hpos) as (-> & -> & _ & _).
  rewrite (proj2 (Z.ltb_ge MAX_PAYLOAD _) Hn'), !Z.eqb_refl, (proj2 (Z.eqb_neq (ipc_chunk_size data pos) 0)) by lia. cbn [negb orb].
  do 2 f_equal.
Qed.
(** A chunk that follows what is there, and one that does not. *)
Definition follows (pos : Z) (A : aframe) : Prop :=
  pos = 0 ∨ A = Some (at_ 0, take (Z.to_nat pos) data).
Lemma deliver_chunk pos A :
  0 ≤ pos < lenZ data → lenZ data ≤ MAX_FRAME → follows pos A →
  deliver_pure true true (datagram h data pos) A =
    if pos + ipc_chunk_size data pos <? lenZ data then (None, Some (at_ 0, take (Z.to_nat (pos + ipc_chunk_size data pos)) data))
    else (Some (at_ pos, data), None).
Proof.
  intros Hpos Hmax Hfo. pose proof (chunk_size_range data pos ltac:(lia) ltac:(lia)) as [Hn Hn'].
  unfold deliver_pure. rewrite recv_datagram_pure by done. cbn [take_pure].
  destruct (at_members pos Hpos) as (_ & _ & Et & Eo).
  assert (open_pure true (at_ pos) (if ih_offset (at_ pos) =? 0 then None else A) = Some (at_ 0, take (Z.to_nat pos) data)) as Eopen.
  { rewrite Eo. destruct (Z.eqb_spec pos 0) as [->|Hne].
    - cbn [open_pure]. rewrite Eo, Et, (proj2 (Z.eqb_neq (lenZ data) 0)), (proj2 (Z.ltb_ge _ _) Hmax) by lia. done.
    - destruct Hfo as [->| ->]; done. }
  unfold feed_pure. rewrite Eopen. unfold add_pure. unfold at_ at 1 2. rewrite same_frame_chunks, Eo.
  destruct (at_members 0 ltac:(lia)) as (_ & _ & -> & _).
  assert (lenZ (take (Z.to_nat pos) data) = pos) as -> by (unfold lenZ in *; rewrite length_take; lia).
  assert (lenZ (take (Z.to_nat (ipc_chunk_size data pos)) (drop (Z.to_nat pos) data)) = ipc_chunk_size data pos) as ->
    by (unfold lenZ in *; rewrite length_take, length_drop; lia).
  rewrite Z.eqb_refl, (proj2 (Z.ltb_ge (lenZ data) (pos + ipc_chunk_size data pos))) by lia. cbn [negb orb].
  rewrite take_take_drop, <- Z2Nat.inj_add by lia.
  change (ih_flags (at_ pos)) with (if pos + ipc_chunk_size data pos <? lenZ data then u16 (Z.lor (ih_flags h) FLAG_MORE)
                 else u16 (Z.land (ih_flags h) (Z.lnot FLAG_MORE))).
  destruct (Z.ltb_spec (pos + ipc_chunk_size data pos) (lenZ data)) as [Hm|Hm]; [by rewrite flag_more|]. rewrite flag_last. cbn [Z.eqb negb].
  rewrite firstn_all2 by (unfold lenZ in *; lia). by rewrite Z.eqb_refl.
Qed.
Lemma deliver_chunk_refused pos A :
  0 ≤ pos < lenZ data → MAX_FRAME < lenZ data → pos = 0 ∨ A = None →
  deliver_pure true true (datagram h data pos) A = (None, None).
Proof.
  intros Hpos Hmax HA. unfold deliver_pure. rewrite recv_datagram_pure by done. cbn [take_pure].
  destruct (at_members pos Hpos) as (_ & _ & Et & Eo).
  assert (open_pure true (at_ pos) (if ih_offset (at_ pos) =? 0 then None else A) = None) as Eopen.
  { assert (open_pure true (at_ pos) None = None) as Hn
      by (cbn [open_pure]; rewrite Et, (proj2 (Z.ltb_lt _ _) Hmax), !orb_true_r; done).
    rewrite Eo. destruct (Z.eqb_spec pos 0); [exact Hn|]. destruct HA as [|HA]; [done|]. rewrite HA. exact Hn. }
  unfold feed_pure. by rewrite Eopen.
Qed.

Definition granted (ds : list (list Z)) : list (list Z * (bool * bool)) := (λ d, (d, (true, true))) <$> ds.
Lemma deliver_chunks fuel : ∀ pos j A,
  0 ≤ pos ≤ lenZ data → lenZ data - pos ≤ Z.of_nat fuel * MAX_PAYLOAD → lenZ data ≤ MAX_FRAME → follows pos A →
  ∃ A' hl, (∀ p, frame_of_header hl p = frame_of_header h p) ∧
    deliver_all_pure (granted (take j (chunks fuel h data pos))) A =
      (if bool_decide (length (chunks fuel h data pos) ≤ j)%nat && (pos <? lenZ data) then [(hl, data)] else [], A').
Proof.
  induction fuel as [|fuel IH]; intros pos j A Hpos Hfuel Hmax Hfo; cbn [chunks].
  { rewrite (proj2 (Z.ltb_ge pos (lenZ data))) by lia. rewrite andb_false_r, take_nil. by exists A, h. }
  destruct (Z.ltb_spec pos (lenZ data)) as [Hlt|Hge]; [|rewrite andb_false_r, take_nil; by exists A, h].
  pose proof (chunk_size_range data pos ltac:(lia) ltac:(lia)) as [Hn Hn']. set (n := ipc_chunk_size data pos) in *.
  destruct j as [|j]; cbn [take granted fmap list_fmap deliver_all_pure]; [by exists A, h|].
  rewrite deliver_chunk by (done || lia). fold n.
  assert (lenZ data - (pos + n) ≤ Z.of_nat fuel * MAX_PAYLOAD) as Hf' by (unfold n, ipc_chunk_size, MAX_PAYLOAD, MAX_DATAGRAM, HEADER_MAX in *; lia).
  destruct (Z.ltb_spec (pos + n) (lenZ data)) as [Hm|Hm].
  - destruct (IH (pos + n) j (Some (at_ 0, take (Z.to_nat (pos + n)) data)) ltac:(lia) Hf' Hmax ltac:(by right)) as (A' & hl & Hhl & E).
    exists A', hl. split; [done|]. rewrite (proj2 (Z.ltb_lt _ _) Hm) in E. fold (granted (take j (chunks fuel h data (pos + n)))). rewrite E. cbn [option_list app length].
    f_equal. case_bool_decide; case_bool_decide; done || lia.
  - rewrite chunks_nil, take_nil by lia. exists None, (at_ pos). split; [done|].
    rewrite bool_decide_eq_true_2 by (cbn; lia). done.
Qed.
Lemma deliver_chunks_refused fuel : ∀ pos j A,
  0 ≤ pos → MAX_FRAME < lenZ data → pos = 0 ∨ A = None →
  ∃ A', deliver_all_pure (granted (take j (chunks fuel h data pos))) A = ([], A').
Proof.
  induction fuel as [|fuel IH]; intros pos j A Hpos Hmax HA; cbn [chunks]; [rewrite take_nil; by exists A|].
  destruct (Z.ltb_spec pos (lenZ data)) as [Hlt|Hge]; [|rewrite take_nil; by exists A].
  pose proof (chunk_size_range data pos ltac:(lia) ltac:(lia)) as [Hn Hn'].
  destruct j as [|j]; cbn [take granted fmap list_fmap deliver_all_pure]; [by exists A|].
  rewrite deliver_chunk_refused by (done || lia).
  destruct (IH (pos + ipc_chunk_size data pos) j None ltac:(lia) Hmax ltac:(by right)) as [A' E]. exists A'.
  fold (granted (take j (chunks fuel h data (pos + ipc_chunk_size data pos)))). by rewrite E.
Qed.
End round_trip.

(** ** A session's frames *)

Record hop_ok (x : hop) : Prop := {
  hk_bytes : bytes (hop_data x);
  hk_pts : is_s64 (pts (hop_frame x)); hk_dts : is_s64 (dts (hop_frame x));
  hk_media_type : 0 ≤ media_type (hop_frame x) < 2 ^ 32; hk_codec : 0 ≤ codec (hop_frame x) < 2 ^ 32;
  hk_payload_format : 0 ≤ payload_format (hop_frame x) < 2 ^ 32;
  hk_track_index : 0 ≤ track_index (hop_frame x) < 2 ^ 32 }.
Lemma route_header_ok hash inc session f seq x :
  hop_ok x → f = hop_frame x → is_u64 hash → is_u64 inc → is_u64 session → is_u64 seq →
  header_ok (route_header hash inc session f seq) ∧
  ∀ p, frame_of_header (route_header hash inc session f seq) p = set_payload p f.
Proof.
  intros [] -> Hh Hi Hs Hq. unfold route_header, u32. rewrite !Z.mod_small by done. split.
  - split; cbn [ih_version ih_type ih_flags ih_length ih_total ih_offset ih_hash ih_incarnation ih_sequence
      ih_pts ih_dts ih_media_type ih_codec ih_payload_format ih_track_index ih_keyframe ih_config ih_source_type ih_priority ih_session];
      try done; try (unfold IPC_VERSION, IPC_MSG_VIDEO, IPC_MSG_AUDIO, IPC_MSG_DATA; repeat case_match; lia).
  - intros p. unfold frame_of_header, set_payload. cbn. by destruct (keyframe (hop_frame x)), (config (hop_frame x)).
Qed.

(** A frame handed out is the one handed over. *)
Definition gives (x : ipc_header * list Z) (y : frame * list Z) : Prop :=
  x.2 = y.2 ∧ ∀ p, frame_of_header x.1 p = set_payload p y.1.
Lemma deliver_all_pure_app l1 l2 A :
  deliver_all_pure (l1 ++ l2) A =
    ((deliver_all_pure l1 A).1 ++ (deliver_all_pure l2 (deliver_all_pure l1 A).2).1,
     (deliver_all_pure l2 (deliver_all_pure l1 A).2).2).
Proof.
  revert A. induction l1 as [|[d [a b]] l1 IH]; intros A; cbn [app deliver_all_pure].
  { apply surjective_pairing. }
  destruct (deliver_pure a b d A) as [o A1]. rewrite IH. destruct (deliver_all_pure l1 A1) as [r A2]. cbn [fst snd].
  by rewrite app_assoc.
Qed.
Lemma deliver_sending y A :
  header_ok (se_header y) → ih_version (se_header y) = IPC_VERSION → bytes (se_data y) → lenZ (se_data y) < 2 ^ 32 →
  (∀ p, frame_of_header (se_header y) p = set_payload p (hop_frame (se_hop y))) →
  ∃ l A', deliver_all_pure (granted (ipc_wire y)) A = (l, A') ∧ Forall2 gives l (option_list (arrives y)).
Proof.
  intros Hh Hv Hd Hlen Hf. pose proof (lenZ_nonneg (se_data y)) as H0. unfold ipc_wire, frame_chunks, arrives, sent_whole, frame_chunks.
  destruct (Z.eqb_spec (lenZ (se_data y)) 0) as [E0|E0].
  - rewrite (proj2 (Z.ltb_ge 0 (lenZ (se_data y)))) by lia. rewrite andb_false_r. cbn [andb option_list].
    destruct (se_sent y) as [|j]; [by exists [], A|]. cbn [take]. rewrite take_nil.
    exists [], A. split; [|constructor]. cbn [granted fmap list_fmap deliver_all_pure]. unfold deliver_pure.
    rewrite recv_header_pure by done. done.
  - assert (lenZ (se_data y) - 0 ≤ Z.of_nat (S (Z.to_nat (lenZ (se_data y) / MAX_PAYLOAD))) * MAX_PAYLOAD) as Hfuel.
    { unfold MAX_PAYLOAD, MAX_DATAGRAM, HEADER_MAX. set (m := 64 * 1024 - 96).
      pose proof (Z.div_mod (lenZ (se_data y)) m ltac:(lia)). pose proof (Z.mod_pos_bound (lenZ (se_data y)) m ltac:(lia)).
      pose proof (Z.div_pos (lenZ (se_data y)) m ltac:(lia) ltac:(lia)). lia. }
    rewrite (proj2 (Z.ltb_lt 0 (lenZ (se_data y)))) by lia. rewrite andb_true_r.
    destruct (Z.leb_spec (lenZ (se_data y)) MAX_FRAME) as [Hmax|Hmax].
    + destruct (deliver_chunks (se_header y) (se_data y) Hh Hv Hlen _ 0 (se_sent y) A ltac:(lia) Hfuel Hmax ltac:(by left)) as (A' & hl & Hhl & E).
      eexists _, A'. split; [exact E|]. rewrite (proj2 (Z.ltb_lt 0 (lenZ (se_data y)))), !andb_true_r by lia.
      case_bool_decide; [|constructor]. constructor; [|constructor]. split; [done|]. intros p. by rewrite Hhl.
    + destruct (deliver_chunks_refused (se_header y) (se_data y) Hh Hv Hlen (S (Z.to_nat (lenZ (se_data y) / MAX_PAYLOAD))) 0 (se_sent y) A
        ltac:(lia) Hmax ltac:(by left)) as [A' E].
      eexists _, A'. split; [exact E|]. rewrite andb_false_r. constructor.
Qed.

Record sending_ok (y : sending) : Prop := {
  sk_header : header_ok (se_header y); sk_version : ih_version (se_header y) = IPC_VERSION;
  sk_bytes : bytes (se_data y); sk_len : lenZ (se_data y) < 2 ^ 32;
  sk_frame p : frame_of_header (se_header y) p = set_payload p (hop_frame (se_hop y)) }.
Lemma deliver_sendings ys : ∀ A,
  Forall sending_ok ys →
  ∃ l A', deliver_all_pure (granted (concat (ipc_wire <$> ys))) A = (l, A') ∧ Forall2 gives l (omap arrives ys).
Proof.
  induction ys as [|y ys IH]; intros A Hok; [by exists [], A|]. inversion_clear Hok as [|? ? Hy Hok'].
  destruct (deliver_sending y A) as (l1 & A1 & E1 & H1); [apply Hy..|]. destruct (IH A1 Hok') as (l2 & A2 & E2 & H2).
  exists (l1 ++ l2), A2. cbn [fmap list_fmap concat]. unfold granted. rewrite fmap_app. fold (granted (ipc_wire y)).
  fold (granted (concat (ipc_wire <$> ys))). rewrite deliver_all_pure_app, E1. cbn [fst snd]. rewrite E2. split; [done|].
  cbn [omap list_omap]. destruct (arrives y) as [g|]; cbn [option_list] in H1.
  - inversion H1 as [|? ? ? ? Hg Hnil]; subst. inversion Hnil; subst. by constructor.
  - by inversion H1; subst.
Qed.
Lemma chunks_bytes fuel h data : ∀ pos, bytes data → Forall bytes (chunks fuel h data pos).
Proof.
  induction fuel as [|fuel IH]; intros pos Hd; cbn [chunks]; [constructor|]. destruct (pos <? lenZ data); constructor; [|by apply IH].
  unfold datagram, bytes. apply Forall_app_2; [apply header_bytes_ok|by apply Forall_take, Forall_drop].
Qed.
Lemma wire_bytes y : bytes (se_data y) → Forall bytes (ipc_wire y).
Proof.
  intros Hd. apply Forall_take. unfold frame_chunks. destruct (_ =? _); [|by apply chunks_bytes].
  constructor; [apply header_bytes_ok|constructor].
Qed.

Lemma flow_admit_sequence fl v k c : is_u64 (fl_sequence fl) → is_u64 (fl_sequence (flow_admit fl v k c).2).
Proof. intros H. unfold flow_admit. case_match; [apply u64_range|done]. Qed.
Lemma flow_sent_sequence fl v k c r : is_u64 (fl_sequence (flow_sent fl v k c r)).
Proof. unfold flow_sent. repeat case_match; apply u64_range. Qed.
Lemma sendings_ok hash inc session s xs : ∀ fl,
  Forall hop_ok xs → Forall (hop_in s) xs → is_u64 hash → is_u64 inc → is_u64 session → is_u64 (fl_sequence fl) →
  Forall sending_ok (omap id (sendings hash inc session xs fl)).
Proof.
  induction xs as [|x xs IH]; intros fl Hok Hin Hh Hi Hs Hq; cbn [sendings]; [constructor|].
  inversion_clear Hok as [|? ? Hx Hok']. inversion_clear Hin as [|? ? (buf & Hp & b & Hb & Hdata & Hlen & Hsmall) Hin'].
  pose proof (flow_admit_sequence fl (is_video (hop_frame x)) (keyframe (hop_frame x)) (config (hop_frame x)) Hq) as Hq'.
  destruct (flow_admit _ _ _ _) as [[] fl1]; cbn [omap list_omap id snd] in *; [|by apply IH]. constructor.
  - destruct (route_header_ok hash inc session (hop_frame x) (fl_sequence fl1) x) as [? ?]; [done..|].
    split; try done. apply Hx.
  - apply IH; try done. apply flow_sent_sequence.
Qed.
Lemma granted_all (l : list (list Z * (bool * bool))) : Forall (λ x, x.2 = (true, true)) l → l = granted l.*1.
Proof. induction 1 as [|[d ab] l E _ IH]; [done|]. cbn in *. subst ab. by f_equal. Qed.

(** ** A session, end to end *)

(** C29: The frames of a session whose stream another worker owns arrive there whole or not at
    all.  The session hands the frames of its source over, holding video back after a loss, and
    every [sendmsg] may fail at any chunk; the owner, whose allocator does not refuse, is fed
    the datagrams that were sent, from any state of its reassembly.  Then it makes exactly the
    frames all of whose chunks were sent, when they are neither empty nor over the bound, in
    the order they were handed over, each equal to the frame sent with its bytes in a payload
    of its own; no frame is spliced out of two, and every buffer is accounted for. *)
Theorem routed_frames_whole hash inc session xs fl ep er f L A ss sr :
  is_u64 hash → is_u64 inc → is_u64 session → is_u64 (fl_sequence fl) → 0 ≤ ep_fd ep → 0 ≤ ep_fd er →
  Forall hop_ok xs → Forall (hop_in ss) xs → frame_st sr f L A → no_refusal sr →
  wp (routed_session hash inc session xs (Some ep) fl) (λ r ss', ss' = ss ∧
    wp (deliver_all (Some er) r.2 f) (λ o sr', ∃ A',
      frame_st sr' o.2 (holds o.1 ++ L) A' ∧
      Forall2 (λ g y, ∃ id, g = set_payload (Some id) y.1 ∧ st_bufs sr' !! id = Some (mk_buf 1 (lenZ y.2) (lenZ y.2) y.2))
        o.1 (omap arrives (omap id (sendings hash inc session xs fl)))) sr) ss.
Proof.
  intros Hh Hi Hs Hq Hep Her Hok Hin Hst Hall. eapply wp_mono; [by apply wp_routed_session|].
  intros [[e' fl'] ds] ss' [-> Hds]. cbn [snd] in *. split; [done|].
  assert (Forall sending_ok (omap id (sendings hash inc session xs fl))) as Hys by (by eapply sendings_ok).
  set (ys := omap id (sendings hash inc session xs fl)) in *.
  assert (Forall bytes ds) as Hdb.
  { rewrite Hds. clear -Hys. induction Hys as [|y ys Hy _ IH]; cbn; [constructor|]. apply Forall_app_2; [|exact IH]. apply wire_bytes, Hy. }
  eapply wp_mono; [by apply (wp_deliver_all er ds f L A)|]. intros [o f2] s2 (l & Hl & Hg & _ & Hst2 & Ho). cbn [fst snd] in *.
  pose proof (granted_all l (Hg Hall)) as El. rewrite Hl, Hds in El.
  destruct (deliver_sendings ys A Hys) as (out & A' & E & Hgives). rewrite El, E in Hst2, Ho. cbn [fst snd] in *.
  exists A'. split; [exact Hst2|]. revert Ho Hgives. generalize (omap arrives ys). clear. intros zs Ho. revert zs.
  induction Ho as [|g x o out (id & -> & Hb) _ IH]; intros zs Hz; inversion Hz as [|? z ? zs' [Ez Hf] Hz']; subst; constructor; [|by apply IH].
  exists id. rewrite Hf, <- Ez. done.
Qed.

(** No bytes between the workers break the owner, and what it makes of them is a function
    of them and of the allocator's answers ([deliver_all_pure]): for every run of datagrams, from
    any state of the reassembly, every call ends without touching memory it does not hold, a
    frame is handed out exactly where the function hands one out - its first chunk at offset 0,
    every later one of the same frame at the offset reached, the last filling what the first
    announced - and every buffer belongs to the reassembly, to a frame handed out or to whom it
    belonged before. *)
Theorem routed_any_datagrams ds e f L A s :
  frame_st s f L A → Forall bytes ds → 0 ≤ ep_fd e →
  wp (deliver_all (Some e) ds f) (λ r s', ∃ l, l.*1 = ds ∧ (no_refusal s → l = granted ds) ∧
    frame_st s' r.2 (holds r.1 ++ L) (deliver_all_pure l A).2 ∧
    Forall2 (handed s') r.1 (deliver_all_pure l A).1) s.
Proof.
  intros Hst Hds Hfd. eapply wp_mono; [by apply wp_deliver_all|]. intros r s' (l & Hl & Hall & _ & Hst' & Hg).
  exists l. split; [exact Hl|]. split; [|by split]. intros H. rewrite <- Hl. by apply granted_all, Hall.
Qed.

(** ** Video after a loss *)

(** Everything but a video frame that only others make decodable. *)
Definition delta (x : hop) : bool := is_video (hop_frame x) && negb (keyframe (hop_frame x)) && negb (config (hop_frame x)).
Definition sync_point (x : hop) : bool := is_video (hop_frame x) && keyframe (hop_frame x) && negb (config (hop_frame x)).

Section flow.
Context (hash inc session : Z).
Notation sendings := (sendings hash inc session).
Let outcome (x : hop) (fl : flow) : sending := sending_of hash inc session x (fl_sequence fl).

Lemma sendings_cons x xs fl :
  sendings (x :: xs) fl =
    if fl_resync fl && delta x
    then None :: sendings xs (fl <| fl_dropped ::= λ n, n ⊕ 1 |> <| fl_sequence ::= λ n, n ⊕ 1 |>)
    else Some (outcome x fl) :: sendings xs (flow_sent fl (is_video (hop_frame x)) (keyframe (hop_frame x)) (config (hop_frame x))
           (if sent_whole (outcome x fl) then NGX_OK else NGX_AGAIN)).
Proof. cbn [IpcLink.sendings]. unfold flow_admit, delta. rewrite !andb_assoc. by destruct (_ && _). Qed.
Lemma flow_sent_resync x fl (b : bool) :
  fl_resync (flow_sent fl (is_video (hop_frame x)) (keyframe (hop_frame x)) (config (hop_frame x)) (if b then NGX_OK else NGX_AGAIN)) =
    if b then fl_resync fl && negb (sync_point x) else true.
Proof.
  unfold flow_sent, sync_point. destruct b; cbn [bool_decide negb]; [|done]. cbn. destruct (_ && _); cbn; [by rewrite andb_false_r|by rewrite andb_true_r].
Qed.

(** Where the frames held back and the frames sent come from. *)
Lemma sendings_hop xs : ∀ fl j y, sendings xs fl !! j = Some (Some y) → xs !! j = Some (se_hop y).
Proof.
  induction xs as [|x xs IH]; intros fl j y H; [done|]. rewrite sendings_cons in H.
  destruct (_ && _); destruct j as [|j]; cbn in H; try done; [by eapply IH|injection H as <-; done|by eapply IH].
Qed.
Lemma delta_after_loss xs : ∀ fl j y,
  fl_resync fl = true → sendings xs fl !! j = Some (Some y) → delta (se_hop y) = true →
  ∃ k z, (k < j)%nat ∧ sendings xs fl !! k = Some (Some z) ∧ sent_whole z = true ∧ sync_point (se_hop z) = true.
Proof.
  induction xs as [|x xs IH]; intros fl j y Hre Hj Hdy; [done|]. rewrite sendings_cons in *. rewrite Hre in *. cbn [andb] in *.
  destruct (delta x) eqn:Ed.
  - destruct j as [|j]; cbn in Hj; [done|]. apply IH in Hj as (k & z & Hk & Hz & Hc & Hs); [|exact Hre|exact Hdy].
    exists (S k), z. split; [lia|]. by split.
  - destruct j as [|j]; cbn in Hj; [injection Hj as <-; cbn in Hdy; congruence|].
    destruct (sent_whole (outcome x fl)) eqn:Ec.
    + destruct (sync_point x) eqn:Es; [exists 0%nat, (outcome x fl); split; [lia|]; by split|].
      apply IH in Hj as (k & z & Hk & Hz & Hc & Hs); [exists (S k), z; split; [lia|]; by split| |exact Hdy].
      rewrite (flow_sent_resync x fl true). by rewrite Hre, Es.
    + apply IH in Hj as (k & z & Hk & Hz & Hc & Hs); [exists (S k), z; split; [lia|]; by split| |exact Hdy].
      by rewrite (flow_sent_resync x fl false).
Qed.
(** The video flows again: a keyframe was handed over whole. *)
Definition resumes (o : option (option sending)) : Prop :=
  ∃ z, o = Some (Some z) ∧ sent_whole z = true ∧ sync_point (se_hop z) = true.
Lemma held_after_loss xs : ∀ fl j x,
  sendings xs fl !! j = Some None → xs !! j = Some x →
  delta x = true ∧
  ((fl_resync fl = true ∧ ∀ k, (k < j)%nat → ¬ resumes (sendings xs fl !! k)) ∨
   ∃ i y, (i < j)%nat ∧ sendings xs fl !! i = Some (Some y) ∧ sent_whole y = false ∧
     ∀ k, (i < k < j)%nat → ¬ resumes (sendings xs fl !! k)).
Proof.
  induction xs as [|x0 xs IH]; intros fl j x Hj Hx; [done|]. rewrite sendings_cons in *.
  set (o0 := if fl_resync fl && delta x0 then None else Some (outcome x0 fl)).
  assert (∃ fl', (if fl_resync fl && delta x0 then None :: sendings xs (fl <| fl_dropped ::= λ n, n ⊕ 1 |> <| fl_sequence ::= λ n, n ⊕ 1 |>)
      else Some (outcome x0 fl) :: sendings xs (flow_sent fl (is_video (hop_frame x0)) (keyframe (hop_frame x0)) (config (hop_frame x0))
           (if sent_whole (outcome x0 fl) then NGX_OK else NGX_AGAIN))) = o0 :: sendings xs fl' ∧
      (fl_resync fl' = true → (∃ y, o0 = Some y ∧ sent_whole y = false) ∨ fl_resync fl = true ∧ ¬ resumes (Some o0)) ∧
      (o0 = None → fl_resync fl = true ∧ delta x0 = true)) as (fl1 & E & Hre & Hnone).
  { unfold o0. destruct (fl_resync fl && delta x0) eqn:Eh; eexists; split; [done| |done|].
    - apply andb_true_iff in Eh as [Er Ed]. split; [intros _; right; split; [done|by intros (? & ? & _)]|done].
    - split; [|done]. rewrite flow_sent_resync. destruct (sent_whole (outcome x0 fl)) eqn:Ew; [|intros _; left; by eexists].
      intros [Hr Hs]%andb_true_iff. right. split; [done|]. intros (z & [= <-] & _ & Hz).
      change (se_hop (outcome x0 fl)) with x0 in Hz. by rewrite Hz in Hs. }
  rewrite E in *. clear E. destruct j as [|j]; cbn in Hj, Hx.
  - injection Hj as Hj. injection Hx as <-. destruct (Hnone Hj) as [Hr Hd]. split; [done|]. left. split; [done|]. intros k Hk. lia.
  - destruct (IH _ _ _ Hj Hx) as [Hd H]. split; [exact Hd|]. destruct H as [[Hr Hno]|(i & y & Hi & Hy & Hc & Hno)].
    + destruct (Hre Hr) as [(y & -> & Hy)|[Hr0 Hn0]].
      * right. exists 0%nat, y. split; [lia|]. split; [done|]. split; [done|]. intros [|k] Hk; [lia|]. cbn. apply Hno. lia.
      * left. split; [done|]. intros [|k] Hk; [exact Hn0|]. cbn. apply Hno. lia.
    + right. exists (S i), y. split; [lia|]. split; [done|]. split; [done|]. intros [|k] Hk; [lia|]. cbn. apply Hno. lia.
Qed.
Lemma sequence_counts xs : ∀ fl j y,
  is_u64 (fl_sequence fl) → sendings xs fl !! j = Some (Some y) → ih_sequence (se_header y) = u64 (fl_sequence fl + Z.of_nat j).
Proof.
  induction xs as [|x xs IH]; intros fl j y Hq Hj; [done|]. rewrite sendings_cons in Hj.
  assert (∀ fl', fl_sequence fl' = u64 (fl_sequence fl + 1) → ∀ j, sendings xs fl' !! j = Some (Some y) →
    ih_sequence (se_header y) = u64 (fl_sequence fl + Z.of_nat (S j))) as Hnext.
  { intros fl' E i Hi. apply IH in Hi; [|rewrite E; apply u64_range]. rewrite Hi, E, u64_add_l. f_equal. lia. }
  destruct (_ && _); destruct j as [|j]; cbn in Hj; try done; [eapply Hnext; [|exact Hj]; done|injection Hj as <-|].
  - cbn. rewrite Z.add_0_r, u64_small; [done|exact Hq].
  - eapply Hnext; [|exact Hj]. unfold flow_sent. repeat case_match; done.
Qed.
End flow.

(** C30: After a loss no video goes into the gap, and nothing more is held back than that.  Once
    a frame was not handed over whole, a video frame that is neither a keyframe nor
    configuration is sent again only after a keyframe that was handed over whole; a frame that is
    held back is such a video frame, with a loss before it and no keyframe handed over whole in
    between; and the number a frame is sent with counts the frames before it, held back or not.
    Handed over whole means that the socket took every chunk, which is all the sender is told: a
    frame over 4 MiB counts as handed over although its owner refuses it
    ([oversized_frame_lost]). *)
Theorem routed_resync hash inc session xs fl :
  is_u64 (fl_sequence fl) → fl_resync fl = false →
  let out := sendings hash inc session xs fl in
  (∀ i j x y, (i < j)%nat → out !! i = Some (Some x) → sent_whole x = false → out !! j = Some (Some y) → delta (se_hop y) = true →
     ∃ k, (i < k < j)%nat ∧ resumes (out !! k)) ∧
  (∀ j x, out !! j = Some None → xs !! j = Some x →
     delta x = true ∧ ∃ i y, (i < j)%nat ∧ out !! i = Some (Some y) ∧ sent_whole y = false ∧
       ∀ k, (i < k < j)%nat → ¬ resumes (out !! k)) ∧
  (∀ j y, out !! j = Some (Some y) → xs !! j = Some (se_hop y) ∧ ih_sequence (se_header y) = u64 (fl_sequence fl + Z.of_nat j)).
Proof.
  intros Hq Hre out. unfold out. split; [|split].
  - clear Hq Hre out. revert fl. induction xs as [|x0 xs IH]; intros fl i j x y Hij Hi Hc Hj Hd; [done|].
    destruct j as [|j]; [lia|]. rewrite sendings_cons in Hi, Hj |- *. destruct i as [|i].
    + destruct (fl_resync fl && delta x0); cbn in Hi; [done|]. injection Hi as <-. cbn in Hj. rewrite Hc in Hj |- *.
      eapply delta_after_loss in Hj as (k & z & Hk & Hz & Hcz & Hs); [|by rewrite (flow_sent_resync x0 fl false)|exact Hd].
      exists (S k). split; [lia|]. by exists z.
    + destruct (fl_resync fl && delta x0); cbn in Hi, Hj;
        (edestruct IH as (k & Hk & Hz); [|exact Hi|exact Hc|exact Hj|exact Hd|]; [lia|]; exists (S k); split; [lia|]; exact Hz).
  - intros j x Hj Hx. destruct (held_after_loss _ _ _ _ _ _ _ Hj Hx) as [Hd [[H _]|H]]; [congruence|by split].
  - intros j y Hj. split; [by eapply sendings_hop|by eapply sequence_counts].
Qed.

(** A frame over the bound is sent, and acknowledged, and never arrives. *)
Lemma oversized_frame_lost y : MAX_FRAME < lenZ (se_data y) → arrives y = None.
Proof. intros H. unfold arrives. by rewrite (proj2 (Z.leb_gt _ _) H), andb_false_r. Qed.

(** ** An example

    A keyframe, a frame whose chunk is not sent, one that is held back and the next keyframe. *)
Definition ex_hop (key : bool) (p d : Z) (data : list Z) (id : N) (r : sendmsg_result) : hop :=
  mk_hop (mk_frame TYPE_VIDEO 1 1 0 p d key false (Some id)) data (λ _, r).
Definition ex_hops : list hop :=
  [ex_hop true 0 0 [1; 2; 3] 0 Sent; ex_hop false 40 40 [4; 5] 1 SendFull; ex_hop false 80 80 [6] 2 Sent; ex_hop true 120 120 [7; 8] 3 Sent].
Definition ex_sender : store :=
  mk_store (<[0%N := mk_buf 1 3 3 [1; 2; 3]]> (<[1%N := mk_buf 1 2 2 [4; 5]]>
    (<[2%N := mk_buf 1 1 1 [6]]> (<[3%N := mk_buf 1 2 2 [7; 8]]> ∅)))) 4 (λ _ _, true).
Definition ex_owner : store := mk_store ∅ 0 (λ _ _, true).
Definition ex_endpoint : endpoint := mk_endpoint 7 0 0 0.

Lemma ex_owner_st : frame_st ex_owner ipc_frame_zero [] None.
Proof. split; [|done]. split; [split|..]; cbn; [done|done|done|]. intros id _. apply not_elem_of_nil. Qed.
Lemma ex_hop_ok key p d data id r : bytes data → is_s64 p → is_s64 d → hop_ok (ex_hop key p d data id r).
Proof. intros. by split. Qed.
Lemma ex_hops_ok : Forall hop_ok ex_hops.
Proof.
  unfold ex_hops. repeat apply Forall_cons_2; try apply Forall_nil_2; apply ex_hop_ok;
    by apply (bool_decide_unpack _).
Qed.
Lemma ex_hops_in : Forall (hop_in ex_sender) ex_hops.
Proof. repeat constructor; eexists; (split; [reflexivity|]); eexists; (split; [reflexivity|]); done. Qed.

Lemma routed_frames_whole_witness :
  (* the second frame was lost, the third held back *)
  (match sendings 1 1 1 ex_hops flow_zero with [Some _; Some y; None; Some _] => sent_whole y = false | _ => False end) ∧
  wp (routed_session 1 1 1 ex_hops (Some ex_endpoint) flow_zero) (λ r ss', ss' = ex_sender ∧
    wp (deliver_all (Some ex_endpoint) r.2 ipc_frame_zero) (λ o sr', ∃ A',
      frame_st sr' o.2 (holds o.1 ++ []) A' ∧
      Forall2 (λ g y, ∃ id, g = set_payload (Some id) y.1 ∧ st_bufs sr' !! id = Some (mk_buf 1 (lenZ y.2) (lenZ y.2) y.2))
        o.1 [(mk_frame TYPE_VIDEO 1 1 0 0 0 true false (Some 0%N), [1; 2; 3]); (mk_frame TYPE_VIDEO 1 1 0 120 120 true false (Some 3%N), [7; 8])])
      ex_owner) ex_sender.
Proof.
  split; [reflexivity|].
  apply (routed_frames_whole 1 1 1 ex_hops flow_zero ex_endpoint ex_endpoint ipc_frame_zero [] None ex_sender ex_owner);
    [unfold is_u64; lia..|unfold is_u64; cbn; lia|cbn; lia|cbn; lia|exact ex_hops_ok|exact ex_hops_in|exact ex_owner_st|done].
Defined.
Lemma routed_any_datagrams_witness :
  wp (deliver_all (Some ex_endpoint) [[]; [1; 2; 3]; replicate 96 4] ipc_frame_zero) (λ r s', ∃ l, l.*1 = [[]; [1; 2; 3]; replicate 96 4] ∧
    (no_refusal ex_owner → l = granted [[]; [1; 2; 3]; replicate 96 4]) ∧
    frame_st s' r.2 (holds r.1 ++ []) (deliver_all_pure l None).2 ∧
    Forall2 (handed s') r.1 (deliver_all_pure l None).1) ex_owner.
Proof.
  apply (routed_any_datagrams [[]; [1; 2; 3]; replicate 96 4] ex_endpoint ipc_frame_zero [] None ex_owner); [exact ex_owner_st| |cbn; lia].
  repeat constructor; cbn; unfold is_byte; lia.
Defined.
(** The loss at 1 holds back the frame at 2, and the keyframe at 3 ends it. *)
Lemma routed_resync_witness :
  let out := sendings 1 1 1 (ex_hops ++ [ex_hop false 160 160 [9] 3 Sent]) flow_zero in
  (∃ k, (1 < k < 4)%nat ∧ resumes (out !! k)) ∧
  ∃ i y, (i < 2)%nat ∧ out !! i = Some (Some y) ∧ sent_whole y = false ∧ ∀ k, (i < k < 2)%nat → ¬ resumes (out !! k).
Proof.
  destruct (routed_resync 1 1 1 (ex_hops ++ [ex_hop false 160 160 [9] 3 Sent]) flow_zero) as (H & Hheld & _); [unfold is_u64; cbn; lia|done|].
  split.
  - eapply (H 1%nat 4%nat); [lia|reflexivity|reflexivity|reflexivity|reflexivity].
  - eapply (Hheld 2%nat); reflexivity.
Defined.
