(* ===== verification/GraphOp.v ===== *)
(** * Graph operations between workers

    Models the wire side of core/ngx_media_graph.[ch] and the fan-out of
    core/ngx_media_route.c: a mutation of the graph is written into one payload, offered to
    every worker, kept in a bounded journal until all of them took it, and read back where it
    arrives. *)
From S2P Require Import Prelude Bytes Store Owner Source Ipc IpcLink.

Definition STREAM_SET : Z := 1.
Definition STREAM_DELETE : Z := 2.
Definition SOURCE_SET : Z := 3.
Definition SOURCE_DELETE : Z := 4.
Definition MSG_GRAPH : Z := 10.
Definition MEDIA_PROFILE : Z := 1.
Definition WIRE_SIZE : Z := 144.

Record graph_op := mk_graph_op {
  go_kind : Z; go_revision : Z; go_incarnation : Z; go_source_revision : Z; go_type : Z; go_priority : Z; go_enabled : bool;
  go_failure_timeout : Z; go_recovery_timeout : Z; go_media_mode : Z; go_application : list Z; go_name : list Z; go_id : list Z;
  go_path : list Z; go_ca_file : list Z; go_key_set : bool; go_key_hash : list Z; go_key_print : list Z;
  go_key_nonce_set : bool; go_key_nonce : list Z }.

(** ** The wire *)

(** The fixed part, then the strings in field order. *)
Definition graph_wire (op : graph_op) : list Z :=
  le 4 (go_kind op) ++ le 4 0 ++ le 8 (go_revision op) ++ le 8 (go_incarnation op) ++ le 8 (go_source_revision op)
  ++ le 4 (go_type op) ++ le 4 (go_priority op) ++ le 4 (if go_enabled op then 1 else 0) ++ le 4 (go_failure_timeout op)
  ++ le 4 (go_recovery_timeout op) ++ le 4 (go_media_mode op) ++ le 4 (lenZ (go_application op)) ++ le 4 (lenZ (go_name op))
  ++ le 4 (lenZ (go_id op)) ++ le 4 (lenZ (go_path op)) ++ le 4 (lenZ (go_ca_file op)) ++ le 4 (if go_key_set op then 1 else 0)
  ++ take KEY_HASH (go_key_hash op) ++ take KEY_PRINT (go_key_print op) ++ take KEY_NONCE (go_key_nonce op)
  ++ le 4 (if go_key_nonce_set op then 1 else 0).
Definition graph_copy (p value : list Z) : list Z := if lenZ value =? 0 then p else p ++ value.
Definition graph_payload (op : graph_op) : list Z :=
  graph_copy (graph_copy (graph_copy (graph_copy (graph_copy (graph_wire op)
    (go_application op)) (go_name op)) (go_id op)) (go_path op)) (go_ca_file op).
Definition graph_header (op : graph_op) : ipc_header :=
  mk_header IPC_VERSION MSG_GRAPH 0 0 0 0 (owner_hash (Some (go_application op)) (Some (go_name op))) (go_incarnation op)
    0 0 0 0 0 0 0 0 0 0 0 0.

Definition over_budget (op : graph_op) : bool :=
  (lenZ (go_application op) =? 0) || (lenZ (go_name op) =? 0)
  || (GRAPH_MAX_NAME <? lenZ (go_application op)) || (GRAPH_MAX_NAME <? lenZ (go_name op)) || (GRAPH_MAX_NAME <? lenZ (go_id op))
  || (GRAPH_MAX_PATH <? lenZ (go_path op)) || (GRAPH_MAX_PATH <? lenZ (go_ca_file op))
  || (2 ^ 32 - 1 <? go_priority op) || (2 ^ 32 - 1 <? go_failure_timeout op) || (2 ^ 32 - 1 <? go_recovery_timeout op)
  || (MEDIA_PROFILE <? go_media_mode op).
(** The header and the payload, or the error. *)
Definition graph_encode (op : graph_op) : M (option (ipc_header * N * Z)) :=
  if over_budget op then mret None
  else
    let len := WIRE_SIZE + lenZ (go_application op) + lenZ (go_name op) + lenZ (go_id op) + lenZ (go_path op) + lenZ (go_ca_file op) in
    if MAX_PAYLOAD <? len then mret None
    else
      p ← buf_alloc len;
      match p with
      | None => mret None
      | Some buf =>
          _ ← buf_write buf 0 (graph_payload op);
          _ ← buf_freeze (Some buf) (lenZ (graph_payload op));
          size ← buf_size (Some buf);
          mret (Some (graph_header op, buf, size))
      end.

(** [n] bytes at [off]. *)
Definition wire_slice (d : list Z) (off n : Z) : list Z := take (Z.to_nat n) (drop (Z.to_nat off) d).
Definition graph_decode (payload : option N) : M (option graph_op) :=
  match payload with
  | None => mret None
  | Some buf =>
      size ← buf_size (Some buf);
      if size <? WIRE_SIZE then mret None
      else
        w ← buf_read buf WIRE_SIZE;
        let app_len := member w 56 4 in let name_len := member w 60 4 in let id_len := member w 64 4 in
        let path_len := member w 68 4 in let ca_len := member w 72 4 in
        let need := WIRE_SIZE ⊕ app_len ⊕ name_len ⊕ id_len ⊕ path_len ⊕ ca_len in
        if negb (size =? need) || (app_len =? 0) || (name_len =? 0) then mret None
        else if (GRAPH_MAX_NAME <? app_len) || (GRAPH_MAX_NAME <? name_len) || (GRAPH_MAX_NAME <? id_len)
           || (GRAPH_MAX_PATH <? path_len) || (GRAPH_MAX_PATH <? ca_len) then mret None
        else
          let kind := member w 0 4 in
          if (kind <? STREAM_SET) || (SOURCE_DELETE <? kind) then mret None
          else
            let incarnation := member w 16 8 in
            if negb (kind =? STREAM_DELETE) && (incarnation =? 0) then mret None
            else if MEDIA_PROFILE <? member w 52 4 then mret None
            else
              d ← buf_read buf size;
              let p := drop (Z.to_nat WIRE_SIZE) d in
              mret (Some (mk_graph_op kind (member w 8 8) incarnation (member w 24 8) (member w 32 4) (member w 36 4)
                (negb (member w 40 4 =? 0)) (member w 44 4) (member w 48 4) (member w 52 4)
                (wire_slice p 0 app_len) (wire_slice p app_len name_len) (wire_slice p (app_len + name_len) id_len)
                (wire_slice p (app_len + name_len + id_len) path_len) (wire_slice p (app_len + name_len + id_len + path_len) ca_len)
                (negb (member w 76 4 =? 0)) (wire_slice w 80 (Z.of_nat KEY_HASH)) (wire_slice w 112 (Z.of_nat KEY_PRINT))
                (negb (member w 140 4 =? 0)) (wire_slice w 124 (Z.of_nat KEY_NONCE))))
  end.

(** ** Read back *)

(** An operation a replica accepts, its members at their widths. *)
Record graph_op_ok (op : graph_op) : Prop := {
  gk_budget : over_budget op = false; gk_kind : STREAM_SET ≤ go_kind op ≤ SOURCE_DELETE;
  gk_incarnation : is_u64 (go_incarnation op); gk_named : go_kind op = STREAM_DELETE ∨ go_incarnation op ≠ 0;
  gk_revision : is_u64 (go_revision op); gk_source_revision : is_u64 (go_source_revision op);
  gk_type : 0 ≤ go_type op < 2 ^ 32; gk_priority : 0 ≤ go_priority op < 2 ^ 32; gk_failure : 0 ≤ go_failure_timeout op < 2 ^ 32;
  gk_recovery : 0 ≤ go_recovery_timeout op < 2 ^ 32; gk_mode : 0 ≤ go_media_mode op;
  gk_hash : length (go_key_hash op) = KEY_HASH; gk_print : length (go_key_print op) = KEY_PRINT;
  gk_nonce : length (go_key_nonce op) = KEY_NONCE }.
(** The names, the paths and what bounds them. *)
Record in_budget (op : graph_op) : Prop := {
  ib_application : 0 < lenZ (go_application op) ≤ GRAPH_MAX_NAME; ib_name : 0 < lenZ (go_name op) ≤ GRAPH_MAX_NAME;
  ib_id : lenZ (go_id op) ≤ GRAPH_MAX_NAME; ib_path : lenZ (go_path op) ≤ GRAPH_MAX_PATH; ib_ca : lenZ (go_ca_file op) ≤ GRAPH_MAX_PATH;
  ib_priority : go_priority op < 2 ^ 32; ib_failure : go_failure_timeout op < 2 ^ 32; ib_recovery : go_recovery_timeout op < 2 ^ 32;
  ib_mode : go_media_mode op ≤ MEDIA_PROFILE }.
Lemma budget_spec op : over_budget op = false ↔ in_budget op.
Proof.
  unfold over_budget. rewrite !orb_false_iff, !Z.ltb_ge, !Z.eqb_neq.
  pose proof (lenZ_nonneg (go_application op)). pose proof (lenZ_nonneg (go_name op)).
  split; [intros H'; split; lia|intros []; lia].
Qed.

Lemma graph_copy_app p value : graph_copy p value = p ++ value.
Proof.
  unfold graph_copy. destruct (Z.eqb_spec (lenZ value) 0) as [E|]; [|done].
  destruct value; [by rewrite app_nil_r|]. unfold lenZ in E. cbn in E. lia.
Qed.
Lemma graph_payload_app op :
  graph_payload op = graph_wire op ++ go_application op ++ go_name op ++ go_id op ++ go_path op ++ go_ca_file op.
Proof. unfold graph_payload. rewrite !graph_copy_app, <- !app_assoc. done. Qed.
(** The keys are arrays of a fixed size. *)
Definition keys_sized (op : graph_op) : Prop :=
  length (go_key_hash op) = KEY_HASH ∧ length (go_key_print op) = KEY_PRINT ∧ length (go_key_nonce op) = KEY_NONCE.
Lemma graph_op_ok_sized op : graph_op_ok op → keys_sized op.
Proof. by intros []. Qed.
Lemma graph_wire_length op : keys_sized op → lenZ (graph_wire op) = WIRE_SIZE.
Proof.
  intros (Hh & Hp & Hn). unfold lenZ, graph_wire. rewrite !length_app, !le_length, !length_take, Hh, Hp, Hn. done.
Qed.
Lemma member_app a b off n : (off + n ≤ length a)%nat → member (a ++ b) off n = member a off n.
Proof. intros H. unfold member. rewrite drop_app_le by lia. rewrite take_app_le by (rewrite length_drop; lia). done. Qed.
Lemma wire_slice_at a l b off n : off = lenZ a → n = lenZ l → wire_slice (a ++ l ++ b) off n = l.
Proof. intros -> ->. unfold wire_slice, lenZ. rewrite !Nat2Z.id, drop_app_length, take_app_length. done. Qed.

(** A member of the fixed part, and the raw bytes behind the numbers. *)
Ltac wire_member :=
  rewrite ?member_skip by (rewrite !le_length; lia); rewrite ?le_length; cbn [Nat.sub]; rewrite member_le;
  change (256 ^ Z.of_nat 4) with (2 ^ 32); change (256 ^ Z.of_nat 8) with (2 ^ 64).
Lemma wire_numbers op (H : graph_op_ok op) :
  let w := graph_wire op in
  member w 0 4 = go_kind op ∧ member w 8 8 = go_revision op ∧ member w 16 8 = go_incarnation op ∧
  member w 24 8 = go_source_revision op ∧ member w 32 4 = go_type op ∧ member w 36 4 = go_priority op ∧
  member w 40 4 = (if go_enabled op then 1 else 0) ∧ member w 44 4 = go_failure_timeout op ∧
  member w 48 4 = go_recovery_timeout op ∧ member w 52 4 = go_media_mode op.
Proof.
  pose proof H as H'. destruct H'. apply budget_spec in gk_budget0 as [].
  unfold STREAM_SET, SOURCE_DELETE, MEDIA_PROFILE, is_u64 in *. cbv zeta. unfold graph_wire.
  split_and!; wire_member; try (apply Z.mod_small; lia). by destruct (go_enabled op).
Qed.
Lemma wire_lengths op (H : graph_op_ok op) :
  let w := graph_wire op in
  member w 56 4 = lenZ (go_application op) ∧ member w 60 4 = lenZ (go_name op) ∧ member w 64 4 = lenZ (go_id op) ∧
  member w 68 4 = lenZ (go_path op) ∧ member w 72 4 = lenZ (go_ca_file op) ∧ member w 76 4 = (if go_key_set op then 1 else 0).
Proof.
  destruct H. apply budget_spec in gk_budget0 as []. unfold GRAPH_MAX_NAME, GRAPH_MAX_PATH in *.
  pose proof (lenZ_nonneg (go_id op)). pose proof (lenZ_nonneg (go_path op)). pose proof (lenZ_nonneg (go_ca_file op)).
  cbv zeta. unfold graph_wire. split_and!; wire_member; try (apply Z.mod_small; lia). by destruct (go_key_set op).
Qed.
Lemma wire_keys op (H : graph_op_ok op) :
  let w := graph_wire op in
  wire_slice w 80 (Z.of_nat KEY_HASH) = go_key_hash op ∧ wire_slice w 112 (Z.of_nat KEY_PRINT) = go_key_print op ∧
  wire_slice w 124 (Z.of_nat KEY_NONCE) = go_key_nonce op ∧ member w 140 4 = (if go_key_nonce_set op then 1 else 0).
Proof.
  destruct H. cbv zeta. unfold graph_wire. rewrite !firstn_all2 by lia. unfold wire_slice. rewrite !Nat2Z.id.
  change (Z.to_nat 80) with 80%nat. change (Z.to_nat 112) with 112%nat. change (Z.to_nat 124) with 124%nat.
  split_and!.
  1,2,3: rewrite !drop_app_ge by (rewrite ?le_length, ?gk_hash0, ?gk_print0; unfold KEY_HASH, KEY_PRINT; cbn; lia);
    rewrite ?le_length, ?gk_hash0, ?gk_print0; unfold KEY_HASH, KEY_PRINT; cbn [Nat.sub]; rewrite drop_0;
    by rewrite take_app_length'.
  rewrite !member_skip by (rewrite ?le_length, ?gk_hash0, ?gk_print0, ?gk_nonce0; unfold KEY_HASH, KEY_PRINT, KEY_NONCE; cbn; lia).
  rewrite ?le_length, ?gk_hash0, ?gk_print0, ?gk_nonce0. unfold KEY_HASH, KEY_PRINT, KEY_NONCE. cbn [Nat.sub].
  rewrite <- (app_nil_r (le 4 _)), member_le. by destruct (go_key_nonce_set op).
Qed.

Lemma in_budget_fits op : in_budget op → keys_sized op → lenZ (graph_payload op) =
  WIRE_SIZE + lenZ (go_application op) + lenZ (go_name op) + lenZ (go_id op) + lenZ (go_path op) + lenZ (go_ca_file op) ∧
  lenZ (graph_payload op) ≤ MAX_PAYLOAD.
Proof.
  intros [] Hok. rewrite graph_payload_app, !lenZ_app, graph_wire_length by done.
  unfold WIRE_SIZE, GRAPH_MAX_NAME, GRAPH_MAX_PATH, MAX_PAYLOAD, MAX_DATAGRAM, HEADER_MAX in *. lia.
Qed.
Lemma decode_payload op : graph_op_ok op →
  let d := graph_payload op in let w := take (Z.to_nat WIRE_SIZE) d in let p := drop (Z.to_nat WIRE_SIZE) d in
  w = graph_wire op ∧ wire_slice p 0 (lenZ (go_application op)) = go_application op ∧
  wire_slice p (lenZ (go_application op)) (lenZ (go_name op)) = go_name op ∧
  wire_slice p (lenZ (go_application op) + lenZ (go_name op)) (lenZ (go_id op)) = go_id op ∧
  wire_slice p (lenZ (go_application op) + lenZ (go_name op) + lenZ (go_id op)) (lenZ (go_path op)) = go_path op ∧
  wire_slice p (lenZ (go_application op) + lenZ (go_name op) + lenZ (go_id op) + lenZ (go_path op)) (lenZ (go_ca_file op)) = go_ca_file op.
Proof.
  intros Hok. cbv zeta. pose proof (graph_wire_length op (graph_op_ok_sized op Hok)) as Hw. rewrite graph_payload_app.
  assert (Z.to_nat WIRE_SIZE = length (graph_wire op)) as -> by (unfold lenZ in Hw; lia).
  rewrite take_app_length, drop_app_length. split; [done|].
  set (a := go_application op). set (b := go_name op). set (c := go_id op). set (d := go_path op). set (e := go_ca_file op).
  split_and!.
  - by apply (wire_slice_at [] a).
  - by apply (wire_slice_at a b).
  - rewrite !app_assoc, <- (app_assoc _ _ e), <- (app_assoc _ _ (d ++ e)). apply (wire_slice_at (a ++ b) c); [by rewrite lenZ_app|done].
  - replace (a ++ b ++ c ++ d ++ e) with ((a ++ b ++ c) ++ d ++ e) by (by rewrite <- !app_assoc).
    apply wire_slice_at; [rewrite !lenZ_app; lia|done].
  - replace (a ++ b ++ c ++ d ++ e) with ((a ++ b ++ c ++ d) ++ e ++ []) by (by rewrite app_nil_r, <- !app_assoc).
    apply wire_slice_at; [rewrite !lenZ_app; lia|done].
Qed.
Lemma sum_small a b c d e f :
  0 ≤ a → 0 ≤ b → 0 ≤ c → 0 ≤ d → 0 ≤ e → 0 ≤ f → a + b + c + d + e + f < 2 ^ 64 →
  a ⊕ b ⊕ c ⊕ d ⊕ e ⊕ f = a + b + c + d + e + f.
Proof.
  intros. rewrite (u64_small (a + b)) by lia. rewrite (u64_small (a + b + c)) by lia.
  rewrite (u64_small (a + b + c + d)) by lia. rewrite (u64_small (a + b + c + d + e)) by lia. by rewrite u64_small by lia.
Qed.
Lemma wp_graph_decode op buf s b :
  graph_op_ok op → st_bufs s !! buf = Some b → b_data b = graph_payload op → b_len b = lenZ (graph_payload op) →
  wp (graph_decode (Some buf)) (λ o s', o = Some op ∧ s' = s) s.
Proof.
  intros Hok Hb Hd Hl. pose proof Hok as [Hbud%budget_spec Hk _ Hn _ _ _ _ _ _ Hm _ _ _]. pose proof Hbud as [].
  destruct (in_budget_fits op Hbud (graph_op_ok_sized op Hok)) as [Hlen Hmax].
  pose proof (lenZ_nonneg (go_id op)). pose proof (lenZ_nonneg (go_path op)). pose proof (lenZ_nonneg (go_ca_file op)).
  unfold graph_decode. apply wp_bind. eexists _, _. split; [unfold buf_size, deref, mbind, SM_bind; rewrite Hb; reflexivity|].
  rewrite Hl, (proj2 (Z.ltb_ge _ _)) by lia. apply wp_bind. eexists _, _. split.
  { unfold buf_read, deref, mbind, SM_bind. rewrite Hb, Hd. rewrite (proj2 (Z.leb_le _ _)) by (unfold lenZ in *; lia). reflexivity. }
  destruct (decode_payload op Hok) as (-> & Ha & Hnm & Hi & Hp & Hc).
  destruct (wire_lengths op Hok) as (-> & -> & -> & -> & -> & ->).
  destruct (wire_numbers op Hok) as (-> & -> & -> & -> & -> & -> & -> & -> & -> & ->).
  destruct (wire_keys op Hok) as (-> & -> & -> & ->).
  unfold GRAPH_MAX_NAME, GRAPH_MAX_PATH, MAX_PAYLOAD, MAX_DATAGRAM, HEADER_MAX, WIRE_SIZE, STREAM_SET, SOURCE_DELETE, MEDIA_PROFILE in *.
  rewrite sum_small by lia.
  rewrite Hlen, Z.eqb_refl, (proj2 (Z.eqb_neq (lenZ (go_application op)) 0)), (proj2 (Z.eqb_neq (lenZ (go_name op)) 0)) by lia. cbn [negb orb].
  rewrite !(proj2 (Z.ltb_ge _ _)) by lia. cbn [orb].
  assert (negb (go_kind op =? STREAM_DELETE) && (go_incarnation op =? 0) = false) as ->.
  { destruct Hn as [->|Hn]; [done|]. by rewrite (proj2 (Z.eqb_neq _ _) Hn), andb_false_r. }
  apply wp_bind. eexists _, _. split.
  { unfold buf_read, deref, mbind, SM_bind. rewrite Hb, Hd, <- Hlen. rewrite (proj2 (Z.leb_le _ _)) by (unfold lenZ in *; lia). reflexivity. }
  apply wp_ret. split; [|done]. rewrite firstn_all2 by (unfold lenZ; lia). rewrite Ha, Hnm, Hi, Hp, Hc.
  destruct op; cbn. by destruct go_enabled0, go_key_set0, go_key_nonce_set0.
Qed.

Lemma wp_graph_encode op L s :
  keys_sized op → owns s L →
  wp (graph_encode op) (λ r s', spared [] s s' ∧
    match r with
    | None => owns s' L ∧ (over_budget op = true ∨ ¬ no_refusal s)
    | Some (h, buf, len) => over_budget op = false ∧ h = graph_header op ∧ len = lenZ (graph_payload op) ∧
        owns s' (buf :: L) ∧ (st_next s ≤ buf)%N ∧ st_bufs s' !! buf = Some (mk_buf 1 len len (graph_payload op))
    end) s.
Proof.
  intros Hk Ho. unfold graph_encode. destruct (over_budget op) eqn:Eb.
  { apply wp_ret. split; [apply others_refl|]. split; [done|by left]. }
  apply budget_spec in Eb. destruct (in_budget_fits op Eb Hk) as [<- Hmax]. rewrite (proj2 (Z.ltb_ge _ _) Hmax).
  pose proof (lenZ_nonneg (graph_payload op)). unfold MAX_PAYLOAD, MAX_DATAGRAM, HEADER_MAX in Hmax.
  apply wp_bind. eapply wp_mono; [eapply wp_alloc_mine; [exact Ho|lia]|]. intros [buf|] s1 [Hot1 H1].
  2: { destruct H1. apply wp_ret. split; [done|]. split; [done|by right]. }
  destruct H1 as (Ho1 & Hb1 & Hid). apply wp_bind.
  eapply wp_mono; [eapply (wp_write_mine buf 0 0 _ [] (graph_payload op)); [exact Ho1|exact Hb1|done|lia]|].
  intros [] s2 (Ho2 & Hot2 & Hb2). apply wp_bind.
  eapply wp_mono; [eapply (wp_freeze_mine buf 0 (lenZ (graph_payload op))); [exact Ho2|exact Hb2|lia]|].
  intros r s3 (-> & Ho3 & Hot3 & Hb3). apply wp_bind. eexists _, _. split.
  { unfold buf_size, deref, mbind, SM_bind. rewrite Hb3. reflexivity. }
  apply wp_ret. split; [eapply others_young; [exact Hot1|exact Hid|by eapply others_trans]|]. cbn [b_len].
  split; [done|]. split; [done|]. split; [done|]. split; [exact Ho3|]. split; [exact Hid|exact Hb3].
Qed.

(** C33: An operation travels unchanged, and only one within the budgets travels. Encoding
    builds nothing for an operation outside them - no application or no name, names over 256
    or paths over 4096 bytes, a priority or a timeout of more than 32 bits, an unknown media
    mode - and otherwise, if the allocator has the memory, one payload that fits a datagram.
    Decoding the payload gives the operation back, with its desired state, names, paths and
    keys, when it is of a known kind, names an incarnation (only a deletion may leave it 0)
    and its members fit the wire: a type of 32 bits, revisions of 64. *)
Theorem graph_op_roundtrip op L s :
  keys_sized op → owns s L →
  wp (graph_encode op) (λ r s',
    match r with
    | None => (¬ in_budget op ∨ ¬ no_refusal s) ∧ owns s' L
    | Some (h, buf, len) => in_budget op ∧ h = graph_header op ∧ len ≤ MAX_PAYLOAD ∧ owns s' (buf :: L) ∧
        (graph_op_ok op → wp (graph_decode (Some buf)) (λ o s'', o = Some op ∧ s'' = s') s')
    end) s.
Proof.
  intros Hk Ho. eapply wp_mono; [by apply wp_graph_encode|].
  intros [[[h buf] len]|] s' [_ H].
  - destruct H as (Hb%budget_spec & -> & -> & Ho' & _ & Hbuf). split; [done|]. split; [done|].
    split; [by apply in_budget_fits|]. split; [done|]. intros Hok. by eapply wp_graph_decode.
  - destruct H as [Ho' [Hb|Hn]]; (split; [|done]); [|by right]. left. intros H%budget_spec. congruence.
Qed.

Lemma wire_slice_length d off n : 0 ≤ off → 0 ≤ n → off + n ≤ lenZ d → lenZ (wire_slice d off n) = n.
Proof. intros. unfold wire_slice, lenZ in *. rewrite length_take, length_drop. lia. Qed.

(** The condition in front of what is left to run. *)
Ltac wp_guard E := match goal with |- wp (if ?c then _ else _) _ _ => destruct c eqn:E end.

(** No payload a worker is handed breaks it: whatever the bytes, decoding ends without reading
    outside them and leaves memory as it was, and what it accepts is an operation within the
    budgets, of a known kind, that names a stream and (a deletion apart) its incarnation - one
    that could be encoded again. *)
Theorem graph_decode_any buf s b :
  st_bufs s !! buf = Some b → bytes (b_data b) → b_len b = lenZ (b_data b) → lenZ (b_data b) < 2 ^ 32 →
  wp (graph_decode (Some buf)) (λ o s', s' = s ∧ ∀ op, o = Some op → graph_op_ok op) s.
Proof.
  intros Hb Hbytes Hl Hsmall. unfold graph_decode. apply wp_bind.
  eexists _, _. split; [unfold buf_size, deref, mbind, SM_bind; rewrite Hb; reflexivity|]. rewrite Hl.
  assert (wp (mret (None : option graph_op)) (λ o s', s' = s ∧ ∀ op, o = Some op → graph_op_ok op) s) as Hnone by (by apply wp_ret).
  destruct (Z.ltb_spec (lenZ (b_data b)) WIRE_SIZE) as [|Hw]; [exact Hnone|]. apply wp_bind. eexists _, _. split.
  { unfold buf_read, deref, mbind, SM_bind. rewrite Hb. rewrite (proj2 (Z.leb_le _ _)) by (unfold lenZ in *; lia). reflexivity. }
  set (w := take _ (b_data b)). assert (bytes w) as Hwb by (by apply Forall_take).
  assert (∀ off, 0 ≤ member w off 4 < 2 ^ 32) as H4 by (intros off; apply (member_range w off 4); [done|lia]).
  assert (∀ off, 0 ≤ member w off 8 < 2 ^ 64) as H8 by (intros off; apply (member_range w off 8); [done|lia]).
  assert (lenZ w = WIRE_SIZE) as Hwl by (unfold w, lenZ, WIRE_SIZE in *; rewrite length_take; lia).
  pose proof (H4 56%nat). pose proof (H4 60%nat). pose proof (H4 64%nat). pose proof (H4 68%nat). pose proof (H4 72%nat).
  rewrite sum_small by (unfold WIRE_SIZE; lia).
  wp_guard E1; [exact Hnone|]. wp_guard E2; [exact Hnone|]. wp_guard E3; [exact Hnone|]. wp_guard E4; [exact Hnone|].
  wp_guard E5; [exact Hnone|].
  rewrite !orb_false_iff, negb_false_iff, Z.eqb_eq, !Z.eqb_neq in E1. rewrite !orb_false_iff, !Z.ltb_ge in E2.
  rewrite !orb_false_iff, !Z.ltb_ge in E3. rewrite Z.ltb_ge in E5. destruct E1 as [[E1 Ea] En]. destruct E2 as [[[[B1 B2] B3] B4] B5].
  apply wp_bind. eexists _, _. split.
  { unfold buf_read, deref, mbind, SM_bind. rewrite Hb. rewrite (proj2 (Z.leb_le _ _)) by (unfold lenZ in *; lia). reflexivity. }
  apply wp_ret. split; [done|]. intros op [= <-]. set (p := drop _ _).
  assert (lenZ p = lenZ (b_data b) - WIRE_SIZE) as Hp.
  { unfold p, lenZ in *. rewrite length_drop, firstn_all2 by lia. unfold WIRE_SIZE in *. lia. }
  assert (∀ off n, 0 ≤ off → off + Z.of_nat n ≤ WIRE_SIZE → length (wire_slice w off (Z.of_nat n)) = n) as Hkey.
  { intros off n Hoff Hn. apply Nat2Z.inj. fold (lenZ (wire_slice w off (Z.of_nat n))). apply wire_slice_length; lia. }
  pose proof (H4 36%nat). pose proof (H4 44%nat). pose proof (H4 48%nat). pose proof (H4 52%nat).
  split; cbn [go_kind go_revision go_incarnation go_source_revision go_type go_priority go_enabled go_failure_timeout go_recovery_timeout
    go_media_mode go_application go_name go_id go_path go_ca_file go_key_set go_key_hash go_key_print go_key_nonce_set go_key_nonce];
    try apply H4; try apply H8; try (apply Hkey; unfold KEY_HASH, KEY_PRINT, KEY_NONCE, WIRE_SIZE; lia).
  - apply budget_spec. split; cbn [go_priority go_failure_timeout go_recovery_timeout go_media_mode go_application go_name go_id go_path go_ca_file];
      rewrite ?wire_slice_length by lia; lia.
  - lia.
  - destruct (Z.eqb_spec (member w 0 4) STREAM_DELETE); [by left|]. right. cbn in E4. by apply Z.eqb_neq.
Qed.

(** ** An example *)

Definition ex_graph_op : graph_op :=
  mk_graph_op SOURCE_SET 7 3 2 5 1 true 3000 5000 0 [108; 105; 118; 101] [97] [115; 49] [47; 120] [] true
    (replicate 32 1) (replicate 12 2) false (replicate 16 0).
Lemma ex_graph_op_ok : graph_op_ok ex_graph_op.
Proof. split; try done; try (unfold is_u64; cbn; lia); cbn; lia || (by right). Qed.
(** One that is in the budgets and one whose name is too long. *)
Definition ex_long_op : graph_op :=
  mk_graph_op STREAM_SET 7 3 2 5 1 true 3000 5000 0 [108] (replicate 257 97) [] [] [] false
    (replicate 32 0) (replicate 12 0) false (replicate 16 0).
Lemma graph_op_roundtrip_witness :
  (∃ h buf len s', graph_encode ex_graph_op ex_owner = Some (Some (h, buf, len), s') ∧ owns s' [buf] ∧
     wp (graph_decode (Some buf)) (λ o s'', o = Some ex_graph_op ∧ s'' = s') s') ∧
  ∃ s', graph_encode ex_long_op ex_owner = Some (None, s') ∧ owns s' [].
Proof.
  split.
  - destruct (graph_op_roundtrip ex_graph_op [] ex_owner) as ([[[h buf] len]|] & s' & Hrun & H); [done|apply ex_owner_st| |].
    + destruct H as (_ & _ & _ & Ho & Hd). exists h, buf, len, s'. split_and!; [done..|]. apply Hd, ex_graph_op_ok.
    + exfalso. vm_compute in Hrun. discriminate Hrun.
  - destruct (graph_op_roundtrip ex_long_op [] ex_owner) as ([[[h buf] len]|] & s' & Hrun & H); [done|apply ex_owner_st| |].
    + exfalso. vm_compute in Hrun. discriminate Hrun.
    + exists s'. split; [done|apply H].
Defined.
(** A worker that was handed the payload of [ex_graph_op]. *)
Definition ex_buf : Store.buf := mk_buf 1 (lenZ (graph_payload ex_graph_op)) (lenZ (graph_payload ex_graph_op)) (graph_payload ex_graph_op).
Definition ex_replica_store : store := mk_store {[ 0%N := ex_buf ]} 1 (λ _ _, true).
Lemma ex_replica_owns : owns ex_replica_store [0%N].
Proof.
  split; [split|..]; cbn.
  - intros id b [<- <-]%lookup_singleton_Some. lia.
  - intros id b [<- <-]%lookup_singleton_Some. by apply (bool_decide_unpack _).
  - intros id b [<- <-]%lookup_singleton_Some. done.
  - intros id Hid ->%list_elem_of_singleton. by rewrite lookup_singleton_eq in Hid.
Qed.
Lemma graph_decode_any_witness :
  wp (graph_decode (Some 0%N)) (λ o s', s' = ex_replica_store ∧ ∀ op, o = Some op → graph_op_ok op) ex_replica_store.
Proof. apply (graph_decode_any 0%N ex_replica_store ex_buf); [reflexivity|by apply (bool_decide_unpack _)|done|done]. Defined.
