(* ===== verification/GraphSend.v ===== *)
(** * The fan-out of graph operations and its repair journal

    Models ngx_media_route_broadcast of core/ngx_media_route.c and the sending side of
    core/ngx_media_graph.c: an operation is offered to every peer at once, and one that some
    peer did not take is kept in a journal of a fixed size and offered again from the tick. *)
From S2P Require Import Prelude Bytes Store Owner Source Ipc IpcLink GraphOp.

Definition REPAIR_CAPACITY : nat := 256.
Definition REPAIR_PER_TICK : nat := 4.

Record repair := mk_repair { rp_header : ipc_header; rp_payload : N; rp_length : Z }.
(** The worker's row of endpoints, its own place in it and the count of what did not get
    through. *)
Record row := mk_row { rw_self : nat; rw_endpoints : list (option endpoint); rw_undelivered : Z }.
#[global] Instance eta_row : Eta row := λ r, mk_row (rw_self r) (rw_endpoints r) (rw_undelivered r).
Record fanout_state := mk_fanout { fo_journal : list (option repair); fo_cursor : nat; fo_row : row }.
#[global] Instance eta_fanout_state : Eta fanout_state := λ f, mk_fanout (fo_journal f) (fo_cursor f) (fo_row f).

(** A datagram and the peer it went to. *)
Definition posted : Type := list (nat * list Z).
(** [results i k] is what the [k]th [sendmsg] to worker [i] answers. *)
Definition send_answers : Type := nat → nat → sendmsg_result.

(** ** Broadcasting *)

(** What is left of the row from worker [i] on. *)
Fixpoint broadcast_loop (res : send_answers) (h : ipc_header) (payload : N) (length : Z) (self i : nat) (eps : list (option endpoint))
    (addressed delivered undelivered : Z) : M (Z * Z * Z * list (option endpoint) * posted) :=
  match eps with
  | [] => mret (addressed, delivered, undelivered, [], [])
  | e :: eps =>
      if (i =? self)%nat || negb (bool_decide (is_Some e)) then
        '(a, d, u, eps, out) ← broadcast_loop res h payload length self (S i) eps addressed delivered undelivered;
        mret (a, d, u, e :: eps, out)
      else
        '(r, e, ds) ← ipc_send (res i) e (Some h) (Some payload) 0 length;
        let ok := bool_decide (r = NGX_OK) in
        '(a, d, u, eps, out) ← broadcast_loop res h payload length self (S i) eps (addressed + 1)
          (if ok then delivered + 1 else delivered) (if ok then undelivered else undelivered ⊕ 1);
        mret (a, d, u, e :: eps, ((λ d, (i, d)) <$> ds) ++ out)
  end.
(** The peers that took it, the peers addressed, and the row. *)
Definition route_broadcast (res : send_answers) (h : ipc_header) (payload : N) (len : Z) (r : row) : M (Z * Z * row * posted) :=
  if (length (rw_endpoints r) <? 2)%nat || (length (rw_endpoints r) <=? rw_self r)%nat then mret (0, 0, r, [])
  else
    '(a, d, u, eps, out) ← broadcast_loop res h payload len (rw_self r) 0 (rw_endpoints r) 0 0 (rw_undelivered r);
    mret (d, a, r <| rw_endpoints := eps |> <| rw_undelivered := u |>, out).

(** ** The journal *)

Fixpoint free_slot (j : list (option repair)) : option nat :=
  match j with
  | [] => None
  | None :: _ => Some O
  | Some _ :: j => S <$> free_slot j
  end.
Definition repair_enqueue (h : ipc_header) (payload : N) (length : Z) (j : list (option repair)) :
    M (rc * option nat * list (option repair)) :=
  if length =? 0 then mret (NGX_ERROR, None, j)
  else
    match free_slot j with
    | None => mret (NGX_AGAIN, None, j)
    | Some i => _ ← buf_ref (Some payload); mret (NGX_OK, Some i, <[i := Some (mk_repair h payload length)]> j)
    end.
Definition repair_clear (i : nat) (j : list (option repair)) : M (list (option repair)) :=
  match j !! i with
  | Some (Some r) => _ ← buf_unref (Some (rp_payload r)); mret (<[i := None]> j)
  | _ => mret j
  end.

(** [workers] is the configured number of workers. *)
Definition graph_send (workers : Z) (res : send_answers) (op : graph_op) (f : fanout_state) : M (rc * fanout_state * posted) :=
  o ← graph_encode op;
  match o with
  | None => mret (NGX_ERROR, f, [])
  | Some (h, payload, length) =>
      '(r, reserved, j) ← (if 1 <? workers then repair_enqueue h payload length (fo_journal f)
                           else mret (NGX_OK, None, fo_journal f));
      if negb (bool_decide (r = NGX_OK)) then _ ← buf_unref (Some payload); mret (NGX_ERROR, f, [])
      else
        '(delivered, peers, rw, out) ← route_broadcast res h payload length (fo_row f);
        let f := mk_fanout j (fo_cursor f) rw in
        if ((peers =? 0) && (workers <=? 1)) || ((0 <? peers) && (delivered =? peers)) then
          j ← (match reserved with Some i => repair_clear i (fo_journal f) | None => mret (fo_journal f) end);
          _ ← buf_unref (Some payload);
          mret (NGX_OK, f <| fo_journal := j |>, out)
        else _ ← buf_unref (Some payload); mret (NGX_AGAIN, f, out)
  end.

(** The first entry in use from the cursor on. *)
Fixpoint scan_used (j : list (option repair)) (cursor offset n : nat) : option (nat * repair) :=
  match n with
  | O => None
  | S n =>
      let i := ((cursor + offset) mod REPAIR_CAPACITY)%nat in
      match j !! i with
      | Some (Some r) => Some (i, r)
      | _ => scan_used j cursor (S offset) n
      end
  end.
(** Attempts of one tick; [res k] answers the [k]th broadcast. *)
Fixpoint repair_attempts (n : nat) (res : nat → send_answers) (k : nat) (f : fanout_state) : M (fanout_state * posted) :=
  match n with
  | O => mret (f, [])
  | S n =>
      match scan_used (fo_journal f) (fo_cursor f) 0 REPAIR_CAPACITY with
      | None => mret (f, [])
      | Some (i, e) =>
          let f := f <| fo_cursor := ((i + 1) mod REPAIR_CAPACITY)%nat |> in
          '(delivered, peers, rw, out) ← route_broadcast (res k) (rp_header e) (rp_payload e) (rp_length e) (fo_row f);
          let f := f <| fo_row := rw |> in
          f ← (if (0 <? peers) && (delivered =? peers) then j ← repair_clear i (fo_journal f); mret (f <| fo_journal := j |>)
               else mret f);
          '(f, out') ← repair_attempts n res (S k) f;
          mret (f, out ++ out')
      end
  end.
Definition graph_repair_tick (res : nat → send_answers) (f : fanout_state) : M (fanout_state * posted) :=
  repair_attempts REPAIR_PER_TICK res 0 f.

(** ** What a broadcast does *)

(** The peers with an endpoint. *)
Fixpoint connected_from (self i : nat) (eps : list (option endpoint)) : list nat :=
  match eps with
  | [] => []
  | e :: eps => if (i =? self)%nat || negb (bool_decide (is_Some e)) then connected_from self (S i) eps else i :: connected_from self (S i) eps
  end.
Definition connected (r : row) : list nat :=
  if (length (rw_endpoints r) <? 2)%nat || (length (rw_endpoints r) <=? rw_self r)%nat then [] else connected_from (rw_self r) 0 (rw_endpoints r).
Definition row_ok (r : row) : Prop := Forall (λ e, ∀ ep, e = Some ep → 0 ≤ ep_fd ep) (rw_endpoints r).
#[global] Instance sendmsg_result_eq_dec : EqDecision sendmsg_result.
Proof. solve_decision. Defined.
(** The peers of [l] that take the first datagram of a send. *)
Definition takers (res : send_answers) (l : list nat) : list nat := filter (λ i, res i 0%nat = Sent) l.
(** The datagram of an operation. *)
Definition graph_packet (op : graph_op) : list Z := datagram (graph_header op) (graph_payload op) 0.

Lemma one_chunk h data : data ≠ [] → lenZ data ≤ MAX_PAYLOAD → frame_chunks h data = [datagram h data 0].
Proof.
  intros Hne Hmax. assert (0 < lenZ data) as Hpos by (destruct data; [done|unfold lenZ; cbn; lia]).
  unfold frame_chunks. rewrite (proj2 (Z.eqb_neq _ _)) by lia. cbn [chunks]. rewrite (proj2 (Z.ltb_lt _ _) Hpos).
  assert (ipc_chunk_size data 0 = lenZ data) as -> by (unfold ipc_chunk_size; lia). by rewrite chunks_nil by lia.
Qed.
Lemma wp_send_one res ep h buf data s :
  holds_data s buf data → data ≠ [] → lenZ data ≤ MAX_PAYLOAD → 0 ≤ ep_fd ep →
  wp (ipc_send res (Some ep) (Some h) (Some buf) 0 (lenZ data)) (λ r s', s' = s ∧
    (∃ ep', r.1.2 = Some ep' ∧ 0 ≤ ep_fd ep') ∧ bool_decide (r.1.1 = NGX_OK) = bool_decide (res 0%nat = Sent) ∧
    r.2 = if bool_decide (res 0%nat = Sent) then [datagram h data 0] else []) s.
Proof.
  intros Hd Hne Hmax Hfd. eapply wp_mono; [by apply wp_ipc_send|]. intros [[r e'] out] s' (-> & He & Hout & Hr).
  cbn [fst snd] in *. rewrite one_chunk in Hout, Hr by done. cbn [length sent_count] in *. split; [done|]. split; [done|].
  destruct (res 0%nat) eqn:E; cbn in Hr, Hout |- *.
  - split; [|done]. apply bool_decide_eq_true_2, Hr. lia.
  - split; [|done]. apply bool_decide_eq_false_2. intros H%Hr. lia.
  - split; [|done]. apply bool_decide_eq_false_2. intros H%Hr. lia.
  - split; [|done]. apply bool_decide_eq_false_2. intros H%Hr. lia.
Qed.

Lemma wp_broadcast_loop res h buf data self s eps : ∀ i a d u,
  holds_data s buf data → data ≠ [] → lenZ data ≤ MAX_PAYLOAD → Forall (λ e, ∀ ep, e = Some ep → 0 ≤ ep_fd ep) eps →
  wp (broadcast_loop res h buf (lenZ data) self i eps a d u) (λ '(a', d', u', eps', out) s', s' = s ∧
    let l := connected_from self i eps in
    a' = a + Z.of_nat (length l) ∧ d' = d + Z.of_nat (length (takers res l)) ∧
    Forall (λ e, ∀ ep, e = Some ep → 0 ≤ ep_fd ep) eps' ∧ length eps' = length eps ∧ connected_from self i eps' = l ∧
    out = (λ j, (j, datagram h data 0)) <$> takers res l) s.
Proof.
  induction eps as [|e eps IH]; intros i a d u Hd Hne Hmax Hok; cbn [broadcast_loop connected_from].
  { apply wp_ret. cbn. split_and!; try done; lia. }
  inversion_clear Hok as [|? ? He Hok']. destruct ((i =? self)%nat || negb (bool_decide (is_Some e))) eqn:Eskip.
  - apply wp_bind. eapply wp_mono; [by apply IH|]. intros [[[[a' d'] u'] eps'] out] s' (-> & Ha & Hdd & Hf & Hl & Hc & Ho).
    apply wp_ret. split; [done|]. cbn zeta in *. cbn [length connected_from]. rewrite Eskip, Hc, Hl. split_and!; try done. by constructor.
  - apply orb_false_iff in Eskip as [Ei Hs]. apply negb_false_iff, bool_decide_eq_true in Hs as [ep ->].
    apply wp_bind. eapply wp_mono; [apply (wp_send_one (res i)); [done..|by apply He]|].
    intros [[r e'] ds] s' (-> & (ep' & He' & Hfd') & Hr & Hds). cbn [fst snd] in *. subst e'.
    rewrite Hr. apply wp_bind. eapply wp_mono; [by apply IH|].
    intros [[[[a' d'] u'] eps'] out] s' (-> & Ha & Hdd & Hf & Hl & Hc & Ho). apply wp_ret. split; [done|]. cbn zeta in *.
    cbn [length connected_from]. rewrite Ei, Hc, Hl, bool_decide_eq_true_2 by done. cbn [negb orb].
    split; [lia|]. unfold takers in *. rewrite filter_cons.
    destruct (decide (res i 0%nat = Sent)) as [Es|Es]; [rewrite bool_decide_eq_true_2 in Hdd, Hds by done|rewrite bool_decide_eq_false_2 in Hdd, Hds by done].
    + split; [cbn [length]; lia|]. split; [constructor; [by intros ? [= <-]|done]|]. split; [done|]. split; [done|]. by rewrite Hds, Ho.
    + split; [lia|]. split; [constructor; [by intros ? [= <-]|done]|]. split; [done|]. split; [done|]. by rewrite Hds, Ho.
Qed.
Lemma wp_route_broadcast res h buf data r s :
  holds_data s buf data → data ≠ [] → lenZ data ≤ MAX_PAYLOAD → row_ok r →
  wp (route_broadcast res h buf (lenZ data) r) (λ '(d, a, r', out) s', s' = s ∧
    a = Z.of_nat (length (connected r)) ∧ d = Z.of_nat (length (takers res (connected r))) ∧
    row_ok r' ∧ connected r' = connected r ∧ out = (λ j, (j, datagram h data 0)) <$> takers res (connected r)) s.
Proof.
  intros Hd Hne Hmax Hok. unfold route_broadcast, connected. destruct (_ || _) eqn:E.
  { apply wp_ret. rewrite E. by split_and!. }
  apply wp_bind. eapply wp_mono; [by apply wp_broadcast_loop|].
  intros [[[[a d] u] eps] out] s' (-> & -> & -> & Hf & Hl & Hc & ->). apply wp_ret. cbn -[Nat.ltb Nat.leb].
  split_and!; try done; try lia. by rewrite Hl, E.
Qed.
(** Everyone took it. *)
Lemma all_took res l : Z.of_nat (length (takers res l)) = Z.of_nat (length l) → takers res l = l.
Proof.
  intros H. unfold takers in *. induction l as [|i l IH]; [done|]. rewrite filter_cons in *. pose proof (length_filter (λ i, res i 0%nat = Sent) l).
  case_decide; cbn in *; [|lia]. f_equal. apply IH. lia.
Qed.

(** ** The journal as operations *)

#[global] Instance owner_repair : Owner (option repair) := λ o, match o with Some r => [rp_payload r] | None => [] end.
Definition entry_is (s : store) (o : option repair) (p : option graph_op) : Prop :=
  match o, p with
  | None, None => True
  | Some r, Some op => rp_header r = graph_header op ∧ rp_length r = lenZ (graph_payload op) ∧ keys_sized op ∧ in_budget op ∧
      holds_data s (rp_payload r) (graph_payload op)
  | _, _ => False
  end.
(** The journal [j] holds the operations [P], and nothing else is kept but [L]. *)
Record journal_st (s : store) (j : list (option repair)) (P : list (option graph_op)) (L : list N) : Prop := {
  js_length : length j = REPAIR_CAPACITY; js_entries : Forall2 (entry_is s) j P; js_owns : owns s (holds j ++ L) }.

Lemma data_stable s s' L L' id data :
  holds_data s id data → owns s L → owns s' L' → evolves s s' → id ∈ L → id ∈ L' → holds_data s' id data.
Proof.
  intros (b & Hb & Hd & Hl & Hs) Ho Ho' Hev Hin Hin'. destruct (owns_in _ _ _ Ho' Hin') as [b' Hb'].
  destruct (ev_same _ _ Hev _ _ Hb') as (b0 & Hb0 & El & Ed); [by eapply (wf_next _ (owns_wf _ _ Ho))|].
  rewrite Hb in Hb0. injection Hb0 as <-. exists b'. split; [done|]. split; [by rewrite Ed|]. split; [by rewrite El|done].
Qed.
Lemma holds_slot j (i : nat) r : j !! i = Some (Some r) → rp_payload r ∈ holds j.
Proof. intros Hi. unfold holds, owner_list. apply list_elem_of_bind. exists (Some r). split; [by left|by eapply list_elem_of_lookup_2]. Qed.
Lemma entries_stable s s' L L' j P :
  Forall2 (entry_is s) j P → owns s L → owns s' L' → evolves s s' → holds j ⊆ L → holds j ⊆ L' → Forall2 (entry_is s') j P.
Proof.
  intros HF Ho Ho' Hev HL HL'. apply Forall2_same_length_lookup. apply Forall2_same_length_lookup in HF as [Hlen HF]. split; [done|].
  intros i o p Hi Hp. specialize (HF i o p Hi Hp). destruct o as [r|], p as [op|]; cbn in *; try done.
  destruct HF as (H1 & H2 & H3 & H4 & H5). split_and!; try done.
  pose proof (holds_slot _ _ _ Hi). eapply data_stable; [exact H5|exact Ho|exact Ho'|done|by apply HL|by apply HL'].
Qed.
Lemma holds_swap (j : list (option repair)) (i : nat) o o' :
  j !! i = Some o → holds (<[i := o']> j) ++ holds o ≡ₚ holds o' ++ holds j.
Proof. intros Hi. rewrite (holds_insert _ _ _ _ Hi), (holds_delete _ _ _ Hi). solve_Permutation. Qed.
Lemma free_slot_spec j i : free_slot j = Some i → j !! i = Some None.
Proof.
  revert i. induction j as [|[r|] j IH]; intros i H; cbn in H; [done| |by injection H as <-].
  destruct (free_slot j); [|done]. injection H as <-. by apply IH.
Qed.
Lemma free_slot_none j : free_slot j = None → None ∉ j.
Proof.
  induction j as [|[r|] j IH]; intros H; cbn in H; [apply not_elem_of_nil| |done].
  destruct (free_slot j); [done|]. apply not_elem_of_cons. split; [done|by apply IH].
Qed.

Lemma journal_full s j P L : journal_st s j P L → None ∉ P → None ∉ j.
Proof.
  intros [_ HF _] HP [k Hk]%list_elem_of_lookup_1. destruct (Forall2_lookup_l _ _ _ _ _ HF Hk) as ([op|] & Hp & He); [done|].
  by eapply HP, list_elem_of_lookup_2.
Qed.
Lemma payload_nonempty op : keys_sized op → in_budget op → graph_payload op ≠ [] ∧ lenZ (graph_payload op) ≤ MAX_PAYLOAD ∧ 0 < lenZ (graph_payload op).
Proof.
  intros Hk Hb. destruct (in_budget_fits op Hb Hk) as [E Hmax]. destruct Hb.
  pose proof (lenZ_nonneg (go_id op)). pose proof (lenZ_nonneg (go_path op)). pose proof (lenZ_nonneg (go_ca_file op)).
  assert (0 < lenZ (graph_payload op)) as Hpos by (unfold WIRE_SIZE in E; lia). split; [|done]. intros E0. by rewrite E0 in Hpos.
Qed.
Lemma journal_set s s' j P L L' (i : nat) o p :
  journal_st s j P L → Forall2 (entry_is s') j P → entry_is s' o p → owns s' (holds (<[i := o]> j) ++ L') →
  journal_st s' (<[i := o]> j) (<[i := p]> P) L'.
Proof.
  intros [Hl HF Ho] HF' He Ho'. split; [by rewrite length_insert| |done]. by apply Forall2_insert.
Qed.
Lemma journal_free s j P L (i : nat) : journal_st s j P L → j !! i = Some None → P !! i = Some None.
Proof.
  intros [_ HF _] Hi. destruct (Forall2_lookup_l _ _ _ _ _ HF Hi) as ([op|] & Hp & He); [done|done].
Qed.
Lemma journal_clear s j P L (i : nat) r :
  journal_st s j P L → j !! i = Some (Some r) →
  wp (repair_clear i j) (λ j' s', evolves s s' ∧ j' = <[i := None]> j ∧ journal_st s' j' (<[i := None]> P) L) s.
Proof.
  intros Hst Hi. pose proof Hst as [Hl HF Ho]. unfold repair_clear. rewrite Hi.
  pose proof (holds_swap j i (Some r) None Hi) as Hperm. change (holds (None : option repair)) with (@nil N) in Hperm. cbn [app] in Hperm.
  change (holds (Some r)) with [rp_payload r] in Hperm.
  assert (owns s (holds (Some (rp_payload r)) ++ holds (<[i := None]> j) ++ L)) as Ho1.
  { eapply owns_proper; [|exact Ho]. rewrite <- Hperm. change (holds (Some (rp_payload r))) with [rp_payload r]. solve_Permutation. }
  apply wp_bind. eapply wp_mono; [by apply wp_buf_unref|]. intros [] s' [Ho' Hev]. apply wp_ret. split; [done|]. split; [done|].
  split; [by rewrite length_insert| |done].
  apply Forall2_same_length_lookup. apply Forall2_same_length_lookup in HF as [Hlen HF]. split; [by rewrite !length_insert|].
  intros k o p Hk Hp. apply list_lookup_insert_Some in Hk as [(<- & <- & Hlt)|[Hne Hk]].
  - rewrite list_lookup_insert_eq in Hp by lia. by injection Hp as <-.
  - rewrite list_lookup_insert_ne in Hp by done. pose proof (HF _ _ _ Hk Hp) as He. destruct o as [r'|], p as [op|]; cbn in *; try done.
    destruct He as (H1 & H2 & H3 & H4 & H5). split_and!; try done.
    eapply data_stable; [exact H5|exact Ho|exact Ho'|done| |].
    + apply elem_of_app. left. by eapply holds_slot.
    + apply elem_of_app. left. apply (holds_slot _ k). by rewrite list_lookup_insert_ne.
Qed.

(** ** Sending *)

Record fanout_inv (s : store) (f : fanout_state) (P : list (option graph_op)) (L : list N) : Prop := {
  fv_journal : journal_st s (fo_journal f) P L; fv_row : row_ok (fo_row f) }.
(** What was posted of an operation to the peers of [l]. *)
Definition posts (op : graph_op) (l : list nat) : posted := (λ i, (i, graph_packet op)) <$> l.

Lemma spared_evolves s s' L : owns s L → owns s' L → spared [] s s' → ∀ id data, id ∈ L → holds_data s id data → holds_data s' id data.
Proof.
  intros Ho Ho' Hot id data Hin (b & Hb & H). exists b. split; [|done].
  rewrite (ot_same _ _ _ Hot id); [done|apply not_elem_of_nil|by eapply (wf_next _ (owns_wf _ _ Ho))].
Qed.
Lemma entries_spared s s' j P L :
  Forall2 (entry_is s) j P → owns s (holds j ++ L) → spared [] s s' → Forall2 (entry_is s') j P.
Proof.
  intros HF Ho Hot. apply Forall2_same_length_lookup. apply Forall2_same_length_lookup in HF as [Hlen HF]. split; [done|].
  intros i o p Hi Hp. specialize (HF i o p Hi Hp). destruct o as [r|], p as [op|]; cbn in *; try done.
  destruct HF as (H1 & H2 & H3 & H4 & b & Hb & H5). split_and!; try done. exists b. split; [|done].
  rewrite (ot_same _ _ _ Hot (rp_payload r)); [done|apply not_elem_of_nil|by eapply (wf_next _ (owns_wf _ _ Ho))].
Qed.
(** The payload that was encoded goes back; the journal keeps what it holds. *)
Lemma wp_done {A} (x : A) (Q : A → store → Prop) j P L buf s :
  Forall2 (entry_is s) j P → length j = REPAIR_CAPACITY → owns s (buf :: holds j ++ L) →
  (∀ s', evolves s s' → journal_st s' j P L → Q x s') →
  wp (_ ← buf_unref (Some buf); mret x) Q s.
Proof.
  intros HF Hl Ho HQ. apply wp_bind. eapply wp_mono; [apply (wp_buf_unref (Some buf) (holds j ++ L)); exact Ho|]. intros [] s' [Ho' Hev]. apply wp_ret.
  apply HQ; [done|]. split; [done| |done].
  eapply entries_stable; [exact HF|exact Ho|exact Ho'|done| |]; intros y Hy; [right|]; apply elem_of_app; by left.
Qed.

Definition sent_post (f : fanout_state) (op : graph_op) (P : list (option graph_op)) (L : list N) (s : store)
    (r : rc * fanout_state * posted) (s' : store) : Prop :=
  let '(r, f', out) := r in
  st_alloc s' = st_alloc s ∧ connected (fo_row f') = connected (fo_row f) ∧ fo_cursor f' = fo_cursor f ∧
  ∃ P', fanout_inv s' f' P' L ∧
    match r with
    | NGX_OK => P' = P ∧ connected (fo_row f) ≠ [] ∧ out = posts op (connected (fo_row f))
    | NGX_AGAIN => ∃ (i : nat) l, P !! i = Some None ∧ P' = <[i := Some op]> P ∧ out = posts op l
    | NGX_DECLINED => False
    | NGX_ERROR => P' = P ∧ f' = f ∧ out = [] ∧ (over_budget op = true ∨ ¬ no_refusal s ∨ None ∉ P)
    end.
Lemma wp_graph_send workers res op f P L s :
  1 < workers → keys_sized op → fanout_inv s f P L →
  wp (graph_send workers res op f) (sent_post f op P L s) s.
Proof.
  intros Hw Hk [Hj Hrow]. pose proof Hj as [Hl HF Ho]. unfold graph_send. apply wp_bind.
  eapply wp_mono; [by apply (wp_graph_encode op (holds (fo_journal f) ++ L))|]. intros [[[h buf] len]|] s1 [Hot1 H1].
  2: { destruct H1 as [Ho1 Hn]. apply wp_ret. split; [apply Hot1|]. split; [done|]. split; [done|]. exists P. split.
       - split; [|done]. split; [done| |done]. by eapply entries_spared.
       - split_and!; try done. destruct Hn as [?|?]; [by left|by right; left]. }
  destruct H1 as (Hbud & -> & -> & Ho1 & Hid & Hb1).
  pose proof (entries_spared _ _ _ _ _ HF Ho Hot1) as HF1. pose proof (proj1 (budget_spec op) Hbud) as Hin.
  destruct (payload_nonempty op Hk Hin) as (Hne & Hmax & Hpos).
  rewrite (proj2 (Z.ltb_lt _ _) Hw). unfold repair_enqueue. rewrite (proj2 (Z.eqb_neq (lenZ (graph_payload op)) 0)) by lia.
  apply wp_bind. destruct (free_slot (fo_journal f)) as [i|] eqn:Efree.
  2: { apply wp_ret. rewrite bool_decide_eq_false_2 by done. cbn [negb].
       eapply wp_done; [exact HF1|exact Hl|exact Ho1|]. intros s2 Hev Hj2. split; [by rewrite (ev_alloc _ _ Hev), (ot_alloc _ _ _ Hot1)|].
       split; [done|]. split; [done|]. exists P. split; [by split|]. split_and!; try done. right. right. intros Hnone.
       apply (free_slot_none _ Efree). apply list_elem_of_lookup_1 in Hnone as [k Hk'].
       destruct (Forall2_lookup_r _ _ _ _ _ HF Hk') as ([r|] & Hr & He); [done|]. by eapply list_elem_of_lookup_2. }
  apply free_slot_spec in Efree. apply wp_bind.
  assert (buf ∈ buf :: holds (fo_journal f) ++ L) as Hbuf by (by left).
  eapply wp_mono; [apply (wp_buf_ref buf _ s1 Ho1 Hbuf)|]. intros p s2 (-> & Ho2 & Hev2). apply wp_ret.
  rewrite bool_decide_eq_true_2 by done. cbn [negb].
  set (e := mk_repair (graph_header op) buf (lenZ (graph_payload op))).
  assert (holds_data s2 buf (graph_payload op)) as Hd2.
  { eapply (data_stable s1 s2); [|exact Ho1|exact Ho2|exact Hev2|done|by left]. eexists. split; [exact Hb1|].
    cbn. unfold MAX_PAYLOAD, MAX_DATAGRAM, HEADER_MAX in Hmax. split_and!; (done || lia). }
  assert (journal_st s2 (<[i := Some e]> (fo_journal f)) (<[i := Some op]> P) (buf :: L)) as Hj2.
  { apply (journal_set s s2 (fo_journal f) P L); [exact Hj| |by split_and!|].
    - eapply entries_stable; [exact HF1|exact Ho1|exact Ho2|exact Hev2| |]; intros y Hy; repeat (first [apply elem_of_app; by left|right]).
    - eapply owns_proper; [|exact Ho2]. pose proof (holds_swap (fo_journal f) i None (Some e) Efree) as Hp.
      change (holds (None : option repair)) with (@nil N) in Hp. rewrite app_nil_r in Hp. rewrite Hp.
      change (holds (Some e)) with [buf]. solve_Permutation. }
  apply wp_bind. eapply wp_mono; [by apply wp_route_broadcast|].
  intros [[[d a] rw] out] s3 (-> & -> & -> & Hrow' & Hc & ->).
  assert (st_alloc s2 = st_alloc s) as Ea by (by rewrite (ev_alloc _ _ Hev2), (ot_alloc _ _ _ Hot1)).
  assert (P !! i = Some None) as HPi by (by eapply journal_free).
  rewrite (proj2 (Z.leb_gt workers 1)), andb_false_r by lia. cbn [orb].
  destruct (0 <? Z.of_nat (length (connected (fo_row f)))) eqn:Ep; cbn [andb].
  2: { eapply (wp_done _ _ _ _ L buf); [exact (js_entries _ _ _ _ Hj2)|exact (js_length _ _ _ _ Hj2)|eapply owns_proper; [|exact (js_owns _ _ _ _ Hj2)]; solve_Permutation|]. intros s4 Hev4 Hj4.
       split; [by rewrite (ev_alloc _ _ Hev4)|]. split; [exact Hc|]. split; [done|]. exists (<[i := Some op]> P). split; [by split|].
       exists i, (takers res (connected (fo_row f))). done. }
  destruct (Z.eqb_spec (Z.of_nat (length (takers res (connected (fo_row f))))) (Z.of_nat (length (connected (fo_row f))))) as [Eall|Eall].
  2: { eapply (wp_done _ _ _ _ L buf); [exact (js_entries _ _ _ _ Hj2)|exact (js_length _ _ _ _ Hj2)|eapply owns_proper; [|exact (js_owns _ _ _ _ Hj2)]; solve_Permutation|]. intros s4 Hev4 Hj4.
       split; [by rewrite (ev_alloc _ _ Hev4)|]. split; [exact Hc|]. split; [done|]. exists (<[i := Some op]> P). split; [by split|].
       exists i, (takers res (connected (fo_row f))). done. }
  apply all_took in Eall. apply wp_bind. cbn [fo_journal].
  eapply wp_mono; [eapply (journal_clear s2 _ _ (buf :: L) i e); [exact Hj2|]|].
  { apply list_lookup_insert_eq. by eapply lookup_lt_Some. }
  intros j4 s4 (Hev4 & -> & Hj4). rewrite (list_insert_insert_eq P), (list_insert_id P) in Hj4 by done.
  rewrite (list_insert_insert_eq (fo_journal f)), (list_insert_id (fo_journal f)) in Hj4 |- * by done.
  eapply (wp_done _ _ _ _ L buf); [exact (js_entries _ _ _ _ Hj4)|exact (js_length _ _ _ _ Hj4)|eapply owns_proper; [|exact (js_owns _ _ _ _ Hj4)]; solve_Permutation|]. intros s5 Hev5 Hj5.
  split; [by rewrite (ev_alloc _ _ Hev5), (ev_alloc _ _ Hev4)|]. split; [exact Hc|]. split; [done|]. exists P. split; [by split|].
  split; [done|]. split; [|by rewrite Eall]. intros E0. by rewrite E0 in Ep.
Qed.

(** ** Repairing *)

(** The operations that wait, in the order of their slots. *)
Definition outstanding (P : list (option graph_op)) : list graph_op := omap id P.
Lemma outstanding_elem P op : op ∈ outstanding P ↔ Some op ∈ P.
Proof. unfold outstanding. rewrite list_elem_of_omap. split; [intros (o & Ho & E); cbn in E; by subst|intros H; by exists (Some op)]. Qed.
Lemma outstanding_clear P (i : nat) op : P !! i = Some (Some op) → outstanding P ≡ₚ op :: outstanding (<[i := None]> P).
Proof.
  intros Hi. assert (i < length P)%nat by (by eapply lookup_lt_Some). unfold outstanding.
  rewrite <- (take_drop_middle P i _ Hi) at 1. rewrite insert_take_drop by done. rewrite !omap_app. cbn. solve_Permutation.
Qed.
Lemma outstanding_set P (i : nat) op : P !! i = Some None → outstanding (<[i := Some op]> P) ≡ₚ op :: outstanding P.
Proof.
  intros Hi. assert (i < length P)%nat by (by eapply lookup_lt_Some). unfold outstanding.
  rewrite <- (take_drop_middle P i _ Hi) at 2. rewrite insert_take_drop by done. rewrite !omap_app. cbn. solve_Permutation.
Qed.

Lemma outstanding_le P : (length (outstanding P) ≤ length P)%nat.
Proof. unfold outstanding. induction P as [|[op|] P IH]; cbn in *; lia. Qed.
Lemma holds_none n : holds (replicate n (None : option repair)) = [].
Proof. induction n as [|n IH]; [done|]. cbn [replicate]. by rewrite holds_cons, IH. Qed.

Lemma scan_used_some j c n i r : ∀ o, scan_used j c o n = Some (i, r) → j !! i = Some (Some r).
Proof.
  induction n as [|n IH]; intros o H; cbn [scan_used] in H; [done|].
  cbv zeta in H. destruct (j !! ((c + o) mod REPAIR_CAPACITY)%nat) as [[r'|]|] eqn:E; [|by apply IH in H|by apply IH in H].
  assert (((c + o) mod REPAIR_CAPACITY)%nat = i ∧ r' = r) as [<- <-] by (split; congruence). exact E.
Qed.
Lemma scan_used_none j c n : ∀ o,
  scan_used j c o n = None → ∀ k, (o ≤ k < o + n)%nat → ∀ r, j !! ((c + k) mod REPAIR_CAPACITY)%nat ≠ Some (Some r).
Proof.
  induction n as [|n IH]; intros o H k Hk r; cbn [scan_used] in H; [lia|].
  destruct (j !! ((c + o) mod REPAIR_CAPACITY)%nat) as [[r'|]|] eqn:E; [done| |].
  all: destruct (decide (k = o)) as [->|]; [congruence|apply (IH _ H); lia].
Qed.
Lemma scan_all j c : length j = REPAIR_CAPACITY → scan_used j c 0 REPAIR_CAPACITY = None → ∀ i r, j !! i ≠ Some (Some r).
Proof.
  intros Hl H i r Hi. assert (i < REPAIR_CAPACITY)%nat as Hlt by (rewrite <- Hl; by eapply lookup_lt_Some).
  set (k := ((i + REPAIR_CAPACITY - c mod REPAIR_CAPACITY) mod REPAIR_CAPACITY)%nat).
  assert ((c + k) mod REPAIR_CAPACITY = i)%nat as E.
  { unfold k. rewrite Nat.Div0.add_mod_idemp_r, <- Nat.Div0.add_mod_idemp_l.
    assert (c mod REPAIR_CAPACITY < REPAIR_CAPACITY)%nat by (by apply Nat.mod_upper_bound).
    replace (c mod REPAIR_CAPACITY + (i + REPAIR_CAPACITY - c mod REPAIR_CAPACITY))%nat with (i + 1 * REPAIR_CAPACITY)%nat by lia.
    rewrite Nat.Div0.mod_add. by apply Nat.mod_small. }
  apply (scan_used_none j c REPAIR_CAPACITY 0 H k) with (r := r); [|rewrite E; exact Hi].
  unfold k. pose proof (Nat.mod_upper_bound (i + REPAIR_CAPACITY - c mod REPAIR_CAPACITY) REPAIR_CAPACITY). unfold REPAIR_CAPACITY in *. lia.
Qed.

Lemma elem_of_posts op l i d : (i, d) ∈ posts op l → i ∈ l ∧ d = graph_packet op.
Proof. unfold posts. intros (j & [= -> ->] & Hj)%list_elem_of_fmap. done. Qed.

Definition repair_post (f : fanout_state) (P : list (option graph_op)) (L : list N) (s : store) (all : bool) (n : nat)
    (r : fanout_state * posted) (s' : store) : Prop :=
  let '(f', out) := r in
  st_alloc s' = st_alloc s ∧ connected (fo_row f') = connected (fo_row f) ∧
  ∃ P', fanout_inv s' f' P' L ∧
    (∀ op, op ∈ outstanding P' → op ∈ outstanding P) ∧
    (∀ op, op ∈ outstanding P → op ∈ outstanding P' ∨ ∀ i, i ∈ connected (fo_row f) → (i, graph_packet op) ∈ out) ∧
    (∀ i d, (i, d) ∈ out → ∃ op, d = graph_packet op ∧ op ∈ outstanding P) ∧
    (all = true → connected (fo_row f) ≠ [] → length (outstanding P') = (length (outstanding P) - n)%nat).

Lemma wp_repair_attempts res (all : bool) n : ∀ k f P L s,
  fanout_inv s f P L → (all = true → ∀ k i, res k i 0%nat = Sent) →
  wp (repair_attempts n res k f) (repair_post f P L s all n) s.
Proof.
  induction n as [|n IH]; intros k f P L s Hinv Hall; cbn [repair_attempts].
  { apply wp_ret. split; [done|]. split; [done|]. exists P. split; [done|]. split; [done|]. split; [by left|].
    split; [by intros ?? ?%not_elem_of_nil|]. intros _ _. lia. }
  pose proof Hinv as [Hj Hrow]. pose proof Hj as [Hl HF Ho].
  destruct (scan_used (fo_journal f) (fo_cursor f) 0 REPAIR_CAPACITY) as [[i e]|] eqn:Escan.
  2: { apply wp_ret. split; [done|]. split; [done|]. exists P. split; [done|]. split; [done|]. split; [by left|].
       split; [by intros ?? ?%not_elem_of_nil|]. intros _ _.
       assert (outstanding P = []) as ->; [|done]. apply elem_of_nil_inv. intros op [i Hi]%outstanding_elem%list_elem_of_lookup_1.
       destruct (Forall2_lookup_r _ _ _ _ _ HF Hi) as ([r|] & Hr & He); [|done]. by eapply (scan_all _ _ Hl Escan). }
  apply scan_used_some in Escan. destruct (Forall2_lookup_l _ _ _ _ _ HF Escan) as ([op|] & HPi & He); [|done].
  destruct He as (Eh & El & Hk & Hb & Hd). destruct (payload_nonempty op Hk Hb) as (Hne & Hmax & Hpos).
  apply wp_bind. rewrite El, Eh. eapply wp_mono; [by apply wp_route_broadcast|].
  intros [[[d a] rw] out] s1 (-> & -> & -> & Hrow' & Hc & ->). apply wp_bind.
  change (fo_row (f <| fo_cursor := _ |>)) with (fo_row f) in Hc |- *. set (c' := ((i + 1) mod REPAIR_CAPACITY)%nat).
  fold (posts op (takers (res k) (connected (fo_row f)))). set (C := connected (fo_row f)) in *.
  destruct ((0 <? Z.of_nat (length C)) && (Z.of_nat (length (takers (res k) C)) =? Z.of_nat (length C))) eqn:Eall.
  - apply andb_true_iff in Eall as [_ Et%Z.eqb_eq%all_took]. apply wp_bind. eapply wp_mono; [by eapply journal_clear|].
    intros j2 s2 (Hev2 & -> & Hj2). apply wp_ret, wp_bind.
    eapply wp_mono; [apply (IH (S k) (mk_fanout (<[i := None]> (fo_journal f)) c' rw) (<[i := None]> P) L); [by split|done]|].
    intros [f' out'] s' (Ha' & Hc' & P' & Hinv' & Hsub & Hkeep & Hposts & Hcount). apply wp_ret. cbn [fo_row] in *.
    split; [by rewrite Ha', (ev_alloc _ _ Hev2)|]. split; [by rewrite Hc'|]. exists P'. split; [done|].
    pose proof (outstanding_clear P i op HPi) as Hperm. split; [|split; [|split]].
    + intros op' Hop. rewrite Hperm. right. by apply Hsub.
    + intros op' Hop. rewrite Hperm in Hop. apply elem_of_cons in Hop as [->|Hop].
      * right. intros p Hp. apply elem_of_app. left. rewrite Et. apply list_elem_of_fmap. by exists p.
      * destruct (Hkeep op' Hop) as [|Hp]; [by left|]. right. intros p Hin. apply elem_of_app. right. apply Hp. by rewrite Hc.
    + intros p d [[_ ->]%elem_of_posts|Hp]%elem_of_app; [exists op; rewrite Hperm; split; [done|by left]|].
      destruct (Hposts p d Hp) as (op' & -> & Hop). exists op'. split; [done|]. rewrite Hperm. by right.
    + intros Ha HC. rewrite (Permutation_length Hperm), (Hcount Ha) by (by rewrite Hc). cbn [length]. lia.
  - apply wp_ret, wp_bind.
    eapply wp_mono; [apply (IH (S k) (mk_fanout (fo_journal f) c' rw) P L); [by split|done]|].
    intros [f' out'] s' (Ha' & Hc' & P' & Hinv' & Hsub & Hkeep & Hposts & Hcount). apply wp_ret. cbn [fo_row] in *.
    split; [done|]. split; [by rewrite Hc'|]. exists P'. split; [done|]. split; [done|]. split; [|split].
    + intros op' Hop. destruct (Hkeep op' Hop) as [|Hp]; [by left|]. right. intros p Hin. apply elem_of_app. right. apply Hp. by rewrite Hc.
    + intros p d [[_ ->]%elem_of_posts|Hp]%elem_of_app; [|by eapply Hposts]. exists op. split; [done|].
      apply outstanding_elem. by eapply list_elem_of_lookup_2.
    + intros Ha HC. exfalso. assert (takers (res k) C = C) as Et.
      { unfold takers. clear -Hall Ha. induction C as [|p C IH]; [done|]. rewrite filter_cons_True by (by apply Hall). by rewrite IH. }
      rewrite Et, Z.eqb_refl, andb_true_r in Eall. apply Z.ltb_ge in Eall. apply HC, nil_length_inv. fold C. lia.
Qed.

(** ** Histories *)

Inductive graph_event := GSend (res : send_answers) (op : graph_op) | GTick (res : nat → send_answers).
(** The operations accepted (NGX_OK or NGX_AGAIN), the state and everything posted. *)
Fixpoint graph_history (workers : Z) (evs : list graph_event) (f : fanout_state) : M (list graph_op * fanout_state * posted) :=
  match evs with
  | [] => mret ([], f, [])
  | GSend res op :: evs =>
      '(r, f, out) ← graph_send workers res op f;
      '(acc, f, out') ← graph_history workers evs f;
      mret (if bool_decide (r = NGX_ERROR) then acc else op :: acc, f, out ++ out')
  | GTick res :: evs =>
      '(f, out) ← graph_repair_tick res f;
      '(acc, f, out') ← graph_history workers evs f;
      mret (acc, f, out ++ out')
  end.
Definition graph_event_ok (e : graph_event) : Prop := match e with GSend _ op => keys_sized op | GTick _ => True end.

Lemma wp_graph_history workers evs : 1 < workers → ∀ f P L s,
  Forall graph_event_ok evs → fanout_inv s f P L →
  wp (graph_history workers evs f) (λ '(acc, f', out) s', connected (fo_row f') = connected (fo_row f) ∧
    ∃ P', fanout_inv s' f' P' L ∧ (∀ op, op ∈ outstanding P' → op ∈ outstanding P ∨ op ∈ acc) ∧
    (∀ op, op ∈ outstanding P ∨ op ∈ acc →
      op ∈ outstanding P' ∨ ∀ i, i ∈ connected (fo_row f) → (i, graph_packet op) ∈ out) ∧
    ∀ i d, (i, d) ∈ out → ∃ op, d = graph_packet op ∧ (op ∈ outstanding P ∨ op ∈ acc)) s.
Proof.
  intros Hw. induction evs as [|[res op|res] evs IH]; intros f P L s Hok Hinv; cbn [graph_history].
  - apply wp_ret. split; [done|]. exists P. split; [done|]. split; [by left|].
    split; [intros op [H|H]; [by left|by apply not_elem_of_nil in H]|]. by intros ?? ?%not_elem_of_nil.
  - inversion_clear Hok as [|? ? Hk Hok']. apply wp_bind. eapply wp_mono; [by apply (wp_graph_send workers res op f P L s)|].
    intros [[r f1] out] s1 (_ & Hc1 & _ & P1 & Hinv1 & Hr). apply wp_bind. eapply wp_mono; [by apply (IH f1 P1 L s1)|].
    intros [[acc f2] out2] s2 (Hc2 & P2 & Hinv2 & Hfrom & Hall & Hposts). apply wp_ret. rewrite Hc1 in *. split; [done|]. exists P2. split; [done|].
    assert (∀ op', (op' ∈ outstanding P1 ∨ op' ∈ acc) → op' ∈ outstanding P2 ∨ ∀ i, i ∈ connected (fo_row f) → (i, graph_packet op') ∈ out ++ out2) as Hall'.
    { intros op' H. destruct (Hall op' H) as [|Hp]; [by left|]. right. intros i Hi. apply elem_of_app. right. by apply Hp. }
    assert (∀ P0 (acc0 : list graph_op), (∀ op', op' ∈ outstanding P1 ∨ op' ∈ acc → op' ∈ outstanding P0 ∨ op' ∈ acc0) →
      (∀ i d, (i, d) ∈ out → d = graph_packet op ∧ op ∈ acc0) →
      ∀ i d, (i, d) ∈ out ++ out2 → ∃ op', d = graph_packet op' ∧ (op' ∈ outstanding P0 ∨ op' ∈ acc0)) as Hposts'.
    { intros P0 acc0 Hin Hout i d [Hp|Hp]%elem_of_app.
      - destruct (Hout i d Hp) as [-> ?]. exists op. split; [done|by right].
      - destruct (Hposts i d Hp) as (op' & -> & H). exists op'. split; [done|by apply Hin]. }
    destruct r; cbn [bool_decide] in *.
    + destruct Hr as (-> & _ & ->). rewrite bool_decide_eq_false_2 by done. split; [|split].
      * intros op' H. destruct (Hfrom op' H); [by left|]. right. by right.
      * intros op' [H|[->|H]%elem_of_cons]; [apply Hall'; by left| |apply Hall'; by right].
        right. intros i Hi. apply elem_of_app. left. apply list_elem_of_fmap. by exists i.
      * apply Hposts'; [intros op' [H|H]; [by left|right; by right]|]. intros i d [_ ->]%elem_of_posts. split; [done|by left].
    + destruct Hr as (-> & -> & -> & _). rewrite bool_decide_eq_true_2 by done. split; [done|]. split; [exact Hall'|]. exact Hposts.
    + destruct Hr as (i & l & Hi & -> & ->). rewrite bool_decide_eq_false_2 by done. pose proof (outstanding_set P i op Hi) as Hperm. split; [|split].
      * intros op' H. destruct (Hfrom op' H) as [H'|]; [|right; by right]. rewrite Hperm in H'. apply elem_of_cons in H' as [->|]; [right; by left|by left].
      * intros op' H. apply Hall'. rewrite Hperm. destruct H as [H|[->|H]%elem_of_cons]; [left; by right|left; by left|by right].
      * apply Hposts'; [|intros p d [_ ->]%elem_of_posts; split; [done|by left]].
        intros op' [H|H]; [|right; by right]. rewrite Hperm in H. apply elem_of_cons in H as [->|]; [right; by left|by left].
    + done.
  - inversion_clear Hok as [|? ? _ Hok']. apply wp_bind. eapply wp_mono; [by apply (wp_repair_attempts res false REPAIR_PER_TICK 0 f P L s)|].
    intros [f1 out] s1 (_ & Hc1 & P1 & Hinv1 & Hsub & Hkeep & Hpd & _). apply wp_bind. eapply wp_mono; [by apply (IH f1 P1 L s1)|].
    intros [[acc f2] out2] s2 (Hc2 & P2 & Hinv2 & Hfrom & Hall & Hposts). apply wp_ret. rewrite Hc1 in *. split; [done|]. exists P2. split; [done|]. split; [|split].
    + intros op' H. destruct (Hfrom op' H) as [H'|]; [left; by apply Hsub|by right].
    + intros op' H. assert ((op' ∈ outstanding P1 ∨ op' ∈ acc) ∨ ∀ i, i ∈ connected (fo_row f) → (i, graph_packet op') ∈ out) as [H1|Hp].
      { destruct H as [H|H]; [|left; by right]. destruct (Hkeep op' H); [left; by left|by right]. }
      * destruct (Hall op' H1) as [|Hp]; [by left|]. right. intros i Hi. apply elem_of_app. right. by apply Hp.
      * right. intros i Hi. apply elem_of_app. left. by apply Hp.
    + intros i d [Hp|Hp]%elem_of_app.
      * destruct (Hpd i d Hp) as (op' & -> & H). exists op'. split; [done|by left].
      * destruct (Hposts i d Hp) as (op' & -> & H). exists op'. split; [done|]. destruct H; [left; by apply Hsub|by right].
Qed.

(** C31: An accepted mutation reaches every worker or is still going to, a refused one
    reaches none.  Over every history of mutations and ticks, with every send answered as the
    sockets like and every allocation possibly refused: each operation accepted is in the
    journal at the end or was posted to every connected peer; what is in the journal was
    there before or was accepted; everything posted is an operation that was; and every
    payload belongs to the journal, none leaks.  And a further mutation that is refused then
    is posted to nobody and changes nothing; it is outside the budgets, or there is no memory
    for it, or the journal is full. *)
Theorem graph_at_least_once workers evs f P L s :
  1 < workers → Forall graph_event_ok evs → fanout_inv s f P L →
  wp (graph_history workers evs f) (λ '(acc, f', out) s', ∃ P',
    owns s' (holds (fo_journal f') ++ L) ∧ Forall2 (entry_is s') (fo_journal f') P' ∧
    (∀ op, op ∈ outstanding P' → op ∈ outstanding P ∨ op ∈ acc) ∧
    (∀ op, op ∈ outstanding P ∨ op ∈ acc →
      op ∈ outstanding P' ∨ ∀ i, i ∈ connected (fo_row f) → (i, graph_packet op) ∈ out) ∧
    (∀ i d, (i, d) ∈ out → ∃ op, d = graph_packet op ∧ (op ∈ outstanding P ∨ op ∈ acc)) ∧
    ∀ res op, keys_sized op →
      wp (graph_send workers res op f') (λ '(r, f'', out'') s'', r = NGX_ERROR →
        out'' = [] ∧ f'' = f' ∧ owns s'' (holds (fo_journal f'') ++ L) ∧ Forall2 (entry_is s'') (fo_journal f'') P' ∧
        (¬ in_budget op ∨ ¬ no_refusal s' ∨ None ∉ fo_journal f')) s') s.
Proof.
  intros Hw Hok Hinv. eapply wp_mono; [by apply wp_graph_history|].
  intros [[acc f'] out] s' (_ & P' & Hinv' & Hfrom & Hall & Hout). pose proof Hinv' as [[_ HF Ho] _].
  exists P'. split_and!; try done. intros res op Hk. eapply wp_mono; [by apply wp_graph_send|].
  intros [[r f''] out''] s'' (_ & _ & _ & P'' & [[_ HF'' Ho''] _] & Hr) ->. destruct Hr as (-> & -> & -> & Hwhy).
  split_and!; try done. destruct Hwhy as [Hb|[Hn|Hfull]]; [|by right; left|].
  - left. intros H%budget_spec. congruence.
  - right. right. eapply journal_full; [apply (fv_journal _ _ _ _ Hinv')|exact Hfull].
Qed.

(** Ticks with nothing else in between, every send answered alike. *)
Fixpoint repair_ticks (n : nat) (res : nat → send_answers) (f : fanout_state) : M (fanout_state * posted) :=
  match n with
  | O => mret (f, [])
  | S n =>
      '(f, out) ← graph_repair_tick res f;
      '(f, out') ← repair_ticks n res f;
      mret (f, out ++ out')
  end.
Lemma wp_repair_ticks L n : ∀ f P s,
  fanout_inv s f P L → connected (fo_row f) ≠ [] →
  wp (repair_ticks n (λ _ _ _, Sent) f) (λ '(f', out) s', ∃ P', fanout_inv s' f' P' L ∧
    length (outstanding P') = (length (outstanding P) - n * REPAIR_PER_TICK)%nat ∧
    ∀ op, op ∈ outstanding P → op ∈ outstanding P' ∨ ∀ i, i ∈ connected (fo_row f) → (i, graph_packet op) ∈ out) s.
Proof.
  induction n as [|n IH]; intros f P s Hinv HC; cbn [repair_ticks].
  { apply wp_ret. exists P. split; [done|]. split; [lia|]. by left. }
  apply wp_bind. eapply wp_mono; [by apply (wp_repair_attempts _ true REPAIR_PER_TICK 0 f P L s)|].
  intros [f1 out] s1 (_ & Hc1 & P1 & Hinv1 & _ & Hkeep & _ & Hn). apply wp_bind. eapply wp_mono; [apply (IH f1 P1 s1 Hinv1); by rewrite Hc1|].
  intros [f2 out2] s2 (P2 & Hinv2 & Hn2 & Hkeep2). apply wp_ret. exists P2. split; [done|]. split.
  - rewrite Hn2, (Hn eq_refl HC). lia.
  - intros op H. destruct (Hkeep op H) as [H1|Hp].
    + destruct (Hkeep2 op H1) as [|Hp]; [by left|]. right. intros i Hi. apply elem_of_app. right. apply Hp. by rewrite Hc1.
    + right. intros i Hi. apply elem_of_app. left. by apply Hp.
Qed.
(** C32: The journal drains.  Once the peers take what is offered, every operation that waits has
    been posted to every connected peer after 64 ticks - the journal's 256 places at four a
    tick, whatever the cursor was - and the journal is empty. *)
Theorem journal_drains f P L s :
  fanout_inv s f P L → connected (fo_row f) ≠ [] →
  wp (repair_ticks 64 (λ _ _ _, Sent) f) (λ '(f', out) s',
    fo_journal f' = replicate REPAIR_CAPACITY None ∧ owns s' L ∧
    ∀ op, op ∈ outstanding P → ∀ i, i ∈ connected (fo_row f) → (i, graph_packet op) ∈ out) s.
Proof.
  intros Hinv HC.
  eapply wp_mono; [by apply (wp_repair_ticks L 64%nat f P s)|]. intros [f' out] s' (P' & [[Hl HF Ho] _] & Hn & Hkeep).
  assert (length P = REPAIR_CAPACITY) as HlP by (rewrite <- (js_length _ _ _ _ (fv_journal _ _ _ _ Hinv)); symmetry; eapply Forall2_length, Hinv).
  assert (outstanding P' = []) as E.
  { apply nil_length_inv. rewrite Hn. assert (length (outstanding P) ≤ length P)%nat by apply outstanding_le.
    unfold REPAIR_CAPACITY, REPAIR_PER_TICK in *. lia. }
  assert (fo_journal f' = replicate REPAIR_CAPACITY None) as Ej.
  { symmetry. apply replicate_as_elem_of. split; [done|]. intros [r|] Hin; [|done]. exfalso.
    apply list_elem_of_lookup_1 in Hin as [i Hi]. destruct (Forall2_lookup_l _ _ _ _ _ HF Hi) as ([op|] & Hp & He); [|done].
    assert (op ∈ outstanding P') as Hx by (apply outstanding_elem; by eapply list_elem_of_lookup_2). rewrite E in Hx. by apply not_elem_of_nil in Hx. }
  split; [done|]. split.
  - rewrite Ej, holds_none in Ho. exact Ho.
  - intros op H. destruct (Hkeep op H) as [Hx|]; [|done]. rewrite E in Hx. by apply not_elem_of_nil in Hx.
Qed.


(** ** Examples *)

Definition ex_row : row := mk_row 0 [None; Some ex_endpoint; None; Some ex_endpoint] 0.
Definition ex_fanout : fanout_state := mk_fanout (replicate REPAIR_CAPACITY None) 250 ex_row.
Lemma ex_fanout_inv : fanout_inv ex_owner ex_fanout (replicate REPAIR_CAPACITY None) [].
Proof.
  split.
  - split; [done| |cbn [ex_fanout fo_journal]; rewrite holds_none; apply ex_owner_st].
    apply Forall2_replicate. done.
  - repeat constructor; intros ep [= <-]; done.
Qed.
(** The first peer does not take it, the second does; the tick that follows reaches both. *)
Definition ex_graph_events : list graph_event :=
  [GSend (λ i _, if (i =? 1)%nat then SendFull else Sent) ex_graph_op; GTick (λ _ _ _, Sent)].
Lemma graph_at_least_once_witness :
  ∃ acc f' out s', graph_history 4 ex_graph_events ex_fanout ex_owner = Some ((acc, f', out), s') ∧
    acc = [ex_graph_op] ∧ out.*1 = [3; 1; 3]%nat ∧ owns s' (holds (fo_journal f') ++ []) ∧
    wp (graph_send 4 (λ _ _, Sent) ex_long_op f') (λ '(r, f'', out'') s'', r = NGX_ERROR → out'' = [] ∧ f'' = f') s'.
Proof.
  destruct (graph_at_least_once 4 ex_graph_events ex_fanout (replicate REPAIR_CAPACITY None) [] ex_owner)
    as ([[acc f'] out] & s' & Hrun & P' & Ho & _ & _ & _ & _ & Hrefuse); [lia| |exact ex_fanout_inv|].
  - constructor; [done|]. constructor; [done|constructor].
  - exists acc, f', out, s'. split; [exact Hrun|].
    assert (acc = [ex_graph_op] ∧ out.*1 = [3; 1; 3]%nat) as [-> ->].
    { clear -Hrun. vm_compute in Hrun. by injection Hrun as <- _ <- _. }
    split; [reflexivity|]. split; [reflexivity|]. split; [exact Ho|].
    eapply wp_mono; [apply (Hrefuse (λ _ _, Sent) ex_long_op); split_and!; reflexivity|].
    intros [[r f''] out''] s'' H E. destruct (H E) as (H1 & H2 & _). exact (conj H1 H2).
Defined.
(** A journal with one operation in it. *)
Definition ex_waiting : fanout_state :=
  mk_fanout (<[3%nat := Some (mk_repair (graph_header ex_graph_op) 0 (lenZ (graph_payload ex_graph_op)))]> (replicate REPAIR_CAPACITY None)) 250 ex_row.
Definition ex_waiting_ops : list (option graph_op) := <[3%nat := Some ex_graph_op]> (replicate REPAIR_CAPACITY None).
Lemma ex_waiting_inv : fanout_inv ex_replica_store ex_waiting ex_waiting_ops [].
Proof.
  split; [|exact (fv_row _ _ _ _ ex_fanout_inv)].
  apply (journal_set ex_owner ex_replica_store (replicate REPAIR_CAPACITY None) (replicate REPAIR_CAPACITY None) [] []); [apply ex_fanout_inv| | |].
  - apply Forall2_replicate. done.
  - split_and!; [done|done|by apply graph_op_ok_sized, ex_graph_op_ok|by apply budget_spec|]. eexists. split; [reflexivity|]. done.
  - eapply owns_proper; [|exact ex_replica_owns].
    pose proof (holds_swap (replicate REPAIR_CAPACITY None) 3 None (Some (mk_repair (graph_header ex_graph_op) 0 (lenZ (graph_payload ex_graph_op)))) eq_refl) as Hp.
    rewrite holds_none in Hp. change (holds (None : option repair)) with (@nil N) in Hp. rewrite !app_nil_r in Hp |- *. exact Hp.
Qed.
Lemma journal_drains_witness :
  wp (repair_ticks 64 (λ _ _ _, Sent) ex_waiting) (λ '(f', out) s',
    fo_journal f' = replicate REPAIR_CAPACITY None ∧ owns s' [] ∧
    ∀ op, op ∈ outstanding ex_waiting_ops → ∀ i, i ∈ connected (fo_row ex_waiting) → (i, graph_packet op) ∈ out) ex_replica_store.
Proof. apply (journal_drains ex_waiting ex_waiting_ops [] ex_replica_store); [exact ex_waiting_inv|done]. Defined.
