(* ===== verification/Egress.v ===== *)
(** * Admission and telemetry of the outgoing destinations

    Models core/ngx_media_egress_manager.[ch]: the worker's list of admitted destinations and
    what they report, the CPU the worker may use, and how many senders an engine should run.
    The clocks, the scheduler's affinity mask and the files of the host are parameters.  The
    list refines a map from tokens to statistics; the recommended number of workers stays in
    its bounds and moves by the rules of its engine. *)
From Stdlib Require Import Sorted.
From S2P Require Import Prelude Bytes Ring Store Owner HlsPlaylist.

Definition DEST_SRT : Z := 1.
Definition DEST_RTMP : Z := 2.
Definition DEST_HLS_PUSH : Z := 3.
Definition DEST_RECORD : Z := 4.
Definition ENGINE_SHARED : Z := 0.
Definition ENGINE_SRT_SHARD : Z := 1.
Definition ENGINE_RTMP_EVENT_LOOP : Z := 2.
Definition ENGINE_HLS_UPLOAD_POOL : Z := 3.
Definition ENGINE_MAX : Z := 3.
Definition SIZE_MAX : Z := 2 ^ 64 - 1.
Definition SECOND_NS : Z := 1000000000.

Record descriptor := mk_descriptor {
  ds_application : option (list Z); ds_stream : option (list Z); ds_destination : option (list Z);
  ds_incarnation : Z; ds_representation_id : Z; ds_representation_epoch : Z; ds_feed_id : Z; ds_feed_epoch : Z;
  ds_protocol : Z; ds_engine : Z; ds_placement : Z; ds_deadline : Z; ds_payload_bps : Z; ds_cpu_budget : Z }.

Record report := mk_report {
  rp_delivered : Z; rp_dropped : Z; rp_errors : Z; rp_backpressure : Z; rp_reconnects : Z; rp_misses : Z;
  rp_queue_bytes : Z; rp_queue_lag : Z; rp_placement : Z }.

(** Who a destination is and what it was promised: nothing changes it after admission. *)
Record identity := mk_identity {
  ei_program : Z; ei_incarnation : Z; ei_representation_id : Z; ei_representation_epoch : Z; ei_feed_id : Z; ei_feed_epoch : Z;
  ei_application : list Z; ei_stream : list Z; ei_destination : list Z;
  ei_protocol : Z; ei_engine : Z; ei_deadline : Z; ei_payload_bps : Z; ei_cpu_budget : Z }.
Record egress_stats := mk_egress_stats {
  es_id : Z; es_identity : identity; es_placement : Z; es_active : bool;
  es_delivered : Z; es_dropped : Z; es_errors : Z; es_backpressure : Z; es_reconnects : Z; es_misses : Z;
  es_queue_bytes : Z; es_queue_lag : Z }.
#[global] Instance eta_egress_stats : Eta egress_stats := λ s,
  mk_egress_stats (es_id s) (es_identity s) (es_placement s) (es_active s) (es_delivered s) (es_dropped s) (es_errors s)
    (es_backpressure s) (es_reconnects s) (es_misses s) (es_queue_bytes s) (es_queue_lag s).
(** A record with what the last recommendation saw of it. *)
Record egress_record := mk_egress_record {
  er_stats : egress_stats; er_dropped : Z; er_backpressure : Z; er_queue_bytes : Z; er_queue_lag : Z; er_valid : bool }.

(** ngx_media_rtmp_scheduler_stats_t, in the order of its fields. *)
Record scheduler_stats := mk_scheduler_stats {
  sd_runnable : Z; sd_blocked : Z; sd_visit_destinations : Z; sd_visit_bytes : Z; sd_visit_units : Z; sd_visit_usec : Z;
  sd_visited : Z; sd_bytes : Z; sd_units : Z; sd_usec : Z; sd_reposts : Z; sd_oldest : Z }.
Definition scheduler_zero : scheduler_stats := mk_scheduler_stats 0 0 0 0 0 0 0 0 0 0 0 0.
Record resources := mk_resources {
  rs_cpu_milli : Z; rs_worker_permille : Z; rs_lag : Z; rs_valid : bool;
  rs_workers : list Z; rs_permille : list Z; rs_scheduler : scheduler_stats }.
#[global] Instance eta_resources : Eta resources := λ r,
  mk_resources (rs_cpu_milli r) (rs_worker_permille r) (rs_lag r) (rs_valid r) (rs_workers r) (rs_permille r) (rs_scheduler r).
Record engine_state := mk_engine_state { eg_pressure : Z; eg_quiet : Z; eg_last_change : Z }.
#[global] Instance eta_engine_state : Eta engine_state := λ s, mk_engine_state (eg_pressure s) (eg_quiet s) (eg_last_change s).

Record manager := mk_manager {
  mg_records : list egress_record; mg_next_id : Z; mg_count : Z; mg_resources : resources; mg_engines : list engine_state;
  mg_fixed : list Z; mg_wall : Z; mg_cpu : Z; mg_capacity : Z; mg_checked : Z }.
#[global] Instance eta_manager : Eta manager := λ m,
  mk_manager (mg_records m) (mg_next_id m) (mg_count m) (mg_resources m) (mg_engines m) (mg_fixed m) (mg_wall m) (mg_cpu m)
    (mg_capacity m) (mg_checked m).
Definition manager_init : manager :=
  mk_manager [] 0 0 (mk_resources 0 0 0 false [0; 0; 0; 0] [0; 0; 0; 0] scheduler_zero)
    (replicate 4 (mk_engine_state 0 0 0)) [0; 0; 0; 0] 0 0 0 0.

(** An array of one word per engine; the callers' engines are at most [ENGINE_MAX]. *)
Definition engine_get (l : list Z) (engine : Z) : Z := default 0 (l !! Z.to_nat engine).
Definition engine_put (l : list Z) (engine v : Z) : list Z := <[Z.to_nat engine := v]> l.

(** ** Admission *)

Definition egress_hash (application stream : list Z) : Z :=
  let hash := fnv (fnv_step (fnv FNV_BASIS application) 255) stream in
  if hash =? 0 then 1 else hash.
Definition counter_add (current delta : Z) : Z := if SIZE_MAX - current <? delta then SIZE_MAX else current + delta.

(** sizeof(ngx_media_egress_record_t) *)
Definition record_size : Z := 272.
Definition label_ok (l : option (list Z)) : bool := match l with None => false | Some l => negb (lenZ l =? 0) end.
Definition protocol_ok (p : Z) : bool := (p =? DEST_SRT) || (p =? DEST_RTMP) || (p =? DEST_HLS_PUSH).
Definition admit_identity (d : descriptor) (application stream destination : list Z) : identity :=
  mk_identity (egress_hash application stream) (ds_incarnation d) (ds_representation_id d) (ds_representation_epoch d)
    (ds_feed_id d) (ds_feed_epoch d) application stream destination (ds_protocol d) (ds_engine d) (ds_deadline d)
    (ds_payload_bps d) (ds_cpu_budget d).
Definition stats_init (id : Z) (i : identity) (placement : Z) : egress_stats :=
  mk_egress_stats id i placement true 0 0 0 0 0 0 0 0.

(** The record linked in front of the list. *)
Definition manager_link (m : manager) (i : identity) (placement : Z) : Z * manager :=
  let id := mg_next_id m ⊕ 1 in
  let id := if id =? 0 then id ⊕ 1 else id in
  let m := m <| mg_next_id := id |> <| mg_records := mk_egress_record (stats_init id i placement) 0 0 0 0 false :: mg_records m |>
             <| mg_count := mg_count m ⊕ 1 |> in
  (id, if ei_engine i =? ENGINE_RTMP_EVENT_LOOP
       then m <| mg_resources ::= λ r, r <| rs_workers ::= λ l, engine_put l ENGINE_RTMP_EVENT_LOOP 1 |> |> else m).

(** Answers the token, or NULL's 0 with NGX_ERROR. *)
Definition manager_admit (d : descriptor) (m : manager) : M (rc * Z * manager) :=
  match ds_application d, ds_stream d, ds_destination d with
  | Some application, Some stream, Some destination =>
      if (lenZ application =? 0) || (lenZ stream =? 0) || (lenZ destination =? 0)
         || negb (protocol_ok (ds_protocol d)) || (ds_engine d =? 0)
         || (SIZE_MAX - lenZ application <? lenZ stream) || (SIZE_MAX - 3 <? lenZ destination)
      then mret (NGX_ERROR, 0, m)
      else
        let labels := lenZ application + lenZ stream in
        if SIZE_MAX ⊖ lenZ destination ⊖ 3 <? labels then mret (NGX_ERROR, 0, m)
        else
          let labels := labels + lenZ destination + 3 in
          if SIZE_MAX - record_size <? labels then mret (NGX_ERROR, 0, m)
          else
            p ← ngx_alloc (record_size + labels);
            match p with
            | None => mret (NGX_ERROR, 0, m)
            | Some _ =>
                let '(id, m) := manager_link m (admit_identity d application stream destination) (ds_placement d) in
                mret (NGX_OK, id, m)
            end
  | _, _, _ => mret (NGX_ERROR, 0, m)
  end.

(** The first record with this token, and the list without it. *)
Fixpoint unlink (l : list egress_record) (id : Z) : option (egress_record * list egress_record) :=
  match l with
  | [] => None
  | r :: l => if es_id (er_stats r) =? id then Some (r, l) else '(x, l) ← unlink l id; Some (x, r :: l)
  end.
Definition rtmp_active (l : list egress_record) : bool :=
  existsb (λ r, es_active (er_stats r) && (ei_engine (es_identity (er_stats r)) =? ENGINE_RTMP_EVENT_LOOP)) l.
Definition manager_release (id : Z) (m : manager) : manager :=
  if id =? 0 then m
  else
    match unlink (mg_records m) id with
    | None => m
    | Some (r, l) =>
        let m := m <| mg_records := l |> <| mg_count := mg_count m ⊖ 1 |> in
        if ei_engine (es_identity (er_stats r)) =? ENGINE_RTMP_EVENT_LOOP then
          m <| mg_resources ::= λ rs, rs <| rs_workers ::= λ w, engine_put w ENGINE_RTMP_EVENT_LOOP (if rtmp_active l then 1 else 0) |> |>
        else m
    end.

Definition stats_report (p : report) (s : egress_stats) : egress_stats :=
  s <| es_delivered := counter_add (es_delivered s) (rp_delivered p) |>
    <| es_dropped := counter_add (es_dropped s) (rp_dropped p) |>
    <| es_errors := counter_add (es_errors s) (rp_errors p) |>
    <| es_backpressure := counter_add (es_backpressure s) (rp_backpressure p) |>
    <| es_reconnects := counter_add (es_reconnects s) (rp_reconnects p) |>
    <| es_misses := counter_add (es_misses s) (rp_misses p) |>
    <| es_queue_bytes := rp_queue_bytes p |> <| es_queue_lag := rp_queue_lag p |> <| es_placement := rp_placement p |>.
Fixpoint report_loop (l : list egress_record) (id : Z) (p : report) : list egress_record :=
  match l with
  | [] => []
  | r :: l =>
      if es_id (er_stats r) =? id
      then mk_egress_record (stats_report p (er_stats r)) (er_dropped r) (er_backpressure r) (er_queue_bytes r) (er_queue_lag r) (er_valid r) :: l
      else r :: report_loop l id p
  end.
(** A NULL report is [None]. *)
Definition manager_report (id : Z) (p : option report) (m : manager) : manager :=
  match p with
  | None => m
  | Some p => if id =? 0 then m else m <| mg_records := report_loop (mg_records m) id p |>
  end.
Definition manager_count (m : manager) : Z := mg_count m.

(** The visitor is a callback with a context; it stops the walk with what it answers. *)
Fixpoint visit_loop {T} (visit : egress_stats → T → rc * T) (l : list egress_record) (ctx : T) : rc * T :=
  match l with
  | [] => (NGX_OK, ctx)
  | r :: l =>
      let '(rc, ctx) := visit (er_stats r) ctx in
      if negb (bool_decide (rc = NGX_OK)) then (rc, ctx) else visit_loop visit l ctx
  end.
Definition manager_visit {T} (visit : egress_stats → T → rc * T) (m : manager) (ctx : T) : rc * T := visit_loop visit (mg_records m) ctx.

(** ** What the host grants *)

(** The clocks in nanoseconds (0 when they cannot be read) - the monotonic one is read once
    for the wall time and once more when the capacity is asked for -, the CPUs of the
    affinity mask (0 when it cannot be read), those online, and what [read] gives of a file. *)
Record host := mk_host { ho_monotonic : Z; ho_capacity_clock : Z; ho_cputime : Z; ho_affinity : Z; ho_online : Z; ho_file : list Z → option (list Z) }.

Definition read_file (h : host) (path : list Z) (size : Z) : option (list Z) :=
  match ho_file h path with
  | None => None
  | Some d => let d := take (Z.to_nat size) d in if lenZ d =? 0 then None else Some d
  end.
(** The bytes before the NUL. *)
Fixpoint cstr (d : list Z) : list Z := match d with [] => [] | b :: d => if b =? 0 then [] else b :: cstr d end.
Fixpoint skip_blanks (d : list Z) : list Z :=
  match d with [] => [] | b :: d' => if (b =? 32) || (b =? 9) then skip_blanks d' else d end.
Fixpoint digits_loop (d : list Z) (v : Z) : Z * list Z :=
  match d with
  | [] => (v, [])
  | b :: d' => if is_digit b then digits_loop d' (v * 10 + (b - 48)) else (v, d)
  end.
(** [strtoull(p, &end, 10)] of a string: the number, whether it is out of range, and what
    follows; no number is [None]. *)
Definition strtoull_end (d : list Z) : option (Z * bool * list Z) :=
  let d := skip_spaces d in
  let '(minus, d) :=
    match d with
    | [] => (false, d)
    | b :: d' => if b =? 45 then (true, d') else if b =? 43 then (false, d') else (false, d)
    end in
  match d with
  | [] => None
  | b :: _ =>
      if is_digit b then
        let '(v, rest) := digits_loop d 0 in
        Some (if v <? 2 ^ 64 then ((if minus then u64 (- v) else v), false, rest) else (SIZE_MAX, true, rest))
      else None
  end.

Definition str_max : list Z := [109; 97; 120].
(** The whole CPUs, in thousandths, that [quota] microseconds of every [period] are. *)
Definition quota_milli (quota period : Z) : Z :=
  let milli := if SIZE_MAX / 1000 <? quota then SIZE_MAX else quota * 1000 / period in
  if milli =? 0 then 1 else milli.
Definition quota_text (d : list Z) : Z :=
  let p := skip_blanks d in
  if bool_decide (take 3 p = str_max) then 0
  else
    match strtoull_end p with
    | None | Some (_, true, _) => 0
    | Some (quota, false, rest) =>
        match strtoull_end (skip_blanks rest) with
        | None | Some (_, true, _) => 0
        | Some (period, false, _) => if (period =? 0) || (quota =? 0) then 0 else quota_milli quota period
        end
    end.
Definition cpu_quota (h : host) (path : list Z) : Z :=
  match read_file h path 127 with None => 0 | Some d => quota_text (cstr d) end.

(** "/sys/fs/cgroup", "/cpu.max", "/proc/self/cgroup" and "0::" *)
Definition cgroup_root : list Z := [47; 115; 121; 115; 47; 102; 115; 47; 99; 103; 114; 111; 117; 112].
Definition cgroup_suffix : list Z := [47; 99; 112; 117; 46; 109; 97; 120].
Definition cgroup_self : list Z := [47; 112; 114; 111; 99; 47; 115; 101; 108; 102; 47; 99; 103; 114; 111; 117; 112].
Definition unified : list Z := [48; 58; 58].
(** The bytes before a line feed, and what is behind it when there is one. *)
Fixpoint split_line (d : list Z) : list Z * option (list Z) :=
  match d with
  | [] => ([], None)
  | b :: d => if b =? 10 then ([], Some d) else let '(l, r) := split_line d in (b :: l, r)
  end.
(** The quota of the unified hierarchy's line, 0 when there is none; [fuel] bounds the lines. *)
Fixpoint cgroup_loop (h : host) (fuel : nat) (text : list Z) : Z :=
  match fuel, text with
  | S fuel, _ :: _ =>
      let '(line, rest) := split_line text in
      if bool_decide (take 3 line = unified) then
        if lenZ cgroup_root + (lenZ line - 3) + (lenZ cgroup_suffix + 1) <=? 4096
        then cpu_quota h (cgroup_root ++ drop 3 line ++ cgroup_suffix) else 0
      else match rest with None => 0 | Some text => cgroup_loop h fuel text end
  | _, _ => 0
  end.
Definition cpu_quota_for_process (h : host) : Z :=
  let quota :=
    match read_file h cgroup_self 2047 with
    | None => 0
    | Some d => let text := cstr d in cgroup_loop h (length text) text
    end in
  if negb (quota =? 0) then quota else cpu_quota h (cgroup_root ++ cgroup_suffix).

Definition granted_milli (h : host) : Z :=
  let count := if ho_affinity h =? 0 then (if 0 <? ho_online h then ho_online h else 1) else ho_affinity h in
  let affinity := if SIZE_MAX / 1000 <? count then SIZE_MAX else count * 1000 in
  let quota := cpu_quota_for_process h in
  if negb (quota =? 0) && (quota <? affinity) then quota else affinity.
Definition capacity_fresh (now : Z) (m : manager) : bool :=
  negb (mg_capacity m =? 0) && negb (now =? 0) && (now ⊖ mg_checked m <? SECOND_NS).
(** What is granted, asked for once a second.  Between its two looks at the cache the lock is
    free; here nothing happens in between. *)
Definition cpu_capacity_milli (h : host) (m : manager) : Z * manager :=
  let now := ho_capacity_clock h in
  if capacity_fresh now m then (mg_capacity m, m)
  else
    let affinity := granted_milli h in
    if capacity_fresh now m then (mg_capacity m, m)
    else (affinity, (m <| mg_capacity := affinity |>) <| mg_checked := now |>).

Definition worker_resources (cpu_milli permille lag : Z) (m : manager) : manager :=
  m <| mg_resources ::= λ r, (r <| rs_cpu_milli := cpu_milli |>) <| rs_worker_permille := Z.min permille 1000 |>
         <| rs_lag := lag |> <| rs_valid := negb (cpu_milli =? 0) |> |>.
Definition worker_sample (h : host) (lag : Z) (m : manager) : manager :=
  let wall := ho_monotonic h in
  let cpu := ho_cputime h in
  let '(capacity, m) := cpu_capacity_milli h m in
  let m := m <| mg_resources ::= λ r, r <| rs_lag := lag |> <| rs_cpu_milli := if capacity =? 0 then rs_cpu_milli r else capacity |> |> in
  if (wall =? 0) || (cpu =? 0) || (capacity =? 0) then m
  else if (mg_wall m =? 0) || (wall ⊖ mg_wall m <? SECOND_NS) then
    if mg_wall m =? 0 then (m <| mg_wall := wall |>) <| mg_cpu := cpu |> else m
  else
    let wall_delta := wall ⊖ mg_wall m in
    let cpu_delta := if mg_cpu m <=? cpu then cpu ⊖ mg_cpu m else 0 in
    let used := u64 (cpu_delta * 1000) / wall_delta in
    let permille := u64 (used * 1000) / capacity in
    (m <| mg_resources ::= λ r, (r <| rs_worker_permille := Z.min permille 1000 |>) <| rs_valid := true |> |>)
      <| mg_wall := wall |> <| mg_cpu := cpu |>.
Definition engine_load (engine permille workers : Z) (m : manager) : manager :=
  if (engine =? 0) || (ENGINE_MAX <? engine) then m
  else m <| mg_resources ::= λ r, (r <| rs_permille ::= λ l, engine_put l engine (Z.min permille 1000) |>)
               <| rs_workers ::= λ l, engine_put l engine workers |> |>.
Definition pooled (engine : Z) : bool := (engine =? ENGINE_SRT_SHARD) || (engine =? ENGINE_HLS_UPLOAD_POOL).
Definition fixed_workers_set (engine workers : Z) (m : manager) : manager :=
  if negb (pooled engine) then m else m <| mg_fixed ::= λ l, engine_put l engine workers |>.
Definition fixed_workers (engine : Z) (m : manager) : Z := if negb (pooled engine) then 0 else engine_get (mg_fixed m) engine.
Definition resources_get (m : manager) : resources := mg_resources m.
Definition scheduler_report (s : option scheduler_stats) (m : manager) : manager :=
  match s with None => m | Some s => m <| mg_resources ::= λ r, r <| rs_scheduler := s |> |> end.

(** ** How many workers an engine should run *)

Definition engine_cpus (r : resources) (engine : Z) : Z :=
  u64 (u64 (engine_get (rs_workers r) engine * engine_get (rs_permille r) engine) + 999) / 1000.
Definition lane_bit (engine : Z) (s : egress_stats) : option Z :=
  if (engine =? ENGINE_SRT_SHARD) && (es_placement s <? 64) then Some (Z.shiftl 1 (es_placement s)) else None.
Definition under_pressure (engine : Z) (r : egress_record) : bool :=
  let s := er_stats r in
  (er_backpressure r <? es_backpressure s) || (er_dropped r <? es_dropped s)
  || (if engine =? ENGINE_HLS_UPLOAD_POOL
      then er_valid r && ((er_queue_lag r <? es_queue_lag s) || (er_queue_bytes r <? es_queue_bytes s))
      else (100 <=? es_queue_lag s) || (1024 * 1024 <=? es_queue_bytes s)).
Definition sampled (r : egress_record) : egress_record :=
  let s := er_stats r in mk_egress_record s (es_dropped s) (es_backpressure s) (es_queue_bytes s) (es_queue_lag s) true.
(** The pass over the records: the units under pressure and the lanes in use. *)
Record pass := mk_pass { pa_units : Z; pa_placements : Z; pa_lanes : Z }.
#[global] Instance eta_pass : Eta pass := λ p, mk_pass (pa_units p) (pa_placements p) (pa_lanes p).
Definition pass_step (engine : Z) (r : egress_record) (p : pass) : pass :=
  let lane := lane_bit engine (er_stats r) in
  let p := match lane with None => p | Some bit => p <| pa_lanes ::= Z.lor bit |> end in
  if under_pressure engine r then
    match lane with
    | None => p <| pa_units ::= λ n, n ⊕ 1 |>
    | Some bit =>
        if Z.land (pa_placements p) bit =? 0
        then (p <| pa_placements ::= λ x, Z.lor x bit |>) <| pa_units ::= λ n, n ⊕ 1 |> else p
    end
  else p.
Fixpoint sample_loop (engine : Z) (l : list egress_record) (p : pass) : list egress_record * pass :=
  match l with
  | [] => ([], p)
  | r :: l =>
      if negb (es_active (er_stats r)) || negb (ei_engine (es_identity (er_stats r)) =? engine) then
        let '(l, p) := sample_loop engine l p in (r :: l, p)
      else
        let '(l, p) := sample_loop engine l (pass_step engine r p) in (sampled r :: l, p)
  end.
(** [for (bit = mask; bit; bit &= bit - 1) lanes++]; a 64-bit mask has at most 64 bits. *)
Fixpoint count_bits (fuel : nat) (mask : Z) : Z :=
  match fuel with
  | O => 0
  | S fuel => if mask =? 0 then 0 else 1 + count_bits fuel (Z.land mask (mask ⊖ 1))
  end.
Definition rested (st : engine_state) (now pause : Z) : bool :=
  (eg_last_change st =? 0) || (pause <=? now ⊖ eg_last_change st).

(** SRT senders follow the lanes in use, up to the CPUs granted. *)
Definition srt_target (lanes cpu_milli minimum maximum : Z) : Z :=
  let cpus := cpu_milli / 1000 in
  let cpus := if cpus =? 0 then 1 else cpus in
  let target := if lanes <? cpus then lanes else cpus in
  let target := if maximum <? target then maximum else target in
  if target <? minimum then minimum else target.
Definition recommend_srt (r : resources) (lanes now current minimum maximum : Z) (st : engine_state) : Z * engine_state :=
  let target := srt_target (count_bits 64 lanes) (rs_cpu_milli r) minimum maximum in
  let st := (st <| eg_pressure := 0 |>) <| eg_quiet := 0 |> in
  if negb (target =? current) && rested st now 2000 then (target, st <| eg_last_change := now |>) else (current, st).

Definition cpu_limit (r : resources) : Z := let c := rs_cpu_milli r / 1000 in if 0 <? c then c - 1 else c.
Definition other_workers (r : resources) (engine : Z) : Z :=
  (if negb (engine =? ENGINE_SRT_SHARD) then engine_cpus r ENGINE_SRT_SHARD else 0)
  ⊕ (if negb (engine =? ENGINE_HLS_UPLOAD_POOL) then engine_cpus r ENGINE_HLS_UPLOAD_POOL else 0).
Definition recommend_pool (r : resources) (engine units now current minimum maximum : Z) (st : engine_state) : Z * engine_state :=
  let limit := cpu_limit r in
  let others := other_workers r engine in
  if limit <? current ⊕ others then
    let st := (st <| eg_pressure := 0 |>) <| eg_quiet := 0 |> in
    if minimum <? current then (current - 1, st <| eg_last_change := now |>) else (current, st)
  else if current <? units then
    let st := (st <| eg_quiet := 0 |>) <| eg_pressure ::= λ n, if n <? 10 then n + 1 else n |> in
    if (2 <=? eg_pressure st) && (rs_worker_permille r <? 800) && (rs_lag r <? 250) && (2000 <=? rs_cpu_milli r)
       && (current <? maximum) && (current ⊕ others <? limit) && rested st now 2000
    then (current ⊕ 1, st <| eg_last_change := now |>) else (current, st)
  else
    let st := st <| eg_pressure := 0 |> in
    if negb (units =? 0) then (current, st <| eg_quiet := 0 |>)
    else
      let st := st <| eg_quiet ::= λ n, if n <? 100 then n + 1 else n |> in
      if (minimum <? current) && (8 <=? eg_quiet st) && (engine_get (rs_permille r) engine <? 250) && rested st now 5000
      then (current - 1, st <| eg_last_change := now |>) else (current, st).

Definition engine_of (m : manager) (engine : Z) : engine_state := default (mk_engine_state 0 0 0) (mg_engines m !! Z.to_nat engine).
(** [clock] is the monotonic clock in nanoseconds. *)
Definition recommend_workers (clock engine current minimum maximum : Z) (m : manager) : Z * manager :=
  if (engine =? 0) || (ENGINE_MAX <? engine) || (minimum =? 0) || (maximum <? minimum) then (current, m)
  else
    let now := clock / 1000000 in
    if negb (rs_valid (mg_resources m)) then (current, m)
    else
      let '(l, p) := sample_loop engine (mg_records m) (mk_pass 0 0 0) in
      let m := m <| mg_records := l |> in
      let '(next, st) :=
        if engine =? ENGINE_SRT_SHARD then recommend_srt (mg_resources m) (pa_lanes p) now current minimum maximum (engine_of m engine)
        else recommend_pool (mg_resources m) engine (pa_units p) now current minimum maximum (engine_of m engine) in
      (next, m <| mg_engines ::= <[Z.to_nat engine := st]> |>).

(** ** The list as a map from tokens *)

Definition record_id (r : egress_record) : Z := es_id (er_stats r).
Definition is_rtmp (i : identity) : bool := ei_engine i =? ENGINE_RTMP_EVENT_LOOP.
Definition admitted (l : list egress_record) : gmap Z egress_stats := list_to_map ((λ r, (record_id r, er_stats r)) <$> l).

Record manager_inv (m : manager) : Prop := {
  mi_nodup : NoDup (record_id <$> mg_records m);
  mi_ids : Forall (λ r, 0 < record_id r ≤ mg_next_id m) (mg_records m);
  mi_next : is_u64 (mg_next_id m);
  mi_length : Z.of_nat (length (mg_records m)) ≤ mg_next_id m;
  mi_count : mg_count m = Z.of_nat (length (mg_records m));
  mi_active : Forall (λ r, es_active (er_stats r) = true) (mg_records m);
  mi_engines : length (mg_engines m) = 4%nat;
  mi_workers : length (rs_workers (mg_resources m)) = 4%nat;
  mi_rtmp : engine_get (rs_workers (mg_resources m)) ENGINE_RTMP_EVENT_LOOP = if rtmp_active (mg_records m) then 1 else 0 }.

Lemma manager_init_inv : manager_inv manager_init.
Proof. split; try done; constructor. Qed.

Lemma engine_put_length l e v : length (engine_put l e v) = length l.
Proof. apply length_insert. Qed.
Lemma engine_put_get l e v : 0 ≤ e → Z.of_nat (length l) = 4 → e < 4 → engine_get (engine_put l e v) e = v.
Proof. intros He Hl He'. unfold engine_get, engine_put. rewrite list_lookup_insert_eq by lia. done. Qed.
Lemma engine_put_other l e f v : 0 ≤ e → 0 ≤ f → e ≠ f → engine_get (engine_put l e v) f = engine_get l f.
Proof. intros He Hf Hne. unfold engine_get, engine_put. rewrite list_lookup_insert_ne by lia. done. Qed.

Lemma admitted_cons r l : admitted (r :: l) = <[record_id r := er_stats r]> (admitted l).
Proof. done. Qed.
Lemma admitted_fresh l id : id ∉ record_id <$> l → admitted l !! id = None.
Proof. intros H. apply not_elem_of_list_to_map_1. by rewrite <- list_fmap_compose. Qed.
Lemma unlink_spec l id :
  NoDup (record_id <$> l) →
  match unlink l id with
  | None => admitted l !! id = None
  | Some (r, l') => r ∈ l ∧ record_id r = id ∧ l ≡ₚ r :: l' ∧ admitted l !! id = Some (er_stats r) ∧ admitted l' = delete id (admitted l)
  end.
Proof.
  induction l as [|r l IH]; intros Hnd; cbn [unlink]; [done|]. cbn in Hnd. apply NoDup_cons in Hnd as [Hnin Hnd].
  rewrite admitted_cons. change (es_id (er_stats r)) with (record_id r). pose proof (admitted_fresh _ _ Hnin) as Hnone.
  destruct (Z.eqb_spec (record_id r) id) as [<-|Hne].
  - rewrite lookup_insert_eq, delete_insert_id by done. split_and!; try done. by left.
  - specialize (IH Hnd). destruct (unlink l id) as [[x l']|]; cbn [mbind option_bind].
    + destruct IH as (Hx & Hid & Hp & Hl & Hd). split_and!.
      * by right.
      * done.
      * rewrite Hp. apply Permutation_swap.
      * by rewrite lookup_insert_ne.
      * by rewrite admitted_cons, delete_insert_ne, <- Hd by done.
    + by rewrite lookup_insert_ne.
Qed.
(** What a report means: the counters saturate, the gauges are replaced. *)
Definition spec_add (a b : Z) : Z := Z.min SIZE_MAX (a + b).
Definition spec_report (p : report) (s : egress_stats) : egress_stats :=
  mk_egress_stats (es_id s) (es_identity s) (rp_placement p) (es_active s) (spec_add (es_delivered s) (rp_delivered p))
    (spec_add (es_dropped s) (rp_dropped p)) (spec_add (es_errors s) (rp_errors p)) (spec_add (es_backpressure s) (rp_backpressure p))
    (spec_add (es_reconnects s) (rp_reconnects p)) (spec_add (es_misses s) (rp_misses p)) (rp_queue_bytes p) (rp_queue_lag p).
Lemma counter_add_min a b : counter_add a b = spec_add a b.
Proof. unfold counter_add, spec_add. caseb; lia. Qed.
Lemma stats_report_spec p s : stats_report p s = spec_report p s.
Proof. unfold stats_report, spec_report. cbn. by rewrite !counter_add_min. Qed.

Lemma report_loop_admitted l id p :
  NoDup (record_id <$> l) → admitted (report_loop l id p) = alter (spec_report p) id (admitted l).
Proof.
  induction l as [|r l IH]; intros Hnd; cbn [report_loop]; [symmetry; apply alter_id; by intros|].
  cbn in Hnd. apply NoDup_cons in Hnd as [Hnin Hnd]. change (es_id (er_stats r)) with (record_id r).
  destruct (Z.eqb_spec (record_id r) id) as [<-|Hne]; rewrite !admitted_cons.
  - apply map_eq. intros i. destruct (decide (i = record_id r)) as [->|Hi].
    + rewrite lookup_alter_eq, !lookup_insert_eq. cbn. by rewrite stats_report_spec.
    + by rewrite lookup_alter_ne, !lookup_insert_ne by done.
  - rewrite IH by done. by rewrite alter_insert_ne.
Qed.
Lemma admitted_size l : NoDup (record_id <$> l) → size (admitted l) = length l.
Proof.
  induction l as [|r l IH]; intros Hnd; [done|]. cbn in Hnd. apply NoDup_cons in Hnd as [Hnin Hnd].
  rewrite admitted_cons, map_size_insert_None by (by apply admitted_fresh). cbn. by rewrite IH.
Qed.
Lemma existsb_perm {A} (f : A → bool) l k : l ≡ₚ k → existsb f l = existsb f k.
Proof. induction 1; cbn; [done|congruence| |congruence]. by rewrite !orb_assoc, (orb_comm (f y)). Qed.

(** The pass of a recommendation changes nothing a report or a caller sees. *)
Lemma sample_loop_stats e l p : er_stats <$> (sample_loop e l p).1 = er_stats <$> l.
Proof.
  revert p. induction l as [|r l IH]; intros p; cbn [sample_loop]; [done|]. case_match.
  - specialize (IH p). destruct (sample_loop e l p). cbn in *. by rewrite IH.
  - specialize (IH (pass_step e r p)). destruct (sample_loop e l _). cbn in *. by rewrite IH.
Qed.
(** What the invariant reads of a record. *)
Definition signature (r : egress_record) : Z * bool * bool := (record_id r, es_active (er_stats r), is_rtmp (es_identity (er_stats r))).
Lemma signature_inv m l : manager_inv m → signature <$> l = signature <$> mg_records m → manager_inv (m <| mg_records := l |>).
Proof.
  intros Hi E. assert (∀ k : list egress_record, record_id <$> k = (λ x, x.1.1) <$> (signature <$> k)) as Hr by (intros k; by rewrite <- list_fmap_compose).
  assert (∀ k, rtmp_active k = existsb (λ x, x.1.2 && x.2) (signature <$> k)) as Hx.
  { intros k. induction k as [|r k IH]; [done|]. cbn. by rewrite <- IH. }
  assert (length l = length (mg_records m)) as El by (rewrite <- (length_fmap signature l), E; apply length_fmap).
  destruct Hi. split; cbn; rewrite ?El; try done.
  - by rewrite Hr, E, <- Hr.
  - apply (proj1 (Forall_fmap signature (λ x, 0 < x.1.1 ≤ mg_next_id m) l)). rewrite E. by apply (proj2 (Forall_fmap signature _ _)).
  - apply (proj1 (Forall_fmap signature (λ x, x.1.2 = true) l)). rewrite E. by apply (proj2 (Forall_fmap signature _ _)).
  - by rewrite Hx, E, <- Hx.
Qed.
Lemma admitted_stats (l k : list egress_record) : er_stats <$> l = er_stats <$> k → admitted l = admitted k.
Proof.
  intros E. assert (∀ k, admitted k = list_to_map ((λ s, (es_id s, s)) <$> (er_stats <$> k))) as Ha.
  { intros x. unfold admitted. by rewrite <- list_fmap_compose. }
  by rewrite !Ha, E.
Qed.
Lemma report_loop_signature l id p : signature <$> report_loop l id p = signature <$> l.
Proof. induction l as [|r l IH]; cbn [report_loop]; [done|]. destruct (Z.eqb_spec (es_id (er_stats r)) id); cbn; [done|]. by rewrite IH. Qed.
Lemma stats_signature (l k : list egress_record) : er_stats <$> l = er_stats <$> k → signature <$> l = signature <$> k.
Proof.
  intros E. assert (∀ k : list egress_record, signature <$> k = (λ s, (es_id s, es_active s, is_rtmp (es_identity s))) <$> (er_stats <$> k)) as Ha.
  { intros x. by rewrite <- list_fmap_compose. }
  by rewrite !Ha, E.
Qed.
Lemma zero_free m : manager_inv m → admitted (mg_records m) !! 0 = None.
Proof.
  intros []. apply admitted_fresh. intros (r & Hr & Hin)%list_elem_of_fmap. rewrite Forall_forall in mi_ids0. apply mi_ids0 in Hin. lia.
Qed.

Lemma manager_link_spec m i placement id m' :
  manager_inv m → mg_next_id m + 1 < 2 ^ 64 → manager_link m i placement = (id, m') →
  id ≠ 0 ∧ admitted (mg_records m) !! id = None ∧
  admitted (mg_records m') = <[id := stats_init id i placement]> (admitted (mg_records m)) ∧
  mg_next_id m' = mg_next_id m + 1 ∧ manager_inv m'.
Proof.
  intros [] Hn. unfold manager_link. unfold is_u64 in *. rewrite u64_small by lia.
  destruct (Z.eqb_spec (mg_next_id m + 1) 0); [lia|]. intros E.
  assert (mg_next_id m + 1 ∉ record_id <$> mg_records m) as Hfresh.
  { intros (r & Hr & Hin)%list_elem_of_fmap. rewrite Forall_forall in mi_ids0. apply mi_ids0 in Hin. lia. }
  set (r := mk_egress_record (stats_init (mg_next_id m + 1) i placement) 0 0 0 0 false) in E.
  assert (id = mg_next_id m + 1 ∧ mg_records m' = r :: mg_records m ∧ mg_next_id m' = mg_next_id m + 1 ∧
    mg_count m' = mg_count m ⊕ 1 ∧ mg_engines m' = mg_engines m ∧ rs_workers (mg_resources m') =
      (if is_rtmp i then engine_put (rs_workers (mg_resources m)) ENGINE_RTMP_EVENT_LOOP 1 else rs_workers (mg_resources m)))
    as (-> & El & En & Ec & Eg & Ew).
  { unfold is_rtmp. destruct (ei_engine i =? ENGINE_RTMP_EVENT_LOOP); injection E as <- <-; by split_and!. }
  split_and!; [done|by apply admitted_fresh|by rewrite El, admitted_cons|done|]. split; rewrite ?El, ?En, ?Ec, ?Eg, ?Ew; cbn [length fmap list_fmap].
  - by constructor.
  - constructor; [unfold record_id, r; cbn; lia|]. eapply Forall_impl; [exact mi_ids0|]. intros x Hx. cbn beta in *. lia.
  - unfold is_u64. lia.
  - lia.
  - rewrite u64_small; lia.
  - by constructor.
  - done.
  - case_match; [by rewrite engine_put_length|done].
  - unfold rtmp_active. cbn [existsb r er_stats stats_init es_active es_identity]. fold (is_rtmp i). destruct (is_rtmp i); cbn [andb orb].
    + apply engine_put_get; unfold ENGINE_RTMP_EVENT_LOOP; lia.
    + done.
Qed.

Lemma manager_release_spec m id :
  manager_inv m → manager_inv (manager_release id m) ∧ admitted (mg_records (manager_release id m)) = delete id (admitted (mg_records m)) ∧
  mg_next_id (manager_release id m) = mg_next_id m.
Proof.
  intros Hi. pose proof Hi as []. unfold manager_release. destruct (Z.eqb_spec id 0) as [->|].
  { split_and!; try done. rewrite delete_id; [done|]. apply admitted_fresh. intros (r & Hr & Hin)%list_elem_of_fmap.
    rewrite Forall_forall in mi_ids0. apply mi_ids0 in Hin. lia. }
  pose proof (unlink_spec (mg_records m) id mi_nodup0) as Hu. destruct (unlink (mg_records m) id) as [[r l]|]; cycle 1.
  { by rewrite delete_id. }
  destruct Hu as (Hr & _ & Hp & _ & Hd).
  assert (length (mg_records m) = S (length l)) as El by (by rewrite Hp).
  assert (rtmp_active (mg_records m) = rtmp_active (r :: l)) as Ea by (by apply existsb_perm).
  set (m' := (m <| mg_records := l |>) <| mg_count := mg_count m ⊖ 1 |>).
  assert (∀ w, length w = 4%nat → engine_get w ENGINE_RTMP_EVENT_LOOP = (if rtmp_active l then 1 else 0) →
    manager_inv (m' <| mg_resources ::= λ rs, rs <| rs_workers := w |> |>)) as Hinv.
  { intros w Hw Hg. split; cbn; try done.
    - rewrite Hp in mi_nodup0. by apply NoDup_cons in mi_nodup0 as [].
    - rewrite Hp in mi_ids0. by apply Forall_cons in mi_ids0 as [].
    - lia.
    - rewrite u64_small; unfold is_u64 in *; lia.
    - rewrite Hp in mi_active0. by apply Forall_cons in mi_active0 as []. }
  rewrite Forall_forall in mi_active0. specialize (mi_active0 _ Hr).
  destruct (ei_engine (es_identity (er_stats r)) =? ENGINE_RTMP_EVENT_LOOP) eqn:Er.
  - split_and!; [|done..]. apply (Hinv (engine_put (rs_workers (mg_resources m)) ENGINE_RTMP_EVENT_LOOP (if rtmp_active l then 1 else 0))).
    + by rewrite engine_put_length.
    + apply engine_put_get; unfold ENGINE_RTMP_EVENT_LOOP; lia.
  - split_and!; [|done..]. assert (m' = m' <| mg_resources ::= λ rs, rs <| rs_workers := rs_workers (mg_resources m) |> |>) as ->.
    { unfold m'. destruct m as [? ? ? [] ? ? ? ? ? ?]. done. }
    apply Hinv; [done|]. rewrite mi_rtmp0, Ea. unfold rtmp_active at 1. cbn [existsb]. by rewrite mi_active0, Er.
Qed.

(** ** Operations and what they promise *)

Inductive egress_op :=
  | OAdmit (d : descriptor) | ORelease (id : Z) | OReport (id : Z) (p : option report)
  | ORecommend (clock engine current minimum maximum : Z) | OLoad (engine permille workers : Z)
  | OSample (h : host) (lag : Z) | OResources (cpu_milli permille lag : Z) | OFixed (engine workers : Z)
  | OScheduler (s : option scheduler_stats).
(** The RTMP engine's load is what admission and release write; nothing else reports it. *)
Definition eop_ok (o : egress_op) : Prop :=
  match o with
  | OLoad engine _ _ => pooled engine = true
  | ORecommend clock engine _ minimum _ => is_u64 clock ∧ 0 ≤ engine ∧ 0 ≤ minimum
  | _ => True
  end.

Definition egress_step (o : egress_op) (m : manager) : M (Z * manager) :=
  match o with
  | OAdmit d => '(_, id, m) ← manager_admit d m; mret (id, m)
  | ORelease id => mret (0, manager_release id m)
  | OReport id p => mret (0, manager_report id p m)
  | ORecommend clock engine current minimum maximum => mret (recommend_workers clock engine current minimum maximum m)
  | OLoad engine permille workers => mret (0, engine_load engine permille workers m)
  | OSample h lag => mret (0, worker_sample h lag m)
  | OResources cpu_milli permille lag => mret (0, worker_resources cpu_milli permille lag m)
  | OFixed engine workers => mret (0, fixed_workers_set engine workers m)
  | OScheduler s => mret (0, scheduler_report s m)
  end.
Fixpoint egress_run (os : list egress_op) (m : manager) : M (list Z * manager) :=
  match os with
  | [] => mret ([], m)
  | o :: os => '(a, m) ← egress_step o m; '(l, m) ← egress_run os m; mret (a :: l, m)
  end.

(** The specification: a map from tokens to statistics, and the token an admission gives, 0
    when it is refused. *)
Definition spec_step (o : egress_op) (answer : Z) (s : gmap Z egress_stats) : gmap Z egress_stats :=
  match o with
  | OAdmit d =>
      if answer =? 0 then s
      else <[answer := stats_init answer (admit_identity d (default [] (ds_application d)) (default [] (ds_stream d)) (default [] (ds_destination d)))
                         (ds_placement d)]> s
  | ORelease id => delete id s
  | OReport id (Some p) => alter (spec_report p) id s
  | _ => s
  end.
(** [None] when an admission gave a token that is in use. *)
Fixpoint spec_run (os : list egress_op) (answers : list Z) (s : gmap Z egress_stats) : option (gmap Z egress_stats) :=
  match os, answers with
  | [], [] => Some s
  | o :: os, a :: answers =>
      if match o with OAdmit _ => bool_decide (is_Some (s !! a)) | _ => false end then None else spec_run os answers (spec_step o a s)
  | _, _ => None
  end.

(** What does not touch the list. *)
Definition same_list (m m' : manager) : Prop :=
  mg_records m' = mg_records m ∧ mg_next_id m' = mg_next_id m ∧ mg_count m' = mg_count m ∧ mg_engines m' = mg_engines m ∧
  length (rs_workers (mg_resources m')) = length (rs_workers (mg_resources m)) ∧
  engine_get (rs_workers (mg_resources m')) ENGINE_RTMP_EVENT_LOOP = engine_get (rs_workers (mg_resources m)) ENGINE_RTMP_EVENT_LOOP.
Lemma same_list_inv m m' : manager_inv m → same_list m m' → manager_inv m'.
Proof. intros [] (E1 & E2 & E3 & E4 & E5 & E6). split; rewrite ?E1, ?E2, ?E3, ?E4, ?E5, ?E6; done. Qed.
Lemma engines_inv m l : manager_inv m → length l = 4%nat → manager_inv (m <| mg_engines := l |>).
Proof. intros [] Hl. by split. Qed.
Lemma capacity_same h m : same_list m (cpu_capacity_milli h m).2.
Proof. unfold cpu_capacity_milli. by repeat case_match. Qed.
Lemma worker_sample_same h lag m : same_list m (worker_sample h lag m).
Proof.
  pose proof (capacity_same h m) as Hs. unfold worker_sample. destruct (cpu_capacity_milli h m) as [capacity m1].
  destruct Hs as (E1 & E2 & E3 & E4 & E5 & E6). cbn in *. by repeat case_match.
Qed.
Lemma pooled_bounds engine : pooled engine = true → 0 ≤ engine < 4 ∧ engine ≠ ENGINE_RTMP_EVENT_LOOP.
Proof. unfold pooled. intros [H|H]%orb_true_iff; apply Z.eqb_eq in H as ->; split; unfold ENGINE_RTMP_EVENT_LOOP, ENGINE_SRT_SHARD, ENGINE_HLS_UPLOAD_POOL; lia. Qed.
Lemma engine_load_same engine permille workers m : pooled engine = true → same_list m (engine_load engine permille workers m).
Proof.
  intros [Hb Hne]%pooled_bounds. unfold engine_load. case_match; [done|]. split_and!; try done.
  - apply engine_put_length.
  - apply engine_put_other; unfold ENGINE_RTMP_EVENT_LOOP in *; lia.
Qed.
Lemma recommend_spec clock engine current minimum maximum m :
  manager_inv m → manager_inv (recommend_workers clock engine current minimum maximum m).2 ∧
  admitted (mg_records (recommend_workers clock engine current minimum maximum m).2) = admitted (mg_records m) ∧
  mg_next_id (recommend_workers clock engine current minimum maximum m).2 = mg_next_id m.
Proof.
  intros Hi. unfold recommend_workers. case_match; [done|]. case_match; [done|].
  pose proof (sample_loop_stats engine (mg_records m) (mk_pass 0 0 0)) as E. destruct (sample_loop _ _ _) as [l p]. cbn in E.
  pose proof (signature_inv m l Hi (stats_signature _ _ E)) as Hi'. case_match. split; [apply (engines_inv _ _ Hi'); rewrite length_insert; apply Hi|].
  split; [by apply admitted_stats|done].
Qed.

Lemma wp_manager_admit d m L s :
  owns s L →
  wp (manager_admit d m) (λ r s', owns s' L ∧ evolves s s' ∧
    ((r = (NGX_ERROR, 0, m)) ∨
     (∃ application stream destination, ds_application d = Some application ∧ ds_stream d = Some stream ∧ ds_destination d = Some destination ∧
        r.1.1 = NGX_OK ∧ (r.1.2, r.2) = manager_link m (admit_identity d application stream destination) (ds_placement d)))) s.
Proof.
  intros Ho. unfold manager_admit.
  destruct (ds_application d) as [app|]; [|by apply wp_ret; split_and!; auto with media].
  destruct (ds_stream d) as [st|]; [|by apply wp_ret; split_and!; auto with media].
  destruct (ds_destination d) as [dst|]; [|by apply wp_ret; split_and!; auto with media].
  do 3 (caseb_bool; [by apply wp_ret; split_and!; auto with media|]).
  apply wp_bind. eapply wp_mono; [by apply wp_ngx_alloc|]. intros [a|] s' (Ho' & Hev & _); cycle 1.
  { apply wp_ret. split_and!; auto with media. }
  destruct (manager_link m _ _) as [id m'] eqn:E. apply wp_ret. split_and!; [done|done|]. right. exists app, st, dst. by rewrite E.
Qed.

Lemma egress_step_spec o m L s :
  manager_inv m → eop_ok o → mg_next_id m + 1 < 2 ^ 64 → owns s L →
  wp (egress_step o m) (λ r s', owns s' L ∧ manager_inv r.2 ∧
    admitted (mg_records r.2) = spec_step o r.1 (admitted (mg_records m)) ∧ mg_next_id m ≤ mg_next_id r.2 ≤ mg_next_id m + 1 ∧
    match o with OAdmit _ => admitted (mg_records m) !! r.1 = None | _ => True end) s.
Proof.
  intros Hi Hok Hn Ho. destruct o; cbn [egress_step spec_step].
  - apply wp_bind. eapply wp_mono; [by apply wp_manager_admit|]. intros [[rc id] m'] s' (Ho' & _ & H). apply wp_ret. cbn in *. split; [done|].
    destruct H as [[= -> -> ->]|(app & st & dst & -> & -> & -> & -> & H)]; cbn [default].
    + split_and!; try done; [lia..|by apply zero_free].
    + destruct (manager_link_spec m _ _ id m' Hi Hn (eq_sym H)) as (Hid & Hf & Ha & Hn' & Hi'). rewrite (proj2 (Z.eqb_neq _ _)) by done.
      split_and!; try done; lia.
  - apply wp_ret. destruct (manager_release_spec m id Hi) as (Hi' & Ha & En). split_and!; try done; cbn; lia.
  - apply wp_ret. cbn. destruct p as [p|]; cbn; [|split_and!; try done; lia].
    assert (id = 0 ∨ id ≠ 0) as [->|Hid] by lia; cbn.
    + split_and!; try done; [|lia..]. symmetry. by apply alter_id', zero_free.
    + rewrite (proj2 (Z.eqb_neq _ _)) by done. cbn. split_and!; try done; [|apply report_loop_admitted, Hi|lia..].
      by apply signature_inv, report_loop_signature.
  - apply wp_ret. destruct (recommend_spec clock engine current minimum maximum m Hi) as (Hi' & Ha & En). split_and!; try done; lia.
  - apply wp_ret. pose proof (engine_load_same engine permille workers m Hok) as Hs. pose proof Hs as (E1 & E2 & _).
    cbn. rewrite E1, E2. split_and!; try done; try lia; by eapply same_list_inv.
  - apply wp_ret. pose proof (worker_sample_same h lag m) as Hs. pose proof Hs as (E1 & E2 & _).
    cbn. rewrite E1, E2. split_and!; try done; try lia; by eapply same_list_inv.
  - apply wp_ret. cbn. split_and!; try done; try lia; by eapply same_list_inv.
  - apply wp_ret. cbn. unfold fixed_workers_set. case_match; cbn; (split_and!; try done; try lia; by eapply same_list_inv).
  - apply wp_ret. cbn. destruct s0; cbn; (split_and!; try done; try lia; by eapply same_list_inv).
Qed.

Lemma egress_run_spec os m L s :
  manager_inv m → Forall eop_ok os → mg_next_id m + Z.of_nat (length os) < 2 ^ 64 → owns s L →
  wp (egress_run os m) (λ r s', owns s' L ∧ manager_inv r.2 ∧
    spec_run os r.1 (admitted (mg_records m)) = Some (admitted (mg_records r.2))) s.
Proof.
  revert m s. induction os as [|o os IH]; intros m s Hi Hok Hn Ho; cbn [egress_run].
  { by apply wp_ret. }
  apply Forall_cons in Hok as [Hok1 Hok]. cbn [length] in Hn.
  apply wp_bind. eapply wp_mono; [apply (egress_step_spec o m L s); try done; lia|].
  intros [a m1] s1 (Ho1 & Hi1 & Ha & Hn1 & Hf). cbn [fst snd] in *.
  apply wp_bind. eapply wp_mono; [apply (IH m1 s1); try done; lia|].
  intros [l m2] s2 (Ho2 & Hi2 & Hs). cbn [fst snd] in *. apply wp_ret. cbn [fst snd]. split_and!; [done..|].
  cbn [spec_run]. rewrite <- Ha, Hs.
  assert (match o with OAdmit _ => bool_decide (is_Some (admitted (mg_records m) !! a)) | _ => false end = false) as ->; [|done].
  destruct o; try done. rewrite Hf. apply bool_decide_eq_false_2. by intros [? [=]].
Qed.

(** C34: Over every sequence of admissions, releases, reports, load samples and
    recommendations - with an allocator that may refuse, and fewer of them than there are
    64-bit tokens - the manager's list behaves as a map from tokens to statistics: every
    admission that succeeds gives a token that is nonzero and in use nowhere, a release removes
    exactly its destination, a report adds to the saturating counters of exactly its destination,
    nothing else changes what the visitors see, the count is the size of the map, and the RTMP
    engine counts as running exactly while an RTMP destination is admitted. *)
Theorem egress_refines os L s :
  Forall eop_ok os → Z.of_nat (length os) < 2 ^ 64 → owns s L →
  wp (egress_run os manager_init) (λ r s', owns s' L ∧
    ∃ spec, spec_run os r.1 ∅ = Some spec ∧ admitted (mg_records r.2) = spec ∧ manager_count r.2 = Z.of_nat (size spec) ∧
      (∀ id st, spec !! id = Some st → id ≠ 0 ∧ es_id st = id) ∧
      engine_get (rs_workers (resources_get r.2)) ENGINE_RTMP_EVENT_LOOP =
        (if bool_decide (∃ id st, spec !! id = Some st ∧ ei_engine (es_identity st) = ENGINE_RTMP_EVENT_LOOP) then 1 else 0)) s.
Proof.
  intros Hok Hn Ho. eapply wp_mono; [apply (egress_run_spec os manager_init L s manager_init_inv); done|].
  intros [answers m] s' (Ho' & Hi & Hs). cbn [fst snd] in *. split; [done|]. exists (admitted (mg_records m)). pose proof Hi as [].
  assert (∀ id st, admitted (mg_records m) !! id = Some st → ∃ r, r ∈ mg_records m ∧ id = record_id r ∧ st = er_stats r) as Hin.
  { intros id st H. apply elem_of_list_to_map_2 in H. apply list_elem_of_fmap in H as (r & [= -> ->] & Hr). by exists r. }
  split_and!; [done|done|by rewrite admitted_size| |].
  - intros id st (r & Hr & -> & ->)%Hin. rewrite Forall_forall in mi_ids0. apply mi_ids0 in Hr. split; [lia|done].
  - unfold resources_get. rewrite mi_rtmp0. case_bool_decide as Hb.
    + destruct Hb as (id & st & (r & Hr & -> & ->)%Hin & He).
      assert (rtmp_active (mg_records m) = true) as ->; [|done]. apply existsb_exists. exists r. split; [by apply list_elem_of_In|].
      rewrite Forall_forall in mi_active0. rewrite mi_active0 by done. cbn. by apply Z.eqb_eq.
    + destruct (rtmp_active (mg_records m)) eqn:E; [|done]. exfalso. apply Hb.
      apply existsb_exists in E as (r & Hr%list_elem_of_In & [_ He%Z.eqb_eq]%andb_true_iff).
      exists (record_id r), (er_stats r). split; [|done]. apply elem_of_list_to_map_1; [by rewrite <- list_fmap_compose|].
      apply list_elem_of_fmap. by exists r.
Qed.

(** ** Counting lanes *)

Lemma u64_bits x : is_u64 x ↔ 0 ≤ x ∧ ∀ i, 64 ≤ i → Z.testbit x i = false.
Proof.
  unfold is_u64. split.
  - intros Hx. split; [lia|]. intros i Hi. rewrite <- (Z.mod_small x (2 ^ 64)) by lia. apply Z.mod_pow2_bits_high. lia.
  - intros [H0 Hb]. split; [done|]. assert (x = x mod 2 ^ 64) as ->; [|by apply Z.mod_pos_bound].
    apply Z.bits_inj'. intros i Hi. destruct (Z.ltb_spec i 64); [by rewrite Z.mod_pow2_bits_low by lia|].
    rewrite Hb by done. by rewrite Z.mod_pow2_bits_high by lia.
Qed.
Lemma land_u64 a b : is_u64 a → 0 ≤ b → is_u64 (Z.land a b).
Proof.
  intros [Ha Hb]%u64_bits H. apply u64_bits. split; [apply Z.land_nonneg; lia|]. intros i Hi. by rewrite Z.land_spec, Hb.
Qed.
Lemma lor_u64 a b : is_u64 a → is_u64 b → is_u64 (Z.lor a b).
Proof.
  intros [Ha Ha']%u64_bits [Hb Hb']%u64_bits. apply u64_bits. split; [by apply Z.lor_nonneg|]. intros i Hi. by rewrite Z.lor_spec, Ha', Hb'.
Qed.

(** [mask & (mask - 1)] clears exactly one bit. *)
Lemma clear_lowest x : 0 < x → ∃ k, 0 ≤ k ∧ Z.testbit x k = true ∧ ∀ i, 0 ≤ i → Z.testbit (Z.land x (x - 1)) i = Z.testbit x i && negb (i =? k).
Proof.
  destruct x as [|p|p]; try done. intros _. induction p as [p IH|p (k & Hk & Ht & Hi)|].
  - exists 0. split_and!; [done|done|]. intros i Hi. change (Z.pos p~1) with (2 * Z.pos p + 1).
    replace (2 * Z.pos p + 1 - 1) with (2 * Z.pos p + 0) by lia. rewrite Z.land_spec. destruct (Z.eqb_spec i 0) as [->|].
    + by rewrite Z.add_0_r, Z.testbit_even_0, andb_false_r, andb_false_r.
    + replace i with (Z.succ (i - 1)) by lia. rewrite Z.add_0_r, Z.testbit_odd_succ, Z.testbit_even_succ by lia. by destruct (Z.testbit _ _).
  - exists (Z.succ k). split_and!; [lia|change (Z.pos p~0) with (2 * Z.pos p); by rewrite Z.testbit_even_succ|].
    intros i Hi0. change (Z.pos p~0) with (2 * Z.pos p). replace (2 * Z.pos p - 1) with (2 * (Z.pos p - 1) + 1) by lia.
    rewrite Z.land_spec. destruct (Z.eq_dec i 0) as [->|]; [by rewrite Z.testbit_even_0|].
    replace i with (Z.succ (i - 1)) by lia. rewrite Z.testbit_even_succ, Z.testbit_odd_succ, <- Z.land_spec, Hi by lia. f_equal. f_equal.
    destruct (Z.eqb_spec (i - 1) k), (Z.eqb_spec (Z.succ (i - 1)) (Z.succ k)); lia || done.
  - exists 0. split_and!; [done|done|]. intros i Hi. change (Z.land 1 (1 - 1)) with 0. rewrite Z.testbit_0_l.
    destruct (Z.eqb_spec i 0); [by rewrite andb_false_r|]. rewrite andb_true_r. symmetry. apply (Z.bits_above_log2 1); cbn; lia.
Qed.

Lemma count_bits_size fuel : ∀ mask (X : gset Z),
  is_u64 mask → (∀ i, i ∈ X ↔ 0 ≤ i ∧ Z.testbit mask i = true) → (size X ≤ fuel)%nat → count_bits fuel mask = Z.of_nat (size X).
Proof.
  induction fuel as [|fuel IH]; intros mask X Hm HX Hs; cbn [count_bits].
  { by replace (size X) with 0%nat by lia. }
  destruct (Z.eqb_spec mask 0) as [->|Hne].
  { assert (X ≡ ∅) as ->; [|by rewrite size_empty]. intros i. rewrite HX, Z.testbit_0_l. set_solver. }
  unfold is_u64 in Hm. destruct (clear_lowest mask) as (k & Hk & Ht & Hc); [lia|].
  rewrite u64_small by lia. assert (k ∈ X) as Hin by (by apply HX).
  rewrite (IH _ (X ∖ {[k]})).
  - rewrite size_difference by set_solver. rewrite size_singleton. pose proof (subseteq_size {[k]} X). rewrite size_singleton in *. set_solver by lia.
  - apply land_u64; [done|lia].
  - intros i. rewrite elem_of_difference, elem_of_singleton, HX. destruct (decide (0 ≤ i)); [|naive_solver].
    rewrite Hc by done. destruct (Z.eqb_spec i k); rewrite andb_true_iff; naive_solver.
  - rewrite size_difference, size_singleton by set_solver. lia.
Qed.

(** The lanes the SRT destinations are on. *)
Definition lane_of (r : egress_record) : option Z :=
  let s := er_stats r in
  if es_active s && (ei_engine (es_identity s) =? ENGINE_SRT_SHARD) && (es_placement s <? 64) then Some (es_placement s) else None.
Definition lanes_in_use (l : list egress_record) : gset Z := list_to_set (omap lane_of l).
Definition placed (l : list egress_record) : Prop := Forall (λ r, 0 ≤ es_placement (er_stats r)) l.

Lemma pass_lanes l : ∀ p,
  placed l → is_u64 (pa_lanes p) →
  is_u64 (pa_lanes (sample_loop ENGINE_SRT_SHARD l p).2) ∧
  ∀ i, 0 ≤ i → Z.testbit (pa_lanes (sample_loop ENGINE_SRT_SHARD l p).2) i = Z.testbit (pa_lanes p) i || bool_decide (i ∈ lanes_in_use l).
Proof.
  induction l as [|r l IH]; intros p Hp Hu.
  { cbn. split; [done|]. intros i Hi. by rewrite bool_decide_eq_false_2, orb_false_r by set_solver. }
  apply Forall_cons in Hp as [Hr Hp].
  set (p1 := if negb (es_active (er_stats r)) || negb (ei_engine (es_identity (er_stats r)) =? ENGINE_SRT_SHARD) then p else pass_step ENGINE_SRT_SHARD r p).
  assert (pa_lanes (sample_loop ENGINE_SRT_SHARD (r :: l) p).2 = pa_lanes (sample_loop ENGINE_SRT_SHARD l p1).2) as ->.
  { unfold p1. cbn [sample_loop]. case_match; by destruct (sample_loop _ l _). }
  assert (pa_lanes p1 = match lane_of r with Some k => Z.lor (pa_lanes p) (Z.shiftl 1 k) | None => pa_lanes p end) as E1.
  { unfold p1, lane_of, pass_step, lane_bit. destruct (es_active (er_stats r)); cbn [negb orb andb]; [|done].
    destruct (ei_engine (es_identity (er_stats r)) =? ENGINE_SRT_SHARD); cbn [negb andb]; [|done]. cbn [Z.eqb ENGINE_SRT_SHARD Pos.eqb andb].
    destruct (es_placement (er_stats r) <? 64); repeat case_match; cbn; try done; apply Z.lor_comm. }
  assert (∀ k, lane_of r = Some k → 0 ≤ k < 64) as Hk.
  { unfold lane_of. intros k. cbn zeta. destruct (_ && _ && _) eqn:E; [|done]. intros [= <-]. apply andb_true_iff in E as [_ ?%Z.ltb_lt]. lia. }
  assert (is_u64 (pa_lanes p1)) as Hu1.
  { rewrite E1. destruct (lane_of r) as [k|]; [|done]. specialize (Hk k eq_refl). apply lor_u64; [done|].
    rewrite Z.shiftl_1_l. unfold is_u64. split; [apply Z.pow_nonneg; lia|apply Z.pow_lt_mono_r; lia]. }
  destruct (IH p1 Hp Hu1) as [Hu2 Hb]. split; [done|]. intros i Hi. rewrite Hb, E1 by done.
  unfold lanes_in_use. cbn [omap list_omap]. destruct (lane_of r) as [k|]; [|done]. specialize (Hk k eq_refl).
  rewrite Z.lor_spec, Z.shiftl_1_l, Z.pow2_bits_eqb by lia. rewrite <- orb_assoc. f_equal.
  destruct (Z.eqb_spec k i) as [->|Hne]; cbn [orb]; symmetry.
  - apply bool_decide_eq_true_2. set_solver.
  - apply bool_decide_ext. set_solver.
Qed.

(** ** What is recommended *)

Lemma srt_target_clamp lanes cpu_milli minimum maximum :
  1 ≤ minimum ≤ maximum → 0 ≤ cpu_milli →
  srt_target lanes cpu_milli minimum maximum = Z.max minimum (Z.min maximum (Z.min lanes (Z.max 1 (cpu_milli / 1000)))).
Proof.
  intros Hm Hc. assert (0 ≤ cpu_milli / 1000) by (apply Z.div_pos; lia). unfold srt_target. cbn zeta. generalize dependent (cpu_milli / 1000). intros c Hc0.
  assert (∀ a b, (if a <? b then a else b) = Z.min a b) as Hmin by (intros; caseb; lia).
  assert (∀ a b, (if a <? b then b else a) = Z.max b a) as Hmax by (intros; caseb; lia).
  rewrite !Hmin, Hmax. destruct (Z.eqb_spec c 0); lia.
Qed.
Lemma rested_spec st now pause : rested st now pause = true ↔ eg_last_change st = 0 ∨ pause ≤ now ⊖ eg_last_change st.
Proof. unfold rested. by rewrite orb_true_iff, Z.eqb_eq, Z.leb_le. Qed.

Definition valid_call (m : manager) (engine minimum maximum : Z) : Prop :=
  1 ≤ engine ≤ ENGINE_MAX ∧ 1 ≤ minimum ≤ maximum ∧ rs_valid (mg_resources m) = true.
(** A valid recommendation is what its engine's rule makes of the pass over the records. *)
Lemma recommend_unfold clock engine current minimum maximum m :
  valid_call m engine minimum maximum → length (mg_engines m) = 4%nat →
  let p := (sample_loop engine (mg_records m) (mk_pass 0 0 0)).2 in
  let '(next, m') := recommend_workers clock engine current minimum maximum m in
  (next, engine_of m' engine) =
    (if engine =? ENGINE_SRT_SHARD
     then recommend_srt (mg_resources m) (pa_lanes p) (clock / 1000000) current minimum maximum (engine_of m engine)
     else recommend_pool (mg_resources m) engine (pa_units p) (clock / 1000000) current minimum maximum (engine_of m engine)) ∧
  (∀ e, 0 ≤ e → e ≠ engine → engine_of m' e = engine_of m e).
Proof.
  intros (He & Hm & Hv) Hl p. unfold recommend_workers. rewrite Hv. cbn [negb].
  rewrite !(proj2 (Z.eqb_neq _ _)), !(proj2 (Z.ltb_ge _ _)) by lia. cbn [orb].
  unfold p. destruct (sample_loop _ _ _) as [l q]. cbn [snd]. change (engine_of (m <| mg_records := l |>) engine) with (engine_of m engine).
  change (mg_resources (m <| mg_records := l |>)) with (mg_resources m).
  destruct (if engine =? ENGINE_SRT_SHARD then _ else _) as [next st]. unfold ENGINE_MAX in *. split.
  - unfold engine_of. cbn. by rewrite list_lookup_insert_eq by lia.
  - intros e He0 Hne. unfold engine_of. cbn. by rewrite list_lookup_insert_ne by lia.
Qed.

(** With a valid sample of the host, the SRT engine runs one sender per lane that an
    active SRT destination is placed on, up to the CPUs granted to the worker and inside the
    caller's bounds: the answer is that number when two seconds have passed since the engine's
    last change and the current number otherwise; pressure plays no part. *)
Theorem srt_follows_lanes clock current minimum maximum m :
  valid_call m ENGINE_SRT_SHARD minimum maximum → length (mg_engines m) = 4%nat → placed (mg_records m) → 0 ≤ rs_cpu_milli (mg_resources m) →
  let lanes := Z.of_nat (size (lanes_in_use (mg_records m))) in
  let target := Z.max minimum (Z.min maximum (Z.min lanes (Z.max 1 (rs_cpu_milli (mg_resources m) / 1000)))) in
  let last := eg_last_change (engine_of m ENGINE_SRT_SHARD) in
  let '(next, m') := recommend_workers clock ENGINE_SRT_SHARD current minimum maximum m in
  minimum ≤ target ≤ maximum ∧
  (next = target ∨ next = current ∧ last ≠ 0 ∧ (clock / 1000000) ⊖ last < 2000) ∧
  eg_last_change (engine_of m' ENGINE_SRT_SHARD) = (if bool_decide (next = current) then last else clock / 1000000).
Proof.
  intros Hv Hl Hp Hc lanes target last. pose proof (recommend_unfold clock _ current _ _ m Hv Hl) as H. cbn zeta in H.
  destruct (recommend_workers _ _ _ _ _ _) as [next m']. destruct H as [H _]. cbn [Z.eqb ENGINE_SRT_SHARD Pos.eqb] in H.
  destruct (pass_lanes (mg_records m) (mk_pass 0 0 0) Hp) as [Hu Hb]; [done|]. cbn [pa_lanes] in Hb.
  destruct Hv as (_ & Hm & _). unfold recommend_srt in H. rewrite srt_target_clamp in H by done.
  rewrite (count_bits_size 64 _ (lanes_in_use (mg_records m))) in H; [|done| |].
  - fold lanes target in H. split; [lia|]. destruct (Z.eqb_spec target current) as [E|Hne]; cbn [negb andb] in H.
    + injection H as -> H. rewrite H. split; [by left|]. by rewrite bool_decide_eq_true_2.
    + destruct (rested _ _ _) eqn:Er; injection H as -> H; rewrite H.
      * split; [by left|]. by rewrite bool_decide_eq_false_2.
      * split; [|by rewrite bool_decide_eq_true_2]. right. split; [done|].
        destruct (decide (last = 0 ∨ 2000 ≤ (clock / 1000000) ⊖ last)) as [Hd|Hd]; [|lia].
        by rewrite (proj2 (rested_spec _ _ _)) in Er by exact Hd.
  - intros i. destruct (decide (0 ≤ i)) as [Hi|Hi].
    + rewrite Hb, Z.testbit_0_l by done. cbn [orb]. rewrite bool_decide_eq_true. split; [by split|by intros [_ ?]].
    + split; [|by intros [? _]]. unfold lanes_in_use. intros (r & Hr & E)%elem_of_list_to_set%list_elem_of_omap. unfold lane_of in E.
      pose proof (proj1 (Forall_forall _ _) Hp r Hr) as Hr'. cbn zeta beta in E, Hr'. destruct (_ && _ && _); [|done]. injection E as <-. done.
  - assert (lanes_in_use (mg_records m) ⊆ list_to_set (seqZ 0 64)) as Hs.
    { intros i (r & Hr & E)%elem_of_list_to_set%list_elem_of_omap. unfold lane_of in E. cbn zeta in E.
      destruct (_ && _ && _) eqn:Eb; [|done]. injection E as <-. apply andb_true_iff in Eb as [_ Eb%Z.ltb_lt].
      pose proof (proj1 (Forall_forall _ _) Hp r Hr) as Hr'. cbn beta in Hr'. apply elem_of_list_to_set, elem_of_seqZ. lia. }
    apply subseteq_size in Hs. rewrite (size_list_to_set (seqZ 0 64)) in Hs by apply NoDup_seqZ. by rewrite length_seqZ in Hs.
Qed.

(** The destinations of an engine that show pressure since the last sample. *)
Definition pressured (engine : Z) (l : list egress_record) : list egress_record :=
  filter (λ r, es_active (er_stats r) && (ei_engine (es_identity (er_stats r)) =? engine) && under_pressure engine r = true) l.
Lemma pass_units engine l : ∀ p,
  engine ≠ ENGINE_SRT_SHARD → 0 ≤ pa_units p → pa_units p + Z.of_nat (length l) < 2 ^ 64 →
  pa_units (sample_loop engine l p).2 = pa_units p + Z.of_nat (length (pressured engine l)).
Proof.
  induction l as [|r l IH]; intros p He H0 Hl; cbn [sample_loop length] in *; [cbn; lia|].
  unfold pressured. rewrite filter_cons. fold (pressured engine l).
  destruct (es_active (er_stats r)); cbn [negb orb andb].
  2: { rewrite decide_False by done. pose proof (IH p He H0) as E. destruct (sample_loop engine l p). cbn [snd] in *. rewrite E; lia. }
  destruct (ei_engine (es_identity (er_stats r)) =? engine); cbn [negb orb andb].
  2: { rewrite decide_False by done. pose proof (IH p He H0) as E. destruct (sample_loop engine l p). cbn [snd] in *. rewrite E; lia. }
  assert (pass_step engine r p = if under_pressure engine r then p <| pa_units ::= λ n, n ⊕ 1 |> else p) as ->.
  { unfold pass_step, lane_bit. by rewrite (proj2 (Z.eqb_neq _ _)). }
  destruct (under_pressure engine r).
  - rewrite decide_True by done. set (p1 := p <| pa_units ::= λ n, n ⊕ 1 |>).
    assert (pa_units p1 = pa_units p + 1) as E1 by (apply u64_small; lia). pose proof (IH p1 He) as E.
    destruct (sample_loop engine l p1). cbn [snd length] in *. rewrite E, E1; lia.
  - rewrite decide_False by done. pose proof (IH p He H0) as E. destruct (sample_loop engine l p). cbn [snd] in *. rewrite E; lia.
Qed.

(** With a valid sample of the host, the upload pool (and any engine but SRT) moves by at
    most one worker and inside its bounds.  It grows only when more destinations are under
    pressure than workers run, for at least the second sample in a row, while the worker, its
    event loop and the granted CPUs - one kept for the loop, the other engines' real use
    deducted - have room, and two seconds after its last change.  It shrinks exactly when it
    and the other engines use more than those CPUs, or after eight quiet samples in a row with a
    busiest thread under a quarter of a CPU and five seconds after its last change. *)
Theorem pool_moves clock engine current minimum maximum m :
  valid_call m engine minimum maximum → engine ≠ ENGINE_SRT_SHARD → manager_inv m →
  minimum ≤ current ≤ maximum → maximum < 2 ^ 64 →
  let r := mg_resources m in
  let st := engine_of m engine in
  let units := Z.of_nat (length (pressured engine (mg_records m))) in
  let now := clock / 1000000 in
  let others := other_workers r engine in
  let over := cpu_limit r < current ⊕ others in
  let next := (recommend_workers clock engine current minimum maximum m).1 in
  minimum ≤ next ≤ maximum ∧ Z.abs (next - current) ≤ 1 ∧
  (next = current + 1 ↔
     ¬ over ∧ current < units ∧ 1 ≤ eg_pressure st ∧ rs_worker_permille r < 800 ∧ rs_lag r < 250 ∧ 2000 ≤ rs_cpu_milli r ∧
     current < maximum ∧ current ⊕ others < cpu_limit r ∧ (eg_last_change st = 0 ∨ 2000 ≤ now ⊖ eg_last_change st)) ∧
  (next = current - 1 ↔
     minimum < current ∧
     (over ∨ units = 0 ∧ 7 ≤ eg_quiet st ∧ engine_get (rs_permille r) engine < 250 ∧ (eg_last_change st = 0 ∨ 5000 ≤ now ⊖ eg_last_change st))).
Proof.
  intros Hv He Hi Hc Hmax r st units now others over next.
  pose proof (recommend_unfold clock engine current minimum maximum m Hv (mi_engines _ Hi)) as H. cbn zeta in H.
  subst next. destruct (recommend_workers _ _ _ _ _ _) as [next m']. destruct H as [H _]. cbn [fst].
  rewrite (proj2 (Z.eqb_neq _ _)) in H by done. rewrite pass_units in H; [|done|done|].
  2: { cbn. pose proof (mi_length _ Hi). pose proof (mi_next _ Hi). unfold is_u64 in *. lia. }
  cbn [pa_units] in H. rewrite Z.add_0_l in H. fold r st units now in H.
  destruct Hv as (_ & Hm & _). assert (current ≤ maximum) by lia. assert (0 ≤ units) by lia.
  unfold recommend_pool in H. fold others in H. subst over. clearbody r st units now others.
  apply (f_equal fst) in H. cbn [fst] in H.
  destruct (Z.ltb_spec (cpu_limit r) (current ⊕ others)) as [Hov|Hov].
  { destruct (Z.ltb_spec minimum current); cbn in H; subst next; lia. }
  destruct (Z.ltb_spec current units) as [Hun|Hun].
  - assert ((2 <=? (if eg_pressure st <? 10 then eg_pressure st + 1 else eg_pressure st)) = (1 <=? eg_pressure st)) as Ep.
    { destruct (Z.ltb_spec (eg_pressure st) 10), (Z.leb_spec 1 (eg_pressure st)); (apply Z.leb_le; lia) || (apply Z.leb_gt; lia). }
    cbn [eg_pressure setf eta_engine_state eg_quiet eg_last_change] in H. rewrite Ep in H. clear Ep.
    match type of H with _ = (if ?c then _ else _).1 => destruct c eqn:E end; cbn [fst] in H; subst next;
      [|apply not_true_iff_false in E]; rewrite !andb_true_iff, !Z.leb_le, !Z.ltb_lt, rested_spec in E; cbn [eg_last_change] in E.
    + rewrite u64_small by lia. lia.
    + lia.
  - destruct (Z.eqb_spec units 0) as [Hz|Hz]; cbn [negb] in H; [|cbn in H; subst next; lia].
    assert ((8 <=? (if eg_quiet st <? 100 then eg_quiet st + 1 else eg_quiet st)) = (7 <=? eg_quiet st)) as Eq.
    { destruct (Z.ltb_spec (eg_quiet st) 100), (Z.leb_spec 7 (eg_quiet st)); (apply Z.leb_le; lia) || (apply Z.leb_gt; lia). }
    cbn [eg_pressure setf eta_engine_state eg_quiet eg_last_change] in H. rewrite Eq in H. clear Eq.
    match type of H with _ = (if ?c then _ else _).1 => destruct c eqn:E end; cbn [fst] in H; subst next;
      [|apply not_true_iff_false in E]; rewrite !andb_true_iff, !Z.leb_le, !Z.ltb_lt, rested_spec in E; cbn [eg_last_change] in E; lia.
Qed.

(** ** Growth is paced *)

(** The times of the recommendations for an engine, and of those that asked for more workers. *)
Definition call_time (engine : Z) (o : egress_op) : option Z :=
  match o with
  | ORecommend clock e _ minimum maximum => if (e =? engine) && (1 <=? minimum) && (minimum <=? maximum) then Some (clock / 1000000) else None
  | _ => None
  end.
Definition growth_time (engine : Z) (x : egress_op * Z) : option Z :=
  match x.1 with
  | ORecommend _ _ current _ _ => if current <? x.2 then call_time engine x.1 else None
  | _ => None
  end.
Definition growths (engine : Z) (os : list egress_op) (answers : list Z) : list Z := omap (growth_time engine) (zip os answers).

Lemma recommend_srt_last r lanes now current minimum maximum st :
  let '(next, st') := recommend_srt r lanes now current minimum maximum st in
  (eg_last_change st' = eg_last_change st ∨ eg_last_change st' = now) ∧
  (next ≠ current → eg_last_change st' = now ∧ rested st now 2000 = true).
Proof.
  unfold recommend_srt. generalize (srt_target (count_bits 64 lanes) (rs_cpu_milli r) minimum maximum). intros target.
  destruct (Z.eqb_spec target current) as [|Hne]; cbn [negb andb]; [by split; [left|]|].
  unfold rested. cbn [eg_last_change setf eta_engine_state]. destruct (_ || _); cbn [eg_last_change]; (split; [auto|by intros]).
Qed.
Lemma recommend_pool_last r engine units now current minimum maximum st :
  let '(next, st') := recommend_pool r engine units now current minimum maximum st in
  (eg_last_change st' = eg_last_change st ∨ eg_last_change st' = now) ∧
  (current < next → eg_last_change st' = now ∧ rested st now 2000 = true).
Proof.
  unfold recommend_pool. generalize (other_workers r engine). intros others.
  destruct (_ <? current ⊕ others); [destruct (minimum <? current); (split; [auto|lia])|].
  destruct (current <? units).
  - cbn [eg_pressure eg_quiet eg_last_change setf eta_engine_state].
    match goal with |- context [if ?c && rested ?x now 2000 then _ else _] => destruct c; cbn [andb]; [destruct (rested x now 2000) eqn:E|] end.
    + split; [auto|]. intros _. split; [done|exact E].
    + split; [auto|lia].
    + split; [auto|lia].
  - destruct (negb (units =? 0)); [split; [auto|lia]|].
    match goal with |- context [if ?c then _ else _] => destruct c end; (split; [auto|lia]).
Qed.

Lemma recommend_last engine clock e current minimum maximum m :
  1 ≤ engine ≤ ENGINE_MAX → 0 ≤ e → 0 ≤ minimum → length (mg_engines m) = 4%nat →
  let '(next, m') := recommend_workers clock e current minimum maximum m in
  let last := eg_last_change (engine_of m engine) in
  (eg_last_change (engine_of m' engine) = last ∨
   call_time engine (ORecommend clock e current minimum maximum) = Some (eg_last_change (engine_of m' engine))) ∧
  (∀ now, growth_time engine (ORecommend clock e current minimum maximum, next) = Some now →
     eg_last_change (engine_of m' engine) = now ∧ (last = 0 ∨ 2000 ≤ now ⊖ last)).
Proof.
  intros He He0 Hm0 Hl. destruct (decide (valid_call m e minimum maximum)) as [Hv|Hv]; cycle 1.
  { assert (recommend_workers clock e current minimum maximum m = (current, m)) as ->.
    { unfold recommend_workers. destruct (_ || _ || _ || _) eqn:Eg; [done|]. destruct (rs_valid (mg_resources m)) eqn:Ev; [|done]. exfalso. apply Hv.
      rewrite !orb_false_iff, !Z.eqb_neq, !Z.ltb_ge in Eg. unfold valid_call, ENGINE_MAX in *. split_and!; try done; lia. }
    split; [by left|]. intros now. unfold growth_time. cbn [fst snd]. by rewrite Z.ltb_irrefl. }
  pose proof (recommend_unfold clock e current _ _ m Hv Hl) as H. cbn zeta in H.
  destruct (recommend_workers _ _ _ _ _ _) as [next m']. destruct H as [H Ho]. unfold growth_time, call_time. cbn [fst snd].
  destruct (Z.eqb_spec e engine) as [->|Hne]; cbn [andb]; cycle 1.
  { rewrite Ho by lia. split; [by left|]. intros now. by destruct (current <? next). }
  destruct Hv as (_ & Hm & _). rewrite !(proj2 (Z.leb_le _ _)) by lia. cbn [andb].
  assert ((eg_last_change (engine_of m' engine) = eg_last_change (engine_of m engine) ∨ eg_last_change (engine_of m' engine) = clock / 1000000) ∧
    (current < next → eg_last_change (engine_of m' engine) = clock / 1000000 ∧ rested (engine_of m engine) (clock / 1000000) 2000 = true)) as [H1 H2].
  { destruct (engine =? ENGINE_SRT_SHARD).
    - pose proof (recommend_srt_last (mg_resources m) (pa_lanes (sample_loop engine (mg_records m) (mk_pass 0 0 0)).2) (clock / 1000000) current
        minimum maximum (engine_of m engine)) as HH. rewrite <- H in HH. destruct HH as [HH1 HH2]. split; [done|]. intros Hlt. apply HH2. lia.
    - pose proof (recommend_pool_last (mg_resources m) engine (pa_units (sample_loop engine (mg_records m) (mk_pass 0 0 0)).2) (clock / 1000000) current
        minimum maximum (engine_of m engine)) as HH. rewrite <- H in HH. exact HH. }
  split; [destruct H1 as [->| ->]; auto|]. intros now. destruct (Z.ltb_spec current next); [|done]. intros [= <-].
  destruct H2 as [H2 H3]; [done|]. split; [done|]. by apply rested_spec.
Qed.

Lemma step_engines o m L s :
  owns s L → match o with OLoad engine _ _ => pooled engine = true | ORecommend _ _ _ _ _ => False | _ => True end →
  wp (egress_step o m) (λ r _, mg_engines r.2 = mg_engines m) s.
Proof.
  intros Ho Hok. destruct o; cbn [egress_step]; try (by apply wp_ret); try done.
  - apply wp_bind. eapply wp_mono; [by apply wp_manager_admit|]. intros [[rc id] m'] s' (_ & _ & H). apply wp_ret. cbn in *.
    destruct H as [[= -> -> ->]|(app & st & dst & _ & _ & _ & _ & H)]; [done|]. unfold manager_link in H.
    destruct (ei_engine _ =? ENGINE_RTMP_EVENT_LOOP); by injection H as -> ->.
  - apply wp_ret. cbn. unfold manager_release. repeat case_match; done.
  - apply wp_ret. cbn. unfold manager_report. repeat case_match; done.
  - apply wp_ret. apply (engine_load_same engine permille workers m Hok).
  - apply wp_ret. apply (worker_sample_same h lag m).
  - apply wp_ret. cbn. unfold fixed_workers_set. by case_match.
  - apply wp_ret. cbn. by destruct s0.
Qed.

Definition clocks (os : list egress_op) : list Z := omap (λ o, match o with ORecommend clock _ _ _ _ => Some clock | _ => None end) os.
Definition spaced (a b : Z) : Prop := a + 2000 ≤ b.

Lemma growths_spaced engine os L : ∀ m s,
  1 ≤ engine ≤ ENGINE_MAX → manager_inv m → Forall eop_ok os → mg_next_id m + Z.of_nat (length os) < 2 ^ 64 → owns s L →
  StronglySorted Z.le (clocks os) → 0 ≤ eg_last_change (engine_of m engine) →
  Forall (λ c, 1000000 ≤ c ∧ eg_last_change (engine_of m engine) ≤ c / 1000000) (clocks os) →
  wp (egress_run os m) (λ r _, StronglySorted spaced (growths engine os r.1) ∧
    Forall (λ g, eg_last_change (engine_of m engine) = 0 ∨ spaced (eg_last_change (engine_of m engine)) g) (growths engine os r.1)) s.
Proof.
  induction os as [|o os IH]; intros m s He Hi Hok Hn Ho Hs H0 Hc; cbn [egress_run].
  { apply wp_ret. by split; constructor. }
  apply Forall_cons in Hok as [Hok1 Hok]. cbn [length] in Hn.
  assert (match o with ORecommend _ _ _ _ _ => False | _ => True end ∨ ∃ clock e current minimum maximum, o = ORecommend clock e current minimum maximum)
    as [Hother|(clock & e & current & minimum & maximum & ->)] by (destruct o; eauto 10).
  - assert (clocks (o :: os) = clocks os) as Ec by (by destruct o). rewrite Ec in *.
    apply wp_bind. eapply wp_mono; [apply wp_and; [apply (egress_step_spec o m L s); try done; lia|by apply (step_engines o m L s); [|destruct o]]|].
    intros [a m1] s1 [(Ho1 & Hi1 & _ & Hn1 & _) Eg]. cbn [fst snd] in *.
    assert (engine_of m1 engine = engine_of m engine) as Ee by (unfold engine_of; by rewrite Eg).
    apply wp_bind. eapply wp_mono; [apply (IH m1 s1); rewrite ?Ee; try done; lia|]. rewrite Ee.
    intros [l m2] s2 H. apply wp_ret. cbn [fst snd] in *.
    assert (growths engine (o :: os) (a :: l) = growths engine os l) as ->; [|done]. by destruct o.
  - cbn [clocks omap list_omap] in Hs, Hc. apply StronglySorted_inv in Hs as [Hs Hle]. apply Forall_cons in Hc as [[Hc1 HJ] Hc].
    fold (clocks os) in *. destruct Hok1 as (Hu & He0 & Hm0). unfold is_u64 in Hu.
    apply wp_bind. cbn [egress_step]. apply wp_ret.
    pose proof (recommend_last engine clock e current minimum maximum m He He0 Hm0 (mi_engines _ Hi)) as Hr.
    destruct (recommend_spec clock e current minimum maximum m Hi) as (Hi1 & _ & En).
    destruct (recommend_workers clock e current minimum maximum m) as [next m1]. cbn [fst snd] in *. destruct Hr as [Hlast Hgrow].
    set (J := eg_last_change (engine_of m engine)) in *. set (J1 := eg_last_change (engine_of m1 engine)) in *.
    assert (∀ t, call_time engine (ORecommend clock e current minimum maximum) = Some t → t = clock / 1000000) as Ht.
    { intros t. cbn [call_time]. destruct (_ && _ && _); [by intros [= <-]|done]. }
    assert (1 ≤ clock / 1000000 < 2 ^ 64) as Hb by (split; [apply Z.div_le_lower_bound; lia|apply Z.div_lt_upper_bound; lia]).
    assert (J ≤ J1 ∧ J1 ≤ clock / 1000000) as [HJ1 HJ2] by (destruct Hlast as [->|H%Ht]; lia).
    apply wp_bind. eapply wp_mono; [apply (IH m1 s); try done; try lia|].
    { rewrite Forall_forall in *. intros c Hin. split; [by apply Hc|]. pose proof (Hle c Hin) as Hcc.
      apply (Z.div_le_mono _ _ 1000000) in Hcc; [|lia]. lia. }
    intros [l m2] s2 [Hss Hf]. fold J1 in Hf. apply wp_ret. cbn [fst snd] in *. unfold growths in *. cbn [zip zip_with omap list_omap].
    destruct (growth_time engine _) as [g|] eqn:Eg.
    + destruct (Hgrow g eq_refl) as [Eg1 Hsp]. assert (g = clock / 1000000) as Egt.
      { apply Ht. revert Eg. unfold growth_time. cbn [fst snd]. by destruct (_ <? _). }
      split.
      * constructor; [done|]. eapply Forall_impl; [exact Hf|]. intros x [Hx|Hx]; [lia|by rewrite <- Eg1].
      * constructor.
        -- destruct Hsp as [|Hsp]; [by left|]. right. unfold spaced. rewrite u64_small in Hsp by lia. lia.
        -- eapply Forall_impl; [exact Hf|]. unfold spaced. intros x [Hx|Hx]; lia.
    + split; [done|]. eapply Forall_impl; [exact Hf|]. unfold spaced. intros x [Hx|Hx]; lia.
Qed.

(** C35: Over every sequence of the manager's operations in which the monotonic clock does
    not run backwards and is past its first millisecond - 0 marks an engine that has never
    been changed -, any two recommendations that ask for more workers of one engine are at
    least two seconds apart, whatever happened in between. *)
Theorem growth_paced engine os L s :
  1 ≤ engine ≤ ENGINE_MAX → Forall eop_ok os → Z.of_nat (length os) < 2 ^ 64 → owns s L →
  StronglySorted Z.le (clocks os) → Forall (λ c, 1000000 ≤ c) (clocks os) →
  wp (egress_run os manager_init) (λ r _, StronglySorted spaced (growths engine os r.1)) s.
Proof.
  intros He Hok Hn Ho Hs Hc. assert (engine_of manager_init engine = mk_engine_state 0 0 0) as E.
  { unfold ENGINE_MAX in *. assert (engine = 1 ∨ engine = 2 ∨ engine = 3) as [->|[->| ->]] by lia; done. }
  eapply wp_mono; [apply (growths_spaced engine os L manager_init s); rewrite ?E; try done|by intros r ? [? _]].
  - apply manager_init_inv.
  - eapply Forall_impl; [exact Hc|]. intros c Hc'. cbn in *. split; [done|]. apply Z.div_pos; lia.
Qed.

(** ** The CPU quota *)

Lemma digits_loop_app l b r : Forall (λ b, is_digit b = true) l → is_digit b = false → ∀ v w r',
  strto_digits (l ++ r') v = Some w → r' ≠ [] → head r' = Some b → digits_loop (l ++ b :: r) v = (w, b :: r).
Proof.
  induction l as [|x l IH]; intros Hl Hb v w r' E Hne Hh; cbn [app strto_digits digits_loop] in *.
  - rewrite Hb. destruct r' as [|b' r']; [done|]. injection Hh as ->. cbn in E. rewrite Hb in E. by injection E as ->.
  - apply Forall_cons in Hl as [Hx Hl]. rewrite Hx in E |- *. by eapply IH.
Qed.
(** A printed number is read to its end. *)
Lemma strtoull_end_dec n b r : is_u64 n → is_digit b = false → strtoull_end (dec n ++ b :: r) = Some (n, false, b :: r).
Proof.
  intros Hn Hb. destruct (dec_ok n Hn) as [Hd Hne].
  assert (digits_loop (dec n ++ b :: r) 0 = (n, b :: r)) as E.
  { apply (digits_loop_app (dec n) b r Hd Hb 0 n [b]); [|done|done].
    unfold dec. rewrite dec_loop_value; [cbn; by rewrite Hb|]. unfold is_u64 in Hn. change (10 ^ Z.of_nat 21) with 1000000000000000000000. lia. }
  unfold strtoull_end. destruct (dec n) as [|x l]; [done|]. apply Forall_cons in Hd as [Hx _]. cbn [app] in *.
  pose proof Hx as Hx'. unfold is_digit in Hx'. apply andb_true_iff in Hx' as [Hb1%Z.leb_le Hb2%Z.leb_le].
  assert (is_space x = false) as Hs.
  { unfold is_space. rewrite (proj2 (Z.eqb_neq _ _)), (proj2 (Z.leb_gt x 13)) by lia. apply andb_false_r. }
  cbn [skip_spaces]. rewrite Hs, (proj2 (Z.eqb_neq x 45)), (proj2 (Z.eqb_neq x 43)) by lia. cbn [fst snd]. rewrite Hx, E.
  unfold is_u64 in Hn. by rewrite (proj2 (Z.ltb_lt _ _)) by lia.
Qed.
Lemma skip_blanks_dec n r : is_u64 n → skip_blanks (dec n ++ r) = dec n ++ r.
Proof.
  intros Hn. destruct (dec_ok n Hn) as [Hd Hne]. destruct (dec n) as [|x l]; [done|]. apply Forall_cons in Hd as [Hx _].
  unfold is_digit in Hx. apply andb_true_iff in Hx as [Hb1%Z.leb_le Hb2%Z.leb_le]. cbn [app skip_blanks].
  by rewrite (proj2 (Z.eqb_neq x 32)), (proj2 (Z.eqb_neq x 9)) by lia.
Qed.

Lemma digits_loop_nonneg d : ∀ v, 0 ≤ v → 0 ≤ (digits_loop d v).1.
Proof.
  induction d as [|b d IH]; intros v Hv; cbn [digits_loop]; [done|]. destruct (is_digit b) eqn:E; [|done].
  unfold is_digit in E. apply andb_true_iff in E as [E%Z.leb_le _]. apply IH. lia.
Qed.
Lemma strtoull_end_range d v o r : strtoull_end d = Some (v, o, r) → is_u64 v.
Proof.
  unfold strtoull_end. destruct (match skip_spaces d with [] => _ | _ => _ end) as [minus [|b d']]; [done|].
  destruct (is_digit b); [|done]. pose proof (digits_loop_nonneg (b :: d') 0 ltac:(done)) as Hn.
  destruct (digits_loop (b :: d') 0) as [n rest]. cbn [fst] in Hn. destruct (Z.ltb_spec n (2 ^ 64)); intros [= <- _ _]; [|done].
  destruct minus; [apply u64_range|done].
Qed.
Lemma quota_milli_range quota period : is_u64 quota → 0 < period → is_u64 (quota_milli quota period).
Proof.
  unfold quota_milli, is_u64. intros Hq Hp. change (SIZE_MAX / 1000) with 18446744073709551.
  assert (0 ≤ quota * 1000 / period ≤ quota * 1000).
  { split; [apply Z.div_pos; lia|]. apply Z.div_le_upper_bound; [done|]. nia. }
  destruct (Z.ltb_spec 18446744073709551 quota); [by cbn|]. destruct (Z.eqb_spec (quota * 1000 / period) 0); lia.
Qed.

Lemma quota_text_range d : is_u64 (quota_text d).
Proof.
  unfold quota_text. case_bool_decide; [done|]. destruct (strtoull_end _) as [[[q []] r]|] eqn:E1; [done| |done].
  destruct (strtoull_end (skip_blanks r)) as [[[p []] r']|] eqn:E2; [done| |done].
  destruct (_ || _) eqn:E; [done|]. apply orb_false_iff in E as [Ep%Z.eqb_neq Eq%Z.eqb_neq].
  apply quota_milli_range; [by eapply strtoull_end_range|]. apply strtoull_end_range in E2 as [? _]. lia.
Qed.
Lemma cpu_quota_range h path : is_u64 (cpu_quota h path).
Proof. unfold cpu_quota. destruct (read_file h path 127); [apply quota_text_range|done]. Qed.
Lemma process_quota_range h : is_u64 (cpu_quota_for_process h).
Proof.
  assert (∀ fuel d, is_u64 (cgroup_loop h fuel d)) as Hc.
  { induction fuel as [|fuel IH]; intros [|b d]; cbn [cgroup_loop]; try done. destruct (split_line (b :: d)) as [line rest].
    case_bool_decide; [destruct (_ <=? _); [apply cpu_quota_range|done]|]. destruct rest; [apply IH|done]. }
  unfold cpu_quota_for_process. cbn zeta. destruct (negb _); [|apply cpu_quota_range]. destruct (read_file _ _ _); [apply Hc|done].
Qed.

(** The text of a cpu.max file - a quota and a period in microseconds, written in decimal
    - is read as the whole thousandths of a CPU that it grants, at least one; "max" is no limit.  No
    text gives more than a word. *)
Theorem quota_reads quota period rest :
  is_u64 quota → is_u64 period → 0 < quota → 0 < period →
  quota_text (dec quota ++ 32 :: dec period ++ 10 :: rest) =
    (if SIZE_MAX / 1000 <? quota then SIZE_MAX else Z.max 1 (quota * 1000 / period)) ∧
  quota_text (str_max ++ rest) = 0 ∧ is_u64 (quota_text rest).
Proof.
  intros Hq Hp Hq0 Hp0. split_and!.
  - unfold quota_text. rewrite (skip_blanks_dec quota _ Hq), strtoull_end_dec by done.
    rewrite bool_decide_eq_false_2.
    2: { destruct (dec_ok quota Hq) as [Hd Hne]. destruct (dec quota) as [|x l]; [done|]. apply Forall_cons in Hd as [Hx _].
         cbn [app take]. intros H%(f_equal head). cbn [head str_max] in H. injection H as ->. done. }
    cbn [skip_blanks Z.eqb Pos.eqb orb]. rewrite (skip_blanks_dec period _ Hp), strtoull_end_dec by done.
    rewrite !(proj2 (Z.eqb_neq _ 0)) by lia. cbn [orb]. unfold quota_milli. unfold SIZE_MAX in *. unfold is_u64 in *.
    destruct (Z.ltb_spec ((2 ^ 64 - 1) / 1000) quota); [done|].
    assert (0 ≤ quota * 1000 / period) by (apply Z.div_pos; lia). destruct (Z.eqb_spec (quota * 1000 / period) 0); lia.
  - unfold quota_text. cbn [app str_max skip_blanks]. by rewrite bool_decide_eq_true_2.
  - apply quota_text_range.
Qed.

(** Whatever the host answers - clocks that stop or run backwards, an affinity mask that
    cannot be read, quota files that are missing or hold anything - the worker is granted at
    least a thousandth of a CPU, a sample never leaves a share above the whole capacity, and a
    sample counts as valid once two readings a second apart were possible. *)
Theorem sample_bounded h lag m :
  0 ≤ ho_affinity h → is_u64 (mg_capacity m) → 0 ≤ rs_worker_permille (mg_resources m) ≤ 1000 →
  let m' := worker_sample h lag m in
  1 ≤ granted_milli h ∧ 0 ≤ rs_worker_permille (mg_resources m') ≤ 1000 ∧ rs_lag (mg_resources m') = lag ∧
  1 ≤ rs_cpu_milli (mg_resources m') ∧
  (rs_valid (mg_resources m') = true ↔
     rs_valid (mg_resources m) = true ∨
     ho_monotonic h ≠ 0 ∧ ho_cputime h ≠ 0 ∧ mg_wall m ≠ 0 ∧ SECOND_NS ≤ ho_monotonic h ⊖ mg_wall m).
Proof.
  intros Ha Hc Hp m'.
  assert (1 ≤ granted_milli h) as Hg.
  { unfold granted_milli. set (count := if ho_affinity h =? 0 then _ else _).
    assert (1 ≤ count) by (unfold count; destruct (Z.eqb_spec (ho_affinity h) 0); [caseb|]; lia).
    set (affinity := if SIZE_MAX / 1000 <? count then _ else _).
    assert (1 ≤ affinity) by (unfold affinity; caseb; unfold SIZE_MAX; lia).
    destruct (Z.eqb_spec (cpu_quota_for_process h) 0); cbn [negb andb]; [done|]. destruct (Z.ltb_spec (cpu_quota_for_process h) affinity); [|done].
    pose proof (process_quota_range h) as [? _]. lia. }
  split; [done|]. subst m'.
  assert (1 ≤ (cpu_capacity_milli h m).1 ∧ mg_resources (cpu_capacity_milli h m).2 = mg_resources m ∧ mg_wall (cpu_capacity_milli h m).2 = mg_wall m) as (Hcap & Er & Ew).
  { unfold cpu_capacity_milli. destruct (capacity_fresh (ho_capacity_clock h) m) eqn:Ef; [|done]. cbn. split_and!; [|done|done].
    unfold capacity_fresh in Ef. apply andb_true_iff in Ef as [Ef _]. apply andb_true_iff in Ef as [Ef%negb_true_iff%Z.eqb_neq _]. unfold is_u64 in Hc. lia. }
  unfold worker_sample. destruct (cpu_capacity_milli h m) as [capacity m1]. cbn [fst snd] in *.
  assert (∀ a b, 0 ≤ a → 1 ≤ b → 0 ≤ Z.min (a / b) 1000 ≤ 1000) as Hshare.
  { intros a b H1 H2. assert (0 ≤ a / b) by (apply Z.div_pos; lia). lia. }
  rewrite (proj2 (Z.eqb_neq capacity 0)), orb_false_r by lia.
  destruct (Z.eqb_spec (ho_monotonic h) 0); [cbn; rewrite Er; split_and!; naive_solver lia|].
  destruct (Z.eqb_spec (ho_cputime h) 0); [cbn; rewrite Er; split_and!; naive_solver lia|]. cbn [orb].
  change (mg_wall (m1 <| mg_resources ::= _ |>)) with (mg_wall m1). rewrite Ew.
  destruct (Z.eqb_spec (mg_wall m) 0); [cbn; rewrite Er; split_and!; naive_solver lia|]. cbn [orb].
  destruct (Z.ltb_spec (ho_monotonic h ⊖ mg_wall m) SECOND_NS) as [Hlt|Hge].
  { cbn. rewrite Er. split_and!; try done; naive_solver lia. }
  cbn. split_and!; try done; [apply Hshare; [apply u64_range|done]..|]. naive_solver.
Qed.

(** ** A worker with two outputs *)

Definition ex_descriptor (protocol engine placement : Z) : descriptor :=
  mk_descriptor (Some [97]) (Some [98]) (Some [99]) 1 1 1 1 1 protocol engine placement 0 0 0.
Definition ex_report : report := mk_report 1000 1 0 5 0 0 4096 20 0.
Definition ex_eops : list egress_op :=
  [OAdmit (ex_descriptor DEST_RTMP ENGINE_RTMP_EVENT_LOOP 0); OAdmit (ex_descriptor DEST_SRT ENGINE_SRT_SHARD 3);
   OReport 1 (Some ex_report); ORelease 2; ORecommend 5000000000 ENGINE_SRT_SHARD 1 1 16].
Lemma ex_eops_ok : Forall eop_ok ex_eops.
Proof. by repeat constructor. Qed.
Lemma egress_refines_witness :
  wp (egress_run ex_eops manager_init) (λ r s', owns s' [0%N; 0%N] ∧
    ∃ spec, spec_run ex_eops r.1 ∅ = Some spec ∧ admitted (mg_records r.2) = spec ∧ manager_count r.2 = Z.of_nat (size spec) ∧
      (∀ id st, spec !! id = Some st → id ≠ 0 ∧ es_id st = id) ∧
      engine_get (rs_workers (resources_get r.2)) ENGINE_RTMP_EVENT_LOOP =
        (if bool_decide (∃ id st, spec !! id = Some st ∧ ei_engine (es_identity st) = ENGINE_RTMP_EVENT_LOOP) then 1 else 0)) ex_store.
Proof. apply (egress_refines ex_eops [0%N; 0%N] ex_store); [apply ex_eops_ok|done|apply ex_store_owns]. Defined.

Definition ex_identity (engine : Z) : identity := mk_identity 1 1 1 1 1 1 [97] [98] [99] 1 engine 0 0 0.
Definition ex_erecord (id engine placement lag : Z) : egress_record :=
  mk_egress_record (mk_egress_stats id (ex_identity engine) placement true 0 0 0 7 0 0 0 lag) 0 0 0 0 true.
(** Three senders on lanes 1 and 5, four CPUs. *)
Definition ex_lanes : manager :=
  mk_manager [ex_erecord 3 ENGINE_SRT_SHARD 1 0; ex_erecord 2 ENGINE_SRT_SHARD 5 0; ex_erecord 1 ENGINE_SRT_SHARD 1 0] 3 3
    (mk_resources 4000 100 10 true [0; 1; 0; 0] [0; 50; 0; 0] scheduler_zero) (replicate 4 (mk_engine_state 0 0 0)) [0; 0; 0; 0] 0 0 0 0.
Lemma srt_follows_lanes_witness :
  let '(next, m') := recommend_workers 9000000000 ENGINE_SRT_SHARD 1 1 16 ex_lanes in
  1 ≤ 2 ≤ 16 ∧ (next = 2 ∨ next = 1 ∧ 0 ≠ 0 ∧ (9000000000 / 1000000) ⊖ 0 < 2000) ∧
  eg_last_change (engine_of m' ENGINE_SRT_SHARD) = (if bool_decide (next = 1) then 0 else 9000000000 / 1000000).
Proof.
  apply (srt_follows_lanes 9000000000 1 1 16 ex_lanes).
  - by unfold valid_call, ENGINE_SRT_SHARD, ENGINE_MAX.
  - done.
  - by repeat constructor.
  - done.
Defined.

(** Two uploads under pressure for the second time, one uploader running. *)
Definition ex_pool : manager :=
  mk_manager [ex_erecord 2 ENGINE_HLS_UPLOAD_POOL 0 9; ex_erecord 1 ENGINE_HLS_UPLOAD_POOL 0 9] 2 2
    (mk_resources 4000 100 10 true [0; 1; 0; 1] [0; 50; 0; 900] scheduler_zero) (replicate 4 (mk_engine_state 1 0 0)) [0; 0; 0; 0] 0 0 0 0.
Lemma ex_pool_inv : manager_inv ex_pool.
Proof. split; try done; try (by apply (bool_decide_unpack _)). Qed.
Lemma pool_moves_witness :
  let next := (recommend_workers 9000000000 ENGINE_HLS_UPLOAD_POOL 1 1 4 ex_pool).1 in
  1 ≤ next ≤ 4 ∧ Z.abs (next - 1) ≤ 1 ∧
  (next = 1 + 1 ↔
     ¬ cpu_limit (mg_resources ex_pool) < 1 ⊕ other_workers (mg_resources ex_pool) ENGINE_HLS_UPLOAD_POOL ∧ 1 < 2 ∧ 1 ≤ 1 ∧ 100 < 800 ∧ 10 < 250 ∧
     2000 ≤ 4000 ∧ 1 < 4 ∧ 1 ⊕ other_workers (mg_resources ex_pool) ENGINE_HLS_UPLOAD_POOL < cpu_limit (mg_resources ex_pool) ∧
     (0 = 0 ∨ 2000 ≤ (9000000000 / 1000000) ⊖ 0)) ∧
  (next = 1 - 1 ↔
     1 < 1 ∧
     (cpu_limit (mg_resources ex_pool) < 1 ⊕ other_workers (mg_resources ex_pool) ENGINE_HLS_UPLOAD_POOL ∨
      2 = 0 ∧ 7 ≤ 0 ∧ 900 < 250 ∧ (0 = 0 ∨ 5000 ≤ (9000000000 / 1000000) ⊖ 0))).
Proof.
  apply (pool_moves 9000000000 ENGINE_HLS_UPLOAD_POOL 1 1 4 ex_pool).
  - by unfold valid_call, ENGINE_HLS_UPLOAD_POOL, ENGINE_MAX.
  - done.
  - apply ex_pool_inv.
  - lia.
  - lia.
Defined.

(** Senders on one, three and four lanes of a worker with eight CPUs: the number grows at
    6 s, is asked for too early at 7 s, and grows again at 8 s. *)
Definition ex_growing : list egress_op :=
  let lane n := OAdmit (ex_descriptor DEST_SRT ENGINE_SRT_SHARD n) in
  let ask ms current := ORecommend (ms * 1000000) ENGINE_SRT_SHARD current 1 16 in
  [OResources 8000 100 10; lane 3; ask 5000 1; lane 5; lane 7; ask 6000 1; lane 9; ask 7000 3; ask 8000 3].
Lemma growth_paced_witness :
  ∃ r s', egress_run ex_growing manager_init ex_store = Some (r, s') ∧
    growths ENGINE_SRT_SHARD ex_growing r.1 = [6000; 8000] ∧
    StronglySorted spaced (growths ENGINE_SRT_SHARD ex_growing r.1).
Proof.
  destruct (growth_paced ENGINE_SRT_SHARD ex_growing [0%N; 0%N] ex_store) as (r & s' & Hrun & H).
  - by unfold ENGINE_SRT_SHARD, ENGINE_MAX.
  - by repeat constructor.
  - done.
  - apply ex_store_owns.
  - by repeat constructor.
  - by repeat constructor.
  - exists r, s'. split; [exact Hrun|]. split; [|exact H]. clear H. vm_compute in Hrun. by injection Hrun as <- _.
Defined.
Lemma quota_reads_witness :
  quota_text (dec 150000 ++ 32 :: dec 100000 ++ 10 :: []) = 1500 ∧ quota_text (str_max ++ []) = 0 ∧ is_u64 (quota_text []).
Proof. apply (quota_reads 150000 100000 []); by vm_compute. Defined.

Definition ex_host : host := mk_host 7000000000 7000000200 3500000000 4 4 (λ _, None).
Lemma sample_bounded_witness :
  1 ≤ granted_milli ex_host ∧ 0 ≤ rs_worker_permille (mg_resources (worker_sample ex_host 12 ex_lanes)) ≤ 1000 ∧
  rs_lag (mg_resources (worker_sample ex_host 12 ex_lanes)) = 12 ∧ 1 ≤ rs_cpu_milli (mg_resources (worker_sample ex_host 12 ex_lanes)) ∧
  (rs_valid (mg_resources (worker_sample ex_host 12 ex_lanes)) = true ↔
     rs_valid (mg_resources ex_lanes) = true ∨
     ho_monotonic ex_host ≠ 0 ∧ ho_cputime ex_host ≠ 0 ∧ mg_wall ex_lanes ≠ 0 ∧ SECOND_NS ≤ ho_monotonic ex_host ⊖ mg_wall ex_lanes).
Proof. apply (sample_bounded ex_host 12 ex_lanes); by vm_compute. Defined.
